(* ===== verification/_CoqProject ===== *)
-Q . S2P
Prelude.v
Ordered.v
Json.v
Digests.v
Ids.v
StoreErrors.v
Decimal.v
Scope.v
BoundedJson.v
BoundedJsonLaws.v
Content.v
Failures.v
Extension.v
Accounting.v
Time.v
Capability.v
Costs.v
Budget.v
BudgetLaws.v
UsageLaws.v
UsageSums.v
Reservation.v
Checkpoint.v
Graph.v
GraphLaws.v
GraphComposition.v
GraphTemplateLaws.v
GraphCompositionLaws.v
Run.v
RunLaws.v
Lease.v
Journal.v
Wait.v
WaitLaws.v
Admission.v
Outbox.v
Barrier.v
Message.v
Model.v
Tool.v
ModelResponse.v
ModelTranscript.v
ModelRequest.v
ModelEvent.v
ToolInvocation.v
ToolInvocationLaws.v
ToolRuntime.v
GraphPlan.v
NodeAttempt.v
Recovery.v
RecoveryLaws.v
ChildRun.v
ChildBudget.v
ChildBudgetLaws.v
ChildJoin.v
FairScheduler.v
FairPolicy.v
FairStore.v
Scheduler.v
Sse.v
ToolRuntimeLaws.v
ModelRuntime.v
ModelInvocation.v
ModelInvocationLaws.v
NodeResult.v
Authorization.v
AuthorizationStore.v
AuthorizationLaws.v
ReceiptPages.v
Agent.v
ProviderRegistry.v
Executor.v
ToolExecutor.v
ModelExecutor.v
Driver.v
DriverLaws.v
