(* ===== verification/Prelude.v ===== *)
(** * StateKnot: a verification of its durable core

    StateKnot (src/crates) is a runtime for durable agent runs.  A run is
    admitted with a budget, driven by a worker that holds a fenced lease,
    suspended on interrupts, timers and child runs, and ended exactly once.  Its
    work is a compiled graph executed in supersteps: the ready nodes of a
    checkpoint produce results, a planner turns all of them into a barrier, and
    the barrier commits the successor checkpoint; a driver starts the attempts,
    collects and commits them, and a recovery planner says what a new owner may
    do with what an old one left.  Nodes call models and tools through ledgers
    of invocations, journal their facts in a hash chain, and publish through an
    outbox.  Workers find runs through a scheduler that shares a shard's
    capacity among tenants by durable, weighted slot reservations in PostgreSQL.
    Model providers answer through event streams that an incremental decoder
    cuts into events.

    ** Files and the code they model

    The laws of a component [X.v] follow its definitions, or are in [XLaws.v].

    Shared ground:
    - [Prelude]: Rust results as a monad, machine integer ranges, bytes,
      generic list lemmas, tactics and hint databases.
    - [Ordered]: [Ord] as a type class, [BTreeMap] as a strictly sorted
      association list, [BTreeSet], sorting by key, the halving loop of
      [binary_search_by_key].
    - [Json], [BoundedJson] (stateknot-core/src/canonical.rs, json.rs): values,
      canonical text, and the parser that enforces resource limits.
    - [Digests] (digest.rs), [Ids] (ids.rs), [Decimal] (decimal.rs, version.rs),
      [Scope] (scope.rs), [Failures] (failure.rs), [Extension] (extension.rs),
      [Content] (content.rs, artifact.rs, identity.rs), [Capability]
      (capability.rs), [Accounting] (accounting.rs), [Time] (time.rs): the
      validated values of stateknot-core.
    - [StoreErrors] (stateknot-store-postgres/src/error.rs): the errors callers
      tell apart, with [is_retryable].

    Budgets (stateknot-core/src/budget.rs, budget_reservation.rs,
    child_run_budget.rs):
    - [Costs], [Budget] (laws in [BudgetLaws] and [UsageLaws]), [UsageSums],
      [Reservation] and [ChildBudget], the account of a run and its children.

    Runs (run.rs, lease.rs, journal.rs, outbox.rs, wait.rs, agent_admission.rs,
    agent_runtime.rs, child_run*.rs, child_join.rs):
    - [Run] and [RunLaws]: statuses, wait sets, transitions, snapshots, and the
      abstract transition system that [apply] implements; [Lease]: fencing.
    - [Admission], [ChildRun], [ChildJoin]: requests, delegation and joins.
    - [Journal], [Outbox], [Wait]: the event chain, deliveries, durable waits.

    Graphs (checkpoint.rs, graph.rs, child_run_policy.rs, graph_composition.rs,
    barrier.rs, node_result.rs, node_attempt.rs, recovery.rs):
    - [Checkpoint], [Graph], [GraphComposition] (laws in [GraphTemplateLaws] and
      [GraphCompositionLaws]), [Barrier], [GraphPlan], [NodeAttempt],
      [NodeResult] and [Recovery].
    - [Driver] (stateknot-runtime/src/driver.rs): the durable drive of one
      claimed run over an arbitrary world.

    Models, tools and agents (message.rs, model.rs, model_request.rs,
    model_response.rs, model_transcript.rs, model_event.rs, model_runtime.rs,
    model_invocation.rs, tool.rs, tool_runtime.rs, tool_invocation.rs, agent.rs):
    - [Message], [Model], [ModelRequest], [ModelResponse], [ModelTranscript],
      [ModelEvent], [ModelRuntime], [ModelInvocation]; [Tool], [ToolRuntime],
      [ToolInvocation]; [Agent].
    - [ProviderRegistry] (stateknot-runtime/src/provider_registry.rs): exact
      registration and lookup of models and tools.
    - [Executor], [ToolExecutor], [ModelExecutor]
      (stateknot-runtime/src/invocation_executor.rs): one attempt of a call over
      an arbitrary world, from the durable start to the recorded evidence, and the
      reconciliation of tool writes.

    Authorization (skill_authorization.rs, tool_authorization.rs,
    stateknot-store-postgres/src/skill_activation_windows.rs and
    tool_authorization_receipts.rs):
    - [Authorization], [AuthorizationStore], [AuthorizationLaws], [ReceiptPages].

    Scheduling (stateknot-runtime/src/fair_scheduler.rs, tenant_scheduler.rs,
    stateknot-store-postgres/src/store.rs and model.rs):
    - [FairScheduler], [FairPolicy]: the smooth weighted round robin compiler,
      its starvation bounds, the policy constructor and lookups.
    - [FairStore]: the two fairness tables and their transactions under
      interleaving and faults.
    - [Scheduler]: the tenant tick and the fair tick over an arbitrary world.

    Event streams (stateknot-integrations/src/sse.rs): [Sse].

    ** How code becomes definitions

    Machine integers are [Z] with the range written as a predicate ([is_u64],
    [is_i64]); every checked operation carries its width check.  A fallible
    function returns [result E A]; one that could panic or run out of fuel
    returns an [option] around it, or a sum with [Panic] or [OutOfFuel].
    Structs are records, enums are inductive types with the source's variants,
    ordered maps are sorted association lists, database tables are finite maps.
    The order of the checks of each function is the order of the source, so the
    reported error is the source's.  Loops over the outside world (scheduler,
    driver, executors) are computations over a type class [Env] whose operations
    may answer anything and move the world anywhere; the driver and the executors
    also log what they did.

    Code outside the repository is a parameter: SHA-256, the serde serialisers
    and canonical encoders, the JSON text parser and the text of floats, the
    parsers of URIs, media types and language tags, the [uuid] and [chrono]
    crates, the schema registry, the reducer, and the implementations of models
    and tools.  No theorem assumes more of a hash than that it is a function, and
    uniqueness is stated up to a collision.  Digest encoders are assumed injective where
    uniqueness needs it (lineages, journals, wait heads, the histories of tool
    and model calls), and total where an operation must succeed (wait
    completions, restored records, transcripts).  Acting windows need serde
    conversions that round-trip and digests of 32 bytes, paging needs receipt
    identifiers that are positive.  Each such assumption is a hypothesis of the
    theorem, and its witness instantiates it.

    ** What the theorems show

    - Values: parsing accepts exactly the printed texts, arithmetic is exact or
      refuses, conversions round-trip; the bounded parser accepts exactly the
      documents within its limits; content and extension sets are canonical.
    - Budgets: resolution takes the most restrictive layer whatever their order;
      remaining capacity is limit minus usage; a narrowed child cannot spend
      what its parent could not; reservations and child accounts never
      over-commit, and the account invariant is kept by every operation.
    - Runs: [apply] refines the abstract transition system; every reachable
      lifecycle passes snapshot validation; an old fence is rejected for ever
      after a supersession; delegation stays within its policy and ends; joins
      bind exactly the sealed children; durable waits agree with the lifecycle.
    - Journal and outbox: a verified chain is contiguous and unique; deliveries
      are claimed one at a time and end.
    - Graphs: compilation accepts exactly the well-formed graphs; a plan makes
      ready exactly the declared successors and does not depend on the order of
      the results; executions keep their limits and leave a lineage the verifier
      accepts; composition inlines templates exactly and bounded calls end.
    - Attempts and recovery: verified histories are ordered and fenced; replayed
      observations decide, independently of their order, what may be dispatched,
      deferred or is exhausted; a node result consumes only settled outcomes.
    - The driver: no drive exceeds its work quantum; nothing is launched without
      a start committed by this drive, nothing settled that was not launched;
      retries and delays are bounded and the lease is released exactly on the
      outcomes that say so.
    - Models and tools: both invocation ledgers refine a small abstract machine;
      a tool without safe retries is executed at most once; records restore;
      boundary errors are classified, contexts are bounded; requests,
      transcripts and responses conform; assembling a stream of events gives the
      response that was sent, and that answer can be recorded.
    - The executors: whatever the world answers, nothing is called before its
      start is committed and nothing twice; the evidence is recorded or handed
      back, with exactly the cases the ledger refuses; the sink of a stream has the
      very events its response is assembled from; only a provider's own error can
      license a retry, and a write stopped before its call is of unknown outcome.
    - Authorization: a revocation is final, receipts are recorded once under a
      live window, and reading pages returns each receipt once and ends.
    - Fairness: the compiled cycle is exact and never a slot ahead of the share;
      the bound holds of the reservations recorded in the store; both ticks
      return in every world within the configured pages, attempts and delays.
    - Streams: the decoder keeps its ceilings, and its events do not depend on
      chunk boundaries except inside a CR LF pair.

    ** Bounds and fuel

    Loops whose recursion is not structural take fuel computed by their caller,
    and a theorem shows it is enough: the width of the [u64] for digit loops, the
    input length for the line loop of [push], the entries plus all successors
    for the reachability queue, the number of nodes for boundary passes and the
    template queue, the receipts plus one for the paging reader, the configured
    attempt and page counts for the scheduler loops and retries, the events an
    attempt may number for the stream of a model.  The fuel of a
    drive is an argument: below the work quantum plus the answers that a wake-up
    is already due it may run out, above it does not.  The result pages and the
    wake-ups of a batch are as many as the world sends, so their loops end only
    when the world does.

    ** Not modelled

    Serde adapters, tracing and SQL text.  In the database, the tables outside
    fairness and authorization are answers of the driver's and the executors' world;
    the pruning of old reservations is missing.  The agent loop and the services
    around it, provider adapters, MCP and A2A, the artifact store,
    hosts and examples are orchestration and I/O around this core.  In a batch a
    lease renewal that has begun runs to its end before the next wake-up. *)

From Stdlib Require Import ZArith Lia String Ascii.
From stdpp Require Import prelude.

Open Scope Z_scope.

(** * Rust results

    [Result<A, E>] with the error type first, so that [result E] is a monad
    and [x ← e; k] is the source's [let x = e?; k]. *)

Inductive result (E A : Type) : Type :=
| Ok (a : A)
| Err (e : E).
Arguments Ok {E A} a.
Arguments Err {E A} e.

#[export] Instance result_ret {E} : MRet (result E) := fun A a => Ok a.
#[export] Instance result_bind {E} : MBind (result E) := fun A B f r =>
  match r with Ok a => f a | Err e => Err e end.
#[export] Instance result_fmap {E} : FMap (result E) := fun A B f r =>
  match r with Ok a => Ok (f a) | Err e => Err e end.

(** [Result::map_err], [Option::ok_or] and [Result::ok]. *)
Definition map_err {E F A} (f : E -> F) (r : result E A) : result F A :=
  match r with Ok a => Ok a | Err e => Err (f e) end.

Definition ok_or {E A} (o : option A) (e : E) : result E A :=
  match o with Some a => Ok a | None => Err e end.

Definition is_ok {E A} (r : result E A) : bool :=
  match r with Ok _ => true | Err _ => false end.

(** The outcome of code that may also panic. *)
Inductive fault (E : Type) : Type := Panic | Fail (e : E).
Arguments Panic {E}.
Arguments Fail {E} e.

(** [Option::is_none]. *)
Definition is_none {A} (o : option A) : bool := match o with None => true | Some _ => false end.

(** A guard of the form [if bad { return Err(e) }]. *)
Definition reject_if {E} (bad : bool) (e : E) : result E unit :=
  if bad then Err e else Ok tt.

#[export] Instance result_eq_dec {E A} `{EqDecision E, EqDecision A} : EqDecision (result E A).
Proof. solve_decision. Defined.

Section result_lemmas.
Context {E F A B : Type}.

Lemma bind_Ok (f : A -> result E B) (r : result E A) (b : B) :
  (r ≫= f) = Ok b <-> exists a, r = Ok a /\ f a = Ok b.
Proof.
  destruct r as [a|e]; simpl; split.
  - intros H. by exists a.
  - intros (a' & [= ->] & H). done.
  - intros H. discriminate.
  - intros (a' & H & _). discriminate.
Qed.

Lemma bind_Err (f : A -> result E B) (r : result E A) (e : E) :
  (r ≫= f) = Err e <-> r = Err e \/ exists a, r = Ok a /\ f a = Err e.
Proof.
  destruct r as [a|e']; simpl; split.
  - intros H. right. by exists a.
  - intros [H | (a' & [= ->] & H)]; [discriminate | done].
  - intros [= ->]. by left.
  - intros [[= ->] | (a' & H & _)]; [done | discriminate].
Qed.

Lemma ok_or_Ok (o : option A) (e : E) (a : A) : ok_or o e = Ok a <-> o = Some a.
Proof. destruct o; simpl; split; intros [=]; by subst. Qed.

Lemma map_err_Ok (f : E -> F) (r : result E A) (a : A) : map_err f r = Ok a <-> r = Ok a.
Proof. destruct r; simpl; split; intros [=]; by subst. Qed.

Lemma reject_if_Ok (b : bool) (e : E) (u : unit) : reject_if b e = Ok u <-> b = false.
Proof. destruct b, u; simpl; split; intros; by try discriminate. Qed.

Lemma reject_if_Err (b : bool) (e e' : E) : reject_if b e = Err e' <-> b = true /\ e = e'.
Proof. destruct b; simpl; split; [intros [= ->] | intros [_ ->] | intros [=] | intros [[=] _]]; done. Qed.
End result_lemmas.

(** [solve_ok] decomposes every hypothesis that says a chain of [?] returned
    [Ok]; [bool_lia] turns boolean guards into arithmetic and calls [lia]. *)
Ltac simp_ok_step :=
  match goal with
  | H : Err _ = Ok _ |- _ => discriminate H
  | H : Ok _ = Err _ |- _ => discriminate H
  | H : Ok _ = Ok _ |- _ => apply (f_equal (fun r => match r with Ok a => Some a | Err _ => None end)) in H;
                            injection H as H
  | H : (_ ≫= _) = Ok _ |- _ => apply bind_Ok in H; destruct H as (? & ? & ?)
  | H : ok_or _ _ = Ok _ |- _ => apply ok_or_Ok in H
  | H : map_err _ _ = Ok _ |- _ => apply map_err_Ok in H
  | H : reject_if _ _ = Ok _ |- _ => apply reject_if_Ok in H
  | H : (if ?b then Err _ else _) = Ok _ |- _ => destruct b eqn:?
  end.
Ltac simp_ok := repeat (simp_ok_step; simpl in *).

(** [open_guard H] takes apart one guard, [?] or match of [H : chain = Ok r];
    [guard_iff] proves [chain = Ok r <-> conditions] for a chain of guards. *)
Ltac open_guard H :=
  match type of H with
  | (if negb (bool_decide ?P) then Err _ else _) = Ok _ =>
      destruct (bool_decide_reflect P); cbn [negb] in H; [| discriminate H]
  | (if bool_decide ?P then Err _ else _) = Ok _ => destruct (bool_decide_reflect P); [discriminate H |]
  | (if ?a <? ?b then Err _ else _) = Ok _ => destruct (Z.ltb_spec a b); [discriminate H |]
  | (if ?a <=? ?b then Err _ else _) = Ok _ => destruct (Z.leb_spec a b); [discriminate H |]
  | (if ?a =? ?b then Err _ else _) = Ok _ => destruct (Z.eqb_spec a b); [discriminate H |]
  | (if ?b then Err _ else _) = Ok _ => let E := fresh "Hguard" in destruct b eqn:E; [discriminate H |]
  | (_ ≫= _) = Ok _ => let x := fresh "x" in let Hx := fresh "Hx" in apply bind_Ok in H; destruct H as (x & Hx & H)
  end.
Ltac open_guards H := repeat (open_guard H).

Ltac refuted := split; [discriminate | solve [naive_solver | intros; exfalso; naive_solver lia]].
Ltac guard_iff_step :=
  match goal with
  | |- (if negb (bool_decide ?P) then Err _ else _) = Ok _ <-> _ => destruct (bool_decide_reflect P); cbn [negb]; [| refuted]
  | |- (if bool_decide ?P then Err _ else _) = Ok _ <-> _ => destruct (bool_decide_reflect P); [refuted |]
  | |- (if ?a <? ?b then Err _ else _) = Ok _ <-> _ => destruct (Z.ltb_spec a b); [refuted |]
  | |- (if ?a <=? ?b then Err _ else _) = Ok _ <-> _ => destruct (Z.leb_spec a b); [refuted |]
  | |- (if ?a =? ?b then Err _ else _) = Ok _ <-> _ => destruct (Z.eqb_spec a b); [refuted |]
  end.
Ltac guard_iff := repeat guard_iff_step.

(** [step_ok] runs a [?] whose operand is known to be [Ok]. *)
Ltac step_ok :=
  repeat match goal with
  | |- context[mbind ?f (Ok ?x)] => change (mbind f (Ok x)) with (f x); cbv beta
  end.

Ltac bools :=
  repeat match goal with
  | H : (_ && _) = true |- _ => apply andb_true_iff in H; destruct H
  | H : (_ || _) = false |- _ => apply orb_false_iff in H; destruct H
  | H : negb _ = true |- _ => apply negb_true_iff in H
  | H : negb _ = false |- _ => apply negb_false_iff in H
  | H : (_ <? _) = true |- _ => apply Z.ltb_lt in H
  | H : (_ <? _) = false |- _ => apply Z.ltb_ge in H
  | H : (_ <=? _) = true |- _ => apply Z.leb_le in H
  | H : (_ <=? _) = false |- _ => apply Z.leb_gt in H
  | H : (_ >? _) = _ |- _ => rewrite Z.gtb_ltb in H
  | H : (_ >=? _) = _ |- _ => rewrite Z.geb_leb in H
  | H : (_ =? _) = true |- _ => apply Z.eqb_eq in H
  | H : (_ =? _) = false |- _ => apply Z.eqb_neq in H
  | H : bool_decide _ = true |- _ => apply bool_decide_eq_true in H
  | H : bool_decide _ = false |- _ => apply bool_decide_eq_false in H
  end.
Ltac bool_lia := bools; lia.

Create HintDb sk.

(** * Machine integers

    A [u8], [u16], [u32], [u64] or [i64] is a [Z] with its width written out;
    the checked operations return [None] outside the width, exactly like
    [checked_add], [checked_sub] and [checked_mul]. *)

Definition u8_max : Z := 255.
Definition u16_max : Z := 65535.
Definition u32_max : Z := 4294967295.
Definition u64_max : Z := 18446744073709551615.
Definition i64_min : Z := -9223372036854775808.
Definition i64_max : Z := 9223372036854775807.

Definition in_u (max z : Z) : Prop := 0 <= z <= max.
Abbreviation is_u64 := (in_u u64_max).
Abbreviation is_u16 := (in_u u16_max).
Abbreviation is_u8 := (in_u u8_max).
Definition is_i64 (z : Z) : Prop := i64_min <= z <= i64_max.

Definition checked_add (max a b : Z) : option Z :=
  if a + b <=? max then Some (a + b) else None.
Definition checked_sub (a b : Z) : option Z :=
  if b <=? a then Some (a - b) else None.
Definition checked_mul (max a b : Z) : option Z :=
  if a * b <=? max then Some (a * b) else None.
Definition saturating_add (max a b : Z) : Z := Z.min max (a + b).
Definition saturating_sub (a b : Z) : Z := Z.max 0 (a - b).

Lemma checked_add_Some max a b c :
  checked_add max a b = Some c <-> c = a + b /\ a + b <= max.
Proof.
  unfold checked_add. destruct (Z.leb_spec (a + b) max);
    split; [intros [= <-] | intros [-> _] | intros [=] | intros [-> ?]]; auto; lia.
Qed.

Lemma checked_add_None max a b : checked_add max a b = None <-> max < a + b.
Proof. unfold checked_add. destruct (Z.leb_spec (a + b) max); split; intros; try done; lia. Qed.

Lemma checked_sub_Some a b c : checked_sub a b = Some c <-> c = a - b /\ b <= a.
Proof.
  unfold checked_sub. destruct (Z.leb_spec b a);
    split; [intros [= <-] | intros [-> _] | intros [=] | intros [-> ?]]; auto; lia.
Qed.

Lemma checked_sub_None a b : checked_sub a b = None <-> a < b.
Proof. unfold checked_sub. destruct (Z.leb_spec b a); split; intros; try done; lia. Qed.

Lemma checked_mul_Some max a b c :
  checked_mul max a b = Some c <-> c = a * b /\ a * b <= max.
Proof.
  unfold checked_mul. destruct (Z.leb_spec (a * b) max);
    split; [intros [= <-] | intros [-> _] | intros [=] | intros [-> ?]]; auto; lia.
Qed.

(** * Byte strings

    A Rust [str] or [[u8]] is the list of its bytes, each a [Z] in 0..255. *)

Abbreviation bytes := (list Z).
Definition is_byte (b : Z) : Prop := 0 <= b <= 255.

Fixpoint bytes_of (s : string) : bytes :=
  match s with
  | EmptyString => []
  | String a s' => Z.of_N (N_of_ascii a) :: bytes_of s'
  end.

Export String.StringSyntax.
Arguments bytes_of s%_string.

(** [std::str::from_utf8]: the well-formed byte sequences of the Unicode
    standard (table 3-7). *)
Definition between (lo hi b : Z) : bool := (lo <=? b) && (b <=? hi).
Definition continuation (b : Z) : bool := between 128 191 b.

Fixpoint utf8_loop (fuel : nat) (s : bytes) : bool :=
  match fuel with
  | O => match s with [] => true | _ => false end
  | S fuel' =>
      match s with
      | [] => true
      | b0 :: r0 =>
          if between 0 127 b0 then utf8_loop fuel' r0 else
          match r0 with
          | b1 :: r1 =>
              if between 194 223 b0 && continuation b1 then utf8_loop fuel' r1 else
              match r1 with
              | b2 :: r2 =>
                  if ((b0 =? 224) && between 160 191 b1 || between 225 236 b0 && continuation b1
                      || (b0 =? 237) && between 128 159 b1 || between 238 239 b0 && continuation b1) && continuation b2
                  then utf8_loop fuel' r2 else
                  match r2 with
                  | b3 :: r3 =>
                      ((b0 =? 240) && between 144 191 b1 || between 241 243 b0 && continuation b1
                       || (b0 =? 244) && between 128 143 b1) && continuation b2 && continuation b3
                      && utf8_loop fuel' r3
                  | [] => false
                  end
              | [] => false
              end
          | [] => false
          end
      end
  end.
Definition utf8_valid (s : bytes) : bool := utf8_loop (length s) s.

(** [Iterator::position]. *)
Fixpoint position {A} (p : A -> bool) (l : list A) : option nat :=
  match l with
  | [] => None
  | x :: l' => if p x then Some 0%nat else S <$> position p l'
  end.

Lemma position_None {A} (p : A -> bool) (l : list A) :
  position p l = None <-> Forall (fun x => p x = false) l.
Proof.
  induction l as [|x l IH]; simpl; [by split |].
  rewrite Forall_cons. destruct (p x).
  - split; [done | intros [? _]; done].
  - rewrite fmap_None, IH. naive_solver.
Qed.

Lemma position_Some {A} (p : A -> bool) (l : list A) (i : nat) :
  position p l = Some i <->
  exists l1 x l2, l = l1 ++ x :: l2 /\ length l1 = i /\ p x = true /\ Forall (fun y => p y = false) l1.
Proof.
  revert i. induction l as [|x l IH]; intros i; simpl.
  - split; [done | intros ([|? ?] & ? & ? & ? & _); discriminate].
  - destruct (p x) eqn:Hx; split.
    + intros [= <-]. by exists [], x, l.
    + intros ([|y l1] & z & l2 & [= -> ->] & <- & Hz & HF); [done |].
      inversion HF; congruence.
    + intros (j & Hj & ->)%fmap_Some. destruct (proj1 (IH j) Hj) as (l1 & z & l2 & -> & <- & Hz & HF).
      exists (x :: l1), z, l2. by repeat constructor.
    + intros ([|y l1] & z & l2 & [= -> ->] & <- & Hz & HF); [congruence |].
      inversion HF; subst. simpl. apply fmap_Some. exists (length l1). split; [| done].
      apply IH. by exists l1, z, l2.
Qed.

Lemma existsb_false_iff {A} (p : A -> bool) (l : list A) : existsb p l = false <-> Forall (fun x => p x = false) l.
Proof. induction l as [|x l IH]; simpl; [by split |]. by rewrite orb_false_iff, IH, Forall_cons. Qed.

(** Folding a fallible step over a list: [for x in l { s = f(s, x)?; }]. *)
Fixpoint try_fold {E A S} (f : S -> A -> result E S) (s : S) (l : list A) : result E S :=
  match l with
  | [] => Ok s
  | x :: l' => s' ← f s x; try_fold f s' l'
  end.

Lemma try_fold_app {E A S} (f : S -> A -> result E S) (s : S) (l1 l2 : list A) :
  try_fold f s (l1 ++ l2) = (s' ← try_fold f s l1; try_fold f s' l2).
Proof. revert s. induction l1 as [|x l1 IH]; intros s; [done |]. simpl. by destruct (f s x); simpl. Qed.

(** A panic comes from one of the parts. *)
Lemma bind_panic {E A B} (r : result (fault E) A) (f : A -> result (fault E) B) :
  r ≫= f = Err Panic -> r = Err Panic \/ exists a, r = Ok a /\ f a = Err Panic.
Proof. destruct r as [a|e]; simpl; [intros H; right; by exists a | intros [= ->]; by left]. Qed.

Lemma try_fold_panic {E A S} (f : S -> A -> result (fault E) S) (s : S) (l : list A) :
  try_fold f s l = Err Panic -> exists x s', x ∈ l /\ f s' x = Err Panic.
Proof.
  revert s. induction l as [|x l IH]; intros s HP; [done |]. cbn [try_fold] in HP. apply bind_panic in HP as [HP|(s' & _ & HP)].
  - exists x, s. split; [by left | done].
  - destruct (IH s' HP) as (y & s2 & Hy & Hp). exists y, s2. split; [by right | done].
Qed.

Lemma try_fold_invariant {E A S} (P : S -> Prop) (f : S -> A -> result E S) (l : list A) s s' :
  (forall s x s', x ∈ l -> P s -> f s x = Ok s' -> P s') ->
  P s -> try_fold f s l = Ok s' -> P s'.
Proof.
  revert s. induction l as [|x l IH]; intros s Hstep Hs Hf; simpl in Hf; simp_ok; [by subst |].
  eapply IH; [ | | eassumption].
  - intros s0 y s1 Hy. apply Hstep. by right.
  - eapply Hstep; eauto. by left.
Qed.

(** A loop of pure checks succeeds exactly when every check does, and fails
    with the first failing check. *)
Lemma try_fold_checks {E A} (f : unit -> A -> result E unit) (l : list A) (u : unit) :
  try_fold f tt l = Ok u <-> Forall (fun x => f tt x = Ok tt) l.
Proof.
  destruct u. induction l as [|x l IH]; simpl; [by split |].
  rewrite Forall_cons, <- IH. destruct (f tt x) as [[]|e]; simpl; naive_solver.
Qed.

Lemma try_fold_first_failure {E A} (f : unit -> A -> result E unit) (l : list A) (e : E) :
  try_fold f tt l = Err e ->
  exists l1 x l2, l = l1 ++ x :: l2 /\ Forall (fun y => f tt y = Ok tt) l1 /\ f tt x = Err e.
Proof.
  induction l as [|x l IH]; simpl; [done |].
  destruct (f tt x) as [[]|e'] eqn:Hx; simpl.
  - intros (l1 & y & l2 & -> & HF & Hy)%IH. exists (x :: l1), y, l2. split_and!; [done | by constructor | done].
  - intros [= ->]. exists [], x, l. by split_and!.
Qed.

(** [iter.map(f).collect::<Result<Vec<_>, _>>()]. *)
Lemma mapM_Ok {E A B} (f : A -> result E B) (l : list A) (k : list B) :
  mapM f l = Ok k <-> Forall2 (fun x y => f x = Ok y) l k.
Proof.
  revert k. induction l as [|x l IH]; intros k; simpl.
  - split; [intros [= <-]; constructor | by inversion 1].
  - rewrite bind_Ok. split.
    + intros (y & Hy & H). apply bind_Ok in H as (k' & Hk & H). injection H as <-. constructor; [done |]. by apply IH.
    + inversion 1 as [|? y ? k' Hy Hk]; subst. exists y. split; [done |]. apply bind_Ok. exists k'. split; [by apply IH | done].
Qed.

Lemma mapM_total {E A B} (f : A -> result E B) (l : list A) :
  Forall (fun x => exists y, f x = Ok y) l -> exists k, mapM f l = Ok k.
Proof.
  induction 1 as [|x l [y Hy] _ [k Hk]]; simpl; [by exists [] |]. rewrite Hy. simpl. rewrite Hk. by exists (y :: k).
Qed.

(** An element with a unique key splits a list in one way only. *)
Lemma NoDup_split_unique {A K} (f : A -> K) (l1 l2 m1 m2 : list A) (x : A) :
  NoDup (f <$> (l1 ++ x :: l2)) -> l1 ++ x :: l2 = m1 ++ x :: m2 -> m1 = l1 /\ m2 = l2.
Proof.
  revert m1. induction l1 as [|a l1 IH]; intros [|b m1] Hn E; simpl in *.
  - by injection E as ->.
  - injection E as <- E. apply NoDup_cons in Hn as [Hn _]. destruct Hn. rewrite E.
    apply list_elem_of_fmap. exists x. split; [done |]. apply elem_of_app. right. by left.
  - injection E as -> E. apply NoDup_cons in Hn as [Hn _]. destruct Hn.
    apply list_elem_of_fmap. exists x. split; [done |]. apply elem_of_app. right. by left.
  - injection E as -> E. apply NoDup_cons in Hn as [_ Hn]. by destruct (IH m1 Hn E) as [-> ->].
Qed.
