(* ===== verification/Ordered.v ===== *)
(** Total orders and the ordered containers of the Rust standard library that
    the program uses: [Ord] as a type class, [BTreeMap] as an association
    list kept strictly sorted by key, and [binary_search_by_key] on a slice as
    the halving loop of [core::slice].  Every container keyed by a currency,
    a tenant or a digest in the other files is one of these. *)

From Stdlib Require Import ZArith Lia.
From stdpp Require Import prelude sorting.
From S2P Require Import Prelude.

Open Scope Z_scope.

(** * [Ord] *)

Class RustOrd (A : Type) := {
  cmp : A -> A -> comparison;
  cmp_eq_iff : forall a b, cmp a b = Eq <-> a = b;
  cmp_opp : forall a b, cmp b a = CompOpp (cmp a b);
  cmp_lt_trans : forall a b c, cmp a b = Lt -> cmp b c = Lt -> cmp a c = Lt;
}.

#[global] Arguments cmp : simpl never.

Section ord_lemmas.
Context `{RustOrd A}.
Implicit Types a b c : A.

Lemma cmp_refl a : cmp a a = Eq.
Proof. by apply cmp_eq_iff. Qed.

Lemma cmp_gt_lt a b : cmp a b = Gt <-> cmp b a = Lt.
Proof. rewrite (cmp_opp a b). by destruct (cmp a b). Qed.

Lemma cmp_lt_irrefl a : cmp a a <> Lt.
Proof. by rewrite cmp_refl. Qed.

Lemma cmp_lt_ne a b : cmp a b = Lt -> a <> b.
Proof. intros Hl ->. by apply (cmp_lt_irrefl b). Qed.

Definition eqb_cmp a b : bool := match cmp a b with Eq => true | _ => false end.

Lemma eqb_cmp_spec a b : eqb_cmp a b = true <-> a = b.
Proof. unfold eqb_cmp. rewrite <- cmp_eq_iff. by destruct (cmp a b). Qed.

#[global] Instance ord_eq_dec : EqDecision A | 100.
Proof.
  intros a b. destruct (cmp a b) eqn:E.
  - left. by apply cmp_eq_iff.
  - right. intros ->. by apply (cmp_lt_irrefl b).
  - right. intros ->. rewrite cmp_refl in E. discriminate.
Defined.
End ord_lemmas.

#[export] Instance Z_ord : RustOrd Z.
Proof.
  refine {| cmp := Z.compare |}.
  - apply Z.compare_eq_iff.
  - intros a b. apply Z.compare_antisym.
  - intros a b c. rewrite !Z.compare_lt_iff. lia.
Defined.

(** Slices, arrays and strings compare lexicographically. *)
Fixpoint list_cmp {A} `{RustOrd A} (l1 l2 : list A) : comparison :=
  match l1, l2 with
  | [], [] => Eq
  | [], _ :: _ => Lt
  | _ :: _, [] => Gt
  | x :: l1', y :: l2' => match cmp x y with Eq => list_cmp l1' l2' | c => c end
  end.

#[export] Instance list_ord {A} `{RustOrd A} : RustOrd (list A).
Proof.
  refine {| cmp := list_cmp |}.
  - induction a as [|x a IH]; intros [|y b]; simpl; try done.
    destruct (cmp x y) eqn:E.
    + apply cmp_eq_iff in E as ->. rewrite IH. split; congruence.
    + split; [done |]. intros [= -> ->]. by destruct (cmp_lt_irrefl y).
    + split; [done |]. intros [= -> ->]. rewrite cmp_refl in E. discriminate.
  - induction a as [|x a IH]; intros [|y b]; simpl; try done.
    rewrite (cmp_opp x y). destruct (cmp x y); simpl; auto.
  - induction a as [|x a IH]; intros [|y b] [|z c]; simpl; try done.
    destruct (cmp x y) eqn:E1; [apply cmp_eq_iff in E1 as -> | | done];
      destruct (cmp y z) eqn:E2; try done; [apply IH | |].
    + apply cmp_eq_iff in E2 as ->. by rewrite E1.
    + by rewrite (cmp_lt_trans _ _ _ E1 E2).
Defined.

(** Tuples compare component by component. *)
Definition prod_cmp {A B} `{RustOrd A, RustOrd B} (p q : A * B) : comparison :=
  match cmp p.1 q.1 with Eq => cmp p.2 q.2 | c => c end.

#[export] Instance prod_ord {A B} `{RustOrd A, RustOrd B} : RustOrd (A * B).
Proof.
  refine {| cmp := prod_cmp |}; unfold prod_cmp.
  - intros [a b] [a' b']; simpl. destruct (cmp a a') eqn:E.
    + apply cmp_eq_iff in E as ->. rewrite cmp_eq_iff. split; congruence.
    + split; [done |]. intros [= -> ->]. by destruct (cmp_lt_irrefl a').
    + split; [done |]. intros [= -> ->]. rewrite cmp_refl in E. discriminate.
  - intros [a b] [a' b']; simpl. rewrite (cmp_opp a a'). destruct (cmp a a'); simpl; [apply cmp_opp | done..].
  - intros [a1 b1] [a2 b2] [a3 b3]; simpl.
    destruct (cmp a1 a2) eqn:E1; [apply cmp_eq_iff in E1 as -> | | done];
      destruct (cmp a2 a3) eqn:E2; try done; [apply cmp_lt_trans | |].
    + apply cmp_eq_iff in E2 as ->. by rewrite E1.
    + by rewrite (cmp_lt_trans _ _ _ E1 E2).
Defined.

(** A derived order read off an injective key: a variant's rank with its fields. *)
Definition ord_via {A K} `{RustOrd K} (f : A -> K) (inj : forall a b, f a = f b -> a = b) : RustOrd A.
Proof.
  refine {| cmp := fun a b => cmp (f a) (f b) |}.
  - intros a b. rewrite cmp_eq_iff. split; [apply inj | by intros ->].
  - intros a b. apply cmp_opp.
  - intros a b c. apply cmp_lt_trans.
Defined.

(** * Strictly sorted keyed slices

    [key] extracts the key of an element: the identity of a [Money] is its
    currency, that of a [BTreeMap] entry its first component. *)

Section sorted_slices.
Context `{RustOrd K} {A : Type} (key : A -> K).
Implicit Types l : list A.

Inductive ksorted : list A -> Prop :=
| ksorted_nil : ksorted []
| ksorted_cons x l : Forall (fun y => cmp (key x) (key y) = Lt) l -> ksorted l -> ksorted (x :: l).

Lemma ksorted_lookup_lt l i j x y :
  ksorted l -> l !! i = Some x -> l !! j = Some y -> (i < j)%nat -> cmp (key x) (key y) = Lt.
Proof.
  intros Hs. revert i j. induction Hs as [|z l HF Hs IH]; intros [|i] [|j] Hx Hy Hij; simpl in *; try lia; try done.
  - simplify_eq. rewrite Forall_lookup in HF. eauto.
  - eapply IH; eauto; lia.
Qed.

Lemma ksorted_key_inj l x y :
  ksorted l -> x ∈ l -> y ∈ l -> key x = key y -> x = y.
Proof.
  intros Hs (i & Hi)%list_elem_of_lookup (j & Hj)%list_elem_of_lookup Hk.
  destruct (lt_eq_lt_dec i j) as [[Hij | ->] | Hij].
  - destruct (cmp_lt_ne _ _ (ksorted_lookup_lt _ _ _ _ _ Hs Hi Hj Hij)). done.
  - congruence.
  - destruct (cmp_lt_ne _ _ (ksorted_lookup_lt _ _ _ _ _ Hs Hj Hi Hij)). done.
Qed.

Lemma ksorted_filter (P : A -> Prop) `{forall x, Decision (P x)} l :
  ksorted l -> ksorted (filter P l).
Proof.
  induction 1 as [|x l HF Hs IH]; [constructor |].
  rewrite filter_cons. case_decide; [| done]. constructor; [| done]. rewrite Forall_forall in *. intros y [_ ?]%list_elem_of_filter. auto.
Qed.

(** Two sorted slices with the same elements are the same slice. *)
Lemma ksorted_ext l1 l2 :
  ksorted l1 -> ksorted l2 -> (forall x, x ∈ l1 <-> x ∈ l2) -> l1 = l2.
Proof.
  intros Hs1. revert l2. induction Hs1 as [|x l1 HF1 Hs1 IH]; intros l2 Hs2 Hiff.
  - destruct l2 as [|y l2]; [done |]. exfalso. apply (not_elem_of_nil y), Hiff. by left.
  - destruct Hs2 as [|y l2 HF2 Hs2].
    { exfalso. apply (not_elem_of_nil x), Hiff. by left. }
    rewrite Forall_forall in HF1, HF2.
    assert (x = y) as ->.
    { assert (x ∈ y :: l2) as [-> | Hx]%elem_of_cons by (apply Hiff; by left); [done |].
      assert (y ∈ x :: l1) as [-> | Hy]%elem_of_cons by (apply Hiff; by left); [done |].
      destruct (cmp_lt_irrefl (key x)). eapply cmp_lt_trans; eauto. }
    f_equal. apply IH; [done |]. intros z. specialize (Hiff z). rewrite !elem_of_cons in Hiff.
    split; intros Hz.
    + destruct (proj1 Hiff (or_intror Hz)) as [-> | ?]; [| done].
      destruct (cmp_lt_irrefl (key y)). by apply HF1.
    + destruct (proj2 Hiff (or_intror Hz)) as [-> | ?]; [| done].
      destruct (cmp_lt_irrefl (key y)). by apply HF2.
Qed.

(** The reference lookup: the first element with the given key. *)
Fixpoint find_key (k : K) l : option A :=
  match l with
  | [] => None
  | x :: l' => if eqb_cmp (key x) k then Some x else find_key k l'
  end.

Lemma find_key_Some k l x : find_key k l = Some x -> x ∈ l /\ key x = k.
Proof.
  induction l as [|y l IH]; simpl; [done |].
  destruct (eqb_cmp (key y) k) eqn:E.
  - intros [= ->]. apply eqb_cmp_spec in E. split; [by left | done].
  - intros [? ?]%IH. split; [by right | done].
Qed.

Lemma find_key_None k l : find_key k l = None <-> forall x, x ∈ l -> key x <> k.
Proof.
  induction l as [|y l IH]; simpl.
  - split; [intros _ x Hx; by apply not_elem_of_nil in Hx | done].
  - destruct (eqb_cmp (key y) k) eqn:E.
    + apply eqb_cmp_spec in E. split; [done |]. intros Hx. destruct (Hx y); [by left | done].
    + rewrite IH. setoid_rewrite elem_of_cons. split; [| naive_solver].
      intros Hx x [-> | Hin]; [| by apply Hx]. intros Hk%eqb_cmp_spec. congruence.
Qed.

Lemma find_key_elem l x : ksorted l -> x ∈ l -> find_key (key x) l = Some x.
Proof.
  intros Hs Hx. destruct (find_key (key x) l) as [y|] eqn:E.
  - destruct (find_key_Some _ _ _ E). f_equal. by eapply ksorted_key_inj.
  - destruct (proj1 (find_key_None _ _) E x Hx). done.
Qed.

Lemma find_key_iff l k x : ksorted l -> find_key k l = Some x <-> x ∈ l /\ key x = k.
Proof.
  intros Hs. split; [apply find_key_Some |]. intros [Hx <-]. by apply find_key_elem.
Qed.

(** ** [slice::binary_search_by_key]: halve [size], keep [base] at or below
    the target, compare once at the end. *)
Fixpoint bsearch_loop (fuel : nat) (l : list A) (k : K) (base size : nat) : nat :=
  match fuel with
  | O => base
  | S fuel' =>
      if (size <=? 1)%nat then base
      else
        let half := (size / 2)%nat in
        let mid := (base + half)%nat in
        let base' := match (fun x => cmp (key x) k) <$> l !! mid with
                     | Some Gt => base
                     | _ => mid
                     end in
        bsearch_loop fuel' l k base' (size - half)
  end.

Definition binary_search (k : K) (l : list A) : option nat :=
  match length l with
  | O => None
  | n =>
      let base := bsearch_loop n l k 0 n in
      match l !! base with
      | Some x => if eqb_cmp (key x) k then Some base else None
      | None => None
      end
  end.

Lemma bsearch_loop_finds l k x t fuel base size :
  ksorted l -> l !! t = Some x -> key x = k ->
  (size <= fuel)%nat -> (base <= t < base + size)%nat -> (base + size <= length l)%nat ->
  bsearch_loop fuel l k base size = t.
Proof.
  intros Hs Ht <-. revert base size. induction fuel as [|fuel IH]; intros base size Hf Hb Hl; cbn [bsearch_loop]; [lia |].
  destruct (Nat.leb_spec size 1) as [|Hsz]; [lia |].
  assert (0 < size / 2 /\ size / 2 < size)%nat as [H1 H2].
  { split; [apply Nat.div_str_pos; lia | apply Nat.div_lt; lia]. }
  assert (2 * (size / 2) <= size)%nat by (apply Nat.Div0.mul_div_le).
  destruct (lookup_lt_is_Some_2 l (base + size / 2)) as [y Hy]; [lia |].
  cbv zeta. rewrite Hy. cbn [fmap option_fmap option_map].
  destruct (cmp (key y) (key x)) eqn:E; apply IH; try lia.
  - apply cmp_eq_iff in E. assert (y = x) as -> by (eapply ksorted_key_inj; eauto; by eapply list_elem_of_lookup_2).
    assert (base + size / 2 = t)%nat; [| lia].
    destruct (lt_eq_lt_dec (base + size / 2) t) as [[Hij | ->] | Hij]; [| done |];
      destruct (cmp_lt_irrefl (key x)); eapply ksorted_lookup_lt; [ | | | exact Hij| | | | exact Hij]; eauto.
  - destruct (decide (base + size / 2 <= t)%nat); [lia |].
    assert (cmp (key x) (key y) = Lt) by (eapply ksorted_lookup_lt; eauto; lia).
    destruct (cmp_lt_irrefl (key x)). by eapply cmp_lt_trans.
  - destruct (decide (t < base + size / 2)%nat); [lia |].
    apply cmp_gt_lt in E. destruct (decide (t = base + size / 2)%nat) as [-> |].
    + simplify_eq. by destruct (cmp_lt_irrefl (key x)).
    + assert (cmp (key y) (key x) = Lt) by (eapply ksorted_lookup_lt; eauto; lia).
      destruct (cmp_lt_irrefl (key x)). by eapply cmp_lt_trans.
Qed.

(** On a strictly sorted slice the halving search returns exactly what the
    linear reference lookup returns. *)
Lemma binary_search_correct l k :
  ksorted l -> (binary_search k l ≫= fun i => l !! i) = find_key k l.
Proof.
  intros Hs. unfold binary_search. destruct (length l) as [|n] eqn:Hn.
  { by rewrite (nil_length_inv l Hn). }
  destruct (find_key k l) as [x|] eqn:E.
  - destruct (find_key_Some _ _ _ E) as [(t & Ht)%list_elem_of_lookup Hk].
    pose proof (lookup_lt_Some _ _ _ Ht).
    rewrite (bsearch_loop_finds l k x t) by (done || lia). rewrite Ht.
    rewrite (proj2 (eqb_cmp_spec _ _) Hk). by simpl.
  - rewrite find_key_None in E.
    destruct (l !! bsearch_loop (S n) l k 0 (S n)) as [x|] eqn:Ex; [| done].
    destruct (eqb_cmp (key x) k) eqn:Ek; [| done].
    apply eqb_cmp_spec in Ek. destruct (E x); [| done]. by eapply list_elem_of_lookup_2.
Qed.

Lemma binary_search_Some l k i :
  binary_search k l = Some i -> exists x, l !! i = Some x /\ key x = k.
Proof.
  unfold binary_search. destruct (length l); [done |].
  destruct (l !! bsearch_loop _ _ _ _ _) as [x|] eqn:Hx; [| done].
  destruct (eqb_cmp (key x) k) eqn:E; [| done]. intros [= <-]. exists x. by apply eqb_cmp_spec in E.
Qed.
End sorted_slices.
#[export] Hint Constructors ksorted : sk.

(** * [BTreeMap<K, V>] *)

Section btree.
Context `{RustOrd K} {V : Type}.
Implicit Types m : list (K * V).

Definition bt_get (k : K) m : option V := snd <$> find_key fst k m.

Fixpoint bt_insert (k : K) (v : V) m : list (K * V) :=
  match m with
  | [] => [(k, v)]
  | (k', v') :: m' =>
      match cmp k k' with
      | Lt => (k, v) :: (k', v') :: m'
      | Eq => (k, v) :: m'
      | Gt => (k', v') :: bt_insert k v m'
      end
  end.

Definition into_values m : list V := map snd m.

Lemma bt_insert_elem k v m kv :
  ksorted fst m -> kv ∈ bt_insert k v m <-> kv = (k, v) \/ (kv ∈ m /\ kv.1 <> k).
Proof.
  intros Hs. induction Hs as [|[k' v'] m HF Hs IH]; simpl.
  { rewrite list_elem_of_singleton. set_solver. }
  rewrite Forall_forall in HF. destruct (cmp k k') eqn:E.
  - apply cmp_eq_iff in E as <-. rewrite !elem_of_cons. split; [| naive_solver].
    intros [-> | Hin]; [by left | right]. split; [by right |].
    intros <-. by destruct (cmp_lt_irrefl kv.1), (HF _ Hin).
  - rewrite !elem_of_cons. split; [| naive_solver].
    intros [-> | [-> | Hin]]; [by left | right..]; simpl; (split; [auto |]).
    + intros ->. by destruct (cmp_lt_irrefl k).
    + intros <-. destruct (cmp_lt_irrefl kv.1). eapply cmp_lt_trans; eauto.
  - rewrite !elem_of_cons, IH. split; [| naive_solver].
    intros [-> | [-> | [Hin Hne]]]; [right | by left | right]; simpl; split; auto.
    intros ->. rewrite cmp_refl in E. discriminate.
Qed.

Lemma bt_insert_sorted k v m : ksorted fst m -> ksorted fst (bt_insert k v m).
Proof.
  intros Hs. induction Hs as [|[k' v'] m HF Hs IH]; simpl; [repeat constructor |].
  destruct (cmp k k') eqn:E.
  - apply cmp_eq_iff in E as ->. by constructor.
  - repeat constructor; simpl; auto. eapply Forall_impl; [exact HF |].
    simpl. intros [? ?] ?. eapply cmp_lt_trans; eauto.
  - constructor; [| done]. rewrite Forall_forall in *. intros [k2 v2].
    rewrite bt_insert_elem by done. simpl. intros [[= -> ->] | [Hin _]]; [| exact (HF _ Hin)].
    by apply cmp_gt_lt.
Qed.

Lemma bt_get_elem k v m : ksorted fst m -> bt_get k m = Some v <-> (k, v) ∈ m.
Proof.
  intros Hs. unfold bt_get. split.
  - intros ([k' v'] & Hf & ->)%fmap_Some. apply find_key_Some in Hf as [? <-]. done.
  - intros Hin. by rewrite (find_key_elem fst m (k, v)).
Qed.

Lemma bt_get_insert k v m k' :
  ksorted fst m -> bt_get k' (bt_insert k v m) = if eqb_cmp k k' then Some v else bt_get k' m.
Proof.
  intros Hs. apply option_eq. intros v'. rewrite bt_get_elem by by apply bt_insert_sorted.
  rewrite bt_insert_elem by done. destruct (eqb_cmp k k') eqn:E.
  - apply eqb_cmp_spec in E as <-. naive_solver.
  - rewrite bt_get_elem by done. split; [| intros Hin; right; split; [done |]].
    + intros [[= -> ->] | [? _]]; [| done]. by rewrite (proj2 (eqb_cmp_spec k k)) in E.
    + simpl. intros ->. by rewrite (proj2 (eqb_cmp_spec k k)) in E.
Qed.

Lemma bt_get_insert_None k v m k' :
  ksorted fst m -> bt_get k' (bt_insert k v m) = None <-> k' <> k /\ bt_get k' m = None.
Proof.
  intros Hs. rewrite bt_get_insert by done. destruct (eqb_cmp k k') eqn:E.
  - apply eqb_cmp_spec in E as ->. naive_solver.
  - split; [| naive_solver]. intros Hn. split; [| done]. intros ->. by rewrite (proj2 (eqb_cmp_spec k k)) in E.
Qed.

(** Inserting a list of entries with distinct fresh keys adds exactly these. *)
Definition bt_extend m (l : list (K * V)) : list (K * V) := fold_left (fun m kv => bt_insert kv.1 kv.2 m) l m.

Lemma bt_extend_sorted l m : ksorted fst m -> ksorted fst (bt_extend m l).
Proof. revert m. induction l as [|kv l IH]; intros m Hs; simpl; [done |]. by apply IH, bt_insert_sorted. Qed.

Lemma bt_extend_elem l m x :
  ksorted fst m -> NoDup (l.*1) -> (forall kv, kv ∈ l -> bt_get kv.1 m = None) -> x ∈ bt_extend m l <-> x ∈ l \/ x ∈ m.
Proof.
  revert m. induction l as [|[k v] l IH]; intros m Hs HN Hf; simpl.
  { split; [auto |]. by intros [?%not_elem_of_nil|]. }
  inversion HN as [|? ? Hn HN']; subst. simpl in *. unfold bt_extend. simpl. fold (bt_extend (bt_insert k v m) l).
  rewrite IH; [| by apply bt_insert_sorted | done |].
  - rewrite bt_insert_elem by done. rewrite elem_of_cons. split; [naive_solver |]. intros [[->|]|Hx]; auto.
    right. right. split; [done |]. intros E. specialize (Hf (k, v) ltac:(by left)). simpl in Hf.
    destruct x as [k' v']; simpl in E; subst. by rewrite (proj2 (bt_get_elem k v' m Hs) Hx) in Hf.
  - intros kv Hkv. apply bt_get_insert_None; [done |]. split; [| apply Hf; by right].
    intros E. apply Hn. rewrite <- E. by apply list_elem_of_fmap_2.
Qed.

Lemma bt_extend_perm l1 l2 : NoDup (l1.*1) -> l1 ≡ₚ l2 -> bt_extend [] l1 = bt_extend [] l2.
Proof.
  intros HN Hp. assert (HN2 : NoDup (l2.*1)) by (by rewrite <- Hp).
  apply (ksorted_ext fst); [apply bt_extend_sorted; constructor.. |]. intros x.
  rewrite !bt_extend_elem by (done || constructor). by rewrite Hp.
Qed.

Lemma bt_insert_length_fresh k v m :
  ksorted fst m -> bt_get k m = None -> length (bt_insert k v m) = S (length m).
Proof.
  unfold bt_get. intros Hs Hk. rewrite fmap_None in Hk.
  induction Hs as [|[k' v'] m HF Hs IH]; simpl in *; [done |].
  destruct (eqb_cmp k' k) eqn:E; [done |]. destruct (cmp k k') eqn:E'; simpl; [| done | by rewrite IH].
  apply cmp_eq_iff in E' as ->. by rewrite (proj2 (eqb_cmp_spec k' k')) in E.
Qed.
End btree.
#[export] Hint Resolve bt_insert_sorted : sk.


(** * [BTreeSet<K>] *)

Section btree_set.
Context `{RustOrd K}.
Implicit Types (k x : K) (s : list K).

Abbreviation sorted_set := (ksorted (fun k : K => k)).

Definition bs_contains k s : bool := existsb (fun k' => eqb_cmp k' k) s.

Fixpoint bs_insert k s : list K :=
  match s with
  | [] => [k]
  | k' :: s' =>
      match cmp k k' with
      | Lt => k :: k' :: s'
      | Eq => k' :: s'
      | Gt => k' :: bs_insert k s'
      end
  end.

Definition bs_extend s (l : list K) : list K := fold_left (fun s k => bs_insert k s) l s.

Lemma bs_contains_iff k s : bs_contains k s = true <-> k ∈ s.
Proof.
  unfold bs_contains. rewrite existsb_exists. split.
  - intros (y & Hy & ->%eqb_cmp_spec). by apply list_elem_of_In.
  - intros Hk. exists k. split; [by apply list_elem_of_In | by apply eqb_cmp_spec].
Qed.

Lemma bs_contains_false k s : bs_contains k s = false <-> k ∉ s.
Proof. rewrite <- bs_contains_iff. by destruct (bs_contains k s). Qed.

Lemma bs_insert_elem k s x : x ∈ bs_insert k s <-> x = k \/ x ∈ s.
Proof.
  induction s as [|k' s IH]; simpl; [rewrite list_elem_of_singleton; set_solver |].
  destruct (cmp k k') eqn:E; rewrite ?elem_of_cons, ?IH; [| done | set_solver].
  apply cmp_eq_iff in E as ->. set_solver.
Qed.

Lemma bs_insert_sorted k s : sorted_set s -> sorted_set (bs_insert k s).
Proof.
  induction 1 as [|k' s HF Hs IH]; simpl; [repeat constructor |].
  destruct (cmp k k') eqn:E; [by constructor | |].
  - repeat constructor; auto. eapply Forall_impl; [exact HF |]. simpl. intros y Hy. by eapply cmp_lt_trans.
  - constructor; [| done]. rewrite Forall_forall in *. intros y [-> | Hy]%bs_insert_elem; [by apply cmp_gt_lt | auto].
Qed.

Lemma bs_insert_length_fresh k s : k ∉ s -> length (bs_insert k s) = S (length s).
Proof.
  induction s as [|k' s IH]; simpl; intros Hk; [done |]. destruct (cmp k k') eqn:E; simpl; [| done |].
  - apply cmp_eq_iff in E as ->. destruct Hk. by left.
  - rewrite IH; [done |]. intros Hin. apply Hk. by right.
Qed.

Lemma bs_extend_elem s l x : x ∈ bs_extend s l <-> x ∈ s \/ x ∈ l.
Proof.
  unfold bs_extend. revert s. induction l as [|k l IH]; intros s; simpl; [set_solver |].
  rewrite IH, bs_insert_elem. set_solver.
Qed.

Lemma bs_extend_sorted s l : sorted_set s -> sorted_set (bs_extend s l).
Proof.
  unfold bs_extend. revert s. induction l as [|k l IH]; intros s Hs; simpl; [done |]. by apply IH, bs_insert_sorted.
Qed.

Lemma sorted_set_NoDup s : sorted_set s -> NoDup s.
Proof.
  induction 1 as [|k s HF Hs IH]; constructor; [| done]. rewrite Forall_forall in HF.
  intros Hk. by apply (cmp_lt_irrefl k), HF.
Qed.

Lemma sorted_set_ext s1 s2 : sorted_set s1 -> sorted_set s2 -> (forall x, x ∈ s1 <-> x ∈ s2) -> s1 = s2.
Proof. apply ksorted_ext. Qed.
End btree_set.
#[export] Hint Resolve bs_insert_sorted bs_extend_sorted : sk.

(** * [slice::sort_unstable_by_key] *)

Section sort_by_key.
Context `{RustOrd K} {A : Type} (key : A -> K).
Implicit Types l : list A.

Definition key_le (x y : A) : Prop := cmp (key x) (key y) <> Gt.

#[global] Instance key_le_dec x y : Decision (key_le x y).
Proof. unfold key_le. solve_decision. Defined.

#[global] Instance key_le_total : Total key_le.
Proof. intros x y. unfold key_le. rewrite (cmp_opp (key x) (key y)). destruct (cmp (key x) (key y)); simpl; auto. Qed.

#[global] Instance key_le_trans : Transitive key_le.
Proof.
  intros x y z. unfold key_le. intros Hxy Hyz Hxz.
  destruct (cmp (key x) (key y)) eqn:E1; [apply cmp_eq_iff in E1; congruence | | done].
  destruct (cmp (key y) (key z)) eqn:E2; [apply cmp_eq_iff in E2; congruence | | done].
  rewrite (cmp_lt_trans _ _ _ E1 E2) in Hxz. discriminate.
Qed.

Definition sort_by_key l : list A := merge_sort key_le l.

Lemma sort_by_key_perm l : sort_by_key l ≡ₚ l.
Proof. apply merge_sort_Permutation. Qed.

Lemma sort_by_key_ksorted l : NoDup (key <$> l) -> ksorted key (sort_by_key l).
Proof.
  intros Hn. rewrite <- (sort_by_key_perm l) in Hn.
  assert (Hs : StronglySorted key_le (sort_by_key l)) by apply (StronglySorted_merge_sort key_le).
  induction Hs as [|x m Hs IH HF]; [constructor |]. apply NoDup_cons in Hn as [Hx Hn]. constructor; [| auto].
  rewrite List.Forall_forall in HF. apply Forall_forall. intros y Hy. specialize (HF y (proj1 (list_elem_of_In _ _) Hy)).
  unfold key_le in HF. destruct (cmp (key x) (key y)) eqn:E; [| done | done].
  apply cmp_eq_iff in E. destruct Hx. rewrite E. by apply list_elem_of_fmap_2.
Qed.

Lemma ksorted_keys_NoDup l : ksorted key l -> NoDup (key <$> l).
Proof.
  induction 1 as [|x l HF Hs IH]; simpl; constructor; [| done]. rewrite Forall_forall in HF.
  intros (y & E & Hy)%list_elem_of_fmap. apply (cmp_lt_irrefl (key x)). rewrite E at 2. by apply HF.
Qed.

Lemma sort_by_key_unique l1 l2 : NoDup (key <$> l1) -> l1 ≡ₚ l2 -> sort_by_key l1 = sort_by_key l2.
Proof.
  intros Hn Hp. apply (ksorted_ext key).
  - by apply sort_by_key_ksorted.
  - apply sort_by_key_ksorted. by rewrite <- Hp.
  - intros x. by rewrite !sort_by_key_perm, Hp.
Qed.
End sort_by_key.

(** * Maps keyed by a projection of their values *)

Section keyed.
Context `{RustOrd K} {V : Type} (key : V -> K).
Implicit Types (m : list (K * V)) (v : V).

Definition keyed m : Prop := ksorted fst m /\ forall k v, (k, v) ∈ m -> k = key v.

Lemma keyed_nil : keyed [].
Proof. split; [constructor | set_solver]. Qed.

Lemma keyed_insert v m : keyed m -> keyed (bt_insert (key v) v m).
Proof.
  intros [Hs Hk]. split; [by apply bt_insert_sorted |]. intros k v'. rewrite bt_insert_elem by done.
  intros [[= -> ->] | [Hin _]]; [done | by apply Hk].
Qed.

Lemma keyed_elem m v : keyed m -> v ∈ into_values m <-> (key v, v) ∈ m.
Proof.
  intros [_ Hk]. unfold into_values. rewrite list_elem_of_In, in_map_iff. setoid_rewrite <- list_elem_of_In. split.
  - intros ([k v'] & <- & Hin). simpl. by rewrite <- (Hk _ _ Hin).
  - intros Hin. by exists (key v, v).
Qed.

Lemma keyed_get_None m k : keyed m -> bt_get k m = None <-> k ∉ key <$> into_values m.
Proof.
  intros Hm. split.
  - intros Hg (v & -> & Hv)%list_elem_of_fmap. apply keyed_elem in Hv; [| done].
    apply bt_get_elem in Hv; [congruence | apply Hm].
  - intros Hni. destruct (bt_get k m) as [v|] eqn:E; [| done]. destruct Hni. apply bt_get_elem in E; [| apply Hm].
    pose proof (proj2 Hm _ _ E) as ->. apply list_elem_of_fmap_2. by apply keyed_elem.
Qed.

Lemma keyed_values_sorted m : keyed m -> ksorted key (into_values m).
Proof.
  intros [Hs Hk]. induction Hs as [|[k v] m HF Hs IH]; simpl; [constructor |].
  rewrite Forall_forall in HF. constructor; [| apply IH; intros k' v' Hin; apply Hk; by right].
  apply Forall_forall. intros v' Hv'. unfold into_values in Hv'. rewrite list_elem_of_In, in_map_iff in Hv'.
  destruct Hv' as ([k' v''] & <- & Hin%list_elem_of_In). specialize (HF _ Hin). simpl in *.
  by rewrite <- (Hk k v), <- (Hk k' v'') by set_solver.
Qed.

Lemma keyed_insert_elem m v v' :
  keyed m -> bt_get (key v) m = None -> v' ∈ into_values (bt_insert (key v) v m) <-> v' = v \/ v' ∈ into_values m.
Proof.
  intros Hm Hg. rewrite !keyed_elem by (done || by apply keyed_insert). rewrite bt_insert_elem by apply Hm. simpl. split.
  - intros [[= _ ->] | [? _]]; tauto.
  - intros [-> | Hin]; [by left | right]. split; [done |]. intros E. rewrite E in Hin.
    apply bt_get_elem in Hin; [congruence | apply Hm].
Qed.

Lemma keyed_length m : length (into_values m) = length m.
Proof. apply length_map. Qed.

(** The values of a keyed map are the sorting of any list with its elements. *)
Lemma keyed_values_sort m l :
  keyed m -> NoDup (key <$> l) -> (forall v, v ∈ into_values m <-> v ∈ l) -> into_values m = sort_by_key key l.
Proof.
  intros Hm Hn He. apply (ksorted_ext key); [by apply keyed_values_sorted | by apply sort_by_key_ksorted |].
  intros v. by rewrite He, sort_by_key_perm.
Qed.
End keyed.

Lemma bt_extend_nil_perm `{RustOrd K} {V : Type} (l : list (K * V)) : NoDup (l.*1) -> bt_extend [] l ≡ₚ l.
Proof.
  intros HN. apply NoDup_Permutation.
  - eapply NoDup_fmap_1, (ksorted_keys_NoDup fst), bt_extend_sorted. constructor.
  - by eapply NoDup_fmap_1.
  - intros x. rewrite bt_extend_elem by (done || constructor). split; [| auto]. by intros [|?%not_elem_of_nil].
Qed.
