(* ===== verification/Json.v ===== *)
(** JSON values and their canonical text
    (crates/stateknot-core/src/canonical.rs).  A [Value] is serde_json's: a
    number is an integer of the [i64] or [u64] range or a float, given by its
    bits.  The canonical encoder [serde_json_canonicalizer::to_vec] and
    SHA-256 are code outside the repository: [Canonical T] is the encoder at
    the serialisable type [T], and [sha256] is a function. *)

From Stdlib Require Import ZArith Lia.
From stdpp Require Import prelude.
From S2P Require Import Prelude.

Open Scope Z_scope.

Definition Digest := bytes.

(** [serde_json_canonicalizer::to_vec] on values of type [T]. *)
Class Canonical (T : Type) := to_vec : T -> option bytes.

(** Distinct values have distinct encodings. *)
Definition encoder_injective {T} (enc : T -> option bytes) : Prop :=
  forall x y b, enc x = Some b -> enc y = Some b -> x = y.

(** An injective encoder of two values, for concrete instances. *)
Definition pick {T} `{EqDecision T} (a b : T) (x : T) : option bytes :=
  if decide (x = a) then Some [1] else if decide (x = b) then Some [2] else None.

Lemma pick_injective {T} `{EqDecision T} (a b : T) : encoder_injective (pick a b).
Proof. intros x y z. unfold pick. repeat case_decide; naive_solver. Qed.

Inductive Number := NInt (z : Z) | NFloat (bits : Z).

Inductive Value :=
| Null
| Bool (b : bool)
| Num (n : Number)
| Str (s : bytes)
| Arr (l : list Value)
| Obj (l : list (bytes * Value)).

(** [serde_json::to_value] at the serialisable type [T]. *)
Class Serialize (T : Type) := to_value : T -> option Value.

#[global] Instance number_eq_dec : EqDecision Number.
Proof. solve_decision. Defined.

#[global] Instance value_eq_dec : EqDecision Value.
Proof.
  unfold EqDecision, Decision. fix go 1. intros x y.
  destruct x, y; try (right; discriminate); [by left | ..].
  - destruct (decide (b = b0)); [left | right]; congruence.
  - destruct (decide (n = n0)); [left | right]; congruence.
  - destruct (decide (s = s0)); [left | right]; congruence.
  - destruct (List.list_eq_dec go l l0); [left | right]; congruence.
  - destruct (List.list_eq_dec (fun p q : bytes * Value =>
      match p, q with (a, u), (b, v) =>
        match decide (a = b), go u v with
        | left H1, left H2 => left (f_equal2 pair H1 H2)
        | right H, _ => right (fun E : (a, u) = (b, v) => H (f_equal fst E))
        | _, right H => right (fun E : (a, u) = (b, v) => H (f_equal snd E))
        end
      end) l l0); [left | right]; congruence.
Defined.

Definition MAX_SAFE_INTEGER : Z := 9007199254740991.

Inductive CanonicalJsonError := IntegerOutsideIJsonSafeRange | Serialization | InvalidUtf8.

(** [as_i64] or else [as_u64] succeeds exactly on integers; [unsigned_abs] of
    an [i64] is its absolute value. *)
Fixpoint validate_ijson_numbers (value : Value) : result CanonicalJsonError unit :=
  match value with
  | Num (NInt z) => if MAX_SAFE_INTEGER <? Z.abs z then Err IntegerOutsideIJsonSafeRange else Ok tt
  | Num (NFloat _) => Ok tt
  | Arr values => (fix each l := match l with [] => Ok tt | v :: l' => _ ← validate_ijson_numbers v; each l' end) values
  | Obj values => (fix each l := match l with [] => Ok tt | (_, v) :: l' => _ ← validate_ijson_numbers v; each l' end) values
  | Null | Bool _ | Str _ => Ok tt
  end.

Section Canonical.
Context `{Canonical Value} (sha256 : bytes -> bytes).

Record CanonicalJson := mkCanonicalJson { text : bytes; canonical_digest : Digest }.

Definition canonical_new (value : Value) : result CanonicalJsonError CanonicalJson :=
  _ ← validate_ijson_numbers value;
  canonical ← ok_or (to_vec value) Serialization;
  if negb (utf8_valid canonical) then Err InvalidUtf8 else
  Ok (mkCanonicalJson canonical (sha256 canonical)).

Lemma canonical_new_Ok v c :
  canonical_new v = Ok c <->
  validate_ijson_numbers v = Ok tt /\ to_vec v = Some (text c) /\ utf8_valid (text c) = true /\ canonical_digest c = sha256 (text c).
Proof.
  unfold canonical_new. rewrite bind_Ok. setoid_rewrite bind_Ok. setoid_rewrite ok_or_Ok. split.
  - intros ([] & Hn & t & Ht & Hc). destruct (utf8_valid t) eqn:Hu; simpl in Hc; [| done]. injection Hc as <-. by split_and!.
  - intros (Hn & Ht & Hu & Hd). exists tt. split; [done |]. exists (text c). split; [done |]. rewrite Hu. simpl.
    destruct c; simpl in *. by subst.
Qed.
End Canonical.
