(* ===== verification/Digests.v ===== *)
(** Digest text (crates/stateknot-core/src/digest.rs): the canonical form
    [sha256:<64 lowercase hexadecimal digits>], its printer and its parser.
    A digest is the list of its 32 bytes. *)

From Stdlib Require Import ZArith Lia List.
From stdpp Require Import prelude.
From S2P Require Import Prelude Json.

Open Scope Z_scope.

Module Digests.

Definition SHA256_LEN : Z := 32.
Definition SHA256 : bytes := bytes_of "sha256".
Definition SHA256_PREFIX : bytes := bytes_of "sha256:".
Definition SHA256_TEXT_LEN : Z := Z.of_nat (length SHA256_PREFIX) + SHA256_LEN * 2.

Inductive DigestError :=
| TooLong (max actual : Z)
| InvalidFormat
| UnsupportedAlgorithm
| NonCanonical
| InvalidLength (expected actual : Z)
| InvalidHex (index : Z).

(** One lowercase hexadecimal digit, and [{byte:02x}]. *)
Definition hex_digit (nibble : Z) : Z := if nibble <? 10 then 48 + nibble else 87 + nibble.
Definition hex_byte (byte : Z) : bytes := [hex_digit (byte / 16); hex_digit (byte mod 16)].

Definition display (d : Digest) : bytes := SHA256 ++ [58] ++ concat (hex_byte <$> d).

(** [str::split_once(':')] and [str::eq_ignore_ascii_case]. *)
Fixpoint split_once (value : bytes) : option (bytes * bytes) :=
  match value with
  | [] => None
  | b :: value' => if b =? 58 then Some ([], value') else '(l, r) ← split_once value'; Some (b :: l, r)
  end.

Definition to_ascii_lowercase (b : Z) : Z := if between 65 90 b then b + 32 else b.
Definition eq_ignore_ascii_case (a b : bytes) : bool :=
  bool_decide (to_ascii_lowercase <$> a = to_ascii_lowercase <$> b).

Definition decode_nibble (value index : Z) : result DigestError Z :=
  if between 48 57 value then Ok (value - 48) else
  if between 97 102 value then Ok (value - 97 + 10) else
  if between 65 70 value then Err NonCanonical else Err (InvalidHex index).

(** The loop over [encoded.chunks_exact(2)]; a last odd byte is left out. *)
Fixpoint decode_pairs (index : Z) (encoded : bytes) : result DigestError bytes :=
  match encoded with
  | h :: l :: encoded' =>
      high ← decode_nibble h (Z.of_nat (length SHA256_PREFIX) + index * 2);
      low ← decode_nibble l (Z.of_nat (length SHA256_PREFIX) + index * 2 + 1);
      rest ← decode_pairs (index + 1) encoded';
      Ok (Z.lor (Z.shiftl high 4) low :: rest)
  | _ => Ok []
  end.

Definition from_str (value : bytes) : result DigestError Digest :=
  if SHA256_TEXT_LEN <? Z.of_nat (length value) then Err (TooLong SHA256_TEXT_LEN (Z.of_nat (length value))) else
  '(algorithm, encoded) ← ok_or (split_once value) InvalidFormat;
  if negb (bool_decide (algorithm = SHA256)) then
    if eq_ignore_ascii_case algorithm SHA256 then Err NonCanonical else Err UnsupportedAlgorithm
  else
  if negb (Z.of_nat (length encoded) =? SHA256_LEN * 2) then Err (InvalidLength (SHA256_LEN * 2) (Z.of_nat (length encoded))) else
  decode_pairs 0 encoded.

(** * Laws *)

Definition valid (d : Digest) : Prop := Z.of_nat (length d) = SHA256_LEN /\ Forall is_byte d.

Lemma nibble_hex n i : 0 <= n < 16 -> decode_nibble (hex_digit n) i = Ok n.
Proof.
  intros Hn. unfold hex_digit, decode_nibble, between. destruct (Z.ltb_spec n 10);
    repeat match goal with |- context[?a <=? ?b] => destruct (Z.leb_spec a b); simpl; try lia end; f_equal; lia.
Qed.

Lemma nibble_Ok b i n : decode_nibble b i = Ok n -> 0 <= n < 16 /\ b = hex_digit n.
Proof.
  unfold hex_digit, decode_nibble, between. intros H.
  repeat match type of H with context[?a <=? ?b] => destruct (Z.leb_spec a b); simpl in H; try discriminate end; injection H as <-;
    match goal with |- context[?x <? 10] => destruct (Z.ltb_spec x 10) end; lia.
Qed.

Lemma byte_of_nibbles h l : 0 <= h < 16 -> 0 <= l < 16 -> Z.lor (Z.shiftl h 4) l = 16 * h + l.
Proof.
  intros Hh Hl. assert (Hd : Z.land (Z.shiftl h 4) l = 0).
  { apply Z.bits_inj'. intros k Hk. rewrite Z.land_spec, Z.bits_0. destruct (Z.ltb_spec k 4).
    - by rewrite Z.shiftl_spec_low.
    - apply andb_false_intro2. destruct (Z.eqb_spec l 0) as [->|Hl0]; [apply Z.bits_0 |]. apply Z.bits_above_log2; [lia |].
      apply Z.log2_lt_pow2; [lia |]. assert (2 ^ 4 <= 2 ^ k) by (apply Z.pow_le_mono_r; lia). lia. }
  rewrite <- Z.lxor_lor, <- Z.add_nocarry_lxor by done. rewrite Z.shiftl_mul_pow2 by lia. lia.
Qed.

Lemma decode_pairs_display d index : Forall is_byte d -> decode_pairs index (concat (hex_byte <$> d)) = Ok d.
Proof.
  intros Hd. revert index. induction Hd as [|b d Hb Hd IH]; intros index; [done |]. simpl. unfold is_byte in Hb.
  assert (0 <= b / 16 < 16) by (split; [apply Z.div_pos | apply Z.div_lt_upper_bound]; lia).
  assert (0 <= b mod 16 < 16) by (apply Z.mod_pos_bound; lia).
  rewrite !nibble_hex by done. simpl. rewrite IH. simpl. rewrite byte_of_nibbles by done. by rewrite <- (Z.div_mod b 16).
Qed.

Lemma decode_pairs_Ok n encoded index d :
  length encoded = (2 * n)%nat -> decode_pairs index encoded = Ok d ->
  length d = n /\ Forall is_byte d /\ encoded = concat (hex_byte <$> d).
Proof.
  revert encoded index d. induction n as [|n IH]; intros encoded index d Hlen Hd.
  - destruct encoded; [| done]. injection Hd as <-. done.
  - destruct encoded as [|h [|l encoded]]; simpl in Hlen; try lia. simpl in Hd. open_guards Hd. injection Hd as <-.
    apply nibble_Ok in Hx as [Hh ->], Hx0 as [Hl ->]. apply IH in Hx1 as (<- & Hb & ->); [| lia].
    rewrite byte_of_nibbles by done. simpl. split_and!; [done | constructor; [unfold is_byte; lia | done] |].
    unfold hex_byte. replace ((16 * x + x0) / 16) with x by (apply (Z.div_unique_pos _ _ _ x0); lia).
    replace ((16 * x + x0) mod 16) with x0 by (apply (Z.mod_unique_pos _ _ x); lia). done.
Qed.

Lemma split_once_Some value l r : split_once value = Some (l, r) -> value = l ++ [58] ++ r.
Proof.
  revert l. induction value as [|b value IH]; intros l; simpl; [done |]. destruct (Z.eqb_spec b 58) as [->|Hb].
  - by intros [= <- <-].
  - destruct (split_once value) as [[l' r']|]; simpl; [| done]. intros [= <- <-]. simpl. f_equal. by apply IH.
Qed.

Lemma split_once_prefix l r : 58 ∉ l -> split_once (l ++ [58] ++ r) = Some (l, r).
Proof.
  induction l as [|b l IH]; intros Hl; [done |]. apply not_elem_of_cons in Hl as [Hb Hl]. simpl.
  destruct (Z.eqb_spec b 58); [by subst |]. simpl in IH. by rewrite (IH Hl).
Qed.

Lemma hex_length (d : Digest) : length (concat (hex_byte <$> d)) = (2 * length d)%nat.
Proof. induction d as [|b d IH]; [done |]. rewrite fmap_cons. cbn [concat]. rewrite length_app, IH. simpl. lia. Qed.

(** The digest codec is exact: parsing succeeds exactly on the printed form
    of a 32-byte digest and returns it, so printing is injective and no other
    text (another case, algorithm, length or character) is accepted. *)
Theorem digest_text_roundtrip (value : bytes) (d : Digest) : from_str value = Ok d <-> valid d /\ value = display d.
Proof.
  assert (Hp : 58 ∉ SHA256) by (vm_compute; set_solver). unfold from_str, valid. split.
  - destruct (SHA256_TEXT_LEN <? _); [done |]. destruct (split_once value) as [[algorithm encoded]|] eqn:Es; simpl; [| done].
    apply split_once_Some in Es as ->. destruct (bool_decide_reflect (algorithm = SHA256)) as [->|]; simpl;
      [| by destruct (eq_ignore_ascii_case _ _)].
    destruct (Z.eqb_spec (Z.of_nat (length encoded)) (SHA256_LEN * 2)) as [El|]; simpl; [| done].
    intros Hd. apply (decode_pairs_Ok 32) in Hd as (Hl & Hb & ->); [| unfold SHA256_LEN in El; lia].
    split; [| done]. split; [by rewrite Hl | done].
  - intros [[Hl Hb] ->]. pose proof (hex_length d) as He. unfold SHA256_LEN in Hl.
    assert (El : Z.of_nat (length (display d)) = SHA256_TEXT_LEN).
    { unfold display. rewrite !length_app, He. change (length SHA256) with 6%nat. simpl. unfold SHA256_TEXT_LEN, SHA256_LEN.
      change (length SHA256_PREFIX) with 7%nat. lia. }
    rewrite El, Z.ltb_irrefl. unfold display. rewrite split_once_prefix by done. simpl.
    rewrite He. destruct (Z.eqb_spec (Z.of_nat (2 * length d)) (SHA256_LEN * 2)).
    + by apply decode_pairs_display.
    + unfold SHA256_LEN in *. lia.
Qed.

End Digests.
