(* ===== verification/Ids.v ===== *)
(** Validated identifiers (crates/stateknot-core/src/ids.rs): tenant and
    scheduler shard names, opaque submission keys with their tenant-scoped
    storage digest, and generated UUIDv7 identifiers.

    A [Uuid] is a 128-bit integer.  The [uuid] crate is code outside the
    repository: its text parser, its printer and its variant and version
    accessors are parameters of the section [Generated]. *)

From Stdlib Require Import ZArith Lia.
From stdpp Require Import prelude.
From S2P Require Import Prelude.

Open Scope Z_scope.

(** * Names *)

Definition is_ascii_alphanumeric (b : Z) : bool :=
  ((48 <=? b) && (b <=? 57)) || ((65 <=? b) && (b <=? 90)) || ((97 <=? b) && (b <=? 122)).

(** [value.bytes().enumerate().find(|(_, byte)| !ok(byte))], the offset found. *)
Definition first_invalid (ok : Z -> bool) (value : bytes) : option nat := position (fun b => negb (ok b)) value.

Module Name.

Definition MAX_LEN : Z := 128.

(** [TenantIdError] and [SchedulerShardIdError] have the same variants. *)
Inductive NameError :=
| Empty
| TooLong (max actual : Z)
| PathLike
| InvalidByte (index : nat).

(** Letters, digits and [.], [_], [:], [-]. *)
Definition name_byte (b : Z) : bool := is_ascii_alphanumeric b || (b =? 46) || (b =? 95) || (b =? 58) || (b =? 45).

Definition path_like (value : bytes) : bool := bool_decide (value = [46]) || bool_decide (value = [46; 46]).

Definition validate_tenant_id (value : bytes) : result NameError unit :=
  if (length value =? 0)%nat then Err Empty else
  if MAX_LEN <? Z.of_nat (length value) then Err (TooLong MAX_LEN (Z.of_nat (length value))) else
  if path_like value then Err PathLike else
  match first_invalid name_byte value with
  | Some index => Err (InvalidByte index)
  | None => Ok tt
  end.

Definition validate_scheduler_shard_id (value : bytes) : result NameError unit :=
  if (length value =? 0)%nat then Err Empty else
  if MAX_LEN <? Z.of_nat (length value) then Err (TooLong MAX_LEN (Z.of_nat (length value))) else
  if path_like value then Err PathLike else
  match first_invalid name_byte value with
  | Some index => Err (InvalidByte index)
  | None => Ok tt
  end.

Definition tenant_id_new (value : bytes) : result NameError bytes :=
  _ ← validate_tenant_id value; Ok value.

Definition scheduler_shard_id_new (value : bytes) : result NameError bytes :=
  _ ← validate_scheduler_shard_id value; Ok value.

Definition valid (value : bytes) : Prop :=
  value <> [] /\ Z.of_nat (length value) <= MAX_LEN /\ value <> [46] /\ value <> [46; 46] /\
  Forall (fun b => name_byte b = true) value.

Lemma first_invalid_None ok value : first_invalid ok value = None <-> Forall (fun b => ok b = true) value.
Proof.
  unfold first_invalid. rewrite position_None. apply Forall_iff. intros b. by rewrite negb_false_iff.
Qed.

Lemma validate_tenant_id_Ok value : validate_tenant_id value = Ok tt <-> valid value.
Proof.
  unfold validate_tenant_id, valid, path_like. rewrite <- first_invalid_None.
  destruct (Nat.eqb_spec (length value) 0) as [H0|H0].
  { destruct value; [| done]. split; [done | by intros [? _]]. }
  assert (value <> []) by (by intros ->).
  destruct (Z.ltb_spec MAX_LEN (Z.of_nat (length value))); [split; [done | lia] |].
  destruct (decide (value = [46])), (decide (value = [46; 46]));
    rewrite ?(bool_decide_eq_true_2 (value = [46])), ?(bool_decide_eq_false_2 (value = [46])),
      ?(bool_decide_eq_true_2 (value = [46; 46])), ?(bool_decide_eq_false_2 (value = [46; 46])) by done; simpl;
    try (split; [done | naive_solver]).
  destruct (first_invalid _ _); split; try done; by intros (_ & _ & _ & _ & ?).
Qed.

Lemma tenant_id_new_Ok value t : tenant_id_new value = Ok t <-> t = value /\ valid value.
Proof.
  unfold tenant_id_new. rewrite bind_Ok. split.
  - intros ([] & H%validate_tenant_id_Ok & [= <-]). done.
  - intros [-> H%validate_tenant_id_Ok]. by exists tt.
Qed.

(** Both names are checked by the same grammar. *)
Lemma shard_tenant_same value : validate_scheduler_shard_id value = validate_tenant_id value.
Proof. done. Qed.

(** A name byte is never NUL. *)
Lemma valid_no_nul value : valid value -> Forall (fun b => b <> 0) value.
Proof. intros (_ & _ & _ & _ & H). eapply Forall_impl; [exact H |]. intros b Hb ->. by vm_compute in Hb. Qed.

End Name.

(** * Submission keys *)

Module SubmissionKey.

Definition MIN_LEN : Z := 16.
Definition MAX_LEN : Z := 128.

Inductive AgentSubmissionKeyError :=
| TooShort (minimum actual : Z)
| TooLong (maximum actual : Z)
| InvalidByte (index : nat).

(** Letters, digits and [.], [_], [~], [-]. *)
Definition key_byte (b : Z) : bool := is_ascii_alphanumeric b || (b =? 46) || (b =? 95) || (b =? 126) || (b =? 45).

Definition validate_agent_submission_key (value : bytes) : result AgentSubmissionKeyError unit :=
  if Z.of_nat (length value) <? MIN_LEN then Err (TooShort MIN_LEN (Z.of_nat (length value))) else
  if MAX_LEN <? Z.of_nat (length value) then Err (TooLong MAX_LEN (Z.of_nat (length value))) else
  match first_invalid key_byte value with
  | Some index => Err (InvalidByte index)
  | None => Ok tt
  end.

Definition new (value : bytes) : result AgentSubmissionKeyError bytes :=
  _ ← validate_agent_submission_key value; Ok value.

(** [b"stateknot.agent-submission-key.v1\0"]. *)
Definition DOMAIN : bytes := bytes_of "stateknot.agent-submission-key.v1" ++ [0].

Definition preimage (tenant key : bytes) : bytes := DOMAIN ++ tenant ++ [0] ++ key.

(** SHA-256 is code outside the repository. *)
Definition digest_for (sha256 : bytes -> bytes) (key tenant : bytes) : bytes := sha256 (preimage tenant key).

(** A NUL-free prefix is determined by the first NUL. *)
Lemma nul_split_inj (t1 t2 k1 k2 : bytes) :
  Forall (fun b => b <> 0) t1 -> Forall (fun b => b <> 0) t2 -> t1 ++ 0 :: k1 = t2 ++ 0 :: k2 -> t1 = t2 /\ k1 = k2.
Proof.
  intros H1. revert t2. induction H1 as [|b t1 Hb _ IH]; intros [|c t2] H2 E; simpl in E.
  - by injection E.
  - injection E as <- _. by apply Forall_cons in H2 as [? _].
  - by injection E as -> _.
  - injection E as -> E. apply Forall_cons in H2 as [_ H2]. by destruct (IH t2 H2 E) as [-> ->].
Qed.

(** Submission keys are scoped to their tenant without ambiguity: for
    accepted tenant names the bytes hashed into the storage key determine both
    the tenant and the caller's key, so two submissions share a storage key
    only when they are the same submission or the digest collides. *)
Theorem submission_digest_scoped (sha256 : bytes -> bytes) (t1 t2 k1 k2 : bytes)
  (H1 : Name.tenant_id_new t1 = Ok t1) (H2 : Name.tenant_id_new t2 = Ok t2)
  (E : digest_for sha256 k1 t1 = digest_for sha256 k2 t2) :
  (t1 = t2 /\ k1 = k2) \/
  (preimage t1 k1 <> preimage t2 k2 /\ sha256 (preimage t1 k1) = sha256 (preimage t2 k2)).
Proof.
  apply Name.tenant_id_new_Ok in H1 as [_ H1%Name.valid_no_nul], H2 as [_ H2%Name.valid_no_nul].
  destruct (decide (preimage t1 k1 = preimage t2 k2)) as [Ep|Hne]; [left | by right].
  unfold preimage in Ep. apply app_inv_head in Ep. by apply nul_split_inj.
Qed.

Lemma submission_digest_scoped_witness :
  exists f : bytes -> bytes,
    digest_for f (bytes_of "0123456789abcdef") (bytes_of "acme") = digest_for f (bytes_of "0123456789abcdef") (bytes_of "acme") /\
    (bytes_of "acme" = bytes_of "acme" /\ bytes_of "0123456789abcdef" = bytes_of "0123456789abcdef" \/
     preimage (bytes_of "acme") (bytes_of "0123456789abcdef") <> preimage (bytes_of "acme") (bytes_of "0123456789abcdef") /\
     preimage (bytes_of "acme") (bytes_of "0123456789abcdef") = preimage (bytes_of "acme") (bytes_of "0123456789abcdef")).
Proof.
  exists (fun b => b). split; [reflexivity |].
  apply (submission_digest_scoped (fun b => b) (bytes_of "acme") (bytes_of "acme")); vm_compute; reflexivity.
Defined.

End SubmissionKey.

(** * Generated identifiers *)

Module GeneratedId.

Inductive GeneratedIdError := InvalidUuid | NonCanonical | WrongVersion | WrongVariant.

Section Generated.
Variable parse_str : bytes -> option Z.
Variable hyphenated : Z -> bytes.
(** [get_variant() == Variant::RFC4122] and [get_version()]. *)
Variable is_rfc4122 : Z -> bool.
Variable version : Z -> option Z.

Definition validate_generated_uuid (value : Z) : result GeneratedIdError Z :=
  if negb (is_rfc4122 value) then Err WrongVariant else
  if negb (bool_decide (version value = Some 7)) then Err WrongVersion else
  Ok value.

Definition from_uuid (value : Z) : result GeneratedIdError Z := validate_generated_uuid value.

Definition parse_generated_uuid (value : bytes) : result GeneratedIdError Z :=
  parsed ← ok_or (parse_str value) InvalidUuid;
  if negb (bool_decide (hyphenated parsed = value)) then Err NonCanonical else
  validate_generated_uuid parsed.

Definition is_v7 (u : Z) : Prop := is_rfc4122 u = true /\ version u = Some 7.

Lemma validate_generated_uuid_Ok u v : validate_generated_uuid u = Ok v <-> v = u /\ is_v7 u.
Proof.
  unfold validate_generated_uuid, is_v7. destruct (is_rfc4122 u); simpl; [| split; [done | by intros (_ & ? & _)]].
  case_bool_decide; simpl; split; try done; [by intros [= <-] | by intros [-> _] | by intros (_ & _ & ?)].
Qed.

(** The printer's text parses back to the value, as the crate documents. *)
Hypothesis parse_hyphenated : forall u, parse_str (hyphenated u) = Some u.

Lemma parse_generated_uuid_Ok s u : parse_generated_uuid s = Ok u <-> s = hyphenated u /\ is_v7 u.
Proof.
  unfold parse_generated_uuid. rewrite bind_Ok. setoid_rewrite ok_or_Ok. split.
  - intros (p & Hp & H). case_bool_decide as E; simpl in H; [| done].
    apply validate_generated_uuid_Ok in H as [-> Hv]. done.
  - intros [-> Hv]. exists u. split; [apply parse_hyphenated |]. rewrite bool_decide_eq_true_2 by done. simpl.
    by apply validate_generated_uuid_Ok.
Qed.
End Generated.

End GeneratedId.
