(* ===== verification/StoreErrors.v ===== *)
(** The errors of the durable store
    (crates/stateknot-store-postgres/src/error.rs) that its callers tell
    apart.  A database error carries whether the driver classifies it as
    transient; every variant no modelled caller looks at is
    [OtherStoreError]. *)

From Stdlib Require Import ZArith.
From stdpp Require Import prelude.
From S2P Require Import Prelude.

Inductive StoreError :=
| RunNotFound
| RunQuarantined
| LeaseHeld
| RunNotRunnable
| RunNotYetAvailable
| InvalidSchedulerFairnessPolicy
| SchedulerFairnessPolicyNotFound
| SchedulerFairnessPolicyConflict
| SchedulerFairnessReservationConflict
| SchedulerFairnessSequenceExhausted
| InvalidToolAuthorizationReceipt
| ToolAuthorizationReceiptNotFound
| ToolAuthorizationReceiptConflict
| InvalidToolAuthorizationReceiptPageSize
| InvalidToolAuthorizationReceiptCursor
| InvalidSkillActivation
| SkillActingWindowNotFound
| SkillActivationConflict
| SkillActingWindowInactive
| LeaseExpired
| NoActiveLease
| StaleFence
| StaleJournalHead
| ChildJoinRejected
| ReadyNodeRecoveryCheckpointMissing
| UnsettledChildRuns
| IncompleteChildAccounting
| AgentAdmissionNotFound
| UnsupportedServerVersion
| SchemaNotMigrated
| IncompatibleSchema
| IncompleteSchema
| Migration
| EncodingFault (record : bytes)
| Corrupt (record : bytes)
| Database (transient : bool)
| OtherStoreError (variant : Z).

(** [StoreError::is_retryable]. *)
Definition is_retryable (e : StoreError) : bool :=
  match e with Database transient => transient | _ => false end.

(** [claim_contention] of the tenant scheduler. *)
Definition claim_contention (e : StoreError) : bool :=
  match e with
  | LeaseHeld | RunNotRunnable | RunNotYetAvailable | RunQuarantined | RunNotFound => true
  | _ => false
  end.
