(* ===== verification/Decimal.v ===== *)
(** Canonical decimal strings for full-width integers
    (crates/stateknot-core/src/decimal.rs) and the three-component version
    text built on the same digits (crates/stateknot-core/src/version.rs).
    Every count, money amount, revision, fencing epoch and duration of the
    program crosses the wire in this form, so the theorems say that the
    accepted texts are exactly the canonical ones: parsing and printing are
    inverse bijections on the accepted range. *)

From Stdlib Require Import ZArith Lia.
From stdpp Require Import prelude.
From S2P Require Import Prelude.

Open Scope Z_scope.

Module Decimal.

Inductive UnsignedDecimalError :=
| Empty
| TooLong (max actual : Z)
| InvalidCharacter (index : Z)
| LeadingZero
| Overflow.

Definition is_ascii_digit (b : Z) : bool := (48 <=? b) && (b <=? 57).

(** [<u64 as FromStr>::from_str] on a digit string: checked multiply and add. *)
Fixpoint std_parse_u64 (acc : Z) (s : bytes) : option Z :=
  match s with
  | [] => Some acc
  | b :: s' =>
      m ← checked_mul u64_max acc 10;
      a ← checked_add u64_max m (b - 48);
      std_parse_u64 a s'
  end.

(** [<u64 as Display>::fmt]: at most twenty digits, least significant last. *)
Fixpoint display_loop (fuel : nat) (v : Z) (acc : bytes) : bytes :=
  match fuel with
  | O => acc
  | S fuel' =>
      let acc' := (48 + v mod 10) :: acc in
      if v <? 10 then acc' else display_loop fuel' (v / 10) acc'
  end.
Definition display_u64 (v : Z) : bytes := display_loop 20 v [].

(** [decimal_digits]: the loop divides by ten while the value has two digits
    or more; a [u64] has at most twenty. *)
Fixpoint decimal_digits_loop (fuel : nat) (value digits : Z) : Z :=
  match fuel with
  | O => digits
  | S fuel' => if 10 <=? value then decimal_digits_loop fuel' (value / 10) (digits + 1) else digits
  end.
Definition decimal_digits (value : Z) : Z := decimal_digits_loop 20 value 1.

Definition starts_with_zero (s : bytes) : bool :=
  match s with b :: _ => b =? 48 | [] => false end.

Definition parse_bounded_u64 (value : bytes) (maximum : Z) : result UnsignedDecimalError Z :=
  let len := Z.of_nat (length value) in
  if len =? 0 then Err Empty else
  let max_len := decimal_digits maximum in
  if max_len <? len then Err (TooLong max_len len) else
  match position (fun b => negb (is_ascii_digit b)) value with
  | Some index => Err (InvalidCharacter (Z.of_nat index))
  | None =>
      if (1 <? len) && starts_with_zero value then Err LeadingZero else
      match std_parse_u64 0 value with
      | None => Err Overflow
      | Some parsed => if maximum <? parsed then Err Overflow else Ok parsed
      end
  end.

(** ** Digit strings *)

Definition is_digit (b : Z) : Prop := 48 <= b <= 57.
Definition value_of (s : bytes) : Z := fold_left (fun acc b => acc * 10 + (b - 48)) s 0.

(** The canonical texts: nonempty, digits only, no redundant leading zero. *)
Definition canonical (s : bytes) : Prop :=
  s <> [] /\ Forall is_digit s /\ (starts_with_zero s = true -> length s = 1%nat).

Lemma is_ascii_digit_spec b : is_ascii_digit b = true <-> is_digit b.
Proof. unfold is_ascii_digit, is_digit. rewrite andb_true_iff, !Z.leb_le. lia. Qed.

Lemma value_of_snoc s d : value_of (s ++ [d]) = value_of s * 10 + (d - 48).
Proof. unfold value_of. by rewrite fold_left_app. Qed.

Lemma value_of_nonneg s : Forall is_digit s -> 0 <= value_of s.
Proof.
  induction s as [|d s IH] using rev_ind; intros HF; [done |].
  apply Forall_app in HF as [HF [Hd _]%Forall_cons]. rewrite value_of_snoc.
  specialize (IH HF). unfold is_digit in Hd. lia.
Qed.

Lemma canonical_last s d : canonical (s ++ [d]) -> is_digit d.
Proof. intros (_ & HF & _). apply Forall_app in HF as [_ HF]. by apply Forall_cons in HF as [? _]. Qed.

Lemma canonical_snoc s d : canonical (s ++ [d]) -> s <> [] -> canonical s /\ 1 <= value_of s.
Proof.
  intros (_ & HF & Hz) Hs. apply Forall_app in HF as [HF _].
  destruct s as [|b s]; [done |]. rewrite length_app in Hz. simpl in *.
  assert (starts_with_zero (b :: s) = false) as Hnz.
  { destruct (starts_with_zero (b :: s)) eqn:E; [| done]. simpl in *. specialize (Hz E). lia. }
  split.
  { split; [done | split; [done |]]. intros E. congruence. }
  clear Hz Hs. induction s as [|e s IH] using rev_ind.
  - apply Forall_cons in HF as [Hb _]. unfold value_of, is_digit in *. simpl in *. bools. lia.
  - change (b :: s ++ [e]) with ((b :: s) ++ [e]) in *. rewrite value_of_snoc.
    apply Forall_app in HF as [HF [He _]%Forall_cons]. unfold is_digit in He.
    specialize (IH HF Hnz). lia.
Qed.

Lemma canonical_value_lower s :
  canonical s -> (2 <= length s)%nat -> 10 ^ (Z.of_nat (length s) - 1) <= value_of s.
Proof.
  induction s as [|d s IH] using rev_ind; intros Hc Hl; [simpl in Hl; lia |].
  rewrite length_app in *. simpl in Hl.
  destruct (canonical_snoc s d Hc) as [Hcs Hv]; [intros ->; simpl in Hl; lia |].
  pose proof (canonical_last s d Hc) as Hd.
  unfold is_digit in Hd. rewrite value_of_snoc.
  replace (Z.of_nat (length s + length [d]) - 1) with (Z.of_nat (length s)) by (simpl; lia).
  destruct (decide (2 <= length s)%nat) as [H2|H2].
  - specialize (IH Hcs H2). replace (Z.of_nat (length s)) with (Z.succ (Z.of_nat (length s) - 1)) by lia.
    rewrite Z.pow_succ_r by lia. lia.
  - replace (Z.of_nat (length s)) with 1 by (destruct s; simpl in *; lia). lia.
Qed.

(** Printing the value of a canonical text gives the text back. *)
Lemma display_value fuel s acc :
  canonical s -> (length s <= fuel)%nat -> display_loop fuel (value_of s) acc = s ++ acc.
Proof.
  revert s acc. induction fuel as [|fuel IH]; intros s acc Hc Hl.
  { destruct s; simpl in Hl; [by destruct Hc | lia]. }
  destruct s as [|d s _] using rev_ind; [by destruct Hc |].
  pose proof (canonical_last s d Hc) as Hd.
  rewrite length_app in Hl. simpl in Hl. rewrite value_of_snoc. cbn [display_loop].
  unfold is_digit in Hd.
  replace ((value_of s * 10 + (d - 48)) mod 10) with (d - 48)
    by (rewrite Z.add_comm, Z.mod_add by lia; symmetry; apply Z.mod_small; lia).
  replace ((value_of s * 10 + (d - 48)) / 10) with (value_of s)
    by (rewrite Z.add_comm, Z.div_add, Z.div_small by lia; lia).
  replace (48 + (d - 48)) with d by lia. rewrite <- app_assoc. simpl.
  destruct (decide (s = [])) as [-> | Hs].
  - change (value_of []) with 0. destruct (Z.ltb_spec (0 * 10 + (d - 48)) 10); [done | lia].
  - destruct (canonical_snoc s d Hc Hs) as [Hcs Hv].
    destruct (Z.ltb_spec (value_of s * 10 + (d - 48)) 10); [lia |]. apply IH; [done | lia].
Qed.

(** Printing any value in range gives a canonical text of that value. *)
Lemma display_canonical fuel v acc :
  0 <= v < 10 ^ Z.of_nat fuel -> (0 < fuel)%nat ->
  exists s, display_loop fuel v acc = s ++ acc /\ canonical s /\ value_of s = v /\ (0 < v -> starts_with_zero s = false).
Proof.
  revert v acc. induction fuel as [|fuel IH]; intros v acc Hv Hf; [lia |].
  cbn [display_loop]. pose proof (Z.mod_pos_bound v 10 ltac:(lia)).
  pose proof (Z.div_mod v 10 ltac:(lia)).
  destruct (Z.ltb_spec v 10).
  - exists [48 + v mod 10]. rewrite (Z.mod_small v) in * by lia.
    split; [done | split; [| split]].
    + split; [done |]. split; [| done]. constructor; [unfold is_digit; lia | constructor].
    + unfold value_of. simpl. lia.
    + simpl. intros. apply Z.eqb_neq. lia.
  - destruct (decide (fuel = 0)%nat) as [-> |]; [simpl in Hv; lia |].
    replace (Z.of_nat (S fuel)) with (Z.succ (Z.of_nat fuel)) in Hv by lia.
    rewrite Z.pow_succ_r in Hv by lia.
    destruct (IH (v / 10) ((48 + v mod 10) :: acc)) as (s & -> & (Hs & HF & Hz) & Hval & Hnz); [lia.. |].
    exists (s ++ [48 + v mod 10]). rewrite <- app_assoc. split; [done |].
    assert (Hnz' : starts_with_zero (s ++ [48 + v mod 10]) = false).
    { destruct s; [done |]. apply Hnz. lia. }
    split; [| split; [rewrite value_of_snoc; lia | done]].
    split; [by destruct s |]. split; [| congruence].
    apply Forall_app. split; [done |]. repeat constructor; unfold is_digit; lia.
Qed.

(** The standard-library parser computes the value, or overflows when the
    value does. *)
Lemma std_parse_value s acc :
  Forall is_digit s -> 0 <= acc <= u64_max ->
  std_parse_u64 acc s =
    let v := fold_left (fun a b => a * 10 + (b - 48)) s acc in
    if v <=? u64_max then Some v else None.
Proof.
  revert acc. induction s as [|b s IH]; intros acc HF Ha; simpl.
  { destruct (Z.leb_spec acc u64_max); [done | lia]. }
  apply Forall_cons in HF as [Hb HF]. unfold is_digit in Hb.
  assert (Hmono : forall s a, Forall is_digit s -> 0 <= a -> a <= fold_left (fun a b => a * 10 + (b - 48)) s a).
  { clear. induction s as [|b s IH]; intros a HF Ha; simpl; [lia |].
    apply Forall_cons in HF as [Hb HF]. unfold is_digit in Hb.
    specialize (IH (a * 10 + (b - 48)) HF). lia. }
  specialize (Hmono s (acc * 10 + (b - 48)) HF).
  unfold checked_mul. destruct (Z.leb_spec (acc * 10) u64_max) as [Hm|Hm]; simpl.
  - unfold checked_add. destruct (Z.leb_spec (acc * 10 + (b - 48)) u64_max); simpl.
    + apply IH; [done | lia].
    + destruct (Z.leb_spec (fold_left (fun a b => a * 10 + (b - 48)) s (acc * 10 + (b - 48))) u64_max); [lia | done].
  - destruct (Z.leb_spec (fold_left (fun a b => a * 10 + (b - 48)) s (acc * 10 + (b - 48))) u64_max); [lia | done].
Qed.

Lemma decimal_digits_loop_spec fuel v d :
  0 <= v < 10 ^ Z.of_nat fuel -> (0 < fuel)%nat ->
  d <= decimal_digits_loop fuel v d /\ v < 10 ^ (decimal_digits_loop fuel v d - d + 1) /\
  decimal_digits_loop fuel v d <= d + Z.of_nat fuel - 1.
Proof.
  revert v d. induction fuel as [|fuel IH]; intros v d Hv Hf; [lia |]. cbn [decimal_digits_loop].
  destruct (Z.leb_spec 10 v).
  - destruct (decide (fuel = 0)%nat) as [-> |]; [simpl in Hv; lia |].
    replace (Z.of_nat (S fuel)) with (Z.succ (Z.of_nat fuel)) in Hv by lia.
    rewrite Z.pow_succ_r in Hv by lia.
    pose proof (Z.div_mod v 10 ltac:(lia)). pose proof (Z.mod_pos_bound v 10 ltac:(lia)).
    destruct (IH (v / 10) (d + 1)) as (Hx1 & Hx2 & Hx3); [lia.. |].
    split; [lia | split; [| lia]].
    replace (decimal_digits_loop fuel (v / 10) (d + 1) - d + 1)
      with (Z.succ (decimal_digits_loop fuel (v / 10) (d + 1) - (d + 1) + 1)) by lia.
    rewrite Z.pow_succ_r by lia. lia.
  - replace (d - d + 1) with 1 by lia. change (10 ^ 1) with 10. lia.
Qed.

Lemma decimal_digits_spec v :
  0 <= v <= u64_max -> 1 <= decimal_digits v <= 20 /\ v < 10 ^ decimal_digits v.
Proof.
  intros Hv. unfold decimal_digits, u64_max in *.
  destruct (decimal_digits_loop_spec 20 v 1) as (H1 & H2 & H3); [simpl; lia.. |].
  replace (decimal_digits_loop 20 v 1 - 1 + 1) with (decimal_digits_loop 20 v 1) in H2 by lia. lia.
Qed.

Lemma display_length v maximum :
  0 <= v <= maximum -> maximum <= u64_max ->
  Z.of_nat (length (display_u64 v)) <= decimal_digits maximum.
Proof.
  intros Hv Hm. unfold u64_max in *.
  destruct (display_canonical 20 v []) as (s & Hs & Hc & Hval & _); [simpl; lia.. |].
  rewrite app_nil_r in Hs. unfold display_u64. rewrite Hs.
  destruct (decimal_digits_spec maximum) as [Hd Hb]; [unfold u64_max; lia |].
  destruct (decide (2 <= length s)%nat) as [H2|H2]; [| lia].
  pose proof (canonical_value_lower s Hc H2) as Hlow. rewrite Hval in Hlow.
  assert (Z.of_nat (length s) - 1 < decimal_digits maximum); [| lia].
  apply (Z.pow_lt_mono_r_iff 10); lia.
Qed.

Lemma canonical_no_invalid s :
  position (fun b => negb (is_ascii_digit b)) s = None <-> Forall is_digit s.
Proof.
  rewrite position_None. apply Forall_iff. intros b.
  rewrite negb_false_iff. apply is_ascii_digit_spec.
Qed.

(** Parsing accepts exactly the canonical texts of the values in range. *)
Lemma parse_bounded_iff s maximum v :
  0 <= maximum <= u64_max ->
  parse_bounded_u64 s maximum = Ok v <-> canonical s /\ value_of s = v /\ v <= maximum.
Proof.
  intros Hm. unfold parse_bounded_u64.
  destruct (Z.eqb_spec (Z.of_nat (length s)) 0) as [H0|H0].
  { split; [done |]. intros ((Hs & _) & _). destruct s; [done | simpl in H0; lia]. }
  assert (Hne : s <> []) by (by intros ->).
  destruct (decimal_digits_spec maximum Hm) as [Hd Hb].
  destruct (Z.ltb_spec (decimal_digits maximum) (Z.of_nat (length s))) as [Hl|Hl].
  { split; [done |]. intros (Hc & <- & Hle).
    assert (2 <= length s)%nat as H2 by lia.
    pose proof (canonical_value_lower s Hc H2).
    assert (10 ^ decimal_digits maximum <= 10 ^ (Z.of_nat (length s) - 1)) by (apply Z.pow_le_mono_r; lia).
    lia. }
  destruct (position _ s) as [i|] eqn:Hp.
  { split; [done |]. intros ((_ & HF & _) & _). apply canonical_no_invalid in HF. congruence. }
  apply canonical_no_invalid in Hp.
  destruct ((1 <? Z.of_nat (length s)) && starts_with_zero s) eqn:Hz.
  { split; [done |]. intros ((_ & _ & Hz') & _). bools.
    destruct (starts_with_zero s); [specialize (Hz' eq_refl); lia | done]. }
  assert (Hc : canonical s).
  { split; [done | split; [done |]]. intros Hsz. rewrite Hsz, andb_true_r in Hz. bools. lia. }
  rewrite (std_parse_value s 0) by (done || unfold u64_max; lia).
  cbv zeta. fold (value_of s). destruct (Z.leb_spec (value_of s) u64_max).
  - destruct (Z.ltb_spec maximum (value_of s)).
    + split; [done |]. intros (_ & <- & ?). lia.
    + split; [intros [= <-]; by repeat split; try apply Hc | intros (_ & <- & _); done].
  - split; [done |]. intros (_ & <- & ?). lia.
Qed.

(** The codec is a bijection between the values in range and their texts. *)
Lemma parse_bounded_u64_canonical (s : bytes) (maximum v : Z) :
  0 <= maximum <= u64_max ->
  parse_bounded_u64 s maximum = Ok v <-> 0 <= v <= maximum /\ s = display_u64 v.
Proof.
  intros Hm. rewrite parse_bounded_iff by done. unfold display_u64. split.
  - intros (Hc & <- & Hle). split; [split; [apply value_of_nonneg, Hc | done] |].
    rewrite display_value; [by rewrite app_nil_r | done |].
    destruct (decide (length s <= 20)%nat) as [|Hl]; [done |].
    pose proof (canonical_value_lower s Hc ltac:(lia)).
    assert (10 ^ 20 <= 10 ^ (Z.of_nat (length s) - 1)) by (apply Z.pow_le_mono_r; lia).
    unfold u64_max in *. lia.
  - intros [Hv ->]. unfold u64_max in *.
    destruct (display_canonical 20 v []) as (s & Hs & Hc & Hval & _); [simpl; lia.. |].
    rewrite app_nil_r in Hs. rewrite Hs. split; [done | split; [done | lia]].
Qed.

(** Canonical decimal codec: for every bound up to [u64::MAX],
    [parse_bounded_u64] returns [Ok v] exactly when [v] is at most the bound
    and the text is the one [Display] prints for [v]; so the wire form of a
    count is unique and round-trips in both directions. *)
Theorem parse_bounded_u64_display (s : bytes) (maximum v : Z) :
  0 <= maximum <= u64_max ->
  parse_bounded_u64 s maximum = Ok v <-> 0 <= v <= maximum /\ s = display_u64 v.
Proof. apply parse_bounded_u64_canonical. Qed.

Lemma parse_bounded_u64_display_witness :
  (0 <= u64_max <= u64_max) /\
  (parse_bounded_u64 (bytes_of "18446744073709551615") u64_max = Ok u64_max <->
   0 <= u64_max <= u64_max /\ bytes_of "18446744073709551615" = display_u64 u64_max).
Proof.
  split; [unfold u64_max; lia |].
  apply (parse_bounded_u64_display (bytes_of "18446744073709551615") u64_max u64_max).
  unfold u64_max; lia.
Defined.

(** The rejections, in the order the code tests them: an empty text, a text
    longer than the bound's own text, a non-digit byte at its first position,
    a redundant leading zero, and a value above the bound. *)
Lemma parse_bounded_u64_error s maximum e :
  0 <= maximum <= u64_max -> parse_bounded_u64 s maximum = Err e ->
  match e with
  | Empty => s = []
  | TooLong max actual => max = decimal_digits maximum /\ actual = Z.of_nat (length s) /\ max < actual
  | InvalidCharacter i => exists b, s !! Z.to_nat i = Some b /\ ~ is_digit b
  | LeadingZero => starts_with_zero s = true /\ (1 < length s)%nat
  | Overflow => canonical s /\ maximum < value_of s
  end.
Proof.
  intros Hm. unfold parse_bounded_u64.
  destruct (Z.eqb_spec (Z.of_nat (length s)) 0) as [H0|H0].
  { intros [= <-]. destruct s; [done | simpl in H0; lia]. }
  destruct (Z.ltb_spec (decimal_digits maximum) (Z.of_nat (length s))) as [Hl|Hl]; [by intros [= <-] |].
  destruct (position _ s) as [i|] eqn:Hp.
  { intros [= <-]. apply position_Some in Hp as (l1 & b & l2 & -> & <- & Hb & _). exists b.
    rewrite Nat2Z.id, list_lookup_middle by done. split; [done |].
    intros Hd%is_ascii_digit_spec. by rewrite Hd in Hb. }
  apply canonical_no_invalid in Hp.
  destruct ((1 <? Z.of_nat (length s)) && starts_with_zero s) eqn:Hz.
  { intros [= <-]. bools. split; [done | lia]. }
  rewrite (std_parse_value s 0) by (done || unfold u64_max; lia).
  cbv zeta. fold (value_of s).
  assert (Hc : canonical s).
  { split; [by intros -> | split; [done |]]. intros Hsz. rewrite Hsz, andb_true_r in Hz. bools. destruct s; simpl in *; lia. }
  destruct (Z.leb_spec (value_of s) u64_max); [destruct (Z.ltb_spec maximum (value_of s)) |]; intros [= <-];
    (split; [done | lia]).
Qed.

End Decimal.

(** * [Version]: three canonical components separated by dots *)

Module Version.
Import Decimal.

Record Version := mkVersion { major : Z; minor : Z; patch : Z }.

Inductive VersionComponent := Major | Minor | Patch.

Inductive VersionError :=
| TooLong (max actual : Z)
| InvalidFormat
| NonCanonical (component : VersionComponent)
| ComponentOverflow (component : VersionComponent).

Definition MAX_LEN : Z := 62.

(** [str::split('.')]. *)
Fixpoint split_dot (s : bytes) : list bytes :=
  match s with
  | [] => [[]]
  | b :: s' =>
      if b =? 46 then [] :: split_dot s'
      else match split_dot s' with
           | [] => [[b]]
           | p :: ps => (b :: p) :: ps
           end
  end.

Definition parse_component (value : option bytes) (component : VersionComponent) : result VersionError Z :=
  value ← ok_or value InvalidFormat;
  if bool_decide (value = []) || negb (forallb is_ascii_digit value) then Err InvalidFormat else
  if (1 <? Z.of_nat (length value)) && starts_with_zero value then Err (NonCanonical component) else
  ok_or (std_parse_u64 0 value) (ComponentOverflow component).

Definition from_str (value : bytes) : result VersionError Version :=
  if MAX_LEN <? Z.of_nat (length value) then Err (TooLong MAX_LEN (Z.of_nat (length value))) else
  let parts := split_dot value in
  major ← parse_component (parts !! 0%nat) Major;
  minor ← parse_component (parts !! 1%nat) Minor;
  patch ← parse_component (parts !! 2%nat) Patch;
  match parts !! 3%nat with
  | Some _ => Err InvalidFormat
  | None => Ok (mkVersion major minor patch)
  end.

(** [Display]: the three components joined by dots. *)
Definition display (v : Version) : bytes :=
  display_u64 (major v) ++ 46 :: display_u64 (minor v) ++ 46 :: display_u64 (patch v).

Definition wf (v : Version) : Prop := is_u64 (major v) /\ is_u64 (minor v) /\ is_u64 (patch v).

Lemma split_dot_nonempty s : split_dot s <> [].
Proof. destruct s as [|b s]; simpl; [done |]. destruct (b =? 46); [done |]. by destruct (split_dot s). Qed.

Lemma split_dot_join p s :
  Forall (fun b => b <> 46) p -> split_dot (p ++ 46 :: s) = p :: split_dot s.
Proof.
  induction 1 as [|b p Hb HF IH]; simpl; [done |].
  destruct (Z.eqb_spec b 46); [done |]. by rewrite IH.
Qed.

Lemma split_dot_last p : Forall (fun b => b <> 46) p -> split_dot p = [p].
Proof. induction 1 as [|b p Hb HF IH]; simpl; [done |]. destruct (Z.eqb_spec b 46); [done |]. by rewrite IH. Qed.

(** The text is the concatenation of its parts with dots between them. *)
Lemma split_dot_cons s p ps :
  split_dot s = p :: ps -> match ps with [] => s = p | _ => exists s', s = p ++ 46 :: s' /\ split_dot s' = ps end.
Proof.
  revert p ps. induction s as [|b s IH]; intros p ps; simpl.
  { by intros [= <- <-]. }
  destruct (Z.eqb_spec b 46) as [->|Hb].
  - intros [= <- Hps]. destruct ps as [|q qs]; [by destruct (split_dot_nonempty s) |]. by exists s.
  - destruct (split_dot s) as [|q qs] eqn:E; [by destruct (split_dot_nonempty s) |].
    intros [= <- <-]. specialize (IH q qs eq_refl). destruct qs; [by subst |].
    destruct IH as (s' & -> & Hs'). by exists s'.
Qed.

Lemma parse_component_spec value c n :
  parse_component value c = Ok n <-> exists s, value = Some s /\ is_u64 n /\ s = display_u64 n.
Proof.
  assert (Hparse : forall s, (is_u64 n /\ s = display_u64 n) <-> parse_bounded_u64 s u64_max = Ok n).
  { intros s. unfold in_u. rewrite (parse_bounded_u64_canonical s u64_max n); [done | unfold u64_max; lia]. }
  unfold parse_component. destruct value as [s|]; simpl; [| by naive_solver].
  transitivity (parse_bounded_u64 s u64_max = Ok n); [| rewrite <- Hparse; naive_solver].
  rewrite parse_bounded_iff by (unfold u64_max; lia).
  destruct (bool_decide (s = []) || negb (forallb is_ascii_digit s)) eqn:Hb.
  { split; [done |]. intros ((Hne & HF & _) & _). apply orb_true_iff in Hb as [Hb | Hb]; bools; [done |].
    assert (forallb is_ascii_digit s = true); [| congruence].
    apply forallb_forall. intros b Hin. apply is_ascii_digit_spec.
    rewrite Forall_forall in HF. by apply HF, list_elem_of_In. }
  bools. assert (HF : Forall is_digit s).
  { apply Forall_forall. intros b Hin%list_elem_of_In. apply is_ascii_digit_spec. by eapply forallb_forall. }
  destruct ((1 <? Z.of_nat (length s)) && starts_with_zero s) eqn:Hz.
  { split; [done |]. intros ((_ & _ & Hz') & _). bools.
    destruct (starts_with_zero s); [specialize (Hz' eq_refl); lia | done]. }
  rewrite (std_parse_value s 0) by (done || unfold u64_max; lia). cbv zeta. fold (value_of s).
  assert (canonical s).
  { split; [done | split; [done |]]. intros Hsz. rewrite Hsz, andb_true_r in Hz. bools. destruct s; simpl in *; [done | lia]. }
  destruct (Z.leb_spec (value_of s) u64_max); simpl; split.
  - intros [= <-]. done.
  - by intros (_ & <- & _).
  - done.
  - intros (_ & <- & ?). lia.
Qed.

Lemma display_no_dot n : is_u64 n -> Forall (fun b => b <> 46) (display_u64 n).
Proof.
  intros Hn. assert (Hp : parse_bounded_u64 (display_u64 n) u64_max = Ok n).
  { apply parse_bounded_u64_canonical; [unfold u64_max; lia | done]. }
  apply parse_bounded_iff in Hp as ((_ & HF & _) & _); [| unfold u64_max; lia].
  eapply Forall_impl; [exact HF |]. unfold is_digit. simpl. lia.
Qed.

Lemma version_display_length v : wf v -> Z.of_nat (length (display v)) <= MAX_LEN.
Proof.
  intros (H1 & H2 & H3). unfold display, MAX_LEN. repeat (rewrite length_app; simpl).
  assert (Hl : forall n, is_u64 n -> Z.of_nat (length (display_u64 n)) <= 20).
  { intros n Hn. etransitivity; [apply (display_length n u64_max); [done | lia] |].
    apply decimal_digits_spec. unfold u64_max; lia. }
  pose proof (Hl _ H1). pose proof (Hl _ H2). pose proof (Hl _ H3). lia.
Qed.

(** Version text codec: [Version::from_str] accepts exactly the texts that
    [Display] prints for a version whose three components fit in [u64]; no
    two texts denote one version and every version round-trips. *)
Theorem version_text_roundtrip (s : bytes) (v : Version) :
  from_str s = Ok v <-> wf v /\ s = display v.
Proof.
  unfold from_str. split.
  - intros H. simp_ok. rewrite !parse_component_spec in *.
    repeat match goal with H : exists _, _ |- _ => destruct H as (? & ? & ? & ->) end.
    destruct (split_dot s) as [|p0 [|p1 [|p2 [|p3 ps]]]] eqn:E; simpl in *; simplify_eq.
    apply split_dot_cons in E as (s1 & -> & E). apply split_dot_cons in E as (s2 & -> & E).
    apply split_dot_cons in E as ->. done.
  - intros [Hw ->]. destruct (Z.ltb_spec MAX_LEN (Z.of_nat (length (display v)))) as [Hl|Hl].
    { pose proof (version_display_length v Hw). lia. }
    destruct Hw as (H1 & H2 & H3). unfold display.
    rewrite split_dot_join, split_dot_join, split_dot_last by by apply display_no_dot.
    simpl. rewrite (proj2 (parse_component_spec _ Major (major v))) by eauto. simpl.
    rewrite (proj2 (parse_component_spec _ Minor (minor v))) by eauto. simpl.
    rewrite (proj2 (parse_component_spec _ Patch (patch v))) by eauto. simpl. by destruct v.
Qed.

End Version.
