(* ===== verification/Scope.v ===== *)
(** Authorization scopes (crates/stateknot-core/src/scope.rs): bounded OAuth
    scope tokens and the sorted sets of them that grants are compared by. *)

From Stdlib Require Import ZArith Lia.
From stdpp Require Import prelude.
From S2P Require Import Prelude Ordered.

Open Scope Z_scope.

Module Scope.

(** [Scope(Box<str>)]. *)
Definition Scope := bytes.
Definition MAX_LEN : Z := 256.

Inductive ScopeError := Empty | TooLong (max actual : Z) | InvalidByte (index : nat).

Definition scope_byte (byte : Z) : bool := (byte =? 33) || between 35 91 byte || between 93 126 byte.

Definition validate_scope (value : bytes) : result ScopeError unit :=
  if (length value =? 0)%nat then Err Empty else
  if MAX_LEN <? Z.of_nat (length value) then Err (TooLong MAX_LEN (Z.of_nat (length value))) else
  match position (fun byte => negb (scope_byte byte)) value with
  | Some index => Err (InvalidByte index)
  | None => Ok tt
  end.

Definition scope_new (value : bytes) : result ScopeError Scope :=
  _ ← validate_scope value; Ok value.

(** [ScopeSet(BTreeSet<Scope>)]. *)
Definition ScopeSet := list Scope.
Definition SET_MAX_LEN : Z := 128.

Inductive ScopeSetError := Duplicate (scope : Scope) | TooMany (max observed : Z).

Definition scope_set_step (set : ScopeSet) (scope : Scope) : result ScopeSetError ScopeSet :=
  if bs_contains scope set then Err (Duplicate scope) else
  if Z.of_nat (length set) =? SET_MAX_LEN then Err (TooMany SET_MAX_LEN (SET_MAX_LEN + 1)) else
  Ok (bs_insert scope set).

Definition scope_set_try_new (scopes : list Scope) : result ScopeSetError ScopeSet :=
  try_fold scope_set_step [] scopes.

Definition contains (self : ScopeSet) (scope : Scope) : bool := bs_contains scope self.

Definition is_subset (self other : ScopeSet) : bool := forallb (fun scope => bs_contains scope other) self.

Definition intersection (self other : ScopeSet) : ScopeSet :=
  bs_extend [] (List.filter (fun scope => bs_contains scope other) self).

(** ** Laws *)

(** The RFC 6749 [scope-token] grammar with the length bound. *)
Definition scope_token (value : bytes) : Prop :=
  (1 <= length value <= 256)%nat /\
  forall byte, byte ∈ value -> byte = 33 \/ 35 <= byte <= 91 \/ 93 <= byte <= 126.

Lemma scope_byte_iff byte : scope_byte byte = true <-> byte = 33 \/ 35 <= byte <= 91 \/ 93 <= byte <= 126.
Proof. unfold scope_byte, between. rewrite !orb_true_iff, !andb_true_iff, Z.eqb_eq, !Z.leb_le. tauto. Qed.

Lemma scope_new_iff value s : scope_new value = Ok s <-> s = value /\ scope_token value.
Proof.
  unfold scope_new, validate_scope, scope_token. rewrite bind_Ok.
  destruct (Nat.eqb_spec (length value) 0) as [E|E]; [split; [naive_solver | lia] |].
  destruct (Z.ltb_spec MAX_LEN (Z.of_nat (length value))) as [L|L]; unfold MAX_LEN in L; [split; [naive_solver | lia] |].
  destruct (position _ value) as [i|] eqn:P.
  - split; [naive_solver |]. intros (_ & _ & HF). apply position_Some in P as (l1 & x & l2 & -> & _ & Hx & _).
    apply negb_true_iff in Hx. assert (H : scope_byte x = true) by (apply scope_byte_iff, HF; set_solver). congruence.
  - rewrite position_None, Forall_forall in P. split.
    + intros ([] & _ & [= <-]). split_and!; [done | lia.. |]. intros byte Hb. apply scope_byte_iff.
      specialize (P byte Hb). by apply negb_false_iff in P.
    + intros [-> _]. by exists tt.
Qed.

Lemma scope_set_invariant scopes acc set :
  ksorted (fun s : Scope => s) acc -> Z.of_nat (length acc) <= SET_MAX_LEN -> try_fold scope_set_step acc scopes = Ok set <->
  ksorted (fun s : Scope => s) acc /\ set = bs_extend acc scopes /\ NoDup scopes /\ (forall s, s ∈ scopes -> s ∉ acc) /\
  Z.of_nat (length acc + length scopes) <= SET_MAX_LEN.
Proof.
  revert acc. induction scopes as [|s scopes IH]; intros acc Hs Hl; simpl.
  { split; [intros [= <-] | intros (_ & -> & _); done]. split_and!; [done | done | constructor | set_solver | lia]. }
  unfold scope_set_step at 2. destruct (bs_contains s acc) eqn:E; simpl.
  { apply bs_contains_iff in E. split; [done |]. intros (_ & _ & _ & H & _). set_solver. }
  apply bs_contains_false in E. destruct (Z.eqb_spec (Z.of_nat (length acc)) SET_MAX_LEN); simpl.
  { split; [done |]. intros (_ & _ & _ & _ & H). lia. }
  simpl. pose proof (bs_insert_length_fresh s acc E) as Hlen.
  rewrite IH; [| by apply bs_insert_sorted | lia]. rewrite Hlen, NoDup_cons. split.
  - intros (_ & -> & Hnd & Hout & Hle). split_and!; [done | done | | done | | lia].
    + intros Hin. specialize (Hout s Hin). rewrite bs_insert_elem in Hout. tauto.
    + intros x [->|Hx]%elem_of_cons; [done |]. specialize (Hout x Hx). rewrite bs_insert_elem in Hout. tauto.
  - intros (_ & -> & [Hni Hnd] & Hout & Hle). split_and!; [by apply bs_insert_sorted | done | done | | lia].
    intros x Hx. rewrite bs_insert_elem. intros [->|Hin]; [done |]. apply (Hout x); [set_solver | done].
Qed.

(** A set is built exactly from at most 128 distinct scopes, and holds them. *)
Lemma scope_set_try_new_iff scopes set :
  scope_set_try_new scopes = Ok set <->
  set = bs_extend [] scopes /\ NoDup scopes /\ Z.of_nat (length scopes) <= SET_MAX_LEN.
Proof.
  unfold scope_set_try_new. rewrite scope_set_invariant; [| constructor | unfold SET_MAX_LEN; simpl; lia].
  simpl. split; [naive_solver |]. intros (-> & ? & ?). split_and!; try done; [constructor | set_solver].
Qed.

Lemma is_subset_iff a b : is_subset a b = true <-> a ⊆ b.
Proof.
  unfold is_subset. rewrite List.forallb_forall. split.
  - intros H x Hx. by apply bs_contains_iff, H, list_elem_of_In.
  - intros H x Hx%list_elem_of_In. by apply bs_contains_iff, H.
Qed.

Lemma intersection_elem a b x : x ∈ intersection a b <-> x ∈ a /\ x ∈ b.
Proof.
  unfold intersection. rewrite bs_extend_elem, elem_of_nil, list_elem_of_In, List.filter_In, <- list_elem_of_In, bs_contains_iff.
  tauto.
Qed.
End Scope.
