(* ===== verification/BoundedJson.v ===== *)
(** Resource-bounded JSON (crates/stateknot-core/src/json.rs): the limits, and
    the visitor that rebuilds a value from a deserializer while it charges
    every node, nesting level, container entry, string and compact byte to a
    tracker.

    A deserializer is code outside the repository; what it offers the visitor
    is a [Doc]: the value it announces, or the point at which it fails.  The
    text of a float is a parameter. *)

From Stdlib Require Import ZArith Lia List.
From stdpp Require Import prelude.
From S2P Require Import Prelude Ordered Decimal Json.

Open Scope Z_scope.

(** * Limits *)

Inductive JsonLimit := LBytes | LDepth | LContainerEntries | LNodes | LStringBytes | LObjectKeyBytes.

Record JsonLimits := mkJsonLimits {
  max_bytes : Z;
  max_depth : Z;
  max_container_entries : Z;
  max_nodes : Z;
  max_string_bytes : Z;
  max_object_key_bytes : Z
}.

Definition KIBIBYTE : Z := 1024.
Definition MEBIBYTE : Z := KIBIBYTE * KIBIBYTE.

Definition LIMITS_DEFAULT : JsonLimits := mkJsonLimits (256 * KIBIBYTE) 32 1024 16384 (64 * KIBIBYTE) 256.
Definition LIMITS_MAXIMUM : JsonLimits := mkJsonLimits (2 * MEBIBYTE) 64 8192 131072 MEBIBYTE 1024.

Inductive JsonLimitsError :=
| LimitZero (limit : JsonLimit)
| AboveHardMaximum (limit : JsonLimit) (maximum actual : Z).

Definition validate_configured_limit (limit : JsonLimit) (actual maximum : Z) : result JsonLimitsError unit :=
  if actual =? 0 then Err (LimitZero limit) else
  if maximum <? actual then Err (AboveHardMaximum limit maximum actual) else Ok tt.

Definition json_limits_try_new (bytes depth entries nodes string key : Z) : result JsonLimitsError JsonLimits :=
  _ ← validate_configured_limit LBytes bytes (max_bytes LIMITS_MAXIMUM);
  _ ← validate_configured_limit LDepth depth (max_depth LIMITS_MAXIMUM);
  _ ← validate_configured_limit LContainerEntries entries (max_container_entries LIMITS_MAXIMUM);
  _ ← validate_configured_limit LNodes nodes (max_nodes LIMITS_MAXIMUM);
  _ ← validate_configured_limit LStringBytes string (max_string_bytes LIMITS_MAXIMUM);
  _ ← validate_configured_limit LObjectKeyBytes key (max_object_key_bytes LIMITS_MAXIMUM);
  Ok (mkJsonLimits bytes depth entries nodes string key).

Inductive BoundedJsonError :=
| InputTooLarge (maximum actual : Z)
| CompactRepresentationTooLarge (maximum actual : Z)
| NestingTooDeep (maximum actual : Z)
| TooManyContainerEntries (maximum actual : Z)
| TooManyNodes (maximum actual : Z)
| StringTooLong (maximum actual : Z)
| ObjectKeyTooLong (maximum actual : Z)
| DuplicateObjectKey
| NonFiniteNumber
| NumberOutOfRange
| InvalidJson (line column : Z).

(** * What a deserializer announces

    [DFault true] fails inside [deserialize_any]; [DFault false] as the value
    of a member fails before its seed is called.  The last argument of a
    container is the failure met when the next entry is asked for. *)
Inductive Doc :=
| DNull
| DBool (b : bool)
| DInt (z : Z)
| DFloat (bits : Z)
| DStr (s : bytes)
| DSeq (items : list Doc) (fault : option (Z * Z))
| DMap (members : list (bytes * Doc)) (fault : option (Z * Z))
| DFault (seeded : bool) (line column : Z).

(** * The tracker *)

Record Tracker := mkTracker {
  t_limits : JsonLimits;
  t_compact_bytes : Z;
  t_max_depth : Z;
  t_nodes : Z
}.

Record JsonStats := mkJsonStats { compact_bytes : Z; stats_max_depth : Z; nodes : Z }.

Definition tracker_new (limits : JsonLimits) : Tracker := mkTracker limits 0 0 0.
Definition tracker_stats (t : Tracker) : JsonStats := mkJsonStats (t_compact_bytes t) (t_max_depth t) (t_nodes t).

Definition add_node (t : Tracker) : result BoundedJsonError Tracker :=
  let actual := saturating_add u64_max (t_nodes t) 1 in
  if max_nodes (t_limits t) <? actual then Err (TooManyNodes (max_nodes (t_limits t)) actual) else
  Ok (mkTracker (t_limits t) (t_compact_bytes t) (t_max_depth t) actual).

Definition enter_container (parent_depth : Z) (t : Tracker) : result BoundedJsonError (Z * Tracker) :=
  let actual := saturating_add u64_max parent_depth 1 in
  if max_depth (t_limits t) <? actual then Err (NestingTooDeep (max_depth (t_limits t)) actual) else
  Ok (actual, mkTracker (t_limits t) (t_compact_bytes t) (Z.max (t_max_depth t) actual) (t_nodes t)).

Definition add_compact_bytes (additional : Z) (t : Tracker) : result BoundedJsonError Tracker :=
  let actual := saturating_add u64_max (t_compact_bytes t) additional in
  if max_bytes (t_limits t) <? actual then Err (CompactRepresentationTooLarge (max_bytes (t_limits t)) actual) else
  Ok (mkTracker (t_limits t) actual (t_max_depth t) (t_nodes t)).

Definition check_string (actual : Z) (t : Tracker) : result BoundedJsonError unit :=
  if max_string_bytes (t_limits t) <? actual then Err (StringTooLong (max_string_bytes (t_limits t)) actual) else Ok tt.

Definition check_object_key (actual : Z) (t : Tracker) : result BoundedJsonError unit :=
  if max_object_key_bytes (t_limits t) <? actual then Err (ObjectKeyTooLong (max_object_key_bytes (t_limits t)) actual) else Ok tt.

Definition encoded_byte_len (byte : Z) : Z :=
  if (byte =? 8) || (byte =? 9) || (byte =? 10) || (byte =? 12) || (byte =? 13) || (byte =? 34) || (byte =? 92) then 2
  else if between 0 31 byte then 6 else 1.

Definition encoded_json_string_len (value : bytes) : Z :=
  fold_left (fun length byte => saturating_add u64_max length (encoded_byte_len byte)) value 2.

(** [Number::to_string]: decimal text for integers. *)
Definition integer_text (z : Z) : bytes :=
  if z <? 0 then 45 :: Decimal.display_u64 (- z) else Decimal.display_u64 z.

(** An IEEE double is finite unless its eleven exponent bits are all set. *)
Definition is_finite (bits : Z) : bool := negb (Z.land (Z.shiftr bits 52) 2047 =? 2047).
#[global] Arguments is_finite : simpl never.

Section Visitor.
Variable float_text : Z -> bytes.

Definition number_text (n : Number) : bytes :=
  match n with NInt z => integer_text z | NFloat bits => float_text bits end.

Definition visit_number (n : Number) (t : Tracker) : result BoundedJsonError (Value * Tracker) :=
  t ← add_compact_bytes (Z.of_nat (length (number_text n))) t; Ok (Num n, t).

(** [visit_i64], [visit_u64] and the wider forms that [Number::from_i128] and
    [Number::from_u128] accept. *)
Definition visit_integer (z : Z) (t : Tracker) : result BoundedJsonError (Value * Tracker) :=
  if (z <? i64_min) || (u64_max <? z) then Err NumberOutOfRange else visit_number (NInt z) t.

Definition visit_f64 (bits : Z) (t : Tracker) : result BoundedJsonError (Value * Tracker) :=
  if negb (is_finite bits) then Err NonFiniteNumber else visit_number (NFloat bits) t.

Definition visit_str (s : bytes) (t : Tracker) : result BoundedJsonError (Value * Tracker) :=
  _ ← check_string (Z.of_nat (length s)) t;
  t ← add_compact_bytes (encoded_json_string_len s) t;
  Ok (Str s, t).

Definition visit_bool (b : bool) (t : Tracker) : result BoundedJsonError (Value * Tracker) :=
  t ← add_compact_bytes (if b then 4 else 5) t; Ok (Bool b, t).

Definition visit_unit (t : Tracker) : result BoundedJsonError (Value * Tracker) :=
  t ← add_compact_bytes 4 t; Ok (Null, t).

Definition visit_separator (separator : bool) (t : Tracker) : result BoundedJsonError Tracker :=
  if separator then add_compact_bytes 1 t else Ok t.

Definition visit_key (key : bytes) (separator : bool) (t : Tracker) : result BoundedJsonError Tracker :=
  _ ← check_object_key (Z.of_nat (length key)) t;
  t ← visit_separator separator t;
  add_compact_bytes (saturating_add u64_max (encoded_json_string_len key) 1) t.

(** No further entry: the container ends, or the deserializer fails. *)
Definition container_end {A} (fault : option (Z * Z)) (value : A) : result BoundedJsonError A :=
  match fault with Some (line, column) => Err (InvalidJson line column) | None => Ok value end.

(** [RejectExtraEntrySeed]. *)
Definition reject_extra_entry (maximum : Z) : BoundedJsonError :=
  TooManyContainerEntries maximum (saturating_add u64_max maximum 1).

(** The loops of [visit_seq] and [visit_map], at the depth of the container. *)
Section Loops.
Variable element : Doc -> Tracker -> result BoundedJsonError (Value * Tracker).
Variable maximum : Z.
Variable fault : option (Z * Z).

Fixpoint visit_elements (values : list Value) (l : list Doc) (t : Tracker) : result BoundedJsonError (list Value * Tracker) :=
  if Z.of_nat (length values) <? maximum then
    match l with
    | [] => container_end fault (values, t)
    | d :: l' =>
        t ← visit_separator (negb (length values =? 0)%nat) t;
        '(v, t) ← element d t;
        visit_elements (values ++ [v]) l' t
    end
  else match l with [] => container_end fault (values, t) | _ :: _ => Err (reject_extra_entry maximum) end.

Fixpoint visit_entries (sorted : list (bytes * Value)) (l : list (bytes * Doc)) (t : Tracker)
  : result BoundedJsonError (list (bytes * Value) * Tracker) :=
  if Z.of_nat (length sorted) <? maximum then
    match l with
    | [] => container_end fault (sorted, t)
    | (key, d) :: l' =>
        t ← visit_key key (negb (length sorted =? 0)%nat) t;
        match bt_get key sorted with
        | Some _ => Err DuplicateObjectKey
        | None =>
            match d with
            | DFault false line column => Err (InvalidJson line column)
            | _ => '(v, t) ← element d t; visit_entries (bt_insert key v sorted) l' t
            end
        end
    end
  else match l with [] => container_end fault (sorted, t) | _ :: _ => Err (reject_extra_entry maximum) end.
End Loops.

Fixpoint visit (d : Doc) (parent_depth : Z) (t : Tracker) : result BoundedJsonError (Value * Tracker) :=
  t ← add_node t;
  match d with
  | DNull => visit_unit t
  | DBool b => visit_bool b t
  | DInt z => visit_integer z t
  | DFloat bits => visit_f64 bits t
  | DStr s => visit_str s t
  | DFault _ line column => Err (InvalidJson line column)
  | DSeq items fault =>
      '(depth, t) ← enter_container parent_depth t;
      t ← add_compact_bytes 2 t;
      '(values, t) ← visit_elements (fun d => visit d depth) (max_container_entries (t_limits t)) fault [] items t;
      Ok (Arr values, t)
  | DMap members fault =>
      '(depth, t) ← enter_container parent_depth t;
      t ← add_compact_bytes 2 t;
      '(sorted, t) ← visit_entries (fun d => visit d depth) (max_container_entries (t_limits t)) fault [] members t;
      Ok (Obj sorted, t)
  end.

(** * Bounded values *)

Record BoundedJson := mkBoundedJson { bounded_value : Value; stats : JsonStats }.

Definition deserialize_with_limits (d : Doc) (limits : JsonLimits) : result BoundedJsonError BoundedJson :=
  '(v, t) ← visit d 0 (tracker_new limits);
  Ok (mkBoundedJson v (tracker_stats t)).

(** What a parsed value announces as its own deserializer. *)
Fixpoint doc_of (v : Value) : Doc :=
  match v with
  | Null => DNull
  | Bool b => DBool b
  | Num (NInt z) => DInt z
  | Num (NFloat bits) => DFloat bits
  | Str s => DStr s
  | Arr l => DSeq (map doc_of l) None
  | Obj l => DMap (map (fun kv => (kv.1, doc_of kv.2)) l) None
  end.

Definition try_from_value_with_limits (v : Value) (limits : JsonLimits) : result BoundedJsonError BoundedJson :=
  deserialize_with_limits (doc_of v) limits.

Definition try_from_value (v : Value) : result BoundedJsonError BoundedJson :=
  try_from_value_with_limits v LIMITS_DEFAULT.

(** The parser of serde_json: the document it announces for a text, and the
    failure of [end] when text is left over. *)
Variable parser : bytes -> Doc * option (Z * Z).

Definition from_slice_with_limits (input : bytes) (limits : JsonLimits) : result BoundedJsonError BoundedJson :=
  if max_bytes limits <? Z.of_nat (length input) then Err (InputTooLarge (max_bytes limits) (Z.of_nat (length input))) else
  let '(d, rest) := parser input in
  '(v, t) ← visit d 0 (tracker_new limits);
  container_end rest (mkBoundedJson v (tracker_stats t)).

Definition from_slice (input : bytes) : result BoundedJsonError BoundedJson :=
  from_slice_with_limits input LIMITS_DEFAULT.
End Visitor.

#[global] Instance JsonStats_eq_dec : EqDecision JsonStats.
Proof. solve_decision. Defined.
#[global] Instance BoundedJson_eq_dec : EqDecision BoundedJson.
Proof. solve_decision. Defined.
