(* ===== verification/BoundedJsonLaws.v ===== *)
(** The bounded visitor against a reference: which documents it accepts, what
    it makes of them, and that the bytes it charges are the length of the
    compact text of the result. *)

From Stdlib Require Import ZArith Lia List.
From stdpp Require Import prelude sorting.
From S2P Require Import Prelude Ordered Decimal Json BoundedJson.

Open Scope Z_scope.

Module Bounded.

(** * The reference: compact text, nodes and depth *)

Definition sumZ (l : list Z) : Z := foldr Z.add 0 l.
Definition maxZ (l : list Z) : Z := foldr Z.max 0 l.

Definition hex_digit (n : Z) : Z := if n <? 10 then 48 + n else 87 + n.

Definition escape (b : Z) : bytes :=
  if b =? 8 then [92; 98] else if b =? 9 then [92; 116] else if b =? 10 then [92; 110] else
  if b =? 12 then [92; 102] else if b =? 13 then [92; 114] else if b =? 34 then [92; 34] else
  if b =? 92 then [92; 92] else
  if between 0 31 b then [92; 117; 48; 48; hex_digit (b / 16); hex_digit (b mod 16)] else [b].

Definition print_string (s : bytes) : bytes := 34 :: concat (map escape s) ++ [34].

Lemma encoded_byte_len_escape b : encoded_byte_len b = Z.of_nat (length (escape b)).
Proof.
  unfold encoded_byte_len, escape.
  destruct (b =? 8), (b =? 9), (b =? 10), (b =? 12), (b =? 13), (b =? 34), (b =? 92); simpl; try done.
  by destruct (between 0 31 b).
Qed.

(** The saturating fold is the length of the escaped text, capped. *)
Lemma encoded_json_string_len_exact s : encoded_json_string_len s = Z.min u64_max (Z.of_nat (length (print_string s))).
Proof.
  unfold encoded_json_string_len, print_string. cbn [length]. rewrite length_app. cbn [length].
  assert (forall acc, 0 <= acc -> fold_left (fun l b => saturating_add u64_max l (encoded_byte_len b)) s (Z.min u64_max acc)
            = Z.min u64_max (acc + Z.of_nat (length (concat (map escape s))))) as H.
  { induction s as [|b s IH]; intros acc Hacc; simpl; [f_equal; lia |].
    rewrite length_app, encoded_byte_len_escape.
    replace (saturating_add u64_max (Z.min u64_max acc) (Z.of_nat (length (escape b))))
      with (Z.min u64_max (acc + Z.of_nat (length (escape b)))) by (unfold saturating_add; lia).
    rewrite IH by lia. f_equal. lia. }
  specialize (H 2). replace (Z.min u64_max 2) with 2 in H by (unfold u64_max; lia). rewrite H by lia. f_equal. lia.
Qed.
#[local] Opaque print_string.

Fixpoint join (l : list bytes) : bytes :=
  match l with [] => [] | [x] => x | x :: l' => x ++ 44 :: join l' end.

Section Reference.
Variable float_text : Z -> bytes.

Fixpoint print (v : Value) : bytes :=
  match v with
  | Null => bytes_of "null"
  | Bool b => if b then bytes_of "true" else bytes_of "false"
  | Num n => number_text float_text n
  | Str s => print_string s
  | Arr l => 91 :: join (map print l) ++ [93]
  | Obj l => 123 :: join (map (fun kv => print_string kv.1 ++ 58 :: print kv.2) l) ++ [125]
  end.

(** The value announced by a document, members sorted by name. *)
Definition insert_all (m l : list (bytes * Value)) : list (bytes * Value) :=
  fold_left (fun m kv => bt_insert kv.1 kv.2 m) l m.

Fixpoint value_of (d : Doc) : Value :=
  match d with
  | DNull | DFault _ _ _ => Null
  | DBool b => Bool b
  | DInt z => Num (NInt z)
  | DFloat bits => Num (NFloat bits)
  | DStr s => Str s
  | DSeq l _ => Arr (map value_of l)
  | DMap l _ => Obj (insert_all [] (map (fun kv => (kv.1, value_of kv.2)) l))
  end.

Fixpoint doc_nodes (d : Doc) : Z :=
  match d with
  | DSeq l _ => 1 + sumZ (map doc_nodes l)
  | DMap l _ => 1 + sumZ (map (fun kv => doc_nodes kv.2) l)
  | _ => 1
  end.

Fixpoint doc_depth (d : Doc) : Z :=
  match d with
  | DSeq l _ => 1 + maxZ (map doc_depth l)
  | DMap l _ => 1 + maxZ (map (fun kv => doc_depth kv.2) l)
  | _ => 0
  end.

(** Separators of [n] entries when [k] entries precede them. *)
Definition separators (k n : nat) : Z := if (k =? 0)%nat then Z.of_nat (n - 1) else Z.of_nat n.

Fixpoint doc_bytes (d : Doc) : Z :=
  match d with
  | DNull => 4
  | DBool b => if b then 4 else 5
  | DInt z => Z.of_nat (length (integer_text z))
  | DFloat bits => Z.of_nat (length (float_text bits))
  | DStr s => Z.of_nat (length (print_string s))
  | DSeq l _ => 2 + (separators 0 (length l) + sumZ (map doc_bytes l))
  | DMap l _ => 2 + (separators 0 (length l)
                     + sumZ (map (fun kv => Z.of_nat (length (print_string kv.1)) + 1 + doc_bytes kv.2) l))
  | DFault _ _ _ => 0
  end.

(** The bounds that concern one node at a time. *)
Fixpoint doc_ok (lim : JsonLimits) (d : Doc) : bool :=
  match d with
  | DNull | DBool _ => true
  | DInt z => (i64_min <=? z) && (z <=? u64_max)
  | DFloat bits => is_finite bits
  | DStr s => Z.of_nat (length s) <=? max_string_bytes lim
  | DSeq l fault => bool_decide (fault = None) && (Z.of_nat (length l) <=? max_container_entries lim) && forallb (doc_ok lim) l
  | DMap l fault =>
      bool_decide (fault = None) && (Z.of_nat (length l) <=? max_container_entries lim) && bool_decide (NoDup (map fst l))
      && forallb (fun kv => (Z.of_nat (length kv.1) <=? max_object_key_bytes lim) && doc_ok lim kv.2) l
  | DFault _ _ _ => false
  end.

(** Within all bounds, the byte bound being on the compact text. *)
Definition admissible (lim : JsonLimits) (d : Doc) : Prop :=
  doc_ok lim d = true /\ doc_nodes d <= max_nodes lim /\ doc_depth d <= max_depth lim /\
  Z.of_nat (length (print (value_of d))) <= max_bytes lim.

(** Induction through the two containers. *)
Lemma Doc_nested_ind (P : Doc -> Prop) :
  P DNull -> (forall b, P (DBool b)) -> (forall z, P (DInt z)) -> (forall b, P (DFloat b)) -> (forall s, P (DStr s)) ->
  (forall l f, Forall P l -> P (DSeq l f)) -> (forall l f, Forall (fun kv => P kv.2) l -> P (DMap l f)) ->
  (forall b x y, P (DFault b x y)) -> forall d, P d.
Proof.
  intros H1 H2 H3 H4 H5 H6 H7 H8. fix go 1. intros [| | | | | l f | l f | ]; [exact H1 | apply H2 | apply H3 | apply H4 | apply H5 | | | apply H8].
  - apply H6. induction l as [|d l IH]; constructor; [apply go | apply IH].
  - apply H7. induction l as [|[k d] l IH]; constructor; [apply go | apply IH].
Qed.

Lemma sumZ_nonneg l : Forall (fun z => 0 <= z) l -> 0 <= sumZ l.
Proof. induction 1; simpl; lia. Qed.

Lemma maxZ_nonneg l : 0 <= maxZ l.
Proof. induction l; simpl; lia. Qed.

Lemma doc_nonneg d : 0 <= doc_bytes d /\ 0 <= doc_depth d /\ 0 <= doc_nodes d.
Proof.
  induction d using Doc_nested_ind; simpl; try (destruct b); try lia.
  - pose proof (maxZ_nonneg (map doc_depth l)). unfold separators. simpl.
    assert (0 <= sumZ (map doc_bytes l)) by (apply sumZ_nonneg, Forall_fmap; eapply Forall_impl; [done |]; simpl; tauto).
    assert (0 <= sumZ (map doc_nodes l)) by (apply sumZ_nonneg, Forall_fmap; eapply Forall_impl; [done |]; simpl; tauto). lia.
  - pose proof (maxZ_nonneg (map (fun kv => doc_depth kv.2) l)). unfold separators. simpl.
    assert (0 <= sumZ (map (fun kv => Z.of_nat (length (print_string kv.1)) + 1 + doc_bytes kv.2) l))
      by (apply sumZ_nonneg, Forall_fmap; eapply Forall_impl; [done |]; intros [k d] Hd; simpl in *; lia).
    assert (0 <= sumZ (map (fun kv => doc_nodes kv.2) l))
      by (apply sumZ_nonneg, Forall_fmap; eapply Forall_impl; [done |]; simpl; tauto). lia.
Qed.

(** * The cost of a visit

    [spend] charges bytes, a depth that is reached, and nodes; a function
    [charges] when it accepts exactly if it may spend what it costs. *)

Variable lim : JsonLimits.
Hypothesis Hlim : 0 <= max_bytes lim < u64_max /\ 0 <= max_depth lim < u64_max /\ 0 <= max_nodes lim < u64_max
                  /\ 0 <= max_container_entries lim.

Definition good (t : Tracker) : Prop :=
  t_limits t = lim /\ 0 <= t_compact_bytes t <= max_bytes lim /\ 0 <= t_max_depth t <= max_depth lim
  /\ 0 <= t_nodes t <= max_nodes lim.

Definition spend (t : Tracker) (b q n : Z) : Tracker :=
  mkTracker (t_limits t) (t_compact_bytes t + b) (Z.max (t_max_depth t) q) (t_nodes t + n).

Definition fits (t : Tracker) (b q n : Z) : Prop :=
  t_compact_bytes t + b <= max_bytes lim /\ q <= max_depth lim /\ t_nodes t + n <= max_nodes lim.

Definition pays (f : Tracker -> result BoundedJsonError Tracker) (ok : Prop) (b q n : Z) : Prop :=
  (0 <= b /\ 0 <= q /\ 0 <= n) /\ forall t t', good t -> f t = Ok t' <-> ok /\ fits t b q n /\ t' = spend t b q n.

Definition charges {A} (f : Tracker -> result BoundedJsonError (A * Tracker)) (ok : Prop) (a : A) (b q n : Z) : Prop :=
  (0 <= b /\ 0 <= q /\ 0 <= n) /\
  forall t x t', good t -> f t = Ok (x, t') <-> ok /\ fits t b q n /\ x = a /\ t' = spend t b q n.

Lemma spend_good t b q n : good t -> 0 <= b /\ 0 <= q /\ 0 <= n -> fits t b q n -> good (spend t b q n).
Proof. unfold good, fits, spend. simpl. intros (-> & ?) ? ?. split; [done | lia]. Qed.

Lemma spend_spend t b q n b' q' n' : spend (spend t b q n) b' q' n' = spend t (b + b') (Z.max q q') (n + n').
Proof. unfold spend. simpl. f_equal; lia. Qed.

Lemma fits_spend t b q n b' q' n' :
  0 <= b' /\ 0 <= q' /\ 0 <= n' ->
  fits t b q n /\ fits (spend t b q n) b' q' n' <-> fits t (b + b') (Z.max q q') (n + n').
Proof. unfold fits, spend. simpl. lia. Qed.

Lemma pays_charges {A} f (g : Tracker -> result BoundedJsonError (A * Tracker)) ok ok' a b q n b' q' n' :
  pays f ok b q n -> charges g ok' a b' q' n' ->
  charges (fun t => t ← f t; g t) (ok /\ ok') a (b + b') (Z.max q q') (n + n').
Proof.
  intros [Hn Hf] [Hn' Hg]. split; [lia |]. intros t x t' Ht. rewrite bind_Ok. split.
  - intros (t1 & (Hok & Hfit & ->)%Hf & Hgt); [| done]. apply Hg in Hgt as (Hok' & Hfit' & -> & ->); [| by apply spend_good].
    rewrite spend_spend. split_and!; try done. by apply fits_spend.
  - intros ([Hok Hok'] & Hfit & -> & ->). apply fits_spend in Hfit as [Hfit Hfit']; [| done].
    exists (spend t b q n). split; [by apply Hf |]. rewrite <- spend_spend. by apply Hg; [apply spend_good |].
Qed.

Lemma charges_bind {A B} (f : Tracker -> result BoundedJsonError (A * Tracker)) (g : A -> Tracker -> result BoundedJsonError (B * Tracker))
    ok ok' a a' b q n b' q' n' :
  charges f ok a b q n -> charges (g a) ok' a' b' q' n' ->
  charges (fun t => '(x, t) ← f t; g x t) (ok /\ ok') a' (b + b') (Z.max q q') (n + n').
Proof.
  intros [Hn Hf] [Hn' Hg]. split; [lia |]. intros t x t' Ht. rewrite bind_Ok. split.
  - intros ([y t1] & (Hok & Hfit & -> & ->)%Hf & Hgt); [| done]. apply Hg in Hgt as (Hok' & Hfit' & -> & ->); [| by apply spend_good].
    rewrite spend_spend. split_and!; try done. by apply fits_spend.
  - intros ([Hok Hok'] & Hfit & -> & ->). apply fits_spend in Hfit as [Hfit Hfit']; [| done].
    exists (a, spend t b q n). split; [by apply Hf |]. rewrite <- spend_spend. by apply Hg; [apply spend_good |].
Qed.

Lemma charges_ret {A} (a : A) : charges (fun t => Ok (a, t)) True a 0 0 0.
Proof.
  split; [lia |]. intros t x t' Ht. split.
  - intros [= -> ->]. split_and!; try done; [unfold fits, good in *; lia |].
    unfold spend. destruct t'. destruct Ht as (_ & _ & ? & _). simpl in *. f_equal; lia.
  - intros (_ & _ & -> & ->). unfold spend. destruct t. destruct Ht as (_ & _ & ? & _). simpl in *. repeat f_equal; lia.
Qed.

Lemma charges_iff {A} f (ok ok' : Prop) (a a' : A) b q n b' q' n' :
  charges f ok a b q n -> (ok <-> ok') -> a = a' -> b = b' -> q = q' -> n = n' -> charges f ok' a' b' q' n'.
Proof. intros [Hn H] Hok -> -> -> ->. split; [done |]. intros t x t' Ht. rewrite H by done. by rewrite Hok. Qed.

Lemma charges_never {A} f (ok : Prop) (a : A) b q n :
  0 <= b /\ 0 <= q /\ 0 <= n -> ~ ok -> (forall t r, f t <> Ok r) -> charges f ok a b q n.
Proof. intros Hn Hok Hf. split; [done |]. intros t x t' _. split; [by intros ?%Hf | by intros [? _]]. Qed.

(** ** Primitive charges *)

Lemma add_node_pays : pays add_node True 0 0 1.
Proof.
  split; [lia |]. intros t t' (Hl & Hc & Hd & Hn). unfold add_node, saturating_add, fits, spend. rewrite Hl.
  destruct (Z.ltb_spec (max_nodes lim) (Z.min u64_max (t_nodes t + 1))); split.
  - done.
  - intros (_ & ? & _). lia.
  - intros [= <-]. split_and!; try lia; try done. f_equal; lia.
  - intros (_ & ? & ->). do 2 f_equal; lia.
Qed.

Lemma add_compact_bytes_pays n m : 0 <= n -> m = n \/ m = Z.min u64_max n -> pays (add_compact_bytes m) True n 0 0.
Proof.
  intros Hb Hm. split; [lia |]. intros t t' (Hl & Hc & Hd & Hn). unfold add_compact_bytes, saturating_add, fits, spend. rewrite Hl.
  destruct (Z.ltb_spec (max_bytes lim) (Z.min u64_max (t_compact_bytes t + m))); split.
  - done.
  - intros (_ & ? & _). lia.
  - intros [= <-]. split_and!; try lia; try done. f_equal; lia.
  - intros (_ & ? & ->). do 2 f_equal; lia.
Qed.

Lemma enter_container_charges p : 0 <= p -> charges (enter_container p) True (p + 1) 0 (p + 1) 0.
Proof.
  intros Hp. split; [lia |]. intros t x t' (Hl & Hc & Hd & Hn). unfold enter_container, saturating_add, fits, spend. rewrite Hl.
  destruct (Z.ltb_spec (max_depth lim) (Z.min u64_max (p + 1))); split.
  - done.
  - intros (_ & ? & _). lia.
  - intros [= <- <-]. split_and!; try lia; try done. f_equal; lia.
  - intros (_ & ? & -> & ->). do 3 f_equal; lia.
Qed.

Lemma pays_pays f g ok ok' b q n b' q' n' :
  pays f ok b q n -> pays g ok' b' q' n' -> pays (fun t => t ← f t; g t) (ok /\ ok') (b + b') (Z.max q q') (n + n').
Proof.
  intros [Hn Hf] [Hn' Hg]. split; [lia |]. intros t t' Ht. rewrite bind_Ok. split.
  - intros (t1 & (Hok & Hfit & ->)%Hf & Hgt); [| done]. apply Hg in Hgt as (Hok' & Hfit' & ->); [| by apply spend_good].
    rewrite spend_spend. split_and!; try done. by apply fits_spend.
  - intros ([Hok Hok'] & Hfit & ->). apply fits_spend in Hfit as [Hfit Hfit']; [| done].
    exists (spend t b q n). split; [by apply Hf |]. rewrite <- spend_spend. by apply Hg; [apply spend_good |].
Qed.

Lemma visit_separator_pays sep : pays (visit_separator sep) True (if sep then 1 else 0) 0 0.
Proof.
  destruct sep; simpl; [apply add_compact_bytes_pays; [lia | by left] |].
  destruct (charges_ret tt) as [_ H]. split; [lia |]. intros t t' Ht. specialize (H t tt t' Ht). split.
  - intros [= ->]. destruct H as [H _]. destruct (H eq_refl) as (? & ? & _ & ?). done.
  - intros Hs. assert (Ok (E := BoundedJsonError) (tt, t) = Ok (tt, t')) as E by (apply H; naive_solver). by injection E as ->.
Qed.

(** A check that reads only the limits. *)
Lemma check_pays (bad : bool) (e : Tracker -> BoundedJsonError) f ok b q n :
  pays f ok b q n -> pays (fun t => _ ← (if bad then Err (e t) else Ok tt : result BoundedJsonError unit); f t) (bad = false /\ ok) b q n.
Proof.
  intros [Hn Hf]. split; [done |]. intros t t' Ht. destruct bad; simpl.
  - split; [done |]. by intros [[? _] _].
  - rewrite Hf by done. naive_solver.
Qed.

Lemma pays_ext f g ok b q n : (forall t, good t -> f t = g t) -> pays f ok b q n -> pays g ok b q n.
Proof. intros He [Hn Hf]. split; [done |]. intros t t' Ht. rewrite <- He by done. by apply Hf. Qed.

Lemma visit_key_pays k sep :
  pays (visit_key k sep) (Z.of_nat (length k) <= max_object_key_bytes lim)
    ((if sep then 1 else 0) + (Z.of_nat (length (print_string k)) + 1)) 0 0.
Proof.
  eapply pays_ext with (f := fun t => _ ← (if max_object_key_bytes lim <? Z.of_nat (length k)
        then Err (ObjectKeyTooLong (max_object_key_bytes (t_limits t)) (Z.of_nat (length k))) else Ok tt);
        t ← visit_separator sep t; add_compact_bytes (saturating_add u64_max (encoded_json_string_len k) 1) t).
  { intros t (Hl & _). unfold visit_key, check_object_key. by rewrite Hl. }
  assert (pays (add_compact_bytes (saturating_add u64_max (encoded_json_string_len k) 1)) True (Z.of_nat (length (print_string k)) + 1) 0 0) as Ha.
  { rewrite encoded_json_string_len_exact.
    replace (saturating_add u64_max (Z.min u64_max (Z.of_nat (length (print_string k)))) 1)
      with (Z.min u64_max (Z.of_nat (length (print_string k)) + 1)) by (unfold saturating_add; lia).
    apply add_compact_bytes_pays; [lia | by right]. }
  pose proof (check_pays (max_object_key_bytes lim <? Z.of_nat (length k))
    (fun t => ObjectKeyTooLong (max_object_key_bytes (t_limits t)) (Z.of_nat (length k))) _ _ _ _ _
    (pays_pays _ _ _ _ _ _ _ _ _ _ (visit_separator_pays sep) Ha)) as [Hn H].
  split; [destruct sep; lia |]. intros t t' Ht. rewrite (H t t' Ht). rewrite Z.ltb_ge. naive_solver.
Qed.

Lemma charges_ext {A} (f g : Tracker -> result BoundedJsonError (A * Tracker)) ok a b q n :
  (forall t, good t -> f t = g t) -> charges f ok a b q n -> charges g ok a b q n.
Proof. intros He [Hn Hf]. split; [done |]. intros t x t' Ht. rewrite <- He by done. by apply Hf. Qed.

Lemma visit_str_charges s :
  charges (visit_str s) (Z.of_nat (length s) <= max_string_bytes lim) (Str s) (Z.of_nat (length (print_string s))) 0 0.
Proof.
  destruct (Z.ltb_spec (max_string_bytes lim) (Z.of_nat (length s))) as [Hs|Hs].
  - split; [lia |]. intros t x t' (Hl & _). unfold visit_str, check_string. rewrite Hl.
    rewrite (proj2 (Z.ltb_lt _ _)) by done. simpl. split; [done |]. intros (? & _). lia.
  - eapply charges_ext with (f := fun t => t ← add_compact_bytes (encoded_json_string_len s) t; Ok (Str s, t)).
    { intros t (Hl & _). unfold visit_str, check_string. rewrite Hl. by rewrite (proj2 (Z.ltb_ge _ _)). }
    rewrite encoded_json_string_len_exact.
    eapply charges_iff; [apply pays_charges; [apply add_compact_bytes_pays; [apply Nat2Z.is_nonneg | by right] | apply charges_ret] | | done | lia..]. naive_solver.
Qed.

Lemma scalar_charges (v : Value) n : 0 <= n -> charges (fun t => t ← add_compact_bytes n t; Ok (v, t)) True v n 0 0.
Proof.
  intros Hn. eapply charges_iff; [apply pays_charges; [apply add_compact_bytes_pays; [done | by left] | apply charges_ret] | | done | lia..]. naive_solver.
Qed.

(** ** Documents *)

(** The depth a document reaches below [p] containers. *)
Definition reach (p : Z) (d : Doc) : Z := if doc_depth d =? 0 then 0 else p + doc_depth d.

Lemma container_end_charges {A} fault (a : A) : charges (fun t => container_end fault (a, t)) (fault = None) a 0 0 0.
Proof.
  destruct fault as [[line column]|]; simpl.
  - apply charges_never; [lia | done | done].
  - eapply charges_iff; [apply charges_ret | naive_solver | done..].
Qed.

Lemma reach_max p (l : list Doc) : 0 <= p ->
  Z.max p (maxZ (map (reach p) l)) = p + maxZ (map doc_depth l).
Proof.
  intros Hp. induction l as [|d l IH]; simpl; [lia |]. pose proof (maxZ_nonneg (map doc_depth l)).
  pose proof (proj1 (proj2 (doc_nonneg d))). unfold reach at 1. destruct (Z.eqb_spec (doc_depth d) 0); lia.
Qed.

Definition visits (go : Doc -> Tracker -> result BoundedJsonError (Value * Tracker)) (p : Z) (d : Doc) : Prop :=
  charges (go d) (doc_ok lim d = true) (value_of d) (doc_bytes d) (reach p d) (doc_nodes d).

Lemma separators_cons k n : separators k (S n) = (if (k =? 0)%nat then 0 else 1) + separators (S k) n.
Proof. unfold separators. simpl. destruct (k =? 0)%nat; lia. Qed.

Lemma visit_elements_charges go p fault l (values : list Value) :
  Forall (visits go p) l -> Z.of_nat (length values) <= max_container_entries lim ->
  charges (visit_elements go (max_container_entries lim) fault values l)
    (fault = None /\ Z.of_nat (length values + length l) <= max_container_entries lim /\ forallb (doc_ok lim) l = true)
    (values ++ map value_of l) (separators (length values) (length l) + sumZ (map doc_bytes l))
    (maxZ (map (reach p) l)) (sumZ (map doc_nodes l)).
Proof.
  intros HF. revert values. induction HF as [|d l Hd HF IH]; intros values Hv; simpl.
  - eapply charges_iff; [eapply charges_ext; [| apply container_end_charges] | | | | |]; simpl.
    + intros t _. by destruct (_ <? _).
    + split; [| naive_solver]. intros ->. split_and!; try done. rewrite Nat.add_0_r. exact Hv.
    + by rewrite app_nil_r.
    + unfold separators. by destruct (_ =? 0)%nat.
    + done.
    + done.
  - destruct (Z.ltb_spec (Z.of_nat (length values)) (max_container_entries lim)) as [Hlt|Hge].
    + eapply charges_iff.
      { apply pays_charges; [apply visit_separator_pays |]. apply charges_bind with (a := value_of d); [apply Hd |].
        apply IH. rewrite length_app. simpl. lia. }
      * rewrite length_app, andb_true_iff. simpl. rewrite <- !Nat.add_assoc. simpl. naive_solver.
      * by rewrite <- app_assoc.
      * rewrite length_app, separators_cons. simpl. rewrite Nat.add_comm. simpl. by destruct (length values =? 0)%nat; simpl; lia.
      * unfold visits, charges in Hd. lia.
      * lia.
    + apply charges_never; [| | done].
      * assert (Forall (fun x => 0 <= doc_bytes x /\ 0 <= doc_nodes x) (d :: l)) as Hp.
        { apply Forall_forall. intros x _. pose proof (doc_nonneg x). tauto. }
        pose proof (maxZ_nonneg (map (reach p) (d :: l))) as Hm. simpl in Hm.
        assert (0 <= sumZ (map doc_bytes (d :: l))) as Hb by (apply sumZ_nonneg, Forall_fmap; eapply Forall_impl; [done |]; simpl; tauto).
        assert (0 <= sumZ (map doc_nodes (d :: l))) as Hn by (apply sumZ_nonneg, Forall_fmap; eapply Forall_impl; [done |]; simpl; tauto).
        simpl in Hb, Hn. split_and!; try lia. unfold separators. destruct (_ =? 0)%nat; lia.
      * intros (_ & ? & _). lia.
Qed.

Definition member_bytes (kv : bytes * Doc) : Z := Z.of_nat (length (print_string kv.1)) + 1 + doc_bytes kv.2.
Definition member_ok (kv : bytes * Doc) : bool := (Z.of_nat (length kv.1) <=? max_object_key_bytes lim) && doc_ok lim kv.2.

Lemma early_fault_charges {A} d (f : Tracker -> result BoundedJsonError (A * Tracker)) ok a b q n :
  (ok -> doc_ok lim d = true) -> charges f ok a b q n ->
  charges (fun t => match d with DFault false line column => Err (InvalidJson line column) | _ => f t end) ok a b q n.
Proof. intros Hok Hf. destruct d as [| | | | | | | [] ]; try exact Hf. apply charges_never; [apply Hf | naive_solver | done]. Qed.

Lemma bt_get_fresh (k : bytes) (m : list (bytes * Value)) : ksorted fst m -> bt_get k m = None <-> k ∉ map fst m.
Proof.
  intros Hm. unfold bt_get. rewrite fmap_None, find_key_None. split.
  - intros H (kv & -> & Hkv)%list_elem_of_fmap. by apply (H kv).
  - intros H kv Hkv E. apply H. apply list_elem_of_fmap. by exists kv.
Qed.

Lemma bt_insert_keys (k : bytes) v (m : list (bytes * Value)) x :
  ksorted fst m -> x ∈ map fst (bt_insert k v m) <-> x = k \/ x ∈ map fst m.
Proof.
  intros Hm. rewrite !list_elem_of_fmap. setoid_rewrite bt_insert_elem; [| done..]. split.
  - intros (kv & -> & [-> | [? ?]]); [by left | right; by exists kv].
  - intros [-> | (kv & -> & Hkv)]; [exists (k, v); split; [done | by left] |].
    destruct (decide (kv.1 = k)) as [<-|]; [exists (kv.1, v); split; [done | by left] | exists kv; split; [done | by right]].
Qed.

Lemma members_nonneg p l :
  0 <= sumZ (map member_bytes l) /\ 0 <= maxZ (map (fun kv => reach p kv.2) l) /\ 0 <= sumZ (map (fun kv => doc_nodes kv.2) l).
Proof.
  split_and!; [| apply maxZ_nonneg |]; apply sumZ_nonneg, Forall_fmap, Forall_forall; intros [k d] _; simpl;
    pose proof (doc_nonneg d); unfold member_bytes; simpl; lia.
Qed.

Lemma visit_entries_charges go p fault l (sorted : list (bytes * Value)) :
  Forall (fun kv => visits go p kv.2) l -> ksorted fst sorted -> Z.of_nat (length sorted) <= max_container_entries lim ->
  charges (visit_entries go (max_container_entries lim) fault sorted l)
    (fault = None /\ Z.of_nat (length sorted + length l) <= max_container_entries lim /\
     (NoDup (map fst l) /\ forall k, k ∈ map fst l -> k ∉ map fst sorted) /\ forallb member_ok l = true)
    (insert_all sorted (map (fun kv => (kv.1, value_of kv.2)) l))
    (separators (length sorted) (length l) + sumZ (map member_bytes l))
    (maxZ (map (fun kv => reach p kv.2) l)) (sumZ (map (fun kv => doc_nodes kv.2) l)).
Proof.
  intros HF. revert sorted. induction HF as [|[k d] l Hd HF IH]; intros sorted Hs Hv; simpl.
  - eapply charges_iff; [eapply charges_ext; [| apply container_end_charges] | | | | |]; simpl.
    + intros t _. by destruct (_ <? _).
    + split; [| naive_solver]. intros ->. split_and!; try done; [rewrite Nat.add_0_r; exact Hv | constructor | intros k Hk; by apply elem_of_nil in Hk].
    + done.
    + unfold separators. by destruct (_ =? 0)%nat.
    + done.
    + done.
  - destruct (Z.ltb_spec (Z.of_nat (length sorted)) (max_container_entries lim)) as [Hlt|Hge].
    2:{ apply charges_never; [| intros (_ & ? & _); lia | done]. pose proof (members_nonneg p ((k, d) :: l)) as Hp. simpl in Hp.
        unfold separators. destruct (_ =? 0)%nat; lia. }
    destruct (bt_get k sorted) as [v|] eqn:Eg.
    { apply charges_never.
      - pose proof (members_nonneg p ((k, d) :: l)) as Hp. simpl in Hp. unfold separators. destruct (_ =? 0)%nat; lia.
      - intros (_ & _ & [_ Hk] & _). specialize (Hk k ltac:(by left)). apply bt_get_fresh in Hk; [| done]. by rewrite Hk in Eg.
      - intros t r. destruct (visit_key _ _ t); simpl; done. }
    assert (Hlen : length (bt_insert k (value_of d) sorted) = S (length sorted)) by by apply bt_insert_length_fresh.
    apply bt_get_fresh in Eg; [| done].
    eapply charges_iff.
    { apply pays_charges; [apply visit_key_pays |]. apply early_fault_charges; cycle 1.
      - apply charges_bind with (a := value_of d); [apply Hd |]. apply IH; [by apply bt_insert_sorted |]. rewrite Hlen. lia.
      - by intros [? _]. }
    + rewrite Hlen. unfold member_ok at 2. simpl. rewrite NoDup_cons, !andb_true_iff, Z.leb_le, Nat.add_succ_r.
      setoid_rewrite bt_insert_keys; [| done]. setoid_rewrite elem_of_cons. naive_solver.
    + done.
    + rewrite Hlen, separators_cons. unfold member_bytes at 2. simpl. destruct (length sorted =? 0)%nat; simpl; lia.
    + unfold visits, charges in Hd. cbn [snd] in *. lia.
    + simpl. lia.
Qed.

Lemma charges_add_node {A} (f : Tracker -> result BoundedJsonError (A * Tracker)) ok a b q n :
  charges f ok a b q n -> charges (fun t => t ← add_node t; f t) ok a b q (1 + n).
Proof.
  intros Hf. eapply charges_iff; [apply pays_charges; [apply add_node_pays | exact Hf] | naive_solver | done | lia | | lia].
  unfold charges in Hf. lia.
Qed.

Lemma container_charges {A} p (loop : Z -> Tracker -> result BoundedJsonError (A * Tracker)) (wrap : A -> Value) ok a b q n :
  0 <= p -> charges (loop (p + 1)) ok a b q n ->
  charges (fun t => '(depth, t) ← enter_container p t; t ← add_compact_bytes 2 t; '(x, t) ← loop depth t; Ok (wrap x, t))
    ok (wrap a) (2 + b) (Z.max (p + 1) q) n.
Proof.
  intros Hp Hl. eapply charges_iff.
  { apply charges_bind with (a := p + 1); [by apply enter_container_charges |].
    apply pays_charges; [apply (add_compact_bytes_pays 2); [lia | by left] |].
    apply charges_bind with (a := a); [exact Hl |]. apply (charges_ret (wrap a)). }
  - naive_solver.
  - done.
  - lia.
  - unfold charges in Hl. lia.
  - lia.
Qed.

Lemma loop_limits {A} (f : Tracker -> result BoundedJsonError (A * Tracker)) (g : Z -> Tracker -> result BoundedJsonError (A * Tracker)) ok a b q n :
  (forall t, f t = g (max_container_entries (t_limits t)) t) ->
  charges (g (max_container_entries lim)) ok a b q n -> charges f ok a b q n.
Proof. intros Hf Hg. eapply charges_ext; [| exact Hg]. intros t (Hl & _). by rewrite Hf, Hl. Qed.

Lemma visit_charges d : forall p, 0 <= p -> visits (fun d t => visit float_text d p t) p d.
Proof.
  induction d as [|b|z|bits|s|l f IH|l f IH|early line column] using Doc_nested_ind; intros p Hp; unfold visits; simpl.
  - apply charges_add_node with (n := 0). eapply charges_iff; [apply (scalar_charges Null 4); lia | done..].
  - apply charges_add_node with (n := 0). eapply charges_iff; [apply (scalar_charges (Bool b) (if b then 4 else 5)); destruct b; lia | done..].
  - apply charges_add_node with (n := 0). unfold visit_integer, reach. simpl.
    destruct ((z <? i64_min) || (u64_max <? z)) eqn:Ez.
    + apply charges_never; [lia | rewrite andb_true_iff; bool_lia | done].
    + eapply charges_iff; [apply (scalar_charges (Num (NInt z))); apply Nat2Z.is_nonneg | | done..]. rewrite andb_true_iff.
      split; [intros _; bool_lia | done].
  - apply charges_add_node with (n := 0). change (reach p (DFloat bits)) with 0. unfold visit_f64. destruct (is_finite bits); cbn [negb].
    + eapply charges_iff; [apply (scalar_charges (Num (NFloat bits))); apply Nat2Z.is_nonneg | done..].
    + apply charges_never; [lia | done..].
  - apply charges_add_node with (n := 0). eapply charges_iff; [apply visit_str_charges | by rewrite Z.leb_le | done..].
  - apply charges_add_node. eapply charges_iff.
    { apply container_charges with (wrap := Arr) (a := map value_of l); [done |].
      eapply loop_limits with (g := fun m => visit_elements (fun d t => visit float_text d (p + 1) t) m f [] l); [done |].
      apply (visit_elements_charges _ (p + 1)); [| simpl; lia]. eapply Forall_impl; [exact IH |]. intros d Hd. apply Hd. lia. }
    + simpl. rewrite !andb_true_iff, bool_decide_eq_true, Z.leb_le. tauto.
    + done.
    + done.
    + rewrite reach_max by lia. unfold reach. simpl. pose proof (maxZ_nonneg (map doc_depth l)).
      destruct (Z.eqb_spec (1 + maxZ (map doc_depth l)) 0); lia.
    + done.
  - apply charges_add_node. eapply charges_iff.
    { apply container_charges with (wrap := Obj) (a := insert_all [] (map (fun kv => (kv.1, value_of kv.2)) l)); [done |].
      eapply loop_limits with (g := fun m => visit_entries (fun d t => visit float_text d (p + 1) t) m f [] l); [done |].
      apply (visit_entries_charges _ (p + 1)); [| constructor | simpl; lia]. eapply Forall_impl; [exact IH |]. intros d Hd. apply Hd. lia. }
    + simpl. rewrite !andb_true_iff, !bool_decide_eq_true, Z.leb_le. setoid_rewrite elem_of_nil. unfold member_ok. tauto.
    + done.
    + done.
    + rewrite <- (map_map snd (reach (p + 1))), reach_max by lia. unfold reach. simpl. rewrite map_map.
      pose proof (maxZ_nonneg (map (fun kv => doc_depth kv.2) l)).
      destruct (Z.eqb_spec (1 + maxZ (map (fun kv => doc_depth kv.2) l)) 0); lia.
    + done.
  - apply charges_never; [unfold reach; simpl; lia | done |]. intros t r. by destruct (add_node t).
Qed.

(** ** The charged bytes are those of the compact text *)

#[local] Instance sumZ_perm : Proper ((≡ₚ) ==> eq) sumZ.
Proof. induction 1; simpl; lia. Qed.
#[local] Instance maxZ_perm : Proper ((≡ₚ) ==> eq) maxZ.
Proof. induction 1; simpl; lia. Qed.

Lemma join_length l : Z.of_nat (length (join l)) = separators 0 (length l) + sumZ (map (fun x => Z.of_nat (length x)) l).
Proof.
  unfold separators. simpl. induction l as [|x [|y l] IH]; [done | simpl; lia |].
  change (join (x :: y :: l)) with (x ++ 44 :: join (y :: l)). rewrite length_app. cbn [length]. simpl in *. lia.
Qed.

Lemma bt_insert_perm (k : bytes) (v : Value) m : k ∉ map fst m -> bt_insert k v m ≡ₚ (k, v) :: m.
Proof.
  induction m as [|[k' v'] m IH]; simpl; [done |]. rewrite not_elem_of_cons. intros [Hne Hm].
  destruct (cmp k k') eqn:E; [by apply cmp_eq_iff in E | done |]. rewrite IH by done. constructor.
Qed.

Lemma insert_all_perm m l :
  ksorted fst m -> NoDup (map fst l) -> (forall k, k ∈ map fst l -> k ∉ map fst m) ->
  insert_all m l ≡ₚ m ++ l /\ ksorted fst (insert_all m l).
Proof.
  revert m. induction l as [|[k v] l IH]; intros m Hm Hn Hd; simpl in *; [by rewrite app_nil_r |].
  apply NoDup_cons in Hn as [Hk Hn]. destruct (IH (bt_insert k v m)) as [Hp Hs]; [by apply bt_insert_sorted | done | |].
  - intros x Hx. rewrite bt_insert_keys by done. intros [-> | Hin]; [done |]. apply (Hd x); [by right | done].
  - split; [| done]. rewrite Hp, bt_insert_perm by (apply Hd; by left). by rewrite <- Permutation_middle.
Qed.

Lemma insert_all_nil l : NoDup (map fst l) -> insert_all [] l ≡ₚ l /\ ksorted fst (insert_all [] l).
Proof. intros Hn. apply (insert_all_perm [] l); [constructor | done | intros k _ H; by apply elem_of_nil in H]. Qed.

Lemma map_values_fst (f : Doc -> Value) l : map fst (map (fun kv => (kv.1, f kv.2)) l) = map (fst : bytes * Doc -> bytes) l.
Proof. by rewrite map_map. Qed.

Lemma doc_map_ok l f : doc_ok lim (DMap l f) = true ->
  f = None /\ Z.of_nat (length l) <= max_container_entries lim /\ NoDup (map fst l) /\
  Forall (fun kv => Z.of_nat (length kv.1) <= max_object_key_bytes lim /\ doc_ok lim kv.2 = true) l.
Proof.
  simpl. rewrite !andb_true_iff, !bool_decide_eq_true, Z.leb_le, forallb_forall. intros [[[-> Hl] Hn] HF].
  split_and!; try done. apply Forall_forall. intros kv Hkv. specialize (HF kv ltac:(by apply list_elem_of_In)).
  by rewrite andb_true_iff, Z.leb_le in HF.
Qed.

Lemma doc_seq_ok l f : doc_ok lim (DSeq l f) = true ->
  f = None /\ Z.of_nat (length l) <= max_container_entries lim /\ Forall (fun d => doc_ok lim d = true) l.
Proof.
  simpl. rewrite !andb_true_iff, !bool_decide_eq_true, Z.leb_le, forallb_forall. intros [[-> Hl] HF].
  split_and!; try done. apply Forall_forall. intros d Hd. by apply HF, list_elem_of_In.
Qed.

Lemma map_Forall_ext {A B} (f g : A -> B) l : Forall (fun x => f x = g x) l -> map f l = map g l.
Proof. induction 1 as [|x l Hx _ IH]; simpl; [done |]. by rewrite Hx, IH. Qed.

Lemma doc_bytes_print d : doc_ok lim d = true -> doc_bytes d = Z.of_nat (length (print (value_of d))).
Proof.
  induction d as [|b|z|bits|s|l f IH|l f IH|early line column] using Doc_nested_ind; intros Hok; try done.
  - by destruct b.
  - apply doc_seq_ok in Hok as (_ & _ & HF). cbn [value_of print length]. rewrite length_app. cbn [length].
    rewrite Nat2Z.inj_succ, Nat2Z.inj_add, join_length, length_map, length_map. simpl doc_bytes. rewrite !map_map.
    rewrite (map_Forall_ext doc_bytes (fun d => Z.of_nat (length (print (value_of d))))); [lia |].
    apply Forall_forall. intros d Hd. rewrite Forall_forall in IH, HF. by apply IH, HF.
  - apply doc_map_ok in Hok as (_ & _ & Hn & HF). cbn [value_of print length]. rewrite length_app. cbn [length].
    rewrite Nat2Z.inj_succ, Nat2Z.inj_add, join_length, length_map. simpl doc_bytes. rewrite map_map.
    destruct (insert_all_nil (map (fun kv => (kv.1, value_of kv.2)) l)) as [Hp _]; [by rewrite map_values_fst |].
    rewrite (Permutation_length Hp), length_map.
    assert (sumZ (map (fun kv => Z.of_nat (length (print_string kv.1 ++ 58 :: print kv.2))) (insert_all [] (map (fun kv => (kv.1, value_of kv.2)) l)))
      = sumZ (map (fun kv => Z.of_nat (length (print_string kv.1)) + 1 + doc_bytes kv.2) l)) as ->; [| lia].
    rewrite Hp, map_map. f_equal. symmetry. apply map_Forall_ext, Forall_forall. intros [k d] Hd. simpl.
    rewrite Forall_forall in IH, HF. specialize (IH _ Hd (proj2 (HF _ Hd))). simpl in IH. rewrite length_app, IH. simpl. lia.
Qed.

(** ** Accepted values announce themselves again *)

Definition rebuilds (d : Doc) : Prop :=
  let d' := doc_of (value_of d) in
  doc_ok lim d' = true /\ value_of d' = value_of d /\ doc_nodes d' = doc_nodes d /\ doc_depth d' = doc_depth d.

Lemma rebuild_seq l f : Forall rebuilds l -> doc_ok lim (DSeq l f) = true -> rebuilds (DSeq l f).
Proof.
  intros IH (-> & Hl & HF)%doc_seq_ok. unfold rebuilds in *. simpl. rewrite !map_map, !length_map. split_and!.
  - rewrite andb_true_iff, Z.leb_le, forallb_forall. split; [done |].
    intros d (d0 & <- & Hd%list_elem_of_In)%in_map_iff. rewrite Forall_forall in IH. by apply IH.
  - f_equal. apply map_Forall_ext. eapply Forall_impl; [exact IH |]. simpl. tauto.
  - do 2 f_equal. apply map_Forall_ext. eapply Forall_impl; [exact IH |]. simpl. tauto.
  - do 2 f_equal. apply map_Forall_ext. eapply Forall_impl; [exact IH |]. simpl. tauto.
Qed.

Lemma insert_all_sorted m : ksorted fst m -> insert_all [] m = m.
Proof.
  intros Hm. pose proof (ksorted_keys_NoDup fst m Hm) as Hn. destruct (insert_all_nil m Hn) as [Hp Hs].
  apply (ksorted_ext fst); [done.. |]. intros x. by rewrite Hp.
Qed.

Lemma rebuild_map l f : Forall (fun kv => rebuilds kv.2) l -> doc_ok lim (DMap l f) = true -> rebuilds (DMap l f).
Proof.
  intros IH (-> & Hl & Hn & HF)%doc_map_ok. unfold rebuilds in *. cbn [value_of doc_of].
  set (m := map (fun kv => (kv.1, value_of kv.2)) l).
  destruct (insert_all_nil m) as [Hp Hs]; [by unfold m; rewrite map_values_fst |].
  assert (Hval : map (fun kv : bytes * Value => (kv.1, value_of (doc_of kv.2))) (insert_all [] m) = insert_all [] m).
  { rewrite <- (map_id (insert_all [] m)) at 2. apply map_Forall_ext, Forall_forall. intros kv Hkv. rewrite Hp in Hkv.
    apply list_elem_of_fmap in Hkv as ([k d] & -> & Hd). simpl. rewrite Forall_forall in IH. specialize (IH _ Hd). simpl in IH.
    by rewrite (proj1 (proj2 IH)). }
  cbn [doc_ok doc_nodes doc_depth value_of]. rewrite !map_map, length_map. cbn [fst snd]. split_and!.
  - rewrite !andb_true_iff, !bool_decide_eq_true, Z.leb_le, forallb_forall. split_and!; [done | | |].
    + by rewrite (Permutation_length Hp); unfold m; rewrite length_map.
    + by apply (ksorted_keys_NoDup fst).
    + intros kv (kv0 & <- & Hkv%list_elem_of_In)%in_map_iff. simpl. rewrite Hp in Hkv.
      apply list_elem_of_fmap in Hkv as ([k d] & -> & Hd). simpl. rewrite andb_true_iff, Z.leb_le.
      rewrite Forall_forall in IH, HF. split; [apply (HF _ Hd) | apply (IH _ Hd)].
  - f_equal. rewrite Hval. by apply insert_all_sorted.
  - rewrite Hp. unfold m. rewrite map_map. do 2 f_equal. apply map_Forall_ext. eapply Forall_impl; [exact IH |]. simpl. tauto.
  - rewrite Hp. unfold m. rewrite map_map. do 2 f_equal. apply map_Forall_ext. eapply Forall_impl; [exact IH |]. simpl. tauto.
Qed.

Lemma rebuild d : doc_ok lim d = true -> rebuilds d.
Proof.
  induction d as [|b|z|bits|s|l f IH|l f IH|early line column] using Doc_nested_ind; intros Hok; try done.
  - apply rebuild_seq; [| done]. apply doc_seq_ok in Hok as (_ & _ & HF). apply Forall_forall. intros d Hd.
    rewrite Forall_forall in IH, HF. by apply IH, HF.
  - apply rebuild_map; [| done]. apply doc_map_ok in Hok as (_ & _ & _ & HF). apply Forall_forall. intros kv Hd.
    rewrite Forall_forall in IH, HF. by apply IH, HF.
Qed.

Definition measured (d : Doc) : JsonStats :=
  mkJsonStats (Z.of_nat (length (print (value_of d)))) (doc_depth d) (doc_nodes d).

Lemma deserialize_iff d j :
  deserialize_with_limits float_text d lim = Ok j <-> admissible lim d /\ j = mkBoundedJson (value_of d) (measured d).
Proof.
  assert (Hg : good (tracker_new lim)) by (unfold good, tracker_new; simpl; split; [done | lia]).
  destruct (visit_charges d 0 ltac:(lia)) as [_ Hv]. specialize (Hv (tracker_new lim)).
  pose proof (doc_nonneg d) as (_ & Hd0 & _).
  assert (Hr : reach 0 d = doc_depth d) by (unfold reach; destruct (Z.eqb_spec (doc_depth d) 0); lia).
  rewrite Hr in Hv. unfold deserialize_with_limits, admissible, measured. rewrite bind_Ok. split.
  - intros ([v t] & (Hok & Hfit & -> & ->)%Hv & Hj); [| done]. rewrite <- doc_bytes_print by done.
    injection Hj as <-. unfold fits, tracker_stats in *. simpl in *.
    split; [split_and!; lia || done |]. do 2 f_equal; lia.
  - intros ((Hok & Hn & Hdep & Hb) & ->). rewrite <- doc_bytes_print in * by done.
    exists (value_of d, spend (tracker_new lim) (doc_bytes d) (doc_depth d) (doc_nodes d)).
    split; [apply Hv; [done |]; unfold fits; simpl; split_and!; lia || done |]. unfold tracker_stats. simpl. do 3 f_equal; lia.
Qed.

Lemma reparse d : admissible lim d -> admissible lim (doc_of (value_of d)) /\ value_of (doc_of (value_of d)) = value_of d
  /\ measured (doc_of (value_of d)) = measured d.
Proof.
  intros (Hok & Hn & Hd & Hb). destruct (rebuild d Hok) as (Hok' & Hv & Hn' & Hd'). unfold admissible, measured.
  by rewrite Hv, Hn', Hd'.
Qed.
End Reference.

(** Limits that the constructor accepts. *)
Definition limits_wf (lim : JsonLimits) : Prop :=
  json_limits_try_new (max_bytes lim) (max_depth lim) (max_container_entries lim) (max_nodes lim) (max_string_bytes lim)
    (max_object_key_bytes lim) = Ok lim.

Lemma limits_wf_range lim (Hpos : Forall (fun z => 0 <= z) [max_bytes lim; max_depth lim; max_container_entries lim; max_nodes lim]) :
  limits_wf lim -> 0 <= max_bytes lim < u64_max /\ 0 <= max_depth lim < u64_max /\ 0 <= max_nodes lim < u64_max
                   /\ 0 <= max_container_entries lim.
Proof.
  unfold limits_wf, json_limits_try_new. intros H.
  assert (Hc : forall l a m r, validate_configured_limit l a m = Ok r -> a <= m).
  { intros l a m r. unfold validate_configured_limit. destruct (a =? 0); [done |]. destruct (Z.ltb_spec m a); done. }
  repeat (apply bind_Ok in H as (? & ?%Hc & H)). repeat rewrite Forall_cons in Hpos. unfold u64_max. simpl in *.
  unfold MEBIBYTE, KIBIBYTE in *. lia.
Qed.

Lemma bounded_again (float_text : Z -> bytes) (lim : JsonLimits) (d : Doc) (j : BoundedJson) :
  Forall (fun z => 0 <= z) [max_bytes lim; max_depth lim; max_container_entries lim; max_nodes lim] -> limits_wf lim ->
  deserialize_with_limits float_text d lim = Ok j -> try_from_value_with_limits float_text (bounded_value j) lim = Ok j.
Proof.
  intros Hpos Hlim. pose proof (limits_wf_range lim Hpos Hlim) as Hr.
  intros (Had & ->)%deserialize_iff; [| done]. apply deserialize_iff; [done |]. simpl.
  destruct (reparse float_text lim Hr d Had) as (Had' & -> & ->). done.
Qed.

(** C34: Bounded JSON is exact.  Under any limits the constructor accepts, the
    visitor accepts a document exactly when its integers fit, its floats are
    finite, member names are distinct, the deserializer does not fail, every
    string, name and container is within its bound, and the number of nodes,
    the nesting depth and the length of the compact text are within theirs;
    the result is the announced value with members sorted, and the reported
    statistics are its node count, depth and the length of its compact text.
    The accepted value is accepted again under the same limits, unchanged and
    with the same statistics. *)
Theorem bounded_json_exact (float_text : Z -> bytes) (lim : JsonLimits) (d : Doc)
    (Hpos : Forall (fun z => 0 <= z) [max_bytes lim; max_depth lim; max_container_entries lim; max_nodes lim])
    (Hlim : limits_wf lim) :
  (forall j, deserialize_with_limits float_text d lim = Ok j <->
     admissible float_text lim d /\ j = mkBoundedJson (value_of d) (measured float_text d)) /\
  (forall j, deserialize_with_limits float_text d lim = Ok j ->
     try_from_value_with_limits float_text (bounded_value j) lim = Ok j).
Proof.
  pose proof (limits_wf_range lim Hpos Hlim) as Hr. split; [intros j; by apply deserialize_iff |].
  intros j. by apply bounded_again.
Qed.

Lemma bounded_json_exact_witness :
  let d := DMap [(bytes_of "b", DSeq [DInt (-12); DStr [34; 10]] None); (bytes_of "a", DNull)] None in
  let v := Obj [(bytes_of "a", Null); (bytes_of "b", Arr [Num (NInt (-12)); Str [34; 10]])] in
  deserialize_with_limits (fun _ => []) d LIMITS_DEFAULT = Ok (mkBoundedJson v (mkJsonStats 27 2 5)) /\
  try_from_value_with_limits (fun _ => []) v LIMITS_DEFAULT = Ok (mkBoundedJson v (mkJsonStats 27 2 5)).
Proof.
  intros d v. destruct (bounded_json_exact (fun _ => []) LIMITS_DEFAULT d) as [_ H].
  - repeat constructor; vm_compute; discriminate.
  - vm_compute. reflexivity.
  - assert (E : deserialize_with_limits (fun _ => []) d LIMITS_DEFAULT = Ok (mkBoundedJson v (mkJsonStats 27 2 5)))
      by (vm_compute; reflexivity). split; [exact E | exact (H _ E)].
Defined.
End Bounded.
