(* ===== verification/Content.v ===== *)
(** Text and content values: the Unicode text validators and content metadata
    (crates/stateknot-core/src/content.rs), the media types, names and
    retention classes of artifacts (artifact.rs), principal identities
    (identity.rs) and schema references (schema.rs).

    A [String] whose characters are inspected is the list of its Unicode scalar
    values, its length the sum of their UTF-8 widths; a string inspected byte by
    byte is the list of its bytes.  The URI, MIME and language-tag parsers are
    packages outside the repository: parameters. *)

From Stdlib Require Import ZArith Lia List.
From stdpp Require Import prelude.
From S2P Require Import Prelude Ordered Json Digests Ids Decimal BoundedJson.

Open Scope Z_scope.

(** * Characters of a [str] *)

Module Text.

Definition text := list Z.

(** [char::len_utf8] and [str::len]. *)
Definition utf8_width (scalar : Z) : Z :=
  if scalar <? 128 then 1 else if scalar <? 2048 then 2 else if scalar <? 65536 then 3 else 4.

Fixpoint len (s : text) : Z :=
  match s with [] => 0 | scalar :: s' => utf8_width scalar + len s' end.

(** [char::is_control] (category Cc) and [char::is_whitespace] (White_Space). *)
Definition is_control (scalar : Z) : bool := between 0 31 scalar || between 127 159 scalar.
Definition is_whitespace (scalar : Z) : bool :=
  between 9 13 scalar || (scalar =? 32) || (scalar =? 133) || (scalar =? 160) || (scalar =? 5760) ||
  between 8192 8202 scalar || (scalar =? 8232) || (scalar =? 8233) || (scalar =? 8239) || (scalar =? 8287) ||
  (scalar =? 12288).

Definition is_unicode_noncharacter (value : Z) : bool :=
  between 64976 65007 value || (Z.land value 65534 =? 65534).

Definition is_bidi_formatting_control (value : Z) : bool :=
  (value =? 1564) || (value =? 8206) || (value =? 8207) || between 8234 8238 value || between 8294 8297 value.

(** [matches!(scalar, '\t' | '\n' | '\r')]. *)
Definition is_layout (scalar : Z) : bool := (scalar =? 9) || (scalar =? 10) || (scalar =? 13).

(** [char_indices().find(p)], the byte offset found. *)
Fixpoint char_find (p : Z -> bool) (s : text) : option Z :=
  match s with
  | [] => None
  | scalar :: s' => if p scalar then Some 0 else (fun i => utf8_width scalar + i) <$> char_find p s'
  end.

Definition starts_with_whitespace (s : text) : bool :=
  match s with scalar :: _ => is_whitespace scalar | [] => false end.
Definition ends_with_whitespace (s : text) : bool :=
  match last s with Some scalar => is_whitespace scalar | None => false end.

(** [str::split_once] and [str::split] at one ASCII byte. *)
Fixpoint split_once_at (separator : Z) (value : bytes) : option (bytes * bytes) :=
  match value with
  | [] => None
  | b :: value' =>
      if b =? separator then Some ([], value')
      else '(l, r) ← split_once_at separator value'; Some (b :: l, r)
  end.

Fixpoint split_at (separator : Z) (value : bytes) : list bytes :=
  match value with
  | [] => [[]]
  | b :: value' =>
      if b =? separator then [] :: split_at separator value'
      else match split_at separator value' with
           | segment :: rest => (b :: segment) :: rest
           | [] => [[b]]
           end
  end.

(** ** Laws *)

Lemma utf8_width_pos scalar : 1 <= utf8_width scalar <= 4.
Proof. unfold utf8_width. repeat case_match; lia. Qed.

Lemma len_nonneg s : 0 <= len s.
Proof. induction s as [|c s IH]; simpl; [done |]. pose proof (utf8_width_pos c). lia. Qed.

Lemma len_app s t : len (s ++ t) = len s + len t.
Proof. induction s as [|c s IH]; simpl; [done |]. lia. Qed.

Lemma len_zero s : (length s =? 0)%nat = false <-> 0 < len s.
Proof.
  destruct s as [|c s]; simpl; [done |]. split; [| done]. intros _. pose proof (utf8_width_pos c). pose proof (len_nonneg s). lia.
Qed.

Lemma char_find_None p s : char_find p s = None <-> Forall (fun c => p c = false) s.
Proof.
  induction s as [|c s IH]; simpl; [split; constructor |]. rewrite Forall_cons. destruct (p c); simpl.
  - split; [done | by intros [? _]].
  - destruct (char_find p s); simpl; [| tauto]. split; [done |]. intros [_ H]. by apply IH in H.
Qed.

Lemma char_find_Some p s i :
  char_find p s = Some i <-> exists l c r, s = l ++ c :: r /\ p c = true /\ Forall (fun c => p c = false) l /\ i = len l.
Proof.
  revert i. induction s as [|c s IH]; intros i; simpl.
  { split; [done |]. intros (l & c & r & H & _). by destruct l. }
  destruct (p c) eqn:Ep.
  - split.
    + intros [= <-]. exists [], c, s. done.
    + intros (l & c' & r & H & Hp & Hl & ->). destruct l as [|x l]; [done |]. injection H as -> _.
      inversion Hl; congruence.
  - destruct (char_find p s) as [j|] eqn:Ef; simpl.
    + split.
      * intros [= <-]. destruct (proj1 (IH j) eq_refl) as (l & c' & r & -> & Hp & Hl & ->).
        exists (c :: l), c', r. split_and!; auto.
      * intros (l & c' & r & H & Hp & Hl & ->). destruct l as [|x l]; [injection H as -> ->; congruence |].
        injection H as -> ->. inversion Hl; subst. simpl. f_equal. f_equal.
        assert (Some j = Some (len l)) as [= ->]; [| done]. apply IH. eauto 10.
    + split; [done |]. intros (l & c' & r & H & Hp & Hl & ->). destruct l as [|x l]; [injection H as -> ->; congruence |].
      injection H as -> ->. inversion Hl; subst. assert (None = Some (len l)); [| done]. apply IH. eauto 10.
Qed.

Lemma split_once_at_None separator value : split_once_at separator value = None <-> separator ∉ value.
Proof.
  induction value as [|b value IH]; simpl; [by split; [intros _ ?%not_elem_of_nil |] |]. rewrite not_elem_of_cons.
  destruct (Z.eqb_spec b separator) as [->|]; [split; [done | by intros [? _]] |].
  destruct (split_once_at separator value) as [[l r]|]; simpl.
  - split; [done |]. intros [_ H]. by apply IH in H.
  - split; [| done]. intros _. split; [done | by apply IH].
Qed.

Lemma split_once_at_app separator l r : separator ∉ l -> split_once_at separator (l ++ separator :: r) = Some (l, r).
Proof.
  induction l as [|b l IH]; intros Hl; simpl; [by rewrite Z.eqb_refl |]. apply not_elem_of_cons in Hl as [Hb Hl].
  destruct (Z.eqb_spec b separator); [by subst |]. by rewrite (IH Hl).
Qed.

Lemma split_once_at_Some separator value l r :
  split_once_at separator value = Some (l, r) -> value = l ++ separator :: r /\ separator ∉ l.
Proof.
  revert l. induction value as [|b value IH]; intros l; simpl; [done |]. destruct (Z.eqb_spec b separator) as [->|Hb].
  - intros [= <- <-]. split; [done | apply not_elem_of_nil].
  - destruct (split_once_at separator value) as [[l' r']|]; simpl; [| done]. intros [= <- <-].
    destruct (IH _ eq_refl) as [-> Hl]. split; [done |]. apply not_elem_of_cons. done.
Qed.

Lemma split_at_nonempty separator value : split_at separator value <> [].
Proof. destruct value as [|b value]; simpl; [done |]. destruct (b =? separator); [done |]. by destruct (split_at _ _). Qed.

(** Segments never contain the separator and joining them gives the text back. *)
Fixpoint join_with (separator : Z) (segments : list bytes) : bytes :=
  match segments with
  | [] => []
  | [segment] => segment
  | segment :: rest => segment ++ separator :: join_with separator rest
  end.

Lemma join_split_at separator value : join_with separator (split_at separator value) = value.
Proof.
  induction value as [|b value IH]; [done |]. simpl. pose proof (split_at_nonempty separator value) as Hn.
  destruct (Z.eqb_spec b separator) as [->|].
  - destruct (split_at separator value) as [|s l] eqn:E; [done |]. cbn [join_with] in *. by rewrite IH.
  - destruct (split_at separator value) as [|s l] eqn:E; [done |]. destruct l; simpl in *; by f_equal.
Qed.

Lemma split_at_clean separator value : Forall (fun segment => separator ∉ segment) (split_at separator value).
Proof.
  induction value as [|b value IH]; simpl; [repeat constructor; apply not_elem_of_nil |].
  destruct (Z.eqb_spec b separator) as [->|]; [constructor; [apply not_elem_of_nil | done] |].
  destruct (split_at separator value) as [|s l]; [repeat constructor; by intros ->%list_elem_of_singleton |].
  inversion IH; subst. constructor; [| done]. apply not_elem_of_cons. done.
Qed.

Lemma split_at_join separator segments :
  segments <> [] -> Forall (fun segment => separator ∉ segment) segments ->
  split_at separator (join_with separator segments) = segments.
Proof.
  intros Hn HF. induction HF as [|s l Hs HF IH]; [done |].
  assert (Hone : forall s : bytes, separator ∉ s -> split_at separator s = [s]).
  { clear. induction s as [|b s IH]; intros Hs; [done |]. apply not_elem_of_cons in Hs as [Hb Hs]. simpl.
    destruct (Z.eqb_spec b separator); [by subst |]. by rewrite (IH Hs). }
  destruct l as [|t l]; [by apply Hone |].
  change (join_with separator (s :: t :: l)) with (s ++ separator :: join_with separator (t :: l)). specialize (IH ltac:(done)).
  induction s as [|b s IHs]; cbn [app split_at]; [by rewrite Z.eqb_refl, IH |]. apply not_elem_of_cons in Hs as [Hb Hs].
  destruct (Z.eqb_spec b separator); [by subst |]. by rewrite (IHs ltac:(done) Hs).
Qed.

End Text.

(** * Content values *)

Module Content.
Import Text.
Import Version(Version).

(** [SecurityLabel] and [RetentionClass] use one grammar with two length bounds. *)
Inductive LabelError := LabelEmpty | LabelTooLong (max actual : Z) | LabelInvalidStart | LabelInvalidByte (index : Z).

Definition LABEL_MAX_LEN : Z := 128.
Definition RETENTION_MAX_LEN : Z := 64.

Definition label_byte (b : Z) : bool :=
  is_ascii_alphanumeric b || (b =? 46) || (b =? 95) || (b =? 58) || (b =? 47) || (b =? 45).

(** [as_bytes()[0]] and [.enumerate().skip(1).find(..)]. *)
Definition validate_label (maximum : Z) (value : bytes) : result LabelError unit :=
  match value with
  | [] => Err LabelEmpty
  | first :: rest =>
      if maximum <? Z.of_nat (length value) then Err (LabelTooLong maximum (Z.of_nat (length value))) else
      if negb (is_ascii_alphanumeric first) then Err LabelInvalidStart else
      match position (fun b => negb (label_byte b)) rest with
      | Some index => Err (LabelInvalidByte (1 + Z.of_nat index))
      | None => Ok tt
      end
  end.

Definition validate_security_label (value : bytes) : result LabelError unit := validate_label LABEL_MAX_LEN value.
Definition validate_retention_class (value : bytes) : result LabelError unit := validate_label RETENTION_MAX_LEN value.

Definition SecurityLabel := bytes.
Definition security_label_new (value : bytes) : result LabelError SecurityLabel := _ ← validate_security_label value; Ok value.
Definition RetentionClass := bytes.
Definition retention_class_new (value : bytes) : result LabelError RetentionClass := _ ← validate_retention_class value; Ok value.

Inductive ContentSource := SApplication | SUser | SModel | STool | SRemoteAgent | SArtifact.
Inductive ContentTrust := ApplicationControlled | Untrusted.
Inductive RedactionState := NotApplied | Partial | Full.

Record ContentMetadata := mkContentMetadata {
  source : ContentSource;
  trust : ContentTrust;
  security_label : SecurityLabel;
  redaction : RedactionState
}.

#[global] Instance ContentSource_eq_dec : EqDecision ContentSource.
Proof. solve_decision. Defined.
#[global] Instance ContentTrust_eq_dec : EqDecision ContentTrust.
Proof. solve_decision. Defined.
#[global] Instance RedactionState_eq_dec : EqDecision RedactionState.
Proof. solve_decision. Defined.
#[global] Instance ContentMetadata_eq_dec : EqDecision ContentMetadata.
Proof. solve_decision. Defined.

Definition untrusted (src : ContentSource) (label : SecurityLabel) : ContentMetadata :=
  mkContentMetadata src Untrusted label NotApplied.

(** ** Text *)

Inductive TextContentError := TextEmpty | TextTooLong (max actual : Z) | TextDisallowedCodePoint (byte_index : Z).

Definition TEXT_MAX_BYTES : Z := 256 * KIBIBYTE.
Definition ARTIFACT_DESCRIPTION_MAX_BYTES : Z := 4096.

Definition disallowed_in_text (scalar : Z) : bool :=
  (is_control scalar && negb (is_layout scalar)) || is_unicode_noncharacter scalar.

Definition validate_bounded_text (maximum : Z) (value : text) : result TextContentError unit :=
  if (length value =? 0)%nat then Err TextEmpty else
  if maximum <? len value then Err (TextTooLong maximum (len value)) else
  match char_find disallowed_in_text value with
  | Some byte_index => Err (TextDisallowedCodePoint byte_index)
  | None => Ok tt
  end.

Definition validate_text (value : text) : result TextContentError unit := validate_bounded_text TEXT_MAX_BYTES value.
(** [ArtifactDescriptionError] has the same variants. *)
Definition validate_artifact_description (value : text) : result TextContentError unit :=
  validate_bounded_text ARTIFACT_DESCRIPTION_MAX_BYTES value.

Inductive ArtifactNameError :=
| NameEmpty
| NameTooLong (max actual : Z)
| NamePathLike
| NameBoundaryWhitespace
| NamePathSeparator (byte_index : Z)
| NameDisallowedCodePoint (byte_index : Z).

Definition ARTIFACT_NAME_MAX_BYTES : Z := 255.

Definition is_path_separator (scalar : Z) : bool := (scalar =? 47) || (scalar =? 92).
Definition disallowed_in_name (scalar : Z) : bool := is_control scalar || is_unicode_noncharacter scalar.

Definition validate_artifact_name (value : text) : result ArtifactNameError unit :=
  if (length value =? 0)%nat then Err NameEmpty else
  if ARTIFACT_NAME_MAX_BYTES <? len value then Err (NameTooLong ARTIFACT_NAME_MAX_BYTES (len value)) else
  if bool_decide (value = [46]) || bool_decide (value = [46; 46]) then Err NamePathLike else
  if starts_with_whitespace value || ends_with_whitespace value then Err NameBoundaryWhitespace else
  match char_find is_path_separator value with
  | Some byte_index => Err (NamePathSeparator byte_index)
  | None =>
      match char_find disallowed_in_name value with
      | Some byte_index => Err (NameDisallowedCodePoint byte_index)
      | None => Ok tt
      end
  end.

(** Titles and descriptions of capabilities (capability.rs); their two error
    enumerations have the same variants. *)
Inductive CapabilityTextError :=
| CapTextEmpty
| CapTextTooLong (max actual : Z)
| CapTextBoundaryWhitespace
| CapTextDisallowedCodePoint (byte_index : Z).

Definition TITLE_MAX_BYTES : Z := 256.
Definition DESCRIPTION_MAX_BYTES : Z := 16 * KIBIBYTE.

Definition disallowed_in_title (scalar : Z) : bool :=
  is_control scalar || is_bidi_formatting_control scalar || (scalar =? 8232) || (scalar =? 8233) ||
  is_unicode_noncharacter scalar.
Definition disallowed_in_description (scalar : Z) : bool :=
  (is_control scalar && negb (is_layout scalar)) || is_bidi_formatting_control scalar || is_unicode_noncharacter scalar.

Definition validate_capability_text (maximum : Z) (disallowed : Z -> bool) (value : text) : result CapabilityTextError unit :=
  if (length value =? 0)%nat then Err CapTextEmpty else
  if maximum <? len value then Err (CapTextTooLong maximum (len value)) else
  if starts_with_whitespace value || ends_with_whitespace value then Err CapTextBoundaryWhitespace else
  match char_find disallowed value with
  | Some byte_index => Err (CapTextDisallowedCodePoint byte_index)
  | None => Ok tt
  end.

Definition validate_capability_title (value : text) : result CapabilityTextError unit :=
  validate_capability_text TITLE_MAX_BYTES disallowed_in_title value.
Definition validate_capability_description (value : text) : result CapabilityTextError unit :=
  validate_capability_text DESCRIPTION_MAX_BYTES disallowed_in_description value.

(** ** Language tags *)

Inductive LanguageTagError := LangEmpty | LangTooLong (max actual : Z) | LangInvalidSyntax | LangDuplicateVariant | LangDuplicateExtension.
Definition LANGUAGE_MAX_LEN : Z := 255.

(** [iter.any(|x| !set.insert(x))]. *)
Fixpoint has_duplicate (seen l : list bytes) : bool :=
  match l with [] => false | x :: l' => bs_contains x seen || has_duplicate (x :: seen) l' end.

Record ParsedLanguageTag := mkLanguageTag { variant_subtags : list bytes; extension_singletons : list bytes; tag_text : bytes }.

Definition LanguageTag := bytes.

(** The [language-tags] package parses and prints a tag. *)
Definition language_tag_new (parse : bytes -> option ParsedLanguageTag) (value : bytes) : result LanguageTagError LanguageTag :=
  if (length value =? 0)%nat then Err LangEmpty else
  if LANGUAGE_MAX_LEN <? Z.of_nat (length value) then Err (LangTooLong LANGUAGE_MAX_LEN (Z.of_nat (length value))) else
  parsed ← ok_or (parse value) LangInvalidSyntax;
  if has_duplicate [] (variant_subtags parsed) then Err LangDuplicateVariant else
  if has_duplicate [] (extension_singletons parsed) then Err LangDuplicateExtension else
  Ok (Digests.to_ascii_lowercase <$> tag_text parsed).

Record TextContent := mkTextContent { content_text : text; language : option LanguageTag; text_metadata : ContentMetadata }.

Definition text_content_new (value : text) (lang : option LanguageTag) (meta : ContentMetadata)
  : result TextContentError TextContent :=
  _ ← validate_text value; Ok (mkTextContent value lang meta).

(** ** Identities (identity.rs) *)

Inductive SubjectIdError := SubjectEmpty | SubjectTooLong (max actual : Z) | SubjectInvalidByte (index : nat).
Definition SUBJECT_MAX_LEN : Z := 255.

Definition validate_subject_id (value : bytes) : result SubjectIdError unit :=
  if (length value =? 0)%nat then Err SubjectEmpty else
  if SUBJECT_MAX_LEN <? Z.of_nat (length value) then Err (SubjectTooLong SUBJECT_MAX_LEN (Z.of_nat (length value))) else
  match first_invalid (between 32 126) value with
  | Some index => Err (SubjectInvalidByte index)
  | None => Ok tt
  end.

Record PrincipalIdentity := mkPrincipal { issuer : bytes; subject : bytes }.
#[global] Instance PrincipalIdentity_eq_dec : EqDecision PrincipalIdentity.
Proof. solve_decision. Defined.

Record SchemaReference := mkSchema { schema_id : bytes; schema_version : Version; schema_digest : Digest }.
#[global] Instance Version_eq_dec : EqDecision Version.
Proof. solve_decision. Defined.
#[global] Instance SchemaReference_eq_dec : EqDecision SchemaReference.
Proof. solve_decision. Defined.

(** What the source reads of a URI parsed by the [fluent-uri] package. *)
Record UriAuthority := mkAuthority { host : bytes; userinfo : option bytes; port : option bytes; port_is_u16 : bool }.
Record ParsedUri := mkUri {
  scheme : bytes;
  authority : option UriAuthority;
  query : option bytes;
  fragment : option bytes;
  normalized : bytes
}.

Definition HTTPS : bytes := bytes_of "https".
Definition URI_MAX_LEN : Z := 512.

Inductive IssuerIdError :=
| IssuerEmpty | IssuerTooLong (max actual : Z) | IssuerInvalidUri | IssuerUnsupportedScheme | IssuerMissingAuthority
| IssuerInvalidPort | IssuerUserInfoNotAllowed | IssuerQueryNotAllowed | IssuerFragmentNotAllowed.

Inductive SchemaIdError :=
| SchemaEmpty | SchemaTooLong (max actual : Z) | SchemaInvalidUri | SchemaUnsupportedScheme | SchemaMissingAuthority
| SchemaUserInfoNotAllowed | SchemaQueryNotAllowed | SchemaFragmentNotAllowed | SchemaNonCanonical.

Section Uris.
Variable parse_uri : bytes -> option ParsedUri.

Definition validate_issuer_id (value : bytes) : result IssuerIdError unit :=
  if (length value =? 0)%nat then Err IssuerEmpty else
  if URI_MAX_LEN <? Z.of_nat (length value) then Err (IssuerTooLong URI_MAX_LEN (Z.of_nat (length value))) else
  uri ← ok_or (parse_uri value) IssuerInvalidUri;
  if negb (Digests.eq_ignore_ascii_case (scheme uri) HTTPS) then Err IssuerUnsupportedScheme else
  auth ← ok_or (authority uri) IssuerMissingAuthority;
  if (length (host auth) =? 0)%nat then Err IssuerMissingAuthority else
  if negb (is_none (userinfo auth)) then Err IssuerUserInfoNotAllowed else
  if (match port auth with Some p => (length p =? 0)%nat || negb (port_is_u16 auth) | None => false end)
  then Err IssuerInvalidPort else
  if negb (is_none (query uri)) then Err IssuerQueryNotAllowed else
  if negb (is_none (fragment uri)) then Err IssuerFragmentNotAllowed else Ok tt.

Definition schema_id_from_str (value : bytes) : result SchemaIdError bytes :=
  if (length value =? 0)%nat then Err SchemaEmpty else
  if URI_MAX_LEN <? Z.of_nat (length value) then Err (SchemaTooLong URI_MAX_LEN (Z.of_nat (length value))) else
  uri ← ok_or (parse_uri value) SchemaInvalidUri;
  if negb (Digests.eq_ignore_ascii_case (scheme uri) HTTPS) then Err SchemaUnsupportedScheme else
  auth ← ok_or (authority uri) SchemaMissingAuthority;
  if (length (host auth) =? 0)%nat then Err SchemaMissingAuthority else
  if negb (is_none (userinfo auth)) then Err SchemaUserInfoNotAllowed else
  if negb (is_none (query uri)) then Err SchemaQueryNotAllowed else
  if negb (is_none (fragment uri)) then Err SchemaFragmentNotAllowed else
  if negb (bool_decide (normalized uri = value)) then Err SchemaNonCanonical else Ok value.

End Uris.

(** ** Media types (artifact.rs) *)

Inductive MediaTypeError :=
| MediaEmpty
| MediaTooLong (max actual : Z)
| MediaInvalidSyntax
| MediaWildcardNotAllowed
| MediaInvalidTypeName
| MediaInvalidSubtypeName
| MediaInvalidParameterName
| MediaDuplicateParameter
| MediaTooManyParameters (max actual : Z)
| MediaParameterValueTooLong (max actual : Z)
| MediaInvalidParameterValue.

Definition MEDIA_MAX_LEN : Z := 512.
Definition MAX_PARAMETERS : Z := 16.
Definition MAX_PARAMETER_VALUE_LEN : Z := 128.

Definition restricted_byte (b : Z) : bool :=
  is_ascii_alphanumeric b || (b =? 33) || (b =? 35) || (b =? 36) || (b =? 38) || (b =? 45) || (b =? 94) || (b =? 95) ||
  (b =? 46) || (b =? 43).

Definition is_restricted_name (value : bytes) : bool :=
  match value with
  | [] => false
  | first :: rest =>
      if (127 <? Z.of_nat (length value)) || negb (is_ascii_alphanumeric first) then false else forallb restricted_byte rest
  end.

Definition is_http_token_byte (b : Z) : bool :=
  is_ascii_alphanumeric b || (b =? 33) || (b =? 35) || (b =? 36) || (b =? 37) || (b =? 38) || (b =? 39) || (b =? 42) ||
  (b =? 43) || (b =? 45) || (b =? 46) || (b =? 94) || (b =? 95) || (b =? 96) || (b =? 124) || (b =? 126).

Definition is_supported_parameter_value (value : bytes) : bool :=
  negb (length value =? 0)%nat && forallb (fun b => between 32 126 b && negb ((b =? 34) || (b =? 92))) value.

Definition canonical_parameter_value (value : bytes) : bytes :=
  if forallb is_http_token_byte value then value else [34] ++ value ++ [34].

(** One pass of the loop over [parsed.params().enumerate()]; the state is the
    next index and the map collected. *)
Definition media_parameter_step (st : Z * list (bytes * bytes)) (parameter : bytes * bytes)
  : result MediaTypeError (Z * list (bytes * bytes)) :=
  let '(index, parameters) := st in
  let '(name, value) := parameter in
  let actual := index + 1 in
  if MAX_PARAMETERS <? actual then Err (MediaTooManyParameters MAX_PARAMETERS actual) else
  if negb (is_restricted_name name) then Err MediaInvalidParameterName else
  if MAX_PARAMETER_VALUE_LEN <? Z.of_nat (length value)
  then Err (MediaParameterValueTooLong MAX_PARAMETER_VALUE_LEN (Z.of_nat (length value))) else
  if negb (is_supported_parameter_value value) then Err MediaInvalidParameterValue else
  match bt_get name parameters with
  | Some _ => Err MediaDuplicateParameter
  | None => Ok (actual, bt_insert name value parameters)
  end.

Definition canonical_media_type (essence : bytes) (parameters : list (bytes * bytes)) : bytes :=
  essence ++ concat ((fun p => [59] ++ p.1 ++ [61] ++ canonical_parameter_value p.2) <$> parameters).

Definition MediaType := bytes.

Section Media.
(** The [mime] package: the essence and the parameters in order, names and
    essence in lower case. *)
Variable parse_mime : bytes -> option (bytes * list (bytes * bytes)).

Definition media_type_new (value : bytes) : result MediaTypeError MediaType :=
  if (length value =? 0)%nat then Err MediaEmpty else
  if MEDIA_MAX_LEN <? Z.of_nat (length value) then Err (MediaTooLong MEDIA_MAX_LEN (Z.of_nat (length value))) else
  '(essence, params) ← ok_or (parse_mime value) MediaInvalidSyntax;
  '(top_level, subtype) ← ok_or (split_once_at 47 essence) MediaInvalidSyntax;
  if bool_decide (top_level = [42]) || bool_decide (subtype = [42]) then Err MediaWildcardNotAllowed else
  if negb (is_restricted_name top_level) then Err MediaInvalidTypeName else
  if negb (is_restricted_name subtype) then Err MediaInvalidSubtypeName else
  '(_, parameters) ← try_fold media_parameter_step (0, []) params;
  let canonical := canonical_media_type essence parameters in
  if MEDIA_MAX_LEN <? Z.of_nat (length canonical) then Err (MediaTooLong MEDIA_MAX_LEN (Z.of_nat (length canonical))) else
  Ok canonical.

End Media.

Definition media_essence (self : MediaType) : bytes :=
  match split_once_at 59 self with Some (essence, _) => essence | None => self end.
Definition media_top_level (self : MediaType) : bytes :=
  match split_once_at 47 (media_essence self) with Some (top_level, _) => top_level | None => [] end.
Definition media_subtype (self : MediaType) : bytes :=
  match split_once_at 47 (media_essence self) with Some (_, subtype) => subtype | None => [] end.

End Content.

(** Laws of the content values of [Content.v]: what each text validator
    accepts, and the canonical form of media types. *)

Module ContentValues.
Import Text Content.

(** * Text *)

Definition clean (p : Z -> bool) (s : text) : Prop := Forall (fun c => p c = false) s.

Definition trimmed (s : text) : Prop := starts_with_whitespace s = false /\ ends_with_whitespace s = false.

Lemma bounded_text_Ok maximum s u :
  validate_bounded_text maximum s = Ok u <-> 0 < len s <= maximum /\ clean disallowed_in_text s.
Proof.
  unfold validate_bounded_text, clean. rewrite <- char_find_None. destruct u. pose proof (len_zero s).
  destruct (length s =? 0)%nat; [split; [done |]; intros [? _]; intuition lia |].
  destruct (Z.ltb_spec maximum (len s)); [split; [done |]; intros [? _]; lia |].
  destruct (char_find _ s); split; try done; [by intros [_ ?] |]. intros _. split; [| done]. intuition lia.
Qed.

Lemma capability_text_Ok maximum p s u :
  validate_capability_text maximum p s = Ok u <-> 0 < len s <= maximum /\ trimmed s /\ clean p s.
Proof.
  unfold validate_capability_text, clean, trimmed. rewrite <- char_find_None. destruct u. pose proof (len_zero s).
  destruct (length s =? 0)%nat; [split; [done |]; intros [? _]; intuition lia |].
  destruct (Z.ltb_spec maximum (len s)); [split; [done |]; intros [? _]; lia |].
  destruct (starts_with_whitespace s), (ends_with_whitespace s); simpl; try (split; [done | by intros (_ & [? ?] & _)]).
  destruct (char_find _ s); split; try done; [by intros (_ & _ & ?) |]. intros _. split_and!; intuition lia.
Qed.

Lemma artifact_name_Ok s u :
  validate_artifact_name s = Ok u <->
  0 < len s <= ARTIFACT_NAME_MAX_BYTES /\ s <> [46] /\ s <> [46; 46] /\ trimmed s /\
  clean (fun c => is_path_separator c || disallowed_in_name c) s.
Proof.
  unfold validate_artifact_name, clean, trimmed. destruct u. pose proof (len_zero s).
  assert (Hc : Forall (fun c => is_path_separator c || disallowed_in_name c = false) s <->
               char_find is_path_separator s = None /\ char_find disallowed_in_name s = None).
  { rewrite !char_find_None, !Forall_forall. clear. split.
    - intros Hs. split; intros c Hc; specialize (Hs c Hc); by apply orb_false_iff in Hs as [? ?].
    - intros [H1 H2] c Hc. apply orb_false_iff. auto. }
  rewrite Hc. destruct (length s =? 0)%nat; [split; [done |]; intros [? _]; intuition lia |].
  destruct (Z.ltb_spec ARTIFACT_NAME_MAX_BYTES (len s)); [split; [done |]; intros [? _]; lia |].
  destruct (bool_decide_reflect (s = [46])), (bool_decide_reflect (s = [46; 46])); simpl; try (split; [done | tauto]).
  destruct (starts_with_whitespace s), (ends_with_whitespace s); simpl; try (split; [done | by intros (_ & _ & _ & [? ?] & _)]).
  destruct (char_find is_path_separator s), (char_find disallowed_in_name s); split; try done;
    try (by intros (_ & _ & _ & _ & ? & ?)). intros _. split_and!; intuition lia.
Qed.

(** The text validators accept exactly the texts they document: non-empty, at
    most the stated number of UTF-8 bytes, free of the disallowed scalars, and,
    for titles, descriptions and names, without leading or trailing whitespace;
    a name is moreover no dot segment and holds no path separator.  A rejection
    for a scalar names the byte offset of the first disallowed one. *)
Theorem text_validators_exact (s : text) :
  (validate_text s = Ok tt <-> 0 < len s <= 262144 /\ clean disallowed_in_text s) /\
  (validate_artifact_description s = Ok tt <-> 0 < len s <= 4096 /\ clean disallowed_in_text s) /\
  (validate_capability_title s = Ok tt <-> 0 < len s <= 256 /\ trimmed s /\ clean disallowed_in_title s) /\
  (validate_capability_description s = Ok tt <-> 0 < len s <= 16384 /\ trimmed s /\ clean disallowed_in_description s) /\
  (validate_artifact_name s = Ok tt <->
   0 < len s <= 255 /\ s <> [46] /\ s <> [46; 46] /\ trimmed s /\ clean (fun c => is_path_separator c || disallowed_in_name c) s) /\
  (forall i, validate_text s = Err (TextDisallowedCodePoint i) ->
     exists l c r, s = l ++ c :: r /\ disallowed_in_text c = true /\ clean disallowed_in_text l /\ i = len l).
Proof.
  split_and!; [apply bounded_text_Ok | apply bounded_text_Ok | apply capability_text_Ok | apply capability_text_Ok
    | apply artifact_name_Ok |].
  intros i. unfold validate_text, validate_bounded_text. destruct (_ =? 0)%nat; [done |]. destruct (_ <? _); [done |].
  destruct (char_find disallowed_in_text s) eqn:E; [| done]. intros [= ->]. by apply char_find_Some in E.
Qed.

(** * Media types *)

Definition parameter_ok (p : bytes * bytes) : Prop :=
  is_restricted_name p.1 = true /\ Z.of_nat (length p.2) <= MAX_PARAMETER_VALUE_LEN /\ is_supported_parameter_value p.2 = true.

Lemma media_step_Ok index m p st :
  media_parameter_step (index, m) p = Ok st <->
  index + 1 <= MAX_PARAMETERS /\ parameter_ok p /\ bt_get p.1 m = None /\ st = (index + 1, bt_insert p.1 p.2 m).
Proof.
  destruct p as [name value]. unfold media_parameter_step, parameter_ok. simpl.
  destruct (Z.ltb_spec MAX_PARAMETERS (index + 1)); [split; [done |]; lia |].
  destruct (is_restricted_name name); simpl; [| split; [done |]; naive_solver].
  destruct (Z.ltb_spec MAX_PARAMETER_VALUE_LEN (Z.of_nat (length value))); [split; [done |]; lia |].
  destruct (is_supported_parameter_value value); simpl; [| split; [done |]; naive_solver].
  destruct (bt_get name m); [split; [done |]; naive_solver |]. split; [| naive_solver].
  intros [= <-]. split_and!; auto.
Qed.

(** The loop accepts exactly a list of valid parameters with fresh, distinct
    names within the count, and the map holds exactly these. *)
Lemma media_fold_Ok params index m st :
  ksorted fst m -> 0 <= index ->
  try_fold media_parameter_step (index, m) params = Ok st <->
  Forall parameter_ok params /\ NoDup (params.*1) /\ (forall p, p ∈ params -> bt_get p.1 m = None) /\
  (params = [] \/ index + Z.of_nat (length params) <= MAX_PARAMETERS) /\
  st = (index + Z.of_nat (length params), bt_extend m params).
Proof.
  revert index m. induction params as [|p params IH]; intros index m Hs Hi; simpl.
  { rewrite Z.add_0_r. split; [| naive_solver]. intros [= <-]. split_and!; auto; [constructor | by intros ? ?%not_elem_of_nil]. }
  rewrite bind_Ok. split.
  - intros (st' & (Hc & Hp & Hn & ->)%media_step_Ok & H). apply IH in H as (HF & HN & Hf & Hl & ->); [| by apply bt_insert_sorted | lia].
    assert (Hq : forall q, q ∈ params -> q.1 <> p.1 /\ bt_get q.1 m = None).
    { intros q Hq. by apply (bt_get_insert_None p.1 p.2 m), Hf. }
    split_and!.
    + by constructor.
    + constructor; [| done]. intros (q & E & Hin)%list_elem_of_fmap. by apply (Hq q Hin).
    + intros q [->|Hin]%elem_of_cons; [done | by apply Hq].
    + right. destruct Hl as [->|]; simpl; lia.
    + f_equal. lia.
  - intros (HF & HN & Hf & Hl & ->). inversion HF as [|? ? Hp HF']; subst. inversion HN as [|? ? Hn HN']; subst.
    destruct Hl as [|Hl]; [done |]. exists (index + 1, bt_insert p.1 p.2 m). split.
    + apply media_step_Ok. split_and!; auto; [lia | apply Hf; by left].
    + apply IH; [by apply bt_insert_sorted | lia |]. split_and!; auto; [| lia |].
      * intros q Hq. apply bt_get_insert_None; [done |]. split; [| apply Hf; by right].
        intros E. apply Hn. rewrite <- E. by apply list_elem_of_fmap_2.
      * f_equal. lia.
Qed.

Lemma alphanumeric_not b : is_ascii_alphanumeric b = true -> b <> 47 /\ b <> 59.
Proof. intros Hb. split; intros ->; by vm_compute in Hb. Qed.

Lemma restricted_name_clean name : is_restricted_name name = true -> 47 ∉ name /\ 59 ∉ name.
Proof.
  destruct name as [|first rest]; [done |]. unfold is_restricted_name. destruct (_ || _) eqn:E; [done |].
  apply orb_false_iff in E as [_ E]. apply negb_false_iff in E. apply alphanumeric_not in E as [H1 H2].
  intros Hr. rewrite forallb_forall in Hr.
  split; apply not_elem_of_cons; (split; [done |]); intros Hin%list_elem_of_In; apply Hr in Hin; by vm_compute in Hin.
Qed.

Lemma media_type_Ok parse v m :
  media_type_new parse v = Ok m <->
  exists top sub params,
    0 < Z.of_nat (length v) <= MEDIA_MAX_LEN /\ parse v = Some (top ++ 47 :: sub, params) /\
    is_restricted_name top = true /\ is_restricted_name sub = true /\
    Forall parameter_ok params /\ NoDup (params.*1) /\ Z.of_nat (length params) <= MAX_PARAMETERS /\
    m = canonical_media_type (top ++ 47 :: sub) (bt_extend [] params) /\ Z.of_nat (length m) <= MEDIA_MAX_LEN.
Proof.
  unfold media_type_new. split.
  - destruct (Nat.eqb_spec (length v) 0); [done |]. destruct (Z.ltb_spec MEDIA_MAX_LEN (Z.of_nat (length v))); [done |].
    destruct (parse v) as [[essence params]|]; simpl; [| done].
    destruct (split_once_at 47 essence) as [[top sub]|] eqn:Es; simpl; [| done]. apply split_once_at_Some in Es as [-> _].
    destruct (_ || _); [done |]. destruct (is_restricted_name top) eqn:Et; simpl; [| done].
    destruct (is_restricted_name sub) eqn:Eu; simpl; [| done].
    destruct (try_fold _ _ _) as [st|e] eqn:Ef; simpl; [| done].
    apply media_fold_Ok in Ef as (HF & HN & _ & Hl & ->); [| constructor | done]. simpl.
    destruct (Z.ltb_spec MEDIA_MAX_LEN (Z.of_nat (length (canonical_media_type (top ++ 47 :: sub) (bt_extend [] params))))); [done |].
    intros [= <-]. exists top, sub, params. split_and!; auto; [lia |]. destruct Hl as [->|]; simpl; [done | lia].
  - intros (top & sub & params & [Hv1 Hv2] & Hp & Ht & Hs & HF & HN & Hl & -> & Hm).
    destruct (Nat.eqb_spec (length v) 0); [lia |]. destruct (Z.ltb_spec MEDIA_MAX_LEN (Z.of_nat (length v))); [lia |].
    rewrite Hp. simpl. destruct (restricted_name_clean top Ht) as [Hn _]. rewrite split_once_at_app by done. simpl.
    rewrite !bool_decide_false by (intros ->; by vm_compute in Ht, Hs). simpl. rewrite Ht, Hs. simpl.
    assert (Ef : try_fold media_parameter_step (0, []) params = Ok (0 + Z.of_nat (length params), bt_extend [] params)).
    { apply media_fold_Ok; [constructor | done |]. split_and!; auto. }
    rewrite Ef.
    simpl. destruct (Z.ltb_spec MEDIA_MAX_LEN (Z.of_nat (length (canonical_media_type (top ++ 47 :: sub) (bt_extend [] params))))); [lia | done].
Qed.

Lemma canonical_essence top sub params :
  is_restricted_name top = true -> is_restricted_name sub = true ->
  media_essence (canonical_media_type (top ++ 47 :: sub) params) = top ++ 47 :: sub.
Proof.
  intros [_ Ht]%restricted_name_clean [_ Hs]%restricted_name_clean.
  assert (Hn : 59 ∉ top ++ 47 :: sub) by (rewrite not_elem_of_app, not_elem_of_cons; done).
  unfold media_essence, canonical_media_type. destruct params as [|[name value] params].
  - simpl. rewrite app_nil_r. by rewrite (proj2 (split_once_at_None _ _) Hn).
  - rewrite fmap_cons. cbn [concat]. change ([59] ++ ?x) with (59 :: x). rewrite <- app_comm_cons, split_once_at_app by done. done.
Qed.

(** An accepted media type has one canonical text: the parsed essence followed
    by its valid, distinctly named parameters in name order; its accessors give
    the parsed type and subtype back, and any other accepted spelling of the
    same essence and parameters, in any order, has the same text. *)
Theorem media_type_canonical (parse : bytes -> option (bytes * list (bytes * bytes))) (v m : bytes) :
  media_type_new parse v = Ok m ->
  exists top sub params sorted,
    parse v = Some (top ++ 47 :: sub, params) /\ sorted ≡ₚ params /\ ksorted fst sorted /\
    m = canonical_media_type (top ++ 47 :: sub) sorted /\ Z.of_nat (length m) <= 512 /\ (length params <= 16)%nat /\
    media_top_level m = top /\ media_subtype m = sub /\
    (forall v' params', parse v' = Some (top ++ 47 :: sub, params') -> params' ≡ₚ params ->
       0 < Z.of_nat (length v') <= 512 -> media_type_new parse v' = Ok m).
Proof.
  intros (top & sub & params & Hv & Hp & Ht & Hs & HF & HN & Hl & -> & Hm)%media_type_Ok.
  exists top, sub, params, (bt_extend [] params). unfold media_top_level, media_subtype.
  rewrite canonical_essence by done. destruct (restricted_name_clean top Ht) as [Hn _]. rewrite split_once_at_app by done.
  split_and!; auto; [by apply bt_extend_nil_perm | apply bt_extend_sorted; constructor | unfold MAX_PARAMETERS in Hl; lia |].
  intros v' params' Hp' Hperm Hv'. apply media_type_Ok. exists top, sub, params'.
  destruct Hv'. split_and!; auto; [by rewrite Hperm | by rewrite Hperm | by rewrite Hperm |].
  f_equal. symmetry. apply bt_extend_perm; [by rewrite Hperm | done].
Qed.

Definition sample_mime (v : bytes) : option (bytes * list (bytes * bytes)) :=
  if bool_decide (v = bytes_of "text/plain; b=1; a=x y") then
    Some (bytes_of "text/plain", [(bytes_of "b", bytes_of "1"); (bytes_of "a", bytes_of "x y")])
  else None.

Lemma media_type_canonical_witness :
  exists m, media_type_new sample_mime (bytes_of "text/plain; b=1; a=x y") = Ok m /\ m = bytes_of "text/plain;a=" ++ [34] ++ bytes_of "x y" ++ [34] ++ bytes_of ";b=1" /\
  exists sorted, ksorted fst sorted /\ m = canonical_media_type (bytes_of "text/plain") sorted.
Proof.
  destruct (media_type_new sample_mime (bytes_of "text/plain; b=1; a=x y")) as [m|] eqn:E; [| by vm_compute in E].
  exists m. destruct (media_type_canonical _ _ _ E) as (top & sub & params & sorted & Hp & _ & Hk & Hm & _).
  split; [done |]. split; [by vm_compute in E; injection E as <- |].
  exists sorted. split; [done |]. rewrite Hm. f_equal.
  assert (Hs : fst <$> sample_mime (bytes_of "text/plain; b=1; a=x y") = Some (bytes_of "text/plain")) by reflexivity.
  rewrite Hp in Hs. exact (f_equal (default []) Hs).
Defined.

End ContentValues.
