(* ===== verification/Failures.v ===== *)
(** Public failures (crates/stateknot-core/src/failure.rs): the grammar of stable
    identifiers and of public messages, bounded details, and what the
    constructors accept. The record itself and its category and advice pairing
    are in [Run.v]. *)

From Stdlib Require Import ZArith Lia List.
From stdpp Require Import prelude.
From S2P Require Import Prelude Ordered Json Ids BoundedJson BoundedJsonLaws Content.

Open Scope Z_scope.

Module Failures.
Import Text Content ContentValues.

(** * Identifiers: [FailureCode] and [FailureOrigin] *)

Inductive FailureIdentifierError :=
| IdentifierEmpty
| IdentifierTooLong (max actual : Z)
| InvalidSegmentStart (index : Z)
| IdentifierInvalidByte (index : Z).

Definition IDENTIFIER_MAX_LEN : Z := 128.

Definition lower (b : Z) : bool := between 97 122 b.
Definition segment_byte (b : Z) : bool := lower b || between 48 57 b || (b =? 95) || (b =? 45).

(** The loop over [value.bytes().enumerate()]; the result is the final
    [at_segment_start]. *)
Fixpoint identifier_loop (index : Z) (at_segment_start : bool) (value : bytes) : result FailureIdentifierError bool :=
  match value with
  | [] => Ok at_segment_start
  | byte :: value' =>
      if at_segment_start then
        if negb (lower byte) then Err (InvalidSegmentStart index) else identifier_loop (index + 1) false value'
      else if byte =? 46 then identifier_loop (index + 1) true value'
      else if negb (segment_byte byte) then Err (IdentifierInvalidByte index) else identifier_loop (index + 1) false value'
  end.

Definition validate_failure_identifier (value : bytes) : result FailureIdentifierError unit :=
  if (length value =? 0)%nat then Err IdentifierEmpty else
  if IDENTIFIER_MAX_LEN <? Z.of_nat (length value) then Err (IdentifierTooLong IDENTIFIER_MAX_LEN (Z.of_nat (length value))) else
  match identifier_loop 0 true value with
  | Err e => Err e
  | Ok at_segment_start => if at_segment_start then Err (InvalidSegmentStart (Z.of_nat (length value))) else Ok tt
  end.

(** * Messages *)

Inductive FailureMessageError :=
| MessageEmpty
| MessageTooLong (max actual : Z)
| SurroundingWhitespace
| DisallowedScalar (index : Z).

Definition MESSAGE_MAX_BYTES : Z := 1024.

Definition validate_failure_message (value : text) : result FailureMessageError unit :=
  if (length value =? 0)%nat then Err MessageEmpty else
  if MESSAGE_MAX_BYTES <? len value then Err (MessageTooLong MESSAGE_MAX_BYTES (len value)) else
  if starts_with_whitespace value || ends_with_whitespace value then Err SurroundingWhitespace else
  match char_find disallowed_in_title value with
  | Some index => Err (DisallowedScalar index)
  | None => Ok tt
  end.

(** * Details *)

Record FailureDetails := mkDetails { details_schema : SchemaReference; details_value : BoundedJson }.

Inductive FailureDetailsError := LimitsConfiguration (source : JsonLimitsError) | DetailsJson (source : BoundedJsonError).

Definition failure_details_json_limits : result FailureDetailsError JsonLimits :=
  map_err LimitsConfiguration (json_limits_try_new (16 * 1024) 8 64 512 (4 * 1024) 128).

Definition details_try_from_value (float_text : Z -> bytes) (schema : SchemaReference) (value : Value)
  : result FailureDetailsError FailureDetails :=
  limits ← failure_details_json_limits;
  value ← map_err DetailsJson (try_from_value_with_limits float_text value limits);
  Ok (mkDetails schema value).

Definition details_try_new (float_text : Z -> bytes) (schema : SchemaReference) (value : BoundedJson)
  : result FailureDetailsError FailureDetails :=
  details_try_from_value float_text schema (bounded_value value).

(** * Laws *)

(** A dotted identifier: every segment starts with a lowercase letter. *)
Definition segment (s : bytes) : Prop :=
  match s with [] => False | first :: rest => lower first = true /\ Forall (fun b => segment_byte b = true) rest end.

Definition dotted (value : bytes) : Prop := Forall segment (split_at 46 value).

Lemma segment_byte_dot b : segment_byte b = true -> b <> 46.
Proof. by intros H ->. Qed.

Lemma lower_dot b : lower b = true -> b <> 46.
Proof. by intros H ->. Qed.

Lemma identifier_loop_Ok value index :
  (identifier_loop index true value = Ok false <-> dotted value) /\
  (identifier_loop index false value = Ok false <->
   match split_at 46 value with s :: rest => Forall (fun b => segment_byte b = true) s /\ Forall segment rest | [] => False end).
Proof.
  unfold dotted. revert index. induction value as [|b value IH]; intros index; simpl.
  { split; split; try done; try (by intros H; inversion H); intros _; split; constructor. }
  destruct (IH (index + 1)) as [IH1 IH2]. pose proof (split_at_nonempty 46 value) as Hn. split.
  - destruct (lower b) eqn:Eb; simpl.
    + destruct (Z.eqb_spec b 46) as [->|]; [by vm_compute in Eb |]. rewrite IH2.
      destruct (split_at 46 value) as [|s l]; [done |]. rewrite Forall_cons. simpl. rewrite Eb. tauto.
    + split; [done |]. destruct (Z.eqb_spec b 46) as [_|]; [intros H; inversion H as [|? ? Hf]; done |].
      destruct (split_at 46 value) as [|s l]; [done |]. rewrite Forall_cons. simpl. rewrite Eb. by intros [[? _] _].
  - destruct (Z.eqb_spec b 46) as [->|].
    + rewrite IH1. split; [intros H; split; [constructor | done] | by intros [_ ?]].
    + destruct (split_at 46 value) as [|s l] eqn:Es; [done |]. rewrite Forall_cons. destruct (segment_byte b); simpl.
      * rewrite IH2. tauto.
      * split; [done | by intros [[? _] _]].
Qed.

(** The failure constructors accept exactly their public grammar: an
    identifier is at most 128 bytes of dot-separated segments, each a lowercase
    letter followed by letters, digits, underscores or hyphens; a message is
    1 to 1024 bytes, trimmed and free of control, bidirectional and
    noncharacter scalars; details are the given value, within their JSON
    limits, and are accepted again unchanged. *)
Theorem failure_texts_exact (value message : bytes) (float_text : Z -> bytes) (schema : SchemaReference) (v : Value) (d : FailureDetails) :
  (validate_failure_identifier value = Ok tt <-> (length value <= 128)%nat /\ dotted value) /\
  (validate_failure_message message = Ok tt <-> 0 < len message <= 1024 /\ trimmed message /\ clean disallowed_in_title message) /\
  (details_try_from_value float_text schema v = Ok d ->
   details_schema d = schema /\ compact_bytes (stats (details_value d)) <= 16384 /\
   details_try_new float_text schema (details_value d) = Ok d).
Proof.
  split_and!.
  - unfold validate_failure_identifier. destruct (Nat.eqb_spec (length value) 0) as [E|E].
    { destruct value; [| done]. split; [done |]. intros [_ H]. inversion H; done. }
    destruct (Z.ltb_spec IDENTIFIER_MAX_LEN (Z.of_nat (length value))) as [Hl|Hl]; unfold IDENTIFIER_MAX_LEN in Hl.
    { split; [done |]. intros [? _]. lia. }
    rewrite <- (proj1 (identifier_loop_Ok value 0)). destruct (identifier_loop 0 true value) as [[]|]; simpl; split; try done;
      try (by intros [_ ?]); intros _; split; [lia | done].
  - rewrite <- capability_text_Ok with (u := tt). unfold validate_failure_message, validate_capability_text, MESSAGE_MAX_BYTES.
    destruct (_ =? 0)%nat; [done |]. destruct (_ <? _); [done |]. destruct (_ || _); [done |]. by destruct (char_find _ _).
  - assert (Hl : failure_details_json_limits = Ok (mkJsonLimits 16384 8 64 512 4096 128)) by (vm_compute; reflexivity).
    unfold details_try_new, details_try_from_value. rewrite Hl. simpl. intros (j & Hj%map_err_Ok & [= <-])%bind_Ok. simpl.
    assert (Hp : Forall (fun z => 0 <= z) [16384; 8; 64; 512]) by (repeat constructor; lia).
    assert (Hw : Bounded.limits_wf (mkJsonLimits 16384 8 64 512 4096 128)) by (vm_compute; reflexivity).
    split_and!; [done | |].
    + apply Bounded.deserialize_iff in Hj as [(_ & _ & _ & Hb) ->]; [done |]. apply (Bounded.limits_wf_range (mkJsonLimits 16384 8 64 512 4096 128) Hp Hw).
    + by rewrite (Bounded.bounded_again float_text (mkJsonLimits 16384 8 64 512 4096 128) _ j Hp Hw Hj).
Qed.

End Failures.
