(* ===== verification/Extension.v ===== *)
(** Extensions (crates/stateknot-core/src/extension.rs): validated namespace
    keys, their limits, and the bounded map of extension values with its exact
    byte account.

    [Extensions] holds its [BTreeMap] as a sorted association list.  The URI
    parser, serde_json's encoder of one value and its float printer are
    parameters. *)

From Stdlib Require Import ZArith Lia List.
From stdpp Require Import prelude.
From S2P Require Import Prelude Ordered Json Digests Ids Decimal BoundedJson BoundedJsonLaws Content.

Open Scope Z_scope.

Module Extension.
Import Text Content.

(** * Keys *)

Inductive ExtensionKeyKind := Uri | ReverseDns.

Record ExtensionKey := mkExtensionKey { key_value : bytes; key_kind : ExtensionKeyKind }.

#[global] Instance ExtensionKeyKind_eq_dec : EqDecision ExtensionKeyKind.
Proof. solve_decision. Defined.

#[global] Instance ExtensionKey_eq_dec : EqDecision ExtensionKey.
Proof. solve_decision. Defined.

Inductive ExtensionKeyError :=
| KeyEmpty
| KeyTooLong_ (max actual : Z)
| KeyInvalidUri
| KeyUnsupportedUriScheme
| KeyMissingAuthority
| KeyUserInfoNotAllowed
| KeyQueryNotAllowed
| KeyFragmentNotAllowed
| KeyInvalidUrn
| KeyNonCanonicalUri
| TooFewReverseDnsLabels
| InvalidReverseDnsLabelLength (label_index actual : Z)
| InvalidReverseDnsLabelStart (label_index : Z)
| InvalidReverseDnsLabelEnd (label_index : Z)
| InvalidReverseDnsByte (index : Z).

Definition KEY_MAX_LEN : Z := 512.
Definition URN : bytes := bytes_of "urn".

Definition is_lower (b : Z) : bool := between 97 122 b.
Definition is_digit (b : Z) : bool := between 48 57 b.
Definition label_char (b : Z) : bool := is_lower b || is_digit b || (b =? 45).

Definition first_is (p : Z -> bool) (l : bytes) : bool := match l with b :: _ => p b | [] => false end.
Definition last_is (p : Z -> bool) (l : bytes) : bool := match last l with Some b => p b | None => false end.

Definition valid_urn_namespace_and_value (value : bytes) : bool :=
  if (length value <? 4)%nat then false else
  match split_once_at 58 (drop 4 value) with
  | None => false
  | Some (namespace, identifier) =>
      if negb (between 2 32 (Z.of_nat (length namespace))) || (length identifier =? 0)%nat then false else
      first_is is_lower namespace && last_is is_ascii_alphanumeric namespace && forallb label_char namespace
  end.

(** One label of the loop over [value.split('.').enumerate()]. *)
Definition reverse_dns_label (st : Z * Z) (label : bytes) : result ExtensionKeyError (Z * Z) :=
  let '(label_index, offset) := st in
  if (length label =? 0)%nat || (63 <? Z.of_nat (length label))
  then Err (InvalidReverseDnsLabelLength label_index (Z.of_nat (length label))) else
  if negb (first_is is_lower label) then Err (InvalidReverseDnsLabelStart label_index) else
  if negb (last_is is_ascii_alphanumeric label) then Err (InvalidReverseDnsLabelEnd label_index) else
  match position (fun b => negb (label_char b)) label with
  | Some inner_index => Err (InvalidReverseDnsByte (offset + Z.of_nat inner_index))
  | None => Ok (label_index + 1, offset + Z.of_nat (length label) + 1)
  end.

Definition validate_reverse_dns_extension_key (value : bytes) : result ExtensionKeyError ExtensionKeyKind :=
  let label_count := Z.of_nat (length (List.filter (fun b => b =? 46) value)) + 1 in
  if label_count <? 3 then Err TooFewReverseDnsLabels else
  _ ← try_fold reverse_dns_label (0, 0) (split_at 46 value);
  Ok ReverseDns.

Section Keys.
Variable parse_uri : bytes -> option ParsedUri.

Definition validate_uri_extension_key (value : bytes) : result ExtensionKeyError ExtensionKeyKind :=
  uri ← ok_or (parse_uri value) KeyInvalidUri;
  if negb (is_none (query uri)) then Err KeyQueryNotAllowed else
  if negb (is_none (fragment uri)) then Err KeyFragmentNotAllowed else
  _ ← (if Digests.eq_ignore_ascii_case (scheme uri) HTTPS then
         auth ← ok_or (authority uri) KeyMissingAuthority;
         if (length (host auth) =? 0)%nat then Err KeyMissingAuthority else
         if negb (is_none (userinfo auth)) then Err KeyUserInfoNotAllowed else Ok tt
       else if Digests.eq_ignore_ascii_case (scheme uri) URN then
         if negb (is_none (authority uri)) || negb (valid_urn_namespace_and_value value) then Err KeyInvalidUrn else Ok tt
       else Err KeyUnsupportedUriScheme);
  if negb (bool_decide (normalized uri = value)) then Err KeyNonCanonicalUri else Ok Uri.

Definition validate_extension_key (value : bytes) : result ExtensionKeyError ExtensionKeyKind :=
  if (length value =? 0)%nat then Err KeyEmpty else
  if KEY_MAX_LEN <? Z.of_nat (length value) then Err (KeyTooLong_ KEY_MAX_LEN (Z.of_nat (length value))) else
  if existsb (Z.eqb 58) value then validate_uri_extension_key value else validate_reverse_dns_extension_key value.

Definition extension_key_new (value : bytes) : result ExtensionKeyError ExtensionKey :=
  kind ← validate_extension_key value; Ok (mkExtensionKey value kind).

End Keys.

(** The derived order: the text, then the kind. *)
Definition kind_rank (k : ExtensionKeyKind) : Z := match k with Uri => 0 | ReverseDns => 1 end.
Definition key_pair (k : ExtensionKey) : bytes * Z := (key_value k, kind_rank (key_kind k)).

Lemma key_pair_inj a b : key_pair a = key_pair b -> a = b.
Proof. destruct a as [v []], b as [v' []]; intros [=]; subst; done. Qed.

#[global] Instance ExtensionKey_ord : RustOrd ExtensionKey.
Proof.
  refine {| cmp := fun a b => cmp (key_pair a) (key_pair b) |}.
  - intros a b. rewrite cmp_eq_iff. split; [apply key_pair_inj | by intros ->].
  - intros a b. apply cmp_opp.
  - intros a b c. apply cmp_lt_trans.
Defined.

(** * Limits *)

Inductive ExtensionLimit := LimEntries | LimTotalBytes | LimKeyBytes | LimValueJson (limit : JsonLimit).

Record ExtensionLimits := mkExtensionLimits {
  max_entries : Z;
  max_total_bytes : Z;
  max_key_bytes : Z;
  value_json_limits : JsonLimits
}.

Inductive ExtensionLimitsError :=
| LimitZero (limit : ExtensionLimit)
| LimitBelowMinimum (limit : ExtensionLimit) (minimum actual : Z)
| LimitAboveHardMaximum (limit : ExtensionLimit) (maximum actual : Z).

Definition HARD_MAXIMUM : ExtensionLimits := mkExtensionLimits 64 (256 * 1024) KEY_MAX_LEN LIMITS_DEFAULT.

Definition validate_extension_limit (limit : ExtensionLimit) (actual minimum maximum : Z) : result ExtensionLimitsError unit :=
  if actual =? 0 then Err (LimitZero limit) else
  if actual <? minimum then Err (LimitBelowMinimum limit minimum actual) else
  if maximum <? actual then Err (LimitAboveHardMaximum limit maximum actual) else Ok tt.

Definition check_value_limit (_ : unit) (row : JsonLimit * Z * Z) : result ExtensionLimitsError unit :=
  let '(limit, actual, maximum) := row in
  if maximum <? actual then Err (LimitAboveHardMaximum (LimValueJson limit) maximum actual) else Ok tt.

Definition validate_value_json_limits (limits : JsonLimits) : result ExtensionLimitsError unit :=
  let maximum := LIMITS_DEFAULT in
  try_fold check_value_limit tt
    [(LBytes, max_bytes limits, max_bytes maximum); (LDepth, max_depth limits, max_depth maximum);
     (LContainerEntries, max_container_entries limits, max_container_entries maximum);
     (LNodes, max_nodes limits, max_nodes maximum); (LStringBytes, max_string_bytes limits, max_string_bytes maximum);
     (LObjectKeyBytes, max_object_key_bytes limits, max_object_key_bytes maximum)].

Definition extension_limits_try_new (entries total key : Z) (json : JsonLimits) : result ExtensionLimitsError ExtensionLimits :=
  _ ← validate_extension_limit LimEntries entries 1 (max_entries HARD_MAXIMUM);
  _ ← validate_extension_limit LimTotalBytes total 2 (max_total_bytes HARD_MAXIMUM);
  _ ← validate_extension_limit LimKeyBytes key 1 (max_key_bytes HARD_MAXIMUM);
  _ ← validate_value_json_limits json;
  Ok (mkExtensionLimits entries total key json).

(** * Values *)

Inductive ExtensionValue :=
| Opaque (value : BoundedJson)
| SchemaBound (schema : SchemaReference) (value : BoundedJson).

Definition ext_value (self : ExtensionValue) : BoundedJson :=
  match self with Opaque value => value | SchemaBound _ value => value end.
Definition ext_schema (self : ExtensionValue) : option SchemaReference :=
  match self with Opaque _ => None | SchemaBound schema _ => Some schema end.
Definition is_opaque (self : ExtensionValue) : bool := match self with Opaque _ => true | _ => false end.
Definition into_parts (self : ExtensionValue) : option SchemaReference * BoundedJson := (ext_schema self, ext_value self).

Inductive ExtensionsError :=
| TooManyEntries (max observed : Z)
| DuplicateKey
| KeyTooLong (max actual : Z)
| ValueError (source : BoundedJsonError)
| TotalBytesExceeded (max actual : Z)
| InternalEncoding.

Record Extensions := mkExtensions { entries : list (ExtensionKey * ExtensionValue); compact_bytes_ : Z }.

#[global] Instance ExtensionValue_eq_dec : EqDecision ExtensionValue.
Proof. solve_decision. Defined.
#[global] Instance Extensions_eq_dec : EqDecision Extensions.
Proof. solve_decision. Defined.

Definition extensions_default : Extensions := mkExtensions [] 2.

Section Maps.
Variable float_text : Z -> bytes.
(** [serde_json::to_vec] of one extension value. *)
Variable encode : ExtensionValue -> option bytes.

Definition value_try_restrict (self : ExtensionValue) (limits : JsonLimits) : result BoundedJsonError ExtensionValue :=
  match self with
  | Opaque value => v ← try_from_value_with_limits float_text (bounded_value value) limits; Ok (Opaque v)
  | SchemaBound schema value => v ← try_from_value_with_limits float_text (bounded_value value) limits; Ok (SchemaBound schema v)
  end.

Definition insert_extension (limits : ExtensionLimits) (st : Extensions) (entry : ExtensionKey * ExtensionValue)
  : result ExtensionsError Extensions :=
  let '(key, value) := entry in
  let key_len := Z.of_nat (length (key_value key)) in
  if max_key_bytes limits <? key_len then Err (KeyTooLong (max_key_bytes limits) key_len) else
  if negb (is_none (bt_get key (entries st))) then Err DuplicateKey else
  if Z.of_nat (length (entries st)) =? max_entries limits then Err (TooManyEntries (max_entries limits) (max_entries limits + 1)) else
  value ← map_err ValueError (value_try_restrict value (value_json_limits limits));
  encoded ← ok_or (encode value) InternalEncoding;
  let separator_bytes := if (length (entries st) =? 0)%nat then 0 else 1 in
  let next_bytes :=
    saturating_add u64_max (saturating_add u64_max (saturating_add u64_max (saturating_add u64_max
      (compact_bytes_ st) separator_bytes) key_len) 3) (Z.of_nat (length encoded)) in
  if max_total_bytes limits <? next_bytes then Err (TotalBytesExceeded (max_total_bytes limits) next_bytes) else
  Ok (mkExtensions (bt_insert key value (entries st)) next_bytes).

Definition try_new_with_limits (l : list (ExtensionKey * ExtensionValue)) (limits : ExtensionLimits)
  : result ExtensionsError Extensions :=
  try_fold (insert_extension limits) extensions_default l.

Definition try_new (l : list (ExtensionKey * ExtensionValue)) : result ExtensionsError Extensions :=
  try_new_with_limits l HARD_MAXIMUM.

Definition try_restrict (self : Extensions) (limits : ExtensionLimits) : result ExtensionsError Extensions :=
  try_new_with_limits (entries self) limits.

(** [ExtensionsVisitor::visit_map] over the keys and values a deserializer
    yields; each may fail with an error of the deserializer. *)
Inductive VisitError (DE : Type) := SourceError (e : DE) | Custom (e : ExtensionsError).
#[global] Arguments SourceError {DE} e.
#[global] Arguments Custom {DE} e.

Fixpoint visit_map {DE} (st : Extensions) (source : list (result DE ExtensionKey * result DE ExtensionValue))
  : result (VisitError DE) Extensions :=
  if Z.of_nat (length (entries st)) <? max_entries HARD_MAXIMUM then
    match source with
    | [] => Ok st
    | (key, value) :: source' =>
        key ← map_err SourceError key;
        if negb (is_none (bt_get key (entries st))) then Err (Custom DuplicateKey) else
        value ← map_err SourceError value;
        st' ← map_err Custom (insert_extension HARD_MAXIMUM st (key, value));
        visit_map st' source'
    end
  else
    match source with
    | [] => Ok st
    | _ :: _ => Err (Custom (TooManyEntries (max_entries HARD_MAXIMUM) (max_entries HARD_MAXIMUM + 1)))
    end.

(** The compact JSON text of the map; keys hold no character JSON escapes. *)
Definition serialize_entry (kv : ExtensionKey * ExtensionValue) : bytes :=
  [34] ++ key_value kv.1 ++ [34; 58] ++ default [] (encode kv.2).

Definition serialize_map (self : Extensions) : bytes := [123] ++ join_with 44 (serialize_entry <$> entries self) ++ [125].

End Maps.
End Extension.

(** Laws of extension maps ([Extension.v]): what the bounded constructor
    accepts, its exact byte account, and its independence of entry order. *)

Module ExtensionMaps.
Import Text Content Extension.

(** * The byte account *)

Section Account.
Variable float_text : Z -> bytes.
Variable encode : ExtensionValue -> option bytes.
Variable limits : ExtensionLimits.
Abbreviation entry := (ExtensionKey * ExtensionValue)%type.

Definition entry_size (kv : entry) : Z := Z.of_nat (length (serialize_entry encode kv)).

(** The length of the compact text of a map with these entries. *)
Definition account (l : list entry) : Z := 2 + foldr (fun kv n => entry_size kv + n) 0 l + Z.of_nat (pred (length l)).

Lemma entry_size_eq k v enc :
  encode v = Some enc -> entry_size (k, v) = Z.of_nat (length (key_value k)) + 3 + Z.of_nat (length enc).
Proof. intros E. unfold entry_size, serialize_entry. rewrite !length_app. simpl. rewrite E. simpl. lia. Qed.

Lemma entry_size_nonneg kv : 0 <= entry_size kv.
Proof. unfold entry_size. lia. Qed.

Lemma sizes_nonneg l : 0 <= foldr (fun kv n => entry_size kv + n) 0 l.
Proof. induction l as [|kv l IH]; simpl; [done |]. pose proof (entry_size_nonneg kv). lia. Qed.

#[global] Instance account_perm : Proper ((≡ₚ) ==> (=)) account.
Proof.
  intros l1 l2 Hp. unfold account. rewrite (Permutation_length Hp). do 2 f_equal.
  induction Hp as [|x l1 l2 _ IH|x y l|l1 l2 l3 _ IH1 _ IH2]; simpl; lia.
Qed.

Lemma account_snoc l kv : account (l ++ [kv]) = account l + (if (length l =? 0)%nat then 0 else 1) + entry_size kv.
Proof.
  unfold account. rewrite foldr_app, length_app. simpl.
  assert (Hf : forall n l, foldr (fun kv n => entry_size kv + n) n l = foldr (fun kv n => entry_size kv + n) 0 l + n).
  { intros n l'. induction l' as [|x l' IH]; simpl; lia. }
  rewrite Hf. destruct (Nat.eqb_spec (length l) 0); lia.
Qed.

Lemma account_prefix l l' : account l <= account (l ++ l').
Proof.
  induction l' as [|kv l' IH] using rev_ind; [by rewrite app_nil_r |].
  rewrite app_assoc, account_snoc. pose proof (entry_size_nonneg kv). destruct (_ =? 0)%nat; lia.
Qed.

Lemma account_text x : account (entries x) = Z.of_nat (length (serialize_map encode x)).
Proof.
  unfold serialize_map. rewrite !length_app. simpl. unfold account.
  assert (Hj : forall l, foldr (fun kv n => entry_size kv + n) 0 l + Z.of_nat (pred (length l)) =
                         Z.of_nat (length (join_with 44 (serialize_entry encode <$> l)))).
  { induction l as [|kv l IH]; [done |]. destruct l as [|kv' l]; [cbn [foldr length pred fmap list_fmap join_with]; unfold entry_size; lia |].
    change (join_with 44 (serialize_entry encode <$> kv :: kv' :: l))
      with (serialize_entry encode kv ++ 44 :: join_with 44 (serialize_entry encode <$> kv' :: l)).
    rewrite length_app. cbn [length]. rewrite Nat2Z.inj_add, Nat2Z.inj_succ, <- IH. cbn [foldr length pred]. unfold entry_size at 1. lia. }
  rewrite <- Z.add_assoc, Hj. lia.
Qed.

Lemma ext_insert_perm (k : ExtensionKey) (v : ExtensionValue) m :
  ksorted fst m -> bt_get k m = None -> bt_insert k v m ≡ₚ m ++ [(k, v)].
Proof.
  intros Hs Hn. assert (Hk : forall v', (k, v') ∉ m).
  { intros v' Hin. by rewrite (proj2 (bt_get_elem k v' m Hs) Hin) in Hn. }
  assert (HN : NoDup m) by (eapply NoDup_fmap_1, (ksorted_keys_NoDup fst m Hs)).
  apply NoDup_Permutation.
  - eapply NoDup_fmap_1, (ksorted_keys_NoDup fst). by apply bt_insert_sorted.
  - apply NoDup_app. split_and!; [done | | apply NoDup_singleton]. intros x Hx ->%list_elem_of_singleton. by apply (Hk v).
  - intros [k' v']. rewrite bt_insert_elem, elem_of_app, list_elem_of_singleton by done. simpl. split; [tauto |].
    intros [Hx|Hx]; [right | by left]. split; [done |]. intros ->. by apply (Hk v').
Qed.

(** * What the constructor accepts *)

(** A stored entry: the key within its bound, the value restricted and encodable. *)
Definition stored_as (kv kv' : entry) : Prop :=
  kv'.1 = kv.1 /\ Z.of_nat (length (key_value kv.1)) <= max_key_bytes limits /\
  value_try_restrict float_text kv.2 (value_json_limits limits) = Ok kv'.2 /\ is_Some (encode kv'.2).

Definition map_wf (st : Extensions) : Prop :=
  ksorted fst (entries st) /\ compact_bytes_ st = account (entries st) /\
  Z.of_nat (length (entries st)) <= max_entries limits /\ account (entries st) <= max_total_bytes limits.

Context (Htotal : max_total_bytes limits < u64_max).

Lemma ext_insert_Ok st kv st' :
  map_wf st ->
  insert_extension float_text encode limits st kv = Ok st' <->
  exists kv', stored_as kv kv' /\ bt_get kv.1 (entries st) = None /\
    Z.of_nat (length (entries st)) + 1 <= max_entries limits /\
    account (entries st ++ [kv']) <= max_total_bytes limits /\
    st' = mkExtensions (bt_insert kv'.1 kv'.2 (entries st)) (account (entries st ++ [kv'])).
Proof.
  destruct kv as [k v]. intros (Hs & Hc & Hl & Ht). unfold insert_extension, stored_as. simpl.
  destruct (Z.ltb_spec (max_key_bytes limits) (Z.of_nat (length (key_value k)))); [split; [done | intros ([? ?] & (? & ? & _) & _); simpl in *; lia] |].
  destruct (bt_get k (entries st)); simpl; [split; [done | naive_solver] |].
  destruct (Z.eqb_spec (Z.of_nat (length (entries st))) (max_entries limits)) as [El|El]; [split; [done | intros (? & _ & _ & ? & _); lia] |].
  destruct (value_try_restrict float_text v (value_json_limits limits)) as [v'|e]; simpl; [| split; [done | naive_solver]].
  destruct (encode v') as [enc|] eqn:Ee; simpl; [| split; [done |]; intros ([? ?] & (_ & _ & [= <-] & [? ?]) & _); simpl in *; congruence].
  assert (Ha : account (entries st ++ [(k, v')]) =
    compact_bytes_ st + (if (length (entries st) =? 0)%nat then 0 else 1) + Z.of_nat (length (key_value k)) + 3 + Z.of_nat (length enc)).
  { rewrite account_snoc, (entry_size_eq _ _ _ Ee), Hc. lia. }
  assert (Hp : 0 <= account (entries st)) by (unfold account; pose proof (sizes_nonneg (entries st)); lia).
  set (next := saturating_add _ _ _).
  assert (Hn : next = account (entries st ++ [(k, v')]) \/ u64_max <= next /\ u64_max <= account (entries st ++ [(k, v')])).
  { rewrite Ha. subst next. unfold saturating_add. destruct (length (entries st) =? 0)%nat; lia. }
  destruct (Z.ltb_spec (max_total_bytes limits) next).
  - split; [done |]. intros ([k' v2] & (Hk & _ & [= <-] & _) & _ & _ & Hle & _). simpl in *. subst k'. lia.
  - destruct Hn as [Hn|]; [| lia]. split.
    + intros [= <-]. exists (k, v'). simpl. rewrite <- Hn. split_and!; eauto; lia.
    + intros ([k' v2] & (Hk & _ & [= <-] & _) & _ & _ & _ & ->). simpl in *. subst k'. by rewrite Hn.
Qed.

Lemma insert_wf st kv kv' :
  map_wf st -> stored_as kv kv' -> bt_get kv.1 (entries st) = None -> Z.of_nat (length (entries st)) + 1 <= max_entries limits ->
  account (entries st ++ [kv']) <= max_total_bytes limits ->
  map_wf (mkExtensions (bt_insert kv'.1 kv'.2 (entries st)) (account (entries st ++ [kv']))).
Proof.
  intros (Hs & Hc & Hl & Ht) (Hk & _) Hg Hn Ha. destruct kv' as [k' v']. simpl in *. subst k'. unfold map_wf. simpl.
  pose proof (ext_insert_perm _ v' _ Hs Hg) as Hp. rewrite (account_perm _ _ Hp), (Permutation_length Hp).
  split_and!; [by apply bt_insert_sorted | done | rewrite length_app; simpl; lia | done].
Qed.

Lemma insert_all_Ok l st x :
  map_wf st ->
  try_fold (insert_extension float_text encode limits) st l = Ok x <->
  exists l', Forall2 stored_as l l' /\ NoDup (l.*1) /\ (forall kv, kv ∈ l -> bt_get kv.1 (entries st) = None) /\
    Z.of_nat (length (entries st)) + Z.of_nat (length l) <= max_entries limits /\
    account (entries st ++ l') <= max_total_bytes limits /\
    x = mkExtensions (bt_extend (entries st) l') (account (entries st ++ l')).
Proof.
  revert st. induction l as [|kv l IH]; intros st Hwf; pose proof Hwf as (Hs & Hc & Hl & Ht).
  { simpl. split.
    - intros [= <-]. exists []. rewrite app_nil_r. split_and!; try done; [constructor | by intros ? ?%not_elem_of_nil | simpl; lia |].
      by rewrite <- Hc; destruct st.
    - intros (l' & ->%Forall2_nil_inv_l & _ & _ & _ & _ & ->). rewrite app_nil_r, <- Hc. by destruct st. }
  cbn [try_fold]. rewrite bind_Ok. split.
  - intros (st' & (kv' & Hkv & Hg & Hn & Ha & ->)%ext_insert_Ok & Hf); [| done].
    pose proof (insert_wf _ _ _ Hwf Hkv Hg Hn Ha) as Hwf'. destruct kv' as [k' v']. destruct Hkv as (Hk & Hkv). simpl in Hk. subst k'.
    pose proof (ext_insert_perm _ v' _ Hs Hg) as Hp. apply IH in Hf as (l' & HF & HN & Hfr & Hln & Hal & ->); [| done]. simpl in *.
    rewrite (Permutation_length Hp), length_app in Hln. simpl in Hln.
    assert (Hpa : bt_insert kv.1 v' (entries st) ++ l' ≡ₚ entries st ++ (kv.1, v') :: l') by (by rewrite Hp, <- app_assoc).
    rewrite (account_perm _ _ Hpa) in Hal |- *. setoid_rewrite bt_get_insert_None in Hfr; [| done].
    exists ((kv.1, v') :: l'). split_and!; [constructor; [by split | done] | | | lia | done | done].
    + constructor; [| done]. intros (q & E & Hin)%list_elem_of_fmap. by apply (proj1 (Hfr q Hin)).
    + intros q [->|Hin]%elem_of_cons; [done | by apply Hfr].
  - intros (l2 & HF & HN & Hfr & Hln & Hal & ->). inversion HF as [|? kv' ? l' Hkv HF']; subst. inversion HN as [|? ? Hni HN']; subst.
    assert (Hg : bt_get kv.1 (entries st) = None) by (apply Hfr; by left). simpl in Hln.
    assert (Ha : account (entries st ++ [kv']) <= max_total_bytes limits).
    { pose proof (account_prefix (entries st ++ [kv']) l') as Hpre. rewrite <- app_assoc in Hpre. simpl in Hpre. lia. }
    assert (Hn : Z.of_nat (length (entries st)) + 1 <= max_entries limits) by lia.
    pose proof (insert_wf _ _ _ Hwf Hkv Hg Hn Ha) as Hwf'. eexists. split; [apply ext_insert_Ok; eauto 10 |].
    destruct kv' as [k' v']. pose proof Hkv as (Hk & _). simpl in Hk. subst k'. pose proof (ext_insert_perm _ v' _ Hs Hg) as Hp.
    assert (Hpa : bt_insert kv.1 v' (entries st) ++ l' ≡ₚ entries st ++ (kv.1, v') :: l') by (by rewrite Hp, <- app_assoc).
    apply IH; [done |]. exists l'. simpl. rewrite (account_perm _ _ Hpa), (Permutation_length Hp), length_app. simpl.
    split_and!; [done | done | | lia | done | done].
    intros q Hin. apply bt_get_insert_None; [done |]. split; [| apply Hfr; by right].
    intros E. apply Hni. rewrite <- E. by apply list_elem_of_fmap_2.
Qed.

Lemma default_wf : 0 <= max_entries limits -> 2 <= max_total_bytes limits -> map_wf extensions_default.
Proof. intros H1 H2. unfold map_wf, account. simpl. split_and!; [constructor | done | done | lia]. Qed.

End Account.

Lemma limit_Ok limit actual minimum maximum u :
  validate_extension_limit limit actual minimum maximum = Ok u -> minimum <= actual <= maximum.
Proof.
  unfold validate_extension_limit. destruct (actual =? 0); [done |]. destruct (Z.ltb_spec actual minimum); [done |].
  destruct (Z.ltb_spec maximum actual); done.
Qed.

Lemma limits_Ok e t k j limits :
  extension_limits_try_new e t k j = Ok limits ->
  limits = mkExtensionLimits e t k j /\ 1 <= e <= 64 /\ 2 <= t <= 262144 /\ 1 <= k <= 512.
Proof.
  unfold extension_limits_try_new. intros H. open_guards H. apply limit_Ok in Hx, Hx0, Hx1.
  injection H as <-. simpl in *. unfold KEY_MAX_LEN in *. split_and!; done || lia.
Qed.

Lemma restrict_again float_text v v' lim :
  Forall (fun z => 0 <= z) [max_bytes lim; max_depth lim; max_container_entries lim; max_nodes lim] -> Bounded.limits_wf lim ->
  value_try_restrict float_text v lim = Ok v' -> value_try_restrict float_text v' lim = Ok v'.
Proof.
  intros Hp Hl. destruct v as [b|s b]; simpl; intros (j & Hj & [= <-])%bind_Ok; simpl;
    by rewrite (Bounded.bounded_again _ _ _ _ Hp Hl Hj).
Qed.

Lemma insert_length float_text encode limits st kv st' :
  insert_extension float_text encode limits st kv = Ok st' ->
  bt_get kv.1 (entries st) = None /\ Z.of_nat (length (entries st)) <> max_entries limits /\
  (length (entries st') <= S (length (entries st)))%nat.
Proof.
  destruct kv as [k v]. unfold insert_extension. simpl. destruct (_ <? _); [done |].
  destruct (bt_get k (entries st)); simpl; [done |]. destruct (Z.eqb_spec (Z.of_nat (length (entries st))) (max_entries limits)); [done |].
  intros Hi. open_guards Hi. injection Hi as <-. split_and!; auto. simpl. clear.
  induction (entries st) as [|[k' v'] m IHm]; simpl; [done |]. destruct (cmp k k'); simpl; lia.
Qed.

#[local] Arguments insert_extension : simpl never.

Lemma visit_agrees float_text encode (DE : Type) l st x :
  Z.of_nat (length (entries st)) <= 64 ->
  visit_map (DE := DE) float_text encode st ((fun kv => (Ok kv.1, Ok kv.2)) <$> l) = Ok x <->
  try_fold (insert_extension float_text encode HARD_MAXIMUM) st l = Ok x.
Proof.
  revert st. induction l as [|[k v] l IH]; intros st Hst; rewrite ?fmap_cons; cbn [visit_map try_fold list_fmap fmap].
  { destruct (_ <? _); split; by intros [= ->]. }
  assert (Hi : forall st', insert_extension float_text encode HARD_MAXIMUM st (k, v) = Ok st' ->
    bt_get k (entries st) = None /\ Z.of_nat (length (entries st)) < 64 /\ Z.of_nat (length (entries st')) <= 64).
  { intros st' (Hg & Hn & Hl)%insert_length. simpl in *. split_and!; [done | lia | lia]. }
  destruct (insert_extension float_text encode HARD_MAXIMUM st (k, v)) as [st'|e] eqn:Ei.
  - destruct (Hi st' eq_refl) as (Hg & Hn & Hl). destruct (Z.ltb_spec (Z.of_nat (length (entries st))) (max_entries HARD_MAXIMUM)); [| simpl in *; lia].
    simpl. rewrite Hg. simpl. rewrite Ei. simpl. by apply IH.
  - clear Hi. split; [| done]. destruct (_ <? _); [| done]. simpl.
    destruct (negb _); [done |]. by rewrite Ei.
Qed.

Lemma stored_again float_text encode limits kv kv' :
  Forall (fun z => 0 <= z) [max_bytes (value_json_limits limits); max_depth (value_json_limits limits);
    max_container_entries (value_json_limits limits); max_nodes (value_json_limits limits)] ->
  Bounded.limits_wf (value_json_limits limits) ->
  stored_as float_text encode limits kv kv' -> stored_as float_text encode limits kv' kv'.
Proof. intros Hp Hl (Hk & Hb & Hr & He). split_and!; [done | by rewrite Hk | by eapply restrict_again | done]. Qed.

(** Extension maps are exact.  Under validated limits the constructor accepts
    precisely the lists of distinct keys within the key bound and the entry
    bound whose values fit the value limits and whose compact JSON text fits
    the byte bound; the map holds the restricted values in key order and its
    byte count is the length of that text.  The order of the entries does not
    matter, rebuilding the map under the same limits gives it back, and under
    the hard limits a deserialized map is the constructed one. *)
Theorem extensions_exact (float_text : Z -> bytes) (encode : ExtensionValue -> option bytes) (e t k : Z) (j : JsonLimits)
    (limits : ExtensionLimits) (l : list (ExtensionKey * ExtensionValue)) (x : Extensions)
    (Hlimits : extension_limits_try_new e t k j = Ok limits) :
  (try_new_with_limits float_text encode l limits = Ok x <->
   exists l', Forall2 (stored_as float_text encode limits) l l' /\ NoDup (l.*1) /\ Z.of_nat (length l) <= max_entries limits /\
     account encode l' <= max_total_bytes limits /\ x = mkExtensions (bt_extend [] l') (account encode l')) /\
  (try_new_with_limits float_text encode l limits = Ok x ->
   compact_bytes_ x = Z.of_nat (length (serialize_map encode x)) /\ compact_bytes_ x <= max_total_bytes limits /\
   ksorted fst (entries x) /\
   (forall l2, l ≡ₚ l2 -> try_new_with_limits float_text encode l2 limits = Ok x) /\
   (Bounded.limits_wf j -> Forall (fun z => 0 <= z) [max_bytes j; max_depth j; max_container_entries j; max_nodes j] ->
    try_restrict float_text encode x limits = Ok x)) /\
  (visit_map (DE := unit) float_text encode extensions_default ((fun kv => (Ok kv.1, Ok kv.2)) <$> l) = Ok x <->
   try_new float_text encode l = Ok x).
Proof.
  apply limits_Ok in Hlimits as (-> & He & Ht & Hk). set (limits := mkExtensionLimits e t k j).
  assert (Hmain : forall l x, try_new_with_limits float_text encode l limits = Ok x <->
    exists l', Forall2 (stored_as float_text encode limits) l l' /\ NoDup (l.*1) /\ Z.of_nat (length l) <= max_entries limits /\
      account encode l' <= max_total_bytes limits /\ x = mkExtensions (bt_extend [] l') (account encode l')).
  { intros l0 x0. unfold try_new_with_limits. rewrite insert_all_Ok; [| unfold u64_max; simpl; lia | apply default_wf; simpl; lia].
    simpl. split; [intros (l' & ? & ? & _ & ?); eauto | intros (l' & ? & ? & ? & ?); exists l'; split_and!; naive_solver]. }
  split; [apply Hmain |]. split; [| apply (visit_agrees float_text encode unit); simpl; lia].
  intros (l' & HF & HN & Hl & Ha & ->)%Hmain.
  assert (HN' : NoDup (l'.*1)).
  { assert (l'.*1 = l.*1) as ->; [| done]. clear -HF. induction HF as [|kv kv' l l' (Hkv & _) _ IH]; [done |]. by rewrite !fmap_cons, Hkv, IH. }
  assert (Hp : bt_extend [] l' ≡ₚ l') by (by apply bt_extend_nil_perm).
  split_and!; [| done | apply bt_extend_sorted; constructor | |].
  - etrans; [| apply account_text]. symmetry. by apply account_perm.
  - intros l2 Hl2. apply Hmain. destruct (Permutation_Forall2 Hl2 HF) as (l2' & Hp2 & HF2). exists l2'.
    rewrite <- (Permutation_length Hl2). rewrite <- (account_perm encode _ _ Hp2), <- (bt_extend_perm _ _ HN' Hp2).
    split_and!; [done | by rewrite <- Hl2 | done..].
  - intros Hlw Hpos. apply Hmain. simpl. exists (bt_extend [] l'). rewrite (account_perm encode _ _ Hp).
    assert (HFl : Forall (fun kv => stored_as float_text encode limits kv kv) l').
    { clear -HF Hlw Hpos. induction HF as [|kv kv' l l' Hkv HF IH]; constructor; [| done]. by eapply stored_again. }
    split_and!; [| by rewrite Hp | rewrite (Permutation_length Hp), <- (Forall2_length _ _ _ HF); done | done |].
    + apply Forall_Forall2_diag. by rewrite Hp.
    + f_equal. symmetry. apply (bt_extend_perm _ _); [by rewrite Hp | done].
Qed.

Definition sample_key (s : bytes) : ExtensionKey := mkExtensionKey s ReverseDns.
Definition sample_value : ExtensionValue := Opaque (mkBoundedJson (Bool true) (mkJsonStats 4 0 1)).
Definition sample_encode (v : ExtensionValue) : option bytes := Some (bytes_of "{}").

Lemma extensions_exact_witness :
  exists x, try_new_with_limits (fun _ => []) sample_encode [(sample_key (bytes_of "org.b.x"), sample_value); (sample_key (bytes_of "org.a.x"), sample_value)]
      HARD_MAXIMUM = Ok x /\
    try_new_with_limits (fun _ => []) sample_encode [(sample_key (bytes_of "org.a.x"), sample_value); (sample_key (bytes_of "org.b.x"), sample_value)]
      HARD_MAXIMUM = Ok x /\ compact_bytes_ x = 27.
Proof.
  destruct (try_new_with_limits (fun _ => []) sample_encode [(sample_key (bytes_of "org.b.x"), sample_value); (sample_key (bytes_of "org.a.x"), sample_value)]
      HARD_MAXIMUM) as [x|] eqn:E; [| by vm_compute in E].
  exists x. split; [done |].
  destruct (extensions_exact (fun _ => []) sample_encode 64 262144 512 LIMITS_DEFAULT HARD_MAXIMUM
      [(sample_key (bytes_of "org.b.x"), sample_value); (sample_key (bytes_of "org.a.x"), sample_value)] x ltac:(vm_compute; reflexivity))
    as (_ & H & _). destruct (H E) as (_ & _ & _ & Hp & _). split; [apply Hp; constructor |].
  vm_compute in E. by injection E as <-.
Defined.

End ExtensionMaps.
