(* ===== verification/Accounting.v ===== *)
(** Exact, checked accounting values (crates/stateknot-core/src/accounting.rs):
    the [u64] counts generated by [define_count!], ISO 4217 currency codes and
    non-negative money in micro-units.  The three count types [TokenCount],
    [ByteCount] and [ExecutionCount] come from one macro and are one [Z] here;
    the range [is_u64] is the type invariant that every operation preserves. *)

From Stdlib Require Import ZArith Lia.
From stdpp Require Import prelude.
From S2P Require Import Prelude Ordered Decimal.

Open Scope Z_scope.

(** * Counts *)

Module Count.

Definition Count := Z.
Definition ZERO : Count := 0.
Definition MAX : Count := u64_max.

Definition checked_add (self other : Count) : option Count := Prelude.checked_add u64_max self other.
Definition checked_sub (self other : Count) : option Count := Prelude.checked_sub self other.
Definition checked_mul (self multiplier : Z) : option Count := Prelude.checked_mul u64_max self multiplier.

Inductive CountParseError :=
| InvalidFormat
| TooLong (max actual : Z)
| NonCanonical
| Overflow.

Definition from_decimal_error (error : Decimal.UnsignedDecimalError) : CountParseError :=
  match error with
  | Decimal.Empty | Decimal.InvalidCharacter _ => InvalidFormat
  | Decimal.TooLong max actual => TooLong max actual
  | Decimal.LeadingZero => NonCanonical
  | Decimal.Overflow => Overflow
  end.

Definition from_str (value : bytes) : result CountParseError Count :=
  map_err from_decimal_error (Decimal.parse_bounded_u64 value u64_max).

(** Every checked operation on two counts is exact or refuses: the result is
    the integer result and again a count, and [None] means the integer result
    is outside [u64]. *)
Lemma checked_ops_exact a b :
  is_u64 a -> is_u64 b ->
  match checked_add a b with Some c => c = a + b /\ is_u64 c | None => u64_max < a + b end /\
  match checked_sub a b with Some c => c = a - b /\ is_u64 c | None => a < b end /\
  match checked_mul a b with Some c => c = a * b /\ is_u64 c | None => u64_max < a * b end.
Proof.
  unfold checked_add, checked_sub, checked_mul, Prelude.checked_add, Prelude.checked_sub,
    Prelude.checked_mul, in_u. intros Ha Hb.
  repeat split; repeat match goal with |- context [?x <=? ?y] => destruct (Z.leb_spec x y) end; repeat split; nia.
Qed.

End Count.

(** * Currency codes *)

Module Currency.

(** [[u8; 3]]; arrays compare lexicographically, as [list_ord] does. *)
Definition CurrencyCode := bytes.
Definition LEN : nat := 3.

Inductive CurrencyCodeError :=
| InvalidLength (expected actual : Z)
| InvalidCharacter (index : Z).

Definition is_ascii_uppercase (b : Z) : bool := (65 <=? b) && (b <=? 90).

Definition new (bs : bytes) : result CurrencyCodeError CurrencyCode :=
  match position (fun b => negb (is_ascii_uppercase b)) bs with
  | Some index => Err (InvalidCharacter (Z.of_nat index))
  | None => Ok bs
  end.

Definition from_str (value : bytes) : result CurrencyCodeError CurrencyCode :=
  if negb (length value =? LEN)%nat
  then Err (InvalidLength (Z.of_nat LEN) (Z.of_nat (length value)))
  else new value.

(** [Display] writes the three bytes back. *)
Definition display (c : CurrencyCode) : bytes := c.

Definition wf (c : CurrencyCode) : Prop :=
  length c = LEN /\ Forall (fun b => 65 <= b <= 90) c.

Lemma from_str_iff s c : from_str s = Ok c <-> wf c /\ s = display c.
Proof.
  unfold from_str, new, display, wf. destruct (Nat.eqb_spec (length s) LEN) as [Hl|Hl]; simpl.
  - destruct (position _ s) as [i|] eqn:Hp.
    + split; [done |]. intros ((_ & HF) & ->).
      assert (position (fun b => negb (is_ascii_uppercase b)) c = None); [| congruence].
      apply position_None. eapply Forall_impl; [exact HF |]. intros b Hb.
      unfold is_ascii_uppercase. rewrite negb_false_iff, andb_true_iff, !Z.leb_le. simpl in Hb. lia.
    + apply position_None in Hp. split; [| by intros ((_ & _) & ->)].
      intros [= <-]. split; [split; [done |] | done]. eapply Forall_impl; [exact Hp |].
      intros b. unfold is_ascii_uppercase. rewrite negb_false_iff, andb_true_iff, !Z.leb_le. lia.
  - split; [done |]. intros ((? & _) & ->). done.
Qed.

End Currency.

(** * Money *)

Module Money.
Import Currency.

Record Money := mkMoney { currency : CurrencyCode; micro_units : Z }.

#[global] Instance Money_eq_dec : EqDecision Money.
Proof. solve_decision. Defined.

Inductive MoneyArithmeticError :=
| CurrencyMismatch (left right : CurrencyCode)
| Overflow
| Underflow.

Definition zero (c : CurrencyCode) : Money := mkMoney c 0.

Definition ensure_same_currency (self other : Money) : result MoneyArithmeticError unit :=
  if bool_decide (currency self = currency other) then Ok tt
  else Err (CurrencyMismatch (currency self) (currency other)).

Definition checked_add (self other : Money) : result MoneyArithmeticError Money :=
  _ ← ensure_same_currency self other;
  micro_units ← ok_or (Prelude.checked_add u64_max (micro_units self) (micro_units other)) Overflow;
  Ok (mkMoney (currency self) micro_units).

Definition checked_sub (self other : Money) : result MoneyArithmeticError Money :=
  _ ← ensure_same_currency self other;
  micro_units ← ok_or (Prelude.checked_sub (micro_units self) (micro_units other)) Underflow;
  Ok (mkMoney (currency self) micro_units).

Definition checked_mul (self : Money) (multiplier : Z) : result MoneyArithmeticError Money :=
  micro_units ← ok_or (Prelude.checked_mul u64_max (micro_units self) multiplier) Overflow;
  Ok (mkMoney (currency self) micro_units).

Definition wf (m : Money) : Prop := Currency.wf (currency m) /\ is_u64 (micro_units m).

Lemma ensure_same_currency_Ok a b u : ensure_same_currency a b = Ok u <-> currency a = currency b.
Proof. unfold ensure_same_currency. destruct u. case_bool_decide; naive_solver. Qed.

Lemma checked_add_iff a b c :
  checked_add a b = Ok c <->
  currency a = currency b /\ currency c = currency a /\
  micro_units c = micro_units a + micro_units b /\ micro_units a + micro_units b <= u64_max.
Proof.
  unfold checked_add. rewrite bind_Ok. setoid_rewrite ensure_same_currency_Ok.
  setoid_rewrite bind_Ok. setoid_rewrite ok_or_Ok. setoid_rewrite checked_add_Some.
  destruct a as [ca ma], b as [cb mb], c as [cc mc]; simpl. split.
  - intros (_ & -> & ? & [-> ?] & [= <- <-]). by split_and!.
  - intros (-> & -> & -> & ?). exists tt. split; [done |]. eexists. split; [split; [reflexivity | done] | done].
Qed.

Lemma checked_sub_iff a b c :
  checked_sub a b = Ok c <->
  currency a = currency b /\ currency c = currency a /\
  micro_units c = micro_units a - micro_units b /\ micro_units b <= micro_units a.
Proof.
  unfold checked_sub. rewrite bind_Ok. setoid_rewrite ensure_same_currency_Ok.
  setoid_rewrite bind_Ok. setoid_rewrite ok_or_Ok. setoid_rewrite checked_sub_Some.
  destruct a as [ca ma], b as [cb mb], c as [cc mc]; simpl. split.
  - intros (_ & -> & ? & [-> ?] & [= <- <-]). by split_and!.
  - intros (-> & -> & -> & ?). exists tt. split; [done |]. eexists. split; [split; [reflexivity | done] | done].
Qed.

(** Checked money: adding [b] to [a] and subtracting it again returns
    [a]; addition succeeds exactly for equal currencies whose sum fits in
    [u64], fails with the mismatch first and with overflow otherwise, and
    subtraction refuses to go negative. *)
Theorem money_add_sub_exact (a b : Money) :
  wf a -> wf b ->
  match checked_add a b with
  | Ok c => wf c /\ checked_sub c b = Ok a /\ checked_add b a = Ok c
  | Err (CurrencyMismatch l r) => l = currency a /\ r = currency b /\ l <> r
  | Err Overflow => currency a = currency b /\ u64_max < micro_units a + micro_units b
  | Err Underflow => False
  end /\
  (checked_sub a b = Err Underflow <-> currency a = currency b /\ micro_units a < micro_units b).
Proof.
  intros [Hca Ha] [Hcb Hb]. unfold in_u in *. split.
  - destruct (checked_add a b) as [c|e] eqn:E.
    + apply checked_add_iff in E as (Hc & Hcc & Hm & Hle). split; [| split].
      * split; [by rewrite Hcc | unfold in_u; lia].
      * apply checked_sub_iff. split; [congruence | split; [congruence | lia]].
      * apply checked_add_iff. split; [congruence | split; [congruence | lia]].
    + unfold checked_add, ensure_same_currency in E. case_bool_decide as Hc; simpl in E.
      * unfold Prelude.checked_add in E. destruct (Z.leb_spec (micro_units a + micro_units b) u64_max); simpl in E; [done |].
        injection E as <-. done.
      * injection E as <-. done.
  - unfold checked_sub, ensure_same_currency. case_bool_decide as Hc; simpl.
    + unfold Prelude.checked_sub. destruct (Z.leb_spec (micro_units b) (micro_units a)); simpl.
      * split; [done | intros [_ ?]; lia].
      * done.
    + split; [done | by intros [? _]].
Qed.

Lemma money_add_sub_exact_witness :
  wf (mkMoney (bytes_of "USD") 5) /\ wf (mkMoney (bytes_of "EUR") 3) /\
  match checked_add (mkMoney (bytes_of "USD") 5) (mkMoney (bytes_of "EUR") 3) with
  | Ok c => False
  | Err (CurrencyMismatch l r) => l = bytes_of "USD" /\ r = bytes_of "EUR"
  | _ => False
  end.
Proof.
  assert (Ha : wf (mkMoney (bytes_of "USD") 5)).
  { split; [split; [reflexivity | repeat constructor; simpl; lia] | unfold in_u, u64_max; simpl; lia]. }
  assert (Hb : wf (mkMoney (bytes_of "EUR") 3)).
  { split; [split; [reflexivity | repeat constructor; simpl; lia] | unfold in_u, u64_max; simpl; lia]. }
  pose proof (money_add_sub_exact (mkMoney (bytes_of "USD") 5) (mkMoney (bytes_of "EUR") 3) Ha Hb) as [H _].
  split; [exact Ha | split; [exact Hb |]]. vm_compute in H |- *. destruct H as (Hl & Hr & _).
  split; [exact Hl | exact Hr].
Defined.

End Money.
