(* ===== verification/Time.v ===== *)
(** Timestamps and durations (crates/stateknot-core/src/time.rs).

    A [Timestamp] is an [i64] count of microseconds bounded to the years
    0000..9999, a [DurationMillis] a non-negative [i64] count of
    milliseconds.  A [SystemTime] is a signed count of nanoseconds from the
    Unix epoch whose whole seconds fit in an [i64], as on the Unix targets of
    the program; a [Duration] is its whole seconds and sub-second nanoseconds.
    The calendar ([chrono]'s date construction) is code outside the
    repository and is the parameter [date_time_micros] of [from_str]. *)

From Stdlib Require Import ZArith Lia.
From stdpp Require Import prelude.
From S2P Require Import Prelude Decimal.

Open Scope Z_scope.

Module Timestamp.

Definition Timestamp := Z.
#[global] Instance Timestamp_eq_dec : EqDecision Timestamp := Z.eq_dec.
Definition MIN : Timestamp := -62167219200000000.
Definition MAX : Timestamp := 253402300799999999.

Inductive TimestampError :=
| InvalidLength (expected actual : Z)
| InvalidFormat
| InvalidValue
| OutOfRange
| SubmicrosecondPrecision
| SystemTimeOutOfRange.

Definition from_unix_micros (value : Z) : result TimestampError Timestamp :=
  if (value <? MIN) || (MAX <? value) then Err OutOfRange else Ok value.

Definition valid (t : Timestamp) : Prop := MIN <= t <= MAX.

(** [std::time::Duration] and [SystemTime]. *)
Record Duration := mkDuration { as_secs : Z; subsec_nanos : Z }.
Definition NANOS : Z := 1000000000.
Definition duration_of_nanos (n : Z) : Duration := mkDuration (n / NANOS) (n mod NANOS).
Definition nanos_of_duration (d : Duration) : Z := as_secs d * NANOS + subsec_nanos d.
Definition duration_from_micros (us : Z) : Duration := mkDuration (us / 1000000) (us mod 1000000 * 1000).
Definition SystemTime := Z.
Definition system_time_checked (n : Z) : option SystemTime :=
  if (i64_min <=? n / NANOS) && (n / NANOS <=? i64_max) then Some n else None.

Definition to_system_time (self : Timestamp) : result TimestampError SystemTime :=
  if 0 <=? self
  then ok_or (system_time_checked (nanos_of_duration (duration_from_micros (Z.abs self)))) SystemTimeOutOfRange
  else ok_or (system_time_checked (- nanos_of_duration (duration_from_micros (Z.abs self)))) SystemTimeOutOfRange.

Definition timestamp_from_duration (duration : Duration) (before_epoch : bool) : result TimestampError Timestamp :=
  if negb (subsec_nanos duration mod 1000 =? 0) then Err SubmicrosecondPrecision else
  let magnitude := as_secs duration * 1000000 + subsec_nanos duration / 1000 in
  let value := if before_epoch then - magnitude else magnitude in
  if negb ((i64_min <=? value) && (value <=? i64_max)) then Err OutOfRange else
  from_unix_micros value.

Definition try_from_system_time (value : SystemTime) : result TimestampError Timestamp :=
  if 0 <=? value
  then timestamp_from_duration (duration_of_nanos value) false
  else timestamp_from_duration (duration_of_nanos (- value)) true.

(** [parse_decimal(bytes, lo..hi)]: a fixed-width field. *)
Definition parse_decimal (bs : bytes) (lo hi : nat) : result TimestampError Z :=
  match try_fold (fun value byte => if Decimal.is_ascii_digit byte then Ok (value * 10 + (byte - 48)) else Err tt)
                 0 (take (hi - lo) (drop lo bs)) with
  | Ok v => Ok v
  | Err _ => Err InvalidFormat
  end.

Definition TIMESTAMP_LEN : nat := 27.
Definition byte_at (bs : bytes) (i : nat) : Z := bs !!! i.

Section Text.
(** year, month, day, hour, minute, second, microsecond to Unix
    microseconds, or [None] for a date or a time that does not exist. *)
Variable date_time_micros : Z -> Z -> Z -> Z -> Z -> Z -> Z -> option Z.

Definition from_str (value : bytes) : result TimestampError Timestamp :=
  if negb (length value =? TIMESTAMP_LEN)%nat
  then Err (InvalidLength (Z.of_nat TIMESTAMP_LEN) (Z.of_nat (length value))) else
  if negb (byte_at value 4 =? 45) || negb (byte_at value 7 =? 45) || negb (byte_at value 10 =? 84)
     || negb (byte_at value 13 =? 58) || negb (byte_at value 16 =? 58) || negb (byte_at value 19 =? 46)
     || negb (byte_at value 26 =? 90)
  then Err InvalidFormat else
  year ← parse_decimal value 0 4;
  month ← parse_decimal value 5 7;
  day ← parse_decimal value 8 10;
  hour ← parse_decimal value 11 13;
  minute ← parse_decimal value 14 16;
  second ← parse_decimal value 17 19;
  microsecond ← parse_decimal value 20 26;
  unix_micros ← ok_or (date_time_micros year month day hour minute second microsecond) InvalidValue;
  from_unix_micros unix_micros.
End Text.

Lemma from_unix_micros_iff v t : from_unix_micros v = Ok t <-> t = v /\ valid v.
Proof.
  unfold from_unix_micros, valid. destruct (Z.ltb_spec v MIN), (Z.ltb_spec MAX v); simpl;
    (split; [by intros [=] || intros [= ->] | intros [-> ?]]); try lia; done.
Qed.

Lemma from_unix_micros_valid v t : from_unix_micros v = Ok t -> valid t.
Proof. intros [-> ?]%from_unix_micros_iff. done. Qed.
#[local] Hint Resolve from_unix_micros_valid : sk.

Lemma parse_decimal_bound bs lo hi v :
  parse_decimal bs lo hi = Ok v -> 0 <= v < 10 ^ Z.of_nat (hi - lo).
Proof.
  unfold parse_decimal. destruct (try_fold _ _ _) as [w|] eqn:E; [| done]. intros [= <-].
  assert (Hgen : forall l a w, 0 <= a ->
    try_fold (fun value byte => if Decimal.is_ascii_digit byte then Ok (value * 10 + (byte - 48)) else Err tt) a l = Ok w ->
    a * 10 ^ Z.of_nat (length l) <= w < (a + 1) * 10 ^ Z.of_nat (length l)).
  { clear. induction l as [|b l IH]; intros a w Ha; cbn [try_fold length].
    - intros [= <-]. simpl. lia.
    - destruct (Decimal.is_ascii_digit b) eqn:Hb; simpl; [| done]. intros Hf.
      apply Decimal.is_ascii_digit_spec in Hb. unfold Decimal.is_digit in Hb.
      apply IH in Hf; [| lia]. replace (Z.of_nat (S (length l))) with (Z.succ (Z.of_nat (length l))) by lia.
      rewrite Z.pow_succ_r by lia. pose proof (Z.pow_pos_nonneg 10 (Z.of_nat (length l))). nia. }
  apply Hgen in E; [| lia]. rewrite length_take in E.
  assert (10 ^ Z.of_nat (Nat.min (hi - lo) (length (drop lo bs))) <= 10 ^ Z.of_nat (hi - lo)); [| lia].
  apply Z.pow_le_mono_r; lia.
Qed.

(** Whatever the calendar answers, an accepted text denotes a timestamp in
    the supported range. *)
Lemma from_str_valid cal s t : from_str cal s = Ok t -> valid t.
Proof. unfold from_str. intros. simp_ok. eauto with sk. Qed.

Lemma nanos_mod_1000 n : n mod NANOS mod 1000 = n mod 1000.
Proof.
  unfold NANOS. change 1000000000 with (1000 * 1000000).
  rewrite Z.rem_mul_r, Z.mul_comm, Z.mod_add by lia. by rewrite Z.mod_mod by lia.
Qed.

Lemma nanos_magnitude n : n / NANOS * 1000000 + n mod NANOS / 1000 = n / 1000.
Proof.
  unfold NANOS. pose proof (Z.div_mod n 1000000000 ltac:(lia)).
  replace n with (n mod 1000000000 + (n / 1000000000 * 1000000) * 1000) at 3 by lia.
  rewrite Z.div_add by lia. lia.
Qed.

(** A non-negative distance from the epoch converts exactly when it is a
    whole number of microseconds whose signed count is in range. *)
Lemma timestamp_from_duration_iff n (before_epoch : bool) u :
  0 <= n ->
  timestamp_from_duration (duration_of_nanos n) before_epoch = Ok u <->
  n = (if before_epoch then - u else u) * 1000 /\ valid u.
Proof.
  intros Hn. unfold timestamp_from_duration, duration_of_nanos, i64_min, i64_max. simpl.
  rewrite nanos_mod_1000, nanos_magnitude.
  pose proof (Z.div_mod n 1000 ltac:(lia)). pose proof (Z.mod_pos_bound n 1000 ltac:(lia)).
  destruct (Z.eqb_spec (n mod 1000) 0) as [Em|Em]; simpl.
  - destruct before_epoch; simpl;
    match goal with |- context [(?a <=? ?v) && (?w <=? ?b)] => destruct (Z.leb_spec a v), (Z.leb_spec w b) end; simpl;
      rewrite ?from_unix_micros_iff; unfold valid, MIN, MAX; (split; [try done | intros [? ?]]); try lia; intuition lia.
  - split; [done |]. intros [E _]. destruct Em. rewrite E. apply Z.mod_mul. lia.
Qed.

Lemma try_from_system_time_iff st u :
  try_from_system_time st = Ok u <-> st = u * 1000 /\ valid u.
Proof.
  unfold try_from_system_time. destruct (Z.leb_spec 0 st);
    rewrite timestamp_from_duration_iff by lia; intuition lia.
Qed.

Lemma to_system_time_total t : valid t -> to_system_time t = Ok (t * 1000).
Proof.
  intros Ht.
  assert (Hn : nanos_of_duration (duration_from_micros (Z.abs t)) = Z.abs t * 1000).
  { unfold nanos_of_duration, duration_from_micros, NANOS. simpl.
    pose proof (Z.div_mod (Z.abs t) 1000000 ltac:(lia)). lia. }
  assert (Hc : system_time_checked (t * 1000) = Some (t * 1000)).
  { unfold system_time_checked, valid, MIN, MAX, i64_min, i64_max, NANOS in *.
    pose proof (Z.div_mod (t * 1000) 1000000000 ltac:(lia)). pose proof (Z.mod_pos_bound (t * 1000) 1000000000 ltac:(lia)).
    rewrite (proj2 (Z.leb_le _ _)), (proj2 (Z.leb_le _ _)) by lia. done. }
  unfold to_system_time. rewrite Hn. destruct (Z.leb_spec 0 t).
  - replace (Z.abs t * 1000) with (t * 1000) by lia. by rewrite Hc.
  - replace (- (Z.abs t * 1000)) with (t * 1000) by lia. by rewrite Hc.
Qed.

(** Clock conversion: every valid timestamp converts to a system time,
    and converting that system time back returns the same timestamp; a system
    time is accepted exactly when it is a whole number of microseconds inside
    the supported range. *)
Theorem timestamp_system_time_roundtrip (t : Timestamp) :
  valid t ->
  (exists st, to_system_time t = Ok st /\ st = t * 1000 /\ try_from_system_time st = Ok t) /\
  (forall st u, try_from_system_time st = Ok u <-> st = u * 1000 /\ valid u).
Proof.
  intros Ht. split; [| apply try_from_system_time_iff].
  exists (t * 1000). split_and!; [by apply to_system_time_total | done |].
  by apply try_from_system_time_iff.
Qed.

Lemma timestamp_system_time_roundtrip_witness :
  valid (-1) /\ exists st, to_system_time (-1) = Ok st /\ st = -1 * 1000 /\ try_from_system_time st = Ok (-1).
Proof.
  assert (H : valid (-1)) by (unfold valid, MIN, MAX; lia).
  split; [exact H |]. exact (proj1 (timestamp_system_time_roundtrip (-1) H)).
Defined.

End Timestamp.

(** * [DurationMillis] *)

Module DurationMillis.

Definition DurationMillis := Z.

Inductive DurationMillisError :=
| Negative (milliseconds : Z)
| InvalidFormat
| NonCanonical
| TooLarge
| SubmillisecondPrecision.

Definition new (milliseconds : Z) : result DurationMillisError DurationMillis :=
  if milliseconds <? 0 then Err (Negative milliseconds) else Ok milliseconds.

(** [i64::checked_add] and [i64::checked_sub]. *)
Definition i64_checked (z : Z) : option Z :=
  if (i64_min <=? z) && (z <=? i64_max) then Some z else None.

Definition checked_add (self other : DurationMillis) : option DurationMillis := i64_checked (self + other).

Definition checked_sub (self other : DurationMillis) : option DurationMillis :=
  match i64_checked (self - other) with
  | Some value => if 0 <=? value then Some value else None
  | None => None
  end.

Definition from_decimal_error (error : Decimal.UnsignedDecimalError) : DurationMillisError :=
  match error with
  | Decimal.Empty | Decimal.InvalidCharacter _ => InvalidFormat
  | Decimal.LeadingZero => NonCanonical
  | Decimal.TooLong _ _ | Decimal.Overflow => TooLarge
  end.

Definition from_str (value : bytes) : result DurationMillisError DurationMillis :=
  parsed ← map_err from_decimal_error (Decimal.parse_bounded_u64 value i64_max);
  ok_or (i64_checked parsed) TooLarge.

Definition try_from_u64 (value : Z) : result DurationMillisError DurationMillis :=
  ok_or (i64_checked value) TooLarge.

(** [TryFrom<Duration>]: [as_millis] of whole milliseconds only. *)
Definition try_from_duration (value : Timestamp.Duration) : result DurationMillisError DurationMillis :=
  if negb (Timestamp.subsec_nanos value mod 1000000 =? 0) then Err SubmillisecondPrecision else
  ok_or (i64_checked (Timestamp.as_secs value * 1000 + Timestamp.subsec_nanos value / 1000000)) TooLarge.

(** [From<DurationMillis> for Duration]: [Duration::from_millis]. *)
Definition into_duration (value : DurationMillis) : Timestamp.Duration :=
  Timestamp.mkDuration (value / 1000) (value mod 1000 * 1000000).

Definition valid (d : DurationMillis) : Prop := 0 <= d <= i64_max.

Lemma i64_checked_Some z v : i64_checked z = Some v <-> v = z /\ i64_min <= z <= i64_max.
Proof.
  unfold i64_checked. destruct (Z.leb_spec i64_min z), (Z.leb_spec z i64_max); simpl;
    (split; [by intros [=] || intros [= ->] | intros [-> ?]]); try lia; done.
Qed.

(** Durations stay non-negative [i64] values: each arithmetic operation on
    two valid durations is exact or refuses, the text codec accepts exactly
    the canonical texts of valid durations, and the conversion to a standard
    [Duration] and back is the identity. *)
Theorem duration_millis_closed (a b : DurationMillis) :
  valid a -> valid b ->
  (forall c, checked_add a b = Some c <-> c = a + b /\ valid c) /\
  (forall c, checked_sub a b = Some c <-> c = a - b /\ valid c) /\
  from_str (Decimal.display_u64 a) = Ok a /\
  (forall s c, from_str s = Ok c -> valid c /\ s = Decimal.display_u64 c) /\
  try_from_duration (into_duration a) = Ok a.
Proof.
  unfold valid. intros Ha Hb. split_and!.
  - intros c. unfold checked_add. rewrite i64_checked_Some. unfold i64_min in *. intuition lia.
  - intros c. unfold checked_sub. destruct (i64_checked (a - b)) as [v|] eqn:E.
    + apply i64_checked_Some in E as [-> ?]. destruct (Z.leb_spec 0 (a - b)).
      * split; [intros [= <-] | intros [-> ?]]; intuition lia.
      * split; [done | intros [-> ?]; lia].
    + split; [done |]. intros [-> ?].
      assert (i64_checked (a - b) = Some (a - b)); [| congruence]. apply i64_checked_Some. unfold i64_min. lia.
  - unfold from_str. rewrite (proj2 (Decimal.parse_bounded_u64_canonical _ i64_max a ltac:(unfold i64_max, u64_max; lia))) by done.
    simpl. by rewrite (proj2 (i64_checked_Some a a)) by (unfold i64_min; lia).
  - intros s c H. unfold from_str in H. simp_ok. apply i64_checked_Some in H0 as [-> _].
    apply Decimal.parse_bounded_u64_canonical in H; [done | unfold i64_max, u64_max; lia].
  - unfold try_from_duration, into_duration. simpl.
    rewrite Z.mod_mul, Z.div_mul by lia. simpl. pose proof (Z.div_mod a 1000 ltac:(lia)).
    replace (a / 1000 * 1000 + a mod 1000) with a by lia.
    by rewrite (proj2 (i64_checked_Some a a)) by (unfold i64_min; lia).
Qed.

Lemma duration_millis_closed_witness :
  valid 25 /\ valid 1000 /\ from_str (Decimal.display_u64 25) = Ok 25 /\
  (forall c, checked_sub 25 1000 = Some c <-> c = 25 - 1000 /\ valid c).
Proof.
  assert (H1 : valid 25) by (unfold valid, i64_max; lia).
  assert (H2 : valid 1000) by (unfold valid, i64_max; lia).
  destruct (duration_millis_closed 25 1000 H1 H2) as (_ & Hs & Hp & _).
  split; [exact H1 | split; [exact H2 | split; [exact Hp | exact Hs]]].
Defined.

End DurationMillis.
