(* ===== verification/Capability.v ===== *)
(** Capability metadata (crates/stateknot-core/src/capability.rs) and artifact
    references (crates/stateknot-core/src/artifact.rs).

    The validated text fields are the texts and byte strings of [Content.v];
    SHA-256 is a parameter of the artifact representation. *)

From Stdlib Require Import ZArith Lia List.
From stdpp Require Import prelude sorting.
From S2P Require Import Prelude Ordered Json Ids Decimal Digests Scope BoundedJson Accounting Time Content Extension.

Open Scope Z_scope.
Import Timestamp(Timestamp).
Import Version(Version).

Module Capability.
Import Text Content.

(** * Names and identities *)

Definition CapabilityName := bytes.
Definition NAME_MAX_LEN : Z := 128.

Inductive CapabilityNameError := CapNameEmpty | CapNameTooLong (max actual : Z) | CapNameInvalidByte (index : nat).

Definition capability_name_byte (b : Z) : bool := is_ascii_alphanumeric b || (b =? 95) || (b =? 45) || (b =? 46).

Definition validate_capability_name (value : bytes) : result CapabilityNameError unit :=
  if (length value =? 0)%nat then Err CapNameEmpty else
  if NAME_MAX_LEN <? Z.of_nat (length value) then Err (CapNameTooLong NAME_MAX_LEN (Z.of_nat (length value))) else
  match first_invalid capability_name_byte value with
  | Some index => Err (CapNameInvalidByte index)
  | None => Ok tt
  end.

Definition capability_name_new (value : bytes) : result CapabilityNameError CapabilityName :=
  _ ← validate_capability_name value; Ok value.

Record CapabilityReference := mkReference { name : CapabilityName; version : Version }.
#[global] Instance CapabilityReference_eq_dec : EqDecision CapabilityReference.
Proof. solve_decision. Defined.

Record CapabilityIdentity := mkIdentity { owner : PrincipalIdentity; capability : CapabilityReference }.
#[global] Instance CapabilityIdentity_eq_dec : EqDecision CapabilityIdentity.
Proof. solve_decision. Defined.

Inductive CapabilityKind := KModel | KTool | KAgent | KWorkflow | KApplication.
#[global] Instance CapabilityKind_eq_dec : EqDecision CapabilityKind.
Proof. solve_decision. Defined.

(** * Lifecycle *)

Definition CapabilityTitle := text.
Definition CapabilityDescription := text.

Inductive CapabilityLifecycleState := Active_ | Deprecated_ | Retired_.

Inductive CapabilityLifecycle :=
| Active
| Deprecated (announced_at : Timestamp) (sunset_at : option Timestamp) (notice : CapabilityDescription)
    (replacement : option CapabilityIdentity)
| Retired (retired_at : Timestamp) (notice : CapabilityDescription) (replacement : option CapabilityIdentity).

#[global] Instance CapabilityLifecycle_eq_dec : EqDecision CapabilityLifecycle.
Proof. solve_decision. Defined.

Inductive CapabilityLifecycleError := InvalidSunsetOrder (announced_at sunset_at : Timestamp).

Definition deprecated (announced : Timestamp) (sunset : option Timestamp) (notice : CapabilityDescription)
    (replacement : option CapabilityIdentity) : result CapabilityLifecycleError CapabilityLifecycle :=
  match sunset with
  | Some at_ => if at_ <=? announced then Err (InvalidSunsetOrder announced at_)
                else Ok (Deprecated announced sunset notice replacement)
  | None => Ok (Deprecated announced sunset notice replacement)
  end.

Definition retired (at_ : Timestamp) (notice : CapabilityDescription) (replacement : option CapabilityIdentity)
  : CapabilityLifecycle := Retired at_ notice replacement.

Definition lifecycle_state (self : CapabilityLifecycle) : CapabilityLifecycleState :=
  match self with Active => Active_ | Deprecated _ _ _ _ => Deprecated_ | Retired _ _ _ => Retired_ end.
Definition announced_at (self : CapabilityLifecycle) : option Timestamp :=
  match self with Deprecated at_ _ _ _ => Some at_ | _ => None end.
Definition sunset_at (self : CapabilityLifecycle) : option Timestamp :=
  match self with Deprecated _ at_ _ _ => at_ | _ => None end.
Definition retired_at (self : CapabilityLifecycle) : option Timestamp :=
  match self with Retired at_ _ _ => Some at_ | _ => None end.
Definition notice (self : CapabilityLifecycle) : option CapabilityDescription :=
  match self with Deprecated _ _ n _ => Some n | Retired _ n _ => Some n | Active => None end.
Definition replacement (self : CapabilityLifecycle) : option CapabilityIdentity :=
  match self with Deprecated _ _ _ r => r | Retired _ _ r => r | Active => None end.

(** * Metadata *)

Inductive CapabilityMetadataError := ReplacementIsSelf.

Record CapabilityMetadata := mkMetadata {
  identity : CapabilityIdentity;
  kind : CapabilityKind;
  title : option CapabilityTitle;
  description : CapabilityDescription;
  lifecycle : CapabilityLifecycle;
  required_scopes : Scope.ScopeSet;
  extensions : Extension.Extensions
}.

#[global] Instance CapabilityMetadata_eq_dec : EqDecision CapabilityMetadata.
Proof. solve_decision. Defined.

Definition metadata_new (id : CapabilityIdentity) (k : CapabilityKind) (t : option CapabilityTitle) (d : CapabilityDescription)
    (life : CapabilityLifecycle) (scopes : Scope.ScopeSet) (ext : Extension.Extensions) : result CapabilityMetadataError CapabilityMetadata :=
  if bool_decide (replacement life = Some id) then Err ReplacementIsSelf else Ok (mkMetadata id k t d life scopes ext).

End Capability.

(** * Artifact references *)

Module Artifact.
Import Text Content Capability.

Inductive ArtifactModality := MText | MImage | MAudio | MVideo | MDocument | MStructuredData | MArchive | MBinary.
#[global] Instance ArtifactModality_eq_dec : EqDecision ArtifactModality.
Proof. solve_decision. Defined.

Record ArtifactIdentity := mkArtifactIdentity { tenant_id : bytes; artifact_id : Z }.
#[global] Instance ArtifactIdentity_eq_dec : EqDecision ArtifactIdentity.
Proof. solve_decision. Defined.

Record ArtifactPresentation := mkPresentation { art_name : text; art_description : option text }.
#[global] Instance ArtifactPresentation_eq_dec : EqDecision ArtifactPresentation.
Proof. solve_decision. Defined.

Record ArtifactRepresentation := mkRepresentation {
  media_type : MediaType;
  modality : ArtifactModality;
  byte_length : Count.Count;
  representation_digest : Digest;
  representation_schema : option SchemaReference
}.
#[global] Instance ArtifactRepresentation_eq_dec : EqDecision ArtifactRepresentation.
Proof. solve_decision. Defined.

Inductive ArtifactRepresentationError := EmptyDigestMismatch | SchemaRequiresStructuredData.

Definition representation_new (sha256 : bytes -> Digest) (media : MediaType) (m : ArtifactModality) (len : Count.Count)
    (d : Digest) (s : option SchemaReference) : result ArtifactRepresentationError ArtifactRepresentation :=
  if (len =? 0) && negb (bool_decide (d = sha256 [])) then Err EmptyDigestMismatch else
  if negb (is_none s) && negb (bool_decide (m = MStructuredData)) then Err SchemaRequiresStructuredData else
  Ok (mkRepresentation media m len d s).

Record ArtifactProvenance := mkArtifactProvenance {
  principal : PrincipalIdentity;
  producer : option CapabilityReference;
  run_id : Z;
  event_id : Z
}.
#[global] Instance ArtifactProvenance_eq_dec : EqDecision ArtifactProvenance.
Proof. solve_decision. Defined.

(** ** Direct parents *)

Definition ArtifactParents := list Z.
Definition PARENTS_MAX_LEN : Z := 32.

Inductive ArtifactParentsError := ParentsTooMany (max actual : Z) | ParentsDuplicate.

Definition parents_push (parents : list Z) (parent : Z) : result ArtifactParentsError (list Z) :=
  if Z.of_nat (length parents) =? PARENTS_MAX_LEN then Err (ParentsTooMany PARENTS_MAX_LEN (PARENTS_MAX_LEN + 1)) else
  Ok (parents ++ [parent]).

(** [parents.windows(2).any(|pair| pair[0] == pair[1])]. *)
Fixpoint adjacent_equal (l : list Z) : bool :=
  match l with
  | a :: ((b :: _) as l') => (a =? b) || adjacent_equal l'
  | _ => false
  end.

Definition sort_parents (l : list Z) : list Z := sort_by_key (fun p : Z => p) l.

Definition parents_new (values : list Z) : result ArtifactParentsError ArtifactParents :=
  parents ← try_fold parents_push [] values;
  let sorted := sort_parents parents in
  if adjacent_equal sorted then Err ParentsDuplicate else Ok sorted.

(** [ArtifactParentsVisitor::visit_seq] over decoded identifiers. *)
Definition parents_visit_step (parents : list Z) (parent : Z) : result ArtifactParentsError (list Z) :=
  if existsb (Z.eqb parent) parents then Err ParentsDuplicate else
  if Z.of_nat (length parents) =? PARENTS_MAX_LEN then Err (ParentsTooMany PARENTS_MAX_LEN (PARENTS_MAX_LEN + 1)) else
  Ok (parents ++ [parent]).

Definition parents_visit (values : list Z) : result ArtifactParentsError ArtifactParents :=
  parents ← try_fold parents_visit_step [] values; Ok (sort_parents parents).

Definition parents_contain (self : ArtifactParents) (id : Z) : bool :=
  match binary_search (fun p : Z => p) id self with Some _ => true | None => false end.

(** ** References *)

Inductive ArtifactRefError := InvalidContentSource (actual : ContentSource) | SelfParent.

Record ArtifactRef := mkArtifactRef {
  identity : ArtifactIdentity;
  presentation : ArtifactPresentation;
  representation : ArtifactRepresentation;
  art_metadata : ContentMetadata;
  retention_class : RetentionClass;
  provenance : ArtifactProvenance;
  parents : ArtifactParents
}.
#[global] Instance ArtifactRef_eq_dec : EqDecision ArtifactRef.
Proof. solve_decision. Defined.

Definition artifact_ref_new (id : ArtifactIdentity) (pres : ArtifactPresentation) (rep : ArtifactRepresentation)
    (meta : ContentMetadata) (retention : RetentionClass) (prov : ArtifactProvenance) (ps : ArtifactParents)
  : result ArtifactRefError ArtifactRef :=
  if negb (bool_decide (source meta = SArtifact)) then Err (InvalidContentSource (source meta)) else
  if parents_contain ps (artifact_id id) then Err SelfParent else
  Ok (mkArtifactRef id pres rep meta retention prov ps).

Record JsonContent := mkJsonContent { json_value : BoundedJson; json_schema : option SchemaReference; json_metadata : ContentMetadata }.

Inductive ContentPart := PText (content : TextContent) | PJson (content : JsonContent) | PArtifact (artifact : ArtifactRef).

Definition part_metadata (self : ContentPart) : ContentMetadata :=
  match self with PText c => text_metadata c | PJson c => json_metadata c | PArtifact a => art_metadata a end.

Definition inline_payload_bytes (self : ContentPart) : Z :=
  match self with
  | PText c => len (content_text c)
  | PJson c => compact_bytes (stats (json_value c))
  | PArtifact _ => 0
  end.

(** ** Laws *)

Lemma adjacent_equal_spec l : ksorted (fun p : Z => p) l -> adjacent_equal l = false.
Proof.
  induction 1 as [|x l HF Hs IH]; [done |]. destruct l as [|y l]; [done |]. cbn [adjacent_equal] in *. rewrite IH, orb_false_r.
  inversion HF; subst. apply Z.eqb_neq. by apply cmp_lt_ne.
Qed.

Lemma parents_push_all values acc out :
  Z.of_nat (length acc) <= 32 ->
  try_fold parents_push acc values = Ok out <-> Z.of_nat (length (acc ++ values)) <= 32 /\ out = acc ++ values.
Proof.
  revert acc. induction values as [|v values IH]; intros acc Hacc; simpl.
  { rewrite app_nil_r. split; [intros [= <-]; done | by intros [_ ->]]. }
  assert (parents_push acc v = if Z.of_nat (length acc) =? PARENTS_MAX_LEN then Err (ParentsTooMany 32 33) else Ok (acc ++ [v])) as -> by done.
  destruct (Z.eqb_spec (Z.of_nat (length acc)) PARENTS_MAX_LEN) as [E|E]; simpl.
  - split; [done |]. rewrite length_app. simpl. unfold PARENTS_MAX_LEN in E. intros [? _]. lia.
  - unfold PARENTS_MAX_LEN in E. rewrite IH by (rewrite length_app; simpl; lia). by rewrite <- app_assoc.
Qed.

Lemma parents_visit_all values acc out :
  Z.of_nat (length acc) <= 32 -> NoDup acc ->
  try_fold parents_visit_step acc values = Ok out <->
  Z.of_nat (length (acc ++ values)) <= 32 /\ NoDup (acc ++ values) /\ out = acc ++ values.
Proof.
  revert acc. induction values as [|v values IH]; intros acc Hacc HN; simpl.
  { rewrite app_nil_r. split; [intros [= <-]; done | by intros (_ & _ & ->)]. }
  assert (parents_visit_step acc v = if existsb (Z.eqb v) acc then Err ParentsDuplicate else
    if Z.of_nat (length acc) =? PARENTS_MAX_LEN then Err (ParentsTooMany 32 33) else Ok (acc ++ [v])) as -> by done.
  destruct (existsb (Z.eqb v) acc) eqn:Ev; simpl.
  - split; [done |]. intros (_ & H & _). exfalso. apply existsb_exists in Ev as (w & Hw & ->%Z.eqb_eq).
    apply NoDup_app in H as (_ & H & _). apply (H w); [by apply list_elem_of_In | by left].
  - assert (Hv : v ∉ acc).
    { intros Hin%list_elem_of_In. assert (existsb (Z.eqb v) acc = true); [| congruence].
      apply existsb_exists. exists v. by rewrite Z.eqb_refl. }
    destruct (Z.eqb_spec (Z.of_nat (length acc)) PARENTS_MAX_LEN) as [E|E]; simpl.
    + split; [done |]. rewrite length_app. simpl. unfold PARENTS_MAX_LEN in E. intros [? _]. lia.
    + unfold PARENTS_MAX_LEN in E. rewrite IH.
      * by rewrite <- app_assoc.
      * rewrite length_app. simpl. lia.
      * apply NoDup_app. split_and!; [done | | apply NoDup_singleton]. by intros x Hx ->%list_elem_of_singleton.
Qed.

Lemma sort_parents_sorted l : NoDup l -> ksorted (fun p : Z => p) (sort_parents l).
Proof. intros HN. apply sort_by_key_ksorted. by rewrite list_fmap_id. Qed.

Lemma sorted_adjacent l : adjacent_equal (sort_parents l) = false <-> NoDup l.
Proof.
  split; [| intros HN; by apply adjacent_equal_spec, sort_parents_sorted].
  intros Ha. rewrite <- (sort_by_key_perm (fun p : Z => p) l : sort_parents l ≡ₚ l).
  assert (Hs : StronglySorted (key_le (fun p : Z => p)) (sort_parents l)) by apply (StronglySorted_merge_sort (key_le (fun p : Z => p))).
  induction Hs as [|x k Hs IH HF]; [constructor |]. constructor.
  - intros Hin. destruct k as [|y k]; [by apply not_elem_of_nil in Hin |]. cbn [adjacent_equal] in Ha.
    apply orb_false_iff in Ha as [Hxy _]. apply Z.eqb_neq in Hxy. rewrite Forall_forall in HF.
    assert (Hle : forall a b : Z, key_le (fun p : Z => p) a b -> a <= b) by (intros a b; unfold key_le; simpl; by rewrite <- Z.compare_le_iff).
    pose proof (Hle _ _ (HF y ltac:(by left))). apply elem_of_cons in Hin as [->|Hin]; [done |].
    apply StronglySorted_inv in Hs as [_ HFy]. rewrite Forall_forall in HFy. pose proof (Hle _ _ (HFy _ Hin)). lia.
  - apply IH. destruct k; [done |]. cbn [adjacent_equal] in Ha. by apply orb_false_iff in Ha as [_ ?].
Qed.

(** The parents of an artifact are a canonical set: the constructor and the
    deserializer accept exactly lists of at most 32 distinct identifiers, both
    return the same strictly increasing list, whatever the order they came in,
    membership is exact, and a reference is accepted only when its content
    source is an artifact and it is not its own parent. *)
Theorem artifact_parents_canonical (values ps : list Z) :
  (parents_new values = Ok ps <-> NoDup values /\ (length values <= 32)%nat /\ ps = sort_parents values) /\
  (parents_visit values = Ok ps <-> parents_new values = Ok ps) /\
  (parents_new values = Ok ps ->
   ksorted (fun p : Z => p) ps /\ ps ≡ₚ values /\
   (forall id, parents_contain ps id = true <-> id ∈ values) /\
   (forall values', values ≡ₚ values' -> parents_new values' = Ok ps) /\
   (forall id pres rep meta retention prov r, artifact_ref_new id pres rep meta retention prov ps = Ok r <->
      source meta = SArtifact /\ artifact_id id ∉ values /\ r = mkArtifactRef id pres rep meta retention prov ps)).
Proof.
  assert (Hnew : forall values ps, parents_new values = Ok ps <-> NoDup values /\ (length values <= 32)%nat /\ ps = sort_parents values).
  { clear. intros values ps. unfold parents_new. rewrite bind_Ok. split.
    - intros (out & (Hl & ->)%parents_push_all & H); [| done]. simpl in *. destruct (adjacent_equal _) eqn:Ea; [done |].
      injection H as <-. apply sorted_adjacent in Ea. split_and!; [done | lia | done].
    - intros (HN & Hl & ->). exists values. split; [apply parents_push_all; simpl; [done |]; split; [lia | done] |].
      by rewrite (proj2 (sorted_adjacent values) HN). }
  split; [apply Hnew |]. split.
  - rewrite Hnew. unfold parents_visit. rewrite bind_Ok. split.
    + intros (out & (Hl & HN & ->)%parents_visit_all & [= <-]); [| done | constructor]. simpl in *. split_and!; [done | lia | done].
    + intros (HN & Hl & ->). exists values. split; [| done]. apply parents_visit_all; simpl; [done | constructor |]. split_and!; [lia | done..].
  - intros (HN & Hl & ->)%Hnew. pose proof (sort_parents_sorted _ HN) as Hs.
    assert (Hp : sort_parents values ≡ₚ values) by apply sort_by_key_perm.
    assert (Hc : forall id, parents_contain (sort_parents values) id = true <-> id ∈ values).
    { intros id. unfold parents_contain. pose proof (binary_search_correct (fun p : Z => p) _ id Hs) as Hb.
      assert (id ∈ values <-> id ∈ sort_parents values) as -> by (by rewrite Hp).
      destruct (binary_search (fun p : Z => p) id (sort_parents values)) as [i|] eqn:Eb; simpl in Hb.
      - apply binary_search_Some in Eb as (x & Hx & <-). split; [| done]. intros _. by eapply list_elem_of_lookup_2.
      - split; [done |]. intros Hin. by rewrite (find_key_elem (fun p : Z => p) _ id Hs Hin) in Hb. }
    split_and!; [done | done | done | |].
    + intros values' Hv. apply Hnew. split_and!; [by rewrite <- Hv | by rewrite <- (Permutation_length Hv) |].
      symmetry. apply sort_by_key_unique; [by rewrite list_fmap_id, <- Hv | done].
    + intros id pres rep meta retention prov r. unfold artifact_ref_new.
      destruct (bool_decide_reflect (source meta = SArtifact)); simpl; [| split; [done | naive_solver]].
      specialize (Hc (artifact_id id)). destruct (parents_contain _ _); [split; [done | naive_solver] |].
      split; [| by intros (_ & _ & ->)]. intros [= <-]. split_and!; [done | | done]. intros Hin. by apply Hc in Hin.
Qed.

End Artifact.
