(* ===== verification/Costs.v ===== *)
(** Currency-keyed cost collections
    (crates/stateknot-core/src/budget.rs, [CostLimits], [KnownCosts],
    [collect_costs]).  Both collections are a boxed slice of [Money] strictly
    sorted by currency with at most sixteen entries; [CostLimits] are ceilings
    and [KnownCosts] accumulated charges. *)

From Stdlib Require Import ZArith Lia.
From stdpp Require Import prelude.
From S2P Require Import Prelude Ordered Decimal Accounting.

Open Scope Z_scope.
Export Currency(CurrencyCode).
Export Money(Money, mkMoney, currency, micro_units).

Module Costs.

Definition MAX_COST_CURRENCIES : Z := 16.

Inductive CostCollectionError :=
| DuplicateCurrency (currency : CurrencyCode)
| TooMany (max observed : Z)
| Overflow (currency : CurrencyCode).

Abbreviation cost_map := (list (CurrencyCode * Money)).

(** One iteration of [collect_costs]. *)
Definition collect_step (collected : cost_map) (money : Money) : result CostCollectionError cost_map :=
  if bool_decide (is_Some (bt_get (currency money) collected)) then Err (DuplicateCurrency (currency money)) else
  if Z.of_nat (length collected) =? MAX_COST_CURRENCIES
  then Err (TooMany MAX_COST_CURRENCIES (MAX_COST_CURRENCIES + 1)) else
  Ok (bt_insert (currency money) money collected).

Definition collect_costs (values : list Money) : result CostCollectionError (list Money) :=
  collected ← try_fold collect_step [] values;
  Ok (into_values collected).

Definition get (c : CurrencyCode) (self : list Money) : option Money :=
  index ← binary_search currency c self;
  self !! index.

(** [CostLimits::most_restrictive]: the common currencies, each with the
    smaller ceiling. *)
Definition most_restrictive (self other : list Money) : list Money :=
  omap (fun left =>
          (fun right => mkMoney (currency left) (Z.min (micro_units left) (micro_units right)))
            <$> get (currency left) other) self.

(** One iteration of [KnownCosts::checked_accumulate]. *)
Definition accumulate_step (values : cost_map) (money : Money) : result CostCollectionError cost_map :=
  match bt_get (currency money) values with
  | Some existing =>
      micro ← ok_or (checked_add u64_max (micro_units existing) (micro_units money))
                    (Overflow (currency money));
      Ok (bt_insert (currency money) (mkMoney (currency money) micro) values)
  | None =>
      if Z.of_nat (length values) =? MAX_COST_CURRENCIES
      then Err (TooMany MAX_COST_CURRENCIES (MAX_COST_CURRENCIES + 1)) else
      Ok (bt_insert (currency money) money values)
  end.

Definition checked_accumulate (self other : list Money) : result CostCollectionError (list Money) :=
  values ← try_fold accumulate_step [] (self ++ other);
  Ok (into_values values).

(** The charge or ceiling of one currency, zero when it is absent:
    [get(currency).map_or(0, Money::micro_units)]. *)
Definition amount (c : CurrencyCode) (l : list Money) : Z :=
  match get c l with Some m => micro_units m | None => 0 end.

(** ** Invariant *)

Definition wf (l : list Money) : Prop :=
  ksorted currency l /\ Z.of_nat (length l) <= MAX_COST_CURRENCIES /\ Forall (fun m => is_u64 (micro_units m)) l.

(** The loop state: keys agree with the stored currency. *)
Definition map_wf (m : cost_map) : Prop :=
  ksorted fst m /\ Forall (fun kv => currency kv.2 = kv.1 /\ is_u64 (micro_units kv.2)) m /\
  Z.of_nat (length m) <= MAX_COST_CURRENCIES.

Lemma get_find c l : ksorted currency l -> get c l = find_key currency c l.
Proof. intros Hs. unfold get. by apply binary_search_correct. Qed.

Lemma get_iff c l m : ksorted currency l -> get c l = Some m <-> m ∈ l /\ currency m = c.
Proof. intros Hs. rewrite get_find by done. by apply find_key_iff. Qed.

Lemma get_None c l : ksorted currency l -> get c l = None <-> forall m, m ∈ l -> currency m <> c.
Proof. intros Hs. rewrite get_find by done. apply find_key_None. Qed.

Lemma get_currency c l m : get c l = Some m -> currency m = c.
Proof.
  unfold get. intros (i & Hi & Hm)%bind_Some.
  apply binary_search_Some in Hi as (x & Hx & <-). congruence.
Qed.

Lemma get_elem c l m : get c l = Some m -> m ∈ l.
Proof. unfold get. intros (i & _ & Hm)%bind_Some. by eapply list_elem_of_lookup_2. Qed.

Lemma get_self l m : ksorted currency l -> m ∈ l -> get (currency m) l = Some m.
Proof. intros Hs Hm. by apply get_iff. Qed.

(** Sorted collections are determined by their lookups. *)
Lemma get_ext l1 l2 :
  ksorted currency l1 -> ksorted currency l2 -> (forall c, get c l1 = get c l2) -> l1 = l2.
Proof.
  intros H1 H2 Hext. apply (ksorted_ext currency); [done.. |]. intros m. split; intros Hm.
  - eapply get_elem. rewrite <- Hext. by apply get_self.
  - eapply get_elem. rewrite Hext. by apply get_self.
Qed.

Lemma amount_nonneg c l : wf l -> 0 <= amount c l <= u64_max.
Proof.
  intros (_ & _ & HF). unfold amount. destruct (get c l) as [m|] eqn:E; [| unfold u64_max; lia].
  apply get_elem in E. rewrite Forall_forall in HF. by apply HF.
Qed.

Lemma into_values_sorted m : map_wf m -> ksorted currency (into_values m).
Proof.
  intros (Hs & HF & _). unfold into_values. induction Hs as [|[k v] m HF' Hs IH]; simpl; [constructor |].
  apply Forall_cons in HF as [[Hk _] HF]. simpl in Hk. constructor; [| by apply IH].
  apply Forall_forall. intros v' ([k' v''] & -> & Hin)%list_elem_of_fmap.
  rewrite Forall_forall in HF, HF'. destruct (HF _ Hin) as [Hk' _]. simpl in *.
  rewrite Hk, Hk'. exact (HF' _ Hin).
Qed.

Lemma into_values_wf m : map_wf m -> wf (into_values m).
Proof.
  intros Hm. split; [by apply into_values_sorted |]. destruct Hm as (_ & HF & Hl).
  unfold into_values. rewrite length_map. split; [done |].
  apply Forall_map. eapply Forall_impl; [exact HF |]. by intros [? ?] [_ ?].
Qed.

Lemma get_into_values c m : map_wf m -> get c (into_values m) = bt_get c m.
Proof.
  intros Hm. apply option_eq. intros v. rewrite get_iff by by apply into_values_sorted.
  destruct Hm as (Hs & HF & _). rewrite bt_get_elem by done. unfold into_values.
  rewrite list_elem_of_fmap. rewrite Forall_forall in HF. split.
  - intros [([k v'] & -> & Hin) <-]. destruct (HF _ Hin) as [-> _]. done.
  - intros Hin. destruct (HF _ Hin) as [Hk _]. simpl in Hk. split; [| done]. by exists (c, v).
Qed.

Lemma map_wf_insert m c v :
  map_wf m -> currency v = c -> is_u64 (micro_units v) ->
  Z.of_nat (length (bt_insert c v m)) <= MAX_COST_CURRENCIES -> map_wf (bt_insert c v m).
Proof.
  intros (Hs & HF & _) Hc Hv Hl. split; [by apply bt_insert_sorted | split; [| done]].
  rewrite Forall_forall in *. intros kv. rewrite bt_insert_elem by done.
  intros [-> | [? _]]; [done | by apply HF].
Qed.

Lemma bt_insert_length_present (m : cost_map) c v w :
  map_wf m -> bt_get c m = Some w -> length (bt_insert c v m) = length m.
Proof.
  intros (Hs & _) Hget. apply (bt_get_elem _ _ _ Hs) in Hget.
  induction Hs as [|[k x] m HF Hs IH]; simpl; [by apply not_elem_of_nil in Hget |].
  destruct (cmp c k) eqn:E; simpl; [done | |].
  - rewrite Forall_forall in HF. apply elem_of_cons in Hget as [[= -> ->] | Hget].
    + by destruct (cmp_lt_irrefl k).
    + pose proof (HF _ Hget) as Hlt. simpl in Hlt. destruct (cmp_lt_irrefl c). by eapply cmp_lt_trans.
  - apply elem_of_cons in Hget as [[= -> ->] | Hget]; [by rewrite cmp_refl in E |]. by rewrite IH.
Qed.

Lemma map_wf_nil : map_wf [].
Proof. split; [constructor | split; [constructor | simpl; unfold MAX_COST_CURRENCIES; lia]]. Qed.
#[local] Hint Resolve map_wf_nil into_values_wf : sk.

(** ** [collect_costs] *)

Lemma collect_step_wf m money m' :
  map_wf m -> is_u64 (micro_units money) -> collect_step m money = Ok m' ->
  map_wf m' /\ bt_get (currency money) m = None /\
  (forall c, bt_get c m' = if eqb_cmp (currency money) c then Some money else bt_get c m).
Proof.
  unfold collect_step. intros Hm Hu. case_bool_decide as Hn; [done |].
  destruct (Z.eqb_spec (Z.of_nat (length m)) MAX_COST_CURRENCIES) as [|Hl]; [done |]. intros [= <-].
  apply eq_None_not_Some in Hn. split; [| split; [done |]].
  - apply map_wf_insert; [done.. |]. rewrite bt_insert_length_fresh by (apply Hm || done).
    destruct Hm as (_ & _ & ?). lia.
  - intros c. apply bt_get_insert, Hm.
Qed.

Lemma collect_fold m vs m' :
  map_wf m -> Forall (fun v => is_u64 (micro_units v)) vs -> try_fold collect_step m vs = Ok m' ->
  map_wf m' /\ forall c v, bt_get c m' = Some v <-> bt_get c m = Some v \/ (v ∈ vs /\ currency v = c).
Proof.
  revert m. induction vs as [|w vs IH]; intros m Hm HF Hf; simpl in Hf; simp_ok.
  { subst. split; [done |]. intros c v. split; [by left |]. intros [? | [Hin _]]; [done |]. by apply not_elem_of_nil in Hin. }
  apply Forall_cons in HF as [Hw HF]. apply collect_step_wf in H as (Hm1 & Hnone & Hget); [| done..].
  destruct (IH _ Hm1 HF H0) as [Hm' Hiff]. split; [done |]. intros c v. rewrite Hiff, Hget, elem_of_cons.
  destruct (eqb_cmp (currency w) c) eqn:E.
  - apply eqb_cmp_spec in E as <-. rewrite Hnone. naive_solver.
  - split; [naive_solver |]. intros [? | [[-> | ?] <-]]; [by left | | by right].
    by rewrite (proj2 (eqb_cmp_spec (currency w) (currency w))) in E.
Qed.

(** An accepted collection is the sorted set of its inputs. *)
Lemma collect_costs_spec vs l :
  Forall (fun v => is_u64 (micro_units v)) vs -> collect_costs vs = Ok l ->
  wf l /\ forall v, v ∈ l <-> v ∈ vs.
Proof.
  unfold collect_costs. intros HF H. simp_ok. subst.
  destruct (collect_fold [] vs x map_wf_nil HF H) as [Hm Hiff]. split; [by apply into_values_wf |].
  intros v. transitivity (bt_get (currency v) x = Some v).
  - rewrite <- get_into_values by done. rewrite get_iff by by apply into_values_sorted. naive_solver.
  - rewrite Hiff. unfold bt_get. simpl. naive_solver.
Qed.

(** A sorted collection within the bound is accepted unchanged. *)
Lemma collect_costs_sorted l : wf l -> collect_costs l = Ok l.
Proof.
  intros (Hs & Hl & HF).
  assert (Hgen : forall vs m, map_wf m -> ksorted currency vs -> Forall (fun v => is_u64 (micro_units v)) vs ->
            Z.of_nat (length m + length vs) <= MAX_COST_CURRENCIES ->
            (forall v, v ∈ vs -> bt_get (currency v) m = None) ->
            exists m', try_fold collect_step m vs = Ok m').
  { clear. induction vs as [|v vs IH]; intros m Hm Hs HF Hl Hfresh; simpl; [by eexists |].
    inversion Hs as [|? ? HFv Hs']; subst. apply Forall_cons in HF as [Hv HF]. simpl in Hl.
    assert (collect_step m v = Ok (bt_insert (currency v) v m)) as ->.
    { unfold collect_step. rewrite (Hfresh v) by by left.
      rewrite bool_decide_eq_false_2 by by apply is_Some_None.
      destruct (Z.eqb_spec (Z.of_nat (length m)) MAX_COST_CURRENCIES); [lia | done]. }
    simpl.
    assert (Hlen : length (bt_insert (currency v) v m) = S (length m))
      by (apply bt_insert_length_fresh; [apply Hm | apply Hfresh; by left]).
    apply IH; [| done | done | lia |].
    - apply map_wf_insert; try done. lia.
    - intros w Hw. rewrite bt_get_insert by apply Hm. rewrite Forall_forall in HFv.
      destruct (eqb_cmp (currency v) (currency w)) eqn:E; [| apply Hfresh; by right].
      apply eqb_cmp_spec in E. by destruct (cmp_lt_ne _ _ (HFv _ Hw)). }
  destruct (Hgen l [] map_wf_nil Hs HF) as [m' Hm']; [done | done |].
  assert (H : collect_costs l = Ok (into_values m')) by (unfold collect_costs; by rewrite Hm').
  rewrite H. f_equal. destruct (collect_costs_spec _ _ HF H) as [[Hs' _] Hiff].
  by apply (ksorted_ext currency).
Qed.

(** ** [KnownCosts::checked_accumulate] *)

Lemma accumulate_step_spec m money m' :
  map_wf m -> is_u64 (micro_units money) -> accumulate_step m money = Ok m' ->
  map_wf m' /\
  (forall c, bt_get c m' =
     if eqb_cmp (currency money) c
     then Some (mkMoney c (from_option micro_units 0 (bt_get c m) + micro_units money))
     else bt_get c m).
Proof.
  unfold accumulate_step. intros Hm Hu. destruct (bt_get (currency money) m) as [ex|] eqn:Eg.
  - intros H. simp_ok. apply checked_add_Some in H as [-> Hle]. subst.
    assert (is_u64 (micro_units ex)) as Hex.
    { destruct Hm as (Hs & HF & _). apply (bt_get_elem _ _ _ Hs) in Eg.
      rewrite Forall_forall in HF. by destruct (HF _ Eg). }
    split.
    + apply map_wf_insert; [done | done | unfold in_u in *; simpl; lia |].
      rewrite (bt_insert_length_present _ _ _ _ Hm Eg). apply Hm.
    + intros c. rewrite bt_get_insert by apply Hm. destruct (eqb_cmp (currency money) c) eqn:E; [| done].
      apply eqb_cmp_spec in E as <-. by rewrite Eg.
  - destruct (Z.eqb_spec (Z.of_nat (length m)) MAX_COST_CURRENCIES); [done |]. intros [= <-]. split.
    + apply map_wf_insert; [done.. |]. rewrite bt_insert_length_fresh by (apply Hm || done).
      destruct Hm as (_ & _ & ?). lia.
    + intros c. rewrite bt_get_insert by apply Hm. destruct (eqb_cmp (currency money) c) eqn:E; [| done].
      apply eqb_cmp_spec in E as <-. rewrite Eg. simpl. by destruct money.
Qed.

(** The sum of the charges of one currency over a sequence of charges. *)
Definition charge (c : CurrencyCode) (vs : list Money) : Z :=
  foldr (fun v s => (if eqb_cmp (currency v) c then micro_units v else 0) + s) 0 vs.

Definition charged (c : CurrencyCode) (vs : list Money) : Prop := exists v, v ∈ vs /\ currency v = c.

Lemma charged_get k l : wf l -> charged k l <-> is_Some (get k l).
Proof.
  intros (Hs & _). unfold charged, is_Some. split; intros (v & Hv); exists v; by apply (get_iff k l v Hs).
Qed.

Lemma charge_app c l1 l2 : charge c (l1 ++ l2) = charge c l1 + charge c l2.
Proof. induction l1 as [|v l1 IH]; simpl; [done |]. rewrite IH. lia. Qed.

Lemma charge_amount c l : ksorted currency l -> charge c l = amount c l.
Proof.
  intros Hs. unfold amount. rewrite get_find by done.
  induction Hs as [|v l HF Hs IH]; simpl; [done |].
  destruct (eqb_cmp (currency v) c) eqn:E; [| by rewrite IH].
  apply eqb_cmp_spec in E. rewrite IH.
  destruct (find_key currency c l) as [w|] eqn:Ew; [| lia].
  apply find_key_Some in Ew as [Hw Hc]. rewrite Forall_forall in HF.
  destruct (cmp_lt_ne _ _ (HF _ Hw)). congruence.
Qed.

Lemma accumulate_fold m vs m' :
  map_wf m -> Forall (fun v => is_u64 (micro_units v)) vs -> try_fold accumulate_step m vs = Ok m' ->
  map_wf m' /\ forall c,
    from_option micro_units 0 (bt_get c m') = from_option micro_units 0 (bt_get c m) + charge c vs /\
    (is_Some (bt_get c m') <-> is_Some (bt_get c m) \/ charged c vs).
Proof.
  revert m. induction vs as [|w vs IH]; intros m Hm HF Hf; simpl in Hf; simp_ok.
  { subst. split; [done |]. intros c. simpl. split; [lia |]. unfold charged.
    split; [by left |]. intros [? | (v & Hv & _)]; [done |]. by apply not_elem_of_nil in Hv. }
  apply Forall_cons in HF as [Hw HF]. apply accumulate_step_spec in H as (Hm1 & Hget); [| done..].
  destruct (IH _ Hm1 HF H0) as [Hm' Hiff]. split; [done |]. intros c. specialize (Hiff c).
  rewrite Hget in Hiff. destruct Hiff as [Hsum Hsome]. simpl.
  assert (Hcharged : charged c (w :: vs) <-> currency w = c \/ charged c vs).
  { unfold charged. setoid_rewrite elem_of_cons. naive_solver. }
  rewrite Hsome, Hcharged. destruct (eqb_cmp (currency w) c) eqn:E.
  - apply eqb_cmp_spec in E. split; [simpl in Hsum; lia | naive_solver].
  - split; [lia |]. assert (currency w <> c) by (intros ?%eqb_cmp_spec; congruence). naive_solver.
Qed.

(** Accumulation adds the charges of every currency exactly and keeps every
    currency of either side. *)
Lemma accumulate_spec a b c :
  wf a -> wf b -> checked_accumulate a b = Ok c ->
  wf c /\ forall k, amount k c = amount k a + amount k b /\
                    (is_Some (get k c) <-> is_Some (get k a) \/ is_Some (get k b)).
Proof.
  intros Ha Hb H. unfold checked_accumulate in H. simp_ok. subst.
  destruct (accumulate_fold [] (a ++ b) x map_wf_nil) as [Hm Hx]; [| done |].
  { apply Forall_app. split; [apply Ha | apply Hb]. }
  split; [by apply into_values_wf |]. intros k. destruct (Hx k) as [Hsum Hsome].
  rewrite get_into_values by done. unfold amount. rewrite get_into_values by done.
  split.
  - rewrite charge_app, !charge_amount in Hsum by (apply Ha || apply Hb). unfold amount in Hsum.
    destruct (bt_get k x); simpl in *; lia.
  - rewrite Hsome, <- !charged_get by done. unfold charged. setoid_rewrite elem_of_app.
    split; [intros [[? ?] | ?] | intros ?; right]; naive_solver.
Qed.

(** What a rejected accumulation means: a currency total above [u64], or more
    distinct currencies than one collection holds. *)
Lemma accumulate_fold_error m vs e :
  map_wf m -> Forall (fun v => is_u64 (micro_units v)) vs -> try_fold accumulate_step m vs = Err e ->
  match e with
  | Overflow k => u64_max < from_option micro_units 0 (bt_get k m) + charge k vs
  | TooMany mx obs => mx = MAX_COST_CURRENCIES /\ obs = MAX_COST_CURRENCIES + 1
  | DuplicateCurrency _ => False
  end.
Proof.
  assert (Hpos : forall k vs, Forall (fun v => is_u64 (micro_units v)) vs -> 0 <= charge k vs).
  { clear. intros k. induction 1 as [|v vs Hv HF IH]; simpl; [lia |]. unfold in_u in Hv. destruct (eqb_cmp _ _); lia. }
  revert m. induction vs as [|w vs IH]; intros m Hm HF; cbn [try_fold]; [done |].
  apply Forall_cons in HF as [Hw HF]. intros [Hs | (m1 & Hs & Hf)]%bind_Err.
  - unfold accumulate_step in Hs. destruct (bt_get (currency w) m) as [ex|] eqn:Eg.
    + destruct (checked_add u64_max (micro_units ex) (micro_units w)) eqn:Ec; simpl in Hs; [done |].
      injection Hs as <-. apply checked_add_None in Ec. rewrite Eg. simpl.
      rewrite (proj2 (eqb_cmp_spec (currency w) (currency w))) by done.
      specialize (Hpos (currency w) vs HF). lia.
    + destruct (_ =? _); [| done]. by injection Hs as <-.
  - apply accumulate_step_spec in Hs as (Hm1 & Hget); [| done..].
    specialize (IH m1 Hm1 HF Hf). destruct e as [| |k]; [done.. |]. rewrite Hget in IH. simpl.
    destruct (eqb_cmp (currency w) k); simpl in IH; lia.
Qed.

Lemma ksorted_NoDup_keys {B} (key : B -> CurrencyCode) (l : list B) : ksorted key l -> NoDup (map key l).
Proof.
  induction 1 as [|x l HF Hs IH]; simpl; constructor; [| done].
  intros (y & Hy & Hin)%list_elem_of_fmap. rewrite Forall_forall in HF.
  by destruct (cmp_lt_ne _ _ (HF _ Hin)).
Qed.

(** Accumulation succeeds when every currency total fits and the currencies
    all occur in some collection of at most sixteen. *)
Lemma accumulate_complete_fold (cap : list CurrencyCode) m vs :
  Z.of_nat (length cap) <= MAX_COST_CURRENCIES ->
  map_wf m -> Forall (fun v => is_u64 (micro_units v)) vs ->
  (forall k, is_Some (bt_get k m) \/ charged k vs ->
     k ∈ cap /\ from_option micro_units 0 (bt_get k m) + charge k vs <= u64_max) ->
  exists m', try_fold accumulate_step m vs = Ok m'.
Proof.
  intros Hcap. revert m. induction vs as [|w vs IH]; intros m Hm HF Hk; [by eexists |]. cbn [try_fold].
  apply Forall_cons in HF as [Hw HF].
  assert (Hpos : forall k, 0 <= charge k vs).
  { intros k. clear -HF. induction HF as [|v vs Hv HF IH]; simpl; [lia |]. unfold in_u in Hv. destruct (eqb_cmp _ _); lia. }
  assert (Hstep : exists m1, accumulate_step m w = Ok m1).
  { destruct (Hk (currency w)) as [Hin Hle]; [right; exists w; split; [by left | done] |]. simpl in Hle.
    rewrite (proj2 (eqb_cmp_spec (currency w) (currency w)) eq_refl) in Hle.
    specialize (Hpos (currency w)). unfold accumulate_step.
    destruct (bt_get (currency w) m) as [ex|] eqn:E; simpl in Hle.
    - rewrite (proj2 (checked_add_Some u64_max (micro_units ex) (micro_units w) (micro_units ex + micro_units w))) by (split; [done | lia]).
      by eexists.
    - destruct (Z.eqb_spec (Z.of_nat (length m)) MAX_COST_CURRENCIES) as [Hl|]; [| by eexists]. exfalso.
      assert (S (length m) <= length cap)%nat; [| lia].
      replace (S (length m)) with (length (currency w :: map fst m)) by (simpl; by rewrite length_map).
      apply submseteq_length, NoDup_submseteq.
      + constructor; [| apply ksorted_NoDup_keys, Hm].
        intros ([k v] & Hkv & Hin')%list_elem_of_fmap. simpl in Hkv. subst k.
        apply (bt_get_elem _ _ _ (proj1 Hm)) in Hin'. congruence.
      + intros k [-> | Hkm]%elem_of_cons; [done |]. apply list_elem_of_fmap in Hkm as ([k' v] & -> & Hin').
        apply Hk. left. exists v. by apply (bt_get_elem _ _ _ (proj1 Hm)). }
  destruct Hstep as [m1 Hm1]. rewrite Hm1. simpl.
  destruct (accumulate_step_spec _ _ _ Hm Hw Hm1) as [Hwf Hget].
  apply IH; [done | done |]. intros k Hkk. rewrite Hget in *.
  assert (Hk' : is_Some (bt_get k m) \/ charged k (w :: vs)).
  { destruct Hkk as [Hs | (v & Hv & Hc)]; [| right; exists v; split; [by right | done]].
    destruct (eqb_cmp (currency w) k) eqn:E; [| by left]. apply eqb_cmp_spec in E. right. exists w. split; [by left | done]. }
  destruct (Hk k Hk') as [Hin Hle]. split; [done |]. simpl in Hle. destruct (eqb_cmp (currency w) k); simpl in *; lia.
Qed.

Lemma accumulate_complete (cap : list Money) a b :
  wf cap -> wf a -> wf b ->
  (forall k, is_Some (get k a) \/ is_Some (get k b) -> is_Some (get k cap)) ->
  (forall k, amount k a + amount k b <= u64_max) ->
  exists c, checked_accumulate a b = Ok c.
Proof.
  intros Hcap Ha Hb Hk Hle. unfold checked_accumulate.
  destruct (accumulate_complete_fold (map currency cap) [] (a ++ b)) as [m' ->]; [| exact map_wf_nil | | | by eexists].
  - rewrite length_map. apply Hcap.
  - apply Forall_app. split; [apply Ha | apply Hb].
  - intros k Hk'. rewrite charge_app, !charge_amount by (apply Ha || apply Hb). simpl. split; [| apply Hle].
    assert (is_Some (get k cap)) as [m Hm].
    { apply Hk. rewrite <- !charged_get by done. unfold charged in *. setoid_rewrite elem_of_app in Hk'.
      unfold bt_get in Hk'. simpl in Hk'. destruct Hk' as [[? ?] | ?]; naive_solver. }
    apply list_elem_of_fmap. exists m. split; [symmetry; by eapply get_currency | by eapply get_elem].
Qed.

Lemma get_amount_ext l1 l2 :
  ksorted currency l1 -> ksorted currency l2 ->
  (forall k, amount k l1 = amount k l2 /\ (is_Some (get k l1) <-> is_Some (get k l2))) -> l1 = l2.
Proof.
  intros H1 H2 Hk. apply get_ext; [done.. |]. intros k. destruct (Hk k) as [Ha Hs]. unfold amount in Ha.
  destruct (get k l1) as [[c1 m1]|] eqn:E1, (get k l2) as [[c2 m2]|] eqn:E2; simpl in *; try done.
  - apply get_currency in E1, E2. simpl in *. by subst.
  - destruct (proj1 Hs) as [? ?]; [by eexists | done].
  - destruct (proj2 Hs) as [? ?]; [by eexists | done].
Qed.

(** ** [CostLimits::most_restrictive] *)

Lemma most_restrictive_elem a b m :
  m ∈ most_restrictive a b <->
  exists l r, l ∈ a /\ get (currency l) b = Some r /\ m = mkMoney (currency l) (Z.min (micro_units l) (micro_units r)).
Proof.
  unfold most_restrictive. rewrite list_elem_of_omap. split.
  - intros (l & Hl & (r & Hr & ->)%fmap_Some). by exists l, r.
  - intros (l & r & Hl & Hr & ->). exists l. split; [done |]. by rewrite Hr.
Qed.

Lemma most_restrictive_wf a b : wf a -> wf b -> wf (most_restrictive a b).
Proof.
  intros (Hs & Hl & HF) Hb. split; [| split].
  - induction Hs as [|x l HFx Hs IH]; [constructor |].
    assert (IH' : ksorted currency (most_restrictive l b)).
    { apply IH; [simpl in Hl; lia | by apply Forall_cons in HF as [_ ?]]. }
    unfold most_restrictive. simpl. destruct (get (currency x) b) as [r|]; simpl; [| exact IH'].
    constructor; [| exact IH']. apply Forall_forall. intros m Hm.
    apply (most_restrictive_elem l b) in Hm as (l' & r' & Hl' & _ & ->). simpl. rewrite Forall_forall in HFx. by apply HFx.
  - etransitivity; [| exact Hl]. apply inj_le. unfold most_restrictive. clear.
    induction a as [|x a IH]; [done |]. cbn in *. destruct (get (currency x) b); cbn in *; lia.
  - apply Forall_forall. intros m (l & r & Hl' & Hr & ->)%most_restrictive_elem. simpl.
    rewrite Forall_forall in HF. specialize (HF _ Hl'). destruct Hb as (_ & _ & HFb).
    rewrite Forall_forall in HFb. specialize (HFb _ (get_elem _ _ _ Hr)). unfold in_u in *. lia.
Qed.

(** Lookup in the intersection. *)
Lemma get_most_restrictive c a b :
  wf a -> wf b ->
  get c (most_restrictive a b) =
    (l ← get c a; r ← get c b; Some (mkMoney c (Z.min (micro_units l) (micro_units r)))).
Proof.
  intros Ha Hb. apply option_eq. intros m.
  rewrite get_iff by by apply most_restrictive_wf. rewrite most_restrictive_elem.
  destruct (get c a) as [l|] eqn:El; simpl.
  - pose proof (get_currency _ _ _ El) as Hc. split.
    + intros [(l' & r & Hl' & Hr & ->) Hm]. simpl in Hm. subst c.
      assert (get (currency l') a = Some l') by (apply get_iff; [apply Ha | done]).
      rewrite Hm in *. simplify_eq. by rewrite Hr.
    + intros Hm. destruct (get c b) as [r|] eqn:Er; simpl in Hm; [| done]. injection Hm as <-.
      split; [| done]. exists l, r. rewrite Hc. split_and!; [by eapply get_elem | done | done].
  - split; [| done]. intros [(l' & r & Hl' & _ & ->) Hm]. simpl in Hm.
    rewrite get_None in El by apply Ha. by destruct (El l' Hl').
Qed.

(** Intersecting ceilings is commutative, associative and idempotent. *)
Lemma most_restrictive_comm a b : wf a -> wf b -> most_restrictive a b = most_restrictive b a.
Proof.
  intros Ha Hb. apply get_ext; [by apply most_restrictive_wf.. |]. intros c.
  rewrite !get_most_restrictive by done. destruct (get c a), (get c b); simpl; try done. do 2 f_equal. lia.
Qed.

Lemma most_restrictive_assoc a b c :
  wf a -> wf b -> wf c ->
  most_restrictive a (most_restrictive b c) = most_restrictive (most_restrictive a b) c.
Proof.
  intros Ha Hb Hc. pose proof (most_restrictive_wf a b Ha Hb). pose proof (most_restrictive_wf b c Hb Hc).
  apply get_ext; [by apply most_restrictive_wf.. |]. intros k.
  rewrite !get_most_restrictive by (done || by apply most_restrictive_wf).
  destruct (get k a), (get k b), (get k c); simpl; try done. do 2 f_equal. lia.
Qed.

Lemma most_restrictive_idemp a : wf a -> most_restrictive a a = a.
Proof.
  intros Ha. apply get_ext; [by apply most_restrictive_wf | apply Ha |]. intros k.
  rewrite get_most_restrictive by done. destruct (get k a) as [m|] eqn:E; simpl; [| done].
  apply get_currency in E. rewrite Z.min_id, <- E. by destruct m.
Qed.

End Costs.
#[export] Hint Resolve Costs.most_restrictive_wf : sk.
