(* ===== verification/Budget.v ===== *)
(** Layered run budgets (crates/stateknot-core/src/budget.rs): optional limits
    per policy layer, their resolution into one finite budget, recorded usage,
    accumulation and cumulative subtraction of usage, remaining capacity, and
    narrowing of a child budget under its parent.  Field lists follow the
    structs of the source, and the order of the checks follows the order in
    which the source evaluates them, so the reported first failure is the
    source's. *)

From Stdlib Require Import ZArith Lia.
From stdpp Require Import prelude.
From S2P Require Import Prelude Ordered Decimal Accounting Time Costs.

Open Scope Z_scope.
Import Timestamp(Timestamp).

(** [BudgetDimension]. *)
Inductive BudgetDimension :=
| Deadline
| GraphDepth
| GraphSteps
| ModelAttempts
| ModelTurns
| InputTokens
| CachedInputTokens
| ReasoningTokens
| OutputTokens
| ToolCalls
| WriteCalls
| RemoteAgentDelegations
| Retries
| ConcurrentBranches
| FanOut
| InputBytes
| OutputBytes
| EventBytes
| CheckpointBytes
| ArtifactBytes
| Costs.

#[export] Instance BudgetDimension_eq_dec : EqDecision BudgetDimension.
Proof. solve_decision. Defined.

Definition MAX_BUDGET_LAYERS : Z := 16.

(** * Policy layers *)

Module BudgetLimits.
Record t := mk {
  deadline : option Timestamp;
  graph_depth : option Z;
  graph_steps : option Z;
  model_attempts : option Z;
  model_turns : option Z;
  input_tokens : option Z;
  cached_input_tokens : option Z;
  reasoning_tokens : option Z;
  output_tokens : option Z;
  tool_calls : option Z;
  write_calls : option Z;
  remote_agent_delegations : option Z;
  retries : option Z;
  concurrent_branches : option Z;
  fan_out : option Z;
  input_bytes : option Z;
  output_bytes : option Z;
  event_bytes : option Z;
  checkpoint_bytes : option Z;
  artifact_bytes : option Z;
  costs : option (list Money)
}.

Definition empty : t := {|
  deadline := None;
  graph_depth := None;
  graph_steps := None;
  model_attempts := None;
  model_turns := None;
  input_tokens := None;
  cached_input_tokens := None;
  reasoning_tokens := None;
  output_tokens := None;
  tool_calls := None;
  write_calls := None;
  remote_agent_delegations := None;
  retries := None;
  concurrent_branches := None;
  fan_out := None;
  input_bytes := None;
  output_bytes := None;
  event_bytes := None;
  checkpoint_bytes := None;
  artifact_bytes := None;
  costs := None
|}.

Definition is_empty (self : t) : bool :=
  is_none (self.(deadline))
  && is_none (self.(graph_depth))
  && is_none (self.(graph_steps))
  && is_none (self.(model_attempts))
  && is_none (self.(model_turns))
  && is_none (self.(input_tokens))
  && is_none (self.(cached_input_tokens))
  && is_none (self.(reasoning_tokens))
  && is_none (self.(output_tokens))
  && is_none (self.(tool_calls))
  && is_none (self.(write_calls))
  && is_none (self.(remote_agent_delegations))
  && is_none (self.(retries))
  && is_none (self.(concurrent_branches))
  && is_none (self.(fan_out))
  && is_none (self.(input_bytes))
  && is_none (self.(output_bytes))
  && is_none (self.(event_bytes))
  && is_none (self.(checkpoint_bytes))
  && is_none (self.(artifact_bytes))
  && is_none (self.(costs)).

Definition min_option (left right : option Z) : option Z :=
  match left, right with
  | Some l, Some r => Some (Z.min l r)
  | Some v, None | None, Some v => Some v
  | None, None => None
  end.

Definition most_restrictive (self other : t) : t := {|
  deadline := min_option self.(deadline) other.(deadline);
  graph_depth := min_option self.(graph_depth) other.(graph_depth);
  graph_steps := min_option self.(graph_steps) other.(graph_steps);
  model_attempts := min_option self.(model_attempts) other.(model_attempts);
  model_turns := min_option self.(model_turns) other.(model_turns);
  input_tokens := min_option self.(input_tokens) other.(input_tokens);
  cached_input_tokens := min_option self.(cached_input_tokens) other.(cached_input_tokens);
  reasoning_tokens := min_option self.(reasoning_tokens) other.(reasoning_tokens);
  output_tokens := min_option self.(output_tokens) other.(output_tokens);
  tool_calls := min_option self.(tool_calls) other.(tool_calls);
  write_calls := min_option self.(write_calls) other.(write_calls);
  remote_agent_delegations := min_option self.(remote_agent_delegations) other.(remote_agent_delegations);
  retries := min_option self.(retries) other.(retries);
  concurrent_branches := min_option self.(concurrent_branches) other.(concurrent_branches);
  fan_out := min_option self.(fan_out) other.(fan_out);
  input_bytes := min_option self.(input_bytes) other.(input_bytes);
  output_bytes := min_option self.(output_bytes) other.(output_bytes);
  event_bytes := min_option self.(event_bytes) other.(event_bytes);
  checkpoint_bytes := min_option self.(checkpoint_bytes) other.(checkpoint_bytes);
  artifact_bytes := min_option self.(artifact_bytes) other.(artifact_bytes);
  costs := match self.(costs), other.(costs) with
           | Some l, Some r => Some (Costs.most_restrictive l r)
           | Some value, None | None, Some value => Some value
           | None, None => None
           end
|}.

(** Specification view: the limit a layer sets on one scalar dimension. *)
Definition limit (d : BudgetDimension) (self : t) : option Z :=
  match d with
  | Deadline => self.(deadline)
  | GraphDepth => self.(graph_depth)
  | GraphSteps => self.(graph_steps)
  | ModelAttempts => self.(model_attempts)
  | ModelTurns => self.(model_turns)
  | InputTokens => self.(input_tokens)
  | CachedInputTokens => self.(cached_input_tokens)
  | ReasoningTokens => self.(reasoning_tokens)
  | OutputTokens => self.(output_tokens)
  | ToolCalls => self.(tool_calls)
  | WriteCalls => self.(write_calls)
  | RemoteAgentDelegations => self.(remote_agent_delegations)
  | Retries => self.(retries)
  | ConcurrentBranches => self.(concurrent_branches)
  | FanOut => self.(fan_out)
  | InputBytes => self.(input_bytes)
  | OutputBytes => self.(output_bytes)
  | EventBytes => self.(event_bytes)
  | CheckpointBytes => self.(checkpoint_bytes)
  | ArtifactBytes => self.(artifact_bytes)
  | Costs => None
  end.

Definition wf (self : t) : Prop := match self.(costs) with Some c => Costs.wf c | None => True end.

End BudgetLimits.

(** * Resolved budgets *)

Module ResolvedBudget.
Record t := mk {
  deadline : Timestamp;
  graph_depth : Z;
  graph_steps : Z;
  model_attempts : Z;
  model_turns : Z;
  input_tokens : Z;
  cached_input_tokens : Z;
  reasoning_tokens : Z;
  output_tokens : Z;
  tool_calls : Z;
  write_calls : Z;
  remote_agent_delegations : Z;
  retries : Z;
  concurrent_branches : Z;
  fan_out : Z;
  input_bytes : Z;
  output_bytes : Z;
  event_bytes : Z;
  checkpoint_bytes : Z;
  artifact_bytes : Z;
  costs : list Money
}.

#[global] Instance t_eq_dec : EqDecision t.
Proof. solve_decision. Defined.

Definition limit (d : BudgetDimension) (self : t) : Z :=
  match d with
  | Deadline => self.(deadline)
  | GraphDepth => self.(graph_depth)
  | GraphSteps => self.(graph_steps)
  | ModelAttempts => self.(model_attempts)
  | ModelTurns => self.(model_turns)
  | InputTokens => self.(input_tokens)
  | CachedInputTokens => self.(cached_input_tokens)
  | ReasoningTokens => self.(reasoning_tokens)
  | OutputTokens => self.(output_tokens)
  | ToolCalls => self.(tool_calls)
  | WriteCalls => self.(write_calls)
  | RemoteAgentDelegations => self.(remote_agent_delegations)
  | Retries => self.(retries)
  | ConcurrentBranches => self.(concurrent_branches)
  | FanOut => self.(fan_out)
  | InputBytes => self.(input_bytes)
  | OutputBytes => self.(output_bytes)
  | EventBytes => self.(event_bytes)
  | CheckpointBytes => self.(checkpoint_bytes)
  | ArtifactBytes => self.(artifact_bytes)
  | Costs => 0
  end.

Inductive BudgetResolutionError :=
| EmptyLayers
| TooManyLayers (max actual : Z)
| Missing (dimension : BudgetDimension)
| InvalidSubsetLimit (subset inclusive : BudgetDimension).

Definition required {A} (value : option A) (dimension : BudgetDimension) : result BudgetResolutionError A :=
  ok_or value (Missing dimension).

Definition effective_limits (layers : list BudgetLimits.t) : BudgetLimits.t :=
  fold_left BudgetLimits.most_restrictive layers BudgetLimits.empty.

Definition resolve (layers : list BudgetLimits.t) : result BudgetResolutionError t :=
  if bool_decide (layers = []) then Err EmptyLayers else
  if MAX_BUDGET_LAYERS <? Z.of_nat (length layers)
  then Err (TooManyLayers MAX_BUDGET_LAYERS (Z.of_nat (length layers))) else
  let effective := effective_limits layers in
  input_tokens ← required effective.(BudgetLimits.input_tokens) InputTokens;
  output_tokens ← required effective.(BudgetLimits.output_tokens) OutputTokens;
  tool_calls ← required effective.(BudgetLimits.tool_calls) ToolCalls;
  cached_raw ← required effective.(BudgetLimits.cached_input_tokens) CachedInputTokens;
  reasoning_raw ← required effective.(BudgetLimits.reasoning_tokens) ReasoningTokens;
  write_raw ← required effective.(BudgetLimits.write_calls) WriteCalls;
  deadline ← required effective.(BudgetLimits.deadline) Deadline;
  graph_depth ← required effective.(BudgetLimits.graph_depth) GraphDepth;
  graph_steps ← required effective.(BudgetLimits.graph_steps) GraphSteps;
  model_attempts ← required effective.(BudgetLimits.model_attempts) ModelAttempts;
  model_turns ← required effective.(BudgetLimits.model_turns) ModelTurns;
  remote_agent_delegations ← required effective.(BudgetLimits.remote_agent_delegations) RemoteAgentDelegations;
  retries ← required effective.(BudgetLimits.retries) Retries;
  concurrent_branches ← required effective.(BudgetLimits.concurrent_branches) ConcurrentBranches;
  fan_out ← required effective.(BudgetLimits.fan_out) FanOut;
  input_bytes ← required effective.(BudgetLimits.input_bytes) InputBytes;
  output_bytes ← required effective.(BudgetLimits.output_bytes) OutputBytes;
  event_bytes ← required effective.(BudgetLimits.event_bytes) EventBytes;
  checkpoint_bytes ← required effective.(BudgetLimits.checkpoint_bytes) CheckpointBytes;
  artifact_bytes ← required effective.(BudgetLimits.artifact_bytes) ArtifactBytes;
  costs ← required effective.(BudgetLimits.costs) Costs;
  Ok {|
    deadline := deadline;
    graph_depth := graph_depth;
    graph_steps := graph_steps;
    model_attempts := model_attempts;
    model_turns := model_turns;
    input_tokens := input_tokens;
    cached_input_tokens := Z.min cached_raw input_tokens;
    reasoning_tokens := Z.min reasoning_raw output_tokens;
    output_tokens := output_tokens;
    tool_calls := tool_calls;
    write_calls := Z.min write_raw tool_calls;
    remote_agent_delegations := remote_agent_delegations;
    retries := retries;
    concurrent_branches := concurrent_branches;
    fan_out := fan_out;
    input_bytes := input_bytes;
    output_bytes := output_bytes;
    event_bytes := event_bytes;
    checkpoint_bytes := checkpoint_bytes;
    artifact_bytes := artifact_bytes;
    costs := costs
  |}.

Definition validate (self : t) : result BudgetResolutionError unit :=
  if self.(input_tokens) <? self.(cached_input_tokens)
  then Err (InvalidSubsetLimit CachedInputTokens InputTokens) else
  if self.(output_tokens) <? self.(reasoning_tokens)
  then Err (InvalidSubsetLimit ReasoningTokens OutputTokens) else
  if self.(tool_calls) <? self.(write_calls)
  then Err (InvalidSubsetLimit WriteCalls ToolCalls) else
  Ok tt.

Inductive BudgetNarrowingError :=
| Widened (dimension : BudgetDimension)
| UnbudgetedCurrency (currency : CurrencyCode)
| CostWidened (currency : CurrencyCode).

(** The field/dimension pairs of the [check!] macro, in its order. *)
Definition narrowing_checks : list BudgetDimension :=
  [Deadline; GraphDepth; GraphSteps; ModelAttempts; ModelTurns; InputTokens; CachedInputTokens; ReasoningTokens; OutputTokens; ToolCalls; WriteCalls; RemoteAgentDelegations; Retries; ConcurrentBranches; FanOut; InputBytes; OutputBytes; EventBytes; CheckpointBytes; ArtifactBytes].

Definition check_narrowing (self parent : t) (_ : unit) (d : BudgetDimension) : result BudgetNarrowingError unit :=
  if limit d parent <? limit d self then Err (Widened d) else Ok tt.

Definition check_cost_narrowing (parent : t) (_ : unit) (lim : Money) : result BudgetNarrowingError unit :=
  outer ← ok_or (Costs.get (currency lim) parent.(costs)) (UnbudgetedCurrency (currency lim));
  if micro_units outer <? micro_units lim then Err (CostWidened (currency lim)) else Ok tt.

Definition validate_narrowing (self parent : t) : result BudgetNarrowingError unit :=
  _ ← try_fold (check_narrowing self parent) tt narrowing_checks;
  try_fold (check_cost_narrowing parent) tt self.(costs).

(** The invariant of every resolved budget: counts in range, subset ceilings
    below their inclusive ceilings, sorted bounded costs. *)
Definition wf (self : t) : Prop :=
  (forall d, d <> Deadline -> is_u64 (limit d self)) /\
  self.(cached_input_tokens) <= self.(input_tokens) /\
  self.(reasoning_tokens) <= self.(output_tokens) /\
  self.(write_calls) <= self.(tool_calls) /\
  Costs.wf self.(costs).

End ResolvedBudget.

(** * Recorded usage *)

Module BudgetUsage.
Record t := mk {
  graph_depth : Z;
  graph_steps : Z;
  model_attempts : Z;
  model_turns : Z;
  input_tokens : Z;
  cached_input_tokens : Z;
  reasoning_tokens : Z;
  output_tokens : Z;
  tool_calls : Z;
  write_calls : Z;
  remote_agent_delegations : Z;
  retries : Z;
  concurrent_branches : Z;
  fan_out : Z;
  input_bytes : Z;
  output_bytes : Z;
  event_bytes : Z;
  checkpoint_bytes : Z;
  artifact_bytes : Z;
  known_costs : list Money;
  unpriced_cost_events : Z
}.

#[global] Instance t_eq_dec : EqDecision t.
Proof. solve_decision. Defined.

Inductive BudgetUsageError :=
| Regression (dimension : BudgetDimension)
| SubsetExceedsInclusive (subset inclusive : BudgetDimension)
| Overflow (dimension : BudgetDimension)
| CostsError (source : Costs.CostCollectionError).

(** Usage of one dimension; [Costs] reads the unpriced events, as the code's
    dimension of that name does. *)
Definition used (d : BudgetDimension) (self : t) : Z :=
  match d with
  | Deadline => 0
  | GraphDepth => self.(graph_depth)
  | GraphSteps => self.(graph_steps)
  | ModelAttempts => self.(model_attempts)
  | ModelTurns => self.(model_turns)
  | InputTokens => self.(input_tokens)
  | CachedInputTokens => self.(cached_input_tokens)
  | ReasoningTokens => self.(reasoning_tokens)
  | OutputTokens => self.(output_tokens)
  | ToolCalls => self.(tool_calls)
  | WriteCalls => self.(write_calls)
  | RemoteAgentDelegations => self.(remote_agent_delegations)
  | Retries => self.(retries)
  | ConcurrentBranches => self.(concurrent_branches)
  | FanOut => self.(fan_out)
  | InputBytes => self.(input_bytes)
  | OutputBytes => self.(output_bytes)
  | EventBytes => self.(event_bytes)
  | CheckpointBytes => self.(checkpoint_bytes)
  | ArtifactBytes => self.(artifact_bytes)
  | Costs => self.(unpriced_cost_events)
  end.

Definition zero : t := {|
  graph_depth := 0;
  graph_steps := 0;
  model_attempts := 0;
  model_turns := 0;
  input_tokens := 0;
  cached_input_tokens := 0;
  reasoning_tokens := 0;
  output_tokens := 0;
  tool_calls := 0;
  write_calls := 0;
  remote_agent_delegations := 0;
  retries := 0;
  concurrent_branches := 0;
  fan_out := 0;
  input_bytes := 0;
  output_bytes := 0;
  event_bytes := 0;
  checkpoint_bytes := 0;
  artifact_bytes := 0;
  known_costs := [];
  unpriced_cost_events := 0
|}.

(** [BudgetUsageBuilder]: the same fields before validation. *)
Record Builder := mkBuilder {
  b_graph_depth : Z;
  b_graph_steps : Z;
  b_model_attempts : Z;
  b_model_turns : Z;
  b_input_tokens : Z;
  b_cached_input_tokens : Z;
  b_reasoning_tokens : Z;
  b_output_tokens : Z;
  b_tool_calls : Z;
  b_write_calls : Z;
  b_remote_agent_delegations : Z;
  b_retries : Z;
  b_concurrent_branches : Z;
  b_fan_out : Z;
  b_input_bytes : Z;
  b_output_bytes : Z;
  b_event_bytes : Z;
  b_checkpoint_bytes : Z;
  b_artifact_bytes : Z;
  b_known_costs : list Money;
  b_unpriced_cost_events : Z
}.

Definition builder : Builder := {|
  b_graph_depth := 0;
  b_graph_steps := 0;
  b_model_attempts := 0;
  b_model_turns := 0;
  b_input_tokens := 0;
  b_cached_input_tokens := 0;
  b_reasoning_tokens := 0;
  b_output_tokens := 0;
  b_tool_calls := 0;
  b_write_calls := 0;
  b_remote_agent_delegations := 0;
  b_retries := 0;
  b_concurrent_branches := 0;
  b_fan_out := 0;
  b_input_bytes := 0;
  b_output_bytes := 0;
  b_event_bytes := 0;
  b_checkpoint_bytes := 0;
  b_artifact_bytes := 0;
  b_known_costs := [];
  b_unpriced_cost_events := 0
|}.

Definition from_builder (b : Builder) : result BudgetUsageError t :=
  if b.(b_input_tokens) <? b.(b_cached_input_tokens)
  then Err (SubsetExceedsInclusive CachedInputTokens InputTokens) else
  if b.(b_output_tokens) <? b.(b_reasoning_tokens)
  then Err (SubsetExceedsInclusive ReasoningTokens OutputTokens) else
  if b.(b_tool_calls) <? b.(b_write_calls)
  then Err (SubsetExceedsInclusive WriteCalls ToolCalls) else
  Ok {|
    graph_depth := b.(b_graph_depth);
    graph_steps := b.(b_graph_steps);
    model_attempts := b.(b_model_attempts);
    model_turns := b.(b_model_turns);
    input_tokens := b.(b_input_tokens);
    cached_input_tokens := b.(b_cached_input_tokens);
    reasoning_tokens := b.(b_reasoning_tokens);
    output_tokens := b.(b_output_tokens);
    tool_calls := b.(b_tool_calls);
    write_calls := b.(b_write_calls);
    remote_agent_delegations := b.(b_remote_agent_delegations);
    retries := b.(b_retries);
    concurrent_branches := b.(b_concurrent_branches);
    fan_out := b.(b_fan_out);
    input_bytes := b.(b_input_bytes);
    output_bytes := b.(b_output_bytes);
    event_bytes := b.(b_event_bytes);
    checkpoint_bytes := b.(b_checkpoint_bytes);
    artifact_bytes := b.(b_artifact_bytes);
    known_costs := b.(b_known_costs);
    unpriced_cost_events := b.(b_unpriced_cost_events)
  |}.

Definition cumulative_only (self : t) : t := {|
  graph_depth := 0;
  graph_steps := self.(graph_steps);
  model_attempts := self.(model_attempts);
  model_turns := self.(model_turns);
  input_tokens := self.(input_tokens);
  cached_input_tokens := self.(cached_input_tokens);
  reasoning_tokens := self.(reasoning_tokens);
  output_tokens := self.(output_tokens);
  tool_calls := self.(tool_calls);
  write_calls := self.(write_calls);
  remote_agent_delegations := self.(remote_agent_delegations);
  retries := self.(retries);
  concurrent_branches := 0;
  fan_out := 0;
  input_bytes := self.(input_bytes);
  output_bytes := self.(output_bytes);
  event_bytes := self.(event_bytes);
  checkpoint_bytes := self.(checkpoint_bytes);
  artifact_bytes := self.(artifact_bytes);
  known_costs := self.(known_costs);
  unpriced_cost_events := self.(unpriced_cost_events)
|}.

(** The field/dimension pairs of the [check!] macro, in its order. *)
Definition monotonic_checks : list BudgetDimension :=
  [GraphDepth; GraphSteps; ModelAttempts; ModelTurns; InputTokens; CachedInputTokens; ReasoningTokens; OutputTokens; ToolCalls; WriteCalls; RemoteAgentDelegations; Retries; ConcurrentBranches; FanOut; InputBytes; OutputBytes; EventBytes; CheckpointBytes; ArtifactBytes; Costs].

Definition check_monotonic (self previous : t) (_ : unit) (d : BudgetDimension) : result BudgetUsageError unit :=
  if used d self <? used d previous then Err (Regression d) else Ok tt.

Definition check_cost_monotonic (self : t) (_ : unit) (cost : Money) : result BudgetUsageError unit :=
  if Costs.amount (currency cost) self.(known_costs) <? micro_units cost
  then Err (Regression Costs) else Ok tt.

Definition validate_monotonic_after (self previous : t) : result BudgetUsageError unit :=
  _ ← try_fold (check_monotonic self previous) tt monotonic_checks;
  try_fold (check_cost_monotonic self) tt previous.(known_costs).

(** [add_execution], [add_tokens] and [add_bytes] are one function at the
    three count types. *)
Definition add_count (left right : Z) (dimension : BudgetDimension) : result BudgetUsageError Z :=
  ok_or (Count.checked_add left right) (Overflow dimension).

Definition checked_accumulate (self other : t) : result BudgetUsageError t :=
  graph_steps' ← add_count self.(graph_steps) other.(graph_steps) GraphSteps;
  model_attempts' ← add_count self.(model_attempts) other.(model_attempts) ModelAttempts;
  model_turns' ← add_count self.(model_turns) other.(model_turns) ModelTurns;
  input_tokens' ← add_count self.(input_tokens) other.(input_tokens) InputTokens;
  cached_input_tokens' ← add_count self.(cached_input_tokens) other.(cached_input_tokens) CachedInputTokens;
  reasoning_tokens' ← add_count self.(reasoning_tokens) other.(reasoning_tokens) ReasoningTokens;
  output_tokens' ← add_count self.(output_tokens) other.(output_tokens) OutputTokens;
  tool_calls' ← add_count self.(tool_calls) other.(tool_calls) ToolCalls;
  write_calls' ← add_count self.(write_calls) other.(write_calls) WriteCalls;
  remote_agent_delegations' ← add_count self.(remote_agent_delegations) other.(remote_agent_delegations) RemoteAgentDelegations;
  retries' ← add_count self.(retries) other.(retries) Retries;
  input_bytes' ← add_count self.(input_bytes) other.(input_bytes) InputBytes;
  output_bytes' ← add_count self.(output_bytes) other.(output_bytes) OutputBytes;
  event_bytes' ← add_count self.(event_bytes) other.(event_bytes) EventBytes;
  checkpoint_bytes' ← add_count self.(checkpoint_bytes) other.(checkpoint_bytes) CheckpointBytes;
  artifact_bytes' ← add_count self.(artifact_bytes) other.(artifact_bytes) ArtifactBytes;
  known_costs' ← map_err CostsError (Costs.checked_accumulate self.(known_costs) other.(known_costs));
  unpriced_cost_events' ← add_count self.(unpriced_cost_events) other.(unpriced_cost_events) Costs;
  Ok {|
    graph_depth := Z.max self.(graph_depth) other.(graph_depth);
    graph_steps := graph_steps';
    model_attempts := model_attempts';
    model_turns := model_turns';
    input_tokens := input_tokens';
    cached_input_tokens := cached_input_tokens';
    reasoning_tokens := reasoning_tokens';
    output_tokens := output_tokens';
    tool_calls := tool_calls';
    write_calls := write_calls';
    remote_agent_delegations := remote_agent_delegations';
    retries := retries';
    concurrent_branches := Z.max self.(concurrent_branches) other.(concurrent_branches);
    fan_out := Z.max self.(fan_out) other.(fan_out);
    input_bytes := input_bytes';
    output_bytes := output_bytes';
    event_bytes := event_bytes';
    checkpoint_bytes := checkpoint_bytes';
    artifact_bytes := artifact_bytes';
    known_costs := known_costs';
    unpriced_cost_events := unpriced_cost_events'
  |}.

Definition sub_count (left right : Z) (dimension : BudgetDimension) : result BudgetUsageError Z :=
  ok_or (Count.checked_sub left right) (Regression dimension).

(** The cost column of a cumulative subtraction.  The source subtracts with
    the plain [-] operator, which panics or wraps on underflow: [None] here. *)
Definition subtract_costs (self contribution : list Money) : option (list Money) :=
  mapM (fun cost =>
          micro ← checked_sub (micro_units cost) (Costs.amount (currency cost) contribution);
          Some (mkMoney (currency cost) micro)) self.

(** [Some (Ok u)] and [Some (Err e)] are the two results of the function,
    [None] an arithmetic panic. *)
Definition checked_subtract_cumulative (self contribution : t) : option (result BudgetUsageError t) :=
  match
    _ ← validate_monotonic_after self (cumulative_only contribution);
    graph_steps' ← sub_count self.(graph_steps) contribution.(graph_steps) GraphSteps;
    model_attempts' ← sub_count self.(model_attempts) contribution.(model_attempts) ModelAttempts;
    model_turns' ← sub_count self.(model_turns) contribution.(model_turns) ModelTurns;
    input_tokens' ← sub_count self.(input_tokens) contribution.(input_tokens) InputTokens;
    cached_input_tokens' ← sub_count self.(cached_input_tokens) contribution.(cached_input_tokens) CachedInputTokens;
    reasoning_tokens' ← sub_count self.(reasoning_tokens) contribution.(reasoning_tokens) ReasoningTokens;
    output_tokens' ← sub_count self.(output_tokens) contribution.(output_tokens) OutputTokens;
    tool_calls' ← sub_count self.(tool_calls) contribution.(tool_calls) ToolCalls;
    write_calls' ← sub_count self.(write_calls) contribution.(write_calls) WriteCalls;
    remote_agent_delegations' ← sub_count self.(remote_agent_delegations) contribution.(remote_agent_delegations) RemoteAgentDelegations;
    retries' ← sub_count self.(retries) contribution.(retries) Retries;
    input_bytes' ← sub_count self.(input_bytes) contribution.(input_bytes) InputBytes;
    output_bytes' ← sub_count self.(output_bytes) contribution.(output_bytes) OutputBytes;
    event_bytes' ← sub_count self.(event_bytes) contribution.(event_bytes) EventBytes;
    checkpoint_bytes' ← sub_count self.(checkpoint_bytes) contribution.(checkpoint_bytes) CheckpointBytes;
    artifact_bytes' ← sub_count self.(artifact_bytes) contribution.(artifact_bytes) ArtifactBytes;
    unpriced_cost_events' ← sub_count self.(unpriced_cost_events) contribution.(unpriced_cost_events) Costs;
    Ok {|
      graph_depth := self.(graph_depth);
      graph_steps := graph_steps';
      model_attempts := model_attempts';
      model_turns := model_turns';
      input_tokens := input_tokens';
      cached_input_tokens := cached_input_tokens';
      reasoning_tokens := reasoning_tokens';
      output_tokens := output_tokens';
      tool_calls := tool_calls';
      write_calls := write_calls';
      remote_agent_delegations := remote_agent_delegations';
      retries := retries';
      concurrent_branches := self.(concurrent_branches);
      fan_out := self.(fan_out);
      input_bytes := input_bytes';
      output_bytes := output_bytes';
      event_bytes := event_bytes';
      checkpoint_bytes := checkpoint_bytes';
      artifact_bytes := artifact_bytes';
      known_costs := self.(known_costs);
      unpriced_cost_events := unpriced_cost_events'
    |}
  with
  | Err e => Some (Err e)
  | Ok scalars =>
      costs ← subtract_costs self.(known_costs) contribution.(known_costs);
      Some (
        known_costs' ← map_err CostsError (Costs.collect_costs costs);
        if scalars.(input_tokens) <? scalars.(cached_input_tokens)
        then Err (SubsetExceedsInclusive CachedInputTokens InputTokens) else
        if scalars.(output_tokens) <? scalars.(reasoning_tokens)
        then Err (SubsetExceedsInclusive ReasoningTokens OutputTokens) else
        if scalars.(tool_calls) <? scalars.(write_calls)
        then Err (SubsetExceedsInclusive WriteCalls ToolCalls) else
        Ok {|
          graph_depth := scalars.(graph_depth);
          graph_steps := scalars.(graph_steps);
          model_attempts := scalars.(model_attempts);
          model_turns := scalars.(model_turns);
          input_tokens := scalars.(input_tokens);
          cached_input_tokens := scalars.(cached_input_tokens);
          reasoning_tokens := scalars.(reasoning_tokens);
          output_tokens := scalars.(output_tokens);
          tool_calls := scalars.(tool_calls);
          write_calls := scalars.(write_calls);
          remote_agent_delegations := scalars.(remote_agent_delegations);
          retries := scalars.(retries);
          concurrent_branches := scalars.(concurrent_branches);
          fan_out := scalars.(fan_out);
          input_bytes := scalars.(input_bytes);
          output_bytes := scalars.(output_bytes);
          event_bytes := scalars.(event_bytes);
          checkpoint_bytes := scalars.(checkpoint_bytes);
          artifact_bytes := scalars.(artifact_bytes);
          known_costs := known_costs';
          unpriced_cost_events := scalars.(unpriced_cost_events)
        |})
  end.

(** The invariant of every recorded usage. *)
Definition wf (self : t) : Prop :=
  (forall d, is_u64 (used d self)) /\
  self.(cached_input_tokens) <= self.(input_tokens) /\
  self.(reasoning_tokens) <= self.(output_tokens) /\
  self.(write_calls) <= self.(tool_calls) /\
  Costs.wf self.(known_costs).

(** High-water dimensions keep a maximum; every other dimension is a sum. *)
Definition high_water (d : BudgetDimension) : bool :=
  match d with GraphDepth | ConcurrentBranches | FanOut => true | _ => false end.

Definition combine (d : BudgetDimension) (a b : Z) : Z := if high_water d then Z.max a b else a + b.

End BudgetUsage.

(** * Remaining capacity *)

Module BudgetRemaining.
Record t := mk {
  deadline : Timestamp;
  graph_depth : Z;
  graph_steps : Z;
  model_attempts : Z;
  model_turns : Z;
  input_tokens : Z;
  cached_input_tokens : Z;
  reasoning_tokens : Z;
  output_tokens : Z;
  tool_calls : Z;
  write_calls : Z;
  remote_agent_delegations : Z;
  retries : Z;
  concurrent_branches : Z;
  fan_out : Z;
  input_bytes : Z;
  output_bytes : Z;
  event_bytes : Z;
  checkpoint_bytes : Z;
  artifact_bytes : Z;
  costs : list Money
}.

Definition left_of (d : BudgetDimension) (self : t) : Z :=
  match d with
  | Deadline => self.(deadline)
  | GraphDepth => self.(graph_depth)
  | GraphSteps => self.(graph_steps)
  | ModelAttempts => self.(model_attempts)
  | ModelTurns => self.(model_turns)
  | InputTokens => self.(input_tokens)
  | CachedInputTokens => self.(cached_input_tokens)
  | ReasoningTokens => self.(reasoning_tokens)
  | OutputTokens => self.(output_tokens)
  | ToolCalls => self.(tool_calls)
  | WriteCalls => self.(write_calls)
  | RemoteAgentDelegations => self.(remote_agent_delegations)
  | Retries => self.(retries)
  | ConcurrentBranches => self.(concurrent_branches)
  | FanOut => self.(fan_out)
  | InputBytes => self.(input_bytes)
  | OutputBytes => self.(output_bytes)
  | EventBytes => self.(event_bytes)
  | CheckpointBytes => self.(checkpoint_bytes)
  | ArtifactBytes => self.(artifact_bytes)
  | Costs => 0
  end.

Inductive BudgetEvaluationError :=
| DeadlineExceeded (deadline observed_at : Timestamp)
| ExecutionLimitExceeded (dimension : BudgetDimension) (limit actual : Z)
| TokenLimitExceeded (dimension : BudgetDimension) (limit actual : Z)
| ByteLimitExceeded (dimension : BudgetDimension) (limit actual : Z)
| CostLimitExceeded (limit actual : Money)
| UnbudgetedCurrency (currency : CurrencyCode)
| UnpricedCost (events : Z).

Definition remaining_execution (d : BudgetDimension) (limit actual : Z) : result BudgetEvaluationError Z :=
  ok_or (Count.checked_sub limit actual) (ExecutionLimitExceeded d limit actual).
Definition remaining_tokens (d : BudgetDimension) (limit actual : Z) : result BudgetEvaluationError Z :=
  ok_or (Count.checked_sub limit actual) (TokenLimitExceeded d limit actual).
Definition remaining_bytes (d : BudgetDimension) (limit actual : Z) : result BudgetEvaluationError Z :=
  ok_or (Count.checked_sub limit actual) (ByteLimitExceeded d limit actual).

Definition check_cost (limits : list Money) (_ : unit) (actual : Money) : result BudgetEvaluationError unit :=
  limit ← ok_or (Costs.get (currency actual) limits) (UnbudgetedCurrency (currency actual));
  if micro_units limit <? micro_units actual then Err (CostLimitExceeded limit actual) else Ok tt.

Definition remaining_costs (limits : list Money) (usage : BudgetUsage.t) : result BudgetEvaluationError (list Money) :=
  _ ← try_fold (check_cost limits) tt usage.(BudgetUsage.known_costs);
  if negb (usage.(BudgetUsage.unpriced_cost_events) =? 0)
  then Err (UnpricedCost usage.(BudgetUsage.unpriced_cost_events)) else
  Ok (map (fun limit =>
             mkMoney (currency limit)
                     (micro_units limit - Costs.amount (currency limit) usage.(BudgetUsage.known_costs))) limits).

(** [ResolvedBudget::remaining]. *)
Definition remaining (self : ResolvedBudget.t) (usage : BudgetUsage.t) (observed_at : Timestamp)
  : result BudgetEvaluationError t :=
  if self.(ResolvedBudget.deadline) <=? observed_at
  then Err (DeadlineExceeded self.(ResolvedBudget.deadline) observed_at) else
  graph_depth' ← remaining_execution GraphDepth self.(ResolvedBudget.graph_depth) usage.(BudgetUsage.graph_depth);
  graph_steps' ← remaining_execution GraphSteps self.(ResolvedBudget.graph_steps) usage.(BudgetUsage.graph_steps);
  model_attempts' ← remaining_execution ModelAttempts self.(ResolvedBudget.model_attempts) usage.(BudgetUsage.model_attempts);
  model_turns' ← remaining_execution ModelTurns self.(ResolvedBudget.model_turns) usage.(BudgetUsage.model_turns);
  input_tokens' ← remaining_tokens InputTokens self.(ResolvedBudget.input_tokens) usage.(BudgetUsage.input_tokens);
  cached_input_tokens' ← remaining_tokens CachedInputTokens self.(ResolvedBudget.cached_input_tokens) usage.(BudgetUsage.cached_input_tokens);
  reasoning_tokens' ← remaining_tokens ReasoningTokens self.(ResolvedBudget.reasoning_tokens) usage.(BudgetUsage.reasoning_tokens);
  output_tokens' ← remaining_tokens OutputTokens self.(ResolvedBudget.output_tokens) usage.(BudgetUsage.output_tokens);
  tool_calls' ← remaining_execution ToolCalls self.(ResolvedBudget.tool_calls) usage.(BudgetUsage.tool_calls);
  write_calls' ← remaining_execution WriteCalls self.(ResolvedBudget.write_calls) usage.(BudgetUsage.write_calls);
  remote_agent_delegations' ← remaining_execution RemoteAgentDelegations self.(ResolvedBudget.remote_agent_delegations) usage.(BudgetUsage.remote_agent_delegations);
  retries' ← remaining_execution Retries self.(ResolvedBudget.retries) usage.(BudgetUsage.retries);
  concurrent_branches' ← remaining_execution ConcurrentBranches self.(ResolvedBudget.concurrent_branches) usage.(BudgetUsage.concurrent_branches);
  fan_out' ← remaining_execution FanOut self.(ResolvedBudget.fan_out) usage.(BudgetUsage.fan_out);
  input_bytes' ← remaining_bytes InputBytes self.(ResolvedBudget.input_bytes) usage.(BudgetUsage.input_bytes);
  output_bytes' ← remaining_bytes OutputBytes self.(ResolvedBudget.output_bytes) usage.(BudgetUsage.output_bytes);
  event_bytes' ← remaining_bytes EventBytes self.(ResolvedBudget.event_bytes) usage.(BudgetUsage.event_bytes);
  checkpoint_bytes' ← remaining_bytes CheckpointBytes self.(ResolvedBudget.checkpoint_bytes) usage.(BudgetUsage.checkpoint_bytes);
  artifact_bytes' ← remaining_bytes ArtifactBytes self.(ResolvedBudget.artifact_bytes) usage.(BudgetUsage.artifact_bytes);
  costs' ← remaining_costs self.(ResolvedBudget.costs) usage;
  Ok {|
    deadline := self.(ResolvedBudget.deadline);
    graph_depth := graph_depth';
    graph_steps := graph_steps';
    model_attempts := model_attempts';
    model_turns := model_turns';
    input_tokens := input_tokens';
    cached_input_tokens := cached_input_tokens';
    reasoning_tokens := reasoning_tokens';
    output_tokens := output_tokens';
    tool_calls := tool_calls';
    write_calls := write_calls';
    remote_agent_delegations := remote_agent_delegations';
    retries := retries';
    concurrent_branches := concurrent_branches';
    fan_out := fan_out';
    input_bytes := input_bytes';
    output_bytes := output_bytes';
    event_bytes := event_bytes';
    checkpoint_bytes := checkpoint_bytes';
    artifact_bytes := artifact_bytes';
    costs := costs'
  |}.

Definition deduct_cumulative (self : t) (usage : BudgetUsage.t) : result BudgetEvaluationError t :=
  graph_steps' ← remaining_execution GraphSteps self.(graph_steps) usage.(BudgetUsage.graph_steps);
  model_attempts' ← remaining_execution ModelAttempts self.(model_attempts) usage.(BudgetUsage.model_attempts);
  model_turns' ← remaining_execution ModelTurns self.(model_turns) usage.(BudgetUsage.model_turns);
  input_tokens' ← remaining_tokens InputTokens self.(input_tokens) usage.(BudgetUsage.input_tokens);
  cached_input_tokens' ← remaining_tokens CachedInputTokens self.(cached_input_tokens) usage.(BudgetUsage.cached_input_tokens);
  reasoning_tokens' ← remaining_tokens ReasoningTokens self.(reasoning_tokens) usage.(BudgetUsage.reasoning_tokens);
  output_tokens' ← remaining_tokens OutputTokens self.(output_tokens) usage.(BudgetUsage.output_tokens);
  tool_calls' ← remaining_execution ToolCalls self.(tool_calls) usage.(BudgetUsage.tool_calls);
  write_calls' ← remaining_execution WriteCalls self.(write_calls) usage.(BudgetUsage.write_calls);
  remote_agent_delegations' ← remaining_execution RemoteAgentDelegations self.(remote_agent_delegations) usage.(BudgetUsage.remote_agent_delegations);
  retries' ← remaining_execution Retries self.(retries) usage.(BudgetUsage.retries);
  input_bytes' ← remaining_bytes InputBytes self.(input_bytes) usage.(BudgetUsage.input_bytes);
  output_bytes' ← remaining_bytes OutputBytes self.(output_bytes) usage.(BudgetUsage.output_bytes);
  event_bytes' ← remaining_bytes EventBytes self.(event_bytes) usage.(BudgetUsage.event_bytes);
  checkpoint_bytes' ← remaining_bytes CheckpointBytes self.(checkpoint_bytes) usage.(BudgetUsage.checkpoint_bytes);
  artifact_bytes' ← remaining_bytes ArtifactBytes self.(artifact_bytes) usage.(BudgetUsage.artifact_bytes);
  costs' ← remaining_costs self.(costs) usage;
  Ok {|
    deadline := self.(deadline);
    graph_depth := self.(graph_depth);
    graph_steps := graph_steps';
    model_attempts := model_attempts';
    model_turns := model_turns';
    input_tokens := input_tokens';
    cached_input_tokens := cached_input_tokens';
    reasoning_tokens := reasoning_tokens';
    output_tokens := output_tokens';
    tool_calls := tool_calls';
    write_calls := write_calls';
    remote_agent_delegations := remote_agent_delegations';
    retries := retries';
    concurrent_branches := self.(concurrent_branches);
    fan_out := self.(fan_out);
    input_bytes := input_bytes';
    output_bytes := output_bytes';
    event_bytes := event_bytes';
    checkpoint_bytes := checkpoint_bytes';
    artifact_bytes := artifact_bytes';
    costs := costs'
  |}.

End BudgetRemaining.
