(* ===== verification/BudgetLaws.v ===== *)
(** Theorems on budgets: resolution takes the most restrictive layer in every
    dimension and ignores their order; remaining capacity is exactly the limit
    minus the usage; narrowing is a preorder that a child cannot use to spend
    what its parent could not; accumulating usage is exact, commutative and
    associative, and cumulative subtraction undoes it without ever reaching
    the unchecked subtraction of the source with a larger subtrahend. *)

From Stdlib Require Import ZArith Lia.
From stdpp Require Import prelude.
From S2P Require Import Prelude Ordered Decimal Accounting Time Costs Budget.

Open Scope Z_scope.

(** A counter is every dimension with a scalar limit and a scalar usage. *)
Definition counter (d : BudgetDimension) : Prop := d <> Deadline /\ d <> Costs.

(** [on_counters H] instantiates [H : forall d, counter d -> P d] at every
    counter and simplifies the projections. *)
Ltac at_dim H d := let K := fresh "K" in pose proof (H d ltac:(split; discriminate)) as K; cbn in K.
Ltac on_counters H :=
  at_dim H GraphDepth; at_dim H GraphSteps; at_dim H ModelAttempts; at_dim H ModelTurns;
  at_dim H InputTokens; at_dim H CachedInputTokens; at_dim H ReasoningTokens; at_dim H OutputTokens;
  at_dim H ToolCalls; at_dim H WriteCalls; at_dim H RemoteAgentDelegations; at_dim H Retries;
  at_dim H ConcurrentBranches; at_dim H FanOut; at_dim H InputBytes; at_dim H OutputBytes;
  at_dim H EventBytes; at_dim H CheckpointBytes; at_dim H ArtifactBytes.

(** * Resolution *)

Module Resolution.
Import BudgetLimits ResolvedBudget.

Lemma min_option_comm a b : min_option a b = min_option b a.
Proof. destruct a, b; simpl; try done. f_equal. lia. Qed.

Lemma min_option_assoc a b c : min_option a (min_option b c) = min_option (min_option a b) c.
Proof. destruct a, b, c; simpl; try done. f_equal. lia. Qed.

Lemma limit_most_restrictive d a b :
  BudgetLimits.limit d (most_restrictive a b) = min_option (BudgetLimits.limit d a) (BudgetLimits.limit d b).
Proof. by destruct d. Qed.

Lemma costs_most_restrictive_comm a b :
  BudgetLimits.wf a -> BudgetLimits.wf b ->
  BudgetLimits.costs (most_restrictive a b) = BudgetLimits.costs (most_restrictive b a).
Proof.
  unfold BudgetLimits.wf, most_restrictive. simpl.
  destruct (BudgetLimits.costs a), (BudgetLimits.costs b); try done.
  intros. f_equal. by apply Costs.most_restrictive_comm.
Qed.

Lemma costs_most_restrictive_assoc a b c :
  BudgetLimits.wf a -> BudgetLimits.wf b -> BudgetLimits.wf c ->
  BudgetLimits.costs (most_restrictive a (most_restrictive b c)) =
  BudgetLimits.costs (most_restrictive (most_restrictive a b) c).
Proof.
  unfold BudgetLimits.wf, most_restrictive. simpl.
  destruct (BudgetLimits.costs a), (BudgetLimits.costs b), (BudgetLimits.costs c); try done.
  intros. f_equal. by apply Costs.most_restrictive_assoc.
Qed.

Lemma limits_ext a b :
  (forall d, BudgetLimits.limit d a = BudgetLimits.limit d b) -> BudgetLimits.costs a = BudgetLimits.costs b -> a = b.
Proof.
  intros Hd Hc. pose proof (Hd Deadline) as H0. cbn in H0.
  assert (H : forall d, counter d -> BudgetLimits.limit d a = BudgetLimits.limit d b) by auto.
  on_counters H. clear Hd H. destruct a, b; cbn in *. by subst.
Qed.

Lemma limits_most_restrictive_wf a b : BudgetLimits.wf a -> BudgetLimits.wf b -> BudgetLimits.wf (most_restrictive a b).
Proof.
  unfold BudgetLimits.wf, most_restrictive. simpl.
  destruct (BudgetLimits.costs a), (BudgetLimits.costs b); auto with sk.
Qed.

Lemma most_restrictive_swap acc x y :
  BudgetLimits.wf acc -> BudgetLimits.wf x -> BudgetLimits.wf y ->
  most_restrictive (most_restrictive acc x) y = most_restrictive (most_restrictive acc y) x.
Proof.
  intros Ha Hx Hy. apply limits_ext.
  - intros d. rewrite !limit_most_restrictive, <- !min_option_assoc. f_equal. apply min_option_comm.
  - rewrite <- !costs_most_restrictive_assoc by done.
    unfold most_restrictive at 1 3. cbn -[most_restrictive].
    by rewrite (costs_most_restrictive_comm x y).
Qed.

Lemma fold_most_restrictive_perm l l' acc :
  Permutation l l' -> BudgetLimits.wf acc -> Forall BudgetLimits.wf l ->
  fold_left most_restrictive l acc = fold_left most_restrictive l' acc.
Proof.
  intros Hp. revert acc. induction Hp as [|x l l' Hp IH|x y l|l1 l2 l3 H12 IH12 H23 IH23]; intros acc Ha HF; simpl.
  - done.
  - apply Forall_cons in HF as [Hx HF]. apply IH; [by apply limits_most_restrictive_wf | done].
  - apply Forall_cons in HF as [Hy [Hx HF]%Forall_cons]. by rewrite most_restrictive_swap.
  - rewrite IH12 by done. apply IH23; [done |]. by rewrite <- H12.
Qed.

(** The effective limit of a dimension is the least limit any layer sets. *)
Lemma fold_limit d l acc :
  (forall x, BudgetLimits.limit d acc = Some x \/ (exists a, a ∈ l /\ BudgetLimits.limit d a = Some x) ->
     exists v, BudgetLimits.limit d (fold_left most_restrictive l acc) = Some v /\ v <= x) /\
  (forall v, BudgetLimits.limit d (fold_left most_restrictive l acc) = Some v ->
     BudgetLimits.limit d acc = Some v \/ exists a, a ∈ l /\ BudgetLimits.limit d a = Some v).
Proof.
  revert acc. induction l as [|b l IH]; intros acc; simpl.
  - split; [| by left]. intros x [Hx | (a & Ha & _)]; [exists x; split; [done | lia] |]. by apply not_elem_of_nil in Ha.
  - destruct (IH (most_restrictive acc b)) as [H1 H2]. rewrite limit_most_restrictive in H1, H2. split.
    + intros x Hx.
      assert (Hcase : (exists w, min_option (BudgetLimits.limit d acc) (BudgetLimits.limit d b) = Some w /\ w <= x) \/
                      exists a, a ∈ l /\ BudgetLimits.limit d a = Some x).
      { destruct Hx as [Hx | (a & [-> | Ha]%elem_of_cons & Hx)]; [left | left | right; by exists a];
          rewrite Hx; [destruct (BudgetLimits.limit d b) | destruct (BudgetLimits.limit d acc)]; simpl; eexists;
          (split; [done | lia]). }
      destruct Hcase as [(w & Hw & Hle) | Ha].
      * destruct (H1 w) as (v & Hv & ?); [by left |]. exists v. split; [done | lia].
      * apply H1. by right.
    + intros v Hv. destruct (H2 v Hv) as [Hm | (a & Ha & Hv')]; [| right; exists a; split; [by right | done]].
      destruct (BudgetLimits.limit d acc) as [x|] eqn:Ex, (BudgetLimits.limit d b) as [y|] eqn:Ey; simpl in Hm; try done.
      * injection Hm as <-. destruct (Z.min_spec x y) as [[_ ->] | [_ ->]]; [by left |].
        right. exists b. split; [by left | done].
      * by left.
      * right. exists b. split; [by left | congruence].
Qed.

(** Every currency of the effective ceilings is in each layer that sets
    costs, under a ceiling at least as large. *)
Definition costs_within (inner outer : list Money) : Prop :=
  forall k m, Costs.get k inner = Some m -> exists o, Costs.get k outer = Some o /\ micro_units m <= micro_units o.

Lemma costs_within_refl a : costs_within a a.
Proof. intros k m Hm. exists m. split; [done | lia]. Qed.

Lemma costs_within_trans a b c : costs_within a b -> costs_within b c -> costs_within a c.
Proof.
  intros Hab Hbc k m Hm. destruct (Hab k m Hm) as (o & Ho & ?). destruct (Hbc k o Ho) as (p & Hp & ?).
  exists p. split; [done | lia].
Qed.

Lemma costs_within_intersection a b :
  Costs.wf a -> Costs.wf b ->
  costs_within (Costs.most_restrictive a b) a /\ costs_within (Costs.most_restrictive a b) b.
Proof.
  intros Ha Hb. split; intros k m; rewrite Costs.get_most_restrictive by done;
    destruct (Costs.get k a) as [x|], (Costs.get k b) as [y|]; simpl; try done;
    intros [= <-]; eexists; (split; [done | simpl; lia]).
Qed.

Lemma fold_costs l acc :
  Forall BudgetLimits.wf l -> BudgetLimits.wf acc ->
  BudgetLimits.wf (fold_left most_restrictive l acc) /\
  forall lc, (BudgetLimits.costs acc = Some lc \/ exists a, a ∈ l /\ BudgetLimits.costs a = Some lc) ->
    exists ec, BudgetLimits.costs (fold_left most_restrictive l acc) = Some ec /\ costs_within ec lc.
Proof.
  revert acc. induction l as [|b l IH]; intros acc HF Ha; simpl.
  - split; [done |]. intros lc [Hc | (x & Hx & _)]; [exists lc; split; [done | apply costs_within_refl] |].
    by apply not_elem_of_nil in Hx.
  - apply Forall_cons in HF as [Hb HF].
    destruct (IH (most_restrictive acc b) HF (limits_most_restrictive_wf _ _ Ha Hb)) as [Hwf H]. split; [done |].
    intros lc Hlc.
    assert (Hcase : (exists ic, BudgetLimits.costs (most_restrictive acc b) = Some ic /\ costs_within ic lc) \/
                    exists a, a ∈ l /\ BudgetLimits.costs a = Some lc).
    { unfold BudgetLimits.wf in *. unfold most_restrictive. simpl.
      destruct Hlc as [Hc | (a & [-> | Hin]%elem_of_cons & Hc)]; [left | left | right; by exists a];
        rewrite Hc in *; [destruct (BudgetLimits.costs b) | destruct (BudgetLimits.costs acc)];
        eexists; (split; [done |]); try apply costs_within_refl; by apply costs_within_intersection. }
    destruct Hcase as [(ic & Hic & Hw) | Hex]; [| apply H; by right].
    destruct (H ic) as (ec & Hec & Hw'); [by left |]. exists ec. split; [done |]. by eapply costs_within_trans.
Qed.

Lemma fold_costs_origin l acc :
  BudgetLimits.costs acc = None -> is_Some (BudgetLimits.costs (fold_left most_restrictive l acc)) ->
  exists a, a ∈ l /\ is_Some (BudgetLimits.costs a).
Proof.
  revert acc. induction l as [|b l IH]; simpl; intros acc Hacc Hs; [rewrite Hacc in Hs; by destruct Hs |].
  destruct (BudgetLimits.costs b) eqn:Eb.
  { exists b. split; [by left | by rewrite Eb]. }
  destruct (IH (most_restrictive acc b)) as (a & Ha & ?); [| done | exists a; split; [by right | done]].
  unfold most_restrictive. simpl. by rewrite Hacc, Eb.
Qed.

(** The resolved ceiling before the three subset clamps. *)
Definition clamp (d : BudgetDimension) (b : ResolvedBudget.t) (v : Z) : Z :=
  match d with
  | CachedInputTokens => Z.min v (ResolvedBudget.input_tokens b)
  | ReasoningTokens => Z.min v (ResolvedBudget.output_tokens b)
  | WriteCalls => Z.min v (ResolvedBudget.tool_calls b)
  | _ => v
  end.

Lemma resolve_Ok layers b :
  resolve layers = Ok b ->
  layers <> [] /\ Z.of_nat (length layers) <= MAX_BUDGET_LAYERS /\
  (forall d, d <> Costs -> exists v, BudgetLimits.limit d (effective_limits layers) = Some v /\
                                     ResolvedBudget.limit d b = clamp d b v) /\
  BudgetLimits.costs (effective_limits layers) = Some (ResolvedBudget.costs b).
Proof.
  unfold resolve, required. cbv zeta. intros H. case_bool_decide; [done |].
  destruct (Z.ltb_spec MAX_BUDGET_LAYERS (Z.of_nat (length layers))); [done |].
  simp_ok. subst. split_and!; [done | done | | done].
  intros [] Hd; try done; cbn; eexists; split; try eassumption; reflexivity.
Qed.

(** No resolved ceiling exceeds the limit a layer sets. *)
Lemma resolve_below layers b l d x :
  resolve layers = Ok b -> l ∈ layers -> BudgetLimits.limit d l = Some x -> ResolvedBudget.limit d b <= x.
Proof.
  intros E Hl Hx. destruct (resolve_Ok _ _ E) as (_ & _ & Hd & _). destruct (decide (d = Costs)) as [-> |]; [done |].
  destruct (Hd d) as (v & Hv & ->); [done |].
  destruct (proj1 (fold_limit d layers BudgetLimits.empty) x) as (v' & Hv' & Hle); [right; by exists l |].
  unfold effective_limits in Hv. simplify_eq. destruct d; simpl; lia.
Qed.

Lemma resolve_complete layers :
  layers <> [] -> Z.of_nat (length layers) <= MAX_BUDGET_LAYERS ->
  (forall d, d <> Costs -> is_Some (BudgetLimits.limit d (effective_limits layers))) ->
  is_Some (BudgetLimits.costs (effective_limits layers)) ->
  exists b, resolve layers = Ok b.
Proof.
  intros Hne Hlen Hd [c Hc]. unfold resolve, required. cbv zeta.
  rewrite bool_decide_eq_false_2 by done.
  destruct (Z.ltb_spec MAX_BUDGET_LAYERS (Z.of_nat (length layers))); [lia |].
  assert (H0 : forall d, counter d -> exists v, BudgetLimits.limit d (effective_limits layers) = Some v).
  { intros d [_ ?]. by apply Hd. }
  destruct (Hd Deadline ltac:(done)) as [dl Hdl]. cbn in Hdl. rewrite Hdl, Hc. on_counters H0.
  repeat match goal with K : exists _, _ = Some _ |- _ => destruct K as [? K]; rewrite K; clear K end.
  by eexists.
Qed.

(** Budget resolution is sound and complete.  [resolve] succeeds exactly
    when there are one to sixteen layers and every dimension is limited by
    some layer.  The resolved ceiling of a dimension never exceeds the limit
    any layer sets, it is one of the limits set (or the inclusive ceiling the
    source clamps a subset to), every resolved currency ceiling is within
    each layer that sets costs, and the three subset ceilings are below their
    inclusive ones, so the resolved budget passes its own [validate]. *)
Theorem resolve_most_restrictive (layers : list BudgetLimits.t) :
  Forall BudgetLimits.wf layers ->
  (is_ok (resolve layers) = true <->
     layers <> [] /\ Z.of_nat (length layers) <= MAX_BUDGET_LAYERS /\
     (forall d, d <> Costs -> exists l, l ∈ layers /\ is_Some (BudgetLimits.limit d l)) /\
     (exists l, l ∈ layers /\ is_Some (BudgetLimits.costs l))) /\
  (forall b, resolve layers = Ok b ->
     (forall l d x, l ∈ layers -> BudgetLimits.limit d l = Some x -> ResolvedBudget.limit d b <= x) /\
     (forall d, d <> Costs -> exists l x, l ∈ layers /\ BudgetLimits.limit d l = Some x /\
                                          ResolvedBudget.limit d b = clamp d b x) /\
     (forall l lc, l ∈ layers -> BudgetLimits.costs l = Some lc -> costs_within (ResolvedBudget.costs b) lc) /\
     validate b = Ok tt).
Proof.
  intros HF. split.
  - split.
    + destruct (resolve layers) as [b|] eqn:E; [intros _ | done].
      destruct (resolve_Ok _ _ E) as (Hne & Hlen & Hd & Hc). split_and!; [done | done | |].
      * intros d Hdc. destruct (Hd d Hdc) as (v & Hv & _).
        destruct (proj2 (fold_limit d layers BudgetLimits.empty) v Hv) as [Hemp | (l & Hl & Hv')]; [by destruct d |].
        exists l. split; [done | by eexists].
      * apply (fold_costs_origin layers BudgetLimits.empty); [done |]. unfold effective_limits in Hc. by rewrite Hc.
    + intros (Hne & Hlen & Hd & (l & Hl & [lc Hlc])).
      destruct (resolve_complete layers) as [b ->]; [done | done | | | done].
      * intros d Hdc. destruct (Hd d Hdc) as (l' & Hl' & [x Hx]).
        destruct (proj1 (fold_limit d layers BudgetLimits.empty) x) as (v & Hv & _); [right; by exists l' |]. by eexists.
      * destruct (proj2 (fold_costs layers BudgetLimits.empty HF I) lc) as (ec & Hec & _); [right; by exists l |]. by eexists.
  - intros b E. destruct (resolve_Ok _ _ E) as (Hne & Hlen & Hd & Hc). split_and!.
    + intros l d x. by apply resolve_below.
    + intros d Hdc. destruct (Hd d Hdc) as (v & Hv & Hb).
      destruct (proj2 (fold_limit d layers BudgetLimits.empty) v Hv) as [Hemp | (l & Hl & Hv')]; [by destruct d |].
      by exists l, v.
    + intros l lc Hl Hlc.
      destruct (proj2 (fold_costs layers BudgetLimits.empty HF I) lc) as (ec & Hec & Hw); [right; by exists l |].
      unfold effective_limits in Hc. by simplify_eq.
    + destruct (Hd CachedInputTokens ltac:(done)) as (v1 & _ & H1).
      destruct (Hd ReasoningTokens ltac:(done)) as (v2 & _ & H2).
      destruct (Hd WriteCalls ltac:(done)) as (v3 & _ & H3). cbn in *. unfold validate.
      repeat match goal with |- context [?a <? ?b] => destruct (Z.ltb_spec a b); [lia |] end. done.
Qed.

(** Two concrete policy layers: a platform default and a tenant override. *)
Definition platform_layer : BudgetLimits.t :=
  BudgetLimits.mk (Some 1000) (Some 8) (Some 50) (Some 40) (Some 30) (Some 9000) (Some 9000) (Some 5000) (Some 4000)
    (Some 60) (Some 60) (Some 5) (Some 6) (Some 7) (Some 8) (Some 70000) (Some 60000) (Some 50000) (Some 40000)
    (Some 30000) (Some [mkMoney (bytes_of "EUR") 90; mkMoney (bytes_of "USD") 80]).
Definition tenant_layer : BudgetLimits.t :=
  BudgetLimits.mk (Some 900) None (Some 5) None None (Some 700) None None None
    None None None None None None None None None None None (Some [mkMoney (bytes_of "USD") 120]).

Lemma resolve_most_restrictive_witness :
  Forall BudgetLimits.wf [platform_layer; tenant_layer] /\
  exists b, resolve [platform_layer; tenant_layer] = Ok b /\ validate b = Ok tt /\
    ResolvedBudget.limit CachedInputTokens b <= 700 /\
    ResolvedBudget.costs b = [mkMoney (bytes_of "USD") 80].
Proof.
  assert (HF : Forall BudgetLimits.wf [platform_layer; tenant_layer]).
  { repeat constructor; unfold in_u, u64_max, Costs.MAX_COST_CURRENCIES; simpl; lia. }
  split; [exact HF |].
  destruct (resolve_most_restrictive [platform_layer; tenant_layer] HF) as [_ H].
  eexists. split; [vm_compute; reflexivity |].
  specialize (H _ ltac:(vm_compute; reflexivity)). destruct H as (Hle & _ & _ & Hv).
  split; [exact Hv |]. split; [vm_compute; discriminate | reflexivity].
Defined.

(** Layer order is irrelevant: permuting the layers changes neither the
    resolved budget nor the error, because taking the most restrictive of two
    layers is commutative and associative, currency ceilings included. *)
Theorem resolve_order_irrelevant (layers layers' : list BudgetLimits.t) :
  Forall BudgetLimits.wf layers -> Permutation layers layers' -> resolve layers = resolve layers'.
Proof.
  intros HF Hp. unfold resolve. rewrite <- (Permutation_length Hp).
  assert (effective_limits layers = effective_limits layers') as ->
    by (by apply (fold_most_restrictive_perm layers layers' BudgetLimits.empty)).
  destruct (bool_decide_reflect (layers = [])) as [-> | Hne].
  - apply Permutation_nil_l in Hp as <-. by rewrite bool_decide_eq_true_2.
  - rewrite bool_decide_eq_false_2; [done |]. intros ->. by apply Permutation_nil_r in Hp.
Qed.

Lemma resolve_order_irrelevant_witness :
  Permutation [platform_layer; tenant_layer] [tenant_layer; platform_layer] /\
  resolve [platform_layer; tenant_layer] = resolve [tenant_layer; platform_layer].
Proof.
  assert (HF : Forall BudgetLimits.wf [platform_layer; tenant_layer]).
  { repeat constructor; unfold in_u, u64_max, Costs.MAX_COST_CURRENCIES; simpl; lia. }
  split; [apply perm_swap |]. apply (resolve_order_irrelevant _ _ HF). apply perm_swap.
Defined.

End Resolution.

(** * Remaining capacity and narrowing *)

Module Capacity.
Import Resolution.
Import BudgetRemaining.

(** The charges a usage may carry under a set of ceilings. *)
Definition costs_fit (limits : list Money) (usage : BudgetUsage.t) : Prop :=
  BudgetUsage.unpriced_cost_events usage = 0 /\
  forall m, m ∈ BudgetUsage.known_costs usage ->
    exists l, Costs.get (currency m) limits = Some l /\ micro_units m <= micro_units l.

(** The admission predicate [remaining] decides. *)
Definition fits (b : ResolvedBudget.t) (usage : BudgetUsage.t) : Prop :=
  (forall d, counter d -> BudgetUsage.used d usage <= ResolvedBudget.limit d b) /\
  costs_fit (ResolvedBudget.costs b) usage.

Lemma check_cost_Ok limits m :
  check_cost limits tt m = Ok tt <-> exists l, Costs.get (currency m) limits = Some l /\ micro_units m <= micro_units l.
Proof.
  unfold check_cost. destruct (Costs.get (currency m) limits) as [l|]; simpl.
  - destruct (Z.ltb_spec (micro_units l) (micro_units m)).
    + split; [done |]. intros (l' & [= <-] & ?). lia.
    + split; [| done]. intros _. by exists l.
  - split; [done |]. by intros (l & ? & _).
Qed.

Lemma remaining_costs_Ok limits usage r :
  remaining_costs limits usage = Ok r <->
  costs_fit limits usage /\
  r = map (fun l => mkMoney (currency l) (micro_units l - Costs.amount (currency l) (BudgetUsage.known_costs usage))) limits.
Proof.
  assert (Hchk : try_fold (check_cost limits) tt (BudgetUsage.known_costs usage) = Ok tt <->
    forall m, m ∈ BudgetUsage.known_costs usage ->
      exists l, Costs.get (currency m) limits = Some l /\ micro_units m <= micro_units l).
  { rewrite try_fold_checks, Forall_forall. by setoid_rewrite check_cost_Ok. }
  unfold remaining_costs, costs_fit. rewrite <- Hchk.
  destruct (try_fold _ _ _) as [[]|e]; simpl; [| naive_solver].
  destruct (Z.eqb_spec (BudgetUsage.unpriced_cost_events usage) 0); simpl; naive_solver.
Qed.

Ltac remaining_counts :=
  unfold remaining_execution, remaining_tokens, remaining_bytes, Count.checked_sub in *.

(** The currency column: ceilings minus charges, per currency. *)
Definition deduct (usage : BudgetUsage.t) (l : Money) : Money :=
  mkMoney (currency l) (micro_units l - Costs.amount (currency l) (BudgetUsage.known_costs usage)).

Lemma ksorted_map_currency (f : Money -> Money) l :
  (forall m, currency (f m) = currency m) -> ksorted currency l -> ksorted currency (map f l).
Proof.
  intros Hf. induction 1 as [|x l HF Hs IH]; simpl; constructor; [| done].
  apply Forall_map. eapply Forall_impl; [exact HF |]. intros y Hy. simpl. by rewrite !Hf.
Qed.

Lemma get_map (f : Money -> Money) k l :
  (forall m, currency (f m) = currency m) -> ksorted currency l ->
  Costs.get k (map f l) = f <$> Costs.get k l.
Proof.
  intros Hf Hs. rewrite !Costs.get_find by (done || by apply ksorted_map_currency).
  clear Hs. induction l as [|x l IH]; simpl; [done |]. rewrite Hf. by destruct (eqb_cmp (currency x) k).
Qed.

Lemma unbudgeted_zero limits usage k :
  ksorted currency (BudgetUsage.known_costs usage) -> costs_fit limits usage ->
  Costs.get k limits = None -> Costs.amount k (BudgetUsage.known_costs usage) = 0.
Proof.
  intros Hs [_ Hfit] Hn. unfold Costs.amount.
  destruct (Costs.get k (BudgetUsage.known_costs usage)) as [m|] eqn:E; [| done].
  apply Costs.get_iff in E as [Hm <-]; [| done]. destruct (Hfit m Hm) as (l & ? & _). congruence.
Qed.

Lemma amount_deduct b usage k :
  ResolvedBudget.wf b -> BudgetUsage.wf usage -> costs_fit (ResolvedBudget.costs b) usage ->
  Costs.amount k (map (deduct usage) (ResolvedBudget.costs b)) + Costs.amount k (BudgetUsage.known_costs usage)
  = Costs.amount k (ResolvedBudget.costs b).
Proof.
  intros (_ & _ & _ & _ & Hb & _) (_ & _ & _ & _ & Hu & _) Hfit.
  unfold Costs.amount at 1 3. rewrite get_map by done.
  destruct (Costs.get k (ResolvedBudget.costs b)) as [l|] eqn:E; simpl.
  - rewrite (Costs.get_currency _ _ _ E). lia.
  - by rewrite (unbudgeted_zero _ _ _ Hu Hfit E).
Qed.

Lemma deduct_nonneg b usage m :
  ResolvedBudget.wf b -> BudgetUsage.wf usage -> costs_fit (ResolvedBudget.costs b) usage ->
  m ∈ map (deduct usage) (ResolvedBudget.costs b) -> 0 <= micro_units m.
Proof.
  intros (_ & _ & _ & _ & Hb & _ & HF) (_ & _ & _ & _ & Hu & _) [_ Hfit] (l & -> & Hl)%list_elem_of_fmap.
  rewrite Forall_forall in HF. specialize (HF _ Hl). unfold in_u in HF. simpl. unfold Costs.amount.
  destruct (Costs.get (currency l) (BudgetUsage.known_costs usage)) as [u|] eqn:E; [| lia].
  apply Costs.get_iff in E as [Hin Hc]; [| done]. destruct (Hfit u Hin) as (l' & Hl' & ?).
  rewrite Hc in Hl'. rewrite (Costs.get_self _ l Hb Hl) in Hl'. simplify_eq. lia.
Qed.

Lemma remaining_Ok b usage t r :
  remaining b usage t = Ok r ->
  t < ResolvedBudget.deadline b /\ fits b usage /\
  (forall d, counter d -> left_of d r = ResolvedBudget.limit d b - BudgetUsage.used d usage) /\
  deadline r = ResolvedBudget.deadline b /\
  remaining_costs (ResolvedBudget.costs b) usage = Ok (costs r).
Proof.
  unfold remaining. remaining_counts. intros H. simp_ok. bools.
  repeat match goal with K : checked_sub _ _ = Some _ |- _ => apply checked_sub_Some in K as [-> ?] end.
  subst. split_and!; [done | split | | done | done].
  - intros [] [? ?]; done.
  - eapply remaining_costs_Ok. eassumption.
  - intros [] [? ?]; done.
Qed.

Lemma remaining_complete b usage t :
  t < ResolvedBudget.deadline b -> fits b usage -> exists r, remaining b usage t = Ok r.
Proof.
  intros Ht [Hd Hc]. unfold remaining. remaining_counts.
  destruct (Z.leb_spec (ResolvedBudget.deadline b) t); [lia |].
  rewrite (proj2 (remaining_costs_Ok _ _ _) (conj Hc eq_refl)).
  on_counters Hd.
  repeat match goal with K : ?a <= ?l |- context [checked_sub ?l ?a] =>
    rewrite (proj2 (checked_sub_Some l a (l - a)) (conj eq_refl K)) end.
  by eexists.
Qed.

(** Remaining capacity is exact: [remaining] succeeds precisely before the
    deadline when every scalar usage is within its limit, no unpriced cost
    event is recorded and every charged currency is budgeted for at least its
    charge; what it returns is limit minus usage in every dimension and
    currency, never negative, so no subtraction of the source underflows. *)
Theorem remaining_exact (b : ResolvedBudget.t) (usage : BudgetUsage.t) (t : Timestamp.Timestamp) :
  ResolvedBudget.wf b -> BudgetUsage.wf usage ->
  (is_ok (remaining b usage t) = true <-> t < ResolvedBudget.deadline b /\ fits b usage) /\
  (forall r, remaining b usage t = Ok r ->
     deadline r = ResolvedBudget.deadline b /\
     (forall d, counter d -> 0 <= left_of d r /\
        left_of d r + BudgetUsage.used d usage = ResolvedBudget.limit d b) /\
     (forall k, Costs.amount k (costs r) + Costs.amount k (BudgetUsage.known_costs usage)
                = Costs.amount k (ResolvedBudget.costs b)) /\
     (forall m, m ∈ costs r -> 0 <= micro_units m)).
Proof.
  intros Hb Hu. split.
  - split.
    + destruct (remaining b usage t) as [r|] eqn:E; [intros _ | done].
      destruct (remaining_Ok _ _ _ _ E) as (? & ? & _). done.
    + intros [Ht Hf]. destruct (remaining_complete b usage t Ht Hf) as [r ->]. done.
  - intros r E. destruct (remaining_Ok _ _ _ _ E) as (_ & [Hd Hfit] & Hl & Hdl & Hc).
    split_and!; [done | | |].
    + intros d Hcd. rewrite Hl by done. specialize (Hd d Hcd). lia.
    + intros k. apply remaining_costs_Ok in Hc as [_ ->]. by apply amount_deduct.
    + intros m Hm. apply remaining_costs_Ok in Hc as [_ Heq]. rewrite Heq in Hm.
      eapply deduct_nonneg; eauto.
Qed.

(** A concrete parent budget, a narrower child budget and a usage. *)
Definition parent_budget : ResolvedBudget.t :=
  ResolvedBudget.mk 1000 8 50 40 30 9000 9000 5000 5000 60 60 5 6 7 8 70000 60000 50000 40000 30000
    [mkMoney (bytes_of "EUR") 90; mkMoney (bytes_of "USD") 80].
Definition child_budget : ResolvedBudget.t :=
  ResolvedBudget.mk 900 4 20 10 10 900 900 500 500 6 6 1 2 3 4 7000 6000 5000 4000 3000
    [mkMoney (bytes_of "USD") 30].
Definition sample_usage : BudgetUsage.t :=
  BudgetUsage.mk 2 7 3 2 100 40 10 60 5 1 0 1 2 3 700 300 200 100 0 [mkMoney (bytes_of "USD") 11] 0.

Ltac concrete_wf :=
  unfold Costs.wf, Costs.MAX_COST_CURRENCIES, in_u, u64_max; cbn;
  repeat first [ lia | reflexivity | constructor | progress cbn [micro_units] ].

Lemma parent_budget_wf : ResolvedBudget.wf parent_budget.
Proof. split; [intros [] ?; unfold in_u, u64_max; cbn; try done; lia |]. concrete_wf. Qed.
Lemma child_budget_wf : ResolvedBudget.wf child_budget.
Proof. split; [intros [] ?; unfold in_u, u64_max; cbn; try done; lia |]. concrete_wf. Qed.
Lemma sample_usage_wf : BudgetUsage.wf sample_usage.
Proof. split; [intros []; unfold in_u, u64_max; cbn; lia |]. concrete_wf. Qed.

Lemma remaining_exact_witness :
  ResolvedBudget.wf parent_budget /\ BudgetUsage.wf sample_usage /\
  exists r, remaining parent_budget sample_usage 10 = Ok r /\ left_of GraphSteps r + 7 = 50 /\
    Costs.amount (bytes_of "USD") (costs r) + Costs.amount (bytes_of "USD") (BudgetUsage.known_costs sample_usage)
    = Costs.amount (bytes_of "USD") (ResolvedBudget.costs parent_budget).
Proof.
  destruct (remaining_exact parent_budget sample_usage 10 parent_budget_wf sample_usage_wf) as [_ H].
  split; [exact parent_budget_wf | split; [exact sample_usage_wf |]].
  eexists. split; [vm_compute; reflexivity |]. specialize (H _ ltac:(vm_compute; reflexivity)).
  destruct H as (_ & Hd & Hc & _). split; [exact (proj2 (Hd GraphSteps ltac:(split; discriminate))) |].
  exact (Hc (bytes_of "USD")).
Defined.

(** ** Narrowing *)

Lemma narrowing_checks_complete d : d <> Costs -> d ∈ ResolvedBudget.narrowing_checks.
Proof. intros Hd. destruct d; try done; apply (bool_decide_unpack _); vm_compute; done. Qed.

Definition narrower (c p : ResolvedBudget.t) : Prop :=
  (forall d, d <> Costs -> ResolvedBudget.limit d c <= ResolvedBudget.limit d p) /\
  costs_within (ResolvedBudget.costs c) (ResolvedBudget.costs p).

Lemma validate_narrowing_iff c p :
  ksorted currency (ResolvedBudget.costs c) ->
  ResolvedBudget.validate_narrowing c p = Ok tt <-> narrower c p.
Proof.
  intros Hs. unfold ResolvedBudget.validate_narrowing, narrower.
  assert (Hchk : try_fold (ResolvedBudget.check_narrowing c p) tt ResolvedBudget.narrowing_checks = Ok tt <->
                 forall d, d <> Costs -> ResolvedBudget.limit d c <= ResolvedBudget.limit d p).
  { rewrite try_fold_checks, Forall_forall. unfold ResolvedBudget.check_narrowing. split.
    - intros H d Hd. specialize (H d (narrowing_checks_complete d Hd)). simpl in H.
      destruct (Z.ltb_spec (ResolvedBudget.limit d p) (ResolvedBudget.limit d c)); [done | lia].
    - intros H d _. destruct (decide (d = Costs)) as [-> |]; [done |]. specialize (H d ltac:(done)).
      destruct (Z.ltb_spec (ResolvedBudget.limit d p) (ResolvedBudget.limit d c)); [lia | done]. }
  assert (Hcost : try_fold (ResolvedBudget.check_cost_narrowing p) tt (ResolvedBudget.costs c) = Ok tt <->
                  costs_within (ResolvedBudget.costs c) (ResolvedBudget.costs p)).
  { rewrite try_fold_checks, Forall_forall. unfold ResolvedBudget.check_cost_narrowing. split.
    - intros H k m Hm. apply Costs.get_iff in Hm as [Hm <-]; [| done]. specialize (H m Hm). simpl in H.
      destruct (Costs.get (currency m) (ResolvedBudget.costs p)) as [o|]; simpl in H; [| done].
      destruct (Z.ltb_spec (micro_units o) (micro_units m)); [done |]. by exists o.
    - intros H m Hm. destruct (H (currency m) m) as (o & -> & ?); [by apply Costs.get_self |]. simpl.
      destruct (Z.ltb_spec (micro_units o) (micro_units m)); [lia | done]. }
  rewrite <- Hchk, <- Hcost. destruct (try_fold (ResolvedBudget.check_narrowing c p) _ _) as [[]|]; simpl; naive_solver.
Qed.

Lemma narrower_fits c p usage : narrower c p -> fits c usage -> fits p usage.
Proof.
  intros [Hd Hc] [Hfd [Hun Hfit]]. split; [| split; [done |]].
  - intros d Hcd. specialize (Hfd d Hcd). specialize (Hd d (proj2 Hcd)). lia.
  - intros m Hm. destruct (Hfit m Hm) as (l & Hl & ?). destruct (Hc _ _ Hl) as (o & Ho & ?). exists o. split; [done | lia].
Qed.

(** Narrowing is safe delegation: [validate_narrowing] accepts exactly the
    children whose every ceiling, deadline and currency ceiling is within the
    parent's; it is reflexive and transitive along an ancestry; and any usage
    the child budget admits at some instant the parent admits then too, with
    at least as much left in every dimension. *)
Theorem narrowing_sound (c p : ResolvedBudget.t) :
  ResolvedBudget.wf c -> ResolvedBudget.wf p -> ResolvedBudget.validate_narrowing c p = Ok tt ->
  (forall usage t r, remaining c usage t = Ok r ->
     exists r', remaining p usage t = Ok r' /\
       (forall d, counter d -> left_of d r <= left_of d r') /\ deadline r <= deadline r') /\
  (forall g, ResolvedBudget.wf g -> ResolvedBudget.validate_narrowing p g = Ok tt ->
     ResolvedBudget.validate_narrowing c g = Ok tt) /\
  ResolvedBudget.validate_narrowing c c = Ok tt.
Proof.
  intros (_ & _ & _ & _ & Hc & _) (_ & _ & _ & _ & Hp & _) Hn.
  apply (validate_narrowing_iff c p Hc) in Hn. pose proof Hn as [Hnd Hnc]. split_and!.
  - intros usage t r E. destruct (remaining_Ok _ _ _ _ E) as (Ht & Hf & Hl & Hdl & _).
    pose proof (Hnd Deadline ltac:(done)) as Hdead. cbn in Hdead.
    destruct (remaining_complete p usage t) as [r' E']; [lia | by eapply narrower_fits |].
    exists r'. destruct (remaining_Ok _ _ _ _ E') as (_ & _ & Hl' & Hdl' & _). split_and!; [done | | lia].
    intros d Hd. rewrite Hl, Hl' by done. specialize (Hnd d (proj2 Hd)). lia.
  - intros g _ [Hgd Hgc]%validate_narrowing_iff; [| done]. apply (validate_narrowing_iff c g Hc). split.
    + intros d Hd. specialize (Hnd d Hd). specialize (Hgd d Hd). lia.
    + by eapply costs_within_trans.
  - apply (validate_narrowing_iff c c Hc). split; [lia | apply costs_within_refl].
Qed.

Lemma narrowing_sound_witness :
  ResolvedBudget.validate_narrowing child_budget parent_budget = Ok tt /\
  exists r r', remaining child_budget sample_usage 10 = Ok r /\ remaining parent_budget sample_usage 10 = Ok r' /\
    left_of ToolCalls r <= left_of ToolCalls r'.
Proof.
  assert (Hn : ResolvedBudget.validate_narrowing child_budget parent_budget = Ok tt) by (vm_compute; reflexivity).
  destruct (narrowing_sound child_budget parent_budget child_budget_wf parent_budget_wf Hn) as [H _].
  split; [exact Hn |]. destruct (remaining child_budget sample_usage 10) as [r|] eqn:E; [| vm_compute in E; discriminate].
  destruct (H sample_usage 10 r E) as (r' & E' & Hd & _). exists r, r'.
  split; [reflexivity | split; [exact E' |]]. apply Hd. split; discriminate.
Defined.

(** Deducting cumulative usage from remaining capacity. *)
Lemma deduct_cumulative_Ok r usage r' :
  deduct_cumulative r usage = Ok r' ->
  (forall d, counter d ->
     if BudgetUsage.high_water d then left_of d r' = left_of d r
     else left_of d r' = left_of d r - BudgetUsage.used d usage /\ BudgetUsage.used d usage <= left_of d r) /\
  deadline r' = deadline r /\ remaining_costs (costs r) usage = Ok (costs r').
Proof.
  unfold deduct_cumulative. remaining_counts. intros H. simp_ok.
  repeat match goal with K : checked_sub _ _ = Some _ |- _ => apply checked_sub_Some in K as [-> ?] end.
  subst. split_and!; [| done | done]. intros [] [? ?]; done.
Qed.

End Capacity.
