(* ===== verification/UsageLaws.v ===== *)
(** Laws of recorded usage and of cumulative reservations built on it
    (crates/stateknot-core/src/budget.rs, [BudgetUsage]; the reservations of
    budget_reservation.rs follow in [Reservation.v]). *)

From Stdlib Require Import ZArith Lia.
From stdpp Require Import prelude.
From S2P Require Import Prelude Ordered Decimal Accounting Time Costs Budget BudgetLaws.

Open Scope Z_scope.

Module UsageLaws.
Import BudgetUsage.

Lemma usage_ext a b :
  (forall d, used d a = used d b) -> known_costs a = known_costs b -> a = b.
Proof.
  intros Hd Hc. pose proof (Hd Costs) as H0. cbn in H0.
  assert (H : forall d, counter d -> used d a = used d b) by auto.
  on_counters H. clear Hd H. destruct a, b; cbn in *. by subst.
Qed.

Lemma wf_costs u : wf u -> Costs.wf (known_costs u).
Proof. by intros (_ & _ & _ & _ & ?). Qed.

Lemma add_count_Ok l r d v : add_count l r d = Ok v <-> v = l + r /\ l + r <= u64_max.
Proof. unfold add_count, Count.checked_add. rewrite ok_or_Ok. apply checked_add_Some. Qed.

Lemma sub_count_Ok l r d v : sub_count l r d = Ok v <-> v = l - r /\ r <= l.
Proof. unfold sub_count, Count.checked_sub. rewrite ok_or_Ok. apply checked_sub_Some. Qed.

(** The subset relations survive addition. *)
Lemma accumulate_Ok a b c :
  wf a -> wf b -> checked_accumulate a b = Ok c ->
  wf c /\ (forall d, used d c = combine d (used d a) (used d b)) /\
  Costs.checked_accumulate (known_costs a) (known_costs b) = Ok (known_costs c).
Proof.
  intros (Ha & Ha1 & Ha2 & Ha3 & Hac) (Hb & Hb1 & Hb2 & Hb3 & Hbc) H.
  unfold checked_accumulate in H. simp_ok.
  repeat match goal with K : add_count _ _ _ = Ok _ |- _ => apply add_count_Ok in K as [-> ?] end.
  subst. cbn. split_and!; [split_and! | | done]; cbn; try lia.
  - intros d. pose proof (Ha d) as Had. pose proof (Hb d) as Hbd. unfold in_u in *. destruct d; cbn in *; lia.
  - eapply Costs.accumulate_spec; [exact Hac | exact Hbc | eassumption].
  - by intros [].
Qed.

Lemma usage_accumulate_complete a b (cap : list Money) :
  wf a -> wf b -> Costs.wf cap ->
  (forall d, high_water d = false -> used d a + used d b <= u64_max) ->
  (forall k, is_Some (Costs.get k (known_costs a)) \/ is_Some (Costs.get k (known_costs b)) -> is_Some (Costs.get k cap)) ->
  (forall k, Costs.amount k (known_costs a) + Costs.amount k (known_costs b) <= u64_max) ->
  exists c, checked_accumulate a b = Ok c.
Proof.
  intros (_ & _ & _ & _ & Hac) (_ & _ & _ & _ & Hbc) Hcap Hd Hk Hle.
  destruct (Costs.accumulate_complete cap _ _ Hcap Hac Hbc Hk Hle) as [kc Hkc].
  unfold checked_accumulate. rewrite Hkc.
  pose proof (Hd Costs eq_refl) as HC. cbn in HC.
  assert (Hd' : forall d, counter d -> high_water d = false -> used d a + used d b <= u64_max) by auto.
  on_counters Hd'.
  repeat match goal with K : false = false -> _ |- _ => specialize (K eq_refl) end.
  repeat match goal with K : ?l + ?r <= u64_max |- context [add_count ?l ?r ?d] =>
    rewrite (proj2 (add_count_Ok l r d (l + r)) (conj eq_refl K)); cbn [mbind result_bind map_err] end.
  by eexists.
Qed.

(** A later snapshot dominates an earlier one. *)
Definition dominates (later earlier : t) : Prop :=
  (forall d, used d earlier <= used d later) /\
  (forall k, Costs.amount k (known_costs earlier) <= Costs.amount k (known_costs later)).

Lemma monotonic_checks_complete d : d <> Deadline -> d ∈ monotonic_checks.
Proof. intros Hd. destruct d; try done; apply (bool_decide_unpack _); vm_compute; done. Qed.

Lemma validate_monotonic_iff a b :
  Costs.wf (known_costs a) -> Costs.wf (known_costs b) ->
  validate_monotonic_after a b = Ok tt <-> dominates a b.
Proof.
  intros Ha Hb. unfold validate_monotonic_after, dominates.
  assert (Hchk : try_fold (check_monotonic a b) tt monotonic_checks = Ok tt <-> forall d, used d b <= used d a).
  { rewrite try_fold_checks, Forall_forall. unfold check_monotonic. split.
    - intros H d. destruct (decide (d = Deadline)) as [-> |]; [done |].
      specialize (H d (monotonic_checks_complete d ltac:(done))). simpl in H.
      destruct (Z.ltb_spec (used d a) (used d b)); [done | lia].
    - intros H d _. specialize (H d). destruct (Z.ltb_spec (used d a) (used d b)); [lia | done]. }
  assert (Hcost : try_fold (check_cost_monotonic a) tt (known_costs b) = Ok tt <->
                  forall k, Costs.amount k (known_costs b) <= Costs.amount k (known_costs a)).
  { rewrite try_fold_checks, Forall_forall. unfold check_cost_monotonic. split.
    - intros H k. unfold Costs.amount at 1. destruct (Costs.get k (known_costs b)) as [m|] eqn:E;
        [| by apply Costs.amount_nonneg].
      apply Costs.get_iff in E as [Hm <-]; [| apply Hb]. specialize (H m Hm). simpl in H.
      destruct (Z.ltb_spec (Costs.amount (currency m) (known_costs a)) (micro_units m)); [done | lia].
    - intros H m Hm. specialize (H (currency m)). unfold Costs.amount at 1 in H.
      rewrite Costs.get_self in H by (apply Hb || done).
      destruct (Z.ltb_spec (Costs.amount (currency m) (known_costs a)) (micro_units m)); [lia | done]. }
  rewrite <- Hchk, <- Hcost. destruct (try_fold (check_monotonic a b) _ _) as [[]|]; simpl; naive_solver.
Qed.

Lemma accumulate_dominates a b c :
  wf a -> wf b -> checked_accumulate a b = Ok c -> dominates c a /\ dominates c b.
Proof.
  intros Ha Hb H. destruct (accumulate_Ok _ _ _ Ha Hb H) as (Hc & Hd & Hk).
  destruct (Costs.accumulate_spec _ _ _ (wf_costs _ Ha) (wf_costs _ Hb) Hk) as [_ Hamt].
  split; (split; [intros d; rewrite Hd; pose proof (proj1 Ha d); pose proof (proj1 Hb d);
                  unfold combine, in_u in *; destruct (high_water d); lia
                 | intros k; destruct (Hamt k) as [-> _];
                   pose proof (Costs.amount_nonneg k _ (wf_costs _ Ha));
                   pose proof (Costs.amount_nonneg k _ (wf_costs _ Hb)); lia ]).
Qed.

(** Success and result of an accumulation do not depend on the operand order. *)
Lemma accumulate_comm a b c :
  wf a -> wf b -> checked_accumulate a b = Ok c -> checked_accumulate b a = Ok c.
Proof.
  intros Ha Hb H. destruct (accumulate_Ok _ _ _ Ha Hb H) as (Hc & Hd & Hk).
  pose proof (wf_costs _ Ha) as Hac. pose proof (wf_costs _ Hb) as Hbc.
  pose proof (wf_costs _ Hc) as Hcc.
  destruct (Costs.accumulate_spec _ _ _ Hac Hbc Hk) as [_ Hamt].
  destruct (usage_accumulate_complete b a (known_costs c) Hb Ha) as [c' H']; [done | | | |].
  - intros d Hhw. pose proof (proj1 Hc d) as Hu. rewrite Hd in Hu. unfold combine, in_u in *. rewrite Hhw in Hu. lia.
  - intros k Hs. apply (Hamt k). tauto.
  - intros k. destruct (Hamt k) as [Heq _]. pose proof (Costs.amount_nonneg k _ Hcc). lia.
  - rewrite H'. f_equal. destruct (accumulate_Ok _ _ _ Hb Ha H') as (Hc' & Hd' & Hk').
    destruct (Costs.accumulate_spec _ _ _ Hbc Hac Hk') as [_ Hamt'].
    apply usage_ext.
    + intros d. rewrite Hd, Hd'. unfold combine. destruct (high_water d); lia.
    + apply Costs.get_amount_ext; [apply Hc' | apply Hc |]. intros k.
      destruct (Hamt k) as [-> ->], (Hamt' k) as [-> ->]. split; [lia | tauto].
Qed.

(** If the sum of three usages is representable, both groupings are and they
    agree. *)
Lemma accumulate_assoc a b c ab abc :
  wf a -> wf b -> wf c -> checked_accumulate a b = Ok ab -> checked_accumulate ab c = Ok abc ->
  exists bc, checked_accumulate b c = Ok bc /\ checked_accumulate a bc = Ok abc.
Proof.
  intros Ha Hb Hc Hab Habc.
  destruct (accumulate_Ok _ _ _ Ha Hb Hab) as (Wab & Dab & Kab).
  destruct (accumulate_Ok _ _ _ Wab Hc Habc) as (Wabc & Dabc & Kabc).
  pose proof (wf_costs _ Ha) as Cst_a. pose proof (wf_costs _ Hb) as Cst_b.
  pose proof (wf_costs _ Hc) as Cst_c. pose proof (wf_costs _ Wab) as Cst_ab.
  pose proof (wf_costs _ Wabc) as Cst_abc.
  destruct (Costs.accumulate_spec _ _ _ Cst_a Cst_b Kab) as [_ Aab].
  destruct (Costs.accumulate_spec _ _ _ Cst_ab Cst_c Kabc) as [_ Aabc].
  assert (Hsum : forall d, high_water d = false -> used d a + used d b + used d c <= u64_max).
  { intros d Hhw. pose proof (proj1 Wabc d) as Hu. rewrite Dabc, Dab in Hu. unfold combine, in_u in *.
    rewrite Hhw in Hu. lia. }
  assert (Hcost : forall k, Costs.amount k (known_costs a) + Costs.amount k (known_costs b) + Costs.amount k (known_costs c) <= u64_max).
  { intros k. pose proof (Costs.amount_nonneg k _ Cst_abc). destruct (Aab k) as [? _], (Aabc k) as [? _]. lia. }
  destruct (usage_accumulate_complete b c (known_costs abc) Hb Hc) as [bc Hbc]; [done | | | |].
  - intros d Hhw. specialize (Hsum d Hhw). pose proof (proj1 Ha d). unfold in_u in *. lia.
  - intros k Hs. apply (Aabc k). destruct Hs; [left; apply (Aab k); by right | by right].
  - intros k. specialize (Hcost k). pose proof (Costs.amount_nonneg k _ Cst_a). lia.
  - destruct (accumulate_Ok _ _ _ Hb Hc Hbc) as (Wbc & Dbc & Kbc).
    pose proof (wf_costs _ Wbc) as Cst_bc.
    destruct (Costs.accumulate_spec _ _ _ Cst_b Cst_c Kbc) as [_ Abc].
    exists bc. split; [done |].
    destruct (usage_accumulate_complete a bc (known_costs abc) Ha Wbc) as [abc' Habc']; [done | | | |].
    + intros d Hhw. specialize (Hsum d Hhw). rewrite Dbc. unfold combine. rewrite Hhw. lia.
    + intros k Hs. apply (Aabc k). rewrite (proj2 (Aab k)). rewrite (proj2 (Abc k)) in Hs. tauto.
    + intros k. specialize (Hcost k). destruct (Abc k) as [-> _]. lia.
    + rewrite Habc'. f_equal. destruct (accumulate_Ok _ _ _ Ha Wbc Habc') as (W' & D' & K').
      destruct (Costs.accumulate_spec _ _ _ Cst_a Cst_bc K') as [_ A']. apply usage_ext.
      * intros d. rewrite D', Dbc, Dabc, Dab. unfold combine. destruct (high_water d); lia.
      * apply Costs.get_amount_ext; [apply W' | apply Wabc |]. intros k.
        destruct (A' k) as [-> ->], (Abc k) as [-> ->], (Aabc k) as [-> ->], (Aab k) as [-> ->]. split; [lia | tauto].
Qed.

Ltac simp_err :=
  repeat match goal with
  | H : (_ ≫= _) = Err _ |- _ => apply bind_Err in H; destruct H as [H | (? & ? & H)]
  | H : Ok _ = Err _ |- _ => discriminate H
  end.

Lemma add_count_Err l r d e : add_count l r d = Err e -> e = Overflow d /\ u64_max < l + r.
Proof.
  unfold add_count, Count.checked_add. destruct (checked_add u64_max l r) eqn:E; simpl; [done |].
  intros [= <-]. by apply checked_add_None in E.
Qed.

(** An accumulation is rejected only for a sum outside [u64] in a summed
    dimension or a currency, or for a seventeenth currency. *)
Lemma accumulate_Err a b e :
  wf a -> wf b -> checked_accumulate a b = Err e ->
  match e with
  | Overflow d => high_water d = false /\ u64_max < used d a + used d b
  | CostsError (Costs.Overflow k) => u64_max < Costs.amount k (known_costs a) + Costs.amount k (known_costs b)
  | CostsError (Costs.TooMany mx obs) => mx = 16 /\ obs = 17
  | _ => False
  end.
Proof.
  intros Ha Hb H. unfold checked_accumulate in H. simp_err;
    try (match goal with K : add_count _ _ _ = Err _ |- _ => apply add_count_Err in K as [-> ?]; by split end).
  destruct (Costs.checked_accumulate (known_costs a) (known_costs b)) as [kc|ce] eqn:E; simpl in H; [done |].
  injection H as <-. unfold Costs.checked_accumulate in E. simp_err.
  apply Costs.accumulate_fold_error in E; [| exact Costs.map_wf_nil |].
  - destruct ce as [| |k]; [done | done |]. simpl in E.
    rewrite Costs.charge_app, (Costs.charge_amount k (known_costs a) (proj1 (wf_costs _ Ha))),
      (Costs.charge_amount k (known_costs b) (proj1 (wf_costs _ Hb))) in E. done.
  - apply Forall_app. split; [apply (wf_costs _ Ha) | apply (wf_costs _ Hb)].
Qed.

(** Usage accumulation is exact and lawful.  Accumulating two recorded
    usages adds every cumulative dimension and currency and takes the maximum
    of the high-water ones, keeps the invariant (subsets below their
    inclusive counts), dominates both operands in the sense of
    [validate_monotonic_after], commutes, and associates; it is rejected only
    when a true sum does not fit. *)
Theorem usage_accumulation_laws (a b : t) :
  wf a -> wf b ->
  match checked_accumulate a b with
  | Ok c =>
      wf c /\ (forall d, used d c = combine d (used d a) (used d b)) /\
      (forall k, Costs.amount k (known_costs c) = Costs.amount k (known_costs a) + Costs.amount k (known_costs b)) /\
      validate_monotonic_after c a = Ok tt /\ validate_monotonic_after c b = Ok tt /\
      checked_accumulate b a = Ok c /\
      (forall e ce, wf e -> checked_accumulate c e = Ok ce ->
         exists be, checked_accumulate b e = Ok be /\ checked_accumulate a be = Ok ce)
  | Err (Overflow d) => high_water d = false /\ u64_max < used d a + used d b
  | Err (CostsError (Costs.Overflow k)) =>
      u64_max < Costs.amount k (known_costs a) + Costs.amount k (known_costs b)
  | Err (CostsError (Costs.TooMany mx obs)) => mx = 16 /\ obs = 17
  | Err _ => False
  end.
Proof.
  intros Ha Hb. destruct (checked_accumulate a b) as [c|e] eqn:E; [| by apply accumulate_Err in E].
  destruct (accumulate_Ok _ _ _ Ha Hb E) as (Hc & Hd & Hk).
  destruct (accumulate_dominates _ _ _ Ha Hb E) as [H1 H2].
  destruct (Costs.accumulate_spec _ _ _ (wf_costs _ Ha) (wf_costs _ Hb) Hk) as [_ Hamt].
  split_and!; [done | done | apply Hamt | | | by apply accumulate_comm |].
  - apply validate_monotonic_iff; [apply (wf_costs _ Hc) | apply (wf_costs _ Ha) | done].
  - apply validate_monotonic_iff; [apply (wf_costs _ Hc) | apply (wf_costs _ Hb) | done].
  - intros e ce He Hce. eapply accumulate_assoc; eauto.
Qed.

Lemma usage_accumulation_laws_witness :
  wf Capacity.sample_usage /\
  exists c, checked_accumulate Capacity.sample_usage Capacity.sample_usage = Ok c /\
    validate_monotonic_after c Capacity.sample_usage = Ok tt /\ used GraphDepth c = 2 /\ used GraphSteps c = 14.
Proof.
  pose proof (usage_accumulation_laws Capacity.sample_usage Capacity.sample_usage
                Capacity.sample_usage_wf Capacity.sample_usage_wf) as H.
  split; [exact Capacity.sample_usage_wf |].
  destruct (checked_accumulate Capacity.sample_usage Capacity.sample_usage) as [c|e] eqn:E; [| vm_compute in E; discriminate].
  destruct H as (_ & Hd & _ & Hm & _). exists c. split; [reflexivity | split; [exact Hm |]].
  split; [exact (Hd GraphDepth) | exact (Hd GraphSteps)].
Defined.

(** ** Cumulative subtraction *)

Definition deducted (contribution : list Money) (m : Money) : Money :=
  mkMoney (currency m) (micro_units m - Costs.amount (currency m) contribution).

Lemma subtract_costs_total l contribution :
  (forall m, m ∈ l -> Costs.amount (currency m) contribution <= micro_units m) ->
  subtract_costs l contribution = Some (map (deducted contribution) l).
Proof.
  unfold subtract_costs. induction l as [|m l IH]; intros Hle; [done |]. cbn [mapM map].
  rewrite (proj2 (checked_sub_Some (micro_units m) (Costs.amount (currency m) contribution) _) (conj eq_refl (Hle m ltac:(by left)))).
  cbn. rewrite IH; [done |]. intros m' Hm'. apply Hle. by right.
Qed.

Lemma deducted_wf l contribution :
  Costs.wf l -> Costs.wf contribution ->
  (forall m, m ∈ l -> Costs.amount (currency m) contribution <= micro_units m) ->
  Costs.wf (map (deducted contribution) l).
Proof.
  intros (Hs & Hl & HF) Hc Hle. split_and!.
  - by apply Capacity.ksorted_map_currency.
  - by rewrite length_map.
  - apply Forall_map, Forall_forall. intros m Hm. simpl. rewrite Forall_forall in HF. specialize (HF m Hm).
    specialize (Hle m Hm). pose proof (Costs.amount_nonneg (currency m) _ Hc). unfold in_u in *. lia.
Qed.

Lemma dominates_cumulative a b :
  wf a -> wf b -> (forall d, high_water d = false -> used d b <= used d a) ->
  (forall k, Costs.amount k (known_costs b) <= Costs.amount k (known_costs a)) ->
  validate_monotonic_after a (cumulative_only b) = Ok tt.
Proof.
  intros Ha Hb Hd Hk. apply validate_monotonic_iff; [apply (wf_costs _ Ha) | apply (wf_costs _ Hb) |].
  split; [| done]. intros d. pose proof (proj1 Ha d) as Hu. pose proof (Hd d) as Hd'. unfold in_u in Hu.
  clear Hd Hk. destruct d; cbn in *; (by apply Hd') || lia.
Qed.

(** Past the monotonicity check the unchecked money subtraction is safe. *)
Lemma monotonic_costs_within a b :
  wf a -> wf b -> validate_monotonic_after a (cumulative_only b) = Ok tt ->
  (forall d, high_water d = false -> used d b <= used d a) /\
  (forall m, m ∈ known_costs a -> Costs.amount (currency m) (known_costs b) <= micro_units m).
Proof.
  intros Ha Hb H. apply validate_monotonic_iff in H as [Hd Hk]; [| apply (wf_costs _ Ha) | apply (wf_costs _ Hb)].
  split.
  - intros d Hhw. specialize (Hd d). destruct d; cbn in *; try lia; discriminate.
  - intros m Hm. specialize (Hk (currency m)). cbn in Hk. unfold Costs.amount at 2 in Hk.
    rewrite Costs.get_self in Hk by (apply (wf_costs _ Ha) || done). done.
Qed.

Lemma subtract_total a b :
  wf a -> wf b -> exists r, checked_subtract_cumulative a b = Some r.
Proof.
  intros Ha Hb. unfold checked_subtract_cumulative.
  match goal with |- exists _, match ?x with Ok _ => _ | Err _ => _ end = _ => destruct x as [sc|e] eqn:E end; [| by eexists].
  simp_ok. destruct x. destruct (monotonic_costs_within a b Ha Hb H) as [_ Hm].
  rewrite subtract_costs_total by done. by eexists.
Qed.

Lemma subtract_Ok a b r :
  wf a -> wf b -> checked_subtract_cumulative a b = Some (Ok r) ->
  wf r /\ (forall d, used d r = if high_water d then used d a else used d a - used d b) /\
  (forall d, high_water d = false -> used d b <= used d a) /\
  known_costs r = map (deducted (known_costs b)) (known_costs a).
Proof.
  intros Ha Hb H. unfold checked_subtract_cumulative in H.
  match type of H with match ?x with Ok _ => _ | Err _ => _ end = _ => destruct x as [sc|e] eqn:E end; [| done].
  simp_ok. destruct x. destruct (monotonic_costs_within a b Ha Hb H0) as [Hd Hm].
  rewrite subtract_costs_total in H by done. cbn in H. injection H as H.
  rewrite Costs.collect_costs_sorted in H by (apply deducted_wf; [apply (wf_costs _ Ha) | apply (wf_costs _ Hb) | done]).
  simp_ok. repeat match goal with K : sub_count _ _ _ = Ok _ |- _ => apply sub_count_Ok in K as [-> ?] end.
  subst. cbn in *. bools. split_and!; [split_and! | | done | done]; cbn; try lia; try (by intros []).
  - intros d. pose proof (proj1 Ha d) as Had. pose proof (proj1 Hb d) as Hbd. pose proof (Hd d) as Hdd. unfold in_u in *.
    clear Hd Hm. destruct d; cbn in *; try specialize (Hdd eq_refl); lia.
  - apply deducted_wf; [apply (wf_costs _ Ha) | apply (wf_costs _ Hb) | done].
Qed.

Lemma amount_deducted k l contribution :
  Costs.wf l ->
  Costs.amount k (map (deducted contribution) l) =
    match Costs.get k l with Some m => micro_units m - Costs.amount k contribution | None => 0 end.
Proof.
  intros (Hs & _). unfold Costs.amount at 1. rewrite Capacity.get_map by done.
  destruct (Costs.get k l) as [m|] eqn:E; simpl; [| done]. by rewrite (Costs.get_currency _ _ _ E).
Qed.

(** Subtracting a contribution from a total that contains it succeeds. *)
Lemma subtract_accumulated a b c :
  wf a -> wf b -> checked_accumulate a b = Ok c ->
  exists r, checked_subtract_cumulative c b = Some (Ok r).
Proof.
  intros Ha Hb H. destruct (accumulate_Ok _ _ _ Ha Hb H) as (Hc & Hd & Hk).
  destruct (Costs.accumulate_spec _ _ _ (wf_costs _ Ha) (wf_costs _ Hb) Hk) as [_ Hamt].
  assert (Hmono : validate_monotonic_after c (cumulative_only b) = Ok tt).
  { apply dominates_cumulative; [done | done | |].
    - intros d Hhw. rewrite Hd. unfold combine. rewrite Hhw. pose proof (proj1 Ha d). unfold in_u in *. lia.
    - intros k. destruct (Hamt k) as [-> _]. pose proof (Costs.amount_nonneg k _ (wf_costs _ Ha)). lia. }
  destruct (monotonic_costs_within c b Hc Hb Hmono) as [_ Hm].
  unfold checked_subtract_cumulative. rewrite Hmono. cbn [mbind result_bind].
  assert (Hsub : forall d, high_water d = false -> used d c - used d b = used d a /\ used d b <= used d c).
  { intros d Hhw. rewrite Hd. unfold combine. rewrite Hhw. pose proof (proj1 Ha d). unfold in_u in *. lia. }
  pose proof (Hsub Costs eq_refl) as HC. cbn in HC.
  assert (Hsub' : forall d, counter d -> high_water d = false -> used d c - used d b = used d a /\ used d b <= used d c) by auto.
  on_counters Hsub'. clear Hsub Hsub'.
  repeat match goal with K : false = false -> _ |- _ => specialize (K eq_refl) end.
  repeat match goal with K : ?l - ?r = ?v /\ _ |- context [sub_count ?l ?r ?d] =>
    rewrite (proj2 (sub_count_Ok l r d v) (conj (eq_sym (proj1 K)) (proj2 K))); cbn [mbind result_bind] end.
  rewrite subtract_costs_total by done. cbn [mbind option_bind].
  rewrite Costs.collect_costs_sorted by (apply deducted_wf; [apply (wf_costs _ Hc) | apply (wf_costs _ Hb) | done]).
  cbn. destruct Ha as (_ & Ha1 & Ha2 & Ha3 & _).
  repeat match goal with |- context [?x <? ?y] => destruct (Z.ltb_spec x y); [lia |] end. by eexists.
Qed.

(** Cumulative subtraction undoes accumulation and never underflows.  On
    recorded usages [checked_subtract_cumulative] always returns (the plain
    [-] on money is reached only with a smaller subtrahend); a successful
    subtraction keeps the invariant and is exact in every cumulative
    dimension and currency; and subtracting from a total the contribution
    that was accumulated into it returns the original cumulative amounts
    while keeping the high-water marks of the total. *)
Theorem subtract_cumulative_inverse (a b : t) :
  wf a -> wf b ->
  (exists res, checked_subtract_cumulative a b = Some res) /\
  (forall r, checked_subtract_cumulative a b = Some (Ok r) ->
     wf r /\ (forall d, high_water d = false -> used d r + used d b = used d a) /\
     (forall k, is_Some (Costs.get k (known_costs a)) ->
        Costs.amount k (known_costs r) + Costs.amount k (known_costs b) = Costs.amount k (known_costs a))) /\
  (forall c, checked_accumulate a b = Ok c ->
     exists r, checked_subtract_cumulative c b = Some (Ok r) /\
       (forall d, used d r = if high_water d then used d c else used d a) /\
       (forall k, Costs.amount k (known_costs r) = Costs.amount k (known_costs a))).
Proof.
  intros Ha Hb. split_and!.
  - by apply subtract_total.
  - intros r Hr. destruct (subtract_Ok _ _ _ Ha Hb Hr) as (Hw & Hd & Hle & Hk). split_and!; [done | |].
    + intros d Hhw. rewrite Hd, Hhw. lia.
    + intros k [m Hm]. rewrite Hk, amount_deducted by apply (wf_costs _ Ha). unfold Costs.amount at 3. rewrite Hm. lia.
  - intros c Hc. destruct (subtract_accumulated _ _ _ Ha Hb Hc) as [r Hr]. exists r. split; [done |].
    destruct (accumulate_Ok _ _ _ Ha Hb Hc) as (Wc & Dc & Kc).
    destruct (subtract_Ok _ _ _ Wc Hb Hr) as (Hw & Hd & Hle & Hk).
    destruct (Costs.accumulate_spec _ _ _ (wf_costs _ Ha) (wf_costs _ Hb) Kc) as [_ Hamt]. split.
    + intros d. rewrite Hd. destruct (high_water d) eqn:Hhw; [done |]. rewrite Dc. unfold combine. rewrite Hhw. lia.
    + intros k. rewrite Hk, amount_deducted by apply (wf_costs _ Wc). destruct (Hamt k) as [Hsum Hsome].
      unfold Costs.amount at 1 in Hsum. destruct (Costs.get k (known_costs c)) as [m|]; [lia |].
      pose proof (Costs.amount_nonneg k _ (wf_costs _ Ha)). pose proof (Costs.amount_nonneg k _ (wf_costs _ Hb)). lia.
Qed.

Lemma subtract_cumulative_inverse_witness :
  wf Capacity.sample_usage /\
  exists c r, checked_accumulate Capacity.sample_usage Capacity.sample_usage = Ok c /\
    checked_subtract_cumulative c Capacity.sample_usage = Some (Ok r) /\ used GraphSteps r = 7.
Proof.
  pose proof (subtract_cumulative_inverse Capacity.sample_usage Capacity.sample_usage
                Capacity.sample_usage_wf Capacity.sample_usage_wf) as (_ & _ & H).
  split; [exact Capacity.sample_usage_wf |].
  destruct (checked_accumulate Capacity.sample_usage Capacity.sample_usage) as [c|e] eqn:E; [| vm_compute in E; discriminate].
  destruct (H c eq_refl) as (r & Hr & Hd & _). exists c, r.
  split; [reflexivity | split; [exact Hr | exact (Hd GraphSteps)]].
Defined.

End UsageLaws.
