(* ===== verification/UsageSums.v ===== *)
(** Sums of usages: what accumulating a list of cumulative usages yields, when
    it is representable, and when the total fits a budget.  Reservations,
    settled children and direct usage of an account are such lists. *)

From Stdlib Require Import ZArith Lia.
From stdpp Require Import prelude.
From S2P Require Import Prelude Ordered Accounting Time Costs Budget BudgetLaws UsageLaws.

Open Scope Z_scope.

Module UsageSums.
Import BudgetUsage UsageLaws.

(** A usage without high-water marks. *)
Definition cumulative (u : t) : Prop := wf u /\ forall d, high_water d = true -> used d u = 0.

Definition total (acc : t) (us : list t) : result BudgetUsageError t := try_fold checked_accumulate acc us.

Definition sum (d : BudgetDimension) (us : list t) : Z := foldr (fun u s => used d u + s) 0 us.
Definition cost (k : CurrencyCode) (us : list t) : Z := foldr (fun u s => Costs.amount k (known_costs u) + s) 0 us.
Definition charged (k : CurrencyCode) (us : list t) : Prop := exists u, u ∈ us /\ is_Some (Costs.get k (known_costs u)).

Lemma used_nonneg d u : wf u -> 0 <= used d u <= u64_max.
Proof. intros [H _]. apply H. Qed.

Lemma sum_nonneg d us : Forall cumulative us -> 0 <= sum d us.
Proof. induction 1 as [|u us [Hu _] _ IH]; simpl; [lia |]. pose proof (used_nonneg d u Hu). lia. Qed.

Lemma cost_nonneg k us : Forall cumulative us -> 0 <= cost k us.
Proof.
  induction 1 as [|u us [Hu _] _ IH]; simpl; [lia |]. pose proof (Costs.amount_nonneg k _ (wf_costs _ Hu)). lia.
Qed.

Lemma sum_high_water d us : Forall cumulative us -> high_water d = true -> sum d us = 0.
Proof. intros HF Hd. induction HF as [|u us [_ Hu] _ IH]; simpl; [done |]. rewrite Hu by done. lia. Qed.

Lemma sum_app d us vs : sum d (us ++ vs) = sum d us + sum d vs.
Proof. induction us as [|u us IH]; simpl; [done |]. rewrite IH. lia. Qed.
Lemma cost_app k us vs : cost k (us ++ vs) = cost k us + cost k vs.
Proof. induction us as [|u us IH]; simpl; [done |]. rewrite IH. lia. Qed.

#[global] Instance sum_perm d : Proper ((≡ₚ) ==> (=)) (sum d).
Proof. induction 1; simpl; lia. Qed.
#[global] Instance cost_perm k : Proper ((≡ₚ) ==> (=)) (cost k).
Proof. induction 1; simpl; lia. Qed.

Lemma charged_cons k u us : charged k (u :: us) <-> is_Some (Costs.get k (known_costs u)) \/ charged k us.
Proof. unfold charged. setoid_rewrite elem_of_cons. naive_solver. Qed.

(** The total is the exact sum in every dimension and currency. *)
Lemma total_Ok acc us c :
  wf acc -> Forall cumulative us -> total acc us = Ok c ->
  wf c /\ (forall d, used d c = used d acc + sum d us) /\
  (forall k, Costs.amount k (known_costs c) = Costs.amount k (known_costs acc) + cost k us /\
             (is_Some (Costs.get k (known_costs c)) <-> is_Some (Costs.get k (known_costs acc)) \/ charged k us)).
Proof.
  unfold total. revert acc. induction us as [|u us IH]; intros acc Ha HF Ht; simpl in Ht; simp_ok.
  { subst. split_and!; [done | simpl; lia |]. intros k. simpl. split; [lia |].
    split; [by left |]. intros [?|(u & Hu & _)]; [done | by apply not_elem_of_nil in Hu]. }
  apply Forall_cons in HF as [[Hu Hhw] HF]. destruct (accumulate_Ok _ _ _ Ha Hu H) as (Hx & Hd & Hk).
  destruct (Costs.accumulate_spec _ _ _ (wf_costs _ Ha) (wf_costs _ Hu) Hk) as [_ Hamt].
  destruct (IH x Hx HF H0) as (Hc & Hdc & Hkc). split_and!; [done | |].
  - intros d. rewrite Hdc, Hd. unfold combine. simpl. destruct (high_water d) eqn:E; [| lia].
    rewrite (Hhw d E). pose proof (used_nonneg d acc Ha). lia.
  - intros k. destruct (Hkc k) as [-> ->], (Hamt k) as [-> ->]. rewrite charged_cons. split; [simpl; lia | tauto].
Qed.

Lemma total_complete acc us (cap : list Money) :
  wf acc -> Forall cumulative us -> Costs.wf cap ->
  (forall d, high_water d = false -> used d acc + sum d us <= u64_max) ->
  (forall k, is_Some (Costs.get k (known_costs acc)) \/ charged k us -> is_Some (Costs.get k cap)) ->
  (forall k, Costs.amount k (known_costs acc) + cost k us <= u64_max) ->
  exists c, total acc us = Ok c.
Proof.
  intros Ha HF Hcap. unfold total. revert acc Ha. induction HF as [|u us Hcu HF IH]; intros acc Ha Hd Hk Hc; simpl; [by eexists |].
  destruct Hcu as [Hu Hhw]. setoid_rewrite charged_cons in Hk. destruct (usage_accumulate_complete acc u cap) as [x Hx]; try done.
  - intros d E. specialize (Hd d E). simpl in Hd. pose proof (sum_nonneg d us HF). lia.
  - intros k [?|?]; apply Hk; tauto.
  - intros k. specialize (Hc k). simpl in Hc. pose proof (cost_nonneg k us HF). lia.
  - rewrite Hx. simpl. destruct (accumulate_Ok _ _ _ Ha Hu Hx) as (Wx & Dx & Kx).
    destruct (Costs.accumulate_spec _ _ _ (wf_costs _ Ha) (wf_costs _ Hu) Kx) as [_ Hamt].
    apply IH; [done | | |].
    + intros d E. rewrite Dx. unfold combine. rewrite E. specialize (Hd d E). simpl in Hd. lia.
    + intros k. destruct (Hamt k) as [_ ->]. intros [[?|?]|?]; apply Hk; tauto.
    + intros k. destruct (Hamt k) as [-> _]. specialize (Hc k). simpl in Hc. lia.
Qed.

(** ** Totals within a budget *)

Definition within (b : ResolvedBudget.t) (acc : t) (us : list t) : Prop :=
  (forall d, counter d -> used d acc + sum d us <= ResolvedBudget.limit d b) /\
  unpriced_cost_events acc + sum Costs us = 0 /\
  (forall k, is_Some (Costs.get k (known_costs acc)) \/ charged k us -> is_Some (Costs.get k (ResolvedBudget.costs b))) /\
  (forall k, Costs.amount k (known_costs acc) + cost k us <= Costs.amount k (ResolvedBudget.costs b)).

Lemma fits_iff b u :
  ResolvedBudget.wf b -> wf u ->
  Capacity.fits b u <->
  (forall d, counter d -> used d u <= ResolvedBudget.limit d b) /\ unpriced_cost_events u = 0 /\
  (forall k, is_Some (Costs.get k (known_costs u)) -> is_Some (Costs.get k (ResolvedBudget.costs b))) /\
  (forall k, Costs.amount k (known_costs u) <= Costs.amount k (ResolvedBudget.costs b)).
Proof.
  intros Hb Hu. destruct (wf_costs _ Hu) as (Hs & _).
  assert (Hbc : Costs.wf (ResolvedBudget.costs b)) by (by destruct Hb as (_ & _ & _ & _ & ?)).
  unfold Capacity.fits, Capacity.costs_fit. split.
  - intros (Hd & Hun & Hfit). split_and!; [done | done | |].
    + intros k [m Hm]. apply Costs.get_iff in Hm as [Hm <-]; [| done]. destruct (Hfit m Hm) as (l & -> & _). by eexists.
    + intros k. unfold Costs.amount at 1. destruct (Costs.get k (known_costs u)) as [m|] eqn:E.
      * apply Costs.get_iff in E as [Hm <-]; [| done]. destruct (Hfit m Hm) as (l & Hl & ?). unfold Costs.amount. by rewrite Hl.
      * by apply Costs.amount_nonneg.
  - intros (Hd & Hun & Hex & Hle). split_and!; [done | done |]. intros m Hm.
    pose proof (Costs.get_self _ m Hs Hm) as Hg. destruct (Hex (currency m)) as [l Hl]; [by eexists |].
    exists l. split; [done |]. specialize (Hle (currency m)). unfold Costs.amount in Hle. by rewrite Hg, Hl in Hle.
Qed.

(** A total fits a budget exactly when its parts together are within it. *)
Lemma total_fits_iff b acc us :
  ResolvedBudget.wf b -> wf acc -> Forall cumulative us ->
  (exists c, total acc us = Ok c /\ Capacity.fits b c) <-> within b acc us.
Proof.
  intros Hb Ha HF. unfold within. split.
  - intros (c & Ht & Hf). destruct (total_Ok _ _ _ Ha HF Ht) as (Hc & Hd & Hk). apply fits_iff in Hf as (Hfd & Hun & Hex & Hle); [| done..].
    split_and!.
    + intros d Hcd. rewrite <- Hd. by apply Hfd.
    + pose proof (Hd Costs) as Hx. change (unpriced_cost_events c = unpriced_cost_events acc + sum Costs us) in Hx. lia.
    + intros k Hch. by apply Hex, Hk.
    + intros k. destruct (Hk k) as [<- _]. apply Hle.
  - intros (Hd & Hun & Hex & Hle). destruct Hb as (Hbd & Hb'). assert (Hb : ResolvedBudget.wf b) by (split; done).
    assert (Hbc : Costs.wf (ResolvedBudget.costs b)) by (by destruct Hb as (_ & _ & _ & _ & ?)).
    destruct (total_complete acc us (ResolvedBudget.costs b)) as [c Ht]; try done.
    + intros d E. destruct (decide (d = Costs)) as [->|]; [cbn in *; unfold u64_max; lia |].
      destruct (decide (d = Deadline)) as [->|].
      { replace (sum Deadline us) with 0; [cbn; unfold u64_max; lia |]. clear. induction us; simpl; lia. }
      specialize (Hd d ltac:(done)). specialize (Hbd d ltac:(done)). unfold in_u in Hbd. lia.
    + intros k. specialize (Hle k). pose proof (Costs.amount_nonneg k _ Hbc). lia.
    + exists c. split; [done |]. destruct (total_Ok _ _ _ Ha HF Ht) as (Hc & Hdc & Hkc). apply fits_iff; [done | done |].
      split_and!.
      * intros d Hcd. rewrite Hdc. by apply Hd.
      * pose proof (Hdc Costs) as Hx. change (unpriced_cost_events c = unpriced_cost_events acc + sum Costs us) in Hx. lia.
      * intros k Hch. by apply Hex, Hkc.
      * intros k. destruct (Hkc k) as [-> _]. apply Hle.
Qed.
End UsageSums.
