(* ===== verification/Reservation.v ===== *)
(** Cumulative budget reservations
    (crates/stateknot-core/src/budget_reservation.rs): immutable ceilings that
    a parent run sets aside for its children, and the pure capacity check that
    charges accounted usage plus every outstanding reservation against the
    parent budget. *)

From Stdlib Require Import ZArith Lia.
From stdpp Require Import prelude.
From S2P Require Import Prelude Ordered Decimal Accounting Time Costs Budget BudgetLaws UsageLaws.

Open Scope Z_scope.

Module Reservation.
Import BudgetUsage UsageLaws.

Record CumulativeBudgetReservation := mkReservation { amount : BudgetUsage.t }.

Inductive CumulativeBudgetReservationError :=
| HighWaterDimension (dimension : BudgetDimension)
| UnpricedCost
| TooManyReservations
| UsageError (source : BudgetUsageError)
| CostsSource (source : Costs.CostCollectionError)
| CapacityError (source : BudgetRemaining.BudgetEvaluationError).

Definition MAX_RESERVATIONS : Z := 256.

Definition check_high_water (amount : BudgetUsage.t) (_ : unit) (d : BudgetDimension)
  : result CumulativeBudgetReservationError unit :=
  if negb (used d amount =? 0) then Err (HighWaterDimension d) else Ok tt.

Definition new (amount : BudgetUsage.t) : result CumulativeBudgetReservationError CumulativeBudgetReservation :=
  _ ← try_fold (check_high_water amount) tt [GraphDepth; ConcurrentBranches; FanOut];
  if negb (unpriced_cost_events amount =? 0) then Err UnpricedCost else
  Ok (mkReservation amount).

Definition from_budget (budget : ResolvedBudget.t) : result CumulativeBudgetReservationError CumulativeBudgetReservation :=
  known ← map_err CostsSource (Costs.collect_costs (ResolvedBudget.costs budget));
  usage ← map_err UsageError (from_builder {|
    b_graph_depth := b_graph_depth builder;
    b_graph_steps := ResolvedBudget.graph_steps budget;
    b_model_attempts := ResolvedBudget.model_attempts budget;
    b_model_turns := ResolvedBudget.model_turns budget;
    b_input_tokens := ResolvedBudget.input_tokens budget;
    b_cached_input_tokens := ResolvedBudget.cached_input_tokens budget;
    b_reasoning_tokens := ResolvedBudget.reasoning_tokens budget;
    b_output_tokens := ResolvedBudget.output_tokens budget;
    b_tool_calls := ResolvedBudget.tool_calls budget;
    b_write_calls := ResolvedBudget.write_calls budget;
    b_remote_agent_delegations := ResolvedBudget.remote_agent_delegations budget;
    b_retries := ResolvedBudget.retries budget;
    b_concurrent_branches := b_concurrent_branches builder;
    b_fan_out := b_fan_out builder;
    b_input_bytes := ResolvedBudget.input_bytes budget;
    b_output_bytes := ResolvedBudget.output_bytes budget;
    b_event_bytes := ResolvedBudget.event_bytes budget;
    b_checkpoint_bytes := ResolvedBudget.checkpoint_bytes budget;
    b_artifact_bytes := ResolvedBudget.artifact_bytes budget;
    b_known_costs := known;
    b_unpriced_cost_events := b_unpriced_cost_events builder |});
  new usage.

Definition project_step (projected : BudgetUsage.t) (reservation : CumulativeBudgetReservation)
  : result CumulativeBudgetReservationError BudgetUsage.t :=
  map_err UsageError (checked_accumulate projected (amount reservation)).

Definition check_capacity (parent : ResolvedBudget.t) (accounted : BudgetUsage.t)
    (outstanding : list CumulativeBudgetReservation) (observed_at : Timestamp.Timestamp)
  : result CumulativeBudgetReservationError BudgetRemaining.t :=
  if MAX_RESERVATIONS <? Z.of_nat (length outstanding) then Err TooManyReservations else
  projected ← try_fold project_step accounted outstanding;
  map_err CapacityError (BudgetRemaining.remaining parent projected observed_at).

(** The invariant [new] establishes. *)
Definition wf (r : CumulativeBudgetReservation) : Prop :=
  BudgetUsage.wf (amount r) /\ (forall d, high_water d = true -> used d (amount r) = 0) /\
  unpriced_cost_events (amount r) = 0.

Lemma reservation_new_iff u r : BudgetUsage.wf u -> new u = Ok r <-> r = mkReservation u /\ wf (mkReservation u).
Proof.
  intros Hu. unfold new, wf, check_high_water. cbn.
  destruct (Z.eqb_spec (graph_depth u) 0) as [E1|E1]; cbn.
  2: { split; [done |]. intros (_ & _ & H & _). by destruct (E1 (H GraphDepth eq_refl)). }
  destruct (Z.eqb_spec (concurrent_branches u) 0) as [E2|E2]; cbn.
  2: { split; [done |]. intros (_ & _ & H & _). by destruct (E2 (H ConcurrentBranches eq_refl)). }
  destruct (Z.eqb_spec (fan_out u) 0) as [E3|E3]; cbn.
  2: { split; [done |]. intros (_ & _ & H & _). by destruct (E3 (H FanOut eq_refl)). }
  destruct (Z.eqb_spec (unpriced_cost_events u) 0) as [E4|E4]; cbn.
  2: { split; [done |]. by intros (_ & _ & _ & ?). }
  split; [| by intros [-> _]]. intros [= <-]. split_and!; try done. by intros [].
Qed.

(** Every resolved budget can be reserved, at exactly its cumulative
    ceilings. *)
Lemma from_budget_total b :
  ResolvedBudget.wf b ->
  exists r, from_budget b = Ok r /\ wf r /\
    (forall d, counter d -> high_water d = false -> used d (amount r) = ResolvedBudget.limit d b) /\
    known_costs (amount r) = ResolvedBudget.costs b.
Proof.
  intros (Hd & H1 & H2 & H3 & Hc). unfold from_budget. rewrite Costs.collect_costs_sorted by done.
  cbn [mbind result_bind map_err]. unfold from_builder. cbn -[new].
  repeat match goal with |- context [?x <? ?y] => destruct (Z.ltb_spec x y); [lia |] end. cbn [mbind result_bind map_err].
  match goal with |- context [new ?u] => assert (Hu : BudgetUsage.wf u) end.
  { split_and!; cbn; try done. intros d. specialize (Hd d). unfold in_u, u64_max in *.
    destruct d; cbn in *; try specialize (Hd ltac:(done)); lia. }
  match goal with |- context [new ?u] => exists (mkReservation u); assert (Hr : wf (mkReservation u)) end.
  { split_and!; [done | by intros [] | done]. }
  split_and!; [by apply reservation_new_iff | done | | done]. intros [] [? ?] ?; done.
Qed.

(** The projected total of one cumulative dimension. *)
Definition reserved (d : BudgetDimension) (outs : list CumulativeBudgetReservation) : Z :=
  foldr (fun r s => used d (amount r) + s) 0 outs.
Definition reserved_cost (k : CurrencyCode) (outs : list CumulativeBudgetReservation) : Z :=
  foldr (fun r s => Costs.amount k (known_costs (amount r)) + s) 0 outs.

Lemma project_Ok acc outs p :
  BudgetUsage.wf acc -> Forall wf outs -> try_fold project_step acc outs = Ok p ->
  BudgetUsage.wf p /\
  (forall d, used d p = used d acc + reserved d outs) /\
  (forall k, Costs.amount k (known_costs p) = Costs.amount k (known_costs acc) + reserved_cost k outs).
Proof.
  revert acc. induction outs as [|r outs IH]; intros acc Ha HF H; simpl in H; simp_ok.
  { subst. split_and!; [done | |]; intros; simpl; lia. }
  apply Forall_cons in HF as [(Hr & Hhw & Hun) HF]. unfold project_step in H. simp_ok.
  destruct (accumulate_Ok _ _ _ Ha Hr H) as (Hx & Hd & Hk).
  destruct (Costs.accumulate_spec _ _ _ (wf_costs _ Ha) (wf_costs _ Hr) Hk) as [_ Hamt].
  destruct (IH x Hx HF H0) as (Hp & Hdp & Hkp). split_and!; [done | |].
  - intros d. rewrite Hdp, Hd. unfold combine. destruct (high_water d) eqn:E; simpl; [| lia].
    rewrite (Hhw d E). pose proof (proj1 Ha d). unfold in_u in *. lia.
  - intros k. rewrite Hkp. destruct (Hamt k) as [-> _]. simpl. lia.
Qed.

Lemma check_capacity_Ok parent acc outs t r :
  check_capacity parent acc outs t = Ok r <->
  Z.of_nat (length outs) <= MAX_RESERVATIONS /\
  exists p, try_fold project_step acc outs = Ok p /\ BudgetRemaining.remaining parent p t = Ok r.
Proof.
  unfold check_capacity. destruct (Z.ltb_spec MAX_RESERVATIONS (Z.of_nat (length outs))).
  - split; [done |]. intros [? _]. lia.
  - rewrite bind_Ok. setoid_rewrite map_err_Ok. naive_solver.
Qed.

(** No over-commitment: when [check_capacity] accepts, accounted usage
    plus every outstanding reservation is within the parent's ceiling in every
    dimension and currency, the deadline has not passed, and the reported
    remainder is exactly what is left; and a resolved budget always has a
    reservation, which charges exactly its cumulative ceilings. *)
Theorem check_capacity_no_overcommit (parent : ResolvedBudget.t) (accounted : BudgetUsage.t)
    (outstanding : list CumulativeBudgetReservation) (t : Timestamp.Timestamp) :
  ResolvedBudget.wf parent -> BudgetUsage.wf accounted -> Forall wf outstanding ->
  (forall r, check_capacity parent accounted outstanding t = Ok r ->
     t < ResolvedBudget.deadline parent /\ Z.of_nat (length outstanding) <= 256 /\
     (forall d, counter d ->
        used d accounted + reserved d outstanding + BudgetRemaining.left_of d r = ResolvedBudget.limit d parent /\
        0 <= BudgetRemaining.left_of d r) /\
     (forall k, Costs.amount k (known_costs accounted) + reserved_cost k outstanding
                + Costs.amount k (BudgetRemaining.costs r) = Costs.amount k (ResolvedBudget.costs parent))) /\
  (exists own, from_budget parent = Ok own /\ wf own /\
     forall d, counter d -> high_water d = false -> used d (amount own) = ResolvedBudget.limit d parent).
Proof.
  intros Hp Ha HF. split.
  - intros r (Hlen & p & Hproj & Hrem)%check_capacity_Ok.
    destruct (project_Ok _ _ _ Ha HF Hproj) as (Hw & Hd & Hk).
    destruct (Capacity.remaining_Ok _ _ _ _ Hrem) as (Ht & [Hfits Hcf] & Hl & _ & Hc). split_and!; [done | done | |].
    + intros d Hcd. rewrite Hl by done. specialize (Hfits d Hcd). rewrite Hd in *. lia.
    + intros k. apply Capacity.remaining_costs_Ok in Hc as [_ Heq].
      pose proof (Capacity.amount_deduct parent p k Hp Hw Hcf) as Hsum.
      unfold Capacity.deduct in Hsum. rewrite <- Heq, Hk in Hsum. lia.
  - destruct (from_budget_total parent Hp) as (own & ? & ? & ? & _). by exists own.
Qed.

Definition child_reservation : CumulativeBudgetReservation :=
  mkReservation (BudgetUsage.mk 0 20 10 10 900 900 500 500 6 6 1 2 0 0 7000 6000 5000 4000 3000
                   [mkMoney (bytes_of "USD") 30] 0).

Lemma child_reservation_wf : wf child_reservation.
Proof.
  split; [| split; [by intros [] | done]]. split; [intros []; unfold in_u, u64_max; cbn; lia |].
  Capacity.concrete_wf.
Qed.

Lemma check_capacity_no_overcommit_witness :
  Forall wf [child_reservation; child_reservation] /\
  exists r, check_capacity Capacity.parent_budget Capacity.sample_usage [child_reservation; child_reservation] 10 = Ok r /\
    used GraphSteps Capacity.sample_usage + reserved GraphSteps [child_reservation; child_reservation]
      + BudgetRemaining.left_of GraphSteps r = ResolvedBudget.limit GraphSteps Capacity.parent_budget.
Proof.
  assert (HF : Forall wf [child_reservation; child_reservation])
    by (repeat constructor; apply child_reservation_wf).
  destruct (check_capacity_no_overcommit Capacity.parent_budget Capacity.sample_usage
              [child_reservation; child_reservation] 10 Capacity.parent_budget_wf Capacity.sample_usage_wf HF) as [H _].
  split; [exact HF |].
  destruct (check_capacity Capacity.parent_budget Capacity.sample_usage [child_reservation; child_reservation] 10) as [r|] eqn:E;
    [| vm_compute in E; discriminate].
  destruct (H r eq_refl) as (_ & _ & Hd & _). exists r. split; [reflexivity |].
  exact (proj1 (Hd GraphSteps ltac:(split; discriminate))).
Defined.

(** ** Order of reservations and release *)

Lemma project_step_Ok acc r p : project_step acc r = Ok p <-> checked_accumulate acc (amount r) = Ok p.
Proof. unfold project_step. apply map_err_Ok. Qed.

Lemma project_swap acc x y p :
  BudgetUsage.wf acc -> wf x -> wf y ->
  try_fold project_step acc [x; y] = Ok p -> try_fold project_step acc [y; x] = Ok p.
Proof.
  intros Ha (Hx & _) (Hy & _) H. simpl in *. simp_ok. subst. rewrite project_step_Ok in *.
  destruct (accumulate_assoc _ _ _ _ _ Ha Hx Hy H H0) as (xy & Hxy & Hp).
  destruct (accumulate_Ok _ _ _ Hx Hy Hxy) as (Hwxy & _).
  apply accumulate_comm in Hp; [| done..].
  destruct (accumulate_assoc _ _ _ _ _ Hx Hy Ha Hxy Hp) as (ya & Hya & Hp').
  destruct (accumulate_Ok _ _ _ Hy Ha Hya) as (Hwya & _).
  apply accumulate_comm in Hya; [| done..]. apply accumulate_comm in Hp'; [| done..].
  rewrite (proj2 (project_step_Ok _ _ _) Hya). simpl. by rewrite (proj2 (project_step_Ok _ _ _) Hp').
Qed.

Lemma project_step_wf acc x p : BudgetUsage.wf acc -> wf x -> project_step acc x = Ok p -> BudgetUsage.wf p.
Proof. intros Ha (Hx & _) H%project_step_Ok. by destruct (accumulate_Ok _ _ _ Ha Hx H). Qed.

Lemma project_perm outs outs' acc p :
  Permutation outs outs' -> BudgetUsage.wf acc -> Forall wf outs ->
  try_fold project_step acc outs = Ok p -> try_fold project_step acc outs' = Ok p.
Proof.
  intros Hp. revert acc. induction Hp as [|x l l' Hp IH|x y l|l1 l2 l3 H12 IH12 H23 IH23]; intros acc Ha HF H.
  - done.
  - apply Forall_cons in HF as [Hx HF]. cbn [try_fold] in *. simp_ok. rewrite H. simpl.
    apply IH; [by eapply project_step_wf | done | done].
  - apply Forall_cons in HF as [Hy [Hx HF]%Forall_cons].
    change (y :: x :: l) with ([y; x] ++ l) in H. change (x :: y :: l) with ([x; y] ++ l).
    rewrite try_fold_app in *. apply bind_Ok in H as (q & Hq & Hl).
    rewrite (project_swap acc y x q Ha Hy Hx Hq). done.
  - apply IH23; [done | by rewrite <- H12 | by apply IH12].
Qed.

(** A usage contained in an admitted total is admitted. *)
Lemma accumulate_fits b q x p :
  BudgetUsage.wf q -> BudgetUsage.wf x -> checked_accumulate q x = Ok p ->
  Capacity.fits b p -> Capacity.fits b q.
Proof.
  intros Hq Hx H (Hd & Hun & Hfit). destruct (accumulate_dominates _ _ _ Hq Hx H) as [[Hdom Hdomk] _].
  destruct (accumulate_Ok _ _ _ Hq Hx H) as (Hp & Hused & Hk).
  destruct (Costs.accumulate_spec _ _ _ (wf_costs _ Hq) (wf_costs _ Hx) Hk) as [_ Hamt].
  split; [| split].
  - intros d Hc. specialize (Hdom d). specialize (Hd d Hc). lia.
  - specialize (Hdom Costs). cbn in Hdom. pose proof (proj1 Hq Costs) as Hu. cbn in Hu. unfold in_u in Hu. lia.
  - intros m Hm. pose proof (Costs.get_self _ m (proj1 (wf_costs _ Hq)) Hm) as Hg.
    destruct (Hamt (currency m)) as [Hsum Hsome].
    destruct (proj2 Hsome) as [m' Hm']; [left; by eexists |].
    assert (Hm'' : m' ∈ known_costs p /\ currency m' = currency m) by (apply Costs.get_iff; [apply (wf_costs _ Hp) | done]).
    destruct (Hfit m' (proj1 Hm'')) as (l & Hl & Hle). rewrite (proj2 Hm'') in Hl. exists l. split; [done |].
    specialize (Hdomk (currency m)). unfold Costs.amount in Hdomk. rewrite Hg, Hm' in Hdomk. lia.
Qed.

(** Capacity does not depend on the order of reservations, and releasing
    one never loses capacity: an accepted set is accepted with the same
    remainder in any order, and remains accepted when any reservation is
    dropped, with at least as much left in every dimension. *)
Theorem check_capacity_order_and_release (parent : ResolvedBudget.t) (accounted : BudgetUsage.t)
    (outs : list CumulativeBudgetReservation) (t : Timestamp.Timestamp) (r : BudgetRemaining.t) :
  ResolvedBudget.wf parent -> BudgetUsage.wf accounted -> Forall wf outs ->
  check_capacity parent accounted outs t = Ok r ->
  (forall outs', Permutation outs outs' -> check_capacity parent accounted outs' t = Ok r) /\
  (forall l1 x l2, outs = l1 ++ x :: l2 ->
     exists r', check_capacity parent accounted (l1 ++ l2) t = Ok r' /\
       forall d, counter d -> BudgetRemaining.left_of d r <= BudgetRemaining.left_of d r').
Proof.
  intros Hpar Ha HF (Hlen & p & Hproj & Hrem)%check_capacity_Ok. split.
  - intros outs' Hp. apply check_capacity_Ok. rewrite <- (Permutation_length Hp). split; [done |].
    exists p. split; [by eapply project_perm | done].
  - intros l1 x l2 ->. apply (project_perm _ ((l1 ++ l2) ++ [x])) in Hproj; [| | done | done].
    2: { rewrite <- app_assoc. by rewrite <- Permutation_middle, <- Permutation_cons_append, app_assoc, <- Permutation_cons_append || solve_Permutation. }
    apply Forall_app in HF as [HF1 [Hx HF2]%Forall_cons].
    rewrite try_fold_app in Hproj. apply bind_Ok in Hproj as (q & Hq & Hx'). simpl in Hx'. simp_ok. subst.
    destruct (project_Ok _ (l1 ++ l2) q Ha) as (Hwq & _); [by apply Forall_app | done |].
    apply project_step_Ok in H. destruct (Capacity.remaining_Ok _ _ _ _ Hrem) as (Ht & Hfits & Hl & _).
    destruct (Capacity.remaining_complete parent q t Ht) as [r' Hr'];
      [eapply accumulate_fits; [exact Hwq | apply Hx | exact H | exact Hfits] |].
    exists r'. split.
    + apply check_capacity_Ok. split; [| by exists q]. rewrite !length_app in *. simpl in Hlen. lia.
    + intros d Hd. destruct (Capacity.remaining_Ok _ _ _ _ Hr') as (_ & _ & Hl' & _). rewrite Hl, Hl' by done.
      destruct (accumulate_dominates _ _ _ Hwq (proj1 Hx) H) as [[Hdom _] _]. specialize (Hdom d). lia.
Qed.

Lemma check_capacity_order_and_release_witness :
  exists r r', check_capacity Capacity.parent_budget Capacity.sample_usage [child_reservation; child_reservation] 10 = Ok r /\
    check_capacity Capacity.parent_budget Capacity.sample_usage [child_reservation] 10 = Ok r' /\
    BudgetRemaining.left_of ToolCalls r <= BudgetRemaining.left_of ToolCalls r'.
Proof.
  assert (HF : Forall wf [child_reservation; child_reservation])
    by (repeat constructor; apply child_reservation_wf).
  destruct (check_capacity Capacity.parent_budget Capacity.sample_usage [child_reservation; child_reservation] 10) as [r|] eqn:E;
    [| vm_compute in E; discriminate].
  destruct (check_capacity_order_and_release Capacity.parent_budget Capacity.sample_usage _ 10 r
              Capacity.parent_budget_wf Capacity.sample_usage_wf HF E) as [_ H].
  destruct (H [] child_reservation [child_reservation] eq_refl) as (r' & Hr' & Hd).
  exists r, r'. split; [reflexivity | split; [exact Hr' |]]. apply Hd. split; discriminate.
Defined.

End Reservation.
