(* ===== verification/Checkpoint.v ===== *)
(** Graph checkpoints (crates/stateknot-core/src/checkpoint.rs): supersteps,
    node identities and ready sets, integrity-bound state, write intents,
    committed checkpoints, and the streaming verifier of a checkpoint lineage.

    Capability identities and schema references are compared only and are type
    parameters.  [JournalHead] is the compact head of journal.rs. *)

From Stdlib Require Import ZArith Lia List.
From stdpp Require Import prelude.
From S2P Require Import Prelude Ordered Json Decimal Time.

Open Scope Z_scope.
Import Timestamp(Timestamp).

(** * Supersteps *)

Module Superstep.

Definition Superstep := Z.
Definition MAX_DATABASE_ORDINAL : Z := i64_max.
Definition INITIAL : Superstep := 0.

Inductive SuperstepError := InvalidFormat | NonCanonical | AboveMaximum.

Definition new (value : Z) : result SuperstepError Superstep :=
  if MAX_DATABASE_ORDINAL <? value then Err AboveMaximum else Ok value.

Definition checked_next (self : Superstep) : option Superstep :=
  if self =? MAX_DATABASE_ORDINAL then None else Some (self + 1).

Definition from_decimal_error (error : Decimal.UnsignedDecimalError) : SuperstepError :=
  match error with
  | Decimal.Empty | Decimal.InvalidCharacter _ => InvalidFormat
  | Decimal.LeadingZero => NonCanonical
  | Decimal.TooLong _ _ | Decimal.Overflow => AboveMaximum
  end.

Definition from_str (value : bytes) : result SuperstepError Superstep :=
  value ← map_err from_decimal_error (Decimal.parse_bounded_u64 value MAX_DATABASE_ORDINAL);
  new value.

Definition valid (s : Superstep) : Prop := 0 <= s <= MAX_DATABASE_ORDINAL.

Lemma checked_next_iff s s' : valid s -> checked_next s = Some s' <-> s' = s + 1 /\ valid s'.
Proof.
  unfold valid, checked_next. intros Hs. destruct (Z.eqb_spec s MAX_DATABASE_ORDINAL).
  - split; [done |]. intros [-> ?]. lia.
  - split; [intros [= <-]; lia | by intros [-> _]].
Qed.

End Superstep.
Import Superstep(Superstep).

(** * Node identities and ready sets *)

Definition NodeId := bytes.
Definition NODE_ID_MAX_LEN : Z := 128.

Inductive NodeIdError := NodeEmpty | NodeTooLong (max actual : Z) | NodePathLike | NodeInvalidByte (index : Z).

Definition is_ascii_alphanumeric (b : Z) : bool :=
  between 48 57 b || between 65 90 b || between 97 122 b.

Definition node_byte (b : Z) : bool :=
  is_ascii_alphanumeric b || (b =? 46) || (b =? 95) || (b =? 45).

Definition validate_node_id (value : bytes) : result NodeIdError unit :=
  match value with
  | [] => Err NodeEmpty
  | first :: _ =>
      if NODE_ID_MAX_LEN <? Z.of_nat (length value) then Err (NodeTooLong NODE_ID_MAX_LEN (Z.of_nat (length value))) else
      if bool_decide (value = [46]) || bool_decide (value = [46; 46]) then Err NodePathLike else
      if negb (is_ascii_alphanumeric first) then Err (NodeInvalidByte 0) else
      match position (fun b => negb (node_byte b)) value with
      | Some index => Err (NodeInvalidByte (Z.of_nat index))
      | None => Ok tt
      end
  end.

Definition node_id_new (value : bytes) : result NodeIdError NodeId :=
  _ ← validate_node_id value; Ok value.

(** [ReadyNodes(BTreeSet<NodeId>)]. *)
Definition ReadyNodes := list NodeId.
Definition READY_MAX_LEN : Z := 1024.

Inductive ReadyNodesError := Duplicate (node : NodeId) | TooMany (maximum actual : Z).

Definition ready_step (values : ReadyNodes) (node : NodeId) : result ReadyNodesError ReadyNodes :=
  if bs_contains node values then Err (Duplicate node) else
  if Z.of_nat (length values) =? READY_MAX_LEN then Err (TooMany READY_MAX_LEN (READY_MAX_LEN + 1)) else
  Ok (bs_insert node values).

Definition ready_try_new (nodes : list NodeId) : result ReadyNodesError ReadyNodes := try_fold ready_step [] nodes.

Definition ready_wf (r : ReadyNodes) : Prop := ksorted (fun n => n) r /\ Z.of_nat (length r) <= READY_MAX_LEN.

Lemma ready_fold_Ok nodes values r :
  ready_wf values ->
  try_fold ready_step values nodes = Ok r <->
  NoDup (nodes ++ values) /\ Z.of_nat (length (nodes ++ values)) <= READY_MAX_LEN /\ ready_wf r /\ r ≡ₚ nodes ++ values.
Proof.
  revert values. induction nodes as [|n nodes IH]; intros values Hv; simpl.
  - split; [intros [= ->]; destruct Hv; split_and!; try done; by apply sorted_set_NoDup |].
    intros (_ & _ & [Hr _] & Hp). f_equal. apply sorted_set_ext; [apply Hv | done |]. intros x. by rewrite Hp.
  - set (f := try_fold ready_step). unfold ready_step. destruct (bs_contains n values) eqn:Ec; simpl.
    { apply bs_contains_iff in Ec. split; [done |]. intros (Hn & _). apply NoDup_cons in Hn as [Hn _].
      destruct Hn. apply elem_of_app. by right. }
    apply bs_contains_false in Ec. destruct (Z.eqb_spec (Z.of_nat (length values)) READY_MAX_LEN) as [El|El]; simpl.
    { split; [done |]. intros (_ & Hl & _). rewrite length_app in Hl. lia. }
    assert (Hi : ready_wf (bs_insert n values)).
    { destruct Hv as [Hs Hl]. split; [by apply bs_insert_sorted |]. rewrite bs_insert_length_fresh by done. lia. }
    assert (Hperm : bs_insert n values ≡ₚ n :: values).
    { apply NoDup_Permutation.
      - by apply sorted_set_NoDup, Hi.
      - constructor; [done |]. by apply sorted_set_NoDup, Hv.
      - intros x. rewrite bs_insert_elem, elem_of_cons. done. }
    simpl. unfold f. rewrite (IH _ Hi), Hperm, <- Permutation_middle. done.
Qed.

Lemma ready_try_new_Ok nodes r :
  ready_try_new nodes = Ok r <->
  NoDup nodes /\ Z.of_nat (length nodes) <= READY_MAX_LEN /\ ready_wf r /\ r ≡ₚ nodes.
Proof.
  unfold ready_try_new. rewrite ready_fold_Ok; [by rewrite !app_nil_r |]. split; [constructor | done].
Qed.

(** A set that is already sorted and bounded is kept as it is. *)
Lemma ready_try_new_sorted nodes : ready_wf nodes -> ready_try_new nodes = Ok nodes.
Proof. intros H. apply ready_try_new_Ok. destruct H. split_and!; try done. by apply sorted_set_NoDup. Qed.

(** * Integrity-bound records *)

Definition TenantId := bytes.
Definition RunId := Z.
Definition CheckpointId := Z.

Record JournalHead := mkJournalHead {
  jh_tenant_id : TenantId;
  jh_run_id : RunId;
  jh_sequence : Z;
  jh_event_id : Z;
  jh_recorded_at : Timestamp;
  jh_digest : Digest
}.

#[global] Instance JournalHead_eq_dec : EqDecision JournalHead.
Proof. solve_decision. Defined.

Inductive CheckpointIntegrityError :=
| StateCanonicalization (source : CanonicalJsonError)
| CanonicalSerialization.

Inductive CheckpointStateError := StateIntegrity (source : CheckpointIntegrityError) | StateDigestMismatch.

Inductive JournalScopeError := ScopeTenant | ScopeRun.

Inductive CheckpointHeadError := HeadJournalTenantMismatch | HeadJournalRunMismatch.

Inductive CheckpointWriteError :=
| StateSchemaMismatch
| InitialHasParent
| SuccessorMissingParent
| ParentTenantMismatch
| ParentRunMismatch
| ReusedCheckpointId
| SuperstepOverflow
| NonContiguousSuperstep (expected actual : Superstep)
| ParentGraphMismatch
| WriteIntegrity (source : CheckpointIntegrityError)
| IntentDigestMismatch.

Inductive CheckpointError :=
| JournalTenantMismatch
| JournalRunMismatch
| JournalDidNotAdvance (previous actual : Z)
| ClockRegression (previous actual : Timestamp)
| Integrity (source : CheckpointIntegrityError)
| DigestMismatch.

Inductive CheckpointLineageError := HeadMismatch | AlreadyComplete.

(** [b"stateknot-checkpoint-state-v1\0"] and its two siblings. *)
Definition STATE_DIGEST_DOMAIN : bytes := bytes_of "stateknot-checkpoint-state-v1" ++ [0].
Definition INTENT_DIGEST_DOMAIN : bytes := bytes_of "stateknot-checkpoint-intent-v1" ++ [0].
Definition CHECKPOINT_DIGEST_DOMAIN : bytes := bytes_of "stateknot-checkpoint-v1" ++ [0].

Definition validate_journal_scope (tenant : TenantId) (run : RunId) (journal : JournalHead) : result JournalScopeError unit :=
  if negb (bool_decide (jh_tenant_id journal = tenant)) then Err ScopeTenant else
  if negb (bool_decide (jh_run_id journal = run)) then Err ScopeRun else Ok tt.

Definition head_from_scope (error : JournalScopeError) : CheckpointHeadError :=
  match error with ScopeTenant => HeadJournalTenantMismatch | ScopeRun => HeadJournalRunMismatch end.

Definition from_scope (error : JournalScopeError) : CheckpointError :=
  match error with ScopeTenant => JournalTenantMismatch | ScopeRun => JournalRunMismatch end.

Section Records.
Context {Capability Schema : Type} `{EqDecision Capability, EqDecision Schema}.

Record GraphReference := mkGraphReference {
  ref_identity : Capability;
  ref_definition_digest : Digest;
  ref_state_schema : Schema
}.

#[global] Instance GraphReference_eq_dec : EqDecision GraphReference.
Proof. solve_decision. Defined.

Record CheckpointState := mkState { state_schema : Schema; state_data : Value; state_digest : Digest }.

#[global] Instance CheckpointState_eq_dec : EqDecision CheckpointState.
Proof. solve_decision. Defined.

Record CheckpointHead := mkHead {
  head_tenant_id : TenantId;
  head_run_id : RunId;
  head_checkpoint_id : CheckpointId;
  head_superstep : Superstep;
  head_graph : GraphReference;
  head_journal_head : JournalHead;
  head_digest : Digest
}.

#[global] Instance CheckpointHead_eq_dec : EqDecision CheckpointHead.
Proof. solve_decision. Defined.

Record CheckpointWrite := mkWrite {
  write_tenant_id : TenantId;
  write_run_id : RunId;
  write_checkpoint_id : CheckpointId;
  write_superstep : Superstep;
  write_graph : GraphReference;
  write_state : CheckpointState;
  write_ready_nodes : ReadyNodes;
  write_parent : option CheckpointHead;
  write_intent_digest : Digest
}.

Record Checkpoint := mkCheckpoint {
  tenant_id : TenantId;
  run_id : RunId;
  checkpoint_id : CheckpointId;
  superstep : Superstep;
  graph : GraphReference;
  state : CheckpointState;
  ready_nodes : ReadyNodes;
  parent : option CheckpointHead;
  intent_digest : Digest;
  journal_head : JournalHead;
  digest : Digest
}.

Record StateDigestWire := mkStateWire { wire_schema : Schema; wire_data_digest : Digest }.

Record CheckpointIntentDigestWire := mkIntentWire {
  wire_tenant_id : TenantId;
  wire_run_id : RunId;
  wire_checkpoint_id : CheckpointId;
  wire_superstep : Superstep;
  wire_graph : GraphReference;
  wire_state_digest : Digest;
  wire_ready_nodes : ReadyNodes;
  wire_parent : option CheckpointHead
}.

Record CheckpointDigestWire := mkCheckpointWire { wire_intent_digest : Digest; wire_journal_head : JournalHead }.

Definition validate_write_shape (tenant : TenantId) (run : RunId) (id : CheckpointId) (step : Superstep)
  (g : GraphReference) (st : CheckpointState) (par : option CheckpointHead) : result CheckpointWriteError unit :=
  if negb (bool_decide (state_schema st = ref_state_schema g)) then Err StateSchemaMismatch else
  match bool_decide (step = Superstep.INITIAL), par with
  | true, None => Ok tt
  | true, Some _ => Err InitialHasParent
  | false, None => Err SuccessorMissingParent
  | false, Some p =>
      if negb (bool_decide (head_tenant_id p = tenant)) then Err ParentTenantMismatch else
      if negb (bool_decide (head_run_id p = run)) then Err ParentRunMismatch else
      if bool_decide (head_checkpoint_id p = id) then Err ReusedCheckpointId else
      expected ← ok_or (Superstep.checked_next (head_superstep p)) SuperstepOverflow;
      if negb (bool_decide (step = expected)) then Err (NonContiguousSuperstep expected step) else
      if negb (bool_decide (head_graph p = g)) then Err ParentGraphMismatch else Ok tt
  end.

Definition head_new (tenant : TenantId) (run : RunId) (id : CheckpointId) (step : Superstep) (g : GraphReference)
  (journal : JournalHead) (d : Digest) : result CheckpointHeadError CheckpointHead :=
  _ ← map_err head_from_scope (validate_journal_scope tenant run journal);
  Ok (mkHead tenant run id step g journal d).

Definition head (self : Checkpoint) : CheckpointHead :=
  mkHead (tenant_id self) (run_id self) (checkpoint_id self) (superstep self) (graph self) (journal_head self) (digest self).

Definition write_intent (self : Checkpoint) : CheckpointWrite :=
  mkWrite (tenant_id self) (run_id self) (checkpoint_id self) (superstep self) (graph self) (state self)
          (ready_nodes self) (parent self) (intent_digest self).

Definition matches_write (self : Checkpoint) (write : CheckpointWrite) : bool :=
  bool_decide (tenant_id self = write_tenant_id write) && bool_decide (run_id self = write_run_id write)
  && bool_decide (checkpoint_id self = write_checkpoint_id write) && bool_decide (superstep self = write_superstep write)
  && bool_decide (graph self = write_graph write) && bool_decide (state self = write_state write)
  && bool_decide (ready_nodes self = write_ready_nodes write) && bool_decide (parent self = write_parent write)
  && bool_decide (intent_digest self = write_intent_digest write).

(** ** Digests *)

Context `{Canonical Value, Canonical StateDigestWire, Canonical CheckpointIntentDigestWire, Canonical CheckpointDigestWire}.
Variable sha256 : bytes -> bytes.

Definition domain_separated_digest {T} `{Canonical T} (domain : bytes) (value : T) : result CheckpointIntegrityError Digest :=
  canonical ← ok_or (to_vec value) CanonicalSerialization;
  Ok (sha256 (domain ++ canonical)).

Definition compute_state_digest (schema : Schema) (data : Value) : result CheckpointIntegrityError Digest :=
  canonical ← map_err StateCanonicalization (canonical_new sha256 data);
  domain_separated_digest STATE_DIGEST_DOMAIN (mkStateWire schema (canonical_digest canonical)).

Definition state_new (schema : Schema) (data : Value) : result CheckpointStateError CheckpointState :=
  d ← map_err StateIntegrity (compute_state_digest schema data);
  Ok (mkState schema data d).

Definition state_restore (schema : Schema) (data : Value) (d : Digest) : result CheckpointStateError CheckpointState :=
  expected ← map_err StateIntegrity (compute_state_digest schema data);
  if negb (bool_decide (d = expected)) then Err StateDigestMismatch else Ok (mkState schema data d).

(** [supplied.is_some_and(|supplied| supplied != computed)]. *)
Definition supplied_differs (supplied : option Digest) (computed : Digest) : bool :=
  match supplied with Some d => negb (bool_decide (d = computed)) | None => false end.

Definition write_build (tenant : TenantId) (run : RunId) (id : CheckpointId) (step : Superstep) (g : GraphReference)
  (st : CheckpointState) (ready : ReadyNodes) (par : option CheckpointHead) (supplied : option Digest)
  : result CheckpointWriteError CheckpointWrite :=
  _ ← validate_write_shape tenant run id step g st par;
  d ← map_err WriteIntegrity (domain_separated_digest INTENT_DIGEST_DOMAIN
        (mkIntentWire tenant run id step g (state_digest st) ready par));
  if supplied_differs supplied d then Err IntentDigestMismatch else
  Ok (mkWrite tenant run id step g st ready par d).

Definition write_initial (tenant : TenantId) (run : RunId) (id : CheckpointId) (g : GraphReference)
  (st : CheckpointState) (ready : ReadyNodes) : result CheckpointWriteError CheckpointWrite :=
  write_build tenant run id Superstep.INITIAL g st ready None None.

Definition write_successor (id : CheckpointId) (par : Checkpoint) (st : CheckpointState) (ready : ReadyNodes)
  : result CheckpointWriteError CheckpointWrite :=
  step ← ok_or (Superstep.checked_next (superstep par)) SuperstepOverflow;
  write_build (tenant_id par) (run_id par) id step (graph par) st ready (Some (head par)) None.

Definition write_restore (tenant : TenantId) (run : RunId) (id : CheckpointId) (step : Superstep) (g : GraphReference)
  (st : CheckpointState) (ready : ReadyNodes) (par : option CheckpointHead) (supplied : Digest)
  : result CheckpointWriteError CheckpointWrite :=
  write_build tenant run id step g st ready par (Some supplied).

Definition check_after_parent (journal : JournalHead) (par : CheckpointHead) : result CheckpointError unit :=
  if jh_sequence journal <=? jh_sequence (head_journal_head par)
  then Err (JournalDidNotAdvance (jh_sequence (head_journal_head par)) (jh_sequence journal)) else
  if jh_recorded_at journal <? jh_recorded_at (head_journal_head par)
  then Err (ClockRegression (jh_recorded_at (head_journal_head par)) (jh_recorded_at journal)) else
  Ok tt.

Definition checkpoint_build (write : CheckpointWrite) (journal : JournalHead) (supplied : option Digest)
  : result CheckpointError Checkpoint :=
  _ ← map_err from_scope (validate_journal_scope (write_tenant_id write) (write_run_id write) journal);
  _ ← match write_parent write with Some par => check_after_parent journal par | None => Ok tt end;
  d ← map_err Integrity (domain_separated_digest CHECKPOINT_DIGEST_DOMAIN
        (mkCheckpointWire (write_intent_digest write) journal));
  if supplied_differs supplied d then Err DigestMismatch else
  Ok (mkCheckpoint (write_tenant_id write) (write_run_id write) (write_checkpoint_id write) (write_superstep write)
        (write_graph write) (write_state write) (write_ready_nodes write) (write_parent write)
        (write_intent_digest write) journal d).

Definition checkpoint_commit (write : CheckpointWrite) (journal : JournalHead) : result CheckpointError Checkpoint :=
  checkpoint_build write journal None.

Definition checkpoint_restore (write : CheckpointWrite) (journal : JournalHead) (d : Digest)
  : result CheckpointError Checkpoint :=
  checkpoint_build write journal (Some d).

(** ** The lineage verifier: [expected] is the whole of its state. *)

Record CheckpointLineageVerifier := mkVerifier { expected : option CheckpointHead }.

Definition from_tip (tip : CheckpointHead) : CheckpointLineageVerifier := mkVerifier (Some tip).

Definition is_complete (self : CheckpointLineageVerifier) : bool :=
  match expected self with None => true | Some _ => false end.

Definition verify_next (self : CheckpointLineageVerifier) (c : Checkpoint)
  : result CheckpointLineageError CheckpointLineageVerifier :=
  match expected self with
  | None => Err AlreadyComplete
  | Some e => if negb (bool_decide (head c = e)) then Err HeadMismatch else Ok (mkVerifier (parent c))
  end.
End Records.
Arguments GraphReference : clear implicits.
Arguments CheckpointState : clear implicits.
Arguments CheckpointHead : clear implicits.
Arguments CheckpointWrite : clear implicits.
Arguments Checkpoint : clear implicits.
Arguments StateDigestWire : clear implicits.
Arguments CheckpointIntentDigestWire : clear implicits.
Arguments CheckpointDigestWire : clear implicits.
Arguments CheckpointLineageVerifier : clear implicits.

(** Theorems on checkpoints: what the constructors accept, that a committed
    checkpoint restores to itself, and the integrity of a verified lineage. *)

Module Lineage.

Lemma validate_journal_scope_Ok t r j u :
  validate_journal_scope t r j = Ok u <-> jh_tenant_id j = t /\ jh_run_id j = r.
Proof.
  unfold validate_journal_scope. destruct u. repeat case_bool_decide; simpl; split; try done; by intros [? ?].
Qed.

Section Laws.
Context {Capability Schema : Type} `{EqDecision Capability, EqDecision Schema}.
Context `{Canonical Value, Canonical (StateDigestWire Schema),
  Canonical (CheckpointIntentDigestWire Capability Schema), Canonical CheckpointDigestWire}.
Variable sha256 : bytes -> bytes.

Abbreviation CheckpointT := (Checkpoint Capability Schema).
Abbreviation HeadT := (CheckpointHead Capability Schema).
Abbreviation VerifierT := (CheckpointLineageVerifier Capability Schema).
Implicit Types (c : CheckpointT) (p : HeadT).

(** ** What the constructors accept *)

Definition shape_ok tenant run id step (g : GraphReference Capability Schema) (st : CheckpointState Schema) (par : option HeadT) : Prop :=
  state_schema st = ref_state_schema g /\
  match par with
  | None => step = Superstep.INITIAL
  | Some p => step <> Superstep.INITIAL /\ head_tenant_id p = tenant /\ head_run_id p = run /\
      head_checkpoint_id p <> id /\ Superstep.checked_next (head_superstep p) = Some step /\ head_graph p = g
  end.

Lemma validate_write_shape_Ok tenant run id step g st par u :
  validate_write_shape tenant run id step g st par = Ok u <-> shape_ok tenant run id step g st par.
Proof.
  unfold validate_write_shape, shape_ok. destruct u.
  case_bool_decide as Hs; simpl; [| split; [done | by intros [? _]]].
  destruct par as [p|]; case_bool_decide as Hi; simpl; try (split; [done | naive_solver]).
  repeat (case_bool_decide; simpl; [| split; [done | naive_solver]]).
  case_bool_decide; simpl; [split; [done | naive_solver] |].
  destruct (Superstep.checked_next (head_superstep p)) as [e|]; simpl; [| split; [done | naive_solver]].
  repeat (case_bool_decide; simpl; [| split; [done | naive_solver]]). subst. naive_solver.
Qed.

Lemma domain_separated_digest_Ok {T} `{Canonical T} domain (v : T) d :
  domain_separated_digest sha256 domain v = Ok d <-> exists b, to_vec v = Some b /\ d = sha256 (domain ++ b).
Proof.
  unfold domain_separated_digest. rewrite bind_Ok. setoid_rewrite ok_or_Ok. split.
  - intros (b & Hb & [= <-]). eauto.
  - intros (b & Hb & ->). eauto.
Qed.

Lemma supplied_differs_self d : supplied_differs (Some d) d = false.
Proof. simpl. by rewrite bool_decide_eq_true_2. Qed.

(** A checkpoint whose state, intent and record all pass their restoring
    constructors under the digests it carries. *)
Definition restored c : Prop :=
  state_restore sha256 (state_schema (state c)) (state_data (state c)) (state_digest (state c)) = Ok (state c) /\
  write_restore sha256 (tenant_id c) (run_id c) (checkpoint_id c) (superstep c) (graph c) (state c) (ready_nodes c)
    (parent c) (intent_digest c) = Ok (write_intent c) /\
  checkpoint_restore sha256 (write_intent c) (journal_head c) (digest c) = Ok c.

(** The bytes hashed into the four digests a checkpoint carries. *)
Definition data_text c : option bytes :=
  match canonical_new sha256 (state_data (state c)) with Ok j => Some (text j) | Err _ => None end.
Definition state_preimage c : option bytes :=
  t ← data_text c; b ← to_vec (mkStateWire (state_schema (state c)) (sha256 t)); Some (STATE_DIGEST_DOMAIN ++ b).
Definition intent_preimage c : option bytes :=
  b ← to_vec (mkIntentWire (tenant_id c) (run_id c) (checkpoint_id c) (superstep c) (graph c)
                (state_digest (state c)) (ready_nodes c) (parent c));
  Some (INTENT_DIGEST_DOMAIN ++ b).
Definition record_preimage c : option bytes :=
  b ← to_vec (mkCheckpointWire (intent_digest c) (journal_head c)); Some (CHECKPOINT_DIGEST_DOMAIN ++ b).
Definition preimages c : list (option bytes) := [data_text c; state_preimage c; intent_preimage c; record_preimage c].

(** Two checkpoints collide when bytes hashed for one differ from the bytes
    hashed for the other in the same place under the same digest. *)
Definition collide c c' : Prop :=
  exists i b b', preimages c !! i = Some (Some b) /\ preimages c' !! i = Some (Some b') /\ b <> b' /\ sha256 b = sha256 b'.

Lemma restored_facts c :
  restored c ->
  shape_ok (tenant_id c) (run_id c) (checkpoint_id c) (superstep c) (graph c) (state c) (parent c) /\
  jh_tenant_id (journal_head c) = tenant_id c /\ jh_run_id (journal_head c) = run_id c /\
  (forall p, parent c = Some p -> check_after_parent (journal_head c) p = Ok tt) /\
  exists dt sp ip rp, data_text c = Some dt /\ state_preimage c = Some sp /\ intent_preimage c = Some ip /\
    record_preimage c = Some rp /\ state_digest (state c) = sha256 sp /\ intent_digest c = sha256 ip /\ digest c = sha256 rp.
Proof.
  intros (Hs & Hw & Hc).
  unfold state_restore in Hs. apply bind_Ok in Hs as (ds & Hds & Hs). apply map_err_Ok in Hds.
  unfold compute_state_digest in Hds. apply bind_Ok in Hds as (j & Hj & Hds). apply map_err_Ok in Hj.
  apply domain_separated_digest_Ok in Hds as (bs & Hbs & Eds).
  pose proof (proj1 (canonical_new_Ok _ _ _) Hj) as (_ & _ & _ & Edj).
  unfold write_restore, write_build in Hw. apply bind_Ok in Hw as ([] & Hsh%validate_write_shape_Ok & Hw).
  apply bind_Ok in Hw as (di & Hdi & Hw). apply map_err_Ok, domain_separated_digest_Ok in Hdi as (bi & Hbi & Edi).
  unfold checkpoint_restore, checkpoint_build in Hc. simpl in Hc.
  apply bind_Ok in Hc as ([] & Hjs & Hc). apply map_err_Ok, validate_journal_scope_Ok in Hjs as [Ht Hr].
  apply bind_Ok in Hc as ([] & Hpar & Hc). apply bind_Ok in Hc as (dc & Hdc & Hc).
  apply map_err_Ok, domain_separated_digest_Ok in Hdc as (bc & Hbc & Edc).
  simpl in Hw. destruct (bool_decide_reflect (digest c = dc)) as [E1|]; [| done].
  destruct (bool_decide_reflect (intent_digest c = di)) as [E2|]; [| done].
  destruct (bool_decide_reflect (state_digest (state c) = ds)) as [E3|]; [| done].
  split_and!; [done | done | done | by intros p Hp; rewrite Hp in Hpar |].
  unfold state_preimage, intent_preimage, record_preimage, data_text. rewrite Hj. simpl.
  rewrite <- Edj, Hbs, Hbi, Hbc. simpl. rewrite E1, E2, E3, Eds, Edi, Edc. by repeat eexists.
Qed.

(** ** Commit, then restore *)

Lemma state_new_restores schema data st :
  state_new sha256 schema data = Ok st ->
  state_restore sha256 (state_schema st) (state_data st) (state_digest st) = Ok st.
Proof.
  unfold state_new, state_restore. intros (d & Hd & [= <-])%bind_Ok. simpl. rewrite Hd. simpl. by rewrite bool_decide_eq_true_2.
Qed.

Lemma write_build_restores tenant run id step g st ready par w :
  write_build sha256 tenant run id step g st ready par None = Ok w ->
  write_restore sha256 (write_tenant_id w) (write_run_id w) (write_checkpoint_id w) (write_superstep w) (write_graph w)
    (write_state w) (write_ready_nodes w) (write_parent w) (write_intent_digest w) = Ok w /\ write_state w = st.
Proof.
  unfold write_restore, write_build. intros (u & Hu & H')%bind_Ok. apply bind_Ok in H' as (d & Hd & H'). injection H' as <-. simpl.
  rewrite Hu. simpl. rewrite Hd. simpl. by rewrite bool_decide_eq_true_2.
Qed.

(** A checkpoint committed from constructed values passes restoration. *)
Lemma commit_restored tenant run id step g schema data st ready par w j c :
  state_new sha256 schema data = Ok st -> write_build sha256 tenant run id step g st ready par None = Ok w ->
  checkpoint_commit sha256 w j = Ok c -> restored c /\ write_intent c = w /\ journal_head c = j.
Proof.
  intros Hst%state_new_restores [Hw Ew]%write_build_restores Hc.
  assert (Hi : write_intent c = w /\ journal_head c = j /\ checkpoint_restore sha256 w j (digest c) = Ok c).
  { unfold checkpoint_commit, checkpoint_restore, checkpoint_build in *.
    apply bind_Ok in Hc as (u & -> & Hc). apply bind_Ok in Hc as (u' & -> & Hc). apply bind_Ok in Hc as (d & -> & Hc).
    injection Hc as <-. simpl. rewrite bool_decide_eq_true_2 by done. by destruct w. }
  destruct Hi as (<- & <- & Hc'). simpl in *. subst st. by repeat split.
Qed.

(** ** Verified lineages *)

Definition verify_all (v : VerifierT) (cps : list CheckpointT) : result CheckpointLineageError VerifierT :=
  try_fold verify_next v cps.

(** The recorded relation between a checkpoint and the one before it. *)
Definition follows c c' : Prop :=
  parent c = Some (head c') /\ tenant_id c' = tenant_id c /\ run_id c' = run_id c /\ graph c' = graph c /\
  checkpoint_id c' <> checkpoint_id c /\ superstep c' + 1 = superstep c /\
  jh_sequence (journal_head c') < jh_sequence (journal_head c) /\
  jh_recorded_at (journal_head c') <= jh_recorded_at (journal_head c).

Lemma restored_follows c c' : restored c -> parent c = Some (head c') -> follows c c'.
Proof.
  intros (Hsh & _ & _ & Hp & _)%restored_facts Hpar. specialize (Hp _ Hpar). unfold shape_ok in Hsh. rewrite Hpar in Hsh.
  destruct Hsh as (_ & _ & Ht & Hr & Hid & Hs & Hg). unfold check_after_parent in Hp. simpl in *.
  destruct (Z.leb_spec (jh_sequence (journal_head c)) (jh_sequence (journal_head c'))); [done |].
  destruct (Z.ltb_spec (jh_recorded_at (journal_head c)) (jh_recorded_at (journal_head c'))); [done |].
  unfold Superstep.checked_next in Hs. destruct (_ =? _); [done |]. injection Hs as Hs. by split_and!.
Qed.

Lemma restored_root c : restored c -> parent c = None -> superstep c = 0.
Proof. intros (Hsh & _)%restored_facts Hp. unfold shape_ok in Hsh. rewrite Hp in Hsh. by destruct Hsh. Qed.

Lemma verify_all_cons v c cps v' :
  verify_all v (c :: cps) = Ok v' <-> expected v = Some (head c) /\ verify_all (mkVerifier (parent c)) cps = Ok v'.
Proof.
  unfold verify_all. set (f := try_fold verify_next) at 2. simpl. fold f. unfold verify_next. destruct (expected v) as [e|]; simpl; [| split; [done | by intros [? _]]].
  case_bool_decide as E; simpl.
  - subst e. naive_solver.
  - split; [done |]. intros [[= ->] _]. done.
Qed.

(** Every complete lineage counts down to the root, one superstep a record. *)
Lemma verified_chain cps v v' tip :
  Forall restored cps -> expected v = Some tip -> verify_all v cps = Ok v' -> is_complete v' = true ->
  exists c rest, cps = c :: rest /\ head c = tip /\ Z.of_nat (length rest) = head_superstep tip /\
    forall i a b, cps !! i = Some a -> cps !! S i = Some b -> follows a b.
Proof.
  revert v tip. induction cps as [|c cps IH]; intros v tip HF Hv Hall Hc.
  { simpl in Hall. injection Hall as <-. unfold is_complete in Hc. by rewrite Hv in Hc. }
  apply Forall_cons in HF as [Hr HF]. apply verify_all_cons in Hall as [Hv' Hall].
  assert (tip = head c) as -> by congruence. exists c, cps. split; [done |]. split; [done |].
  destruct (parent c) as [p|] eqn:Hp.
  - destruct (IH (mkVerifier (Some p)) p HF eq_refl Hall Hc) as (c2 & rest & -> & <- & Hlen & Hch).
    pose proof (restored_follows c c2 Hr Hp) as Hf. split.
    + simpl in *. destruct Hf as (_ & _ & _ & _ & _ & Hs & _). lia.
    + intros [|i] a b Ha Hb; simpl in Ha, Hb; [by simplify_eq | by eapply Hch].
  - destruct cps as [|c2 rest]; [| by apply verify_all_cons in Hall as [? _]].
    split; [pose proof (restored_root c Hr Hp); simpl; lia |]. intros [|i] a b Ha Hb; simpl in *; discriminate.
Qed.

(** ** Uniqueness *)

Variable state_inj : encoder_injective (to_vec (T := StateDigestWire Schema)).
Variable intent_inj : encoder_injective (to_vec (T := CheckpointIntentDigestWire Capability Schema)).
Variable record_inj : encoder_injective (to_vec (T := CheckpointDigestWire)).

(** Same checkpoint up to JSON spellings of the state with one canonical text. *)
Definition same_content c c' : Prop :=
  head c = head c' /\ intent_digest c = intent_digest c' /\ parent c = parent c' /\ ready_nodes c = ready_nodes c' /\
  state_schema (state c) = state_schema (state c') /\ data_text c = data_text c'.

Lemma digest_binds c c' i b b' :
  preimages c !! i = Some (Some b) -> preimages c' !! i = Some (Some b') -> sha256 b = sha256 b' -> b = b' \/ collide c c'.
Proof. intros. destruct (decide (b = b')); [by left |]. right. by exists i, b, b'. Qed.

Lemma head_binds_content c c' : restored c -> restored c' -> head c = head c' -> same_content c c' \/ collide c c'.
Proof.
  intros (_ & _ & _ & _ & dt & sp & ip & rp & Hdt & Hsp & Hip & Hrp & Es & Ei & Er)%restored_facts.
  intros (_ & _ & _ & _ & dt' & sp' & ip' & rp' & Hdt' & Hsp' & Hip' & Hrp' & Es' & Ei' & Er')%restored_facts Hh.
  injection Hh as Ht Hr Hid Hst Hg Hj Hd.
  destruct (digest_binds c c' 3 rp rp') as [-> | ?]; [unfold preimages; simpl; congruence.. | congruence | | by right].
  unfold record_preimage in Hrp, Hrp'. apply bind_Some in Hrp as (rb & Hrb & [= <-]), Hrp' as (rb' & Hrb' & E).
  injection E as ->. pose proof (record_inj _ _ _ Hrb Hrb') as [= Ei2 _].
  destruct (digest_binds c c' 2 ip ip') as [-> | ?]; [unfold preimages; simpl; congruence.. | congruence | | by right].
  unfold intent_preimage in Hip, Hip'. apply bind_Some in Hip as (ib & Hib & [= <-]), Hip' as (ib' & Hib' & E).
  injection E as ->. pose proof (intent_inj _ _ _ Hib Hib') as [= Es2 Hrdy Hpar].
  destruct (digest_binds c c' 1 sp sp') as [-> | ?]; [unfold preimages; simpl; congruence.. | congruence | | by right].
  unfold state_preimage in Hsp, Hsp'. rewrite Hdt in Hsp. rewrite Hdt' in Hsp'. simpl in Hsp, Hsp'.
  apply bind_Some in Hsp as (sb & Hsb & [= <-]), Hsp' as (sb' & Hsb' & E).
  injection E as ->. pose proof (state_inj _ _ _ Hsb Hsb') as [= Hsch Hdd].
  destruct (digest_binds c c' 0 dt dt') as [-> | ?]; [unfold preimages; simpl; congruence.. | congruence | | by right].
  left. unfold same_content, head. rewrite Hdt, Hdt'. split_and!; congruence.
Qed.

Lemma lineages_agree cps cps' v w v' w' :
  Forall restored cps -> Forall restored cps' -> expected v = expected w ->
  verify_all v cps = Ok v' -> verify_all w cps' = Ok w' -> is_complete v' = true -> is_complete w' = true ->
  Forall2 same_content cps cps' \/ exists c c', c ∈ cps /\ c' ∈ cps' /\ collide c c'.
Proof.
  revert cps' v w. induction cps as [|c cps IH]; intros [|c' cps'] v w HF HF' Hvw Hv Hw Hc Hc'.
  - left. constructor.
  - simpl in Hv. injection Hv as <-. apply verify_all_cons in Hw as [Hw _]. unfold is_complete in Hc. by rewrite Hvw, Hw in Hc.
  - simpl in Hw. injection Hw as <-. apply verify_all_cons in Hv as [Hv _]. unfold is_complete in Hc'. by rewrite <- Hvw, Hv in Hc'.
  - apply Forall_cons in HF as [Hr HF], HF' as [Hr' HF']. apply verify_all_cons in Hv as [Hv Hvs], Hw as [Hw Hws].
    destruct (head_binds_content c c' Hr Hr') as [Hs | ?]; [congruence | | right; exists c, c'; split_and!; try done; by left].
    assert (Ep : parent c = parent c') by apply Hs.
    destruct (IH cps' (mkVerifier (parent c)) (mkVerifier (parent c')) HF HF' Ep Hvs Hws Hc Hc') as [Hall | (d & d' & Hd & Hd' & ?)].
    + left. by constructor.
    + right. exists d, d'. split_and!; try done; by right.
Qed.

(** C30: Integrity of a verified lineage.  When the streaming verifier accepts
    a list of restored checkpoints from a trusted tip down to completion, the
    list starts with the tip, has one checkpoint for every superstep from the
    tip's to zero, and each checkpoint follows the next one: exact parent
    head, same tenant, run and graph, a new identity, a later journal position
    and no clock regression.  Another list accepted from the same tip has the
    same content, checkpoint by checkpoint, unless two checkpoints exhibit a
    collision of the hash.  The encoders are assumed injective. *)
Theorem verified_lineage_contiguous_and_unique (tip : HeadT) (cps cps' : list CheckpointT) (v v' : VerifierT)
  (HF : Forall restored cps) (HF' : Forall restored cps')
  (Hv : verify_all (from_tip tip) cps = Ok v) (Hc : is_complete v = true)
  (Hv' : verify_all (from_tip tip) cps' = Ok v') (Hc' : is_complete v' = true) :
  (exists c rest, cps = c :: rest /\ head c = tip) /\
  Z.of_nat (length cps) = head_superstep tip + 1 /\
  (forall i a b, cps !! i = Some a -> cps !! S i = Some b -> follows a b) /\
  (Forall2 same_content cps cps' \/ exists c c', c ∈ cps /\ c' ∈ cps' /\ collide c c').
Proof.
  destruct (verified_chain cps (from_tip tip) v tip HF eq_refl Hv Hc) as (c & rest & -> & Hh & Hl & Hch).
  split_and!; [by exists c, rest | simpl; lia | done |]. by eapply lineages_agree with (v := from_tip tip) (w := from_tip tip).
Qed.
End Laws.

(** ** A concrete lineage of two checkpoints *)

Definition sample_ref : GraphReference Z Z := mkGraphReference 1 [1] 7.
Definition sample_journal (n : Z) : JournalHead := mkJournalHead [97] 5 n n (10 * n) [n].

#[local] Instance state_wire_eq_dec : EqDecision (StateDigestWire Z).
Proof. solve_decision. Defined.
#[local] Instance intent_wire_eq_dec : EqDecision (CheckpointIntentDigestWire Z Z).
Proof. solve_decision. Defined.
#[local] Instance record_wire_eq_dec : EqDecision CheckpointDigestWire.
Proof. solve_decision. Defined.

Definition sample_sha (b : bytes) : bytes := [Z.of_nat (length b); List.last b 0].

#[local] Instance sample_value_encoder : Canonical Value := fun _ => Some (bytes_of "null").
#[local] Instance sample_state_encoder : Canonical (StateDigestWire Z) :=
  pick (mkStateWire 7 (sample_sha (bytes_of "null"))) (mkStateWire 8 []).

Definition sample_state : CheckpointState Z :=
  mkState 7 Null (sample_sha (STATE_DIGEST_DOMAIN ++ [1])).
Definition root_wire : CheckpointIntentDigestWire Z Z :=
  mkIntentWire [97] 5 100 0 sample_ref (state_digest sample_state) [[110]] None.
Definition root_intent_digest : Digest := sample_sha (INTENT_DIGEST_DOMAIN ++ [1]).
Definition root_record_wire : CheckpointDigestWire := mkCheckpointWire root_intent_digest (sample_journal 1).
Definition sample_root : Checkpoint Z Z :=
  mkCheckpoint [97] 5 100 0 sample_ref sample_state [[110]] None root_intent_digest (sample_journal 1)
    (sample_sha (CHECKPOINT_DIGEST_DOMAIN ++ [1])).
Definition next_wire : CheckpointIntentDigestWire Z Z :=
  mkIntentWire [97] 5 101 1 sample_ref (state_digest sample_state) [[109]] (Some (head sample_root)).
Definition next_intent_digest : Digest := sample_sha (INTENT_DIGEST_DOMAIN ++ [2]).
Definition next_record_wire : CheckpointDigestWire := mkCheckpointWire next_intent_digest (sample_journal 2).

#[local] Instance sample_intent_encoder : Canonical (CheckpointIntentDigestWire Z Z) := pick root_wire next_wire.
#[local] Instance sample_record_encoder : Canonical CheckpointDigestWire := pick root_record_wire next_record_wire.

Definition sample_next : Checkpoint Z Z :=
  mkCheckpoint [97] 5 101 1 sample_ref sample_state [[109]] (Some (head sample_root)) next_intent_digest (sample_journal 2)
    (sample_sha (CHECKPOINT_DIGEST_DOMAIN ++ [2])).

(** The second checkpoint is what [successor] and [commit] construct. *)
Example sample_next_committed :
  (w ← map_err inr (write_successor sample_sha 101 sample_root sample_state [[109]]);
   map_err inl (checkpoint_commit sample_sha w (sample_journal 2))) = Ok sample_next.
Proof. vm_compute. reflexivity. Qed.

Lemma verified_lineage_contiguous_and_unique_witness :
  Forall (restored sample_sha) [sample_next; sample_root] /\ follows sample_next sample_root.
Proof.
  assert (HF : Forall (restored sample_sha) [sample_next; sample_root]).
  { repeat constructor; vm_compute; reflexivity. }
  split; [exact HF |].
  destruct (verified_lineage_contiguous_and_unique sample_sha (pick_injective _ _) (pick_injective _ _) (pick_injective _ _)
    (head sample_next) [sample_next; sample_root] [sample_next; sample_root] (mkVerifier None) (mkVerifier None) HF HF)
    as (_ & _ & Hf & _).
  - vm_compute. reflexivity.
  - reflexivity.
  - vm_compute. reflexivity.
  - reflexivity.
  - exact (Hf 0%nat sample_next sample_root eq_refl eq_refl).
Defined.
End Lineage.
