(* ===== verification/Graph.v ===== *)
(** Compiled graphs (crates/stateknot-core/src/graph.rs): nodes with their
    declared control outcomes, the validation that turns a node list into a
    compiled graph, and the child run policy a graph may carry
    (child_run_policy.rs).

    [BTreeMap<NodeId, GraphNode>] is a sorted association list.  The breadth
    first search and the boundary fixpoint take fuel; [None] is running out of
    it, or indexing a map at a missing key, which panics in the source. *)

From Stdlib Require Import ZArith Lia List.
From stdpp Require Import prelude.
From S2P Require Import Prelude Ordered Json Checkpoint.

Open Scope Z_scope.
Import Superstep(Superstep).

Definition RouteId := bytes.
Definition ChildRunSlot := bytes.

(** * Route identities (node_result.rs) *)

Definition ROUTE_ID_MAX_LEN : Z := 128.

Inductive RouteIdError := RouteEmpty | RouteTooLong (maximum actual : Z) | RoutePathLike | RouteInvalidByte (index : Z).

Definition validate_route_id (value : bytes) : result RouteIdError unit :=
  match value with
  | [] => Err RouteEmpty
  | first :: _ =>
      if ROUTE_ID_MAX_LEN <? Z.of_nat (length value) then Err (RouteTooLong ROUTE_ID_MAX_LEN (Z.of_nat (length value))) else
      if bool_decide (value = [46]) || bool_decide (value = [46; 46]) then Err RoutePathLike else
      if negb (is_ascii_alphanumeric first) then Err (RouteInvalidByte 0) else
      match position (fun b => negb (node_byte b)) value with
      | Some index => Err (RouteInvalidByte (Z.of_nat index))
      | None => Ok tt
      end
  end.

Definition route_id_new (value : bytes) : result RouteIdError RouteId :=
  _ ← validate_route_id value; Ok value.

(** * Limits *)

Record GraphExecutionLimits := mkLimits { maximum_supersteps : Superstep; maximum_parallelism : Z }.

Inductive GraphExecutionLimitsError :=
| ZeroSupersteps
| ZeroParallelism
| ParallelismAboveFrameworkMaximum (maximum actual : Z).

Definition limits_new (supersteps : Superstep) (parallelism : Z) : result GraphExecutionLimitsError GraphExecutionLimits :=
  if supersteps =? 0 then Err ZeroSupersteps else
  if parallelism =? 0 then Err ZeroParallelism else
  if READY_MAX_LEN <? parallelism then Err (ParallelismAboveFrameworkMaximum READY_MAX_LEN parallelism) else
  Ok (mkLimits supersteps parallelism).

(** * Routes and nodes *)

Record GraphRoute := mkRoute { route_id : RouteId; successors : ReadyNodes }.

Inductive GraphRouteError := EmptySuccessors.

Definition route_new (id : RouteId) (succ : ReadyNodes) : result GraphRouteError GraphRoute :=
  if (length succ =? 0)%nat then Err EmptySuccessors else Ok (mkRoute id succ).

(** [GraphRoutes(Box<[GraphRoute]>)]. *)
Definition GraphRoutes := list GraphRoute.
Definition ROUTES_MAX_LEN : Z := 256.

Inductive GraphRoutesError := RoutesTooMany (maximum actual : Z) | RoutesDuplicate (id : RouteId).

Definition routes_step (st : list GraphRoute * list RouteId) (route : GraphRoute)
  : result GraphRoutesError (list GraphRoute * list RouteId) :=
  let '(values, identities) := st in
  if Z.of_nat (length values) =? ROUTES_MAX_LEN then Err (RoutesTooMany ROUTES_MAX_LEN (ROUTES_MAX_LEN + 1)) else
  if bs_contains (route_id route) identities then Err (RoutesDuplicate (route_id route)) else
  Ok (values ++ [route], bs_insert (route_id route) identities).

Definition routes_try_new (routes : list GraphRoute) : result GraphRoutesError GraphRoutes :=
  '(values, _) ← try_fold routes_step ([], []) routes;
  Ok (sort_by_key route_id values).

Definition routes_get (id : RouteId) (routes : GraphRoutes) : option GraphRoute :=
  binary_search route_id id routes ≫= fun index => routes !! index.

Record GraphNode := mkNode {
  node_id : NodeId;
  continue_to : option ReadyNodes;
  routes : GraphRoutes;
  wait_to : option ReadyNodes;
  terminal : bool
}.

Inductive GraphNodeError := NoControlOutcome | EmptyContinueSuccessors | EmptyWaitSuccessors.

Definition is_some_empty (o : option ReadyNodes) : bool :=
  match o with Some r => (length r =? 0)%nat | None => false end.

Definition node_new (id : NodeId) (cont : option ReadyNodes) (rs : GraphRoutes) (wait : option ReadyNodes) (term : bool)
  : result GraphNodeError GraphNode :=
  if is_some_empty cont then Err EmptyContinueSuccessors else
  if is_some_empty wait then Err EmptyWaitSuccessors else
  if is_none cont && (length rs =? 0)%nat && is_none wait && negb term then Err NoControlOutcome else
  Ok (mkNode id cont rs wait term).

Definition successor_sets (self : GraphNode) : list ReadyNodes :=
  option_list (continue_to self) ++ (successors <$> routes self) ++ option_list (wait_to self).

Definition is_boundary (self : GraphNode) : bool := terminal self || negb (is_none (wait_to self)).

(** * Compilation *)

Definition MAX_NODES : Z := READY_MAX_LEN.
Definition MAX_ROUTES : Z := MAX_NODES * ROUTES_MAX_LEN.
Definition MAX_DEFINITION_BYTES : Z := 2 * 1024 * 1024.

Inductive ChildRunPolicyError :=
| AgentEncoding
| InvalidLimits
| EmptyDeclarations
| TooManyDeclarations
| TooManyNodeSlots
| DuplicateSlot
| UnsupportedVersion
| UndeclaredParentNode
| ParentGraphMismatch
| DelegationNotDeclared
| TargetGraphMismatch
| TargetSchemaMismatch
| TargetAgentMismatch
| DepthNotNarrowed.

Inductive GraphCompileError :=
| EmptyNodes
| TooManyNodes (maximum actual : Z)
| DuplicateNode (id : NodeId)
| EmptyEntryNodes
| MissingEntryNode (id : NodeId)
| MissingSuccessorNode (from_node target : NodeId)
| DuplicateRoute (id : RouteId) (first_node second_node : NodeId)
| TooManyRoutes (maximum actual : Z)
| ParallelismExceeded (id : option NodeId) (maximum actual : Z)
| UnreachableNode (id : NodeId)
| NoBoundaryPath (id : NodeId)
| DefinitionTooLarge (maximum actual : Z)
| DefinitionSerialization
| DefinitionDigestMismatch
| ChildPolicy (source : ChildRunPolicyError).

Definition NodeMap := list (NodeId * GraphNode).

(** [route_owners.insert(..)] for every route of one node. *)
Definition own_route (node : NodeId) (owners : list (RouteId * NodeId)) (route : GraphRoute)
  : result GraphCompileError (list (RouteId * NodeId)) :=
  match bt_get (route_id route) owners with
  | Some first_node => Err (DuplicateRoute (route_id route) first_node node)
  | None => Ok (bt_insert (route_id route) node owners)
  end.

Definition collect_step (st : NodeMap * Z * list (RouteId * NodeId)) (node : GraphNode)
  : result GraphCompileError (NodeMap * Z * list (RouteId * NodeId)) :=
  let '(by_id, route_count, route_owners) := st in
  if Z.of_nat (length by_id) =? MAX_NODES then Err (TooManyNodes MAX_NODES (MAX_NODES + 1)) else
  route_count ← ok_or (checked_add u64_max route_count (Z.of_nat (length (routes node)))) (TooManyRoutes MAX_ROUTES u64_max);
  if MAX_ROUTES <? route_count then Err (TooManyRoutes MAX_ROUTES route_count) else
  route_owners ← try_fold (own_route (node_id node)) route_owners (routes node);
  match bt_get (node_id node) by_id with
  | Some _ => Err (DuplicateNode (node_id node))
  | None => Ok (bt_insert (node_id node) node by_id, route_count, route_owners)
  end.

Definition collect_graph_nodes (nodes : list GraphNode) : result GraphCompileError NodeMap :=
  '(by_id, _, _) ← try_fold collect_step ([], 0, []) nodes;
  if (length by_id =? 0)%nat then Err EmptyNodes else Ok by_id.

Definition contains_key (nodes : NodeMap) (id : NodeId) : bool := negb (is_none (bt_get id nodes)).

Definition check_entry (nodes : NodeMap) (_ : unit) (entry : NodeId) : result GraphCompileError unit :=
  if contains_key nodes entry then Ok tt else Err (MissingEntryNode entry).

Definition check_successor (nodes : NodeMap) (from : NodeId) (_ : unit) (target : NodeId) : result GraphCompileError unit :=
  if contains_key nodes target then Ok tt else Err (MissingSuccessorNode from target).

Definition check_successors (nodes : NodeMap) (from : NodeId) (limits : GraphExecutionLimits) (_ : unit) (succ : ReadyNodes)
  : result GraphCompileError unit :=
  if maximum_parallelism limits <? Z.of_nat (length succ)
  then Err (ParallelismExceeded (Some from) (maximum_parallelism limits) (Z.of_nat (length succ))) else
  try_fold (check_successor nodes from) tt succ.

Definition validate_node_successors (nodes : NodeMap) (limits : GraphExecutionLimits) (_ : unit) (node : GraphNode)
  : result GraphCompileError unit :=
  try_fold (check_successors nodes (node_id node) limits) tt (successor_sets node).

(** The queue of [validate_reachability]. *)
Fixpoint reach_loop (fuel : nat) (nodes : NodeMap) (reachable queue : list NodeId) : option (list NodeId) :=
  match fuel, queue with
  | _, [] => Some reachable
  | O, _ :: _ => None
  | S fuel', id :: queue' =>
      if bs_contains id reachable then reach_loop fuel' nodes reachable queue' else
      node ← bt_get id nodes;
      reach_loop fuel' nodes (bs_insert id reachable) (queue' ++ concat (successor_sets node))
  end.

Definition out_degree (node : GraphNode) : nat := length (concat (successor_sets node)).
Definition reach_fuel (nodes : NodeMap) (entries : ReadyNodes) : nat :=
  length entries + sum_list (out_degree <$> into_values nodes).

Definition first_missing (nodes : NodeMap) (s : list NodeId) : option NodeId :=
  List.find (fun id => negb (bs_contains id s)) (fst <$> nodes).

Definition validate_reachability (nodes : NodeMap) (entries : ReadyNodes) : option (result GraphCompileError unit) :=
  reachable ← reach_loop (reach_fuel nodes entries) nodes [] entries;
  Some (match first_missing nodes reachable with Some id => Err (UnreachableNode id) | None => Ok tt end).

(** One pass of the loop of [validate_boundary_paths]. *)
Definition boundary_pass (can_reach : list NodeId) (node : GraphNode) : list NodeId :=
  if bs_contains (node_id node) can_reach then can_reach else
  if existsb (existsb (fun s => bs_contains s can_reach)) (successor_sets node)
  then bs_insert (node_id node) can_reach else can_reach.

Fixpoint boundary_loop (fuel : nat) (nodes : list GraphNode) (can_reach : list NodeId) : option (list NodeId) :=
  match fuel with
  | O => None
  | S fuel' =>
      let after := fold_left boundary_pass nodes can_reach in
      if (length after =? length can_reach)%nat then Some after else boundary_loop fuel' nodes after
  end.

Definition boundary_start (nodes : list GraphNode) : list NodeId :=
  bs_extend [] (node_id <$> List.filter is_boundary nodes).

Definition validate_boundary_paths (nodes : NodeMap) : option (result GraphCompileError unit) :=
  can_reach ← boundary_loop (S (length nodes)) (into_values nodes) (boundary_start (into_values nodes));
  Some (match first_missing nodes can_reach with Some id => Err (NoBoundaryPath id) | None => Ok tt end).

Definition validate_compiled_shape (nodes : NodeMap) (entries : ReadyNodes) (limits : GraphExecutionLimits)
  : option (result GraphCompileError unit) :=
  let checks :=
    if (length entries =? 0)%nat then Err EmptyEntryNodes else
    if maximum_parallelism limits <? Z.of_nat (length entries)
    then Err (ParallelismExceeded None (maximum_parallelism limits) (Z.of_nat (length entries))) else
    _ ← try_fold (check_entry nodes) tt entries;
    try_fold (validate_node_successors nodes limits) tt (into_values nodes) in
  match checks with
  | Err e => Some (Err e)
  | Ok _ =>
      reached ← validate_reachability nodes entries;
      match reached with
      | Err e => Some (Err e)
      | Ok _ => validate_boundary_paths nodes
      end
  end.

(** * Child run policies *)

Record ChildRunTopologyLimits := mkTopology {
  maximum_descendant_depth : Z;
  maximum_children_per_run : Z;
  maximum_active_descendants : Z
}.

Definition MAX_DEPTH : Z := 32.
Definition MAX_CHILDREN : Z := 256.
Definition MAX_DECLARATIONS : Z := 256.
Definition MAX_SLOTS_PER_NODE : Z := 64.

Definition topology_new (depth children active : Z) : result ChildRunPolicyError ChildRunTopologyLimits :=
  if negb (between 1 MAX_DEPTH depth) || negb (between 1 MAX_CHILDREN children) || negb (between 1 MAX_CHILDREN active)
  then Err InvalidLimits else Ok (mkTopology depth children active).

Section Compiled.
Context {Capability Schema : Type} `{EqDecision Capability, EqDecision Schema}.

Record ChildAgentReference := mkAgentReference { agent_identity : Capability; agent_definition_digest : Digest }.

#[global] Instance ChildAgentReference_eq_dec : EqDecision ChildAgentReference.
Proof. solve_decision. Defined.

Record ChildRunDeclaration := mkDeclaration {
  decl_node_id : NodeId;
  decl_slot : ChildRunSlot;
  decl_agent : ChildAgentReference;
  decl_graph : GraphReference Capability Schema;
  decl_input_schema : Schema;
  decl_output_schema : Schema
}.

Record GraphChildRunPolicy := mkChildPolicy {
  version : Z;
  child_limits : ChildRunTopologyLimits;
  declarations : list ChildRunDeclaration
}.

Definition declaration_key (d : ChildRunDeclaration) : NodeId * ChildRunSlot := (decl_node_id d, decl_slot d).

Definition declare_step (st : list ((NodeId * ChildRunSlot) * ChildRunDeclaration) * list (NodeId * Z)) (d : ChildRunDeclaration)
  : result ChildRunPolicyError (list ((NodeId * ChildRunSlot) * ChildRunDeclaration) * list (NodeId * Z)) :=
  let '(ordered, per_node) := st in
  if Z.of_nat (length ordered) =? MAX_DECLARATIONS then Err TooManyDeclarations else
  let count := default 0 (bt_get (decl_node_id d) per_node) + 1 in
  if MAX_SLOTS_PER_NODE <? count then Err TooManyNodeSlots else
  match bt_get (declaration_key d) ordered with
  | Some _ => Err DuplicateSlot
  | None => Ok (bt_insert (declaration_key d) d ordered, bt_insert (decl_node_id d) count per_node)
  end.

Definition child_policy_new (limits : ChildRunTopologyLimits) (ds : list ChildRunDeclaration)
  : result ChildRunPolicyError GraphChildRunPolicy :=
  '(ordered, _) ← try_fold declare_step ([], []) ds;
  if (length ordered =? 0)%nat then Err EmptyDeclarations else
  Ok (mkChildPolicy 1 limits (into_values ordered)).

(** Decoding of a stored policy: [bounded_declarations] caps the list while it
    is read, then the version is checked. *)
Definition child_policy_restore (v : Z) (limits : ChildRunTopologyLimits) (ds : list ChildRunDeclaration)
  : result ChildRunPolicyError GraphChildRunPolicy :=
  if MAX_DECLARATIONS <? Z.of_nat (length ds) then Err TooManyDeclarations else
  if negb (v =? 1) then Err UnsupportedVersion else
  child_policy_new limits ds.

Definition declaration (self : GraphChildRunPolicy) (node : NodeId) (slot : ChildRunSlot) : option ChildRunDeclaration :=
  binary_search declaration_key (node, slot) (declarations self) ≫= fun index => declarations self !! index.

(** * Compiled graphs *)

Record GraphReducerReference := mkReducerReference { reducer_identity : Capability; reducer_definition_digest : Digest }.

#[global] Instance GraphReducerReference_eq_dec : EqDecision GraphReducerReference.
Proof. solve_decision. Defined.

Record CompiledGraph := mkGraph {
  identity : Capability;
  input_schema : Schema;
  graph_state_schema : Schema;
  update_schema : Schema;
  output_schema : Schema;
  reducer : GraphReducerReference;
  entry_nodes : ReadyNodes;
  nodes : list GraphNode;
  limits : GraphExecutionLimits;
  child_runs : option GraphChildRunPolicy;
  definition_digest : Digest
}.

(** Every field of the graph but its digest. *)
Record GraphDefinitionDigestWire := mkDefinitionWire {
  wire_identity : Capability;
  wire_input_schema : Schema;
  wire_state_schema : Schema;
  wire_update_schema : Schema;
  wire_output_schema : Schema;
  wire_reducer : GraphReducerReference;
  wire_entry_nodes : ReadyNodes;
  wire_nodes : list GraphNode;
  wire_limits : GraphExecutionLimits;
  wire_child_runs : option GraphChildRunPolicy
}.

Definition reference (self : CompiledGraph) : GraphReference Capability Schema :=
  mkGraphReference (identity self) (definition_digest self) (graph_state_schema self).

Definition graph_node (self : CompiledGraph) (id : NodeId) : option GraphNode :=
  binary_search node_id id (nodes self) ≫= fun index => nodes self !! index.

Definition validate_nodes (policy : GraphChildRunPolicy) (self : CompiledGraph) : result ChildRunPolicyError unit :=
  if existsb (fun d => is_none (graph_node self (decl_node_id d))) (declarations policy)
  then Err UndeclaredParentNode else Ok tt.

Definition validate_target (self : ChildRunDeclaration) (target : CompiledGraph) (limits : ChildRunTopologyLimits)
  : result ChildRunPolicyError unit :=
  if negb (bool_decide (reference target = decl_graph self)) then Err TargetGraphMismatch else
  if negb (bool_decide (input_schema target = decl_input_schema self))
     || negb (bool_decide (output_schema target = decl_output_schema self)) then Err TargetSchemaMismatch else
  let child_depth := match child_runs target with
                     | Some policy => maximum_descendant_depth (child_limits policy)
                     | None => 0
                     end in
  if maximum_descendant_depth limits <=? child_depth then Err DepthNotNarrowed else Ok tt.

Context `{Canonical GraphDefinitionDigestWire}.
Variable sha256 : bytes -> bytes.

Definition definition_wire (self : CompiledGraph) : GraphDefinitionDigestWire :=
  mkDefinitionWire (identity self) (input_schema self) (graph_state_schema self) (update_schema self) (output_schema self)
    (reducer self) (entry_nodes self) (nodes self) (limits self) (child_runs self).

Definition canonical_definition_bytes (self : CompiledGraph) : result GraphCompileError bytes :=
  ok_or (to_vec (definition_wire self)) DefinitionSerialization.

Definition with_digest (self : CompiledGraph) (d : Digest) : CompiledGraph :=
  mkGraph (identity self) (input_schema self) (graph_state_schema self) (update_schema self) (output_schema self)
    (reducer self) (entry_nodes self) (nodes self) (limits self) (child_runs self) d.

(** The end of [build], once the shape is valid. *)
Definition seal (g : CompiledGraph) (supplied : option Digest) : result GraphCompileError CompiledGraph :=
  _ ← match child_runs g with Some policy => map_err ChildPolicy (validate_nodes policy g) | None => Ok tt end;
  canonical ← canonical_definition_bytes g;
  if MAX_DEFINITION_BYTES <? Z.of_nat (length canonical)
  then Err (DefinitionTooLarge MAX_DEFINITION_BYTES (Z.of_nat (length canonical))) else
  if supplied_differs supplied (sha256 canonical) then Err DefinitionDigestMismatch else
  Ok (with_digest g (sha256 canonical)).

Definition graph_build (id : Capability) (input state update output : Schema) (red : GraphReducerReference)
  (entries : ReadyNodes) (ns : list GraphNode) (lim : GraphExecutionLimits) (children : option GraphChildRunPolicy)
  (supplied : option Digest) : option (result GraphCompileError CompiledGraph) :=
  match collect_graph_nodes ns with
  | Err e => Some (Err e)
  | Ok by_id =>
      shape ← validate_compiled_shape by_id entries lim;
      Some (_ ← shape;
            seal (mkGraph id input state update output red entries (into_values by_id) lim children (sha256 [])) supplied)
  end.

Definition graph_compile (id : Capability) (input state update output : Schema) (red : GraphReducerReference)
  (entries : ReadyNodes) (ns : list GraphNode) (lim : GraphExecutionLimits)
  : option (result GraphCompileError CompiledGraph) :=
  graph_build id input state update output red entries ns lim None None.

Definition with_child_runs (self : CompiledGraph) (policy : GraphChildRunPolicy)
  : option (result GraphCompileError CompiledGraph) :=
  graph_build (identity self) (input_schema self) (graph_state_schema self) (update_schema self) (output_schema self)
    (reducer self) (entry_nodes self) (nodes self) (limits self) (Some policy) None.
End Compiled.
Arguments ChildAgentReference : clear implicits.
Arguments ChildRunDeclaration : clear implicits.
Arguments GraphChildRunPolicy : clear implicits.
Arguments GraphReducerReference : clear implicits.
Arguments CompiledGraph : clear implicits.
Arguments GraphDefinitionDigestWire : clear implicits.
