(* ===== verification/GraphLaws.v ===== *)
(** Theorems on compiled graphs: compilation is total, accepts exactly the
    graphs in which every reference resolves, every node is reachable and
    every node can reach a boundary, and does not depend on the order of the
    nodes. *)

From Stdlib Require Import ZArith Lia List.
From stdpp Require Import prelude.
From S2P Require Import Prelude Ordered Json Checkpoint Graph.

Open Scope Z_scope.

(** Inserting a fresh key adds exactly that entry. *)
Lemma bt_insert_fresh_perm `{RustOrd K} {V} (k : K) (v : V) m :
  ksorted fst m -> k ∉ m.*1 -> bt_insert k v m ≡ₚ (k, v) :: m.
Proof.
  induction 1 as [|[k' v'] m HF Hs IH]; simpl; intros Hk; [done |]. apply not_elem_of_cons in Hk as [Hne Hk].
  destruct (cmp k k') eqn:E; [by apply cmp_eq_iff in E | done |]. rewrite IH by done. apply Permutation_swap.
Qed.

Lemma bt_get_None `{RustOrd K} {V} (k : K) (m : list (K * V)) : bt_get k m = None <-> k ∉ m.*1.
Proof.
  unfold bt_get. rewrite fmap_None, find_key_None. setoid_rewrite list_elem_of_fmap. split.
  - intros H' ([k' v] & E & Hin). by apply (H' (k', v)).
  - intros H' [k' v] Hin E. simpl in E. subst k'. apply H'. by exists (k, v).
Qed.

Lemma elem_of_concat {A} (x : A) (ls : list (list A)) : x ∈ concat ls <-> exists l, l ∈ ls /\ x ∈ l.
Proof. rewrite list_elem_of_In, in_concat. by setoid_rewrite list_elem_of_In. Qed.

Module Compile.

(** ** Collecting nodes *)

Definition route_ids (n : GraphNode) : list RouteId := route_id <$> routes n.
Definition entry_of (n : GraphNode) : NodeId * GraphNode := (node_id n, n).

Lemma own_route_Ok node owners r o1 :
  own_route node owners r = Ok o1 <-> route_id r ∉ owners.*1 /\ o1 = bt_insert (route_id r) node owners.
Proof.
  unfold own_route. destruct (bt_get (route_id r) owners) eqn:E.
  - split; [done |]. intros [Hn%bt_get_None _]. congruence.
  - apply bt_get_None in E. naive_solver.
Qed.

Lemma own_routes_Ok node rs owners o' :
  ksorted fst owners ->
  try_fold (own_route node) owners rs = Ok o' <->
  NoDup ((route_id <$> rs) ++ owners.*1) /\ ksorted fst o' /\ o' ≡ₚ ((fun r => (route_id r, node)) <$> rs) ++ owners.
Proof.
  revert owners. induction rs as [|r rs IH]; intros owners Hs; cbn [try_fold].
  - split; [intros [= <-]; split_and!; try done; by apply (ksorted_keys_NoDup fst) |].
    intros (_ & Hs' & Hp). f_equal. apply (ksorted_ext fst); [done | done |]. intros x. by rewrite Hp.
  - rewrite bind_Ok. setoid_rewrite own_route_Ok. split.
    + intros (o1 & [Hf ->] & H'). apply IH in H' as (Hn & Hs' & Hp); [| by apply bt_insert_sorted].
      rewrite (bt_insert_fresh_perm (route_id r) node owners Hs Hf) in Hn, Hp. simpl in *.
      rewrite <- Permutation_middle in Hn, Hp. done.
    + intros (Hn & Hs' & Hp). simpl in Hn, Hp. pose proof Hn as Hn0. apply NoDup_cons in Hn0 as [Hf _].
      rewrite elem_of_app in Hf. exists (bt_insert (route_id r) node owners). split; [split; [naive_solver | done] |].
      apply IH; [by apply bt_insert_sorted |]. rewrite (bt_insert_fresh_perm (route_id r) node owners Hs) by naive_solver.
      simpl. rewrite <- !Permutation_middle. done.
Qed.

Definition owner_entries (n : GraphNode) : list (RouteId * NodeId) := (fun r => (route_id r, node_id n)) <$> routes n.

Lemma owner_entries_length n owners o' :
  o' ≡ₚ owner_entries n ++ owners -> length o' = (length (routes n) + length owners)%nat.
Proof. intros ->. rewrite length_app. unfold owner_entries. by rewrite length_fmap. Qed.

Lemma collect_step_Ok by_id owners n st :
  ksorted fst by_id -> ksorted fst owners ->
  Z.of_nat (length by_id) <= MAX_NODES -> Z.of_nat (length owners) <= MAX_ROUTES ->
  collect_step (by_id, Z.of_nat (length owners), owners) n = Ok st <->
  exists by_id' owners', st = (by_id', Z.of_nat (length owners'), owners') /\
    node_id n ∉ by_id.*1 /\ NoDup (route_ids n ++ owners.*1) /\
    Z.of_nat (S (length by_id)) <= MAX_NODES /\ Z.of_nat (length (routes n) + length owners) <= MAX_ROUTES /\
    ksorted fst by_id' /\ by_id' ≡ₚ entry_of n :: by_id /\ ksorted fst owners' /\ owners' ≡ₚ owner_entries n ++ owners.
Proof.
  intros Hb Ho Lb Lo. unfold collect_step.
  destruct (Z.eqb_spec (Z.of_nat (length by_id)) MAX_NODES) as [En|En]; [split; [done | intros (? & ? & _ & _ & _ & ? & _); lia] |].
  assert (Hca : checked_add u64_max (Z.of_nat (length owners)) (Z.of_nat (length (routes n))) <> None ->
    checked_add u64_max (Z.of_nat (length owners)) (Z.of_nat (length (routes n))) = Some (Z.of_nat (length (routes n) + length owners))).
  { intros Hne. destruct (checked_add _ _ _) as [z|] eqn:E; [| done]. apply checked_add_Some in E as [-> _]. f_equal. lia. }
  destruct (checked_add u64_max (Z.of_nat (length owners)) (Z.of_nat (length (routes n)))) as [z|] eqn:E; simpl.
  2: { apply checked_add_None in E. split; [done |]. intros (? & ? & _ & _ & _ & _ & ? & _). unfold MAX_ROUTES, MAX_NODES, READY_MAX_LEN, ROUTES_MAX_LEN, u64_max in *. lia. }
  injection (Hca ltac:(done)) as ->. destruct (Z.ltb_spec MAX_ROUTES (Z.of_nat (length (routes n) + length owners))) as [Hl|Hl].
  { split; [done |]. intros (? & ? & _ & _ & _ & _ & ? & _). lia. }
  rewrite bind_Ok. setoid_rewrite own_routes_Ok; [| done]. fold (route_ids n). fold (owner_entries n). split.
  - intros (o' & (Hr & Ho' & Hp) & Hm). destruct (bt_get (node_id n) by_id) eqn:Eg; [done |]. apply bt_get_None in Eg.
    injection Hm as <-. exists (bt_insert (node_id n) n by_id), o'. split_and!; try done; [| lia | by apply bt_insert_sorted | by apply bt_insert_fresh_perm].
    by rewrite (owner_entries_length _ _ _ Hp).
  - intros (b' & o' & -> & Hn & Hr & _ & _ & Hb' & Hpb & Ho' & Hpo). exists o'. split; [done |].
    pose proof Hn as Eg. apply bt_get_None in Eg. rewrite Eg.
    assert (b' = bt_insert (node_id n) n by_id) as ->.
    { apply (ksorted_ext fst); [done | by apply bt_insert_sorted |]. intros x. by rewrite Hpb, bt_insert_fresh_perm. }
    by rewrite (owner_entries_length _ _ _ Hpo).
Qed.

Lemma owner_entries_keys n : (owner_entries n).*1 = route_ids n.
Proof. unfold owner_entries, route_ids. by rewrite <- list_fmap_compose. Qed.

(** Entries with distinct keys have one sorted arrangement. *)
Lemma sorted_entries {V} (l : list (bytes * V)) :
  NoDup l.*1 -> exists m, ksorted fst m /\ m ≡ₚ l.
Proof. intros Hn. exists (sort_by_key fst l). split; [by apply sort_by_key_ksorted | apply sort_by_key_perm]. Qed.

Lemma collect_fold_Ok ns by_id owners st :
  ksorted fst by_id -> ksorted fst owners ->
  Z.of_nat (length by_id) <= MAX_NODES -> Z.of_nat (length owners) <= MAX_ROUTES ->
  try_fold collect_step (by_id, Z.of_nat (length owners), owners) ns = Ok st <->
  exists by_id' owners', st = (by_id', Z.of_nat (length owners'), owners') /\
    NoDup ((node_id <$> ns) ++ by_id.*1) /\ NoDup (concat (route_ids <$> ns) ++ owners.*1) /\
    Z.of_nat (length ns + length by_id) <= MAX_NODES /\
    Z.of_nat (length (concat (route_ids <$> ns)) + length owners) <= MAX_ROUTES /\
    ksorted fst by_id' /\ by_id' ≡ₚ (entry_of <$> ns) ++ by_id /\ ksorted fst owners' /\
    owners' ≡ₚ concat (owner_entries <$> ns) ++ owners.
Proof.
  revert by_id owners. induction ns as [|n ns IH]; intros by_id owners Hb Ho Lb Lo; cbn [try_fold].
  - split.
    + intros [= <-]. exists by_id, owners. simpl. split_and!; auto; by apply (ksorted_keys_NoDup fst).
    + intros (b' & o' & -> & _ & _ & _ & _ & Hb' & Hpb & Ho' & Hpo).
      assert (b' = by_id) as -> by (apply (ksorted_ext fst); [done | done | intros x; by rewrite Hpb]).
      assert (o' = owners) as -> by (apply (ksorted_ext fst); [done | done | intros x; by rewrite Hpo]). done.
  - rewrite bind_Ok. setoid_rewrite collect_step_Ok; [| done..]. cbn [fmap list_fmap concat].
    assert (Elen : forall l : list RouteId, length (route_ids n ++ l) = (length (routes n) + length l)%nat).
    { intros l. rewrite length_app. unfold route_ids. by rewrite length_fmap. }
    rewrite Elen. split.
    + intros (st1 & (b1 & o1 & -> & Hn & Hr & L1 & L2 & Hb1 & Hp1 & Ho1 & Hp2) & Hf).
      pose proof (Permutation_length Hp1) as E1. pose proof (owner_entries_length _ _ _ Hp2) as E2. simpl in E1.
      apply IH in Hf as (b' & o' & -> & Hn' & Hr' & L3 & L4 & Hb' & Hpb & Ho' & Hpo); [| done | done | lia | lia].
      exists b', o'. rewrite Hp1 in Hn', Hpb. rewrite Hp2 in Hr', Hpo. rewrite fmap_app, owner_entries_keys in Hr'.
      simpl in *. rewrite <- Permutation_middle in Hn', Hpb. rewrite Permutation_app_swap_app in Hr', Hpo.
      split_and!; try lia; try done; by rewrite <- app_assoc.
    + intros (b' & o' & -> & Hn & Hr & L3 & L4 & Hb' & Hpb & Ho' & Hpo). rewrite <- app_assoc in Hr, Hpo.
      simpl in Hn, Hpb. cbn [length] in L3. apply NoDup_cons in Hn as [Hnew Hn].
      pose proof (bt_insert_fresh_perm (node_id n) n by_id Hb) as Hp1. rewrite elem_of_app in Hnew.
      destruct (sorted_entries (owner_entries n ++ owners)) as (o1 & Ho1 & Hp2).
      { rewrite fmap_app, owner_entries_keys. rewrite Permutation_app_swap_app in Hr. by apply NoDup_app in Hr as (_ & _ & Hr). }
      pose proof (owner_entries_length _ _ _ Hp2) as E2.
      specialize (Hp1 ltac:(naive_solver)). pose proof (Permutation_length Hp1) as E1. simpl in E1.
      exists (bt_insert (node_id n) n by_id, Z.of_nat (length o1), o1). split.
      { exists (bt_insert (node_id n) n by_id), o1. split_and!; try done; try lia; [naive_solver | | by apply bt_insert_sorted].
        rewrite Permutation_app_swap_app in Hr. by apply NoDup_app in Hr as (_ & _ & Hr). }
      apply IH; [by apply bt_insert_sorted | done | lia | lia |]. exists b', o'.
      rewrite Hp1, Hp2, fmap_app, owner_entries_keys. simpl.
      rewrite <- Permutation_middle, (Permutation_app_swap_app (concat (route_ids <$> ns))), (Permutation_app_swap_app (concat (owner_entries <$> ns))).
      split_and!; try done; try lia.
      * constructor; [| done]. by rewrite elem_of_app.
      * rewrite length_app. unfold owner_entries. rewrite length_fmap. lia.
      * by rewrite <- Permutation_middle.
Qed.

Definition all_routes (ns : list GraphNode) : list RouteId := concat (route_ids <$> ns).

Lemma owner_keys ns : (concat (owner_entries <$> ns)).*1 = all_routes ns.
Proof.
  unfold all_routes. induction ns as [|n ns IH]; [done |]. cbn [fmap list_fmap concat].
  by rewrite fmap_app, owner_entries_keys, <- IH.
Qed.

Definition collectable (ns : list GraphNode) : Prop :=
  ns <> [] /\ Z.of_nat (length ns) <= MAX_NODES /\ NoDup (node_id <$> ns) /\
  NoDup (all_routes ns) /\ Z.of_nat (length (all_routes ns)) <= MAX_ROUTES.

Lemma collect_graph_nodes_Ok ns m :
  collect_graph_nodes ns = Ok m <-> collectable ns /\ ksorted fst m /\ m ≡ₚ entry_of <$> ns.
Proof.
  unfold collect_graph_nodes, collectable, all_routes. rewrite bind_Ok.
  pose proof (collect_fold_Ok ns [] []) as Hf. simpl in Hf.
  setoid_rewrite Hf; [| constructor | constructor | done | done]. rewrite !app_nil_r, !Nat.add_0_r. split.
  - intros (st & (b' & o' & -> & Hn & Hr & L1 & L2 & Hb & Hpb & _) & Hm).
    destruct (Nat.eqb_spec (length b') 0) as [|Hne]; [done |]. injection Hm as <-.
    split_and!; try done. intros ->. simpl in Hpb. by rewrite Hpb in Hne.
  - intros ((Hne & L1 & Hn & Hr & L2) & Hs & Hp).
    destruct (sorted_entries (concat (owner_entries <$> ns))) as (o' & Ho' & Hpo); [by rewrite owner_keys |].
    exists (m, Z.of_nat (length o'), o'). split.
    + exists m, o'. by split_and!.
    + pose proof (Permutation_length Hp) as El. rewrite length_fmap in El.
      destruct (Nat.eqb_spec (length m) 0) as [E|]; [| done]. rewrite E in El. by destruct ns.
Qed.
(** ** Reachability *)

Lemma sum_list_le {A} (f g : A -> nat) (l : list A) : (forall x, (f x <= g x)%nat) -> (sum_list (f <$> l) <= sum_list (g <$> l))%nat.
Proof. intros H. induction l as [|x l IH]; csimpl; [done |]. specialize (H x). lia. Qed.

Lemma sum_list_drop {A} (f g : A -> nat) (l : list A) x d :
  (forall y, (f y <= g y)%nat) -> x ∈ l -> (f x + d <= g x)%nat -> (sum_list (f <$> l) + d <= sum_list (g <$> l))%nat.
Proof.
  intros Hle Hx Hd. induction l as [|y l IH]; [by apply not_elem_of_nil in Hx |]. csimpl.
  apply elem_of_cons in Hx as [-> | Hx]; [pose proof (sum_list_le f g l Hle); lia |]. specialize (IH Hx). specialize (Hle y). lia.
Qed.

Definition edge (m : NodeMap) (a b : NodeId) : Prop := exists n, (a, n) ∈ m /\ b ∈ concat (successor_sets n).
Definition present (m : NodeMap) (id : NodeId) : Prop := id ∈ m.*1.

Lemma first_missing_None (m : NodeMap) r : first_missing m r = None <-> forall id, present m id -> id ∈ r.
Proof.
  unfold first_missing, present. induction m.*1 as [|k l IH]; simpl; [set_solver |].
  destruct (bs_contains k r) eqn:E; simpl.
  - apply bs_contains_iff in E. rewrite IH. set_solver.
  - apply bs_contains_false in E. split; [done |]. intros H. destruct E. apply H. by left.
Qed.

Section Map.
Variable m : NodeMap.
Hypothesis m_sorted : ksorted fst m.
Abbreviation edge := (edge m).
Abbreviation present := (present m).

Hypothesis closed : forall a b, edge a b -> present b.

Lemma present_get id : present id <-> exists n, bt_get id m = Some n.
Proof.
  unfold present. rewrite list_elem_of_fmap. setoid_rewrite bt_get_elem; [| done]. split.
  - intros ([k n] & -> & Hin). by exists n.
  - intros [n Hin]. by exists (id, n).
Qed.

(** Out-edges of the nodes not yet reached: what the queue may still grow by. *)
Definition pending_edges (reached : list NodeId) : nat :=
  sum_list ((fun kv : NodeId * GraphNode => if bs_contains kv.1 reached then 0%nat else out_degree kv.2) <$> m).

Lemma pending_edges_insert reached id n :
  (id, n) ∈ m -> id ∉ reached -> (pending_edges (bs_insert id reached) + out_degree n <= pending_edges reached)%nat.
Proof.
  intros Hin Hid. unfold pending_edges. eapply sum_list_drop; [| exact Hin |].
  - intros [k v]. simpl. destruct (bs_contains k reached) eqn:E; [| destruct (bs_contains k (bs_insert id reached)); simpl; lia].
    apply bs_contains_iff in E. rewrite (proj2 (bs_contains_iff k _)); [done |]. apply bs_insert_elem. by right.
  - simpl. apply bs_contains_false in Hid. rewrite Hid, (proj2 (bs_contains_iff id _)); [done |]. apply bs_insert_elem. by left.
Qed.

Lemma pending_edges_nil : pending_edges [] = sum_list (out_degree <$> into_values m).
Proof. unfold pending_edges, into_values. clear. induction m as [|kv l IH]; [done |]. cbn. f_equal. exact IH. Qed.

Variable entries : list NodeId.
Hypothesis entries_present : forall e, e ∈ entries -> present e.

Definition reached_from (id : NodeId) : Prop := exists e, e ∈ entries /\ rtc edge e id.

Lemma reach_loop_spec fuel reached queue :
  ksorted (fun k => k) reached ->
  (forall id, id ∈ reached ++ queue -> reached_from id) ->
  (forall e, e ∈ entries -> e ∈ reached ++ queue) ->
  (forall a b, a ∈ reached -> edge a b -> b ∈ reached ++ queue) ->
  (length queue + pending_edges reached <= fuel)%nat ->
  exists r, reach_loop fuel m reached queue = Some r /\ forall id, id ∈ r <-> reached_from id.
Proof.
  revert reached queue. induction fuel as [|fuel IH]; intros reached [|id queue] Hs Hin Hent Hcl Hf; simpl in Hf; try lia.
  1, 2: exists reached; split; [done |]; rewrite app_nil_r in *; intros x; split; [apply Hin |];
    intros (e & He & Hr); apply Hent in He; induction Hr as [|a b c Hab _ IHr]; [done |]; apply IHr, (Hcl a b); by rewrite ?app_nil_r.
  cbn [reach_loop]. destruct (bs_contains id reached) eqn:Ec.
  - apply bs_contains_iff in Ec. apply IH; [done | | | | lia].
    + intros x Hx. apply Hin. set_solver.
    + intros e He%Hent. set_solver.
    + intros a b Ha Hab. specialize (Hcl a b Ha Hab). set_solver.
  - apply bs_contains_false in Ec.
    assert (Hid : reached_from id) by (apply Hin; set_solver).
    assert (Hp : present id).
    { destruct Hid as (e & He & Hr). apply rtc_inv_r in Hr as [-> | (y & _ & Hy)]; [by apply entries_present | by eapply closed]. }
    apply present_get in Hp as [n Hn]. rewrite Hn. simpl. pose proof Hn as Hm. rewrite bt_get_elem in Hm by done.
    apply IH; [by apply bs_insert_sorted | | | |].
    + intros x. rewrite !elem_of_app, !bs_insert_elem. intros [[-> | Hx] | [Hx | Hx]]; [done | apply Hin; rewrite elem_of_app, elem_of_cons; tauto.. |].
      destruct Hid as (e & He & Hr). exists e. split; [done |]. eapply rtc_r; [exact Hr |]. by exists n.
    + intros e He%Hent. rewrite !elem_of_app, !bs_insert_elem. rewrite elem_of_app, elem_of_cons in He. tauto.
    + intros a b. rewrite !elem_of_app, !bs_insert_elem. intros [-> | Ha] Hab.
      * right. right. destruct Hab as (n' & Hn' & Hb). assert (n' = n) as ->; [| done].
        rewrite <- bt_get_elem in Hn' by done. congruence.
      * specialize (Hcl a b Ha Hab). rewrite elem_of_app, elem_of_cons in Hcl. tauto.
    + rewrite length_app. pose proof (pending_edges_insert reached id n Hm Ec). unfold out_degree in *. lia.
Qed.

Lemma validate_reachability_spec :
  exists r, validate_reachability m entries = Some r /\
    (is_ok r = true <-> forall id, present id -> reached_from id).
Proof.
  unfold validate_reachability.
  destruct (reach_loop_spec (reach_fuel m entries) [] entries) as (r & -> & Hr).
  - constructor.
  - intros id Hid. exists id. by split; [| constructor].
  - done.
  - set_solver.
  - unfold reach_fuel. by rewrite pending_edges_nil.
  - simpl. eexists. split; [done |]. setoid_rewrite <- Hr. rewrite <- first_missing_None. by destruct (first_missing m r).
Qed.
End Map.

(** ** Boundaries *)

Section Boundary.
Variable m : NodeMap.
Abbreviation edge := (edge m).
Abbreviation present := (present m).
Hypothesis keyed : forall k n, (k, n) ∈ m -> node_id n = k.

Definition can_reach (id : NodeId) : Prop := exists b n, rtc edge id b /\ (b, n) ∈ m /\ is_boundary n = true.

Lemma value_entry n : n ∈ into_values m <-> (node_id n, n) ∈ m.
Proof.
  unfold into_values. rewrite list_elem_of_In, in_map_iff. setoid_rewrite <- list_elem_of_In. split.
  - intros ([k n'] & <- & Hin). simpl. by rewrite (keyed k n' Hin).
  - intros Hin. by exists (node_id n, n).
Qed.

Definition boundary_inv (s : list NodeId) : Prop :=
  ksorted (fun k => k) s /\ (forall id, id ∈ s -> present id /\ can_reach id) /\
  (forall n, n ∈ into_values m -> is_boundary n = true -> node_id n ∈ s).

Lemma boundary_pass_cases s n :
  (boundary_pass s n = s /\ (forall b, b ∈ concat (successor_sets n) -> b ∈ s -> node_id n ∈ s)) \/
  (node_id n ∉ s /\ boundary_pass s n = bs_insert (node_id n) s /\ exists b, b ∈ concat (successor_sets n) /\ b ∈ s).
Proof.
  unfold boundary_pass. destruct (bs_contains (node_id n) s) eqn:Ec.
  { left. split; [done |]. intros. by apply bs_contains_iff. }
  apply bs_contains_false in Ec.
  assert (Hx : existsb (existsb (fun t => bs_contains t s)) (successor_sets n) = true <->
               exists b, b ∈ concat (successor_sets n) /\ b ∈ s).
  { rewrite existsb_exists. split.
    - intros (l & Hl & (b & Hb & Hs%bs_contains_iff)%existsb_exists). exists b. split; [| done].
      apply elem_of_concat. exists l. by rewrite !list_elem_of_In.
    - intros (b & (l & Hl & Hb)%elem_of_concat & Hs). exists l. split; [by apply list_elem_of_In |].
      apply existsb_exists. exists b. split; [by apply list_elem_of_In | by apply bs_contains_iff]. }
  destruct (existsb _ _).
  - right. split_and!; [done | done |]. by apply Hx.
  - left. split; [done |]. intros b Hb Hs. assert (false = true) by (apply Hx; by exists b). done.
Qed.

Lemma boundary_pass_inv s n : n ∈ into_values m -> boundary_inv s -> boundary_inv (boundary_pass s n).
Proof.
  intros Hn Hi. destruct (boundary_pass_cases s n) as [[-> _] | (Hnew & -> & b & Hb & Hbs)]; [done |].
  destruct Hi as (Hs & Hr & Hbd). apply value_entry in Hn. split_and!.
  - by apply bs_insert_sorted.
  - intros id [-> | Hid]%bs_insert_elem; [| by apply Hr]. split; [by apply (list_elem_of_fmap_2 fst) in Hn |].
    destruct (Hr b Hbs) as (_ & b' & n' & Hp & Hn' & Hb'). exists b', n'. split; [| done]. eapply rtc_l; [| exact Hp]. by exists n.
  - intros n' Hn' Hb'. apply bs_insert_elem. right. by apply Hbd.
Qed.

Lemma boundary_pass_length s n : (length s <= length (boundary_pass s n))%nat.
Proof. destruct (boundary_pass_cases s n) as [[-> _] | (Hnew & -> & _)]; [done |]. rewrite bs_insert_length_fresh by done. lia. Qed.

Lemma boundary_fold_length ns s : (length s <= length (fold_left boundary_pass ns s))%nat.
Proof.
  revert s. induction ns as [|n ns IH]; intros s; simpl; [done |]. etransitivity; [apply boundary_pass_length | apply IH].
Qed.

Lemma boundary_fold_inv ns s :
  (forall n, n ∈ ns -> n ∈ into_values m) -> boundary_inv s -> boundary_inv (fold_left boundary_pass ns s).
Proof.
  revert s. induction ns as [|n ns IH]; intros s Hns Hi; simpl; [done |].
  apply IH; [intros n' Hn'; apply Hns; by right |]. apply boundary_pass_inv; [apply Hns; by left | done].
Qed.

(** A pass that adds nothing leaves the set closed under predecessors. *)
Lemma boundary_fold_fixpoint ns s :
  length (fold_left boundary_pass ns s) = length s ->
  fold_left boundary_pass ns s = s /\ forall n b, n ∈ ns -> b ∈ concat (successor_sets n) -> b ∈ s -> node_id n ∈ s.
Proof.
  revert s. induction ns as [|n ns IH]; intros s Hl; simpl in *; [set_solver |].
  pose proof (boundary_fold_length ns (boundary_pass s n)) as Hg.
  destruct (boundary_pass_cases s n) as [[E Hc] | (Hnew & E & _)]; rewrite E in *.
  - destruct (IH s Hl) as [-> Hall]. split; [done |]. intros n' b [-> | Hn']%elem_of_cons; [apply Hc | by apply Hall].
  - rewrite bs_insert_length_fresh in Hg by done. lia.
Qed.

Lemma boundary_inv_length s : boundary_inv s -> (length s <= length m)%nat.
Proof.
  intros (Hs & Hr & _). rewrite <- (length_fmap fst m). apply submseteq_length, NoDup_submseteq; [by apply sorted_set_NoDup |].
  intros x Hx. by apply Hr.
Qed.

Lemma boundary_loop_spec fuel s :
  boundary_inv s -> (length m - length s < fuel)%nat ->
  exists r, boundary_loop fuel (into_values m) s = Some r /\ boundary_inv r /\
    forall a b, edge a b -> b ∈ r -> a ∈ r.
Proof.
  revert s. induction fuel as [|fuel IH]; intros s Hi Hf; [lia |]. cbn [boundary_loop].
  pose proof (boundary_fold_inv (into_values m) s (fun _ H => H) Hi) as Hi'.
  destruct (Nat.eqb_spec (length (fold_left boundary_pass (into_values m) s)) (length s)) as [E|E].
  - destruct (boundary_fold_fixpoint _ _ E) as [Es Hall]. exists s. rewrite Es. split_and!; [done | done |].
    intros a b (n & Hn & Hb) Hbs. rewrite <- (keyed a n Hn). apply (Hall n b); [| done | done].
    apply value_entry. by rewrite (keyed a n Hn).
  - apply IH; [done |]. pose proof (boundary_fold_length (into_values m) s). pose proof (boundary_inv_length _ Hi'). lia.
Qed.

Lemma boundary_start_inv : boundary_inv (boundary_start (into_values m)).
Proof.
  unfold boundary_start. split_and!.
  - apply bs_extend_sorted. constructor.
  - intros id. rewrite bs_extend_elem. intros [?%not_elem_of_nil | Hid]; [done |].
    apply list_elem_of_fmap in Hid as (n & -> & Hn). apply list_elem_of_In, filter_In in Hn as [Hn Hb].
    apply list_elem_of_In, value_entry in Hn. split; [by apply (list_elem_of_fmap_2 fst) in Hn |].
    exists (node_id n), n. by split; [constructor |].
  - intros n Hn Hb. apply bs_extend_elem. right. apply list_elem_of_fmap_2, list_elem_of_In, filter_In. by rewrite <- list_elem_of_In.
Qed.

Lemma validate_boundary_paths_spec :
  exists r, validate_boundary_paths m = Some r /\ (is_ok r = true <-> forall id, present id -> can_reach id).
Proof.
  unfold validate_boundary_paths.
  destruct (boundary_loop_spec (S (length m)) _ boundary_start_inv) as (r & -> & (_ & Hr & Hb) & Hcl); [lia |].
  simpl. eexists. split; [done |].
  assert (Hiff : (forall id, present id -> can_reach id) <-> first_missing m r = None).
  { rewrite first_missing_None. split; intros Hall id Hid; [| by apply Hr, Hall].
    destruct (Hall id Hid) as (b & n & Hp & Hn & Hbd).
    assert (Hbr : b ∈ r).
    { rewrite <- (keyed b n Hn). apply Hb; [| done]. apply value_entry. by rewrite (keyed b n Hn). }
    clear Hid. induction Hp as [|x y z Hxy _ IHp]; [done |]. eapply Hcl; [exact Hxy |]. by apply IHp. }
  rewrite Hiff. by destruct (first_missing m r).
Qed.
End Boundary.

(** ** The specification, on the list of nodes *)

Definition node_edge (ns : list GraphNode) (a b : NodeId) : Prop :=
  exists n, n ∈ ns /\ node_id n = a /\ b ∈ concat (successor_sets n).

Definition resolved (ns : list GraphNode) (entries : ReadyNodes) (parallelism : Z) : Prop :=
  entries <> [] /\ Z.of_nat (length entries) <= parallelism /\ (forall e, e ∈ entries -> e ∈ node_id <$> ns) /\
  (forall n s, n ∈ ns -> s ∈ successor_sets n ->
     Z.of_nat (length s) <= parallelism /\ forall t, t ∈ s -> t ∈ node_id <$> ns).

Definition connected (ns : list GraphNode) (entries : ReadyNodes) : Prop :=
  (forall n, n ∈ ns -> exists e, e ∈ entries /\ rtc (node_edge ns) e (node_id n)) /\
  (forall n, n ∈ ns -> exists b, b ∈ ns /\ is_boundary b = true /\ rtc (node_edge ns) (node_id n) (node_id b)).

Definition compilable (ns : list GraphNode) (entries : ReadyNodes) (limits : GraphExecutionLimits) : Prop :=
  collectable ns /\ resolved ns entries (maximum_parallelism limits) /\ connected ns entries.

Lemma rtc_iff {A} (R S : A -> A -> Prop) a b : (forall x y, R x y <-> S x y) -> rtc R a b <-> rtc S a b.
Proof. intros H. split; (induction 1; [constructor | eapply rtc_l; [by apply H | done]]). Qed.

Section Shape.
Context (ns : list GraphNode) (m : NodeMap).
Hypothesis m_sorted : ksorted fst m.
Hypothesis m_nodes : m ≡ₚ entry_of <$> ns.

Lemma entry_iff k n : (k, n) ∈ m <-> n ∈ ns /\ node_id n = k.
Proof.
  rewrite m_nodes, list_elem_of_fmap. unfold entry_of. split.
  - by intros (n' & [= -> ->] & Hn).
  - intros [Hn <-]. by exists n.
Qed.

Lemma present_iff id : present m id <-> id ∈ node_id <$> ns.
Proof. unfold present. rewrite m_nodes, <- list_fmap_compose. done. Qed.

Lemma edge_iff a b : edge m a b <-> node_edge ns a b.
Proof. unfold edge, node_edge. setoid_rewrite entry_iff. naive_solver. Qed.

Lemma values_iff n : n ∈ into_values m <-> n ∈ ns.
Proof.
  rewrite (value_entry m); [| by intros k n' [_ ?]%entry_iff]. rewrite entry_iff. naive_solver.
Qed.

Lemma contains_key_iff id : contains_key m id = true <-> id ∈ node_id <$> ns.
Proof.
  rewrite <- present_iff. unfold contains_key, present. destruct (bt_get id m) eqn:E; simpl.
  - split; [| done]. intros _. destruct (decide (id ∈ m.*1)) as [|Hn%bt_get_None]; [done | congruence].
  - apply bt_get_None in E. naive_solver.
Qed.

Lemma node_successors_Ok (lim : GraphExecutionLimits) n u :
  validate_node_successors m lim u n = Ok tt <->
  forall s, s ∈ successor_sets n -> Z.of_nat (length s) <= maximum_parallelism lim /\ forall t, t ∈ s -> t ∈ node_id <$> ns.
Proof.
  unfold validate_node_successors. destruct u. rewrite try_fold_checks, Forall_forall. apply forall_proper. intros s.
  unfold check_successors. destruct (Z.ltb_spec (maximum_parallelism lim) (Z.of_nat (length s))).
  - split; [naive_solver | intros Hs Hin]. destruct (Hs Hin). lia.
  - rewrite try_fold_checks, Forall_forall. unfold check_successor. setoid_rewrite <- contains_key_iff.
    split; intros Hs Hin; [split; [done |]; intros t Ht; specialize (Hs Hin t Ht); by destruct (contains_key m t) |].
    destruct (Hs Hin) as [_ Hs']. intros t Ht. by rewrite (Hs' t Ht).
Qed.

Lemma values_sorted : into_values m = sort_by_key node_id ns.
Proof.
  assert (Hv : ksorted node_id (into_values m)).
  { assert (Hk : forall k n, (k, n) ∈ m -> node_id n = k) by (by intros k n [_ ?]%entry_iff).
    revert Hk. clear m_nodes. unfold into_values. induction m_sorted as [|[k n] l HF Hs IH]; intros Hk; simpl; constructor.
    - apply Forall_forall. intros n' Hn'. rewrite Forall_forall in HF. apply list_elem_of_In, in_map_iff in Hn' as ([k' n2] & <- & Hin).
      apply list_elem_of_In in Hin. simpl. rewrite (Hk k n), (Hk k' n2); [exact (HF _ Hin) | by right | by left].
    - apply IH; [done |]. intros k' n' Hin. apply Hk. by right. }
  apply (ksorted_ext node_id); [done | |].
  - apply sort_by_key_ksorted.
    assert (Hn : NoDup (m.*1)) by (by apply (ksorted_keys_NoDup fst)). by rewrite m_nodes, <- list_fmap_compose in Hn.
  - intros n. by rewrite values_iff, sort_by_key_perm.
Qed.

Lemma validate_compiled_shape_spec (entries : ReadyNodes) (lim : GraphExecutionLimits) :
  exists r, validate_compiled_shape m entries lim = Some r /\
    (is_ok r = true <-> resolved ns entries (maximum_parallelism lim) /\ connected ns entries).
Proof.
  unfold validate_compiled_shape, resolved.
  destruct (Nat.eqb_spec (length entries) 0) as [E0|E0].
  { eexists. split; [done |]. destruct entries; [| done]. simpl. naive_solver. }
  assert (entries <> []) by (by intros ->).
  destruct (Z.ltb_spec (maximum_parallelism lim) (Z.of_nat (length entries))) as [El|El].
  { eexists. split; [done |]. simpl. split; [done | intros [(_ & ? & _) _]; lia]. }
  destruct (_ ≫= _) as [u|e] eqn:Ec.
  - apply bind_Ok in Ec as ([] & He & Hn). destruct u.
    rewrite try_fold_checks, Forall_forall in He. rewrite try_fold_checks, Forall_forall in Hn. unfold check_entry in He.
    assert (Hent : forall e, e ∈ entries -> e ∈ node_id <$> ns).
    { intros e Hin. specialize (He e Hin). destruct (contains_key m e) eqn:Ek; [| done]. by apply contains_key_iff. }
    assert (Hsucc : forall n s, n ∈ ns -> s ∈ successor_sets n ->
      Z.of_nat (length s) <= maximum_parallelism lim /\ forall t, t ∈ s -> t ∈ node_id <$> ns).
    { intros n s Hin. apply (node_successors_Ok lim n tt). by apply Hn, values_iff. }
    assert (Hclosed : forall a b, edge m a b -> present m b).
    { intros a b (n & Hn1 & _ & (s & Hs & Hb)%elem_of_concat)%edge_iff. apply present_iff. by apply (Hsucc n s). }
    destruct (validate_reachability_spec m m_sorted Hclosed entries) as (r1 & -> & Hr1).
    { intros e Hin. by apply present_iff, Hent. }
    destruct (validate_boundary_paths_spec m) as (r2 & Hr2 & Hb2).
    { by intros k n [_ ?]%entry_iff. }
    simpl.
    assert (HR : (forall id, present m id -> reached_from m entries id) <->
                 (forall n, n ∈ ns -> exists e, e ∈ entries /\ rtc (node_edge ns) e (node_id n))).
    { split.
      - intros Ha n Hin. destruct (Ha (node_id n)) as (e & He1 & Hp); [by apply present_iff, list_elem_of_fmap_2 |].
        exists e. split; [done |]. by apply (rtc_iff (edge m) (node_edge ns)); [apply edge_iff |].
      - intros Ha id (n & -> & Hin)%present_iff%list_elem_of_fmap. destruct (Ha n Hin) as (e & He1 & Hp). exists e.
        split; [done |]. by apply (rtc_iff (edge m) (node_edge ns)); [apply edge_iff |]. }
    assert (HB : (forall id, present m id -> can_reach m id) <->
                 (forall n, n ∈ ns -> exists b, b ∈ ns /\ is_boundary b = true /\ rtc (node_edge ns) (node_id n) (node_id b))).
    { split.
      - intros Ha n Hin. destruct (Ha (node_id n)) as (b & n' & Hp & [Hn' <-]%entry_iff & Hb); [by apply present_iff, list_elem_of_fmap_2 |].
        exists n'. split_and!; [done | done |]. by apply (rtc_iff (edge m) (node_edge ns)); [apply edge_iff |].
      - intros Ha id (n & -> & Hin)%present_iff%list_elem_of_fmap. destruct (Ha n Hin) as (b & Hb & Hbd & Hp).
        exists (node_id b), b. split_and!; [| by apply entry_iff | done]. by apply (rtc_iff (edge m) (node_edge ns)); [apply edge_iff |]. }
    assert (Hcon : connected ns entries <-> is_ok r1 = true /\ is_ok r2 = true) by (unfold connected; rewrite Hr1, Hb2; tauto).
    setoid_rewrite Hcon. clear HR HB Hr1 Hb2 Hcon. destruct r1 as [u|e]; simpl.
    + exists r2. split; [done |]. split; [intros Ho; split_and!; try done; apply Hsucc | by intros (_ & _ & ?)].
    + eexists. split; [done |]. simpl. naive_solver.
  - eexists. split; [done |]. simpl. split; [done |]. intros ((_ & _ & He & Hs) & _). exfalso.
    apply bind_Err in Ec as [Ec | ([] & _ & Ec)]; apply try_fold_first_failure in Ec as (l1 & x & l2 & El' & _ & Hx).
    + unfold check_entry in Hx. rewrite (proj2 (contains_key_iff x)) in Hx; [done |]. apply He. rewrite El'. set_solver.
    + assert (Hin : x ∈ into_values m) by (rewrite El'; set_solver). apply values_iff in Hin.
      rewrite (proj2 (node_successors_Ok lim x tt)) in Hx; [done |]. intros s Hs'. by apply (Hs x s).
Qed.
End Shape.

(** ** Building the graph *)

Lemma collectable_perm ns ns' : ns ≡ₚ ns' -> collectable ns -> collectable ns'.
Proof.
  intros Hp (Hne & Hl & Hn & Hr & Hrl).
  assert (Hroutes : all_routes ns ≡ₚ all_routes ns').
  { unfold all_routes. clear -Hp. induction Hp; csimpl; [done | by f_equiv | | by etransitivity].
    apply Permutation_app_swap_app. }
  split_and!.
  - intros ->. by apply Permutation_nil_r in Hp.
  - by rewrite <- Hp.
  - by rewrite <- Hp.
  - by rewrite <- Hroutes.
  - by rewrite <- Hroutes.
Qed.

Lemma node_edge_perm ns ns' a b : ns ≡ₚ ns' -> node_edge ns a b <-> node_edge ns' a b.
Proof. intros Hp. unfold node_edge. by setoid_rewrite Hp. Qed.

Lemma compilable_perm ns ns' entries lim : ns ≡ₚ ns' -> compilable ns entries lim -> compilable ns' entries lim.
Proof.
  intros Hp (Hc & (He & Hel & Hent & Hsucc) & Hreach & Hbound).
  assert (Hedge : forall a b, rtc (node_edge ns) a b -> rtc (node_edge ns') a b).
  { intros a b. apply rtc_iff. intros x y. by apply node_edge_perm. }
  split; [by eapply collectable_perm | split; [split_and!; try done |]].
  - intros e Hin. rewrite <- Hp. by apply Hent.
  - intros n s Hn Hs. setoid_rewrite <- Hp. apply (Hsucc n s); [by rewrite Hp | done].
  - split; intros n; rewrite <- Hp; intros Hn.
    + destruct (Hreach n Hn) as (e & Hin & Hr). exists e. auto.
    + destruct (Hbound n Hn) as (b & Hin & Hb & Hr). exists b. split_and!; auto. by rewrite <- Hp.
Qed.

Section Build.
Context {Capability Schema : Type} `{EqDecision Capability, EqDecision Schema}.
Context `{Canonical (GraphDefinitionDigestWire Capability Schema)}.
Variable sha256 : bytes -> bytes.
Abbreviation GraphT := (CompiledGraph Capability Schema).

Lemma graph_node_find (g : GraphT) i : ksorted node_id (nodes g) -> graph_node g i = find_key node_id i (nodes g).
Proof. intros Hs. unfold graph_node. by apply binary_search_correct. Qed.

Lemma seal_Ok (g g' : GraphT) supplied :
  seal sha256 g supplied = Ok g' <->
  (forall policy, child_runs g = Some policy -> validate_nodes policy g = Ok tt) /\
  exists canonical, to_vec (definition_wire g) = Some canonical /\ Z.of_nat (length canonical) <= MAX_DEFINITION_BYTES /\
    supplied_differs supplied (sha256 canonical) = false /\ g' = with_digest g (sha256 canonical).
Proof.
  unfold seal, canonical_definition_bytes. rewrite bind_Ok. split.
  - intros ([] & Hp & Hc). apply bind_Ok in Hc as (canonical & Hcan%ok_or_Ok & Hc). split.
    + intros policy Hpol. rewrite Hpol in Hp. by apply map_err_Ok in Hp.
    + exists canonical. destruct (Z.ltb_spec MAX_DEFINITION_BYTES (Z.of_nat (length canonical))); [done |].
      destruct (supplied_differs _ _) eqn:Es; [done |]. injection Hc as <-. by split_and!.
  - intros (Hp & canonical & Hcan & Hl & Hs & ->). exists tt. split.
    + destruct (child_runs g) as [policy|]; [| done]. rewrite (Hp policy eq_refl). done.
    + rewrite Hcan. simpl. destruct (Z.ltb_spec MAX_DEFINITION_BYTES (Z.of_nat (length canonical))); [lia |]. by rewrite Hs.
Qed.

(** The graph of the given parts before it is sealed, its nodes in order. *)
Definition unsealed (id : Capability) (input state update output : Schema) (red : GraphReducerReference Capability)
    (entries : ReadyNodes) (ns : list GraphNode) (lim : GraphExecutionLimits)
    (children : option (GraphChildRunPolicy Capability Schema)) : GraphT :=
  mkGraph id input state update output red entries (sort_by_key node_id ns) lim children (sha256 []).

Lemma graph_build_outcome id input state update output red entries ns lim children supplied :
  exists r, graph_build sha256 id input state update output red entries ns lim children supplied = Some r /\
    forall g, r = Ok g <-> compilable ns entries lim /\
      seal sha256 (unsealed id input state update output red entries ns lim children) supplied = Ok g.
Proof.
  unfold graph_build, unsealed. destruct (collect_graph_nodes ns) as [m|e] eqn:Ec.
  - apply collect_graph_nodes_Ok in Ec as (Hc & Hs & Hp).
    destruct (validate_compiled_shape_spec ns m Hs Hp entries lim) as (r & -> & Hr). rewrite (values_sorted ns m Hs Hp). simpl.
    eexists. split; [done |]. intros g. unfold compilable. destruct r as [[]|e]; cbn [mbind result_bind is_ok] in *.
    + split; [| by intros [_ ?]]. intros Hseal. split; [| done]. split; [done |]. by apply Hr.
    + split; [done |]. intros [[_ Hrc] _]. apply Hr in Hrc. done.
  - eexists. split; [done |]. intros g. split; [done |]. intros [[Hc _] _]. exfalso.
    destruct (sorted_entries (entry_of <$> ns)) as (m & Hs & Hp).
    { rewrite <- list_fmap_compose. apply Hc. }
    assert (collect_graph_nodes ns = Ok m) by (by apply collect_graph_nodes_Ok). congruence.
Qed.

Lemma graph_build_iff id input state update output red entries ns lim children supplied g :
  graph_build sha256 id input state update output red entries ns lim children supplied = Some (Ok g) <->
  compilable ns entries lim /\ seal sha256 (unsealed id input state update output red entries ns lim children) supplied = Ok g.
Proof.
  destruct (graph_build_outcome id input state update output red entries ns lim children supplied) as (r & -> & Hr).
  rewrite <- Hr. split; congruence.
Qed.

Lemma unsealed_perm id input state update output red entries ns ns' lim children :
  NoDup (node_id <$> ns) -> ns ≡ₚ ns' ->
  unsealed id input state update output red entries ns' lim children = unsealed id input state update output red entries ns lim children.
Proof. intros Hn Hp. unfold unsealed. by rewrite (sort_by_key_unique node_id ns ns'). Qed.

(** A graph that is rebuilt from its own parts under its own digest. *)
Definition restores (g : GraphT) : Prop :=
  graph_build sha256 (identity g) (input_schema g) (graph_state_schema g) (update_schema g) (output_schema g) (reducer g)
    (entry_nodes g) (nodes g) (limits g) (child_runs g) (Some (definition_digest g)) = Some (Ok g).

Lemma restores_facts g : restores g -> compilable (nodes g) (entry_nodes g) (limits g) /\ ksorted node_id (nodes g).
Proof.
  intros [Hc Hs]%graph_build_iff. split; [done |]. apply seal_Ok in Hs as (_ & canonical & _ & _ & _ & E).
  rewrite E. simpl. apply sort_by_key_ksorted, Hc.
Qed.

(** What compilation produces: the given parts, the nodes in canonical order,
    under a digest with which the graph restores. *)
Lemma graph_build_facts id input state update output red entries ns lim children supplied g :
  graph_build sha256 id input state update output red entries ns lim children supplied = Some (Ok g) ->
  (exists canonical, to_vec (definition_wire g) = Some canonical /\ definition_digest g = sha256 canonical) /\
  g = with_digest (unsealed id input state update output red entries ns lim children) (definition_digest g) /\
  ksorted node_id (nodes g) /\ nodes g ≡ₚ ns /\ restores g.
Proof.
  intros [Hcomp Hseal]%graph_build_iff. apply seal_Ok in Hseal as (Hpol & canonical & Hcan & Hlen & _ & ->).
  assert (Hsort : ksorted node_id (sort_by_key node_id ns)) by apply sort_by_key_ksorted, Hcomp.
  split_and!; [by exists canonical | done | done | apply sort_by_key_perm |].
  apply graph_build_iff. simpl. split; [eapply compilable_perm; [symmetry; apply sort_by_key_perm | done] |].
  rewrite (unsealed_perm _ _ _ _ _ _ _ ns (sort_by_key node_id ns)); [| apply Hcomp | symmetry; apply sort_by_key_perm].
  apply seal_Ok. split; [done |]. exists canonical. split_and!; try done. simpl. by rewrite bool_decide_eq_true_2.
Qed.

(** C28: Compilation is total and exact.  It never panics and its two graph
    searches end.  It accepts a list of nodes exactly when there are 1 to 1024
    of them with distinct identities and distinct routes, every entry and
    every successor is a node, no ready set exceeds the parallelism, every
    node is reachable from an entry and can reach a node that waits or ends,
    and the sealing checks (child policy on known nodes, encodable definition
    of bounded size, matching digest) pass on the nodes in canonical order.
    In the compiled graph the binary search finds exactly the declared nodes;
    the graph restores under its own digest; and any order of the same nodes
    compiles to the same graph. *)
Theorem graph_build_exact (id : Capability) (input state update output : Schema)
    (red : GraphReducerReference Capability) (entries : ReadyNodes) (ns : list GraphNode)
    (lim : GraphExecutionLimits) (children : option (GraphChildRunPolicy Capability Schema)) :
  let build ns supplied := graph_build sha256 id input state update output red entries ns lim children supplied in
  (forall supplied, exists r, build ns supplied = Some r) /\
  (forall supplied g, build ns supplied = Some (Ok g) <->
     compilable ns entries lim /\ seal sha256 (unsealed id input state update output red entries ns lim children) supplied = Ok g) /\
  (forall supplied g, build ns supplied = Some (Ok g) ->
     (forall i n, graph_node g i = Some n <-> n ∈ ns /\ node_id n = i) /\
     (exists canonical, to_vec (definition_wire g) = Some canonical /\ definition_digest g = sha256 canonical) /\
     restores g) /\
  (forall ns' supplied g, ns ≡ₚ ns' -> build ns' supplied = Some (Ok g) <-> build ns supplied = Some (Ok g)).
Proof.
  intros build. split_and!.
  - intros supplied. destruct (graph_build_outcome id input state update output red entries ns lim children supplied) as (r & Hr & _).
    by exists r.
  - intros supplied g. apply graph_build_iff.
  - intros supplied g (Hd & _ & Hsort & Hp & Hr)%graph_build_facts. split_and!; [| done | done].
    intros i n. rewrite graph_node_find by done. rewrite find_key_iff by done. by rewrite Hp.
  - intros ns' supplied g Hp. unfold build. rewrite !graph_build_iff.
    split; intros [Hcomp Hs]; (split; [eapply compilable_perm; [| done]; done || by symmetry |]).
    + by rewrite (unsealed_perm _ _ _ _ _ _ _ ns' ns) by (apply Hcomp || done).
    + by rewrite (unsealed_perm _ _ _ _ _ _ _ ns ns') by (apply Hcomp || done).
Qed.
End Build.
End Compile.
