(* ===== verification/GraphComposition.v ===== *)
(** Static composition of graphs (crates/stateknot-core/src/graph_composition.rs):
    shared-state subgraph templates with symbolic return ports, call-sites that
    run a template once or in a bounded loop, and the lowering of a parent graph
    with calls into an ordinary compiled graph.

    A map indexed at a missing key, an integer below zero and a queue that
    outlives its fuel are the fault [Panic] of the source's panics; [Fail e] is
    an error the source returns. *)

From Stdlib Require Import ZArith Lia List.
From stdpp Require Import prelude.
From S2P Require Import Prelude Ordered Json Digests Decimal Checkpoint Graph.

Open Scope Z_scope.

Module Composition.

Inductive GraphCompositionError :=
| ChildDelegationUnsupported
| MixedReturnPort (id : NodeId)
| MissingReturnPorts
| EntryIsReturnPort
| CyclicTemplate
| TemplateStepLimit
| InvalidIterationLimit
| UnknownRepeatPort (port : NodeId)
| DuplicateCallSite (id : NodeId)
| UnknownCallSite (id : NodeId)
| ReturnRoutesMismatch (id : NodeId)
| SharedStateContractMismatch (id : NodeId)
| TemplateParallelismLimit (id : NodeId)
| ExpansionTooLarge
| CanonicalSerialization
| IdentityCollision
| GraphFailed (source : GraphCompileError).

Abbreviation fault := (Prelude.fault GraphCompositionError).

(** [e?], [map[key]], and a call of code that may panic. *)
Definition raise {A} (r : result GraphCompositionError A) : result fault A := map_err Fail r.
Definition index {A} (o : option A) : result fault A := ok_or o Panic.
Definition compiled {A} (o : option (result GraphCompileError A)) : result fault A :=
  match o with None => Err Panic | Some r => raise (map_err GraphFailed r) end.

(** * Templates *)

(** [successors]. *)
Definition all_successors (node : GraphNode) : list NodeId := concat (successor_sets node).

(** [*incoming.get_mut(id)? += 1]; a count of edges in memory fits a [usize]. *)
Definition count_incoming (incoming : list (NodeId * Z)) (id : NodeId) : result GraphCompositionError (list (NodeId * Z)) :=
  count ← ok_or (bt_get id incoming) IdentityCollision;
  Ok (bt_insert id (count + 1) incoming).

(** The state of the queue: depths, remaining incoming edges, queue. *)
Definition Frontier : Type := list (NodeId * Z) * list (NodeId * Z) * list NodeId.

(** One successor of a popped node at [depth]; a depth counts nodes of a path
    and fits a [u64]. *)
Definition relax (depth : Z) (st : Frontier) (next : NodeId) : result fault Frontier :=
  let '(depths, incoming, queue) := st in
  next_depth ← raise (ok_or (bt_get next depths) IdentityCollision);
  let depths := bt_insert next (Z.max next_depth (depth + 1)) depths in
  count ← raise (ok_or (bt_get next incoming) IdentityCollision);
  count ← index (checked_sub count 1);
  let incoming := bt_insert next count incoming in
  Ok (depths, incoming, if count =? 0 then queue ++ [next] else queue).

Section Graphs.
Context {Capability Schema : Type} `{EqDecision Capability, EqDecision Schema}.
Local Abbreviation GraphT := (CompiledGraph Capability Schema).
Local Abbreviation ReferenceT := (GraphReference Capability Schema).

(** The loop [while let Some(id) = queue.pop_front()], returning [visited]. *)
Fixpoint template_loop (fuel : nat) (g : GraphT) (ports : list NodeId) (st : Frontier) (visited : nat) : result fault nat :=
  let '(depths, incoming, queue) := st in
  match fuel, queue with
  | _, [] => Ok visited
  | O, _ :: _ => Err Panic
  | S fuel', id :: queue' =>
      depth ← index (bt_get id depths);
      if negb (bs_contains id ports) && (maximum_supersteps (limits g) <? depth) then Err (Fail TemplateStepLimit) else
      node ← raise (ok_or (graph_node g id) IdentityCollision);
      st ← try_fold (relax depth) (depths, incoming, queue') (all_successors node);
      template_loop fuel' g ports st (S visited)
  end.

Definition initial (value : Z) (g : GraphT) : list (NodeId * Z) :=
  fold_left (fun m node => bt_insert (node_id node) value m) (nodes g) [].

Definition validate_finite_template (g : GraphT) (ports : list NodeId) : result fault unit :=
  incoming ← raise (try_fold (fun m node => try_fold count_incoming m (all_successors node)) (initial 0 g) (nodes g));
  let queue := fst <$> List.filter (fun entry => entry.2 =? 0) incoming in
  visited ← template_loop (length (nodes g)) g ports (initial 1 g, incoming, queue) 0;
  if negb (visited =? length (nodes g))%nat then Err (Fail CyclicTemplate) else Ok tt.

Record SharedStateSubgraph := mkSubgraph { template : GraphT; ports : list NodeId }.

Definition port_step (ports : list NodeId) (node : GraphNode) : result GraphCompositionError (list NodeId) :=
  if terminal node then
    if negb (is_none (continue_to node)) || negb (length (routes node) =? 0)%nat || negb (is_none (wait_to node))
    then Err (MixedReturnPort (node_id node)) else Ok (bs_insert (node_id node) ports)
  else Ok ports.

Definition subgraph_new (g : GraphT) : result fault SharedStateSubgraph :=
  if negb (is_none (child_runs g)) then Err (Fail ChildDelegationUnsupported) else
  ports ← raise (try_fold port_step [] (nodes g));
  if (length ports =? 0)%nat then Err (Fail MissingReturnPorts) else
  if existsb (fun id => bs_contains id ports) (entry_nodes g) then Err (Fail EntryIsReturnPort) else
  _ ← validate_finite_template g ports;
  Ok (mkSubgraph g ports).

(** * Call-sites *)

Record GraphSubgraphCall := mkCall {
  call_site : NodeId;
  subgraph : SharedStateSubgraph;
  maximum_iterations : Z;
  repeat_port : option NodeId;
  return_routes : list (NodeId * RouteId)
}.

Definition once (id : NodeId) (sub : SharedStateSubgraph) : GraphSubgraphCall := mkCall id sub 1 None [].

Definition bounded_loop (id : NodeId) (sub : SharedStateSubgraph) (port : NodeId) (iterations : Z)
  : result GraphCompositionError GraphSubgraphCall :=
  if (iterations =? 0) || (MAX_NODES <? iterations) then Err InvalidIterationLimit else
  if negb (bs_contains port (ports sub)) then Err (UnknownRepeatPort port) else
  Ok (mkCall id sub iterations (Some port) []).

Definition bind_route (self : GraphSubgraphCall) (st : list (NodeId * RouteId) * list RouteId) (binding : NodeId * RouteId)
  : result GraphCompositionError (list (NodeId * RouteId) * list RouteId) :=
  let '(bindings, used) := st in
  let '(port, route) := binding in
  if negb (bs_contains port (ports (subgraph self))) || bs_contains route used || negb (is_none (bt_get port bindings))
  then Err (ReturnRoutesMismatch (call_site self)) else
  Ok (bt_insert port route bindings, bs_insert route used).

Definition with_return_routes (self : GraphSubgraphCall) (routes : list (NodeId * RouteId))
  : result GraphCompositionError GraphSubgraphCall :=
  '(bindings, _) ← try_fold (bind_route self) ([], []) routes;
  if negb (length bindings =? length (ports (subgraph self)))%nat then Err (ReturnRoutesMismatch (call_site self)) else
  Ok (mkCall (call_site self) (subgraph self) (maximum_iterations self) (repeat_port self) bindings).

Definition matches_return (self : GraphSubgraphCall) (port : NodeId) (route : RouteId) : bool :=
  match bt_get port (return_routes self) with
  | None => bool_decide (port = route)
  | Some bound => bool_decide (bound = route)
  end.

Definition validate_call (parent : GraphT) (call : GraphSubgraphCall) : result GraphCompositionError unit :=
  node ← ok_or (graph_node parent (call_site call)) (UnknownCallSite (call_site call));
  let sub := subgraph call in
  if negb (is_none (continue_to node)) || negb (is_none (wait_to node)) || terminal node
     || negb (length (routes node) =? length (ports sub))%nat
     || existsb (fun route => negb (existsb (fun id => matches_return call id (route_id route)) (ports sub))) (routes node)
  then Err (ReturnRoutesMismatch (call_site call)) else
  let child := template sub in
  if negb (bool_decide (input_schema parent = input_schema child))
     || negb (bool_decide (graph_state_schema parent = graph_state_schema child))
     || negb (bool_decide (update_schema parent = update_schema child))
     || negb (bool_decide (output_schema parent = output_schema child))
     || negb (bool_decide (reducer parent = reducer child)) then Err (SharedStateContractMismatch (call_site call)) else
  if maximum_parallelism (limits child) <? maximum_parallelism (limits parent)
  then Err (TemplateParallelismLimit (call_site call)) else Ok tt.

Definition body_count (call : GraphSubgraphCall) : option Z :=
  checked_sub (Z.of_nat (length (nodes (template (subgraph call))))) (Z.of_nat (length (ports (subgraph call)))).

Definition collect_call (parent : GraphT) (st : list (NodeId * GraphSubgraphCall) * Z) (call : GraphSubgraphCall)
  : result fault (list (NodeId * GraphSubgraphCall) * Z) :=
  let '(by_id, count) := st in
  if negb (is_none (bt_get (call_site call) by_id)) then Err (Fail (DuplicateCallSite (call_site call))) else
  _ ← raise (validate_call parent call);
  body ← index (body_count call);
  count ← index (checked_sub count 1);
  let count := count + body * maximum_iterations call in
  if MAX_NODES <? count then Err (Fail ExpansionTooLarge) else
  Ok (bt_insert (call_site call) call by_id, count).

Definition collect_calls (parent : GraphT) (calls : list GraphSubgraphCall)
  : result fault (list (NodeId * GraphSubgraphCall) * Z) :=
  try_fold (collect_call parent) ([], Z.of_nat (length (nodes parent))) calls.

(** * Lowering *)

Record GraphNodeSource := mkSource {
  source_graph : ReferenceT;
  source_node_id : NodeId;
  source_call_site : NodeId;
  source_iteration : Z;
  source_routes : list (RouteId * RouteId)
}.

Definition source_route_id (self : GraphNodeSource) (source : RouteId) : option RouteId := bt_get source (source_routes self).

Definition NODE_DOMAIN : bytes := bytes_of "stateknot.graph-composition.v1".
Definition ROUTE_DOMAIN : bytes := bytes_of "stateknot.graph-composition.route.v1".

(** The two [json!] objects that identities are hashed from. *)
Record NodeIdentityWire := mkNodeIdentity {
  ni_domain : bytes;
  ni_parent : ReferenceT;
  ni_graph : ReferenceT;
  ni_call_site : NodeId;
  ni_iteration : Z;
  ni_maximum_iterations : Z;
  ni_repeat_port : option NodeId;
  ni_return_routes : list (NodeId * RouteId)
}.
Record RouteIdentityWire := mkRouteIdentity { ri_domain : bytes; ri_node_id : NodeId; ri_route_id : RouteId }.

Context `{Canonical NodeIdentityWire, Canonical RouteIdentityWire, Canonical (GraphDefinitionDigestWire Capability Schema)}.
Variable sha256 : bytes -> bytes.

(** [&digest.to_string()[7..]] and [{ordinal:04}]. *)
Definition digest_hex (canonical : bytes) : bytes := drop 7 (Digests.display (sha256 canonical)).
Definition pad4 (ordinal : nat) : bytes :=
  let digits := Decimal.display_u64 (Z.of_nat ordinal) in replicate (4 - length digits) 48 ++ digits.

Definition lower_route (generated : NodeId) (routes : list (RouteId * RouteId)) (route : GraphRoute)
  : result GraphCompositionError (list (RouteId * RouteId)) :=
  canonical ← ok_or (to_vec (mkRouteIdentity ROUTE_DOMAIN generated (route_id route))) CanonicalSerialization;
  id ← map_err (fun _ => CanonicalSerialization) (route_id_new (bytes_of "skr-" ++ digest_hex canonical));
  Ok (bt_insert (route_id route) id routes).

Definition lower_identity (parent : GraphT) (call : GraphSubgraphCall) (node : GraphNode) (iteration : Z) (ordinal : nat)
  : result GraphCompositionError (NodeId * GraphNodeSource) :=
  let graph := reference (template (subgraph call)) in
  canonical ← ok_or (to_vec (mkNodeIdentity NODE_DOMAIN (reference parent) graph (call_site call) iteration
                               (maximum_iterations call) (repeat_port call) (return_routes call))) CanonicalSerialization;
  generated ← map_err (fun _ => CanonicalSerialization)
                (node_id_new (bytes_of "skc-" ++ digest_hex canonical ++ bytes_of "-" ++ pad4 ordinal));
  routes ← try_fold (lower_route generated) [] (routes node);
  Ok (generated, mkSource graph (node_id node) (call_site call) iteration routes).

(** [identities], keyed by call-site, iteration and template node. *)
Definition Identities : Type := list ((NodeId * Z * NodeId) * NodeId).
Definition Sources : Type := list (NodeId * GraphNodeSource).
Definition Entries : Type := list ((NodeId * Z) * ReadyNodes).

Definition iterations (call : GraphSubgraphCall) : list Z := Z.of_nat <$> seq 0 (Z.to_nat (maximum_iterations call)).
Definition is_port (call : GraphSubgraphCall) (id : NodeId) : bool := bs_contains id (ports (subgraph call)).

Definition lower_node (parent : GraphT) (call : GraphSubgraphCall) (iteration : Z) (st : Sources * Identities) (item : nat * GraphNode)
  : result GraphCompositionError (Sources * Identities) :=
  let '(sources, identities) := st in
  let '(ordinal, node) := item in
  if is_port call (node_id node) then Ok st else
  '(generated, source) ← lower_identity parent call node iteration ordinal;
  if negb (is_none (graph_node parent generated)) || negb (is_none (bt_get generated sources)) then Err IdentityCollision else
  Ok (bt_insert generated source sources, bt_insert (call_site call, iteration, node_id node) generated identities).

(** The three nested loops, flattened: every call, iteration and template node. *)
Definition enumerate {A} (l : list A) : list (nat * A) := zip (seq 0 (length l)) l.
Definition lower_all (parent : GraphT) (calls : list GraphSubgraphCall) : result GraphCompositionError (Sources * Identities) :=
  try_fold (fun st call =>
    try_fold (fun st iteration =>
      try_fold (lower_node parent call iteration) st (enumerate (nodes (template (subgraph call))))) st (iterations call))
    ([], []) calls.

Definition ready_insert (unique : list NodeId) (id : NodeId) : result GraphCompositionError (list NodeId) :=
  let unique := bs_insert id unique in
  if READY_MAX_LEN <? Z.of_nat (length unique) then Err ExpansionTooLarge else Ok unique.

Definition ready (ids : list NodeId) : result GraphCompositionError ReadyNodes :=
  unique ← try_fold ready_insert [] ids;
  map_err (fun _ => ExpansionTooLarge) (ready_try_new unique).

Definition entry_step (identities : Identities) (call : GraphSubgraphCall) (entries : Entries) (iteration : Z)
  : result fault Entries :=
  ids ← mapM (fun id => index (bt_get (call_site call, iteration, id) identities)) (entry_nodes (template (subgraph call)));
  r ← raise (ready ids);
  Ok (bt_insert (call_site call, iteration) r entries).

Definition entries_of (identities : Identities) (calls : list GraphSubgraphCall) : result fault Entries :=
  try_fold (fun entries call => try_fold (entry_step identities call) entries (iterations call)) [] calls.

Definition redirect_parent (entries : Entries) (id : NodeId) : list NodeId :=
  match bt_get (id, 0) entries with None => [id] | Some r => r end.

Definition redirect_child (identities : Identities) (entries : Entries) (call : GraphSubgraphCall) (node : GraphNode) (iteration : Z)
  (id : NodeId) : result fault (list NodeId) :=
  if negb (is_port call id) then generated ← index (bt_get (call_site call, iteration, id) identities); Ok [generated] else
  if bool_decide (repeat_port call = Some id) && (iteration + 1 <? maximum_iterations call)
  then index (bt_get (call_site call, iteration + 1) entries) else
  Ok (match List.find (fun route => matches_return call id (route_id route)) (routes node) with
      | Some route => concat (redirect_parent entries <$> successors route)
      | None => []
      end).

(** [remap] and [Option::map(remap).transpose()]. *)
Definition remap (redirect : NodeId -> result fault (list NodeId)) (r : ReadyNodes) : result fault ReadyNodes :=
  ids ← mapM redirect r;
  raise (ready (concat ids)).

Definition remap_option (redirect : NodeId -> result fault (list NodeId)) (o : option ReadyNodes) : result fault (option ReadyNodes) :=
  match o with None => Ok None | Some r => r' ← remap redirect r; Ok (Some r') end.

Definition remap_route (redirect : NodeId -> result fault (list NodeId)) (ids : option (list (RouteId * RouteId))) (route : GraphRoute)
  : result fault GraphRoute :=
  id ← match ids with None => Ok (route_id route) | Some m => index (bt_get (route_id route) m) end;
  succ ← remap redirect (successors route);
  raise (map_err (fun _ => ExpansionTooLarge) (route_new id succ)).

Definition remap_node (node : GraphNode) (id : NodeId) (redirect : NodeId -> result fault (list NodeId))
  (ids : option (list (RouteId * RouteId))) : result fault GraphNode :=
  rs ← mapM (remap_route redirect ids) (routes node);
  cont ← remap_option redirect (continue_to node);
  rs ← raise (map_err (fun _ => ExpansionTooLarge) (routes_try_new rs));
  wait ← remap_option redirect (wait_to node);
  raise (map_err (fun _ => ExpansionTooLarge) (node_new id cont rs wait (terminal node))).

(** The body of one call in one iteration. *)
Definition expand_iteration (sources : Sources) (identities : Identities) (entries : Entries) (call : GraphSubgraphCall)
  (node : GraphNode) (iteration : Z) : result fault (list GraphNode) :=
  mapM (fun child =>
    generated ← index (bt_get (call_site call, iteration, node_id child) identities);
    source ← index (bt_get generated sources);
    remap_node child generated (redirect_child identities entries call node iteration) (Some (source_routes source)))
    (List.filter (fun child => negb (is_port call (node_id child))) (nodes (template (subgraph call)))).

Definition expand_node (by_id : list (NodeId * GraphSubgraphCall)) (sources : Sources) (identities : Identities) (entries : Entries)
  (node : GraphNode) : result fault (list GraphNode) :=
  match bt_get (node_id node) by_id with
  | Some call =>
      bodies ← mapM (expand_iteration sources identities entries call node) (iterations call);
      Ok (concat bodies)
  | None =>
      node' ← remap_node node (node_id node) (fun id => Ok (redirect_parent entries id)) None;
      Ok [node']
  end.

Record GraphComposition := mkComposition { graph : GraphT; sources : Sources }.

Definition compile (parent : GraphT) (calls : list GraphSubgraphCall) : result fault GraphComposition :=
  '(by_id, _) ← collect_calls parent calls;
  match by_id with
  | [] => Ok (mkComposition parent [])
  | _ :: _ =>
      if negb (is_none (child_runs parent)) then Err (Fail ChildDelegationUnsupported) else
      '(sources, identities) ← raise (lower_all parent (into_values by_id));
      entries ← entries_of identities (into_values by_id);
      ns ← mapM (expand_node by_id sources identities entries) (nodes parent);
      entry_nodes ← raise (ready (concat (redirect_parent entries <$> entry_nodes parent)));
      g ← compiled (graph_compile sha256 (identity parent) (input_schema parent) (graph_state_schema parent)
                      (update_schema parent) (output_schema parent) (reducer parent) entry_nodes (concat ns) (limits parent));
      Ok (mkComposition g sources)
  end.
End Graphs.
Arguments SharedStateSubgraph : clear implicits.
Arguments GraphSubgraphCall : clear implicits.
Arguments GraphNodeSource : clear implicits.
Arguments GraphComposition : clear implicits.
End Composition.
