(* ===== verification/GraphTemplateLaws.v ===== *)
(** Laws of subgraph templates: the queue of [validate_finite_template] ends,
    never panics, and accepts exactly the templates without cycles whose paths
    to executable nodes keep the step ceiling. *)

From Stdlib Require Import ZArith Lia List.
From stdpp Require Import prelude.
From S2P Require Import Prelude Ordered Json Checkpoint Graph GraphLaws GraphComposition.

Open Scope Z_scope.

Module Templates.
Import Composition.

(** The occurrences of [b] in [l]. *)
Fixpoint occurrences (b : NodeId) (l : list NodeId) : Z :=
  match l with [] => 0 | x :: l' => (if decide (x = b) then 1 else 0) + occurrences b l' end.

Lemma occurrences_nonneg b l : 0 <= occurrences b l.
Proof. induction l as [|x l IH]; simpl; [done |]. case_decide; lia. Qed.

Lemma occurrences_pos b l : 0 < occurrences b l <-> b ∈ l.
Proof.
  induction l as [|x l IH]; simpl; [split; [lia | by intros ?%not_elem_of_nil] |]. rewrite elem_of_cons.
  pose proof (occurrences_nonneg b l). case_decide; [split; [by left | lia] |].
  rewrite <- IH. split; [right; lia |]. intros [-> | ?]; [done | lia].
Qed.

(** Sums over nodes. *)
Definition total (f : GraphNode -> Z) (ns : list GraphNode) : Z := foldr (fun n z => f n + z) 0 ns.

Lemma total_app f ns ns' : total f (ns ++ ns') = total f ns + total f ns'.
Proof. induction ns as [|n ns IH]; simpl; [done |]. rewrite IH. lia. Qed.

Lemma total_ext f h ns : (forall n, n ∈ ns -> f n = h n) -> total f ns = total h ns.
Proof. induction ns as [|n ns IH]; intros E; simpl; [done |]. rewrite E, IH; set_solver. Qed.

Lemma total_nonneg f ns : (forall n, 0 <= f n) -> 0 <= total f ns.
Proof. intros Hf. induction ns as [|n ns IH]; simpl; [done |]. specialize (Hf n). lia. Qed.

Lemma total_some f ns : (forall n, 0 <= f n) -> 0 < total f ns -> exists n, n ∈ ns /\ 0 < f n.
Proof.
  intros Hf. induction ns as [|n ns IH]; simpl; [lia |]. intros Ht. destruct (Z.eqb_spec (f n) 0).
  - destruct IH as (n' & ? & ?); [lia |]. exists n'. set_solver.
  - exists n. specialize (Hf n). split; [by left | lia].
Qed.

Lemma total_ge f ns n : (forall n, 0 <= f n) -> n ∈ ns -> f n <= total f ns.
Proof.
  intros Hf. induction ns as [|n' ns IH]; intros Hn; [by apply not_elem_of_nil in Hn |]. simpl.
  pose proof (total_nonneg f ns Hf). specialize (Hf n'). apply elem_of_cons in Hn as [-> | Hn]; [lia |]. specialize (IH Hn). lia.
Qed.

Section Kahn.
Context {Capability Schema : Type}.
Local Abbreviation GraphT := (CompiledGraph Capability Schema).
Variable g : GraphT.
Local Abbreviation ids := (node_id <$> nodes g).
Hypothesis Hsorted : ksorted node_id (nodes g).
Hypothesis Hclosed : forall n b, n ∈ nodes g -> b ∈ all_successors n -> b ∈ ids.
Local Abbreviation edge := (Compile.node_edge (nodes g)).

Lemma graph_node_iff id n : graph_node g id = Some n <-> n ∈ nodes g /\ node_id n = id.
Proof. rewrite Compile.graph_node_find by done. by apply find_key_iff. Qed.

(** A path, its last node first. *)
Inductive path : list NodeId -> Prop :=
| path_start a : a ∈ ids -> path [a]
| path_extend a b l : path (a :: l) -> edge a b -> path (b :: a :: l).

Definition acyclic : Prop := forall a, ~ tc edge a a.
Definition within (ports : list NodeId) : Prop :=
  forall b l, path (b :: l) -> b ∉ ports -> Z.of_nat (length (b :: l)) <= maximum_supersteps (limits g).

Lemma edge_ids a b : edge a b -> a ∈ ids /\ b ∈ ids.
Proof.
  intros (n & Hn & E & Hb). split; [| by apply (Hclosed n)]. apply list_elem_of_fmap. by exists n.
Qed.

Lemma path_ids l a : path l -> a ∈ l -> a ∈ ids.
Proof.
  induction 1 as [c Hc|c b l Hl IH He]; intros Ha.
  - apply list_elem_of_singleton in Ha as ->. done.
  - apply elem_of_cons in Ha as [-> | Ha]; [by apply edge_ids in He as [_ ?] | by apply IH].
Qed.

Lemma path_reaches b l a : path (b :: l) -> a ∈ l -> tc edge a b.
Proof.
  remember (b :: l) as p eqn:Ep. intros Hp. revert b l Ep a. induction Hp as [c Hc|c d l Hl IH He]; intros b l' [= -> <-] a Ha.
  - by apply not_elem_of_nil in Ha.
  - apply elem_of_cons in Ha as [-> | Ha]; [by constructor |]. eapply tc_r; [by apply (IH c l) | done].
Qed.

Lemma acyclic_path_NoDup l : acyclic -> path l -> NoDup l.
Proof.
  intros Hac. induction 1 as [c Hc|c b l Hl IH He]; [by apply NoDup_singleton |]. constructor; [| done].
  intros Hb. apply (Hac b). by apply (path_reaches b (c :: l)); [constructor |].
Qed.

Lemma acyclic_path_length l : acyclic -> path l -> (length l <= length (nodes g))%nat.
Proof.
  intros Hac Hp. rewrite <- (length_fmap node_id (nodes g)). apply submseteq_length, NoDup_submseteq.
  - by apply acyclic_path_NoDup.
  - intros a Ha. by apply (path_ids l).
Qed.

(** Along a cycle paths grow for ever. *)
Lemma tc_path a b l : tc edge a b -> path (a :: l) -> exists l', path (b :: l') /\ (length l < length l')%nat.
Proof.
  intros Ht. revert l. induction Ht as [a b He|a c b He _ IH]; intros l Hl.
  - exists (a :: l). split; [by constructor | simpl; lia].
  - destruct (IH (a :: l)) as (l' & ? & ?); [by constructor |]. exists l'. simpl in *. split; [done | lia].
Qed.

Lemma cycle_paths a n : tc edge a a -> exists l, path (a :: l) /\ (n <= length l)%nat.
Proof.
  intros Ht. induction n as [|n (l & Hl & Hn)].
  - exists []. split; [| simpl; lia]. constructor. inversion Ht as [? ? He|? ? ? He _]; by apply edge_ids in He as [? _].
  - destruct (tc_path a a l Ht Hl) as (l' & ? & ?). exists l'. split; [done | lia].
Qed.

(** * Maps over the nodes *)

Definition tracks (m : list (NodeId * Z)) (f : NodeId -> Z) : Prop :=
  ksorted fst m /\ forall id, bt_get id m = if decide (id ∈ ids) then Some (f id) else None.

Lemma tracks_insert m f id v :
  tracks m f -> id ∈ ids -> tracks (bt_insert id v m) (fun x => if decide (id = x) then v else f x).
Proof.
  intros [Hm Hf] Hid. split; [by apply bt_insert_sorted |]. intros x. rewrite bt_get_insert by done.
  destruct (eqb_cmp id x) eqn:E; [apply eqb_cmp_spec in E as -> |].
  - rewrite decide_True by done. by rewrite decide_True.
  - rewrite Hf. case_decide; [| done]. rewrite decide_False; [done |]. intros ->. by rewrite (proj2 (eqb_cmp_spec x x)) in E.
Qed.

Lemma tracks_ext m f h : tracks m f -> (forall x, x ∈ ids -> f x = h x) -> tracks m h.
Proof. intros [Hm Hf] E. split; [done |]. intros x. rewrite Hf. case_decide; [by rewrite E | done]. Qed.

Lemma tracks_get m f id : tracks m f -> id ∈ ids -> bt_get id m = Some (f id).
Proof. intros [_ Hf] Hid. by rewrite Hf, decide_True. Qed.

Lemma initial_tracks v : tracks (initial v g) (fun _ => v).
Proof.
  assert (Hgen : forall ns m, ksorted fst m ->
    (forall x w, bt_get x m = Some w -> w = v) ->
    let m' := fold_left (fun m node => bt_insert (node_id node) v m) ns m in
    ksorted fst m' /\ forall x, bt_get x m' = if decide (x ∈ node_id <$> ns) then Some v else bt_get x m).
  { induction ns as [|n ns IH]; intros m Hm Hv; cbn [fold_left]; cbv zeta.
    - done.
    - destruct (IH (bt_insert (node_id n) v m)) as [Hs Hx]; [by apply bt_insert_sorted | |].
      + intros x w. rewrite bt_get_insert by done. destruct (eqb_cmp _ _); [by intros [= <-] | apply Hv].
      + split; [done |]. intros x. rewrite Hx, fmap_cons. rewrite bt_get_insert by done.
        destruct (eqb_cmp (node_id n) x) eqn:E.
        * apply eqb_cmp_spec in E as <-. repeat case_decide; set_solver.
        * assert (node_id n <> x) by (intros <-; by rewrite (proj2 (eqb_cmp_spec (node_id n) _)) in E).
          repeat case_decide; set_solver. }
  destruct (Hgen (nodes g) []) as [Hs Hx]; [constructor | done |]. split; [exact Hs |]. intros x. unfold initial. rewrite Hx. done.
Qed.

(** * Counting incoming edges *)

Definition pending (visited : list NodeId) (b : NodeId) : Z :=
  total (fun n => if decide (node_id n ∈ visited) then 0 else occurrences b (all_successors n)) (nodes g).

Lemma count_successors ss m f :
  tracks m f -> (forall b, b ∈ ss -> b ∈ ids) ->
  exists m', try_fold count_incoming m ss = Ok m' /\ tracks m' (fun b => f b + occurrences b ss).
Proof.
  revert m f. induction ss as [|b ss IH]; intros m f Hm Hss; simpl.
  - exists m. split; [done |]. eapply tracks_ext; [exact Hm |]. intros; simpl; lia.
  - assert (count_incoming m b = Ok (bt_insert b (f b + 1) m)) as ->.
    { unfold count_incoming. by rewrite (tracks_get m f) by (done || apply Hss; by left). }
    simpl.
    destruct (IH _ _ (tracks_insert m f b (f b + 1) Hm (Hss b ltac:(by left)))) as (m' & Hm' & Ht); [set_solver |].
    exists m'. split; [done |]. eapply tracks_ext; [exact Ht |]. intros x _. simpl. repeat case_decide; subst; try done; lia.
Qed.

Lemma count_all : exists m,
  try_fold (fun m node => try_fold count_incoming m (all_successors node)) (initial 0 g) (nodes g) = Ok m /\
  tracks m (pending []).
Proof.
  assert (Hgen : forall ns m f, (forall n, n ∈ ns -> n ∈ nodes g) -> tracks m f -> exists m',
    try_fold (fun m node => try_fold count_incoming m (all_successors node)) m ns = Ok m' /\
    tracks m' (fun b => f b + total (fun n => occurrences b (all_successors n)) ns)).
  { induction ns as [|n ns IH]; intros m f Hns Hm; simpl.
    - exists m. split; [done |]. eapply tracks_ext; [exact Hm |]. intros; simpl; lia.
    - destruct (count_successors (all_successors n) m f Hm) as (m1 & -> & H1); [intros b; apply Hclosed, Hns; by left |].
      simpl. destruct (IH m1 _ (fun n' H => Hns n' ltac:(by right)) H1) as (m' & Hm' & Ht). exists m'. split; [done |].
      eapply tracks_ext; [exact Ht |]. intros; simpl; lia. }
  destruct (Hgen (nodes g) _ _ (fun _ H => H) (initial_tracks 0)) as (m & Hm & Ht). exists m. split; [done |].
  eapply tracks_ext; [exact Ht |]. intros b _. simpl. unfold pending. apply total_ext. intros n _.
  rewrite decide_False; [done | apply not_elem_of_nil].
Qed.

Lemma pending_nonneg D b : 0 <= pending D b.
Proof. apply total_nonneg. intros n. case_decide; [lia | apply occurrences_nonneg]. Qed.

Lemma pending_visit D n b :
  n ∈ nodes g -> node_id n ∉ D -> pending (node_id n :: D) b = pending D b - occurrences b (all_successors n).
Proof.
  intros Hn HD. unfold pending. apply list_elem_of_split in Hn as (l1 & l2 & E).
  assert (Hnd : NoDup ids) by by apply ksorted_keys_NoDup. rewrite E, fmap_app, fmap_cons in Hnd.
  apply NoDup_app in Hnd as (_ & Hd1 & [Hd2 _]%NoDup_cons). rewrite E, !total_app. simpl.
  rewrite decide_True by by left. rewrite (decide_False (P := node_id n ∈ D)) by done.
  rewrite (total_ext _ (fun n => if decide (node_id n ∈ D) then 0 else occurrences b (all_successors n)) l1).
  - rewrite (total_ext _ (fun n => if decide (node_id n ∈ D) then 0 else occurrences b (all_successors n)) l2); [lia |].
    intros n' Hn'. assert (node_id n' <> node_id n) by (intros E'; apply Hd2; rewrite <- E'; by apply list_elem_of_fmap_2).
    repeat case_decide; set_solver.
  - intros n' Hn'. assert (node_id n' <> node_id n).
    { intros E'. apply (Hd1 (node_id n)); [rewrite <- E'; by apply list_elem_of_fmap_2 | by left]. }
    repeat case_decide; set_solver.
Qed.

Lemma pending_pos D b : 0 < pending D b <-> exists a, edge a b /\ a ∉ D.
Proof.
  unfold pending. split.
  - intros (n & Hn & Hp)%total_some; [| intros n; case_decide; [lia | apply occurrences_nonneg]].
    case_decide; [lia |]. exists (node_id n). split; [| done]. exists n. by apply occurrences_pos in Hp.
  - intros (a & (n & Hn & <- & Hb) & Ha). eapply Z.lt_le_trans; [| apply (total_ge _ _ n); [| done]].
    + simpl. rewrite decide_False by done. by apply occurrences_pos.
    + intros n'. simpl. case_decide; [lia | apply occurrences_nonneg].
Qed.

(** * The queue *)

Lemma relax_Ok depth dm im q d f b :
  tracks dm d -> tracks im f -> b ∈ ids -> 1 <= f b ->
  relax depth (dm, im, q) b =
    Ok (bt_insert b (Z.max (d b) (depth + 1)) dm, bt_insert b (f b - 1) im, if f b - 1 =? 0 then q ++ [b] else q).
Proof.
  intros Hd Hf Hb Hp. unfold relax. rewrite (tracks_get dm d), (tracks_get im f) by done. simpl.
  unfold checked_sub. destruct (Z.leb_spec 1 (f b)); [done | lia].
Qed.

Lemma relax_fold ss depth dm im q d f :
  tracks dm d -> tracks im f -> (forall b, b ∈ ss -> b ∈ ids) -> (forall b, occurrences b ss <= f b) ->
  exists dm' im' fresh, try_fold (relax depth) (dm, im, q) ss = Ok (dm', im', q ++ fresh) /\
    tracks dm' (fun b => if decide (b ∈ ss) then Z.max (d b) (depth + 1) else d b) /\
    tracks im' (fun b => f b - occurrences b ss) /\
    NoDup fresh /\ forall b, b ∈ fresh <-> b ∈ ss /\ f b = occurrences b ss.
Proof.
  revert dm im q d f. induction ss as [|x ss IH]; intros dm im q d f Hd Hf Hss Hocc.
  - exists dm, im, []. rewrite app_nil_r. split_and!; [done | | | constructor | set_solver].
    + eapply tracks_ext; [exact Hd |]. intros b _. by rewrite decide_False by apply not_elem_of_nil.
    + eapply tracks_ext; [exact Hf |]. intros; simpl; lia.
  - assert (Hx : x ∈ ids) by (apply Hss; by left). pose proof (Hocc x) as Hfx. simpl in Hfx. rewrite decide_True in Hfx by done.
    pose proof (occurrences_nonneg x ss). cbn [try_fold]. rewrite (relax_Ok depth dm im q d f x) by (done || lia). step_ok.
    destruct (IH _ _ (if f x - 1 =? 0 then q ++ [x] else q) _ _ (tracks_insert dm d x (Z.max (d x) (depth + 1)) Hd Hx)
      (tracks_insert im f x (f x - 1) Hf Hx)) as (dm' & im' & fresh & Hfold & Hd' & Hf' & Hnd & Hfresh).
    { set_solver. }
    { intros b. specialize (Hocc b). simpl in Hocc. repeat case_decide; subst; try done; lia. }
    assert (Hlast : f x - 1 = 0 -> x ∉ ss) by (intros E Hin%occurrences_pos; lia).
    exists dm', im', ((if f x - 1 =? 0 then [x] else []) ++ fresh). split_and!.
    + rewrite Hfold. destruct (f x - 1 =? 0); [by rewrite <- app_assoc | done].
    + eapply tracks_ext; [exact Hd' |]. intros b _. cbv beta.
      destruct (decide (b ∈ x :: ss)) as [[-> | Hb]%elem_of_cons|[Hb Hb']%not_elem_of_cons].
      * rewrite (decide_True (P := x = x)) by done. case_decide; lia.
      * rewrite (decide_True (P := b ∈ ss)) by done. case_decide; subst; lia.
      * rewrite (decide_False (P := b ∈ ss)) by done. by rewrite decide_False.
    + eapply tracks_ext; [exact Hf' |]. intros b _. simpl. repeat case_decide; subst; try done; lia.
    + destruct (Z.eqb_spec (f x - 1) 0) as [E|]; [| done]. simpl. constructor; [| done]. rewrite Hfresh.
      intros [Hin _]. by apply Hlast.
    + intros b. rewrite elem_of_app, Hfresh, elem_of_cons. simpl. destruct (Z.eqb_spec (f x - 1) 0) as [E|E].
      * rewrite list_elem_of_singleton. pose proof (Hlast E) as Hn. assert (occurrences x ss = 0).
        { destruct (Z.eqb_spec (occurrences x ss) 0); [done |]. destruct Hn. apply occurrences_pos. lia. }
        repeat case_decide; subst; try done; split; intros; destruct_and?; destruct_or?; destruct_and?; subst; try done;
          try (split; [by auto | lia]); auto with lia.
      * rewrite elem_of_nil. repeat case_decide; subst; try done.
        -- split; [intros [[] | [? ?]]; split; [by right | lia] |]. intros [_ E']. right. split; [| lia].
           apply occurrences_pos. lia.
        -- split; [intros [[] | [? ?]]; split; [by right | lia] |]. intros [[-> | ?] ?]; [done |]. right. split; [done | lia].
Qed.

Section Loop.
Variable ports : list NodeId.

Record loop_inv (D : list NodeId) (dm im : list (NodeId * Z)) (q : list NodeId) (d : NodeId -> Z) : Prop := {
  inv_depths : tracks dm d;
  inv_incoming : tracks im (pending D);
  inv_nodup : NoDup (D ++ q);
  inv_ids : forall a, a ∈ D ++ q -> a ∈ ids;
  inv_zero : forall b, b ∈ ids -> b ∈ D ++ q <-> pending D b = 0;
  inv_path : forall b, b ∈ ids -> exists l, path (b :: l) /\ Z.of_nat (length (b :: l)) = d b;
  inv_above : forall a b, a ∈ D -> edge a b -> d a + 1 <= d b;
  inv_steps : forall a, a ∈ D -> a ∉ ports -> d a <= maximum_supersteps (limits g)
}.

Lemma predecessors_visited D dm im q d a b : loop_inv D dm im q d -> b ∈ D ++ q -> edge a b -> a ∈ D.
Proof.
  intros Hi Hb He. destruct (decide (a ∈ D)) as [|Ha]; [done |].
  assert (0 < pending D b) by (apply pending_pos; by exists a).
  apply (inv_zero _ _ _ _ _ Hi) in Hb; [lia | by apply edge_ids in He as [_ ?]].
Qed.

Lemma visited_bounds D dm im q d b l :
  loop_inv D dm im q d -> path (b :: l) -> b ∈ D ++ q -> Z.of_nat (length (b :: l)) <= d b.
Proof.
  intros Hi. remember (b :: l) as p eqn:Ep. intros Hp. revert b l Ep.
  induction Hp as [c Hc|c x l Hl IH He]; intros b l' [= -> <-] Hb.
  - destruct (inv_path _ _ _ _ _ Hi b Hc) as (l & _ & <-). simpl. lia.
  - pose proof (predecessors_visited _ _ _ _ _ c b Hi Hb He) as Hc.
    pose proof (inv_above _ _ _ _ _ Hi c b Hc He). specialize (IH c l eq_refl ltac:(set_solver)). simpl in *. lia.
Qed.

Lemma loop_step D dm im x q d n :
  loop_inv D dm im (x :: q) d -> graph_node g x = Some n -> (x ∉ ports -> d x <= maximum_supersteps (limits g)) ->
  exists st d', try_fold (relax (d x)) (dm, im, q) (all_successors n) = Ok st /\
    loop_inv (x :: D) st.1.1 st.1.2 st.2 d'.
Proof.
  intros Hi [Hn Hx]%graph_node_iff Hlim. pose proof Hi as [Hd Hf Hnd Hids Hzero Hpath Habove Hsteps].
  assert (HxD : x ∉ D). { apply NoDup_app in Hnd as (_ & Hnd & _). intros HD. apply (Hnd x HD). by left. }
  assert (Hpend : forall b, pending (x :: D) b = pending D b - occurrences b (all_successors n))
    by (intros b; rewrite <- Hx; apply pending_visit; [done | by rewrite Hx]).
  assert (Hedge : forall b, b ∈ all_successors n <-> edge x b).
  { intros b. split; [intros Hb; exists n; by split_and! |]. intros (n' & Hn' & E & Hb).
    assert (n' = n) as -> by (by eapply (ksorted_key_inj node_id); [done | done | done | congruence]). done. }
  assert (Hfresh : forall b, b ∈ all_successors n -> b ∉ D ++ x :: q).
  { intros b Hb%Hedge HbD. by pose proof (predecessors_visited _ _ _ _ _ x b Hi HbD Hb). }
  destruct (relax_fold (all_successors n) (d x) dm im q d (pending D)) as (dm' & im' & fresh & Hfold & Hd' & Hf' & Hndf & Hfr);
    [done | done | intros b; by apply Hclosed | intros b; pose proof (pending_nonneg (x :: D) b); rewrite Hpend in *; lia |].
  exists (dm', im', q ++ fresh), (fun b => if decide (b ∈ all_successors n) then Z.max (d b) (d x + 1) else d b).
  split; [done |]. simpl. split.
  - done.
  - eapply tracks_ext; [exact Hf' |]. intros b _. by rewrite Hpend.
  - assert (Hp : (x :: D) ++ q ++ fresh ≡ₚ (D ++ x :: q) ++ fresh) by solve_Permutation.
    rewrite Hp. apply NoDup_app. split_and!; [done | | done]. intros b Hb [Hs _]%Hfr. by apply (Hfresh b).
  - intros a Ha. assert (a ∈ D ++ x :: q \/ a ∈ fresh) as [?|[Ha' _]%Hfr] by set_solver; [by apply Hids | by apply (Hclosed n)].
  - intros b Hb. rewrite Hpend. pose proof (pending_nonneg (x :: D) b) as Hnn. rewrite Hpend in Hnn.
    pose proof (occurrences_nonneg b (all_successors n)). specialize (Hzero b Hb). split.
    + intros Hin. assert (b ∈ D ++ x :: q \/ b ∈ fresh) as [?%Hzero|[_ ?]%Hfr] by set_solver; lia.
    + intros E. destruct (decide (b ∈ all_successors n)) as [Hs|Hs].
      * assert (b ∈ fresh) by (apply Hfr; split; [done | lia]). set_solver.
      * rewrite <- occurrences_pos in Hs. assert (b ∈ D ++ x :: q) by (apply Hzero; lia). set_solver.
  - intros b Hb. case_decide as Hs; [| by apply Hpath]. destruct (Z.max_spec (d b) (d x + 1)) as [[_ ->]|[_ ->]]; [| by apply Hpath].
    destruct (Hpath x) as (l & Hl & El); [apply Hids; set_solver |]. exists (x :: l).
    split; [constructor; [done | by apply Hedge] | simpl in *; lia].
  - intros a b Ha He. assert (Hna : a ∉ all_successors n) by (intros Hs; apply (Hfresh a Hs); set_solver).
    rewrite (decide_False (P := a ∈ _)) by done. apply elem_of_cons in Ha as [-> | Ha].
    + rewrite decide_True by by apply Hedge. lia.
    + pose proof (Habove a b Ha He). case_decide; lia.
  - intros a Ha Hport. assert (Hna : a ∉ all_successors n) by (intros Hs; apply (Hfresh a Hs); set_solver).
    rewrite decide_False by done. apply elem_of_cons in Ha as [-> | Ha]; auto.
Qed.

Lemma loop_length D dm im q d : loop_inv D dm im q d -> (length D + length q <= length (nodes g))%nat.
Proof.
  intros Hi. rewrite <- length_app, <- (length_fmap node_id (nodes g)).
  apply submseteq_length, NoDup_submseteq; [apply Hi | apply (inv_ids _ _ _ _ _ Hi)].
Qed.

Lemma template_loop_spec fuel D dm im q d :
  loop_inv D dm im q d -> (length (nodes g) <= fuel + length D)%nat ->
  (exists D' dm' im' d', template_loop fuel g ports (dm, im, q) (length D) = Ok (length D') /\ loop_inv D' dm' im' [] d') \/
  (template_loop fuel g ports (dm, im, q) (length D) = Err (Fail TemplateStepLimit) /\ ~ within ports).
Proof.
  revert D dm im q d. induction fuel as [|fuel IH]; intros D dm im q d Hi Hfuel; destruct q as [|x q].
  - left. by exists D, dm, im, d.
  - pose proof (loop_length _ _ _ _ _ Hi). simpl in *. lia.
  - left. by exists D, dm, im, d.
  - assert (Hx : x ∈ ids) by (apply (inv_ids _ _ _ _ _ Hi); set_solver).
    assert (exists n, graph_node g x = Some n) as (n & Hn).
    { apply list_elem_of_fmap in Hx as (n & E & Hn). exists n. by apply graph_node_iff. }
    cbn [template_loop]. rewrite (tracks_get dm d) by (done || apply Hi). cbn [index ok_or].
    step_ok.
    destruct (negb (bs_contains x ports) && (maximum_supersteps (limits g) <? d x)) eqn:Elim.
    + right. split; [done |]. intros Hw. bools. match goal with H : bs_contains _ _ = false |- _ => apply bs_contains_false in H end.
      destruct (inv_path _ _ _ _ _ Hi x Hx) as (l & Hl & El). specialize (Hw x l Hl ltac:(done)). lia.
    + rewrite Hn. cbn [ok_or raise map_err]. step_ok.
      destruct (loop_step D dm im x q d n Hi Hn) as ([[dm' im'] q'] & d' & -> & Hi').
      { intros Hp%bs_contains_false. rewrite Hp in Elim. simpl in Elim. bools. lia. }
      step_ok.
      apply (IH (x :: D) dm' im' q' d' Hi'). simpl. lia.
Qed.

Lemma start_inv im :
  tracks im (pending []) ->
  loop_inv [] (initial 1 g) im (fst <$> List.filter (fun entry => entry.2 =? 0) im) (fun _ => 1).
Proof.
  intros Him. assert (Hq : forall b, b ∈ fst <$> List.filter (fun entry => entry.2 =? 0) im <-> b ∈ ids /\ pending [] b = 0).
  { intros b. rewrite list_elem_of_fmap. setoid_rewrite list_elem_of_In. setoid_rewrite filter_In. setoid_rewrite <- list_elem_of_In.
    destruct Him as [Hs Hg]. specialize (Hg b). split.
    - intros ([x v] & -> & Hin & E%Z.eqb_eq). simpl in *. apply bt_get_elem in Hin; [| done]. rewrite Hin in Hg.
      case_decide; [| done]. injection Hg as ->. done.
    - intros [Hb E]. rewrite decide_True in Hg by done. exists (b, pending [] b). split; [done |].
      split; [by apply bt_get_elem | simpl; by apply Z.eqb_eq]. }
  split; [apply initial_tracks | done | | | | | set_solver | set_solver].
  - simpl. destruct Him as [Hs _]. clear -Hs. induction Hs as [|[x v] im HF Hs IH]; simpl; [constructor |].
    destruct (v =? 0); simpl; [| done]. constructor; [| done]. intros ([y w] & -> & Hy)%list_elem_of_fmap. simpl in *.
    apply list_elem_of_In, filter_In in Hy as [Hy%list_elem_of_In _]. rewrite Forall_forall in HF.
    by apply (cmp_lt_irrefl y), (HF _ Hy).
  - intros a Ha. by apply Hq.
  - intros b Hb. simpl. rewrite Hq. naive_solver.
  - intros b Hb. exists []. split; [by constructor | done].
Qed.

(** The three outcomes. *)
Lemma validate_finite_template_spec :
  (validate_finite_template g ports = Ok tt /\ acyclic /\ within ports) \/
  (validate_finite_template g ports = Err (Fail TemplateStepLimit) /\ ~ within ports) \/
  (validate_finite_template g ports = Err (Fail CyclicTemplate) /\ ~ acyclic).
Proof.
  destruct count_all as (im & Him & Ht). unfold validate_finite_template. rewrite Him. cbn [raise map_err].
  step_ok. cbv zeta.
  pose proof (template_loop_spec (length (nodes g)) [] _ im _ _ (start_inv im Ht) ltac:(simpl; lia)) as Hloop.
  change (length []) with 0%nat in Hloop. destruct Hloop as [(D & dm & im' & d & -> & Hi)|[-> Hw]]; [| by right; left].
  step_ok. destruct (Nat.eqb_spec (length D) (length (nodes g))) as [El|El]; cbn [negb].
  - left. assert (Hall : forall b, b ∈ ids -> b ∈ D).
    { assert (HP : D ≡ₚ ids); [| intros b; by rewrite HP]. apply submseteq_length_Permutation; [| rewrite length_fmap; lia].
      pose proof (inv_nodup _ _ _ _ _ Hi) as Hnd. rewrite app_nil_r in Hnd. apply NoDup_submseteq; [done |].
      intros a Ha. apply (inv_ids _ _ _ _ _ Hi). set_solver. }
    assert (Hb : forall b l, path (b :: l) -> Z.of_nat (length (b :: l)) <= d b).
    { intros b l Hl. apply (visited_bounds _ _ _ _ _ b l Hi Hl). rewrite app_nil_r. apply Hall, (path_ids _ b Hl). by left. }
    split_and!; [done | |].
    + intros a Hc. destruct (cycle_paths a (Z.to_nat (d a)) Hc) as (l & Hl & Hn). specialize (Hb a l Hl). simpl in Hb. lia.
    + intros b l Hl Hp. specialize (Hb b l Hl). pose proof (inv_steps _ _ _ _ _ Hi b (Hall b (path_ids _ b Hl ltac:(by left))) Hp). lia.
  - right; right. split; [done |]. intros Hac. pose proof (loop_length _ _ _ _ _ Hi) as Hlen. simpl in Hlen.
    (* every unvisited node has an unvisited predecessor *)
    assert (Hlong : forall n b, b ∈ ids -> b ∉ D -> exists l, path (b :: l) /\ (n <= length l)%nat).
    { assert (Hpred : forall b, b ∈ ids -> b ∉ D -> exists a, edge a b /\ a ∉ D).
      { intros b Hb HbD. apply pending_pos. pose proof (pending_nonneg D b). destruct (Z.eqb_spec (pending D b) 0) as [E|]; [| lia].
        apply (inv_zero _ _ _ _ _ Hi) in E; [| done]. rewrite app_nil_r in E. done. }
      induction n as [|n IHn]; intros b Hb HbD; [exists []; split; [by constructor | simpl; lia] |].
      destruct (Hpred b Hb HbD) as (a & He & Ha). destruct (IHn a) as (l & Hl & Hn); [by apply edge_ids in He as [? _] | done |].
      exists (a :: l). split; [by constructor | simpl; lia]. }
    assert (exists b, b ∈ ids /\ b ∉ D) as (b & Hb & HbD).
    { assert (Hex : Exists (fun b => b ∉ D) ids); [| apply Exists_exists in Hex as (b & ? & ?); by exists b].
      apply not_Forall_Exists; [intros ?; apply _ |]. intros HF. rewrite Forall_forall in HF.
      assert (Hs : ids ⊆+ D) by (apply NoDup_submseteq; [by apply ksorted_keys_NoDup |]; intros x Hx; by apply HF).
      apply submseteq_length in Hs. rewrite length_fmap in Hs. lia. }
    destruct (Hlong (length (nodes g)) b Hb HbD) as (l & Hl & Hn). apply acyclic_path_length in Hl; [| done]. simpl in Hl. lia.
Qed.
End Loop.
End Kahn.

(** * Templates *)

Section Subgraph.
Context {Capability Schema : Type} `{EqDecision Capability, EqDecision Schema}.
Context `{Canonical (GraphDefinitionDigestWire Capability Schema)}.
Variable sha256 : bytes -> bytes.
Local Abbreviation GraphT := (CompiledGraph Capability Schema).
Local Abbreviation restores := (Compile.restores sha256).
Implicit Types (g : GraphT) (n : GraphNode).

Lemma restores_sorted g : restores g -> ksorted node_id (nodes g).
Proof. by intros [_ ?]%Compile.restores_facts. Qed.

Lemma restores_closed g n b : restores g -> n ∈ nodes g -> b ∈ all_successors n -> b ∈ node_id <$> nodes g.
Proof.
  intros [(_ & (_ & _ & _ & Hc) & _) _]%Compile.restores_facts Hn Hb.
  apply elem_of_concat in Hb as (s & Hs & Hb). by apply (Hc n s Hn Hs).
Qed.

Lemma restores_entries g e : restores g -> e ∈ entry_nodes g -> e ∈ node_id <$> nodes g.
Proof. intros [(_ & (_ & _ & Hc & _) & _) _]%Compile.restores_facts. apply Hc. Qed.

(** A return port: a terminal node without another outcome. *)
Definition pure (n : GraphNode) : Prop := continue_to n = None /\ routes n = [] /\ wait_to n = None.
Definition port_ids (ns : list GraphNode) : list NodeId := bs_extend [] (node_id <$> List.filter terminal ns).

Lemma port_ids_elem ns id : id ∈ port_ids ns <-> exists n, n ∈ ns /\ node_id n = id /\ terminal n = true.
Proof.
  unfold port_ids. rewrite bs_extend_elem, list_elem_of_fmap. setoid_rewrite list_elem_of_In. setoid_rewrite filter_In.
  setoid_rewrite <- list_elem_of_In. split; [intros [?%not_elem_of_nil|(n & -> & ? & ?)]; [done | by exists n] |].
  intros (n & ? & <- & ?). right. by exists n.
Qed.

Lemma port_step_Ok ps n ps' :
  port_step ps n = Ok ps' <-> (terminal n = true -> pure n) /\ ps' = if terminal n then bs_insert (node_id n) ps else ps.
Proof.
  unfold port_step, pure. destruct (terminal n); [| naive_solver].
  destruct (continue_to n), (routes n), (wait_to n); simpl; naive_solver.
Qed.

Lemma ports_fold_Ok ns ps ps' :
  try_fold port_step ps ns = Ok ps' <->
  (forall n, n ∈ ns -> terminal n = true -> pure n) /\ ps' = bs_extend ps (node_id <$> List.filter terminal ns).
Proof.
  revert ps. induction ns as [|n ns IH]; intros ps; cbn [try_fold].
  - unfold bs_extend. simpl. split; [intros [= ->]; set_solver | by intros [_ ->]].
  - rewrite bind_Ok. setoid_rewrite port_step_Ok. split.
    + intros (ps1 & [Hn ->] & [Hns ->]%IH). split; [intros n' [-> | ?]%elem_of_cons; auto |]. simpl. by destruct (terminal n).
    + intros [Hns ->]. eexists. split; [split; [apply Hns; by left | done] |]. apply IH. split; [intros; apply Hns; [by right | done] |].
      simpl. by destruct (terminal n).
Qed.

Lemma ports_fold_Err ns ps e : try_fold port_step ps ns = Err e -> exists id, e = MixedReturnPort id.
Proof.
  revert ps. induction ns as [|n ns IH]; intros ps; cbn [try_fold]; [done |].
  rewrite bind_Err. intros [He | (ps' & _ & He)]; [| by eapply IH]. unfold port_step in He.
  destruct (terminal n); [| done]. destruct (_ || _); [| done]. injection He as <-. by eexists.
Qed.

Lemma ports_length g : restores g -> (length (port_ids (nodes g)) <= length (nodes g))%nat.
Proof.
  intros Hg. rewrite <- (length_fmap node_id (nodes g)). apply submseteq_length, NoDup_submseteq.
  - apply sorted_set_NoDup, bs_extend_sorted. constructor.
  - intros id (n & Hn & <- & _)%port_ids_elem. by apply list_elem_of_fmap_2.
Qed.

Definition callable (g : GraphT) : Prop :=
  child_runs g = None /\ (forall n, n ∈ nodes g -> terminal n = true -> pure n) /\
  (exists n, n ∈ nodes g /\ terminal n = true) /\ (forall e, e ∈ entry_nodes g -> e ∉ port_ids (nodes g)) /\
  acyclic g /\ within g (port_ids (nodes g)).

Lemma length_eqb_nil {A} (l : list A) : (length l =? 0)%nat = false <-> exists x, x ∈ l.
Proof. destruct l as [|x l]; simpl; split; [done | by intros (x & ?%not_elem_of_nil) | intros _; exists x; by left | done]. Qed.

Lemma subgraph_new_spec g (Hg : restores g) :
  (forall sub, subgraph_new g = Ok sub <-> callable g /\ sub = mkSubgraph g (port_ids (nodes g))) /\
  subgraph_new g <> Err Panic /\
  (subgraph_new g = Err (Fail CyclicTemplate) -> ~ acyclic g) /\
  (subgraph_new g = Err (Fail TemplateStepLimit) -> ~ within g (port_ids (nodes g))).
Proof.
  pose proof (validate_finite_template_spec g (restores_sorted g Hg) (fun n b => restores_closed g n b Hg) (port_ids (nodes g))) as Hv.
  unfold subgraph_new, callable. destruct (child_runs g) as [policy|] eqn:Ech; simpl; [naive_solver |].
  destruct (try_fold port_step [] (nodes g)) as [ps|e] eqn:Ep; simpl.
  - apply ports_fold_Ok in Ep as [Hpure ->]. fold (port_ids (nodes g)).
    destruct (length (port_ids (nodes g)) =? 0)%nat eqn:El.
    { split_and!; try done. intros sub. split; [done |]. intros [(_ & _ & (n & Hn & Ht) & _) _]. exfalso.
      assert (Hin : node_id n ∈ port_ids (nodes g)) by (apply port_ids_elem; by exists n).
      apply Nat.eqb_eq, nil_length_inv in El. rewrite El in Hin. by apply not_elem_of_nil in Hin. }
    apply length_eqb_nil in El as (p & (n & Hn & _ & Ht)%port_ids_elem).
    destruct (existsb (fun id => bs_contains id (port_ids (nodes g))) (entry_nodes g)) eqn:Ee.
    { split_and!; try done. intros sub. split; [done |]. intros [(_ & _ & _ & He & _) _]. exfalso.
      apply existsb_exists in Ee as (e & Hin%list_elem_of_In & Hc%bs_contains_iff). by apply (He e). }
    assert (He : forall e, e ∈ entry_nodes g -> e ∉ port_ids (nodes g)).
    { intros e Hin Hc. apply not_true_iff_false in Ee. apply Ee, existsb_exists. exists e.
      split; [by apply list_elem_of_In | by apply bs_contains_iff]. }
    destruct Hv as [(-> & Ha & Hw)|[(-> & Hw)|(-> & Ha)]]; simpl; naive_solver.
  - destruct (ports_fold_Err (nodes g) [] e Ep) as (id & ->). split_and!; try done. intros sub. split; [done |].
    intros [(_ & Hpure & _) _]. exfalso.
    assert (try_fold port_step [] (nodes g) = Ok (port_ids (nodes g))) by by apply ports_fold_Ok. congruence.
Qed.
(** Template validation is total and exact.  On a compiled graph it never
    panics and its queue ends; it returns a template exactly when the graph
    declares no child runs, every terminal node is a pure return port, there is
    one, no entry is a port, the graph has no cycle and no path to an
    executable node has more nodes than the step ceiling.  The ports are then
    exactly the terminal nodes.  The two graph errors are reported truly: a
    cycle only when there is one, a step excess only when a path exceeds. *)
Theorem template_exact g (Hg : restores g) :
  (forall sub, subgraph_new g = Ok sub <-> callable g /\ sub = mkSubgraph g (port_ids (nodes g))) /\
  subgraph_new g <> Err Panic /\
  (subgraph_new g = Err (Fail CyclicTemplate) -> ~ acyclic g) /\
  (subgraph_new g = Err (Fail TemplateStepLimit) -> ~ within g (port_ids (nodes g))).
Proof. exact (subgraph_new_spec g Hg). Qed.
End Subgraph.

(** * A two-node template: a body node and its return port *)

Module Sample.
#[local] Instance one_canonical {T} : Canonical T := fun _ => Some [1].
Definition sha (b : bytes) : bytes := b.
Definition body : NodeId := [98].
Definition port : NodeId := [112].
Definition body_node : GraphNode := mkNode body (Some [port]) [] None false.
Definition port_node : GraphNode := mkNode port None [] None true.
Definition sample : CompiledGraph Z Z :=
  mkGraph 1 2 3 4 5 (mkReducerReference 6 [7]) [body] [body_node; port_node] (mkLimits 3 2) None [1].

Lemma sample_restores : Compile.restores sha sample.
Proof. vm_compute. reflexivity. Qed.
End Sample.

Lemma template_exact_witness :
  subgraph_new Sample.sample = Ok (mkSubgraph Sample.sample [Sample.port]) /\ acyclic Sample.sample /\
  within Sample.sample [Sample.port].
Proof.
  assert (Hnew : subgraph_new Sample.sample = Ok (mkSubgraph Sample.sample [Sample.port])) by (vm_compute; reflexivity).
  split; [done |].
  destruct (proj1 (proj1 (template_exact Sample.sha Sample.sample Sample.sample_restores) _) Hnew) as ((_ & _ & _ & _ & Ha & Hw) & _).
  split; [exact Ha | exact Hw].
Defined.
End Templates.
