(* ===== verification/GraphCompositionLaws.v ===== *)
(** Laws of graph composition: lowering never panics, and the composed graph is
    the parent with every call-site replaced by copies of its template, one per
    iteration, joined exactly along the declared edges. *)

From Stdlib Require Import ZArith Lia List.
From stdpp Require Import prelude.
From S2P Require Import Prelude Ordered Json Checkpoint Graph GraphLaws GraphComposition GraphTemplateLaws.

Open Scope Z_scope.

Module Compose.
Import Composition Templates.

(** Where a node of the composed graph comes from: a node of the parent, or a
    template node in one iteration of a call-site. *)
Inductive place := Outer (id : NodeId) | Inner (site : NodeId) (iteration : Z) (id : NodeId).

(** * Programs that may fail but do not panic *)

Definition runs {A} (r : result fault A) (Q : A -> Prop) : Prop :=
  match r with Ok a => Q a | Err (Fail _) => True | Err Panic => False end.

Lemma runs_bind {A B} (r : result fault A) (f : A -> result fault B) (P : A -> Prop) (Q : B -> Prop) :
  runs r P -> (forall a, P a -> runs (f a) Q) -> runs (r ≫= f) Q.
Proof. destruct r as [a|[|e]]; simpl; auto. Qed.

Lemma runs_weaken {A} (r : result fault A) (P Q : A -> Prop) : runs r P -> (forall a, P a -> Q a) -> runs r Q.
Proof. destruct r as [a|[|e]]; simpl; auto. Qed.

Lemma runs_raise {A} (r : result GraphCompositionError A) (Q : A -> Prop) : (forall a, r = Ok a -> Q a) -> runs (raise r) Q.
Proof. destruct r; simpl; auto. Qed.

Lemma runs_index {A} (o : option A) (a : A) (Q : A -> Prop) : o = Some a -> Q a -> runs (index o) Q.
Proof. by intros ->. Qed.

Lemma runs_bind_index {A B} (o : option A) (a : A) (f : A -> result fault B) (Q : B -> Prop) :
  o = Some a -> runs (f a) Q -> runs (index o ≫= f) Q.
Proof. by intros ->. Qed.

Lemma runs_bind_raise {A B} (r : result GraphCompositionError A) (f : A -> result fault B) (Q : B -> Prop) :
  (forall a, r = Ok a -> runs (f a) Q) -> runs (raise r ≫= f) Q.
Proof. intros Hr. by destruct r; simpl; [apply Hr |]. Qed.

Lemma runs_mapM {A B} (f : A -> result fault B) (l : list A) (Q : A -> B -> Prop) :
  (forall x, x ∈ l -> runs (f x) (Q x)) -> runs (mapM f l) (Forall2 Q l).
Proof.
  induction l as [|x l IH]; intros Hf; cbn [mapM]; [constructor |].
  eapply runs_bind; [apply Hf; by left |]. intros y Hy. eapply runs_bind; [apply IH; intros; apply Hf; by right |].
  intros k Hk. by constructor.
Qed.

Lemma runs_fold {A S} (P : list A -> S -> Prop) (f : S -> A -> result fault S) (l : list A) (s : S) :
  P [] s -> (forall pre x suf s, l = pre ++ x :: suf -> P pre s -> runs (f s x) (P (pre ++ [x]))) -> runs (try_fold f s l) (P l).
Proof.
  intros H0 Hstep. assert (Hgen : forall suf pre s, l = pre ++ suf -> P pre s -> runs (try_fold f s suf) (P l)).
  { induction suf as [|x suf IH]; intros pre s0 E Hp; cbn [try_fold].
    - rewrite app_nil_r in E. by subst.
    - eapply runs_bind; [by apply (Hstep pre x suf) |]. intros s1 H1. apply (IH (pre ++ [x])); [by rewrite <- app_assoc | done]. }
  by apply (Hgen l []).
Qed.

Lemma runs_Ok {A} (r : result fault A) (Q : A -> Prop) a : runs r Q -> r = Ok a -> Q a.
Proof. by intros H ->. Qed.

Lemma runs_safe {A} (r : result fault A) (Q : A -> Prop) : runs r Q -> r <> Err Panic.
Proof. by intros H ->. Qed.

(** Nested loops as one loop. *)
Lemma try_fold_concat {E A B S} (f : A -> S -> B -> result E S) (h : A -> list B) (l : list A) (s : S) :
  try_fold (fun s x => try_fold (f x) s (h x)) s l = try_fold (fun s p => f p.1 s p.2) s (concat ((fun x => pair x <$> h x) <$> l)).
Proof.
  revert s. induction l as [|x l IH]; intros s; [done |]. cbn [try_fold]. rewrite fmap_cons. cbn [concat]. rewrite try_fold_app.
  assert (try_fold (f x) s (h x) = try_fold (fun s p => f p.1 s p.2) s (pair x <$> h x)) as <-.
  { generalize (h x) as l'. intros l'. revert s. induction l' as [|y l' IHl]; intros s; [done |]. cbn. by destruct (f x s y); cbn. }
  destruct (try_fold (f x) s (h x)); cbn; [apply IH | done].
Qed.

Lemma try_fold_ext {E A S} (f h : S -> A -> result E S) (l : list A) (s : S) :
  (forall s x, f s x = h s x) -> try_fold f s l = try_fold h s l.
Proof. intros Hf. revert s. induction l as [|x l IH]; intros s; cbn [try_fold]; [done |]. rewrite Hf. by destruct (h s x); cbn. Qed.

Lemma try_fold_prefix {E A S} (P : list A -> S -> Prop) (f : S -> A -> result E S) (l : list A) (s s' : S) :
  P [] s -> (forall pre x suf s s', l = pre ++ x :: suf -> P pre s -> f s x = Ok s' -> P (pre ++ [x]) s') ->
  try_fold f s l = Ok s' -> P l s'.
Proof.
  intros H0 Hstep. assert (Hgen : forall suf pre s, l = pre ++ suf -> P pre s -> try_fold f s suf = Ok s' -> P l s').
  { induction suf as [|x suf IH]; intros pre s0 E0 Hp Hf; cbn [try_fold] in Hf.
    - rewrite app_nil_r in E0. injection Hf as ->. by subst.
    - apply bind_Ok in Hf as (s1 & H1 & Hf). apply (IH (pre ++ [x]) s1); [by rewrite <- app_assoc | by eapply Hstep | done]. }
  by apply (Hgen l []).
Qed.

Lemma find_ext {A} (f h : A -> bool) (l : list A) : (forall x, f x = h x) -> List.find f l = List.find h l.
Proof. intros E. induction l as [|x l IH]; simpl; [done |]. by rewrite E, IH. Qed.

Lemma NoDup_key_index {A K} (f : A -> K) (l : list A) i j x y :
  NoDup (f <$> l) -> l !! i = Some x -> l !! j = Some y -> f x = f y -> i = j /\ x = y.
Proof.
  intros Hnd Hx Hy E. assert (i = j) as ->.
  { apply (NoDup_lookup (f <$> l) i j (f x)); [done | rewrite list_lookup_fmap; by rewrite Hx |].
    rewrite list_lookup_fmap, Hy. simpl. by rewrite E. }
  split; [done | congruence].
Qed.

Lemma NoDup_key_inj {A K} (f : A -> K) (l : list A) x y : NoDup (f <$> l) -> x ∈ l -> y ∈ l -> f x = f y -> x = y.
Proof. intros Hnd (i & Hi)%list_elem_of_lookup (j & Hj)%list_elem_of_lookup E. by eapply NoDup_key_index. Qed.

(** * Ready sets, routes and nodes *)

Lemma ready_fold_elem ids unique r :
  ksorted (fun x => x) unique -> try_fold ready_insert unique ids = Ok r -> ksorted (fun x => x) r /\ forall x, x ∈ r <-> x ∈ unique \/ x ∈ ids.
Proof.
  revert unique. induction ids as [|id ids IH]; intros unique Hs; cbn [try_fold].
  - intros [= <-]. split; [done |]. set_solver.
  - intros (u & Hu & Hr)%bind_Ok. unfold ready_insert in Hu. destruct (READY_MAX_LEN <? _); [done |]. injection Hu as <-.
    apply IH in Hr as [? Hx]; [| by apply bs_insert_sorted]. split; [done |]. intros x. rewrite Hx, bs_insert_elem. set_solver.
Qed.

Lemma ready_Ok ids r : ready ids = Ok r -> ready_wf r /\ forall x, x ∈ r <-> x ∈ ids.
Proof.
  unfold ready. intros Hr. simp_ok. destruct (ready_fold_elem ids [] _ ltac:(constructor) ltac:(eassumption)) as [_ Hx].
  match goal with H : ready_try_new _ = Ok _ |- _ => apply ready_try_new_Ok in H as (_ & _ & Hwf & Hp) end.
  split; [done |]. intros y. rewrite Hp, Hx. set_solver.
Qed.

Lemma routes_fold_values rs vs known st : try_fold routes_step (vs, known) rs = Ok st -> st.1 = vs ++ rs.
Proof.
  revert vs known. induction rs as [|r rs IH]; intros vs known; cbn [try_fold].
  - intros [= <-]. by rewrite app_nil_r.
  - intros (u & Hu & Hr)%bind_Ok. unfold routes_step in Hu. destruct (_ =? _); [done |]. destruct (bs_contains _ _); [done |].
    injection Hu as <-. apply IH in Hr as ->. by rewrite <- app_assoc.
Qed.

Lemma routes_try_new_perm rs rs' : routes_try_new rs = Ok rs' -> rs' ≡ₚ rs.
Proof.
  unfold routes_try_new. intros Hr. apply bind_Ok in Hr as ([vs known] & Hf%routes_fold_values & Hr). simpl in *. injection Hr as <-.
  rewrite sort_by_key_perm. by subst.
Qed.

Lemma node_new_Ok id cont rs wait term m : node_new id cont rs wait term = Ok m -> m = mkNode id cont rs wait term.
Proof. unfold node_new. repeat (destruct (is_some_empty _); [done |]). destruct (_ && _); [done |]. by intros [= <-]. Qed.

(** How one node is lowered: [image] gives the targets of each successor and
    [rename] the identity of each route. *)
Section Remap.
Variable image : NodeId -> NodeId -> Prop.
Variable rename : RouteId -> RouteId -> Prop.

Definition set_image (s s' : ReadyNodes) : Prop := forall x, x ∈ s' <-> exists b, b ∈ s /\ image b x.

Definition option_image (o o' : option ReadyNodes) : Prop :=
  match o, o' with None, None => True | Some s, Some s' => set_image s s' | _, _ => False end.

Definition route_image (r r' : GraphRoute) : Prop := rename (route_id r) (route_id r') /\ set_image (successors r) (successors r').

Definition node_image (n m : GraphNode) : Prop :=
  option_image (continue_to n) (continue_to m) /\ (exists rs, Forall2 route_image (routes n) rs /\ routes m ≡ₚ rs) /\
  option_image (wait_to n) (wait_to m) /\ terminal m = terminal n.

Variable redirect : NodeId -> result fault (list NodeId).
Definition redirects (b : NodeId) : Prop := runs (redirect b) (fun l => forall x, x ∈ l <-> image b x).

Lemma remap_runs s : (forall b, b ∈ s -> redirects b) -> runs (remap redirect s) (set_image s).
Proof.
  intros Hs. unfold remap. eapply runs_bind; [by apply runs_mapM, Hs |]. intros ls Hls. apply runs_raise. intros r [_ Hr]%ready_Ok x.
  rewrite Hr, elem_of_concat. clear -Hls. induction Hls as [|b l s ls Hb Hls IH].
  - split; [intros (l & ?%not_elem_of_nil & _) | intros (b & ?%not_elem_of_nil & _)]; done.
  - setoid_rewrite elem_of_cons. split.
    + intros (l' & [-> | Hl'] & Hx); [exists b; split; [by left | by apply Hb] |].
      destruct (proj1 IH) as (b' & ? & ?); [by exists l' |]. exists b'. auto.
    + intros (b' & [-> | Hb'] & Hx); [exists l; split; [by left | by apply Hb] |].
      destruct (proj2 IH) as (l' & ? & ?); [by exists b' |]. exists l'. auto.
Qed.

Lemma remap_option_runs o : (forall s b, o = Some s -> b ∈ s -> redirects b) -> runs (remap_option redirect o) (option_image o).
Proof.
  intros Ho. destruct o as [s|]; simpl; [| done]. eapply runs_bind; [apply remap_runs; intros b; by apply Ho |]. by intros s' Hs'.
Qed.

Variable ids : option (list (RouteId * RouteId)).

Lemma remap_node_runs n id :
  (forall b, b ∈ all_successors n -> redirects b) ->
  (forall r, r ∈ routes n -> match ids with
     | None => rename (route_id r) (route_id r)
     | Some m => exists x, bt_get (route_id r) m = Some x /\ rename (route_id r) x
     end) ->
  runs (remap_node n id redirect ids) (fun m => node_id m = id /\ node_image n m).
Proof.
  intros Hred Hids. assert (Hset : forall s b, s ∈ successor_sets n -> b ∈ s -> redirects b).
  { intros s b Hs Hb. apply Hred. apply elem_of_concat. by exists s. }
  unfold successor_sets in Hset. unfold remap_node.
  eapply runs_bind; [apply (runs_mapM _ _ route_image) |].
  { intros r Hr. unfold remap_route. apply (runs_bind _ _ (fun x => rename (route_id r) x)).
    - specialize (Hids r Hr). destruct ids as [m|]; [| done]. destruct Hids as (x & Hx & ?). by eapply runs_index.
    - intros x Hx. eapply runs_bind; [apply remap_runs; intros b; apply Hset |].
      + apply elem_of_app. right. apply elem_of_app. left. by apply list_elem_of_fmap_2.
      + intros s Hs. apply runs_raise. intros r' Hr'. apply map_err_Ok in Hr'. unfold route_new in Hr'.
        destruct (_ =? _)%nat; [done |]. injection Hr' as <-. by split. }
  intros rs Hrs. eapply runs_bind; [apply remap_option_runs; intros s b Es; apply Hset; rewrite Es; set_solver |]. intros cont Hcont.
  eapply runs_bind; [apply runs_raise; intros rs' Hrs'; apply map_err_Ok, routes_try_new_perm in Hrs'; exact Hrs' |]. intros rs' Hp.
  eapply runs_bind; [apply remap_option_runs; intros s b Es; apply Hset; rewrite Es; set_solver |]. intros wait Hwait.
  apply runs_raise. intros m Hm. apply map_err_Ok, node_new_Ok in Hm as ->. simpl. split; [done |]. split_and!; try done.
  by exists rs.
Qed.
End Remap.

(** * Call-sites *)

Section Calls.
Context {Capability Schema : Type} `{EqDecision Capability, EqDecision Schema}.
Context `{Canonical (NodeIdentityWire (Capability := Capability) (Schema := Schema)), Canonical RouteIdentityWire,
          Canonical (GraphDefinitionDigestWire Capability Schema)}.
Variable sha256 : bytes -> bytes.
Local Abbreviation GraphT := (CompiledGraph Capability Schema).
Local Abbreviation CallT := (GraphSubgraphCall Capability Schema).
Local Abbreviation restores := (Compile.restores sha256).
Implicit Types (parent : GraphT) (c : CallT) (calls : list CallT) (n m : GraphNode).

(** Templates and calls are built by their constructors only. *)
Definition built (sub : SharedStateSubgraph Capability Schema) : Prop :=
  restores (template sub) /\ subgraph_new (template sub) = Ok sub.

Inductive constructed : CallT -> Prop :=
| constructed_once id sub : built sub -> constructed (once id sub)
| constructed_loop id sub port iterations c :
    built sub -> is_u16 iterations -> bounded_loop id sub port iterations = Ok c -> constructed c
| constructed_routes c rs c' : constructed c -> with_return_routes c rs = Ok c' -> constructed c'.

Lemma constructed_facts c : constructed c -> built (subgraph c) /\ 1 <= maximum_iterations c <= 1024.
Proof.
  induction 1 as [id sub Hb|id sub port iterations c Hb Hu Hc|c rs c' _ IH Hc]; [done | |].
  - unfold bounded_loop in Hc. destruct (_ || _) eqn:Ei in Hc; [done |]. destruct (negb _); [done |]. injection Hc as <-. simpl.
    bools. change MAX_NODES with 1024 in *. unfold in_u in Hu. split; [done | lia].
  - unfold with_return_routes in Hc. apply bind_Ok in Hc as ([bs used] & _ & Hc). destruct (negb _); [done |]. by injection Hc as <-.
Qed.

Lemma built_facts sub : built sub -> ports sub = port_ids (nodes (template sub)) /\ callable (template sub).
Proof.
  intros [Hg Hn]. apply (proj1 (subgraph_new_spec sha256 (template sub) Hg)) in Hn as [? E]. split; [| done].
  by rewrite E at 1.
Qed.

(** The route a port returns through. *)
Definition return_route c (port : NodeId) : RouteId := default port (bt_get port (return_routes c)).

Lemma matches_return_iff c port r : matches_return c port r = bool_decide (return_route c port = r).
Proof. unfold matches_return, return_route. by destruct (bt_get port (return_routes c)). Qed.

Lemma validate_call_Ok parent c :
  validate_call parent c = Ok tt ->
  exists n, graph_node parent (call_site c) = Some n /\ length (routes n) = length (ports (subgraph c)) /\
    (forall r, r ∈ routes n -> exists p, p ∈ ports (subgraph c) /\ return_route c p = route_id r) /\
    continue_to n = None /\ wait_to n = None /\ terminal n = false.
Proof.
  unfold validate_call. intros Hv. apply bind_Ok in Hv as (n & Hn%ok_or_Ok & Hv). cbv zeta in Hv.
  destruct (_ || _) eqn:Er in Hv; [done |]. clear Hv. exists n. split; [done |].
  repeat match goal with H : (_ || _) = false |- _ => apply orb_false_iff in H as [? ?] end.
  destruct (continue_to n), (wait_to n), (terminal n); try done. bools.
  match goal with H : (_ =? _)%nat = true |- _ => apply Nat.eqb_eq in H end. split_and!; try done.
  intros r Hr. match goal with H : existsb _ _ = false |- _ => apply not_true_iff_false in H; rewrite existsb_exists in H; rename H into Hex end.
  destruct (existsb (fun id => matches_return c id (route_id r)) (ports (subgraph c))) eqn:E.
  - apply existsb_exists in E as (p & Hp%list_elem_of_In & Hm). rewrite matches_return_iff in Hm. bools. by exists p.
  - exfalso. apply Hex. exists r. split; [by apply list_elem_of_In | by rewrite E].
Qed.

(** Every port has exactly one route, and distinct ports have distinct ones. *)
Lemma return_routes_bijective parent c n :
  restores parent -> validate_call parent c = Ok tt -> graph_node parent (call_site c) = Some n ->
  route_id <$> routes n ≡ₚ return_route c <$> ports (subgraph c).
Proof.
  intros Hp (n' & Hn' & Hlen & Hall & _)%validate_call_Ok Hn. assert (n' = n) as -> by congruence.
  apply submseteq_length_Permutation; [| rewrite !length_fmap; lia]. apply NoDup_submseteq.
  - destruct (Compile.restores_facts _ _ Hp) as [((_ & _ & _ & Hr & _) & _) Hs].
    assert (Hin : n ∈ nodes parent). { apply (graph_node_iff parent Hs) in Hn. tauto. }
    unfold Compile.all_routes in Hr. apply list_elem_of_split in Hin as (l1 & l2 & E). rewrite E, fmap_app, fmap_cons in Hr.
    rewrite concat_app in Hr. apply NoDup_app in Hr as (_ & _ & Hr). cbn [concat] in Hr. by apply NoDup_app in Hr as (? & _).
  - intros x (r & -> & Hr)%list_elem_of_fmap. destruct (Hall r Hr) as (p & Hp' & <-). by apply list_elem_of_fmap_2.
Qed.

Lemma collect_calls_runs parent calls :
  restores parent -> Forall constructed calls ->
  runs (collect_calls parent calls) (fun st => keyed call_site st.1 /\ (forall c, c ∈ into_values st.1 <-> c ∈ calls) /\
    NoDup (call_site <$> calls) /\ forall c, c ∈ calls -> validate_call parent c = Ok tt).
Proof.
  intros Hpar Hcs. rewrite Forall_forall in Hcs.
  eapply runs_weaken with (P := fun st => keyed call_site st.1 /\ (forall c, c ∈ into_values st.1 <-> c ∈ calls) /\
    NoDup (call_site <$> calls) /\ (forall c, c ∈ calls -> validate_call parent c = Ok tt) /\
    Z.of_nat (length (nodes parent)) - Z.of_nat (length calls) <= st.2); [| tauto].
  apply (runs_fold (fun pre st => keyed call_site st.1 /\ (forall c, c ∈ into_values st.1 <-> c ∈ pre) /\
    NoDup (call_site <$> pre) /\ (forall c, c ∈ pre -> validate_call parent c = Ok tt) /\
    Z.of_nat (length (nodes parent)) - Z.of_nat (length pre) <= st.2)).
  { split_and!; [apply keyed_nil | done | constructor | by intros c ?%not_elem_of_nil | simpl; lia]. }
  intros pre c suf [by_id count] E (Hk & Hin & Hnd & Hv & Hcount). simpl in *. unfold collect_call.
  destruct (bt_get (call_site c) by_id) as [c0|] eqn:Eg; simpl; [done |].
  apply runs_bind_raise. intros [] Hvc.
  assert (Hc : constructed c) by (apply Hcs; rewrite E; set_solver). apply constructed_facts in Hc as [Hb Hmax].
  pose proof (built_facts _ Hb) as [Hports _]. pose proof (ports_length sha256 (template (subgraph c)) (proj1 Hb)) as Hpl.
  rewrite <- Hports in Hpl. set (body := Z.of_nat (length (nodes (template (subgraph c)))) - Z.of_nat (length (ports (subgraph c)))).
  apply (runs_bind_index _ body); [unfold body_count; apply checked_sub_Some; unfold body; lia |].
  assert (Hnd' : NoDup (call_site <$> pre ++ [c])).
  { rewrite fmap_app. apply NoDup_app. split_and!; [done | | apply NoDup_singleton]. intros x Hx ->%list_elem_of_singleton.
    apply (keyed_get_None call_site) in Eg; [| done]. apply Eg. apply list_elem_of_fmap in Hx as (c0 & -> & Hc0).
    by apply list_elem_of_fmap_2, Hin. }
  assert (Hv' : forall c0, c0 ∈ pre ++ [c] -> validate_call parent c0 = Ok tt).
  { intros c0 [? | ->%list_elem_of_singleton]%elem_of_app; [by apply Hv | done]. }
  assert (Hlen : (length (pre ++ [c]) <= length (nodes parent))%nat).
  { rewrite <- (length_fmap call_site), <- (length_fmap node_id (nodes parent)). apply submseteq_length, NoDup_submseteq; [done |].
    intros x (c0 & -> & Hc0)%list_elem_of_fmap. destruct (validate_call_Ok parent c0 (Hv' c0 Hc0)) as (n & Hn & _).
    apply (graph_node_iff parent (restores_sorted sha256 parent Hpar)) in Hn as [Hn <-]. by apply list_elem_of_fmap_2. }
  rewrite length_app in *. simpl in Hlen.
  apply (runs_bind_index _ (count - 1)); [apply checked_sub_Some; lia |]. cbv zeta. destruct (MAX_NODES <? _); [done |].
  assert (0 <= body * maximum_iterations c) by (unfold body; nia). simpl. split_and!.
  - by apply keyed_insert.
  - intros c0. rewrite keyed_insert_elem by done. rewrite Hin. set_solver.
  - done.
  - done.
  - lia.
Qed.

(** * Lowered identities *)

Definition body c : list GraphNode := List.filter (fun n => negb (is_port c (node_id n))) (nodes (template (subgraph c))).

Lemma body_iff c n : n ∈ body c <-> n ∈ nodes (template (subgraph c)) /\ node_id n ∉ ports (subgraph c).
Proof.
  unfold body, is_port. rewrite list_elem_of_In, filter_In, <- list_elem_of_In, negb_true_iff, bs_contains_false. done.
Qed.

Local Abbreviation Item := (CallT * (Z * (nat * GraphNode)))%type.
Definition items calls : list Item :=
  concat ((fun c => pair c <$> concat ((fun i => pair i <$> enumerate (nodes (template (subgraph c)))) <$> iterations c)) <$> calls).

Lemma iterations_iff c i : i ∈ iterations c <-> 0 <= i < maximum_iterations c.
Proof.
  unfold iterations. rewrite list_elem_of_fmap. setoid_rewrite elem_of_seq. split; [intros (k & -> & ?); lia |].
  intros Hi. exists (Z.to_nat i). lia.
Qed.

Lemma enumerate_iff {A} (l : list A) k x : (k, x) ∈ enumerate l <-> l !! k = Some x.
Proof.
  unfold enumerate. rewrite list_elem_of_lookup. setoid_rewrite lookup_zip_Some. split.
  - intros (j & [-> _]%lookup_seq & ?). done.
  - intros Hx. exists k. split; [| done]. apply lookup_seq. split; [done |]. by eapply lookup_lt_Some.
Qed.

Lemma items_iff calls c i o n :
  (c, (i, (o, n))) ∈ items calls <-> c ∈ calls /\ 0 <= i < maximum_iterations c /\ nodes (template (subgraph c)) !! o = Some n.
Proof.
  unfold items. rewrite elem_of_concat. setoid_rewrite list_elem_of_fmap. rewrite <- iterations_iff, <- enumerate_iff. split.
  - intros (l & (c' & -> & Hc) & Hin). apply list_elem_of_fmap in Hin as (q & [= -> <-] & Hq).
    apply elem_of_concat in Hq as (l & Hl & Hq). apply list_elem_of_fmap in Hl as (i' & -> & Hi).
    apply list_elem_of_fmap in Hq as (q & [= -> <-] & Hq). done.
  - intros (Hc & Hi & Ho). eexists. split; [by exists c |]. apply list_elem_of_fmap_2, elem_of_concat. eexists.
    split; [by apply list_elem_of_fmap_2 |]. by apply list_elem_of_fmap_2.
Qed.

Definition item_key (it : Item) : NodeId * Z * NodeId := let '(c, (i, (_, n))) := it in (call_site c, i, node_id n).
Definition lower_item parent (it : Item) : result GraphCompositionError (NodeId * GraphNodeSource Capability Schema) :=
  let '(c, (i, (o, n))) := it in lower_identity sha256 parent c n i o.
Definition live (it : Item) : Prop := let '(c, (i, (o, n))) := it in node_id n ∉ ports (subgraph c).

Lemma lower_all_items parent calls :
  lower_all sha256 parent calls =
    try_fold (fun st (it : Item) => lower_node sha256 parent it.1 it.2.1 st it.2.2) ([], []) (items calls).
Proof.
  unfold lower_all, items. rewrite <- (try_fold_concat (fun c st q => lower_node sha256 parent c q.1 st q.2)).
  apply try_fold_ext. intros st c. apply (try_fold_concat (fun i st q => lower_node sha256 parent c i st q)).
Qed.

Definition source_key (src : GraphNodeSource Capability Schema) : NodeId * Z * NodeId :=
  (source_call_site src, source_iteration src, source_node_id src).

Definition source_of c (i : Z) n (src : GraphNodeSource Capability Schema) : Prop :=
  source_graph src = reference (template (subgraph c)) /\ source_key src = (call_site c, i, node_id n) /\
  forall r, r ∈ routes n -> is_Some (bt_get (route_id r) (source_routes src)).

Lemma lower_routes_Ok x rs (m m' : list (RouteId * RouteId)) :
  ksorted fst m -> try_fold (lower_route sha256 x) m rs = Ok m' ->
  ksorted fst m' /\ (forall k, is_Some (bt_get k m) -> is_Some (bt_get k m')) /\ forall r, r ∈ rs -> is_Some (bt_get (route_id r) m').
Proof.
  revert m. induction rs as [|r rs IH]; intros m Hm; cbn [try_fold].
  - intros [= <-]. split_and!; try done. by intros r ?%not_elem_of_nil.
  - intros (m1 & Hm1 & Hf)%bind_Ok. unfold lower_route in Hm1. simp_ok. subst m1.
    destruct (IH _ (bt_insert_sorted _ _ _ Hm) Hf) as (Hs & Hk & Hr). split_and!; [done | |].
    + intros k Hk'. apply Hk. rewrite bt_get_insert by done. by destruct (eqb_cmp _ _).
    + intros r' [-> | Hr']%elem_of_cons; [| by apply Hr]. apply Hk. rewrite bt_get_insert by done.
      by rewrite (proj2 (eqb_cmp_spec _ _) eq_refl).
Qed.

Lemma lower_identity_Ok parent c n i o x src :
  lower_identity sha256 parent c n i o = Ok (x, src) -> source_of c i n src.
Proof.
  unfold lower_identity. intros Hl. cbv zeta in Hl. open_guards Hl. injection Hl as <- <-. split_and!; [done | done |]. simpl.
  by eapply (lower_routes_Ok _ _ [] _ ltac:(constructor)).
Qed.

Record lowered parent calls (sources : list (NodeId * GraphNodeSource Capability Schema)) (identities : Identities) : Prop := {
  lowered_sources : ksorted fst sources;
  lowered_identities : ksorted fst identities;
  lowered_at : forall k x, bt_get k identities = Some x ->
    exists it src, it ∈ items calls /\ item_key it = k /\ live it /\ lower_item parent it = Ok (x, src) /\
      bt_get x sources = Some src /\ graph_node parent x = None;
  lowered_back : forall x src, bt_get x sources = Some src -> bt_get (source_key src) identities = Some x
}.

Lemma lower_item_key parent it x src : lower_item parent it = Ok (x, src) -> source_key src = item_key it.
Proof. destruct it as (c & i & o & n). intros (_ & E & _)%lower_identity_Ok. done. Qed.

Lemma item_key_inj calls it it' :
  NoDup (call_site <$> calls) -> Forall constructed calls -> it ∈ items calls -> it' ∈ items calls -> item_key it = item_key it' -> it = it'.
Proof.
  destruct it as (c & i & o & n), it' as (c' & i' & o' & n'). intros Hnd Hcs (Hc & _ & Ho)%items_iff (Hc' & _ & Ho')%items_iff E.
  injection E as Es -> En. assert (c' = c) as -> by (by eapply (NoDup_key_inj call_site calls)).
  rewrite Forall_forall in Hcs. destruct (constructed_facts c (Hcs c Hc)) as [[Hg _] _].
  destruct (NoDup_key_index node_id (nodes (template (subgraph c))) o o' n n') as [-> ->]; try done.
  by apply ksorted_keys_NoDup, restores_sorted with sha256.
Qed.

Lemma lower_all_spec parent calls sources identities :
  NoDup (call_site <$> calls) -> Forall constructed calls -> lower_all sha256 parent calls = Ok (sources, identities) ->
  lowered parent calls sources identities /\
  forall it, it ∈ items calls -> live it -> is_Some (bt_get (item_key it) identities).
Proof.
  intros Hnd Hcs. rewrite lower_all_items. intros Hf.
  change sources with ((sources, identities).1). change identities with ((sources, identities).2) at 2 3.
  revert Hf. apply (try_fold_prefix (fun pre st => lowered parent calls st.1 st.2 /\
    forall it, it ∈ pre -> live it -> is_Some (bt_get (item_key it) st.2))).
  { split; [split; by constructor || done | by intros it ?%not_elem_of_nil]. }
  clear sources identities. intros pre it suf [sources identities] st' E [Hl Hcov] Hstep. destruct it as (c & i & o & n). simpl in *.
  unfold lower_node in Hstep. destruct (is_port c (node_id n)) eqn:Ep.
  { injection Hstep as <-. split; [done |]. intros it [Hin | ->%list_elem_of_singleton]%elem_of_app Hlive; [by apply Hcov |].
    simpl in Hlive. unfold is_port in Ep. by apply bs_contains_iff in Ep. }
  apply bs_contains_false in Ep. apply bind_Ok in Hstep as ([x src] & Hlow & Hstep).
  destruct (graph_node parent x) eqn:Egn; [done |]. destruct (bt_get x sources) eqn:Ebs; [done |]. simpl in Hstep. injection Hstep as <-.
  set (it := (c, (i, (o, n)))) in *. assert (Hit : it ∈ items calls) by (rewrite E; set_solver).
  destruct Hl as [Hss His Hat Hback]. simpl.
  assert (Hfresh : bt_get (item_key it) identities = None).
  { destruct (bt_get (item_key it) identities) as [y|] eqn:Ey; [| done]. exfalso.
    destruct (Hat _ _ Ey) as (it' & src' & Hin' & Ek & _ & Hlow' & Hg & _).
    assert (it' = it) as -> by (by eapply item_key_inj). assert (lower_item parent it = Ok (x, src)) by done. congruence. }
  assert (Hkey : source_key src = item_key it) by (by apply (lower_item_key parent it x)).
  split.
  - split; [by apply bt_insert_sorted | by apply bt_insert_sorted | |].
    + intros k y. rewrite bt_get_insert by done. destruct (eqb_cmp _ k) eqn:Ek.
      * apply eqb_cmp_spec in Ek as <-. intros [= <-]. exists it, src. split_and!; try done. simpl.
        rewrite bt_get_insert by done. by rewrite (proj2 (eqb_cmp_spec x x) eq_refl).
      * intros (it' & src' & Hin' & Ek' & Hlive & Hlow' & Hg & Hp)%Hat. exists it', src'. split_and!; try done.
        rewrite bt_get_insert by done. destruct (eqb_cmp x y) eqn:Exy; [| done]. apply eqb_cmp_spec in Exy as ->. congruence.
    + intros y src'. rewrite bt_get_insert by done. destruct (eqb_cmp x y) eqn:Exy.
      * apply eqb_cmp_spec in Exy as <-. intros [= <-]. rewrite Hkey. rewrite bt_get_insert by done.
        by rewrite (proj2 (eqb_cmp_spec _ _) eq_refl).
      * intros Hy%Hback. rewrite bt_get_insert by done. destruct (eqb_cmp (call_site c, i, node_id n) (source_key src')) eqn:Ek; [| done].
        apply eqb_cmp_spec in Ek. change (call_site c, i, node_id n) with (item_key it) in Ek. congruence.
  - intros it' Hin' Hlive. rewrite bt_get_insert by done. destruct (eqb_cmp (call_site c, i, node_id n) (item_key it')) eqn:Ek; [by eexists |].
    apply elem_of_app in Hin' as [Hin' | ->%list_elem_of_singleton]; [by apply Hcov |].
    change (call_site c, i, node_id n) with (item_key it) in Ek. by rewrite (proj2 (eqb_cmp_spec _ _) eq_refl) in Ek.
Qed.

(** * The abstract expansion *)

Definition call_at calls (site : NodeId) : option CallT := List.find (fun c => bool_decide (call_site c = site)) calls.

Lemma call_at_iff calls site c : NoDup (call_site <$> calls) -> call_at calls site = Some c <-> c ∈ calls /\ call_site c = site.
Proof.
  intros Hnd. unfold call_at. split.
  - intros [Hin Hd]%find_some. bools. split; [by apply list_elem_of_In | done].
  - intros [Hin <-]. destruct (List.find _ calls) as [c'|] eqn:E.
    + apply find_some in E as [Hin' Hd]. bools. f_equal. eapply (NoDup_key_inj call_site calls); [done | by apply list_elem_of_In | done..].
    + apply (find_none _ _ E) in Hin || (apply list_elem_of_In in Hin; apply (find_none _ _ E) in Hin). bools. done.
Qed.

Lemma call_at_None calls site : call_at calls site = None <-> site ∉ call_site <$> calls.
Proof.
  unfold call_at. split.
  - intros E (c & -> & Hc)%list_elem_of_fmap. apply list_elem_of_In, (find_none _ _ E) in Hc. bools. done.
  - intros Hn. destruct (List.find _ calls) as [c|] eqn:E; [| done]. apply find_some in E as [Hc Hd]. bools. subst.
    destruct Hn. by apply list_elem_of_fmap_2, list_elem_of_In.
Qed.

(** The targets of a successor: a call-site stands for its template's entries
    in the first iteration, a repeated port for the entries of the next one,
    and any other port for the targets of the parent's return route. *)
Definition outer_targets calls (id : NodeId) : list place :=
  match call_at calls id with
  | Some c => Inner id 0 <$> entry_nodes (template (subgraph c))
  | None => [Outer id]
  end.

Definition return_targets parent calls c (port : NodeId) : list place :=
  match graph_node parent (call_site c) ≫= (fun n => List.find (fun r => bool_decide (return_route c port = route_id r)) (routes n)) with
  | Some r => concat (outer_targets calls <$> successors r)
  | None => []
  end.

Definition inner_targets parent calls c (i : Z) (id : NodeId) : list place :=
  if decide (id ∉ ports (subgraph c)) then [Inner (call_site c) i id] else
  if decide (repeat_port c = Some id /\ i + 1 < maximum_iterations c)
  then Inner (call_site c) (i + 1) <$> entry_nodes (template (subgraph c)) else return_targets parent calls c id.

Definition targets parent calls (pl : place) (id : NodeId) : list place :=
  match pl with
  | Outer _ => outer_targets calls id
  | Inner site i _ => match call_at calls site with Some c => inner_targets parent calls c i id | None => [] end
  end.

(** The places of the expansion, with the node each one runs. *)
Inductive at_place parent calls : place -> GraphNode -> Prop :=
| at_outer n : n ∈ nodes parent -> node_id n ∉ call_site <$> calls -> at_place parent calls (Outer (node_id n)) n
| at_inner c i n : c ∈ calls -> 0 <= i < maximum_iterations c -> n ∈ body c ->
    at_place parent calls (Inner (call_site c) i (node_id n)) n.

(** The lowering [m] of the node [n] of a place, for a naming of the places:
    the same outcomes, led to the targets of their successors, with the route
    identities of the source map inside templates and its own outside. *)
Definition renames (sources : list (NodeId * GraphNodeSource Capability Schema)) (nm : place -> NodeId) (pl : place) (r r' : RouteId) : Prop :=
  match pl with
  | Outer _ => r' = r
  | Inner _ _ _ => exists src, bt_get (nm pl) sources = Some src /\ source_route_id src r = Some r'
  end.

Definition lowered_as parent calls (sources : list (NodeId * GraphNodeSource Capability Schema)) (nm : place -> NodeId) (pl : place) n m : Prop :=
  node_id m = nm pl /\
  node_image (fun id x => exists pl', pl' ∈ targets parent calls pl id /\ nm pl' = x) (renames sources nm pl) n m.

(** The parent node a place stands in for. *)
Definition home (pl : place) : NodeId := match pl with Outer id => id | Inner site _ _ => site end.

Section Places.
Variables (parent : GraphT) (calls : list CallT) (by_id : list (NodeId * CallT)).
Variables (sources : list (NodeId * GraphNodeSource Capability Schema)) (identities : Identities).
Hypothesis Hpar : restores parent.
Hypothesis Hcs : forall c, c ∈ calls -> constructed c.
Hypothesis Hnd : NoDup (call_site <$> calls).
Hypothesis Hval : forall c, c ∈ calls -> validate_call parent c = Ok tt.
Hypothesis Hkeyed : keyed call_site by_id.
Hypothesis Hby : forall c, c ∈ into_values by_id <-> c ∈ calls.
Hypothesis Hlow : lower_all sha256 parent (into_values by_id) = Ok (sources, identities).

Lemma by_id_call_at site : bt_get site by_id = call_at calls site.
Proof.
  apply option_eq. intros c. rewrite call_at_iff by done. rewrite bt_get_elem by apply Hkeyed. rewrite <- Hby.
  rewrite (keyed_elem call_site) by done. split.
  - intros Hin. pose proof (proj2 Hkeyed _ _ Hin) as ->. done.
  - by intros [? <-].
Qed.

Definition name (pl : place) : NodeId :=
  match pl with Outer id => id | Inner site i id => default [] (bt_get (site, i, id) identities) end.

Lemma values_ok : NoDup (call_site <$> into_values by_id) /\ Forall constructed (into_values by_id).
Proof.
  split; [by apply ksorted_keys_NoDup, keyed_values_sorted |]. apply Forall_forall. intros c Hc. by apply Hcs, Hby.
Qed.

Lemma named c i n :
  c ∈ calls -> 0 <= i < maximum_iterations c -> n ∈ body c ->
  exists x src, bt_get (call_site c, i, node_id n) identities = Some x /\ name (Inner (call_site c) i (node_id n)) = x /\
    bt_get x sources = Some src /\ graph_node parent x = None /\ source_of c i n src.
Proof.
  intros Hc Hi [Hn Hp]%body_iff. destruct values_ok as [Hnd' Hcs'].
  destruct (lower_all_spec parent _ _ _ Hnd' Hcs' Hlow) as [[_ _ Hat _] Hcov].
  apply list_elem_of_lookup in Hn as (o & Ho). set (it := (c, (i, (o, n)))).
  assert (Hit : it ∈ items (into_values by_id)) by (apply items_iff; split_and!; [by apply Hby | lia.. | done]).
  destruct (Hcov it Hit Hp) as (x & Hx). destruct (Hat _ _ Hx) as (it' & src & Hit' & Ek & _ & Hl & Hs & Hg).
  assert (it' = it) as -> by (by eapply item_key_inj). exists x, src. simpl in Hx. split_and!; try done.
  - simpl. by rewrite Hx.
  - exact (lower_identity_Ok _ _ _ _ _ _ _ Hl).
Qed.

Lemma sources_named x src :
  bt_get x sources = Some src ->
  exists c i n, c ∈ calls /\ 0 <= i < maximum_iterations c /\ n ∈ body c /\ name (Inner (call_site c) i (node_id n)) = x /\ source_of c i n src.
Proof.
  intros Hx. destruct values_ok as [Hnd' Hcs']. destruct (lower_all_spec parent _ _ _ Hnd' Hcs' Hlow) as [[_ _ Hat Hback] _].
  pose proof (Hback _ _ Hx) as Hk. destruct (Hat _ _ Hk) as ((c & i & o & n) & src' & (Hc & Hi & Ho)%items_iff & Ek & Hlive & Hl & Hs & _).
  assert (src' = src) as -> by congruence. exists c, i, n. split_and!; try (done || lia).
  - by apply Hby.
  - apply body_iff. split; [by eapply list_elem_of_lookup_2 | done].
  - simpl in *. rewrite Ek. by rewrite Hk.
  - by eapply lower_identity_Ok.
Qed.

Lemma name_inj pl pl' n n' : at_place parent calls pl n -> at_place parent calls pl' n' -> name pl = name pl' -> pl = pl'.
Proof.
  assert (Houter : forall (n : GraphNode) c i n', n ∈ nodes parent -> c ∈ calls -> 0 <= i < maximum_iterations c -> n' ∈ body c ->
    node_id n <> name (Inner (call_site c) i (node_id n'))).
  { intros n0 c i n0' Hn Hc Hi Hb E. destruct (named c i n0' Hc Hi Hb) as (x & src & _ & Ex & _ & Hg & _).
    assert (graph_node parent x = Some n0); [| congruence]. apply graph_node_iff; [by apply restores_sorted with sha256 |].
    split; [done |]. congruence. }
  intros Hp Hp' E. destruct Hp as [n Hn _|c i n Hc Hi Hb], Hp' as [n' Hn' _|c' i' n' Hc' Hi' Hb'].
  - simpl in E. by rewrite E.
  - by destruct (Houter n c' i' n').
  - symmetry in E. by destruct (Houter n' c i n).
  - destruct (named c i n Hc Hi Hb) as (x & src & _ & Ex & Hs & _ & _ & Ek & _).
    destruct (named c' i' n' Hc' Hi' Hb') as (x' & src' & _ & Ex' & Hs' & _ & _ & Ek' & _).
    assert (src' = src) as -> by congruence. rewrite Ek in Ek'. by injection Ek' as -> -> ->.
Qed.

Lemma entry_body c e : c ∈ calls -> e ∈ entry_nodes (template (subgraph c)) -> exists n, n ∈ body c /\ node_id n = e.
Proof.
  intros Hc He. destruct (constructed_facts c (Hcs c Hc)) as [[Hg Hn] _].
  pose proof (built_facts _ (conj Hg Hn)) as [Hports (_ & _ & _ & Hent & _)].
  pose proof (restores_entries sha256 _ e Hg He) as Hin. apply list_elem_of_fmap in Hin as (n & -> & Hn'). exists n. split; [| done].
  apply body_iff. split; [done |]. rewrite Hports. by apply Hent.
Qed.

Definition entry_set c (i : Z) (r : ReadyNodes) : Prop :=
  forall x, x ∈ r <-> exists e, e ∈ entry_nodes (template (subgraph c)) /\ name (Inner (call_site c) i e) = x.

Definition entries_ok (entries : Entries) : Prop :=
  ksorted fst entries /\
  (forall c i, c ∈ calls -> 0 <= i < maximum_iterations c -> is_Some (bt_get (call_site c, i) entries)) /\
  (forall site i r, bt_get (site, i) entries = Some r -> exists c, c ∈ calls /\ call_site c = site /\ entry_set c i r).

Lemma entry_step_runs c i entries (P : Entries -> Prop) :
  c ∈ calls -> 0 <= i < maximum_iterations c ->
  (forall r, entry_set c i r -> P (bt_insert (call_site c, i) r entries)) -> runs (entry_step identities c entries i) P.
Proof.
  intros Hc Hi HP. unfold entry_step.
  eapply runs_bind; [apply (runs_mapM _ _ (fun e x => name (Inner (call_site c) i e) = x)) |].
  - intros e He. destruct (entry_body c e Hc He) as (n & Hn & <-). destruct (named c i n Hc Hi Hn) as (x & src & Hx & E & _).
    by eapply runs_index.
  - intros ids Hids. apply runs_bind_raise. intros r [_ Hr]%ready_Ok. apply HP. intros x. rewrite Hr. clear -Hids.
    induction Hids as [|e y es ids Hy Hids IH].
    + split; [by intros ?%not_elem_of_nil | by intros (e & ?%not_elem_of_nil & _)].
    + rewrite elem_of_cons, IH. setoid_rewrite elem_of_cons. naive_solver.
Qed.

Lemma entries_runs : runs (entries_of identities (into_values by_id)) entries_ok.
Proof.
  unfold entries_of. rewrite (try_fold_concat (fun c entries i => entry_step identities c entries i)).
  eapply runs_weaken; [apply (runs_fold (fun pre entries => ksorted fst entries /\
    (forall q, q ∈ pre -> is_Some (bt_get (call_site q.1, q.2) entries)) /\
    (forall site i r, bt_get (site, i) entries = Some r -> exists c, c ∈ calls /\ call_site c = site /\ entry_set c i r))) |].
  - split_and!; [constructor | by intros q ?%not_elem_of_nil | done].
  - intros pre [c i] suf entries E (Hs & Hcov & Hat). simpl.
    assert (Hin : (c, i) ∈ concat ((fun c => pair c <$> iterations c) <$> into_values by_id)) by (rewrite E; set_solver).
    apply elem_of_concat in Hin as (l & Hl & Hin). apply list_elem_of_fmap in Hl as (c' & -> & Hc).
    apply list_elem_of_fmap in Hin as (i' & [= <- <-] & Hi%iterations_iff). apply Hby in Hc.
    apply (entry_step_runs c i entries); [done | done |]. intros r Hr. split_and!.
    + by apply bt_insert_sorted.
    + intros q Hq. rewrite bt_get_insert by done. destruct (eqb_cmp (call_site c, i) _) eqn:Ek; [by eexists |].
      apply elem_of_app in Hq as [Hq | ->%list_elem_of_singleton]; [by apply Hcov |]. simpl in Ek.
      by rewrite (proj2 (eqb_cmp_spec _ _) eq_refl) in Ek.
    + intros site j r'. rewrite bt_get_insert by done. destruct (eqb_cmp (call_site c, i) (site, j)) eqn:Ek; [| apply Hat].
      apply eqb_cmp_spec in Ek as [= <- <-]. intros [= <-]. by exists c.
  - intros entries (Hs & Hcov & Hat). split_and!; [done | | done]. intros c i Hc Hi. apply (Hcov (c, i)). apply elem_of_concat.
    eexists. split; [apply list_elem_of_fmap_2; by apply Hby |]. by apply list_elem_of_fmap_2, iterations_iff.
Qed.

Variable entries : Entries.
Hypothesis Hentries : entries_ok entries.

Lemma entries_at c i : c ∈ calls -> 0 <= i < maximum_iterations c -> exists r, bt_get (call_site c, i) entries = Some r /\ entry_set c i r.
Proof.
  intros Hc Hi. destruct Hentries as (_ & Hcov & Hat). destruct (Hcov c i Hc Hi) as (r & Hr). exists r. split; [done |].
  destruct (Hat _ _ _ Hr) as (c' & Hc' & E & Hset). assert (c' = c) as -> by (by eapply (NoDup_key_inj call_site calls)). done.
Qed.

Definition outer_image (id x : NodeId) : Prop := exists pl, pl ∈ outer_targets calls id /\ name pl = x.
Definition inner_image c (i : Z) (id x : NodeId) : Prop := exists pl, pl ∈ inner_targets parent calls c i id /\ name pl = x.

Lemma redirect_parent_iff id x : x ∈ redirect_parent entries id <-> outer_image id x.
Proof.
  unfold redirect_parent, outer_image, outer_targets. destruct (call_at calls id) as [c|] eqn:Ec.
  - apply call_at_iff in Ec as [Hc <-]; [| done]. destruct (constructed_facts c (Hcs c Hc)) as [_ Hmax].
    destruct (entries_at c 0 Hc ltac:(lia)) as (r & -> & Hr). rewrite (Hr x). setoid_rewrite list_elem_of_fmap. naive_solver.
  - destruct (bt_get (id, 0) entries) as [r|] eqn:Er.
    + exfalso. destruct Hentries as (_ & _ & Hat). destruct (Hat _ _ _ Er) as (c & Hc & <- & _). apply call_at_None in Ec.
      apply Ec. by apply list_elem_of_fmap_2.
    + setoid_rewrite list_elem_of_singleton. naive_solver.
Qed.

Lemma redirect_child_runs c i node id :
  c ∈ calls -> 0 <= i < maximum_iterations c -> graph_node parent (call_site c) = Some node ->
  id ∈ node_id <$> nodes (template (subgraph c)) ->
  redirects (inner_image c i) (redirect_child identities entries c node i) id.
Proof.
  intros Hc Hi Hnode Hid. unfold redirects, redirect_child, inner_image, inner_targets, is_port.
  destruct (bs_contains id (ports (subgraph c))) eqn:Ep; cbn [negb].
  - apply bs_contains_iff in Ep. destruct (decide (id ∉ ports (subgraph c))) as [|_]; [done |].
    destruct (bool_decide (repeat_port c = Some id) && (i + 1 <? maximum_iterations c)) eqn:Er.
    + bools. rewrite decide_True by done. destruct (entries_at c (i + 1) Hc ltac:(lia)) as (r & Hr & Hset).
      eapply runs_index; [exact Hr |]. intros x. rewrite (Hset x). setoid_rewrite list_elem_of_fmap. naive_solver.
    + rewrite decide_False.
      2: { intros [Hr Hlt]. apply andb_false_iff in Er as [Er | Er]; bools; [done | lia]. }
      unfold return_targets. rewrite Hnode. simpl.
      rewrite (find_ext _ (fun r => bool_decide (return_route c id = route_id r))) by (intros r; apply matches_return_iff).
      destruct (List.find _ (routes node)) as [r|]; [| setoid_rewrite elem_of_nil; naive_solver].
      intros x. rewrite elem_of_concat. setoid_rewrite elem_of_concat. setoid_rewrite list_elem_of_fmap. split.
      * intros (l & (t & -> & Ht) & Hx%redirect_parent_iff). destruct Hx as (pl & Hpl & <-). exists pl. split; [| done].
        eexists. split; [by exists t | done].
      * intros (pl & (l & (t & -> & Ht) & Hpl) & <-). eexists. split; [by exists t |]. apply redirect_parent_iff. by exists pl.
  - apply bs_contains_false in Ep. rewrite decide_True by done. apply list_elem_of_fmap in Hid as (n & -> & Hn).
    destruct (named c i n Hc Hi) as (x & src & Hx & E & _); [by apply body_iff |].
    eapply runs_bind_index; [exact Hx |]. simpl. intros y. rewrite list_elem_of_singleton. setoid_rewrite list_elem_of_singleton.
    split; [intros ->; by eexists |]. intros (pl & -> & <-). done.
Qed.

Local Abbreviation lowering := (lowered_as parent calls sources name).

Lemma node_image_ext (image image' : NodeId -> NodeId -> Prop) (rename rename' : RouteId -> RouteId -> Prop) n m :
  (forall b x, image b x <-> image' b x) -> (forall r r', rename r r' -> rename' r r') ->
  node_image image rename n m -> node_image image' rename' n m.
Proof.
  intros Hi Hr. assert (Hs : forall s s', set_image image s s' -> set_image image' s s').
  { intros s s' Hs x. rewrite (Hs x). by setoid_rewrite Hi. }
  assert (Ho : forall o o', option_image image o o' -> option_image image' o o') by (intros [s|] [s'|]; simpl; auto).
  intros (Hc & (rs & Hrs & Hp) & Hw & Ht). split_and!; [by apply Ho | | by apply Ho | done]. exists rs. split; [| done].
  eapply Forall2_impl; [exact Hrs |]. intros r r' [H1' H2']. split; auto.
Qed.

Lemma expand_iteration_runs c i node :
  c ∈ calls -> 0 <= i < maximum_iterations c -> graph_node parent (call_site c) = Some node ->
  runs (expand_iteration sources identities entries c node i)
    (Forall2 (fun n m => lowering (Inner (call_site c) i (node_id n)) n m) (body c)).
Proof.
  intros Hc Hi Hnode. unfold expand_iteration. apply runs_mapM. intros n Hn.
  destruct (named c i n Hc Hi Hn) as (x & src & Hx & E & Hsrc & _ & _ & Hk & Hroutes).
  eapply runs_bind_index; [exact Hx |]. eapply runs_bind_index; [exact Hsrc |].
  destruct (constructed_facts c (Hcs c Hc)) as [[Hg _] _]. apply body_iff in Hn as [Hn _].
  eapply runs_weaken; [apply (remap_node_runs (inner_image c i) (fun r r' => bt_get r (source_routes src) = Some r')) |].
  - intros b Hb. apply redirect_child_runs; try done. by apply (restores_closed sha256 _ n).
  - intros r Hr. destruct (Hroutes r Hr) as (r' & Hr'). by exists r'.
  - intros m [Hid Him]. split; [by rewrite E |]. eapply node_image_ext; [| | exact Him].
    + intros b y. unfold inner_image, targets. by rewrite (proj2 (call_at_iff calls (call_site c) c Hnd)).
    + intros r r' Hr'. exists src. rewrite E. done.
Qed.

Lemma expand_node_runs n :
  n ∈ nodes parent ->
  runs (expand_node by_id sources identities entries n) (fun ms =>
    (forall m, m ∈ ms -> exists pl n', at_place parent calls pl n' /\ lowering pl n' m) /\
    (forall pl n', at_place parent calls pl n' -> home pl = node_id n -> exists m, m ∈ ms /\ lowering pl n' m)).
Proof.
  intros Hn. pose proof (restores_sorted sha256 parent Hpar) as Hs.
  assert (Hnode : graph_node parent (node_id n) = Some n) by (by apply graph_node_iff).
  unfold expand_node. rewrite by_id_call_at. destruct (call_at calls (node_id n)) as [c|] eqn:Ec.
  - apply call_at_iff in Ec as [Hc Esite]; [| done]. rewrite <- Esite in Hnode.
    eapply runs_bind; [apply (runs_mapM _ _ (fun i ms => Forall2 (fun n m => lowering (Inner (call_site c) i (node_id n)) n m) (body c) ms)) |].
    { intros i Hi%iterations_iff. by apply expand_iteration_runs. }
    intros mss Hmss. simpl. split.
    + intros m (ms & Hms & Hm)%elem_of_concat. apply list_elem_of_lookup in Hms as (k & Hk).
      destruct (Forall2_lookup_r _ _ _ _ _ Hmss Hk) as (i & Hik & HF). apply list_elem_of_lookup in Hm as (j & Hj).
      destruct (Forall2_lookup_r _ _ _ _ _ HF Hj) as (n' & Hn' & Hlow'). exists (Inner (call_site c) i (node_id n')), n'.
      split; [| done]. constructor; [done | apply iterations_iff; by eapply list_elem_of_lookup_2 | by eapply list_elem_of_lookup_2].
    + intros pl n' Hpl Hhome. destruct Hpl as [n' Hn' Hout|c' i n' Hc' Hi Hn']; simpl in Hhome.
      * exfalso. apply Hout. rewrite Hhome, <- Esite. by apply list_elem_of_fmap_2.
      * assert (c' = c) as -> by (eapply (NoDup_key_inj call_site calls); [done.. | congruence]).
        apply iterations_iff, list_elem_of_lookup in Hi as (k & Hk).
        destruct (Forall2_lookup_l _ _ _ _ _ Hmss Hk) as (ms & Hms & HF). apply list_elem_of_lookup in Hn' as (j & Hj).
        destruct (Forall2_lookup_l _ _ _ _ _ HF Hj) as (m & Hm & Hlow'). exists m. split; [| done]. apply elem_of_concat.
        exists ms. split; by eapply list_elem_of_lookup_2.
  - apply call_at_None in Ec.
    apply (runs_bind _ _ (fun m => node_id m = node_id n /\ node_image outer_image (fun r r' => r' = r) n m)).
    + apply remap_node_runs; [| done]. intros b _. unfold redirects. simpl. intros x. apply redirect_parent_iff.
    + intros m [Hid Him]. simpl. split.
      * intros m' ->%list_elem_of_singleton. exists (Outer (node_id n)), n. split; [by constructor |]. by split.
      * intros pl n' Hpl Hhome. exists m. split; [by left |]. destruct Hpl as [n' Hn' Hout|c i n' Hc Hi Hn']; simpl in Hhome.
        -- assert (n' = n) as -> by (by eapply (ksorted_key_inj node_id)). by split.
        -- exfalso. apply Ec. rewrite <- Hhome. by apply list_elem_of_fmap_2.
Qed.

Lemma home_present pl n : at_place parent calls pl n -> exists n', n' ∈ nodes parent /\ node_id n' = home pl.
Proof.
  intros [n' Hn' _|c i n' Hc _ _]; simpl; [by exists n' |]. destruct (validate_call_Ok parent c (Hval c Hc)) as (n0 & Hn0 & _).
  apply graph_node_iff in Hn0 as [? ?]; [| by apply restores_sorted with sha256]. by exists n0.
Qed.

Lemma expand_runs :
  runs (mapM (expand_node by_id sources identities entries) (nodes parent)) (fun mss =>
    (forall m, m ∈ concat mss -> exists pl n, at_place parent calls pl n /\ lowering pl n m) /\
    (forall pl n, at_place parent calls pl n -> exists m, m ∈ concat mss /\ lowering pl n m)).
Proof.
  eapply runs_weaken; [by apply (runs_mapM _ _ (fun n ms => (forall m, m ∈ ms -> exists pl n', at_place parent calls pl n' /\ lowering pl n' m) /\
    (forall pl n', at_place parent calls pl n' -> home pl = node_id n -> exists m, m ∈ ms /\ lowering pl n' m))), expand_node_runs |].
  intros mss Hmss. split.
  - intros m (ms & Hms & Hm)%elem_of_concat. apply list_elem_of_lookup in Hms as (k & Hk).
    destruct (Forall2_lookup_r _ _ _ _ _ Hmss Hk) as (n & _ & [HQ _]). by apply HQ.
  - intros pl n Hpl. destruct (home_present pl n Hpl) as (n0 & Hn0 & E0). apply list_elem_of_lookup in Hn0 as (k & Hk).
    destruct (Forall2_lookup_l _ _ _ _ _ Hmss Hk) as (ms & Hms & [_ HQ]). destruct (HQ pl n Hpl (eq_sym E0)) as (m & Hm & Hl).
    exists m. split; [| done]. apply elem_of_concat. exists ms. split; [by eapply list_elem_of_lookup_2 | done].
Qed.
End Places.

(** * Compositions *)

(** What a composition with calls is: a naming of the places of the expansion
    that is injective and keeps the parent's names, under which the nodes of
    the composed graph are exactly the lowered places and its entries the
    targets of the parent's; the source map describes exactly the places inside
    templates; the composed graph keeps the parent's contract, is itself a
    compiled graph, and no call-site is left in it. *)
Record composed parent calls (comp : GraphComposition Capability Schema) (nm : place -> NodeId) : Prop := {
  composed_outer : forall id, nm (Outer id) = id;
  composed_inj : forall pl pl' n n', at_place parent calls pl n -> at_place parent calls pl' n' -> nm pl = nm pl' -> pl = pl';
  composed_from : forall m, m ∈ nodes (graph comp) ->
    exists pl n, at_place parent calls pl n /\ lowered_as parent calls (sources comp) nm pl n m;
  composed_to : forall pl n, at_place parent calls pl n ->
    exists m, m ∈ nodes (graph comp) /\ lowered_as parent calls (sources comp) nm pl n m;
  composed_entries : forall x, x ∈ entry_nodes (graph comp) <->
    exists e pl, e ∈ entry_nodes parent /\ pl ∈ outer_targets calls e /\ nm pl = x;
  composed_source : forall x src, bt_get x (sources comp) = Some src ->
    exists c i n, c ∈ calls /\ 0 <= i < maximum_iterations c /\ n ∈ body c /\ nm (Inner (call_site c) i (node_id n)) = x /\ source_of c i n src;
  composed_sourced : forall c i n, c ∈ calls -> 0 <= i < maximum_iterations c -> n ∈ body c ->
    exists src, bt_get (nm (Inner (call_site c) i (node_id n))) (sources comp) = Some src /\ source_of c i n src;
  composed_contract : identity (graph comp) = identity parent /\ input_schema (graph comp) = input_schema parent /\
    graph_state_schema (graph comp) = graph_state_schema parent /\ update_schema (graph comp) = update_schema parent /\
    output_schema (graph comp) = output_schema parent /\ reducer (graph comp) = reducer parent /\ limits (graph comp) = limits parent;
  composed_restores : restores (graph comp);
  composed_sites : forall c, c ∈ calls -> graph_node (graph comp) (call_site c) = None;
  composed_returns : forall c port, c ∈ calls -> port ∈ ports (subgraph c) ->
    exists n r, graph_node parent (call_site c) = Some n /\ r ∈ routes n /\ route_id r = return_route c port /\
      return_targets parent calls c port = concat (outer_targets calls <$> successors r)
}.

(** No return is dropped: every port has its route at the call-site. *)
Lemma return_route_found parent calls c port :
  restores parent -> validate_call parent c = Ok tt -> port ∈ ports (subgraph c) ->
  exists n r, graph_node parent (call_site c) = Some n /\ r ∈ routes n /\ route_id r = return_route c port /\
    return_targets parent calls c port = concat (outer_targets calls <$> successors r).
Proof.
  intros Hpar Hv Hport. destruct (validate_call_Ok parent c Hv) as (n & Hn & _).
  pose proof (return_routes_bijective parent c n Hpar Hv Hn) as Hp.
  assert (Hin : return_route c port ∈ route_id <$> routes n) by (rewrite Hp; by apply list_elem_of_fmap_2).
  apply list_elem_of_fmap in Hin as (r0 & E0 & Hr0). unfold return_targets. rewrite Hn. simpl.
  destruct (List.find (fun r => bool_decide (return_route c port = route_id r)) (routes n)) as [r|] eqn:Ef.
  - apply find_some in Ef as [Hr Hd]. bools. exists n, r. split_and!; try done. by apply list_elem_of_In.
  - apply list_elem_of_In, (find_none _ _ Ef) in Hr0. bools. done.
Qed.

Lemma compile_runs parent calls :
  restores parent -> Forall constructed calls ->
  runs (compile sha256 parent calls) (fun comp =>
    match calls with
    | [] => comp = mkComposition parent []
    | _ :: _ => exists nm, composed parent calls comp nm
    end).
Proof.
  intros Hpar Hcs. pose proof Hcs as Hcs'. rewrite Forall_forall in Hcs'. unfold compile.
  eapply runs_bind; [by apply collect_calls_runs |]. intros [by_id count] (Hkeyed & Hby & Hnd & Hval). simpl in Hkeyed, Hby.
  destruct by_id as [|entry by_id'] eqn:Eby.
  { destruct calls as [|c calls]; [done |]. exfalso. assert (Hc : c ∈ into_values (@nil (NodeId * CallT))) by (apply Hby; by left).
    by apply not_elem_of_nil in Hc. }
  destruct calls as [|c0 calls'] eqn:Ecalls.
  { exfalso. assert (Hc : entry.2 ∈ @nil CallT) by (apply Hby; by left). by apply not_elem_of_nil in Hc. }
  rewrite <- Eby in *. rewrite <- Ecalls in *. clear Eby entry by_id' Ecalls.
  destruct (negb (is_none (child_runs parent))); [done |]. apply runs_bind_raise. intros [srcs identities] Hlow.
  eapply runs_bind; [by eapply (entries_runs parent calls by_id) |]. intros entries Hent.
  eapply runs_bind; [by eapply (expand_runs parent calls by_id srcs identities) |]. intros mss [Hfrom Hto].
  apply runs_bind_raise. intros es [_ Hes]%ready_Ok.
  apply (runs_bind _ _ (fun g => graph_compile sha256 (identity parent) (input_schema parent) (graph_state_schema parent)
    (update_schema parent) (output_schema parent) (reducer parent) es (concat mss) (limits parent) = Some (Ok g))).
  { unfold graph_compile. destruct (Compile.graph_build_outcome sha256 (identity parent) (input_schema parent) (graph_state_schema parent)
      (update_schema parent) (output_schema parent) (reducer parent) es (concat mss) (limits parent) None None) as (r & -> & _).
    by destruct r. }
  intros g (_ & Eg & Hsort & Hperm & Hr)%Compile.graph_build_facts. simpl. exists (name identities).
  assert (Hnamed : forall c i n, c ∈ calls -> 0 <= i < maximum_iterations c -> n ∈ body c ->
    exists x src, name identities (Inner (call_site c) i (node_id n)) = x /\ bt_get x srcs = Some src /\
      graph_node parent x = None /\ source_of c i n src).
  { intros c i n Hc Hi Hn. edestruct (named parent calls by_id srcs identities) as (x & src & _ & ? & ? & ? & ?); try eassumption.
    by exists x, src. }
  split; simpl.
  - done.
  - intros pl pl' n n'. by eapply (name_inj parent calls by_id srcs identities).
  - intros m Hm. rewrite Hperm in Hm. by apply Hfrom.
  - intros pl n Hpl. destruct (Hto pl n Hpl) as (m & Hm & ?). exists m. by rewrite Hperm.
  - intros x. rewrite Eg. simpl. rewrite Hes, elem_of_concat. setoid_rewrite list_elem_of_fmap. split.
    + intros (l & (e & -> & He) & Hx). eapply redirect_parent_iff in Hx as (pl & Hpl & <-); try done. by exists e, pl.
    + intros (e & pl & He & Hpl & <-). eexists. split; [by exists e |]. eapply redirect_parent_iff; try done. by exists pl.
  - intros x src Hx. by eapply (sources_named parent calls by_id).
  - intros c i n Hc Hi Hn. destruct (Hnamed c i n Hc Hi Hn) as (x & src & Ex & Hsrc & _ & Hof). simpl in Ex. rewrite Ex. by exists src.
  - rewrite Eg. done.
  - done.
  - intros c Hc. destruct (graph_node g (call_site c)) as [m|] eqn:Em; [| done]. exfalso.
    apply graph_node_iff in Em as [Hm Eid]; [| done]. rewrite Hperm in Hm. destruct (Hfrom m Hm) as (pl & n & Hpl & Hid & _).
    destruct (validate_call_Ok parent c (Hval c Hc)) as (n0 & Hn0 & _).
    destruct Hpl as [n Hn Hout|c' i n Hc' Hi Hn]; simpl in Hid.
    + apply Hout. rewrite <- Hid, Eid. by apply list_elem_of_fmap_2.
    + destruct (Hnamed c' i n Hc' Hi Hn) as (x & src & Ex & _ & Hg & _).
      simpl in Ex. congruence.
  - intros c port Hc Hport. by apply return_route_found; [| apply Hval |].
Qed.

(** C25: Composition is total and exact.  On compiled graphs and calls built by
    their constructors it never panics.  Without calls the parent is returned
    as it is.  With calls, the composed graph is the expansion: its nodes are
    exactly the parent's other nodes and, for every call and every iteration,
    a copy of each executable template node, under an injective naming; each
    keeps its outcomes and leads exactly to the targets of its successors (a
    call-site to its template's entries, a repeated port to the next
    iteration, every other port to the continuation of its own return route);
    no call-site is left; the source map describes exactly the copies; and the
    result is itself a compiled graph with the parent's contract and limits. *)
Theorem composition_exact parent calls (Hpar : restores parent) (Hcs : Forall constructed calls) :
  compile sha256 parent calls <> Err Panic /\
  (calls = [] -> compile sha256 parent calls = Ok (mkComposition parent [])) /\
  (forall comp, compile sha256 parent calls = Ok comp -> calls <> [] -> exists nm, composed parent calls comp nm).
Proof.
  pose proof (compile_runs parent calls Hpar Hcs) as Hrun. split_and!.
  - by eapply runs_safe.
  - by intros ->.
  - intros comp Hc. eapply runs_Ok in Hrun; [| exact Hc]. by destruct calls.
Qed.

(** * Bounded calls *)

(** A step that stays inside one entry of a call: to a node of the same
    iteration, or through the repeated port to an entry of the next one. *)
Inductive inside c : Z -> NodeId -> Z -> NodeId -> Prop :=
| inside_body i n b : n ∈ body c -> b ∈ all_successors n -> b ∉ ports (subgraph c) -> inside c i (node_id n) i b
| inside_repeat i n port b : n ∈ body c -> port ∈ all_successors n -> repeat_port c = Some port ->
    i + 1 < maximum_iterations c -> b ∈ entry_nodes (template (subgraph c)) -> inside c i (node_id n) (i + 1) b.

(** The nodes run in one entry of a call, the last one first. *)
Inductive stay c : list (Z * NodeId) -> Prop :=
| stay_enter i b : 0 <= i < maximum_iterations c -> b ∈ node_id <$> body c -> stay c [(i, b)]
| stay_next i a j b l : stay c ((i, a) :: l) -> inside c i a j b -> stay c ((j, b) :: (i, a) :: l).

Lemma stay_path c i b l :
  constructed c -> stay c ((i, b) :: l) ->
  0 <= i < maximum_iterations c /\ b ∉ ports (subgraph c) /\
  exists p, path (template (subgraph c)) (b :: p) /\
    Z.of_nat (length ((i, b) :: l)) <= i * maximum_supersteps (limits (template (subgraph c))) + Z.of_nat (length (b :: p)).
Proof.
  intros [[Hg Hnew] Hmax]%constructed_facts. pose proof (built_facts _ (conj Hg Hnew)) as [Hports (_ & _ & _ & Hent & _ & Hw)].
  remember ((i, b) :: l) as q eqn:Eq. intros Hs. revert i b l Eq.
  induction Hs as [i0 b0 Hi Hb|i0 a j b0 l0 Hl IH Hin]; intros i b l [= -> -> <-].
  - apply list_elem_of_fmap in Hb as (n & -> & [Hn Hp]%body_iff). split_and!; try (done || lia).
    assert (Hp1 : path (template (subgraph c)) [node_id n]) by (constructor; by apply list_elem_of_fmap_2).
    pose proof (Hw (node_id n) [] Hp1 ltac:(by rewrite <- Hports)) as Hlim. exists []. split; [done | simpl in *; nia].
  - destruct (IH i0 a l0 eq_refl) as (Hi & Ha & p & Hp & Hlen).
    destruct Hin as [i0 n b Hn Hb Hnp|i0 n port b Hn Hport Hrep Hlt He].
    + apply body_iff in Hn as [Hn _]. split_and!; try (done || lia). exists (node_id n :: p). split; [| simpl in *; lia].
      constructor; [done |]. by exists n.
    + rewrite Hports. pose proof (Hw (node_id n) p Hp ltac:(by rewrite <- Hports)) as Hlim. split_and!; [lia | lia | by apply Hent |].
      exists []. split; [constructor; by apply (restores_entries sha256) | simpl in *; nia].
Qed.

End Calls.

(** * A loop of two iterations *)

Import Templates.Sample.
#[local] Instance one_canonical {T} : Canonical T | 10 := fun _ => Some [1].
#[local] Instance iteration_canonical : Canonical (NodeIdentityWire (Capability := Z) (Schema := Z)) := fun w => Some [ni_iteration w].
Definition body_id : NodeId := [98].
Definition start : NodeId := [97].
Definition site : NodeId := [115].
Definition finish : NodeId := [122].
Definition parent_graph : CompiledGraph Z Z :=
  mkGraph 10 2 3 4 5 (mkReducerReference 6 [7]) [start]
    [mkNode start (Some [site]) [] None false; mkNode site None [mkRoute port [finish]] None false; mkNode finish None [] None true]
    (mkLimits 9 2) None [1].
Definition looped : GraphSubgraphCall Z Z := mkCall site (mkSubgraph sample [port]) 2 (Some port) [].

Lemma parent_restores : Compile.restores sha parent_graph.
Proof. vm_compute. reflexivity. Qed.

Lemma looped_constructed : constructed sha looped.
Proof.
  apply (constructed_loop sha site (mkSubgraph sample [port]) port 2); [split; [apply sample_restores | by vm_compute] | | done].
  split; [lia | unfold u16_max; lia].
Qed.

Definition composed_nodes : list NodeId :=
  match compile sha parent_graph [looped] with Ok comp => node_id <$> nodes (graph comp) | Err _ => [] end.

(** The start, the end, and two copies of the body. *)
Example composed_nodes_are :
  composed_nodes = [start; bytes_of "skc-00-0000"; bytes_of "skc-01-0000"; finish].
Proof. vm_compute. reflexivity. Qed.

Lemma composition_exact_witness :
  exists comp nm, compile sha parent_graph [looped] = Ok comp /\ composed sha parent_graph [looped] comp nm.
Proof.
  destruct (compile sha parent_graph [looped]) as [comp|e] eqn:Ec; [| vm_compute in Ec; discriminate Ec].
  destruct (proj2 (proj2 (composition_exact sha parent_graph [looped] parent_restores (Forall_cons_2 _ _ _ looped_constructed (Forall_nil_2 _))))
    comp Ec ltac:(discriminate)) as (nm & Hnm).
  exists comp, nm. split; [reflexivity | exact Hnm].
Defined.

End Compose.
