(* ===== verification/Run.v ===== *)
(** The durable run lifecycle (crates/stateknot-core/src/run.rs) with the
    failure values it carries (failure.rs) and the identity of an agent result
    (agent_runtime.rs): statuses, waits, the transition function [apply], and
    the snapshot validation applied to every restored lifecycle.

    Identifiers ([RunId], [InterruptId], ...) are UUIDs, that is 128-bit
    integers compared for equality.  The values the lifecycle stores without
    looking inside (capability identities, output schemas, JSON outputs,
    artifact lists, failure details) are type parameters of the section. *)

From Stdlib Require Import ZArith Lia List.
From stdpp Require Import prelude.
From S2P Require Import Prelude Ordered Accounting Time Costs Budget.

Open Scope Z_scope.
Import Timestamp(Timestamp).

(** * Failures *)

Inductive FailureCategory :=
| InvalidInput | Unauthenticated | PermissionDenied | PolicyDenied | NotFound | Conflict | Unsupported
| RateLimited | DeadlineExceeded | Cancelled_ | DependencyUnavailable | DataCorruption
| AmbiguousExternalOutcome | Internal.

Inductive RetryAdvice :=
| Never
| SafeAfter (delay : DurationMillis.DurationMillis)
| ReconcileFirst.

#[global] Instance FailureCategory_eq_dec : EqDecision FailureCategory.
Proof. solve_decision. Defined.

Inductive FailureBuildError :=
| AmbiguousOutcomeRequiresReconciliation
| ReconciliationRequiresAmbiguousOutcome.

Definition validate_failure_recovery (category : FailureCategory) (retry_advice : RetryAdvice)
  : result FailureBuildError unit :=
  match category, retry_advice with
  | AmbiguousExternalOutcome, ReconcileFirst => Ok tt
  | AmbiguousExternalOutcome, _ => Err AmbiguousOutcomeRequiresReconciliation
  | _, ReconcileFirst => Err ReconciliationRequiresAmbiguousOutcome
  | _, _ => Ok tt
  end.

(** * Waits *)

Inductive RunInterruptKind := Approval | Input | Authentication | ExternalSignal | Reconciliation.

Record RunInterrupt := mkInterrupt {
  interrupt_id : Z;
  interrupt_kind : RunInterruptKind;
  requested_at : Timestamp;
  expires_at : option Timestamp
}.

Inductive RunInterruptError := ExpiryNotAfterRequest (requested_at expires_at : Timestamp).

Definition interrupt_new (id : Z) (kind : RunInterruptKind) (requested : Timestamp) (expires : option Timestamp)
  : result RunInterruptError RunInterrupt :=
  match expires with
  | Some e => if e <=? requested then Err (ExpiryNotAfterRequest requested e)
              else Ok (mkInterrupt id kind requested expires)
  | None => Ok (mkInterrupt id kind requested expires)
  end.

Inductive RunTimerKind := Sleep | RetryBackoff.

Record RunTimer := mkTimer {
  timer_id : Z;
  timer_kind : RunTimerKind;
  scheduled_at : Timestamp;
  due_at : Timestamp
}.

Inductive RunTimerError := DueNotAfterSchedule (scheduled_at due_at : Timestamp).

Definition timer_new (id : Z) (kind : RunTimerKind) (scheduled due : Timestamp) : result RunTimerError RunTimer :=
  if due <=? scheduled then Err (DueNotAfterSchedule scheduled due) else Ok (mkTimer id kind scheduled due).

Inductive RunWait :=
| Interrupt (interrupt : RunInterrupt)
| Timer (timer : RunTimer).

Definition as_interrupt (w : RunWait) : option RunInterrupt :=
  match w with Interrupt i => Some i | Timer _ => None end.
Definition as_timer (w : RunWait) : option RunTimer :=
  match w with Timer t => Some t | Interrupt _ => None end.
Definition wait_registered_at (w : RunWait) : Timestamp :=
  match w with Interrupt i => requested_at i | Timer t => scheduled_at t end.
Definition identity_uuid (w : RunWait) : Z :=
  match w with Interrupt i => interrupt_id i | Timer t => timer_id t end.

Record RunWaits := mkWaits { values : list RunWait; registered_at : Timestamp }.

Definition MAX_LEN : Z := 64.

Inductive RunWaitsError :=
| EmptyWaits
| TooManyWaits (maximum actual : Z)
| DuplicateIdentity
| MixedRegistrationTimes (expected actual : Timestamp).

(** One iteration of the loop of [RunWaits::try_new]. *)
Definition try_new_step (st : list RunWait * option Timestamp) (value : RunWait)
  : result RunWaitsError (list RunWait * option Timestamp) :=
  let '(collected, registered) := st in
  if Z.of_nat (length collected) =? MAX_LEN then Err (TooManyWaits MAX_LEN (MAX_LEN + 1)) else
  let value_registered_at := wait_registered_at value in
  registered' ← match registered with
                | Some expected =>
                    if negb (value_registered_at =? expected)
                    then Err (MixedRegistrationTimes expected value_registered_at)
                    else Ok (Some expected)
                | None => Ok (Some value_registered_at)
                end;
  if existsb (fun existing => identity_uuid existing =? identity_uuid value) collected
  then Err DuplicateIdentity else
  Ok (collected ++ [value], registered').

Definition waits_try_new (vs : list RunWait) : result RunWaitsError RunWaits :=
  '(collected, registered) ← try_fold try_new_step ([], None) vs;
  registered_at ← ok_or registered EmptyWaits;
  Ok (mkWaits collected registered_at).

(** [RunWaits::interrupt] and [RunWaits::timer]: [filter_map] then [find]. *)
Definition waits_interrupt (self : RunWaits) (id : Z) : option RunInterrupt :=
  List.find (fun i => interrupt_id i =? id) (omap as_interrupt (values self)).
Definition waits_timer (self : RunWaits) (id : Z) : option RunTimer :=
  List.find (fun t => timer_id t =? id) (omap as_timer (values self)).

Definition from_remaining (vs : list RunWait) (registered : Timestamp) : option RunWaits :=
  match vs with [] => None | _ => Some (mkWaits vs registered) end.

Definition without_interrupt (self : RunWaits) (id : Z) : option RunWaits :=
  from_remaining
    (List.filter (fun w => match as_interrupt w with
                           | None => true
                           | Some i => negb (interrupt_id i =? id)
                           end) (values self)) (registered_at self).

Definition without_timer (self : RunWaits) (id : Z) : option RunWaits :=
  from_remaining
    (List.filter (fun w => match as_timer w with
                           | None => true
                           | Some t => negb (timer_id t =? id)
                           end) (values self)) (registered_at self).

(** * Lifecycle *)

Inductive RunStatus :=
| Pending | Active | Waiting | CancellationRequested | Succeeded | Failed | Cancelled.

#[global] Instance RunStatus_eq_dec : EqDecision RunStatus.
Proof. solve_decision. Defined.

Definition is_terminal (self : RunStatus) : bool :=
  match self with Succeeded | Failed | Cancelled => true | _ => false end.

Inductive RunTransitionKind :=
| KStart | KWait | KResolveInterrupt | KFireTimer | KRequestCancellation | KConfirmCancellation | KSucceed | KFail.

Definition transition_allowed (status : RunStatus) (transition : RunTransitionKind) : bool :=
  match status, transition with
  | Pending, KStart => true
  | (Pending | Active | Waiting), (KRequestCancellation | KFail) => true
  | Active, (KWait | KSucceed) => true
  | Waiting, (KResolveInterrupt | KFireTimer) => true
  | CancellationRequested, KConfirmCancellation => true
  | _, _ => false
  end.

Inductive RunCancellationError :=
| CategoryNotCancelled (actual : FailureCategory)
| RetryAdviceNotNever (actual : RetryAdvice)
| CompletionBeforeRequest (requested_at completed_at : Timestamp).

Inductive RunFailureError := CancellationRequiresCancellationPath.

Section Lifecycle.
Context {Capability Schema Json Artifacts Details : Type} `{!EqDecision Capability}.

Record Failure := mkFailure {
  failure_id : Z;
  category : FailureCategory;
  code : bytes;
  origin : bytes;
  message : bytes;
  retry_advice : RetryAdvice;
  details : option Details;
  caused_by_event_id : option Z
}.

Definition failure_new (id : Z) (cat : FailureCategory) (code origin message : bytes) (advice : RetryAdvice)
  : result FailureBuildError Failure :=
  _ ← validate_failure_recovery cat advice;
  Ok (mkFailure id cat code origin message advice None None).

Record AgentResultProvenance := mkProvenance {
  tenant_id : bytes;
  run_id : Z;
  thread_id : Z;
  invocation_id : Z;
  agent : Capability
}.

#[global] Instance AgentResultProvenance_eq_dec : EqDecision AgentResultProvenance.
Proof using EqDecision0. solve_decision. Defined.

Record AgentResult := mkResult {
  result_provenance : AgentResultProvenance;
  result_completed_at : Timestamp;
  output_schema : Schema;
  output : Json;
  artifacts : Artifacts;
  result_usage : BudgetUsage.t
}.

Record RunFailure := mkRunFailure {
  failure : Failure;
  failure_completed_at : Timestamp;
  failure_usage : BudgetUsage.t
}.

Definition run_failure_new (f : Failure) (completed : Timestamp) (usage : BudgetUsage.t)
  : result RunFailureError RunFailure :=
  if bool_decide (category f = Cancelled_) then Err CancellationRequiresCancellationPath
  else Ok (mkRunFailure f completed usage).

Record RunCancellationRequest := mkCancellationRequest {
  request_failure : Failure;
  cancellation_requested_at : Timestamp
}.

Definition cancellation_request_new (f : Failure) (requested : Timestamp)
  : result RunCancellationError RunCancellationRequest :=
  if negb (bool_decide (category f = Cancelled_)) then Err (CategoryNotCancelled (category f)) else
  match retry_advice f with
  | Never => Ok (mkCancellationRequest f requested)
  | actual => Err (RetryAdviceNotNever actual)
  end.

Record RunCancellation := mkCancellation {
  request : RunCancellationRequest;
  cancellation_completed_at : Timestamp;
  cancellation_usage : BudgetUsage.t
}.

Definition cancellation_new (req : RunCancellationRequest) (completed : Timestamp) (usage : BudgetUsage.t)
  : result RunCancellationError RunCancellation :=
  if completed <? cancellation_requested_at req
  then Err (CompletionBeforeRequest (cancellation_requested_at req) completed)
  else Ok (mkCancellation req completed usage).

Inductive RunState :=
| SPending
| SActive (activated_at : Timestamp)
| SWaiting (waits : RunWaits) (changed_at : Timestamp)
| SCancellationRequested (req : RunCancellationRequest)
| SSucceeded (res : AgentResult)
| SFailed (fail : RunFailure)
| SCancelled (cancellation : RunCancellation).

Definition state_status (self : RunState) : RunStatus :=
  match self with
  | SPending => Pending
  | SActive _ => Active
  | SWaiting _ _ => Waiting
  | SCancellationRequested _ => CancellationRequested
  | SSucceeded _ => Succeeded
  | SFailed _ => Failed
  | SCancelled _ => Cancelled
  end.

Definition state_changed_at (self : RunState) (admitted : Timestamp) : Timestamp :=
  match self with
  | SPending => admitted
  | SActive activated => activated
  | SWaiting _ changed => changed
  | SCancellationRequested req => cancellation_requested_at req
  | SSucceeded res => result_completed_at res
  | SFailed f => failure_completed_at f
  | SCancelled c => cancellation_completed_at c
  end.

Record RunLifecycle := mkLifecycle {
  provenance : AgentResultProvenance;
  admitted_at : Timestamp;
  revision : Z;
  state : RunState
}.

Definition admitted (prov : AgentResultProvenance) (at_ : Timestamp) : RunLifecycle :=
  mkLifecycle prov at_ 0 SPending.

Definition status (self : RunLifecycle) : RunStatus := state_status (state self).
Definition changed_at (self : RunLifecycle) : Timestamp := state_changed_at (state self) (admitted_at self).

Definition lifecycle_waits (self : RunLifecycle) : option RunWaits :=
  match state self with SWaiting waits _ => Some waits | _ => None end.
Definition cancellation_request (self : RunLifecycle) : option RunCancellationRequest :=
  match state self with
  | SCancellationRequested req => Some req
  | SCancelled c => Some (request c)
  | _ => None
  end.
Definition terminal_failure (self : RunLifecycle) : option Failure :=
  match state self with
  | SFailed f => Some (failure f)
  | SCancelled c => Some (request_failure (request c))
  | _ => None
  end.
Definition terminal_usage (self : RunLifecycle) : option BudgetUsage.t :=
  match state self with
  | SSucceeded res => Some (result_usage res)
  | SFailed f => Some (failure_usage f)
  | SCancelled c => Some (cancellation_usage c)
  | _ => None
  end.

Inductive RunTransition :=
| Start (started_at : Timestamp)
| Wait (waits : RunWaits)
| ResolveInterrupt (id : Z) (resolved_at : Timestamp)
| FireTimer (id : Z) (fired_at : Timestamp)
| RequestCancellation (req : RunCancellationRequest)
| ConfirmCancellation (completed : Timestamp) (usage : BudgetUsage.t)
| Succeed (res : AgentResult)
| Fail_ (fail : RunFailure).

Definition transition_kind (self : RunTransition) : RunTransitionKind :=
  match self with
  | Start _ => KStart
  | Wait _ => KWait
  | ResolveInterrupt _ _ => KResolveInterrupt
  | FireTimer _ _ => KFireTimer
  | RequestCancellation _ => KRequestCancellation
  | ConfirmCancellation _ _ => KConfirmCancellation
  | Succeed _ => KSucceed
  | Fail_ _ => KFail
  end.

Definition transition_changed_at (self : RunTransition) : Timestamp :=
  match self with
  | Start at_ => at_
  | Wait waits => registered_at waits
  | ResolveInterrupt _ at_ => at_
  | FireTimer _ at_ => at_
  | RequestCancellation req => cancellation_requested_at req
  | ConfirmCancellation at_ _ => at_
  | Succeed res => result_completed_at res
  | Fail_ f => failure_completed_at f
  end.

Inductive RunTransitionError :=
| InvalidTransition (status : RunStatus) (transition : RunTransitionKind)
| ClockRegression (previous actual : Timestamp)
| InterruptNotOutstanding (id : Z)
| InterruptExpired (id : Z) (expires resolved : Timestamp)
| TimerNotOutstanding (id : Z)
| TimerNotDue (id : Z) (due fired : Timestamp)
| ResultProvenanceMismatch (expected actual : AgentResultProvenance)
| CancellationError (source : RunCancellationError)
| RevisionOverflow.

Definition resolve_interrupt (waits : RunWaits) (id : Z) (resolved : Timestamp)
  : result RunTransitionError RunState :=
  interrupt ← ok_or (waits_interrupt waits id) (InterruptNotOutstanding id);
  _ ← match expires_at interrupt with
      | Some expires => reject_if (expires <=? resolved) (InterruptExpired id expires resolved)
      | None => Ok tt
      end;
  Ok (match without_interrupt waits id with
      | Some waits' => SWaiting waits' resolved
      | None => SActive resolved
      end).

Definition fire_timer (waits : RunWaits) (id : Z) (fired : Timestamp) : result RunTransitionError RunState :=
  timer ← ok_or (waits_timer waits id) (TimerNotOutstanding id);
  _ ← reject_if (fired <? due_at timer) (TimerNotDue id (due_at timer) fired);
  Ok (match without_timer waits id with
      | Some waits' => SWaiting waits' fired
      | None => SActive fired
      end).

Definition apply_transition (prov : AgentResultProvenance) (st : RunState) (tr : RunTransition)
  : result RunTransitionError RunState :=
  match st, tr with
  | SPending, Start started => Ok (SActive started)
  | SActive _, Wait waits => Ok (SWaiting waits (registered_at waits))
  | SWaiting waits _, ResolveInterrupt id resolved => resolve_interrupt waits id resolved
  | SWaiting waits _, FireTimer id fired => fire_timer waits id fired
  | (SPending | SActive _ | SWaiting _ _), RequestCancellation req => Ok (SCancellationRequested req)
  | SCancellationRequested req, ConfirmCancellation completed usage =>
      c ← map_err CancellationError (cancellation_new req completed usage);
      Ok (SCancelled c)
  | SActive _, Succeed res =>
      if negb (bool_decide (result_provenance res = prov))
      then Err (ResultProvenanceMismatch prov (result_provenance res))
      else Ok (SSucceeded res)
  | (SPending | SActive _ | SWaiting _ _), Fail_ f => Ok (SFailed f)
  | _, _ => Err (InvalidTransition (state_status st) (transition_kind tr))
  end.

Definition apply (self : RunLifecycle) (tr : RunTransition) : result RunTransitionError RunLifecycle :=
  if negb (transition_allowed (status self) (transition_kind tr))
  then Err (InvalidTransition (status self) (transition_kind tr)) else
  if transition_changed_at tr <? changed_at self
  then Err (ClockRegression (changed_at self) (transition_changed_at tr)) else
  next_state ← apply_transition (provenance self) (state self) tr;
  next_revision ← ok_or (Count.checked_add (revision self) 1) RevisionOverflow;
  Ok (mkLifecycle (provenance self) (admitted_at self) next_revision next_state).

Inductive RunLifecycleError :=
| PendingRevisionNotZero (actual : Z)
| AdvancedStateAtZeroRevision (status : RunStatus)
| StateBeforeAdmission (admitted changed : Timestamp)
| WaitingChangeBeforeRegistration (registered changed : Timestamp)
| SnapshotProvenanceMismatch (expected actual : AgentResultProvenance).

Definition validate_snapshot (self : RunLifecycle) : result RunLifecycleError unit :=
  if bool_decide (status self = Pending) && negb (revision self =? 0)
  then Err (PendingRevisionNotZero (revision self)) else
  if negb (bool_decide (status self = Pending)) && (revision self =? 0)
  then Err (AdvancedStateAtZeroRevision (status self)) else
  if changed_at self <? admitted_at self
  then Err (StateBeforeAdmission (admitted_at self) (changed_at self)) else
  _ ← match state self with
      | SWaiting waits changed =>
          reject_if (changed <? registered_at waits) (WaitingChangeBeforeRegistration (registered_at waits) changed)
      | _ => Ok tt
      end;
  match state self with
  | SSucceeded res =>
      reject_if (negb (bool_decide (result_provenance res = provenance self)))
                (SnapshotProvenanceMismatch (provenance self) (result_provenance res))
  | _ => Ok tt
  end.

(** Applying a recorded sequence of transitions. *)
Definition run_all (self : RunLifecycle) (trs : list RunTransition) : result RunTransitionError RunLifecycle :=
  try_fold apply self trs.
End Lifecycle.

Arguments AgentResultProvenance Capability : clear implicits.
Arguments Failure Details : clear implicits.
Arguments AgentResult Capability Schema Json Artifacts : clear implicits.
Arguments RunLifecycle Capability Schema Json Artifacts Details : clear implicits.
Arguments RunTransition Capability Schema Json Artifacts Details : clear implicits.
Arguments RunState Capability Schema Json Artifacts Details : clear implicits.
