(* ===== verification/RunLaws.v ===== *)
(** Theorems on the run lifecycle.  [rule] is the abstract transition system a
    run promises, one constructor per legal move; [apply] implements it
    exactly.  The rest are invariants of every reachable snapshot, the
    behaviour of waits, the cancellation latch and the absorbing terminal
    states. *)

From Stdlib Require Import ZArith Lia List Sorted.
From stdpp Require Import prelude.
From S2P Require Import Prelude Ordered Accounting Time Costs Budget BudgetLaws Run.

Open Scope Z_scope.
Import Timestamp(Timestamp).

(** * Wait sets *)

Module Waits.

(** The invariant of a [RunWaits] value. *)
Definition wf (w : RunWaits) : Prop :=
  values w <> [] /\ Z.of_nat (length (values w)) <= MAX_LEN /\
  NoDup (identity_uuid <$> values w) /\
  Forall (fun v => wait_registered_at v = registered_at w) (values w).

(** The loop invariant of [try_new]. *)
Definition loop_ok (st : list RunWait * option Timestamp) : Prop :=
  Z.of_nat (length st.1) <= MAX_LEN /\ NoDup (identity_uuid <$> st.1) /\
  match st.2 with
  | None => st.1 = []
  | Some t => st.1 <> [] /\ Forall (fun v => wait_registered_at v = t) st.1
  end.

Lemma existsb_identity c v :
  existsb (fun e => identity_uuid e =? identity_uuid v) c = true <-> identity_uuid v ∈ (identity_uuid <$> c).
Proof.
  rewrite existsb_exists, list_elem_of_fmap. split.
  - intros (x & Hx & E). bools. exists x. split; [done | by apply list_elem_of_In].
  - intros (x & E & Hx). exists x. split; [by apply list_elem_of_In | by apply Z.eqb_eq].
Qed.

Lemma step_iff c r v st :
  loop_ok (c, r) ->
  try_new_step (c, r) v = Ok st <-> st = (c ++ [v], Some (wait_registered_at v)) /\ loop_ok st.
Proof.
  intros (Hl & Hn & Hr). simpl in *. unfold try_new_step.
  destruct (Z.eqb_spec (Z.of_nat (length c)) MAX_LEN) as [E|E].
  { split; [done |]. intros [-> (Hl' & _)]. simpl in Hl'. rewrite length_app in Hl'. simpl in Hl'. lia. }
  assert (Hreg : match r with
                 | Some t => if negb (wait_registered_at v =? t) then Err (MixedRegistrationTimes t (wait_registered_at v)) else Ok (Some t)
                 | None => Ok (Some (wait_registered_at v)) end = Ok (Some (wait_registered_at v)) <->
                 Forall (fun x => wait_registered_at x = wait_registered_at v) c).
  { destruct r as [t|]; [| subst c; naive_solver].
    destruct (Z.eqb_spec (wait_registered_at v) t) as [<-|Hne]; simpl; [naive_solver |]. split; [done |].
    destruct Hr as [Hc HF]. destruct c as [|x c]; [done |]. intros [H1 _]%Forall_cons. apply Forall_cons in HF as [H2 _]. congruence. }
  assert (Hnew : loop_ok (c ++ [v], Some (wait_registered_at v)) <->
                 Forall (fun x => wait_registered_at x = wait_registered_at v) c /\ identity_uuid v ∉ (identity_uuid <$> c)).
  { unfold loop_ok. simpl. rewrite length_app, fmap_app, NoDup_app, Forall_app, Forall_singleton. simpl. split.
    - intros (_ & (_ & Hd & _) & _ & HF & _). split; [done |]. intros Hin. apply (Hd _ Hin). by left.
    - intros [HF Hnin]. split_and!; [lia | done | | apply NoDup_singleton | by destruct c | done | done].
      intros x Hx ->%list_elem_of_singleton. done. }
  destruct (existsb _ c) eqn:Ex.
  - apply existsb_identity in Ex. destruct (match r with Some _ => _ | None => _ end); simpl; (split; [done |]);
      intros [-> H]; apply Hnew in H as [_ H]; done.
  - assert (Hnin : identity_uuid v ∉ (identity_uuid <$> c)) by (intros H%existsb_identity; congruence).
    destruct (match r with Some _ => _ | None => _ end) as [r'|e] eqn:Er; simpl.
    + assert (r' = Some (wait_registered_at v)) as ->.
      { destruct r as [t|]; [| congruence]. destruct (Z.eqb_spec (wait_registered_at v) t); simpl in Er; congruence. }
      split; [intros [= <-]; split; [done |]; apply Hnew; split; [by apply Hreg | done] | by intros [-> _]].
    + split; [done |]. intros [-> H]. apply Hnew in H as [H _]. apply Hreg in H. done.
Qed.

Lemma fold_iff vs c r st :
  loop_ok (c, r) ->
  try_fold try_new_step (c, r) vs = Ok st <->
  st = (c ++ vs, match vs with [] => r | v :: _ => Some (wait_registered_at v) end) /\ loop_ok st.
Proof.
  revert c r. induction vs as [|v vs IH]; intros c r Hok; simpl.
  { rewrite app_nil_r. naive_solver. }
  rewrite bind_Ok. split.
  - intros (st1 & H1 & H2). apply step_iff in H1 as [-> Hok1]; [| done].
    apply IH in H2 as [-> Hok2]; [| done]. rewrite <- app_assoc in *. simpl in *. split; [| done]. f_equal.
    destruct vs as [|w vs]; [done |]. destruct Hok2 as (_ & _ & _ & HF). simpl in HF.
    rewrite Forall_app, !Forall_cons in HF. destruct HF as (_ & ? & ? & _). congruence.
  - intros [-> Hok2]. exists (c ++ [v], Some (wait_registered_at v)).
    assert (Hok1 : loop_ok (c ++ [v], Some (wait_registered_at v))).
    { destruct Hok2 as (Hl & Hn & _ & HF). simpl in *. split; simpl.
      - rewrite length_app in *. simpl in *. lia.
      - rewrite cons_middle, app_assoc in Hn, HF. rewrite fmap_app in Hn. apply NoDup_app in Hn as (Hn & _).
        apply Forall_app in HF as [HF _]. split; [done | split; [by destruct c | done]]. }
    split; [by apply step_iff |]. apply IH; [done |]. rewrite <- app_assoc. simpl. split; [| done]. f_equal.
    destruct vs as [|w vs]; [done |]. destruct Hok2 as (_ & _ & _ & HF). simpl in HF.
    rewrite Forall_app, !Forall_cons in HF. destruct HF as (_ & ? & ? & _). congruence.
Qed.

(** A wait set is well formed by construction: [RunWaits::try_new]
    accepts exactly one to sixty-four waits that were registered at one
    instant and have pairwise distinct identifiers, and keeps them unchanged
    in order. *)
Theorem waits_try_new_iff (vs : list RunWait) (w : RunWaits) :
  waits_try_new vs = Ok w <-> values w = vs /\ wf w.
Proof.
  unfold waits_try_new.
  assert (H0 : loop_ok ([], None)) by (split_and!; [simpl; unfold MAX_LEN; lia | constructor | done]).
  rewrite bind_Ok. split.
  - intros ([c r] & H & H'). apply fold_iff in H as [[= -> ->] Hok]; [| done]. simp_ok. subst. simpl. split; [done |].
    destruct vs as [|v vs]; [done |]. injection H as <-. destruct Hok as (Hl & Hn & Hne & HF). done.
  - intros [<- (Hne & Hl & Hn & HF)]. exists (values w, Some (registered_at w)). split; [| by destruct w].
    apply fold_iff; [done |]. simpl. split; [| done]. f_equal.
    destruct (values w) as [|v vs]; [done |]. apply Forall_cons in HF as [-> _]. done.
Qed.

(** Removing one identified wait removes exactly that wait. *)
Lemma filter_split (p : RunWait -> bool) vs x :
  NoDup (identity_uuid <$> vs) -> x ∈ vs -> p x = false ->
  (forall y, p y = false -> identity_uuid y = identity_uuid x) ->
  exists l1 l2, vs = l1 ++ x :: l2 /\ List.filter p vs = l1 ++ l2.
Proof.
  intros Hn Hx Hpx Hp. apply list_elem_of_split in Hx as (l1 & l2 & ->). exists l1, l2. split; [done |].
  assert (Hkeep : forall l, (forall y, y ∈ l -> identity_uuid y <> identity_uuid x) -> List.filter p l = l).
  { clear -Hp. induction l as [|y l IH]; intros H; simpl; [done |]. destruct (p y) eqn:E.
    - f_equal. apply IH. intros z Hz. apply H. by right.
    - destruct (H y); [by left | by apply Hp]. }
  rewrite List.filter_app. simpl. rewrite Hpx. rewrite fmap_app in Hn. apply NoDup_app in Hn as (_ & H1 & H2).
  rewrite fmap_cons in H1, H2. apply NoDup_cons in H2 as [H2 _]. rewrite !Hkeep; [done | |].
  - intros y Hy E. apply H2, list_elem_of_fmap. by exists y.
  - intros y Hy E. apply (H1 (identity_uuid y)); [apply list_elem_of_fmap; by exists y |]. rewrite E. by left.
Qed.

Lemma waits_interrupt_Some w id i :
  waits_interrupt w id = Some i -> Interrupt i ∈ values w /\ interrupt_id i = id.
Proof.
  unfold waits_interrupt. intros [Hin E]%find_some. bools. split; [| done].
  apply list_elem_of_In, list_elem_of_omap in Hin as ([j|t] & Hj & [= ->]). done.
Qed.

Lemma waits_timer_Some w id t :
  waits_timer w id = Some t -> Timer t ∈ values w /\ timer_id t = id.
Proof.
  unfold waits_timer. intros [Hin E]%find_some. bools. split; [| done].
  apply list_elem_of_In, list_elem_of_omap in Hin as ([j|u] & Hj & [= ->]). done.
Qed.

(** In a well-formed set an identifier determines its wait. *)
Lemma wf_identity w x y :
  wf w -> x ∈ values w -> y ∈ values w -> identity_uuid x = identity_uuid y -> x = y.
Proof.
  intros (_ & _ & Hn & _) (i & Hi)%list_elem_of_lookup (j & Hj)%list_elem_of_lookup E.
  assert (i = j) as ->; [| congruence].
  apply (NoDup_lookup _ _ _ (identity_uuid x) Hn); rewrite list_lookup_fmap; [by rewrite Hi | by rewrite Hj, E].
Qed.

Lemma waits_interrupt_complete w i :
  wf w -> Interrupt i ∈ values w -> waits_interrupt w (interrupt_id i) = Some i.
Proof.
  intros Hw Hi. destruct (waits_interrupt w (interrupt_id i)) as [j|] eqn:E.
  - apply waits_interrupt_Some in E as [Hj E]. assert (Interrupt j = Interrupt i) as [= ->]; [| done].
    by apply (wf_identity w).
  - exfalso. unfold waits_interrupt in E. apply (find_none _ _) with (x := i) in E.
    + by rewrite Z.eqb_refl in E.
    + apply list_elem_of_In, list_elem_of_omap. by exists (Interrupt i).
Qed.

Lemma waits_timer_complete w t :
  wf w -> Timer t ∈ values w -> waits_timer w (timer_id t) = Some t.
Proof.
  intros Hw Ht. destruct (waits_timer w (timer_id t)) as [u|] eqn:E.
  - apply waits_timer_Some in E as [Hu E]. assert (Timer u = Timer t) as [= ->]; [| done].
    by apply (wf_identity w).
  - exfalso. unfold waits_timer in E. apply (find_none _ _) with (x := t) in E.
    + by rewrite Z.eqb_refl in E.
    + apply list_elem_of_In, list_elem_of_omap. by exists (Timer t).
Qed.

Lemma without_interrupt_split w i l1 l2 :
  wf w -> values w = l1 ++ Interrupt i :: l2 ->
  without_interrupt w (interrupt_id i) = from_remaining (l1 ++ l2) (registered_at w).
Proof.
  intros (_ & _ & Hn & _) Hv. unfold without_interrupt.
  destruct (filter_split (fun w0 => match as_interrupt w0 with None => true | Some j => negb (interrupt_id j =? interrupt_id i) end)
              (values w) (Interrupt i) Hn) as (m1 & m2 & Hv' & ->).
  - rewrite Hv. apply list_elem_of_In, in_elt.
  - simpl. by rewrite Z.eqb_refl.
  - intros [j|t]; simpl; [| done]. intros E. bools. done.
  - assert (m1 = l1 /\ m2 = l2) as [-> ->]; [| done]. rewrite Hv in Hn, Hv'.
    by apply (NoDup_split_unique identity_uuid) in Hv'.
Qed.

Lemma without_timer_split w t l1 l2 :
  wf w -> values w = l1 ++ Timer t :: l2 ->
  without_timer w (timer_id t) = from_remaining (l1 ++ l2) (registered_at w).
Proof.
  intros (_ & _ & Hn & _) Hv. unfold without_timer.
  destruct (filter_split (fun w0 => match as_timer w0 with None => true | Some u => negb (timer_id u =? timer_id t) end)
              (values w) (Timer t) Hn) as (m1 & m2 & Hv' & ->).
  - rewrite Hv. apply list_elem_of_In, in_elt.
  - simpl. by rewrite Z.eqb_refl.
  - intros [j|u]; simpl; [done |]. intros E. bools. done.
  - assert (m1 = l1 /\ m2 = l2) as [-> ->]; [| done]. rewrite Hv in Hn, Hv'.
    by apply (NoDup_split_unique identity_uuid) in Hv'.
Qed.

Lemma remaining_wf w x l1 l2 :
  wf w -> values w = l1 ++ x :: l2 -> l1 ++ l2 <> [] -> wf (mkWaits (l1 ++ l2) (registered_at w)).
Proof.
  intros (_ & Hl & Hn & HF) Hv Hne. rewrite Hv in *. split_and!; [done | | |]; simpl.
  - rewrite !length_app in *. simpl in Hl. lia.
  - rewrite fmap_app in *. rewrite fmap_cons in Hn. apply NoDup_app in Hn as (H1 & H2 & H3).
    apply NoDup_cons in H3 as [_ H3]. apply NoDup_app. split_and!; [done | | done]. intros y Hy Hy2. apply (H2 y Hy). by right.
  - apply Forall_app in HF as [H1 [_ H2]%Forall_cons]. by apply Forall_app.
Qed.

End Waits.

(** * The lifecycle as a transition system *)

Module Lifecycle.

Section Laws.
Context {Capability Schema Json Artifacts Details : Type} `{!EqDecision Capability}.

#[local] Abbreviation Lifecycle := (RunLifecycle Capability Schema Json Artifacts Details).
#[local] Abbreviation Transition := (RunTransition Capability Schema Json Artifacts Details).
#[local] Abbreviation State := (RunState Capability Schema Json Artifacts Details).
Implicit Types (l : Lifecycle) (tr : Transition) (st : State).

(** States a run still works in. *)
Definition live (st : State) : Prop :=
  match st with SPending | SActive _ | SWaiting _ _ => True | _ => False end.

(** The moves a run promises, one constructor per legal move.  A wait leaves
    the set by being answered before its expiry or fired at or after its due
    time; the run becomes active again when the last one leaves. *)
Inductive rule (prov : AgentResultProvenance Capability) : State -> Transition -> State -> Prop :=
| rule_start at_ : rule prov SPending (Start at_) (SActive at_)
| rule_wait since w : rule prov (SActive since) (Wait w) (SWaiting w (registered_at w))
| rule_resolve w since i pre post at_ :
    values w = pre ++ Interrupt i :: post -> pre ++ post <> [] ->
    (forall e, expires_at i = Some e -> at_ < e) ->
    rule prov (SWaiting w since) (ResolveInterrupt (interrupt_id i) at_)
              (SWaiting (mkWaits (pre ++ post) (registered_at w)) at_)
| rule_resolve_last w since i at_ :
    values w = [Interrupt i] ->
    (forall e, expires_at i = Some e -> at_ < e) ->
    rule prov (SWaiting w since) (ResolveInterrupt (interrupt_id i) at_) (SActive at_)
| rule_fire w since t pre post at_ :
    values w = pre ++ Timer t :: post -> pre ++ post <> [] -> due_at t <= at_ ->
    rule prov (SWaiting w since) (FireTimer (timer_id t) at_)
              (SWaiting (mkWaits (pre ++ post) (registered_at w)) at_)
| rule_fire_last w since t at_ :
    values w = [Timer t] -> due_at t <= at_ ->
    rule prov (SWaiting w since) (FireTimer (timer_id t) at_) (SActive at_)
| rule_request st req : live st -> rule prov st (RequestCancellation req) (SCancellationRequested req)
| rule_confirm req at_ usage :
    cancellation_requested_at req <= at_ ->
    rule prov (SCancellationRequested req) (ConfirmCancellation at_ usage) (SCancelled (mkCancellation req at_ usage))
| rule_succeed since res :
    result_provenance res = prov -> rule prov (SActive since) (Succeed res) (SSucceeded res)
| rule_fail st f : live st -> rule prov st (Fail_ f) (SFailed f).

Definition state_wf (st : State) : Prop :=
  match st with SWaiting w _ => Waits.wf w | _ => True end.

(** A transition as the constructors of its payload build it. *)
Definition transition_wf (tr : Transition) : Prop :=
  match tr with Wait w => Waits.wf w | _ => True end.

(** Every move of the system is allowed by the status table. *)
Lemma rule_allowed prov st tr st' :
  rule prov st tr st' -> transition_allowed (state_status st) (transition_kind tr) = true.
Proof. destruct 1 as [| | | | | | st ? Hl | | | st ? Hl]; try done; by destruct st. Qed.

Lemma rule_changed_at prov st tr st' adm :
  rule prov st tr st' -> state_changed_at st' adm = transition_changed_at tr.
Proof. by destruct 1. Qed.

(** Taking one wait out of a set, with what is left of it. *)
Definition after_removal (pre post : list RunWait) (reg at_ : Timestamp) : State :=
  match from_remaining (pre ++ post) reg with Some w' => SWaiting w' at_ | None => SActive at_ end.

Lemma from_remaining_cases (pre post : list RunWait) reg at_ :
  (pre = [] /\ post = [] /\ after_removal pre post reg at_ = SActive at_) \/
  (pre ++ post <> [] /\ after_removal pre post reg at_ = SWaiting (mkWaits (pre ++ post) reg) at_).
Proof. unfold after_removal. destruct pre, post; simpl; auto. Qed.

Lemma resolve_interrupt_iff (w : RunWaits) id at_ st' :
  Waits.wf w ->
  resolve_interrupt w id at_ = Ok st' <->
  exists i pre post, values w = pre ++ Interrupt i :: post /\ interrupt_id i = id /\
    (forall e, expires_at i = Some e -> at_ < e) /\ st' = after_removal pre post (registered_at w) at_.
Proof.
  intros Hw. unfold resolve_interrupt. split.
  - intros H. simp_ok. apply Waits.waits_interrupt_Some in H as [Hin <-].
    apply list_elem_of_split in Hin as (pre & post & Hv). exists x, pre, post. split_and!; [done | done | |].
    + intros e He. rewrite He in H0. simp_ok. bool_lia.
    + subst st'. by rewrite (Waits.without_interrupt_split w x pre post).
  - intros (i & pre & post & Hv & <- & He & ->).
    rewrite (Waits.waits_interrupt_complete w i), (Waits.without_interrupt_split w i pre post); [|done|done|done|].
    2: rewrite Hv; apply list_elem_of_In, in_elt.
    simpl. destruct (expires_at i) as [e|]; [| done]. specialize (He e eq_refl). simpl.
    by destruct (Z.leb_spec e at_); [lia |].
Qed.

Lemma fire_timer_iff (w : RunWaits) id at_ st' :
  Waits.wf w ->
  fire_timer w id at_ = Ok st' <->
  exists t pre post, values w = pre ++ Timer t :: post /\ timer_id t = id /\
    due_at t <= at_ /\ st' = after_removal pre post (registered_at w) at_.
Proof.
  intros Hw. unfold fire_timer. split.
  - intros H. simp_ok. apply Waits.waits_timer_Some in H as [Hin <-].
    apply list_elem_of_split in Hin as (pre & post & Hv). exists x, pre, post. split_and!; [done | done | bool_lia |].
    subst st'. by rewrite (Waits.without_timer_split w x pre post).
  - intros (t & pre & post & Hv & <- & He & ->).
    rewrite (Waits.waits_timer_complete w t), (Waits.without_timer_split w t pre post); [|done|done|done|].
    2: rewrite Hv; apply list_elem_of_In, in_elt.
    simpl. by destruct (Z.ltb_spec at_ (due_at t)); [lia |].
Qed.

Lemma apply_transition_iff prov st tr st' :
  state_wf st -> apply_transition prov st tr = Ok st' <-> rule prov st tr st'.
Proof.
  intros Hw. split.
  - destruct st as [|since|w since|req|res|f|c], tr; simpl; intros H; simp_ok; subst; try by constructor.
    + bools. by constructor.
    + apply resolve_interrupt_iff in H as (i & pre & post & Hv & <- & He & ->); [| done].
      destruct (from_remaining_cases pre post (registered_at w) resolved_at) as [(-> & -> & ->)|(Hne & ->)];
        [by apply rule_resolve_last | by apply rule_resolve].
    + apply fire_timer_iff in H as (i & pre & post & Hv & <- & He & ->); [| done].
      destruct (from_remaining_cases pre post (registered_at w) fired_at) as [(-> & -> & ->)|(Hne & ->)];
        [by apply rule_fire_last | by apply rule_fire].
    + unfold cancellation_new in H. simp_ok. subst. constructor. bool_lia.
  - destruct 1 as [| | w since i pre post at_ Hv Hne He | w since i at_ Hv He | w since t pre post at_ Hv Hne Hd
                  | w since t at_ Hv Hd | st ? Hl | req at_ usage Hle | since res Hp | st ? Hl]; try done; simpl.
    + apply resolve_interrupt_iff; [done |]. exists i, pre, post. split_and!; try done.
      by destruct (from_remaining_cases pre post (registered_at w) at_) as [(-> & -> & _)|(_ & ->)].
    + apply resolve_interrupt_iff; [done |]. by exists i, [], [].
    + apply fire_timer_iff; [done |]. exists t, pre, post. split_and!; try done.
      by destruct (from_remaining_cases pre post (registered_at w) at_) as [(-> & -> & _)|(_ & ->)].
    + apply fire_timer_iff; [done |]. by exists t, [], [].
    + by destruct st.
    + unfold cancellation_new. by destruct (Z.ltb_spec at_ (cancellation_requested_at req)); [lia |].
    + by rewrite bool_decide_eq_true_2.
    + by destruct st.
Qed.

(** What one accepted call of [apply] does, in terms of the rules. *)
Definition accepted (l : Lifecycle) (tr : Transition) (l' : Lifecycle) : Prop :=
  provenance l' = provenance l /\ admitted_at l' = admitted_at l /\
  revision l' = revision l + 1 /\ revision l < u64_max /\
  changed_at l <= transition_changed_at tr /\ rule (provenance l) (state l) tr (state l').

Lemma apply_iff l tr l' : state_wf (state l) -> apply l tr = Ok l' <-> accepted l tr l'.
Proof.
  intros Hw. unfold apply, accepted. split.
  - intros H. simp_ok. subst l'. simpl. apply apply_transition_iff in H; [| done].
    unfold Count.checked_add in *. apply checked_add_Some in H0 as [-> ?]. split_and!; try done; bool_lia.
  - intros (Hp & Ha & Hr & Hlt & Ht & Hrule). unfold status. rewrite (rule_allowed _ _ _ _ Hrule). simpl.
    destruct (Z.ltb_spec (transition_changed_at tr) (changed_at l)); [lia |].
    apply apply_transition_iff in Hrule as ->; [| done]. simpl.
    assert (Count.checked_add (revision l) 1 = Some (revision l + 1)) as -> by (apply checked_add_Some; lia). simpl.
    destruct l'; simpl in *. by subst.
Qed.

Lemma rule_state_wf prov st tr st' : state_wf st -> transition_wf tr -> rule prov st tr st' -> state_wf st'.
Proof. intros Hs Ht. destruct 1; simpl in *; try done; by eapply Waits.remaining_wf. Qed.

(** Runs of the abstract system. *)
Inductive trace : Lifecycle -> list Transition -> Lifecycle -> Prop :=
| trace_nil l : trace l [] l
| trace_cons l tr l1 trs l2 : accepted l tr l1 -> trace l1 trs l2 -> trace l (tr :: trs) l2.

Lemma run_all_iff trs l l' :
  state_wf (state l) -> Forall transition_wf trs -> run_all l trs = Ok l' <-> trace l trs l'.
Proof.
  intros Hw Ht. revert l Hw. induction Ht as [|tr trs Htr _ IH]; intros l Hw; simpl.
  { split; [intros [= <-]; constructor | by inversion 1]. }
  change (run_all l (tr :: trs)) with (l1 ← apply l tr; run_all l1 trs). rewrite bind_Ok. split.
  - intros (l1 & H1%apply_iff & H2); [| done]. econstructor; [done |]. apply IH; [| done].
    destruct H1 as (_ & _ & _ & _ & _ & H1). by eapply rule_state_wf.
  - inversion 1 as [|? ? l1 ? ? H1 H2]; subst. exists l1. split; [by apply apply_iff |]. apply IH; [| done].
    destruct H1 as (_ & _ & _ & _ & _ & H1). by eapply rule_state_wf.
Qed.

Lemma trace_app_inv l trs1 trs2 l' : trace l (trs1 ++ trs2) l' -> exists l1, trace l trs1 l1 /\ trace l1 trs2 l'.
Proof.
  revert l. induction trs1 as [|tr trs1 IH]; simpl; intros l H; [exists l; split; [constructor | done] |].
  inversion H as [|? ? l1 ? ? H1 H2]; subst. apply IH in H2 as (l2 & H2 & H3).
  exists l2. split; [by econstructor | done].
Qed.

(** The invariant of every lifecycle reached from admission. *)
Record reached (prov : AgentResultProvenance Capability) (adm : Timestamp) (trs : list Transition) l : Prop := {
  reached_provenance : provenance l = prov;
  reached_admitted_at : admitted_at l = adm;
  reached_revision : revision l = Z.of_nat (length trs);
  reached_bound : 0 <= revision l <= u64_max;
  reached_clock : adm <= changed_at l;
  reached_snapshot : validate_snapshot l = Ok tt
}.

Lemma rule_not_pending prov st tr st' : rule prov st tr st' -> state_status st' <> Pending.
Proof. by destruct 1. Qed.

Lemma rule_snapshot prov st tr st' adm :
  rule prov st tr st' -> state_changed_at st adm <= transition_changed_at tr ->
  (forall w c, st = SWaiting w c -> registered_at w <= c) ->
  (forall w c, st' = SWaiting w c -> registered_at w <= c) /\
  (forall res, st' = SSucceeded res -> result_provenance res = prov).
Proof.
  intros Hr Hc Hw. split.
  - intros w0 c0 ->. inversion Hr; subst; simpl in *; try lia; specialize (Hw _ _ eq_refl); simpl in *; lia.
  - intros res ->. by inversion Hr.
Qed.

Lemma snapshot_iff l :
  validate_snapshot l = Ok tt <->
  (state_status (state l) = Pending <-> revision l = 0) /\ admitted_at l <= changed_at l /\
  (forall w c, state l = SWaiting w c -> registered_at w <= c) /\
  (forall res, state l = SSucceeded res -> result_provenance res = provenance l).
Proof.
  unfold validate_snapshot, status, changed_at. destruct l as [prov adm rev st]. simpl.
  destruct (Z.eqb_spec rev 0) as [->|Hne], (Z.ltb_spec (state_changed_at st adm) adm), st; simpl in *; unfold reject_if;
    repeat case_bool_decide; repeat match goal with |- context [Z.ltb ?a ?b] => destruct (Z.ltb_spec a b) end;
    simpl; (split; [intros; try done; split_and!; try done; intros; simplify_eq; try done; try lia |
                    intros ([H1 H2] & ? & H4 & H5); try done; try lia; try (by specialize (H1 eq_refl));
                    try (by specialize (H2 eq_refl)); try (specialize (H4 _ _ eq_refl); lia);
                    try (by specialize (H5 _ eq_refl))]).
Qed.

Lemma reached_step prov adm trs l tr l' :
  reached prov adm trs l -> accepted l tr l' -> reached prov adm (trs ++ [tr]) l'.
Proof.
  intros [Hp Ha Hr Hb Hc Hs] (Hp' & Ha' & Hr' & Hlt & Ht & Hrule).
  apply snapshot_iff in Hs as (_ & _ & Hw & _).
  assert (Hchg : changed_at l' = transition_changed_at tr) by by eapply rule_changed_at.
  destruct (rule_snapshot _ _ _ _ (admitted_at l) Hrule Ht Hw) as [Hw' Hres].
  constructor; try congruence; try lia.
  - rewrite length_app. simpl. lia.
  - apply snapshot_iff. split_and!; try done.
    + split; [by intros ?%(rule_not_pending _ _ _ _ Hrule) | lia].
    + lia.
    + intros res E. rewrite Hp'. by apply Hres.
Qed.

Lemma trace_reached prov adm trs0 l trs l' :
  reached prov adm trs0 l -> trace l trs l' -> reached prov adm (trs0 ++ trs) l'.
Proof.
  intros Hi Ht. revert trs0 Hi. induction Ht as [l|l tr l1 trs l2 H1 _ IH]; intros trs0 Hi.
  - by rewrite app_nil_r.
  - rewrite cons_middle, app_assoc. apply IH. by eapply reached_step.
Qed.

Lemma reached_admitted prov adm : reached prov adm [] (admitted prov adm).
Proof. constructor; try done. apply snapshot_iff. split_and!; by try (unfold changed_at; simpl; lia). Qed.

(** The times of a run never go back. *)
Lemma trace_clock l trs l' :
  trace l trs l' -> Sorted Z.le (changed_at l :: (transition_changed_at <$> trs)) /\
    last (changed_at l :: (transition_changed_at <$> trs)) = Some (changed_at l').
Proof.
  induction 1 as [l|l tr l1 trs l2 (_ & _ & _ & _ & Ht & Hr) _ [IH1 IH2]]; [by repeat constructor |].
  assert (Hchg : changed_at l1 = transition_changed_at tr) by by eapply rule_changed_at.
  rewrite Hchg in IH1, IH2. split; [| done]. constructor; [done |]. by constructor.
Qed.

(** C1: [RunLifecycle::apply], iterated over a recorded sequence of
    transitions, implements the abstract transition system exactly: a
    sequence is accepted with a final lifecycle if and only if the system
    has that run, where each step moves the state by a rule, keeps the
    provenance and the admission time, does not go back in time and adds one
    to a revision below the 64-bit maximum. *)
Theorem apply_refines_rules (l l' : Lifecycle) (trs : list Transition)
  (Hl : state_wf (state l)) (Htrs : Forall transition_wf trs) :
  run_all l trs = Ok l' <-> trace l trs l'.
Proof. by apply run_all_iff. Qed.

(** C27: Every lifecycle reached from admission by accepted transitions
    passes the validation applied to restored snapshots, keeps the
    provenance and admission time it was admitted with, has a revision equal
    to the number of transitions, and its times never go back: the sequence
    admission, transition times is ascending and ends in the last change. *)
Theorem admitted_runs_reach_valid_snapshots (prov : AgentResultProvenance Capability) (adm : Timestamp)
  (trs : list Transition) (l : Lifecycle)
  (Htrs : Forall transition_wf trs) (Hrun : run_all (admitted prov adm) trs = Ok l) :
  validate_snapshot l = Ok tt /\ provenance l = prov /\ admitted_at l = adm /\
  revision l = Z.of_nat (length trs) /\ is_u64 (revision l) /\ state_wf (state l) /\
  Sorted Z.le (adm :: (transition_changed_at <$> trs)) /\
  last (adm :: (transition_changed_at <$> trs)) = Some (changed_at l).
Proof.
  apply run_all_iff in Hrun; [| done | done].
  destruct (trace_reached _ _ _ _ _ _ (reached_admitted prov adm) Hrun) as [H1 H2 H3 H4 H5 H6].
  destruct (trace_clock _ _ _ Hrun) as [Hs Hlast]. split_and!; try done.
  clear -Hrun Htrs. remember (admitted prov adm) as l0 eqn:E.
  assert (Hw : state_wf (state l0)) by by subst. clear E.
  induction Hrun as [|? ? ? ? ? (_ & _ & _ & _ & _ & H) _ IH]; [done |].
  apply Forall_cons in Htrs as [Ht Htrs]. apply IH; [done |]. by eapply rule_state_wf.
Qed.

Lemma run_all_cons l tr trs : run_all l (tr :: trs) = (l1 ← apply l tr; run_all l1 trs).
Proof. done. Qed.

Lemma terminal_rejects l tr :
  is_terminal (status l) = true -> apply l tr = Err (InvalidTransition (status l) (transition_kind tr)).
Proof. intros H. unfold apply. by destruct (status l), tr. Qed.

Lemma rule_latched prov req tr st' :
  rule prov (SCancellationRequested req) tr st' ->
  exists at_ usage, tr = ConfirmCancellation at_ usage /\ st' = SCancelled (mkCancellation req at_ usage).
Proof. inversion 1; subst; simpl in *; try done. eauto. Qed.

(** A run ends once and a cancellation request is a latch.  No sequence
    of transitions leaves a terminal lifecycle: each is rejected as an
    invalid transition.  After a cancellation request nothing but its
    confirmation is accepted, and the original request is kept. *)
Theorem terminal_and_cancellation_latch (l l' : Lifecycle) (trs : list Transition) :
  (is_terminal (status l) = true -> run_all l trs = Ok l' <-> trs = [] /\ l' = l) /\
  (forall req, cancellation_request l = Some req -> run_all l trs = Ok l' ->
     cancellation_request l' = Some req /\
     (l' = l \/ (exists at_ usage, trs = [ConfirmCancellation at_ usage] /\
                  state l' = SCancelled (mkCancellation req at_ usage)))).
Proof.
  assert (Hterm : forall l0 trs0, is_terminal (status l0) = true -> run_all l0 trs0 = Ok l' <-> trs0 = [] /\ l' = l0).
  { intros l0 [|tr trs0] H; [split; [by intros [= <-] | by intros [_ ->]] |].
    rewrite run_all_cons, terminal_rejects by done. by split; [| intros []]. }
  split; [apply Hterm |]. intros req Hreq Hrun. destruct trs as [|tr trs]; [injection Hrun as <-; by split; [| left] |].
  rewrite run_all_cons in Hrun. simp_ok. unfold cancellation_request in Hreq.
  destruct (state l) as [| | |req'| | |c] eqn:E; try done.
  - injection Hreq as ->. assert (Hw : state_wf (state l)) by by rewrite E.
    apply apply_iff in H as (_ & _ & _ & _ & _ & Hr); [| done]. rewrite E in Hr.
    apply rule_latched in Hr as (at_ & usage & -> & Hst).
    apply Hterm in H0 as [-> ->]; [| unfold status; by rewrite Hst].
    split; [unfold cancellation_request; by rewrite Hst | right; by exists at_, usage].
  - by rewrite terminal_rejects in H by (unfold status; by rewrite E).
Qed.

(** Answers to waits and the identity each names. *)
Definition answered (tr : Transition) : option Z :=
  match tr with ResolveInterrupt id _ | FireTimer id _ => Some id | _ => None end.

(** Identities outstanding in a state. *)
Definition outstanding (st : State) : list Z :=
  match st with SWaiting w _ => identity_uuid <$> values w | _ => [] end.

(** A state between answers: waiting on something, or active on nothing. *)
Definition between_answers (st : State) : Prop :=
  match st with SWaiting w _ => values w <> [] | SActive _ => True | _ => False end.

Lemma rule_answer prov st tr st' id :
  rule prov st tr st' -> answered tr = Some id ->
  outstanding st ≡ₚ id :: outstanding st' /\ between_answers st'.
Proof.
  destruct 1 as [| | w since i pre post at_ Hv Hne He | w since i at_ Hv He | w since t pre post at_ Hv Hne Hd
                | w since t at_ Hv Hd | | | |]; simpl; try done; intros [= <-]; rewrite Hv;
    rewrite ?fmap_app, ?fmap_cons; (split; [| done]); simpl; [by rewrite Permutation_middle | done | | done].
  by rewrite Permutation_middle.
Qed.

Lemma trace_answers l trs l' :
  trace l trs l' -> between_answers (state l) -> Forall (fun tr => is_Some (answered tr)) trs ->
  outstanding (state l) ≡ₚ omap answered trs ++ outstanding (state l') /\ between_answers (state l') /\
  length (omap answered trs) = length trs.
Proof.
  induction 1 as [l|l tr l1 trs l2 H1 _ IH]; [done |]. intros _ [[id Hid] Htrs]%Forall_cons.
  destruct H1 as (_ & _ & _ & _ & _ & Hr). destruct (rule_answer _ _ _ _ _ Hr Hid) as [Hp Hb].
  destruct (IH Hb Htrs) as (Hp2 & Hb2 & Hlen). 
  change (omap answered (tr :: trs)) with (match answered tr with Some y => y :: omap answered trs | None => omap answered trs end).
  rewrite Hid.
  split_and!; [by rewrite Hp, Hp2 | done | simpl; by f_equal].
Qed.

(** Every wait is answered at most once and a run resumes exactly when
    none is left.  While a waiting run only receives interrupt resolutions
    and timer firings, the answered identities together with the ones still
    outstanding are a permutation of the identities registered by the wait,
    and the run is active again if and only if all of them were answered. *)
Theorem waits_answered_exactly_once (l l' : Lifecycle) (w : RunWaits) (since : Timestamp) (trs : list Transition)
  (Hst : state l = SWaiting w since) (Hw : Waits.wf w)
  (Htrs : Forall (fun tr => is_Some (answered tr)) trs) (Hrun : run_all l trs = Ok l') :
  (identity_uuid <$> values w) ≡ₚ omap answered trs ++ outstanding (state l') /\
  (status l' = Active <-> length trs = length (values w)) /\
  (status l' = Waiting <-> (length trs < length (values w))%nat).
Proof.
  assert (Htw : Forall transition_wf trs).
  { eapply Forall_impl; [done |]. intros tr [id Hid]. by destruct tr. }
  apply run_all_iff in Hrun; [| by rewrite Hst | done].
  destruct (trace_answers _ _ _ Hrun) as (Hp & Hb & Hlen); [rewrite Hst; by destruct Hw | done |].
  rewrite Hst in Hp. simpl in Hp. split; [done |]. apply Permutation_length in Hp.
  rewrite length_app, length_fmap, Hlen in Hp. unfold status.
  destruct (state l') as [|since'|w' since'| | | |]; try done; simpl in *; [split; split; intros; by try lia |].
  rewrite length_fmap in Hp. destruct (values w'); [done |]. simpl in Hp. split; split; intros; by try lia.
Qed.

(** Each error names a condition of the arguments, and later checks are only
    reached when the earlier ones pass. *)
Definition error_explained (l : Lifecycle) (tr : Transition) (e : RunTransitionError) : Prop :=
  let in_order := transition_allowed (status l) (transition_kind tr) = true /\ changed_at l <= transition_changed_at tr in
  match e with
  | InvalidTransition s k =>
      s = status l /\ k = transition_kind tr /\ transition_allowed s k = false
  | ClockRegression previous actual =>
      transition_allowed (status l) (transition_kind tr) = true /\
      previous = changed_at l /\ actual = transition_changed_at tr /\ actual < previous
  | InterruptNotOutstanding id =>
      in_order /\ exists w since at_, state l = SWaiting w since /\ tr = ResolveInterrupt id at_ /\
        forall i, Interrupt i ∈ values w -> interrupt_id i <> id
  | InterruptExpired id expires resolved =>
      in_order /\ exists w since i, state l = SWaiting w since /\ tr = ResolveInterrupt id resolved /\
        Interrupt i ∈ values w /\ interrupt_id i = id /\ expires_at i = Some expires /\ expires <= resolved
  | TimerNotOutstanding id =>
      in_order /\ exists w since at_, state l = SWaiting w since /\ tr = FireTimer id at_ /\
        forall t, Timer t ∈ values w -> timer_id t <> id
  | TimerNotDue id due fired =>
      in_order /\ exists w since t, state l = SWaiting w since /\ tr = FireTimer id fired /\
        Timer t ∈ values w /\ timer_id t = id /\ due_at t = due /\ fired < due
  | ResultProvenanceMismatch expected actual =>
      in_order /\ expected = provenance l /\ expected <> actual /\
        exists since res, state l = SActive since /\ tr = Succeed res /\ result_provenance res = actual
  | CancellationError _ => False
  | RevisionOverflow => in_order /\ u64_max <= revision l
  end.

Lemma resolve_interrupt_Err w since id at_ l e :
  Waits.wf w -> state l = SWaiting w since -> changed_at l <= at_ ->
  (resolve_interrupt w id at_ : result _ State) = Err e -> error_explained l (ResolveInterrupt id at_) e.
Proof.
  intros Hw Hst Hc. unfold resolve_interrupt. destruct (waits_interrupt w id) as [i|] eqn:Ei; simpl.
  - apply Waits.waits_interrupt_Some in Ei as [Hi Hid]. destruct (expires_at i) as [x|] eqn:Ex; [| done].
    unfold reject_if. destruct (Z.leb_spec x at_); simpl; [| done]. intros [= <-]. simpl. unfold status. rewrite Hst.
    split; [done |]. by exists w, since, i.
  - intros [= <-]. simpl. unfold status. rewrite Hst. split; [done |]. exists w, since, at_. split_and!; try done.
    intros i Hi E. apply Waits.waits_interrupt_complete in Hi; [| done]. congruence.
Qed.

Lemma fire_timer_Err w since id at_ l e :
  Waits.wf w -> state l = SWaiting w since -> changed_at l <= at_ ->
  (fire_timer w id at_ : result _ State) = Err e -> error_explained l (FireTimer id at_) e.
Proof.
  intros Hw Hst Hc. unfold fire_timer. destruct (waits_timer w id) as [t|] eqn:Et; simpl.
  - apply Waits.waits_timer_Some in Et as [Ht Hid].
    unfold reject_if. destruct (Z.ltb_spec at_ (due_at t)); simpl; [| done]. intros [= <-]. simpl. unfold status. rewrite Hst.
    split; [done |]. by exists w, since, t.
  - intros [= <-]. simpl. unfold status. rewrite Hst. split; [done |]. exists w, since, at_. split_and!; try done.
    intros t Ht E. apply Waits.waits_timer_complete in Ht; [| done]. congruence.
Qed.

Lemma apply_transition_Err l tr e :
  state_wf (state l) -> transition_allowed (status l) (transition_kind tr) = true ->
  changed_at l <= transition_changed_at tr ->
  apply_transition (provenance l) (state l) tr = Err e -> error_explained l tr e.
Proof.
  intros Hw Ha Hc He. unfold status in Ha.
  destruct (state l) as [|since|w since|req|res|f|c] eqn:Hst, tr; try done; simpl in Ha, Hw, He.
  - case_bool_decide as Hp; simpl in He; [done |]. injection He as <-. simpl. unfold status. rewrite Hst.
    split_and!; [done | done | done | congruence | by exists since, res].
  - by eapply resolve_interrupt_Err.
  - by eapply fire_timer_Err.
  - unfold cancellation_new in He. unfold changed_at in Hc. rewrite Hst in Hc. simpl in Hc.
    by destruct (Z.ltb_spec completed (cancellation_requested_at req)); [lia |].
Qed.

(** Every rejection by [RunLifecycle::apply] is explained by its
    arguments, with the checks in the source's order: the status table
    first, then the clock, then the payload, then the revision.  The
    variants the code keeps for completeness never occur: a confirmation
    that precedes its request is always caught as a clock regression. *)
Theorem apply_error_explained (l : Lifecycle) (tr : Transition) (e : RunTransitionError)
  (Hl : state_wf (state l)) (He : apply l tr = Err e) : error_explained l tr e.
Proof.
  unfold apply in He. destruct (transition_allowed _ _) eqn:Ha; simpl in He; [| by injection He as <-].
  destruct (Z.ltb_spec (transition_changed_at tr) (changed_at l)) as [Hlt|Hc]; [by injection He as <- |].
  apply bind_Err in He as [He | (st' & Hok & He)]; [by apply apply_transition_Err |].
  destruct (Count.checked_add (revision l) 1) eqn:Er; simpl in He; [done |]. injection He as <-. simpl.
  apply checked_add_None in Er. split; [done | lia].
Qed.
End Laws.

(** ** A concrete run *)

Abbreviation SampleLifecycle := (RunLifecycle Z unit unit unit unit).
Abbreviation SampleTransition := (RunTransition Z unit unit unit unit).

Definition sample_provenance : AgentResultProvenance Z := mkProvenance (bytes_of "acme") 1 2 3 4.
Definition sample_waits : RunWaits :=
  mkWaits [Interrupt (mkInterrupt 7 Approval 10 (Some 100)); Timer (mkTimer 8 Sleep 10 20)] 10.
Definition sample_result : AgentResult Z unit unit unit := mkResult sample_provenance 30 tt tt tt BudgetUsage.zero.
Definition sample_answers : list SampleTransition := [ResolveInterrupt 7 15; FireTimer 8 20].
Definition sample_run : list SampleTransition := [Start 5; Wait sample_waits] ++ sample_answers ++ [Succeed sample_result].
Definition sample_waiting : SampleLifecycle := mkLifecycle sample_provenance 0 2 (SWaiting sample_waits 10).
Definition sample_resumed : SampleLifecycle := mkLifecycle sample_provenance 0 4 (SActive 20).
Definition sample_done : SampleLifecycle := mkLifecycle sample_provenance 0 5 (SSucceeded sample_result).

Lemma sample_waits_wf : Waits.wf sample_waits.
Proof. split_and!; [done | done | by apply (bool_decide_unpack _) | by repeat constructor]. Qed.

Lemma sample_run_wf : Forall transition_wf sample_run.
Proof. repeat (constructor; try exact sample_waits_wf); exact I. Qed.

Lemma apply_refines_rules_witness : trace (admitted sample_provenance 0) sample_run sample_done.
Proof.
  apply (apply_refines_rules (admitted sample_provenance 0) sample_done sample_run);
    [exact I | exact sample_run_wf | vm_compute; reflexivity].
Defined.

Lemma admitted_runs_reach_valid_snapshots_witness :
  validate_snapshot sample_done = Ok tt /\ revision sample_done = 5.
Proof.
  destruct (admitted_runs_reach_valid_snapshots sample_provenance 0 sample_run sample_done)
    as (H & _ & _ & H' & _); [exact sample_run_wf | vm_compute; reflexivity |].
  split; [exact H | exact H'].
Defined.

Definition sample_failure : Failure unit := mkFailure 9 Cancelled_ [] [] [] Never None None.
Definition sample_request := mkCancellationRequest sample_failure 12.
Definition sample_cancelling : SampleLifecycle :=
  mkLifecycle sample_provenance 0 3 (SCancellationRequested sample_request).
Definition sample_cancelled : SampleLifecycle :=
  mkLifecycle sample_provenance 0 4 (SCancelled (mkCancellation sample_request 13 BudgetUsage.zero)).

Lemma terminal_and_cancellation_latch_witness :
  run_all sample_done [Start 40] <> Ok sample_done /\ cancellation_request sample_cancelled = Some sample_request.
Proof.
  split.
  - intros H. apply (terminal_and_cancellation_latch sample_done sample_done [Start 40]) in H as [H _]; [discriminate H | reflexivity].
  - apply (terminal_and_cancellation_latch sample_cancelling sample_cancelled [ConfirmCancellation 13 BudgetUsage.zero]);
      vm_compute; reflexivity.
Defined.

Lemma waits_answered_exactly_once_witness :
  [7; 8] ≡ₚ [7; 8] ++ [] /\ status sample_resumed = Active.
Proof.
  destruct (waits_answered_exactly_once sample_waiting sample_resumed sample_waits 10 sample_answers) as (H1 & H2 & _);
    [reflexivity | exact sample_waits_wf | by repeat constructor | vm_compute; reflexivity |].
  split; [exact H1 | apply H2; reflexivity].
Defined.

Lemma apply_error_explained_witness :
  exists t, Timer t ∈ values sample_waits /\ due_at t = 20 /\ 19 < 20.
Proof.
  destruct (apply_error_explained sample_waiting (FireTimer 8 19) (TimerNotDue 8 20 19))
    as (_ & w & since & u & Hst & _ & Hu & _ & Hd & Hlt); [exact sample_waits_wf | vm_compute; reflexivity |].
  injection Hst as <- <-. exists u. split; [exact Hu | split; [exact Hd | exact Hlt]].
Defined.

End Lifecycle.
