(* ===== verification/Lease.v ===== *)
(** Run leases and fencing tokens (crates/stateknot-core/src/lease.rs).

    A worker may write to a run only with the exact fence of the current,
    unexpired lease.  A lease changes by renewal, which keeps the fence, and
    by supersession, which installs a different attempt under the next epoch.
    [history] is the step relation of those two operations; the theorems show
    that a superseded fence is rejected for ever, and characterise each
    operation's guards.  [TenantId] is its text, [RunId] and [AttemptId] are
    128-bit integers compared for equality. *)

From Stdlib Require Import ZArith Lia.
From stdpp Require Import prelude.
From S2P Require Import Prelude Decimal Time.

Open Scope Z_scope.
Import Timestamp(Timestamp).

Module FencingEpoch.

Definition FencingEpoch := Z.
Definition MAX_DATABASE_ORDINAL : Z := i64_max.
Definition FIRST : FencingEpoch := 1.
Definition MAX : FencingEpoch := MAX_DATABASE_ORDINAL.

Inductive FencingEpochError := Zero | AboveMaximum | InvalidFormat | NonCanonical.

Definition new (value : Z) : result FencingEpochError FencingEpoch :=
  if value =? 0 then Err Zero else
  if MAX_DATABASE_ORDINAL <? value then Err AboveMaximum else
  Ok value.

Definition checked_next (self : FencingEpoch) : option FencingEpoch :=
  if self =? MAX_DATABASE_ORDINAL then None else Some (self + 1).

Definition from_decimal_error (error : Decimal.UnsignedDecimalError) : FencingEpochError :=
  match error with
  | Decimal.Empty | Decimal.InvalidCharacter _ => InvalidFormat
  | Decimal.LeadingZero => NonCanonical
  | Decimal.TooLong _ _ | Decimal.Overflow => AboveMaximum
  end.

Definition from_str (value : bytes) : result FencingEpochError FencingEpoch :=
  value ← map_err from_decimal_error (Decimal.parse_bounded_u64 value MAX_DATABASE_ORDINAL);
  new value.

Definition display (self : FencingEpoch) : bytes := Decimal.display_u64 self.

Definition valid (e : FencingEpoch) : Prop := 1 <= e <= MAX.

Lemma checked_next_Some e e' : valid e -> checked_next e = Some e' <-> e' = e + 1 /\ valid e'.
Proof.
  unfold valid, checked_next, MAX. intros He. destruct (Z.eqb_spec e MAX_DATABASE_ORDINAL); split.
  - done.
  - intros [-> ?]. lia.
  - intros [= <-]. lia.
  - by intros [-> _].
Qed.

Lemma epoch_new_iff v e : 0 <= v -> new v = Ok e <-> e = v /\ valid v.
Proof.
  intros Hv. unfold new, valid, MAX. destruct (Z.eqb_spec v 0); [split; [done | lia] |].
  destruct (Z.ltb_spec MAX_DATABASE_ORDINAL v); split; intros; simp_ok; try done; try lia; destruct_and?; by subst.
Qed.

(** The decimal text of a fencing epoch is canonical: a string parses to
    an epoch exactly when it is the text displayed for that epoch and the
    epoch lies in 1..2^63-1.  The successor of an epoch is its value plus one
    and exists below the maximum only. *)
Theorem fencing_epoch_text_and_order (s : bytes) (e : FencingEpoch) :
  (from_str s = Ok e <-> s = display e /\ valid e) /\
  (valid e -> forall e', checked_next e = Some e' <-> e' = e + 1 /\ valid e').
Proof.
  split; [| intros H e'; by apply checked_next_Some].
  unfold from_str. rewrite bind_Ok. setoid_rewrite map_err_Ok.
  assert (Hm : 0 <= MAX_DATABASE_ORDINAL <= u64_max) by done.
  setoid_rewrite (Decimal.parse_bounded_u64_canonical s _ _ Hm). split.
  - intros (v & [Hv ->] & He). by apply epoch_new_iff in He as [-> Hval]; [| lia].
  - intros [-> Hval]. unfold valid, MAX in *. exists e. split; [split; [lia | done] |].
    apply epoch_new_iff; unfold valid, MAX; lia.
Qed.

Lemma fencing_epoch_text_and_order_witness :
  from_str (bytes_of "41") = Ok 41 /\ checked_next 41 = Some 42.
Proof.
  destruct (fencing_epoch_text_and_order (bytes_of "41") 41) as [H1 H2]. split.
  - apply H1. split; [reflexivity | done].
  - apply H2; done.
Defined.

End FencingEpoch.
Import FencingEpoch(FencingEpoch).

Module RunLease.

Definition TenantId := bytes.
Definition RunId := Z.
Definition AttemptId := Z.

Record RunFence := mkFence { tenant_id : TenantId; run_id : RunId; attempt_id : AttemptId; epoch : FencingEpoch }.

#[global] Instance RunFence_eq_dec : EqDecision RunFence.
Proof. unfold EqDecision. intros [t r a e] [t' r' a' e']. unfold Decision. repeat decide equality. Defined.

Record RunLease := mkLease { fence : RunFence; acquired_at : Timestamp; renewed_at : Timestamp; expires_at : Timestamp }.

Inductive RunLeaseValidationError :=
| TenantMismatch
| RunMismatch
| AttemptMismatch (expected actual : AttemptId)
| EpochMismatch (expected actual : FencingEpoch)
| ObservationBeforeAcquisition (acquired_at observed_at : Timestamp)
| ObservationBeforeRenewal (renewed_at observed_at : Timestamp)
| Expired (expires_at observed_at : Timestamp).

Inductive RunLeaseError :=
| RenewalBeforeAcquisition (acquired_at renewed_at : Timestamp)
| ExpiryNotAfterObservation (observed_at expires_at : Timestamp)
| Fence (source : RunLeaseValidationError)
| RenewalClockRegression (previous actual : Timestamp)
| RenewalTooLate (expires_at renewed_at : Timestamp)
| ExpiryNotExtended (previous actual : Timestamp)
| AttemptReused (attempt_id : AttemptId)
| SupersessionClockRegression (previous actual : Timestamp)
| EpochOverflow.

Definition from_observations (f : RunFence) (acquired renewed expires : Timestamp) : result RunLeaseError RunLease :=
  if renewed <? acquired then Err (RenewalBeforeAcquisition acquired renewed) else
  if expires <=? renewed then Err (ExpiryNotAfterObservation renewed expires) else
  Ok (mkLease f acquired renewed expires).

Definition restore (f : RunFence) (acquired renewed expires : Timestamp) : result RunLeaseError RunLease :=
  from_observations f acquired renewed expires.

Definition new (f : RunFence) (acquired expires : Timestamp) : result RunLeaseError RunLease :=
  from_observations f acquired acquired expires.

Definition first (tenant : TenantId) (run : RunId) (attempt : AttemptId) (acquired expires : Timestamp)
  : result RunLeaseError RunLease :=
  new (mkFence tenant run attempt FencingEpoch.FIRST) acquired expires.

Definition validate_fence (self : RunLease) (f : RunFence) : result RunLeaseValidationError unit :=
  if negb (bool_decide (tenant_id f = tenant_id (fence self))) then Err TenantMismatch else
  if negb (run_id f =? run_id (fence self)) then Err RunMismatch else
  if negb (attempt_id f =? attempt_id (fence self))
  then Err (AttemptMismatch (attempt_id (fence self)) (attempt_id f)) else
  if negb (epoch f =? epoch (fence self))
  then Err (EpochMismatch (epoch (fence self)) (epoch f)) else
  Ok tt.

Definition validate_write (self : RunLease) (f : RunFence) (observed : Timestamp) : result RunLeaseValidationError unit :=
  _ ← validate_fence self f;
  if observed <? acquired_at self then Err (ObservationBeforeAcquisition (acquired_at self) observed) else
  if observed <? renewed_at self then Err (ObservationBeforeRenewal (renewed_at self) observed) else
  if expires_at self <=? observed then Err (Expired (expires_at self) observed) else
  Ok tt.

Definition renewed (self : RunLease) (f : RunFence) (renewed_ expires : Timestamp) : result RunLeaseError RunLease :=
  _ ← map_err Fence (validate_fence self f);
  if renewed_ <? renewed_at self then Err (RenewalClockRegression (renewed_at self) renewed_) else
  if expires_at self <=? renewed_ then Err (RenewalTooLate (expires_at self) renewed_) else
  if expires <=? expires_at self then Err (ExpiryNotExtended (expires_at self) expires) else
  from_observations (fence self) (acquired_at self) renewed_ expires.

Definition superseded (self : RunLease) (attempt : AttemptId) (acquired expires : Timestamp)
  : result RunLeaseError RunLease :=
  if attempt =? attempt_id (fence self) then Err (AttemptReused attempt) else
  if acquired <? renewed_at self then Err (SupersessionClockRegression (renewed_at self) acquired) else
  epoch ← ok_or (FencingEpoch.checked_next (epoch (fence self))) EpochOverflow;
  new (mkFence (tenant_id (fence self)) (run_id (fence self)) attempt epoch) acquired expires.

(** The invariant of a lease snapshot. *)
Definition wf (l : RunLease) : Prop :=
  acquired_at l <= renewed_at l < expires_at l /\ FencingEpoch.valid (epoch (fence l)).

Lemma from_observations_iff f a r e l :
  from_observations f a r e = Ok l <-> l = mkLease f a r e /\ a <= r < e.
Proof.
  unfold from_observations. destruct (Z.ltb_spec r a), (Z.leb_spec e r); split; intros; simp_ok; try done;
    destruct_and?; subst; try done; lia.
Qed.

Lemma validate_fence_iff l f : validate_fence l f = Ok tt <-> f = fence l.
Proof.
  unfold validate_fence. split.
  - intros H. simp_ok. bools. destruct f, (fence l). simpl in *. by subst.
  - intros ->. by rewrite bool_decide_eq_true_2, !Z.eqb_refl.
Qed.

Lemma validate_write_iff l f t :
  wf l -> validate_write l f t = Ok tt <-> f = fence l /\ renewed_at l <= t < expires_at l.
Proof.
  intros [Hw _]. unfold validate_write. rewrite bind_Ok. split.
  - intros ([] & H%validate_fence_iff & H'). simp_ok. split; [done | bool_lia].
  - intros [-> Ht]. exists tt. split; [by apply validate_fence_iff |].
    destruct (Z.ltb_spec t (acquired_at l)), (Z.ltb_spec t (renewed_at l)), (Z.leb_spec (expires_at l) t); lia || done.
Qed.

Lemma renewed_iff l f r e l' :
  wf l -> renewed l f r e = Ok l' <->
  f = fence l /\ renewed_at l <= r < expires_at l /\ expires_at l < e /\ l' = mkLease (fence l) (acquired_at l) r e.
Proof.
  intros [Hw _]. unfold renewed. rewrite bind_Ok. setoid_rewrite map_err_Ok. split.
  - intros ([] & H%validate_fence_iff & H'). simp_ok. apply from_observations_iff in H' as [-> ?].
    split_and!; try done; bool_lia.
  - intros (-> & Hr & He & ->). exists tt. split; [by apply validate_fence_iff |].
    destruct (Z.ltb_spec r (renewed_at l)), (Z.leb_spec (expires_at l) r), (Z.leb_spec e (expires_at l)); try lia.
    apply from_observations_iff. split; [done | lia].
Qed.

Lemma superseded_iff l a t e l' :
  wf l -> superseded l a t e = Ok l' <->
  a <> attempt_id (fence l) /\ renewed_at l <= t < e /\ epoch (fence l) < FencingEpoch.MAX /\
  l' = mkLease (mkFence (tenant_id (fence l)) (run_id (fence l)) a (epoch (fence l) + 1)) t t e.
Proof.
  intros [_ Hv]. unfold superseded. split.
  - intros H. simp_ok. apply FencingEpoch.checked_next_Some in H as [-> Hv']; [| done].
    apply from_observations_iff in H0 as [-> ?]. bools. unfold FencingEpoch.valid in *. split_and!; try done; lia.
  - intros (Ha & Ht & He & ->). destruct (Z.eqb_spec a (attempt_id (fence l))); [done |].
    destruct (Z.ltb_spec t (renewed_at l)); [lia |].
    assert (FencingEpoch.checked_next (epoch (fence l)) = Some (epoch (fence l) + 1)) as ->.
    { apply FencingEpoch.checked_next_Some; [done |]. unfold FencingEpoch.valid in *. lia. }
    simpl. apply from_observations_iff. split; [done | lia].
Qed.

(** Histories of one run's lease, counting the supersessions. *)
Inductive history : RunLease -> nat -> RunLease -> Prop :=
| history_start l : history l 0 l
| history_renew l n l1 l2 f r e : history l n l1 -> renewed l1 f r e = Ok l2 -> history l n l2
| history_supersede l n l1 l2 a t e : history l n l1 -> superseded l1 a t e = Ok l2 -> history l (S n) l2.

Lemma history_facts l n l' :
  wf l -> history l n l' ->
  wf l' /\ tenant_id (fence l') = tenant_id (fence l) /\ run_id (fence l') = run_id (fence l) /\
  epoch (fence l') = epoch (fence l) + Z.of_nat n /\ renewed_at l <= renewed_at l' /\
  (n = 0%nat -> fence l' = fence l /\ acquired_at l' = acquired_at l /\ expires_at l <= expires_at l').
Proof.
  intros Hw Hh. induction Hh as [l|l n l1 l2 f r e _ IH Hr|l n l1 l2 a t e _ IH Hs].
  - split_and!; try done; lia.
  - destruct (IH Hw) as (Hw1 & H2 & H3 & H4 & H5 & H6). apply renewed_iff in Hr as (-> & Hr & He & ->); [| done].
    destruct Hw1 as [Ht Hv]. split_and!; simpl; try done; try lia.
    + split; simpl; [lia | done].
    + intros Hn. destruct (H6 Hn) as (? & ? & ?). split_and!; try done; lia.
  - destruct (IH Hw) as (Hw1 & H2 & H3 & H4 & H5 & _). apply superseded_iff in Hs as (Ha & Hr & He & ->); [| done].
    destruct Hw1 as [Ht Hv]. unfold FencingEpoch.valid in *. split_and!; simpl; try done; try lia.
    split; simpl; unfold FencingEpoch.valid; lia.
Qed.

(** C21: Fencing safety.  Over any history of renewals and supersessions the
    lease stays well formed, stays on the same tenant and run, and its epoch
    counts the supersessions.  Without a supersession the holder keeps its
    fence and never loses lease time; after one or more supersessions no write
    with the old fence is accepted at any observation time, nor is a renewal
    with it. *)
Theorem fencing_safety (l l' : RunLease) (n : nat) (Hw : wf l) (Hh : history l n l') :
  wf l' /\ tenant_id (fence l') = tenant_id (fence l) /\ run_id (fence l') = run_id (fence l) /\
  epoch (fence l') = epoch (fence l) + Z.of_nat n /\ renewed_at l <= renewed_at l' /\
  (n = 0%nat -> fence l' = fence l /\ acquired_at l' = acquired_at l /\ expires_at l <= expires_at l') /\
  ((0 < n)%nat -> forall t r e,
     is_ok (validate_write l' (fence l) t) = false /\ is_ok (renewed l' (fence l) r e) = false).
Proof.
  destruct (history_facts _ _ _ Hw Hh) as (Hw' & H2 & H3 & H4 & H5 & H6). split_and!; try done.
  intros Hn t r e. assert (Hne : fence l <> fence l') by (intros E; rewrite <- E in H4; lia). split.
  - destruct (validate_write l' (fence l) t) as [[]|] eqn:E; [| done]. by apply validate_write_iff in E as [? _].
  - destruct (renewed l' (fence l) r e) as [l2|] eqn:E; [| done]. by apply renewed_iff in E as [? _].
Qed.

Definition lease0 : RunLease := mkLease (mkFence (bytes_of "acme") 1 10 1) 100 100 200.
Definition lease1 : RunLease := mkLease (mkFence (bytes_of "acme") 1 10 1) 100 150 250.
Definition lease2 : RunLease := mkLease (mkFence (bytes_of "acme") 1 11 2) 260 260 300.

Lemma fencing_safety_witness :
  first (bytes_of "acme") 1 10 100 200 = Ok lease0 /\ is_ok (validate_write lease2 (fence lease0) 270) = false.
Proof.
  split; [reflexivity |].
  destruct (fencing_safety lease0 lease2 1) as (_ & _ & _ & _ & _ & _ & H).
  - by split.
  - apply (history_supersede _ _ lease1 _ 11 260 300); [| reflexivity].
    apply (history_renew _ _ lease0 _ (fence lease0) 150 250); [constructor | reflexivity].
  - by destruct (H ltac:(lia) 270 270 400) as [H1 _].
Defined.

(** What each lease operation accepts: a write exactly with the current
    fence at an observation from the latest renewal up to, and not including,
    expiry; a renewal exactly with the current fence inside that window and
    with a strictly later expiry; a supersession exactly with another attempt,
    no clock regression, a later expiry and an epoch left to use. *)
Theorem lease_operations_exact (l : RunLease) (Hw : wf l) :
  (forall f t, validate_write l f t = Ok tt <-> f = fence l /\ renewed_at l <= t < expires_at l) /\
  (forall f r e l', renewed l f r e = Ok l' <->
     f = fence l /\ renewed_at l <= r < expires_at l /\ expires_at l < e /\ l' = mkLease (fence l) (acquired_at l) r e) /\
  (forall a t e l', superseded l a t e = Ok l' <->
     a <> attempt_id (fence l) /\ renewed_at l <= t < e /\ epoch (fence l) < FencingEpoch.MAX /\
     l' = mkLease (mkFence (tenant_id (fence l)) (run_id (fence l)) a (epoch (fence l) + 1)) t t e).
Proof.
  split_and!; [intros; by apply validate_write_iff | intros; by apply renewed_iff | intros; by apply superseded_iff].
Qed.

Lemma lease_operations_exact_witness :
  wf lease0 /\ renewed lease0 (fence lease0) 150 250 = Ok lease1.
Proof.
  assert (Hw : wf lease0) by by split. split; [exact Hw |].
  destruct (lease_operations_exact lease0 Hw) as (_ & H & _). apply H. split_and!; done.
Defined.

End RunLease.
