(* ===== verification/Journal.v ===== *)
(** The run journal (crates/stateknot-core/src/journal.rs): sequences, event
    kinds, canonical payloads, intents, conditional appends, committed events
    and the verifier of their digest chain.

    A schema reference is compared only and is a type parameter.  The
    conversion of a payload envelope to a JSON value is serde's, and a
    parameter. *)

From Stdlib Require Import ZArith Lia List.
From stdpp Require Import prelude.
From S2P Require Import Prelude Ordered Json Decimal BoundedJson Time Checkpoint Lease.

Open Scope Z_scope.
Import Timestamp(Timestamp).

Module JournalSequence.

Definition JournalSequence := Z.
Definition MAX_DATABASE_ORDINAL : Z := i64_max.
Definition FIRST : JournalSequence := 1.
Definition MAX : JournalSequence := MAX_DATABASE_ORDINAL.

Inductive JournalSequenceError := Zero | AboveMaximum | InvalidFormat | NonCanonical.

Definition new (value : Z) : result JournalSequenceError JournalSequence :=
  if value =? 0 then Err Zero else
  if MAX_DATABASE_ORDINAL <? value then Err AboveMaximum else Ok value.

Definition checked_next (self : JournalSequence) : option JournalSequence :=
  if self =? MAX_DATABASE_ORDINAL then None else Some (self + 1).

Definition from_decimal_error (error : Decimal.UnsignedDecimalError) : JournalSequenceError :=
  match error with
  | Decimal.Empty | Decimal.InvalidCharacter _ => InvalidFormat
  | Decimal.LeadingZero => NonCanonical
  | Decimal.TooLong _ _ | Decimal.Overflow => AboveMaximum
  end.

Definition from_str (value : bytes) : result JournalSequenceError JournalSequence :=
  value ← map_err from_decimal_error (Decimal.parse_bounded_u64 value MAX_DATABASE_ORDINAL);
  new value.

Definition display (self : JournalSequence) : bytes := Decimal.display_u64 self.
End JournalSequence.
Import JournalSequence(JournalSequence).

Module Journal.

(** * Event kinds *)

Definition JournalEventKind := bytes.
Definition KIND_MAX_LEN : Z := 96.

Inductive JournalEventKindError :=
| Empty
| TooLong (maximum actual : Z)
| InvalidStart
| InvalidByte (index : Z)
| NonCanonicalSeparator (index : Z).

Definition is_ascii_lowercase (b : Z) : bool := between 97 122 b.
Definition HYPHEN : Z := 45.

(** The loop over [bytes.iter().enumerate()]; [previous] is the byte before
    [index], if any. *)
Fixpoint check_kind_bytes (index : Z) (previous : option Z) (l : bytes) : result JournalEventKindError unit :=
  match l with
  | [] => Ok tt
  | byte :: l' =>
      if negb (is_ascii_lowercase byte) && negb (Decimal.is_ascii_digit byte) && negb (byte =? HYPHEN)
      then Err (InvalidByte index) else
      if (byte =? HYPHEN) && ((length l' =? 0)%nat || bool_decide (previous = Some HYPHEN))
      then Err (NonCanonicalSeparator index) else
      check_kind_bytes (index + 1) (Some byte) l'
  end.

Definition validate_event_kind (value : bytes) : result JournalEventKindError unit :=
  match value with
  | [] => Err Empty
  | first :: _ =>
      if KIND_MAX_LEN <? Z.of_nat (length value) then Err (TooLong KIND_MAX_LEN (Z.of_nat (length value))) else
      if negb (is_ascii_lowercase first) then Err InvalidStart else
      check_kind_bytes 0 None value
  end.

Definition event_kind_new (value : bytes) : result JournalEventKindError JournalEventKind :=
  _ ← validate_event_kind value; Ok value.

(** * Errors *)

Inductive JournalPayloadError :=
| EnvelopeSerialization
| EnvelopeBounds (source : BoundedJsonError)
| CanonicalPayload (source : CanonicalJsonError)
| DigestChanged.

Inductive JournalIntegrityError := JournalSerialization.

Inductive JournalIntentError :=
| FenceTenantMismatch
| FenceRunMismatch
| IntentIntegrity (source : JournalIntegrityError)
| IntentDigestMismatch.

Inductive JournalAppendError := HeadTenantMismatch | HeadRunMismatch.

Inductive JournalAuthorityError :=
| ControlPlaneSource
| LeaseInvalid (source : RunLease.RunLeaseValidationError).

Inductive JournalEventError :=
| SequenceOverflow
| ClockRegression (previous actual : Timestamp)
| UnexpectedPreviousDigest
| MissingPreviousDigest
| PayloadDigestMismatch
| EventIntentDigestMismatch
| EventDigestMismatch
| InvalidIntent (source : JournalIntentError)
| EventIntegrity (source : JournalIntegrityError).

Inductive JournalChainError :=
| InvalidEvent (source : JournalEventError)
| FirstSequence (actual : JournalSequence)
| ChainTenantMismatch
| ChainRunMismatch
| ChainSequenceOverflow
| SequenceGap (expected actual : JournalSequence)
| PreviousDigestMismatch
| ChainClockRegression (previous actual : Timestamp).

Definition INTENT_DIGEST_DOMAIN : bytes := bytes_of "stateknot-journal-intent-v1" ++ [0].
Definition EVENT_DIGEST_DOMAIN : bytes := bytes_of "stateknot-journal-event-v1" ++ [0].

(** * Sources *)

Inductive JournalEventSource := ControlPlane | Worker (fence : RunLease.RunFence).

#[global] Instance JournalEventSource_eq_dec : EqDecision JournalEventSource.
Proof. solve_decision. Defined.

Definition worker_fence (self : JournalEventSource) : option RunLease.RunFence :=
  match self with Worker fence => Some fence | ControlPlane => None end.

Definition validate_source_scope (tenant : TenantId) (run : RunId) (source : JournalEventSource) : result JournalIntentError unit :=
  match source with
  | Worker fence =>
      if negb (bool_decide (RunLease.tenant_id fence = tenant)) then Err FenceTenantMismatch else
      if negb (bool_decide (RunLease.run_id fence = run)) then Err FenceRunMismatch else Ok tt
  | ControlPlane => Ok tt
  end.

Record IntentDigestWire := mkIntentDigestWire {
  iw_tenant_id : TenantId;
  iw_run_id : RunId;
  iw_event_id : Z;
  iw_source : JournalEventSource;
  iw_payload_digest : Digest
}.

Record EventDigestWire := mkEventDigestWire {
  ew_tenant_id : TenantId;
  ew_run_id : RunId;
  ew_sequence : JournalSequence;
  ew_event_id : Z;
  ew_recorded_at : Timestamp;
  ew_payload_digest : Digest;
  ew_intent_digest : Digest;
  ew_previous_digest : option Digest
}.

Inductive JournalExpectation := ExpectEmpty | ExpectExact (head : JournalHead).

Definition expectation_head (self : JournalExpectation) : option JournalHead :=
  match self with ExpectEmpty => None | ExpectExact head => Some head end.

Section Records.
Context {Schema : Type} `{EqDecision Schema}.

(** * Payloads *)

Record JournalPayload := mkPayload {
  payload_schema : Schema;
  payload_kind : JournalEventKind;
  payload_data : BoundedJson;
  payload_digest : Digest
}.

#[global] Instance JournalPayload_eq_dec : EqDecision JournalPayload.
Proof. solve_decision. Defined.

Record JournalEventIntent := mkIntent {
  in_tenant_id : TenantId;
  in_run_id : RunId;
  in_event_id : Z;
  in_source : JournalEventSource;
  in_payload : JournalPayload;
  in_intent_digest : Digest
}.

Record JournalAppend := mkAppend { expectation : JournalExpectation; intent : JournalEventIntent }.

Definition append_new (exp : JournalExpectation) (int : JournalEventIntent) : result JournalAppendError JournalAppend :=
  match expectation_head exp with
  | Some head =>
      if negb (bool_decide (jh_tenant_id head = in_tenant_id int)) then Err HeadTenantMismatch else
      if negb (bool_decide (jh_run_id head = in_run_id int)) then Err HeadRunMismatch else
      Ok (mkAppend exp int)
  | None => Ok (mkAppend exp int)
  end.

Definition validate_worker_lease (self : JournalAppend) (lease : RunLease.RunLease) (observed : Timestamp)
  : result JournalAuthorityError unit :=
  fence ← ok_or (worker_fence (in_source (intent self))) ControlPlaneSource;
  map_err LeaseInvalid (RunLease.validate_write lease fence observed).

Record JournalEvent := mkEvent {
  tenant_id : TenantId;
  run_id : RunId;
  sequence : JournalSequence;
  event_id : Z;
  recorded_at : Timestamp;
  source : JournalEventSource;
  payload : JournalPayload;
  event_payload_digest : Digest;
  intent_digest : Digest;
  previous_digest : option Digest;
  digest : Digest
}.

Definition head (self : JournalEvent) : JournalHead :=
  mkJournalHead (tenant_id self) (run_id self) (sequence self) (event_id self) (recorded_at self) (digest self).

Definition matches_intent (self : JournalEvent) (int : JournalEventIntent) : bool :=
  bool_decide (tenant_id self = in_tenant_id int) && bool_decide (run_id self = in_run_id int)
  && bool_decide (event_id self = in_event_id int) && bool_decide (source self = in_source int)
  && bool_decide (payload self = in_payload int) && bool_decide (intent_digest self = in_intent_digest int).

Context `{Canonical Value, Canonical IntentDigestWire, Canonical EventDigestWire}.
Variable sha256 : bytes -> bytes.
Variable float_text : Z -> bytes.
Variable to_value : Schema -> JournalEventKind -> Value -> option Value.

Definition canonical_payload (schema : Schema) (kind : JournalEventKind) (data : BoundedJson)
  : result JournalPayloadError CanonicalJson :=
  value ← ok_or (to_value schema kind (bounded_value data)) EnvelopeSerialization;
  bounded ← map_err EnvelopeBounds (try_from_value_with_limits float_text value LIMITS_MAXIMUM);
  map_err CanonicalPayload (canonical_new sha256 (bounded_value bounded)).

Definition payload_new (schema : Schema) (kind : JournalEventKind) (data : BoundedJson) : result JournalPayloadError JournalPayload :=
  canonical ← canonical_payload schema kind data;
  Ok (mkPayload schema kind data (canonical_digest canonical)).

Definition canonical_json (self : JournalPayload) : result JournalPayloadError CanonicalJson :=
  canonical ← canonical_payload (payload_schema self) (payload_kind self) (payload_data self);
  if negb (bool_decide (canonical_digest canonical = payload_digest self)) then Err DigestChanged else Ok canonical.

(** * Intents *)

Definition domain_separated_digest {T} `{Canonical T} (domain : bytes) (value : T) : result JournalIntegrityError Digest :=
  canonical ← ok_or (to_vec value) JournalSerialization;
  Ok (sha256 (domain ++ canonical)).

Definition compute_intent_digest (tenant : TenantId) (run : RunId) (event : Z) (src : JournalEventSource) (pd : Digest)
  : result JournalIntegrityError Digest :=
  domain_separated_digest INTENT_DIGEST_DOMAIN (mkIntentDigestWire tenant run event src pd).

Definition compute_event_digest (wire : EventDigestWire) : result JournalIntegrityError Digest :=
  domain_separated_digest EVENT_DIGEST_DOMAIN wire.

Definition from_parts (tenant : TenantId) (run : RunId) (event : Z) (src : JournalEventSource) (p : JournalPayload)
  : result JournalIntentError JournalEventIntent :=
  _ ← validate_source_scope tenant run src;
  d ← map_err IntentIntegrity (compute_intent_digest tenant run event src (payload_digest p));
  Ok (mkIntent tenant run event src p d).

Definition control_plane (tenant : TenantId) (run : RunId) (event : Z) (p : JournalPayload)
  : result JournalIntentError JournalEventIntent :=
  from_parts tenant run event ControlPlane p.

Definition worker (tenant : TenantId) (run : RunId) (event : Z) (fence : RunLease.RunFence) (p : JournalPayload)
  : result JournalIntentError JournalEventIntent :=
  from_parts tenant run event (Worker fence) p.

(** The digest check of the intent's deserializer. *)
Definition intent_restore (wire : JournalEventIntent) : result JournalIntentError JournalEventIntent :=
  int ← from_parts (in_tenant_id wire) (in_run_id wire) (in_event_id wire) (in_source wire) (in_payload wire);
  if negb (bool_decide (in_intent_digest int = in_intent_digest wire)) then Err IntentDigestMismatch else Ok int.

(** * Events *)

Definition event_wire (self : JournalEvent) : EventDigestWire :=
  mkEventDigestWire (tenant_id self) (run_id self) (sequence self) (event_id self) (recorded_at self)
    (event_payload_digest self) (intent_digest self) (previous_digest self).

Definition validate (self : JournalEvent) : result JournalEventError unit :=
  _ ← (if bool_decide (sequence self = JournalSequence.FIRST)
       then (if is_none (previous_digest self) then Ok tt else Err UnexpectedPreviousDigest)
       else (if is_none (previous_digest self) then Err MissingPreviousDigest else Ok tt));
  if negb (bool_decide (payload_digest (payload self) = event_payload_digest self)) then Err PayloadDigestMismatch else
  _ ← map_err InvalidIntent (validate_source_scope (tenant_id self) (run_id self) (source self));
  expected_intent ← map_err EventIntegrity
    (compute_intent_digest (tenant_id self) (run_id self) (event_id self) (source self) (event_payload_digest self));
  if negb (bool_decide (expected_intent = intent_digest self)) then Err EventIntentDigestMismatch else
  expected_event ← map_err EventIntegrity (compute_event_digest (event_wire self));
  if negb (bool_decide (expected_event = digest self)) then Err EventDigestMismatch else
  Ok tt.

Definition event_of (int : JournalEventIntent) (seq : JournalSequence) (at_ : Timestamp) (prev : option Digest) (d : Digest) : JournalEvent :=
  mkEvent (in_tenant_id int) (in_run_id int) seq (in_event_id int) at_ (in_source int) (in_payload int)
    (payload_digest (in_payload int)) (in_intent_digest int) prev d.

Definition event_restore (int : JournalEventIntent) (seq : JournalSequence) (at_ : Timestamp) (prev : option Digest) (d : Digest)
  : result JournalEventError JournalEvent :=
  let event := event_of int seq at_ prev d in
  _ ← validate event; Ok event.

Definition commit (append : JournalAppend) (at_ : Timestamp) : result JournalEventError JournalEvent :=
  '(seq, prev) ← match expectation append with
    | ExpectEmpty => Ok (JournalSequence.FIRST, None)
    | ExpectExact head =>
        if at_ <? jh_recorded_at head then Err (ClockRegression (jh_recorded_at head) at_) else
        seq ← ok_or (JournalSequence.checked_next (jh_sequence head)) SequenceOverflow;
        Ok (seq, Some (jh_digest head))
    end;
  let int := intent append in
  d ← map_err EventIntegrity (compute_event_digest
        (mkEventDigestWire (in_tenant_id int) (in_run_id int) seq (in_event_id int) at_
           (payload_digest (in_payload int)) (in_intent_digest int) prev));
  Ok (event_of int seq at_ prev d).

(** * The chain verifier: its state is the optional head. *)

Definition JournalChainVerifier := option JournalHead.
Definition verifier_new : JournalChainVerifier := None.
Definition verifier_after (h : JournalHead) : JournalChainVerifier := Some h.

Definition verify_next (self : JournalChainVerifier) (event : JournalEvent) : result JournalChainError JournalChainVerifier :=
  _ ← map_err InvalidEvent (validate event);
  _ ← match self with
      | None => if negb (bool_decide (sequence event = JournalSequence.FIRST)) then Err (FirstSequence (sequence event)) else Ok tt
      | Some h =>
          if negb (bool_decide (tenant_id event = jh_tenant_id h)) then Err ChainTenantMismatch else
          if negb (bool_decide (run_id event = jh_run_id h)) then Err ChainRunMismatch else
          expected ← ok_or (JournalSequence.checked_next (jh_sequence h)) ChainSequenceOverflow;
          if negb (bool_decide (sequence event = expected)) then Err (SequenceGap expected (sequence event)) else
          if negb (bool_decide (previous_digest event = Some (jh_digest h))) then Err PreviousDigestMismatch else
          if recorded_at event <? jh_recorded_at h then Err (ChainClockRegression (jh_recorded_at h) (recorded_at event)) else
          Ok tt
      end;
  Ok (Some (head event)).
End Records.
Arguments JournalPayload : clear implicits.
Arguments JournalEventIntent : clear implicits.
Arguments JournalAppend : clear implicits.
Arguments JournalEvent : clear implicits.
End Journal.

(** The journal: event kinds against their documented pattern, committed
    events against the chain verifier, and the uniqueness of a verified
    chain. *)

Import Timestamp(Timestamp) JournalSequence(JournalSequence).

Module Kinds.
Import Journal.

(** * Event kinds: segments of lower-case letters and digits joined by hyphens *)

Fixpoint split (separator : Z) (l : bytes) : list bytes :=
  match l with
  | [] => [[]]
  | b :: l' =>
      if b =? separator then [] :: split separator l' else
      match split separator l' with s :: ss => (b :: s) :: ss | [] => [[b]] end
  end.

Lemma split_nonempty sep l : split sep l <> [].
Proof. destruct l as [|b l]; simpl; [done |]. destruct (b =? sep); [done |]. by destruct (split sep l). Qed.

Definition lower_or_digit (b : Z) : Prop := 97 <= b <= 122 \/ 48 <= b <= 57.
Definition segment (s : bytes) : Prop := s <> [] /\ Forall lower_or_digit s.

Lemma kind_byte b :
  negb (is_ascii_lowercase b) && negb (Decimal.is_ascii_digit b) && negb (b =? HYPHEN) = false <-> lower_or_digit b \/ b = HYPHEN.
Proof.
  unfold is_ascii_lowercase, Decimal.is_ascii_digit, between, lower_or_digit, HYPHEN.
  rewrite !andb_false_iff, !negb_false_iff, !andb_true_iff, !Z.leb_le, Z.eqb_eq. tauto.
Qed.

Lemma check_kind_bytes_iff index previous l :
  l <> [] \/ previous <> Some HYPHEN ->
  check_kind_bytes index previous l = Ok tt <->
  match split HYPHEN l with
  | s :: ss => (previous = Some HYPHEN -> s <> []) /\ Forall lower_or_digit s /\ Forall segment ss
  | [] => False
  end.
Proof.
  revert index previous. induction l as [|b l IH]; intros index previous Hl; simpl.
  - destruct Hl as [|Hp]; [done |]. repeat split; by try constructor.
  - destruct (negb (is_ascii_lowercase b) && _ && _) eqn:Eb.
    { split; [done |]. intros Hs. assert (lower_or_digit b \/ b = HYPHEN) as Hb; [| by apply kind_byte in Hb; rewrite Hb in Eb].
      destruct (Z.eqb_spec b HYPHEN); [by right | left]. destruct (split HYPHEN l); destruct Hs as (_ & HF & _); by apply Forall_cons in HF as [? _]. }
    apply kind_byte in Eb. destruct (Z.eqb_spec b HYPHEN) as [->|Hne]; simpl.
    + destruct l as [|b' l']; simpl length; cbn [Nat.eqb orb].
      { split; [done |]. intros (_ & _ & [[? _] _]%Forall_cons). done. }
      destruct (bool_decide_reflect (previous = Some HYPHEN)) as [->|Hp]; [split; [done | naive_solver] |].
      rewrite IH by (left; done). destruct (split HYPHEN (b' :: l')) as [|s ss] eqn:Es; [by destruct (split_nonempty HYPHEN (b' :: l')) |].
      unfold segment. rewrite Forall_cons. split; [| naive_solver]. intros (? & ? & ?). split_and!; try done. naive_solver.
    + rewrite IH by (right; naive_solver). destruct (split HYPHEN l) as [|s ss] eqn:Es; [by destruct (split_nonempty HYPHEN l) |]. rewrite Forall_cons.
      split; [| naive_solver]. intros (? & ? & ?). split_and!; naive_solver.
Qed.

(** The accepted kinds are those of the pattern
    [^[a-z][a-z0-9]*(?:-[a-z0-9]+)*$] of at most 96 bytes. *)
Definition kind_pattern (value : bytes) : Prop :=
  Forall segment (split HYPHEN value) /\ (exists b rest, value = b :: rest /\ 97 <= b <= 122).

Lemma validate_event_kind_iff value u :
  validate_event_kind value = Ok u <-> kind_pattern value /\ Z.of_nat (length value) <= KIND_MAX_LEN.
Proof.
  destruct u, value as [|b l]; unfold validate_event_kind, kind_pattern.
  { split; [done |]. intros [[_ (? & ? & ? & _)] _]. done. }
  destruct (Z.ltb_spec KIND_MAX_LEN (Z.of_nat (length (b :: l)))); [split; [done | intros [_ ?]; lia] |].
  destruct (is_ascii_lowercase b) eqn:Eb; cbn [negb].
  - unfold is_ascii_lowercase, between in Eb. apply andb_true_iff in Eb as [?%Z.leb_le ?%Z.leb_le].
    rewrite check_kind_bytes_iff by by left. simpl. destruct (Z.eqb_spec b HYPHEN) as [->|]; [unfold HYPHEN in *; lia |].
    destruct (split HYPHEN l) as [|s ss] eqn:Es; [by destruct (split_nonempty HYPHEN l) |]. rewrite (Forall_cons segment). split.
    + intros (_ & HF & Hss). split; [split; [split; [by split | done] | by exists b, l] | done].
    + intros [[[[_ HF] Hss] _] _]. by split_and!.
  - split; [done |]. intros [[_ (b' & rest & [= <- <-] & ? & ?)] _].
    unfold is_ascii_lowercase, between in Eb. by rewrite (proj2 (Z.leb_le _ _)), (proj2 (Z.leb_le _ _)) in Eb.
Qed.
End Kinds.

Module Chain.
Import Journal.

Section Laws.
Context {Schema : Type} `{EqDecision Schema} `{Canonical Value, Canonical IntentDigestWire, Canonical EventDigestWire}.
Variable sha256 : bytes -> bytes.
Abbreviation EventT := (JournalEvent Schema).
Abbreviation IntentT := (JournalEventIntent Schema).
Implicit Types (e : EventT) (int : IntentT).

(** * What validation accepts *)

Definition in_scope (tenant : TenantId) (run : RunId) (src : JournalEventSource) : Prop :=
  forall f, worker_fence src = Some f -> RunLease.tenant_id f = tenant /\ RunLease.run_id f = run.

Lemma validate_source_scope_iff tenant run src u : validate_source_scope tenant run src = Ok u <-> in_scope tenant run src.
Proof.
  destruct u, src as [|f]; unfold validate_source_scope, in_scope; simpl; [naive_solver |]. guard_iff. naive_solver.
Qed.

Lemma digest_Ok {T} `{Canonical T} domain (v : T) d :
  domain_separated_digest sha256 domain v = Ok d <-> exists b, to_vec v = Some b /\ d = sha256 (domain ++ b).
Proof.
  unfold domain_separated_digest. rewrite bind_Ok. setoid_rewrite ok_or_Ok. split.
  - intros (b & Hb & [= <-]). eauto.
  - intros (b & Hb & ->). eauto.
Qed.

Definition event_valid e : Prop :=
  (sequence e = JournalSequence.FIRST <-> previous_digest e = None) /\
  payload_digest (payload e) = event_payload_digest e /\ in_scope (tenant_id e) (run_id e) (source e) /\
  compute_intent_digest sha256 (tenant_id e) (run_id e) (event_id e) (source e) (event_payload_digest e) = Ok (intent_digest e) /\
  compute_event_digest sha256 (event_wire e) = Ok (digest e).

Lemma validate_iff e u : validate sha256 e = Ok u <-> event_valid e.
Proof.
  destruct u. unfold validate, event_valid. rewrite bind_Ok. split.
  - intros ([] & Hp & Hv). open_guards Hv. apply map_err_Ok, validate_source_scope_iff in Hx.
    apply map_err_Ok in Hx0, Hx1. subst. split_and!; try done.
    destruct (bool_decide_reflect (sequence e = JournalSequence.FIRST)), (previous_digest e); simpl in Hp; done.
  - intros (Hs & Hp & Hsc & Hi & He). exists tt. split.
    { destruct (bool_decide_reflect (sequence e = JournalSequence.FIRST)), (previous_digest e); simpl; naive_solver. }
    rewrite (bool_decide_eq_true_2 _ Hp). simpl. apply (validate_source_scope_iff _ _ _ tt) in Hsc. rewrite Hsc, Hi. simpl.
    rewrite bool_decide_eq_true_2 by done. simpl. rewrite He. simpl. by rewrite bool_decide_eq_true_2.
Qed.

(** The link from a head to the next event. *)
Definition follows (h : JournalHead) e : Prop :=
  tenant_id e = jh_tenant_id h /\ run_id e = jh_run_id h /\ JournalSequence.checked_next (jh_sequence h) = Some (sequence e) /\
  previous_digest e = Some (jh_digest h) /\ jh_recorded_at h <= recorded_at e.

Lemma journal_verify_next_iff v e v' :
  verify_next sha256 v e = Ok v' <->
  event_valid e /\ v' = Some (head e) /\ match v with None => sequence e = JournalSequence.FIRST | Some h => follows h e end.
Proof.
  unfold verify_next. rewrite bind_Ok. split.
  - intros ([] & Hv & Hr). apply map_err_Ok, validate_iff in Hv. apply bind_Ok in Hr as ([] & Hl & [= <-]). split_and!; [done.. |]. destruct v as [h|]; [| by open_guards Hl].
    open_guards Hl. apply ok_or_Ok in Hx. subst. unfold follows. by split_and!.
  - intros (Hv & -> & Hl). exists tt. split; [by apply map_err_Ok, validate_iff |]. apply bind_Ok. exists tt. split; [| done]. destruct v as [h|].
    + destruct Hl as (? & ? & Hn & ? & ?). rewrite !bool_decide_eq_true_2 by done. simpl. rewrite Hn. simpl.
      rewrite !bool_decide_eq_true_2 by done. simpl. by rewrite (proj2 (Z.ltb_ge _ _)).
    + by rewrite bool_decide_eq_true_2.
Qed.

(** * Committed events *)

(** An intent that passed its constructor. *)
Definition intent_valid int : Prop :=
  from_parts sha256 (in_tenant_id int) (in_run_id int) (in_event_id int) (in_source int) (in_payload int) = Ok int.

Lemma intent_valid_iff int :
  intent_valid int <-> in_scope (in_tenant_id int) (in_run_id int) (in_source int) /\
    compute_intent_digest sha256 (in_tenant_id int) (in_run_id int) (in_event_id int) (in_source int) (payload_digest (in_payload int))
      = Ok (in_intent_digest int).
Proof.
  unfold intent_valid, from_parts. rewrite bind_Ok. split.
  - intros ([] & Hs%validate_source_scope_iff & Hr). apply bind_Ok in Hr as (d & Hd & E). apply map_err_Ok in Hd.
    split; [done |]. rewrite Hd. injection E as E. by rewrite <- E.
  - intros [Hs Hd]. exists tt. split; [by apply validate_source_scope_iff |]. apply bind_Ok. eexists.
    split; [apply map_err_Ok; exact Hd |]. by destruct int.
Qed.

(** The expectation a writer states when [v] is the verified head. *)
Definition expects (v : JournalChainVerifier) : JournalExpectation :=
  match v with None => ExpectEmpty | Some h => ExpectExact h end.

Definition head_valid (v : JournalChainVerifier) : Prop := forall h, v = Some h -> 1 <= jh_sequence h.

Lemma append_new_iff exp int a :
  append_new exp int = Ok a <->
  a = mkAppend exp int /\ forall h, expectation_head exp = Some h -> jh_tenant_id h = in_tenant_id int /\ jh_run_id h = in_run_id int.
Proof.
  unfold append_new. destruct (expectation_head exp) as [h|].
  - guard_iff. split; [intros [= <-]; naive_solver | by intros [-> _]].
  - split; [intros [= <-]; naive_solver | by intros [-> _]].
Qed.

Lemma checked_next_range s n : 1 <= s -> JournalSequence.checked_next s = Some n -> n = s + 1 /\ n <> JournalSequence.FIRST.
Proof.
  unfold JournalSequence.checked_next, JournalSequence.FIRST. intros Hs. destruct (_ =? _); [done |]. intros [= <-]. lia.
Qed.

Lemma commit_verifies v int a at_ e :
  head_valid v -> intent_valid int -> append_new (expects v) int = Ok a -> commit sha256 a at_ = Ok e ->
  verify_next sha256 v e = Ok (Some (head e)) /\ matches_intent e int = true /\ recorded_at e = at_.
Proof.
  intros Hh Hi [-> Ha]%append_new_iff Hc. apply intent_valid_iff in Hi as [Hs Hi]. unfold commit in Hc. simpl in Hc.
  apply bind_Ok in Hc as ([seq prev] & Hsp & Hc). apply bind_Ok in Hc as (d & Hd & Hc). apply map_err_Ok in Hd. injection Hc as <-.
  assert (Hlink : (seq = JournalSequence.FIRST <-> prev = None) /\
    match v with None => seq = JournalSequence.FIRST | Some h => JournalSequence.checked_next (jh_sequence h) = Some seq /\
      prev = Some (jh_digest h) /\ jh_recorded_at h <= at_ end).
  { destruct v as [h|]; simpl in Hsp; [| injection Hsp as <- <-; done]. open_guards Hsp. apply ok_or_Ok in Hx. injection Hsp as <- <-.
    destruct (checked_next_range _ _ (Hh h eq_refl) Hx). split; [naive_solver | split_and!; [done | done | lia]]. }
  destruct Hlink as [Hfp Hl]. split_and!; [| | done].
  - apply journal_verify_next_iff. split; [by unfold event_valid; simpl; split_and! |]. split; [done |].
    destruct v as [h|]; [| done]. destruct Hl as (? & ? & ?), (Ha h eq_refl). by unfold follows.
  - unfold matches_intent. simpl. by rewrite !bool_decide_eq_true_2.
Qed.

(** * Journals *)

(** The journals that conditional appends produce: each writer states the
    head it saw, and the append is committed at a time the store chooses. *)
Inductive journal : list EventT -> JournalChainVerifier -> Prop :=
| journal_empty : journal [] verifier_new
| journal_append es v int a at_ e :
    journal es v -> intent_valid int -> append_new (expects v) int = Ok a -> commit sha256 a at_ = Ok e ->
    journal (es ++ [e]) (Some (head e)).

Definition verify_all (v : JournalChainVerifier) (es : list EventT) : result JournalChainError JournalChainVerifier :=
  try_fold (verify_next sha256) v es.

Lemma verify_all_snoc v es e v' :
  verify_all v (es ++ [e]) = Ok v' <-> exists v0, verify_all v es = Ok v0 /\ verify_next sha256 v0 e = Ok v'.
Proof.
  unfold verify_all. rewrite try_fold_app, bind_Ok. simpl. split.
  - intros (v0 & Hb0 & Hr). open_guards Hr. injection Hr as ->. by exists v0.
  - intros (v0 & Hb0 & Hr). exists v0. split; [done |]. by rewrite Hr.
Qed.

(** The intent an event records. *)
Definition intent_of e : IntentT :=
  mkIntent (tenant_id e) (run_id e) (event_id e) (source e) (payload e) (intent_digest e).

Lemma verified_commits v e v' :
  verify_next sha256 v e = Ok v' ->
  intent_valid (intent_of e) /\ append_new (expects v) (intent_of e) = Ok (mkAppend (expects v) (intent_of e)) /\
  commit sha256 (mkAppend (expects v) (intent_of e)) (recorded_at e) = Ok e /\ v' = Some (head e).
Proof.
  intros ((Hs & Hp & Hsc & Hi & He) & -> & Hl)%journal_verify_next_iff. split_and!; [| | | done].
  - apply intent_valid_iff. simpl. by rewrite Hp.
  - apply append_new_iff. split; [done |]. destruct v as [h|]; simpl; [| done]. intros h' [= <-]. by destruct Hl as (-> & -> & _).
  - unfold commit. simpl. destruct e as [et er es ee ea esrc ep epd eid eprev ed]; simpl in *. subst epd.
    destruct v as [h|]; simpl.
    + destruct Hl as (_ & _ & Hn & Hprev & Hle). simpl in *. rewrite (proj2 (Z.ltb_ge _ _)) by done. rewrite Hn. simpl.
      unfold event_wire in He. simpl in He. rewrite <- Hprev. by rewrite He.
    + simpl in Hl. subst es. destruct Hs as [Hs _]. rewrite (Hs eq_refl) in *. unfold event_wire in He. simpl in He. by rewrite He.
Qed.

Definition positions (es : list EventT) (v : JournalChainVerifier) : Prop :=
  (forall i e, es !! i = Some e -> sequence e = Z.of_nat i + 1) /\
  match v with None => es = [] | Some h => jh_sequence h = Z.of_nat (length es) /\ exists e, last es = Some e /\ h = head e end.

Lemma positions_snoc es v e v' :
  positions es v -> verify_next sha256 v e = Ok v' -> positions (es ++ [e]) v'.
Proof.
  intros [Hi Hv] (_ & -> & Hl)%journal_verify_next_iff.
  assert (Hs : sequence e = Z.of_nat (length es) + 1).
  { destruct v as [h|]; [| by subst es]. destruct Hv as [Hh (e0 & Hlast & _)], Hl as (_ & _ & Hn & _).
    apply checked_next_range in Hn as [-> _]; [lia |]. destruct es; simpl in *; [done | lia]. }
  split.
  - intros i x [Hx | [Hge Hx]]%lookup_app_Some; [by apply Hi |]. destruct (i - length es)%nat eqn:E; [| done].
    injection Hx as <-. rewrite Hs. lia.
  - simpl. rewrite length_app, last_snoc. simpl. split; [lia |]. by exists e.
Qed.

Lemma verified_positions es v : verify_all verifier_new es = Ok v -> positions es v.
Proof.
  revert v. induction es as [|e es IH] using rev_ind; intros v.
  - intros [= <-]. by split.
  - intros (v0 & Hb0 & Hn)%verify_all_snoc. eapply positions_snoc; [by apply IH | done].
Qed.

Lemma positions_head_valid es v : positions es v -> head_valid v.
Proof.
  intros [_ Hv] h ->. destruct Hv as [-> (e & Hl & _)]. destruct es; simpl in *; [done | lia].
Qed.

Lemma verified_is_journal es v : verify_all verifier_new es = Ok v -> journal es v.
Proof.
  revert v. induction es as [|e es IH] using rev_ind; intros v.
  - intros [= <-]. constructor.
  - intros (v0 & Hb0 & Hn)%verify_all_snoc. destruct (verified_commits _ _ _ Hn) as (Hi & Ha & Hc & ->).
    eapply journal_append; eauto.
Qed.

Lemma journal_is_verified es v : journal es v -> verify_all verifier_new es = Ok v.
Proof.
  induction 1 as [|es v int a at_ e Hj IH Hi Ha Hc]; [done |]. apply verify_all_snoc. exists v. split; [done |].
  apply verified_positions, positions_head_valid in IH. by eapply commit_verifies.
Qed.

Definition linked (es : list EventT) : Prop :=
  forall i a b, es !! i = Some a -> es !! S i = Some b -> follows (head a) b.

Lemma verified_linked es v : verify_all verifier_new es = Ok v -> Forall event_valid es /\ linked es.
Proof.
  revert v. induction es as [|e es IH] using rev_ind; intros v; [by split |].
  intros (v0 & Hb0 & Hn)%verify_all_snoc. destruct (IH v0 Hb0) as [HF Hl]. pose proof (verified_positions _ _ Hb0) as [_ Hv].
  apply journal_verify_next_iff in Hn as (He & _ & Hf). split; [apply Forall_app; split; [done | by apply Forall_singleton] |].
  intros i a b Ha Hb. apply lookup_app_Some in Hb as [Hb | [Hge Hb]].
  - apply (Hl i); [| done]. apply lookup_app_Some in Ha as [Ha | [Hge _]]; [done |]. apply lookup_lt_Some in Hb. lia.
  - destruct (S i - length es)%nat eqn:E; [| done]. injection Hb as <-.
    rewrite lookup_app_l in Ha by lia. destruct v0 as [h|]; [| by subst es; simpl in *].
    destruct Hv as [_ (x & Hx & ->)]. rewrite last_lookup in Hx. replace (pred (length es)) with i in Hx by lia.
    rewrite Ha in Hx. by injection Hx as ->.
Qed.

(** C31: The journal is exactly its conditional appends.  The chain verifier
    accepts a list of events exactly when it is the outcome of successive
    appends, each made by a valid intent against the head its writer saw and
    committed by [commit]; the verifier ends at that journal's head.  In such
    a journal the events are numbered from one without gaps, each is valid,
    and each names its predecessor's digest, in the same tenant and run and no
    earlier in time. *)
Theorem journal_chain_exact (es : list EventT) (v : JournalChainVerifier) :
  (verify_all verifier_new es = Ok v <-> journal es v) /\
  (journal es v -> positions es v /\ Forall event_valid es /\ linked es).
Proof.
  split; [split; [apply verified_is_journal | apply journal_is_verified] |].
  intros Hj%journal_is_verified. split; [by apply verified_positions | by eapply verified_linked].
Qed.

(** ** Tamper evidence *)

Definition event_preimage e : option bytes := b ← to_vec (event_wire e); Some (EVENT_DIGEST_DOMAIN ++ b).
Definition intent_preimage e : option bytes :=
  b ← to_vec (mkIntentDigestWire (tenant_id e) (run_id e) (event_id e) (source e) (event_payload_digest e));
  Some (INTENT_DIGEST_DOMAIN ++ b).

(** Two different texts hashed for the events, with one digest. *)
Definition collide e e' : Prop :=
  exists p p', ((event_preimage e = Some p /\ event_preimage e' = Some p') \/ (intent_preimage e = Some p /\ intent_preimage e' = Some p'))
    /\ p <> p' /\ sha256 p = sha256 p'.

(** Everything but the JSON spelling of the payload, which its digest fixes. *)
Definition same_event e e' : Prop := event_wire e = event_wire e' /\ source e = source e' /\ digest e = digest e'.

Variable event_inj : encoder_injective (to_vec (T := EventDigestWire)).
Variable intent_inj : encoder_injective (to_vec (T := IntentDigestWire)).

Lemma event_valid_preimages e : event_valid e ->
  exists p q, event_preimage e = Some p /\ intent_preimage e = Some q /\ digest e = sha256 p /\ intent_digest e = sha256 q.
Proof.
  intros (_ & _ & _ & (q & Hq & Eq)%digest_Ok & (p & Hp & Ep)%digest_Ok). unfold event_preimage, intent_preimage.
  rewrite Hp, Hq. simpl. eauto 10.
Qed.

Lemma same_digest_same_event e e' :
  event_valid e -> event_valid e' -> digest e = digest e' -> same_event e e' \/ collide e e'.
Proof.
  intros He He' Hd. destruct (event_valid_preimages e He) as (p & q & Hp & Hq & Ep & Eq).
  destruct (event_valid_preimages e' He') as (p' & q' & Hp' & Hq' & Ep' & Eq').
  destruct (decide (p = p')) as [<-|Hne]; [| right; exists p, p'; naive_solver congruence].
  assert (Hw : event_wire e = event_wire e').
  { unfold event_preimage in Hp, Hp'. destruct (to_vec (event_wire e)) as [b|] eqn:Eb; [| done].
    destruct (to_vec (event_wire e')) as [b'|] eqn:Eb'; [| done]. simpl in *. assert (b = b') as <- by (simplify_eq; by simplify_list_eq).
    by eapply event_inj. }
  destruct (decide (q = q')) as [<-|Hne]; [left | right; exists q, q'; unfold event_wire in Hw; naive_solver congruence].
  unfold intent_preimage in Hq, Hq'.
  destruct (to_vec (mkIntentDigestWire (tenant_id e) _ _ _ _)) as [b|] eqn:Eb; [| done].
  destruct (to_vec (mkIntentDigestWire (tenant_id e') _ _ _ _)) as [b'|] eqn:Eb'; [| done]. simpl in *.
  assert (b = b') as <- by (simplify_eq; by simplify_list_eq). split_and!; try done.
  by assert (Hw4 := intent_inj _ _ _ Eb Eb'); injection Hw4.
Qed.

Lemma verified_chains_agree es es' h h' :
  verify_all verifier_new es = Ok (Some h) -> verify_all verifier_new es' = Ok (Some h') -> jh_digest h = jh_digest h' ->
  Forall2 same_event es es' \/ exists e e', e ∈ es /\ e' ∈ es' /\ collide e e'.
Proof.
  revert es' h h'. induction es as [|e es IH] using rev_ind; intros es' h h' Hv Hv' Hd; [done |].
  destruct es' as [|e' es' _] using rev_ind; [done |].
  apply verify_all_snoc in Hv as (v & Hv & Hn), Hv' as (v' & Hv' & Hn').
  pose proof (verified_positions _ _ Hv) as Hpos. pose proof (verified_positions _ _ Hv') as Hpos'.
  apply journal_verify_next_iff in Hn as (He & [= ->] & Hl), Hn' as (He' & [= ->] & Hl').
  destruct (same_digest_same_event e e' He He' Hd) as [Hs | Hc]; cycle 1.
  { right. exists e, e'. rewrite !elem_of_app, !list_elem_of_singleton. naive_solver. }
  assert (Hseq : sequence e = sequence e' /\ previous_digest e = previous_digest e') by (destruct Hs as [Hw _]; by injection Hw).
  destruct Hseq as [Hseq Hprev], v as [h0|], v' as [h0'|]; simpl in Hl, Hl'.
  - destruct Hl as (_ & _ & _ & Hp & _), Hl' as (_ & _ & _ & Hp' & _). rewrite Hprev, Hp' in Hp. injection Hp as Hp.
    destruct (IH es' h0 h0' Hv Hv' ltac:(done)) as [HF | (x & x' & ? & ? & ?)].
    + left. apply Forall2_app; [done |]. by constructor.
    + right. exists x, x'. rewrite !elem_of_app. naive_solver.
  - exfalso. destruct Hl as (_ & _ & _ & Hp & _), He' as [Hfp _]. apply Hfp in Hl'. congruence.
  - exfalso. destruct Hl' as (_ & _ & _ & Hp & _), He as [Hfp _]. apply Hfp in Hl. congruence.
  - destruct Hpos as [_ ->], Hpos' as [_ ->]. left. simpl. constructor; [exact Hs | constructor].
Qed.

(** The journal is tamper-evident.  Two event lists that the verifier
    accepts with the same final digest hold the same events, one by one (all
    fields, the payload up to its digest), or two of their events exhibit a
    collision of the hash.  The encoders are assumed injective. *)
Theorem verified_journal_unique (es es' : list EventT) (h h' : JournalHead)
    (Hv : verify_all verifier_new es = Ok (Some h)) (Hv' : verify_all verifier_new es' = Ok (Some h'))
    (Hd : jh_digest h = jh_digest h') :
  Forall2 same_event es es' \/ exists e e', e ∈ es /\ e' ∈ es' /\ collide e e'.
Proof. by eapply verified_chains_agree. Qed.
End Laws.

(** ** A journal of two events *)

#[local] Instance intent_wire_eq_dec : EqDecision IntentDigestWire.
Proof. solve_decision. Defined.
#[local] Instance event_wire_eq_dec : EqDecision EventDigestWire.
Proof. solve_decision. Defined.

Definition demo_sha (b : bytes) : bytes := [Z.of_nat (length b); List.last b 0].
Definition demo_fence : RunLease.RunFence := RunLease.mkFence [97] 5 9 1.

Definition demo_event (seq : Z) (src : JournalEventSource) (at_ : Timestamp) (id prev : option Digest) : JournalEvent unit :=
  mkEvent [97] 5 seq (100 + seq) at_ src (mkPayload tt (bytes_of "run-admitted") (mkBoundedJson Null (mkJsonStats 4 0 1)) [7]) [7]
    (default [] id) prev [28; seq].
Definition demo_first : JournalEvent unit := demo_event 1 ControlPlane 10 (Some [29; 1]) None.
Definition demo_second : JournalEvent unit := demo_event 2 (Worker demo_fence) 10 (Some [29; 2]) (Some [28; 1]).

#[local] Instance demo_event_encoder : Canonical EventDigestWire := pick (event_wire demo_first) (event_wire demo_second).
#[local] Instance demo_intent_encoder : Canonical IntentDigestWire :=
  pick (mkIntentDigestWire [97] 5 101 ControlPlane [7]) (mkIntentDigestWire [97] 5 102 (Worker demo_fence) [7]).
#[local] Instance demo_value_encoder : Canonical Value := fun _ => None.

Lemma verified_journal_unique_witness :
  let es := [demo_first; demo_second] in
  verify_all demo_sha verifier_new es = Ok (Some (head demo_second)) /\
  (Forall2 same_event es es \/ exists e e', e ∈ es /\ e' ∈ es /\ collide demo_sha e e').
Proof.
  intros es. assert (Hv : verify_all demo_sha verifier_new es = Ok (Some (head demo_second))) by (vm_compute; reflexivity).
  split; [exact Hv |].
  exact (verified_journal_unique demo_sha (pick_injective _ _) (pick_injective _ _) es es _ _ Hv Hv eq_refl).
Defined.
End Chain.
