(* ===== verification/Wait.v ===== *)
(** Durable waits (crates/stateknot-core/src/wait.rs): the integrity-bound
    records beside the compact lifecycle markers of [Run.v].  A registration
    intent becomes an [InterruptRequest] or a [DurableTimer] at a journal
    observation; an authorised [InterruptResolution] or a [TimerFiring]
    completes it at a later one; heads are the compact anchors that the
    completions carry.

    Principal identities and schema references are compared only and are type
    parameters; the canonical encoder and SHA-256 are parameters. *)

From Stdlib Require Import ZArith Lia List.
From stdpp Require Import prelude.
From S2P Require Import Prelude Ordered Json Scope BoundedJson Time Checkpoint Run Journal.

Open Scope Z_scope.
Import Timestamp(Timestamp).

Module DurableWaits.

Definition INTERRUPT_INTENT_DIGEST_DOMAIN : bytes := bytes_of "stateknot-interrupt-intent-v1" ++ [0].
Definition INTERRUPT_REQUEST_DIGEST_DOMAIN : bytes := bytes_of "stateknot-interrupt-request-v1" ++ [0].
Definition INTERRUPT_RESOLUTION_INTENT_DIGEST_DOMAIN : bytes :=
  bytes_of "stateknot-interrupt-resolution-intent-v1" ++ [0].
Definition INTERRUPT_RESOLUTION_DIGEST_DOMAIN : bytes := bytes_of "stateknot-interrupt-resolution-v1" ++ [0].
Definition TIMER_INTENT_DIGEST_DOMAIN : bytes := bytes_of "stateknot-timer-intent-v1" ++ [0].
Definition TIMER_DIGEST_DOMAIN : bytes := bytes_of "stateknot-timer-v1" ++ [0].
Definition TIMER_FIRING_INTENT_DIGEST_DOMAIN : bytes := bytes_of "stateknot-timer-firing-intent-v1" ++ [0].
Definition TIMER_FIRING_DIGEST_DOMAIN : bytes := bytes_of "stateknot-timer-firing-v1" ++ [0].

Inductive DurableWaitError :=
| CanonicalSerialization
| IntentDigestMismatch
| RecordDigestMismatch
| JournalTenantMismatch
| JournalRunMismatch
| JournalEventMismatch
| LifecycleMarkerMismatch
| InterruptExpiryNotAfterRegistration
| TimerDueNotAfterRegistration
| InterruptRequestMismatch
| TimerRegistrationMismatch
| ResolverPrincipalMismatch
| ResolverScopesInsufficient
| ResolutionBeforeRegistration
| InterruptExpired
| TimerNotDue
| TerminalJournalNotAfterRegistration.

#[global] Instance RunInterruptKind_eq_dec : EqDecision RunInterruptKind.
Proof. solve_decision. Defined.
#[global] Instance RunInterrupt_eq_dec : EqDecision RunInterrupt.
Proof. solve_decision. Defined.
#[global] Instance RunTimerKind_eq_dec : EqDecision RunTimerKind.
Proof. solve_decision. Defined.
#[global] Instance RunTimer_eq_dec : EqDecision RunTimer.
Proof. solve_decision. Defined.

(** * Validation shared by the records *)

Definition validate_journal_scope (tenant : TenantId) (run : RunId) (event : Z) (journal : JournalHead)
  : result DurableWaitError unit :=
  if negb (bool_decide (jh_tenant_id journal = tenant)) then Err JournalTenantMismatch else
  if negb (bool_decide (jh_run_id journal = run)) then Err JournalRunMismatch else
  if negb (bool_decide (jh_event_id journal = event)) then Err JournalEventMismatch else Ok tt.

Definition validate_terminal_causality (registration terminal : JournalHead) : result DurableWaitError unit :=
  if (jh_sequence terminal <=? jh_sequence registration) || (jh_event_id terminal =? jh_event_id registration)
  then Err TerminalJournalNotAfterRegistration else Ok tt.

(** * Timers *)

Record TimerIntentDigestWire := mkTimerIntentWire {
  tw_tenant_id : TenantId;
  tw_run_id : RunId;
  tw_timer_id : Z;
  tw_registration_event_id : Z;
  tw_kind : RunTimerKind;
  tw_due_at : Timestamp
}.

Record TimerDigestWire := mkTimerWire { tdw_intent_digest : Digest; tdw_marker : RunTimer; tdw_journal : JournalHead }.

Record TerminalDigestWire := mkTerminalWire { trw_intent_digest : Digest; trw_journal : JournalHead }.

Record TimerRegistrationIntent := mkTimerIntent {
  ti_tenant_id : TenantId;
  ti_run_id : RunId;
  ti_timer_id : Z;
  ti_registration_event_id : Z;
  ti_kind : RunTimerKind;
  ti_due_at : Timestamp;
  ti_intent_digest : Digest
}.

Record DurableTimer := mkDurableTimer {
  dt_intent : TimerRegistrationIntent;
  dt_marker : RunTimer;
  dt_journal : JournalHead;
  dt_digest : Digest
}.

Record DurableTimerHead := mkTimerHead {
  th_tenant_id : TenantId;
  th_run_id : RunId;
  th_marker : RunTimer;
  th_intent_digest : Digest;
  th_journal : JournalHead;
  th_digest : Digest
}.

#[global] Instance DurableTimerHead_eq_dec : EqDecision DurableTimerHead.
Proof. solve_decision. Defined.

Record TimerFiringIntentDigestWire := mkFiringWire { fw_timer : DurableTimerHead; fw_firing_event_id : Z }.

Record TimerFiringIntent := mkFiringIntent {
  fi_timer : DurableTimerHead;
  fi_firing_event_id : Z;
  fi_intent_digest : Digest
}.

Record TimerFiring := mkFiring { tf_intent : TimerFiringIntent; tf_journal : JournalHead; tf_digest : Digest }.

Record DurableTimerRecord := mkTimerRecord { tr_timer : DurableTimer; tr_firing : option TimerFiring }.

Definition timer_head (self : DurableTimer) : DurableTimerHead :=
  mkTimerHead (ti_tenant_id (dt_intent self)) (ti_run_id (dt_intent self)) (dt_marker self)
    (ti_intent_digest (dt_intent self)) (dt_journal self) (dt_digest self).

Definition fired_at (self : TimerFiring) : Timestamp := jh_recorded_at (tf_journal self).

Definition timer_pending (timer : DurableTimer) : DurableTimerRecord := mkTimerRecord timer None.

Definition is_pending (self : DurableTimerRecord) : bool :=
  match tr_firing self with None => true | Some _ => false end.

Definition timer_record_restore (timer : DurableTimer) (firing : option TimerFiring)
  : result DurableWaitError DurableTimerRecord :=
  if (match firing with
      | Some value => negb (bool_decide (fi_timer (tf_intent value) = timer_head timer))
      | None => false
      end) then Err TimerRegistrationMismatch else
  Ok (mkTimerRecord timer firing).

Section Integrity.
Variable sha256 : bytes -> bytes.

Definition compute_digest {T} `{Canonical T} (domain : bytes) (value : T) : result DurableWaitError Digest :=
  canonical ← ok_or (to_vec value) CanonicalSerialization;
  Ok (sha256 (domain ++ canonical)).

Section Timers.
Context `{Canonical TimerIntentDigestWire, Canonical TimerDigestWire, Canonical TimerFiringIntentDigestWire,
          Canonical TerminalDigestWire}.

Definition timer_intent_new (tenant : TenantId) (run : RunId) (timer event : Z) (kind : RunTimerKind) (due : Timestamp)
  : result DurableWaitError TimerRegistrationIntent :=
  d ← compute_digest TIMER_INTENT_DIGEST_DOMAIN (mkTimerIntentWire tenant run timer event kind due);
  Ok (mkTimerIntent tenant run timer event kind due d).

Definition timer_intent_restore (wire : TimerRegistrationIntent) : result DurableWaitError TimerRegistrationIntent :=
  restored ← timer_intent_new (ti_tenant_id wire) (ti_run_id wire) (ti_timer_id wire) (ti_registration_event_id wire)
               (ti_kind wire) (ti_due_at wire);
  if negb (bool_decide (ti_intent_digest restored = ti_intent_digest wire)) then Err IntentDigestMismatch else Ok restored.

Definition timer_commit (intent : TimerRegistrationIntent) (journal : JournalHead) : result DurableWaitError DurableTimer :=
  _ ← validate_journal_scope (ti_tenant_id intent) (ti_run_id intent) (ti_registration_event_id intent) journal;
  marker ← map_err (fun _ => TimerDueNotAfterRegistration)
             (timer_new (ti_timer_id intent) (ti_kind intent) (jh_recorded_at journal) (ti_due_at intent));
  d ← compute_digest TIMER_DIGEST_DOMAIN (mkTimerWire (ti_intent_digest intent) marker journal);
  Ok (mkDurableTimer intent marker journal d).

Definition timer_restore (intent : TimerRegistrationIntent) (marker : RunTimer) (journal : JournalHead) (d : Digest)
  : result DurableWaitError DurableTimer :=
  restored ← timer_commit intent journal;
  if negb (bool_decide (dt_marker restored = marker)) then Err LifecycleMarkerMismatch else
  if negb (bool_decide (dt_digest restored = d)) then Err RecordDigestMismatch else Ok restored.

Definition timer_head_restore (wire : DurableTimerHead) : result DurableWaitError DurableTimerHead :=
  let marker := th_marker wire in
  let journal := th_journal wire in
  if negb (bool_decide (jh_tenant_id journal = th_tenant_id wire)) then Err JournalTenantMismatch else
  if negb (bool_decide (jh_run_id journal = th_run_id wire)) then Err JournalRunMismatch else
  if negb (bool_decide (jh_recorded_at journal = scheduled_at marker)) then Err LifecycleMarkerMismatch else
  if due_at marker <=? scheduled_at marker then Err TimerDueNotAfterRegistration else
  expected_intent ← compute_digest TIMER_INTENT_DIGEST_DOMAIN
    (mkTimerIntentWire (th_tenant_id wire) (th_run_id wire) (timer_id marker) (jh_event_id journal)
       (timer_kind marker) (due_at marker));
  if negb (bool_decide (expected_intent = th_intent_digest wire)) then Err IntentDigestMismatch else
  expected ← compute_digest TIMER_DIGEST_DOMAIN (mkTimerWire (th_intent_digest wire) marker journal);
  if negb (bool_decide (expected = th_digest wire)) then Err RecordDigestMismatch else
  Ok wire.

Definition firing_from_head (timer : DurableTimerHead) (event : Z) : result DurableWaitError TimerFiringIntent :=
  d ← compute_digest TIMER_FIRING_INTENT_DIGEST_DOMAIN (mkFiringWire timer event);
  Ok (mkFiringIntent timer event d).

Definition firing_intent_new (timer : DurableTimer) (event : Z) : result DurableWaitError TimerFiringIntent :=
  firing_from_head (timer_head timer) event.

Definition firing_intent_restore (wire : TimerFiringIntent) : result DurableWaitError TimerFiringIntent :=
  restored ← firing_from_head (fi_timer wire) (fi_firing_event_id wire);
  if negb (bool_decide (fi_intent_digest restored = fi_intent_digest wire)) then Err IntentDigestMismatch else Ok restored.

Definition firing_commit (intent : TimerFiringIntent) (journal : JournalHead) : result DurableWaitError TimerFiring :=
  _ ← validate_journal_scope (th_tenant_id (fi_timer intent)) (th_run_id (fi_timer intent)) (fi_firing_event_id intent) journal;
  _ ← validate_terminal_causality (th_journal (fi_timer intent)) journal;
  if jh_recorded_at journal <? due_at (th_marker (fi_timer intent)) then Err TimerNotDue else
  d ← compute_digest TIMER_FIRING_DIGEST_DOMAIN (mkTerminalWire (fi_intent_digest intent) journal);
  Ok (mkFiring intent journal d).

Definition firing_restore (intent : TimerFiringIntent) (journal : JournalHead) (d : Digest)
  : result DurableWaitError TimerFiring :=
  restored ← firing_commit intent journal;
  if negb (bool_decide (tf_digest restored = d)) then Err RecordDigestMismatch else Ok restored.
End Timers.
End Integrity.

(** * Interrupts *)

Section Interrupts.
Context {Schema Principal : Type} `{EqDecision Schema, EqDecision Principal}.
Abbreviation PayloadT := (@Journal.JournalPayload Schema).

Record InterruptIntentDigestWire := mkInterruptIntentWire {
  iiw_tenant_id : TenantId;
  iiw_run_id : RunId;
  iiw_interrupt_id : Z;
  iiw_request_event_id : Z;
  iiw_kind : RunInterruptKind;
  iiw_request_payload_digest : Digest;
  iiw_action_digest : Digest;
  iiw_required_principal : option Principal;
  iiw_required_scopes : Scope.ScopeSet;
  iiw_expires_at : option Timestamp
}.

Record InterruptRequestDigestWire := mkInterruptRequestWire {
  irw_intent_digest : Digest;
  irw_marker : RunInterrupt;
  irw_journal : JournalHead
}.

Record InterruptRequestIntent := mkRequestIntent {
  ri_tenant_id : TenantId;
  ri_run_id : RunId;
  ri_interrupt_id : Z;
  ri_request_event_id : Z;
  ri_kind : RunInterruptKind;
  ri_request_payload : PayloadT;
  ri_action_digest : Digest;
  ri_required_principal : option Principal;
  ri_required_scopes : Scope.ScopeSet;
  ri_expires_at : option Timestamp;
  ri_intent_digest : Digest
}.

Record InterruptRequest := mkRequest {
  rq_intent : InterruptRequestIntent;
  rq_marker : RunInterrupt;
  rq_journal : JournalHead;
  rq_digest : Digest
}.

Record InterruptRequestHead := mkRequestHead {
  rh_tenant_id : TenantId;
  rh_run_id : RunId;
  rh_marker : RunInterrupt;
  rh_request_payload_digest : Digest;
  rh_action_digest : Digest;
  rh_required_principal : option Principal;
  rh_required_scopes : Scope.ScopeSet;
  rh_intent_digest : Digest;
  rh_journal : JournalHead;
  rh_digest : Digest
}.

#[global] Instance InterruptRequestHead_eq_dec : EqDecision InterruptRequestHead.
Proof. solve_decision. Defined.

Record InterruptResolver := mkResolver { resolver_principal : Principal; resolver_granted_scopes : Scope.ScopeSet }.

Record InterruptResolutionIntentDigestWire := mkResolutionWire {
  rsw_request : InterruptRequestHead;
  rsw_resolution_event_id : Z;
  rsw_resolution_payload_digest : Digest;
  rsw_resolver : InterruptResolver
}.

Record InterruptResolutionIntent := mkResolutionIntent {
  rsi_request : InterruptRequestHead;
  rsi_resolution_event_id : Z;
  rsi_resolution_payload : PayloadT;
  rsi_resolver : InterruptResolver;
  rsi_intent_digest : Digest
}.

Record InterruptResolution := mkResolution {
  rs_intent : InterruptResolutionIntent;
  rs_journal : JournalHead;
  rs_digest : Digest
}.

Record InterruptRecord := mkInterruptRecord {
  ir_request : InterruptRequest;
  ir_resolution : option InterruptResolution
}.

Definition request_head (self : InterruptRequest) : InterruptRequestHead :=
  let intent := rq_intent self in
  mkRequestHead (ri_tenant_id intent) (ri_run_id intent) (rq_marker self)
    (Journal.payload_digest (ri_request_payload intent)) (ri_action_digest intent) (ri_required_principal intent)
    (ri_required_scopes intent) (ri_intent_digest intent) (rq_journal self) (rq_digest self).

Definition authorize_resolver (request : InterruptRequestHead) (resolver : InterruptResolver) : result DurableWaitError unit :=
  if (match rh_required_principal request with
      | Some required => negb (bool_decide (required = resolver_principal resolver))
      | None => false
      end) then Err ResolverPrincipalMismatch else
  if negb (Scope.is_subset (rh_required_scopes request) (resolver_granted_scopes resolver))
  then Err ResolverScopesInsufficient else Ok tt.

Definition resolved_at (self : InterruptResolution) : Timestamp := jh_recorded_at (rs_journal self).

Definition unresolved (request : InterruptRequest) : InterruptRecord := mkInterruptRecord request None.

Definition is_outstanding (self : InterruptRecord) : bool :=
  match ir_resolution self with None => true | Some _ => false end.

Definition interrupt_record_restore (request : InterruptRequest) (resolution : option InterruptResolution)
  : result DurableWaitError InterruptRecord :=
  if (match resolution with
      | Some value => negb (bool_decide (rsi_request (rs_intent value) = request_head request))
      | None => false
      end) then Err InterruptRequestMismatch else
  Ok (mkInterruptRecord request resolution).

Variable sha256 : bytes -> bytes.
Context `{Canonical InterruptIntentDigestWire, Canonical InterruptRequestDigestWire,
          Canonical InterruptResolutionIntentDigestWire, Canonical TerminalDigestWire}.

(** ** Requests *)

Definition request_intent_new (tenant : TenantId) (run : RunId) (interrupt event : Z) (kind : RunInterruptKind)
  (payload : PayloadT) (action : Digest) (principal : option Principal) (scopes : Scope.ScopeSet)
  (expires : option Timestamp) : result DurableWaitError InterruptRequestIntent :=
  d ← compute_digest sha256 INTERRUPT_INTENT_DIGEST_DOMAIN
        (mkInterruptIntentWire tenant run interrupt event kind (Journal.payload_digest payload) action principal scopes expires);
  Ok (mkRequestIntent tenant run interrupt event kind payload action principal scopes expires d).

Definition request_intent_restore (wire : InterruptRequestIntent) : result DurableWaitError InterruptRequestIntent :=
  restored ← request_intent_new (ri_tenant_id wire) (ri_run_id wire) (ri_interrupt_id wire) (ri_request_event_id wire)
               (ri_kind wire) (ri_request_payload wire) (ri_action_digest wire) (ri_required_principal wire)
               (ri_required_scopes wire) (ri_expires_at wire);
  if negb (bool_decide (ri_intent_digest restored = ri_intent_digest wire)) then Err IntentDigestMismatch else Ok restored.

Definition compute_interrupt_request_digest (intent : InterruptRequestIntent) (marker : RunInterrupt) (journal : JournalHead)
  : result DurableWaitError Digest :=
  compute_digest sha256 INTERRUPT_REQUEST_DIGEST_DOMAIN (mkInterruptRequestWire (ri_intent_digest intent) marker journal).

Definition request_commit (intent : InterruptRequestIntent) (journal : JournalHead) : result DurableWaitError InterruptRequest :=
  _ ← validate_journal_scope (ri_tenant_id intent) (ri_run_id intent) (ri_request_event_id intent) journal;
  marker ← map_err (fun _ => InterruptExpiryNotAfterRegistration)
             (interrupt_new (ri_interrupt_id intent) (ri_kind intent) (jh_recorded_at journal) (ri_expires_at intent));
  d ← compute_interrupt_request_digest intent marker journal;
  Ok (mkRequest intent marker journal d).

Definition request_restore (intent : InterruptRequestIntent) (marker : RunInterrupt) (journal : JournalHead) (d : Digest)
  : result DurableWaitError InterruptRequest :=
  restored ← request_commit intent journal;
  if negb (bool_decide (rq_marker restored = marker)) then Err LifecycleMarkerMismatch else
  if negb (bool_decide (rq_digest restored = d)) then Err RecordDigestMismatch else Ok restored.

Definition request_head_restore (wire : InterruptRequestHead) : result DurableWaitError InterruptRequestHead :=
  let marker := rh_marker wire in
  let journal := rh_journal wire in
  if negb (bool_decide (jh_tenant_id journal = rh_tenant_id wire)) then Err JournalTenantMismatch else
  if negb (bool_decide (jh_run_id journal = rh_run_id wire)) then Err JournalRunMismatch else
  if negb (bool_decide (jh_recorded_at journal = requested_at marker)) then Err LifecycleMarkerMismatch else
  if (match expires_at marker with
      | Some expires => expires <=? requested_at marker
      | None => false
      end) then Err InterruptExpiryNotAfterRegistration else
  expected_intent ← compute_digest sha256 INTERRUPT_INTENT_DIGEST_DOMAIN
    (mkInterruptIntentWire (rh_tenant_id wire) (rh_run_id wire) (interrupt_id marker) (jh_event_id journal)
       (interrupt_kind marker) (rh_request_payload_digest wire) (rh_action_digest wire) (rh_required_principal wire)
       (rh_required_scopes wire) (expires_at marker));
  if negb (bool_decide (expected_intent = rh_intent_digest wire)) then Err IntentDigestMismatch else
  expected ← compute_digest sha256 INTERRUPT_REQUEST_DIGEST_DOMAIN
    (mkInterruptRequestWire (rh_intent_digest wire) marker journal);
  if negb (bool_decide (expected = rh_digest wire)) then Err RecordDigestMismatch else
  Ok wire.

(** ** Resolutions *)

Definition resolution_from_head (request : InterruptRequestHead) (event : Z) (payload : PayloadT) (resolver : InterruptResolver)
  : result DurableWaitError InterruptResolutionIntent :=
  _ ← authorize_resolver request resolver;
  d ← compute_digest sha256 INTERRUPT_RESOLUTION_INTENT_DIGEST_DOMAIN
        (mkResolutionWire request event (Journal.payload_digest payload) resolver);
  Ok (mkResolutionIntent request event payload resolver d).

Definition resolution_intent_new (request : InterruptRequest) (event : Z) (payload : PayloadT) (resolver : InterruptResolver)
  : result DurableWaitError InterruptResolutionIntent :=
  let request := request_head request in
  _ ← authorize_resolver request resolver;
  resolution_from_head request event payload resolver.

Definition resolution_intent_restore (wire : InterruptResolutionIntent) : result DurableWaitError InterruptResolutionIntent :=
  restored ← resolution_from_head (rsi_request wire) (rsi_resolution_event_id wire) (rsi_resolution_payload wire) (rsi_resolver wire);
  if negb (bool_decide (rsi_intent_digest restored = rsi_intent_digest wire)) then Err IntentDigestMismatch else Ok restored.

Definition resolution_commit (intent : InterruptResolutionIntent) (journal : JournalHead)
  : result DurableWaitError InterruptResolution :=
  let request := rsi_request intent in
  _ ← validate_journal_scope (rh_tenant_id request) (rh_run_id request) (rsi_resolution_event_id intent) journal;
  _ ← validate_terminal_causality (rh_journal request) journal;
  _ ← authorize_resolver request (rsi_resolver intent);
  if jh_recorded_at journal <? requested_at (rh_marker request) then Err ResolutionBeforeRegistration else
  if (match expires_at (rh_marker request) with
      | Some expires => expires <=? jh_recorded_at journal
      | None => false
      end) then Err InterruptExpired else
  d ← compute_digest sha256 INTERRUPT_RESOLUTION_DIGEST_DOMAIN (mkTerminalWire (rsi_intent_digest intent) journal);
  Ok (mkResolution intent journal d).

Definition resolution_restore (intent : InterruptResolutionIntent) (journal : JournalHead) (d : Digest)
  : result DurableWaitError InterruptResolution :=
  restored ← resolution_commit intent journal;
  if negb (bool_decide (rs_digest restored = d)) then Err RecordDigestMismatch else Ok restored.

(** * Waits of either kind *)

Inductive WaitRegistrationIntent :=
| InterruptIntent (request : InterruptRequestIntent)
| TimerIntent (timer : TimerRegistrationIntent).

Inductive DurableWait :=
| InterruptWait (request : InterruptRequest)
| TimerWait (timer : DurableTimer).

Definition registration_tenant_id (self : WaitRegistrationIntent) : TenantId :=
  match self with InterruptIntent request => ri_tenant_id request | TimerIntent timer => ti_tenant_id timer end.

Definition registration_run_id (self : WaitRegistrationIntent) : RunId :=
  match self with InterruptIntent request => ri_run_id request | TimerIntent timer => ti_run_id timer end.

Definition registration_event_id (self : WaitRegistrationIntent) : Z :=
  match self with
  | InterruptIntent request => ri_request_event_id request
  | TimerIntent timer => ti_registration_event_id timer
  end.

Definition wait_tenant_id (self : DurableWait) : TenantId :=
  match self with InterruptWait request => ri_tenant_id (rq_intent request) | TimerWait timer => ti_tenant_id (dt_intent timer) end.

Definition wait_run_id (self : DurableWait) : RunId :=
  match self with InterruptWait request => ri_run_id (rq_intent request) | TimerWait timer => ti_run_id (dt_intent timer) end.

Definition wait_journal (self : DurableWait) : JournalHead :=
  match self with InterruptWait request => rq_journal request | TimerWait timer => dt_journal timer end.

Definition wait_marker (self : DurableWait) : RunWait :=
  match self with InterruptWait request => Interrupt (rq_marker request) | TimerWait timer => Timer (dt_marker timer) end.

Context `{Canonical TimerDigestWire}.

Definition registration_commit (self : WaitRegistrationIntent) (journal : JournalHead) : result DurableWaitError DurableWait :=
  match self with
  | InterruptIntent request => r ← request_commit request journal; Ok (InterruptWait r)
  | TimerIntent timer => t ← timer_commit sha256 timer journal; Ok (TimerWait t)
  end.
End Interrupts.
Arguments InterruptIntentDigestWire : clear implicits.
Arguments InterruptRequestIntent : clear implicits.
Arguments InterruptRequest : clear implicits.
Arguments InterruptRequestHead : clear implicits.
Arguments InterruptResolver : clear implicits.
Arguments InterruptResolutionIntentDigestWire : clear implicits.
Arguments InterruptResolutionIntent : clear implicits.
Arguments InterruptResolution : clear implicits.
Arguments InterruptRecord : clear implicits.
Arguments WaitRegistrationIntent : clear implicits.
Arguments DurableWait : clear implicits.
End DurableWaits.
