(* ===== verification/WaitLaws.v ===== *)
(** Theorems on durable waits: which completions are accepted, that they
    agree with the lifecycle transitions they are committed beside, that
    stored records restore to themselves, and that a digest identifies the
    record it was computed from. *)

From Stdlib Require Import ZArith Lia List.
From stdpp Require Import prelude.
From S2P Require Import Prelude Ordered Json Scope BoundedJson Time Checkpoint Run RunLaws Journal Wait.

Open Scope Z_scope.
Import Timestamp(Timestamp).

Module WaitRecords.
Import DurableWaits.

(** The journal event [j] is the event an intent names. *)
Definition in_scope (tenant : TenantId) (run : RunId) (event : Z) (j : JournalHead) : Prop :=
  jh_tenant_id j = tenant /\ jh_run_id j = run /\ jh_event_id j = event.

(** [j] lies strictly after [j0] in the journal. *)
Definition follows (j0 j : JournalHead) : Prop :=
  jh_sequence j0 < jh_sequence j /\ jh_event_id j <> jh_event_id j0.

Lemma scope_iff tenant run event j : validate_journal_scope tenant run event j = Ok tt <-> in_scope tenant run event j.
Proof. unfold validate_journal_scope, in_scope. guard_iff. naive_solver. Qed.

Lemma causality_iff j0 j : validate_terminal_causality j0 j = Ok tt <-> follows j0 j.
Proof.
  unfold validate_terminal_causality, follows.
  destruct (Z.leb_spec (jh_sequence j) (jh_sequence j0)); simpl; [refuted |].
  destruct (Z.eqb_spec (jh_event_id j) (jh_event_id j0)); [refuted |]. naive_solver.
Qed.

Lemma unit_Ok {E} (r : result E unit) u : r = Ok u -> r = Ok tt.
Proof. by destruct u. Qed.

Lemma compute_digest_Ok {T} `{Canonical T} sha256 domain (x : T) d :
  compute_digest sha256 domain x = Ok d <-> exists c, to_vec x = Some c /\ d = sha256 (domain ++ c).
Proof. unfold compute_digest. rewrite bind_Ok. setoid_rewrite ok_or_Ok. naive_solver. Qed.

(** Two texts that differ and have the same hash. *)
Definition collision (sha256 : bytes -> bytes) : Prop := exists a b, a <> b /\ sha256 a = sha256 b.

Lemma compute_digest_inj {T} `{Canonical T} sha256 domain (x y : T) d :
  encoder_injective (T := T) to_vec ->
  compute_digest sha256 domain x = Ok d -> compute_digest sha256 domain y = Ok d ->
  x = y \/ collision sha256.
Proof.
  intros Hinj (c & Hc & ->)%compute_digest_Ok (c' & Hc' & Heq)%compute_digest_Ok.
  destruct (decide (c = c')) as [->|Hne]; [left; by apply (Hinj x y c') |].
  right. exists (domain ++ c), (domain ++ c'). split; [by intros ?%app_inv_head | done].
Qed.

Section Laws.
Context {Schema Principal : Type} `{EqDecision Schema, EqDecision Principal}.
Variable sha256 : bytes -> bytes.
Context `{Canonical (InterruptIntentDigestWire Principal), Canonical InterruptRequestDigestWire,
          Canonical (InterruptResolutionIntentDigestWire Principal), Canonical TerminalDigestWire,
          Canonical TimerIntentDigestWire, Canonical TimerDigestWire, Canonical TimerFiringIntentDigestWire}.
#[local] Abbreviation RequestIntent := (InterruptRequestIntent Schema Principal).
#[local] Abbreviation Request := (InterruptRequest Schema Principal).
#[local] Abbreviation Head := (InterruptRequestHead Principal).
#[local] Abbreviation Resolver := (InterruptResolver Principal).
#[local] Abbreviation ResolutionIntent := (InterruptResolutionIntent Schema Principal).
#[local] Abbreviation Payload := (Journal.JournalPayload Schema).

(** The resolver is the required principal, if any, and holds every scope. *)
Definition authorised (h : Head) (r : Resolver) : Prop :=
  (forall p, rh_required_principal h = Some p -> resolver_principal r = p) /\
  rh_required_scopes h ⊆ resolver_granted_scopes r.

(** The instants at which an interrupt can be answered. *)
Definition in_window (m : RunInterrupt) (at_ : Timestamp) : Prop :=
  requested_at m <= at_ /\ forall e, expires_at m = Some e -> at_ < e.

Lemma authorize_iff h r : authorize_resolver h r = Ok tt <-> authorised h r.
Proof.
  unfold authorize_resolver, authorised. rewrite <- Scope.is_subset_iff.
  destruct (rh_required_principal h) as [p|]; simpl.
  - destruct (bool_decide_reflect (p = resolver_principal r)) as [->|Hp]; simpl; [| split; [done | naive_solver]].
    destruct (Scope.is_subset _ _); simpl; naive_solver.
  - destruct (Scope.is_subset _ _); simpl; naive_solver.
Qed.

Lemma resolution_commit_iff (i : ResolutionIntent) j rs :
  resolution_commit sha256 i j = Ok rs <->
  in_scope (rh_tenant_id (rsi_request i)) (rh_run_id (rsi_request i)) (rsi_resolution_event_id i) j /\
  follows (rh_journal (rsi_request i)) j /\ authorised (rsi_request i) (rsi_resolver i) /\
  in_window (rh_marker (rsi_request i)) (jh_recorded_at j) /\
  exists d, compute_digest sha256 INTERRUPT_RESOLUTION_DIGEST_DOMAIN (mkTerminalWire (rsi_intent_digest i) j) = Ok d /\
            rs = mkResolution i j d.
Proof.
  unfold resolution_commit. rewrite <- scope_iff, <- causality_iff, <- authorize_iff. unfold in_window. split.
  - intros H'. open_guards H'. injection H' as <-.
    split_and!; [by eapply unit_Ok | by eapply unit_Ok | by eapply unit_Ok | lia | | by exists x2].
    intros e He. rewrite He in Hguard. bool_lia.
  - intros (-> & -> & -> & [Hr He] & d & Hd & ->). step_ok. destruct (Z.ltb_spec (jh_recorded_at j) (requested_at (rh_marker (rsi_request i)))); [lia |].
    destruct (expires_at _) as [e|]; [destruct (Z.leb_spec e (jh_recorded_at j)); [by specialize (He e eq_refl); lia |] |];
      by rewrite Hd.
Qed.

Lemma resolution_from_head_iff h event (p : Payload) r i :
  resolution_from_head sha256 h event p r = Ok i <->
  authorised h r /\ exists d, compute_digest sha256 INTERRUPT_RESOLUTION_INTENT_DIGEST_DOMAIN
                                (mkResolutionWire h event (Journal.payload_digest p) r) = Ok d /\
                              i = mkResolutionIntent h event p r d.
Proof.
  unfold resolution_from_head. rewrite <- authorize_iff. split.
  - intros H'. open_guards H'. injection H' as <-. split; [by eapply unit_Ok | by exists x0].
  - intros (-> & d & Hd & ->). step_ok. by rewrite Hd.
Qed.

Lemma resolution_intent_new_head (rq : Request) event (p : Payload) r :
  resolution_intent_new sha256 rq event p r = resolution_from_head sha256 (request_head rq) event p r.
Proof. unfold resolution_intent_new, resolution_from_head. by destruct (authorize_resolver (request_head rq) r) as [[]|]. Qed.

Lemma firing_commit_iff (i : TimerFiringIntent) j f :
  firing_commit sha256 i j = Ok f <->
  in_scope (th_tenant_id (fi_timer i)) (th_run_id (fi_timer i)) (fi_firing_event_id i) j /\
  follows (th_journal (fi_timer i)) j /\ due_at (th_marker (fi_timer i)) <= jh_recorded_at j /\
  exists d, compute_digest sha256 TIMER_FIRING_DIGEST_DOMAIN (mkTerminalWire (fi_intent_digest i) j) = Ok d /\ f = mkFiring i j d.
Proof.
  unfold firing_commit. rewrite <- scope_iff, <- causality_iff. split.
  - intros H'. open_guards H'. injection H' as <-. split_and!; [by eapply unit_Ok | by eapply unit_Ok | done | by exists x1].
  - intros (-> & -> & Hd & d & Hc & ->). step_ok. destruct (Z.ltb_spec (jh_recorded_at j) (due_at (th_marker (fi_timer i)))); [lia |].
    by rewrite Hc.
Qed.

Lemma request_commit_iff (i : RequestIntent) j rq :
  request_commit sha256 i j = Ok rq <->
  in_scope (ri_tenant_id i) (ri_run_id i) (ri_request_event_id i) j /\
  (forall e, ri_expires_at i = Some e -> jh_recorded_at j < e) /\
  let m := mkInterrupt (ri_interrupt_id i) (ri_kind i) (jh_recorded_at j) (ri_expires_at i) in
  exists d, compute_digest sha256 INTERRUPT_REQUEST_DIGEST_DOMAIN (mkInterruptRequestWire (ri_intent_digest i) m j) = Ok d /\
            rq = mkRequest i m j d.
Proof.
  unfold request_commit, compute_interrupt_request_digest, interrupt_new. rewrite <- scope_iff. split.
  - intros H'. open_guards H'. apply unit_Ok in Hx. injection H' as <-. split; [done |].
    destruct (ri_expires_at i) as [e|]; simp_ok; subst; (split; [intros e' [= <-]; bool_lia || done | by exists x1]) ||
      (split; [done | by exists x1]).
  - intros (-> & He & d & Hd & ->). step_ok. destruct (ri_expires_at i) as [e|]; simpl.
    + destruct (Z.leb_spec e (jh_recorded_at j)); [by specialize (He e eq_refl); lia |]. simpl. by rewrite Hd.
    + by rewrite Hd.
Qed.

Lemma timer_commit_iff (i : TimerRegistrationIntent) j t :
  timer_commit sha256 i j = Ok t <->
  in_scope (ti_tenant_id i) (ti_run_id i) (ti_registration_event_id i) j /\ jh_recorded_at j < ti_due_at i /\
  let m := mkTimer (ti_timer_id i) (ti_kind i) (jh_recorded_at j) (ti_due_at i) in
  exists d, compute_digest sha256 TIMER_DIGEST_DOMAIN (mkTimerWire (ti_intent_digest i) m j) = Ok d /\
            t = mkDurableTimer i m j d.
Proof.
  unfold timer_commit, timer_new. rewrite <- scope_iff. split.
  - intros H'. open_guards H'. apply unit_Ok in Hx. injection H' as <-. simp_ok. subst. split_and!; [done | bool_lia | by exists x1].
  - intros (-> & He & d & Hd & ->). step_ok. destruct (Z.leb_spec (ti_due_at i) (jh_recorded_at j)); [lia |]. simpl. by rewrite Hd.
Qed.
(** ** Stored records *)

Definition intent_of_head (h : Head) (p : Payload) : RequestIntent :=
  mkRequestIntent (rh_tenant_id h) (rh_run_id h) (interrupt_id (rh_marker h)) (jh_event_id (rh_journal h))
    (interrupt_kind (rh_marker h)) p (rh_action_digest h) (rh_required_principal h) (rh_required_scopes h)
    (expires_at (rh_marker h)) (rh_intent_digest h).

Definition intent_wire (i : RequestIntent) : InterruptIntentDigestWire Principal :=
  mkInterruptIntentWire (ri_tenant_id i) (ri_run_id i) (ri_interrupt_id i) (ri_request_event_id i) (ri_kind i)
    (Journal.payload_digest (ri_request_payload i)) (ri_action_digest i) (ri_required_principal i) (ri_required_scopes i)
    (ri_expires_at i).

Definition head_intent_wire (h : Head) : InterruptIntentDigestWire Principal :=
  mkInterruptIntentWire (rh_tenant_id h) (rh_run_id h) (interrupt_id (rh_marker h)) (jh_event_id (rh_journal h))
    (interrupt_kind (rh_marker h)) (rh_request_payload_digest h) (rh_action_digest h) (rh_required_principal h)
    (rh_required_scopes h) (expires_at (rh_marker h)).

Definition timer_wire (i : TimerRegistrationIntent) : TimerIntentDigestWire :=
  mkTimerIntentWire (ti_tenant_id i) (ti_run_id i) (ti_timer_id i) (ti_registration_event_id i) (ti_kind i) (ti_due_at i).

Definition timer_of_head (h : DurableTimerHead) : TimerRegistrationIntent :=
  mkTimerIntent (th_tenant_id h) (th_run_id h) (timer_id (th_marker h)) (jh_event_id (th_journal h))
    (timer_kind (th_marker h)) (due_at (th_marker h)) (th_intent_digest h).

Lemma request_intent_restore_iff (i i' : RequestIntent) :
  request_intent_restore sha256 i = Ok i' <->
  i' = i /\ compute_digest sha256 INTERRUPT_INTENT_DIGEST_DOMAIN (intent_wire i) = Ok (ri_intent_digest i).
Proof.
  unfold request_intent_restore, request_intent_new. fold (intent_wire i). split.
  - intros H'. open_guards H'. open_guards Hx. injection Hx as <-. injection H' as <-. simpl in *. subst. by destruct i.
  - intros [-> Hd]. rewrite Hd. step_ok. simpl. rewrite bool_decide_eq_true_2 by done. by destruct i.
Qed.

Lemma timer_intent_restore_iff (i i' : TimerRegistrationIntent) :
  timer_intent_restore sha256 i = Ok i' <->
  i' = i /\ compute_digest sha256 TIMER_INTENT_DIGEST_DOMAIN (timer_wire i) = Ok (ti_intent_digest i).
Proof.
  unfold timer_intent_restore, timer_intent_new. fold (timer_wire i). split.
  - intros H'. open_guards H'. open_guards Hx. injection Hx as <-. injection H' as <-. simpl in *. subst. by destruct i.
  - intros [-> Hd]. rewrite Hd. step_ok. simpl. rewrite bool_decide_eq_true_2 by done. by destruct i.
Qed.

Lemma request_head_restore_iff (h h' : Head) :
  request_head_restore sha256 h = Ok h' <->
  h' = h /\ jh_tenant_id (rh_journal h) = rh_tenant_id h /\ jh_run_id (rh_journal h) = rh_run_id h /\
  jh_recorded_at (rh_journal h) = requested_at (rh_marker h) /\
  (forall e, expires_at (rh_marker h) = Some e -> requested_at (rh_marker h) < e) /\
  compute_digest sha256 INTERRUPT_INTENT_DIGEST_DOMAIN (head_intent_wire h) = Ok (rh_intent_digest h) /\
  compute_digest sha256 INTERRUPT_REQUEST_DIGEST_DOMAIN
    (mkInterruptRequestWire (rh_intent_digest h) (rh_marker h) (rh_journal h)) = Ok (rh_digest h).
Proof.
  unfold request_head_restore. fold (head_intent_wire h). split.
  - intros H'. open_guards H'. injection H' as <-. subst. split_and!; try done.
    intros e' He. rewrite He in Hguard. bool_lia.
  - intros (-> & Ht & Hr & Ha & He & Hi & Hd). rewrite !bool_decide_eq_true_2 by done. simpl.
    assert ((match expires_at (rh_marker h) with Some e => e <=? requested_at (rh_marker h) | None => false end) = false) as ->.
    { destruct (expires_at (rh_marker h)) as [e|]; [| done]. specialize (He e eq_refl). apply Z.leb_gt. lia. }
    rewrite Hi. step_ok. rewrite bool_decide_eq_true_2 by done. simpl. rewrite Hd. step_ok. by rewrite bool_decide_eq_true_2.
Qed.

Lemma timer_head_restore_iff (h h' : DurableTimerHead) :
  timer_head_restore sha256 h = Ok h' <->
  h' = h /\ jh_tenant_id (th_journal h) = th_tenant_id h /\ jh_run_id (th_journal h) = th_run_id h /\
  jh_recorded_at (th_journal h) = scheduled_at (th_marker h) /\ scheduled_at (th_marker h) < due_at (th_marker h) /\
  compute_digest sha256 TIMER_INTENT_DIGEST_DOMAIN (timer_wire (timer_of_head h)) = Ok (th_intent_digest h) /\
  compute_digest sha256 TIMER_DIGEST_DOMAIN (mkTimerWire (th_intent_digest h) (th_marker h) (th_journal h)) = Ok (th_digest h).
Proof.
  unfold timer_head_restore, timer_of_head, timer_wire. simpl. split.
  - intros H'. open_guards H'. injection H' as <-. subst. split_and!; done.
  - intros (-> & Ht & Hr & Ha & He & Hi & Hd). rewrite !bool_decide_eq_true_2 by done. simpl.
    destruct (Z.leb_spec (due_at (th_marker h)) (scheduled_at (th_marker h))); [lia |].
    rewrite Hi. step_ok. rewrite bool_decide_eq_true_2 by done. simpl. rewrite Hd. step_ok. by rewrite bool_decide_eq_true_2.
Qed.

(** A committed request restores from its stored columns, and its head from its own. *)
Lemma request_stored (i : RequestIntent) j rq :
  request_intent_restore sha256 i = Ok i -> request_commit sha256 i j = Ok rq ->
  request_restore sha256 (rq_intent rq) (rq_marker rq) (rq_journal rq) (rq_digest rq) = Ok rq /\
  request_head_restore sha256 (request_head rq) = Ok (request_head rq).
Proof.
  intros [_ Hi]%request_intent_restore_iff Hc. pose proof Hc as ((Ht & Hr & He) & Hexp & d & Hd & ->)%request_commit_iff. split.
  - unfold request_restore. simpl. rewrite Hc. step_ok. simpl. by rewrite !bool_decide_eq_true_2.
  - apply request_head_restore_iff. unfold request_head, head_intent_wire. simpl. rewrite He. split_and!; done.
Qed.

Lemma request_of_head (h : Head) (p : Payload) :
  Journal.payload_digest p = rh_request_payload_digest h -> request_head_restore sha256 h = Ok h ->
  exists rq, request_intent_restore sha256 (intent_of_head h p) = Ok (intent_of_head h p) /\
             request_commit sha256 (intent_of_head h p) (rh_journal h) = Ok rq /\ request_head rq = h.
Proof.
  intros Hp (_ & Ht & Hr & Ha & He & Hi & Hd)%request_head_restore_iff.
  exists (mkRequest (intent_of_head h p) (rh_marker h) (rh_journal h) (rh_digest h)). split_and!.
  - apply request_intent_restore_iff. split; [done |]. unfold intent_wire, intent_of_head. simpl. by rewrite Hp.
  - apply request_commit_iff. unfold in_scope, intent_of_head. simpl. rewrite Ha. split_and!; try done.
    exists (rh_digest h). by destruct h as [? ? []].
  - unfold request_head, intent_of_head. simpl. rewrite Hp. by destruct h.
Qed.

Lemma timer_stored (i : TimerRegistrationIntent) j t :
  timer_intent_restore sha256 i = Ok i -> timer_commit sha256 i j = Ok t ->
  timer_restore sha256 (dt_intent t) (dt_marker t) (dt_journal t) (dt_digest t) = Ok t /\
  timer_head_restore sha256 (timer_head t) = Ok (timer_head t).
Proof.
  intros [_ Hi]%timer_intent_restore_iff Hc. pose proof Hc as ((Ht & Hr & He) & Hexp & d & Hd & ->)%timer_commit_iff. split.
  - unfold timer_restore. simpl. rewrite Hc. step_ok. simpl. by rewrite !bool_decide_eq_true_2.
  - apply timer_head_restore_iff. unfold timer_head, timer_of_head, timer_wire. simpl. rewrite He. split_and!; done.
Qed.

Lemma timer_of_head_commits (h : DurableTimerHead) :
  timer_head_restore sha256 h = Ok h ->
  exists t, timer_intent_restore sha256 (timer_of_head h) = Ok (timer_of_head h) /\
            timer_commit sha256 (timer_of_head h) (th_journal h) = Ok t /\ timer_head t = h.
Proof.
  intros (_ & Ht & Hr & Ha & He & Hi & Hd)%timer_head_restore_iff.
  exists (mkDurableTimer (timer_of_head h) (th_marker h) (th_journal h) (th_digest h)). split_and!.
  - by apply timer_intent_restore_iff.
  - apply timer_commit_iff. unfold in_scope, timer_of_head. simpl. rewrite Ha. split_and!; try done.
    exists (th_digest h). by destruct h as [? ? []].
  - by destruct h.
Qed.

(** A completion restores from the journal event it was committed at. *)
Lemma resolution_stored (rq : Request) event (p : Payload) r i j rs :
  resolution_intent_new sha256 rq event p r = Ok i -> resolution_commit sha256 i j = Ok rs ->
  resolution_intent_restore sha256 i = Ok i /\ resolution_restore sha256 (rs_intent rs) (rs_journal rs) (rs_digest rs) = Ok rs /\
  interrupt_record_restore rq (Some rs) = Ok (mkInterruptRecord rq (Some rs)).
Proof.
  rewrite resolution_intent_new_head. intros Hi Hc.
  pose proof Hi as (_ & d & Hd & ->)%resolution_from_head_iff. pose proof Hc as (_ & _ & _ & _ & d' & Hd' & ->)%resolution_commit_iff.
  unfold resolution_intent_restore, resolution_restore, interrupt_record_restore. simpl. rewrite Hi, Hc. step_ok. simpl.
  by rewrite !bool_decide_eq_true_2.
Qed.

Lemma firing_stored t event i j f :
  firing_intent_new sha256 t event = Ok i -> firing_commit sha256 i j = Ok f ->
  firing_intent_restore sha256 i = Ok i /\ firing_restore sha256 (tf_intent f) (tf_journal f) (tf_digest f) = Ok f /\
  timer_record_restore t (Some f) = Ok (mkTimerRecord t (Some f)).
Proof.
  unfold firing_intent_new. intros Hi Hc. pose proof Hc as (_ & _ & _ & d' & Hd' & ->)%firing_commit_iff.
  pose proof Hi as Hi'. unfold firing_from_head in Hi'. open_guards Hi'. injection Hi' as <-.
  unfold firing_intent_restore, firing_restore, timer_record_restore. simpl in *. rewrite Hi, Hc. step_ok. simpl.
  by rewrite !bool_decide_eq_true_2.
Qed.
(** ** Completions *)

(** Answering a committed request, and firing a committed timer, at [j]. *)
Definition resolve (rq : Request) (event : Z) (p : Payload) (r : Resolver) (j : JournalHead) :=
  i ← resolution_intent_new sha256 rq event p r; resolution_commit sha256 i j.

Definition fire (t : DurableTimer) (event : Z) (j : JournalHead) :=
  i ← firing_intent_new sha256 t event; firing_commit sha256 i j.

Section Completions.
Hypothesis Hres : forall w : InterruptResolutionIntentDigestWire Principal, is_Some (to_vec w).
Hypothesis Hfire : forall w : TimerFiringIntentDigestWire, is_Some (to_vec w).
Hypothesis Hterm : forall w : TerminalDigestWire, is_Some (to_vec w).

Lemma resolve_iff (rq : Request) event (p : Payload) r j :
  (exists rs, resolve rq event p r j = Ok rs) <->
  in_scope (ri_tenant_id (rq_intent rq)) (ri_run_id (rq_intent rq)) event j /\ follows (rq_journal rq) j /\
  authorised (request_head rq) r /\ in_window (rq_marker rq) (jh_recorded_at j).
Proof using Hres Hterm.
  unfold resolve. rewrite resolution_intent_new_head. split.
  - intros (rs & H'). open_guards H'. apply resolution_from_head_iff in Hx as (Ha & d' & _ & ->).
    by apply resolution_commit_iff in H' as (Hsc & Hf & _ & Hwin & _).
  - intros (Hsc & Hf & Ha & Hwin). set (h := request_head _).
    destruct (Hres (mkResolutionWire h event (Journal.payload_digest p) r)) as [c Hc].
    destruct (Hterm (mkTerminalWire (sha256 (INTERRUPT_RESOLUTION_INTENT_DIGEST_DOMAIN ++ c)) j)) as [c' Hc'].
    eexists. apply bind_Ok. eexists. split.
    * apply resolution_from_head_iff. split; [done |]. eexists. split; [apply compute_digest_Ok; by exists c | done].
    * apply resolution_commit_iff. split_and!; try done. eexists. split; [apply compute_digest_Ok; by exists c' | done].
Qed.

Lemma fire_iff t event j :
  (exists f, fire t event j = Ok f) <->
  in_scope (ti_tenant_id (dt_intent t)) (ti_run_id (dt_intent t)) event j /\ follows (dt_journal t) j /\
  due_at (dt_marker t) <= jh_recorded_at j.
Proof using Hfire Hterm.
  unfold fire, firing_intent_new, firing_from_head. split.
  - intros (f & H'). open_guards H'. open_guards Hx. injection Hx as <-.
    by apply firing_commit_iff in H' as (Hsc & Hf & Hd & _).
  - intros (Hsc & Hf & Hd). set (h := timer_head _).
    destruct (Hfire (mkFiringWire h event)) as [c Hc].
    destruct (Hterm (mkTerminalWire (sha256 (TIMER_FIRING_INTENT_DIGEST_DOMAIN ++ c)) j)) as [c' Hc'].
    unfold compute_digest at 1. rewrite Hc. simpl. eexists. apply firing_commit_iff. split_and!; try done.
    eexists. split; [apply compute_digest_Ok; by exists c' | done].
Qed.
End Completions.

(** for a request registered by [ri] at the journal event [j0], an answer
    is accepted at the event [j] exactly when [j] is the named event of the
    same tenant and run, lies strictly after the registration, is recorded not
    before it and strictly before the expiry, and the resolver is the required
    principal and holds every required scope.  A timer fires exactly at a
    later event recorded at or after the due instant. *)
Theorem wait_completions_exact
    (Hres : forall w : InterruptResolutionIntentDigestWire Principal, is_Some (to_vec w))
    (Hfire : forall w : TimerFiringIntentDigestWire, is_Some (to_vec w))
    (Hterm : forall w : TerminalDigestWire, is_Some (to_vec w)) :
  (forall (ri : RequestIntent) j0 rq event (p : Payload) r j, request_commit sha256 ri j0 = Ok rq ->
     (exists rs, resolve rq event p r j = Ok rs) <->
     in_scope (ri_tenant_id ri) (ri_run_id ri) event j /\ follows j0 j /\
     (forall q, ri_required_principal ri = Some q -> resolver_principal r = q) /\
     ri_required_scopes ri ⊆ resolver_granted_scopes r /\
     jh_recorded_at j0 <= jh_recorded_at j /\ (forall e, ri_expires_at ri = Some e -> jh_recorded_at j < e)) /\
  (forall ti j0 t event j, timer_commit sha256 ti j0 = Ok t ->
     (exists f, fire t event j = Ok f) <->
     in_scope (ti_tenant_id ti) (ti_run_id ti) event j /\ follows j0 j /\ ti_due_at ti <= jh_recorded_at j).
Proof.
  split.
  - intros ri j0 rq event p r j (_ & _ & d & _ & ->)%request_commit_iff. rewrite resolve_iff by done.
    unfold authorised, in_window. simpl. tauto.
  - intros ti j0 t event j (_ & _ & d & _ & ->)%timer_commit_iff. by rewrite fire_iff.
Qed.

(** what is stored is what was committed.  A request built by its
    constructor restores from its stored columns, as does its head; a head
    that restores is the head of a request that commits, for every payload
    with the recorded digest; a committed answer restores, and pairs with its
    request.  The same holds of timers and firings. *)
Theorem wait_records_roundtrip :
  (forall (i : RequestIntent) j rq, request_intent_restore sha256 i = Ok i -> request_commit sha256 i j = Ok rq ->
     request_restore sha256 (rq_intent rq) (rq_marker rq) (rq_journal rq) (rq_digest rq) = Ok rq /\
     request_head_restore sha256 (request_head rq) = Ok (request_head rq)) /\
  (forall (h : Head) (p : Payload), Journal.payload_digest p = rh_request_payload_digest h ->
     request_head_restore sha256 h = Ok h -> exists i rq,
     request_intent_restore sha256 i = Ok i /\ request_commit sha256 i (rh_journal h) = Ok rq /\
     ri_request_payload i = p /\ request_head rq = h) /\
  (forall (rq : Request) event (p : Payload) r i j rs,
     resolution_intent_new sha256 rq event p r = Ok i -> resolution_commit sha256 i j = Ok rs ->
     resolution_intent_restore sha256 i = Ok i /\ resolution_restore sha256 (rs_intent rs) (rs_journal rs) (rs_digest rs) = Ok rs /\
     interrupt_record_restore rq (Some rs) = Ok (mkInterruptRecord rq (Some rs))) /\
  (forall i j t, timer_intent_restore sha256 i = Ok i -> timer_commit sha256 i j = Ok t ->
     timer_restore sha256 (dt_intent t) (dt_marker t) (dt_journal t) (dt_digest t) = Ok t /\
     timer_head_restore sha256 (timer_head t) = Ok (timer_head t)) /\
  (forall h, timer_head_restore sha256 h = Ok h -> exists i t,
     timer_intent_restore sha256 i = Ok i /\ timer_commit sha256 i (th_journal h) = Ok t /\ timer_head t = h) /\
  (forall t event i j f, firing_intent_new sha256 t event = Ok i -> firing_commit sha256 i j = Ok f ->
     firing_intent_restore sha256 i = Ok i /\ firing_restore sha256 (tf_intent f) (tf_journal f) (tf_digest f) = Ok f /\
     timer_record_restore t (Some f) = Ok (mkTimerRecord t (Some f))).
Proof.
  split_and!; [apply request_stored | | apply resolution_stored | apply timer_stored | | apply firing_stored].
  - intros h p Hp Hh. destruct (request_of_head h p Hp Hh) as (rq & Hi & Hc & Hq). by exists (intent_of_head h p), rq.
  - intros h Hh. destruct (timer_of_head_commits h Hh) as (t & Hi & Hc & Hq). by exists (timer_of_head h), t.
Qed.

(** a record digest identifies its head.  Two accepted heads of requests
    with one digest are equal, two accepted heads of timers likewise, and no
    request shares its digest with a timer, unless SHA-256 collides. *)
Theorem wait_heads_unique
    (Hi : encoder_injective (T := (InterruptIntentDigestWire Principal)) to_vec)
    (Hr : encoder_injective (T := InterruptRequestDigestWire) to_vec)
    (Ht : encoder_injective (T := TimerDigestWire) to_vec)
    (g h : Head) (s t : DurableTimerHead)
    (Hg : request_head_restore sha256 g = Ok g) (Hh : request_head_restore sha256 h = Ok h)
    (Hs : timer_head_restore sha256 s = Ok s) (Htt : timer_head_restore sha256 t = Ok t) :
  (rh_digest g = rh_digest h -> g = h \/ collision sha256) /\
  (th_digest s = th_digest t -> s = t \/ collision sha256) /\
  (rh_digest g = th_digest t -> collision sha256).
Proof.
  apply request_head_restore_iff in Hg as (_ & Hgt & Hgr & _ & _ & Hgi & Hgd).
  apply request_head_restore_iff in Hh as (_ & Hht & Hhr & _ & _ & Hhi & Hhd).
  apply timer_head_restore_iff in Hs as (_ & Hst & Hsr & _ & _ & _ & Hsd).
  apply timer_head_restore_iff in Htt as (_ & Htn & Htr & _ & _ & _ & Htd). split_and!.
  - intros E. rewrite <- E in Hhd. destruct (compute_digest_inj _ _ _ _ _ Hr Hgd Hhd) as [[= Ei Em Ej]|]; [| by right].
    rewrite <- Ei in Hhi. destruct (compute_digest_inj _ _ _ _ _ Hi Hgi Hhi) as [Ew|]; [left | by right].
    unfold head_intent_wire in Ew. injection Ew. intros. destruct g, h; simpl in *; by subst.
  - intros E. rewrite <- E in Htd. destruct (compute_digest_inj _ _ _ _ _ Ht Hsd Htd) as [[= Ei Em Ej]|]; [left | by right].
    destruct s, t; simpl in *; by subst.
  - intros E. apply compute_digest_Ok in Hgd as (c & _ & Hc), Htd as (c' & _ & Hc').
    exists (INTERRUPT_REQUEST_DIGEST_DOMAIN ++ c), (TIMER_DIGEST_DOMAIN ++ c'). split; [done | congruence].
Qed.
(** ** Agreement with the lifecycle *)

Section Agreement.
Context {Capability RunSchema Json Artifacts Details : Type} `{!EqDecision Capability}.
#[local] Abbreviation Lifecycle := (RunLifecycle Capability RunSchema Json Artifacts Details).
#[local] Abbreviation Transition := (RunTransition Capability RunSchema Json Artifacts Details).

(** A transition allowed in the current status succeeds when its state move
    does, the clock does not go back and the revision can be counted. *)
Lemma apply_exists (l : Lifecycle) (tr : Transition) :
  transition_allowed (status l) (transition_kind tr) = true -> revision l < u64_max -> 0 <= revision l ->
  (exists l', apply l tr = Ok l') <->
  changed_at l <= transition_changed_at tr /\ exists st, apply_transition (provenance l) (state l) tr = Ok st.
Proof.
  intros Ha Hr Hz. unfold apply. rewrite Ha. simpl. destruct (Z.ltb_spec (transition_changed_at tr) (changed_at l)).
  { split; [by intros [] | lia]. }
  assert (Accounting.Count.checked_add (revision l) 1 = Some (revision l + 1)) as -> by (apply checked_add_Some; lia). simpl. split.
  - intros (l' & Hl). apply bind_Ok in Hl as (st & Hst & _). split; [done | by exists st].
  - intros (_ & st & ->). simpl. by eexists.
Qed.

Lemma resolve_accepted (l : Lifecycle) w since m at_ :
  state l = SWaiting w since -> Waits.wf w -> 0 <= revision l < u64_max -> Interrupt m ∈ values w ->
  (exists l', apply l (ResolveInterrupt (interrupt_id m) at_) = Ok l') <->
  since <= at_ /\ forall e, expires_at m = Some e -> at_ < e.
Proof.
  intros Hst Hw Hr Hm. rewrite apply_exists; [| unfold status; by rewrite Hst | lia | lia].
  unfold changed_at. rewrite Hst. simpl. apply and_iff_compat_l. split.
  - intros (st & (i & pre & post & Hv & Hid & He & _)%Lifecycle.resolve_interrupt_iff); [| done].
    assert (Interrupt i = Interrupt m) as [= ->]; [| done]. apply (Waits.wf_identity w); try done.
    rewrite Hv. apply list_elem_of_In, in_elt.
  - intros He. apply list_elem_of_split in Hm as (pre & post & Hv). eexists. apply Lifecycle.resolve_interrupt_iff; [done |].
    by exists m, pre, post.
Qed.

Lemma fire_accepted (l : Lifecycle) w since m at_ :
  state l = SWaiting w since -> Waits.wf w -> 0 <= revision l < u64_max -> Timer m ∈ values w ->
  (exists l', apply l (FireTimer (timer_id m) at_) = Ok l') <-> since <= at_ /\ due_at m <= at_.
Proof.
  intros Hst Hw Hr Hm. rewrite apply_exists; [| unfold status; by rewrite Hst | lia | lia].
  unfold changed_at. rewrite Hst. simpl. apply and_iff_compat_l. split.
  - intros (st & (i & pre & post & Hv & Hid & He & _)%Lifecycle.fire_timer_iff); [| done].
    assert (Timer i = Timer m) as [= ->]; [| done]. apply (Waits.wf_identity w); try done.
    rewrite Hv. apply list_elem_of_In, in_elt.
  - intros He. apply list_elem_of_split in Hm as (pre & post & Hv). eexists. apply Lifecycle.fire_timer_iff; [done |].
    by exists m, pre, post.
Qed.
End Agreement.

(** The markers of waits registered at one event carry its instant. *)
Lemma registered_marker (i : WaitRegistrationIntent Schema Principal) j w :
  registration_commit sha256 i j = Ok w -> wait_registered_at (wait_marker w) = jh_recorded_at j /\ wait_journal w = j.
Proof.
  destruct i as [ri|ti]; simpl; intros Hw; apply bind_Ok in Hw as (x & Hx & [= <-]).
  - by apply request_commit_iff in Hx as (_ & _ & d & _ & ->).
  - by apply timer_commit_iff in Hx as (_ & _ & d & _ & ->).
Qed.
(** C17: the durable records and the lifecycle accept the same instants.
    Registrations committed at one event of an active run, nonempty, at most
    64 and with distinct identities, form the wait set of an accepted [Wait]
    transition.  For a run that waits on the marker of a request, an answer by
    an authorised resolver at a later event of the run, recorded not before
    the last change, is accepted as a record exactly when the lifecycle
    accepts its transition; the same holds of a timer and its firing. *)
Theorem durable_waits_drive_lifecycle
    {Capability RunSchema Json Artifacts Details : Type} `{!EqDecision Capability}
    (Hres : forall w : InterruptResolutionIntentDigestWire Principal, is_Some (to_vec w))
    (Hfire : forall w : TimerFiringIntentDigestWire, is_Some (to_vec w))
    (Hterm : forall w : TerminalDigestWire, is_Some (to_vec w))
    (l : RunLifecycle Capability RunSchema Json Artifacts Details) (Hl : 0 <= revision l < u64_max) :
  (forall since (intents : list (WaitRegistrationIntent Schema Principal)) ws j,
     state l = SActive since -> since <= jh_recorded_at j ->
     Forall2 (fun i w => registration_commit sha256 i j = Ok w) intents ws ->
     1 <= Z.of_nat (length intents) <= 64 -> NoDup (identity_uuid ∘ wait_marker <$> ws) ->
     exists w l', waits_try_new (wait_marker <$> ws) = Ok w /\ apply l (Wait w) = Ok l' /\
       state l' = SWaiting w (jh_recorded_at j) /\ registered_at w = jh_recorded_at j /\ Waits.wf w) /\
  (forall w since, state l = SWaiting w since -> Waits.wf w -> registered_at w <= since ->
     (forall (rq : Request) event (p : Payload) r j,
        Interrupt (rq_marker rq) ∈ values w ->
        in_scope (ri_tenant_id (rq_intent rq)) (ri_run_id (rq_intent rq)) event j ->
        follows (rq_journal rq) j -> authorised (request_head rq) r -> since <= jh_recorded_at j ->
        (exists rs, resolve rq event p r j = Ok rs) <->
        exists l', apply l (ResolveInterrupt (interrupt_id (rq_marker rq)) (jh_recorded_at j)) = Ok l') /\
     (forall t event j, Timer (dt_marker t) ∈ values w ->
        in_scope (ti_tenant_id (dt_intent t)) (ti_run_id (dt_intent t)) event j ->
        follows (dt_journal t) j -> since <= jh_recorded_at j ->
        (exists f, fire t event j = Ok f) <->
        exists l', apply l (FireTimer (timer_id (dt_marker t)) (jh_recorded_at j)) = Ok l')).
Proof.
  split.
  - intros since intents ws j Hst Hle Hcs Hlen Hnd.
    assert (Hreg : Forall (fun w => wait_registered_at (wait_marker w) = jh_recorded_at j) ws).
    { apply (Forall2_Forall_r _ _ _ _ Hcs), Forall_forall. intros i _ w Hw. by apply registered_marker in Hw as [? _]. }
    apply Forall2_length in Hcs. set (rw := mkWaits (wait_marker <$> ws) (jh_recorded_at j)).
    assert (Hwf : Waits.wf rw).
    { unfold Waits.wf, rw. simpl. rewrite list_fmap_compose in Hnd. rewrite length_fmap, <- Hcs, Forall_fmap. split_and!; try done.
      - destruct ws; [simpl in *; lia | done].
      - unfold MAX_LEN. lia. }
    assert (exists l', apply l (Wait rw) = Ok l') as [l' Hl'].
    { apply apply_exists; [unfold status; by rewrite Hst | lia | lia |]. unfold changed_at. rewrite Hst. simpl. split; [done | by eexists]. }
    exists rw, l'. split_and!; try done; [by apply Waits.waits_try_new_iff |].
    unfold apply in Hl'. open_guards Hl'. injection Hl' as <-. simpl. rewrite Hst in Hx. by injection Hx as <-.
  - intros w since Hst Hwf Hsn. split.
    + intros rq event p r j Hin Hsc Hf Ha Hle. rewrite resolve_iff, (resolve_accepted l w since) by done.
      destruct Hwf as (_ & _ & _ & HF). rewrite Forall_forall in HF. specialize (HF _ Hin). simpl in HF.
      unfold in_window. intuition lia.
    + intros t event j Hin Hsc Hf Hle. rewrite fire_iff, (fire_accepted l w since) by done. tauto.
Qed.
End Laws.

(** ** An approval and a sleep *)

Module Demo.
Definition sha (b : bytes) : bytes := [Z.of_nat (length b); List.last b 0].
Definition journal (seq at_ : Z) : JournalHead := mkJournalHead [97] 5 seq (100 + seq) at_ [seq].
Definition payload : Journal.JournalPayload unit :=
  Journal.mkPayload tt (bytes_of "approve") (mkBoundedJson Null (mkJsonStats 4 0 1)) [7].
#[local] Instance any_encoder {T} : Canonical T := fun _ => Some [1].

Lemma any_encoder_total {T} (w : T) : is_Some (to_vec w).
Proof. by exists [1]. Qed.

Definition request_intent : InterruptRequestIntent unit Z :=
  mkRequestIntent [97] 5 71 101 Approval payload [3] (Some 9) [bytes_of "ops"] (Some 50)
    (sha (INTERRUPT_INTENT_DIGEST_DOMAIN ++ [1])).
Definition request_marker : RunInterrupt := mkInterrupt 71 Approval 10 (Some 50).
Definition request : InterruptRequest unit Z :=
  mkRequest request_intent request_marker (journal 1 10) (sha (INTERRUPT_REQUEST_DIGEST_DOMAIN ++ [1])).
Definition resolver : InterruptResolver Z := mkResolver 9 [bytes_of "ops"; bytes_of "root"].
Definition timer_intent : TimerRegistrationIntent :=
  mkTimerIntent [97] 5 72 101 Sleep 30 (sha (TIMER_INTENT_DIGEST_DOMAIN ++ [1])).
Definition timer_marker : RunTimer := mkTimer 72 Sleep 10 30.
Definition timer : DurableTimer :=
  mkDurableTimer timer_intent timer_marker (journal 1 10) (sha (TIMER_DIGEST_DOMAIN ++ [1])).

Lemma registered : request_commit sha request_intent (journal 1 10) = Ok request /\ timer_commit sha timer_intent (journal 1 10) = Ok timer.
Proof. split; vm_compute; reflexivity. Qed.

Lemma resolver_authorised : authorised (request_head request) resolver.
Proof. split; [by intros p [= <-] |]. intros x Hx. apply list_elem_of_singleton in Hx as ->. by left. Qed.

Lemma wait_completions_exact_witness :
  (exists rs, resolve sha request 102 payload resolver (journal 2 49) = Ok rs) /\
  (~ exists rs, resolve sha request 102 payload resolver (journal 2 50) = Ok rs) /\
  (exists f, fire sha timer 102 (journal 2 30) = Ok f).
Proof.
  destruct (wait_completions_exact (Schema := unit) (Principal := Z) sha any_encoder_total any_encoder_total any_encoder_total) as [Hr Ht].
  destruct registered as [Hc1 Hc2]. pose proof resolver_authorised as [Ha Hs]. split_and!.
  - apply (Hr _ _ _ _ _ _ _ Hc1). split_and!; try done. by intros e [= <-].
  - rewrite (Hr _ _ _ _ _ _ _ Hc1). intros (_ & _ & _ & _ & _ & He). by specialize (He 50 eq_refl).
  - apply (Ht _ _ _ _ _ Hc2). by split_and!.
Defined.

Lemma wait_records_roundtrip_witness :
  request_head_restore sha (request_head request) = Ok (request_head request) /\
  timer_head_restore sha (timer_head timer) = Ok (timer_head timer).
Proof.
  destruct (wait_records_roundtrip (Schema := unit) (Principal := Z) sha) as (Hr & _ & _ & Ht & _).
  destruct registered as [Hc1 Hc2]. split; [apply (Hr request_intent (journal 1 10)) | apply (Ht timer_intent (journal 1 10))]; try done;
    vm_compute; reflexivity.
Defined.

Definition waiting : RunLifecycle Z unit unit unit unit :=
  mkLifecycle (mkProvenance [97] 5 6 7 8) 5 2 (SWaiting (mkWaits [Interrupt request_marker; Timer timer_marker] 10) 10).

Lemma waiting_wf : Waits.wf (mkWaits [Interrupt request_marker; Timer timer_marker] 10).
Proof. split_and!; [done | vm_compute; done | vm_compute | by repeat constructor]. repeat constructor; set_solver. Qed.

Lemma durable_waits_drive_lifecycle_witness :
  exists l', apply waiting (ResolveInterrupt 71 49) = Ok l'.
Proof.
  destruct (durable_waits_drive_lifecycle (Schema := unit) (Principal := Z) sha any_encoder_total any_encoder_total any_encoder_total
              waiting ltac:(vm_compute; done)) as [_ H].
  destruct (H _ _ eq_refl waiting_wf ltac:(simpl; lia)) as [Hr _].
  apply (Hr request 102 payload resolver (journal 2 49)); [by left | done | done | apply resolver_authorised | done |].
  vm_compute. eexists. reflexivity.
Defined.
End Demo.

Module UniqueDemo.
Import Demo.
#[local] Instance interrupt_wire_eq_dec : EqDecision (InterruptIntentDigestWire Z).
Proof. solve_decision. Defined.
#[local] Instance request_wire_eq_dec : EqDecision InterruptRequestDigestWire.
Proof. solve_decision. Defined.
#[local] Instance timer_wire_eq_dec : EqDecision TimerDigestWire.
Proof. solve_decision. Defined.
#[local] Instance timer_intent_wire_eq_dec : EqDecision TimerIntentDigestWire.
Proof. solve_decision. Defined.

Definition interrupt_wire : InterruptIntentDigestWire Z := head_intent_wire (request_head request).
Definition request_wire : InterruptRequestDigestWire :=
  mkInterruptRequestWire (ri_intent_digest request_intent) request_marker (journal 1 10).
Definition the_timer_wire : TimerDigestWire := mkTimerWire (ti_intent_digest timer_intent) timer_marker (journal 1 10).
#[local] Instance interrupt_encoder : Canonical (InterruptIntentDigestWire Z) := pick interrupt_wire interrupt_wire.
#[local] Instance request_encoder : Canonical InterruptRequestDigestWire := pick request_wire request_wire.
#[local] Instance timer_encoder : Canonical TimerDigestWire := pick the_timer_wire the_timer_wire.
#[local] Instance timer_intent_encoder : Canonical TimerIntentDigestWire := fun _ => Some [1].

Lemma wait_heads_unique_witness :
  request_head request = request_head request \/ collision sha.
Proof.
  assert (Hr : request_head_restore sha (request_head request) = Ok (request_head request)) by (vm_compute; reflexivity).
  assert (Ht : timer_head_restore sha (timer_head timer) = Ok (timer_head timer)) by (vm_compute; reflexivity).
  destruct (wait_heads_unique sha (pick_injective _ _) (pick_injective _ _) (pick_injective _ _)
              (request_head request) (request_head request) (timer_head timer) (timer_head timer) Hr Hr Ht Ht) as [H _].
  by apply H.
Defined.
End UniqueDemo.
End WaitRecords.
