(* ===== verification/Admission.v ===== *)
(** Agent admission (crates/stateknot-core/src/agent_admission.rs): the policy
    layers, the authority and the integrity-bound intent that freezes an agent,
    its request and its resolved budget, and the committed admission.  The
    request and the provenance checks are those of agent_runtime.rs.

    An agent descriptor is a record of the fields admission reads; its model,
    instructions, tools and execution settings are one opaque component.  The
    serialiser, the canonical encoder and SHA-256 are parameters. *)

From Stdlib Require Import ZArith Lia.
From stdpp Require Import prelude.
From S2P Require Import Prelude Ordered Json Ids Scope BoundedJson Time Costs Budget BudgetLaws Checkpoint Run Journal.

Open Scope Z_scope.
Import Timestamp(Timestamp).

Module Admission.
Import Scope(Scope, ScopeSet).

Definition INTENT_DIGEST_DOMAIN : bytes := bytes_of "stateknot.agent-admission-intent.v1" ++ [0].
Definition ADMISSION_DIGEST_DOMAIN : bytes := bytes_of "stateknot.agent-admission.v1" ++ [0].
Definition MAX_SNAPSHOT_BYTES : Z := 16 * 1024 * 1024.
Definition EVIDENCE_KIND : bytes := bytes_of "agent-admission-granted".

Inductive CapabilityLifecycleState := Active | Deprecated | Retired.

#[global] Instance CapabilityLifecycleState_eq_dec : EqDecision CapabilityLifecycleState.
Proof. solve_decision. Defined.

Inductive AgentAdmissionBudgetLayerError := EmptyLimits.
Inductive AgentAdmissionAuthorityError := WrongEvidenceKind.

Section Types.
Context {Capability Schema Principal Definition_ : Type}.

(** [AgentDescriptor] with its [CapabilityMetadata]. *)
Record AgentDescriptor := mkDescriptor {
  metadata_identity : Capability;
  lifecycle_state : CapabilityLifecycleState;
  required_scopes : ScopeSet;
  input_schema : Schema;
  output_schema : Schema;
  descriptor_budget_limits : BudgetLimits.t;
  definition : Definition_
}.

Record AgentRequest := mkRequest {
  request_input_schema : Schema;
  request_input : BoundedJson;
  request_budget_limits : BudgetLimits.t
}.

Record AgentAdmissionBudgetLayer := mkLayer {
  layer_source : Capability;
  decision_digest : Digest;
  layer_limits : BudgetLimits.t
}.

Record AgentAdmissionAuthority := mkAuthority {
  principal : Principal;
  granted_scopes : ScopeSet;
  policy : Capability;
  policy_digest : Digest;
  evidence : Journal.JournalPayload Schema
}.

Inductive AgentResultProvenanceError := AgentIdentityMismatch (expected actual : Capability).

Inductive AgentRequestValidationError :=
| RequestRetiredAgent (identity : Capability)
| SchemaMismatch (expected actual : Schema)
| RequestTooManyBudgetLayers (maximum actual : Z)
| RequestBudgetResolution (source : ResolvedBudget.BudgetResolutionError)
| RequestBudgetEvaluation (source : BudgetRemaining.BudgetEvaluationError)
| InputLimitExceeded (maximum actual : Z).

Inductive AgentAdmissionIntentError :=
| RetiredAgent
| Provenance (source : AgentResultProvenanceError)
| InsufficientGrantedScopes
| DuplicateBudgetLayerSource (policy_source : Capability)
| TooManyBudgetLayers (maximum actual : Z)
| BudgetResolution (source : ResolvedBudget.BudgetResolutionError)
| Request (source : AgentRequestValidationError)
| ResolvedBudgetMismatch
| IntentDigestMismatch
| IntegritySerialization
| NonInteroperableNumber
| SnapshotTooLarge (maximum actual : Z)
| SnapshotBytesOverflow.

Inductive AgentAdmissionError :=
| BudgetEvaluation (source : BudgetRemaining.BudgetEvaluationError)
| AdmissionSerialization
| AdmissionNonInteroperableNumber
| AdmissionTooLarge (maximum actual : Z)
| AdmissionBytesOverflow
| AdmissionDigestMismatch.

(** The digest covers every field but itself. *)
Record IntentWire := mkIntentWire {
  wire_provenance : AgentResultProvenance Capability;
  wire_descriptor : AgentDescriptor;
  wire_request : AgentRequest;
  wire_budget_layers : list AgentAdmissionBudgetLayer;
  wire_budget : ResolvedBudget.t;
  wire_graph : GraphReference Capability Schema;
  wire_authority : AgentAdmissionAuthority
}.

Record AgentAdmissionIntent := mkIntent {
  provenance : AgentResultProvenance Capability;
  descriptor : AgentDescriptor;
  request : AgentRequest;
  budget_layers : list AgentAdmissionBudgetLayer;
  budget : ResolvedBudget.t;
  graph : GraphReference Capability Schema;
  authority : AgentAdmissionAuthority;
  intent_digest : Digest
}.

Record AgentAdmission := mkAdmission { intent : AgentAdmissionIntent; admitted_at : Timestamp; digest : Digest }.
End Types.
Arguments AgentDescriptor : clear implicits.
Arguments AgentRequest : clear implicits.
Arguments AgentAdmissionBudgetLayer : clear implicits.
Arguments AgentAdmissionAuthority : clear implicits.
Arguments AgentResultProvenanceError : clear implicits.
Arguments AgentRequestValidationError : clear implicits.
Arguments AgentAdmissionIntentError : clear implicits.
Arguments IntentWire : clear implicits.
Arguments AgentAdmissionIntent : clear implicits.
Arguments AgentAdmission : clear implicits.

Record AdmissionDigestWire := mkAdmissionDigestWire { aw_intent_digest : Digest; aw_admitted_at : Timestamp }.

(** * Requests and provenance (agent_runtime.rs) *)

Section Requests.
Context {Capability Schema Definition_ : Type} `{EqDecision Capability, EqDecision Schema}.
Abbreviation DescriptorT := (AgentDescriptor Capability Schema Definition_).
Abbreviation RequestT := (AgentRequest Schema).
Abbreviation RequestErr := (AgentRequestValidationError Capability Schema).

Definition provenance_validate_for (self : AgentResultProvenance Capability) (desc : DescriptorT)
  : result (AgentResultProvenanceError Capability) unit :=
  if negb (bool_decide (agent self = metadata_identity desc))
  then Err (AgentIdentityMismatch (metadata_identity desc) (agent self)) else Ok tt.

Definition validate_schema_for (self : RequestT) (desc : DescriptorT) : result RequestErr unit :=
  if negb (bool_decide (request_input_schema self = input_schema desc))
  then Err (SchemaMismatch (input_schema desc) (request_input_schema self)) else Ok tt.

Definition validate_with_resolved_budget (self : RequestT) (desc : DescriptorT) (resolved : ResolvedBudget.t)
  : result RequestErr unit :=
  _ ← validate_schema_for self desc;
  let actual := compact_bytes (stats (request_input self)) in
  let maximum := ResolvedBudget.input_bytes resolved in
  if maximum <? actual then Err (InputLimitExceeded maximum actual) else Ok tt.

(** [usize::from(!limits.is_empty())]. *)
Definition layer_count (limits : BudgetLimits.t) : Z := if BudgetLimits.is_empty limits then 0 else 1.
Definition layer_if_any (limits : BudgetLimits.t) : list BudgetLimits.t :=
  if BudgetLimits.is_empty limits then [] else [limits].

Definition resolve_for (self : RequestT) (desc : DescriptorT) (base : list BudgetLimits.t) (observed : Timestamp)
  : result RequestErr ResolvedBudget.t :=
  if bool_decide (lifecycle_state desc = Retired) then Err (RequestRetiredAgent (metadata_identity desc)) else
  _ ← validate_schema_for self desc;
  let additional := layer_count (descriptor_budget_limits desc) + layer_count (request_budget_limits self) in
  let actual := saturating_add u64_max (Z.of_nat (length base)) additional in
  if MAX_BUDGET_LAYERS <? actual then Err (RequestTooManyBudgetLayers MAX_BUDGET_LAYERS actual) else
  let layers := base ++ layer_if_any (descriptor_budget_limits desc) ++ layer_if_any (request_budget_limits self) in
  resolved ← map_err RequestBudgetResolution (ResolvedBudget.resolve layers);
  _ ← map_err RequestBudgetEvaluation (BudgetRemaining.remaining resolved BudgetUsage.zero observed);
  _ ← validate_with_resolved_budget self desc resolved;
  Ok resolved.
End Requests.

(** * Canonical bytes *)

(** [as_i64] or [as_u64] succeeds exactly on integers. *)
Fixpoint validate_i_json_numbers {C S} (value : Value) : result (AgentAdmissionIntentError C S) unit :=
  match value with
  | Num (NInt z) => if MAX_SAFE_INTEGER <? Z.abs z then Err NonInteroperableNumber else Ok tt
  | Num (NFloat _) => Ok tt
  | Arr values => (fix each l := match l with [] => Ok tt | v :: l' => _ ← validate_i_json_numbers v; each l' end) values
  | Obj values => (fix each l := match l with [] => Ok tt | (_, v) :: l' => _ ← validate_i_json_numbers v; each l' end) values
  | Null | Bool _ | Str _ => Ok tt
  end.

Definition canonical_bytes {C S T} `{Serialize T, Canonical Value} (value : T)
  : result (AgentAdmissionIntentError C S) bytes :=
  value ← ok_or (to_value value) IntegritySerialization;
  _ ← validate_i_json_numbers value;
  ok_or (to_vec value) IntegritySerialization.

(** [u64::try_from(value)]. *)
Definition byte_count {C S} (value : Z) : result (AgentAdmissionIntentError C S) Z :=
  if value <=? u64_max then Ok value else Err SnapshotBytesOverflow.

Definition from_intent_integrity {C S} (error : AgentAdmissionIntentError C S) : AgentAdmissionError :=
  match error with
  | NonInteroperableNumber => AdmissionNonInteroperableNumber
  | SnapshotBytesOverflow => AdmissionBytesOverflow
  | _ => AdmissionSerialization
  end.

(** * Layers, authority and intents *)

Section Intents.
Context {Capability Schema Principal Definition_ : Type} `{RustOrd Capability, EqDecision Schema, EqDecision Principal}.
Abbreviation DescriptorT := (AgentDescriptor Capability Schema Definition_).
Abbreviation RequestT := (AgentRequest Schema).
Abbreviation LayerT := (AgentAdmissionBudgetLayer Capability).
Abbreviation AuthorityT := (AgentAdmissionAuthority Capability Schema Principal).
Abbreviation ReferenceT := (GraphReference Capability Schema).
Abbreviation IntentWireT := (IntentWire Capability Schema Principal Definition_).
Abbreviation IntentT := (AgentAdmissionIntent Capability Schema Principal Definition_).
Abbreviation AdmissionT := (AgentAdmission Capability Schema Principal Definition_).
Abbreviation IntentErr := (AgentAdmissionIntentError Capability Schema).

Definition layer_new (source : Capability) (decision : Digest) (limits : BudgetLimits.t)
  : result AgentAdmissionBudgetLayerError LayerT :=
  if BudgetLimits.is_empty limits then Err EmptyLimits else Ok (mkLayer source decision limits).

Definition authority_new (who : Principal) (granted : ScopeSet) (pol : Capability) (pd : Digest)
    (ev : Journal.JournalPayload Schema) : result AgentAdmissionAuthorityError AuthorityT :=
  if negb (bool_decide (Journal.payload_kind ev = EVIDENCE_KIND)) then Err WrongEvidenceKind else
  Ok (mkAuthority who granted pol pd ev).

(** The loop over the budget layers. *)
Definition insert_layer (maximum_base_layers : Z) (ordered : list (Capability * LayerT)) (layer : LayerT)
  : result IntentErr (list (Capability * LayerT)) :=
  if Z.of_nat (length ordered) =? maximum_base_layers
  then Err (TooManyBudgetLayers MAX_BUDGET_LAYERS (MAX_BUDGET_LAYERS + 1)) else
  match bt_get (layer_source layer) ordered with
  | Some _ => Err (DuplicateBudgetLayerSource (layer_source layer))
  | None => Ok (bt_insert (layer_source layer) layer ordered)
  end.

Definition order_layers (desc : DescriptorT) (req : RequestT) (layers : list LayerT) : result IntentErr (list LayerT) :=
  let additional := layer_count (descriptor_budget_limits desc) + layer_count (request_budget_limits req) in
  ordered ← try_fold (insert_layer (MAX_BUDGET_LAYERS - additional)) [] layers;
  Ok (into_values ordered).

Definition resolution_layers (desc : DescriptorT) (req : RequestT) (layers : list LayerT) : list BudgetLimits.t :=
  (layer_limits <$> layers) ++ layer_if_any (descriptor_budget_limits desc) ++ layer_if_any (request_budget_limits req).

Context `{Serialize IntentWireT, Serialize IntentT, Serialize AdmissionDigestWire, Serialize AdmissionT, Canonical Value}.
Variable sha256 : bytes -> bytes.

Definition domain_digest (domain canonical : bytes) : Digest := sha256 (domain ++ canonical).

Definition intent_wire (self : IntentT) : IntentWireT :=
  mkIntentWire (provenance self) (descriptor self) (request self) (budget_layers self) (budget self) (graph self) (authority self).

Definition compute_digest (self : IntentT) : result IntentErr Digest :=
  canonical ← canonical_bytes (intent_wire self);
  Ok (domain_digest INTENT_DIGEST_DOMAIN canonical).

Definition ensure_size (self : IntentT) : result IntentErr unit :=
  b ← canonical_bytes self;
  if MAX_SNAPSHOT_BYTES <? Z.of_nat (length b)
  then actual ← byte_count (Z.of_nat (length b)); Err (SnapshotTooLarge MAX_SNAPSHOT_BYTES actual) else Ok tt.

(** [Option::is_some_and(|supplied| supplied != value)]. *)
Definition differs {A} `{EqDecision A} (supplied : option A) (value : A) : bool :=
  match supplied with Some v => negb (bool_decide (v = value)) | None => false end.

Definition with_digest (self : IntentT) (d : Digest) : IntentT :=
  mkIntent (provenance self) (descriptor self) (request self) (budget_layers self) (budget self) (graph self) (authority self) d.

Definition intent_build (prov : AgentResultProvenance Capability) (desc : DescriptorT) (req : RequestT) (layers : list LayerT)
    (supplied_budget : option ResolvedBudget.t) (gr : ReferenceT) (auth : AuthorityT) (supplied_digest : option Digest)
  : result IntentErr IntentT :=
  if bool_decide (lifecycle_state desc = Retired) then Err RetiredAgent else
  _ ← map_err Provenance (provenance_validate_for prov desc);
  if negb (Scope.is_subset (required_scopes desc) (granted_scopes auth)) then Err InsufficientGrantedScopes else
  layers ← order_layers desc req layers;
  resolved ← map_err BudgetResolution (ResolvedBudget.resolve (resolution_layers desc req layers));
  if differs supplied_budget resolved then Err ResolvedBudgetMismatch else
  _ ← map_err Request (validate_with_resolved_budget req desc resolved);
  let int := mkIntent prov desc req layers resolved gr auth (sha256 []) in
  d ← compute_digest int;
  let int := with_digest int d in
  if differs supplied_digest (intent_digest int) then Err IntentDigestMismatch else
  _ ← ensure_size int;
  Ok int.

Definition intent_new (prov : AgentResultProvenance Capability) (desc : DescriptorT) (req : RequestT) (layers : list LayerT)
    (gr : ReferenceT) (auth : AuthorityT) : result IntentErr IntentT :=
  intent_build prov desc req layers None gr auth None.

(** Decoding of a stored intent. *)
Definition intent_restore (wire : IntentT) : result IntentErr IntentT :=
  intent_build (provenance wire) (descriptor wire) (request wire) (budget_layers wire) (Some (budget wire)) (graph wire)
    (authority wire) (Some (intent_digest wire)).

(** * Committed admissions *)

Definition admission_canonical_bytes (self : AdmissionT) : result AgentAdmissionError bytes :=
  map_err (from_intent_integrity (C := Capability) (S := Schema)) (canonical_bytes self).

Definition commit (int : IntentT) (at_ : Timestamp) : result AgentAdmissionError AdmissionT :=
  _ ← map_err BudgetEvaluation (BudgetRemaining.remaining (budget int) BudgetUsage.zero at_);
  canonical ← map_err (from_intent_integrity (C := Capability) (S := Schema))
                (canonical_bytes (mkAdmissionDigestWire (intent_digest int) at_));
  let admission := mkAdmission int at_ (domain_digest ADMISSION_DIGEST_DOMAIN canonical) in
  b ← admission_canonical_bytes admission;
  if MAX_SNAPSHOT_BYTES <? Z.of_nat (length b)
  then actual ← map_err (from_intent_integrity (C := Capability) (S := Schema)) (byte_count (Z.of_nat (length b)));
       Err (AdmissionTooLarge MAX_SNAPSHOT_BYTES actual) else
  Ok admission.

Definition admission_restore (wire : AdmissionT) : result AgentAdmissionError AdmissionT :=
  restored ← commit (intent wire) (admitted_at wire);
  if negb (bool_decide (digest restored = digest wire)) then Err AdmissionDigestMismatch else Ok restored.
End Intents.
End Admission.

(** Laws of agent admission: exactly which intents are admitted, that the
    budget of an admitted run is within every policy layer, and that what is
    stored is restored unchanged. *)

Module Admissions.
Import Admission.

Section Laws.
Context {Capability Schema Principal Definition_ : Type} `{RustOrd Capability, EqDecision Schema, EqDecision Principal}.
Abbreviation LayerT := (AgentAdmissionBudgetLayer Capability).
Abbreviation DescriptorT := (AgentDescriptor Capability Schema Definition_).
Abbreviation AuthorityT := (AgentAdmissionAuthority Capability Schema Principal).
Abbreviation IntentT := (AgentAdmissionIntent Capability Schema Principal Definition_).
Context `{Serialize (IntentWire Capability Schema Principal Definition_), Serialize IntentT,
          Serialize AdmissionDigestWire, Serialize (AgentAdmission Capability Schema Principal Definition_), Canonical Value}.
Variable sha256 : bytes -> bytes.

Lemma insert_layers_iff (max : Z) (layers : list LayerT) (m out : list (Capability * LayerT)) :
  keyed layer_source m -> Z.of_nat (length m) <= max ->
  try_fold (insert_layer (Schema := Schema) max) m layers = Ok out ->
  keyed layer_source out /\ NoDup (layer_source <$> layers) /\ (forall l, l ∈ layers -> layer_source l ∉ layer_source <$> into_values m) /\
  (forall l, l ∈ into_values out <-> l ∈ into_values m \/ l ∈ layers) /\ Z.of_nat (length m + length layers) <= max.
Proof.
  revert m. induction layers as [|x layers IH]; intros m Hm Hl Hf; simpl in Hf; simp_ok.
  { subst. split_and!; [done | constructor | set_solver | set_solver | simpl; lia]. }
  unfold insert_layer in H5. destruct (Z.eqb_spec (Z.of_nat (length m)) max); [done |].
  destruct (bt_get (layer_source x) m) eqn:Hg; [done |]. simp_ok. subst.
  pose proof (bt_insert_length_fresh _ x m (proj1 Hm) Hg) as Hlen.
  apply IH in H6 as (Hout & Hnd & Hni & He & Hle); [| by apply keyed_insert | lia].
  setoid_rewrite (keyed_insert_elem layer_source m x) in He; [| done..].
  split_and!; [done | | | set_solver | simpl; lia].
  - apply NoDup_cons. split; [| done]. intros (l & E & Hin)%list_elem_of_fmap. apply (Hni l Hin). rewrite <- E.
    apply list_elem_of_fmap_2, (keyed_insert_elem layer_source m x); [done | done | by left].
  - intros l [-> | Hin]%elem_of_cons; [by apply (keyed_get_None layer_source) |].
    intros (l' & E & Hin')%list_elem_of_fmap. apply (Hni l Hin). rewrite E.
    apply list_elem_of_fmap_2, (keyed_insert_elem layer_source m x); [done | done | by right].
Qed.
Lemma insert_layers_complete (max : Z) (layers : list LayerT) (m : list (Capability * LayerT)) :
  keyed layer_source m -> NoDup (layer_source <$> layers) ->
  (forall l, l ∈ layers -> layer_source l ∉ layer_source <$> into_values m) ->
  Z.of_nat (length m + length layers) <= max ->
  exists out, try_fold (insert_layer (Schema := Schema) max) m layers = Ok out.
Proof.
  revert m. induction layers as [|x layers IH]; intros m Hm Hnd Hni Hle; simpl; [by eexists |].
  apply NoDup_cons in Hnd as [Hx Hnd]. unfold insert_layer at 2. simpl in Hle.
  destruct (Z.eqb_spec (Z.of_nat (length m)) max); [lia |].
  assert (Hg : bt_get (layer_source x) m = None) by (apply (keyed_get_None layer_source); [done | apply Hni; by left]).
  rewrite Hg. simpl. apply IH; [by apply keyed_insert | done | | rewrite bt_insert_length_fresh by (done || apply Hm); lia].
  intros l Hl (l' & E & Hin)%list_elem_of_fmap. apply (keyed_insert_elem layer_source m x) in Hin as [-> | Hin]; [| | done..].
  - apply Hx. rewrite <- E. by apply list_elem_of_fmap_2.
  - apply (Hni l); [by right |]. rewrite E. by apply list_elem_of_fmap_2.
Qed.

(** The most layers a caller may bring beside the agent's and the request's. *)
Definition base_maximum (desc : DescriptorT) (req : AgentRequest Schema) : Z :=
  MAX_BUDGET_LAYERS - (layer_count (descriptor_budget_limits desc) + layer_count (request_budget_limits req)).

Lemma base_maximum_range desc req : 14 <= base_maximum desc req <= 16.
Proof. unfold base_maximum, MAX_BUDGET_LAYERS, layer_count. repeat case_match; lia. Qed.

Lemma order_layers_iff (desc : DescriptorT) (req : AgentRequest Schema) (layers out : list LayerT) :
  order_layers desc req layers = Ok out <->
  out = sort_by_key layer_source layers /\ NoDup (layer_source <$> layers) /\ Z.of_nat (length layers) <= base_maximum desc req.
Proof.
  unfold order_layers. fold (base_maximum desc req). pose proof (base_maximum_range desc req). split.
  - intros Hf. simp_ok. subst. apply insert_layers_iff in H6 as (Hk & Hnd & _ & He & Hle); [| apply keyed_nil | simpl; lia].
    split_and!; [| done | done]. apply keyed_values_sort; [done | done |]. intros v. rewrite He. set_solver.
  - intros (-> & Hnd & Hle).
    destruct (insert_layers_complete (base_maximum desc req) layers []) as [m Hm]; [apply keyed_nil | done | set_solver | done |].
    rewrite Hm. simpl. f_equal. apply insert_layers_iff in Hm as (Hk & _ & _ & He & _); [| apply keyed_nil | simpl; lia].
    apply keyed_values_sort; [done | done |]. intros v. rewrite He. set_solver.
Qed.

(** ** Which intents are built *)

Definition describes (prov : AgentResultProvenance Capability) (desc : DescriptorT) (req : AgentRequest Schema)
    (layers : list LayerT) (gr : GraphReference Capability Schema) (auth : AuthorityT) (int : IntentT) : Prop :=
  provenance int = prov /\ descriptor int = desc /\ request int = req /\ graph int = gr /\ authority int = auth /\
  budget_layers int = sort_by_key layer_source layers.

(** The conditions on an agent, its request, its layers and its authority. *)
Definition admissible (int : IntentT) : Prop :=
  lifecycle_state (descriptor int) <> Retired /\
  agent (provenance int) = metadata_identity (descriptor int) /\
  required_scopes (descriptor int) ⊆ granted_scopes (authority int) /\
  ksorted layer_source (budget_layers int) /\
  Z.of_nat (length (budget_layers int)) <= base_maximum (descriptor int) (request int) /\
  ResolvedBudget.resolve (resolution_layers (descriptor int) (request int) (budget_layers int)) = Ok (budget int) /\
  request_input_schema (request int) = input_schema (descriptor int) /\
  compact_bytes (stats (request_input (request int))) <= ResolvedBudget.input_bytes (budget int).

(** The snapshot has a digest and fits its ceiling. *)
Definition sealed (int : IntentT) : Prop := compute_digest sha256 int = Ok (intent_digest int) /\ ensure_size int = Ok tt.

Lemma compute_digest_with int d : compute_digest sha256 (with_digest int d) = compute_digest sha256 int.
Proof. done. Qed.

Lemma differs_false {A} `{EqDecision A} (o : option A) a : differs o a = false <-> o = None \/ o = Some a.
Proof. destruct o as [v|]; simpl; [| naive_solver]. case_bool_decide; naive_solver. Qed.

Lemma intent_build_iff prov desc req layers sb gr auth sd int :
  intent_build sha256 prov desc req layers sb gr auth sd = Ok int <->
  describes prov desc req layers gr auth int /\ NoDup (layer_source <$> layers) /\ admissible int /\ sealed int /\
  (sb = None \/ sb = Some (budget int)) /\ (sd = None \/ sd = Some (intent_digest int)).
Proof.
  unfold intent_build. split.
  - intros Hb. open_guards Hb. unfold provenance_validate_for in Hx. apply map_err_Ok in Hx. open_guards Hx.
    apply order_layers_iff in Hx0 as (-> & Hnd & Hle). apply map_err_Ok in Hx1, Hx2.
    unfold validate_with_resolved_budget, validate_schema_for in Hx2. open_guards Hx2. open_guards Hx0.
    apply negb_false_iff, Scope.is_subset_iff in Hguard. apply differs_false in Hguard0, Hguard1.
    destruct x4. injection Hb as <-. split_and!; try done. split_and!; try done; simpl.
    + by apply sort_by_key_ksorted.
    + by rewrite sort_by_key_perm.
  - intros ((<- & <- & <- & <- & <- & Hls) & Hnd & (Hr & Hag & Hsc & Hks & Hlen & Hres & Hsch & Hin) & [Hdig Hsz] & Hsb & Hsd).
    rewrite bool_decide_eq_false_2 by done. unfold provenance_validate_for. rewrite bool_decide_eq_true_2 by done. simpl.
    rewrite (proj2 (Scope.is_subset_iff _ _) Hsc). simpl.
    rewrite (proj2 (order_layers_iff (descriptor int) (request int) layers (budget_layers int))); [simpl | split_and!; try done].
    2: { by rewrite Hls, sort_by_key_perm in Hlen. }
    rewrite Hres. simpl. rewrite (proj2 (differs_false _ _) Hsb). unfold validate_with_resolved_budget, validate_schema_for.
    rewrite bool_decide_eq_true_2 by done. simpl. destruct (Z.ltb_spec (ResolvedBudget.input_bytes (budget int))
      (compact_bytes (stats (request_input (request int))))); [lia |]. simpl.
    match goal with |- context [compute_digest sha256 ?x] =>
      change (compute_digest sha256 x) with (compute_digest sha256 int) end.
    rewrite Hdig. simpl. rewrite (proj2 (differs_false _ _) Hsd). unfold with_digest. simpl.
    destruct int. simpl in *. by rewrite Hsz.
Qed.
(** ** Committed admissions *)

Lemma commit_Ok int t adm :
  commit sha256 int t = Ok adm ->
  intent adm = int /\ admitted_at adm = t /\ t < ResolvedBudget.deadline (budget int) /\
  commit sha256 (intent adm) (admitted_at adm) = Ok adm.
Proof.
  intros Hc. assert (Hc' := Hc). unfold commit in Hc. simp_ok. apply Capacity.remaining_Ok in H5 as (Ht & _).
  destruct (MAX_SNAPSHOT_BYTES <? _); simp_ok. by subst.
Qed.

(** Admission is exact and its budget cannot be widened.  An intent is
    built exactly when the agent is not retired and is the one the run names,
    its required scopes are granted, the policy layers have distinct sources
    and leave room for the agent's and the request's own, all layers together
    resolve to the budget, the input has the agent's schema and fits the
    budget, and the snapshot encodes within its ceiling.  The order of the
    layers does not matter; no resolved ceiling exceeds the limit of any layer,
    of the agent or of the request; what was built is restored unchanged; a
    stored intent is accepted only if it is admissible and its budget is the
    resolution of its layers; and a commit happens before the deadline and is
    restored unchanged. *)
Theorem admission_exact (prov : AgentResultProvenance Capability) (desc : DescriptorT) (req : AgentRequest Schema)
    (layers : list LayerT) (gr : GraphReference Capability Schema) (auth : AuthorityT) :
  (forall int, intent_new sha256 prov desc req layers gr auth = Ok int <->
     describes prov desc req layers gr auth int /\ NoDup (layer_source <$> layers) /\ admissible int /\ sealed int) /\
  (forall int, intent_new sha256 prov desc req layers gr auth = Ok int ->
     (forall layers', layers ≡ₚ layers' -> intent_new sha256 prov desc req layers' gr auth = Ok int) /\
     (forall l d x, l ∈ resolution_layers desc req layers -> BudgetLimits.limit d l = Some x ->
        ResolvedBudget.limit d (budget int) <= x) /\
     intent_restore sha256 int = Ok int /\
     (forall t adm, commit sha256 int t = Ok adm ->
        t < ResolvedBudget.deadline (budget int) /\ admission_restore sha256 adm = Ok adm)) /\
  (forall stored int, intent_restore sha256 stored = Ok int ->
     admissible int /\ sealed int /\ budget int = budget stored /\ intent_digest int = intent_digest stored).
Proof.
  assert (Hnew : forall ls int, intent_new sha256 prov desc req ls gr auth = Ok int <->
     describes prov desc req ls gr auth int /\ NoDup (layer_source <$> ls) /\ admissible int /\ sealed int).
  { intros ls int. unfold intent_new. rewrite intent_build_iff. naive_solver. }
  split_and!; [apply Hnew | |].
  - intros int (Hd & Hnd & Ha & Hs)%Hnew. split_and!.
    + intros ls' Hp. apply Hnew. split_and!; [| by rewrite <- Hp | done | done].
      destruct Hd as (? & ? & ? & ? & ? & Hls). split_and!; try done. rewrite Hls. by apply sort_by_key_unique.
    + intros l d x Hl Hx. destruct Ha as (_ & _ & _ & _ & _ & Hres & _). destruct Hd as (_ & Hdd & Hdr & _ & _ & Hls).
      eapply Resolution.resolve_below; [exact Hres | | exact Hx]. revert Hl. unfold resolution_layers.
      rewrite Hdd, Hdr, Hls, !elem_of_app, sort_by_key_perm. done.
    + unfold intent_restore. apply intent_build_iff. destruct Ha as (? & ? & ? & Hks & ?). split_and!; try done.
      2: by apply ksorted_keys_NoDup. 2-3: by right.
      split_and!; try done. apply (ksorted_ext layer_source); [done | by apply sort_by_key_ksorted, ksorted_keys_NoDup |].
      intros x. by rewrite sort_by_key_perm.
    + intros t adm (_ & _ & Ht & Hc)%commit_Ok. split; [done |]. unfold admission_restore. rewrite Hc. simpl.
      by rewrite bool_decide_eq_true_2.
  - intros stored int (_ & _ & Ha & Hs & [|[= ->]] & [|[= ->]])%intent_build_iff; done.
Qed.
End Laws.

(** ** A concrete admission under two policy layers, given in either order *)

Definition sample_doc : BoundedJson := mkBoundedJson Null (mkJsonStats 4 0 1).
Definition sample_descriptor : AgentDescriptor Z Z unit := mkDescriptor 100 Active [bytes_of "read"] 1 2 BudgetLimits.empty tt.
Definition sample_authority : AgentAdmissionAuthority Z Z Z :=
  mkAuthority 77 [bytes_of "read"; bytes_of "write"] 55 [1] (Journal.mkPayload 5 EVIDENCE_KIND sample_doc [9]).
#[local] Instance enc_wire : Serialize (IntentWire Z Z Z unit) := fun _ => Some Null.
#[local] Instance enc_intent : Serialize (AgentAdmissionIntent Z Z Z unit) := fun _ => Some Null.
#[local] Instance enc_value : Canonical Value := fun _ => Some [].

Example sample_admission :
  let layers := [mkLayer 8 [8] Resolution.platform_layer; mkLayer 6 [6] Resolution.tenant_layer] in
  let new ls := intent_new (fun b => b) (mkProvenance (bytes_of "acme") 1 7 8 100) sample_descriptor
                  (mkRequest 1 sample_doc BudgetLimits.empty) ls (mkGraphReference 200 [12] 3) sample_authority in
  is_ok (new layers) = true /\ new (reverse layers) = new layers.
Proof. by vm_compute. Qed.
End Admissions.
