(* ===== verification/Outbox.v ===== *)
(** The transactional outbox (crates/stateknot-core/src/outbox.rs): delivery
    intents, deliveries bound to their origin event, fenced delivery attempts
    and the verifier that derives the status of a delivery from its attempts.

    Failure details and schema references are carried only and are type
    parameters. *)

From Stdlib Require Import ZArith Lia List.
From stdpp Require Import prelude.
From S2P Require Import Prelude Ordered Json BoundedJson Time Checkpoint Run Lease Journal.

Open Scope Z_scope.
Import Timestamp(Timestamp) FencingEpoch(FencingEpoch).

Module Outbox.

Definition INTENT_DIGEST_DOMAIN : bytes := bytes_of "stateknot-outbox-intent-v1" ++ [0].
Definition DELIVERY_DIGEST_DOMAIN : bytes := bytes_of "stateknot-outbox-delivery-v1" ++ [0].
Definition ATTEMPT_START_DIGEST_DOMAIN : bytes := bytes_of "stateknot-outbox-attempt-start-v1" ++ [0].
Definition ATTEMPT_COMPLETION_DIGEST_DOMAIN : bytes := bytes_of "stateknot-outbox-attempt-completion-v1" ++ [0].
Definition MAX_OUTBOX_ATTEMPTS : Z := 64.
Definition MAX_OUTBOX_ATTEMPT_LEASE_MILLIS : Z := 300000.

(** * Errors *)

Inductive OutboxDeliveryIntegrityError := DeliverySerialization.

Inductive OutboxDeliveryError :=
| DestinationTenantMismatch
| OriginTenantMismatch
| OriginRunMismatch
| OriginEventMismatch
| DeadlineNotAfterOrigin
| IntentDigestMismatch
| DeliveryDigestMismatch
| DeliveryIntegrity (source : OutboxDeliveryIntegrityError).

Inductive OutboxAttemptIntegrityError := AttemptSerialization.

Inductive OutboxAttemptError :=
| FenceTenantMismatch
| FenceRunMismatch
| FenceDeliveryMismatch
| StartBeforeOrigin
| StartOutsideDeliveryWindow
| ExpiryNotAfterStart
| ExpiryAfterDeliveryDeadline
| LeaseTooLong (maximum_millis actual_millis : Z)
| CompletionBeforeStart
| CompletionOutsideFence
| ReconciliationUnsupported
| RetryDelayOutOfRange
| CompletionStartMismatch
| StartDigestMismatch
| CompletionDigestMismatch
| AttemptIntegrity (source : OutboxAttemptIntegrityError).

Inductive OutboxAttemptHistoryError :=
| AttemptLimitExceeded
| DeliveryMismatch
| AttemptIdReused (id : Z)
| FirstEpochInvalid (actual : FencingEpoch)
| EpochNotSuccessor
| HistoryClockRegression
| LiveAttemptSuperseded
| PreviousAttemptAcknowledged
| RetryNotAuthorized
| RetryDelayNotElapsed (eligible_at started_at : Timestamp)
| HistoryRetryDelayOutOfRange
| ObservationClockRegression (latest_at observed_at : Timestamp).

(** * Deliveries *)

Record OutboxDestinationRef := mkDestination { dest_tenant_id : TenantId; destination_id : Z; snapshot_digest : Digest }.

Record OutboxIntentDigestWire := mkOutboxIntentWire {
  iw_tenant_id : TenantId;
  iw_run_id : RunId;
  iw_delivery_id : Z;
  iw_origin_event_id : Z;
  iw_destination : OutboxDestinationRef;
  iw_payload_digest : Digest;
  iw_expires_at : Timestamp
}.

Record OutboxDeliveryDigestWire := mkDeliveryWire {
  dw_tenant_id : TenantId;
  dw_run_id : RunId;
  dw_delivery_id : Z;
  dw_intent_digest : Digest;
  dw_origin : JournalHead;
  dw_expires_at : Timestamp
}.

Record OutboxDeliveryHead := mkDeliveryHead {
  dh_tenant_id : TenantId;
  dh_run_id : RunId;
  dh_delivery_id : Z;
  dh_origin : JournalHead;
  dh_intent_digest : Digest;
  dh_expires_at : Timestamp;
  dh_digest : Digest
}.

#[global] Instance OutboxDeliveryHead_eq_dec : EqDecision OutboxDeliveryHead.
Proof. solve_decision. Defined.

Record DeliveryFence := mkDeliveryFence {
  df_tenant_id : TenantId;
  df_run_id : RunId;
  df_delivery_id : Z;
  df_attempt_id : Z;
  df_epoch : FencingEpoch
}.

#[global] Instance DeliveryFence_eq_dec : EqDecision DeliveryFence.
Proof. unfold EqDecision, Decision. intros [] []. repeat decide equality. Defined.

Definition validate_delivery_head_scope (tenant : TenantId) (run : RunId) (origin : JournalHead) (expires : Timestamp)
  : result OutboxDeliveryError unit :=
  if negb (bool_decide (jh_tenant_id origin = tenant)) then Err OriginTenantMismatch else
  if negb (bool_decide (jh_run_id origin = run)) then Err OriginRunMismatch else
  if expires <=? jh_recorded_at origin then Err DeadlineNotAfterOrigin else
  Ok tt.

(** * Attempts *)

Inductive OutboxAttemptStatus := AttemptDelivering | AttemptAcknowledged | AttemptFailed.

Inductive OutboxDeliveryStatus := Pending | Delivering | RetryScheduled | Acknowledged | DeadLetter | Expired.

Record OutboxAttemptStart := mkStart {
  st_delivery : OutboxDeliveryHead;
  st_fence : DeliveryFence;
  st_started_at : Timestamp;
  st_expires_at : Timestamp;
  st_digest : Digest
}.

(** [OutboxAttemptStartHead] has the same fields. *)
Record OutboxAttemptStartHead := mkStartHead {
  sh_delivery : OutboxDeliveryHead;
  sh_fence : DeliveryFence;
  sh_started_at : Timestamp;
  sh_expires_at : Timestamp;
  sh_digest : Digest
}.

#[global] Instance OutboxAttemptStartHead_eq_dec : EqDecision OutboxAttemptStartHead.
Proof. solve_decision. Defined.

Definition start_head (self : OutboxAttemptStart) : OutboxAttemptStartHead :=
  mkStartHead (st_delivery self) (st_fence self) (st_started_at self) (st_expires_at self) (st_digest self).

Record OutboxAttemptStartDigestWire := mkStartWire {
  sw_delivery : OutboxDeliveryHead;
  sw_fence : DeliveryFence;
  sw_started_at : Timestamp;
  sw_expires_at : Timestamp
}.

Definition validate_attempt_start (d : OutboxDeliveryHead) (fence : DeliveryFence) (started expires : Timestamp)
  : result OutboxAttemptError unit :=
  if negb (bool_decide (df_tenant_id fence = dh_tenant_id d)) then Err FenceTenantMismatch else
  if negb (bool_decide (df_run_id fence = dh_run_id d)) then Err FenceRunMismatch else
  if negb (bool_decide (df_delivery_id fence = dh_delivery_id d)) then Err FenceDeliveryMismatch else
  if started <? jh_recorded_at (dh_origin d) then Err StartBeforeOrigin else
  if dh_expires_at d <=? started then Err StartOutsideDeliveryWindow else
  if expires <=? started then Err ExpiryNotAfterStart else
  if dh_expires_at d <? expires then Err ExpiryAfterDeliveryDeadline else
  if MAX_OUTBOX_ATTEMPT_LEASE_MILLIS * 1000 <? expires - started
  then Err (LeaseTooLong MAX_OUTBOX_ATTEMPT_LEASE_MILLIS (Z.min i64_max ((expires - started + 999) / 1000))) else
  Ok tt.

(** [retry_eligible_at]: exact arithmetic in [i128], then the timestamp range. *)
Definition retry_eligible_at (completed : Timestamp) (delay_millis : Z) : result OutboxAttemptError Timestamp :=
  let eligible := completed + delay_millis * 1000 in
  if Timestamp.MAX <? eligible then Err RetryDelayOutOfRange else
  if negb ((i64_min <=? eligible) && (eligible <=? i64_max)) then Err RetryDelayOutOfRange else
  map_err (fun _ => RetryDelayOutOfRange) (Timestamp.from_unix_micros eligible).

Section Outbox.
Context {Schema Details : Type} `{EqDecision Schema}.
Abbreviation FailureT := (Failure Details).

Record OutboxDeliveryIntent := mkDeliveryIntent {
  di_tenant_id : TenantId;
  di_run_id : RunId;
  di_delivery_id : Z;
  di_origin_event_id : Z;
  di_destination : OutboxDestinationRef;
  di_payload : Journal.JournalPayload Schema;
  di_expires_at : Timestamp;
  di_intent_digest : Digest
}.

Record OutboxDelivery := mkDelivery { intent : OutboxDeliveryIntent; origin : JournalHead; digest : Digest }.

Definition delivery_head (self : OutboxDelivery) : OutboxDeliveryHead :=
  mkDeliveryHead (di_tenant_id (intent self)) (di_run_id (intent self)) (di_delivery_id (intent self)) (origin self)
    (di_intent_digest (intent self)) (di_expires_at (intent self)) (digest self).

Definition validate_delivery_shape (int : OutboxDeliveryIntent) (org : JournalHead) : result OutboxDeliveryError unit :=
  _ ← validate_delivery_head_scope (di_tenant_id int) (di_run_id int) org (di_expires_at int);
  if negb (bool_decide (jh_event_id org = di_origin_event_id int)) then Err OriginEventMismatch else Ok tt.

Inductive OutboxAttemptOutcome :=
| OAcknowledged (evidence_digest : option Digest)
| OFailed (failure : FailureT).

Definition outcome_status (self : OutboxAttemptOutcome) : OutboxAttemptStatus :=
  match self with OAcknowledged _ => AttemptAcknowledged | OFailed _ => AttemptFailed end.

Record OutboxAttemptCompletion := mkCompletion {
  co_start : OutboxAttemptStartHead;
  co_outcome : OutboxAttemptOutcome;
  co_completed_at : Timestamp;
  co_digest : Digest
}.

Record OutboxAttemptCompletionDigestWire := mkCompletionWire {
  cw_start : OutboxAttemptStartHead;
  cw_outcome : OutboxAttemptOutcome;
  cw_completed_at : Timestamp
}.

Record OutboxAttempt := mkAttempt { start : OutboxAttemptStart; completion : option OutboxAttemptCompletion }.

Definition delivering (s : OutboxAttemptStart) : OutboxAttempt := mkAttempt s None.

Definition attempt_status (self : OutboxAttempt) : OutboxAttemptStatus :=
  match completion self with Some c => outcome_status (co_outcome c) | None => AttemptDelivering end.

Definition validate_attempt_completion (s : OutboxAttemptStartHead) (outcome : OutboxAttemptOutcome) (completed : Timestamp)
  : result OutboxAttemptError unit :=
  if completed <? sh_started_at s then Err CompletionBeforeStart else
  if sh_expires_at s <=? completed then Err CompletionOutsideFence else
  match outcome with
  | OFailed f =>
      match retry_advice f with
      | ReconcileFirst => Err ReconciliationUnsupported
      | SafeAfter delay => _ ← retry_eligible_at completed delay; Ok tt
      | Never => Ok tt
      end
  | OAcknowledged _ => Ok tt
  end.

Context `{Canonical OutboxIntentDigestWire, Canonical OutboxDeliveryDigestWire, Canonical OutboxAttemptStartDigestWire,
  Canonical OutboxAttemptCompletionDigestWire}.
Variable sha256 : bytes -> bytes.

Definition delivery_digest {T} `{Canonical T} (domain : bytes) (value : T) : result OutboxDeliveryIntegrityError Digest :=
  canonical ← ok_or (to_vec value) DeliverySerialization;
  Ok (sha256 (domain ++ canonical)).

Definition attempt_digest {T} `{Canonical T} (domain : bytes) (value : T) : result OutboxAttemptIntegrityError Digest :=
  canonical ← ok_or (to_vec value) AttemptSerialization;
  Ok (sha256 (domain ++ canonical)).

Definition intent_new (tenant : TenantId) (run : RunId) (delivery event : Z) (dest : OutboxDestinationRef)
  (payload : Journal.JournalPayload Schema) (expires : Timestamp) : result OutboxDeliveryError OutboxDeliveryIntent :=
  if negb (bool_decide (dest_tenant_id dest = tenant)) then Err DestinationTenantMismatch else
  d ← map_err DeliveryIntegrity (delivery_digest INTENT_DIGEST_DOMAIN
        (mkOutboxIntentWire tenant run delivery event dest (Journal.payload_digest payload) expires));
  Ok (mkDeliveryIntent tenant run delivery event dest payload expires d).

Definition intent_restore (tenant : TenantId) (run : RunId) (delivery event : Z) (dest : OutboxDestinationRef)
  (payload : Journal.JournalPayload Schema) (expires : Timestamp) (d : Digest) : result OutboxDeliveryError OutboxDeliveryIntent :=
  restored ← intent_new tenant run delivery event dest payload expires;
  if negb (bool_decide (di_intent_digest restored = d)) then Err IntentDigestMismatch else Ok restored.

Definition delivery_commit (int : OutboxDeliveryIntent) (org : JournalHead) : result OutboxDeliveryError OutboxDelivery :=
  _ ← validate_delivery_shape int org;
  d ← map_err DeliveryIntegrity (delivery_digest DELIVERY_DIGEST_DOMAIN
        (mkDeliveryWire (di_tenant_id int) (di_run_id int) (di_delivery_id int) (di_intent_digest int) org (di_expires_at int)));
  Ok (mkDelivery int org d).

Definition delivery_restore (int : OutboxDeliveryIntent) (org : JournalHead) (d : Digest) : result OutboxDeliveryError OutboxDelivery :=
  restored ← delivery_commit int org;
  if negb (bool_decide (digest restored = d)) then Err DeliveryDigestMismatch else Ok restored.

Definition delivery_head_restore (tenant : TenantId) (run : RunId) (delivery : Z) (org : JournalHead) (int : Digest)
  (expires : Timestamp) (d : Digest) : result OutboxDeliveryError OutboxDeliveryHead :=
  _ ← validate_delivery_head_scope tenant run org expires;
  expected ← map_err DeliveryIntegrity (delivery_digest DELIVERY_DIGEST_DOMAIN (mkDeliveryWire tenant run delivery int org expires));
  if negb (bool_decide (expected = d)) then Err DeliveryDigestMismatch else
  Ok (mkDeliveryHead tenant run delivery org int expires d).

Definition start_materialize (d : OutboxDeliveryHead) (fence : DeliveryFence) (started expires : Timestamp)
  : result OutboxAttemptError OutboxAttemptStart :=
  _ ← validate_attempt_start d fence started expires;
  dg ← map_err AttemptIntegrity (attempt_digest ATTEMPT_START_DIGEST_DOMAIN (mkStartWire d fence started expires));
  Ok (mkStart d fence started expires dg).

Definition start_new (d : OutboxDelivery) (fence : DeliveryFence) (started expires : Timestamp)
  : result OutboxAttemptError OutboxAttemptStart :=
  start_materialize (delivery_head d) fence started expires.

Definition start_restore (d : OutboxDeliveryHead) (fence : DeliveryFence) (started expires : Timestamp) (dg : Digest)
  : result OutboxAttemptError OutboxAttemptStart :=
  restored ← start_materialize d fence started expires;
  if negb (bool_decide (st_digest restored = dg)) then Err StartDigestMismatch else Ok restored.

Definition completion_materialize (s : OutboxAttemptStartHead) (outcome : OutboxAttemptOutcome) (completed : Timestamp)
  : result OutboxAttemptError OutboxAttemptCompletion :=
  _ ← validate_attempt_completion s outcome completed;
  dg ← map_err AttemptIntegrity (attempt_digest ATTEMPT_COMPLETION_DIGEST_DOMAIN (mkCompletionWire s outcome completed));
  Ok (mkCompletion s outcome completed dg).

Definition acknowledge (s : OutboxAttemptStart) (evidence : option Digest) (completed : Timestamp)
  : result OutboxAttemptError OutboxAttemptCompletion :=
  completion_materialize (start_head s) (OAcknowledged evidence) completed.

Definition fail_ (s : OutboxAttemptStart) (f : FailureT) (completed : Timestamp) : result OutboxAttemptError OutboxAttemptCompletion :=
  completion_materialize (start_head s) (OFailed f) completed.

Definition completion_restore (s : OutboxAttemptStartHead) (outcome : OutboxAttemptOutcome) (completed : Timestamp) (dg : Digest)
  : result OutboxAttemptError OutboxAttemptCompletion :=
  restored ← completion_materialize s outcome completed;
  if negb (bool_decide (co_digest restored = dg)) then Err CompletionDigestMismatch else Ok restored.

Definition attempt_restore (s : OutboxAttemptStart) (c : option OutboxAttemptCompletion) : result OutboxAttemptError OutboxAttempt :=
  if match c with Some c => negb (bool_decide (co_start c = start_head s)) | None => false end
  then Err CompletionStartMismatch else Ok (mkAttempt s c).

(** * The history verifier *)

Record OutboxAttemptHistoryVerifier := mkHistory {
  hv_delivery : OutboxDeliveryHead;
  hv_last : option OutboxAttempt;
  hv_attempt_ids : list Z;
  hv_count : Z
}.

Definition history_new (d : OutboxDelivery) : OutboxAttemptHistoryVerifier := mkHistory (delivery_head d) None [] 0.

Definition validate_attempt_successor (previous next : OutboxAttempt) : result OutboxAttemptHistoryError unit :=
  expected ← ok_or (FencingEpoch.checked_next (df_epoch (st_fence (start previous)))) AttemptLimitExceeded;
  if negb (bool_decide (df_epoch (st_fence (start next)) = expected)) then Err EpochNotSuccessor else
  let anchor := match completion previous with Some c => co_completed_at c | None => st_expires_at (start previous) end in
  if st_started_at (start next) <? anchor
  then Err (match completion previous with None => LiveAttemptSuperseded | Some _ => HistoryClockRegression end) else
  match completion previous with
  | None => Ok tt
  | Some c =>
      match co_outcome c with
      | OAcknowledged _ => Err PreviousAttemptAcknowledged
      | OFailed f =>
          match retry_advice f with
          | SafeAfter delay =>
              eligible ← map_err (fun _ => HistoryRetryDelayOutOfRange) (retry_eligible_at (co_completed_at c) delay);
              if st_started_at (start next) <? eligible then Err (RetryDelayNotElapsed eligible (st_started_at (start next))) else Ok tt
          | Never | ReconcileFirst => Err RetryNotAuthorized
          end
      end
  end.

Definition verify_next (self : OutboxAttemptHistoryVerifier) (a : OutboxAttempt)
  : result OutboxAttemptHistoryError OutboxAttemptHistoryVerifier :=
  if hv_count self =? MAX_OUTBOX_ATTEMPTS then Err AttemptLimitExceeded else
  if negb (bool_decide (st_delivery (start a) = hv_delivery self)) then Err DeliveryMismatch else
  let id := df_attempt_id (st_fence (start a)) in
  if bs_contains id (hv_attempt_ids self) then Err (AttemptIdReused id) else
  _ ← match hv_last self with
      | Some previous => validate_attempt_successor previous a
      | None =>
          if negb (bool_decide (df_epoch (st_fence (start a)) = FencingEpoch.FIRST))
          then Err (FirstEpochInvalid (df_epoch (st_fence (start a)))) else Ok tt
      end;
  Ok (mkHistory (hv_delivery self) (Some a) (bs_insert id (hv_attempt_ids self)) (hv_count self + 1)).

Definition latest_at (self : OutboxAttemptHistoryVerifier) : Timestamp :=
  match hv_last self with
  | None => jh_recorded_at (dh_origin (hv_delivery self))
  | Some a => match completion a with None => st_started_at (start a) | Some c => co_completed_at c end
  end.

(** The early returns of [status_at] for a completed last attempt. *)
Definition final_outcome (self : OutboxAttemptHistoryVerifier) : option OutboxDeliveryStatus :=
  a ← hv_last self;
  c ← completion a;
  match co_outcome c with
  | OAcknowledged _ => Some Acknowledged
  | OFailed f =>
      match retry_advice f with
      | Never => Some DeadLetter
      | _ => if hv_count self =? MAX_OUTBOX_ATTEMPTS then Some DeadLetter else None
      end
  end.

(** The early return for an unfinished last attempt at the limit. *)
Definition exhausted_outcome (self : OutboxAttemptHistoryVerifier) (observed : Timestamp) : option OutboxDeliveryStatus :=
  a ← hv_last self;
  if is_none (completion a) && (hv_count self =? MAX_OUTBOX_ATTEMPTS) && (st_expires_at (start a) <=? observed)
  then Some (if st_expires_at (start a) <? dh_expires_at (hv_delivery self) then DeadLetter else Expired)
  else None.

Definition status_at (self : OutboxAttemptHistoryVerifier) (observed : Timestamp)
  : result OutboxAttemptHistoryError OutboxDeliveryStatus :=
  if observed <? latest_at self then Err (ObservationClockRegression (latest_at self) observed) else
  match final_outcome self with
  | Some status => Ok status
  | None =>
  match exhausted_outcome self observed with
  | Some status => Ok status
  | None =>
      if dh_expires_at (hv_delivery self) <=? observed then Ok Expired else
      match hv_last self with
      | None => Ok Pending
      | Some a =>
          match completion a with
          | None => if observed <? st_expires_at (start a) then Ok Delivering else Ok Pending
          | Some c =>
              match co_outcome c with
              | OAcknowledged _ => Ok Acknowledged
              | OFailed f =>
                  match retry_advice f with
                  | SafeAfter delay =>
                      eligible ← map_err (fun _ => HistoryRetryDelayOutOfRange) (retry_eligible_at (co_completed_at c) delay);
                      Ok (if observed <? eligible then RetryScheduled else Pending)
                  | Never | ReconcileFirst => Ok DeadLetter
                  end
              end
          end
      end
  end
  end.
End Outbox.
Arguments OutboxDeliveryIntent : clear implicits.
Arguments OutboxDelivery : clear implicits.
Arguments OutboxAttemptOutcome : clear implicits.
Arguments OutboxAttemptCompletion : clear implicits.
Arguments OutboxAttemptCompletionDigestWire : clear implicits.
Arguments OutboxAttempt : clear implicits.
Arguments OutboxAttemptHistoryVerifier : clear implicits.
End Outbox.

(** Delivery attempts: exclusive leases in epoch order, a status that says
    exactly when the next attempt may start, and a verdict by the deadline. *)

Import Timestamp(Timestamp).

Module Deliveries.
Import Outbox.

Section Laws.
Context {Schema Details : Type} `{EqDecision Schema}.
Abbreviation AttemptT := (OutboxAttempt Details).
Abbreviation HistoryT := (OutboxAttemptHistoryVerifier Details).
Context `{Canonical OutboxIntentDigestWire, Canonical OutboxDeliveryDigestWire, Canonical OutboxAttemptStartDigestWire,
  Canonical (OutboxAttemptCompletionDigestWire Details)}.
Variable sha256 : bytes -> bytes.
Implicit Types (a b : AttemptT) (v : HistoryT) (d : OutboxDelivery Schema).

(** * Restored attempts *)

Definition start_restored (s : OutboxAttemptStart) : Prop :=
  start_restore sha256 (st_delivery s) (st_fence s) (st_started_at s) (st_expires_at s) (st_digest s) = Ok s.
Definition attempt_restored a : Prop :=
  start_restored (start a) /\
  (forall c, completion a = Some c -> completion_restore sha256 (co_start c) (co_outcome c) (co_completed_at c) (co_digest c) = Ok c) /\
  attempt_restore (start a) (completion a) = Ok a.

(** The lease of a start lies between the origin and the deadline. *)
Definition lease_ok (s : OutboxAttemptStart) : Prop :=
  jh_recorded_at (dh_origin (st_delivery s)) <= st_started_at s /\ st_started_at s < st_expires_at s /\
  st_expires_at s <= dh_expires_at (st_delivery s) /\ st_expires_at s - st_started_at s <= MAX_OUTBOX_ATTEMPT_LEASE_MILLIS * 1000.

Definition completion_ok a (c : OutboxAttemptCompletion Details) : Prop :=
  st_started_at (start a) <= co_completed_at c /\ co_completed_at c < st_expires_at (start a) /\
  forall f, co_outcome c = OFailed f ->
    match retry_advice f with
    | Never => True
    | SafeAfter delay => retry_eligible_at (co_completed_at c) delay = Ok (co_completed_at c + delay * 1000)
    | ReconcileFirst => False
    end.

Lemma start_restored_ok s : start_restored s -> lease_ok s.
Proof.
  unfold start_restored, start_restore, start_materialize. intros Hs. open_guards Hs. open_guards Hx.
  unfold validate_attempt_start in Hx0. open_guards Hx0. unfold lease_ok. lia.
Qed.

Lemma retry_eligible_exact t delay e : retry_eligible_at t delay = Ok e -> e = t + delay * 1000.
Proof.
  unfold retry_eligible_at. intros He. open_guards He. apply map_err_Ok in He. unfold Timestamp.from_unix_micros in He.
  destruct (_ || _) in He; [done |]. by injection He as <-.
Qed.

Lemma attempt_restored_ok a : attempt_restored a -> lease_ok (start a) /\ forall c, completion a = Some c -> completion_ok a c.
Proof.
  intros (Hs & Hc & Hr). split; [by apply start_restored_ok |]. intros c Ec. specialize (Hc c Ec).
  unfold attempt_restore in Hr. rewrite Ec in Hr. destruct (bool_decide_reflect (co_start c = start_head (start a))) as [Es|]; [| done].
  unfold completion_restore, completion_materialize in Hc. open_guards Hc. open_guards Hx.
  unfold validate_attempt_completion in Hx0. open_guards Hx0. rewrite Es in *. simpl in *.
  unfold completion_ok. split_and!; [lia | lia |]. intros f Ef. rewrite Ef in Hx0. destruct (retry_advice f); try done.
  open_guards Hx0. by rewrite Hx2, (retry_eligible_exact _ _ _ Hx2) at 1.
Qed.

(** * One step of a history *)

Definition epoch_of a : Z := df_epoch (st_fence (start a)).
Definition id_of a : Z := df_attempt_id (st_fence (start a)).
Definition started a : Timestamp := st_started_at (start a).

(** The end of an attempt: its completion, or the expiry of its lease. *)
Definition ended a : Timestamp := match completion a with Some c => co_completed_at c | None => st_expires_at (start a) end.

(** [a] no longer holds the delivery at [t] and permits another attempt. *)
Definition released a (t : Timestamp) : Prop :=
  ended a <= t /\
  forall c, completion a = Some c -> exists f delay, co_outcome c = OFailed f /\ retry_advice f = SafeAfter delay /\
    co_completed_at c + delay * 1000 <= t.

Lemma validate_attempt_successor_iff a b u :
  attempt_restored a ->
  validate_attempt_successor a b = Ok u <-> FencingEpoch.checked_next (epoch_of a) = Some (epoch_of b) /\ released a (started b).
Proof.
  intros [_ Hok]%attempt_restored_ok. destruct u. unfold validate_attempt_successor, released, ended, epoch_of, started.
  destruct (FencingEpoch.checked_next (df_epoch (st_fence (start a)))) as [e|]; simpl; [| split; [done | naive_solver]].
  guard_iff. destruct (completion a) as [c|]; [| split; [intros _; split_and!; naive_solver | done]].
  specialize (Hok c eq_refl) as (_ & _ & Hok).
  destruct (co_outcome c) as [ev|f] eqn:Eo; [split; [done |]; intros (_ & _ & Hr); destruct (Hr c eq_refl) as (f & dl & ? & _); congruence |].
  specialize (Hok f eq_refl). destruct (retry_advice f) as [|dl|] eqn:Ea; [| | done].
  - split; [done |]. intros (_ & _ & Hr). destruct (Hr c eq_refl) as (f0 & dl & E & E' & _). congruence.
  - rewrite Hok. simpl. destruct (Z.ltb_spec (st_started_at (start b)) (co_completed_at c + dl * 1000)).
    + split; [done |]. intros (_ & _ & Hr). destruct (Hr c eq_refl) as (f0 & dl0 & E & E' & ?).
      rewrite Eo in E. injection E as <-. rewrite Ea in E'. injection E' as <-. lia.
    + split; [intros _ | done]. split_and!; [by subst | lia |]. intros c' [= <-]. by exists f, dl.
Qed.

Definition verify_all v (l : list AttemptT) := try_fold verify_next v l.

(** The accepted next attempt. *)
Definition next_ok v a : Prop :=
  hv_count v <> MAX_OUTBOX_ATTEMPTS /\ st_delivery (start a) = hv_delivery v /\ id_of a ∉ hv_attempt_ids v /\
  match hv_last v with
  | None => epoch_of a = FencingEpoch.FIRST
  | Some p => FencingEpoch.checked_next (epoch_of p) = Some (epoch_of a) /\ released p (started a)
  end.

Lemma outbox_verify_next_iff v a v' :
  (forall p, hv_last v = Some p -> attempt_restored p) ->
  verify_next v a = Ok v' <->
  next_ok v a /\ v' = mkHistory (hv_delivery v) (Some a) (bs_insert (id_of a) (hv_attempt_ids v)) (hv_count v + 1).
Proof.
  intros Hp. unfold verify_next, next_ok. cbv zeta. fold (id_of a) (epoch_of a). guard_iff.
  destruct (bs_contains _ _) eqn:Ec; [apply bs_contains_iff in Ec; split; [done | naive_solver] |].
  apply bs_contains_false in Ec. rewrite bind_Ok. destruct (hv_last v) as [p|].
  - split.
    + intros ([] & Hs & [= <-]). apply validate_attempt_successor_iff in Hs; [| by apply Hp]. naive_solver.
    + intros ((_ & _ & _ & Hs) & ->). exists tt. split; [| done]. by apply validate_attempt_successor_iff; [apply Hp |].
  - split.
    + intros ([] & Hs & [= <-]). open_guards Hs. naive_solver.
    + intros ((_ & _ & _ & Hs) & ->). exists tt. split; [| done]. by rewrite bool_decide_eq_true_2.
Qed.

(** * Whole histories *)

Definition history_ok d (l : list AttemptT) v : Prop :=
  hv_delivery v = delivery_head d /\ hv_last v = last l /\ hv_count v = Z.of_nat (length l) /\ hv_count v <= MAX_OUTBOX_ATTEMPTS /\
  (forall x, x ∈ hv_attempt_ids v <-> x ∈ id_of <$> l) /\ NoDup (id_of <$> l) /\
  (forall i a, l !! i = Some a -> epoch_of a = Z.of_nat i + 1 /\ st_delivery (start a) = delivery_head d) /\
  (forall i j a b, (i < j)%nat -> l !! i = Some a -> l !! j = Some b -> released a (started b)).

Lemma released_later a b c : released a (started b) -> attempt_restored b -> released b (started c) -> released a (started c).
Proof.
  intros [He Hr] [Hl Hc]%attempt_restored_ok [He' _]. unfold lease_ok in Hl. unfold ended, started in *.
  assert (st_started_at (start b) <= st_started_at (start c)).
  { destruct (completion b) as [cb|]; [specialize (Hc cb eq_refl) as (? & _) |]; lia. }
  split; [unfold ended; lia |]. intros ca Eca. destruct (Hr ca Eca) as (f & dl & ? & ? & ?). exists f, dl. split_and!; try done. lia.
Qed.

Lemma lookup_snoc_last {A} (l : list A) x i y : (l ++ [x]) !! i = Some y -> (l !! i = Some y /\ (i < length l)%nat) \/ (i = length l /\ y = x).
Proof.
  intros [Hy | [Hge Hy]]%lookup_app_Some; [left; split; [done | by eapply lookup_lt_Some] |].
  destruct (i - length l)%nat eqn:E; [| done]. injection Hy as <-. right. split; [lia | done].
Qed.

Lemma outbox_history_snoc d l v a v' :
  Forall attempt_restored l -> history_ok d l v -> verify_next v a = Ok v' -> history_ok d (l ++ [a]) v'.
Proof.
  intros HF (Hd & Hl & Hc & Hm & Hids & Hn & He & Hx) Hv. rewrite Forall_forall in HF.
  apply outbox_verify_next_iff in Hv as ((Hcount & Hdel & Hid & Hlast) & ->).
  2:{ intros p Hp. apply HF. rewrite Hl, last_lookup in Hp. by eapply list_elem_of_lookup_2. }
  unfold history_ok. simpl. rewrite last_snoc, fmap_app, length_app. simpl. split_and!; [done | done | lia | lia | | | |].
  - intros x. rewrite bs_insert_elem, Hids, elem_of_app, list_elem_of_singleton. tauto.
  - apply NoDup_app. split_and!; [done | | apply NoDup_singleton]. intros x Hxx ->%list_elem_of_singleton. by apply Hid, Hids.
  - intros i y [[Hy _] | [-> ->]]%lookup_snoc_last; [by apply He |]. split; [| congruence]. rewrite Hl, last_lookup in Hlast.
    destruct (l !! pred (length l)) as [p|] eqn:Ep.
    + destruct (He _ _ Ep) as [Hep _]. destruct Hlast as [Hnext _]. rewrite Hep in Hnext. unfold FencingEpoch.checked_next in Hnext.
      destruct (_ =? _); [done |]. injection Hnext as <-. apply lookup_lt_Some in Ep. lia.
    + apply lookup_ge_None in Ep. rewrite Hlast. unfold FencingEpoch.FIRST. lia.
  - intros i j x y Hij Hxi [[Hy Hj] | [-> ->]]%lookup_snoc_last.
    { apply (Hx i j); [done | | done]. rewrite lookup_app_l in Hxi by lia. done. }
    rewrite lookup_app_l in Hxi by lia. rewrite Hl, last_lookup in Hlast.
    destruct (lookup_lt_is_Some_2 l (pred (length l)) ltac:(lia)) as [p Hp]. rewrite Hp in Hlast. destruct Hlast as [_ Hrel].
    destruct (decide (i = pred (length l))) as [->|Hi]; [by simplify_eq |].
    eapply released_later; [apply (Hx i (pred (length l))); [lia | done..] | | done]. apply HF. by eapply list_elem_of_lookup_2.
Qed.

Lemma outbox_history_verified d l v : Forall attempt_restored l -> verify_all (history_new d) l = Ok v -> history_ok d l v.
Proof.
  revert v. induction l as [|a l IH] using rev_ind; intros v HF.
  - intros [= <-]. unfold history_ok. simpl. split_and!; try done; try constructor.
  - apply Forall_app in HF as [HF _]. unfold verify_all in *. rewrite try_fold_app. intros Hv. open_guards Hv. simpl in Hv. open_guards Hv.
    injection Hv as <-. eapply outbox_history_snoc; [done | by apply IH | done].
Qed.

(** * The status *)

Definition final (status : OutboxDeliveryStatus) : bool :=
  match status with Acknowledged | DeadLetter | Expired => true | Pending | Delivering | RetryScheduled => false end.

Definition last_released v (t : Timestamp) : Prop := forall p, hv_last v = Some p -> released p t.

Lemma status_pending_iff v t :
  (forall p, hv_last v = Some p -> attempt_restored p) ->
  status_at v t = Ok Pending <->
  latest_at v <= t /\ t < dh_expires_at (hv_delivery v) /\ (is_Some (hv_last v) -> hv_count v <> MAX_OUTBOX_ATTEMPTS) /\ last_released v t.
Proof.
  intros Hp. unfold status_at, last_released, latest_at, final_outcome, exhausted_outcome.
  destruct (hv_last v) as [a|]; simpl; [specialize (Hp a eq_refl) | guard_iff].
  2:{ destruct (Z.leb_spec (dh_expires_at (hv_delivery v)) t).
      - split; [done | intros (_ & ? & _); lia].
      - split; [intros _; split_and!; try lia; [by intros [? ?] | done] | done]. }
  apply attempt_restored_ok in Hp as [Hl Hc]. unfold lease_ok in Hl. unfold released, ended.
  destruct (completion a) as [c|] eqn:Ec; simpl; guard_iff.
  - specialize (Hc c eq_refl) as (? & ? & Hf). destruct (co_outcome c) as [ev|f] eqn:Eo.
    { split; [done |]. intros (_ & _ & _ & Hr). destruct (Hr a eq_refl) as [_ Hr']. destruct (Hr' c Ec) as (f & dl & E & _). congruence. }
    specialize (Hf f eq_refl). destruct (retry_advice f) as [|dl|] eqn:Ea; [| | done].
    + split; [done |]. intros (_ & _ & _ & Hr). destruct (Hr a eq_refl) as [_ Hr']. destruct (Hr' c Ec) as (f0 & dl & E & E' & _). congruence.
    + destruct (Z.eqb_spec (hv_count v) MAX_OUTBOX_ATTEMPTS); [split; [done | intros (_ & _ & Hn & _); by destruct (Hn ltac:(by eexists))] |].
      destruct (Z.leb_spec (dh_expires_at (hv_delivery v)) t); [split; [done | intros (_ & ? & _); lia] |]. rewrite Hf. simpl.
      destruct (Z.ltb_spec t (co_completed_at c + dl * 1000)).
      * split; [done |]. intros (_ & _ & _ & Hr). destruct (Hr a eq_refl) as [_ Hr']. destruct (Hr' c Ec) as (f0 & dl0 & E & E' & ?).
        rewrite Eo in E. injection E as <-. rewrite Ea in E'. injection E' as <-. lia.
      * split; [intros _ | done]. split_and!; [done | lia | done |]. intros p [= <-]. rewrite Ec.
        split; [lia |]. intros c' [= <-]. by exists f, dl.
  - destruct (Z.eqb_spec (hv_count v) MAX_OUTBOX_ATTEMPTS), (Z.leb_spec (st_expires_at (start a)) t); simpl.
    all: repeat match goal with |- context [if ?x <? ?y then _ else _] => destruct (Z.ltb_spec x y) end.
    all: repeat match goal with |- context [if ?x <=? ?y then _ else _] => destruct (Z.leb_spec x y) end; try lia.
    all: try (split; [done | intros (_ & ? & Hn & Hr); first [lia | by destruct (Hn ltac:(by eexists)) | destruct (Hr a eq_refl) as [Hend _]; rewrite Ec in Hend; lia]]).
    split; [intros _ | done]. split_and!; [lia | lia | done |]. intros p [= <-]. rewrite Ec. split; [lia | done].
Qed.

Lemma last_restored d l v p : Forall attempt_restored l -> history_ok d l v -> hv_last v = Some p -> attempt_restored p.
Proof.
  rewrite Forall_forall. intros HF (_ & Hl & _) Hp. rewrite Hl, last_lookup in Hp. apply HF. by eapply list_elem_of_lookup_2.
Qed.

Lemma delivery_committed_window d : delivery_commit sha256 (intent d) (origin d) = Ok d ->
  jh_recorded_at (dh_origin (delivery_head d)) < dh_expires_at (delivery_head d).
Proof.
  unfold delivery_commit, validate_delivery_shape, validate_delivery_head_scope. intros Hd. open_guards Hd. open_guards Hx. open_guards Hx1. simpl. lia.
Qed.

Lemma latest_before_deadline d l v :
  delivery_commit sha256 (intent d) (origin d) = Ok d -> Forall attempt_restored l -> history_ok d l v ->
  latest_at v < dh_expires_at (delivery_head d).
Proof.
  intros Hd HF Hok. pose proof (delivery_committed_window d Hd) as Hw. pose proof Hok as (Hdel & Hl & _ & _ & _ & _ & He & _). unfold latest_at.
  destruct (hv_last v) as [a|] eqn:Ea; [| by rewrite Hdel].
  pose proof (last_restored d l v a HF Hok Ea) as [Hlease Hc]%attempt_restored_ok. unfold lease_ok in Hlease.
  symmetry in Hl. rewrite last_lookup in Hl. destruct (He _ _ Hl) as [_ Hd']. rewrite Hd' in Hlease.
  destruct (completion a) as [c|]; [specialize (Hc c eq_refl) as (? & ? & _) |]; lia.
Qed.

(** From the deadline on, the status is final and no longer changes. *)
Lemma status_after_deadline d l v t t' :
  delivery_commit sha256 (intent d) (origin d) = Ok d -> Forall attempt_restored l -> history_ok d l v ->
  dh_expires_at (delivery_head d) <= t -> t <= t' ->
  exists status, status_at v t = Ok status /\ status_at v t' = Ok status /\ final status = true.
Proof.
  intros Hd HF Hok Ht Htt. pose proof (latest_before_deadline d l v Hd HF Hok) as Hlat.
  pose proof Hok as (Hdel & Hl & _ & _ & _ & _ & He & _).
  assert (Hexh : exhausted_outcome v t = exhausted_outcome v t' /\ forall s, exhausted_outcome v t = Some s -> final s = true).
  { unfold exhausted_outcome. destruct (hv_last v) as [a|] eqn:Ea; simpl; [| done].
    pose proof (last_restored d l v a HF Hok Ea) as [Hlease _]%attempt_restored_ok. unfold lease_ok in Hlease.
    symmetry in Hl. rewrite last_lookup in Hl. destruct (He _ _ Hl) as [_ Hd']. rewrite Hd' in Hlease.
    rewrite !(proj2 (Z.leb_le _ _)) by lia. split; [done |]. intros s. destruct (is_none _ && _ && _); [| done].
    by destruct (_ <? _); intros [= <-]. }
  destruct Hexh as [Hexh Hfin]. unfold status_at. rewrite <- Hexh, !(proj2 (Z.ltb_ge _ _)) by lia.
  destruct (final_outcome v) as [s|] eqn:Ef.
  - exists s. split_and!; try done. unfold final_outcome in Ef. destruct (hv_last v) as [a|]; [| done]. simpl in Ef.
    destruct (completion a) as [c|]; [| done]. simpl in Ef. destruct (co_outcome c) as [ev|f]; [by injection Ef as <- |].
    destruct (retry_advice f); [by injection Ef as <- | |]; destruct (_ =? _); by simplify_eq.
  - destruct (exhausted_outcome v t) as [s|]; [exists s; split_and!; try done; by apply Hfin |].
    rewrite Hdel, !(proj2 (Z.leb_le _ _)) by lia. by exists Expired.
Qed.

(** A status exists at every instant from the latest record on. *)
Lemma status_total d l v t :
  Forall attempt_restored l -> history_ok d l v -> latest_at v <= t -> exists status, status_at v t = Ok status.
Proof.
  intros HF Hok Ht. unfold status_at. rewrite (proj2 (Z.ltb_ge _ _)) by done.
  destruct (final_outcome v); [eauto |]. destruct (exhausted_outcome v t); [eauto |]. destruct (_ <=? _); [eauto |].
  destruct (hv_last v) as [a|] eqn:Ea; [| eauto]. pose proof (last_restored d l v a HF Hok Ea) as [_ Hc]%attempt_restored_ok.
  destruct (completion a) as [c|]; [| destruct (_ <? _); eauto]. specialize (Hc c eq_refl) as (_ & _ & Hf).
  destruct (co_outcome c) as [|f]; [eauto |]. specialize (Hf f eq_refl). destruct (retry_advice f); eauto. rewrite Hf. simpl. eauto.
Qed.

(** C33: Deliveries always reach a verdict, and [Pending] is exactly the
    licence to try.  For a committed delivery and a verified history of
    restored attempts: a status exists at every instant from the latest record
    on; an attempt of the next epoch with a fresh identity is accepted exactly
    when the status at its start is [Pending]; and from the deadline on the
    status is acknowledged, dead letter or expired, and never changes. *)
Theorem outbox_claims_exact (d : OutboxDelivery Schema) (l : list AttemptT) (v : HistoryT)
    (Hd : delivery_commit sha256 (intent d) (origin d) = Ok d)
    (HF : Forall attempt_restored l) (Hv : verify_all (history_new d) l = Ok v) :
  (forall t, latest_at v <= t -> exists status, status_at v t = Ok status) /\
  (forall s, start_restored s -> st_delivery s = delivery_head d -> df_attempt_id (st_fence s) ∉ id_of <$> l ->
     df_epoch (st_fence s) = Z.of_nat (length l) + 1 ->
     is_ok (verify_next v (delivering s)) = true <-> status_at v (st_started_at s) = Ok Pending) /\
  (forall t t', dh_expires_at (delivery_head d) <= t -> t <= t' ->
     exists status, status_at v t = Ok status /\ status_at v t' = Ok status /\ final status = true).
Proof.
  pose proof (outbox_history_verified d l v HF Hv) as Hok. split_and!.
  - intros t. by eapply status_total.
  - intros s Hs%start_restored_ok Hsd Hid Hep. pose proof Hok as (Hdel & Hl & Hc & Hm & Hids & _ & He & _).
    assert (Hlast : forall p, hv_last v = Some p -> attempt_restored p) by (intros p; by eapply last_restored).
    rewrite status_pending_iff by done. unfold lease_ok in Hs. rewrite Hsd in Hs. simpl in Hs.
    assert (Hiff : (exists v', verify_next v (delivering s) = Ok v') <-> next_ok v (delivering s)).
    { split; [intros (v' & [? _]%outbox_verify_next_iff); done | intros Hn; eexists; apply outbox_verify_next_iff; [done |]; by split]. }
    transitivity (next_ok v (delivering s)).
    { rewrite <- Hiff. destruct (verify_next v (delivering s)); simpl; naive_solver. }
    unfold next_ok, last_released, latest_at. rewrite Hdel, Hids. simpl. unfold id_of, epoch_of, started. simpl.
    destruct (hv_last v) as [p|] eqn:Ep.
    + symmetry in Hl. rewrite last_lookup in Hl. destruct (He _ _ Hl) as [Hpe Hpd]. pose proof (lookup_lt_Some _ _ _ Hl).
      assert (Hnext : FencingEpoch.checked_next (df_epoch (st_fence (start p))) = Some (df_epoch (st_fence s))).
      { unfold epoch_of in Hpe. rewrite Hpe, Hep. unfold FencingEpoch.checked_next, MAX_OUTBOX_ATTEMPTS in *.
        destruct (Z.eqb_spec (Z.of_nat (pred (length l)) + 1) FencingEpoch.MAX_DATABASE_ORDINAL) as [E|].
        - unfold FencingEpoch.MAX_DATABASE_ORDINAL, i64_max in E. lia.
        - f_equal. lia. }
      specialize (Hlast p eq_refl) as [Hpl Hpc]%attempt_restored_ok. unfold lease_ok in Hpl. split.
      * intros (Hn & _ & _ & _ & Hrel). split_and!; [| lia | done | by intros ? [= <-]]. destruct Hrel as [Hend _]. unfold ended in Hend.
        destruct (completion p) as [c|]; lia.
      * intros (_ & _ & Hn & Hrel). split_and!; try done; [by apply Hn; eexists | by apply Hrel].
    + symmetry in Hl. apply last_None in Hl. subst l. simpl in *. split; [intros _ | intros _].
      * split_and!; [lia | lia | by intros [? ?] | done].
      * split_and!; [| done | done | done]. rewrite Hc. done.
  - intros t t'. by apply (status_after_deadline d l).
Qed.

(** Delivery attempts are exclusive.  In a verified history of restored
    attempts there are at most 64, with distinct identities and epochs 1, 2,
    3 and so on; each holds a lease of at most five minutes inside the
    delivery window and completes within it; each ended, by completion or by
    expiry, before the next started, and was either unfinished or a failure
    whose advised delay had passed.  So nothing follows an acknowledgement. *)
Theorem outbox_attempts_exclusive (d : OutboxDelivery Schema) (l : list AttemptT) (v : HistoryT)
    (HF : Forall attempt_restored l) (Hv : verify_all (history_new d) l = Ok v) :
  Z.of_nat (length l) <= MAX_OUTBOX_ATTEMPTS /\ NoDup (id_of <$> l) /\
  (forall i a, l !! i = Some a -> epoch_of a = Z.of_nat i + 1 /\ st_delivery (start a) = delivery_head d /\
     lease_ok (start a) /\ forall c, completion a = Some c -> completion_ok a c) /\
  (forall i j a b, (i < j)%nat -> l !! i = Some a -> l !! j = Some b -> released a (started b)) /\
  (forall i a, l !! i = Some a -> attempt_status a = AttemptAcknowledged -> last l = Some a).
Proof.
  destruct (outbox_history_verified d l v HF Hv) as (_ & _ & Hc & Hm & _ & Hn & He & Hx). split_and!; [lia | done | | done |].
  - intros i a Hi. destruct (He i a Hi) as [? ?]. rewrite Forall_forall in HF. split_and!; try done.
    all: apply attempt_restored_ok, HF; by eapply list_elem_of_lookup_2.
  - intros i a Hi Hs. rewrite last_lookup. pose proof (lookup_lt_Some _ _ _ Hi) as Hlt.
    destruct (decide (i = pred (length l))) as [<-|Hne]; [done |].
    destruct (lookup_lt_is_Some_2 l (pred (length l)) ltac:(lia)) as [p Hp].
    destruct (Hx i (pred (length l)) a p ltac:(lia) Hi Hp) as [_ Hr]. unfold attempt_status in Hs.
    destruct (completion a) as [c|]; [| done]. destruct (Hr c eq_refl) as (f & dl & Ho & _). by rewrite Ho in Hs.
Qed.
End Laws.

(** ** A lost attempt and an acknowledgement *)

#[local] Instance constant_encoder {T} : Canonical T := fun _ => Some [].
Definition constant_sha (_ : bytes) : bytes := [].

Definition demo_origin : JournalHead := mkJournalHead [97] 5 3 103 1000 [].
Definition demo_delivery : OutboxDelivery unit :=
  mkDelivery (mkDeliveryIntent [97] 5 40 103 (mkDestination [97] 7 [])
    (Journal.mkPayload tt (bytes_of "done") (mkBoundedJson Null (mkJsonStats 4 0 1)) []) 9000 []) demo_origin [].
Definition demo_start (id epoch started expires : Z) : OutboxAttemptStart :=
  mkStart (delivery_head demo_delivery) (mkDeliveryFence [97] 5 40 id epoch) started expires [].
Definition lost : OutboxAttempt unit := delivering (demo_start 60 1 2000 3000).
Definition acknowledged : OutboxAttempt unit :=
  mkAttempt (demo_start 61 2 3000 4000) (Some (mkCompletion (start_head (demo_start 61 2 3000 4000)) (OAcknowledged None) 3500 [])).

Lemma demo_restored : Forall (attempt_restored constant_sha) [lost; acknowledged].
Proof.
  apply Forall_cons; split; [| apply Forall_singleton].
  all: unfold attempt_restored; split; [| split]; [vm_compute; reflexivity | intros co Hco; try discriminate Hco | vm_compute; reflexivity].
  injection Hco as <-; vm_compute; reflexivity.
Qed.

Lemma outbox_claims_exact_witness :
  status_at (mkHistory (delivery_head demo_delivery) (Some lost) [60] 1) 2500 = Ok Delivering /\
  is_ok (verify_next (mkHistory (delivery_head demo_delivery) (Some lost) [60] 1) (delivering (demo_start 61 2 3000 4000))) = true /\
  exists status, status_at (mkHistory (delivery_head demo_delivery) (Some lost) [60] 1) 9000 = Ok status /\ final status = true.
Proof.
  destruct (outbox_claims_exact constant_sha demo_delivery [lost] (mkHistory (delivery_head demo_delivery) (Some lost) [60] 1))
    as (_ & Hc & Hf).
  - vm_compute. reflexivity.
  - apply Forall_singleton. exact (Forall_inv demo_restored).
  - vm_compute. reflexivity.
  - split; [vm_compute; reflexivity |]. split.
    + apply (Hc (demo_start 61 2 3000 4000)).
      * vm_compute. reflexivity.
      * reflexivity.
      * vm_compute. intros Hin. apply list_elem_of_singleton in Hin. discriminate Hin.
      * reflexivity.
      * vm_compute. reflexivity.
    + destruct (Hf 9000 9000) as (status & Hs & _ & Hfin); [vm_compute; discriminate | lia |]. exists status. split; [exact Hs | exact Hfin].
Defined.

Lemma outbox_attempts_exclusive_witness :
  verify_all (history_new demo_delivery) [lost; acknowledged] = Ok (mkHistory (delivery_head demo_delivery) (Some acknowledged) [60; 61] 2) /\
  released lost (started acknowledged).
Proof.
  assert (Hv : verify_all (history_new demo_delivery) [lost; acknowledged]
    = Ok (mkHistory (delivery_head demo_delivery) (Some acknowledged) [60; 61] 2)) by (vm_compute; reflexivity).
  split; [exact Hv |].
  destruct (outbox_attempts_exclusive constant_sha demo_delivery _ _ demo_restored Hv) as (_ & _ & _ & Hx & _).
  apply (Hx 0%nat 1%nat); [lia | reflexivity | reflexivity].
Defined.
End Deliveries.
