(* ===== verification/Barrier.v ===== *)
(** Node results and checkpoint barriers: the activation of a ready node
    (crates/stateknot-core/src/tool_invocation.rs), the pending result it
    leaves (node_result.rs), and the barrier that binds a successor checkpoint
    to the exact results it consumed (barrier.rs).

    The request of an interrupt, the invocation bindings of a result and the
    join it consumed are carried and compared only: they are type parameters. *)

From Stdlib Require Import ZArith Lia List.
From stdpp Require Import prelude.
From S2P Require Import Prelude Ordered Json Time Lease Checkpoint Graph Run.

Open Scope Z_scope.
Import Timestamp(Timestamp).

(** [GraphNamespace(Box<str>)]; the root is the empty path. *)
Definition GraphNamespace := bytes.
Definition namespace_root : GraphNamespace := [].
Definition is_root (ns : GraphNamespace) : bool := (length ns =? 0)%nat.

Definition READY_NODE_INPUT_DIGEST_DOMAIN : bytes := bytes_of "stateknot-ready-node-input-v1" ++ [0].
Definition BARRIER_INTENT_DIGEST_DOMAIN : bytes := bytes_of "stateknot-checkpoint-barrier-intent-v1" ++ [0].
Definition WAITS_MAX_LEN : Z := 64.
Definition BARRIER_MAX_LEN : Z := READY_MAX_LEN.

Inductive NodeActivationError := NodeNotReady (id : NodeId) | ActivationSerialization.
Inductive NodeWaitsError := WaitsEmpty | WaitsTooMany (maximum actual : Z) | WaitsDuplicateIdentity.
Inductive NodeControlKind := KContinue | KRoute | KWait | KTerminal.

Inductive BarrierResultHeadsError :=
| HeadsEmpty
| HeadsTooMany (maximum actual : Z)
| DuplicateActivation (namespace : GraphNamespace) (id : NodeId)
| MixedBaseCheckpoints
| NestedGraphNamespace (namespace : GraphNamespace).

Inductive CheckpointBarrierError :=
| Results (source : BarrierResultHeadsError)
| EmptyReadySet
| SuccessorParentMismatch
| BarrierResultBaseMismatch
| UnexpectedResultNode (id : NodeId)
| BarrierMissingResultNode (id : NodeId)
| BarrierSerialization
| BarrierDigestMismatch.

Record ReadyNodeInputDigestWire := mkInputWire {
  wire_base_checkpoint_digest : Digest;
  wire_graph_namespace : GraphNamespace;
  wire_node_id : NodeId
}.

Section Results.
Context {Capability Schema InterruptRequest Bindings Join : Type} `{EqDecision Capability, EqDecision Schema}.
Abbreviation HeadT := (CheckpointHead Capability Schema).
Abbreviation CheckpointT := (Checkpoint Capability Schema).

(** * Activations and results *)

Record NodeActivation := mkActivation {
  base_checkpoint : HeadT;
  graph_namespace : GraphNamespace;
  act_node_id : NodeId;
  input_digest : Digest
}.

#[global] Instance NodeActivation_eq_dec : EqDecision NodeActivation.
Proof. solve_decision. Defined.

Record NodeStateUpdate := mkUpdate { update_schema_ref : Schema; update_data : Value; update_digest : Digest }.
Record NodeTerminalOutput := mkOutput { output_schema_ref : Schema; output_data : Value; output_digest : Digest }.

Inductive NodeStateChange := Unchanged | Update (update : NodeStateUpdate).

Definition change_update (self : NodeStateChange) : option NodeStateUpdate :=
  match self with Unchanged => None | Update update => Some update end.

Inductive NodeWait :=
| WaitInterrupt (id : Z) (kind : RunInterruptKind) (request : InterruptRequest) (expires : option Timestamp)
| WaitTimer (id : Z) (kind : RunTimerKind) (due : Timestamp).

Definition node_wait_identity (self : NodeWait) : Z :=
  match self with WaitInterrupt id _ _ _ => id | WaitTimer id _ _ => id end.

(** [NodeWaits { values }]. *)
Definition NodeWaits := list NodeWait.

Definition node_waits_step (collected : list NodeWait) (value : NodeWait) : result NodeWaitsError (list NodeWait) :=
  if Z.of_nat (length collected) =? WAITS_MAX_LEN then Err (WaitsTooMany WAITS_MAX_LEN (WAITS_MAX_LEN + 1)) else
  if existsb (fun existing => node_wait_identity existing =? node_wait_identity value) collected
  then Err WaitsDuplicateIdentity else
  Ok (collected ++ [value]).

Definition node_waits_try_new (values : list NodeWait) : result NodeWaitsError NodeWaits :=
  collected ← try_fold node_waits_step [] values;
  if (length collected =? 0)%nat then Err WaitsEmpty else Ok collected.

Inductive NodeControl :=
| Continue
| Route (id : RouteId)
| WaitFor (waits : NodeWaits)
| Terminal (output : NodeTerminalOutput).

Record PendingNodeResultIntent := mkResultIntent {
  activation : NodeActivation;
  state_change : NodeStateChange;
  control : NodeControl;
  bindings : Bindings;
  child_join : option Join;
  result_intent_digest : Digest
}.

Record PendingNodeResult := mkResult {
  intent : PendingNodeResultIntent;
  result_fence : RunLease.RunFence;
  result_journal_head : JournalHead;
  result_digest : Digest
}.

Record PendingNodeResultHead := mkResultHead {
  rh_activation : NodeActivation;
  rh_intent_digest : Digest;
  rh_fence : RunLease.RunFence;
  rh_journal_head : JournalHead;
  rh_digest : Digest
}.

Definition result_head (self : PendingNodeResult) : PendingNodeResultHead :=
  mkResultHead (activation (intent self)) (result_intent_digest (intent self)) (result_fence self)
    (result_journal_head self) (result_digest self).

(** * Result heads of one barrier *)

Definition BarrierResultHeads := list PendingNodeResultHead.

Definition head_key (h : PendingNodeResultHead) : GraphNamespace * NodeId :=
  (graph_namespace (rh_activation h), act_node_id (rh_activation h)).

Definition heads_step (st : list PendingNodeResultHead * list (GraphNamespace * NodeId) * option HeadT) (value : PendingNodeResultHead)
  : result BarrierResultHeadsError (list PendingNodeResultHead * list (GraphNamespace * NodeId) * option HeadT) :=
  let '(collected, identities, base) := st in
  if Z.of_nat (length collected) =? BARRIER_MAX_LEN then Err (HeadsTooMany BARRIER_MAX_LEN (BARRIER_MAX_LEN + 1)) else
  let act := rh_activation value in
  if negb (is_root (graph_namespace act)) then Err (NestedGraphNamespace (graph_namespace act)) else
  base ← match base with
         | Some e => if negb (bool_decide (base_checkpoint act = e)) then Err MixedBaseCheckpoints else Ok (Some e)
         | None => Ok (Some (base_checkpoint act))
         end;
  if bs_contains (head_key value) identities then Err (DuplicateActivation (graph_namespace act) (act_node_id act)) else
  Ok (collected ++ [value], bs_insert (head_key value) identities, base).

Definition heads_try_new (values : list PendingNodeResultHead) : result BarrierResultHeadsError BarrierResultHeads :=
  '(collected, _, _) ← try_fold heads_step ([], [], None) values;
  if (length collected =? 0)%nat then Err HeadsEmpty else
  Ok (sort_by_key head_key collected).

(** * Barriers *)

Record CheckpointBarrier := mkBarrier {
  barrier_base : HeadT;
  base_ready_nodes : ReadyNodes;
  result_heads : BarrierResultHeads;
  successor : CheckpointWrite Capability Schema;
  barrier_digest : Digest
}.

Record CheckpointBarrierDigestWire := mkBarrierWire {
  wire_base_checkpoint : HeadT;
  wire_base_ready_nodes : ReadyNodes;
  wire_result_heads : BarrierResultHeads;
  wire_successor_intent_digest : Digest
}.

Definition observe_head (base : HeadT) (ready : ReadyNodes) (observed : list NodeId) (h : PendingNodeResultHead)
  : result CheckpointBarrierError (list NodeId) :=
  let act := rh_activation h in
  if negb (bool_decide (base_checkpoint act = base)) then Err BarrierResultBaseMismatch else
  if negb (bs_contains (act_node_id act) ready) then Err (UnexpectedResultNode (act_node_id act)) else
  Ok (bs_insert (act_node_id act) observed).

Definition check_observed (observed : list NodeId) (_ : unit) (id : NodeId) : result CheckpointBarrierError unit :=
  if bs_contains id observed then Ok tt else Err (BarrierMissingResultNode id).

Definition validate_barrier_shape (base : HeadT) (ready : ReadyNodes) (heads : BarrierResultHeads)
  (succ : CheckpointWrite Capability Schema) : result CheckpointBarrierError unit :=
  if (length ready =? 0)%nat then Err EmptyReadySet else
  if negb (bool_decide (write_parent succ = Some base)) then Err SuccessorParentMismatch else
  observed ← try_fold (observe_head base ready) [] heads;
  try_fold (check_observed observed) tt ready.

Context `{Canonical ReadyNodeInputDigestWire, Canonical CheckpointBarrierDigestWire}.
Variable sha256 : bytes -> bytes.

Definition compute_ready_node_input_digest (d : Digest) (ns : GraphNamespace) (id : NodeId) : result NodeActivationError Digest :=
  canonical ← ok_or (to_vec (mkInputWire d ns id)) ActivationSerialization;
  Ok (sha256 (READY_NODE_INPUT_DIGEST_DOMAIN ++ canonical)).

Definition for_ready_root (c : CheckpointT) (id : NodeId) : result NodeActivationError NodeActivation :=
  if negb (bs_contains id (ready_nodes c)) then Err (NodeNotReady id) else
  d ← compute_ready_node_input_digest (digest c) namespace_root id;
  Ok (mkActivation (head c) namespace_root id d).

Definition barrier_build (base : HeadT) (ready : ReadyNodes) (heads : BarrierResultHeads)
  (succ : CheckpointWrite Capability Schema) (supplied : option Digest) : result CheckpointBarrierError CheckpointBarrier :=
  _ ← validate_barrier_shape base ready heads succ;
  canonical ← ok_or (to_vec (mkBarrierWire base ready heads (write_intent_digest succ))) BarrierSerialization;
  let d := sha256 (BARRIER_INTENT_DIGEST_DOMAIN ++ canonical) in
  if supplied_differs supplied d then Err BarrierDigestMismatch else
  Ok (mkBarrier base ready heads succ d).

Definition barrier_new (base : CheckpointT) (succ : CheckpointWrite Capability Schema) (heads : list PendingNodeResultHead)
  : result CheckpointBarrierError CheckpointBarrier :=
  heads ← map_err Results (heads_try_new heads);
  barrier_build (head base) (ready_nodes base) heads succ None.

Definition barrier_restore (base : HeadT) (ready : ReadyNodes) (heads : BarrierResultHeads)
  (succ : CheckpointWrite Capability Schema) (d : Digest) : result CheckpointBarrierError CheckpointBarrier :=
  barrier_build base ready heads succ (Some d).
End Results.
Arguments NodeActivation : clear implicits.
Arguments NodeStateUpdate : clear implicits.
Arguments NodeTerminalOutput : clear implicits.
Arguments NodeStateChange : clear implicits.
Arguments NodeWait : clear implicits.
Arguments NodeWaits : clear implicits.
Arguments NodeControl : clear implicits.
Arguments PendingNodeResultIntent : clear implicits.
Arguments PendingNodeResult : clear implicits.
Arguments PendingNodeResultHead : clear implicits.
Arguments BarrierResultHeads : clear implicits.
Arguments CheckpointBarrier : clear implicits.
Arguments CheckpointBarrierDigestWire : clear implicits.
