(* ===== verification/Message.v ===== *)
(** Instructions and messages (crates/stateknot-core/src/message.rs): who may
    speak in which role, from which source content may come, and the bounds of a
    message.  [Digest::sha256] is the parameter [sha256]. *)

From Stdlib Require Import ZArith Lia List.
From stdpp Require Import prelude.
From S2P Require Import Prelude Ordered Json Ids Decimal Digests BoundedJson Accounting Content Capability.

Open Scope Z_scope.
Import Version(Version).

Module Messages.
Import Text Content Capability Artifact.

(** * Instructions *)

Inductive InstructionNameError := NameEmpty | NameTooLong (max actual : Z) | NameInvalidStart | NameInvalidByte (index : nat).
Definition INSTRUCTION_NAME_MAX_LEN : Z := 128.

Definition name_byte (b : Z) : bool := is_ascii_alphanumeric b || (b =? 95) || (b =? 45) || (b =? 46).

Definition validate_instruction_name (value : bytes) : result InstructionNameError unit :=
  match value with
  | [] => Err NameEmpty
  | first :: rest =>
      if INSTRUCTION_NAME_MAX_LEN <? Z.of_nat (length value)
      then Err (NameTooLong INSTRUCTION_NAME_MAX_LEN (Z.of_nat (length value))) else
      if negb (is_ascii_alphanumeric first) then Err NameInvalidStart else
      match position (fun byte => negb (name_byte byte)) rest with
      | Some index => Err (NameInvalidByte (S index))
      | None => Ok tt
      end
  end.

Record InstructionIdentity := mkInstructionIdentity { instruction_name : bytes; instruction_version : Version }.
#[global] Instance InstructionIdentity_eq_dec : EqDecision InstructionIdentity.
Proof. solve_decision. Defined.

Inductive InstructionContent := ICText (content : TextContent) | ICArtifact (content : ArtifactRef).

Definition instruction_metadata (self : InstructionContent) : ContentMetadata :=
  match self with ICText content => text_metadata content | ICArtifact content => art_metadata content end.

Record Instruction := mkInstruction {
  instruction_identity : InstructionIdentity;
  content_digest : Digest;
  instruction_content : InstructionContent;
  instruction_owner : PrincipalIdentity
}.
#[global] Instance TextContent_eq_dec : EqDecision TextContent.
Proof. solve_decision. Defined.
#[global] Instance InstructionContent_eq_dec : EqDecision InstructionContent.
Proof. solve_decision. Defined.
#[global] Instance Instruction_eq_dec : EqDecision Instruction.
Proof. solve_decision. Defined.

Inductive InstructionError :=
| TextNotApplicationControlled (actual_source : ContentSource) (trust : ContentTrust)
| ArtifactNotApplicationControlled (actual : ContentTrust)
| ContentDigestMismatch.

Definition validate_instruction_content (content : InstructionContent) : result InstructionError unit :=
  let meta := instruction_metadata content in
  match content with
  | ICText _ =>
      if negb (bool_decide (source meta = SApplication)) || negb (bool_decide (trust meta = ApplicationControlled))
      then Err (TextNotApplicationControlled (source meta) (trust meta)) else Ok tt
  | ICArtifact _ =>
      if negb (bool_decide (trust meta = ApplicationControlled)) then Err (ArtifactNotApplicationControlled (trust meta)) else Ok tt
  end.

(** [as_bytes] of a text: its UTF-8 encoding. *)
Definition encode_scalar (c : Z) : bytes :=
  if c <? 128 then [c] else
  if c <? 2048 then [Z.lor 192 (Z.shiftr c 6); Z.lor 128 (Z.land c 63)] else
  if c <? 65536 then [Z.lor 224 (Z.shiftr c 12); Z.lor 128 (Z.land (Z.shiftr c 6) 63); Z.lor 128 (Z.land c 63)] else
  [Z.lor 240 (Z.shiftr c 18); Z.lor 128 (Z.land (Z.shiftr c 12) 63); Z.lor 128 (Z.land (Z.shiftr c 6) 63); Z.lor 128 (Z.land c 63)].
Definition text_bytes (t : text) : bytes := concat (map encode_scalar t).

Section Instructions.
Variable sha256 : bytes -> Digest.

Definition instruction_digest (self : InstructionContent) : Digest :=
  match self with
  | ICText content => sha256 (text_bytes (content_text content))
  | ICArtifact content => representation_digest (representation content)
  end.

Definition instruction_new (id : InstructionIdentity) (content : InstructionContent) (owner : PrincipalIdentity)
  : result InstructionError Instruction :=
  _ ← validate_instruction_content content;
  Ok (mkInstruction id (instruction_digest content) content owner).

(** [Deserialize for Instruction]. *)
Definition instruction_restore (wire : Instruction) : result InstructionError Instruction :=
  instruction ← instruction_new (instruction_identity wire) (instruction_content wire) (instruction_owner wire);
  if negb (bool_decide (content_digest instruction = content_digest wire)) then Err ContentDigestMismatch else Ok instruction.
End Instructions.

(** * Messages *)

Inductive MessageRole := RUser | RAssistant | RTool.
Inductive MessageProducerKind := PPrincipal | PModelAttempt | PCapability | PToolInvocation.

Inductive MessageProducer :=
| ProducedByPrincipal (principal : PrincipalIdentity)
| ProducedByModel (attempt_id : Z)
| ProducedByCapability (owner : PrincipalIdentity) (capability : CapabilityReference)
| ProducedByTool (owner : PrincipalIdentity) (capability : CapabilityReference) (invocation_id : Z).

Definition producer_kind (self : MessageProducer) : MessageProducerKind :=
  match self with
  | ProducedByPrincipal _ => PPrincipal
  | ProducedByModel _ => PModelAttempt
  | ProducedByCapability _ _ => PCapability
  | ProducedByTool _ _ _ => PToolInvocation
  end.

Record MessageProvenance := mkMessageProvenance { message_run_id : Z; message_event_id : Z; message_producer : MessageProducer }.

Record MessageParts := mkParts { parts : list ContentPart; parts_payload_bytes : Z }.

Definition MAX_PARTS : Z := 64.
Definition MAX_INLINE_PAYLOAD_BYTES : Z := 2 * MEBIBYTE.

Inductive MessagePartsError := PartsEmpty | PartsTooMany (max actual : Z) | InlinePayloadTooLarge (max actual : Z).

Definition push_message_part (st : MessageParts) (part : ContentPart) : result MessagePartsError MessageParts :=
  if Z.of_nat (length (parts st)) =? MAX_PARTS then Err (PartsTooMany MAX_PARTS (MAX_PARTS + 1)) else
  let actual := saturating_add u64_max (parts_payload_bytes st) (inline_payload_bytes part) in
  if MAX_INLINE_PAYLOAD_BYTES <? actual then Err (InlinePayloadTooLarge MAX_INLINE_PAYLOAD_BYTES actual) else
  Ok (mkParts (parts st ++ [part]) actual).

Definition parts_try_new (values : list ContentPart) : result MessagePartsError MessageParts :=
  st ← try_fold push_message_part (mkParts [] 0) values;
  if (length (parts st) =? 0)%nat then Err PartsEmpty else Ok st.

Record Message := mkMessage {
  message_id : Z;
  role : MessageRole;
  message_parts : MessageParts;
  message_provenance : MessageProvenance
}.
#[global] Instance MessageProducer_eq_dec : EqDecision MessageProducer.
Proof. solve_decision. Defined.
#[global] Instance MessageRole_eq_dec : EqDecision MessageRole.
Proof. solve_decision. Defined.
#[global] Instance MessageProvenance_eq_dec : EqDecision MessageProvenance.
Proof. solve_decision. Defined.
#[global] Instance JsonContent_eq_dec : EqDecision JsonContent.
Proof. solve_decision. Defined.
#[global] Instance ContentPart_eq_dec : EqDecision ContentPart.
Proof. solve_decision. Defined.
#[global] Instance MessageParts_eq_dec : EqDecision MessageParts.
Proof. solve_decision. Defined.
#[global] Instance Message_eq_dec : EqDecision Message.
Proof. solve_decision. Defined.

Inductive MessageError :=
| ProducerRoleMismatch (role : MessageRole) (producer : MessageProducerKind)
| ContentSourceRoleMismatch (index : Z) (role : MessageRole) (actual_source : ContentSource).

Definition role_accepts_producer (r : MessageRole) (producer : MessageProducerKind) : bool :=
  match r, producer with
  | RUser, PPrincipal | RAssistant, PModelAttempt | RAssistant, PCapability | RTool, PToolInvocation => true
  | _, _ => false
  end.

Definition role_accepts_content_source (r : MessageRole) (src : ContentSource) : bool :=
  match r, src with
  | _, SArtifact => true
  | RUser, (SUser | SRemoteAgent | SApplication) => true
  | RAssistant, (SModel | SRemoteAgent | SApplication) => true
  | RTool, STool => true
  | _, _ => false
  end.

Fixpoint check_sources (index : Z) (r : MessageRole) (l : list ContentPart) : result MessageError unit :=
  match l with
  | [] => Ok tt
  | part :: l' =>
      let src := source (part_metadata part) in
      if negb (role_accepts_content_source r src) then Err (ContentSourceRoleMismatch index r src) else check_sources (index + 1) r l'
  end.

Definition message_new (id : Z) (r : MessageRole) (ps : MessageParts) (prov : MessageProvenance) : result MessageError Message :=
  let kind := producer_kind (message_producer prov) in
  if negb (role_accepts_producer r kind) then Err (ProducerRoleMismatch r kind) else
  _ ← check_sources 0 r (parts ps);
  Ok (mkMessage id r ps prov).

End Messages.
