(* ===== verification/Model.v ===== *)
(** Model capability contracts (crates/stateknot-core/src/model.rs): modalities,
    tool choices, token limits, capability declarations, requirements, and the
    negotiation that reports every requirement a model does not meet.

    The sets are [BTreeSet]s of enums, ordered as the enums derive it. *)

From Stdlib Require Import ZArith Lia List.
From stdpp Require Import prelude.
From S2P Require Import Prelude Ordered Content Accounting Capability.

Open Scope Z_scope.

Module Models.
Import Content Capability.

(** * Modalities and tool choices *)

Inductive ModelModality := MText | MImage | MAudio | MVideo | MDocument.
Definition modality_rank (m : ModelModality) : Z :=
  match m with MText => 0 | MImage => 1 | MAudio => 2 | MVideo => 3 | MDocument => 4 end.
#[global] Instance ModelModality_ord : RustOrd ModelModality.
Proof. apply (ord_via modality_rank). by intros [] []. Defined.

Inductive ModelToolChoice := CAuto | CNone | CRequired | CSpecific.
Definition choice_rank (c : ModelToolChoice) : Z := match c with CAuto => 0 | CNone => 1 | CRequired => 2 | CSpecific => 3 end.
#[global] Instance ModelToolChoice_ord : RustOrd ModelToolChoice.
Proof. apply (ord_via choice_rank). by intros [] []. Defined.

Definition ModelModalities := list ModelModality.
Definition ModelToolChoices := list ModelToolChoice.
Definition MODALITIES_MAX_LEN : Z := 5.
Definition CHOICES_MAX_LEN : Z := 4.

(** [ModelModalitiesError] and [ModelToolChoicesError]. *)
Inductive EnumSetError (A : Type) := SetDuplicate (value : A) | SetTooMany (max observed : Z).
Arguments SetDuplicate {A}. Arguments SetTooMany {A}.

Section Sets.
Context {A : Type} `{RustOrd A}.
Variable maximum : Z.

Definition enum_set_step (values : list A) (value : A) : result (EnumSetError A) (list A) :=
  if bs_contains value values then Err (SetDuplicate value) else
  if Z.of_nat (length values) =? maximum then Err (SetTooMany maximum (maximum + 1)) else
  Ok (bs_insert value values).

Definition enum_set_try_new (values : list A) : result (EnumSetError A) (list A) := try_fold enum_set_step [] values.
End Sets.

Definition modalities_try_new (l : list ModelModality) : result (EnumSetError ModelModality) ModelModalities :=
  enum_set_try_new MODALITIES_MAX_LEN l.
Definition choices_try_new (l : list ModelToolChoice) : result (EnumSetError ModelToolChoice) ModelToolChoices :=
  enum_set_try_new CHOICES_MAX_LEN l.

(** * Capabilities *)

Record ModelTokenLimits := mkTokenLimits {
  max_context_tokens : option Count.Count;
  max_input_tokens : option Count.Count;
  max_output_tokens : option Count.Count
}.

Inductive ModelTokenLimitsError :=
| ZeroContext | ZeroInput | ZeroOutput
| InputExceedsContext (input context : Count.Count)
| OutputExceedsContext (output context : Count.Count).

Definition known_zero (o : option Count.Count) : bool := match o with Some v => v =? 0 | None => false end.
Definition within_context {E} (context value : option Count.Count) (e : Count.Count -> Count.Count -> E) : result E unit :=
  match context, value with
  | Some c, Some v => if c <? v then Err (e v c) else Ok tt
  | _, _ => Ok tt
  end.

Definition token_limits_new (context input output : option Count.Count) : result ModelTokenLimitsError ModelTokenLimits :=
  if known_zero context then Err ZeroContext else
  if known_zero input then Err ZeroInput else
  if known_zero output then Err ZeroOutput else
  _ ← within_context context input InputExceedsContext;
  _ ← within_context context output OutputExceedsContext;
  Ok (mkTokenLimits context input output).

Definition token_limits_unknown : ModelTokenLimits := mkTokenLimits None None None.

Record ModelToolCapabilities := mkToolCapabilities {
  tool_schema_profile : option SchemaReference;
  max_definitions : Count.Count;
  max_calls_per_response : Count.Count;
  tool_choices : ModelToolChoices;
  strict_arguments : bool
}.

Inductive ModelToolCapabilitiesError := UnsupportedHasCapabilities | ZeroDefinitions | ZeroCallsPerResponse | MissingAutoChoice.

Definition tool_capabilities_new (profile : option SchemaReference) (definitions calls : Count.Count) (choices : ModelToolChoices) (strict : bool)
  : result ModelToolCapabilitiesError ModelToolCapabilities :=
  match profile with
  | None =>
      if negb (definitions =? 0) || negb (calls =? 0) || negb (length choices =? 0)%nat || strict then Err UnsupportedHasCapabilities
      else Ok (mkToolCapabilities profile definitions calls choices strict)
  | Some _ =>
      if definitions =? 0 then Err ZeroDefinitions else
      if calls =? 0 then Err ZeroCallsPerResponse else
      if negb (bs_contains CAuto choices) then Err MissingAutoChoice else
      Ok (mkToolCapabilities profile definitions calls choices strict)
  end.

Definition tool_capabilities_unsupported : ModelToolCapabilities := mkToolCapabilities None 0 0 [] false.
Definition supports_tool_calling (self : ModelToolCapabilities) : bool := negb (is_none (tool_schema_profile self)).
Definition supports_parallel_calls (self : ModelToolCapabilities) : bool := 1 <? max_calls_per_response self.

Inductive ModelStructuredOutputLevel := SUnsupported | SJson | SJsonSchema.
Definition level_rank (l : ModelStructuredOutputLevel) : Z := match l with SUnsupported => 0 | SJson => 1 | SJsonSchema => 2 end.
#[global] Instance ModelStructuredOutputLevel_ord : RustOrd ModelStructuredOutputLevel.
Proof. apply (ord_via level_rank). by intros [] []. Defined.

Record ModelStructuredOutputCapabilities := mkStructured { level : ModelStructuredOutputLevel; structured_profile : option SchemaReference }.

Inductive ModelStructuredOutputCapabilitiesError := MissingSchemaProfile | UnexpectedSchemaProfile.

Definition structured_new (l : ModelStructuredOutputLevel) (profile : option SchemaReference)
  : result ModelStructuredOutputCapabilitiesError ModelStructuredOutputCapabilities :=
  match l, profile with
  | SJsonSchema, None => Err MissingSchemaProfile
  | (SUnsupported | SJson), Some _ => Err UnexpectedSchemaProfile
  | _, _ => Ok (mkStructured l profile)
  end.

Record ModelCapabilities := mkModelCapabilities {
  input_modalities : ModelModalities;
  output_modalities : ModelModalities;
  streaming : bool;
  tools : ModelToolCapabilities;
  structured_output : ModelStructuredOutputCapabilities;
  reasoning_summaries : bool;
  token_limits : ModelTokenLimits
}.

Inductive ModelCapabilitiesError :=
| EmptyInputModalities | EmptyOutputModalities | ToolCallingRequiresTextInput | ToolCallingRequiresTextOutput
| StructuredOutputRequiresTextOutput | ReasoningSummaryRequiresTextOutput.

Definition capabilities_new (input output : ModelModalities) (stream : bool) (t : ModelToolCapabilities)
    (structured : ModelStructuredOutputCapabilities) (reasoning : bool) (lim : ModelTokenLimits)
  : result ModelCapabilitiesError ModelCapabilities :=
  if (length input =? 0)%nat then Err EmptyInputModalities else
  if (length output =? 0)%nat then Err EmptyOutputModalities else
  if supports_tool_calling t && negb (bs_contains MText input) then Err ToolCallingRequiresTextInput else
  if supports_tool_calling t && negb (bs_contains MText output) then Err ToolCallingRequiresTextOutput else
  if negb (eqb_cmp (level structured) SUnsupported) && negb (bs_contains MText output) then Err StructuredOutputRequiresTextOutput else
  if reasoning && negb (bs_contains MText output) then Err ReasoningSummaryRequiresTextOutput else
  Ok (mkModelCapabilities input output stream t structured reasoning lim).

Record ModelDescriptor := mkModelDescriptor { model_metadata : CapabilityMetadata; capabilities : ModelCapabilities }.

Inductive ModelDescriptorError := WrongCapabilityKind (actual : CapabilityKind).

Definition model_descriptor_new (meta : CapabilityMetadata) (caps : ModelCapabilities) : result ModelDescriptorError ModelDescriptor :=
  if negb (bool_decide (kind meta = KModel)) then Err (WrongCapabilityKind (kind meta)) else Ok (mkModelDescriptor meta caps).

Definition model_identity (d : ModelDescriptor) : CapabilityIdentity := identity (model_metadata d).

(** * Requirements *)

Record ModelToolRequirements := mkToolRequirements {
  min_definitions : Count.Count;
  min_calls_per_response : Count.Count;
  required_choices : ModelToolChoices;
  requires_strict_arguments : bool
}.

Inductive ModelToolRequirementsError := CapacityMismatch | InactiveHasRequirements.

Definition tool_requirements_new (definitions calls : Count.Count) (choices : ModelToolChoices) (strict : bool)
  : result ModelToolRequirementsError ModelToolRequirements :=
  let disabled_with_definitions :=
    negb (definitions =? 0) && (calls =? 0) && (length choices =? 1)%nat && bs_contains CNone choices && negb strict in
  if negb (Bool.eqb (definitions =? 0) (calls =? 0)) && negb disabled_with_definitions then Err CapacityMismatch else
  if (definitions =? 0) && (negb (length choices =? 0)%nat || strict) then Err InactiveHasRequirements else
  Ok (mkToolRequirements definitions calls choices strict).

Definition tool_requirements_none : ModelToolRequirements := mkToolRequirements 0 0 [] false.
Definition requires_tool_calling (self : ModelToolRequirements) : bool := negb (min_definitions self =? 0).

Record ModelRequirements := mkRequirements {
  req_input_modalities : ModelModalities;
  req_output_modalities : ModelModalities;
  req_streaming : bool;
  req_tools : ModelToolRequirements;
  req_structured_output : ModelStructuredOutputLevel;
  req_reasoning_summaries : bool;
  min_context_tokens : option Count.Count;
  min_input_tokens : option Count.Count;
  min_output_tokens : option Count.Count
}.

Inductive ModelRequirementsError := ZeroContextTokens | ZeroInputTokens | ZeroOutputTokens.

Definition requirements_new (wire : ModelRequirements) : result ModelRequirementsError ModelRequirements :=
  if known_zero (min_context_tokens wire) then Err ZeroContextTokens else
  if known_zero (min_input_tokens wire) then Err ZeroInputTokens else
  if known_zero (min_output_tokens wire) then Err ZeroOutputTokens else Ok wire.

Definition requirements_default : ModelRequirements :=
  mkRequirements [] [] false tool_requirements_none SUnsupported false None None None.

(** * Unmet requirements *)

Inductive ModelCapabilityIssue :=
| IInputModality (required : ModelModality)
| IOutputModality (required : ModelModality)
| IStreaming
| IToolCalling
| IToolDefinitions (required available : Count.Count)
| IToolCallsPerResponse (required available : Count.Count)
| IToolChoice (required : ModelToolChoice)
| IStrictToolArguments
| IStructuredOutput (required available : ModelStructuredOutputLevel)
| IReasoningSummary
| IContextTokens (required : Count.Count) (available : option Count.Count)
| IInputTokens (required : Count.Count) (available : option Count.Count)
| IOutputTokens (required : Count.Count) (available : option Count.Count).

(** The derived order: the variant, then its fields; [None] is before [Some]. *)
Definition option_fields (o : option Z) : list Z := match o with None => [0] | Some v => [1; v] end.
Definition issue_key (i : ModelCapabilityIssue) : list Z :=
  match i with
  | IInputModality r => [0; modality_rank r]
  | IOutputModality r => [1; modality_rank r]
  | IStreaming => [2]
  | IToolCalling => [3]
  | IToolDefinitions r a => [4; r; a]
  | IToolCallsPerResponse r a => [5; r; a]
  | IToolChoice r => [6; choice_rank r]
  | IStrictToolArguments => [7]
  | IStructuredOutput r a => [8; level_rank r; level_rank a]
  | IReasoningSummary => [9]
  | IContextTokens r a => [10; r] ++ option_fields a
  | IInputTokens r a => [11; r] ++ option_fields a
  | IOutputTokens r a => [12; r] ++ option_fields a
  end.

Lemma issue_key_inj a b : issue_key a = issue_key b -> a = b.
Proof.
  destruct a, b; simpl; try done;
    try (by intros [= -> ->]);
    repeat match goal with
    | |- context [modality_rank ?x] => is_var x; destruct x
    | |- context [choice_rank ?x] => is_var x; destruct x
    | |- context [level_rank ?x] => is_var x; destruct x
    | |- context [option_fields ?x] => is_var x; destruct x
    end; simpl; intros [=]; subst; done.
Qed.

#[global] Instance ModelCapabilityIssue_ord : RustOrd ModelCapabilityIssue.
Proof. apply (ord_via issue_key issue_key_inj). Defined.

Definition known_capacity_satisfies (available : option Count.Count) (required : Count.Count) : bool :=
  match available with Some a => required <=? a | None => false end.

Definition note (missing : bool) (issue : ModelCapabilityIssue) (unmet : list ModelCapabilityIssue) : list ModelCapabilityIssue :=
  if missing then bs_insert issue unmet else unmet.

(** The loops over required modalities and choices. *)
Definition note_missing {A} `{RustOrd A} (available required : list A) (issue : A -> ModelCapabilityIssue)
    (unmet : list ModelCapabilityIssue) : list ModelCapabilityIssue :=
  fold_left (fun unmet r => note (negb (bs_contains r available)) (issue r) unmet) required unmet.

Definition note_tokens (available required : option Count.Count) (issue : Count.Count -> option Count.Count -> ModelCapabilityIssue)
    (unmet : list ModelCapabilityIssue) : list ModelCapabilityIssue :=
  match required with
  | Some r => note (negb (known_capacity_satisfies available r)) (issue r available) unmet
  | None => unmet
  end.

Definition note_tools (self : ModelToolCapabilities) (req : ModelToolRequirements) (unmet : list ModelCapabilityIssue)
  : list ModelCapabilityIssue :=
  if negb (requires_tool_calling req) then unmet else
  let unmet := note (negb (supports_tool_calling self)) IToolCalling unmet in
  let unmet := note (max_definitions self <? min_definitions req) (IToolDefinitions (min_definitions req) (max_definitions self)) unmet in
  let unmet := note (max_calls_per_response self <? min_calls_per_response req)
                 (IToolCallsPerResponse (min_calls_per_response req) (max_calls_per_response self)) unmet in
  let unmet := note_missing (tool_choices self) (required_choices req) IToolChoice unmet in
  note (requires_strict_arguments req && negb (strict_arguments self)) IStrictToolArguments unmet.

Definition unmet_requirements (self : ModelCapabilities) (req : ModelRequirements) : list ModelCapabilityIssue :=
  let unmet := note_missing (input_modalities self) (req_input_modalities req) IInputModality [] in
  let unmet := note_missing (output_modalities self) (req_output_modalities req) IOutputModality unmet in
  let unmet := note (req_streaming req && negb (streaming self)) IStreaming unmet in
  let unmet := note_tools (tools self) (req_tools req) unmet in
  let available := level (structured_output self) in
  let required := req_structured_output req in
  let unmet := note (match cmp available required with Lt => true | _ => false end) (IStructuredOutput required available) unmet in
  let unmet := note (req_reasoning_summaries req && negb (reasoning_summaries self)) IReasoningSummary unmet in
  let unmet := note_tokens (max_context_tokens (token_limits self)) (min_context_tokens req) IContextTokens unmet in
  let unmet := note_tokens (max_input_tokens (token_limits self)) (min_input_tokens req) IInputTokens unmet in
  note_tokens (max_output_tokens (token_limits self)) (min_output_tokens req) IOutputTokens unmet.

(** [ModelCapabilityMismatch]: a non-empty set of issues. *)
Definition ModelCapabilityMismatch := list ModelCapabilityIssue.

Definition satisfies (self : ModelCapabilities) (req : ModelRequirements) : result ModelCapabilityMismatch unit :=
  let unmet := unmet_requirements self req in
  if (length unmet =? 0)%nat then Ok tt else Err unmet.

(** ** Restored mismatches *)

Definition option_below (required : Count.Count) (available : option Count.Count) : bool :=
  match available with Some a => a <? required | None => true end.

Definition is_coherent (self : ModelCapabilityIssue) : bool :=
  match self with
  | IToolDefinitions r a | IToolCallsPerResponse r a => negb (r =? 0) && (a <? r)
  | IStructuredOutput r a => match cmp a r with Lt => true | _ => false end
  | IContextTokens r a | IInputTokens r a | IOutputTokens r a => negb (r =? 0) && option_below r a
  | _ => true
  end.

Definition has_same_dimension (self other : ModelCapabilityIssue) : bool :=
  match self, other with
  | IInputModality l, IInputModality r | IOutputModality l, IOutputModality r => eqb_cmp l r
  | IToolChoice l, IToolChoice r => eqb_cmp l r
  | IStreaming, IStreaming | IToolCalling, IToolCalling | IToolDefinitions _ _, IToolDefinitions _ _
  | IToolCallsPerResponse _ _, IToolCallsPerResponse _ _ | IStrictToolArguments, IStrictToolArguments
  | IStructuredOutput _ _, IStructuredOutput _ _ | IReasoningSummary, IReasoningSummary | IContextTokens _ _, IContextTokens _ _
  | IInputTokens _ _, IInputTokens _ _ | IOutputTokens _ _, IOutputTokens _ _ => true
  | _, _ => false
  end.

Definition MAX_ISSUES : Z := 32.

Inductive ModelCapabilityMismatchError :=
| MismatchEmpty
| MismatchDuplicate (issue : ModelCapabilityIssue)
| DuplicateDimension (issue : ModelCapabilityIssue)
| IncoherentIssue (issue : ModelCapabilityIssue)
| MismatchTooMany (max observed : Z).

Definition mismatch_step (values : list ModelCapabilityIssue) (issue : ModelCapabilityIssue)
  : result ModelCapabilityMismatchError (list ModelCapabilityIssue) :=
  if negb (is_coherent issue) then Err (IncoherentIssue issue) else
  if bs_contains issue values then Err (MismatchDuplicate issue) else
  if existsb (fun existing => has_same_dimension existing issue) values then Err (DuplicateDimension issue) else
  if Z.of_nat (length values) =? MAX_ISSUES then Err (MismatchTooMany MAX_ISSUES (MAX_ISSUES + 1)) else
  Ok (bs_insert issue values).

Definition mismatch_try_new (issues : list ModelCapabilityIssue) : result ModelCapabilityMismatchError ModelCapabilityMismatch :=
  values ← try_fold mismatch_step [] issues;
  if (length values =? 0)%nat then Err MismatchEmpty else Ok values.

End Models.

(** Laws of model capability negotiation ([Model.v]): what [satisfies] reports is
    exactly the set of unmet requirements, and such a report restores to
    itself. *)

Module Negotiation.
Import Content Capability Models.

(** What it means that one requirement is not met. *)
Definition unmet_tokens (available required : option Count.Count) (r : Count.Count) (a : option Count.Count) : Prop :=
  required = Some r /\ a = available /\ forall v, available = Some v -> v < r.

Definition unmet_issue (c : ModelCapabilities) (q : ModelRequirements) (i : ModelCapabilityIssue) : Prop :=
  let t := tools c in
  let rt := req_tools q in
  let active := min_definitions rt <> 0 in
  match i with
  | IInputModality r => r ∈ req_input_modalities q /\ r ∉ input_modalities c
  | IOutputModality r => r ∈ req_output_modalities q /\ r ∉ output_modalities c
  | IStreaming => req_streaming q = true /\ streaming c = false
  | IToolCalling => active /\ tool_schema_profile t = None
  | IToolDefinitions r a => active /\ r = min_definitions rt /\ a = max_definitions t /\ a < r
  | IToolCallsPerResponse r a => active /\ r = min_calls_per_response rt /\ a = max_calls_per_response t /\ a < r
  | IToolChoice r => active /\ r ∈ required_choices rt /\ r ∉ tool_choices t
  | IStrictToolArguments => active /\ requires_strict_arguments rt = true /\ strict_arguments t = false
  | IStructuredOutput r a => r = req_structured_output q /\ a = level (structured_output c) /\ level_rank a < level_rank r
  | IReasoningSummary => req_reasoning_summaries q = true /\ reasoning_summaries c = false
  | IContextTokens r a => unmet_tokens (max_context_tokens (token_limits c)) (min_context_tokens q) r a
  | IInputTokens r a => unmet_tokens (max_input_tokens (token_limits c)) (min_input_tokens q) r a
  | IOutputTokens r a => unmet_tokens (max_output_tokens (token_limits c)) (min_output_tokens q) r a
  end.

(** * The reported set *)

Lemma note_elem b i u x : x ∈ note b i u <-> (b = true /\ x = i) \/ x ∈ u.
Proof. unfold note. destruct b; [rewrite bs_insert_elem |]; naive_solver. Qed.

Lemma note_missing_elem {A} `{RustOrd A} (av req : list A) f u x :
  x ∈ note_missing av req f u <-> (exists r, r ∈ req /\ r ∉ av /\ x = f r) \/ x ∈ u.
Proof.
  unfold note_missing. revert u. induction req as [|r req IH]; intros u; simpl; [set_solver |].
  rewrite IH, note_elem, negb_true_iff, bs_contains_false. set_solver.
Qed.

Lemma capacity_short a r : known_capacity_satisfies a r = false <-> forall v, a = Some v -> v < r.
Proof.
  unfold known_capacity_satisfies. destruct a as [v|]; [| naive_solver]. rewrite Z.leb_gt. naive_solver.
Qed.

Lemma note_tokens_elem av req f u x :
  x ∈ note_tokens av req f u <-> (exists r, req = Some r /\ (forall v, av = Some v -> v < r) /\ x = f r av) \/ x ∈ u.
Proof.
  unfold note_tokens. destruct req as [r|]; [| naive_solver]. rewrite note_elem, negb_true_iff, capacity_short. naive_solver.
Qed.

Lemma note_sorted b i u : ksorted (fun x : ModelCapabilityIssue => x) u -> ksorted (fun x : ModelCapabilityIssue => x) (note b i u).
Proof. unfold note. destruct b; [apply bs_insert_sorted | done]. Qed.

Lemma note_missing_sorted {A} `{RustOrd A} (av req : list A) f u :
  ksorted (fun x : ModelCapabilityIssue => x) u -> ksorted (fun x : ModelCapabilityIssue => x) (note_missing av req f u).
Proof. unfold note_missing. revert u. induction req as [|r req IH]; intros u Hu; [done |]. by apply IH, note_sorted. Qed.

Lemma note_tokens_sorted av req f u :
  ksorted (fun x : ModelCapabilityIssue => x) u -> ksorted (fun x : ModelCapabilityIssue => x) (note_tokens av req f u).
Proof. unfold note_tokens. destruct req; [apply note_sorted | done]. Qed.

Lemma note_length b i u : (length (note b i u) <= S (length u))%nat.
Proof.
  unfold note. destruct b; [| lia]. induction u as [|x u IH]; simpl; [lia |]. destruct (cmp i x); simpl; lia.
Qed.

Lemma note_missing_length {A} `{RustOrd A} (av req : list A) f u :
  (length (note_missing av req f u) <= length req + length u)%nat.
Proof.
  unfold note_missing. revert u. induction req as [|r req IH]; intros u; simpl; [lia |].
  etrans; [apply IH |]. pose proof (note_length (negb (bs_contains r av)) (f r) u). lia.
Qed.

Lemma note_tokens_length av req f u : (length (note_tokens av req f u) <= S (length u))%nat.
Proof. unfold note_tokens. destruct req; [apply note_length | lia]. Qed.

Lemma level_below a r : match cmp a r with Lt => true | _ => false end = true <-> level_rank a < level_rank r.
Proof. by destruct a, r. Qed.

Lemma unmet_elem c q i : i ∈ unmet_requirements c q <-> unmet_issue c q i.
Proof.
  unfold unmet_requirements. rewrite !note_tokens_elem, !note_elem, level_below. unfold note_tools, requires_tool_calling, unmet_issue, unmet_tokens.
  destruct (Z.eqb_spec (min_definitions (req_tools q)) 0) as [E|E]; simpl; rewrite ?note_elem, ?note_missing_elem, ?note_elem, ?note_missing_elem, ?elem_of_nil;
    unfold supports_tool_calling, is_none; rewrite ?negb_involutive, ?andb_true_iff, ?negb_true_iff, ?Z.ltb_lt;
    destruct i; try (destruct (tool_schema_profile (tools c))); naive_solver.
Qed.

Lemma unmet_sorted c q : ksorted (fun x : ModelCapabilityIssue => x) (unmet_requirements c q).
Proof.
  unfold unmet_requirements, note_tools. destruct (negb (requires_tool_calling _)); cbv zeta;
    repeat first [apply note_tokens_sorted | apply note_missing_sorted | apply note_sorted]; constructor.
Qed.

(** * Restoring a report *)

(** The invariant of constructed requirements and capabilities. *)
Definition requirements_wf (q : ModelRequirements) : Prop :=
  requirements_new q = Ok q /\ (length (req_input_modalities q) <= 5)%nat /\ (length (req_output_modalities q) <= 5)%nat /\
  (length (required_choices (req_tools q)) <= 4)%nat.

Definition capacities_wf (c : ModelCapabilities) : Prop :=
  0 <= max_definitions (tools c) /\ 0 <= max_calls_per_response (tools c).

Lemma known_zero_false o : known_zero o = false <-> forall v, o = Some v -> v <> 0.
Proof. destruct o as [v|]; simpl; [rewrite Z.eqb_neq |]; naive_solver. Qed.

Lemma requirements_new_Ok q q' :
  requirements_new q = Ok q' <->
  q' = q /\ (forall v, min_context_tokens q = Some v -> v <> 0) /\ (forall v, min_input_tokens q = Some v -> v <> 0) /\
  (forall v, min_output_tokens q = Some v -> v <> 0).
Proof.
  unfold requirements_new. rewrite <- !known_zero_false.
  destruct (known_zero _); [naive_solver |]. destruct (known_zero _); [naive_solver |]. destruct (known_zero _); naive_solver.
Qed.

Ltac bound_notes :=
  repeat match goal with
  | |- context [length (note_tokens ?a ?r ?f ?u)] =>
      generalize (note_tokens_length a r f u); generalize (length (note_tokens a r f u)); intro
  | |- context [length (note_missing ?a ?r ?f ?u)] =>
      generalize (note_missing_length a r f u); generalize (length (note_missing a r f u)); intro
  | |- context [length (note ?b ?i ?u)] => generalize (note_length b i u); generalize (length (note b i u)); intro
  end; simpl; intros; lia.

Lemma unmet_length c q : requirements_wf q -> (length (unmet_requirements c q) <= 32)%nat.
Proof.
  intros (_ & Hi & Ho & Hc). unfold unmet_requirements, note_tools. revert Hi Ho Hc.
  destruct (negb (requires_tool_calling _)); cbv zeta; bound_notes.
Qed.

Lemma unmet_coherent c q i : requirements_wf q -> capacities_wf c -> unmet_issue c q i -> is_coherent i = true.
Proof.
  intros [(_ & Hc & Hi & Ho)%requirements_new_Ok _] [Hd Hr].
  assert (Htok : forall av req r a, (forall v : Z, req = Some v -> v <> 0) -> unmet_tokens av req r a -> negb (r =? 0) && option_below r a = true).
  { intros av req r a Hz (Hq & -> & Hv). apply andb_true_iff. split; [by apply negb_true_iff, Z.eqb_neq, Hz |].
    destruct av as [v|]; simpl; [apply Z.ltb_lt; by apply Hv | done]. }
  destruct i; simpl; try done; try (intros H; eapply Htok; [| exact H]; done).
  - intros (_ & -> & -> & H). apply andb_true_iff. rewrite negb_true_iff, Z.eqb_neq, Z.ltb_lt. lia.
  - intros (_ & -> & -> & H). apply andb_true_iff. rewrite negb_true_iff, Z.eqb_neq, Z.ltb_lt. lia.
  - intros (-> & -> & H). by apply level_below.
Qed.

Lemma unmet_dimension c q a b : unmet_issue c q a -> unmet_issue c q b -> has_same_dimension a b = true -> a = b.
Proof.
  unfold unmet_issue, unmet_tokens. destruct a, b; simpl; try done; rewrite ?eqb_cmp_spec; naive_solver.
Qed.

Lemma mismatch_fold l acc :
  (forall x, x ∈ l -> is_coherent x = true /\ x ∉ acc) -> NoDup l ->
  (forall x y, x ∈ acc ++ l -> y ∈ acc ++ l -> has_same_dimension x y = true -> x = y) ->
  (length acc + length l <= 32)%nat ->
  try_fold mismatch_step acc l = Ok (bs_extend acc l).
Proof.
  revert acc. induction l as [|x l IH]; intros acc Hc Hn Hd Hl; [done |]. apply NoDup_cons in Hn as [Hx Hn]. simpl in Hl.
  destruct (Hc x ltac:(set_solver)) as [Hco Hna]. cbn [try_fold].
  assert (Hex : existsb (fun existing => has_same_dimension existing x) acc = false).
  { apply existsb_false_iff, Forall_forall. intros y Hy. destruct (has_same_dimension y x) eqn:E; [| done].
    apply Hd in E as ->; [done | set_solver | set_solver]. }
  assert (mismatch_step acc x = Ok (bs_insert x acc)) as ->.
  { unfold mismatch_step. rewrite Hco, (proj2 (bs_contains_false x acc) Hna), Hex. simpl.
    by rewrite (proj2 (Z.eqb_neq _ _)) by (unfold MAX_ISSUES; lia). }
  simpl. apply IH; [| done | |].
  - intros y Hy. split; [by apply Hc; set_solver |]. rewrite bs_insert_elem. intros [->|Hin]; [done |]. by apply (Hc y ltac:(set_solver)).
  - intros y z Hy Hz. apply Hd; revert Hy Hz; rewrite !elem_of_app, !bs_insert_elem; set_solver.
  - rewrite bs_insert_length_fresh by done. lia.
Qed.

Lemma bs_extend_sorted_id {K} `{RustOrd K} (s : list K) : ksorted (fun k => k) s -> bs_extend [] s = s.
Proof.
  intros Hs. apply sorted_set_ext; [by apply bs_extend_sorted; constructor | done |]. intros x. rewrite bs_extend_elem. set_solver.
Qed.

(** Negotiation is exact: a model satisfies the requirements of a run
    exactly when none of them is unmet; otherwise the report is the set of all
    unmet requirements, each with what was required and what was available, and
    nothing else; and the report is one that [try_new] restores unchanged
    (coherent issues, one per dimension, within the bound). *)
Theorem model_negotiation_exact (c : ModelCapabilities) (q : ModelRequirements) (Hq : requirements_wf q) (Hc : capacities_wf c) :
  (satisfies c q = Ok tt <-> forall i, ~ unmet_issue c q i) /\
  (forall m, satisfies c q = Err m ->
     (forall i, i ∈ m <-> unmet_issue c q i) /\ ksorted (fun i : ModelCapabilityIssue => i) m /\ mismatch_try_new m = Ok m).
Proof.
  pose proof (unmet_sorted c q) as Hs. pose proof (unmet_length c q Hq) as Hl. pose proof (unmet_elem c q) as He. unfold satisfies.
  assert (Hd : forall x y, x ∈ [] ++ unmet_requirements c q -> y ∈ [] ++ unmet_requirements c q -> has_same_dimension x y = true -> x = y).
  { intros x y Hx Hy. simpl in *. apply He in Hx, Hy. by apply (unmet_dimension c q). }
  assert (Ho : forall x, x ∈ unmet_requirements c q -> is_coherent x = true /\ x ∉ []).
  { intros x Hx. apply He in Hx. split; [by eapply unmet_coherent | set_solver]. }
  destruct (unmet_requirements c q) as [|i u] eqn:Eu; simpl.
  - split; [| done]. split; [| done]. intros _ i Hi. apply He in Hi. set_solver.
  - split; [split; [done | intros H; exfalso; apply (H i), He; set_solver] |]. intros m [= <-]. split_and!; [done | done |].
    unfold mismatch_try_new. rewrite (mismatch_fold (i :: u) [] Ho (sorted_set_NoDup _ Hs) Hd Hl).
    by rewrite (bs_extend_sorted_id (i :: u) Hs).
Qed.

Definition text_model : ModelCapabilities :=
  mkModelCapabilities [MText] [MText] false tool_capabilities_unsupported (mkStructured SJson None) false (mkTokenLimits (Some 1000) None None).
Definition vision_tools : ModelRequirements :=
  mkRequirements [MText; MImage] [MText] true (mkToolRequirements 2 1 [CAuto] false) SJsonSchema false (Some 1000) (Some 10) None.

Lemma model_negotiation_exact_witness :
  satisfies text_model vision_tools =
    Err [IInputModality MImage; IStreaming; IToolCalling; IToolDefinitions 2 0; IToolCallsPerResponse 1 0; IToolChoice CAuto;
         IStructuredOutput SJsonSchema SJson; IInputTokens 10 None] /\
  unmet_issue text_model vision_tools (IInputTokens 10 None).
Proof.
  assert (Hq : requirements_wf vision_tools) by (split; [reflexivity |]; simpl; lia).
  assert (Hc : capacities_wf text_model) by (split; simpl; lia).
  destruct (model_negotiation_exact text_model vision_tools Hq Hc) as [_ H].
  match goal with |- ?e = Err ?m /\ _ => assert (E : e = Err m) by (vm_compute; reflexivity) end.
  split; [exact E |]. apply (proj1 (H _ E)). set_solver.
Defined.

End Negotiation.
