(* ===== verification/Tool.v ===== *)
(** Tool contracts (crates/stateknot-core/src/tool.rs) and the values that
    cross the tool boundary (crates/stateknot-core/src/tool_runtime.rs): input,
    artifacts, results, errors with their external-effect evidence and recovery
    handles.

    Counters and byte counts are 64-bit integers, durations are milliseconds. *)

From Stdlib Require Import ZArith Lia List.
From stdpp Require Import prelude.
From S2P Require Import Prelude Ordered Json Ids Decimal Digests Scope BoundedJson Accounting Time Content Extension Capability Run.

Open Scope Z_scope.
Import Timestamp(Timestamp).

Module Tools.
Import Text Content Capability.

(** * Execution semantics *)

Inductive ToolRisk := ReadOnly | IdempotentWrite | NonIdempotentWrite.
Inductive ToolIdempotency := NotApplicable_ | Intrinsic | RequiredKey | Unsupported_.

#[global] Instance ToolRisk_eq_dec : EqDecision ToolRisk.
Proof. solve_decision. Defined.
#[global] Instance ToolIdempotency_eq_dec : EqDecision ToolIdempotency.
Proof. solve_decision. Defined.

Record ToolExecutionSemantics := mkSemantics { risk : ToolRisk; idempotency : ToolIdempotency; status_query : bool; compensation : bool }.

Inductive ToolExecutionSemanticsError :=
| InvalidIdempotency (r : ToolRisk) (i : ToolIdempotency)
| ReadOnlyRecoverySupport (status_query compensation : bool).

Definition idempotency_is_valid (r : ToolRisk) (i : ToolIdempotency) : bool :=
  match r, i with
  | ReadOnly, NotApplicable_ | IdempotentWrite, Intrinsic | IdempotentWrite, RequiredKey | NonIdempotentWrite, Unsupported_ => true
  | _, _ => false
  end.

Definition is_read_only (r : ToolRisk) : bool := match r with ReadOnly => true | _ => false end.

Definition semantics_new (r : ToolRisk) (i : ToolIdempotency) (query comp : bool)
  : result ToolExecutionSemanticsError ToolExecutionSemantics :=
  if negb (idempotency_is_valid r i) then Err (InvalidIdempotency r i) else
  if is_read_only r && (query || comp) then Err (ReadOnlyRecoverySupport query comp) else
  Ok (mkSemantics r i query comp).

Definition requires_idempotency_key (self : ToolExecutionSemantics) : bool :=
  match idempotency self with RequiredKey => true | _ => false end.

(** * Resources and invocation capabilities *)

Inductive ToolResourceAccess := ANone | AReadOnly | AReadWrite.

Record ToolResourceRequirements := mkResources {
  network : ToolResourceAccess;
  filesystem : ToolResourceAccess;
  credentials : bool;
  dynamic_code : bool
}.

Definition resources_none : ToolResourceRequirements := mkResources ANone ANone false false.
Definition is_read_write (a : ToolResourceAccess) : bool := match a with AReadWrite => true | _ => false end.
Definition has_write_access (self : ToolResourceRequirements) : bool :=
  is_read_write (network self) || is_read_write (filesystem self).

Inductive ToolCancellationSupport := CUnsupported | CCooperative.

Record ToolInvocationCapabilities := mkCapabilities {
  cancellation_support : ToolCancellationSupport;
  max_progress_events : Count.Count
}.

Definition supports_progress_events (self : ToolInvocationCapabilities) : bool := negb (max_progress_events self =? 0).

(** * Limits *)

Record ToolExecutionLimits := mkToolLimits {
  timeout : DurationMillis.DurationMillis;
  max_concurrency : Count.Count;
  max_input_bytes : Count.Count;
  max_inline_result_bytes : Count.Count;
  max_artifacts : Count.Count;
  max_total_artifact_bytes : Count.Count
}.

Inductive ToolExecutionLimitsError :=
| ZeroTimeout | ZeroConcurrency | ZeroInputBytes | ZeroInlineResultBytes
| ArtifactCapacityMismatch (max_artifacts max_total_artifact_bytes : Count.Count).

Definition tool_limits_new (time : DurationMillis.DurationMillis) (concurrency input inline artifacts artifact_bytes : Count.Count)
  : result ToolExecutionLimitsError ToolExecutionLimits :=
  if time =? 0 then Err ZeroTimeout else
  if concurrency =? 0 then Err ZeroConcurrency else
  if input =? 0 then Err ZeroInputBytes else
  if inline =? 0 then Err ZeroInlineResultBytes else
  if negb (Bool.eqb (artifacts =? 0) (artifact_bytes =? 0)) then Err (ArtifactCapacityMismatch artifacts artifact_bytes) else
  Ok (mkToolLimits time concurrency input inline artifacts artifact_bytes).

(** * Descriptors *)

Record ToolDescriptor := mkDescriptor {
  metadata : CapabilityMetadata;
  input_schema : SchemaReference;
  output_schema : SchemaReference;
  semantics : ToolExecutionSemantics;
  resources : ToolResourceRequirements;
  invocation : ToolInvocationCapabilities;
  limits : ToolExecutionLimits
}.

#[global] Instance ToolExecutionSemantics_eq_dec : EqDecision ToolExecutionSemantics.
Proof. solve_decision. Defined.
#[global] Instance ToolResourceAccess_eq_dec : EqDecision ToolResourceAccess.
Proof. solve_decision. Defined.
#[global] Instance ToolResourceRequirements_eq_dec : EqDecision ToolResourceRequirements.
Proof. solve_decision. Defined.
#[global] Instance ToolCancellationSupport_eq_dec : EqDecision ToolCancellationSupport.
Proof. solve_decision. Defined.
#[global] Instance ToolInvocationCapabilities_eq_dec : EqDecision ToolInvocationCapabilities.
Proof. solve_decision. Defined.
#[global] Instance ToolExecutionLimits_eq_dec : EqDecision ToolExecutionLimits.
Proof. solve_decision. Defined.
#[global] Instance ToolDescriptor_eq_dec : EqDecision ToolDescriptor.
Proof. solve_decision. Defined.

Inductive ToolDescriptorError :=
| WrongCapabilityKind (actual : CapabilityKind)
| ReadOnlyResourceWrite (net fs : ToolResourceAccess).

Definition descriptor_new (meta : CapabilityMetadata) (input output : SchemaReference) (sem : ToolExecutionSemantics)
    (res : ToolResourceRequirements) (inv : ToolInvocationCapabilities) (lim : ToolExecutionLimits)
  : result ToolDescriptorError ToolDescriptor :=
  if negb (bool_decide (kind meta = KTool)) then Err (WrongCapabilityKind (kind meta)) else
  if is_read_only (risk sem) && has_write_access res then Err (ReadOnlyResourceWrite (network res) (filesystem res)) else
  Ok (mkDescriptor meta input output sem res inv lim).

Definition tool_identity (d : ToolDescriptor) : CapabilityIdentity := identity (metadata d).

(** * Input *)

Record ToolInput := mkInput { input_schema_ref : SchemaReference; input_value : BoundedJson }.
#[global] Instance ToolInput_eq_dec : EqDecision ToolInput.
Proof. solve_decision. Defined.

Inductive ToolInputError := ObjectRootRequired.

Definition is_object (v : Value) : bool := match v with Obj _ => true | _ => false end.

Definition tool_input_new (schema : SchemaReference) (value : BoundedJson) : result ToolInputError ToolInput :=
  if negb (is_object (bounded_value value)) then Err ObjectRootRequired else Ok (mkInput schema value).

(** [u64::try_from(value).unwrap_or(u64::MAX)] for a [usize]. *)
Definition count_from_usize (value : Z) : Count.Count := if value <=? u64_max then value else u64_max.
Definition compact_size (b : BoundedJson) : Count.Count := count_from_usize (compact_bytes (stats b)).

(** * Artifacts of one result *)

Record ToolArtifacts := mkArtifacts { artifact_values : list Artifact.ArtifactRef; total_bytes : Count.Count }.
#[global] Instance ToolArtifacts_eq_dec : EqDecision ToolArtifacts.
Proof. solve_decision. Defined.

Inductive ToolArtifactsError := ArtifactsTooMany (maximum actual : Z) | ArtifactsDuplicateIdentity | ArtifactsTotalBytesOverflow.

Definition ARTIFACTS_MAX_LEN : Z := 64.
Definition artifacts_empty : ToolArtifacts := mkArtifacts [] 0.

Definition artifacts_push (st : ToolArtifacts) (value : Artifact.ArtifactRef) : result ToolArtifactsError ToolArtifacts :=
  if Z.of_nat (length (artifact_values st)) =? ARTIFACTS_MAX_LEN
  then Err (ArtifactsTooMany ARTIFACTS_MAX_LEN (ARTIFACTS_MAX_LEN + 1)) else
  if existsb (fun existing => bool_decide (Artifact.identity existing = Artifact.identity value)) (artifact_values st)
  then Err ArtifactsDuplicateIdentity else
  total ← ok_or (Count.checked_add (total_bytes st) (Artifact.byte_length (Artifact.representation value))) ArtifactsTotalBytesOverflow;
  Ok (mkArtifacts (artifact_values st ++ [value]) total).

Definition artifacts_try_new (values : list Artifact.ArtifactRef) : result ToolArtifactsError ToolArtifacts :=
  try_fold artifacts_push artifacts_empty values.

(** * Results *)

(** [ToolResultProvenance], [ToolErrorProvenance] and [ToolProgressProvenance]
    have the same fields. *)
Record ToolProvenance := mkToolProvenance { prov_invocation_id : Z; prov_attempt_id : Z; prov_tool : CapabilityIdentity }.
#[global] Instance ToolProvenance_eq_dec : EqDecision ToolProvenance.
Proof. solve_decision. Defined.

Record ToolResult := mkToolResult {
  result_provenance : ToolProvenance;
  result_schema : SchemaReference;
  result_output : BoundedJson;
  result_artifacts : ToolArtifacts
}.
#[global] Instance ToolResult_eq_dec : EqDecision ToolResult.
Proof. solve_decision. Defined.

(** * Errors *)

Inductive ToolErrorPhase := Preparation | Execution | Result_.
Inductive ToolExternalEffect := NotApplicable | NotStarted | NotApplied | Applied | Unknown.
#[global] Instance ToolExternalEffect_eq_dec : EqDecision ToolExternalEffect.
Proof. solve_decision. Defined.

Record ToolRecoveryHandle := mkHandle { handle_namespace : bytes; handle_binding : Digest; opaque_id : text }.

Inductive ToolRecoveryHandleError :=
| EmptyOpaqueId
| OpaqueIdTooLong (maximum actual : Z)
| OpaqueIdBoundaryWhitespace
| OpaqueIdDisallowedCodePoint.

Definition MAX_OPAQUE_ID_BYTES : Z := 1024.

Definition validate_recovery_opaque_id (value : text) : result ToolRecoveryHandleError unit :=
  if (length value =? 0)%nat then Err EmptyOpaqueId else
  if MAX_OPAQUE_ID_BYTES <? len value then Err (OpaqueIdTooLong MAX_OPAQUE_ID_BYTES (len value)) else
  if starts_with_whitespace value || ends_with_whitespace value then Err OpaqueIdBoundaryWhitespace else
  if existsb (fun scalar => is_control scalar || between 64976 65007 scalar || (Z.land scalar 65534 =? 65534)) value
  then Err OpaqueIdDisallowedCodePoint else Ok tt.

Definition recovery_handle_new (namespace : bytes) (binding : Digest) (id : text) : result ToolRecoveryHandleError ToolRecoveryHandle :=
  _ ← validate_recovery_opaque_id id; Ok (mkHandle namespace binding id).

Inductive ToolErrorBuildError :=
| UnknownEffectRequiresAmbiguousFailure
| AmbiguousFailureRequiresUnknownEffect
| PhaseEffectMismatch (phase : ToolErrorPhase) (effect : ToolExternalEffect)
| RecoveryHandleRequiresUnknownEffect.

Section Errors.
Context {Details : Type}.

Record ToolError := mkToolError {
  failure : Failure Details;
  phase : ToolErrorPhase;
  external_effect : ToolExternalEffect;
  error_provenance : ToolProvenance;
  recovery_handle : option ToolRecoveryHandle
}.

Definition phase_effect_valid (p : ToolErrorPhase) (effect : ToolExternalEffect) : bool :=
  match p, effect with
  | Preparation, NotApplicable | Preparation, NotStarted => true
  | Preparation, _ => false
  | Execution, _ => true
  | Result_, NotApplicable | Result_, Applied | Result_, Unknown => true
  | Result_, _ => false
  end.

Definition validate_tool_error_shape (f : Failure Details) (p : ToolErrorPhase) (effect : ToolExternalEffect)
  : result ToolErrorBuildError unit :=
  let ambiguous := bool_decide (category f = AmbiguousExternalOutcome) in
  if bool_decide (effect = Unknown) && negb ambiguous then Err UnknownEffectRequiresAmbiguousFailure else
  if ambiguous && negb (bool_decide (effect = Unknown)) then Err AmbiguousFailureRequiresUnknownEffect else
  if negb (phase_effect_valid p effect) then Err (PhaseEffectMismatch p effect) else Ok tt.

Definition tool_error_new (f : Failure Details) (p : ToolErrorPhase) (effect : ToolExternalEffect) (prov : ToolProvenance)
  : result ToolErrorBuildError ToolError :=
  _ ← validate_tool_error_shape f p effect; Ok (mkToolError f p effect prov None).

Definition with_recovery_handle (self : ToolError) (handle : ToolRecoveryHandle) : result ToolErrorBuildError ToolError :=
  if negb (bool_decide (external_effect self = Unknown)) then Err RecoveryHandleRequiresUnknownEffect else
  Ok (mkToolError (failure self) (phase self) (external_effect self) (error_provenance self) (Some handle)).

(** [Deserialize for ToolError]. *)
Definition tool_error_restore (wire : ToolError) : result ToolErrorBuildError ToolError :=
  error ← tool_error_new (failure wire) (phase wire) (external_effect wire) (error_provenance wire);
  match recovery_handle wire with Some handle => with_recovery_handle error handle | None => Ok error end.

(** [RetryAdvice::safe_after_delay]. *)
Definition safe_after_delay (advice : RetryAdvice) : option DurationMillis.DurationMillis :=
  match advice with SafeAfter delay => Some delay | _ => None end.

Definition is_safe_after (advice : RetryAdvice) : bool := match advice with SafeAfter _ => true | _ => false end.
Definition requires_reconciliation (advice : RetryAdvice) : bool := match advice with ReconcileFirst => true | _ => false end.

(** The effect evidence each risk class admits. *)
Definition effect_matches_risk (r : ToolRisk) (effect : ToolExternalEffect) : bool :=
  match r, effect with
  | ReadOnly, NotApplicable => true
  | (IdempotentWrite | NonIdempotentWrite), (NotStarted | NotApplied | Applied | Unknown) => true
  | _, _ => false
  end.

End Errors.
Arguments ToolError : clear implicits.

(** ** Laws *)

(** The invariant of a constructed error: ambiguity, [Unknown] effect and
    reconcile-first advice go together, and a handle needs that effect. *)
Definition tool_error_wf {Details} (e : ToolError Details) : Prop :=
  validate_failure_recovery (category (failure e)) (retry_advice (failure e)) = Ok tt /\
  (external_effect e = Unknown <-> category (failure e) = AmbiguousExternalOutcome) /\
  phase_effect_valid (phase e) (external_effect e) = true /\
  (recovery_handle e <> None -> external_effect e = Unknown).

Lemma tool_error_new_Ok {Details} (f : Failure Details) p effect prov e :
  tool_error_new f p effect prov = Ok e <->
  (effect = Unknown <-> category f = AmbiguousExternalOutcome) /\ phase_effect_valid p effect = true /\
  e = mkToolError f p effect prov None.
Proof.
  unfold tool_error_new, validate_tool_error_shape. destruct (bool_decide_reflect (effect = Unknown)), (bool_decide_reflect (category f = AmbiguousExternalOutcome));
    simpl; try (split; [done |]; intros [Hi _]; tauto); destruct (phase_effect_valid p effect); simpl; split; try done;
    try (by intros (_ & ? & _)); try (by intros (_ & _ & ->)); intros [= <-]; split_and!; tauto.
Qed.

Lemma unknown_never_safe {Details} (e : ToolError Details) :
  tool_error_wf e -> external_effect e = Unknown -> safe_after_delay (retry_advice (failure e)) = None.
Proof.
  intros (Hf & Hu & _) Heff. apply Hu in Heff. rewrite Heff in Hf. by destruct (retry_advice (failure e)).
Qed.

End Tools.
