(* ===== verification/ModelResponse.v ===== *)
(** Model responses and transcripts (crates/stateknot-core/src/model_response.rs
    and model_transcript.rs): ordered output items and their accounting, usage,
    opaque provider replay, tool outcomes and the durable transcript of completed
    tool-call turns.

    The canonical encoders of a replay and of a turn, and SHA-256, are
    parameters; an [expect] that fails is the fault [Panic]. *)

From Stdlib Require Import ZArith Lia List.
From stdpp Require Import prelude.
From S2P Require Import Prelude Ordered Json Digests Ids Decimal BoundedJson Content Extension Accounting Time Capability Run Message Model Tool.

Open Scope Z_scope.

Module Responses.
Import Text Content Capability Messages Models.

(** * Provider identifiers *)

Inductive ModelProviderIdentifierError := IdEmpty | IdTooLong (max actual : Z) | IdInvalidByte (index : nat).
Definition PROVIDER_ID_MAX_BYTES : Z := 512.

Definition validate_provider_identifier (value : bytes) (maximum : Z) : result ModelProviderIdentifierError unit :=
  if (length value =? 0)%nat then Err IdEmpty else
  if maximum <? Z.of_nat (length value) then Err (IdTooLong maximum (Z.of_nat (length value))) else
  match position (fun byte => negb (between 33 126 byte)) value with
  | Some index => Err (IdInvalidByte index)
  | None => Ok tt
  end.

(** [ModelProviderModelId], [..RequestId], [..ResponseId] and [..ToolCallId]. *)
Definition ProviderId := bytes.
Definition provider_id_new (value : bytes) : result ModelProviderIdentifierError ProviderId :=
  _ ← validate_provider_identifier value PROVIDER_ID_MAX_BYTES; Ok value.

(** * Finish reasons, provenance, usage *)

Inductive ModelFinishReason := FCompleted | FToolCalls | FOutputLimit | FContextLimit | FRefused | FContentFiltered | FPaused.
#[global] Instance ModelFinishReason_eq_dec : EqDecision ModelFinishReason.
Proof. solve_decision. Defined.

Record ModelResponseProvenance := mkModelProvenance {
  mp_attempt_id : Z;
  mp_model : CapabilityIdentity;
  provider_model_id : option ProviderId;
  provider_request_id : option ProviderId;
  provider_response_id : option ProviderId
}.
#[global] Instance ModelResponseProvenance_eq_dec : EqDecision ModelResponseProvenance.
Proof. solve_decision. Defined.

Definition model_provenance_new (attempt : Z) (model : CapabilityIdentity) (model_id response_id : option ProviderId) : ModelResponseProvenance :=
  mkModelProvenance attempt model model_id None response_id.
Definition with_provider_request_id (self : ModelResponseProvenance) (id : ProviderId) : ModelResponseProvenance :=
  mkModelProvenance (mp_attempt_id self) (mp_model self) (provider_model_id self) (Some id) (provider_response_id self).

Record ModelUsage := mkUsage {
  usage_input_tokens : Count.Count;
  usage_cached_input_tokens : option Count.Count;
  usage_output_tokens : Count.Count;
  usage_reasoning_tokens : option Count.Count
}.
#[global] Instance ModelUsage_eq_dec : EqDecision ModelUsage.
Proof. solve_decision. Defined.

Inductive ModelUsageError :=
| CachedInputExceedsInput (input cached : Count.Count)
| ReasoningExceedsOutput (output reasoning : Count.Count)
| TotalTokensOverflow.

Definition check_part {E} (whole : Count.Count) (part : option Count.Count) (e : Count.Count -> Count.Count -> E) : result E unit :=
  match part with Some p => if whole <? p then Err (e whole p) else Ok tt | None => Ok tt end.

Definition usage_new (input : Count.Count) (cached : option Count.Count) (output : Count.Count) (reasoning : option Count.Count)
  : result ModelUsageError ModelUsage :=
  _ ← check_part input cached CachedInputExceedsInput;
  _ ← check_part output reasoning ReasoningExceedsOutput;
  if is_none (Count.checked_add input output) then Err TotalTokensOverflow else Ok (mkUsage input cached output reasoning).

Definition total_tokens (self : ModelUsage) : result (fault Empty_set) Count.Count :=
  ok_or (Count.checked_add (usage_input_tokens self) (usage_output_tokens self)) Panic.

(** * Output items *)

Record ModelToolCallProposal := mkProposal {
  proposal_tool : CapabilityIdentity;
  provider_call_id : option ProviderId;
  arguments : BoundedJson;
  proposal_extensions : Extension.Extensions
}.
#[global] Instance ModelToolCallProposal_eq_dec : EqDecision ModelToolCallProposal.
Proof. solve_decision. Defined.

Inductive ModelToolCallProposalError := ArgumentsMustBeObject.

Definition proposal_new (tool : CapabilityIdentity) (call : option ProviderId) (args : BoundedJson) (ext : Extension.Extensions)
  : result ModelToolCallProposalError ModelToolCallProposal :=
  if negb (Tools.is_object (bounded_value args)) then Err ArgumentsMustBeObject else Ok (mkProposal tool call args ext).

Inductive ModelOutputItemKind := KContent | KReasoningSummary | KToolCall.
Inductive ModelOutputItem :=
| OContent (content : Artifact.ContentPart)
| OReasoningSummary (summary : TextContent)
| OToolCall (proposal : ModelToolCallProposal).
#[global] Instance ModelOutputItem_eq_dec : EqDecision ModelOutputItem.
Proof. solve_decision. Defined.

Inductive ModelOutputItemError :=
| InvalidSource (kind : ModelOutputItemKind) (expected actual : ContentSource)
| InvalidTrust (kind : ModelOutputItemKind) (actual : ContentTrust).

Definition item_kind (self : ModelOutputItem) : ModelOutputItemKind :=
  match self with OContent _ => KContent | OReasoningSummary _ => KReasoningSummary | OToolCall _ => KToolCall end.
Definition as_tool_call (self : ModelOutputItem) : option ModelToolCallProposal :=
  match self with OToolCall p => Some p | _ => None end.

Definition validate_output_metadata (k : ModelOutputItemKind) (meta : ContentMetadata) (expected : ContentSource)
  : result ModelOutputItemError unit :=
  if negb (bool_decide (source meta = expected)) then Err (InvalidSource k expected (source meta)) else
  if negb (bool_decide (trust meta = Untrusted)) then Err (InvalidTrust k (trust meta)) else Ok tt.

Definition validate_intrinsic (self : ModelOutputItem) : result ModelOutputItemError unit :=
  match self with
  | OContent content =>
      let expected := match content with Artifact.PText _ | Artifact.PJson _ => SModel | Artifact.PArtifact _ => SArtifact end in
      validate_output_metadata (item_kind self) (Artifact.part_metadata content) expected
  | OReasoningSummary summary => validate_output_metadata (item_kind self) (text_metadata summary) SModel
  | OToolCall _ => Ok tt
  end.

Definition content_item (content : Artifact.ContentPart) : result ModelOutputItemError ModelOutputItem :=
  _ ← validate_intrinsic (OContent content); Ok (OContent content).
Definition reasoning_summary (summary : TextContent) : result ModelOutputItemError ModelOutputItem :=
  _ ← validate_intrinsic (OReasoningSummary summary); Ok (OReasoningSummary summary).

Definition item_payload_bytes (self : ModelOutputItem) : Z :=
  match self with
  | OContent content => Artifact.inline_payload_bytes content
  | OReasoningSummary summary => len (content_text summary)
  | OToolCall p => compact_bytes (stats (arguments p)) + Extension.compact_bytes_ (proposal_extensions p)
  end.

(** [map_artifact_modality] of model_request.rs and the artifact case of
    [content_modality]. *)
Definition map_artifact_modality (m : Artifact.ArtifactModality) : option ModelModality :=
  match m with
  | Artifact.MText => Some MText
  | Artifact.MImage => Some MImage
  | Artifact.MAudio => Some MAudio
  | Artifact.MVideo => Some MVideo
  | Artifact.MDocument => Some MDocument
  | Artifact.MStructuredData | Artifact.MArchive | Artifact.MBinary => None
  end.

Definition content_modality (content : Artifact.ContentPart) : option ModelModality :=
  match content with
  | Artifact.PText _ | Artifact.PJson _ => Some MText
  | Artifact.PArtifact artifact => map_artifact_modality (Artifact.modality (Artifact.representation artifact))
  end.

(** The artifact modality the error reports; [unreachable!] for inline content. *)
Definition artifact_modality {E} (content : Artifact.ContentPart) (e : Artifact.ArtifactModality -> E) : fault E :=
  match content with
  | Artifact.PArtifact artifact => Fail (e (Artifact.modality (Artifact.representation artifact)))
  | _ => Panic
  end.

(** [ModelOutputItems] with the set of call identifiers its loop carries. *)
Record ModelOutputItems := mkItems {
  item_values : list ModelOutputItem;
  content_items : Z;
  tool_calls_count : Z;
  items_payload_bytes : Count.Count;
  item_modalities : ModelModalities;
  call_ids : list ProviderId
}.
#[global] Instance ModelOutputItems_eq_dec : EqDecision ModelOutputItems.
Proof. solve_decision. Defined.

Definition MAX_CONTENT_ITEMS : Z := 256.
Definition MAX_TOOL_CALLS : Z := 1024.
Definition MAX_ITEMS : Z := MAX_CONTENT_ITEMS + MAX_TOOL_CALLS.
Definition MAX_OUTPUT_PAYLOAD_BYTES : Count.Count := 64 * MEBIBYTE.

Inductive ModelResponseError :=
| TooManyOutputItems (max observed : Z)
| TooManyContentItems (max observed : Z)
| TooManyToolCalls (max observed : Z)
| InvalidOutputItem (index : Z) (error : ModelOutputItemError)
| DuplicateProviderToolCallId
| InlinePayloadBytesOverflow
| InlinePayloadTooLarge (maximum observed : Count.Count)
| ToolCallsFinishRequiresProposal
| ProviderReplayWithoutToolCalls
| FinishForbidsToolCalls (finish_reason : ModelFinishReason) (tool_calls : Z)
| UnsupportedArtifactModality (index : Z) (modality : Artifact.ArtifactModality)
| ModelIdentityMismatch (expected actual : CapabilityIdentity)
| InputUsageExceedsRequest (maximum actual : Count.Count)
| OutputUsageExceedsRequest (maximum actual : Count.Count)
| OutputModalityNotRequested (index : Z) (modality : ModelModality)
| ReasoningSummaryNotRequested (index : Z)
| ToolCallsExceedRequest (maximum actual : Count.Count)
| ToolNotRequested (index : Z) (tool : CapabilityIdentity)
| ToolIdentityMismatch (index : Z) (expected actual : CapabilityIdentity)
| SpecificToolMismatch (index : Z) (expected actual : CapabilityName)
| RequiredToolCallMissing
| PlainTextCompletionContainsJson (index : Z)
| StructuredCompletionContainsText (index : Z)
| StructuredCompletionJsonCount (actual : Z)
| UnexpectedOutputSchema (index : Z)
| OutputSchemaMismatch (index : Z) (expected : SchemaReference) (actual : option SchemaReference).

Definition items_empty : ModelOutputItems := mkItems [] 0 0 0 [] [].

(** The count of the item's kind, its modality and its call identifier. *)
Definition count_item (st : ModelOutputItems) (value : ModelOutputItem) : result (fault ModelResponseError) ModelOutputItems :=
  let index := Z.of_nat (length (item_values st)) in
  match value with
  | OContent content =>
      if content_items st =? MAX_CONTENT_ITEMS then Err (Fail (TooManyContentItems MAX_CONTENT_ITEMS (MAX_CONTENT_ITEMS + 1))) else
      modality ← ok_or (content_modality content) (artifact_modality content (UnsupportedArtifactModality index));
      Ok (mkItems (item_values st) (content_items st + 1) (tool_calls_count st) (items_payload_bytes st)
            (bs_insert modality (item_modalities st)) (call_ids st))
  | OReasoningSummary _ =>
      if content_items st =? MAX_CONTENT_ITEMS then Err (Fail (TooManyContentItems MAX_CONTENT_ITEMS (MAX_CONTENT_ITEMS + 1))) else
      Ok (mkItems (item_values st) (content_items st + 1) (tool_calls_count st) (items_payload_bytes st) (item_modalities st) (call_ids st))
  | OToolCall proposal =>
      if tool_calls_count st =? MAX_TOOL_CALLS then Err (Fail (TooManyToolCalls MAX_TOOL_CALLS (MAX_TOOL_CALLS + 1))) else
      ids ← match provider_call_id proposal with
            | Some id => if bs_contains id (call_ids st) then Err (Fail DuplicateProviderToolCallId) else Ok (bs_insert id (call_ids st))
            | None => Ok (call_ids st)
            end;
      Ok (mkItems (item_values st) (content_items st) (tool_calls_count st + 1) (items_payload_bytes st) (item_modalities st) ids)
  end.

Definition push_output_item (st : ModelOutputItems) (value : ModelOutputItem) : result (fault ModelResponseError) ModelOutputItems :=
  let index := Z.of_nat (length (item_values st)) in
  if index =? MAX_ITEMS then Err (Fail (TooManyOutputItems MAX_ITEMS (MAX_ITEMS + 1))) else
  _ ← map_err (fun error => Fail (InvalidOutputItem index error)) (validate_intrinsic value);
  st ← count_item st value;
  observed ← ok_or (Count.checked_add (items_payload_bytes st) (item_payload_bytes value)) (Fail InlinePayloadBytesOverflow);
  if MAX_OUTPUT_PAYLOAD_BYTES <? observed then Err (Fail (InlinePayloadTooLarge MAX_OUTPUT_PAYLOAD_BYTES observed)) else
  Ok (mkItems (item_values st ++ [value]) (content_items st) (tool_calls_count st) observed (item_modalities st) (call_ids st)).

Definition items_try_new (values : list ModelOutputItem) : result (fault ModelResponseError) ModelOutputItems :=
  st ← try_fold push_output_item items_empty values;
  _ ← map_err (fun _ => Panic) (modalities_try_new (item_modalities st));
  Ok st.

(** * Provider replay (model_transcript.rs) *)

Inductive ModelProviderReplayFormatError := FormatEmpty | FormatTooLong (maximum actual : Z) | FormatInvalidSyntax.
Definition FORMAT_MAX_BYTES : Z := 128.

Definition format_segment (segment : bytes) : bool :=
  match segment with
  | [] => false
  | first :: _ => between 97 122 first && forallb (fun byte => between 97 122 byte || between 48 57 byte) segment
  end.

Definition validate_format (value : bytes) : result ModelProviderReplayFormatError unit :=
  if (length value =? 0)%nat then Err FormatEmpty else
  if FORMAT_MAX_BYTES <? Z.of_nat (length value) then Err (FormatTooLong FORMAT_MAX_BYTES (Z.of_nat (length value))) else
  let segments := split_at 46 value in
  if negb ((3 <=? length segments)%nat && (length segments <=? 8)%nat) || existsb (fun s => negb (format_segment s)) segments
  then Err FormatInvalidSyntax else Ok tt.

Record ModelProviderReplay := mkReplay { replay_format : bytes; replay_payload : BoundedJson; replay_digest : Digest }.
#[global] Instance ModelProviderReplay_eq_dec : EqDecision ModelProviderReplay.
Proof. solve_decision. Defined.

Inductive ModelProviderReplayError := PayloadMustBeArray | DigestMismatch.

Definition REPLAY_DIGEST_DOMAIN : bytes := bytes_of "stateknot.model-provider-replay.v1" ++ [0].
Record ReplayDigestWire := mkReplayWire { wire_format : bytes; wire_payload : BoundedJson }.

Definition is_array (v : Value) : bool := match v with Arr _ => true | _ => false end.
Definition replay_payload_bytes (self : ModelProviderReplay) : Count.Count := compact_bytes (stats (replay_payload self)).

Section Replay.
Context `{Canonical ReplayDigestWire}.
Variable sha256 : bytes -> Digest.

Definition replay_new (format : bytes) (payload : BoundedJson) : result (fault ModelProviderReplayError) ModelProviderReplay :=
  if negb (is_array (bounded_value payload)) then Err (Fail PayloadMustBeArray) else
  canonical ← ok_or (to_vec (mkReplayWire format payload)) Panic;
  Ok (mkReplay format payload (sha256 (REPLAY_DIGEST_DOMAIN ++ canonical))).

(** [Deserialize for ModelProviderReplay]. *)
Definition replay_restore (wire : ModelProviderReplay) : result (fault ModelProviderReplayError) ModelProviderReplay :=
  replay ← replay_new (replay_format wire) (replay_payload wire);
  if negb (bool_decide (replay_digest replay = replay_digest wire)) then Err (Fail DigestMismatch) else Ok replay.
End Replay.

(** * Responses *)

Record ModelResponse := mkResponse {
  response_provenance : ModelResponseProvenance;
  output : ModelOutputItems;
  finish_reason : ModelFinishReason;
  usage : ModelUsage;
  response_extensions : Extension.Extensions;
  provider_replay : option ModelProviderReplay
}.
#[global] Instance ModelResponse_eq_dec : EqDecision ModelResponse.
Proof. solve_decision. Defined.

Definition response_from_parts (prov : ModelResponseProvenance) (items : ModelOutputItems) (reason : ModelFinishReason) (u : ModelUsage)
    (ext : Extension.Extensions) : result ModelResponseError ModelResponse :=
  match reason with
  | FToolCalls => if tool_calls_count items =? 0 then Err ToolCallsFinishRequiresProposal else Ok (mkResponse prov items reason u ext None)
  | _ => if 0 <? tool_calls_count items then Err (FinishForbidsToolCalls reason (tool_calls_count items))
         else Ok (mkResponse prov items reason u ext None)
  end.

Definition with_provider_replay (self : ModelResponse) (replay : ModelProviderReplay) : result ModelResponseError ModelResponse :=
  if negb (bool_decide (finish_reason self = FToolCalls)) then Err ProviderReplayWithoutToolCalls else
  observed ← ok_or (Count.checked_add (items_payload_bytes (output self)) (replay_payload_bytes replay)) InlinePayloadBytesOverflow;
  if MAX_OUTPUT_PAYLOAD_BYTES <? observed then Err (InlinePayloadTooLarge MAX_OUTPUT_PAYLOAD_BYTES observed) else
  Ok (mkResponse (response_provenance self) (output self) (finish_reason self) (usage self) (response_extensions self) (Some replay)).

(** [Deserialize for ModelResponse], the output already visited. *)
Definition response_restore (wire : ModelResponse) : result ModelResponseError ModelResponse :=
  response ← response_from_parts (response_provenance wire) (output wire) (finish_reason wire) (usage wire) (response_extensions wire);
  match provider_replay wire with Some replay => with_provider_replay response replay | None => Ok response end.

Definition response_tool_calls (self : ModelResponse) : list ModelToolCallProposal := omap as_tool_call (item_values (output self)).

Definition response_payload_bytes (self : ModelResponse) : result (fault Empty_set) Count.Count :=
  match provider_replay self with
  | Some replay => ok_or (Count.checked_add (items_payload_bytes (output self)) (replay_payload_bytes replay)) Panic
  | None => Ok (items_payload_bytes (output self))
  end.

End Responses.

(** Laws of model output ([ModelResponse.v]): the accounting of a list of output
    items is exact and never panics, and usage totals cannot overflow. *)

Module OutputLaws.
Import Content Capability Models Responses.

(** * Sets of enum values *)

Lemma enum_set_fold {A} `{RustOrd A} maximum (l acc : list A) :
  NoDup l -> (forall x, x ∈ l -> x ∉ acc) -> Z.of_nat (length acc) + Z.of_nat (length l) <= maximum ->
  try_fold (enum_set_step maximum) acc l = Ok (bs_extend acc l).
Proof.
  revert acc. induction l as [|x l IH]; intros acc Hn Hd Hl; [done |]. apply NoDup_cons in Hn as [Hx Hn]. simpl in Hl.
  assert (Hstep : enum_set_step maximum acc x = Ok (bs_insert x acc)).
  { unfold enum_set_step. rewrite (proj2 (bs_contains_false x acc)) by (apply Hd; by left).
    destruct (Z.eqb_spec (Z.of_nat (length acc)) maximum); [lia | done]. }
  cbn [try_fold]. rewrite Hstep. apply IH; [done | |].
  - intros y Hy. rewrite bs_insert_elem. intros [->|?]; [done |]. apply (Hd y); [by right | done].
  - rewrite bs_insert_length_fresh by (apply Hd; by left). lia.
Qed.

Lemma modalities_length (l : list ModelModality) : NoDup l -> (length l <= 5)%nat.
Proof.
  intros Hn. apply (submseteq_length _ [MText; MImage; MAudio; MVideo; MDocument]). apply NoDup_submseteq; [done |].
  intros []; set_solver.
Qed.

(** A set of modalities is accepted as it is. *)
Lemma modalities_accept (l : list ModelModality) : ksorted (fun m : ModelModality => m) l -> modalities_try_new l = Ok l.
Proof.
  intros Hs. unfold modalities_try_new, enum_set_try_new. pose proof (sorted_set_NoDup l Hs) as Hn. pose proof (modalities_length l Hn).
  rewrite enum_set_fold; [| done | set_solver | unfold MODALITIES_MAX_LEN; simpl; lia]. f_equal.
  apply sorted_set_ext; [apply bs_extend_sorted; constructor | done |]. intros x. rewrite bs_extend_elem. set_solver.
Qed.

(** * The accounting of output items *)

Definition is_call (i : ModelOutputItem) : bool := match i with OToolCall _ => true | _ => false end.
Definition item_modality (i : ModelOutputItem) : option ModelModality := match i with OContent c => content_modality c | _ => None end.
Definition item_call_id (i : ModelOutputItem) : option ProviderId := as_tool_call i ≫= provider_call_id.
Definition payload_sum (l : list ModelOutputItem) : Z := foldr (fun i n => item_payload_bytes i + n) 0 l.

Lemma payload_sum_snoc l i : payload_sum (l ++ [i]) = payload_sum l + item_payload_bytes i.
Proof. induction l as [|x l IH]; simpl in *; lia. Qed.

(** The state of the loop after the items it has taken. *)
Record counted (l : list ModelOutputItem) (st : ModelOutputItems) : Prop := {
  cnt_values : item_values st = l;
  cnt_content : content_items st = Z.of_nat (length (filter (fun i => is_call i = false) l));
  cnt_calls : tool_calls_count st = Z.of_nat (length (omap as_tool_call l));
  cnt_bytes : items_payload_bytes st = payload_sum l;
  cnt_modalities : ksorted (fun m : ModelModality => m) (item_modalities st) /\ forall m, m ∈ item_modalities st <-> m ∈ omap item_modality l;
  cnt_ids : NoDup (omap item_call_id l) /\ forall i, i ∈ call_ids st <-> i ∈ omap item_call_id l
}.

(** What a list of items must satisfy. *)
Record outputs_ok (l : list ModelOutputItem) : Prop := {
  out_content : Z.of_nat (length (filter (fun i => is_call i = false) l)) <= MAX_CONTENT_ITEMS;
  out_calls : Z.of_nat (length (omap as_tool_call l)) <= MAX_TOOL_CALLS;
  out_bytes : payload_sum l <= MAX_OUTPUT_PAYLOAD_BYTES;
  out_ids : NoDup (omap item_call_id l);
  out_valid : Forall (fun i => validate_intrinsic i = Ok tt) l;
  out_portable : Forall (fun i => match i with OContent c => is_Some (content_modality c) | _ => True end) l
}.

Lemma counted_nil : counted [] items_empty.
Proof. constructor; simpl; try done; split; try constructor; set_solver. Qed.

Lemma outputs_nil : outputs_ok [].
Proof. by constructor; simpl; try constructor. Qed.

(** Appending one item to every measure. *)
Lemma omap_snoc {A B} (f : A -> option B) l x : omap f (l ++ [x]) = omap f l ++ match f x with Some y => [y] | None => [] end.
Proof. rewrite omap_app. simpl. by destruct (f x). Qed.

Lemma contents_snoc l i :
  Z.of_nat (length (filter (fun i => is_call i = false) (l ++ [i]))) =
  Z.of_nat (length (filter (fun i => is_call i = false) l)) + (if is_call i then 0 else 1).
Proof.
  rewrite filter_app, length_app. destruct (is_call i) eqn:E.
  - rewrite filter_cons_False by (by rewrite E). simpl. lia.
  - rewrite filter_cons_True by done. simpl. lia.
Qed.

Lemma calls_snoc l i :
  Z.of_nat (length (omap as_tool_call (l ++ [i]))) = Z.of_nat (length (omap as_tool_call l)) + (if is_call i then 1 else 0).
Proof. rewrite omap_snoc, length_app. destruct i; simpl; lia. Qed.

Lemma items_split l :
  Z.of_nat (length l) = Z.of_nat (length (filter (fun i => is_call i = false) l)) + Z.of_nat (length (omap as_tool_call l)).
Proof.
  induction l as [|i l IH] using rev_ind; [done |]. rewrite contents_snoc, calls_snoc, length_app. simpl. destruct (is_call i); lia.
Qed.

(** What one item must satisfy after the items before it. *)
Record item_ok (l : list ModelOutputItem) (i : ModelOutputItem) : Prop := {
  ok_content : is_call i = false -> Z.of_nat (length (filter (fun i => is_call i = false) l)) < MAX_CONTENT_ITEMS;
  ok_calls : is_call i = true -> Z.of_nat (length (omap as_tool_call l)) < MAX_TOOL_CALLS;
  ok_bytes : payload_sum l + item_payload_bytes i <= MAX_OUTPUT_PAYLOAD_BYTES;
  ok_id : forall c, item_call_id i = Some c -> c ∉ omap item_call_id l;
  ok_valid : validate_intrinsic i = Ok tt;
  ok_portable : match i with OContent c => is_Some (content_modality c) | _ => True end
}.

Lemma outputs_snoc l i : 0 <= item_payload_bytes i -> outputs_ok (l ++ [i]) <-> outputs_ok l /\ item_ok l i.
Proof.
  intros Hn. split.
  - intros [Hc Ht Hb Hi [Hv Hv']%Forall_app [Hp Hp']%Forall_app]. rewrite contents_snoc in Hc. rewrite calls_snoc in Ht. rewrite payload_sum_snoc in Hb.
    rewrite omap_snoc in Hi. apply NoDup_app in Hi as (Hi & Hd & _). apply Forall_cons in Hv' as [Hv' _], Hp' as [Hp' _].
    split; constructor; try done; try lia; try (destruct (is_call i); lia).
    intros c E Hin. rewrite E in Hd. apply (Hd c Hin). set_solver.
  - intros [[Hc Ht Hb Hi Hv Hp] [Kc Kt Kb Ki Kv Kp]]. constructor.
    + rewrite contents_snoc. destruct (is_call i); [| specialize (Kc eq_refl)]; lia.
    + rewrite calls_snoc. destruct (is_call i); [specialize (Kt eq_refl) |]; lia.
    + by rewrite payload_sum_snoc.
    + rewrite omap_snoc. destruct (item_call_id i) as [c|]; [| by rewrite app_nil_r]. apply NoDup_app. split_and!; [done | | apply NoDup_singleton].
      intros x Hx ->%list_elem_of_singleton. by apply (Ki c).
    + apply Forall_app. by repeat constructor.
    + apply Forall_app. by repeat constructor.
Qed.

(** The state after one more item. *)
Definition item_next (st : ModelOutputItems) (i : ModelOutputItem) : ModelOutputItems :=
  mkItems (item_values st ++ [i]) (content_items st + (if is_call i then 0 else 1)) (tool_calls_count st + (if is_call i then 1 else 0))
    (items_payload_bytes st + item_payload_bytes i)
    (match item_modality i with Some m => bs_insert m (item_modalities st) | None => item_modalities st end)
    (match item_call_id i with Some c => bs_insert c (call_ids st) | None => call_ids st end).

Lemma counted_next l st i : counted l st -> item_ok l i -> counted (l ++ [i]) (item_next st i).
Proof.
  intros [Hv Hc Ht Hb [Hm Hm'] [Hi Hi']] [_ _ _ Ki _ _]. unfold item_next. constructor; simpl.
  - by rewrite Hv.
  - by rewrite contents_snoc, Hc.
  - by rewrite calls_snoc, Ht.
  - by rewrite payload_sum_snoc, Hb.
  - rewrite omap_snoc. destruct (item_modality i) as [m|]; [| by rewrite app_nil_r]. split; [by apply bs_insert_sorted |].
    intros x. rewrite bs_insert_elem, elem_of_app, Hm'. set_solver.
  - rewrite omap_snoc. destruct (item_call_id i) as [c|]; [| by rewrite app_nil_r]. split.
    + apply NoDup_app. split_and!; [done | | apply NoDup_singleton]. intros x Hx ->%list_elem_of_singleton. by apply (Ki c).
    + intros x. rewrite bs_insert_elem, elem_of_app, Hi'. set_solver.
Qed.

(** The payload check of the step. *)
Definition payload_step (st : ModelOutputItems) (i : ModelOutputItem) (m : ModelModalities) (ids : list ProviderId) (c t : Z)
  : result (fault ModelResponseError) ModelOutputItems :=
  observed ← ok_or (Count.checked_add (items_payload_bytes st) (item_payload_bytes i)) (Fail InlinePayloadBytesOverflow);
  if MAX_OUTPUT_PAYLOAD_BYTES <? observed then Err (Fail (InlinePayloadTooLarge MAX_OUTPUT_PAYLOAD_BYTES observed)) else
  Ok (mkItems (item_values st ++ [i]) c t observed m ids).

Lemma payload_step_spec st i m ids c t :
  payload_step st i m ids c t <> Err Panic /\
  forall st', payload_step st i m ids c t = Ok st' <->
    items_payload_bytes st + item_payload_bytes i <= MAX_OUTPUT_PAYLOAD_BYTES /\
    st' = mkItems (item_values st ++ [i]) c t (items_payload_bytes st + item_payload_bytes i) m ids.
Proof.
  assert (Hm : MAX_OUTPUT_PAYLOAD_BYTES < u64_max) by done. unfold payload_step, Count.checked_add.
  destruct (Prelude.checked_add u64_max _ _) as [o|] eqn:E; simpl.
  - apply checked_add_Some in E as [-> _]. destruct (Z.ltb_spec MAX_OUTPUT_PAYLOAD_BYTES (items_payload_bytes st + item_payload_bytes i)).
    + split; [done |]. intros st'. split; [done | lia].
    + split; [done |]. intros st'. split; [intros [= <-]; done | by intros [_ ->]].
  - apply checked_add_None in E. split; [done |]. intros st'. split; [done | lia].
Qed.

(** A refusal that is no panic, against a condition that does not hold. *)
Lemma refused {A} (e : ModelResponseError) (P : A -> Prop) :
  (forall a, ~ P a) -> (Err (Fail e) : result (fault ModelResponseError) A) <> Err Panic /\ forall a, Err (Fail e) = Ok a <-> P a.
Proof. intros HP. split; [done |]. intros a. split; [done | by intros ?%HP]. Qed.

Lemma count_item_spec l st i :
  counted l st -> validate_intrinsic i = Ok tt ->
  (st' ← count_item st i; payload_step st i (item_modalities st') (call_ids st') (content_items st') (tool_calls_count st')) <> Err Panic /\
  (forall st', (st' ← count_item st i; payload_step st i (item_modalities st') (call_ids st') (content_items st') (tool_calls_count st')) = Ok st' <->
     (is_call i = false -> Z.of_nat (length (filter (fun i => is_call i = false) l)) <> MAX_CONTENT_ITEMS) /\
     (is_call i = true -> Z.of_nat (length (omap as_tool_call l)) <> MAX_TOOL_CALLS) /\
     (payload_sum l + item_payload_bytes i <= MAX_OUTPUT_PAYLOAD_BYTES) /\ (forall c, item_call_id i = Some c -> c ∉ omap item_call_id l) /\
     match i with OContent c => is_Some (content_modality c) | _ => True end /\ st' = item_next st i).
Proof.
  intros [Hv Hc Ht Hb [Hm Hm'] [Hi Hi']] Hval. unfold count_item, item_next.
  destruct i as [c|sm|p]; rewrite <- ?Hc, <- ?Ht, <- Hb; unfold item_modality, item_call_id; simpl.
  - destruct (Z.eqb_spec (content_items st) MAX_CONTENT_ITEMS); [apply refused; naive_solver |].
    destruct (content_modality c) as [m|] eqn:Em; simpl.
    + destruct (payload_step_spec st (OContent c) (bs_insert m (item_modalities st)) (call_ids st) (content_items st + 1) (tool_calls_count st)) as [Hp Hq].
      split; [done |]. intros st'. rewrite Hq. simpl. rewrite Z.add_0_r. naive_solver.
    + destruct c; try done. simpl. apply refused. intros st' (_ & _ & _ & _ & [? ?] & _). done.
  - destruct (Z.eqb_spec (content_items st) MAX_CONTENT_ITEMS); [apply refused; naive_solver |]. simpl.
    destruct (payload_step_spec st (OReasoningSummary sm) (item_modalities st) (call_ids st) (content_items st + 1) (tool_calls_count st)) as [Hp Hq].
    split; [done |]. intros st'. rewrite Hq. simpl. rewrite Z.add_0_r. naive_solver.
  - destruct (Z.eqb_spec (tool_calls_count st) MAX_TOOL_CALLS); [apply refused; naive_solver |].
    destruct (provider_call_id p) as [id|]; simpl.
    + destruct (bs_contains id (call_ids st)) eqn:Ec; simpl.
      * apply bs_contains_iff, Hi' in Ec. apply refused. naive_solver.
      * apply bs_contains_false in Ec. rewrite Hi' in Ec.
        destruct (payload_step_spec st (OToolCall p) (item_modalities st) (bs_insert id (call_ids st)) (content_items st) (tool_calls_count st + 1)) as [Hp Hq].
        split; [done |]. intros st'. rewrite Hq. simpl. rewrite Z.add_0_r. naive_solver.
    + destruct (payload_step_spec st (OToolCall p) (item_modalities st) (call_ids st) (content_items st) (tool_calls_count st + 1)) as [Hp Hq].
      split; [done |]. intros st'. rewrite Hq. simpl. rewrite Z.add_0_r. naive_solver.
Qed.

(** The count leaves the values and the bytes as they were. *)
Lemma count_item_frame st i st' : count_item st i = Ok st' -> item_values st' = item_values st /\ items_payload_bytes st' = items_payload_bytes st.
Proof.
  unfold count_item. destruct i; intros H; open_guards H; simplify_eq; try done.
Qed.

Lemma push_item_eq st i :
  push_output_item st i =
  if Z.of_nat (length (item_values st)) =? MAX_ITEMS then Err (Fail (TooManyOutputItems MAX_ITEMS (MAX_ITEMS + 1))) else
  _ ← map_err (fun error => Fail (InvalidOutputItem (Z.of_nat (length (item_values st))) error)) (validate_intrinsic i);
  st' ← count_item st i;
  payload_step st i (item_modalities st') (call_ids st') (content_items st') (tool_calls_count st').
Proof.
  unfold push_output_item. case_match; [done |]. destruct (validate_intrinsic i); [| done]. cbn [map_err mbind result_bind].
  destruct (count_item st i) as [st'|] eqn:E; [| done]. apply count_item_frame in E as [Ev Eb]. cbn [mbind result_bind]. unfold payload_step.
  by rewrite Ev, Eb.
Qed.

(** A step refuses exactly the items that are not acceptable, without a panic. *)
Lemma push_spec l st i :
  counted l st -> outputs_ok l ->
  push_output_item st i <> Err Panic /\ (forall st', push_output_item st i = Ok st' <-> item_ok l i /\ st' = item_next st i).
Proof.
  intros Hcnt [Oc Ot _ _ _ _]. pose proof (items_split l) as Hs. rewrite push_item_eq, (cnt_values _ _ Hcnt).
  destruct (Z.eqb_spec (Z.of_nat (length l)) MAX_ITEMS) as [E|_].
  { apply refused. intros st' [[Kc Kt _ _ _ _] _]. unfold MAX_ITEMS in E. destruct (is_call i); [specialize (Kt eq_refl) | specialize (Kc eq_refl)]; lia. }
  destruct (validate_intrinsic i) as [[]|e] eqn:Ev; [| apply refused; intros st' [[] _]; congruence]. cbn [map_err mbind result_bind].
  destruct (count_item_spec l st i Hcnt Ev) as [Hp Hq]. split; [done |]. intros st'. rewrite Hq. split.
  - intros (Kc & Kt & Kb & Ki & Kp & ->). split; [| done].
    constructor; try done; intros E; [specialize (Kc E) | specialize (Kt E)]; lia.
  - intros [[Kc Kt Kb Ki _ Kp] ->]. split_and!; try done; intros E; [specialize (Kc E) | specialize (Kt E)]; lia.
Qed.

Lemma items_loop l :
  Forall (fun i => 0 <= item_payload_bytes i) l ->
  try_fold push_output_item items_empty l <> Err Panic /\
  (outputs_ok l -> exists st, try_fold push_output_item items_empty l = Ok st) /\
  (forall st, try_fold push_output_item items_empty l = Ok st -> outputs_ok l /\ counted l st).
Proof.
  induction l as [|i l IH] using rev_ind; intros Hn.
  { split_and!; [done | by eexists |]. intros st [= <-]. split; [apply outputs_nil | apply counted_nil]. }
  apply Forall_app in Hn as [Hn [Hi _]%Forall_cons]. destruct (IH Hn) as (IHp & IHc & IHs). rewrite try_fold_app.
  destruct (try_fold push_output_item items_empty l) as [st|e] eqn:E; simpl.
  - destruct (IHs st eq_refl) as [Ho Hc]. destruct (push_spec l st i Hc Ho) as [Hp Hq]. split_and!.
    + intros HP. apply bind_panic in HP as [?|(? & _ & ?)]; done.
    + intros [_ Hk]%outputs_snoc; [| done]. eexists. rewrite (proj2 (Hq _) (conj Hk eq_refl)). done.
    + intros st' (st1 & [Hk ->]%Hq & [= <-])%bind_Ok. split; [by apply outputs_snoc | by apply counted_next].
  - split_and!; [by intros [= ->] | | done]. intros [Ho _]%outputs_snoc; [| done]. destruct (IHc Ho). done.
Qed.

Lemma items_counted l st : Forall (fun i => 0 <= item_payload_bytes i) l -> items_try_new l = Ok st -> counted l st.
Proof.
  intros Hn (st1 & H1 & H2)%bind_Ok. apply bind_Ok in H2 as (u & _ & [= <-]). by apply (items_loop l Hn).
Qed.

Lemma output_items_safe l : Forall (fun i => 0 <= item_payload_bytes i) l -> items_try_new l <> Err Panic.
Proof.
  intros Hn HP. destruct (items_loop l Hn) as (Hp & _ & Hs). apply bind_panic in HP as [HP|(st & H1 & HP)]; [done |].
  destruct (Hs st H1) as [_ Hc]. rewrite (modalities_accept _ (proj1 (cnt_modalities _ _ Hc))) in HP. done.
Qed.

(** a list of model output items is accepted exactly when it has at most
    256 content items and 1,024 tool calls, every content item is untrusted model
    output of a portable modality, no provider call identifier is repeated and
    the inline payload is at most 64 MiB; the accepted collection keeps the
    items in order with the exact counts, bytes and set of modalities, and the
    two [expect]s of the constructor never fail. *)
Theorem model_output_accounting (l : list ModelOutputItem) (Hn : Forall (fun i => 0 <= item_payload_bytes i) l) :
  items_try_new l <> Err Panic /\
  ((exists st, items_try_new l = Ok st) <-> outputs_ok l) /\
  (forall st, items_try_new l = Ok st -> counted l st).
Proof.
  destruct (items_loop l Hn) as (Hp & Hc & Hs). unfold items_try_new.
  destruct (try_fold push_output_item items_empty l) as [st|e]; simpl.
  - destruct (Hs st eq_refl) as [Ho Hcnt]. rewrite (modalities_accept _ (proj1 (cnt_modalities _ _ Hcnt))). simpl.
    split_and!; [done | split; [done | by exists st] | by intros st' [= <-]].
  - split_and!; [by intros [= ->] | split; [by intros [? ?] | intros Ho; by destruct (Hc Ho)] | done].
Qed.

Definition pay : CapabilityIdentity :=
  mkIdentity (mkPrincipal (bytes_of "https://i") (bytes_of "s")) (mkReference (bytes_of "pay") (Version.mkVersion 1 0 0)).
Definition proposing (id : bytes) : ModelOutputItem :=
  OToolCall (mkProposal pay (Some id) (mkBoundedJson (Obj []) (mkJsonStats 2 1 1)) Extension.Extension.extensions_default).

Lemma model_output_accounting_witness :
  (exists st, items_try_new [proposing (bytes_of "a"); proposing (bytes_of "b")] = Ok st) /\ ~ (exists st, items_try_new [proposing (bytes_of "a"); proposing (bytes_of "a")] = Ok st).
Proof.
  split.
  - apply model_output_accounting; [repeat constructor; vm_compute; done |]. constructor; try (vm_compute; done).
    + apply NoDup_cons. split; [vm_compute; set_solver | apply NoDup_singleton].
    + by repeat constructor.
    + by repeat constructor.
  - destruct (model_output_accounting [proposing (bytes_of "a"); proposing (bytes_of "a")] ltac:(repeat constructor; vm_compute; done)) as (_ & Hx & _).
    intros [_ _ _ Hi _ _]%Hx. apply NoDup_cons in Hi as [Hi _]. apply Hi. vm_compute. by left.
Defined.

End OutputLaws.
