(* ===== verification/ModelTranscript.v ===== *)
(** Transcripts (crates/stateknot-core/src/model_transcript.rs): the outcomes of
    the tool calls a response proposed, turns that pair them, and the bounded
    transcript of completed turns.

    The canonical encoder of a turn is a parameter; an [expect] that fails is
    the fault [Panic]. *)

From Stdlib Require Import ZArith Lia List.
From stdpp Require Import prelude.
From S2P Require Import Prelude Ordered Json Digests Ids Decimal BoundedJson Content Extension Accounting Time Capability Run Message Model Tool ModelResponse.

Open Scope Z_scope.

Module Transcripts.
Import Capability Responses.

(** * Tool outcomes *)

Record ModelToolFailure := mkToolFailure {
  tf_invocation_id : Z;
  tf_attempt_id : Z;
  tf_tool : CapabilityIdentity;
  tf_failure_id : Z;
  tf_category : FailureCategory;
  tf_code : bytes;
  tf_message : bytes;
  tf_retry_advice : RetryAdvice;
  tf_external_effect : Tools.ToolExternalEffect
}.
#[global] Instance RetryAdvice_eq_dec : EqDecision RetryAdvice.
Proof. solve_decision. Defined.
#[global] Instance ModelToolFailure_eq_dec : EqDecision ModelToolFailure.
Proof. solve_decision. Defined.

Definition from_tool_error {Details} (error : Tools.ToolError Details) : ModelToolFailure :=
  let prov := Tools.error_provenance error in
  let f := Tools.failure error in
  mkToolFailure (Tools.prov_invocation_id prov) (Tools.prov_attempt_id prov) (Tools.prov_tool prov) (failure_id f) (category f)
    (code f) (message f) (retry_advice f) (Tools.external_effect error).

Inductive ModelToolFailureError := InvalidAmbiguityEvidence.

Definition tool_failure_validate (self : ModelToolFailure) : result ModelToolFailureError unit :=
  let ambiguous := bool_decide (tf_category self = AmbiguousExternalOutcome) in
  if negb (Bool.eqb ambiguous (Tools.requires_reconciliation (tf_retry_advice self))) ||
     negb (Bool.eqb ambiguous (bool_decide (tf_external_effect self = Tools.Unknown)))
  then Err InvalidAmbiguityEvidence else Ok tt.

Inductive ModelToolOutcome :=
| OSucceeded (provider_call_id : ProviderId) (result : Tools.ToolResult)
| OFailed (provider_call_id : ProviderId) (error : ModelToolFailure).
#[global] Instance ModelToolOutcome_eq_dec : EqDecision ModelToolOutcome.
Proof. solve_decision. Defined.

Definition outcome_failed {Details} (call : ProviderId) (error : Tools.ToolError Details) : ModelToolOutcome := OFailed call (from_tool_error error).

Definition outcome_call_id (self : ModelToolOutcome) : ProviderId := match self with OSucceeded id _ | OFailed id _ => id end.
Definition outcome_invocation_id (self : ModelToolOutcome) : Z :=
  match self with OSucceeded _ r => Tools.prov_invocation_id (Tools.result_provenance r) | OFailed _ e => tf_invocation_id e end.
Definition outcome_attempt_id (self : ModelToolOutcome) : Z :=
  match self with OSucceeded _ r => Tools.prov_attempt_id (Tools.result_provenance r) | OFailed _ e => tf_attempt_id e end.
Definition outcome_tool (self : ModelToolOutcome) : CapabilityIdentity :=
  match self with OSucceeded _ r => Tools.prov_tool (Tools.result_provenance r) | OFailed _ e => tf_tool e end.
Definition outcome_is_ambiguous (self : ModelToolOutcome) : bool :=
  match self with OFailed _ e => bool_decide (tf_external_effect e = Tools.Unknown) | OSucceeded _ _ => false end.

(** * Turns *)

Record ModelTranscriptTurn := mkTurn { turn_response : ModelResponse; outcomes : list ModelToolOutcome }.
#[global] Instance ModelTranscriptTurn_eq_dec : EqDecision ModelTranscriptTurn.
Proof. solve_decision. Defined.

Inductive ModelTranscriptTurnError :=
| ResponseHasNoToolCalls
| MissingProviderReplay
| OutcomeCountMismatch (expected actual : Z)
| MissingProviderCallId (index : Z)
| ProviderCallIdMismatch (index : Z)
| TurnToolIdentityMismatch (index : Z) (expected actual : CapabilityIdentity)
| TurnDuplicateInvocationId (invocation_id : Z)
| TurnAmbiguousExternalOutcome (index : Z).

(** The loop over [tool_calls().zip(outcomes).enumerate()]. *)
Fixpoint check_outcomes (index : Z) (seen : list Z) (calls : list ModelToolCallProposal) (l : list ModelToolOutcome)
  : result ModelTranscriptTurnError unit :=
  match calls, l with
  | proposal :: calls', outcome :: l' =>
      expected ← ok_or (provider_call_id proposal) (MissingProviderCallId index);
      if negb (bool_decide (outcome_call_id outcome = expected)) then Err (ProviderCallIdMismatch index) else
      if negb (bool_decide (outcome_tool outcome = proposal_tool proposal))
      then Err (TurnToolIdentityMismatch index (proposal_tool proposal) (outcome_tool outcome)) else
      if bs_contains (outcome_invocation_id outcome) seen then Err (TurnDuplicateInvocationId (outcome_invocation_id outcome)) else
      if outcome_is_ambiguous outcome then Err (TurnAmbiguousExternalOutcome index) else
      check_outcomes (index + 1) (bs_insert (outcome_invocation_id outcome) seen) calls' l'
  | _, _ => Ok tt
  end.

Definition turn_new (response : ModelResponse) (l : list ModelToolOutcome) : result ModelTranscriptTurnError ModelTranscriptTurn :=
  if negb (bool_decide (finish_reason response = FToolCalls)) then Err ResponseHasNoToolCalls else
  if is_none (provider_replay response) then Err MissingProviderReplay else
  if negb (Z.of_nat (length l) =? tool_calls_count (output response))
  then Err (OutcomeCountMismatch (tool_calls_count (output response)) (Z.of_nat (length l))) else
  _ ← check_outcomes 0 [] (response_tool_calls response) l;
  Ok (mkTurn response l).

(** * Transcripts *)

Record ModelTranscript := mkTranscript { turns : list ModelTranscriptTurn; transcript_payload_bytes : Count.Count }.
#[global] Instance ModelTranscript_eq_dec : EqDecision ModelTranscript.
Proof. solve_decision. Defined.

Definition transcript_empty : ModelTranscript := mkTranscript [] 0.

Inductive ModelTranscriptError :=
| TooManyTurns (maximum actual : Z)
| ModelIdentityDrift
| ProviderFormatDrift
| DuplicateAttemptId (attempt_id : Z)
| DuplicateProviderCallId
| DuplicateInvocationId (invocation_id : Z)
| PayloadBytesOverflow
| PayloadTooLarge (maximum actual : Count.Count).

Definition MAX_TURNS : Z := 1024.
Definition MAX_PAYLOAD_BYTES : Count.Count := 64 * MEBIBYTE.

(** The variables of the loop of [try_new]. *)
Record TranscriptLoop := mkLoop {
  loop_turns : list ModelTranscriptTurn;
  loop_bytes : Count.Count;
  loop_model : option CapabilityIdentity;
  loop_format : option bytes;
  loop_attempts : list Z;
  loop_calls : list ProviderId;
  loop_invocations : list Z
}.

Definition loop_initial : TranscriptLoop := mkLoop [] 0 None None [] [] [].

(** [set.insert(x)] that must be new. *)
Definition insert_new {K E} `{RustOrd K} (x : K) (s : list K) (e : E) : result E (list K) :=
  if bs_contains x s then Err e else Ok (bs_insert x s).

(** Established by the first turn and equal in every later one. *)
Definition establish {A E} `{EqDecision A} (expected : option A) (actual : A) (e : E) : result E (option A) :=
  match expected with
  | Some x => if negb (bool_decide (actual = x)) then Err e else Ok expected
  | None => Ok (Some actual)
  end.

Definition turn_outcome_step (st : list Z * list ProviderId * list Z) (outcome : ModelToolOutcome)
  : result (fault ModelTranscriptError) (list Z * list ProviderId * list Z) :=
  let '(attempts, calls, invocations) := st in
  attempts ← insert_new (outcome_attempt_id outcome) attempts (Fail (DuplicateAttemptId (outcome_attempt_id outcome)));
  calls ← insert_new (outcome_call_id outcome) calls (Fail DuplicateProviderCallId);
  invocations ← insert_new (outcome_invocation_id outcome) invocations (Fail (DuplicateInvocationId (outcome_invocation_id outcome)));
  Ok (attempts, calls, invocations).

Section Encoding.
Context `{Canonical ModelTranscriptTurn}.

Definition transcript_bytes_step (st : TranscriptLoop) (turn : ModelTranscriptTurn) : result (fault ModelTranscriptError) Count.Count :=
  encoded ← ok_or (to_vec turn) Panic;
  let framing_bytes := if (length (loop_turns st) =? 0)%nat then 2 else 1 in
  additional ← ok_or (Count.checked_add (Z.of_nat (length encoded)) framing_bytes) (Fail PayloadBytesOverflow);
  actual ← ok_or (Count.checked_add (loop_bytes st) additional) (Fail PayloadBytesOverflow);
  if MAX_PAYLOAD_BYTES <? actual then Err (Fail (PayloadTooLarge MAX_PAYLOAD_BYTES actual)) else Ok actual.

Definition transcript_step (st : TranscriptLoop) (turn : ModelTranscriptTurn) : result (fault ModelTranscriptError) TranscriptLoop :=
  if Z.of_nat (length (loop_turns st)) =? MAX_TURNS then Err (Fail (TooManyTurns MAX_TURNS (MAX_TURNS + 1))) else
  let prov := response_provenance (turn_response turn) in
  model ← establish (loop_model st) (mp_model prov) (Fail ModelIdentityDrift);
  replay ← ok_or (provider_replay (turn_response turn)) Panic;
  format ← establish (loop_format st) (replay_format replay) (Fail ProviderFormatDrift);
  attempts ← insert_new (mp_attempt_id prov) (loop_attempts st) (Fail (DuplicateAttemptId (mp_attempt_id prov)));
  '(attempts, calls, invocations) ← try_fold turn_outcome_step (attempts, loop_calls st, loop_invocations st) (outcomes turn);
  actual ← transcript_bytes_step st turn;
  Ok (mkLoop (loop_turns st ++ [turn]) actual model format attempts calls invocations).

Definition transcript_try_new (l : list ModelTranscriptTurn) : result (fault ModelTranscriptError) ModelTranscript :=
  st ← try_fold transcript_step loop_initial l;
  Ok (mkTranscript (loop_turns st) (loop_bytes st)).
End Encoding.

Definition transcript_model (self : ModelTranscript) : option CapabilityIdentity :=
  (fun turn => mp_model (response_provenance (turn_response turn))) <$> List.hd_error (turns self).

End Transcripts.

(** Laws of model transcripts ([ModelTranscript.v]): turns pair every proposed
    call with one settled outcome, and a transcript is accepted exactly when its
    identities are unique, its model and format constant, and its canonical
    encoding within the bound. *)

Module TranscriptLaws.
Import Capability Responses Transcripts.

(** * Turns *)

Definition paired (p : ModelToolCallProposal) (o : ModelToolOutcome) : Prop :=
  provider_call_id p = Some (outcome_call_id o) /\ outcome_tool o = proposal_tool p /\ outcome_is_ambiguous o = false.

Lemma check_outcomes_Ok calls l index seen :
  length calls = length l ->
  check_outcomes index seen calls l = Ok tt <->
  Forall2 paired calls l /\ NoDup (outcome_invocation_id <$> l) /\ (forall o, o ∈ l -> outcome_invocation_id o ∉ seen).
Proof.
  revert l index seen. induction calls as [|p calls IH]; intros [|o l] index seen Hl; try done.
  { simpl. split; [| done]. intros _. split_and!; [constructor | constructor | set_solver]. }
  simpl in Hl. cbn [check_outcomes]. rewrite Forall2_cons, fmap_cons, NoDup_cons. unfold paired at 1.
  destruct (provider_call_id p) as [id|] eqn:Eid; simpl; [| split; [done | naive_solver]].
  destruct (bool_decide_reflect (outcome_call_id o = id)) as [<-|]; simpl; [| split; [done | naive_solver]].
  destruct (bool_decide_reflect (outcome_tool o = proposal_tool p)); simpl; [| split; [done | naive_solver]].
  destruct (bs_contains (outcome_invocation_id o) seen) eqn:Es; simpl.
  { apply bs_contains_iff in Es. split; [done |]. intros (_ & _ & H). exfalso. apply (H o); [set_solver | done]. }
  apply bs_contains_false in Es. destruct (outcome_is_ambiguous o); simpl; [split; [done | naive_solver] |].
  rewrite IH by lia. setoid_rewrite bs_insert_elem. setoid_rewrite list_elem_of_fmap. split.
  - intros (H2 & Hn & Hs). split_and!; try done; [| set_solver]. intros (o' & He & Ho'). apply (Hs o' Ho'). by left.
  - intros ((_ & H2) & (Hni & Hn) & Hs). split_and!; try done. intros o' Ho' [He|He]; [apply Hni; by exists o' | apply (Hs o'); [set_solver | done]].
Qed.

(** The count a response keeps is that of its proposals. *)
Definition response_counts (r : ModelResponse) : Prop := tool_calls_count (output r) = Z.of_nat (length (response_tool_calls r)).

Lemma turn_new_Ok r l t :
  response_counts r ->
  turn_new r l = Ok t <->
  t = mkTurn r l /\ finish_reason r = FToolCalls /\ is_Some (provider_replay r) /\ Forall2 paired (response_tool_calls r) l /\
  NoDup (outcome_invocation_id <$> l).
Proof.
  intros Hc. unfold turn_new. destruct (bool_decide_reflect (finish_reason r = FToolCalls)); simpl; [| split; [done | naive_solver]].
  destruct (provider_replay r) as [rp|]; simpl; [| split; [done | intros (_ & _ & [? ?] & _); done]].
  rewrite Hc. destruct (Z.eqb_spec (Z.of_nat (length l)) (Z.of_nat (length (response_tool_calls r)))) as [El|El]; simpl.
  - assert (Hl : length (response_tool_calls r) = length l) by lia. pose proof (check_outcomes_Ok _ _ 0 [] Hl) as Hck.
    destruct (check_outcomes 0 [] (response_tool_calls r) l) as [[]|err]; simpl.
    + destruct (proj1 Hck eq_refl) as (H2 & Hn & _). split; [intros [= <-]; split_and!; eauto | naive_solver].
    + split; [done |]. intros (_ & _ & _ & H2 & Hn). assert (Err err = Ok tt) as He; [| done]. apply Hck. split_and!; [done | done | set_solver].
  - split; [done |]. intros (_ & _ & _ & H2 & _). apply Forall2_length in H2. lia.
Qed.

(** a response made of accounted output items becomes a turn exactly when it
    ended in tool calls, kept its provider replay, and was given one outcome per
    proposed call, in order, each for the same provider call and tool, none of
    them ambiguous, and no tool invocation answering two of them. *)
Theorem model_turn_pairs_calls items r l t :
  Forall (fun i => 0 <= item_payload_bytes i) items -> items_try_new items = Ok (output r) ->
  turn_new r l = Ok t <->
  t = mkTurn r l /\ finish_reason r = FToolCalls /\ is_Some (provider_replay r) /\ Forall2 paired (omap as_tool_call items) l /\
  NoDup (outcome_invocation_id <$> l).
Proof.
  intros Hn Hi. pose proof (OutputLaws.items_counted items _ Hn Hi) as Hc.
  rewrite turn_new_Ok by (unfold response_counts, response_tool_calls; by rewrite (OutputLaws.cnt_calls _ _ Hc), (OutputLaws.cnt_values _ _ Hc)).
  unfold response_tool_calls. by rewrite (OutputLaws.cnt_values _ _ Hc).
Qed.

(** A failure projected from a constructed tool error validates. *)
Lemma tool_failure_valid {Details} (e : Tools.ToolError Details) :
  Tools.tool_error_wf e -> tool_failure_validate (from_tool_error e) = Ok tt.
Proof.
  intros (Hf & Hu & _). unfold tool_failure_validate, from_tool_error. simpl.
  destruct (bool_decide_reflect (category (Tools.failure e) = AmbiguousExternalOutcome)) as [E|E].
  - rewrite (bool_decide_true (Tools.external_effect e = Tools.Unknown)) by (by apply Hu). rewrite E in Hf.
    by destruct (retry_advice (Tools.failure e)).
  - rewrite (bool_decide_false (Tools.external_effect e = Tools.Unknown)) by (by rewrite Hu).
    by destruct (category (Tools.failure e)), (retry_advice (Tools.failure e)).
Qed.

(** * Transcripts *)

Section Transcripts.
Context `{Canonical ModelTranscriptTurn}.

Definition turn_model (t : ModelTranscriptTurn) : CapabilityIdentity := mp_model (response_provenance (turn_response t)).
Definition turn_attempts (t : ModelTranscriptTurn) : list Z := mp_attempt_id (response_provenance (turn_response t)) :: (outcome_attempt_id <$> outcomes t).
Definition turn_calls (t : ModelTranscriptTurn) : list ProviderId := outcome_call_id <$> outcomes t.
Definition turn_invocations (t : ModelTranscriptTurn) : list Z := outcome_invocation_id <$> outcomes t.

(** The replay format of a turn that has a replay. *)
Definition format_of (t : ModelTranscriptTurn) : option bytes := replay_format <$> provider_replay (turn_response t).

(** Turns as their constructor makes them, with an encoding. *)
Definition turn_wf (t : ModelTranscriptTurn) : Prop := is_Some (provider_replay (turn_response t)) /\ is_Some (to_vec t).

Definition turn_size (t : ModelTranscriptTurn) : Z := match to_vec t with Some b => Z.of_nat (length b) | None => 0 end.

(** The length of the canonical array: brackets, elements and commas. *)
Definition array_size (l : list ModelTranscriptTurn) : Z :=
  match l with [] => 0 | _ => 1 + Z.of_nat (length l) + foldr (fun t n => turn_size t + n) 0 l end.

Lemma array_size_snoc l t : array_size (l ++ [t]) = array_size l + turn_size t + (if (length l =? 0)%nat then 2 else 1).
Proof.
  unfold array_size. destruct l as [|x l]; simpl; [lia |]. rewrite length_app. simpl. rewrite foldr_app. simpl.
  assert (Hf : forall m n, foldr (fun t n => turn_size t + n) n m = foldr (fun t n => turn_size t + n) 0 m + n).
  { induction m as [|y m IH]; intros n; simpl; [lia |]. rewrite IH. lia. }
  rewrite (Hf l (turn_size t + 0)). lia.
Qed.

Lemma array_size_nonneg l : 0 <= array_size l.
Proof.
  unfold array_size. destruct l as [|x l]; [done |]. assert (Hf : forall m, 0 <= foldr (fun t n => turn_size t + n) 0 m).
  { induction m as [|y m IH]; simpl; [done |]. unfold turn_size at 1. destruct (to_vec y); lia. }
  specialize (Hf (x :: l)). lia.
Qed.

(** The loop state after a list of accepted turns. *)
Definition loop_of (l : list ModelTranscriptTurn) (st : TranscriptLoop) : Prop :=
  loop_turns st = l /\ loop_bytes st = array_size l /\
  loop_model st = turn_model <$> List.hd_error l /\
  loop_format st = (List.hd_error l ≫= fun t => replay_format <$> provider_replay (turn_response t)) /\
  (forall x, x ∈ loop_attempts st <-> x ∈ l ≫= turn_attempts) /\ (forall x, x ∈ loop_calls st <-> x ∈ l ≫= turn_calls) /\
  (forall x, x ∈ loop_invocations st <-> x ∈ l ≫= turn_invocations).

Lemma insert_new_Ok {K E} `{RustOrd K} (x : K) s (e : E) s' : insert_new x s e = Ok s' <-> x ∉ s /\ s' = bs_insert x s.
Proof.
  unfold insert_new. destruct (bs_contains x s) eqn:Ec; [apply bs_contains_iff in Ec | apply bs_contains_false in Ec]; naive_solver.
Qed.

Definition sets := (list Z * list ProviderId * list Z)%type.

Lemma outcome_step_Ok a c i o (st' : sets) :
  turn_outcome_step (a, c, i) o = Ok st' <->
  outcome_attempt_id o ∉ a /\ outcome_call_id o ∉ c /\ outcome_invocation_id o ∉ i /\
  st' = (bs_insert (outcome_attempt_id o) a, bs_insert (outcome_call_id o) c, bs_insert (outcome_invocation_id o) i).
Proof.
  unfold turn_outcome_step. split.
  - intros (a' & [Ha ->]%insert_new_Ok & (c' & [Hc ->]%insert_new_Ok & (i' & [Hi ->]%insert_new_Ok & [= <-])%bind_Ok)%bind_Ok)%bind_Ok. done.
  - intros (Ha & Hc & Hi & ->). apply bind_Ok. eexists. split; [by apply insert_new_Ok |]. apply bind_Ok. eexists. split; [by apply insert_new_Ok |].
    apply bind_Ok. eexists. split; [by apply insert_new_Ok | done].
Qed.

(** New keys: distinct and not seen before. *)
Definition fresh {K} (keys seen : list K) : Prop := NoDup keys /\ forall x, x ∈ keys -> x ∉ seen.

Lemma fresh_cons {K} `{RustOrd K} (k : K) ks seen : fresh (k :: ks) seen <-> k ∉ seen /\ fresh ks (bs_insert k seen).
Proof.
  unfold fresh. rewrite NoDup_cons. setoid_rewrite bs_insert_elem. set_solver.
Qed.

Lemma outcome_fold_Ok l a c i (st' : sets) :
  try_fold turn_outcome_step (a, c, i) l = Ok st' <->
  fresh (outcome_attempt_id <$> l) a /\ fresh (outcome_call_id <$> l) c /\ fresh (outcome_invocation_id <$> l) i /\
  st' = (bs_extend a (outcome_attempt_id <$> l), bs_extend c (outcome_call_id <$> l), bs_extend i (outcome_invocation_id <$> l)).
Proof.
  revert a c i. induction l as [|o l IH]; intros a c i.
  { simpl. unfold fresh. split; [intros [= <-]; split_and!; try done; try constructor; set_solver | by intros (_ & _ & _ & ->)]. }
  cbn [try_fold]. rewrite !fmap_cons, !fresh_cons. pose proof (outcome_step_Ok a c i o) as Hs.
  destruct (turn_outcome_step (a, c, i) o) as [st1|]; simpl.
  - destruct (proj1 (Hs st1) eq_refl) as (Ha & Hc & Hi & ->). rewrite IH. tauto.
  - split; [done |]. intros ([Ha _] & [Hc _] & [Hi _] & _).
    discriminate (proj2 (Hs _) (conj Ha (conj Hc (conj Hi eq_refl)))).
Qed.

Lemma fresh_app {K} (l ks seen : list K) :
  (forall x, x ∈ seen <-> x ∈ l) -> NoDup l -> fresh ks seen <-> NoDup (l ++ ks).
Proof. intros Hs Hl. unfold fresh. rewrite NoDup_app. setoid_rewrite Hs. naive_solver. Qed.

(** Equal on every element of a list. *)
Definition constant {A B} (f : A -> B) (l : list A) : Prop := forall x y, x ∈ l -> y ∈ l -> f x = f y.

Lemma constant_snoc {A B} (f : A -> B) l t : constant f (l ++ [t]) <-> constant f l /\ (forall m, f <$> List.hd_error l = Some m -> f t = m).
Proof.
  unfold constant. split.
  - intros HC. split; [intros x y Hx Hy; apply HC; set_solver |]. intros m Hh. destruct l as [|x l]; [done |]. injection Hh as <-.
    apply HC; set_solver.
  - intros [HC Hh] x y Hx Hy. destruct l as [|z l]; [set_solver |]. specialize (Hh _ eq_refl).
    assert (Hz : forall w, w ∈ (z :: l) ++ [t] -> f w = f z).
    { intros w [Hw|Hw]%elem_of_app; [apply HC; set_solver |]. apply list_elem_of_singleton in Hw as ->. done. }
    by rewrite (Hz x Hx), (Hz y Hy).
Qed.

(** What a transcript must satisfy. *)
Record accepted (l : list ModelTranscriptTurn) : Prop := {
  acc_len : Z.of_nat (length l) <= MAX_TURNS;
  acc_model : constant turn_model l;
  acc_format : constant format_of l;
  acc_attempts : NoDup (l ≫= turn_attempts);
  acc_calls : NoDup (l ≫= turn_calls);
  acc_invocations : NoDup (l ≫= turn_invocations);
  acc_bytes : array_size l <= MAX_PAYLOAD_BYTES
}.

Lemma establish_Ok {A E} `{EqDecision A} (expected : option A) (actual : A) (e : E) o :
  establish expected actual e = Ok o <-> (forall x, expected = Some x -> actual = x) /\ o = Some actual.
Proof.
  unfold establish. destruct expected as [x|]; [| naive_solver]. destruct (bool_decide_reflect (actual = x)); simpl; naive_solver.
Qed.

Lemma bytes_step_Ok st t n :
  is_Some (to_vec t) -> 0 <= loop_bytes st ->
  transcript_bytes_step st t = Ok n <->
  n = loop_bytes st + turn_size t + (if (length (loop_turns st) =? 0)%nat then 2 else 1) /\ n <= MAX_PAYLOAD_BYTES.
Proof.
  intros [b Hb] Hnn. unfold transcript_bytes_step, turn_size. rewrite Hb. simpl. set (k := if (length (loop_turns st) =? 0)%nat then 2 else 1).
  assert (Hk : 0 < k) by (subst k; destruct (length (loop_turns st) =? 0)%nat; done). assert (Hm : MAX_PAYLOAD_BYTES < u64_max) by done.
  unfold Count.checked_add. destruct (Prelude.checked_add u64_max (Z.of_nat (length b)) k) as [x|] eqn:E1; simpl.
  2: { apply checked_add_None in E1. split; [done | lia]. }
  apply checked_add_Some in E1 as [-> _]. destruct (Prelude.checked_add u64_max (loop_bytes st) _) as [y|] eqn:E2; simpl.
  2: { apply checked_add_None in E2. split; [done | lia]. }
  apply checked_add_Some in E2 as [-> _]. destruct (Z.ltb_spec MAX_PAYLOAD_BYTES (loop_bytes st + (Z.of_nat (length b) + k))).
  - split; [done | lia].
  - split; [intros [= <-]; lia | intros [-> _]; f_equal; lia].
Qed.

(** What a step checks, in the terms of its state. *)
Record step_checks (st : TranscriptLoop) (t : ModelTranscriptTurn) (r : ModelProviderReplay) : Prop := {
  chk_len : Z.of_nat (length (loop_turns st)) <> MAX_TURNS;
  chk_model : forall m, loop_model st = Some m -> turn_model t = m;
  chk_format : forall f, loop_format st = Some f -> replay_format r = f;
  chk_attempts : fresh (turn_attempts t) (loop_attempts st);
  chk_calls : fresh (turn_calls t) (loop_calls st);
  chk_invocations : fresh (turn_invocations t) (loop_invocations st);
  chk_bytes : loop_bytes st + turn_size t + (if (length (loop_turns st) =? 0)%nat then 2 else 1) <= MAX_PAYLOAD_BYTES
}.

Definition step_next (st : TranscriptLoop) (t : ModelTranscriptTurn) (r : ModelProviderReplay) : TranscriptLoop :=
  mkLoop (loop_turns st ++ [t]) (loop_bytes st + turn_size t + (if (length (loop_turns st) =? 0)%nat then 2 else 1))
    (Some (turn_model t)) (Some (replay_format r)) (bs_extend (loop_attempts st) (turn_attempts t))
    (bs_extend (loop_calls st) (turn_calls t)) (bs_extend (loop_invocations st) (turn_invocations t)).

Lemma step_Ok st t r st' :
  0 <= loop_bytes st -> is_Some (to_vec t) -> provider_replay (turn_response t) = Some r ->
  transcript_step st t = Ok st' <-> step_checks st t r /\ st' = step_next st t r.
Proof.
  intros Hnn Hv Hr. unfold transcript_step. rewrite Hr. split.
  - intros HS. destruct (Z.eqb_spec (Z.of_nat (length (loop_turns st))) MAX_TURNS) as [|Hlen]; [done |].
    apply bind_Ok in HS as (m & [Hm ->]%establish_Ok & HS). apply bind_Ok in HS as (r' & [= <-] & HS). apply bind_Ok in HS as (f & [Hf ->]%establish_Ok & HS).
    apply bind_Ok in HS as (a & [Ha ->]%insert_new_Ok & HS). apply bind_Ok in HS as ([[a' c'] i'] & (Fa & Fc & Fi & [= -> -> ->])%outcome_fold_Ok & HS).
    apply bind_Ok in HS as (n & [-> Hb]%bytes_step_Ok & [= <-]); [| done..]. split; [| done]. constructor; try done. by apply fresh_cons.
  - intros [[Hl Hm Hf [Ha Fa]%fresh_cons Fc Fi Hb] ->]. rewrite (proj2 (Z.eqb_neq _ _) Hl).
    apply bind_Ok. eexists. split; [by apply establish_Ok |]. apply bind_Ok. eexists. split; [done |].
    apply bind_Ok. eexists. split; [by apply establish_Ok |]. apply bind_Ok. eexists. split; [by apply insert_new_Ok |].
    apply bind_Ok. eexists. split; [by apply outcome_fold_Ok |]. apply bind_Ok. eexists. split; [by apply bytes_step_Ok | done].
Qed.

Lemma loop_next l st t r : Forall turn_wf l -> loop_of l st -> provider_replay (turn_response t) = Some r -> step_checks st t r -> loop_of (l ++ [t]) (step_next st t r).
Proof.
  intros Hwf (Hl & Hb & Hm & Hf & Ha & Hc & Hi) Hr [_ Cm Cf _ _ _ _]. unfold loop_of, step_next; simpl. rewrite Hl, Hb, array_size_snoc, !bind_app.
  rewrite Hm in Cm. rewrite Hf in Cf.
  assert (Hx : forall {K} `{RustOrd K} (s m : list K) (f : ModelTranscriptTurn -> list K), (forall x, x ∈ s <-> x ∈ m) ->
    forall x, x ∈ bs_extend s (f t) <-> x ∈ m ++ ([t] ≫= f)).
  { intros K HK s m f Hs x. rewrite bs_extend_elem, elem_of_app, Hs. simpl. by rewrite app_nil_r. }
  split_and!; try done; try (by apply Hx).
  - destruct l as [|t0 l]; simpl in *; [done |]. f_equal. by apply Cm.
  - destruct l as [|t0 l]; simpl in *; [by rewrite Hr |]. apply Forall_cons in Hwf as [[[r0 Er0] _] _]. rewrite Er0 in *. simpl in *.
    f_equal. by apply Cf.
  - intros x. rewrite bs_extend_elem, bs_insert_elem, elem_of_app, Ha. simpl. rewrite app_nil_r. unfold turn_attempts at 2. set_solver.
Qed.

Lemma accepted_prefix l t : accepted (l ++ [t]) -> accepted l.
Proof.
  intros [Hl [Hm _]%constant_snoc [Hf _]%constant_snoc Ha Hc Hi Hb].
  rewrite bind_app in Ha. rewrite bind_app in Hc. rewrite bind_app in Hi. apply NoDup_app in Ha as (Ha & _), Hc as (Hc & _), Hi as (Hi & _).
  rewrite length_app in Hl. rewrite array_size_snoc in Hb. constructor; try done; [lia |].
  unfold turn_size in Hb. destruct (to_vec t), (length l =? 0)%nat; lia.
Qed.

(** The checks of a step say exactly that the extended list is accepted. *)
Lemma accepted_snoc l st t r :
  Forall turn_wf l -> loop_of l st -> provider_replay (turn_response t) = Some r ->
  accepted (l ++ [t]) <-> accepted l /\ step_checks st t r.
Proof.
  intros Hwl (Hl & Hb & Hm & Hf & Ha & Hc & Hi) Hr.
  assert (Hone : forall {K} (f : ModelTranscriptTurn -> list K), (l ++ [t]) ≫= f = (l ≫= f) ++ f t).
  { intros K f. rewrite bind_app. simpl. by rewrite app_nil_r. }
  assert (Hft : format_of t = Some (replay_format r)) by (unfold format_of; by rewrite Hr).
  assert (Hff : (forall f, loop_format st = Some f -> replay_format r = f) <-> (forall m, format_of <$> List.hd_error l = Some m -> format_of t = m)).
  { rewrite Hf, Hft. destruct l as [|t0 l]; simpl; [done |]. apply Forall_cons in Hwl as [[[r0 Hr0] _] _]. unfold format_of. rewrite Hr0. simpl.
    split; intros HF; [intros m [= <-]; f_equal; by apply HF | intros f [= <-]]. specialize (HF _ eq_refl). congruence. }
  assert (Hsize : 0 <= turn_size t) by (unfold turn_size; destruct (to_vec t); lia).
  split.
  - intros [B1 [B2 B2']%constant_snoc [B3 B3']%constant_snoc B4 B5 B6 B7]. rewrite Hone in B4. rewrite Hone in B5. rewrite Hone in B6.
    rewrite length_app in B1. simpl in B1. rewrite array_size_snoc in B7.
    pose proof (proj1 (proj1 (NoDup_app _ _) B4)). pose proof (proj1 (proj1 (NoDup_app _ _) B5)). pose proof (proj1 (proj1 (NoDup_app _ _) B6)).
    split; constructor; rewrite ?Hl, ?Hb, ?Hm; try done; try (by apply Hff); try (by eapply fresh_app); try lia.
    destruct (length l =? 0)%nat; lia.
  - intros [[Al Am Af Aa Ac Ai Ab] [C1 C2 C3 C4 C5 C6 C7]]. rewrite Hl, ?Hb in *. rewrite Hm in C2.
    constructor; rewrite ?Hone, ?array_size_snoc; try done.
    + rewrite length_app. simpl. lia.
    + by apply constant_snoc.
    + apply constant_snoc. split; [done | by apply Hff].
    + exact (proj1 (fresh_app _ _ _ Ha Aa) C4).
    + exact (proj1 (fresh_app _ _ _ Hc Ac) C5).
    + exact (proj1 (fresh_app _ _ _ Hi Ai) C6).
Qed.

Lemma loop_empty : loop_of [] loop_initial.
Proof. repeat split; set_solver. Qed.

Lemma accepted_nil : accepted [].
Proof. constructor; simpl; try done; try constructor; intros ? ?; set_solver. Qed.

(** The loop ends in the state of its turns exactly on accepted lists. *)
Lemma transcript_loop l :
  Forall turn_wf l ->
  (accepted l -> exists st, try_fold transcript_step loop_initial l = Ok st /\ loop_of l st) /\
  (forall st, try_fold transcript_step loop_initial l = Ok st -> accepted l /\ loop_of l st).
Proof.
  induction l as [|t l IH] using rev_ind; intros Hwf.
  { split; [intros _; exists loop_initial; split; [done | apply loop_empty] |]. intros st [= <-]. split; [apply accepted_nil | apply loop_empty]. }
  apply Forall_app in Hwf as [Hwl Hwt]. apply Forall_cons in Hwt as [[[r Hr] Hv] _]. destruct (IH Hwl) as [IH1 IH2].
  assert (Hnn : forall st, loop_of l st -> 0 <= loop_bytes st) by (intros st (_ & -> & _); apply array_size_nonneg). split.
  - intros Hacc. destruct (IH1 (accepted_prefix _ _ Hacc)) as (st & Hst & Hof). destruct (proj1 (accepted_snoc l st t r Hwl Hof Hr) Hacc) as [_ Hc].
    exists (step_next st t r). split; [| by eapply loop_next]. rewrite try_fold_app, Hst. simpl.
    rewrite (proj2 (step_Ok st t r _ (Hnn st Hof) Hv Hr) (conj Hc eq_refl)). done.
  - intros st'. rewrite try_fold_app. destruct (try_fold transcript_step loop_initial l) as [st|] eqn:Est; simpl; [| done].
    destruct (IH2 st eq_refl) as [Hacc Hof]. intros (st1 & H1 & [= <-])%bind_Ok. apply (step_Ok st t r _ (Hnn st Hof) Hv Hr) in H1 as [Hc ->].
    split; [by apply (accepted_snoc l st t r) | by eapply loop_next].
Qed.

(** No step of well-formed turns panics. *)
Lemma step_safe st t : turn_wf t -> transcript_step st t <> Err Panic.
Proof.
  intros [[r Hr] [b Hb]]. unfold transcript_step. rewrite Hr. case_match; [done |]. intros HP.
  assert (Hins : forall {K} `{RustOrd K} (x : K) s e, insert_new x s (Fail e) <> Err Panic :> result (fault ModelTranscriptError) (list K)).
  { intros K HK x s e. unfold insert_new. by case_match. }
  assert (Hest : forall {A} `{EqDecision A} (x : option A) a e, establish x a (Fail e) <> Err Panic :> result (fault ModelTranscriptError) (option A)).
  { intros A HA x a e. unfold establish. by repeat case_match. }
  apply bind_panic in HP as [HP|(m & _ & HP)]; [by apply Hest in HP |]. apply bind_panic in HP as [HP|(r' & _ & HP)]; [done |].
  apply bind_panic in HP as [HP|(f & _ & HP)]; [by apply Hest in HP |]. apply bind_panic in HP as [HP|(a & _ & HP)]; [by apply Hins in HP |].
  apply bind_panic in HP as [HP|([[a' c'] i'] & _ & HP)].
  - apply try_fold_panic in HP as (o & [[a1 c1] i1] & _ & HP). unfold turn_outcome_step in HP.
    apply bind_panic in HP as [HP|(? & _ & HP)]; [by apply Hins in HP |]. apply bind_panic in HP as [HP|(? & _ & HP)]; [by apply Hins in HP |].
    apply bind_panic in HP as [HP|(? & _ & HP)]; [by apply Hins in HP | done].
  - apply bind_panic in HP as [HP|(n & _ & HP)]; [| done]. unfold transcript_bytes_step in HP. rewrite Hb in HP. cbn [ok_or mbind result_bind] in HP.
    apply bind_panic in HP as [HP|(? & _ & HP)]; [by destruct (Count.checked_add _ _) |].
    apply bind_panic in HP as [HP|(? & _ & HP)]; [by destruct (Count.checked_add _ _) | by case_match].
Qed.

(** C16: a list of turns becomes a transcript exactly when it has at most 1,024
    turns of one model and one replay format, no attempt, provider call or tool
    invocation appears twice anywhere in it, and the length of its canonical
    array, commas and brackets included, is at most 64 MiB; the transcript then
    keeps the turns in order with that length, and the constructor never
    panics on turns with a replay and an encoding. *)
Theorem model_transcript_exact l :
  Forall turn_wf l ->
  transcript_try_new l <> Err Panic /\
  (forall tr, transcript_try_new l = Ok tr <-> accepted l /\ tr = mkTranscript l (array_size l)).
Proof.
  intros Hwf. destruct (transcript_loop l Hwf) as [H1 H2]. split.
  - intros HP. unfold transcript_try_new in HP. apply bind_panic in HP as [HP|(st & _ & HP)]; [| done].
    apply try_fold_panic in HP as (t & st & Ht & HP). rewrite Forall_forall in Hwf. by apply (step_safe st t (Hwf t Ht)).
  - intros tr. unfold transcript_try_new. split.
    + intros (st & Hst & [= <-])%bind_Ok. destruct (H2 st Hst) as [Ha (-> & -> & _)]. done.
    + intros [Ha ->]. destruct (H1 Ha) as (st & -> & Ht & Hb & _). simpl. by rewrite Ht, Hb.
Qed.

End Transcripts.

(** * A transcript of two turns *)

Module Demo.
#[local] Instance encode_turn : Canonical ModelTranscriptTurn := fun _ => Some [1; 2; 3].

Definition bob : CapabilityIdentity := mkIdentity (Content.mkPrincipal (bytes_of "https://i") (bytes_of "s")) (mkReference (bytes_of "m") (Version.mkVersion 1 0 0)).
Definition pay : CapabilityIdentity := OutputLaws.pay.
Definition object : BoundedJson := mkBoundedJson (Obj []) (mkJsonStats 2 1 1).
Definition items (id : bytes) : ModelOutputItems := mkItems [OutputLaws.proposing id] 0 1 4 [] [id].
Definition replay : ModelProviderReplay := mkReplay (bytes_of "a.b.c") (mkBoundedJson (Arr []) (mkJsonStats 2 1 1)) [9].
Definition response (attempt : Z) (id : bytes) : ModelResponse :=
  mkResponse (mkModelProvenance attempt bob None None None) (items id) FToolCalls (mkUsage 1 None 1 None) Extension.Extension.extensions_default (Some replay).
Definition answer (invocation attempt : Z) (id : bytes) : ModelToolOutcome :=
  OFailed id (mkToolFailure invocation attempt pay 1 DependencyUnavailable [] [] (SafeAfter 5) Tools.NotApplied).
Definition turn (n : Z) (id : bytes) : ModelTranscriptTurn := mkTurn (response n id) [answer (10 + n) (20 + n) id].

Lemma model_turn_pairs_calls_witness :
  turn_new (response 1 (bytes_of "a")) [answer 11 21 (bytes_of "a")] = Ok (turn 1 (bytes_of "a")) /\
  turn_new (response 1 (bytes_of "a")) [answer 11 21 (bytes_of "b")] <> Ok (mkTurn (response 1 (bytes_of "a")) [answer 11 21 (bytes_of "b")]).
Proof.
  pose proof (model_turn_pairs_calls [OutputLaws.proposing (bytes_of "a")] (response 1 (bytes_of "a"))) as H. split.
  - apply H; [repeat constructor; vm_compute; done | vm_compute; reflexivity |]. split_and!; [done | done | by eexists | | apply NoDup_singleton].
    repeat constructor.
  - intros E. apply H in E as (_ & _ & _ & H2 & _); [| repeat constructor; vm_compute; done | vm_compute; reflexivity].
    apply Forall2_cons in H2 as [(Hid & _) _]. vm_compute in Hid. discriminate Hid.
Defined.

Lemma model_transcript_exact_witness :
  transcript_try_new [turn 1 (bytes_of "a"); turn 2 (bytes_of "b")] =
    Ok (mkTranscript [turn 1 (bytes_of "a"); turn 2 (bytes_of "b")] 9) /\
  ~ accepted [turn 1 (bytes_of "a"); turn 1 (bytes_of "a")].
Proof.
  assert (Hwf : forall n a, turn_wf (turn n a)) by (intros; split; eexists; reflexivity). split.
  - apply model_transcript_exact; [by repeat constructor |]. split; [| done].
    constructor; try (vm_compute; done).
    + intros x y Hx Hy. set_solver.
    + intros x y Hx Hy. set_solver.
    + apply (bool_decide_unpack _). vm_compute. exact I.
    + apply (bool_decide_unpack _). vm_compute. exact I.
    + apply (bool_decide_unpack _). vm_compute. exact I.
  - intros Ha. destruct (model_transcript_exact [turn 1 (bytes_of "a"); turn 1 (bytes_of "a")]) as [_ H]; [by repeat constructor |].
    pose proof (proj2 (H _) (conj Ha eq_refl)) as E. vm_compute in E. discriminate E.
Defined.

End Demo.

End TranscriptLaws.
