(* ===== verification/ModelRequest.v ===== *)
(** Model requests (crates/stateknot-core/src/model_request.rs): the bounded
    builder of instructions, messages, transcript and tools, the requirements it
    derives, and the validation of a response against its request
    (model_response.rs).

    An [expect] that fails is the fault [Panic]. *)

From Stdlib Require Import ZArith Lia List.
From stdpp Require Import prelude.
From S2P Require Import Prelude Ordered Json Digests Ids Decimal BoundedJson Content Extension Accounting Time Capability Run Message Model Tool ModelResponse ModelTranscript.

Open Scope Z_scope.

Module Requests.
Import Text Content Capability Messages Models Responses Transcripts.

(** * Controls *)

Inductive ModelResponseMode := Complete | Streaming.
#[global] Instance ModelResponseMode_eq_dec : EqDecision ModelResponseMode.
Proof. solve_decision. Defined.

Inductive ModelToolSelection := SelNone | SelAuto | SelRequired | SelSpecific (name : CapabilityName).
#[global] Instance ModelToolSelection_eq_dec : EqDecision ModelToolSelection.
Proof. solve_decision. Defined.

Definition choice (self : ModelToolSelection) : ModelToolChoice :=
  match self with SelNone => CNone | SelAuto => CAuto | SelRequired => CRequired | SelSpecific _ => CSpecific end.
Definition specific_name (self : ModelToolSelection) : option CapabilityName :=
  match self with SelSpecific name => Some name | _ => None end.

Inductive ModelTextOutputFormat := FmtText | FmtJson | FmtJsonSchema (schema : SchemaReference).
#[global] Instance ModelTextOutputFormat_eq_dec : EqDecision ModelTextOutputFormat.
Proof. solve_decision. Defined.

Definition required_level (self : ModelTextOutputFormat) : ModelStructuredOutputLevel :=
  match self with FmtText => SUnsupported | FmtJson => SJson | FmtJsonSchema _ => SJsonSchema end.

Record ModelRequestLimits := mkRequestLimits {
  lim_input_tokens : Count.Count;
  lim_output_tokens : Count.Count;
  lim_content_bytes : Count.Count
}.
#[global] Instance ModelRequestLimits_eq_dec : EqDecision ModelRequestLimits.
Proof. solve_decision. Defined.

Definition HARD_MAX_CONTENT_BYTES : Count.Count := 64 * MEBIBYTE.

Inductive ModelRequestLimitsError :=
| LimZeroInputTokens | LimZeroOutputTokens | LimZeroContentBytes
| ContentBytesAboveHardMaximum (maximum actual : Count.Count)
| ContextTokensOverflow.

Definition request_limits_new (input output content : Count.Count) : result ModelRequestLimitsError ModelRequestLimits :=
  if input =? 0 then Err LimZeroInputTokens else
  if output =? 0 then Err LimZeroOutputTokens else
  if content =? 0 then Err LimZeroContentBytes else
  if HARD_MAX_CONTENT_BYTES <? content then Err (ContentBytesAboveHardMaximum HARD_MAX_CONTENT_BYTES content) else
  if is_none (Count.checked_add input output) then Err ContextTokensOverflow else
  Ok (mkRequestLimits input output content).

Definition required_context_tokens {E} (self : ModelRequestLimits) : result (fault E) Count.Count :=
  ok_or (Count.checked_add (lim_input_tokens self) (lim_output_tokens self)) Panic.

(** * Collections *)

Inductive ModelRequestError :=
| EmptyInput
| TooManyInstructions (max observed : Z)
| DuplicateInstruction (identity : InstructionIdentity)
| UnsupportedInstructionArtifact (index : Z) (modality : Artifact.ArtifactModality)
| TooManyMessages (max observed : Z)
| DuplicateMessage (message_id : Z)
| UnsupportedMessageArtifact (message_index part_index : Z) (modality : Artifact.ArtifactModality)
| InstructionContentTooLarge (maximum observed : Count.Count)
| MessageContentTooLarge (maximum observed : Count.Count)
| InstructionContentBytesOverflow
| MessageContentBytesOverflow
| TranscriptContentBytesOverflow
| RequestContentTooLarge (maximum observed : Count.Count)
| TooManyTools (max observed : Z)
| DuplicateToolName (name : CapabilityName)
| RetiredTool (name : CapabilityName)
| TranscriptToolNotAvailable (turn_index call_index : Z) (tool : CapabilityIdentity)
| TranscriptToolIdentityMismatch (turn_index call_index : Z) (expected actual : CapabilityIdentity)
| ToolSelectionWithoutTools (selection : ModelToolChoice)
| ToolCallsWithoutTools (actual : Count.Count)
| StrictArgumentsWithoutTools
| DisabledToolControls
| ZeroToolCalls
| ReqTooManyToolCalls (maximum actual : Count.Count)
| SpecificToolNotFound (name : CapabilityName)
| ReqEmptyOutputModalities
| MissingTextOutputFormat
| UnexpectedTextOutputFormat
| InvalidToolRequirements (error : ModelToolRequirementsError)
| InvalidRequirements (error : ModelRequirementsError)
| RequirementsMismatch.

Definition checked_content_add (current additional maximum : Count.Count) (overflow : ModelRequestError)
    (too_large : Count.Count -> Count.Count -> ModelRequestError) : result ModelRequestError Count.Count :=
  actual ← ok_or (Count.checked_add current additional) overflow;
  if maximum <? actual then Err (too_large maximum actual) else Ok actual.

Record RequestInstructions := mkInstructions { instructions : list Instruction; instruction_bytes : Count.Count }.
#[global] Instance RequestInstructions_eq_dec : EqDecision RequestInstructions.
Proof. solve_decision. Defined.

Definition INSTRUCTIONS_MAX_LEN : Z := 32.
Definition INSTRUCTIONS_MAX_BYTES : Count.Count := 8 * MEBIBYTE.

Definition instruction_size (index : Z) (content : InstructionContent) : result ModelRequestError Count.Count :=
  match content with
  | ICText c => Ok (len (content_text c))
  | ICArtifact artifact =>
      let m := Artifact.modality (Artifact.representation artifact) in
      if negb (bool_decide (m = Artifact.MText)) then Err (UnsupportedInstructionArtifact index m)
      else Ok (Artifact.byte_length (Artifact.representation artifact))
  end.

Definition push_instruction (st : RequestInstructions) (value : Instruction) : result ModelRequestError RequestInstructions :=
  let index := Z.of_nat (length (instructions st)) in
  if index =? INSTRUCTIONS_MAX_LEN then Err (TooManyInstructions INSTRUCTIONS_MAX_LEN (INSTRUCTIONS_MAX_LEN + 1)) else
  if existsb (fun existing => bool_decide (instruction_identity existing = instruction_identity value)) (instructions st)
  then Err (DuplicateInstruction (instruction_identity value)) else
  additional ← instruction_size index (instruction_content value);
  bytes ← checked_content_add (instruction_bytes st) additional INSTRUCTIONS_MAX_BYTES InstructionContentBytesOverflow InstructionContentTooLarge;
  Ok (mkInstructions (instructions st ++ [value]) bytes).

Record RequestMessages := mkMessages { messages : list Message; message_bytes : Count.Count; message_modalities : ModelModalities }.
#[global] Instance RequestMessages_eq_dec : EqDecision RequestMessages.
Proof. solve_decision. Defined.

Definition MESSAGES_MAX_LEN : Z := 256.
Definition MESSAGES_MAX_BYTES : Count.Count := HARD_MAX_CONTENT_BYTES.

(** One content part of a message: its portable modality and size. *)
Definition part_size (message_index part_index : Z) (part : Artifact.ContentPart) : result ModelRequestError (ModelModality * Count.Count) :=
  match part with
  | Artifact.PText c => Ok (MText, len (content_text c))
  | Artifact.PJson c => Ok (MText, compact_bytes (stats (Artifact.json_value c)))
  | Artifact.PArtifact artifact =>
      let m := Artifact.modality (Artifact.representation artifact) in
      modality ← ok_or (map_artifact_modality m) (UnsupportedMessageArtifact message_index part_index m);
      Ok (modality, Artifact.byte_length (Artifact.representation artifact))
  end.

Fixpoint push_parts (message_index part_index : Z) (bytes : Count.Count) (modalities : ModelModalities) (l : list Artifact.ContentPart)
  : result ModelRequestError (Count.Count * ModelModalities) :=
  match l with
  | [] => Ok (bytes, modalities)
  | part :: l' =>
      '(modality, additional) ← part_size message_index part_index part;
      bytes ← checked_content_add bytes additional MESSAGES_MAX_BYTES MessageContentBytesOverflow MessageContentTooLarge;
      push_parts message_index (part_index + 1) bytes (bs_insert modality modalities) l'
  end.

Definition push_message (st : RequestMessages) (value : Message) : result ModelRequestError RequestMessages :=
  let index := Z.of_nat (length (messages st)) in
  if index =? MESSAGES_MAX_LEN then Err (TooManyMessages MESSAGES_MAX_LEN (MESSAGES_MAX_LEN + 1)) else
  if existsb (fun existing => message_id existing =? message_id value) (messages st) then Err (DuplicateMessage (message_id value)) else
  '(bytes, modalities) ← push_parts index 0 (message_bytes st) (message_modalities st) (parts (message_parts value));
  Ok (mkMessages (messages st ++ [value]) bytes modalities).

(** [BTreeMap<CapabilityName, ToolDescriptor>]. *)
Definition RequestTools := list (CapabilityName * Tools.ToolDescriptor).
Definition TOOLS_MAX_LEN : Z := 128.

Definition tool_name (d : Tools.ToolDescriptor) : CapabilityName := name (capability (Tools.tool_identity d)).

Definition is_retired (s : CapabilityLifecycleState) : bool := match s with Retired_ => true | _ => false end.

Definition insert_tool (values : RequestTools) (value : Tools.ToolDescriptor) : result ModelRequestError RequestTools :=
  let n := tool_name value in
  if negb (is_none (bt_get n values)) then Err (DuplicateToolName n) else
  if Z.of_nat (length values) =? TOOLS_MAX_LEN then Err (TooManyTools TOOLS_MAX_LEN (TOOLS_MAX_LEN + 1)) else
  if is_retired (lifecycle_state (lifecycle (Tools.metadata value))) then Err (RetiredTool n) else
  Ok (bt_insert n value values).

(** * Requests *)

Record ModelRequest := mkRequest {
  req_instructions : RequestInstructions;
  req_messages : RequestMessages;
  transcript : ModelTranscript;
  tools : RequestTools;
  tool_selection : ModelToolSelection;
  max_tool_calls_per_response : Count.Count;
  strict_tool_arguments : bool;
  output_modalities : ModelModalities;
  text_output_format : option ModelTextOutputFormat;
  response_mode : ModelResponseMode;
  reasoning_summaries : bool;
  limits : ModelRequestLimits;
  extensions : Extension.Extensions;
  requirements : ModelRequirements
}.
#[global] Instance ModelToolRequirements_eq_dec : EqDecision ModelToolRequirements.
Proof. solve_decision. Defined.
#[global] Instance ModelRequirements_eq_dec : EqDecision ModelRequirements.
Proof. solve_decision. Defined.
#[global] Instance ModelRequest_eq_dec : EqDecision ModelRequest.
Proof. solve_decision. Defined.

Definition MAX_TOOL_CALLS_PER_RESPONSE : Count.Count := 1024.

Definition validate_tool_controls (ts : RequestTools) (selection : ModelToolSelection) (max_calls : Count.Count) (strict : bool)
  : result ModelRequestError unit :=
  if (length ts =? 0)%nat then
    if negb (eqb_cmp (choice selection) CNone) then Err (ToolSelectionWithoutTools (choice selection)) else
    if negb (max_calls =? 0) then Err (ToolCallsWithoutTools max_calls) else
    if strict then Err StrictArgumentsWithoutTools else Ok tt
  else if eqb_cmp (choice selection) CNone then
    if negb (max_calls =? 0) || strict then Err DisabledToolControls else Ok tt
  else
    if max_calls =? 0 then Err ZeroToolCalls else
    if MAX_TOOL_CALLS_PER_RESPONSE <? max_calls then Err (ReqTooManyToolCalls MAX_TOOL_CALLS_PER_RESPONSE max_calls) else
    match specific_name selection with
    | Some n => if is_none (bt_get n ts) then Err (SpecificToolNotFound n) else Ok tt
    | None => Ok tt
    end.

Fixpoint check_turn_calls (turn_index call_index : Z) (ts : RequestTools) (l : list ModelToolCallProposal) : result ModelRequestError unit :=
  match l with
  | [] => Ok tt
  | proposal :: l' =>
      let tool := proposal_tool proposal in
      descriptor ← ok_or (bt_get (name (capability tool)) ts) (TranscriptToolNotAvailable turn_index call_index tool);
      let expected := Tools.tool_identity descriptor in
      if negb (bool_decide (tool = expected)) then Err (TranscriptToolIdentityMismatch turn_index call_index expected tool) else
      check_turn_calls turn_index (call_index + 1) ts l'
  end.

Fixpoint validate_turns (turn_index : Z) (ts : RequestTools) (l : list ModelTranscriptTurn) : result ModelRequestError unit :=
  match l with
  | [] => Ok tt
  | turn :: l' => _ ← check_turn_calls turn_index 0 ts (response_tool_calls (turn_response turn)); validate_turns (turn_index + 1) ts l'
  end.

Definition validate_transcript_tools (t : ModelTranscript) (ts : RequestTools) : result ModelRequestError unit := validate_turns 0 ts (turns t).

(** What [from_parts] takes besides the requirements of the wire. *)
Definition request_content_bytes (i : RequestInstructions) (m : RequestMessages) (t : ModelTranscript) : option Count.Count :=
  match Count.checked_add (instruction_bytes i) (message_bytes m) with
  | Some bytes => Count.checked_add bytes (transcript_payload_bytes t)
  | None => None
  end.

Definition request_input_modalities (i : RequestInstructions) (m : RequestMessages) (t : ModelTranscript) : list ModelModality :=
  let s := if (length (instructions i) =? 0)%nat then [] else bs_insert MText [] in
  let s := bs_extend s (message_modalities m) in
  if (length (turns t) =? 0)%nat then s else bs_insert MText s.

Definition derived_tool_requirements (ts : RequestTools) (selection : ModelToolSelection) (max_calls : Count.Count) (strict : bool)
  : result (fault ModelRequestError) ModelToolRequirements :=
  if (length ts =? 0)%nat then Ok tool_requirements_none else
  choices ← map_err (fun _ => Panic) (choices_try_new [choice selection]);
  map_err (fun e => Fail (InvalidToolRequirements e)) (tool_requirements_new (Z.of_nat (length ts)) max_calls choices strict).

Definition text_format_checks (modalities : ModelModalities) (format : option ModelTextOutputFormat) : result ModelRequestError unit :=
  match bs_contains MText modalities, format with
  | true, None => Err MissingTextOutputFormat
  | false, Some _ => Err UnexpectedTextOutputFormat
  | _, _ => Ok tt
  end.

(** [from_parts]; [wire] is the request without trusted requirements. *)
Definition request_from_parts (wire : ModelRequest) (wire_requirements : option ModelRequirements) : result (fault ModelRequestError) ModelRequest :=
  let i := req_instructions wire in
  let m := req_messages wire in
  let t := transcript wire in
  if (length (instructions i) =? 0)%nat && (length (messages m) =? 0)%nat && (length (turns t) =? 0)%nat then Err (Fail EmptyInput) else
  if (length (output_modalities wire) =? 0)%nat then Err (Fail ReqEmptyOutputModalities) else
  _ ← map_err Fail (text_format_checks (output_modalities wire) (text_output_format wire));
  _ ← map_err Fail (validate_tool_controls (tools wire) (tool_selection wire) (max_tool_calls_per_response wire) (strict_tool_arguments wire));
  _ ← map_err Fail (validate_transcript_tools t (tools wire));
  bytes ← ok_or (request_content_bytes i m t) (Fail TranscriptContentBytesOverflow);
  if lim_content_bytes (limits wire) <? bytes then Err (Fail (RequestContentTooLarge (lim_content_bytes (limits wire)) bytes)) else
  input ← map_err (fun _ => Panic) (modalities_try_new (request_input_modalities i m t));
  tool_requirements ← derived_tool_requirements (tools wire) (tool_selection wire) (max_tool_calls_per_response wire) (strict_tool_arguments wire);
  let structured := match text_output_format wire with Some format => required_level format | None => SUnsupported end in
  context ← required_context_tokens (limits wire);
  reqs ← map_err (fun e => Fail (InvalidRequirements e))
           (requirements_new (mkRequirements input (output_modalities wire) (bool_decide (response_mode wire = Streaming)) tool_requirements
              structured (reasoning_summaries wire) (Some context) (Some (lim_input_tokens (limits wire))) (Some (lim_output_tokens (limits wire)))));
  if match wire_requirements with Some w => negb (bool_decide (w = reqs)) | None => false end then Err (Fail RequirementsMismatch) else
  Ok (mkRequest i m t (tools wire) (tool_selection wire) (max_tool_calls_per_response wire) (strict_tool_arguments wire)
        (output_modalities wire) (text_output_format wire) (response_mode wire) (reasoning_summaries wire) (limits wire) (extensions wire) reqs).

(** [Deserialize for ModelRequest]: the derived requirements must be the written ones. *)
Definition request_restore (wire : ModelRequest) : result (fault ModelRequestError) ModelRequest :=
  request_from_parts wire (Some (requirements wire)).

(** * The builder *)

Record ModelRequestBuilder := mkBuilder { built : ModelRequest; builder_error : option ModelRequestError }.

Definition builder_new (lim : ModelRequestLimits) : ModelRequestBuilder :=
  mkBuilder (mkRequest (mkInstructions [] 0) (mkMessages [] 0 []) transcript_empty [] SelNone 0 false [MText] (Some FmtText) Complete false lim
    Extension.extensions_default requirements_default) None.

Definition with_parts (r : ModelRequest) (i : RequestInstructions) (m : RequestMessages) (ts : RequestTools) : ModelRequest :=
  mkRequest i m (transcript r) ts (tool_selection r) (max_tool_calls_per_response r) (strict_tool_arguments r)
    (output_modalities r) (text_output_format r) (response_mode r) (reasoning_summaries r) (limits r) (extensions r) (requirements r).

(** [if self.error.is_none() { if let Err(error) = .. }]: the first error sticks.
    What a failing push leaves in its collection is never read again. *)
Definition builder_try (self : ModelRequestBuilder) (next : result ModelRequestError ModelRequest) : ModelRequestBuilder :=
  match builder_error self, next with
  | Some _, _ => self
  | None, Ok r => mkBuilder r None
  | None, Err e => mkBuilder (built self) (Some e)
  end.

Definition builder_instruction (self : ModelRequestBuilder) (value : Instruction) : ModelRequestBuilder :=
  let r := built self in
  builder_try self (i ← push_instruction (req_instructions r) value; Ok (with_parts r i (req_messages r) (tools r))).
Definition builder_message (self : ModelRequestBuilder) (value : Message) : ModelRequestBuilder :=
  let r := built self in
  builder_try self (m ← push_message (req_messages r) value; Ok (with_parts r (req_instructions r) m (tools r))).
Definition builder_tool (self : ModelRequestBuilder) (value : Tools.ToolDescriptor) : ModelRequestBuilder :=
  let r := built self in
  builder_try self (ts ← insert_tool (tools r) value; Ok (with_parts r (req_instructions r) (req_messages r) ts)).

(** The setters of transcript, selection, call ceiling, strictness, modalities,
    format, mode, summaries and extensions. *)
Definition builder_controls (self : ModelRequestBuilder) (t : ModelTranscript) (selection : ModelToolSelection) (calls : Count.Count)
    (strict : bool) (modalities : ModelModalities) (format : option ModelTextOutputFormat) (mode : ModelResponseMode) (reasoning : bool)
    (ext : Extension.Extensions) : ModelRequestBuilder :=
  let r := built self in
  mkBuilder (mkRequest (req_instructions r) (req_messages r) t (tools r) selection calls strict modalities format mode reasoning (limits r) ext
    (requirements r)) (builder_error self).

Definition builder_build (self : ModelRequestBuilder) : result (fault ModelRequestError) ModelRequest :=
  match builder_error self with
  | Some error => Err (Fail error)
  | None =>
      _ ← map_err (fun _ => Panic) (modalities_try_new (message_modalities (req_messages (built self))));
      request_from_parts (built self) None
  end.

(** * Responses against their request (model_response.rs) *)

Definition validate_tool_proposal (index : Z) (proposal : ModelToolCallProposal) (request : ModelRequest) : result ModelResponseError unit :=
  let tool := proposal_tool proposal in
  expected ← ok_or (bt_get (name (capability tool)) (tools request)) (ToolNotRequested index tool);
  let expected_identity := Tools.tool_identity expected in
  if negb (bool_decide (tool = expected_identity)) then Err (ToolIdentityMismatch index expected_identity tool) else
  match tool_selection request with
  | SelSpecific n =>
      if negb (bool_decide (name (capability tool) = n)) then Err (SpecificToolMismatch index n (name (capability tool))) else Ok tt
  | _ => Ok tt
  end.

Definition validate_item (request : ModelRequest) (index : Z) (item : ModelOutputItem) : result (fault ModelResponseError) unit :=
  match item with
  | OContent content =>
      modality ← ok_or (content_modality content) (artifact_modality content (UnsupportedArtifactModality index));
      if negb (bs_contains modality (output_modalities request)) then Err (Fail (OutputModalityNotRequested index modality)) else Ok tt
  | OReasoningSummary _ =>
      if negb (reasoning_summaries request) then Err (Fail (ReasoningSummaryNotRequested index)) else Ok tt
  | OToolCall proposal => map_err Fail (validate_tool_proposal index proposal request)
  end.

Fixpoint validate_items (request : ModelRequest) (index : Z) (l : list ModelOutputItem) : result (fault ModelResponseError) unit :=
  match l with
  | [] => Ok tt
  | item :: l' => _ ← validate_item request index item; validate_items request (index + 1) l'
  end.

Inductive CompletedTextItem := CText | CJson (content : Artifact.JsonContent) | CArtifact.

Definition is_json (item : CompletedTextItem) : bool := match item with CJson _ => true | _ => false end.

Definition completed_text_item (item : ModelOutputItem) : option CompletedTextItem :=
  match item with
  | OContent (Artifact.PText _) => Some CText
  | OContent (Artifact.PJson content) => Some (CJson content)
  | OContent (Artifact.PArtifact artifact) =>
      if bool_decide (Artifact.modality (Artifact.representation artifact) = Artifact.MText) then Some CArtifact else None
  | _ => None
  end.

Fixpoint textual_items (index : Z) (l : list ModelOutputItem) : list (Z * CompletedTextItem) :=
  match l with
  | [] => []
  | item :: l' =>
      match completed_text_item item with
      | Some t => (index, t) :: textual_items (index + 1) l'
      | None => textual_items (index + 1) l'
      end
  end.

Definition json_items (l : list (Z * CompletedTextItem)) : list (Z * Artifact.JsonContent) :=
  omap (fun it => match it.2 with CJson content => Some (it.1, content) | _ => None end) l.

Definition check_json_schema (format : ModelTextOutputFormat) (index : Z) (content : Artifact.JsonContent) : result ModelResponseError unit :=
  match format with
  | FmtJson => if negb (is_none (Artifact.json_schema content)) then Err (UnexpectedOutputSchema index) else Ok tt
  | FmtJsonSchema schema =>
      if negb (bool_decide (Artifact.json_schema content = Some schema)) then Err (OutputSchemaMismatch index schema (Artifact.json_schema content))
      else Ok tt
  | FmtText => Ok tt
  end.

Definition validate_completed_text_format (items : ModelOutputItems) (format : option ModelTextOutputFormat) : result ModelResponseError unit :=
  match format with
  | None => Ok tt
  | Some format =>
      let textual := textual_items 0 (item_values items) in
      match format with
      | FmtText =>
          match List.find (fun it => is_json it.2) textual with
          | Some (index, _) => Err (PlainTextCompletionContainsJson index)
          | None => Ok tt
          end
      | _ =>
          match List.find (fun it => negb (is_json it.2)) textual with
          | Some (index, _) => Err (StructuredCompletionContainsText index)
          | None =>
              match json_items textual with
              | [(index, content)] => check_json_schema format index content
              | json => Err (StructuredCompletionJsonCount (Z.of_nat (length json)))
              end
          end
      end
  end.

Definition requires_call (s : ModelToolSelection) : bool := match s with SelRequired | SelSpecific _ => true | _ => false end.

Definition response_validate_for (self : ModelResponse) (d : ModelDescriptor) (request : ModelRequest) : result (fault ModelResponseError) unit :=
  let expected_model := model_identity d in
  let actual_model := mp_model (response_provenance self) in
  if negb (bool_decide (actual_model = expected_model)) then Err (Fail (ModelIdentityMismatch expected_model actual_model)) else
  let maximum := lim_input_tokens (limits request) in
  if maximum <? usage_input_tokens (usage self) then Err (Fail (InputUsageExceedsRequest maximum (usage_input_tokens (usage self)))) else
  let maximum := lim_output_tokens (limits request) in
  if maximum <? usage_output_tokens (usage self) then Err (Fail (OutputUsageExceedsRequest maximum (usage_output_tokens (usage self)))) else
  _ ← validate_items request 0 (item_values (output self));
  let actual_calls := tool_calls_count (output self) in
  if max_tool_calls_per_response request <? actual_calls
  then Err (Fail (ToolCallsExceedRequest (max_tool_calls_per_response request) actual_calls)) else
  let completed := bool_decide (finish_reason self = FCompleted) in
  if completed && requires_call (tool_selection request) then Err (Fail RequiredToolCallMissing) else
  if completed then map_err Fail (validate_completed_text_format (output self) (text_output_format request)) else Ok tt.

Definition response_new (prov : ModelResponseProvenance) (d : ModelDescriptor) (request : ModelRequest) (items : list ModelOutputItem)
    (reason : ModelFinishReason) (u : ModelUsage) (ext : Extension.Extensions) : result (fault ModelResponseError) ModelResponse :=
  out ← items_try_new items;
  response ← map_err Fail (response_from_parts prov out reason u ext);
  _ ← response_validate_for response d request;
  Ok response.

End Requests.

(** Laws of model requests ([ModelRequest.v]): the requirements a request derives,
    the restoration of a built request, and what a response accepted for a
    request must satisfy. *)

Module RequestLaws.
Import Content Capability Messages Models Responses Transcripts Requests.

(** * Responses against their request *)

(** The tool of a proposal, as the request declares it and its selection allows. *)
Definition requested (q : ModelRequest) (tool : CapabilityIdentity) : Prop :=
  (exists d, bt_get (name (capability tool)) (Requests.tools q) = Some d /\ Tools.tool_identity d = tool) /\
  forall n, tool_selection q = SelSpecific n -> name (capability tool) = n.

Definition item_allowed (q : ModelRequest) (i : ModelOutputItem) : Prop :=
  match i with
  | OContent c => exists m, content_modality c = Some m /\ m ∈ Requests.output_modalities q
  | OReasoningSummary _ => Requests.reasoning_summaries q = true
  | OToolCall p => requested q (proposal_tool p)
  end.

Lemma tool_proposal_Ok q index p u : validate_tool_proposal index p q = Ok u <-> requested q (proposal_tool p).
Proof.
  unfold validate_tool_proposal, requested. destruct u.
  destruct (bt_get (name (capability (proposal_tool p))) (Requests.tools q)) as [d|]; simpl; [| split; [done | by intros [(? & ? & _) _]]].
  destruct (bool_decide_reflect (proposal_tool p = Tools.tool_identity d)) as [E|E]; simpl.
  - destruct (tool_selection q) as [| | |n]; try (split; [intros _; split; [by exists d | done] | done]).
    destruct (bool_decide_reflect (name (capability (proposal_tool p)) = n)); simpl; split; try done.
    + intros _. split; [by exists d |]. by intros ? [= <-].
    + intros [_ Hn]. by specialize (Hn n eq_refl).
  - split; [done |]. intros [(d' & [= <-] & E') _]. by rewrite E' in E.
Qed.

Lemma item_Ok q index i u : validate_item q index i = Ok u <-> item_allowed q i.
Proof.
  unfold validate_item. destruct u, i as [c|s|p]; simpl.
  - destruct (content_modality c) as [m|]; simpl.
    + destruct (bs_contains m (Requests.output_modalities q)) eqn:E; simpl; [apply bs_contains_iff in E | apply bs_contains_false in E]; naive_solver.
    + split; [done | by intros (? & ? & _)].
  - by destruct (Requests.reasoning_summaries q).
  - rewrite <- (tool_proposal_Ok q index p tt). destruct (validate_tool_proposal index p q) as [[]|]; simpl; by split.
Qed.

Lemma items_Ok q l : forall index u, validate_items q index l = Ok u <-> Forall (item_allowed q) l.
Proof.
  induction l as [|i l IH]; intros index []; simpl; [by split; [constructor |] |]. rewrite Forall_cons, bind_Ok. setoid_rewrite item_Ok.
  setoid_rewrite IH. split; [naive_solver |]. intros [? ?]. by exists tt.
Qed.

Lemma item_safe q index i : validate_item q index i <> Err Panic.
Proof.
  unfold validate_item. destruct i as [c|s|p].
  - destruct (content_modality c) eqn:E; simpl; [by case_match |]. destruct c; done.
  - by case_match.
  - by destruct (validate_tool_proposal index p q).
Qed.

Lemma items_safe q l : forall index, validate_items q index l <> Err Panic.
Proof.
  induction l as [|i l IH]; intros index HP; simpl in HP; [done |]. apply bind_panic in HP as [HP|(u & _ & HP)]; [by apply item_safe in HP | by apply IH in HP].
Qed.

(** The textual items of a completed response. *)
Definition texts (l : list ModelOutputItem) : list CompletedTextItem := omap completed_text_item l.

Lemma textual_items_snd l : forall index, (textual_items index l).*2 = texts l.
Proof.
  unfold texts. induction l as [|i l IH]; intros index; simpl; [done |]. destruct (completed_text_item i); simpl; by rewrite IH.
Qed.

Lemma find_none_forall {A} (f : A -> bool) l : List.find f l = None <-> Forall (fun x => f x = false) l.
Proof.
  induction l as [|x l IH]; simpl; [by split; [constructor |] |]. rewrite Forall_cons. destruct (f x); [split; [done | by intros [? ?]] | rewrite IH; naive_solver].
Qed.

(** What the format asks of the textual items. *)
Definition format_met (f : option ModelTextOutputFormat) (l : list CompletedTextItem) : Prop :=
  match f with
  | None => True
  | Some FmtText => Forall (fun i => is_json i = false) l
  | Some FmtJson => exists c, l = [CJson c] /\ Artifact.json_schema c = None
  | Some (FmtJsonSchema s) => exists c, l = [CJson c] /\ Artifact.json_schema c = Some s
  end.

(** With only JSON items, one document under its schema check. *)
Lemma structured_Ok (check : Z -> Artifact.JsonContent -> result ModelResponseError unit) (P : Artifact.JsonContent -> Prop) l u :
  (forall k c, check k c = Ok tt <-> P c) ->
  match List.find (fun it : Z * CompletedTextItem => negb (is_json it.2)) l with
  | Some (index, _) => Err (StructuredCompletionContainsText index)
  | None => match json_items l with [(index, content)] => check index content | json => Err (StructuredCompletionJsonCount (Z.of_nat (length json))) end
  end = Ok u <-> exists c, l.*2 = [CJson c] /\ P c.
Proof.
  intros Hch. destruct u. destruct (List.find _ l) as [[k t]|] eqn:E.
  - split; [done |]. intros (c & Hl & _). exfalso. apply List.find_some in E as [Hin Hj]. apply list_elem_of_In in Hin.
    assert (Ht : t ∈ l.*2) by (apply list_elem_of_fmap; by exists (k, t)). rewrite Hl in Ht. apply list_elem_of_singleton in Ht as ->. done.
  - apply find_none_forall in E. destruct l as [|[k t] [|[k2 t2] l]]; simpl.
    + split; [done |]. by intros (c & ? & _).
    + apply Forall_cons in E as [Ht _]. destruct t as [|c|]; try done. simpl. rewrite Hch. naive_solver.
    + apply Forall_cons in E as [Ht [Ht2 _]%Forall_cons]. destruct t, t2; try done. simpl. split; [done |]. intros (c & ? & _). done.
Qed.

Lemma completed_format_Ok items f u : validate_completed_text_format items f = Ok u <-> format_met f (texts (item_values items)).
Proof.
  unfold validate_completed_text_format, format_met. rewrite <- (textual_items_snd (item_values items) 0). destruct u.
  set (l := textual_items 0 (item_values items)). destruct f as [[| |s]|]; [| | | done].
  - rewrite Forall_fmap. destruct (List.find (fun it : Z * CompletedTextItem => is_json it.2) l) as [[k t]|] eqn:E.
    + apply List.find_some in E as [Hin Hj]. split; [done |]. intros HF. rewrite Forall_forall in HF. apply list_elem_of_In in Hin. specialize (HF _ Hin). simpl in *. congruence.
    + apply find_none_forall in E. by split.
  - apply (structured_Ok (check_json_schema FmtJson)). intros k c. simpl. by destruct (Artifact.json_schema c).
  - apply (structured_Ok (check_json_schema (FmtJsonSchema s))). intros k c. simpl. destruct (bool_decide_reflect (Artifact.json_schema c = Some s)); by simpl; split.
Qed.

(** What a response to a request must satisfy besides its accounting. *)
Record conforms (prov : ModelResponseProvenance) (d : ModelDescriptor) (q : ModelRequest) (items : list ModelOutputItem)
    (reason : ModelFinishReason) (u : ModelUsage) : Prop := {
  cf_model : mp_model prov = model_identity d;
  cf_input : usage_input_tokens u <= lim_input_tokens (limits q);
  cf_output : usage_output_tokens u <= lim_output_tokens (limits q);
  cf_items : Forall (item_allowed q) items;
  cf_calls : Z.of_nat (length (omap as_tool_call items)) <= max_tool_calls_per_response q;
  cf_finish : reason = FToolCalls <-> omap as_tool_call items <> [];
  cf_completed : reason = FCompleted -> requires_call (tool_selection q) = false /\ format_met (text_output_format q) (texts items)
}.

Lemma from_parts_Ok prov st reason u ext r :
  0 <= tool_calls_count st ->
  response_from_parts prov st reason u ext = Ok r <->
  (reason = FToolCalls <-> tool_calls_count st <> 0) /\ r = mkResponse prov st reason u ext None.
Proof.
  intros Hn. unfold response_from_parts. destruct reason;
    destruct (Z.eqb_spec (tool_calls_count st) 0); destruct (Z.ltb_spec 0 (tool_calls_count st)); try lia;
    split; try done; try (by intros [= <-]); try (by intros [_ ->]); intros [Hi _]; try (by destruct Hi as [_ Hi]; specialize (Hi ltac:(lia))); tauto.
Qed.

Lemma validate_for_Ok prov d q st reason u ext items v :
  OutputLaws.counted items st ->
  response_validate_for (mkResponse prov st reason u ext None) d q = Ok v <->
  mp_model prov = model_identity d /\ usage_input_tokens u <= lim_input_tokens (limits q) /\
  usage_output_tokens u <= lim_output_tokens (limits q) /\ Forall (item_allowed q) items /\
  Z.of_nat (length (omap as_tool_call items)) <= max_tool_calls_per_response q /\
  (reason = FCompleted -> requires_call (tool_selection q) = false /\ format_met (text_output_format q) (texts items)).
Proof.
  intros Hc. destruct v. unfold response_validate_for. simpl. rewrite (OutputLaws.cnt_calls _ _ Hc).
  destruct (bool_decide_reflect (mp_model prov = model_identity d)); simpl; [| split; [done | naive_solver]].
  destruct (Z.ltb_spec (lim_input_tokens (limits q)) (usage_input_tokens u)); [split; [done | lia] |].
  destruct (Z.ltb_spec (lim_output_tokens (limits q)) (usage_output_tokens u)); [split; [done | lia] |].
  rewrite (OutputLaws.cnt_values _ _ Hc). pose proof (items_Ok q items 0 tt) as Hi.
  destruct (validate_items q 0 items) as [[]|err]; simpl.
  2: { split; [done |]. intros (_ & _ & _ & HF & _). apply Hi in HF. done. }
  destruct (Z.ltb_spec (max_tool_calls_per_response q) (Z.of_nat (length (omap as_tool_call items)))); [split; [done | lia] |].
  pose proof (completed_format_Ok st (text_output_format q) tt) as Hf. rewrite (OutputLaws.cnt_values _ _ Hc) in Hf.
  destruct (bool_decide_reflect (reason = FCompleted)) as [E|E]; simpl; [| intuition].
  destruct (requires_call (tool_selection q)); simpl; [split; [done |]; intros (_ & _ & _ & _ & _ & Hx); destruct (Hx E); done |].
  destruct (validate_completed_text_format st (text_output_format q)) as [[]|err]; simpl; [intuition |].
  split; [done |]. intros (_ & _ & _ & _ & _ & Hx). destruct (Hx E) as [_ Hm]. apply Hf in Hm. done.
Qed.

Lemma validate_for_safe r d q : response_validate_for r d q <> Err Panic.
Proof.
  unfold response_validate_for. intros HP. repeat (case_match; [done |]). apply bind_panic in HP as [HP|(u & _ & HP)]; [by apply items_safe in HP |].
  repeat case_match; try done. by destruct (validate_completed_text_format _ _).
Qed.

(** The constructor succeeds exactly on conforming responses. *)
Lemma response_new_spec prov d q items reason u ext (Hn : Forall (fun i => 0 <= item_payload_bytes i) items) :
  response_new prov d q items reason u ext <> Err Panic /\
  (forall r, response_new prov d q items reason u ext = Ok r <->
     conforms prov d q items reason u /\ exists st, items_try_new items = Ok st /\ r = mkResponse prov st reason u ext None).
Proof.
  unfold response_new. destruct (OutputLaws.items_loop items Hn) as (Hp & _). pose proof (fun st => OutputLaws.items_counted items st Hn) as Hcnt.
  assert (Hsafe : items_try_new items <> Err Panic) by (by apply OutputLaws.output_items_safe).
  destruct (items_try_new items) as [st|e]; simpl.
  2: { split; [by intros [= ->] |]. intros r. split; [done | by intros (_ & ? & ? & _)]. }
  specialize (Hcnt st eq_refl). pose proof (OutputLaws.cnt_calls _ _ Hcnt) as Hcalls. split.
  - intros HP. apply bind_panic in HP as [HP|(r & _ & HP)]; [by destruct (response_from_parts _ _ _ _ _) |].
    apply bind_panic in HP as [HP|(v & _ & HP)]; [by apply validate_for_safe in HP | done].
  - assert (Hz : tool_calls_count st <> 0 <-> omap as_tool_call items <> []) by (rewrite Hcalls; destruct (omap as_tool_call items); simpl; split; [done | done | done | lia]).
    pose proof (from_parts_Ok prov st reason u ext) as Hfp. intros r. split.
    + intros (r1 & H1 & H2)%bind_Ok. destruct (response_from_parts prov st reason u ext) as [r0|]; [| done]. injection H1 as ->.
      destruct (proj1 (Hfp r1 ltac:(lia)) eq_refl) as [Hfin ->]. apply bind_Ok in H2 as (v & Hv & [= <-]).
      apply (validate_for_Ok _ _ _ _ _ _ _ items v Hcnt) in Hv as (V1 & V2 & V3 & V4 & V5 & V6).
      split; [| by exists st]. constructor; try done. by rewrite <- Hz.
    + intros [[V1 V2 V3 V4 V5 V6 V7] (st' & [= <-] & ->)]. rewrite (proj2 (Hfp _ ltac:(lia)) (conj (iff_trans V6 (iff_sym Hz)) eq_refl)). simpl.
      rewrite (proj2 (validate_for_Ok prov d q st reason u ext items tt Hcnt)); [done |]. done.
Qed.

(** A response is built for a request exactly when its output is accountable,
    it names the requested model, its usage is within the requested limits,
    every item is allowed (a requested modality, a summary only if asked, a call
    only of a declared tool with the declared identity and the selected name),
    the calls are within the requested ceiling, the finish reason is tool calls
    exactly when there are some, and a completed response neither misses a
    required call nor breaks the requested text format, which for JSON is
    exactly one document under the requested schema; the constructor never
    panics. *)
Theorem model_response_conforms prov d q items reason u ext (Hn : Forall (fun i => 0 <= item_payload_bytes i) items) :
  response_new prov d q items reason u ext <> Err Panic /\
  (forall r, response_new prov d q items reason u ext = Ok r <->
     conforms prov d q items reason u /\ exists st, items_try_new items = Ok st /\ r = mkResponse prov st reason u ext None).
Proof. apply response_new_spec, Hn. Qed.

(** * Building and restoring requests *)

(** The requirements a request derives from its own parts. *)
Definition derived (w : ModelRequest) (input : ModelModalities) (t : ModelToolRequirements) (context : Count.Count) : ModelRequirements :=
  mkRequirements input (Requests.output_modalities w) (bool_decide (response_mode w = Streaming)) t
    (match text_output_format w with Some format => required_level format | None => SUnsupported end) (Requests.reasoning_summaries w)
    (Some context) (Some (lim_input_tokens (limits w))) (Some (lim_output_tokens (limits w))).

Definition with_requirements (w : ModelRequest) (reqs : ModelRequirements) : ModelRequest :=
  mkRequest (req_instructions w) (req_messages w) (transcript w) (Requests.tools w) (tool_selection w) (max_tool_calls_per_response w)
    (strict_tool_arguments w) (Requests.output_modalities w) (text_output_format w) (response_mode w) (Requests.reasoning_summaries w) (limits w)
    (extensions w) reqs.

(** The checks of [from_parts] before it compares the written requirements. *)
Definition derive (w : ModelRequest) : result (fault ModelRequestError) ModelRequirements :=
  let i := req_instructions w in
  let m := req_messages w in
  let t := transcript w in
  if (length (instructions i) =? 0)%nat && (length (messages m) =? 0)%nat && (length (turns t) =? 0)%nat then Err (Fail EmptyInput) else
  if (length (Requests.output_modalities w) =? 0)%nat then Err (Fail ReqEmptyOutputModalities) else
  _ ← map_err Fail (text_format_checks (Requests.output_modalities w) (text_output_format w));
  _ ← map_err Fail (validate_tool_controls (Requests.tools w) (tool_selection w) (max_tool_calls_per_response w) (strict_tool_arguments w));
  _ ← map_err Fail (validate_transcript_tools t (Requests.tools w));
  bytes ← ok_or (request_content_bytes i m t) (Fail TranscriptContentBytesOverflow);
  if lim_content_bytes (limits w) <? bytes then Err (Fail (RequestContentTooLarge (lim_content_bytes (limits w)) bytes)) else
  input ← map_err (fun _ => Panic) (modalities_try_new (request_input_modalities i m t));
  tool_requirements ← derived_tool_requirements (Requests.tools w) (tool_selection w) (max_tool_calls_per_response w) (strict_tool_arguments w);
  context ← required_context_tokens (limits w);
  map_err (fun e => Fail (InvalidRequirements e)) (requirements_new (derived w input tool_requirements context)).

Lemma from_parts_eq w wr :
  request_from_parts w wr =
  reqs ← derive w;
  if match wr with Some x => negb (bool_decide (x = reqs)) | None => false end then Err (Fail RequirementsMismatch) else Ok (with_requirements w reqs).
Proof.
  unfold request_from_parts, derive. case_match; [done |]. case_match; [done |].
  destruct (text_format_checks _ _); [| done]. destruct (validate_tool_controls _ _ _ _); [| done]. destruct (validate_transcript_tools _ _); [| done].
  destruct (request_content_bytes _ _ _); [| done]. cbn [map_err mbind result_bind ok_or]. case_match; [done |].
  destruct (modalities_try_new _); [| done]. cbn [map_err mbind result_bind]. destruct (derived_tool_requirements _ _ _ _); [| done].
  cbn [mbind result_bind]. by destruct (required_context_tokens _).
Qed.

Lemma derive_ignores w reqs : derive (with_requirements w reqs) = derive w.
Proof. done. Qed.

(** A request that was built restores to itself. *)
Lemma built_restores w r : request_from_parts w None = Ok r -> request_restore r = Ok r.
Proof.
  rewrite from_parts_eq. intros (reqs & Hd & [= <-])%bind_Ok. unfold request_restore. rewrite from_parts_eq, derive_ignores, Hd. simpl.
  by rewrite bool_decide_true.
Qed.

(** ** Builders *)

Inductive builds (lim : ModelRequestLimits) : ModelRequestBuilder -> Prop :=
| builds_new : builds lim (builder_new lim)
| builds_instruction b v : builds lim b -> builds lim (builder_instruction b v)
| builds_message b v : builds lim b -> builds lim (builder_message b v)
| builds_tool b v : builds lim b -> builds lim (builder_tool b v)
| builds_controls b t sel calls strict modalities format mode reasoning ext :
    builds lim b -> ksorted (fun m : ModelModality => m) modalities ->
    builds lim (builder_controls b t sel calls strict modalities format mode reasoning ext).

Record request_wf (lim : ModelRequestLimits) (w : ModelRequest) : Prop := {
  wf_limits : limits w = lim;
  wf_output : ksorted (fun m : ModelModality => m) (Requests.output_modalities w);
  wf_messages : ksorted (fun m : ModelModality => m) (message_modalities (req_messages w));
  wf_tools : ksorted fst (Requests.tools w) /\ Forall (fun kv : CapabilityName * Tools.ToolDescriptor => kv.1 = tool_name kv.2) (Requests.tools w) /\
             (Z.of_nat (length (Requests.tools w)) <= TOOLS_MAX_LEN)
}.

Lemma push_parts_sorted mi l : forall pi b ms b' ms',
  ksorted (fun m : ModelModality => m) ms -> push_parts mi pi b ms l = Ok (b', ms') -> ksorted (fun m : ModelModality => m) ms'.
Proof.
  induction l as [|p l IH]; intros pi b ms b' ms' Hs; simpl; [by intros [= _ <-] |].
  intros ([m a] & _ & (b1 & _ & H1)%bind_Ok)%bind_Ok. eapply IH; [| exact H1]. by apply bs_insert_sorted.
Qed.

Lemma builder_wf lim b : builds lim b -> request_wf lim (built b).
Proof.
  induction 1 as [|b v Hb [H1 H2 H3 H4]|b v Hb [H1 H2 H3 H4]|b v Hb [H1 H2 H3 (H4 & H5 & H6)]|b t sel calls strict ms f mode re ext Hb [H1 H2 H3 H4] Hs].
  - constructor; simpl; [done | repeat constructor | constructor | split_and!; [constructor | constructor | done]].
  - unfold builder_instruction, builder_try. destruct (builder_error b); [by constructor |].
    destruct (push_instruction _ _); by constructor.
  - unfold builder_message, builder_try. destruct (builder_error b); [by constructor |].
    destruct (push_message _ _) as [m|] eqn:E; [| by constructor]. constructor; simpl; try done.
    unfold push_message in E. case_match; [done |]. case_match; [done |]. apply bind_Ok in E as ([by' ms] & Ep & [= <-]). simpl. by eapply push_parts_sorted.
  - unfold builder_tool, builder_try. destruct (builder_error b); [by constructor |].
    destruct (insert_tool _ _) as [ts|] eqn:E; [| by constructor]. constructor; simpl; try done.
    unfold insert_tool in E. destruct (bt_get (tool_name v) (Requests.tools (built b))) eqn:Eg; simpl in E; [done |].
    destruct (Z.eqb_spec (Z.of_nat (length (Requests.tools (built b)))) TOOLS_MAX_LEN); [done |]. case_match; [done |]. injection E as <-. split_and!.
    + by apply bt_insert_sorted.
    + apply Forall_forall. intros kv Hkv. apply bt_insert_elem in Hkv as [->|[Hkv _]]; [done | | done]. rewrite Forall_forall in H5. by apply H5.
    + rewrite bt_insert_length_fresh by done. lia.
  - by constructor.
Qed.
(** ** What a built request guarantees *)

Definition declared (ts : RequestTools) (tool : CapabilityIdentity) : Prop :=
  exists d, bt_get (name (capability tool)) ts = Some d /\ Tools.tool_identity d = tool.

Lemma turn_calls_Ok ts ti l : forall ci u, check_turn_calls ti ci ts l = Ok u <-> Forall (fun p => declared ts (proposal_tool p)) l.
Proof.
  induction l as [|p l IH]; intros ci []; simpl; [by split; [constructor |] |]. rewrite Forall_cons. unfold declared at 1.
  destruct (bt_get _ ts) as [d|]; simpl; [| split; [done | by intros [(? & ? & _) _]]].
  destruct (bool_decide_reflect (proposal_tool p = Tools.tool_identity d)) as [E|E]; simpl.
  - rewrite IH. split; [intros HF; split; [by exists d | done] | by intros [_ ?]].
  - split; [done |]. intros [(d' & [= <-] & E') _]. by rewrite E' in E.
Qed.

Lemma turns_Ok ts l : forall ti u, validate_turns ti ts l = Ok u <->
  Forall (fun t => Forall (fun p => declared ts (proposal_tool p)) (response_tool_calls (turn_response t))) l.
Proof.
  induction l as [|t l IH]; intros ti []; simpl; [by split; [constructor |] |]. rewrite Forall_cons, bind_Ok. setoid_rewrite turn_calls_Ok.
  setoid_rewrite IH. split; [naive_solver |]. intros [? ?]. by exists tt.
Qed.

(** The tool requirements of a request with tools. *)
Lemma tool_requirements_of w tr :
  derived_tool_requirements (Requests.tools w) (tool_selection w) (max_tool_calls_per_response w) (strict_tool_arguments w) = Ok tr ->
  Requests.tools w = [] /\ tr = tool_requirements_none \/
  Requests.tools w <> [] /\
  tr = mkToolRequirements (Z.of_nat (length (Requests.tools w))) (max_tool_calls_per_response w) [choice (tool_selection w)] (strict_tool_arguments w).
Proof.
  unfold derived_tool_requirements. destruct (Requests.tools w) as [|kv ts] eqn:Et; [intros [= <-]; by left |]. simpl (length _ =? 0)%nat. cbv iota.
  assert (Hc : choices_try_new [choice (tool_selection w)] = Ok [choice (tool_selection w)]) by (by destruct (choice (tool_selection w))).
  rewrite Hc. cbn [map_err mbind result_bind]. unfold tool_requirements_new. intros HT. right. split; [done |].
  repeat case_match; simpl in HT; try done. by injection HT as <-.
Qed.

Lemma tool_requirements_safe w :
  derived_tool_requirements (Requests.tools w) (tool_selection w) (max_tool_calls_per_response w) (strict_tool_arguments w) <> Err Panic.
Proof.
  unfold derived_tool_requirements. case_match; [done |].
  assert (Hc : choices_try_new [choice (tool_selection w)] = Ok [choice (tool_selection w)]) by (by destruct (choice (tool_selection w))).
  rewrite Hc. cbn [map_err mbind result_bind]. by destruct (tool_requirements_new _ _ _ _).
Qed.

Lemma input_modalities_sorted i m t :
  ksorted (fun x : ModelModality => x) (message_modalities m) -> ksorted (fun x : ModelModality => x) (request_input_modalities i m t).
Proof.
  intros Hm. unfold request_input_modalities. assert (Hs : forall s, ksorted (fun x : ModelModality => x) s -> ksorted (fun x : ModelModality => x) (bs_extend s (message_modalities m))).
  { intros s. apply bs_extend_sorted. }
  destruct (length (instructions i) =? 0)%nat, (length (turns t) =? 0)%nat; try apply bs_insert_sorted; apply Hs; repeat constructor.
Qed.

(** What [derive] establishes. *)
Lemma derive_Ok lim w reqs :
  request_wf lim w -> derive w = Ok reqs ->
  exists tr bytes,
    reqs = derived w (request_input_modalities (req_instructions w) (req_messages w) (transcript w)) tr (lim_input_tokens lim + lim_output_tokens lim) /\
    requirements_new reqs = Ok reqs /\
    derived_tool_requirements (Requests.tools w) (tool_selection w) (max_tool_calls_per_response w) (strict_tool_arguments w) = Ok tr /\
    request_content_bytes (req_instructions w) (req_messages w) (transcript w) = Some bytes /\ bytes <= lim_content_bytes lim /\
    validate_transcript_tools (transcript w) (Requests.tools w) = Ok tt.
Proof.
  intros [Hlim Hout Hmsg _] HD. unfold derive in HD. rewrite Hlim in HD. case_match; [done |]. case_match; [done |].
  apply bind_Ok in HD as ([] & _ & HD). apply bind_Ok in HD as ([] & _ & HD). apply bind_Ok in HD as ([] & HT & HD). apply bind_Ok in HD as (bytes & HB & HD).
  destruct (Z.ltb_spec (lim_content_bytes lim) bytes); [done |]. rewrite (OutputLaws.modalities_accept _ (input_modalities_sorted _ _ _ Hmsg)) in HD.
  cbn [map_err mbind result_bind] in HD. apply bind_Ok in HD as (tr & HR & HD). apply bind_Ok in HD as (ctx & HC & HD).
  unfold required_context_tokens, Count.checked_add in HC. destruct (Prelude.checked_add _ _ _) as [x|] eqn:Ex; [| done]. injection HC as ->.
  apply checked_add_Some in Ex as [-> _]. exists tr, bytes.
  destruct (requirements_new _) as [rq|] eqn:Er; [| done]. injection HD as ->. pose proof Er as [-> _]%Negotiation.requirements_new_Ok.
  split_and!; try done.
  - by destruct (request_content_bytes _ _ _); [injection HB as -> |].
  - by destruct (validate_transcript_tools _ _) as [[]|].
Qed.

Lemma derive_safe i o c lim w : request_limits_new i o c = Ok lim -> request_wf lim w -> derive w <> Err Panic.
Proof.
  intros HL [Hlim Hout Hmsg _]. unfold derive. rewrite Hlim. case_match; [done |]. case_match; [done |]. intros HP.
  apply bind_panic in HP as [HP|([] & _ & HP)]; [by destruct (text_format_checks _ _) |].
  apply bind_panic in HP as [HP|([] & _ & HP)]; [by destruct (validate_tool_controls _ _ _ _) |].
  apply bind_panic in HP as [HP|([] & _ & HP)]; [by destruct (validate_transcript_tools _ _) |].
  apply bind_panic in HP as [HP|(b & _ & HP)]; [by destruct (request_content_bytes _ _ _) |]. case_match; [done |].
  rewrite (OutputLaws.modalities_accept _ (input_modalities_sorted _ _ _ Hmsg)) in HP. cbn [map_err mbind result_bind] in HP.
  apply bind_panic in HP as [HP|(tr & _ & HP)]; [by apply tool_requirements_safe in HP |].
  apply bind_panic in HP as [HP|(x & _ & HP)]; [| by destruct (requirements_new _)].
  unfold request_limits_new in HL. do 4 (case_match; [done |]). unfold required_context_tokens in HP.
  destruct (Count.checked_add i o) as [s|] eqn:Es; simpl in HL; [| done]. injection HL as <-. simpl in HP. by rewrite Es in HP.
Qed.
(** What a model that meets the requirements of a request offers it. *)
Record offers (c : ModelCapabilities) (r : ModelRequest) : Prop := {
  off_input : forall m, m ∈ request_input_modalities (req_instructions r) (req_messages r) (transcript r) -> m ∈ input_modalities c;
  off_output : forall m, m ∈ Requests.output_modalities r -> m ∈ Models.output_modalities c;
  off_streaming : response_mode r = Streaming -> streaming c = true;
  off_tools : Requests.tools r <> [] ->
    is_Some (tool_schema_profile (Models.tools c)) /\ Z.of_nat (length (Requests.tools r)) <= max_definitions (Models.tools c) /\
    max_tool_calls_per_response r <= max_calls_per_response (Models.tools c) /\ choice (tool_selection r) ∈ tool_choices (Models.tools c) /\
    (strict_tool_arguments r = true -> strict_arguments (Models.tools c) = true);
  off_format : forall f, text_output_format r = Some f -> level_rank (required_level f) <= level_rank (level (structured_output c));
  off_reasoning : Requests.reasoning_summaries r = true -> Models.reasoning_summaries c = true;
  off_context : exists n, max_context_tokens (token_limits c) = Some n /\ lim_input_tokens (limits r) + lim_output_tokens (limits r) <= n;
  off_output_tokens : exists n, max_output_tokens (token_limits c) = Some n /\ lim_output_tokens (limits r) <= n
}.

Lemma not_unmet_tokens av r : ~ Negotiation.unmet_tokens av (Some r) r av -> exists n, av = Some n /\ r <= n.
Proof.
  unfold Negotiation.unmet_tokens. intros Hu. destruct av as [n|].
  - exists n. split; [done |]. destruct (Z.le_gt_cases r n); [done |]. exfalso. apply Hu. split_and!; try done. intros v [= <-]. lia.
  - exfalso. apply Hu. split_and!; try done.
Qed.

(** Requirements derived from a request hide nothing of it. *)
Lemma derived_offers c r tr :
  requirements r = derived r (request_input_modalities (req_instructions r) (req_messages r) (transcript r)) tr (lim_input_tokens (limits r) + lim_output_tokens (limits r)) ->
  derived_tool_requirements (Requests.tools r) (tool_selection r) (max_tool_calls_per_response r) (strict_tool_arguments r) = Ok tr ->
  satisfies c (requirements r) = Ok tt -> offers c r.
Proof.
  intros Hreq Htr Hs.
  assert (Hno : forall i, ~ Negotiation.unmet_issue c (requirements r) i).
  { intros i Hi%Negotiation.unmet_elem. unfold satisfies in Hs. destruct (unmet_requirements c (requirements r)); [set_solver | done]. }
  rewrite Hreq in Hno. unfold derived in Hno. apply tool_requirements_of in Htr.
  assert (Hb : forall b b', ~ (b = true /\ b' = false) -> b = true -> b' = true) by (intros [] []; naive_solver).
  constructor.
  - intros m Hm. specialize (Hno (IInputModality m)). simpl in Hno. destruct (decide (m ∈ input_modalities c)); tauto.
  - intros m Hm. specialize (Hno (IOutputModality m)). simpl in Hno. destruct (decide (m ∈ Models.output_modalities c)); tauto.
  - intros Em. apply (Hb true); [| done]. specialize (Hno IStreaming). simpl in Hno. rewrite bool_decide_true in Hno by done. done.
  - intros Hne. destruct Htr as [[? _]|[_ ->]]; [done |]. assert (Hact : Z.of_nat (length (Requests.tools r)) <> 0) by (destruct (Requests.tools r); simpl; [done | lia]).
    pose proof (Hno IToolCalling) as N1. pose proof (Hno (IToolDefinitions (Z.of_nat (length (Requests.tools r))) (max_definitions (Models.tools c)))) as N2.
    pose proof (Hno (IToolCallsPerResponse (max_tool_calls_per_response r) (max_calls_per_response (Models.tools c)))) as N3.
    pose proof (Hno (IToolChoice (choice (tool_selection r)))) as N4. pose proof (Hno IStrictToolArguments) as N5. simpl in *. split_and!.
    + destruct (tool_schema_profile _); [done | tauto].
    + destruct (Z.le_gt_cases (Z.of_nat (length (Requests.tools r))) (max_definitions (Models.tools c))); [done | tauto].
    + destruct (Z.le_gt_cases (max_tool_calls_per_response r) (max_calls_per_response (Models.tools c))); [done | tauto].
    + destruct (decide (choice (tool_selection r) ∈ tool_choices (Models.tools c))); [done |]. exfalso. apply N4. split_and!; [done | set_solver | done].
    + apply Hb. tauto.
  - intros f Ef. specialize (Hno (IStructuredOutput (required_level f) (level (structured_output c)))). simpl in Hno. rewrite Ef in Hno.
    destruct (Z.le_gt_cases (level_rank (required_level f)) (level_rank (level (structured_output c)))); tauto.
  - apply Hb. apply (Hno IReasoningSummary).
  - apply not_unmet_tokens. apply (Hno (IContextTokens _ _)).
  - apply not_unmet_tokens. apply (Hno (IOutputTokens _ _)).
Qed.


(** ** A request for one tool *)
Module Demo.

Definition principal : PrincipalIdentity := mkPrincipal (bytes_of "https://i") (bytes_of "s").
Definition pay : CapabilityIdentity := OutputLaws.pay.
Definition schema : SchemaReference := mkSchema (bytes_of "https://s") (Version.mkVersion 1 0 0) [1].
Definition payments : Tools.ToolDescriptor :=
  Tools.mkDescriptor (mkMetadata pay KTool None [112] Active [] Extension.Extension.extensions_default) schema schema
    (Tools.mkSemantics Tools.NonIdempotentWrite Tools.Unsupported_ true false) Tools.resources_none (Tools.mkCapabilities Tools.CUnsupported 0)
    (Tools.mkToolLimits 1000 1 1024 1024 0 0).
Definition instruction : Instruction :=
  mkInstruction (mkInstructionIdentity (bytes_of "system") (Version.mkVersion 1 0 0)) [7]
    (ICText (mkTextContent [104; 105] None (mkContentMetadata SApplication ApplicationControlled (bytes_of "public") NotApplied))) principal.
Definition lim : ModelRequestLimits := mkRequestLimits 100 50 1000.
Definition builder : ModelRequestBuilder :=
  builder_controls (builder_tool (builder_instruction (builder_new lim) instruction) payments) transcript_empty SelRequired 2 false [MText] (Some FmtText)
    Complete false Extension.Extension.extensions_default.
Definition request : ModelRequest := match builder_build builder with Ok r => r | Err _ => built builder end.
Definition capable : ModelCapabilities :=
  mkModelCapabilities [MText] [MText] false (mkToolCapabilities (Some schema) 8 4 [CAuto; CRequired] false) (mkStructured SJson None) false
    (mkTokenLimits (Some 1000) (Some 500) (Some 500)).
Definition descriptor : ModelDescriptor :=
  mkModelDescriptor (mkMetadata (mkIdentity principal (mkReference (bytes_of "m") (Version.mkVersion 1 0 0))) KModel None [109] Active [] Extension.Extension.extensions_default) capable.

Lemma demo_builds : builds lim builder.
Proof. apply builds_controls; [repeat constructor | repeat constructor]. Defined.


Definition provenance : ModelResponseProvenance := mkModelProvenance 1 (model_identity descriptor) None None None.
Definition usage1 : ModelUsage := mkUsage 10 None 5 None.

Lemma model_response_conforms_witness :
  (exists r, response_new provenance descriptor request [OutputLaws.proposing (bytes_of "a")] FToolCalls usage1 Extension.Extension.extensions_default = Ok r) /\
  ~ conforms provenance descriptor request [] FCompleted usage1.
Proof.
  split.
  - destruct (model_response_conforms provenance descriptor request [OutputLaws.proposing (bytes_of "a")] FToolCalls usage1 Extension.Extension.extensions_default)
      as [_ H]; [repeat constructor; vm_compute; done |].
    eexists. apply H. split; [| eexists; split; [vm_compute; reflexivity | reflexivity]]. constructor; try (vm_compute; done).
    repeat constructor; [| done]. exists payments. split; vm_compute; reflexivity.
  - intros [_ _ _ _ _ _ Hc]. destruct (Hc eq_refl) as [Hr _]. vm_compute in Hr. discriminate Hr.
Defined.

End Demo.

End RequestLaws.
