(* ===== verification/ModelEvent.v ===== *)
(** Model event streams (crates/stateknot-core/src/model_event.rs): bounded
    chunks, output starts and deltas, events, and the accumulator that assembles
    one response from the events of an attempt.

    The JSON text parser and the text of floats are parameters.  [expect],
    [unreachable!] and the [debug_assert]s are the fault [Panic]. *)

From Stdlib Require Import ZArith Lia List.
From stdpp Require Import prelude.
From S2P Require Import Prelude Ordered Json Digests Ids Decimal BoundedJson BoundedJsonLaws Content Extension Accounting Time Capability Run Message Model Tool ModelResponse ModelTranscript ModelRequest.

Open Scope Z_scope.

Module Events.
Import Text Content Capability Messages Models Responses Requests.

(** * Chunks *)

Inductive ModelStreamChunkError := ChunkEmpty | ChunkTooLong (maximum actual : Z) | ChunkDisallowedCodePoint (byte_index : Z).

Definition CHUNK_MAX_BYTES : Z := 64 * KIBIBYTE.

Definition validate_stream_chunk (value : text) : result ModelStreamChunkError unit :=
  if (length value =? 0)%nat then Err ChunkEmpty else
  if CHUNK_MAX_BYTES <? len value then Err (ChunkTooLong CHUNK_MAX_BYTES (len value)) else
  match char_find disallowed_in_text value with
  | Some byte_index => Err (ChunkDisallowedCodePoint byte_index)
  | None => Ok tt
  end.

Definition ModelStreamChunk := text.
Definition chunk_new (value : text) : result ModelStreamChunkError ModelStreamChunk := _ ← validate_stream_chunk value; Ok value.

(** * Output starts and deltas *)

Inductive ModelOutputStart :=
| StText (language : option LanguageTag) (metadata : ContentMetadata)
| StJson (schema : option SchemaReference) (metadata : ContentMetadata)
| StArtifact (artifact : Artifact.ArtifactRef)
| StReasoningSummary (language : option LanguageTag) (metadata : ContentMetadata)
| StToolCall (tool : CapabilityIdentity) (provider_call_id : option ProviderId) (extensions : Extension.Extensions).

Inductive ModelOutputDeltaKind := DkText | DkJson | DkReasoningSummary | DkToolArguments.
#[global] Instance ModelOutputDeltaKind_eq_dec : EqDecision ModelOutputDeltaKind.
Proof. solve_decision. Defined.

Definition start_kind (self : ModelOutputStart) : ModelOutputItemKind :=
  match self with StText _ _ | StJson _ _ | StArtifact _ => KContent | StReasoningSummary _ _ => KReasoningSummary | StToolCall _ _ _ => KToolCall end.

Definition delta_kind (self : ModelOutputStart) : option ModelOutputDeltaKind :=
  match self with
  | StText _ _ => Some DkText
  | StJson _ _ => Some DkJson
  | StArtifact _ => None
  | StReasoningSummary _ _ => Some DkReasoningSummary
  | StToolCall _ _ _ => Some DkToolArguments
  end.

Definition start_validate_intrinsic (self : ModelOutputStart) : result ModelOutputItemError unit :=
  match self with
  | StText _ meta | StJson _ meta => validate_output_metadata KContent meta SModel
  | StArtifact artifact => validate_output_metadata KContent (Artifact.art_metadata artifact) SArtifact
  | StReasoningSummary _ meta => validate_output_metadata KReasoningSummary meta SModel
  | StToolCall _ _ _ => Ok tt
  end.

Definition inline_header_bytes (self : ModelOutputStart) : Z :=
  match self with StToolCall _ _ ext => Extension.compact_bytes_ ext | _ => 0 end.

Inductive ModelOutputDelta :=
| DText (chunk : ModelStreamChunk)
| DJson (chunk : ModelStreamChunk)
| DReasoningSummary (chunk : ModelStreamChunk)
| DToolArguments (chunk : ModelStreamChunk).

Definition kind_of_delta (self : ModelOutputDelta) : ModelOutputDeltaKind :=
  match self with DText _ => DkText | DJson _ => DkJson | DReasoningSummary _ => DkReasoningSummary | DToolArguments _ => DkToolArguments end.
Definition into_chunk (self : ModelOutputDelta) : ModelStreamChunk :=
  match self with DText c | DJson c | DReasoningSummary c | DToolArguments c => c end.

(** * Events *)

Inductive ModelEventKind :=
| EvStarted (provenance : ModelResponseProvenance)
| EvOutputStarted (output_index : Z) (start : ModelOutputStart)
| EvOutputDelta (output_index : Z) (delta : ModelOutputDelta)
| EvOutputCompleted (output_index : Z)
| EvUsageUpdated (usage : ModelUsage)
| EvCompleted (finish_reason : ModelFinishReason) (usage : ModelUsage) (extensions : Extension.Extensions).

Record ModelEvent := mkEvent { ev_attempt_id : Z; ev_sequence : Z; ev_kind : ModelEventKind }.

Definition MAX_EVENTS_PER_ATTEMPT : Z := 1048576.
Definition MAX_SEQUENCE : Z := MAX_EVENTS_PER_ATTEMPT - 1.

Inductive ModelEventError :=
| SequenceOutOfRange (maximum actual : Z)
| OutputIndexOutOfRange (maximum_exclusive actual : Z)
| StartedAttemptMismatch (event provenance : Z)
| InvalidOutputStart (error : ModelOutputItemError).

Definition event_output_index (self : ModelEventKind) : option Z :=
  match self with EvOutputStarted i _ | EvOutputDelta i _ | EvOutputCompleted i => Some i | _ => None end.

Definition event_new (attempt sequence : Z) (event : ModelEventKind) : result ModelEventError ModelEvent :=
  if MAX_EVENTS_PER_ATTEMPT <=? sequence then Err (SequenceOutOfRange MAX_SEQUENCE sequence) else
  _ ← match event_output_index event with
      | Some i => if MAX_ITEMS <=? i then Err (OutputIndexOutOfRange MAX_ITEMS i) else Ok tt
      | None => Ok tt
      end;
  _ ← match event with
      | EvStarted prov => if negb (mp_attempt_id prov =? attempt) then Err (StartedAttemptMismatch attempt (mp_attempt_id prov)) else Ok tt
      | EvOutputStarted _ start => map_err InvalidOutputStart (start_validate_intrinsic start)
      | _ => Ok tt
      end;
  Ok (mkEvent attempt sequence event).

(** * The accumulator *)

Inductive ModelUsageField := FInputTokens | FCachedInputTokens | FOutputTokens | FReasoningTokens.

Inductive ModelEventStreamError :=
| RequestNotStreaming
| CapabilityMismatch (mismatch : ModelCapabilityMismatch)
| Poisoned
| AlreadyCompleted
| AttemptMismatch (expected actual : Z)
| SequenceMismatch (expected actual : Z)
| EventBeforeStart
| DuplicateStart
| OutputStartOutOfOrder (expected actual : Z)
| OutputNotStarted (output_index : Z)
| OutputAlreadyCompleted (output_index : Z)
| OutputDoesNotAcceptDeltas (output_index : Z)
| DeltaKindMismatch (output_index : Z) (expected actual : ModelOutputDeltaKind)
| OutputPayloadTooLarge (output_index maximum actual : Z)
| PayloadAccountingOverflow
| StreamPayloadTooLarge (maximum observed : Z)
| InvalidTextPayload (output_index : Z) (error : TextContentError)
| InvalidJsonPayload (output_index : Z) (error : BoundedJsonError)
| InvalidToolCall (output_index : Z) (error : ModelToolCallProposalError)
| StreamInvalidOutputItem (output_index : Z) (error : ModelOutputItemError)
| UsageDecreased (field : ModelUsageField) (previous actual : Count.Count)
| UsageBreakdownDisappeared (field : ModelUsageField)
| OutputStillOpen (output_index : Z)
| InvalidResponse (error : ModelResponseError)
| UnexpectedEnd (next_sequence : Z).

Inductive OutputSlot :=
| SActive (start : ModelOutputStart) (buffer : text)
| SCompleted (item : ModelOutputItem)
| STransitioning.

Record ModelEventAccumulator := mkAccumulator {
  acc_descriptor : ModelDescriptor;
  acc_request : ModelRequest;
  acc_attempt_id : Z;
  next_sequence : Z;
  started : bool;
  poisoned : bool;
  acc_provenance : option ModelResponseProvenance;
  slots : list OutputSlot;
  acc_content_items : Z;
  acc_tool_calls : Z;
  provider_call_ids : list ProviderId;
  retained_inline_bytes : Z;
  last_usage : option ModelUsage;
  acc_response : option ModelResponse
}.

Definition accumulator_new (attempt : Z) (d : ModelDescriptor) (request : ModelRequest) : result ModelEventStreamError ModelEventAccumulator :=
  if negb (bool_decide (response_mode request = Streaming)) then Err RequestNotStreaming else
  _ ← map_err CapabilityMismatch (satisfies (capabilities d) (requirements request));
  Ok (mkAccumulator d request attempt 0 false false None [] 0 0 [] 0 None None).

Definition set_slots (s : ModelEventAccumulator) (l : list OutputSlot) (bytes : Z) : ModelEventAccumulator :=
  mkAccumulator (acc_descriptor s) (acc_request s) (acc_attempt_id s) (next_sequence s) (started s) (poisoned s) (acc_provenance s) l
    (acc_content_items s) (acc_tool_calls s) (provider_call_ids s) bytes (last_usage s) (acc_response s).
Definition set_counts (s : ModelEventAccumulator) (content calls : Z) (ids : list ProviderId) : ModelEventAccumulator :=
  mkAccumulator (acc_descriptor s) (acc_request s) (acc_attempt_id s) (next_sequence s) (started s) (poisoned s) (acc_provenance s) (slots s)
    content calls ids (retained_inline_bytes s) (last_usage s) (acc_response s).
Definition set_usage (s : ModelEventAccumulator) (u : ModelUsage) : ModelEventAccumulator :=
  mkAccumulator (acc_descriptor s) (acc_request s) (acc_attempt_id s) (next_sequence s) (started s) (poisoned s) (acc_provenance s) (slots s)
    (acc_content_items s) (acc_tool_calls s) (provider_call_ids s) (retained_inline_bytes s) (Some u) (acc_response s).
Definition set_sequence (s : ModelEventAccumulator) (n : Z) : ModelEventAccumulator :=
  mkAccumulator (acc_descriptor s) (acc_request s) (acc_attempt_id s) n (started s) (poisoned s) (acc_provenance s) (slots s)
    (acc_content_items s) (acc_tool_calls s) (provider_call_ids s) (retained_inline_bytes s) (last_usage s) (acc_response s).
Definition poison (s : ModelEventAccumulator) : ModelEventAccumulator :=
  mkAccumulator (acc_descriptor s) (acc_request s) (acc_attempt_id s) (next_sequence s) (started s) true (acc_provenance s) (slots s)
    (acc_content_items s) (acc_tool_calls s) (provider_call_ids s) (retained_inline_bytes s) (last_usage s) (acc_response s).

Definition validate_aggregate_payload (observed : Z) : result ModelEventStreamError unit :=
  if MAX_OUTPUT_PAYLOAD_BYTES <? observed then Err (StreamPayloadTooLarge MAX_OUTPUT_PAYLOAD_BYTES observed) else Ok tt.

Definition validate_usage_limits (request : ModelRequest) (u : ModelUsage) : result ModelEventStreamError unit :=
  let maximum := lim_input_tokens (limits request) in
  if maximum <? usage_input_tokens u then Err (InvalidResponse (InputUsageExceedsRequest maximum (usage_input_tokens u))) else
  let maximum := lim_output_tokens (limits request) in
  if maximum <? usage_output_tokens u then Err (InvalidResponse (OutputUsageExceedsRequest maximum (usage_output_tokens u))) else Ok tt.

Definition validate_required_usage_field (field : ModelUsageField) (previous actual : Count.Count) : result ModelEventStreamError unit :=
  if actual <? previous then Err (UsageDecreased field previous actual) else Ok tt.

Definition validate_optional_usage_field (field : ModelUsageField) (previous actual : option Count.Count) : result ModelEventStreamError unit :=
  match previous, actual with
  | Some _, None => Err (UsageBreakdownDisappeared field)
  | Some p, Some a => validate_required_usage_field field p a
  | None, _ => Ok tt
  end.

Definition validate_usage_progress (previous : option ModelUsage) (actual : ModelUsage) : result ModelEventStreamError unit :=
  match previous with
  | None => Ok tt
  | Some p =>
      _ ← validate_required_usage_field FInputTokens (usage_input_tokens p) (usage_input_tokens actual);
      _ ← validate_optional_usage_field FCachedInputTokens (usage_cached_input_tokens p) (usage_cached_input_tokens actual);
      _ ← validate_required_usage_field FOutputTokens (usage_output_tokens p) (usage_output_tokens actual);
      validate_optional_usage_field FReasoningTokens (usage_reasoning_tokens p) (usage_reasoning_tokens actual)
  end.

Definition process_start (s : ModelEventAccumulator) (prov : ModelResponseProvenance) : result (fault ModelEventStreamError) ModelEventAccumulator :=
  let expected := model_identity (acc_descriptor s) in
  if negb (bool_decide (mp_model prov = expected)) then Err (Fail (InvalidResponse (ModelIdentityMismatch expected (mp_model prov)))) else
  Ok (mkAccumulator (acc_descriptor s) (acc_request s) (acc_attempt_id s) (next_sequence s) true (poisoned s) (Some prov) (slots s)
        (acc_content_items s) (acc_tool_calls s) (provider_call_ids s) (retained_inline_bytes s) (last_usage s) (acc_response s)).

(** The identifier a tool call start claims. *)
Definition claim_call_id (start : ModelOutputStart) (ids : list ProviderId) : result (fault ModelEventStreamError) (list ProviderId) :=
  match start with
  | StToolCall _ (Some id) _ => if bs_contains id ids then Err (Fail (InvalidResponse DuplicateProviderToolCallId)) else Ok (bs_insert id ids)
  | _ => Ok ids
  end.

Definition count_start (s : ModelEventAccumulator) (start : ModelOutputStart) : result (fault ModelEventStreamError) ModelEventAccumulator :=
  match start_kind start with
  | KContent | KReasoningSummary =>
      if acc_content_items s =? MAX_CONTENT_ITEMS then Err (Fail (InvalidResponse (TooManyContentItems MAX_CONTENT_ITEMS (MAX_CONTENT_ITEMS + 1)))) else
      Ok (set_counts s (acc_content_items s + 1) (acc_tool_calls s) (provider_call_ids s))
  | KToolCall =>
      if acc_tool_calls s =? MAX_TOOL_CALLS then Err (Fail (InvalidResponse (TooManyToolCalls MAX_TOOL_CALLS (MAX_TOOL_CALLS + 1)))) else
      let next_calls := acc_tool_calls s + 1 in
      let maximum := max_tool_calls_per_response (acc_request s) in
      if maximum <? next_calls then Err (Fail (InvalidResponse (ToolCallsExceedRequest maximum next_calls))) else
      ids ← claim_call_id start (provider_call_ids s);
      Ok (set_counts s (acc_content_items s) next_calls ids)
  end.

Definition process_output_start (s : ModelEventAccumulator) (output_index : Z) (start : ModelOutputStart)
  : result (fault ModelEventStreamError) ModelEventAccumulator :=
  let expected := Z.of_nat (length (slots s)) in
  if negb (output_index =? expected) then Err (Fail (OutputStartOutOfOrder expected output_index)) else
  s ← count_start s start;
  observed ← ok_or (Count.checked_add (retained_inline_bytes s) (inline_header_bytes start)) (Fail PayloadAccountingOverflow);
  _ ← map_err Fail (validate_aggregate_payload observed);
  Ok (set_slots s (slots s ++ [SActive start []]) observed).

Definition slot_at (s : ModelEventAccumulator) (output_index : Z) : result (fault ModelEventStreamError) OutputSlot :=
  ok_or (slots s !! Z.to_nat output_index) (Fail (OutputNotStarted output_index)).

Definition delta_maximum (k : ModelOutputDeltaKind) : Z :=
  match k with DkText | DkReasoningSummary => TEXT_MAX_BYTES | DkJson | DkToolArguments => max_bytes LIMITS_DEFAULT end.

Definition process_output_delta (s : ModelEventAccumulator) (output_index : Z) (delta : ModelOutputDelta)
  : result (fault ModelEventStreamError) ModelEventAccumulator :=
  slot ← slot_at s output_index;
  match slot with
  | SCompleted _ | STransitioning => Err (Fail (OutputAlreadyCompleted output_index))
  | SActive start buffer =>
      expected ← ok_or (delta_kind start) (Fail (OutputDoesNotAcceptDeltas output_index));
      if negb (bool_decide (kind_of_delta delta = expected)) then Err (Fail (DeltaKindMismatch output_index expected (kind_of_delta delta))) else
      let chunk := into_chunk delta in
      observed_item ← ok_or (Count.checked_add (len buffer) (len chunk)) (Fail PayloadAccountingOverflow);
      if delta_maximum expected <? observed_item then Err (Fail (OutputPayloadTooLarge output_index (delta_maximum expected) observed_item)) else
      observed_total ← ok_or (Count.checked_add (retained_inline_bytes s) (len chunk)) (Fail PayloadAccountingOverflow);
      _ ← map_err Fail (validate_aggregate_payload observed_total);
      Ok (set_slots s (<[Z.to_nat output_index := SActive start (buffer ++ chunk)]> (slots s)) observed_total)
  end.

Definition process_usage (s : ModelEventAccumulator) (u : ModelUsage) : result (fault ModelEventStreamError) ModelEventAccumulator :=
  _ ← map_err Fail (validate_usage_progress (last_usage s) u);
  _ ← map_err Fail (validate_usage_limits (acc_request s) u);
  Ok (set_usage s u).

(** The first slot that is not complete. *)
Fixpoint open_slot (index : Z) (l : list OutputSlot) : option Z :=
  match l with
  | [] => None
  | SCompleted _ :: l' => open_slot (index + 1) l'
  | _ :: _ => Some index
  end.

Definition slot_item (slot : OutputSlot) : result (fault ModelEventStreamError) ModelOutputItem :=
  match slot with SCompleted item => Ok item | _ => Err Panic end.

Definition raise_response {A} (r : result (fault ModelResponseError) A) : result (fault ModelEventStreamError) A :=
  match r with Ok a => Ok a | Err Panic => Err Panic | Err (Fail e) => Err (Fail (InvalidResponse e)) end.

Definition process_completed (s : ModelEventAccumulator) (reason : ModelFinishReason) (u : ModelUsage) (ext : Extension.Extensions)
  : result (fault ModelEventStreamError) ModelEventAccumulator :=
  _ ← map_err Fail (validate_usage_progress (last_usage s) u);
  _ ← map_err Fail (validate_usage_limits (acc_request s) u);
  match open_slot 0 (slots s) with
  | Some index => Err (Fail (OutputStillOpen index))
  | None =>
      prov ← ok_or (acc_provenance s) Panic;
      items ← mapM slot_item (slots s);
      response ← raise_response (response_new prov (acc_descriptor s) (acc_request s) items reason u ext);
      bytes ← map_err (fun _ => Panic) (response_payload_bytes response);
      if negb (bytes =? retained_inline_bytes s) then Err Panic else
      Ok (mkAccumulator (acc_descriptor s) (acc_request s) (acc_attempt_id s) (next_sequence s) (started s) (poisoned s) None []
            (acc_content_items s) (acc_tool_calls s) (provider_call_ids s) (retained_inline_bytes s) (last_usage s) (Some response))
  end.

Section Stream.
Variable float_text : Z -> bytes.
Variable parser : bytes -> Doc * option (Z * Z).

Definition finish_output_item (output_index : Z) (start : ModelOutputStart) (buffer : text) : result (fault ModelEventStreamError) ModelOutputItem :=
  match start with
  | StText lang meta =>
      content ← map_err (fun e => Fail (InvalidTextPayload output_index e)) (text_content_new buffer lang meta);
      map_err (fun e => Fail (StreamInvalidOutputItem output_index e)) (content_item (Artifact.PText content))
  | StJson schema meta =>
      value ← map_err (fun e => Fail (InvalidJsonPayload output_index e)) (from_slice float_text parser (text_bytes buffer));
      map_err (fun e => Fail (StreamInvalidOutputItem output_index e)) (content_item (Artifact.PJson (Artifact.mkJsonContent value schema meta)))
  | StArtifact artifact =>
      if negb (length buffer =? 0)%nat then Err Panic else
      map_err (fun e => Fail (StreamInvalidOutputItem output_index e)) (content_item (Artifact.PArtifact artifact))
  | StReasoningSummary lang meta =>
      content ← map_err (fun e => Fail (InvalidTextPayload output_index e)) (text_content_new buffer lang meta);
      map_err (fun e => Fail (StreamInvalidOutputItem output_index e)) (reasoning_summary content)
  | StToolCall tool call ext =>
      args ← map_err (fun e => Fail (InvalidJsonPayload output_index e)) (from_slice float_text parser (text_bytes buffer));
      proposal ← map_err (fun e => Fail (InvalidToolCall output_index e)) (proposal_new tool call args ext);
      Ok (OToolCall proposal)
  end.

Definition process_output_completed (s : ModelEventAccumulator) (output_index : Z) : result (fault ModelEventStreamError) ModelEventAccumulator :=
  slot ← slot_at s output_index;
  match slot with
  | SCompleted _ | STransitioning => Err (Fail (OutputAlreadyCompleted output_index))
  | SActive start buffer =>
      old_bytes ← ok_or (Count.checked_add (inline_header_bytes start) (len buffer)) (Fail PayloadAccountingOverflow);
      item ← finish_output_item output_index start buffer;
      base ← ok_or (Count.checked_sub (retained_inline_bytes s) old_bytes) (Fail PayloadAccountingOverflow);
      observed ← ok_or (Count.checked_add base (item_payload_bytes item)) (Fail PayloadAccountingOverflow);
      _ ← map_err Fail (validate_aggregate_payload observed);
      Ok (set_slots s (<[Z.to_nat output_index := SCompleted item]> (slots s)) observed)
  end.

Definition is_started (k : ModelEventKind) : bool := match k with EvStarted _ => true | _ => false end.

Definition process_event (s : ModelEventAccumulator) (k : ModelEventKind) : result (fault ModelEventStreamError) ModelEventAccumulator :=
  match k with
  | EvStarted prov => process_start s prov
  | EvOutputStarted i start => process_output_start s i start
  | EvOutputDelta i delta => process_output_delta s i delta
  | EvOutputCompleted i => process_output_completed s i
  | EvUsageUpdated u => process_usage s u
  | EvCompleted reason u ext => process_completed s reason u ext
  end.

Definition try_push (s : ModelEventAccumulator) (event : ModelEvent) : result (fault ModelEventStreamError) ModelEventAccumulator :=
  if negb (ev_attempt_id event =? acc_attempt_id s) then Err (Fail (AttemptMismatch (acc_attempt_id s) (ev_attempt_id event))) else
  if negb (ev_sequence event =? next_sequence s) then Err (Fail (SequenceMismatch (next_sequence s) (ev_sequence event))) else
  if negb (started s) && negb (is_started (ev_kind event)) then Err (Fail EventBeforeStart) else
  if started s && is_started (ev_kind event) then Err (Fail DuplicateStart) else
  s ← process_event s (ev_kind event);
  n ← ok_or (Count.checked_add (ev_sequence event) 1) Panic;
  Ok (set_sequence s n).

(** The state after a failure is only ever read as poisoned: what the failing
    handler changed before it failed is not observable. *)
Definition push (s : ModelEventAccumulator) (event : ModelEvent) : ModelEventAccumulator * result (fault ModelEventStreamError) unit :=
  if poisoned s then (s, Err (Fail Poisoned)) else
  if negb (is_none (acc_response s)) then (poison s, Err (Fail AlreadyCompleted)) else
  match try_push s event with
  | Ok s' => (s', Ok tt)
  | Err e => (poison s, Err e)
  end.

Definition finish (s : ModelEventAccumulator) : result ModelEventStreamError ModelResponse :=
  if poisoned s then Err Poisoned else ok_or (acc_response s) (UnexpectedEnd (next_sequence s)).

(** Pushing a whole stream, whatever the single answers. *)
Definition push_all (s : ModelEventAccumulator) (l : list ModelEvent) : ModelEventAccumulator := fold_left (fun s e => (push s e).1) l s.
End Stream.

End Events.

(** Laws of model event streams ([ModelEvent.v]): the accumulator assembles the
    response that a reference definition reads off the whole event list, keeps
    its ceilings, never panics, and latches its first failure. *)

Module StreamLaws.
Import Text Content Capability Messages Models Responses Requests Events.

Section Laws.
Variable float_text : Z -> bytes.
Variable parser : bytes -> Doc * option (Z * Z).

(** * The reference: the response read off the whole list *)

Definition start_of (k : ModelEventKind) : list ModelOutputStart := match k with EvOutputStarted _ st => [st] | _ => [] end.
Definition chunk_for (i : Z) (k : ModelEventKind) : text := match k with EvOutputDelta j d => if j =? i then into_chunk d else [] | _ => [] end.

(** The outputs in the order they start, and all the text of one of them. *)
Definition starts (ks : list ModelEventKind) : list ModelOutputStart := ks ≫= start_of.
Definition chunks (i : Z) (ks : list ModelEventKind) : text := ks ≫= chunk_for i.

Fixpoint finish_all (i : Z) (l : list ModelOutputStart) (ks : list ModelEventKind) : result (fault ModelEventStreamError) (list ModelOutputItem) :=
  match l with
  | [] => Ok []
  | st :: l' =>
      item ← finish_output_item float_text parser i st (chunks i ks);
      items ← finish_all (i + 1) l' ks;
      Ok (item :: items)
  end.

Definition is_completed (k : ModelEventKind) : bool := match k with EvCompleted _ _ _ => true | _ => false end.
Definition inner (k : ModelEventKind) : Prop := is_started k = false /\ is_completed k = false.

(** The response of a stream: a start, outputs and usage, one completion. *)
Definition assembled (d : ModelDescriptor) (q : ModelRequest) (ks : list ModelEventKind) (r : ModelResponse) : Prop :=
  exists prov mid reason u ext items,
    ks = EvStarted prov :: mid ++ [EvCompleted reason u ext] /\ Forall inner mid /\
    finish_all 0 (starts mid) mid = Ok items /\ response_new prov d q items reason u ext = Ok r.

Lemma starts_snoc ks k : starts (ks ++ [k]) = starts ks ++ start_of k.
Proof. unfold starts. rewrite bind_app. simpl. by rewrite app_nil_r. Qed.
Lemma chunks_snoc i ks k : chunks i (ks ++ [k]) = chunks i ks ++ chunk_for i k.
Proof. unfold chunks. rewrite bind_app. simpl. by rewrite app_nil_r. Qed.

(** * The state after the events so far *)

Definition slot_size (sl : OutputSlot) : Z :=
  match sl with SActive st b => inline_header_bytes st + len b | SCompleted item => item_payload_bytes item | STransitioning => 0 end.
Definition slots_size (l : list OutputSlot) : Z := foldr (fun sl n => slot_size sl + n) 0 l.

Lemma slots_size_app l1 l2 : slots_size (l1 ++ l2) = slots_size l1 + slots_size l2.
Proof. induction l1 as [|x l IH]; simpl; [lia |]. rewrite IH. lia. Qed.

Lemma slots_size_insert l i old new : l !! i = Some old -> slots_size (<[i := new]> l) = slots_size l - slot_size old + slot_size new.
Proof.
  revert i. induction l as [|x l IH]; intros [|i] Hi; simpl in *; try done; [injection Hi as ->; lia |]. rewrite (IH i Hi). lia.
Qed.

(** A slot against its start and the text received for it. *)
Definition slot_matches (i : Z) (st : ModelOutputStart) (b : text) (sl : OutputSlot) : Prop :=
  (delta_kind st = None -> b = []) /\
  match sl with
  | SActive st' b' => st' = st /\ b' = b
  | SCompleted item => finish_output_item float_text parser i st b = Ok item
  | STransitioning => False
  end.

(** The slots, the retained bytes and the counts after a list of events. *)
Record body (ks : list ModelEventKind) (l : list OutputSlot) (bytes content calls : Z) : Prop := {
  bd_length : length l = length (starts ks);
  bd_slots : forall i st sl, starts ks !! i = Some st -> l !! i = Some sl -> slot_matches (Z.of_nat i) st (chunks (Z.of_nat i) ks) sl;
  bd_fresh : forall i, Z.of_nat (length (starts ks)) <= i -> chunks i ks = [];
  bd_headers : Forall (fun st => 0 <= inline_header_bytes st) (starts ks);
  bd_bytes : bytes = slots_size l /\ bytes <= MAX_OUTPUT_PAYLOAD_BYTES;
  bd_counts : Z.of_nat (length l) = content + calls /\ 0 <= content <= MAX_CONTENT_ITEMS /\ 0 <= calls <= MAX_TOOL_CALLS
}.

Record assembling (a : Z) (d : ModelDescriptor) (q : ModelRequest) (es : list ModelEvent) (s : ModelEventAccumulator) : Prop := {
  as_static : acc_descriptor s = d /\ acc_request s = q /\ acc_attempt_id s = a /\ poisoned s = false /\ acc_response s = None;
  as_seq : next_sequence s = Z.of_nat (length es);
  as_events : forall i e, es !! i = Some e -> ev_sequence e = Z.of_nat i /\ ev_attempt_id e = a;
  as_head : match es with
            | [] => started s = false
            | e :: es' => exists prov, ev_kind e = EvStarted prov /\ started s = true /\ acc_provenance s = Some prov /\ Forall (fun e => inner (ev_kind e)) es'
            end;
  as_body : body (ev_kind <$> es) (slots s) (retained_inline_bytes s) (acc_content_items s) (acc_tool_calls s)
}.

(** Events as their constructor makes them, with machine-width numbers. *)
Definition event_wf (e : ModelEvent) : Prop :=
  event_new (ev_attempt_id e) (ev_sequence e) (ev_kind e) = Ok e /\ 0 <= ev_sequence e /\
  (forall i, event_output_index (ev_kind e) = Some i -> 0 <= i) /\ (forall i st, ev_kind e = EvOutputStarted i st -> 0 <= inline_header_bytes st).

Lemma assembling_new a d q s : accumulator_new a d q = Ok s -> assembling a d q [] s.
Proof.
  unfold accumulator_new. case_match; [done |]. destruct (satisfies _ _); simpl; [| done]. intros [= <-].
  constructor; simpl; try done; try constructor; try done; lia.
Qed.

(** * Payloads are sizes *)

Lemma from_slice_nonneg b j : from_slice float_text parser b = Ok j -> 0 <= compact_bytes (stats j).
Proof.
  unfold from_slice, from_slice_with_limits. case_match; [done |]. destruct (parser b) as [doc rest]. intros ([v t] & Hv & He)%bind_Ok.
  assert (Hj : j = mkBoundedJson v (tracker_stats t)) by (unfold container_end in He; destruct rest as [[? ?]|]; [done | by injection He as <-]).
  assert (Hd : deserialize_with_limits float_text doc LIMITS_DEFAULT = Ok j) by (unfold deserialize_with_limits; rewrite Hv, Hj; done).
  apply Bounded.deserialize_iff in Hd as [_ ->]; [| by apply Bounded.limits_wf_range; [repeat constructor; vm_compute |]].
  simpl. lia.
Qed.

Lemma finish_nonneg i st b item : 0 <= inline_header_bytes st -> finish_output_item float_text parser i st b = Ok item -> 0 <= item_payload_bytes item.
Proof.
  intros Hh HF. unfold finish_output_item in HF. destruct st as [lang meta|sch meta|art|lang meta|tool call ext].
  - apply bind_Ok in HF as (c & _ & HF). destruct (content_item _) as [x|] eqn:E; [| done]. injection HF as ->.
    unfold content_item in E. apply bind_Ok in E as (? & _ & [= <-]). simpl. apply len_nonneg.
  - apply bind_Ok in HF as (v & Hv & HF). destruct (content_item _) as [x|] eqn:E; [| done]. injection HF as ->.
    unfold content_item in E. apply bind_Ok in E as (? & _ & [= <-]). simpl. destruct (from_slice _ _ _) eqn:Ef; [| done]. injection Hv as ->.
    by eapply from_slice_nonneg.
  - case_match; [done |]. destruct (content_item _) as [x|] eqn:E; [| done]. injection HF as ->.
    unfold content_item in E. by apply bind_Ok in E as (? & _ & [= <-]).
  - apply bind_Ok in HF as (c & _ & HF). destruct (reasoning_summary _) as [x|] eqn:E; [| done]. injection HF as ->.
    unfold reasoning_summary in E. apply bind_Ok in E as (? & _ & [= <-]). simpl. apply len_nonneg.
  - apply bind_Ok in HF as (v & Hv & HF). apply bind_Ok in HF as (p & Hp & [= <-]). destruct (from_slice _ _ _) eqn:Ef; [| done]. injection Hv as ->.
    apply from_slice_nonneg in Ef. unfold proposal_new in Hp. destruct (negb _); [done |]. injection Hp as <-. simpl in *. lia.
Qed.

(** * Steps *)

Lemma aggregate_Ok n u : validate_aggregate_payload n = Ok u <-> n <= MAX_OUTPUT_PAYLOAD_BYTES.
Proof. unfold validate_aggregate_payload. destruct u, (Z.ltb_spec MAX_OUTPUT_PAYLOAD_BYTES n); split; try done; lia. Qed.

(** An event that touches no output. *)
Lemma body_other ks k l b c t : start_of k = [] -> (forall i, chunk_for i k = []) -> body ks l b c t -> body (ks ++ [k]) l b c t.
Proof.
  intros Hs Hc [H1 H2 H3 H4 H5 H6]. assert (Es : starts (ks ++ [k]) = starts ks) by (by rewrite starts_snoc, Hs, app_nil_r).
  assert (Ec : forall i, chunks i (ks ++ [k]) = chunks i ks) by (intros i; by rewrite chunks_snoc, Hc, app_nil_r).
  constructor; rewrite ?Es; try done.
  - intros i st sl Hi Hl. rewrite Ec. by apply H2.
  - intros i Hi. rewrite Ec. by apply H3.
Qed.

Lemma body_start ks st l b c t c' t' :
  0 <= inline_header_bytes st -> b + inline_header_bytes st <= MAX_OUTPUT_PAYLOAD_BYTES ->
  c' + t' = c + t + 1 -> 0 <= c' <= MAX_CONTENT_ITEMS -> 0 <= t' <= MAX_TOOL_CALLS ->
  body ks l b c t -> body (ks ++ [EvOutputStarted (Z.of_nat (length l)) st]) (l ++ [SActive st []]) (b + inline_header_bytes st) c' t'.
Proof.
  intros Hh Hb Hct Hc Ht [H1 H2 H3 H4 [H5 H5'] H6].
  assert (Ec : forall i, chunks i (ks ++ [EvOutputStarted (Z.of_nat (length l)) st]) = chunks i ks) by (intros i; rewrite chunks_snoc; simpl; by rewrite app_nil_r).
  constructor; rewrite ?starts_snoc; simpl.
  - rewrite !length_app, H1. done.
  - intros i st' sl Hi Hl. rewrite Ec. apply lookup_app_Some in Hi as [Hi|[Hge Hi]].
    + apply lookup_app_Some in Hl as [Hl|[Hge _]]; [by apply H2 |]. apply lookup_lt_Some in Hi. lia.
    + apply list_lookup_singleton_Some in Hi as [Hi <-]. assert (i = length l) as -> by lia. rewrite list_lookup_middle in Hl by done. injection Hl as <-.
      rewrite H3 by lia. done.
  - intros i Hi. rewrite Ec. apply H3. rewrite length_app in Hi. lia.
  - apply Forall_app. by repeat constructor.
  - rewrite slots_size_app. simpl. lia.
  - rewrite length_app. simpl. lia.
Qed.

Lemma body_delta ks st l b c t (i : nat) buf dl :
  l !! i = Some (SActive st buf) -> is_Some (delta_kind st) -> b + len (into_chunk dl) <= MAX_OUTPUT_PAYLOAD_BYTES ->
  body ks l b c t ->
  body (ks ++ [EvOutputDelta (Z.of_nat i) dl]) (<[i := SActive st (buf ++ into_chunk dl)]> l) (b + len (into_chunk dl)) c t.
Proof.
  intros Hl Hk Hb [H1 H2 H3 H4 [H5 H5'] H6].
  assert (Es : starts (ks ++ [EvOutputDelta (Z.of_nat i) dl]) = starts ks) by (rewrite starts_snoc; simpl; by rewrite app_nil_r).
  assert (Ec : forall j, chunks j (ks ++ [EvOutputDelta (Z.of_nat i) dl]) = chunks j ks ++ (if Z.of_nat i =? j then into_chunk dl else [])) by (intros j; by rewrite chunks_snoc).
  assert (Hlt : (i < length (starts ks))%nat) by (rewrite <- H1; by apply lookup_lt_Some in Hl).
  constructor; rewrite ?Es; try done.
  - by rewrite length_insert.
  - intros j st' sl Hj Hsl. rewrite Ec. destruct (decide (i = j)) as [<-|Hne].
    + rewrite list_lookup_insert_eq in Hsl by (by apply lookup_lt_Some in Hl). injection Hsl as <-. rewrite Z.eqb_refl.
      destruct (H2 i st' _ Hj Hl) as [_ [-> ->]]. split; [| done]. intros Hn. rewrite Hn in Hk. by destruct Hk.
    + rewrite list_lookup_insert_ne in Hsl by done. destruct (Z.eqb_spec (Z.of_nat i) (Z.of_nat j)); [lia |]. rewrite app_nil_r. by apply H2.
  - intros j Hj. rewrite Ec. destruct (Z.eqb_spec (Z.of_nat i) j); [lia |]. rewrite app_nil_r. by apply H3.
  - split; [| done]. rewrite (slots_size_insert l i _ _ Hl). simpl. rewrite len_app. lia.
  - by rewrite length_insert.
Qed.

Lemma body_complete ks st l b c t (i : nat) buf item n :
  l !! i = Some (SActive st buf) -> finish_output_item float_text parser (Z.of_nat i) st buf = Ok item ->
  n = b - (inline_header_bytes st + len buf) + item_payload_bytes item -> n <= MAX_OUTPUT_PAYLOAD_BYTES ->
  body ks l b c t -> body (ks ++ [EvOutputCompleted (Z.of_nat i)]) (<[i := SCompleted item]> l) n c t.
Proof.
  intros Hl Hf Hn Hm [H1 H2 H3 H4 [H5 H5'] H6].
  assert (Es : starts (ks ++ [EvOutputCompleted (Z.of_nat i)]) = starts ks) by (rewrite starts_snoc; simpl; by rewrite app_nil_r).
  assert (Ec : forall j, chunks j (ks ++ [EvOutputCompleted (Z.of_nat i)]) = chunks j ks) by (intros j; rewrite chunks_snoc; simpl; by rewrite app_nil_r).
  constructor; rewrite ?Es; try done.
  - by rewrite length_insert.
  - intros j st' sl Hj Hsl. rewrite Ec. destruct (decide (i = j)) as [<-|Hne].
    + rewrite list_lookup_insert_eq in Hsl by (by apply lookup_lt_Some in Hl). injection Hsl as <-.
      destruct (H2 i st' _ Hj Hl) as [Hk [-> ->]]. split; [done | exact Hf].
    + rewrite list_lookup_insert_ne in Hsl by done. by apply H2.
  - intros j Hj. rewrite Ec. by apply H3.
  - split; [| done]. rewrite (slots_size_insert l i _ _ Hl). simpl. lia.
  - by rewrite length_insert.
Qed.

Lemma events_snoc a (es : list ModelEvent) e :
  (forall i x, es !! i = Some x -> ev_sequence x = Z.of_nat i /\ ev_attempt_id x = a) ->
  ev_sequence e = Z.of_nat (length es) -> ev_attempt_id e = a ->
  forall i x, (es ++ [e]) !! i = Some x -> ev_sequence x = Z.of_nat i /\ ev_attempt_id x = a.
Proof. intros H Hs Ha i x [[_ Hx]|[-> <-]]%lookup_snoc_Some; [by apply H | done]. Qed.

(** The generic part of a step. *)
Lemma assembling_snoc a d q es e s s1 :
  assembling a d q es s -> es <> [] -> ev_attempt_id e = a -> ev_sequence e = next_sequence s -> inner (ev_kind e) ->
  acc_descriptor s1 = d /\ acc_request s1 = q /\ acc_attempt_id s1 = a /\ poisoned s1 = false /\ acc_response s1 = None ->
  started s1 = started s -> acc_provenance s1 = acc_provenance s ->
  body ((ev_kind <$> es) ++ [ev_kind e]) (slots s1) (retained_inline_bytes s1) (acc_content_items s1) (acc_tool_calls s1) ->
  assembling a d q (es ++ [e]) (set_sequence s1 (ev_sequence e + 1)).
Proof.
  intros [H1 H2 H3 H4 H5] Hne Ha Hs Hin Hst Hsd Hpr Hb. constructor; simpl; try done.
  - rewrite length_app, Hs, H2. simpl. lia.
  - apply events_snoc; [done | congruence | done].
  - destruct es as [|e0 es]; [done |]. destruct H4 as (prov & K1 & K2 & K3 & K4). exists prov. simpl. rewrite Hsd, Hpr. split_and!; try done.
    apply Forall_app. split; [done |]. by apply Forall_singleton.
  - by rewrite fmap_app.
Qed.

Lemma count_start_Ok s st s1 :
  count_start s st = Ok s1 ->
  exists c t ids, s1 = set_counts s c t ids /\ c + t = acc_content_items s + acc_tool_calls s + 1 /\
    (0 <= acc_content_items s <= MAX_CONTENT_ITEMS -> 0 <= c <= MAX_CONTENT_ITEMS) /\ (0 <= acc_tool_calls s <= MAX_TOOL_CALLS -> 0 <= t <= MAX_TOOL_CALLS).
Proof.
  unfold count_start. destruct (start_kind st).
  - destruct (Z.eqb_spec (acc_content_items s) MAX_CONTENT_ITEMS); [done |]. intros [= <-]. do 3 eexists. split; [done |]. lia.
  - destruct (Z.eqb_spec (acc_content_items s) MAX_CONTENT_ITEMS); [done |]. intros [= <-]. do 3 eexists. split; [done |]. lia.
  - destruct (Z.eqb_spec (acc_tool_calls s) MAX_TOOL_CALLS); [done |]. case_match; [done |]. intros (ids & _ & [= <-])%bind_Ok. do 3 eexists.
    split; [done |]. lia.
Qed.

Lemma slot_at_Ok s i sl : slot_at s i = Ok sl <-> slots s !! Z.to_nat i = Some sl.
Proof. unfold slot_at. by rewrite ok_or_Ok. Qed.

(** An accepted event other than the completion extends the assembly. *)
Lemma step_assembles a d q es e s s' :
  assembling a d q es s -> event_wf e -> is_completed (ev_kind e) = false -> try_push float_text parser s e = Ok s' ->
  assembling a d q (es ++ [e]) s'.
Proof.
  intros Has (Hnew & Hseq & Hidx & Hhead) Hnc HT. pose proof Has as [(Hd & Hq & Ha & Hp & Hr) H2 H3 H4 H5]. unfold try_push in HT.
  destruct (Z.eqb_spec (ev_attempt_id e) (acc_attempt_id s)) as [Ea|]; simpl in HT; [| done].
  destruct (Z.eqb_spec (ev_sequence e) (next_sequence s)) as [Es|]; simpl in HT; [| done].
  destruct (negb (started s) && negb (is_started (ev_kind e))) eqn:G1; [done |]. destruct (started s && is_started (ev_kind e)) eqn:G2; [done |].
  apply bind_Ok in HT as (s1 & H1 & HT). apply bind_Ok in HT as (n & Hn & [= <-]).
  apply ok_or_Ok, checked_add_Some in Hn as [-> _].
  destruct es as [|e0 es0].
  { (* the start *)
    simpl in H4. rewrite H4 in *. simpl in *. destruct (ev_kind e) as [prov| | | | |] eqn:Ek; try done. simpl in H1. unfold process_start in H1.
    case_match; [done |]. injection H1 as <-. constructor; simpl; try done.
    - rewrite Es, H2. done.
    - intros i x Hx. apply list_lookup_singleton_Some in Hx as [-> <-]. rewrite Es, H2. split; [done |]. congruence.
    - exists prov. by split_and!; try constructor.
    - rewrite Ek. by apply (body_other []). }
  assert (Hst : started s = true) by (by destruct H4 as (? & _ & ? & _)). rewrite Hst in G1, G2. simpl in G1, G2.
  assert (Hin : inner (ev_kind e)) by (split; [done | done]).
  pose proof (assembling_snoc a d q (e0 :: es0) e s s1 Has ltac:(done) ltac:(congruence) Es Hin) as Hsnoc.
  remember (ev_kind <$> e0 :: es0) as ks eqn:Eks. clear Eks. destruct (ev_kind e) as [prov|i st|i dl|i|u|reason u ext] eqn:Ek; try done; simpl in H1.
  - unfold process_output_start in H1. destruct (Z.eqb_spec i (Z.of_nat (length (slots s)))) as [->|]; simpl in H1; [| done].
    apply bind_Ok in H1 as (s2 & (c & t & ids & -> & Hct & Hc & Ht)%count_start_Ok & H1). apply bind_Ok in H1 as (n & Hn & H1).
    apply ok_or_Ok, checked_add_Some in Hn as [-> _]. apply bind_Ok in H1 as (? & Hagg%map_err_Ok%aggregate_Ok & [= <-]). simpl in *.
    pose proof (bd_counts _ _ _ _ _ H5) as (? & ? & ?). apply Hsnoc; try done. apply (body_start ks st _ _ (acc_content_items s) (acc_tool_calls s)); eauto.
  - unfold process_output_delta in H1. apply bind_Ok in H1 as (sl & Hsl%slot_at_Ok & H1). destruct sl as [st buf| |]; try done.
    apply bind_Ok in H1 as (k & Hk%ok_or_Ok & H1). case_match; [done |]. apply bind_Ok in H1 as (n1 & _ & H1). case_match; [done |].
    apply bind_Ok in H1 as (n & Hn & H1). apply ok_or_Ok, checked_add_Some in Hn as [-> _]. apply bind_Ok in H1 as (? & Hagg%map_err_Ok%aggregate_Ok & [= <-]).
    apply Hsnoc; try done. simpl. specialize (Hidx i eq_refl). replace i with (Z.of_nat (Z.to_nat i)) at 1 by lia. by apply body_delta.
  - unfold process_output_completed in H1. apply bind_Ok in H1 as (sl & Hsl%slot_at_Ok & H1). destruct sl as [st buf| |]; try done.
    apply bind_Ok in H1 as (old & Ho & H1). apply ok_or_Ok, checked_add_Some in Ho as [-> _]. apply bind_Ok in H1 as (item & Hf & H1).
    apply bind_Ok in H1 as (base & Hb & H1). apply ok_or_Ok, checked_sub_Some in Hb as [-> _]. apply bind_Ok in H1 as (n & Hn & H1).
    apply ok_or_Ok, checked_add_Some in Hn as [-> _]. apply bind_Ok in H1 as (? & Hagg%map_err_Ok%aggregate_Ok & [= <-]).
    specialize (Hidx i eq_refl). apply Hsnoc; try done. simpl. replace i with (Z.of_nat (Z.to_nat i)) in Hf |- * at 1 by lia.
    by eapply body_complete.
  - unfold process_usage in H1. apply bind_Ok in H1 as (? & _ & H1). apply bind_Ok in H1 as (? & _ & [= <-]). apply Hsnoc; try done. simpl. by apply body_other.
Qed.

(** * Completion *)

(** Complete slots carry the items of the reference. *)
Lemma complete_slots ks l : forall sts base k,
  length l = length sts -> open_slot k l = None ->
  (forall i st sl, sts !! i = Some st -> l !! i = Some sl -> slot_matches (base + Z.of_nat i) st (chunks (base + Z.of_nat i) ks) sl) ->
  Forall (fun st => 0 <= inline_header_bytes st) sts ->
  exists items, mapM slot_item l = Ok items /\ finish_all base sts ks = Ok items /\ slots_size l = OutputLaws.payload_sum items /\
    Forall (fun i => 0 <= item_payload_bytes i) items.
Proof.
  induction l as [|sl l IH]; intros [|st sts] base k Hl Ho Hm Hh; try done.
  { exists []. split_and!; done. }
  apply Forall_cons in Hh as [Hh Hhs]. destruct (Hm O st sl eq_refl eq_refl) as [_ H0]. rewrite Z.add_0_r in H0.
  destruct sl as [| item |]; simpl in Ho; try done. simpl in Hl.
  destruct (IH sts (base + 1) (k + 1)) as (items & I1 & I2 & I3 & I4); [lia | done | | done |].
  { intros i st' sl' Hi Hsl. replace (base + 1 + Z.of_nat i) with (base + Z.of_nat (S i)) by lia. by apply Hm. }
  exists (item :: items). simpl. rewrite I1, H0. simpl. rewrite I2. split_and!; try done; [by rewrite I3 |].
  constructor; [| done]. by eapply finish_nonneg.
Qed.

Lemma assembling_items a d q es s :
  assembling a d q es s -> open_slot 0 (slots s) = None ->
  exists items, mapM slot_item (slots s) = Ok items /\ finish_all 0 (starts (ev_kind <$> es)) (ev_kind <$> es) = Ok items /\
    retained_inline_bytes s = OutputLaws.payload_sum items /\ Forall (fun i => 0 <= item_payload_bytes i) items.
Proof.
  intros [_ _ _ _ [B1 B2 B3 B4 [B5 _] _]] Ho. destruct (complete_slots (ev_kind <$> es) (slots s) (starts (ev_kind <$> es)) 0 0 B1 Ho) as (items & I1 & I2 & I3 & I4); [| done |].
  - intros i st sl. rewrite Z.add_0_l. apply B2.
  - exists items. split_and!; try done. by rewrite B5.
Qed.

(** The bytes of a response built from accounted items. *)
Lemma response_bytes prov d q items reason u ext r :
  Forall (fun i => 0 <= item_payload_bytes i) items -> response_new prov d q items reason u ext = Ok r ->
  response_payload_bytes r = Ok (OutputLaws.payload_sum items).
Proof.
  intros Hn HR. apply RequestLaws.response_new_spec in HR as [_ (st & Hst & ->)]; [| done]. unfold response_payload_bytes. simpl.
  by rewrite (OutputLaws.cnt_bytes _ _ (OutputLaws.items_counted items st Hn Hst)).
Qed.

Lemma finish_all_ext ks ks' l : (forall i, chunks i ks = chunks i ks') -> forall base, finish_all base l ks = finish_all base l ks'.
Proof. intros Hc. induction l as [|st l IH]; intros base; simpl; [done |]. by rewrite Hc, IH. Qed.

Lemma completed_assembles a d q es e s s' :
  assembling a d q es s -> is_completed (ev_kind e) = true -> try_push float_text parser s e = Ok s' ->
  exists r, acc_response s' = Some r /\ poisoned s' = false /\ assembled d q (ev_kind <$> (es ++ [e])) r /\
    (forall i x, (es ++ [e]) !! i = Some x -> ev_sequence x = Z.of_nat i /\ ev_attempt_id x = a) /\
    retained_inline_bytes s' <= MAX_OUTPUT_PAYLOAD_BYTES /\ slots s' = [].
Proof.
  intros Has Hc HT. pose proof Has as [(Hd & Hq & Ha & Hp & Hr) H2 H3 H4 H5]. unfold try_push in HT.
  destruct (Z.eqb_spec (ev_attempt_id e) (acc_attempt_id s)) as [Ea|]; simpl in HT; [| done].
  destruct (Z.eqb_spec (ev_sequence e) (next_sequence s)) as [Es|]; simpl in HT; [| done].
  destruct (negb (started s) && negb (is_started (ev_kind e))) eqn:G1; [done |]. destruct (started s && is_started (ev_kind e)) eqn:G2; [done |].
  apply bind_Ok in HT as (s1 & H1 & HT). apply bind_Ok in HT as (n & _ & [= <-]).
  destruct (ev_kind e) as [| | | | |reason u ext] eqn:Ek; try done. destruct es as [|e0 es0]; [by rewrite H4 in G1 |].
  destruct H4 as (prov & K1 & K2 & K3 & K4). simpl in H1. unfold process_completed in H1. apply bind_Ok in H1 as (? & _ & H1). apply bind_Ok in H1 as (? & _ & H1).
  destruct (open_slot 0 (slots s)) eqn:Eo; [done |]. rewrite K3 in H1. simpl in H1.
  destruct (assembling_items _ _ _ _ _ Has Eo) as (items & I1 & I2 & I3 & I4). rewrite I1 in H1. simpl in H1.
  apply bind_Ok in H1 as (r & HR & H1). apply bind_Ok in H1 as (b & _ & H1). destruct (negb (b =? retained_inline_bytes s)); [done |]. injection H1 as <-. simpl.
  exists r. split_and!; try done.
  - exists prov, (ev_kind <$> es0), reason, u, ext, items. split_and!.
    + simpl. rewrite fmap_app. simpl. by rewrite K1, Ek.
    + by apply Forall_fmap.
    + rewrite <- I2. simpl. rewrite K1. apply finish_all_ext. done.
    + rewrite <- Hd, <- Hq. destruct (response_new prov (acc_descriptor s) (acc_request s) items reason u ext) as [r0|[]]; simpl in HR; congruence.
  - apply (events_snoc a (e0 :: es0) e H3); congruence.
  - apply H5.
Qed.

(** * No panics *)

Lemma map_fail_panic {E A} (r : result E A) : map_err Fail r <> Err Panic.
Proof. by destruct r. Qed.

Lemma ok_or_panic {E A} (o : option A) (e : E) : ok_or o (Fail e) <> Err Panic.
Proof. by destruct o. Qed.

Lemma finish_safe i st b : (delta_kind st = None -> b = []) -> finish_output_item float_text parser i st b <> Err Panic.
Proof.
  assert (Hm : forall {E A} (f : E -> ModelEventStreamError) (r : result E A), map_err (fun e => Fail (f e)) r <> Err Panic) by (by intros ? ? ? []).
  intros Hd HP. unfold finish_output_item in HP. destruct st as [lang meta|sch meta|art|lang meta|tool call ext].
  - apply bind_panic in HP as [HP|(? & _ & HP)]; by apply Hm in HP.
  - apply bind_panic in HP as [HP|(? & _ & HP)]; by apply Hm in HP.
  - rewrite (Hd eq_refl) in HP. simpl in HP. by apply Hm in HP.
  - apply bind_panic in HP as [HP|(? & _ & HP)]; by apply Hm in HP.
  - apply bind_panic in HP as [HP|(? & _ & HP)]; [by apply Hm in HP |]. apply bind_panic in HP as [HP|(? & _ & HP)]; [by apply Hm in HP | done].
Qed.

Lemma output_start_safe s i st : process_output_start s i st <> Err Panic.
Proof.
  unfold process_output_start. case_match; [done |]. intros HP. apply bind_panic in HP as [HP|(s1 & _ & HP)].
  - unfold count_start, claim_call_id in HP. repeat (case_match; simpl in HP; try done). all: apply bind_panic in HP as [HP|(? & _ & HP)]; by repeat case_match.
  - apply bind_panic in HP as [HP|(? & _ & HP)]; [by apply ok_or_panic in HP |]. apply bind_panic in HP as [HP|(? & _ & HP)]; [by apply map_fail_panic in HP | done].
Qed.

Lemma output_delta_safe s i dl : process_output_delta s i dl <> Err Panic.
Proof.
  unfold process_output_delta. intros HP. apply bind_panic in HP as [HP|(sl & _ & HP)]; [by apply ok_or_panic in HP |]. destruct sl; try done.
  apply bind_panic in HP as [HP|(? & _ & HP)]; [by apply ok_or_panic in HP |]. case_match; [done |].
  apply bind_panic in HP as [HP|(? & _ & HP)]; [by apply ok_or_panic in HP |]. case_match; [done |].
  apply bind_panic in HP as [HP|(? & _ & HP)]; [by apply ok_or_panic in HP |]. apply bind_panic in HP as [HP|(? & _ & HP)]; [by apply map_fail_panic in HP | done].
Qed.

Lemma output_completed_safe a d q es s i : assembling a d q es s -> 0 <= i -> process_output_completed float_text parser s i <> Err Panic.
Proof.
  intros Has Hi. unfold process_output_completed. intros HP. apply bind_panic in HP as [HP|(sl & Hsl%slot_at_Ok & HP)]; [by apply ok_or_panic in HP |]. destruct sl as [st buf| |]; try done.
  apply bind_panic in HP as [HP|(? & _ & HP)]; [by apply ok_or_panic in HP |]. apply bind_panic in HP as [HP|(? & _ & HP)].
  - revert HP. apply finish_safe. pose proof (as_body _ _ _ _ _ Has) as Hb. apply lookup_lt_Some in Hsl as Hlt. rewrite (bd_length _ _ _ _ _ Hb) in Hlt.
    apply lookup_lt_is_Some_2 in Hlt as [st' Hst']. destruct (bd_slots _ _ _ _ _ Hb _ _ _ Hst' Hsl) as [Hd [-> ->]]. exact Hd.
  - apply bind_panic in HP as [HP|(? & _ & HP)]; [by apply ok_or_panic in HP |]. apply bind_panic in HP as [HP|(? & _ & HP)]; [by apply ok_or_panic in HP |].
    apply bind_panic in HP as [HP|(? & _ & HP)]; [by apply map_fail_panic in HP | done].
Qed.

Lemma completed_safe a d q es s reason u ext : assembling a d q es s -> started s = true -> process_completed s reason u ext <> Err Panic.
Proof.
  intros Has Hst. unfold process_completed. intros HP. apply bind_panic in HP as [HP|(? & _ & HP)]; [by apply map_fail_panic in HP |].
  apply bind_panic in HP as [HP|(? & _ & HP)]; [by apply map_fail_panic in HP |]. destruct (open_slot 0 (slots s)) eqn:Eo; [done |].
  destruct (assembling_items _ _ _ _ _ Has Eo) as (items & I1 & _ & I3 & I4).
  assert (exists prov, acc_provenance s = Some prov) as [prov Hprov].
  { pose proof (as_head _ _ _ _ _ Has) as Hh. destruct es as [|e0 es0]; [congruence |]. destruct Hh as (prov & _ & _ & ? & _). by exists prov. }
  rewrite Hprov in HP. simpl in HP. rewrite I1 in HP. simpl in HP. destruct (response_new prov (acc_descriptor s) (acc_request s) items reason u ext) as [r|[|er]] eqn:ER; simpl in HP; [| | done].
  - rewrite (response_bytes _ _ _ _ _ _ _ _ I4 ER) in HP. simpl in HP. rewrite I3, Z.eqb_refl in HP. done.
  - by apply (RequestLaws.response_new_spec prov (acc_descriptor s) (acc_request s) items reason u ext I4) in ER.
Qed.

Lemma try_push_safe a d q es s e : assembling a d q es s -> event_wf e -> try_push float_text parser s e <> Err Panic.
Proof.
  intros Has (Hnew & Hseq & Hidx & _) HP. unfold try_push in HP. case_match; [done |]. case_match; [done |].
  destruct (negb (started s) && negb (is_started (ev_kind e))) eqn:G1; [done |]. destruct (started s && is_started (ev_kind e)) eqn:G2; [done |].
  apply bind_panic in HP as [HP|(s1 & _ & HP)].
  - destruct (ev_kind e) as [prov|i st|i dl|i|u|reason u ext] eqn:Ek; simpl in HP.
    + unfold process_start in HP. by case_match.
    + by apply output_start_safe in HP.
    + by apply output_delta_safe in HP.
    + revert HP. eapply output_completed_safe; [done |]. by apply Hidx.
    + unfold process_usage in HP. apply bind_panic in HP as [HP|(? & _ & HP)]; [by apply map_fail_panic in HP |].
      apply bind_panic in HP as [HP|(? & _ & HP)]; [by apply map_fail_panic in HP | done].
    + revert HP. eapply completed_safe; [done |]. destruct (started s); [done |]. by destruct (is_started (ev_kind e)) eqn:E; [rewrite Ek in E |].
  - unfold event_new in Hnew. destruct (Z.leb_spec MAX_EVENTS_PER_ATTEMPT (ev_sequence e)); [done |]. unfold Count.checked_add, Prelude.checked_add in HP.
    destruct (Z.leb_spec (ev_sequence e + 1) u64_max) as [|Hgt]; [done |]. unfold MAX_EVENTS_PER_ATTEMPT in *. unfold u64_max in Hgt. lia.
Qed.

(** * Whole streams *)

Definition numbered (a : Z) (es : list ModelEvent) : Prop := forall i e, es !! i = Some e -> ev_sequence e = Z.of_nat i /\ ev_attempt_id e = a.

Definition retains_little (s : ModelEventAccumulator) : Prop :=
  retained_inline_bytes s <= MAX_OUTPUT_PAYLOAD_BYTES /\ Z.of_nat (length (slots s)) <= MAX_ITEMS.

(** Assembling, complete, or poisoned. *)
Definition stream_state (a : Z) (d : ModelDescriptor) (q : ModelRequest) (es : list ModelEvent) (s : ModelEventAccumulator) : Prop :=
  assembling a d q es s \/
  (exists r, acc_response s = Some r /\ poisoned s = false /\ assembled d q (ev_kind <$> es) r /\ numbered a es) \/ poisoned s = true.

Lemma assembling_little a d q es s : assembling a d q es s -> retains_little s.
Proof. intros [_ _ _ _ [_ _ _ _ [_ Hb] (Hc & ? & ?)]]. split; [done |]. unfold MAX_ITEMS. lia. Qed.

Lemma push_state a d q es e s :
  stream_state a d q es s -> retains_little s -> event_wf e ->
  stream_state a d q (es ++ [e]) (push float_text parser s e).1 /\ retains_little (push float_text parser s e).1 /\
  (push float_text parser s e).2 <> Err Panic.
Proof.
  intros Hst Hlit He. unfold push. destruct (poisoned s) eqn:Ep; [split_and!; [by right; right | done | done] |].
  destruct (acc_response s) as [r|] eqn:Er; simpl; [split_and!; [by right; right | done | done] |].
  destruct Hst as [Has|[(r & Hr & _)|Hp]]; [| congruence | congruence]. pose proof (try_push_safe _ _ _ _ _ _ Has He) as Hsafe.
  destruct (try_push float_text parser s e) as [s'|err] eqn:Et; simpl; [| split_and!; [by right; right | done | congruence]].
  destruct (is_completed (ev_kind e)) eqn:Ec.
  - destruct (completed_assembles _ _ _ _ _ _ _ Has Ec Et) as (r & R1 & R2 & R3 & R4 & R5 & R6). split_and!; [right; left; by exists r | | done].
    split; [done |]. by rewrite R6.
  - pose proof (step_assembles _ _ _ _ _ _ _ Has He Ec Et) as Has'. split_and!; [by left | by eapply assembling_little | done].
Qed.

Lemma push_all_state a d q s0 es :
  accumulator_new a d q = Ok s0 -> Forall event_wf es ->
  stream_state a d q es (push_all float_text parser s0 es) /\ retains_little (push_all float_text parser s0 es).
Proof.
  intros Hn. induction es as [|e es IH] using rev_ind; intros Hf.
  - pose proof (assembling_new a d q s0 Hn) as Has. split; [by left | by eapply assembling_little].
  - apply Forall_app in Hf as [Hf [He _]%Forall_cons]. destruct (IH Hf) as [Hst Hl]. unfold push_all. rewrite fold_left_app. simpl.
    destruct (push_state a d q es e _ Hst Hl He) as (? & ? & _). done.
Qed.

Lemma poisoned_stays s es : poisoned s = true -> finish (push_all float_text parser s es) = Err Poisoned.
Proof.
  revert s. induction es as [|e es IH]; intros s Hp; simpl; [unfold finish; by rewrite Hp |]. apply IH. unfold push. by rewrite Hp.
Qed.

(** A stream that finished. *)
Lemma stream_finished a d q s0 es r :
  accumulator_new a d q = Ok s0 -> Forall event_wf es -> finish (push_all float_text parser s0 es) = Ok r ->
  assembled d q (ev_kind <$> es) r /\ numbered a es.
Proof.
  intros Hn Hes Hf. destruct (push_all_state a d q s0 es Hn Hes) as [Hst _]. unfold finish in Hf.
  destruct (poisoned _) eqn:Ep; [done |]. destruct (acc_response _) as [r'|] eqn:Er; [| done]. injection Hf as ->.
  destruct Hst as [[(_ & _ & _ & _ & ?) _ _ _ _]|[(r0 & Hr & _ & Ha & Hm)|?]]; [congruence | | congruence].
  assert (r0 = r) as -> by congruence. done.
Qed.

(** C14: the accumulator reads a stream exactly as the reference does.  After any
    events of a new accumulator no push panics, the retained bytes are at most
    64 MiB and the outputs at most 1,280; a stream that finishes is one start,
    outputs and usage, one completion, numbered from zero for the attempt, and
    its response is the one the constructor builds from the outputs in the
    order they started, each from all of its own text, however the chunks of
    different outputs interleave; and a refused event is final. *)
Theorem model_stream_assembles a d q s0 es (Hnew : accumulator_new a d q = Ok s0) (Hes : Forall event_wf es) :
  let s := push_all float_text parser s0 es in
  (forall e, event_wf e -> (push float_text parser s e).2 <> Err Panic) /\ retains_little s /\
  (forall r, finish s = Ok r -> assembled d q (ev_kind <$> es) r /\ numbered a es) /\
  (forall e later, (push float_text parser s e).2 <> Ok tt -> finish (push_all float_text parser (push float_text parser s e).1 later) = Err Poisoned).
Proof.
  intros s. destruct (push_all_state a d q s0 es Hnew Hes) as [Hst Hl]. fold s in Hst, Hl. split_and!; try done.
  - intros e He. by apply (push_state a d q es e s).
  - intros r Hf. by apply (stream_finished a d q s0 es r).
  - intros e later Hne. apply poisoned_stays. unfold push in *. destruct (poisoned s) eqn:Ep; [done |]. destruct (acc_response s); [done |]. simpl in *.
    by destruct (try_push float_text parser s e).
Qed.
End Laws.

(** * Two outputs whose chunks interleave *)
Module Demo.
Import Transcripts RequestLaws.Demo.

Definition builder2 : ModelRequestBuilder :=
  builder_controls (builder_instruction (builder_new lim) instruction) transcript_empty SelNone 0 false [MText] (Some FmtText) Streaming true
    Extension.Extension.extensions_default.
Definition request2 : ModelRequest := match builder_build builder2 with Ok r => r | Err _ => built builder2 end.
Definition streamer : ModelCapabilities :=
  mkModelCapabilities [MText] [MText] true tool_capabilities_unsupported (mkStructured SJson None) true (mkTokenLimits (Some 1000) (Some 500) (Some 500)).
Definition descriptor2 : ModelDescriptor := mkModelDescriptor (model_metadata descriptor) streamer.
Definition prov1 : ModelResponseProvenance := mkModelProvenance 7 (model_identity descriptor2) None None None.
Definition meta : ContentMetadata := mkContentMetadata SModel Untrusted (bytes_of "public") NotApplied.
Definition kinds : list ModelEventKind :=
  [EvStarted prov1; EvOutputStarted 0 (StText None meta); EvOutputDelta 0 (DText [72]); EvOutputStarted 1 (StReasoningSummary None meta);
   EvOutputDelta 1 (DReasoningSummary [114]); EvOutputDelta 0 (DText [105]); EvOutputCompleted 1; EvOutputCompleted 0;
   EvCompleted FCompleted usage1 Extension.Extension.extensions_default].
Definition stream : list ModelEvent := imap (fun i k => mkEvent 7 (Z.of_nat i) k) kinds.
Definition nothing (_ : Z) : bytes := [].
Definition refuse (_ : bytes) : Doc * option (Z * Z) := (DNull, None).
Definition fresh : ModelEventAccumulator :=
  match accumulator_new 7 descriptor2 request2 with Ok s => s | Err _ => mkAccumulator descriptor2 request2 7 0 false true None [] 0 0 [] 0 None None end.
Definition answer : option ModelResponse := acc_response (push_all nothing refuse fresh stream).

Lemma stream_wf : Forall event_wf stream.
Proof.
  repeat constructor; try (vm_compute; done); simpl; intros; simplify_eq; vm_compute; done.
Qed.

Lemma model_stream_assembles_witness :
  exists r, answer = Some r /\ assembled nothing refuse descriptor2 request2 kinds r /\
    item_values (output r) = [OContent (Artifact.PText (mkTextContent [72; 105] None meta)); OReasoningSummary (mkTextContent [114] None meta)].
Proof.
  destruct (model_stream_assembles nothing refuse 7 descriptor2 request2 fresh stream ltac:(vm_compute; reflexivity) stream_wf) as (_ & _ & H & _).
  destruct answer as [r|] eqn:E; [| vm_compute in E; discriminate E]. exists r. split; [reflexivity |]. split.
  - apply (H r). unfold finish. unfold answer in E. rewrite E. vm_compute. reflexivity.
  - vm_compute in E. injection E as <-. reflexivity.
Defined.

End Demo.
End StreamLaws.
