(* ===== verification/ToolInvocation.v ===== *)
(** Durable tool invocations (crates/stateknot-core/src/tool_invocation.rs):
    graph namespaces, preparation intents, the revisioned and journal-anchored
    state machine of one logical invocation, its restoration, and the streaming
    verifier of a complete history.

    An invocation id, an attempt id and an event id are the integers of their
    UUIDs.  The canonical encoder at each wire type and SHA-256 are
    parameters. *)

From Stdlib Require Import ZArith Lia List.
From stdpp Require Import prelude.
From S2P Require Import Prelude Ordered Json Decimal Content BoundedJson Accounting Time Checkpoint Capability Run Journal Barrier Tool.

Open Scope Z_scope.
Import Timestamp(Timestamp).

Module ToolInvocations.
Import Text Content Capability Tools.

Definition INTENT_DIGEST_DOMAIN : bytes := bytes_of "stateknot-tool-invocation-intent-v1" ++ [0].
Definition TRANSITION_DIGEST_DOMAIN : bytes := bytes_of "stateknot-tool-invocation-transition-v1" ++ [0].
Definition RECORD_DIGEST_DOMAIN : bytes := bytes_of "stateknot-tool-invocation-record-v1" ++ [0].

(** * Graph namespaces *)

Definition NAMESPACE_MAX_LEN : Z := 512.

Inductive GraphNamespaceError := NamespaceTooLong (maximum actual : Z) | InvalidSegment (index : Z) (source : NodeIdError).

Definition namespace_segment (index : Z) (segment : bytes) : result GraphNamespaceError Z :=
  _ ← map_err (InvalidSegment index) (node_id_new segment); Ok (index + 1).

Definition graph_namespace_new (value : bytes) : result GraphNamespaceError GraphNamespace :=
  if NAMESPACE_MAX_LEN <? Z.of_nat (length value) then Err (NamespaceTooLong NAMESPACE_MAX_LEN (Z.of_nat (length value))) else
  if (length value =? 0)%nat then Ok namespace_root else
  _ ← try_fold namespace_segment 0 (split_at 47 value);
  Ok value.

(** * Revisions *)

Module Revision.

Definition t := Z.
Definition INITIAL : t := 0.
Definition MAX : t := i64_max.

Inductive ToolInvocationRevisionError := InvalidFormat | NonCanonical | AboveMaximum.

Definition new (value : Z) : result ToolInvocationRevisionError t :=
  if MAX <? value then Err AboveMaximum else Ok value.

Definition checked_next (self : t) : option t := if self =? MAX then None else Some (self + 1).

Definition from_decimal_error (error : Decimal.UnsignedDecimalError) : ToolInvocationRevisionError :=
  match error with
  | Decimal.Empty | Decimal.InvalidCharacter _ => InvalidFormat
  | Decimal.LeadingZero => NonCanonical
  | Decimal.TooLong _ _ | Decimal.Overflow => AboveMaximum
  end.

Definition from_str (value : bytes) : result ToolInvocationRevisionError t :=
  v ← map_err from_decimal_error (Decimal.parse_bounded_u64 value MAX);
  new v.

End Revision.

(** * Intents *)

Inductive ToolInvocationLimit :=
| LTimeout | LMaxConcurrency | LMaxInputBytes | LMaxInlineResultBytes | LMaxArtifacts | LMaxTotalArtifactBytes.

Inductive ToolInvocationIntegrityError := CanonicalSerialization.

Inductive ToolInvocationIntentError :=
| InputSchemaMismatch
| EffectiveLimitWidened (limit : ToolInvocationLimit)
| InputLimitExceeded (maximum actual : Count.Count)
| IntentIntegrity (source : ToolInvocationIntegrityError)
| IntentDigestMismatch.

Abbreviation Activation := (NodeActivation CapabilityIdentity SchemaReference).

Record ToolInvocationIntentDigestWire := mkIntentWire {
  wire_activation : Activation;
  wire_invocation_id : Z;
  wire_descriptor : ToolDescriptor;
  wire_input : ToolInput;
  wire_effective_limits : ToolExecutionLimits
}.

Record ToolInvocationIntent := mkIntent {
  activation : Activation;
  invocation_id : Z;
  descriptor : ToolDescriptor;
  input : ToolInput;
  effective_limits : ToolExecutionLimits;
  intent_digest : Digest
}.

#[global] Instance ToolInvocationIntent_eq_dec : EqDecision ToolInvocationIntent.
Proof. solve_decision. Defined.

Definition intent_tenant_id (self : ToolInvocationIntent) : TenantId := head_tenant_id (base_checkpoint (activation self)).
Definition intent_run_id (self : ToolInvocationIntent) : RunId := head_run_id (base_checkpoint (activation self)).

Definition check_widened (_ : unit) (row : bool * ToolInvocationLimit) : result ToolInvocationIntentError unit :=
  let '(widened, limit) := row in if widened then Err (EffectiveLimitWidened limit) else Ok tt.

Definition validate_intent_shape (d : ToolDescriptor) (i : ToolInput) (effective : ToolExecutionLimits)
  : result ToolInvocationIntentError unit :=
  if negb (bool_decide (input_schema_ref i = input_schema d)) then Err InputSchemaMismatch else
  let descriptor_limits := limits d in
  _ ← try_fold check_widened tt
    [(timeout descriptor_limits <? timeout effective, LTimeout);
     (max_concurrency descriptor_limits <? max_concurrency effective, LMaxConcurrency);
     (max_input_bytes descriptor_limits <? max_input_bytes effective, LMaxInputBytes);
     (max_inline_result_bytes descriptor_limits <? max_inline_result_bytes effective, LMaxInlineResultBytes);
     (max_artifacts descriptor_limits <? max_artifacts effective, LMaxArtifacts);
     (max_total_artifact_bytes descriptor_limits <? max_total_artifact_bytes effective, LMaxTotalArtifactBytes)];
  let actual := compact_size (input_value i) in
  let maximum := max_input_bytes effective in
  if maximum <? actual then Err (InputLimitExceeded maximum actual) else Ok tt.

(** * States and transitions *)

Inductive ToolInvocationStatus := Prepared_ | Executing_ | Committed_ | Failed_ | Unknown_.
#[global] Instance ToolInvocationStatus_eq_dec : EqDecision ToolInvocationStatus.
Proof. solve_decision. Defined.

Inductive ToolInvocationTransitionKind := KStartAttempt | KRecordResult | KRecordError | KReconcileResult | KReconcileError.

Section States.
Context {Details : Type}.

Inductive ToolInvocationState :=
| Prepared
| Executing (attempt_id : Z)
| Committed (result : ToolResult)
| Failed (error : ToolError Details)
| UnknownOutcome (error : ToolError Details).

Definition state_status (self : ToolInvocationState) : ToolInvocationStatus :=
  match self with
  | Prepared => Prepared_ | Executing _ => Executing_ | Committed _ => Committed_ | Failed _ => Failed_ | UnknownOutcome _ => Unknown_
  end.

Definition state_attempt_id (self : ToolInvocationState) : option Z :=
  match self with
  | Prepared => None
  | Executing attempt => Some attempt
  | Committed result => Some (prov_attempt_id (result_provenance result))
  | Failed error | UnknownOutcome error => Some (prov_attempt_id (error_provenance error))
  end.

Inductive ToolInvocationTransition :=
| StartAttempt (attempt_id : Z)
| RecordResult (result : ToolResult)
| RecordError (error : ToolError Details)
| ReconcileResult (result : ToolResult)
| ReconcileError (error : ToolError Details).

Definition transition_kind (self : ToolInvocationTransition) : ToolInvocationTransitionKind :=
  match self with
  | StartAttempt _ => KStartAttempt | RecordResult _ => KRecordResult | RecordError _ => KRecordError
  | ReconcileResult _ => KReconcileResult | ReconcileError _ => KReconcileError
  end.
End States.
Arguments ToolInvocationState : clear implicits.
Arguments ToolInvocationTransition : clear implicits.

(** * Errors *)

Inductive ToolArtifactBinding := BindTenant | BindRun | BindPrincipal | BindCapability.

Inductive InvocationScopeError := ScopeTenant | ScopeRun.

Inductive ToolInvocationHeadError :=
| HeadJournalTenantMismatch
| HeadJournalRunMismatch
| PreparedHasAttempt
| AttemptMissing
| InitialStatusMismatch
| PreparedRevisionMismatch.

Inductive ToolInvocationError :=
| Integrity (source : ToolInvocationIntegrityError)
| JournalTenantMismatch
| JournalRunMismatch
| JournalDidNotAdvance (previous actual : Z)
| ClockRegression (previous actual : Timestamp)
| RevisionOverflow
| InvalidInitialShape
| InvalidSuccessorShape
| PreviousTenantMismatch
| PreviousRunMismatch
| PreviousInvocationMismatch
| PreviousRevisionMismatch (previous actual : Revision.t)
| TransitionDigestMismatch
| InvalidTransition (status : ToolInvocationStatus) (transition : ToolInvocationTransitionKind)
| TransitionStateMismatch
| ReusedAttemptId
| RetryNotAuthorized
| RetryDelayOutOfRange
| RetryDelayNotElapsed (not_before actual : Timestamp)
| RetryUnsafe
| ResultInvocationMismatch
| ResultAttemptMismatch
| ResultToolMismatch
| ResultSchemaMismatch
| ResultInlineLimitExceeded (maximum actual : Count.Count)
| ResultArtifactCountExceeded (maximum actual : Count.Count)
| ResultArtifactBytesExceeded (maximum actual : Count.Count)
| ResultArtifactBinding (index : nat) (binding : ToolArtifactBinding)
| ErrorInvocationMismatch
| ErrorAttemptMismatch
| ErrorToolMismatch
| ErrorEffectRiskMismatch (risk : ToolRisk) (effect : ToolExternalEffect)
| UnsafeRetryAfterAppliedNonIdempotentWrite
| FailedStateHasUnknownEffect
| UnknownStateRequiresUnknownEffect
| DigestMismatch.

(** * Validation helpers *)

Definition validate_journal_scope (tenant : TenantId) (run : RunId) (head : JournalHead) : result InvocationScopeError unit :=
  if negb (bool_decide (jh_tenant_id head = tenant)) then Err ScopeTenant else
  if negb (bool_decide (jh_run_id head = run)) then Err ScopeRun else Ok tt.

Definition head_from_scope (error : InvocationScopeError) : ToolInvocationHeadError :=
  match error with ScopeTenant => HeadJournalTenantMismatch | ScopeRun => HeadJournalRunMismatch end.

Definition map_scope_error (error : InvocationScopeError) : ToolInvocationError :=
  match error with ScopeTenant => JournalTenantMismatch | ScopeRun => JournalRunMismatch end.

Definition validate_status_attempt (status : ToolInvocationStatus) (attempt : option Z) : result ToolInvocationHeadError unit :=
  match status, attempt with
  | Prepared_, None => Ok tt
  | Prepared_, Some _ => Err PreparedHasAttempt
  | _, Some _ => Ok tt
  | _, None => Err AttemptMissing
  end.

Definition validate_revision_status (revision : Revision.t) (status : ToolInvocationStatus) : result ToolInvocationHeadError unit :=
  match revision =? Revision.INITIAL, status with
  | true, Prepared_ => Ok tt
  | true, _ => Err InitialStatusMismatch
  | false, Prepared_ => Err PreparedRevisionMismatch
  | false, _ => Ok tt
  end.

Definition validate_journal_advances (previous actual : JournalHead) : result ToolInvocationError unit :=
  if jh_sequence actual <=? jh_sequence previous then Err (JournalDidNotAdvance (jh_sequence previous) (jh_sequence actual)) else
  if jh_recorded_at actual <? jh_recorded_at previous then Err (ClockRegression (jh_recorded_at previous) (jh_recorded_at actual)) else
  Ok tt.

Definition validate_preparation_journal (intent : ToolInvocationIntent) (journal : JournalHead) : result ToolInvocationError unit :=
  _ ← map_err map_scope_error (validate_journal_scope (intent_tenant_id intent) (intent_run_id intent) journal);
  validate_journal_advances (head_journal_head (base_checkpoint (activation intent))) journal.

Definition artifact_binding (intent : ToolInvocationIntent) (artifact : Artifact.ArtifactRef) : option ToolArtifactBinding :=
  if negb (bool_decide (Artifact.tenant_id (Artifact.identity artifact) = intent_tenant_id intent)) then Some BindTenant else
  if negb (bool_decide (Artifact.run_id (Artifact.provenance artifact) = intent_run_id intent)) then Some BindRun else
  if negb (bool_decide (Artifact.principal (Artifact.provenance artifact) = owner (tool_identity (descriptor intent))))
  then Some BindPrincipal else
  if negb (bool_decide (Artifact.producer (Artifact.provenance artifact) = Some (capability (tool_identity (descriptor intent)))))
  then Some BindCapability else None.

Fixpoint check_artifacts (intent : ToolInvocationIntent) (index : nat) (l : list Artifact.ArtifactRef) : result ToolInvocationError unit :=
  match l with
  | [] => Ok tt
  | artifact :: l' =>
      match artifact_binding intent artifact with
      | Some binding => Err (ResultArtifactBinding index binding)
      | None => check_artifacts intent (S index) l'
      end
  end.

Definition validate_result_binding (intent : ToolInvocationIntent) (expected_attempt : Z) (result : ToolResult)
  : Prelude.result ToolInvocationError unit :=
  let provenance := result_provenance result in
  if negb (bool_decide (prov_invocation_id provenance = invocation_id intent)) then Err ResultInvocationMismatch else
  if negb (bool_decide (prov_attempt_id provenance = expected_attempt)) then Err ResultAttemptMismatch else
  if negb (bool_decide (prov_tool provenance = tool_identity (descriptor intent))) then Err ResultToolMismatch else
  if negb (bool_decide (result_schema result = output_schema (descriptor intent))) then Err ResultSchemaMismatch else
  let actual := compact_size (result_output result) in
  let maximum := max_inline_result_bytes (effective_limits intent) in
  if maximum <? actual then Err (ResultInlineLimitExceeded maximum actual) else
  let actual := count_from_usize (Z.of_nat (length (artifact_values (result_artifacts result)))) in
  let maximum := max_artifacts (effective_limits intent) in
  if maximum <? actual then Err (ResultArtifactCountExceeded maximum actual) else
  let actual := total_bytes (result_artifacts result) in
  let maximum := max_total_artifact_bytes (effective_limits intent) in
  if maximum <? actual then Err (ResultArtifactBytesExceeded maximum actual) else
  check_artifacts intent 0 (artifact_values (result_artifacts result)).

Definition validate_error_binding {Details} (intent : ToolInvocationIntent) (expected_attempt : Z) (error : ToolError Details)
  : result ToolInvocationError unit :=
  let provenance := error_provenance error in
  if negb (bool_decide (prov_invocation_id provenance = invocation_id intent)) then Err ErrorInvocationMismatch else
  if negb (bool_decide (prov_attempt_id provenance = expected_attempt)) then Err ErrorAttemptMismatch else
  if negb (bool_decide (prov_tool provenance = tool_identity (descriptor intent))) then Err ErrorToolMismatch else
  let r := risk (semantics (descriptor intent)) in
  let effect := external_effect error in
  if negb (effect_matches_risk r effect) then Err (ErrorEffectRiskMismatch r effect) else
  if bool_decide (r = NonIdempotentWrite) && bool_decide (effect = Applied) && is_safe_after (retry_advice (failure error))
  then Err UnsafeRetryAfterAppliedNonIdempotentWrite else Ok tt.

Definition validate_state_binding {Details} (intent : ToolInvocationIntent) (state : ToolInvocationState Details)
  : result ToolInvocationError unit :=
  match state with
  | Prepared | Executing _ => Ok tt
  | Committed result => validate_result_binding intent (prov_attempt_id (result_provenance result)) result
  | Failed error =>
      _ ← validate_error_binding intent (prov_attempt_id (error_provenance error)) error;
      if bool_decide (external_effect error = Unknown) then Err FailedStateHasUnknownEffect else Ok tt
  | UnknownOutcome error =>
      _ ← validate_error_binding intent (prov_attempt_id (error_provenance error)) error;
      if negb (bool_decide (external_effect error = Unknown)) then Err UnknownStateRequiresUnknownEffect else Ok tt
  end.

Definition state_from_error {Details} (error : ToolError Details) : ToolInvocationState Details :=
  if bool_decide (external_effect error = Unknown) then UnknownOutcome error else Failed error.

(** The risk and effect pairs after which a repeated call is safe. *)
Definition retry_safe (r : ToolRisk) (effect : ToolExternalEffect) : bool :=
  match r, effect with
  | ReadOnly, NotApplicable => true
  | IdempotentWrite, (NotStarted | NotApplied | Applied) => true
  | NonIdempotentWrite, (NotStarted | NotApplied) => true
  | _, _ => false
  end.

(** [recorded] is the journal time of the failed revision. *)
Definition validate_retry {Details} (intent : ToolInvocationIntent) (recorded : Timestamp) (error : ToolError Details)
    (recorded_at : Timestamp) : result ToolInvocationError unit :=
  match safe_after_delay (retry_advice (failure error)) with
  | None => Err RetryNotAuthorized
  | Some delay =>
      if negb (retry_safe (risk (semantics (descriptor intent))) (external_effect error)) then Err RetryUnsafe else
      let not_before_micros := recorded + delay * 1000 in
      if Timestamp.MAX <? not_before_micros then Err RetryDelayOutOfRange else
      if negb ((i64_min <=? not_before_micros) && (not_before_micros <=? i64_max)) then Err RetryDelayOutOfRange else
      not_before ← map_err (fun _ => RetryDelayOutOfRange) (Timestamp.from_unix_micros not_before_micros);
      if recorded_at <? not_before then Err (RetryDelayNotElapsed not_before recorded_at) else Ok tt
  end.

(** * Heads *)

Record ToolInvocationHead := mkHead {
  ih_tenant_id : TenantId;
  ih_run_id : RunId;
  ih_invocation_id : Z;
  ih_revision : Revision.t;
  ih_status : ToolInvocationStatus;
  ih_attempt_id : option Z;
  ih_journal_head : JournalHead;
  ih_digest : Digest
}.

#[global] Instance ToolInvocationHead_eq_dec : EqDecision ToolInvocationHead.
Proof. solve_decision. Defined.

Definition head_new (wire : ToolInvocationHead) : result ToolInvocationHeadError ToolInvocationHead :=
  _ ← map_err head_from_scope (validate_journal_scope (ih_tenant_id wire) (ih_run_id wire) (ih_journal_head wire));
  _ ← validate_status_attempt (ih_status wire) (ih_attempt_id wire);
  _ ← validate_revision_status (ih_revision wire) (ih_status wire);
  Ok wire.

(** * Records *)

Section Records.
Context {Details : Type}.
Abbreviation State := (ToolInvocationState Details).
Abbreviation Transition := (ToolInvocationTransition Details).

Record ToolInvocationRecordDigestWire := mkRecordWire {
  wire_intent_digest : Digest;
  wire_revision : Revision.t;
  wire_state : State;
  wire_previous : option ToolInvocationHead;
  wire_journal_head : JournalHead;
  wire_transition_digest : option Digest
}.

Record ToolInvocation := mkInvocation {
  intent : ToolInvocationIntent;
  revision : Revision.t;
  state : State;
  previous : option ToolInvocationHead;
  journal_head : JournalHead;
  transition : option Transition;
  transition_digest : option Digest;
  digest : Digest
}.

Definition status (self : ToolInvocation) : ToolInvocationStatus := state_status (state self).
Definition attempt_id (self : ToolInvocation) : option Z := state_attempt_id (state self).

Definition head (self : ToolInvocation) : ToolInvocationHead :=
  mkHead (intent_tenant_id (intent self)) (intent_run_id (intent self)) (invocation_id (intent self)) (revision self)
    (status self) (attempt_id self) (journal_head self) (digest self).

Definition validate_successor_journal (self : ToolInvocation) (journal : JournalHead) : result ToolInvocationError unit :=
  _ ← map_err map_scope_error (validate_journal_scope (intent_tenant_id (intent self)) (intent_run_id (intent self)) journal);
  validate_journal_advances (journal_head self) journal.

Definition apply_transition (self : ToolInvocation) (tr : Transition) (recorded_at : Timestamp) : result ToolInvocationError State :=
  match state self, tr with
  | Prepared, StartAttempt attempt => Ok (Executing attempt)
  | Failed error, StartAttempt attempt =>
      if prov_attempt_id (error_provenance error) =? attempt then Err ReusedAttemptId else
      _ ← validate_retry (intent self) (jh_recorded_at (journal_head self)) error recorded_at;
      Ok (Executing attempt)
  | Executing attempt, RecordResult result =>
      _ ← validate_result_binding (intent self) attempt result; Ok (Committed result)
  | Executing attempt, RecordError error =>
      _ ← validate_error_binding (intent self) attempt error; Ok (state_from_error error)
  | UnknownOutcome prev, ReconcileResult result =>
      _ ← validate_result_binding (intent self) (prov_attempt_id (error_provenance prev)) result; Ok (Committed result)
  | UnknownOutcome prev, ReconcileError error =>
      _ ← validate_error_binding (intent self) (prov_attempt_id (error_provenance prev)) error; Ok (state_from_error error)
  | _, _ => Err (InvalidTransition (status self) (transition_kind tr))
  end.

(** Checks made before a reconciliation transaction. *)
Definition validate_reconciliation_result (self : ToolInvocation) (result : ToolResult) : Prelude.result ToolInvocationError unit :=
  match state self with
  | UnknownOutcome error => validate_result_binding (intent self) (prov_attempt_id (error_provenance error)) result
  | _ => Err (InvalidTransition (status self) KReconcileResult)
  end.

Definition validate_reconciliation_error (self : ToolInvocation) (error : ToolError Details) : result ToolInvocationError unit :=
  match state self with
  | UnknownOutcome prev => validate_error_binding (intent self) (prov_attempt_id (error_provenance prev)) error
  | _ => Err (InvalidTransition (status self) KReconcileError)
  end.

Context `{Canonical ToolInvocationIntentDigestWire, Canonical Transition, Canonical ToolInvocationRecordDigestWire,
          Canonical (ToolError Details), Canonical ToolInvocation}.
Variable sha256 : bytes -> bytes.

Definition domain_separated_digest {T} `{Canonical T} (domain : bytes) (value : T) : result ToolInvocationIntegrityError Digest :=
  canonical ← ok_or (to_vec value) CanonicalSerialization;
  Ok (sha256 (domain ++ canonical)).

Definition compute_intent_digest (wire : ToolInvocationIntentDigestWire) := domain_separated_digest INTENT_DIGEST_DOMAIN wire.
Definition compute_transition_digest (tr : Transition) : result ToolInvocationError Digest :=
  map_err Integrity (domain_separated_digest TRANSITION_DIGEST_DOMAIN tr).
Definition compute_record_digest (wire : ToolInvocationRecordDigestWire) : result ToolInvocationError Digest :=
  map_err Integrity (domain_separated_digest RECORD_DIGEST_DOMAIN wire).

Definition canonical_equal {T} `{Canonical T} (left right : T) : result ToolInvocationIntegrityError bool :=
  l ← ok_or (to_vec left) CanonicalSerialization;
  r ← ok_or (to_vec right) CanonicalSerialization;
  Ok (bool_decide (l = r)).

Definition intent_new (act : Activation) (id : Z) (d : ToolDescriptor) (i : ToolInput) (effective : ToolExecutionLimits)
  : result ToolInvocationIntentError ToolInvocationIntent :=
  _ ← validate_intent_shape d i effective;
  dig ← map_err IntentIntegrity (compute_intent_digest (mkIntentWire act id d i effective));
  Ok (mkIntent act id d i effective dig).

Definition intent_restore (wire : ToolInvocationIntent) : result ToolInvocationIntentError ToolInvocationIntent :=
  restored ← intent_new (activation wire) (invocation_id wire) (descriptor wire) (input wire) (effective_limits wire);
  if negb (bool_decide (intent_digest restored = intent_digest wire)) then Err IntentDigestMismatch else Ok restored.

Definition prepare (int : ToolInvocationIntent) (journal : JournalHead) : result ToolInvocationError ToolInvocation :=
  _ ← validate_preparation_journal int journal;
  dig ← compute_record_digest (mkRecordWire (intent_digest int) Revision.INITIAL Prepared None journal None);
  Ok (mkInvocation int Revision.INITIAL Prepared None journal None None dig).

Definition advance (self : ToolInvocation) (tr : Transition) (journal : JournalHead) : result ToolInvocationError ToolInvocation :=
  _ ← validate_successor_journal self journal;
  rev ← ok_or (Revision.checked_next (revision self)) RevisionOverflow;
  st ← apply_transition self tr (jh_recorded_at journal);
  tdig ← compute_transition_digest tr;
  let prev := head self in
  dig ← compute_record_digest (mkRecordWire (intent_digest (intent self)) rev st (Some prev) journal (Some tdig));
  Ok (mkInvocation (intent self) rev st (Some prev) journal (Some tr) (Some tdig) dig).

(** The [match] of [validate_transition_shape] on previous status, transition
    and state; [Ok valid] is the value bound to [valid]. *)
Definition transition_shape (prev : ToolInvocationHead) (tr : Transition) (st : State) : result ToolInvocationError bool :=
  let invalid := Err (InvalidTransition (ih_status prev) (transition_kind tr)) in
  let unknown := fun error : ToolError Details => bool_decide (external_effect error = Unknown) in
  let same := fun error state_error : ToolError Details => map_err Integrity (canonical_equal error state_error) in
  match ih_status prev, tr, st with
  | (Prepared_ | Failed_), StartAttempt attempt, Executing state_attempt =>
      if bool_decide (ih_attempt_id prev = Some attempt) then Err ReusedAttemptId else Ok (attempt =? state_attempt)
  | Executing_, RecordResult result, Committed state_result => Ok (bool_decide (result = state_result))
  | Unknown_, ReconcileResult result, Committed state_result => Ok (bool_decide (result = state_result))
  | Executing_, RecordError error, Failed state_error => if negb (unknown error) then same error state_error else invalid
  | Executing_, RecordError error, UnknownOutcome state_error => if unknown error then same error state_error else invalid
  | Unknown_, ReconcileError error, UnknownOutcome state_error => if unknown error then same error state_error else invalid
  | Unknown_, ReconcileError error, Failed state_error => if negb (unknown error) then same error state_error else invalid
  | _, _, _ => invalid
  end.

Definition validate_transition_shape (int : ToolInvocationIntent) (prev : ToolInvocationHead) (tr : Transition) (st : State)
  : result ToolInvocationError unit :=
  valid ← transition_shape prev tr st;
  if negb valid then Err TransitionStateMismatch else
  match tr with
  | StartAttempt _ => Ok tt
  | RecordResult result | ReconcileResult result =>
      expected ← ok_or (ih_attempt_id prev) TransitionStateMismatch; validate_result_binding int expected result
  | RecordError error | ReconcileError error =>
      expected ← ok_or (ih_attempt_id prev) TransitionStateMismatch; validate_error_binding int expected error
  end.

Definition validate_record_shape (int : ToolInvocationIntent) (rev : Revision.t) (st : State) (prev : option ToolInvocationHead)
    (journal : JournalHead) (tr : option Transition) (tdig : option Digest) : result ToolInvocationError unit :=
  _ ← map_err map_scope_error (validate_journal_scope (intent_tenant_id int) (intent_run_id int) journal);
  _ ← validate_state_binding int st;
  if rev =? Revision.INITIAL then
    if negb (match st with Prepared => true | _ => false end) || negb (is_none prev) || negb (is_none tr) || negb (is_none tdig)
    then Err InvalidInitialShape else validate_preparation_journal int journal
  else
    match prev, tr, tdig with
    | Some prev, Some tr, Some tdig =>
        if negb (bool_decide (ih_tenant_id prev = intent_tenant_id int)) then Err PreviousTenantMismatch else
        if negb (bool_decide (ih_run_id prev = intent_run_id int)) then Err PreviousRunMismatch else
        if negb (bool_decide (ih_invocation_id prev = invocation_id int)) then Err PreviousInvocationMismatch else
        if negb (bool_decide (Revision.checked_next (ih_revision prev) = Some rev))
        then Err (PreviousRevisionMismatch (ih_revision prev) rev) else
        _ ← validate_journal_advances (ih_journal_head prev) journal;
        expected ← compute_transition_digest tr;
        if negb (bool_decide (expected = tdig)) then Err TransitionDigestMismatch else
        validate_transition_shape int prev tr st
    | _, _, _ => Err InvalidSuccessorShape
    end.

Definition restore (wire : ToolInvocation) : result ToolInvocationError ToolInvocation :=
  _ ← validate_record_shape (intent wire) (revision wire) (state wire) (previous wire) (journal_head wire) (transition wire)
        (transition_digest wire);
  expected ← compute_record_digest
    (mkRecordWire (intent_digest (intent wire)) (revision wire) (state wire) (previous wire) (journal_head wire) (transition_digest wire));
  if negb (bool_decide (digest wire = expected)) then Err DigestMismatch else Ok wire.

(** * The history verifier *)

Inductive ToolInvocationHistoryError :=
| FirstRecordNotInitial (actual : Revision.t)
| IntentMismatch
| PreviousHeadMismatch
| TransitionMissing
| TransitionFault (source : ToolInvocationError)
| RecordMismatch
| HistoryIntegrity (source : ToolInvocationIntegrityError).

Definition Verifier := option ToolInvocation.
Definition verifier_new : Verifier := None.
Definition verifier_after (record : ToolInvocation) : Verifier := Some record.
Definition verifier_head (self : Verifier) : option ToolInvocationHead := head <$> self.

(** The verifier after an accepted record; a rejection leaves it unchanged. *)
Definition verify_next (self : Verifier) (record : ToolInvocation) : result ToolInvocationHistoryError Verifier :=
  match self with
  | None =>
      if negb (revision record =? Revision.INITIAL) then Err (FirstRecordNotInitial (revision record)) else Ok (Some record)
  | Some prev =>
      if negb (bool_decide (intent record = intent prev)) then Err IntentMismatch else
      if negb (bool_decide (previous record = Some (head prev))) then Err PreviousHeadMismatch else
      tr ← ok_or (transition record) TransitionMissing;
      expected ← map_err TransitionFault (advance prev tr (journal_head record));
      same ← map_err HistoryIntegrity (canonical_equal expected record);
      if negb same then Err RecordMismatch else Ok (Some record)
  end.

Definition verify_all (records : list ToolInvocation) : result ToolInvocationHistoryError Verifier :=
  try_fold verify_next verifier_new records.

End Records.
Arguments ToolInvocation : clear implicits.
Arguments ToolInvocationRecordDigestWire : clear implicits.
End ToolInvocations.
