(* ===== verification/ToolInvocationLaws.v ===== *)
(** Laws of durable tool invocations ([ToolInvocation.v]): the records refine an
    abstract ledger of physical attempts, in which an attempt is repeated only
    when its evidence makes that safe; every record restores to itself; and the
    streaming verifier accepts exactly the histories the state machine makes. *)

From Stdlib Require Import ZArith Lia List.
From stdpp Require Import prelude.
From S2P Require Import Prelude Ordered Json Decimal Content BoundedJson Accounting Time Checkpoint Capability Run Journal Barrier Tool ToolInvocation.

Open Scope Z_scope.
Import Timestamp(Timestamp).

Module ToolCalls.
Import Tools ToolInvocations.

(** * The abstract ledger *)

(** Where the current physical attempt stands; a known failure carries its
    evidence and the earliest time a retry is authorised, if any. *)
Inductive Phase :=
| PIdle
| PRunning (attempt : Z)
| PCommitted (attempt : Z)
| PFailed (attempt : Z) (effect : ToolExternalEffect) (retry_at : option Timestamp)
| PAmbiguous (attempt : Z).

(** [settled]: the earlier attempts with the evidence each ended on. *)
Record Ledger := mkLedger { settled : list (Z * ToolExternalEffect); phase : Phase }.

Inductive outcome_step (r : ToolRisk) (attempt : Z) : Phase -> Prop :=
| outcome_success : outcome_step r attempt (PCommitted attempt)
| outcome_failure effect retry_at :
    effect <> Unknown -> effect_matches_risk r effect = true ->
    (r = NonIdempotentWrite -> effect = Applied -> retry_at = None) ->
    outcome_step r attempt (PFailed attempt effect retry_at)
| outcome_ambiguous : r <> ReadOnly -> outcome_step r attempt (PAmbiguous attempt).

(** One step of the contract at time [t]. *)
Inductive ledger_step (r : ToolRisk) (t : Timestamp) : Ledger -> Ledger -> Prop :=
| step_start done attempt : ledger_step r t (mkLedger done PIdle) (mkLedger done (PRunning attempt))
| step_outcome done attempt next :
    outcome_step r attempt next -> ledger_step r t (mkLedger done (PRunning attempt)) (mkLedger done next)
| step_reconcile done attempt next :
    outcome_step r attempt next -> ledger_step r t (mkLedger done (PAmbiguous attempt)) (mkLedger done next)
| step_retry done attempt effect not_before attempt' :
    retry_safe r effect = true -> not_before <= t -> attempt' <> attempt ->
    ledger_step r t (mkLedger done (PFailed attempt effect (Some not_before))) (mkLedger (done ++ [(attempt, effect)]) (PRunning attempt')).

Lemma committed_final r t done attempt l : ~ ledger_step r t (mkLedger done (PCommitted attempt)) l.
Proof. intros H. inversion H. Qed.

(** The settled attempts of a contract run are those a repetition is safe after. *)
Lemma ledger_step_settled r t l l' :
  ledger_step r t l l' -> Forall (fun a => retry_safe r a.2 = true) (settled l) -> Forall (fun a => retry_safe r a.2 = true) (settled l').
Proof. destruct 1; simpl; try done. intros HF. apply Forall_app. by repeat constructor. Qed.

Lemma scope_Ok tenant run j u :
  validate_journal_scope tenant run j = Ok u <-> jh_tenant_id j = tenant /\ jh_run_id j = run.
Proof.
  unfold validate_journal_scope. destruct u. case_bool_decide; simpl; [| split; [done | tauto]].
  case_bool_decide; simpl; split; tauto || done.
Qed.

Lemma advances_Ok p j u :
  validate_journal_advances p j = Ok u <-> jh_sequence p < jh_sequence j /\ jh_recorded_at p <= jh_recorded_at j.
Proof.
  unfold validate_journal_advances. destruct u. destruct (Z.leb_spec (jh_sequence j) (jh_sequence p)); [split; [done | lia] |].
  destruct (Z.ltb_spec (jh_recorded_at j) (jh_recorded_at p)); [split; [done | lia] |]. split; [lia | done].
Qed.

Section Records.
Context {Details : Type}.
Abbreviation Invocation := (ToolInvocation Details).
Abbreviation Transition := (ToolInvocationTransition Details).
Context `{!Canonical ToolInvocationIntentDigestWire, !Canonical Transition, !Canonical (ToolInvocationRecordDigestWire Details),
          !Canonical (ToolError Details), !Canonical Invocation}.
Variable sha256 : bytes -> bytes.

(** * Histories, newest record first *)

Inductive history : list Invocation -> Prop :=
| history_prepared int j x : prepare sha256 int j = Ok x -> history [x]
| history_advanced x l tr j x' : history (x :: l) -> advance sha256 x tr j = Ok x' -> history (x' :: x :: l).

Definition retry_time (at_ : Timestamp) (e : ToolError Details) : option Timestamp :=
  (fun delay => at_ + delay * 1000) <$> safe_after_delay (retry_advice (failure e)).

Definition record_ledger (before : Ledger) (x : Invocation) : Ledger :=
  match state x with
  | Prepared => mkLedger [] PIdle
  | Executing a =>
      mkLedger (match phase before with PFailed b effect _ => settled before ++ [(b, effect)] | _ => settled before end) (PRunning a)
  | Committed result => mkLedger (settled before) (PCommitted (prov_attempt_id (Tools.result_provenance result)))
  | Failed e =>
      mkLedger (settled before)
        (PFailed (prov_attempt_id (error_provenance e)) (external_effect e) (retry_time (jh_recorded_at (journal_head x)) e))
  | UnknownOutcome e => mkLedger (settled before) (PAmbiguous (prov_attempt_id (error_provenance e)))
  end.

Fixpoint ledger_of (l : list Invocation) : Ledger :=
  match l with [] => mkLedger [] PIdle | x :: l' => record_ledger (ledger_of l') x end.

(** ** What validated evidence says *)

Lemma error_binding_Ok int attempt (e : ToolError Details) u :
  validate_error_binding int attempt e = Ok u <->
  error_provenance e = mkToolProvenance (invocation_id int) attempt (tool_identity (descriptor int)) /\
  effect_matches_risk (risk (semantics (descriptor int))) (external_effect e) = true /\
  ~ (risk (semantics (descriptor int)) = NonIdempotentWrite /\ external_effect e = Applied /\
     is_safe_after (retry_advice (Tools.failure e)) = true).
Proof.
  unfold validate_error_binding. destruct u. destruct (error_provenance e) as [i a c]. simpl.
  repeat (case_bool_decide; simpl; [| split; [done |]; intros [[= ? ? ?] _]; congruence]). subst.
  destruct (effect_matches_risk _ _); simpl; [| split; [done | naive_solver]].
  repeat case_bool_decide; simpl; destruct (is_safe_after _); simpl; split; try done; try (intros _; split_and!; naive_solver);
    intros (_ & _ & Hn); exfalso; apply Hn; done.
Qed.

Lemma result_binding_provenance int attempt result u :
  validate_result_binding int attempt result = Ok u ->
  Tools.result_provenance result = mkToolProvenance (invocation_id int) attempt (tool_identity (descriptor int)).
Proof.
  unfold validate_result_binding. destruct (Tools.result_provenance result) as [i a c]. simpl.
  repeat (case_bool_decide; simpl; [| done]). subst. done.
Qed.

Lemma state_from_error_phase int attempt (e : ToolError Details) at_ :
  validate_error_binding int attempt e = Ok tt ->
  outcome_step (risk (semantics (descriptor int))) attempt
    (if bool_decide (external_effect e = Unknown) then PAmbiguous attempt else PFailed attempt (external_effect e) (retry_time at_ e)).
Proof.
  intros (Hp & He & Hn)%error_binding_Ok. case_bool_decide as Hu.
  - constructor. intros Hr. by rewrite Hr, Hu in He.
  - constructor; [done | done |]. intros Hr Ha. unfold retry_time.
    destruct (retry_advice (Tools.failure e)) eqn:Ea; try done. exfalso. by apply Hn.
Qed.

Lemma retry_Ok int at_ (e : ToolError Details) t u :
  validate_retry int at_ e t = Ok u ->
  exists not_before, retry_time at_ e = Some not_before /\ not_before <= t /\
    retry_safe (risk (semantics (descriptor int))) (external_effect e) = true.
Proof.
  unfold validate_retry, retry_time. destruct (safe_after_delay _) as [delay|]; [| done]. destruct (retry_safe _ _); simpl; [| done].
  destruct (Timestamp.MAX <? _); [done |]. destruct (_ && _); simpl; [| done]. unfold Timestamp.from_unix_micros.
  destruct (_ || _); simpl; [done |]. destruct (Z.ltb_spec t (at_ + delay * 1000)); [done |]. intros _. exists (at_ + delay * 1000). split_and!; done.
Qed.

(** ** Operations *)

Lemma advance_Ok x tr j x' :
  advance sha256 x tr j = Ok x' <->
  exists st tdig dig,
    (jh_tenant_id j = intent_tenant_id (intent x) /\ jh_run_id j = intent_run_id (intent x)) /\
    (jh_sequence (journal_head x) < jh_sequence j /\ jh_recorded_at (journal_head x) <= jh_recorded_at j) /\
    revision x <> Revision.MAX /\ apply_transition x tr (jh_recorded_at j) = Ok st /\
    compute_transition_digest sha256 tr = Ok tdig /\
    compute_record_digest sha256 (mkRecordWire (intent_digest (intent x)) (revision x + 1) st (Some (head x)) j (Some tdig)) = Ok dig /\
    x' = mkInvocation (intent x) (revision x + 1) st (Some (head x)) j (Some tr) (Some tdig) dig.
Proof.
  unfold advance, validate_successor_journal. split.
  - intros Ha. open_guards Ha. open_guards Hx. injection Ha as <-. apply map_err_Ok, scope_Ok in Hx4. apply advances_Ok in Hx.
    unfold Revision.checked_next in Hx0. destruct (Z.eqb_spec (revision x) Revision.MAX); [done |]. injection Hx0 as <-. eauto 12.
  - intros (st & tdig & dig & Hs & Hj & Hr & -> & Ht & Hd & ->).
    rewrite (proj2 (map_err_Ok _ _ tt) (proj2 (scope_Ok _ _ _ tt) Hs)). simpl. rewrite (proj2 (advances_Ok _ _ tt) Hj). simpl.
    unfold Revision.checked_next. destruct (Z.eqb_spec (revision x) Revision.MAX); [done |]. simpl. rewrite Ht. simpl. by rewrite Hd.
Qed.

Lemma prepare_Ok int j x :
  prepare sha256 int j = Ok x <->
  exists dig,
    (jh_tenant_id j = intent_tenant_id int /\ jh_run_id j = intent_run_id int) /\
    (let base := head_journal_head (base_checkpoint (activation int)) in
     jh_sequence base < jh_sequence j /\ jh_recorded_at base <= jh_recorded_at j) /\
    compute_record_digest sha256 (mkRecordWire (intent_digest int) 0 Prepared None j None) = Ok dig /\
    x = mkInvocation int 0 Prepared None j None None dig.
Proof.
  unfold prepare, validate_preparation_journal. split.
  - intros Hp. open_guards Hp. open_guards Hx. injection Hp as <-. apply map_err_Ok, scope_Ok in Hx1. apply advances_Ok in Hx. eauto 10.
  - intros (dig & Hs & Hj & Hd & ->). rewrite (proj2 (map_err_Ok _ _ tt) (proj2 (scope_Ok _ _ _ tt) Hs)). simpl.
    rewrite (proj2 (advances_Ok _ _ tt) Hj). simpl. unfold Revision.INITIAL. by rewrite Hd.
Qed.

Lemma advance_intent x tr j x' : advance sha256 x tr j = Ok x' -> intent x' = intent x.
Proof. by intros (st & tdig & dig & _ & _ & _ & _ & _ & _ & ->)%advance_Ok. Qed.

(** A transition of the record is a step of the contract on the ledger. *)
Lemma apply_step x l tr j x' :
  advance sha256 x tr j = Ok x' ->
  ledger_step (risk (semantics (descriptor (intent x)))) (jh_recorded_at j) (ledger_of (x :: l)) (ledger_of (x' :: x :: l)).
Proof.
  intros (st & tdig & dig & _ & _ & _ & Hst & _ & _ & ->)%advance_Ok.
  change (ledger_of (?y :: x :: l)) with (record_ledger (ledger_of (x :: l)) y).
  change (ledger_of (x :: l)) with (record_ledger (ledger_of l) x). generalize (ledger_of l). intros before.
  unfold apply_transition in Hst. unfold record_ledger. destruct (state x) as [|a|res|e|e] eqn:Es, tr as [b|res'|e'|res'|e']; try done; simpl.
  - injection Hst as <-. simpl. constructor.
  - open_guards Hst. injection Hst as <-. simpl. destruct x0. pose proof (result_binding_provenance _ _ _ _ Hx) as ->. simpl. repeat constructor.
  - open_guards Hst. injection Hst as <-. destruct x0. pose proof (state_from_error_phase _ _ _ (jh_recorded_at j) Hx) as Ho.
    apply error_binding_Ok in Hx as (Hp & _). unfold state_from_error. case_bool_decide; simpl; rewrite Hp; simpl; by constructor.
  - destruct (Z.eqb_spec (prov_attempt_id (error_provenance e)) b); [done |]. open_guards Hst. injection Hst as <-. simpl.
    apply retry_Ok in Hx as (nb & -> & Hle & Hsafe). by constructor.
  - open_guards Hst. injection Hst as <-. simpl. destruct x0. pose proof (result_binding_provenance _ _ _ _ Hx) as ->. simpl. repeat constructor.
  - open_guards Hst. injection Hst as <-. destruct x0. pose proof (state_from_error_phase _ _ _ (jh_recorded_at j) Hx) as Ho.
    apply error_binding_Ok in Hx as (Hp & _). unfold state_from_error. case_bool_decide; simpl; rewrite Hp; simpl; by constructor.
Qed.

Lemma history_intent x l : history (x :: l) -> Forall (fun y => intent y = intent x) l.
Proof.
  intros Hh. remember (x :: l) as k eqn:Ek. revert x l Ek. induction Hh as [int j y Hp|y l' tr j y' Hh IH Ha]; intros x l [= <- <-].
  - constructor.
  - rewrite (advance_intent _ _ _ _ Ha). constructor; [done | by apply IH].
Qed.

Lemma history_settled x l :
  history (x :: l) -> Forall (fun a => retry_safe (risk (semantics (descriptor (intent x)))) a.2 = true) (settled (ledger_of (x :: l))).
Proof.
  intros Hh. remember (x :: l) as k eqn:Ek. revert x l Ek. induction Hh as [int j y Hp|y l' tr j y' Hh IH Ha]; intros x l [= <- <-].
  - apply prepare_Ok in Hp as (dig & _ & _ & _ & ->). constructor.
  - rewrite (advance_intent _ _ _ _ Ha). eapply ledger_step_settled; [by eapply apply_step | by eapply IH].
Qed.

End Records.

(** * Restoration *)

Section Restore.
Context {Details : Type}.
Abbreviation Invocation := (ToolInvocation Details).
Abbreviation Transition := (ToolInvocationTransition Details).
Context `{!Canonical Transition, !Canonical (ToolInvocationRecordDigestWire Details), !Canonical (ToolError Details), !Canonical Invocation}.
Variable sha256 : bytes -> bytes.
Hypothesis errors_encode : forall e : ToolError Details, is_Some (to_vec e).

Lemma canonical_equal_refl (e : ToolError Details) : canonical_equal e e = Ok true.
Proof. unfold canonical_equal. destruct (errors_encode e) as [b ->]. simpl. by rewrite bool_decide_true. Qed.

Lemma error_state_bound int attempt (e : ToolError Details) :
  validate_error_binding int attempt e = Ok tt -> validate_state_binding int (state_from_error e) = Ok tt.
Proof.
  intros Hb. assert (Ha : prov_attempt_id (error_provenance e) = attempt) by (by apply error_binding_Ok in Hb as (-> & _)).
  unfold state_from_error. case_bool_decide as Hu; simpl; rewrite Ha, Hb; simpl.
  - by rewrite bool_decide_true.
  - by rewrite bool_decide_false.
Qed.

Lemma result_state_bound int attempt result :
  validate_result_binding int attempt result = Ok tt -> validate_state_binding (Details := Details) int (Committed result) = Ok tt.
Proof. intros Hb. simpl. by rewrite (result_binding_provenance _ _ _ _ Hb). Qed.

Lemma apply_shape (x : Invocation) tr t st :
  apply_transition x tr t = Ok st ->
  validate_state_binding (intent x) st = Ok tt /\ validate_transition_shape (intent x) (head x) tr st = Ok tt.
Proof.
  unfold apply_transition, validate_transition_shape, transition_shape, head, status, attempt_id. simpl.
  destruct (state x) as [|a|res|e|e], tr as [b|res'|e'|res'|e']; try done; simpl.
  - intros [= <-]. simpl. by rewrite Z.eqb_refl.
  - intros ([] & Hb & [= <-])%bind_Ok. split; [by eapply result_state_bound |]. rewrite bool_decide_true by done. simpl. by rewrite Hb.
  - intros ([] & Hb & [= <-])%bind_Ok. split; [by eapply error_state_bound |]. unfold state_from_error.
    case_bool_decide; simpl; rewrite canonical_equal_refl; simpl; by rewrite Hb.
  - destruct (Z.eqb_spec (prov_attempt_id (error_provenance e)) b) as [|Hn]; [done |]. intros (? & _ & [= <-])%bind_Ok. split; [done |].
    rewrite bool_decide_false by (by intros [=]). simpl. by rewrite Z.eqb_refl.
  - intros ([] & Hb & [= <-])%bind_Ok. split; [by eapply result_state_bound |]. rewrite bool_decide_true by done. simpl. by rewrite Hb.
  - intros ([] & Hb & [= <-])%bind_Ok. split; [by eapply error_state_bound |]. unfold state_from_error.
    case_bool_decide; simpl; rewrite canonical_equal_refl; simpl; by rewrite Hb.
Qed.

Lemma prepared_restores int j (x : Invocation) : prepare sha256 int j = Ok x -> restore sha256 x = Ok x.
Proof.
  intros (dig & Hs & Hj & Hd & ->)%prepare_Ok. unfold restore, validate_record_shape, validate_preparation_journal. simpl.
  rewrite (proj2 (map_err_Ok _ _ tt) (proj2 (scope_Ok _ _ _ tt) Hs)). simpl. rewrite (proj2 (advances_Ok _ _ tt) Hj). simpl.
  rewrite Hd. simpl. by rewrite bool_decide_true.
Qed.

Lemma advanced_restores (x : Invocation) tr j x' : 0 <= revision x -> advance sha256 x tr j = Ok x' -> restore sha256 x' = Ok x'.
Proof.
  intros Hrev (st & tdig & dig & Hs & Hj & Hr & Hst & Ht & Hd & ->)%advance_Ok. apply apply_shape in Hst as [Hb Hsh].
  unfold restore, validate_record_shape. cbn [intent revision state previous journal_head transition transition_digest digest].
  rewrite (proj2 (map_err_Ok _ _ tt) (proj2 (scope_Ok _ _ _ tt) Hs)). cbn [mbind result_bind]. rewrite Hb.
  destruct (Z.eqb_spec (revision x + 1) Revision.INITIAL) as [E|_]; [unfold Revision.INITIAL in E; lia |].
  cbn. rewrite !bool_decide_true by done. cbn. unfold Revision.checked_next. destruct (Z.eqb_spec (revision x) Revision.MAX); [done |].
  rewrite bool_decide_true by done. cbn. rewrite (proj2 (advances_Ok _ _ tt) Hj). cbn. rewrite Ht. cbn.
  rewrite bool_decide_true by done. cbn. rewrite Hsh. cbn. rewrite Hd. cbn. by rewrite bool_decide_true.
Qed.

Lemma apply_not_prepared (x : Invocation) tr t : apply_transition x tr t <> Ok Prepared.
Proof.
  unfold apply_transition. destruct (state x) as [|a|res|e|e], tr as [b|res'|e'|res'|e']; try done; try (destruct (_ =? _); [done |]);
    intros (? & _ & H)%bind_Ok; try done; unfold state_from_error in H; by case_bool_decide.
Qed.

Lemma history_revision (x : Invocation) l : history sha256 (x :: l) ->
  revision x = Z.of_nat (length l) /\ (revision x = 0 <-> state x = Prepared).
Proof.
  intros Hh. remember (x :: l) as k eqn:Ek. revert x l Ek. induction Hh as [int j y Hp|y l' tr j y' Hh IH Ha]; intros x l [= <- <-].
  - by apply prepare_Ok in Hp as (dig & _ & _ & _ & ->).
  - apply advance_Ok in Ha as (st & tdig & dig & _ & _ & _ & Hst & _ & _ & ->). destruct (IH _ _ eq_refl) as [E _]. simpl.
    split; [lia |]. split; [lia |]. intros ->. by apply apply_not_prepared in Hst.
Qed.

Lemma history_head (x : Invocation) l : history sha256 (x :: l) -> head_new (head x) = Ok (head x).
Proof.
  intros Hh. destruct (history_revision x l Hh) as [_ Hr].
  assert (Hs : jh_tenant_id (journal_head x) = intent_tenant_id (intent x) /\ jh_run_id (journal_head x) = intent_run_id (intent x)).
  { inversion Hh as [int j y Hp|y l' tr j y' _ Ha]; subst.
    - by apply prepare_Ok in Hp as (dig & Hs & _ & _ & ->).
    - by apply advance_Ok in Ha as (st & tdig & dig & Hs & _ & _ & _ & _ & _ & ->). }
  unfold head_new, head. simpl. rewrite (proj2 (map_err_Ok _ _ tt) (proj2 (scope_Ok _ _ _ tt) Hs)). simpl.
  unfold status, attempt_id, validate_revision_status, Revision.INITIAL.
  destruct (state x), (Z.eqb_spec (revision x) 0); simpl; try done; exfalso; naive_solver.
Qed.

(** ** The verifier *)

Hypothesis records_injective : encoder_injective (to_vec (T := Invocation)).

Lemma verify_next_Some (p x : Invocation) v :
  is_Some (to_vec x) ->
  verify_next sha256 (Some p) x = Ok v <-> exists tr, transition x = Some tr /\ advance sha256 p tr (journal_head x) = Ok x /\ v = Some x.
Proof.
  intros [b Hb]. unfold verify_next, canonical_equal. rewrite Hb. split.
  - intros Hv. destruct (bool_decide _) eqn:Ei; simpl in Hv; [| done]. destruct (bool_decide (previous x = _)); simpl in Hv; [| done].
    destruct (transition x) as [tr|]; simpl in Hv; [| done]. destruct (advance sha256 p tr (journal_head x)) as [y|] eqn:Ea; simpl in Hv; [| done].
    destruct (to_vec y) as [c|] eqn:Ec; simpl in Hv; [| done]. case_bool_decide as He; simpl in Hv; [| done]. injection Hv as <-.
    assert (y = x) as -> by (apply (records_injective y x b); congruence). eauto.
  - intros (tr & Ht & Ha & ->). assert (Hi : intent x = intent p) by (by eapply advance_intent).
    assert (Hp : previous x = Some (head p)) by (by apply advance_Ok in Ha as (? & ? & ? & _ & _ & _ & _ & _ & _ & ->)).
    rewrite !bool_decide_true by done. simpl. rewrite Ht. simpl. rewrite Ha. simpl. rewrite Hb. simpl. by rewrite bool_decide_true.
Qed.

(** A restored revision zero is the preparation of its intent. *)
Lemma restored_initial (x : Invocation) : restore sha256 x = Ok x -> revision x = Revision.INITIAL -> prepare sha256 (intent x) (journal_head x) = Ok x.
Proof.
  destruct x as [int rev st prev j tr tdig dig]. simpl. intros Hr ->. unfold restore, validate_record_shape in Hr. simpl in Hr.
  open_guards Hr. open_guards Hx. simpl in *. destruct st; simpl in *; try done. destruct prev, tr, tdig; simpl in *; try done.
  unfold prepare. rewrite Hx. simpl. rewrite Hx0. simpl. do 2 f_equal. congruence.
Qed.

Lemma history_step (x : Invocation) l x' : history sha256 (x' :: x :: l) -> exists tr, transition x' = Some tr /\ advance sha256 x tr (journal_head x') = Ok x'.
Proof.
  intros Hh. inversion Hh as [|? ? tr j ? _ Ha]; subst. exists tr.
  pose proof Ha as (? & ? & ? & _ & _ & _ & _ & _ & _ & ->)%advance_Ok. simpl. by split.
Qed.

Lemma history_suffix (k l : list Invocation) : l <> [] -> history sha256 (k ++ l) -> history sha256 l.
Proof. intros Hl. induction k as [|z k IHk]; [done |]. intros Hh. apply IHk. simpl in Hh. inversion Hh; subst; [by destruct k | congruence]. Qed.

(** Starting after [x], the verifier accepts exactly the continuations of a history. *)
Lemma verify_from (records : list Invocation) x l v :
  Forall (fun y => is_Some (to_vec y)) records -> history sha256 (x :: l) ->
  try_fold (verify_next sha256) (Some x) records = Ok v <-> history sha256 (rev records ++ x :: l) /\ v = List.head (rev records ++ [x]).
Proof.
  intros HF. revert x l. induction HF as [|y records Hy0 _ IH]; intros x l Hh; simpl.
  { split; [intros [= <-]; done | by intros [_ ->]]. }
  rewrite bind_Ok. setoid_rewrite verify_next_Some; [| done]. rewrite <- !app_assoc. simpl. split.
  - intros (v' & (tr & _ & Ha & ->) & Hf). apply (IH y (x :: l)) in Hf as [Hh' ->]; [| by econstructor].
    split; [done |]. by destruct (rev records).
  - intros [Hh' ->]. assert (Hy : history sha256 (y :: x :: l)).
    { by apply history_suffix in Hh'. }
    exists (Some y). split; [destruct (history_step _ _ _ Hy) as (tr & ? & ?); eauto |].
    apply (IH y (x :: l)); [done |]. split; [done |]. by destruct (rev records).
Qed.

Lemma history_restores (x : Invocation) l : history sha256 (x :: l) -> restore sha256 x = Ok x.
Proof.
  intros Hh. inversion Hh as [int j y Hp|y l' tr j y' Hy Ha]; subst; [by eapply prepared_restores |].
  eapply advanced_restores; [| done]. destruct (history_revision _ _ Hy) as [-> _]. lia.
Qed.

Lemma verify_all_exact (records : list Invocation) (x : Invocation) :
  Forall (fun y => restore sha256 y = Ok y /\ is_Some (to_vec y)) records ->
  verify_all sha256 records = Ok (Some x) <-> exists l, rev records = x :: l /\ history sha256 (x :: l).
Proof.
  intros HF. unfold verify_all, verifier_new. destruct records as [|y records]; simpl; [split; [done | by intros (l & ? & _)] |].
  inversion HF as [|? ? [Hy _] HF']; subst. apply (Forall_impl _ (fun y => is_Some (to_vec y))) in HF'; [| by intros ? [_ ?]]. unfold verify_next at 1. destruct (Z.eqb_spec (revision y) Revision.INITIAL) as [E|E]; simpl.
  - assert (Hh : history sha256 [y]) by (econstructor; by apply restored_initial). change (fun s' => ?f s') with f.
    rewrite (verify_from records y [] (Some x) HF' Hh). split.
    + intros [Hh' Hx]. destruct (rev records ++ [y]) as [|z k] eqn:Ek; [by destruct (rev records) |]. injection Hx as ->. eauto.
    + intros (l & -> & Hh'). done.
  - split; [done |]. intros (l & El & Hh). exfalso. apply E.
    rewrite <- El in Hh. apply history_suffix in Hh; [| done]. by apply history_revision in Hh as [? _].
Qed.

End Restore.

(** C5: Durable tool invocations refine the ledger of physical attempts.  A
    prepared invocation has the empty ledger, and every accepted advance of a
    record is, at the time of its journal entry, one step of the contract: a
    first start, an outcome of the running or ambiguous attempt (success, a
    known failure whose evidence fits the tool's risk, or for writes only an
    ambiguous outcome), or a retry of a known failure with a new attempt, after
    the advised delay and only on evidence that makes repetition safe. *)
Theorem tool_invocation_refines_ledger {Details : Type} `{!Canonical (ToolInvocationTransition Details),
    !Canonical (ToolInvocationRecordDigestWire Details)}
    (sha256 : bytes -> bytes) :
  (forall int j x, prepare (Details := Details) sha256 int j = Ok x -> ledger_of [x] = mkLedger [] PIdle) /\
  (forall (x : ToolInvocation Details) l tr j x', advance sha256 x tr j = Ok x' ->
     ledger_step (risk (semantics (descriptor (intent x)))) (jh_recorded_at j) (ledger_of (x :: l)) (ledger_of (x' :: x :: l)) /\
     intent x' = intent x /\ revision x' = revision x + 1).
Proof.
  split.
  - intros int j x (dig & _ & _ & _ & ->)%prepare_Ok. done.
  - intros x l tr j x' Ha. split_and!; [by eapply apply_step | by eapply advance_intent |].
    by apply advance_Ok in Ha as (st & tdig & dig & _ & _ & _ & _ & _ & _ & ->).
Qed.

(** C6: A write that may have taken effect is never repeated.  In the history of
    one invocation every attempt before the current one ended on evidence that
    makes repetition safe: for a tool whose writes are not idempotent that is
    authoritative evidence that nothing was applied, and no attempt with an
    unknown outcome is ever followed by another; a committed invocation admits
    no further transition, so at most one result is ever recorded. *)
Theorem tool_call_at_most_once {Details : Type} `{!Canonical (ToolInvocationTransition Details),
    !Canonical (ToolInvocationRecordDigestWire Details)}
    (sha256 : bytes -> bytes) (x : ToolInvocation Details) (l : list (ToolInvocation Details)) :
  history sha256 (x :: l) ->
  (forall a effect, (a, effect) ∈ settled (ledger_of (x :: l)) ->
     effect <> Unknown /\
     (risk (semantics (descriptor (intent x))) = NonIdempotentWrite -> effect = NotStarted \/ effect = NotApplied)) /\
  (forall result, state x = Committed result -> forall tr j, is_ok (advance sha256 x tr j) = false) /\
  (forall e, state x = UnknownOutcome e -> forall attempt j, is_ok (advance sha256 x (StartAttempt attempt) j) = false).
Proof.
  intros Hh. split_and!.
  - intros a effect Hin. apply history_settled in Hh. rewrite Forall_forall in Hh. specialize (Hh _ Hin). simpl in Hh.
    destruct (risk _), effect; simpl in Hh; split; auto; done.
  - intros result Es tr j. destruct (advance sha256 x tr j) eqn:Ea; [| done].
    apply advance_Ok in Ea as (st & _ & _ & _ & _ & _ & Hst & _). unfold apply_transition in Hst. rewrite Es in Hst. by destruct tr.
  - intros e Es attempt j. destruct (advance sha256 x (StartAttempt attempt) j) eqn:Ea; [| done].
    apply advance_Ok in Ea as (st & _ & _ & _ & _ & _ & Hst & _). unfold apply_transition in Hst. by rewrite Es in Hst.
Qed.

(** C7: Records survive storage.  Every record a history reaches restores to
    itself from its stored fields, with its compact head a valid head; a
    constructed intent restores to itself. *)
Theorem tool_records_restore {Details : Type} `{!Canonical (ToolInvocationTransition Details),
    !Canonical (ToolInvocationRecordDigestWire Details), !Canonical (ToolError Details), !Canonical ToolInvocationIntentDigestWire}
    (sha256 : bytes -> bytes) (x : ToolInvocation Details) (l : list (ToolInvocation Details))
    (errors_encode : forall e : ToolError Details, is_Some (to_vec e)) :
  history sha256 (x :: l) ->
  restore sha256 x = Ok x /\ head_new (head x) = Ok (head x) /\ revision x = Z.of_nat (length l) /\
  (forall act id d i effective int, intent_new sha256 act id d i effective = Ok int -> intent_restore sha256 int = Ok int).
Proof.
  intros Hh. split_and!; [by eapply history_restores | by eapply history_head | by apply history_revision in Hh as [? _] |].
  intros act id d i effective int Hi. pose proof Hi as Hi'. unfold intent_new in Hi'. open_guards Hi'. injection Hi' as <-.
  unfold intent_restore. simpl. rewrite Hi. simpl. by rewrite bool_decide_true.
Qed.

(** The streaming verifier is exact: fed restored records in ascending order,
    it accepts them and ends on the last one exactly when they are the records
    of one history of the state machine, each obtained from its predecessor by
    an accepted transition, retry authorisation included. *)
Theorem tool_history_verifier_exact {Details : Type} `{!Canonical (ToolInvocationTransition Details),
    !Canonical (ToolInvocationRecordDigestWire Details), !Canonical (ToolError Details), !Canonical (ToolInvocation Details)}
    (sha256 : bytes -> bytes) (records : list (ToolInvocation Details)) (x : ToolInvocation Details)
    (records_injective : encoder_injective (to_vec (T := ToolInvocation Details))) :
  Forall (fun y => restore sha256 y = Ok y /\ is_Some (to_vec y)) records ->
  verify_all sha256 records = Ok (Some x) <-> exists l, rev records = x :: l /\ history sha256 (x :: l).
Proof. intros HF. by apply verify_all_exact. Qed.

(** * A concrete invocation *)

Module Demo.

Definition tenant : TenantId := bytes_of "acme".
Definition journal (n : Z) : JournalHead := mkJournalHead tenant 7 n (100 + n) (1000000 * n) [n].
Definition tool : Capability.CapabilityIdentity :=
  Capability.mkIdentity (Content.mkPrincipal (bytes_of "https://i") (bytes_of "s"))
    (Capability.mkReference (bytes_of "pay") (Version.mkVersion 1 0 0)).
Definition schema : Content.SchemaReference := Content.mkSchema (bytes_of "https://s") (Version.mkVersion 1 0 0) [1].
Definition tool_limits : ToolExecutionLimits := mkToolLimits 1000 1 1024 1024 0 0.
Definition payments : ToolDescriptor :=
  mkDescriptor (Capability.mkMetadata tool Capability.KTool None [112] Capability.Active [] Extension.Extension.extensions_default) schema schema
    (mkSemantics NonIdempotentWrite Unsupported_ true false) resources_none (mkCapabilities CUnsupported 0) tool_limits.
Definition base : CheckpointHead Capability.CapabilityIdentity Content.SchemaReference :=
  Checkpoint.mkHead tenant 7 1 0 (mkGraphReference tool [2] schema) (journal 1) [3].
Definition int : ToolInvocationIntent :=
  mkIntent (mkActivation base [] (bytes_of "n") [4]) 42 payments (mkInput schema (mkBoundedJson (Obj []) (mkJsonStats 2 1 1))) tool_limits [5].

Definition not_applied : ToolError unit :=
  mkToolError (mkFailure 1 DependencyUnavailable [] [] [] (SafeAfter 5) None None) Execution NotApplied (mkToolProvenance 42 1 tool) None.

#[local] Instance encode_any (T : Type) : Canonical T | 100 := fun _ => Some [].
Definition hash (b : bytes) : bytes := [Z.of_nat (length b)].

Definition blank : ToolInvocation unit := mkInvocation int 0 Prepared None (journal 2) None None [].
Definition unwrap (r : result ToolInvocationError (ToolInvocation unit)) : ToolInvocation unit :=
  match r with Ok x => x | Err _ => blank end.

Definition r0 := unwrap (prepare hash int (journal 2)).
Definition r1 := unwrap (advance hash r0 (StartAttempt 1) (journal 3)).
Definition r2 := unwrap (advance hash r1 (RecordError not_applied) (journal 4)).
Definition r3 := unwrap (advance hash r2 (StartAttempt 2) (journal 5)).

Lemma demo_history : history hash [r3; r2; r1; r0].
Proof.
  apply (history_advanced hash r2 [r1; r0] (StartAttempt 2) (journal 5)); [| vm_compute; reflexivity].
  apply (history_advanced hash r1 [r0] (RecordError not_applied) (journal 4)); [| vm_compute; reflexivity].
  apply (history_advanced hash r0 [] (StartAttempt 1) (journal 3)); [| vm_compute; reflexivity].
  apply (history_prepared hash int (journal 2)). vm_compute. reflexivity.
Defined.

Lemma tool_call_at_most_once_witness :
  settled (ledger_of [r3; r2; r1; r0]) = [(1, NotApplied)] /\ NotApplied <> Unknown.
Proof.
  split; [vm_compute; reflexivity |].
  destruct (tool_call_at_most_once hash r3 [r2; r1; r0] demo_history) as [H _].
  exact (proj1 (H 1 NotApplied ltac:(vm_compute; by left))).
Defined.

Lemma tool_records_restore_witness : restore hash r3 = Ok r3 /\ revision r3 = 3.
Proof.
  destruct (tool_records_restore hash r3 [r2; r1; r0] (fun e => ex_intro _ [] eq_refl) demo_history) as (H & _ & Hr & _).
  split; [exact H | exact Hr].
Defined.

#[local] Instance RetryAdvice_eq_dec : EqDecision RetryAdvice.
Proof. solve_decision. Defined.
#[local] Instance Failure_eq_dec : EqDecision (Failure unit).
Proof. solve_decision. Defined.
#[local] Instance Phase_eq_dec : EqDecision ToolErrorPhase.
Proof. solve_decision. Defined.
#[local] Instance Handle_eq_dec : EqDecision ToolRecoveryHandle.
Proof. solve_decision. Defined.
#[local] Instance ToolError_eq_dec : EqDecision (ToolError unit).
Proof. solve_decision. Defined.
#[local] Instance State_eq_dec : EqDecision (ToolInvocationState unit).
Proof. solve_decision. Defined.
#[local] Instance Transition_eq_dec : EqDecision (ToolInvocationTransition unit).
Proof. solve_decision. Defined.
#[local] Instance Invocation_eq_dec : EqDecision (ToolInvocation unit).
Proof. solve_decision. Defined.

#[local] Instance encode_records : Canonical (ToolInvocation unit) | 0 := pick r0 r1.

Lemma tool_history_verifier_exact_witness :
  verify_all hash [r0; r1] = Ok (Some r1) /\ exists l, [r1; r0] = r1 :: l /\ history hash (r1 :: l).
Proof.
  assert (HF : Forall (fun y => restore hash y = Ok y /\ is_Some (to_vec y)) [r0; r1]).
  { repeat constructor; try (vm_compute; reflexivity); vm_compute; eauto. }
  destruct (tool_history_verifier_exact hash [r0; r1] r1 (pick_injective r0 r1) HF) as [H1 _].
  assert (E : verify_all hash [r0; r1] = Ok (Some r1)) by (vm_compute; reflexivity).
  split; [exact E | exact (H1 E)].
Defined.

End Demo.

End ToolCalls.
