(* ===== verification/ToolRuntime.v ===== *)
(** The tool boundary (crates/stateknot-core/src/tool_runtime.rs): contexts of one
    physical attempt and of its reconciliation, validation of input, results and
    errors against a context and a descriptor, the ordered progress reporter,
    and the typed adapter around a tool implementation.

    A wall-clock [Timestamp] is in microseconds; an [Instant] is the monotonic
    clock in nanoseconds.  The tool implementation, its schema registry, serde's
    conversions and the generator of failure identifiers are parameters of the
    adapter.  An [expect] that fails is the fault [Panic]. *)

From Stdlib Require Import ZArith Lia List.
From stdpp Require Import prelude.
From S2P Require Import Prelude Ordered Json Ids Decimal Digests Scope BoundedJson Accounting Time Budget Content Extension Capability Failures Run Tool.

Open Scope Z_scope.
Import Timestamp(Timestamp).

Module ToolRuntime.
Import Text Content Capability Tools.

(** * Deadlines *)

Definition Instant := Z.

(** [Instant::checked_add] and [checked_duration_since] on the Unix clock. *)
Definition instant_checked_add (instant duration : Z) : option Instant :=
  if instant + duration <=? i64_max * Timestamp.NANOS + (Timestamp.NANOS - 1) then Some (instant + duration) else None.
Definition checked_duration_since (later earlier : Instant) : option Z :=
  if earlier <=? later then Some (later - earlier) else None.

(** The part of both constructors that intersects the run deadline with the
    timeout: the wall-clock and the monotonic deadline. *)
Definition finite_deadline {E} (reached : Timestamp -> Timestamp -> E) (out_of_range : Z -> E)
    (run_deadline observed_at : Timestamp) (observed_instant : Instant) (effective_timeout : DurationMillis.DurationMillis)
  : result (fault E) (Timestamp * Instant) :=
  let run_remaining_micros := run_deadline - observed_at in
  if run_remaining_micros <=? 0 then Err (Fail (reached run_deadline observed_at)) else
  let timeout_micros := effective_timeout * 1000 in
  let remaining_micros := Z.min run_remaining_micros timeout_micros in
  let deadline_micros := observed_at + remaining_micros in
  if negb ((i64_min <=? deadline_micros) && (deadline_micros <=? i64_max)) then Err Panic else
  deadline ← map_err (fun _ => Panic) (Timestamp.from_unix_micros deadline_micros);
  if negb ((0 <=? remaining_micros) && (remaining_micros <=? u64_max)) then Err Panic else
  let remaining := remaining_micros * 1000 in
  deadline_instant ← ok_or (instant_checked_add observed_instant remaining) (Fail (out_of_range remaining));
  Ok (deadline, deadline_instant).

Inductive ToolStopReason := StopCancelled | StopDeadlineExceeded.

(** [remaining_time_at]: the positive time left. *)
Definition remaining_time (deadline_instant observed : Instant) : option Z :=
  match checked_duration_since deadline_instant observed with
  | Some remaining => if remaining =? 0 then None else Some remaining
  | None => None
  end.

(** [cancelled] is the value the cancellation signal has when it is read. *)
Definition stop_reason (cancelled : bool) (deadline_instant observed : Instant) : option ToolStopReason :=
  if cancelled then Some StopCancelled else
  match remaining_time deadline_instant observed with None => Some StopDeadlineExceeded | Some _ => None end.

(** * Progress updates *)

Record ToolProgressUpdate := mkUpdate { completed : Count.Count; total : option Count.Count }.

Inductive ToolProgressUpdateError := ZeroTotal | CompletedExceedsTotal (completed total : Count.Count).

Definition progress_update_new (c : Count.Count) (t : option Count.Count) : result ToolProgressUpdateError ToolProgressUpdate :=
  match t with
  | Some t' =>
      if t' =? 0 then Err ZeroTotal else
      if t' <? c then Err (CompletedExceedsTotal c t') else Ok (mkUpdate c t)
  | None => Ok (mkUpdate c t)
  end.

Record ToolProgressEvent := mkEvent { event_provenance : ToolProvenance; event_sequence : Count.Count; event_update : ToolProgressUpdate }.

(** The immutable part of a reporter. *)
Record ToolProgressReporter := mkReporter { reporter_provenance : ToolProvenance; maximum_events : Count.Count }.

(** * Contexts *)

Record ToolContext := mkContext {
  ctx_tenant_id : bytes;
  ctx_run_id : Z;
  ctx_thread_id : Z;
  ctx_invocation_id : Z;
  ctx_attempt_id : Z;
  ctx_tool : CapabilityIdentity;
  ctx_idempotency : ToolIdempotency;
  ctx_idempotency_key : option Z;
  ctx_budget : BudgetRemaining.t;
  ctx_observed_at : Timestamp;
  ctx_deadline : Timestamp;
  ctx_deadline_instant : Instant;
  ctx_effective_timeout : DurationMillis.DurationMillis;
  ctx_progress : option ToolProgressReporter;
  ctx_origin_event_id : option Z;
  ctx_max_inline_result_bytes : Count.Count;
  ctx_max_artifacts : Count.Count;
  ctx_max_total_artifact_bytes : Count.Count
}.

Inductive ToolContextError :=
| ZeroEffectiveTimeout
| TimeoutExceedsDescriptor_ (descriptor actual : DurationMillis.DurationMillis)
| DeadlineReached (deadline observed_at : Timestamp)
| MonotonicDeadlineOutOfRange (remaining : Z)
| ProgressUnsupported.

Definition idempotency_key_for (d : ToolDescriptor) (invocation_id : Z) : option Z :=
  if requires_idempotency_key (semantics d) then Some invocation_id else None.

Definition context_new (tenant : bytes) (run thread invocation attempt : Z) (d : ToolDescriptor) (budget : BudgetRemaining.t)
    (effective_timeout : DurationMillis.DurationMillis) (observed_at : Timestamp) (observed_instant : Instant)
  : result (fault ToolContextError) ToolContext :=
  if effective_timeout =? 0 then Err (Fail ZeroEffectiveTimeout) else
  if timeout (limits d) <? effective_timeout then Err (Fail (TimeoutExceedsDescriptor_ (timeout (limits d)) effective_timeout)) else
  '(deadline, deadline_instant) ← finite_deadline DeadlineReached MonotonicDeadlineOutOfRange (BudgetRemaining.deadline budget)
      observed_at observed_instant effective_timeout;
  Ok (mkContext tenant run thread invocation attempt (tool_identity d) (idempotency (semantics d)) (idempotency_key_for d invocation)
        budget observed_at deadline deadline_instant effective_timeout None None
        (Z.min (max_inline_result_bytes (limits d)) (BudgetRemaining.output_bytes budget))
        (max_artifacts (limits d))
        (Z.min (max_total_artifact_bytes (limits d)) (BudgetRemaining.artifact_bytes budget))).

Definition set_limits (self : ToolContext) (inline artifacts total : Count.Count) : ToolContext :=
  mkContext (ctx_tenant_id self) (ctx_run_id self) (ctx_thread_id self) (ctx_invocation_id self) (ctx_attempt_id self) (ctx_tool self)
    (ctx_idempotency self) (ctx_idempotency_key self) (ctx_budget self) (ctx_observed_at self) (ctx_deadline self)
    (ctx_deadline_instant self) (ctx_effective_timeout self) (ctx_progress self) (ctx_origin_event_id self) inline artifacts total.

Definition narrow_artifact_limits (self : ToolContext) (lim : ToolExecutionLimits) : ToolContext :=
  set_limits self (Z.min (ctx_max_inline_result_bytes self) (max_inline_result_bytes lim))
    (Z.min (ctx_max_artifacts self) (max_artifacts lim)) (Z.min (ctx_max_total_artifact_bytes self) (max_total_artifact_bytes lim)).

Definition set_progress (self : ToolContext) (progress : option ToolProgressReporter) (event : option Z) : ToolContext :=
  mkContext (ctx_tenant_id self) (ctx_run_id self) (ctx_thread_id self) (ctx_invocation_id self) (ctx_attempt_id self) (ctx_tool self)
    (ctx_idempotency self) (ctx_idempotency_key self) (ctx_budget self) (ctx_observed_at self) (ctx_deadline self)
    (ctx_deadline_instant self) (ctx_effective_timeout self) progress event (ctx_max_inline_result_bytes self)
    (ctx_max_artifacts self) (ctx_max_total_artifact_bytes self).

Definition with_durable_origin_event (self : ToolContext) (event : Z) : ToolContext :=
  set_progress self (ctx_progress self) (Some event).

Definition context_new_with_progress (tenant : bytes) (run thread invocation attempt : Z) (d : ToolDescriptor)
    (budget : BudgetRemaining.t) (effective_timeout : DurationMillis.DurationMillis) (observed_at : Timestamp) (observed_instant : Instant)
  : result (fault ToolContextError) ToolContext :=
  context ← context_new tenant run thread invocation attempt d budget effective_timeout observed_at observed_instant;
  let maximum := max_progress_events (Tools.invocation d) in
  if maximum =? 0 then Err (Fail ProgressUnsupported) else
  Ok (set_progress context (Some (mkReporter (mkToolProvenance invocation attempt (tool_identity d)) maximum)) (ctx_origin_event_id context)).

Inductive ToolContextBindingError :=
| ToolIdentityMismatch (expected actual : CapabilityIdentity)
| IdempotencyMismatch (expected actual : ToolIdempotency)
| TimeoutExceedsDescriptor (descriptor actual : DurationMillis.DurationMillis)
| InvalidIdempotencyKeyBinding
| IdempotencyKeyNotRequired (i : ToolIdempotency)
| ProgressLimitMismatch (expected actual : Count.Count)
| ProgressProvenanceMismatch
| StatusQueryUnsupported_.

Definition required_idempotency_key (self : ToolContext) : result ToolContextBindingError Z :=
  match ctx_idempotency_key self with Some key => Ok key | None => Err (IdempotencyKeyNotRequired (ctx_idempotency self)) end.

Definition key_is_valid (i : ToolIdempotency) (key : option Z) (invocation_id : Z) : bool :=
  match i, key with
  | RequiredKey, Some k => k =? invocation_id
  | RequiredKey, None => false
  | _, None => true
  | _, Some _ => false
  end.

Definition validate_progress_binding (self : ToolContext) (d : ToolDescriptor) : result ToolContextBindingError unit :=
  match ctx_progress self with
  | None => Ok tt
  | Some progress =>
      let maximum := max_progress_events (Tools.invocation d) in
      if (maximum =? 0) || negb (maximum_events progress =? maximum) then Err (ProgressLimitMismatch maximum (maximum_events progress)) else
      if negb (prov_invocation_id (reporter_provenance progress) =? ctx_invocation_id self) ||
         negb (prov_attempt_id (reporter_provenance progress) =? ctx_attempt_id self) ||
         negb (bool_decide (prov_tool (reporter_provenance progress) = ctx_tool self))
      then Err ProgressProvenanceMismatch else Ok tt
  end.

Definition context_validate_for (self : ToolContext) (d : ToolDescriptor) : result ToolContextBindingError unit :=
  if negb (bool_decide (ctx_tool self = tool_identity d)) then Err (ToolIdentityMismatch (tool_identity d) (ctx_tool self)) else
  if negb (bool_decide (ctx_idempotency self = idempotency (semantics d)))
  then Err (IdempotencyMismatch (idempotency (semantics d)) (ctx_idempotency self)) else
  if timeout (limits d) <? ctx_effective_timeout self then Err (TimeoutExceedsDescriptor (timeout (limits d)) (ctx_effective_timeout self)) else
  if negb (key_is_valid (ctx_idempotency self) (ctx_idempotency_key self) (ctx_invocation_id self))
  then Err InvalidIdempotencyKeyBinding else
  validate_progress_binding self d.

(** ** Reconciliation contexts *)

Record ToolReconciliationContext := mkReconciliation {
  rc_tenant_id : bytes;
  rc_run_id : Z;
  rc_thread_id : Z;
  rc_invocation_id : Z;
  rc_attempt_id : Z;
  rc_tool : CapabilityIdentity;
  rc_idempotency : ToolIdempotency;
  rc_idempotency_key : option Z;
  rc_observed_at : Timestamp;
  rc_deadline : Timestamp;
  rc_deadline_instant : Instant;
  rc_effective_timeout : DurationMillis.DurationMillis;
  rc_origin_event_id : option Z;
  rc_recovery_handle : option ToolRecoveryHandle;
  rc_max_inline_result_bytes : Count.Count;
  rc_max_artifacts : Count.Count;
  rc_max_total_artifact_bytes : Count.Count
}.

Inductive ToolReconciliationContextError :=
| StatusQueryUnsupported
| RcZeroEffectiveTimeout
| RcTimeoutExceedsDescriptor (descriptor actual : DurationMillis.DurationMillis)
| RcDeadlineReached (deadline observed_at : Timestamp)
| RcMonotonicDeadlineOutOfRange (remaining : Z).

Definition reconciliation_new (tenant : bytes) (run thread invocation attempt : Z) (d : ToolDescriptor)
    (effective_timeout : DurationMillis.DurationMillis) (observed_at : Timestamp) (observed_instant : Instant) (run_deadline : Timestamp)
  : result (fault ToolReconciliationContextError) ToolReconciliationContext :=
  if negb (status_query (semantics d)) then Err (Fail StatusQueryUnsupported) else
  if effective_timeout =? 0 then Err (Fail RcZeroEffectiveTimeout) else
  if timeout (limits d) <? effective_timeout then Err (Fail (RcTimeoutExceedsDescriptor (timeout (limits d)) effective_timeout)) else
  '(deadline, deadline_instant) ← finite_deadline RcDeadlineReached RcMonotonicDeadlineOutOfRange run_deadline observed_at
      observed_instant effective_timeout;
  Ok (mkReconciliation tenant run thread invocation attempt (tool_identity d) (idempotency (semantics d))
        (idempotency_key_for d invocation) observed_at deadline deadline_instant effective_timeout None None
        (max_inline_result_bytes (limits d)) (max_artifacts (limits d)) (max_total_artifact_bytes (limits d))).

Definition rc_with (self : ToolReconciliationContext) (event : option Z) (handle : option ToolRecoveryHandle)
    (inline artifacts total : Count.Count) : ToolReconciliationContext :=
  mkReconciliation (rc_tenant_id self) (rc_run_id self) (rc_thread_id self) (rc_invocation_id self) (rc_attempt_id self) (rc_tool self)
    (rc_idempotency self) (rc_idempotency_key self) (rc_observed_at self) (rc_deadline self) (rc_deadline_instant self)
    (rc_effective_timeout self) event handle inline artifacts total.

Definition rc_narrow_artifact_limits (self : ToolReconciliationContext) (lim : ToolExecutionLimits) : ToolReconciliationContext :=
  rc_with self (rc_origin_event_id self) (rc_recovery_handle self)
    (Z.min (rc_max_inline_result_bytes self) (max_inline_result_bytes lim))
    (Z.min (rc_max_artifacts self) (max_artifacts lim)) (Z.min (rc_max_total_artifact_bytes self) (max_total_artifact_bytes lim)).

Definition with_durable_recovery (self : ToolReconciliationContext) (event : Z) (handle : option ToolRecoveryHandle)
  : ToolReconciliationContext :=
  rc_with self (Some event) handle (rc_max_inline_result_bytes self) (rc_max_artifacts self) (rc_max_total_artifact_bytes self).

Definition reconciliation_validate_for (self : ToolReconciliationContext) (d : ToolDescriptor) : result ToolContextBindingError unit :=
  if negb (status_query (semantics d)) then Err StatusQueryUnsupported_ else
  if negb (bool_decide (rc_tool self = tool_identity d)) then Err (ToolIdentityMismatch (tool_identity d) (rc_tool self)) else
  if negb (bool_decide (rc_idempotency self = idempotency (semantics d)))
  then Err (IdempotencyMismatch (idempotency (semantics d)) (rc_idempotency self)) else
  if timeout (limits d) <? rc_effective_timeout self then Err (TimeoutExceedsDescriptor (timeout (limits d)) (rc_effective_timeout self)) else
  if negb (key_is_valid (rc_idempotency self) (rc_idempotency_key self) (rc_invocation_id self))
  then Err InvalidIdempotencyKeyBinding else Ok tt.

(** * Validation against a context and a descriptor *)

(** The identity checks shared by events, results and errors. *)
Inductive BindingError :=
| Context_ (source : ToolContextBindingError)
| InvocationMismatch (expected actual : Z)
| AttemptMismatch (expected actual : Z)
| IdentityMismatch (expected actual : CapabilityIdentity).

Definition validate_provenance (p : ToolProvenance) (context : ToolContext) (d : ToolDescriptor) : result BindingError unit :=
  _ ← map_err Context_ (context_validate_for context d);
  if negb (prov_invocation_id p =? ctx_invocation_id context) then Err (InvocationMismatch (ctx_invocation_id context) (prov_invocation_id p)) else
  if negb (prov_attempt_id p =? ctx_attempt_id context) then Err (AttemptMismatch (ctx_attempt_id context) (prov_attempt_id p)) else
  if negb (bool_decide (prov_tool p = tool_identity d)) then Err (IdentityMismatch (tool_identity d) (prov_tool p)) else Ok tt.

Inductive ToolProgressEventValidationError :=
| EventBinding (source : BindingError)
| SequenceLimitExceeded (maximum actual : Count.Count).

Definition event_validate_for (self : ToolProgressEvent) (context : ToolContext) (d : ToolDescriptor)
  : result ToolProgressEventValidationError unit :=
  _ ← map_err EventBinding (validate_provenance (event_provenance self) context d);
  let maximum := max_progress_events (Tools.invocation d) in
  if maximum <=? event_sequence self then Err (SequenceLimitExceeded maximum (event_sequence self)) else Ok tt.

Inductive ToolInputValidationError :=
| InputContext (source : ToolContextBindingError)
| SchemaMismatch (expected actual : SchemaReference)
| DescriptorLimitExceeded (maximum actual : Count.Count)
| BudgetLimitExceeded (maximum actual : Count.Count).

Definition input_validate_for (self : ToolInput) (context : ToolContext) (d : ToolDescriptor) : result ToolInputValidationError unit :=
  _ ← map_err InputContext (context_validate_for context d);
  if negb (bool_decide (input_schema_ref self = input_schema d)) then Err (SchemaMismatch (input_schema d) (input_schema_ref self)) else
  let actual := compact_size (input_value self) in
  let descriptor_maximum := max_input_bytes (limits d) in
  if descriptor_maximum <? actual then Err (DescriptorLimitExceeded descriptor_maximum actual) else
  let budget_maximum := BudgetRemaining.input_bytes (ctx_budget context) in
  if budget_maximum <? actual then Err (BudgetLimitExceeded budget_maximum actual) else Ok tt.

(** ** Results *)

Definition result_for_invocation (context : ToolContext) (d : ToolDescriptor) (output : BoundedJson) (artifacts : ToolArtifacts) : ToolResult :=
  mkToolResult (mkToolProvenance (ctx_invocation_id context) (ctx_attempt_id context) (tool_identity d)) (output_schema d) output artifacts.

Inductive ToolResultValidationError :=
| ResultBinding (source : BindingError)
| ResultSchemaMismatch (expected actual : SchemaReference)
| InlineDescriptorLimitExceeded (maximum actual : Count.Count)
| InlineBudgetLimitExceeded (maximum actual : Count.Count)
| ArtifactCountLimitExceeded (maximum actual : Count.Count)
| ArtifactDescriptorBytesExceeded (maximum actual : Count.Count)
| ArtifactBudgetBytesExceeded (maximum actual : Count.Count)
| ArtifactTenantMismatch (index : Z) (expected actual : bytes)
| ArtifactRunMismatch (index : Z) (expected actual : Z)
| ArtifactPrincipalMismatch (index : Z) (expected actual : PrincipalIdentity)
| ArtifactCapabilityMismatch (index : Z) (expected : CapabilityReference) (actual : option CapabilityReference).

Definition validate_artifact_binding (index : Z) (artifact : Artifact.ArtifactRef) (context : ToolContext) (d : ToolDescriptor)
  : result ToolResultValidationError unit :=
  let tenant := Artifact.tenant_id (Artifact.identity artifact) in
  if negb (bool_decide (tenant = ctx_tenant_id context)) then Err (ArtifactTenantMismatch index (ctx_tenant_id context) tenant) else
  let prov := Artifact.provenance artifact in
  if negb (Artifact.run_id prov =? ctx_run_id context) then Err (ArtifactRunMismatch index (ctx_run_id context) (Artifact.run_id prov)) else
  let expected_principal := owner (tool_identity d) in
  if negb (bool_decide (Artifact.principal prov = expected_principal))
  then Err (ArtifactPrincipalMismatch index expected_principal (Artifact.principal prov)) else
  let expected_capability := capability (tool_identity d) in
  if negb (bool_decide (Artifact.producer prov = Some expected_capability))
  then Err (ArtifactCapabilityMismatch index expected_capability (Artifact.producer prov)) else Ok tt.

Fixpoint validate_artifacts (index : Z) (l : list Artifact.ArtifactRef) (context : ToolContext) (d : ToolDescriptor)
  : result ToolResultValidationError unit :=
  match l with
  | [] => Ok tt
  | artifact :: l' => _ ← validate_artifact_binding index artifact context d; validate_artifacts (index + 1) l' context d
  end.

Definition result_validate_for (self : ToolResult) (context : ToolContext) (d : ToolDescriptor) : result ToolResultValidationError unit :=
  _ ← map_err ResultBinding (validate_provenance (result_provenance self) context d);
  if negb (bool_decide (result_schema self = output_schema d)) then Err (ResultSchemaMismatch (output_schema d) (result_schema self)) else
  let output_bytes := compact_size (result_output self) in
  let maximum := max_inline_result_bytes (limits d) in
  if maximum <? output_bytes then Err (InlineDescriptorLimitExceeded maximum output_bytes) else
  let maximum := BudgetRemaining.output_bytes (ctx_budget context) in
  if maximum <? output_bytes then Err (InlineBudgetLimitExceeded maximum output_bytes) else
  let artifact_count := count_from_usize (Z.of_nat (length (artifact_values (result_artifacts self)))) in
  let maximum := max_artifacts (limits d) in
  if maximum <? artifact_count then Err (ArtifactCountLimitExceeded maximum artifact_count) else
  let artifact_bytes := total_bytes (result_artifacts self) in
  let maximum := max_total_artifact_bytes (limits d) in
  if maximum <? artifact_bytes then Err (ArtifactDescriptorBytesExceeded maximum artifact_bytes) else
  let maximum := BudgetRemaining.artifact_bytes (ctx_budget context) in
  if maximum <? artifact_bytes then Err (ArtifactBudgetBytesExceeded maximum artifact_bytes) else
  validate_artifacts 0 (artifact_values (result_artifacts self)) context d.

(** ** Errors *)

Definition provenance_for_invocation (context : ToolContext) (d : ToolDescriptor) : ToolProvenance :=
  mkToolProvenance (ctx_invocation_id context) (ctx_attempt_id context) (tool_identity d).

Inductive ToolErrorValidationError :=
| ErrorBinding (source : BindingError)
| EffectRiskMismatch (risk : ToolRisk) (effect : ToolExternalEffect)
| UnsafeRetryAfterAppliedNonIdempotentWrite.

Definition error_validate_for {Details} (self : ToolError Details) (context : ToolContext) (d : ToolDescriptor)
  : result ToolErrorValidationError unit :=
  _ ← map_err ErrorBinding (validate_provenance (error_provenance self) context d);
  let r := risk (semantics d) in
  if negb (effect_matches_risk r (external_effect self)) then Err (EffectRiskMismatch r (external_effect self)) else
  if bool_decide (r = NonIdempotentWrite) && bool_decide (external_effect self = Applied) && is_safe_after (retry_advice (failure self))
  then Err UnsafeRetryAfterAppliedNonIdempotentWrite else Ok tt.

(** * The progress reporter *)

Record ToolProgressState := mkProgress {
  next_sequence : Count.Count;
  last_completed : option Count.Count;
  progress_total : option Count.Count;
  in_flight : bool;
  poisoned : bool
}.

Definition progress_initial : ToolProgressState := mkProgress 0 None None false false.

Inductive ToolProgressError :=
| StatePoisoned
| ConcurrentEmission
| MaximumReached (maximum : Count.Count)
| NotIncreasing (previous actual : Count.Count)
| TotalChanged (expected actual : Count.Count)
| CompletedExceedsEstablishedTotal (completed total : Count.Count)
| Sink.

Definition check_increasing (last : option Count.Count) (c : Count.Count) : result ToolProgressError unit :=
  match last with
  | Some previous => if c <=? previous then Err (NotIncreasing previous c) else Ok tt
  | None => Ok tt
  end.

Definition check_total (established given : option Count.Count) : result ToolProgressError unit :=
  match established, given with
  | Some expected, Some actual => if negb (expected =? actual) then Err (TotalChanged expected actual) else Ok tt
  | _, _ => Ok tt
  end.

Definition option_or {A} (a b : option A) : option A := match a with Some _ => a | None => b end.

Definition check_completed (c : Count.Count) (t : option Count.Count) : result ToolProgressError unit :=
  match t with
  | Some t => if t <? c then Err (CompletedExceedsEstablishedTotal c t) else Ok tt
  | None => Ok tt
  end.

(** [emit] up to the call of the sink: the critical section that reserves a
    sequence number. *)
Definition emit_reserve (r : ToolProgressReporter) (st : ToolProgressState) (update : ToolProgressUpdate)
  : result ToolProgressError (ToolProgressEvent * ToolProgressState) :=
  if poisoned st then Err StatePoisoned else
  if in_flight st then Err ConcurrentEmission else
  if maximum_events r <=? next_sequence st then Err (MaximumReached (maximum_events r)) else
  _ ← check_increasing (last_completed st) (completed update);
  _ ← check_total (progress_total st) (total update);
  let t := option_or (total update) (progress_total st) in
  _ ← check_completed (completed update) t;
  let normalized := mkUpdate (completed update) t in
  Ok (mkEvent (reporter_provenance r) (next_sequence st) normalized,
      mkProgress (next_sequence st) (last_completed st) (progress_total st) true (poisoned st)).

Definition reservation_fail (st : ToolProgressState) : ToolProgressState :=
  mkProgress (next_sequence st) (last_completed st) (progress_total st) false true.

(** [commit], followed by the drop of the reservation when it did not commit. *)
Definition reservation_commit (st : ToolProgressState) (update : ToolProgressUpdate) : result ToolProgressError unit * ToolProgressState :=
  match Count.checked_add (next_sequence st) 1 with
  | None => (Err StatePoisoned, reservation_fail st)
  | Some next => (Ok tt, mkProgress next (Some (completed update)) (total update) false (poisoned st))
  end.

(** What can happen to a reporter shared by any number of tasks: a call of
    [emit], the sink's answer to the event in flight, or the drop of the future
    that waits for it. [delivered] are the events [emit] returned. *)
Inductive ProgressStep := Emit (update : ToolProgressUpdate) | SinkAccepted | SinkRejected | FutureDropped.

Record ProgressRun := mkRun_ { progress : ToolProgressState; pending : option ToolProgressEvent; delivered : list ToolProgressEvent }.

Definition progress_step (r : ToolProgressReporter) (s : ProgressRun) (step : ProgressStep) : ProgressRun :=
  match step, pending s with
  | Emit update, p =>
      match emit_reserve r (progress s) update with
      | Ok (event, st) => mkRun_ st (Some event) (delivered s)
      | Err _ => s
      end
  | SinkAccepted, Some event =>
      match reservation_commit (progress s) (event_update event) with
      | (Ok _, st) => mkRun_ st None (delivered s ++ [event])
      | (Err _, st) => mkRun_ st None (delivered s)
      end
  | SinkRejected, Some _ | FutureDropped, Some _ => mkRun_ (reservation_fail (progress s)) None (delivered s)
  | _, None => s
  end.

Definition progress_run (r : ToolProgressReporter) (steps : list ProgressStep) : ProgressRun :=
  fold_left (progress_step r) steps (mkRun_ progress_initial None []).

(** * Reconciliation observations *)

Definition MAX_RETRY_AFTER : DurationMillis.DurationMillis := 3600000.

Inductive ToolReconciliationObservationError := ZeroRetryDelay | RetryDelayTooLarge (maximum actual : DurationMillis.DurationMillis).

Definition validate_reconciliation_retry_after (retry_after : DurationMillis.DurationMillis)
  : result ToolReconciliationObservationError unit :=
  if retry_after =? 0 then Err ZeroRetryDelay else
  if MAX_RETRY_AFTER <? retry_after then Err (RetryDelayTooLarge MAX_RETRY_AFTER retry_after) else Ok tt.

Inductive ToolReconciliationObservation {Details : Type} :=
| ObservedResult (result : ToolResult)
| ObservedError (error : ToolError Details)
| ObservedPending (retry_after : DurationMillis.DurationMillis).
Arguments ToolReconciliationObservation : clear implicits.

Definition observation_pending {Details} (retry_after : DurationMillis.DurationMillis)
  : result ToolReconciliationObservationError (ToolReconciliationObservation Details) :=
  _ ← validate_reconciliation_retry_after retry_after; Ok (ObservedPending retry_after).

Definition observation_validate {Details} (self : ToolReconciliationObservation Details)
  : result ToolReconciliationObservationError unit :=
  match self with
  | ObservedResult _ | ObservedError _ => Ok tt
  | ObservedPending retry_after => validate_reconciliation_retry_after retry_after
  end.

Inductive ToolReconciliationProbeErrorBuildError :=
| RecursiveReconciliation
| InvalidRetry (source : ToolReconciliationObservationError).

(** A probe error is the failure it wraps. *)
Definition probe_error_new {Details} (f : Failure Details) : result ToolReconciliationProbeErrorBuildError (Failure Details) :=
  if requires_reconciliation (retry_advice f) then Err RecursiveReconciliation else
  match safe_after_delay (retry_advice f) with
  | Some delay => _ ← map_err InvalidRetry (validate_reconciliation_retry_after delay); Ok f
  | None => Ok f
  end.

(** * The adapter *)

Definition expect {E F A} (r : result E A) : result (fault F) A := map_err (fun _ => Panic) r.

Definition tool_output_json_limits {E} (d : ToolDescriptor) : result (fault E) JsonLimits :=
  let descriptor_bytes := max_inline_result_bytes (limits d) in
  let max := Z.min descriptor_bytes (max_bytes LIMITS_MAXIMUM) in
  expect (json_limits_try_new max (max_depth LIMITS_MAXIMUM) (max_container_entries LIMITS_MAXIMUM) (max_nodes LIMITS_MAXIMUM)
            (max_string_bytes LIMITS_MAXIMUM) (max_object_key_bytes LIMITS_MAXIMUM)).

Inductive ToolSchemaRole := RoleInput | RoleOutput.

Section Adapter.
Context {Details : Type}.
(** [FailureId::generate()]. *)
Variable fresh_id : Z.

(** A failure with static texts: identifiers and message are checked, as are
    category and advice. The private source is not part of the public value. *)
Definition static_failure {E} (cat : FailureCategory) (advice : RetryAdvice) (code origin message : bytes)
  : result (fault E) (Failure Details) :=
  _ ← expect (Failures.validate_failure_identifier code);
  _ ← expect (Failures.validate_failure_identifier origin);
  _ ← expect (Failures.validate_failure_message message);
  expect (failure_new fresh_id cat code origin message advice).

Definition probe_unsupported {E} : result (fault E) (Failure Details) :=
  static_failure Unsupported Never (bytes_of "stateknot.tool.reconciliation_unsupported") (bytes_of "stateknot.tool")
    (bytes_of "This tool does not implement reconciliation.").

(** The error an adapter function builds; the only other outcome is a panic. *)
Definition adapter_error (context : ToolContext) (d : ToolDescriptor) (cat : FailureCategory) (advice : RetryAdvice) (code message : bytes)
    (p : ToolErrorPhase) (effect : ToolExternalEffect) : result (fault Empty_set) (ToolError Details) :=
  f ← static_failure cat advice code (bytes_of "stateknot.tool_adapter") message;
  expect (tool_error_new f p effect (provenance_for_invocation context d)).

Definition preparation_adapter_error (context : ToolContext) (d : ToolDescriptor) (code message : bytes) :=
  let effect := if is_read_only (risk (semantics d)) then NotApplicable else NotStarted in
  adapter_error context d InvalidInput Never code message Preparation effect.

Definition result_adapter_error (context : ToolContext) (d : ToolDescriptor) (code message : bytes) :=
  let effect := if is_read_only (risk (semantics d)) then NotApplicable else Applied in
  adapter_error context d Internal Never code message Result_ effect.

Definition invalid_tool_error (context : ToolContext) (d : ToolDescriptor) :=
  let '(cat, advice, effect) :=
    if is_read_only (risk (semantics d)) then (Internal, Never, NotApplicable)
    else (AmbiguousExternalOutcome, ReconcileFirst, Unknown) in
  adapter_error context d cat advice (bytes_of "stateknot.tool.invalid_error_evidence")
    (bytes_of "Tool returned failure evidence that does not match its admitted invocation.") Execution effect.

(** The outcome of the adapter: a result, a public error, or a panic. *)
Definition raise (e : result (fault Empty_set) (ToolError Details)) {A} : result (fault (ToolError Details)) A :=
  match e with Ok error => Err (Fail error) | Err _ => Err Panic end.

Definition guard {E A} (r : result E A) (e : result (fault Empty_set) (ToolError Details)) : result (fault (ToolError Details)) A :=
  match r with Ok a => Ok a | Err _ => raise e end.

(** The typed tool, its schema registry and serde's conversions. *)
Context {Input Output SchemaError SerdeError : Type}.
Variable validate_type_schema : SchemaReference -> ToolSchemaRole -> bool.
Variable validate_instance : SchemaReference -> ToolSchemaRole -> BoundedJson -> result SchemaError unit.
Variable from_value : Value -> result SerdeError Input.
Variable to_value : Output -> result SerdeError Value.
Variable run_tool : ToolContext -> Input -> result (ToolError Details) (Output * ToolArtifacts).
Variable float_text : Z -> bytes.

(** [ToolAdapter::new]: whether each generated type schema matches its pinned
    contract; the error names the boundary. *)
Definition adapter_new (d : ToolDescriptor) : result ToolSchemaRole ToolDescriptor :=
  if negb (validate_type_schema (input_schema d) RoleInput) then Err RoleInput else
  if negb (validate_type_schema (output_schema d) RoleOutput) then Err RoleOutput else Ok d.

(** [call] up to the typed tool. *)
Definition adapter_prepare (d : ToolDescriptor) (context : ToolContext) (input : ToolInput) : result (fault (ToolError Details)) Input :=
  _ ← guard (input_validate_for input context d)
        (preparation_adapter_error context d (bytes_of "stateknot.tool.input_binding_invalid")
           (bytes_of "Tool input does not match the admitted invocation."));
  _ ← guard (validate_instance (input_schema d) RoleInput (input_value input))
        (preparation_adapter_error context d (bytes_of "stateknot.tool.input_schema_invalid")
           (bytes_of "Tool input does not satisfy its registered schema."));
  guard (from_value (bounded_value (input_value input)))
    (preparation_adapter_error context d (bytes_of "stateknot.tool.input_decode_failed")
       (bytes_of "Tool input could not be decoded into its registered type.")).

(** [call] from the output of the typed tool. *)
Definition adapter_finish (d : ToolDescriptor) (context : ToolContext) (output : Output) (artifacts : ToolArtifacts)
  : result (fault (ToolError Details)) ToolResult :=
  output_value ← guard (to_value output)
        (result_adapter_error context d (bytes_of "stateknot.tool.output_encode_failed")
           (bytes_of "Tool output could not be encoded from its registered type."));
  lim ← tool_output_json_limits d;
  bounded ← guard (try_from_value_with_limits float_text output_value lim)
        (result_adapter_error context d (bytes_of "stateknot.tool.output_limit_exceeded")
           (bytes_of "Tool output exceeded its registered resource limits."));
  _ ← guard (validate_instance (output_schema d) RoleOutput bounded)
        (result_adapter_error context d (bytes_of "stateknot.tool.output_schema_invalid")
           (bytes_of "Tool output does not satisfy its registered schema."));
  let result := result_for_invocation context d bounded artifacts in
  _ ← guard (result_validate_for result context d)
        (result_adapter_error context d (bytes_of "stateknot.tool.result_binding_invalid")
           (bytes_of "Tool result does not match the admitted invocation."));
  Ok result.

Definition adapter_call (d : ToolDescriptor) (context : ToolContext) (input : ToolInput)
  : result (fault (ToolError Details)) ToolResult :=
  typed_input ← adapter_prepare d context input;
  match run_tool context typed_input with
  | Ok (output, artifacts) => adapter_finish d context output artifacts
  | Err error =>
      match error_validate_for error context d with
      | Ok _ => Err (Fail error)
      | Err _ => raise (invalid_tool_error context d)
      end
  end.

End Adapter.

End ToolRuntime.
