(* ===== verification/GraphPlan.v ===== *)
(** Superstep planning (crates/stateknot-core/src/graph.rs,
    [GraphBarrierPlanner]): from a base checkpoint and the complete results of
    its ready nodes to the barrier that commits the successor checkpoint.

    The schema validator and the reducer are the caller's code.  [None] from
    one of them is a panic, which the source catches. *)

From Stdlib Require Import ZArith Lia List.
From stdpp Require Import prelude.
From S2P Require Import Prelude Ordered Json Time Checkpoint Graph GraphLaws Lease Barrier.

Open Scope Z_scope.
Import Superstep(Superstep).

Inductive GraphSchemaValidationError := SchemaRejected | SchemaUnavailable.
Inductive GraphReducerError := ReducerRejected | ReducerUnavailable | ReducerResourceLimit.
Inductive GraphValueKind := BaseState | NodeUpdate | TerminalOutput | ReducedState.

Inductive GraphBarrierPlanError :=
| GraphReferenceMismatch
| InitialReadySetMismatch
| SuperstepLimitReached (maximum actual : Superstep)
| BaseParallelismExceeded (maximum actual : Z)
| UnknownReadyNode (id : NodeId)
| ReducerReferenceMismatch
| ResultCountMismatch (expected actual : Z)
| DuplicateResultNode (id : NodeId)
| MissingResultNode (id : NodeId)
| ResultBaseMismatch (id : NodeId)
| NonRootActivation (id : NodeId)
| ActivationMismatch (id : NodeId)
| UpdateSchemaMismatch (id : NodeId)
| TerminalOutputSchemaMismatch (id : NodeId)
| SchemaValidation (kind : GraphValueKind) (id : option NodeId) (source : GraphSchemaValidationError)
| SchemaValidatorPanicked (kind : GraphValueKind) (id : option NodeId)
| UndeclaredControl (id : NodeId) (control : NodeControlKind)
| UndeclaredRoute (id : NodeId) (route : RouteId)
| TerminalNotExclusive
| AdvancingBarrierWithoutSuccessor
| SuccessorParallelismExceeded (maximum actual : Z)
| InvalidWaitBatch (source : NodeWaitsError)
| ReducerFailed (source : GraphReducerError)
| ReducerPanicked
| InvalidReducedState (source : CheckpointStateError)
| InvalidSuccessor (source : CheckpointWriteError)
| InvalidBarrier (source : CheckpointBarrierError).

Section Planner.
Context {Capability Schema InterruptRequest Bindings Join : Type} `{EqDecision Capability, EqDecision Schema}.
Abbreviation HeadT := (CheckpointHead Capability Schema).
Abbreviation CheckpointT := (Checkpoint Capability Schema).
Abbreviation GraphT := (CompiledGraph Capability Schema).
Abbreviation WaitT := (NodeWait InterruptRequest).
Abbreviation WaitsT := (NodeWaits InterruptRequest).
Abbreviation OutputT := (NodeTerminalOutput Schema).
Abbreviation ResultT := (PendingNodeResult Capability Schema InterruptRequest Bindings Join).
Abbreviation BarrierT := (CheckpointBarrier Capability Schema).

(** [GraphReducerInput]: a node and its update. *)
Definition GraphReducerInput : Type := NodeId * NodeStateUpdate Schema.

(** The traits [GraphSchemaValidator] and [GraphReducer]. *)
Record GraphCallbacks := mkCallbacks {
  validate : Schema -> Value -> option (result GraphSchemaValidationError unit);
  reducer_reference : GraphReducerReference Capability;
  reduce : Value -> list GraphReducerInput -> option (result GraphReducerError Value)
}.

Inductive GraphBarrierDisposition :=
| DContinue
| DWait (waits : WaitsT)
| DTerminal (output : OutputT).

Record GraphBarrierPlan := mkPlan { barrier : BarrierT; disposition : GraphBarrierDisposition }.

Record ResolvedControls := mkResolved {
  reducer_inputs : list GraphReducerInput;
  resolved_ready_nodes : ReadyNodes;
  resolved_disposition : GraphBarrierDisposition
}.

Context `{Canonical Value, Canonical (StateDigestWire Schema), Canonical (CheckpointIntentDigestWire Capability Schema),
  Canonical CheckpointDigestWire, Canonical ReadyNodeInputDigestWire, Canonical (CheckpointBarrierDigestWire Capability Schema)}.
Variable sha256 : bytes -> bytes.
Variable cb : GraphCallbacks.
Variable g : GraphT.

Definition validate_schema (schema : Schema) (value : Value) (kind : GraphValueKind) (id : option NodeId)
  : result GraphBarrierPlanError unit :=
  match validate cb schema value with
  | Some (Ok _) => Ok tt
  | Some (Err source) => Err (SchemaValidation kind id source)
  | None => Err (SchemaValidatorPanicked kind id)
  end.

Definition check_ready_node (_ : unit) (id : NodeId) : result GraphBarrierPlanError unit :=
  if is_none (graph_node g id) then Err (UnknownReadyNode id) else Ok tt.

Definition validate_checkpoint (base : CheckpointT) : result GraphBarrierPlanError unit :=
  if negb (bool_decide (graph base = reference g)) then Err GraphReferenceMismatch else
  if bool_decide (superstep base = Superstep.INITIAL) && negb (bool_decide (ready_nodes base = entry_nodes g))
  then Err InitialReadySetMismatch else
  if maximum_supersteps (limits g) <=? superstep base
  then Err (SuperstepLimitReached (maximum_supersteps (limits g)) (superstep base)) else
  if maximum_parallelism (limits g) <? Z.of_nat (length (ready_nodes base))
  then Err (BaseParallelismExceeded (maximum_parallelism (limits g)) (Z.of_nat (length (ready_nodes base)))) else
  try_fold check_ready_node tt (ready_nodes base).

Definition node_of (r : ResultT) : NodeId := act_node_id (activation (intent r)).

Definition order_step (base : CheckpointT) (ordered : list (NodeId * ResultT)) (r : ResultT)
  : result GraphBarrierPlanError (list (NodeId * ResultT)) :=
  let act := activation (intent r) in
  if negb (bool_decide (base_checkpoint act = head base)) then Err (ResultBaseMismatch (act_node_id act)) else
  if negb (is_root (graph_namespace act)) then Err (NonRootActivation (act_node_id act)) else
  expected ← map_err (fun _ => ActivationMismatch (act_node_id act)) (for_ready_root sha256 base (act_node_id act));
  if negb (bool_decide (act = expected)) then Err (ActivationMismatch (act_node_id act)) else
  match bt_get (act_node_id act) ordered with
  | Some _ => Err (DuplicateResultNode (act_node_id act))
  | None => Ok (bt_insert (act_node_id act) r ordered)
  end.

Definition check_result_present (ordered : list (NodeId * ResultT)) (_ : unit) (id : NodeId) : result GraphBarrierPlanError unit :=
  match bt_get id ordered with Some _ => Ok tt | None => Err (MissingResultNode id) end.

Definition ordered_results (base : CheckpointT) (results : list ResultT) : result GraphBarrierPlanError (list ResultT) :=
  if negb (length results =? length (ready_nodes base))%nat
  then Err (ResultCountMismatch (Z.of_nat (length (ready_nodes base))) (Z.of_nat (length results))) else
  ordered ← try_fold (order_step base) [] results;
  _ ← try_fold (check_result_present ordered) tt (ready_nodes base);
  Ok (into_values ordered).

(** The loop state of [resolve_controls]. *)
Record Controls := mkControls {
  inputs : list GraphReducerInput;
  next_nodes : list NodeId;
  pending_waits : list WaitT;
  terminal_output : option OutputT
}.

Definition take_update (id : NodeId) (r : ResultT) (st : Controls) : result GraphBarrierPlanError Controls :=
  match change_update (state_change (intent r)) with
  | None => Ok st
  | Some update =>
      if negb (bool_decide (update_schema_ref update = update_schema g)) then Err (UpdateSchemaMismatch id) else
      _ ← validate_schema (update_schema_ref update) (update_data update) NodeUpdate (Some id);
      Ok (mkControls (inputs st ++ [(id, update)]) (next_nodes st) (pending_waits st) (terminal_output st))
  end.

Definition take_control (id : NodeId) (node : GraphNode) (r : ResultT) (st : Controls) : result GraphBarrierPlanError Controls :=
  match control (intent r) with
  | Continue =>
      succ ← ok_or (continue_to node) (UndeclaredControl id KContinue);
      Ok (mkControls (inputs st) (bs_extend (next_nodes st) succ) (pending_waits st) (terminal_output st))
  | Route route =>
      r ← ok_or (routes_get route (routes node)) (UndeclaredRoute id route);
      Ok (mkControls (inputs st) (bs_extend (next_nodes st) (successors r)) (pending_waits st) (terminal_output st))
  | WaitFor waits =>
      succ ← ok_or (wait_to node) (UndeclaredControl id KWait);
      Ok (mkControls (inputs st) (bs_extend (next_nodes st) succ) (pending_waits st ++ waits) (terminal_output st))
  | Terminal output =>
      if negb (terminal node) then Err (UndeclaredControl id KTerminal) else
      if negb (bool_decide (output_schema_ref output = output_schema g)) then Err (TerminalOutputSchemaMismatch id) else
      _ ← validate_schema (output_schema_ref output) (output_data output) TerminalOutput (Some id);
      match terminal_output st with
      | Some _ => Err TerminalNotExclusive
      | None => Ok (mkControls (inputs st) (next_nodes st) (pending_waits st) (Some output))
      end
  end.

Definition control_step (st : Controls) (r : ResultT) : result GraphBarrierPlanError Controls :=
  node ← ok_or (graph_node g (node_of r)) (UnknownReadyNode (node_of r));
  st ← take_update (node_of r) r st;
  take_control (node_of r) node r st.

Definition resolve_disposition (result_count : nat) (next : list NodeId) (waits : list WaitT) (term : option OutputT)
  : result GraphBarrierPlanError GraphBarrierDisposition :=
  match term with
  | Some output =>
      if negb (result_count =? 1)%nat || negb (length waits =? 0)%nat || negb (length next =? 0)%nat
      then Err TerminalNotExclusive else Ok (DTerminal output)
  | None =>
      if (length waits =? 0)%nat then
        if (length next =? 0)%nat then Err AdvancingBarrierWithoutSuccessor else Ok DContinue
      else map_err InvalidWaitBatch (DWait <$> node_waits_try_new waits)
  end.

Definition resolve_controls (ordered : list ResultT) : result GraphBarrierPlanError ResolvedControls :=
  st ← try_fold control_step (mkControls [] [] [] None) ordered;
  disp ← resolve_disposition (length ordered) (next_nodes st) (pending_waits st) (terminal_output st);
  if maximum_parallelism (limits g) <? Z.of_nat (length (next_nodes st))
  then Err (SuccessorParallelismExceeded (maximum_parallelism (limits g)) (Z.of_nat (length (next_nodes st)))) else
  ready ← map_err (fun _ => SuccessorParallelismExceeded READY_MAX_LEN (READY_MAX_LEN + 1)) (ready_try_new (next_nodes st));
  Ok (mkResolved (inputs st) ready disp).

Definition reduce_state (base : CheckpointT) (ins : list GraphReducerInput) : result GraphBarrierPlanError (CheckpointState Schema) :=
  reduced ← (if (length ins =? 0)%nat then Ok (state_data (state base)) else
             match reduce cb (state_data (state base)) ins with
             | None => Err ReducerPanicked
             | Some r => map_err ReducerFailed r
             end);
  _ ← validate_schema (graph_state_schema g) reduced ReducedState None;
  map_err InvalidReducedState (state_new sha256 (graph_state_schema g) reduced).

Definition plan_barrier (base : CheckpointT) (results : list ResultT) (successor_id : CheckpointId)
  : result GraphBarrierPlanError GraphBarrierPlan :=
  _ ← validate_checkpoint base;
  if negb (bool_decide (reducer_reference cb = reducer g)) then Err ReducerReferenceMismatch else
  _ ← validate_schema (graph_state_schema g) (state_data (state base)) BaseState None;
  ordered ← ordered_results base results;
  resolved ← resolve_controls ordered;
  st ← reduce_state base (reducer_inputs resolved);
  succ ← map_err InvalidSuccessor (write_successor sha256 successor_id base st (resolved_ready_nodes resolved));
  bar ← map_err InvalidBarrier (barrier_new sha256 base succ (result_head <$> ordered));
  Ok (mkPlan bar (resolved_disposition resolved)).
End Planner.
Arguments GraphCallbacks : clear implicits.
Arguments GraphBarrierDisposition : clear implicits.
Arguments GraphBarrierPlan : clear implicits.

(** Theorems on superstep planning: what a plan contains, that it does not
    depend on the order in which results are loaded, and the invariants of
    every execution that commits planned barriers. *)

Module Planning.

Section Laws.
Context {Capability Schema InterruptRequest Bindings Join : Type} `{EqDecision Capability, EqDecision Schema}.
Context `{Canonical Value, Canonical (StateDigestWire Schema), Canonical (CheckpointIntentDigestWire Capability Schema),
  Canonical CheckpointDigestWire, Canonical ReadyNodeInputDigestWire, Canonical (CheckpointBarrierDigestWire Capability Schema),
  Canonical (GraphDefinitionDigestWire Capability Schema)}.
Variable sha256 : bytes -> bytes.

Abbreviation CheckpointT := (Checkpoint Capability Schema).
Abbreviation GraphT := (CompiledGraph Capability Schema).
Abbreviation ResultT := (PendingNodeResult Capability Schema InterruptRequest Bindings Join).
Abbreviation CallbacksT := (GraphCallbacks Capability Schema).

(** ** Ordering the results *)

Lemma order_step_Ok (base : CheckpointT) ordered (r : ResultT) o' :
  order_step sha256 base ordered r = Ok o' <->
  for_ready_root sha256 base (node_of r) = Ok (activation (intent r)) /\ node_of r ∉ ordered.*1 /\
  o' = bt_insert (node_of r) r ordered.
Proof.
  unfold order_step. fold (node_of r). split.
  - destruct (bool_decide_reflect (base_checkpoint (activation (intent r)) = head base)) as [Hbase|]; [simpl | done].
    destruct (is_root (graph_namespace (activation (intent r)))); [simpl | done].
    intros (e & He & Ho)%bind_Ok. apply map_err_Ok in He.
    destruct (bool_decide_reflect (activation (intent r) = e)) as [->|]; [simpl in Ho | done].
    destruct (bt_get (node_of r) ordered) eqn:E; [done |]. injection Ho as <-. by apply bt_get_None in E.
  - intros (He & Hn%bt_get_None & ->).
    assert (Hact : base_checkpoint (activation (intent r)) = head base /\ graph_namespace (activation (intent r)) = namespace_root).
    { unfold for_ready_root in He. destruct (bs_contains _ _); [simpl in He | done]. apply bind_Ok in He as (d & _ & [= <-]). done. }
    destruct Hact as [Hb Hroot]. rewrite (bool_decide_eq_true_2 _ Hb), Hroot. simpl. rewrite He. simpl.
    rewrite bool_decide_eq_true_2 by done. simpl. by rewrite Hn.
Qed.

Lemma order_fold_Ok (base : CheckpointT) (results : list ResultT) ordered o' :
  ksorted fst ordered ->
  try_fold (order_step sha256 base) ordered results = Ok o' <->
  Forall (fun r => for_ready_root sha256 base (node_of r) = Ok (activation (intent r))) results /\
  NoDup ((node_of <$> results) ++ ordered.*1) /\ ksorted fst o' /\ o' ≡ₚ ((fun r => (node_of r, r)) <$> results) ++ ordered.
Proof.
  revert ordered. induction results as [|r results IH]; intros ordered Hs; cbn [try_fold].
  - split; [intros [= <-]; split_and!; try done; by apply (ksorted_keys_NoDup fst) |].
    intros (_ & _ & Hs' & Hp). f_equal. apply (ksorted_ext fst); [done | done |]. intros x. by rewrite Hp.
  - rewrite bind_Ok, Forall_cons. setoid_rewrite order_step_Ok. split.
    + intros (o1 & (Hr & Hf & ->) & H'). apply IH in H' as (HF & Hn & Hs' & Hp); [| by apply bt_insert_sorted].
      rewrite (bt_insert_fresh_perm (node_of r) r ordered Hs Hf) in Hn, Hp. simpl in *.
      rewrite <- Permutation_middle in Hn, Hp. done.
    + intros ([Hr HF] & Hn & Hs' & Hp). simpl in Hn, Hp. pose proof Hn as Hn0. apply NoDup_cons in Hn0 as [Hf _].
      rewrite elem_of_app in Hf. exists (bt_insert (node_of r) r ordered). split; [split_and!; [done | naive_solver | done] |].
      apply IH; [by apply bt_insert_sorted |]. rewrite (bt_insert_fresh_perm (node_of r) r ordered Hs) by naive_solver.
      simpl. rewrite <- !Permutation_middle. done.
Qed.

Lemma ready_root_ready (base : CheckpointT) id a : for_ready_root sha256 base id = Ok a -> id ∈ ready_nodes base.
Proof. unfold for_ready_root. destruct (bs_contains id (ready_nodes base)) eqn:E; [intros _; by apply bs_contains_iff | done]. Qed.

(** The results are those of the ready nodes, one each, and come back in the
    order of their nodes. *)
Definition results_match (base : CheckpointT) (results : list ResultT) : Prop :=
  node_of <$> results ≡ₚ ready_nodes base /\
  Forall (fun r => for_ready_root sha256 base (node_of r) = Ok (activation (intent r))) results.

Lemma ordered_results_Ok (base : CheckpointT) (results o : list ResultT) :
  ready_wf (ready_nodes base) ->
  ordered_results sha256 base results = Ok o <-> results_match base results /\ o = sort_by_key node_of results.
Proof.
  intros [Hrs _]. unfold ordered_results, results_match. pose proof (sorted_set_NoDup _ Hrs) as Hrn.
  destruct (Nat.eqb_spec (length results) (length (ready_nodes base))) as [El|El]; simpl.
  2: { split; [done |]. intros [[Hp _] _]. apply Permutation_length in Hp. rewrite length_fmap in Hp. done. }
  rewrite bind_Ok. setoid_rewrite order_fold_Ok; [| constructor]. setoid_rewrite bind_Ok. setoid_rewrite app_nil_r.
  assert (Hval : forall ordered, ksorted fst ordered -> NoDup (node_of <$> results) ->
    ordered ≡ₚ (fun r => (node_of r, r)) <$> results -> into_values ordered = sort_by_key node_of results).
  { intros ordered Hs Hn Hp. assert (Hk : forall kr, kr ∈ ordered -> kr.1 = node_of kr.2).
    { intros kr. rewrite Hp. by intros (r & -> & _)%list_elem_of_fmap. }
    apply (ksorted_ext node_of); [| by apply sort_by_key_ksorted |].
    - clear Hp El. revert Hk. induction Hs as [|[k r] l HF Hs IH]; intros Hk; simpl; constructor.
      + apply Forall_forall. intros r' (kr & <- & Hin)%list_elem_of_In%in_map_iff. rewrite Forall_forall in HF.
        apply list_elem_of_In in Hin. pose proof (Hk (k, r) ltac:(by left)) as E1. simpl in E1.
        rewrite <- E1, <- (Hk kr ltac:(by right)). by apply HF.
      + apply IH. intros kr Hin. apply Hk. by right.
    - intros r. rewrite sort_by_key_perm. unfold into_values. rewrite list_elem_of_In, in_map_iff.
      setoid_rewrite <- list_elem_of_In. setoid_rewrite Hp. setoid_rewrite list_elem_of_fmap. split.
      + by intros (kr & <- & r0 & -> & Hin).
      + intros Hin. exists (node_of r, r). split; [done |]. by exists r. }
  split.
  - intros (ordered & (HF & Hn & Hs & Hp) & u & _ & [= <-]). split; [split; [| done] | by apply Hval].
    apply submseteq_length_Permutation; [| rewrite length_fmap; lia].
    apply NoDup_submseteq; [done |]. intros x (r & -> & Hin)%list_elem_of_fmap.
    rewrite Forall_forall in HF. by eapply ready_root_ready, HF.
  - intros [[Hp HF] ->].
    assert (Hn : NoDup (node_of <$> results)) by (by rewrite Hp).
    exists (sort_by_key fst ((fun r => (node_of r, r)) <$> results)).
    assert (Hs : ksorted fst (sort_by_key fst ((fun r => (node_of r, r)) <$> results))).
    { apply sort_by_key_ksorted. by rewrite <- list_fmap_compose. }
    split; [split_and!; try done; apply sort_by_key_perm |]. exists tt. split; [| f_equal; apply Hval; [done | done | apply sort_by_key_perm]].
    apply try_fold_checks, Forall_forall. intros id Hid. unfold check_result_present.
    destruct (bt_get id _) eqn:E; [done |]. apply bt_get_None in E. destruct E.
    rewrite sort_by_key_perm, <- list_fmap_compose. change (fst ∘ (fun r => (node_of r, r))) with (@node_of Capability Schema InterruptRequest Bindings Join). by rewrite Hp.
Qed.

(** ** Controls *)

(** The successors a node declares for a control outcome. *)
Definition declared (n : GraphNode) (c : NodeControl Schema InterruptRequest) : option ReadyNodes :=
  match c with
  | Continue => continue_to n
  | Route id => successors <$> routes_get id (routes n)
  | WaitFor _ => wait_to n
  | Terminal _ => if terminal n then Some [] else None
  end.

Definition update_of (r : ResultT) : option (NodeId * NodeStateUpdate Schema) :=
  (fun u => (node_of r, u)) <$> change_update (state_change (intent r)).
Definition waits_of (r : ResultT) : list (NodeWait InterruptRequest) :=
  match control (intent r) with WaitFor ws => ws | _ => [] end.
Definition output_of (r : ResultT) : option (NodeTerminalOutput Schema) :=
  match control (intent r) with Terminal o => Some o | _ => None end.

Lemma declared_successors n c s : declared n c = Some s -> s = [] \/ s ∈ successor_sets n.
Proof.
  unfold declared, successor_sets. destruct c as [|id|ws|o].
  - intros ->. right. simpl. by left.
  - intros (r & Hr & ->)%fmap_Some. right. unfold routes_get in Hr. apply bind_Some in Hr as (i & _ & Hi).
    apply list_elem_of_lookup_2 in Hi. apply elem_of_app. right. apply elem_of_app. left. by apply list_elem_of_fmap_2.
  - intros ->. right. apply elem_of_app. right. apply elem_of_app. right. simpl. by left.
  - destruct (terminal n); [| done]. intros [= <-]. by left.
Qed.

Lemma take_update_Ok (cb : CallbacksT) (g : GraphT) (r : ResultT) st st' :
  take_update cb g (node_of r) r st = Ok st' ->
  st' = mkControls (inputs st ++ option_list (update_of r)) (next_nodes st) (pending_waits st) (terminal_output st).
Proof.
  unfold take_update, update_of. destruct (change_update (state_change (intent r))) as [u|]; simpl.
  - destruct (bool_decide _); [simpl | done]. intros (? & _ & [= <-])%bind_Ok. done.
  - intros [= <-]. rewrite app_nil_r. by destruct st.
Qed.

Lemma take_control_Ok (cb : CallbacksT) (g : GraphT) n (r : ResultT) st st' :
  take_control cb g (node_of r) n r st = Ok st' ->
  exists s, declared n (control (intent r)) = Some s /\
    st' = mkControls (inputs st) (bs_extend (next_nodes st) s) (pending_waits st ++ waits_of r) (terminal_output st') /\
    option_list (terminal_output st') = option_list (terminal_output st) ++ option_list (output_of r).
Proof.
  unfold take_control, waits_of, output_of. destruct (control (intent r)) as [|id|ws|o]; simpl.
  - intros (s & Hs%ok_or_Ok & [= <-])%bind_Ok. exists s. rewrite Hs, !app_nil_r. done.
  - intros (rt & Hr%ok_or_Ok & [= <-])%bind_Ok. exists (successors rt). rewrite Hr, !app_nil_r. done.
  - intros (s & Hs%ok_or_Ok & [= <-])%bind_Ok. exists s. rewrite Hs, !app_nil_r. done.
  - destruct (terminal n); [simpl | done]. destruct (bool_decide _); [simpl | done].
    intros (? & _ & Ht)%bind_Ok. destruct (terminal_output st); [done |]. injection Ht as <-. exists []. by rewrite app_nil_r.
Qed.

Definition contributes (g : GraphT) (x : NodeId) (r : ResultT) : Prop :=
  exists n s, graph_node g (node_of r) = Some n /\ declared n (control (intent r)) = Some s /\ x ∈ s.

Lemma control_fold_Ok (cb : CallbacksT) (g : GraphT) (rs : list ResultT) st st' :
  ksorted (fun k => k) (next_nodes st) ->
  try_fold (control_step cb g) st rs = Ok st' ->
  inputs st' = inputs st ++ omap update_of rs /\
  pending_waits st' = pending_waits st ++ concat (waits_of <$> rs) /\
  option_list (terminal_output st') = option_list (terminal_output st) ++ omap output_of rs /\
  ksorted (fun k => k) (next_nodes st') /\
  (forall x, x ∈ next_nodes st' <-> x ∈ next_nodes st \/ exists r, r ∈ rs /\ contributes g x r) /\
  Forall (fun r => exists n s, graph_node g (node_of r) = Some n /\ declared n (control (intent r)) = Some s) rs.
Proof.
  revert st. induction rs as [|r rs IH]; intros st Hs Hf; cbn [try_fold] in Hf.
  { injection Hf as <-. simpl. rewrite !app_nil_r. split_and!; try done.
    intros x. split; [by left | intros [? | (r & ?%not_elem_of_nil & _)]; done]. }
  apply bind_Ok in Hf as (st1 & Hstep & Hf). unfold control_step in Hstep.
  apply bind_Ok in Hstep as (n & Hn%ok_or_Ok & Hstep). apply bind_Ok in Hstep as (st0 & Hup%take_update_Ok & Hstep).
  apply take_control_Ok in Hstep as (s & Hd & E1 & Ht). rewrite E1 in Hf. clear E1. subst st0. simpl in *.
  apply IH in Hf as (Hi & Hw & Hto & Hs' & Hx & HF); [| by apply bs_extend_sorted]. simpl in *.
  rewrite Hi, Hw, Hto, Ht, <- !app_assoc. split_and!; try done.
  - by destruct (update_of r).
  - by destruct (output_of r).
  - intros x. rewrite Hx, bs_extend_elem. setoid_rewrite elem_of_cons. split.
    + intros [[? | Hxs] | (r' & Hr' & Hc)]; [by left | right; exists r; split; [by left | by exists n, s] | right; exists r'; by split; [right |]].
    + intros [? | (r' & [-> | Hr'] & Hc)]; [by do 2 left | left; right | right; by exists r'].
      destruct Hc as (n' & s' & Hn' & Hd' & Hxs). assert (n' = n) as -> by congruence. by assert (s' = s) as <- by congruence.
  - constructor; [by exists n, s | done].
Qed.

Lemma node_waits_fold_Ok (ws : list (NodeWait InterruptRequest)) acc ws' :
  NoDup (node_wait_identity <$> acc) -> Z.of_nat (length acc) <= WAITS_MAX_LEN ->
  try_fold node_waits_step acc ws = Ok ws' ->
  ws' = acc ++ ws /\ NoDup (node_wait_identity <$> ws') /\ Z.of_nat (length ws') <= WAITS_MAX_LEN.
Proof.
  revert acc. induction ws as [|w ws IH]; intros acc Hn Hl Hf; cbn [try_fold] in Hf.
  { injection Hf as <-. by rewrite app_nil_r. }
  apply bind_Ok in Hf as (a1 & Hstep & Hf). unfold node_waits_step in Hstep.
  destruct (Z.eqb_spec (Z.of_nat (length acc)) WAITS_MAX_LEN); [done |].
  destruct (existsb _ acc) eqn:E; [done |]. injection Hstep as <-. apply IH in Hf as (-> & Hn' & Hl').
  - by rewrite <- app_assoc in *.
  - rewrite fmap_app, NoDup_app. split_and!; [done | | apply NoDup_singleton].
    intros x (a & -> & Ha)%list_elem_of_fmap Hx. simpl in Hx. apply list_elem_of_singleton in Hx.
    assert (existsb (fun existing => node_wait_identity existing =? node_wait_identity w) acc = true); [| congruence].
    apply existsb_exists. exists a. split; [by apply list_elem_of_In |]. by apply Z.eqb_eq.
  - rewrite length_app. simpl. lia.
Qed.

(** ** Plans *)

Definition disposition_ok (d : GraphBarrierDisposition Schema InterruptRequest) (ordered : list ResultT) (ready : ReadyNodes) : Prop :=
  match d with
  | DTerminal o => ready = [] /\ exists r, ordered = [r] /\ control (intent r) = Terminal o
  | DWait ws => ws = concat (waits_of <$> ordered) /\ ws <> [] /\ NoDup (node_wait_identity <$> ws) /\
      Z.of_nat (length ws) <= WAITS_MAX_LEN /\ omap output_of ordered = []
  | DContinue => ready <> [] /\ concat (waits_of <$> ordered) = [] /\ omap output_of ordered = []
  end.

Lemma resolve_disposition_Ok (ordered : list ResultT) next term d :
  option_list term = omap output_of ordered ->
  resolve_disposition (length ordered) next (concat (waits_of <$> ordered)) term = Ok d -> disposition_ok d ordered next.
Proof.
  unfold resolve_disposition. destruct term as [o|]; simpl; intros Ht.
  - destruct (Nat.eqb_spec (length ordered) 1) as [E1|]; [| done].
    destruct (Nat.eqb_spec (length (concat (waits_of <$> ordered))) 0); [| done].
    destruct (Nat.eqb_spec (length next) 0) as [E3|]; [| done]. simpl. intros [= <-]. simpl.
    split; [by apply nil_length_inv |]. destruct ordered as [|r [|? ?]]; try done. exists r. split; [done |].
    simpl in Ht. unfold output_of in Ht. destruct (control (intent r)); try done. by injection Ht as <-.
  - destruct (Nat.eqb_spec (length (concat (waits_of <$> ordered))) 0) as [E1|E1].
    + destruct (Nat.eqb_spec (length next) 0) as [|E2]; [done |]. intros [= <-]. simpl.
      split_and!; [by intros -> | by apply nil_length_inv | done].
    + intros Hd%map_err_Ok. unfold node_waits_try_new in Hd.
      destruct (try_fold node_waits_step [] (concat (waits_of <$> ordered))) as [ws|] eqn:Ef; [| done]. simpl in Hd.
      destruct (Nat.eqb_spec (length ws) 0) as [|E2]; [done |]. injection Hd as <-.
      apply node_waits_fold_Ok in Ef as (E & Hn & Hl); [| constructor | done]. simpl in E. simpl.
      split_and!; [done | by intros -> | done | done | done].
Qed.

Definition new_state (cb : CallbacksT) (base : CheckpointT) (updates : list (NodeId * NodeStateUpdate Schema)) : option Value :=
  match updates with
  | [] => Some (state_data (state base))
  | _ => match reduce cb (state_data (state base)) updates with Some (Ok v) => Some v | _ => None end
  end.

Lemma reduce_state_Ok cb (g : GraphT) (base : CheckpointT) ups st :
  reduce_state sha256 cb g base ups = Ok st ->
  state_new sha256 (graph_state_schema g) (state_data st) = Ok st /\ new_state cb base ups = Some (state_data st).
Proof.
  unfold reduce_state, new_state. intros (v & Hv & Hs)%bind_Ok. apply bind_Ok in Hs as (u & _ & Hs%map_err_Ok).
  assert (Ed : state_data st = v) by (unfold state_new in Hs; apply bind_Ok in Hs as (d & _ & [= <-]); done).
  rewrite Ed. split; [done |]. destruct ups as [|up ups]; simpl in Hv; [by injection Hv as -> |].
  destruct (reduce cb _ _) as [r|]; [| done]. apply map_err_Ok in Hv as ->. done.
Qed.

Lemma barrier_new_successor (base : CheckpointT) succ (heads : list (PendingNodeResultHead Capability Schema)) bar :
  barrier_new sha256 base succ heads = Ok bar -> successor bar = succ.
Proof.
  unfold barrier_new, barrier_build. intros (hs & _ & Hb)%bind_Ok. apply bind_Ok in Hb as (u & _ & Hb).
  apply bind_Ok in Hb as (c & _ & Hb). by injection Hb as <-.
Qed.

Lemma validate_checkpoint_Ok (g : GraphT) (base : CheckpointT) u :
  validate_checkpoint g base = Ok u ->
  graph base = reference g /\ superstep base < maximum_supersteps (limits g) /\
  Z.of_nat (length (ready_nodes base)) <= maximum_parallelism (limits g) /\
  (forall id, id ∈ ready_nodes base -> is_Some (graph_node g id)).
Proof.
  unfold validate_checkpoint. destruct (bool_decide_reflect (graph base = reference g)); [simpl | done].
  destruct (_ && _); [done |]. destruct (Z.leb_spec (maximum_supersteps (limits g)) (superstep base)); [done |].
  destruct (Z.ltb_spec (maximum_parallelism (limits g)) (Z.of_nat (length (ready_nodes base)))); [done |].
  rewrite try_fold_checks, Forall_forall. intros Hall. split_and!; try done. intros id Hid.
  specialize (Hall id Hid). unfold check_ready_node in Hall. by destruct (graph_node g id).
Qed.

(** The parts of a plan. *)
Lemma plan_parts cb (g : GraphT) (base : CheckpointT) (results : list ResultT) id p :
  ready_wf (ready_nodes base) -> plan_barrier sha256 cb g base results id = Ok p ->
  exists rc st, validate_checkpoint g base = Ok tt /\ results_match base results /\
    resolve_controls cb g (sort_by_key node_of results) = Ok rc /\
    reduce_state sha256 cb g base (reducer_inputs rc) = Ok st /\
    write_successor sha256 id base st (resolved_ready_nodes rc) = Ok (successor (barrier p)) /\
    disposition p = resolved_disposition rc.
Proof.
  intros Hwf. unfold plan_barrier. intros ([] & Hv & Hp)%bind_Ok. destruct (bool_decide _); [simpl in Hp | done].
  apply bind_Ok in Hp as ([] & _ & Hp). apply bind_Ok in Hp as (o & [Ho ->]%ordered_results_Ok & Hp); [| done].
  apply bind_Ok in Hp as (rc & Hrc & Hp). apply bind_Ok in Hp as (st & Hst & Hp).
  apply bind_Ok in Hp as (succ & Hs%map_err_Ok & Hp). apply bind_Ok in Hp as (bar & Hb%map_err_Ok%barrier_new_successor & Hp).
  injection Hp as <-. exists rc, st. simpl. rewrite Hb. by split_and!.
Qed.

Lemma plan_perm cb (g : GraphT) (base : CheckpointT) (results results' : list ResultT) id p :
  ready_wf (ready_nodes base) -> results ≡ₚ results' ->
  plan_barrier sha256 cb g base results id = Ok p -> plan_barrier sha256 cb g base results' id = Ok p.
Proof.
  intros Hwf Hp. unfold plan_barrier. intros ([] & -> & Hpl)%bind_Ok. simpl. destruct (bool_decide _); [simpl in * | done].
  apply bind_Ok in Hpl as ([] & -> & Hpl). simpl. apply bind_Ok in Hpl as (o & [[Hm HF] ->]%ordered_results_Ok & Hpl); [| done].
  assert (Ho : ordered_results sha256 base results' = Ok (sort_by_key node_of results)).
  { apply ordered_results_Ok; [done |]. split; [split; by rewrite <- Hp |]. apply sort_by_key_unique; [| done].
    rewrite Hm. by apply sorted_set_NoDup, Hwf. }
  by rewrite Ho.
Qed.

Lemma contributed_known (g : GraphT) x (r : ResultT) :
  Compile.restores sha256 g -> contributes g x r -> is_Some (graph_node g x).
Proof.
  intros [(_ & (_ & _ & _ & Hsucc) & _) Hs]%Compile.restores_facts (n & s & Hn & Hd & Hx).
  assert (Hin : n ∈ nodes g).
  { unfold graph_node in Hn. apply bind_Some in Hn as (i & _ & Hi). by eapply list_elem_of_lookup_2. }
  destruct (declared_successors n _ s Hd) as [-> | Hss]; [by apply not_elem_of_nil in Hx |].
  destruct (Hsucc n s Hin Hss) as [_ Hall]. apply Hall in Hx as (n' & -> & Hn')%list_elem_of_fmap.
  rewrite Compile.graph_node_find by done. exists n'. by apply find_key_elem.
Qed.

Lemma plan_facts cb (g : GraphT) (base : CheckpointT) (results : list ResultT) id p :
  ready_wf (ready_nodes base) -> plan_barrier sha256 cb g base results id = Ok p ->
  let ordered := sort_by_key node_of results in
  let succ := successor (barrier p) in
  graph base = reference g /\ superstep base < maximum_supersteps (limits g) /\
  node_of <$> results ≡ₚ ready_nodes base /\
  (exists st, state_new sha256 (graph_state_schema g) (state_data st) = Ok st /\
     new_state cb base (omap update_of ordered) = Some (state_data st) /\
     write_successor sha256 id base st (write_ready_nodes succ) = Ok succ /\ write_state succ = st) /\
  ready_wf (write_ready_nodes succ) /\ Z.of_nat (length (write_ready_nodes succ)) <= maximum_parallelism (limits g) /\
  (forall x, x ∈ write_ready_nodes succ <-> exists r, r ∈ results /\ contributes g x r) /\
  disposition_ok (disposition p) ordered (write_ready_nodes succ).
Proof.
  intros Hwf Hp ordered succ.
  destruct (plan_parts cb g base results id p Hwf Hp) as (rc & st & Hv & [Hm _] & Hrc & Hst & Hw & Hd).
  apply validate_checkpoint_Ok in Hv as (Hg & Hss & _ & _). apply reduce_state_Ok in Hst as [Hnew Hred].
  unfold resolve_controls in Hrc. apply bind_Ok in Hrc as (c & Hc & Hrc). apply bind_Ok in Hrc as (d & Hdisp & Hrc).
  destruct (Z.ltb_spec (maximum_parallelism (limits g)) (Z.of_nat (length (next_nodes c)))) as [|Hl]; [done |].
  apply bind_Ok in Hrc as (ready & Hready%map_err_Ok & Hrc). injection Hrc as <-. simpl in *.
  apply control_fold_Ok in Hc as (Hi & Hws & Ht & Hs & Hx & _); [| constructor]. simpl in *.
  assert (ready = next_nodes c) as ->.
  { apply ready_try_new_Ok in Hready as (_ & _ & [Hr _] & Hpr). apply sorted_set_ext; [done | done |]. intros x. by rewrite Hpr. }
  assert (Ew : write_ready_nodes succ = next_nodes c /\ write_state succ = st).
  { unfold write_successor in Hw. apply bind_Ok in Hw as (step & _ & Hw). unfold write_build in Hw.
    apply bind_Ok in Hw as (u & _ & Hw). apply bind_Ok in Hw as (dg & _ & Hw). simpl in Hw. unfold succ. by injection Hw as <-. }
  destruct Ew as [Ew Es]. rewrite Hws in Hdisp. rewrite Hi in Hred. rewrite Ew, Hd. simpl. split_and!; try done.
  - exists st. by split_and!.
  - by apply ready_try_new_Ok in Hready as (_ & _ & Hr & _).
  - intros x. rewrite Hx. setoid_rewrite sort_by_key_perm. split; [intros [?%not_elem_of_nil | ?]; done | by right].
  - by eapply resolve_disposition_Ok.
Qed.

(** C23: A plan is exactly what the graph declares.  When [plan_barrier]
    accepts, the results are one for each ready node of the base checkpoint;
    the successor names the base as its parent, at the next superstep, within
    the superstep limit; its ready set is exactly the union of the successor
    sets the nodes declare for the controls they chose, all of them nodes of
    the graph and within the parallelism; its state is the reducer's answer on
    the updates in node order, or unchanged when there are none; the
    disposition is terminal only for a single result and then nothing is
    ready, waits carry all requested waits in node order with distinct
    identities, and otherwise something is ready.  Loading the results in
    another order gives the same plan. *)
Theorem plan_barrier_exact (cb : CallbacksT) (g : GraphT) (base : CheckpointT) (results : list ResultT) (id : CheckpointId)
    (p : GraphBarrierPlan Capability Schema InterruptRequest)
    (Hg : Compile.restores sha256 g) (Hb : ready_wf (ready_nodes base))
    (Hp : plan_barrier sha256 cb g base results id = Ok p) :
  let ordered := sort_by_key node_of results in
  let succ := successor (barrier p) in
  node_of <$> ordered = ready_nodes base /\
  write_parent succ = Some (head base) /\ write_superstep succ = superstep base + 1 /\
  superstep base + 1 <= maximum_supersteps (limits g) /\
  Z.of_nat (length (write_ready_nodes succ)) <= maximum_parallelism (limits g) /\
  (forall x, x ∈ write_ready_nodes succ <-> exists r, r ∈ results /\ contributes g x r) /\
  (forall x, x ∈ write_ready_nodes succ -> is_Some (graph_node g x)) /\
  new_state cb base (omap update_of ordered) = Some (state_data (write_state succ)) /\
  disposition_ok (disposition p) ordered (write_ready_nodes succ) /\
  (forall results', results ≡ₚ results' -> plan_barrier sha256 cb g base results' id = Ok p).
Proof.
  intros ordered succ. destruct (plan_facts cb g base results id p Hb Hp)
    as (_ & Hss & Hm & (st & _ & Hnew & Hw & Es) & _ & Hl & Hx & Hd).
  fold ordered in Hnew, Hd. fold succ in Hw, Es, Hl, Hx, Hd.
  assert (Hwr : write_parent succ = Some (head base) /\ write_superstep succ = superstep base + 1).
  { unfold write_successor in Hw. apply bind_Ok in Hw as (step & Hstep%ok_or_Ok & Hw). unfold write_build in Hw.
    apply bind_Ok in Hw as (u & _ & Hw). apply bind_Ok in Hw as (dg & _ & Hw). simpl in Hw. injection Hw as E. rewrite <- E. simpl.
    unfold Superstep.checked_next in Hstep. destruct (_ =? _); [done |]. by injection Hstep as <-. }
  assert (Hn : NoDup (node_of <$> results)) by (rewrite Hm; by apply sorted_set_NoDup, Hb).
  split_and!; try apply Hwr; try done; try lia.
  - apply sorted_set_ext; [| apply Hb |].
    + pose proof (sort_by_key_ksorted node_of results Hn) as Hs. fold ordered in Hs. clear -Hs.
      induction Hs as [|r l HF Hs IH]; simpl; constructor; [| done]. rewrite Forall_forall in HF.
      apply Forall_forall. intros x (r' & -> & Hr')%list_elem_of_fmap. by apply HF.
    + intros x. unfold ordered. by rewrite sort_by_key_perm, Hm.
  - intros x (r & _ & Hc)%Hx. by eapply contributed_known.
  - by rewrite Es.
  - intros results' Hperm. by eapply plan_perm.
Qed.

(** ** Executions *)

(** A superstep: some results and some callbacks give a plan, and its
    successor is committed at some journal head. *)
Definition superstep_of (g : GraphT) (c c' : CheckpointT) : Prop :=
  exists cb (results : list ResultT) id p journal,
    plan_barrier sha256 cb g c results id = Ok p /\ checkpoint_commit sha256 (successor (barrier p)) journal = Ok c'.

Definition starts (g : GraphT) (c : CheckpointT) : Prop :=
  Lineage.restored sha256 c /\ superstep c = Superstep.INITIAL /\ graph c = reference g /\ ready_nodes c = entry_nodes g.

(** The checkpoints of an execution, newest first. *)
Inductive execution (g : GraphT) : list CheckpointT -> Prop :=
| execution_start c : starts g c -> execution g [c]
| execution_step c c' cs : execution g (c :: cs) -> superstep_of g c c' -> execution g (c' :: c :: cs).

Definition checkpoint_ok (g : GraphT) (c : CheckpointT) : Prop :=
  Lineage.restored sha256 c /\ graph c = reference g /\ ready_wf (ready_nodes c) /\
  Z.of_nat (length (ready_nodes c)) <= maximum_parallelism (limits g) /\
  (forall id, id ∈ ready_nodes c -> is_Some (graph_node g id)).

Lemma starts_ok (g : GraphT) c :
  Compile.restores sha256 g -> ready_wf (entry_nodes g) -> starts g c -> checkpoint_ok g c /\ parent c = None.
Proof.
  intros Hg He (Hr & Hs & Hgr & Hn). apply Compile.restores_facts in Hg as [(_ & (_ & Hl & Hent & _) & _) Hsort].
  unfold checkpoint_ok. rewrite Hn. split_and!; try done.
  - intros id (n & -> & Hin)%Hent%list_elem_of_fmap. rewrite Compile.graph_node_find by done. exists n. by apply find_key_elem.
  - apply Lineage.restored_facts in Hr as (Hsh & _). unfold Lineage.shape_ok in Hsh. destruct (parent c); [| done].
    destruct Hsh as (_ & Hne & _). done.
Qed.

Lemma superstep_ok (g : GraphT) c c' :
  Compile.restores sha256 g -> checkpoint_ok g c -> superstep_of g c c' ->
  checkpoint_ok g c' /\ parent c' = Some (head c) /\ superstep c' = superstep c + 1 /\
  superstep c' <= maximum_supersteps (limits g) /\ ready_nodes c <> [].
Proof.
  intros Hg (Hr & Hgr & Hwf & _) (cb & results & id & p & journal & Hp & Hc).
  destruct (plan_facts cb g c results id p Hwf Hp) as (_ & Hss & Hm & (st & Hst & _ & Hw & _) & Hwf' & Hl & Hx & Hd).
  unfold write_successor in Hw. apply bind_Ok in Hw as (step & Hstep%ok_or_Ok & Hw).
  destruct (Lineage.commit_restored _ _ _ _ _ _ _ _ _ _ _ _ _ _ Hst Hw Hc) as (Hr' & Ei & _).
  unfold write_build in Hw. apply bind_Ok in Hw as (u & _ & Hw). apply bind_Ok in Hw as (dg & _ & Hw). simpl in Hw. injection Hw as E.
  rewrite <- Ei in E, Hwf', Hl, Hx, Hd. unfold write_intent in E. simpl in Hwf', Hl, Hx, Hd.
  pose proof (f_equal write_superstep E) as Est. pose proof (f_equal write_graph E) as Egr.
  pose proof (f_equal write_parent E) as Epar. simpl in Est, Egr, Epar. clear E.
  assert (Estep : superstep c' = superstep c + 1).
  { unfold Superstep.checked_next in Hstep. destruct (_ =? _); [done |]. injection Hstep as Hstep. lia. }
  unfold checkpoint_ok. rewrite <- Egr, <- Epar. split_and!; try done; try lia.
  - intros x (r & _ & Hcon)%Hx. by eapply contributed_known.
  - intros Hnil. rewrite Hnil in Hm. apply Permutation_nil_r, fmap_nil_inv in Hm. subst results.
    destruct (disposition p); simpl in Hd.
    + destruct Hd as [Hne _]. apply Hne. destruct (ready_nodes c') as [|x l]; [done |].
      destruct (proj1 (Hx x) ltac:(by left)) as (r & ?%not_elem_of_nil & _). done.
    + by destruct Hd as (-> & ? & _).
    + by destruct Hd as (_ & ? & ? & _).
Qed.

Lemma execution_invariant (g : GraphT) cs :
  Compile.restores sha256 g -> ready_wf (entry_nodes g) -> execution g cs ->
  exists c rest, cs = c :: rest /\ Forall (checkpoint_ok g) cs /\ superstep c = Z.of_nat (length rest) /\
    (rest <> [] -> superstep c <= maximum_supersteps (limits g)) /\
    Lineage.verify_all (from_tip (head c)) cs = Ok (mkVerifier None).
Proof.
  intros Hg He. induction 1 as [c Hst | c c' cs Hex IH Hstep].
  - destruct (starts_ok g c Hg He Hst) as [Hok Hpar]. exists c, []. split_and!; try done; [by constructor | apply Hst |].
    apply Lineage.verify_all_cons. by rewrite Hpar.
  - destruct IH as (c0 & rest & E & HF & Hs & Hmax & Hver). injection E as <- <-.
    destruct (superstep_ok g c c' Hg) as (Hok & Hpar & Hs' & Hm & _); [by apply Forall_cons in HF as [? _] | done |].
    exists c', (c :: cs). split_and!; try done; [by constructor | simpl; lia |].
    apply Lineage.verify_all_cons. split; [done |]. by rewrite Hpar.
Qed.

(** C24: Executions are bounded, stay inside the graph and leave a verifiable
    lineage.  For every sequence of planned and committed supersteps from an
    initial checkpoint of a compiled graph, whatever results and callbacks
    were used: the newest checkpoint's superstep is the number of supersteps
    made, which never exceeds the graph's limit; every checkpoint restores,
    belongs to the graph, and has only nodes of the graph ready, at most the
    parallelism; the lineage verifier accepts the whole sequence from the
    newest head; and no superstep leaves a checkpoint with nothing ready or
    one at the limit. *)
Theorem execution_bounded_and_verifiable (g : GraphT) (c : CheckpointT) (rest : list CheckpointT)
    (Hg : Compile.restores sha256 g) (He : ready_wf (entry_nodes g)) (Hm : 0 < maximum_supersteps (limits g))
    (Hex : execution g (c :: rest)) :
  superstep c = Z.of_nat (length rest) /\ Z.of_nat (length rest) <= maximum_supersteps (limits g) /\
  Forall (checkpoint_ok g) (c :: rest) /\
  (exists v, Lineage.verify_all (from_tip (head c)) (c :: rest) = Ok v /\ is_complete v = true) /\
  (forall c', superstep_of g c c' -> ready_nodes c <> [] /\ Z.of_nat (length rest) < maximum_supersteps (limits g)).
Proof.
  destruct (execution_invariant g (c :: rest) Hg He Hex) as (c0 & rest0 & E & HF & Hs & Hmax & Hver). injection E as <- <-.
  split_and!; try done.
  - destruct rest; [simpl; lia |]. rewrite <- Hs. by apply Hmax.
  - by eexists.
  - intros c' Hstep. destruct (superstep_ok g c c' Hg) as (_ & _ & Hs' & Hm' & Hne); [by apply Forall_cons in HF as [? _] | done |].
    split; [done | lia].
Qed.
End Laws.

(** ** A two-node graph executed once *)

#[local] Instance unit_canonical {T} : Canonical T := fun _ => Some [].
Definition sample_sha (b : bytes) : bytes := [Z.of_nat (length b)].

Definition node_a : NodeId := bytes_of "a".
Definition node_b : NodeId := bytes_of "b".
Definition sample_nodes : list GraphNode :=
  [mkNode node_b None [] None true; mkNode node_a (Some [node_b]) [] None false].

Definition sample_graph : CompiledGraph Z Z :=
  mkGraph 1 2 3 4 5 (mkReducerReference 6 [7]) [node_a] (rev sample_nodes) (mkLimits 3 2) None (sample_sha []).

Lemma sample_graph_restores : Compile.restores sample_sha sample_graph.
Proof. vm_compute. reflexivity. Qed.

Definition sample_callbacks : GraphCallbacks Z Z :=
  mkCallbacks (fun _ _ => Some (Ok tt)) (mkReducerReference 6 [7]) (fun v ups => Some (Ok (Num (NInt (Z.of_nat (length ups)))))).

Definition result_or {E A} (d : A) (r : result E A) : A := match r with Ok a => a | Err _ => d end.

Definition sample_journal (n : Z) : JournalHead := mkJournalHead [97] 5 n n (10 * n) [n].
Definition empty_state : CheckpointState Z := mkState 3 Null [].
Definition empty_write : CheckpointWrite Z Z := mkWrite [] 0 0 0 (reference sample_graph) empty_state [] None [].
Definition empty_checkpoint : Checkpoint Z Z :=
  mkCheckpoint [] 0 0 0 (reference sample_graph) empty_state [] None [] (sample_journal 0) [].

Definition sample_state : CheckpointState Z := Eval vm_compute in result_or empty_state (state_new sample_sha 3 Null).
Definition sample_start : Checkpoint Z Z := Eval vm_compute in
  result_or empty_checkpoint (checkpoint_commit sample_sha
    (result_or empty_write (write_initial sample_sha [97] 5 100 (reference sample_graph) sample_state [node_a])) (sample_journal 1)).

Definition sample_activation : NodeActivation Z Z := Eval vm_compute in
  result_or (mkActivation (head sample_start) [] [] []) (for_ready_root sample_sha sample_start node_a).
Definition sample_result : PendingNodeResult Z Z unit unit unit :=
  mkResult (mkResultIntent sample_activation (Update (mkUpdate 4 (Bool true) [])) Continue tt None [])
    (RunLease.mkFence [97] 5 9 1) (sample_journal 2) [].

Definition empty_plan : GraphBarrierPlan Z Z unit :=
  mkPlan (mkBarrier (head sample_start) [] [] empty_write []) DContinue.
Definition sample_plan : GraphBarrierPlan Z Z unit := Eval vm_compute in
  result_or empty_plan (plan_barrier sample_sha sample_callbacks sample_graph sample_start [sample_result] 101).
Definition sample_second : Checkpoint Z Z := Eval vm_compute in
  result_or empty_checkpoint (checkpoint_commit sample_sha (successor (barrier sample_plan)) (sample_journal 3)).

Lemma sample_planned : plan_barrier sample_sha sample_callbacks sample_graph sample_start [sample_result] 101 = Ok sample_plan.
Proof. vm_compute. reflexivity. Qed.

Lemma ready_single (n : NodeId) : ready_wf [n].
Proof. split; [repeat constructor | done]. Qed.

Lemma plan_barrier_exact_witness :
  write_ready_nodes (successor (barrier sample_plan)) = [node_b] /\
  new_state sample_callbacks sample_start (omap update_of [sample_result]) = Some (Num (NInt 1)) /\
  is_Some (graph_node sample_graph node_b).
Proof.
  destruct (plan_barrier_exact sample_sha sample_callbacks sample_graph sample_start [sample_result] 101 sample_plan
    sample_graph_restores (ready_single node_a) sample_planned) as (_ & _ & _ & _ & _ & _ & Hk & Hs & _).
  split; [reflexivity |]. split; [exact Hs |]. apply Hk. left.
Defined.

Lemma sample_execution :
  execution (InterruptRequest := unit) (Bindings := unit) (Join := unit) sample_sha sample_graph [sample_second; sample_start].
Proof.
  apply execution_step; [apply execution_start; repeat split; vm_compute; reflexivity |].
  exists sample_callbacks, [sample_result], 101, sample_plan, (sample_journal 3). split; [apply sample_planned |].
  vm_compute. reflexivity.
Qed.

Lemma execution_bounded_and_verifiable_witness :
  superstep sample_second = 1 /\ Forall (checkpoint_ok sample_sha sample_graph) [sample_second; sample_start].
Proof.
  destruct (execution_bounded_and_verifiable (InterruptRequest := unit) (Bindings := unit) (Join := unit) sample_sha sample_graph
    sample_second [sample_start] sample_graph_restores (ready_single node_a) ltac:(reflexivity) sample_execution) as (Hs & _ & HF & _).
  split; [exact Hs | exact HF].
Defined.
End Planning.
