(* ===== verification/NodeAttempt.v ===== *)
(** Physical node attempts (crates/stateknot-core/src/node_attempt.rs): the
    start a worker commits before it runs a node, the completion it appends,
    and the verifier of the attempt history of one activation.

    Failure details are carried only and are a type parameter. *)

From Stdlib Require Import ZArith Lia List.
From stdpp Require Import prelude.
From S2P Require Import Prelude Ordered Json Time Costs Budget Checkpoint Run Lease Barrier.

Open Scope Z_scope.
Import Timestamp(Timestamp) FencingEpoch(FencingEpoch).

Module NodeAttempt.

Definition AttemptId := Z.

Definition ACTIVATION_DIGEST_DOMAIN : bytes := bytes_of "stateknot-node-activation-v1" ++ [0].
Definition START_DIGEST_DOMAIN : bytes := bytes_of "stateknot-node-attempt-start-v1" ++ [0].
Definition COMPLETION_DIGEST_DOMAIN : bytes := bytes_of "stateknot-node-attempt-completion-v1" ++ [0].

Inductive NodeAttemptStatus := Executing | Succeeded | Failed.

#[global] Instance NodeAttemptStatus_eq_dec : EqDecision NodeAttemptStatus.
Proof. solve_decision. Defined.

Inductive NodeAttemptHistoryError :=
| AttemptIdReused (id : AttemptId)
| ActivationMismatch
| JournalNotAfterPrevious
| HistoryClockRegression
| FenceEpochRegression
| WorkerChangedWithinEpoch
| WorkerReusedAcrossEpoch
| UnfinishedAttemptNotSuperseded
| PreviousAttemptSucceeded
| RetryNotAuthorized (advice : RetryAdvice)
| RetryDelayNotElapsed (delay_millis : Z) (failed_at started_at : Timestamp).

Inductive NodeAttemptIntegrityError := AttemptSerialization.

Inductive NodeAttemptError :=
| WorkerAttemptReused
| FenceTenantMismatch
| FenceRunMismatch
| JournalTenantMismatch
| JournalRunMismatch
| StartJournalNotAfterBase
| StartClockRegression
| CompletionJournalNotAfterStart
| CompletionClockRegression
| ResultActivationMismatch
| ResultFenceMismatch
| ResultJournalMismatch
| FailureEventMismatch
| ReconciliationUnsupported
| CompletionStartMismatch
| ActivationDigestMismatch
| StartDigestMismatch
| CompletionDigestMismatch
| AttemptIntegrity (source : NodeAttemptIntegrityError).

(** [RetryAdvice::requires_reconciliation]. *)
Definition requires_reconciliation (advice : RetryAdvice) : bool :=
  match advice with ReconcileFirst => true | Never | SafeAfter _ => false end.

Record NodeAttemptStartDigestWire := mkStartDigestWire {
  sw_activation_digest : Digest;
  sw_attempt_id : AttemptId;
  sw_fence : RunLease.RunFence;
  sw_journal_head : JournalHead
}.

Section Attempts.
Context {Capability Schema Details : Type} `{EqDecision Capability, EqDecision Schema}.
Abbreviation ActivationT := (NodeActivation Capability Schema).
Abbreviation ResultHeadT := (PendingNodeResultHead Capability Schema).
Abbreviation FailureT := (Failure Details).

(** * Starts and completions *)

Inductive NodeAttemptOutcome :=
| OSucceeded (result : ResultHeadT)
| OFailed (failure : FailureT).

Definition outcome_status (self : NodeAttemptOutcome) : NodeAttemptStatus :=
  match self with OSucceeded _ => Succeeded | OFailed _ => Failed end.

Record NodeAttemptStart := mkStart {
  st_activation : ActivationT;
  st_activation_digest : Digest;
  st_attempt_id : AttemptId;
  st_fence : RunLease.RunFence;
  st_journal_head : JournalHead;
  st_digest : Digest
}.

Record NodeAttemptStartHead := mkStartHead {
  sh_activation : ActivationT;
  sh_attempt_id : AttemptId;
  sh_fence : RunLease.RunFence;
  sh_journal_head : JournalHead;
  sh_digest : Digest
}.

#[global] Instance NodeAttemptStartHead_eq_dec : EqDecision NodeAttemptStartHead.
Proof. solve_decision. Defined.

Definition start_head (self : NodeAttemptStart) : NodeAttemptStartHead :=
  mkStartHead (st_activation self) (st_attempt_id self) (st_fence self) (st_journal_head self) (st_digest self).

Record NodeAttemptCompletion := mkCompletion {
  co_start : NodeAttemptStartHead;
  co_outcome : NodeAttemptOutcome;
  co_usage : BudgetUsage.t;
  co_journal_head : JournalHead;
  co_digest : Digest
}.

Record NodeAttempt := mkAttempt { start : NodeAttemptStart; completion : option NodeAttemptCompletion }.

Definition executing (s : NodeAttemptStart) : NodeAttempt := mkAttempt s None.

Definition status (self : NodeAttempt) : NodeAttemptStatus :=
  match completion self with Some c => outcome_status (co_outcome c) | None => Executing end.

Record NodeAttemptCompletionDigestWire := mkCompletionDigestWire {
  cw_start : NodeAttemptStartHead;
  cw_outcome : NodeAttemptOutcome;
  cw_usage : BudgetUsage.t;
  cw_journal_head : JournalHead
}.

(** [activation.tenant_id()] and [run_id()] are those of its base checkpoint. *)
Definition act_tenant_id (act : ActivationT) : TenantId := head_tenant_id (base_checkpoint act).
Definition act_run_id (act : ActivationT) : RunId := head_run_id (base_checkpoint act).

Definition validate_scope (act : ActivationT) (fence : RunLease.RunFence) (journal : JournalHead) : result NodeAttemptError unit :=
  if negb (bool_decide (RunLease.tenant_id fence = act_tenant_id act)) then Err FenceTenantMismatch else
  if negb (bool_decide (RunLease.run_id fence = act_run_id act)) then Err FenceRunMismatch else
  if negb (bool_decide (jh_tenant_id journal = act_tenant_id act)) then Err JournalTenantMismatch else
  if negb (bool_decide (jh_run_id journal = act_run_id act)) then Err JournalRunMismatch else
  Ok tt.

Definition validate_start_scope (act : ActivationT) (id : AttemptId) (fence : RunLease.RunFence) (journal : JournalHead)
  : result NodeAttemptError unit :=
  if bool_decide (id = RunLease.attempt_id fence) then Err WorkerAttemptReused else
  _ ← validate_scope act fence journal;
  let base := head_journal_head (base_checkpoint act) in
  if jh_sequence journal <=? jh_sequence base then Err StartJournalNotAfterBase else
  if jh_recorded_at journal <? jh_recorded_at base then Err StartClockRegression else
  Ok tt.

Definition validate_completion_shape (s : NodeAttemptStartHead) (outcome : NodeAttemptOutcome) (journal : JournalHead)
  : result NodeAttemptError unit :=
  _ ← validate_scope (sh_activation s) (sh_fence s) journal;
  if jh_sequence journal <=? jh_sequence (sh_journal_head s) then Err CompletionJournalNotAfterStart else
  if jh_recorded_at journal <? jh_recorded_at (sh_journal_head s) then Err CompletionClockRegression else
  match outcome with
  | OSucceeded r =>
      if negb (bool_decide (rh_activation r = sh_activation s)) then Err ResultActivationMismatch else
      if negb (bool_decide (rh_fence r = sh_fence s)) then Err ResultFenceMismatch else
      if negb (bool_decide (rh_journal_head r = journal)) then Err ResultJournalMismatch else
      Ok tt
  | OFailed f =>
      if requires_reconciliation (retry_advice f) then Err ReconciliationUnsupported else
      if negb (bool_decide (caused_by_event_id f = Some (jh_event_id journal))) then Err FailureEventMismatch else
      Ok tt
  end.

Context `{Canonical ActivationT, Canonical NodeAttemptStartDigestWire, Canonical NodeAttemptCompletionDigestWire}.
Variable sha256 : bytes -> bytes.

Definition domain_separated_digest {T} `{Canonical T} (domain : bytes) (value : T) : result NodeAttemptIntegrityError Digest :=
  canonical ← ok_or (to_vec value) AttemptSerialization;
  Ok (sha256 (domain ++ canonical)).

Definition compute_activation_digest (act : ActivationT) : result NodeAttemptIntegrityError Digest :=
  domain_separated_digest ACTIVATION_DIGEST_DOMAIN act.
Definition compute_start_digest (value : NodeAttemptStartDigestWire) : result NodeAttemptIntegrityError Digest :=
  domain_separated_digest START_DIGEST_DOMAIN value.
Definition compute_completion_digest (value : NodeAttemptCompletionDigestWire) : result NodeAttemptIntegrityError Digest :=
  domain_separated_digest COMPLETION_DIGEST_DOMAIN value.

Definition start_new (act : ActivationT) (id : AttemptId) (fence : RunLease.RunFence) (journal : JournalHead)
  : result NodeAttemptError NodeAttemptStart :=
  _ ← validate_start_scope act id fence journal;
  ad ← map_err AttemptIntegrity (compute_activation_digest act);
  d ← map_err AttemptIntegrity (compute_start_digest (mkStartDigestWire ad id fence journal));
  Ok (mkStart act ad id fence journal d).

Definition start_restore (act : ActivationT) (ad : Digest) (id : AttemptId) (fence : RunLease.RunFence) (journal : JournalHead) (d : Digest)
  : result NodeAttemptError NodeAttemptStart :=
  restored ← start_new act id fence journal;
  if negb (bool_decide (st_activation_digest restored = ad)) then Err ActivationDigestMismatch else
  if negb (bool_decide (st_digest restored = d)) then Err StartDigestMismatch else
  Ok restored.

Definition start_head_restore (act : ActivationT) (id : AttemptId) (fence : RunLease.RunFence) (journal : JournalHead) (d : Digest)
  : result NodeAttemptError NodeAttemptStartHead :=
  ad ← map_err AttemptIntegrity (compute_activation_digest act);
  s ← start_restore act ad id fence journal d;
  Ok (start_head s).

Definition materialize (s : NodeAttemptStartHead) (outcome : NodeAttemptOutcome) (usage : BudgetUsage.t) (journal : JournalHead)
  : result NodeAttemptError NodeAttemptCompletion :=
  _ ← validate_completion_shape s outcome journal;
  d ← map_err AttemptIntegrity (compute_completion_digest (mkCompletionDigestWire s outcome usage journal));
  Ok (mkCompletion s outcome usage journal d).

Definition succeed (s : NodeAttemptStart) (r : ResultHeadT) (usage : BudgetUsage.t) : result NodeAttemptError NodeAttemptCompletion :=
  materialize (start_head s) (OSucceeded r) usage (rh_journal_head r).

Definition fail_ (s : NodeAttemptStart) (f : FailureT) (usage : BudgetUsage.t) (journal : JournalHead)
  : result NodeAttemptError NodeAttemptCompletion :=
  materialize (start_head s) (OFailed f) usage journal.

Definition completion_restore (s : NodeAttemptStartHead) (outcome : NodeAttemptOutcome) (usage : BudgetUsage.t) (journal : JournalHead)
  (d : Digest) : result NodeAttemptError NodeAttemptCompletion :=
  restored ← materialize s outcome usage journal;
  if negb (bool_decide (co_digest restored = d)) then Err CompletionDigestMismatch else Ok restored.

Definition attempt_restore (s : NodeAttemptStart) (c : option NodeAttemptCompletion) : result NodeAttemptError NodeAttempt :=
  if match c with Some c => negb (bool_decide (co_start c = start_head s)) | None => false end
  then Err CompletionStartMismatch else Ok (mkAttempt s c).

(** * The history verifier *)

Record NodeAttemptHistoryVerifier := mkHistory { last_attempt : option NodeAttempt; attempt_ids : list AttemptId }.

Definition history_new : NodeAttemptHistoryVerifier := mkHistory None [].
Definition history_after (record : NodeAttempt) : NodeAttemptHistoryVerifier :=
  mkHistory (Some record) [st_attempt_id (start record)].

Definition anchor (self : NodeAttempt) : JournalHead :=
  match completion self with Some c => co_journal_head c | None => st_journal_head (start self) end.

Definition validate_history_successor (previous next : NodeAttempt) : result NodeAttemptHistoryError unit :=
  if negb (bool_decide (st_activation (start next) = st_activation (start previous))) then Err ActivationMismatch else
  let next_anchor := st_journal_head (start next) in
  if jh_sequence next_anchor <=? jh_sequence (anchor previous) then Err JournalNotAfterPrevious else
  if jh_recorded_at next_anchor <? jh_recorded_at (anchor previous) then Err HistoryClockRegression else
  let previous_fence := st_fence (start previous) in
  let next_fence := st_fence (start next) in
  if RunLease.epoch next_fence <? RunLease.epoch previous_fence then Err FenceEpochRegression else
  if (RunLease.epoch next_fence =? RunLease.epoch previous_fence)
     && negb (RunLease.attempt_id next_fence =? RunLease.attempt_id previous_fence) then Err WorkerChangedWithinEpoch else
  if (RunLease.epoch previous_fence <? RunLease.epoch next_fence)
     && (RunLease.attempt_id next_fence =? RunLease.attempt_id previous_fence) then Err WorkerReusedAcrossEpoch else
  match completion previous with
  | None =>
      if RunLease.epoch next_fence <=? RunLease.epoch previous_fence then Err UnfinishedAttemptNotSuperseded else Ok tt
  | Some c =>
      match co_outcome c with
      | OSucceeded _ => Err PreviousAttemptSucceeded
      | OFailed f =>
          match retry_advice f with
          | SafeAfter delay =>
              let failed_at := jh_recorded_at (co_journal_head c) in
              let started_at := jh_recorded_at (st_journal_head (start next)) in
              if started_at <? failed_at + delay * 1000 then Err (RetryDelayNotElapsed delay failed_at started_at) else Ok tt
          | (Never | ReconcileFirst) as advice => Err (RetryNotAuthorized advice)
          end
      end
  end.

Definition verify_next (self : NodeAttemptHistoryVerifier) (a : NodeAttempt) : result NodeAttemptHistoryError NodeAttemptHistoryVerifier :=
  let id := st_attempt_id (start a) in
  if bs_contains id (attempt_ids self) then Err (AttemptIdReused id) else
  _ ← match last_attempt self with Some previous => validate_history_successor previous a | None => Ok tt end;
  Ok (mkHistory (Some a) (bs_insert id (attempt_ids self))).
End Attempts.
Arguments NodeAttemptOutcome : clear implicits.
Arguments NodeAttemptStart : clear implicits.
Arguments NodeAttemptStartHead : clear implicits.
Arguments NodeAttemptCompletion : clear implicits.
Arguments NodeAttemptCompletionDigestWire : clear implicits.
Arguments NodeAttempt : clear implicits.
Arguments NodeAttemptHistoryVerifier : clear implicits.
End NodeAttempt.

(** Attempt histories: at most one success, no overlap, retries only as
    authorised; and completions that restore. *)

Import Timestamp(Timestamp).

Module Attempts.
Import NodeAttempt.

Section Laws.
Context {Capability Schema Details : Type} `{EqDecision Capability, EqDecision Schema}.
Abbreviation ActivationT := (NodeActivation Capability Schema).
Abbreviation AttemptT := (NodeAttempt Capability Schema Details).
Abbreviation CompletionT := (NodeAttemptCompletion Capability Schema Details).
Context `{Canonical ActivationT, Canonical NodeAttemptStartDigestWire, Canonical (NodeAttemptCompletionDigestWire Capability Schema Details)}.
Variable sha256 : bytes -> bytes.
Implicit Types (a b c : AttemptT).

(** * One step of a history *)

Definition start_seq a : Z := jh_sequence (st_journal_head (start a)).
Definition start_time a : Timestamp := jh_recorded_at (st_journal_head (start a)).
Definition end_seq a : Z := jh_sequence (anchor a).
Definition end_time a : Timestamp := jh_recorded_at (anchor a).
Definition epoch_of a : Z := RunLease.epoch (st_fence (start a)).
Definition worker_of a : Z := RunLease.attempt_id (st_fence (start a)).
Definition id_of a : Z := st_attempt_id (start a).

(** Why the activation of [a] may be attempted again under epoch [e] at [t]. *)
Definition may_retry a (e : Z) (t : Timestamp) : Prop :=
  match completion a with
  | None => epoch_of a < e
  | Some co => exists f delay, co_outcome co = OFailed f /\ retry_advice f = SafeAfter delay /\ end_time a + delay * 1000 <= t
  end.

Definition may_follow a b : Prop :=
  st_activation (start b) = st_activation (start a) /\ end_seq a < start_seq b /\ end_time a <= start_time b /\
  epoch_of a <= epoch_of b /\ (epoch_of a = epoch_of b <-> worker_of a = worker_of b) /\
  may_retry a (epoch_of b) (start_time b).

Lemma validate_history_successor_iff a b u : validate_history_successor a b = Ok u <-> may_follow a b.
Proof.
  destruct u. unfold validate_history_successor, may_follow, may_retry, start_seq, start_time, end_seq, end_time, epoch_of, worker_of.
  guard_iff.
  set (ea := RunLease.epoch (st_fence (start a))) in *. set (eb := RunLease.epoch (st_fence (start b))) in *.
  set (wa := RunLease.attempt_id (st_fence (start a))). set (wb := RunLease.attempt_id (st_fence (start b))).
  destruct (Z.eqb_spec eb ea), (Z.eqb_spec wb wa), (Z.ltb_spec ea eb); simpl; try (split; [done | intros; exfalso; naive_solver lia]); try lia.
  all: unfold anchor in *; destruct (completion a) as [co|];
    [destruct (co_outcome co) as [r|f]; [| destruct (retry_advice f) as [|d|] eqn:Ea] |].
  all: try (destruct (Z.ltb_spec (jh_recorded_at (st_journal_head (start b))) (jh_recorded_at (co_journal_head co) + d * 1000))).
  all: try (destruct (Z.leb_spec eb ea)); try lia.
  all: split; [try done; intros _; split_and!; try done; try lia; eauto 6 | try done].
  all: intros (_ & _ & _ & _ & _ & Hr); try lia; destruct Hr as (f0 & d0 & E0 & E1 & ?); simplify_eq; try congruence; rewrite Ea in E1; simplify_eq; lia.
Qed.

Definition verify_all (v : NodeAttemptHistoryVerifier Capability Schema Details) (l : list AttemptT) :=
  try_fold verify_next v l.

Lemma node_verify_next_iff v a v' :
  verify_next v a = Ok v' <->
  id_of a ∉ attempt_ids v /\ (forall p, last_attempt v = Some p -> may_follow p a) /\
  v' = mkHistory (Some a) (bs_insert (id_of a) (attempt_ids v)).
Proof.
  unfold verify_next. cbv zeta. fold (id_of a). destruct (bs_contains _ _) eqn:Ec.
  { apply bs_contains_iff in Ec. split; [done | naive_solver]. }
  apply bs_contains_false in Ec. rewrite bind_Ok. split.
  - intros ([] & Hp & [= <-]). split_and!; [done | | done]. intros p Ep. rewrite Ep in Hp. by apply validate_history_successor_iff in Hp.
  - intros (_ & Hp & ->). exists tt. split; [| done]. destruct (last_attempt v) as [p|]; [| done].
    by apply validate_history_successor_iff, Hp.
Qed.

(** * Whole histories *)

(** Records that passed their restoring constructors. *)
Definition completion_restored (co : CompletionT) : Prop :=
  completion_restore sha256 (co_start co) (co_outcome co) (co_usage co) (co_journal_head co) (co_digest co) = Ok co.
Definition attempt_restored a : Prop :=
  start_restore sha256 (st_activation (start a)) (st_activation_digest (start a)) (id_of a) (st_fence (start a))
    (st_journal_head (start a)) (st_digest (start a)) = Ok (start a) /\
  (forall co, completion a = Some co -> completion_restored co) /\ attempt_restore (start a) (completion a) = Ok a.

Lemma attempt_restored_order a : attempt_restored a -> start_seq a <= end_seq a /\ start_time a <= end_time a.
Proof.
  intros (_ & Hc & Hr). unfold end_seq, end_time, anchor, start_seq, start_time. unfold attempt_restore in Hr.
  destruct (completion a) as [co|]; [| lia]. specialize (Hc co eq_refl).
  destruct (bool_decide_reflect (co_start co = start_head (start a))) as [Es|]; [| done].
  unfold completion_restored, completion_restore, materialize, validate_completion_shape in Hc. open_guards Hc.
  open_guards Hx. open_guards Hx0. rewrite Es in *. simpl in *. lia.
Qed.

(** What holds of any earlier and later attempt. *)
Definition before a b : Prop :=
  st_activation (start a) = st_activation (start b) /\ end_seq a < start_seq b /\ end_time a <= start_time b /\
  epoch_of a <= epoch_of b /\ (epoch_of a = epoch_of b -> worker_of a = worker_of b) /\
  status a <> Succeeded /\ may_retry a (epoch_of b) (start_time b).

Lemma may_follow_before a b : may_follow a b -> before a b.
Proof.
  intros (Ha & Hs & Ht & He & Hw & Hr). unfold before. split_and!; try done; try by apply Hw.
  unfold may_retry, status in *. destruct (completion a) as [co|]; [| done]. by destruct Hr as (f & d & -> & _).
Qed.

Lemma before_follow a b c : before a b -> attempt_restored b -> may_follow b c -> before a c.
Proof.
  intros (Ha & Hs & Ht & He & Hw & Hn & Hr) Hb%attempt_restored_order (Ha' & Hs' & Ht' & He' & Hw' & _).
  unfold before. split_and!; [congruence | lia | lia | lia | | done |].
  - intros E. assert (epoch_of a = epoch_of b) as E1 by lia. assert (epoch_of b = epoch_of c) as E2 by lia.
    rewrite Hw by done. by apply Hw'.
  - unfold may_retry in *. destruct (completion a) as [co|]; [| lia]. destruct Hr as (f & d & ? & ? & ?). exists f, d. split_and!; try done. lia.
Qed.

Definition history_ok (l : list AttemptT) (v : NodeAttemptHistoryVerifier Capability Schema Details) : Prop :=
  last_attempt v = last l /\ (forall x, x ∈ attempt_ids v <-> x ∈ id_of <$> l) /\ NoDup (id_of <$> l) /\
  forall i j a b, (i < j)%nat -> l !! i = Some a -> l !! j = Some b -> before a b.

Lemma node_history_snoc l v a v' :
  Forall attempt_restored l -> history_ok l v -> verify_next v a = Ok v' -> history_ok (l ++ [a]) v'.
Proof.
  intros HF (Hl & Hids & Hn & Hb) (Hid & Hf & ->)%node_verify_next_iff. unfold history_ok. simpl. rewrite last_snoc, fmap_app. simpl.
  split_and!; [done | | |].
  - intros x. rewrite bs_insert_elem, Hids, elem_of_app, list_elem_of_singleton. tauto.
  - apply NoDup_app. split_and!; [done | | apply NoDup_singleton]. intros x Hx ->%list_elem_of_singleton. by apply Hid, Hids.
  - intros i j x y Hij Hx Hy. apply lookup_app_Some in Hy as [Hy | [Hge Hy]].
    { apply (Hb i j); [done | | done]. rewrite lookup_app_l in Hx by (apply lookup_lt_Some in Hy; lia). done. }
    destruct (j - length l)%nat eqn:Ej; [| done]. injection Hy as <-. rewrite lookup_app_l in Hx by lia.
    rewrite last_lookup in Hl. destruct (decide (i = pred (length l))) as [->|Hi].
    { apply may_follow_before, Hf. by rewrite Hl. }
    pose proof (lookup_lt_Some _ _ _ Hx) as Hlt. destruct (lookup_lt_is_Some_2 l (pred (length l)) ltac:(lia)) as [p Hp].
    rewrite Forall_forall in HF. eapply before_follow; [apply (Hb i (pred (length l))); [lia | done..] | | apply Hf; by rewrite Hl].
    apply HF. by eapply list_elem_of_lookup_2.
Qed.

Lemma node_history_verified l v : Forall attempt_restored l -> verify_all history_new l = Ok v -> history_ok l v.
Proof.
  revert v. induction l as [|a l IH] using rev_ind; intros v HF.
  - intros [= <-]. unfold history_ok. simpl. split_and!; [done | done | constructor | done].
  - apply Forall_app in HF as [HF _]. unfold verify_all in *. rewrite try_fold_app. intros Hv. open_guards Hv. simpl in Hv. open_guards Hv.
    injection Hv as <-. eapply node_history_snoc; [done | by apply IH | done].
Qed.

(** C32: A verified attempt history is sound.  Of restored attempts accepted
    one after another, the identities are distinct; each ended, in journal
    order and time, before the later ones started; all are of one activation;
    epochs never go back and one epoch has one worker; no attempt follows a
    successful one; an attempt without completion is followed only under a
    higher epoch, and a failed one only when its advice allows a retry and
    the advised delay has passed.  Hence at most one attempt succeeded, and it
    is the last. *)
Theorem attempt_history_sound (l : list AttemptT) (v : NodeAttemptHistoryVerifier Capability Schema Details)
    (HF : Forall attempt_restored l) (Hv : verify_all history_new l = Ok v) :
  NoDup (id_of <$> l) /\ (forall i j a b, (i < j)%nat -> l !! i = Some a -> l !! j = Some b -> before a b) /\
  (forall i a, l !! i = Some a -> status a = Succeeded -> last l = Some a).
Proof.
  destruct (node_history_verified l v HF Hv) as (_ & _ & Hn & Hb). split_and!; [done | done |].
  intros i a Hi Hs. rewrite last_lookup. pose proof (lookup_lt_Some _ _ _ Hi) as Hlt.
  destruct (decide (i = pred (length l))) as [<-|Hne]; [done |].
  destruct (lookup_lt_is_Some_2 l (pred (length l)) ltac:(lia)) as [p Hp].
  destruct (Hb i (pred (length l)) a p ltac:(lia) Hi Hp) as (_ & _ & _ & _ & _ & Hne' & _). by destruct Hne'.
Qed.
End Laws.

(** ** A crash, a failure with a delay, and a success *)

#[local] Instance constant_encoder {T} : Canonical T := fun _ => Some [].
Definition constant_sha (_ : bytes) : bytes := [].

Definition demo_journal (seq : Z) (at_ : Timestamp) : JournalHead := mkJournalHead [97] 5 seq (100 + seq) at_ [].
Definition demo_activation : NodeActivation Z Z :=
  mkActivation (mkHead [97] 5 1 0 (mkGraphReference 1 [] 2) (demo_journal 1 10) []) namespace_root [110] [].
Definition demo_usage : BudgetUsage.t := BudgetUsage.mk 0 0 0 0 0 0 0 0 0 0 0 0 0 0 0 0 0 0 0 [] 0.
Definition demo_start (id seq at_ worker epoch : Z) : NodeAttemptStart Z Z :=
  mkStart demo_activation [] id (RunLease.mkFence [97] 5 worker epoch) (demo_journal seq at_) [].
Definition demo_failure (seq : Z) : Failure unit := mkFailure 1 RateLimited [] [] [] (SafeAfter 2) None (Some (100 + seq)).

Definition crashed : NodeAttempt Z Z unit := executing (demo_start 20 2 20 9 1).
Definition failed : NodeAttempt Z Z unit :=
  mkAttempt (demo_start 21 3 30 8 2) (Some (mkCompletion (start_head (demo_start 21 3 30 8 2)) (OFailed (demo_failure 4)) demo_usage (demo_journal 4 40) [])).
Definition succeeded : NodeAttempt Z Z unit :=
  let s := demo_start 22 5 2040 8 2 in
  mkAttempt s (Some (mkCompletion (start_head s)
    (OSucceeded (mkResultHead demo_activation [] (RunLease.mkFence [97] 5 8 2) (demo_journal 6 2050) [])) demo_usage (demo_journal 6 2050) [])).

Lemma attempt_history_sound_witness :
  let l := [crashed; failed; succeeded] in
  Forall (attempt_restored constant_sha) l /\ verify_all history_new l = Ok (mkHistory (Some succeeded) [20; 21; 22]) /\
  before crashed succeeded /\ before failed succeeded.
Proof.
  intros l. assert (HF : Forall (attempt_restored constant_sha) l).
  { apply Forall_cons; split; [| apply Forall_cons; split; [| apply Forall_singleton]].
    all: unfold attempt_restored; split; [| split]; [vm_compute; reflexivity | intros co Hco; try discriminate Hco | vm_compute; reflexivity].
    all: injection Hco as <-; vm_compute; reflexivity. }
  assert (Hv : verify_all history_new l = Ok (mkHistory (Some succeeded) [20; 21; 22])) by (vm_compute; reflexivity).
  destruct (attempt_history_sound constant_sha l _ HF Hv) as (_ & Hb & _).
  split; [exact HF |]. split; [exact Hv |].
  split; [apply (Hb 0%nat 2%nat); [lia | reflexivity | reflexivity] | apply (Hb 1%nat 2%nat); [lia | reflexivity | reflexivity]].
Defined.
End Attempts.
