(* ===== verification/Recovery.v ===== *)
(** Crash recovery (crates/stateknot-core/src/recovery.rs): the deterministic
    plan for the ready nodes of one checkpoint, derived from the pending
    results and the physical attempt histories that are streamed through the
    planner, the live worker fence and a database instant.

    Failure details, invocation bindings and join evidence are carried only and
    are type parameters. *)

From Stdlib Require Import ZArith Lia List.
From stdpp Require Import prelude.
From S2P Require Import Prelude Ordered Json Time Run Lease Checkpoint Barrier NodeAttempt.

Open Scope Z_scope.
Import Timestamp(Timestamp).

Module Recovery.
Import NodeAttempt(NodeAttempt, NodeAttemptStartHead, NodeAttemptHistoryVerifier, NodeAttemptHistoryError,
  NodeAttemptOutcome, OSucceeded, OFailed, start, completion, start_head, st_activation, st_fence, st_journal_head,
  co_outcome, co_journal_head, history_new, verify_next, last_attempt).

Definition MAX_ATTEMPTS_PER_NODE : Z := 64.

Inductive NodeDispatchReason := FirstAttempt | SupersededAttempt | SafeRetry.

Inductive RecoveryNodeKind := KCompleted | KDispatchable | KDeferred | KInFlight | KFailed | KExhausted.

#[global] Instance RecoveryNodeKind_eq_dec : EqDecision RecoveryNodeKind.
Proof. solve_decision. Defined.

Inductive ReadyNodeRecoveryError :=
| FenceTenantMismatch
| FenceRunMismatch
| ActivationFailed (source : NodeActivationError)
| UnexpectedResult (id : NodeId)
| DuplicateResult (id : NodeId)
| UnexpectedAttempt (id : NodeId)
| AttemptHistory (id : NodeId) (source : NodeAttemptHistoryError)
| AttemptLimitExceeded (id : NodeId) (maximum : Z)
| CurrentFenceBehindHistory (id : NodeId)
| CurrentFenceConflict (id : NodeId)
| CurrentFenceAttemptReused (id : NodeId)
| SucceededWithoutResult (id : NodeId)
| ResultAttemptMismatch (id : NodeId)
| UnsupportedRetryAdvice (id : NodeId)
| RetryNotBeforeOutOfRange (id : NodeId)
| ObservationTenantMismatch
| ObservationRunMismatch
| ObservationBeforeCheckpoint
| ObservationBeforeEvidence
| ObservationClockRegression.

Definition validate_current_fence (id : NodeId) (historical current : RunLease.RunFence) : result ReadyNodeRecoveryError unit :=
  if RunLease.epoch current <? RunLease.epoch historical then Err (CurrentFenceBehindHistory id) else
  if (RunLease.epoch historical =? RunLease.epoch current)
     && negb (RunLease.attempt_id historical =? RunLease.attempt_id current) then Err (CurrentFenceConflict id) else
  if (RunLease.epoch historical <? RunLease.epoch current)
     && (RunLease.attempt_id historical =? RunLease.attempt_id current) then Err (CurrentFenceAttemptReused id) else
  Ok tt.

(** The [i128] sum cannot overflow; its conversion to [i64] can. *)
Definition retry_not_before (failed_at : Timestamp) (delay_millis : Z) : option Timestamp :=
  let micros := failed_at + delay_millis * 1000 in
  if (micros <? i64_min) || (i64_max <? micros) then None else
  match Timestamp.from_unix_micros micros with Ok t => Some t | Err _ => None end.

Section Planner.
Context {Capability Schema InterruptRequest Bindings Join Details : Type} `{RustOrd Capability, EqDecision Schema}.
Abbreviation ActivationT := (NodeActivation Capability Schema).
Abbreviation CheckpointT := (Checkpoint Capability Schema).
Abbreviation ResultT := (PendingNodeResult Capability Schema InterruptRequest Bindings Join).
Abbreviation ResultHeadT := (PendingNodeResultHead Capability Schema).
Abbreviation AttemptT := (NodeAttempt Capability Schema Details).
Abbreviation StartHeadT := (NodeAttemptStartHead Capability Schema).
Abbreviation FailureT := (Failure Details).

#[global] Instance PendingNodeResultHead_eq_dec : EqDecision ResultHeadT.
Proof. solve_decision. Defined.

(** * Decisions *)

Inductive RecoveryNode :=
| Completed (activation : ActivationT) (result : ResultHeadT)
| Dispatchable (activation : ActivationT) (reason : NodeDispatchReason)
| Deferred (activation : ActivationT) (not_before : Timestamp)
| InFlight (activation : ActivationT) (attempt : StartHeadT)
| Failed (activation : ActivationT) (failure : FailureT)
| Exhausted (activation : ActivationT) (attempt : StartHeadT) (failure : option FailureT).

Definition kind (self : RecoveryNode) : RecoveryNodeKind :=
  match self with
  | Completed _ _ => KCompleted
  | Dispatchable _ _ => KDispatchable
  | Deferred _ _ => KDeferred
  | InFlight _ _ => KInFlight
  | Failed _ _ => KFailed
  | Exhausted _ _ _ => KExhausted
  end.

Definition node_activation (self : RecoveryNode) : ActivationT :=
  match self with
  | Completed a _ | Dispatchable a _ | Deferred a _ | InFlight a _ | Failed a _ | Exhausted a _ _ => a
  end.

Definition dispatch_reason (self : RecoveryNode) : option NodeDispatchReason :=
  match self with Dispatchable _ reason => Some reason | _ => None end.

Definition node_result (self : RecoveryNode) : option ResultHeadT :=
  match self with Completed _ r => Some r | _ => None end.

Definition not_before (self : RecoveryNode) : option Timestamp :=
  match self with Deferred _ t => Some t | _ => None end.

Definition in_flight_attempt (self : RecoveryNode) : option StartHeadT :=
  match self with InFlight _ attempt => Some attempt | _ => None end.

Definition node_failure (self : RecoveryNode) : option FailureT :=
  match self with Failed _ f => Some f | Exhausted _ _ f => f | _ => None end.

Definition exhausted_attempt (self : RecoveryNode) : option StartHeadT :=
  match self with Exhausted _ attempt _ => Some attempt | _ => None end.

(** * Plans *)

Record ReadyNodeRecoveryPlan := mkPlan {
  plan_checkpoint : CheckpointT;
  plan_fence : RunLease.RunFence;
  plan_journal_head : JournalHead;
  observed_at : Timestamp;
  nodes : list RecoveryNode
}.

Definition is_barrier_ready (self : ReadyNodeRecoveryPlan) : bool :=
  negb (length (nodes self) =? 0)%nat && forallb (fun node => bool_decide (kind node = KCompleted)) (nodes self).

Definition barrier_result_heads (self : ReadyNodeRecoveryPlan)
  : result BarrierResultHeadsError (option (BarrierResultHeads Capability Schema)) :=
  if negb (is_barrier_ready self) then Ok None else
  heads ← heads_try_new (omap node_result (nodes self));
  Ok (Some heads).

(** [Iterator::min] over the deferred instants. *)
Fixpoint iter_min (l : list Z) : option Z :=
  match l with
  | [] => None
  | x :: l' => match iter_min l' with Some y => Some (Z.min x y) | None => Some x end
  end.

Definition earliest_deferred_at (self : ReadyNodeRecoveryPlan) : option Timestamp := iter_min (omap not_before (nodes self)).

(** * The planner *)

Record RecoveryEntry := mkEntry {
  entry_activation : ActivationT;
  entry_result : option ResultHeadT;
  attempts : NodeAttemptHistoryVerifier Capability Schema Details;
  attempt_count : Z
}.

Record ReadyNodeRecoveryPlanner := mkPlanner {
  checkpoint : CheckpointT;
  fence : RunLease.RunFence;
  entries : list (NodeId * RecoveryEntry)
}.

Definition set_entry (self : ReadyNodeRecoveryPlanner) (id : NodeId) (entry : RecoveryEntry) : ReadyNodeRecoveryPlanner :=
  mkPlanner (checkpoint self) (fence self) (bt_insert id entry (entries self)).

Definition observe_result (self : ReadyNodeRecoveryPlanner) (r : ResultT) : result ReadyNodeRecoveryError ReadyNodeRecoveryPlanner :=
  let act := activation (intent r) in
  let id := act_node_id act in
  match bt_get id (entries self) with
  | None => Err (UnexpectedResult id)
  | Some entry =>
      if negb (bool_decide (act = entry_activation entry)) then Err (UnexpectedResult id) else
      if negb (is_none (entry_result entry)) then Err (DuplicateResult id) else
      Ok (set_entry self id (mkEntry (entry_activation entry) (Some (result_head r)) (attempts entry) (attempt_count entry)))
  end.

Definition observe_attempt (self : ReadyNodeRecoveryPlanner) (a : AttemptT) : result ReadyNodeRecoveryError ReadyNodeRecoveryPlanner :=
  let act := st_activation (start a) in
  let id := act_node_id act in
  match bt_get id (entries self) with
  | None => Err (UnexpectedAttempt id)
  | Some entry =>
      if negb (bool_decide (act = entry_activation entry)) then Err (UnexpectedAttempt id) else
      if MAX_ATTEMPTS_PER_NODE <=? attempt_count entry then Err (AttemptLimitExceeded id MAX_ATTEMPTS_PER_NODE) else
      v ← map_err (AttemptHistory id) (verify_next (attempts entry) a);
      Ok (set_entry self id (mkEntry (entry_activation entry) (entry_result entry) v (attempt_count entry + 1)))
  end.

Definition activations (self : ReadyNodeRecoveryPlanner) : list ActivationT :=
  map (fun '(_, entry) => entry_activation entry) (entries self).

Definition before_evidence (journal evidence : JournalHead) : bool :=
  (jh_sequence journal <? jh_sequence evidence) || (jh_recorded_at journal <? jh_recorded_at evidence).

(** [result_head.into_iter().chain(attempt_head)]. *)
Definition evidence_heads (entry : RecoveryEntry) : list JournalHead :=
  option_list (rh_journal_head <$> entry_result entry) ++
  option_list ((fun attempt => match completion attempt with
                               | None => st_journal_head (start attempt)
                               | Some value => co_journal_head value
                               end) <$> last_attempt (attempts entry)).

Definition check_evidence (journal : JournalHead) (_ : unit) (item : NodeId * RecoveryEntry) : result ReadyNodeRecoveryError unit :=
  if existsb (before_evidence journal) (evidence_heads item.2) then Err ObservationBeforeEvidence else Ok tt.

Definition validate_observation (planner : ReadyNodeRecoveryPlanner) (journal : JournalHead) (observed : Timestamp)
  : result ReadyNodeRecoveryError unit :=
  if negb (bool_decide (jh_tenant_id journal = Checkpoint.tenant_id (checkpoint planner))) then Err ObservationTenantMismatch else
  if negb (bool_decide (jh_run_id journal = Checkpoint.run_id (checkpoint planner))) then Err ObservationRunMismatch else
  let checkpoint_head := journal_head (checkpoint planner) in
  if (jh_sequence journal <? jh_sequence checkpoint_head) || (jh_recorded_at journal <? jh_recorded_at checkpoint_head)
  then Err ObservationBeforeCheckpoint else
  if observed <? jh_recorded_at journal then Err ObservationClockRegression else
  try_fold (check_evidence journal) tt (entries planner).

Definition outcome_result (outcome : NodeAttemptOutcome Capability Schema Details) : option ResultHeadT :=
  match outcome with OSucceeded r => Some r | OFailed _ => None end.

Definition classify_failure (id : NodeId) (act : ActivationT) (attempt : AttemptT) (failed_at : Timestamp) (failure : FailureT)
  (count : Z) (observed : Timestamp) : result ReadyNodeRecoveryError RecoveryNode :=
  match retry_advice failure with
  | Never => Ok (Failed act failure)
  | SafeAfter delay =>
      if MAX_ATTEMPTS_PER_NODE <=? count then Ok (Exhausted act (start_head (start attempt)) (Some failure)) else
      t ← ok_or (retry_not_before failed_at delay) (RetryNotBeforeOutOfRange id);
      if t <=? observed then Ok (Dispatchable act SafeRetry) else Ok (Deferred act t)
  | ReconcileFirst => Err (UnsupportedRetryAdvice id)
  end.

Definition classify_entry (id : NodeId) (entry : RecoveryEntry) (current : RunLease.RunFence) (observed : Timestamp)
  : result ReadyNodeRecoveryError RecoveryNode :=
  let act := entry_activation entry in
  let latest := last_attempt (attempts entry) in
  match entry_result entry with
  | Some r =>
      _ ← validate_current_fence id (rh_fence r) current;
      _ ← match latest with
          | Some attempt =>
              match completion attempt with
              | None => Err (ResultAttemptMismatch id)
              | Some c => if negb (bool_decide (outcome_result (co_outcome c) = Some r)) then Err (ResultAttemptMismatch id) else Ok tt
              end
          | None => Ok tt
          end;
      Ok (Completed act r)
  | None =>
      match latest with
      | None => Ok (Dispatchable act FirstAttempt)
      | Some attempt =>
          _ ← validate_current_fence id (st_fence (start attempt)) current;
          match NodeAttempt.status attempt with
          | NodeAttempt.Executing =>
              if bool_decide (st_fence (start attempt) = current) then Ok (InFlight act (start_head (start attempt))) else
              if MAX_ATTEMPTS_PER_NODE <=? attempt_count entry then Ok (Exhausted act (start_head (start attempt)) None) else
              Ok (Dispatchable act SupersededAttempt)
          | NodeAttempt.Succeeded => Err (SucceededWithoutResult id)
          | NodeAttempt.Failed =>
              c ← ok_or (completion attempt) (SucceededWithoutResult id);
              match co_outcome c with
              | OSucceeded _ => Err (SucceededWithoutResult id)
              | OFailed failure =>
                  classify_failure id act attempt (jh_recorded_at (co_journal_head c)) failure (attempt_count entry) observed
              end
          end
      end
  end.

(** The loop of [finish]. *)
Definition classify_step (planner : ReadyNodeRecoveryPlanner) (observed : Timestamp) (acc : list RecoveryNode)
  (item : NodeId * RecoveryEntry) : result ReadyNodeRecoveryError (list RecoveryNode) :=
  node ← classify_entry item.1 item.2 (fence planner) observed;
  Ok (acc ++ [node]).

Definition finish (self : ReadyNodeRecoveryPlanner) (journal : JournalHead) (observed : Timestamp)
  : result ReadyNodeRecoveryError ReadyNodeRecoveryPlan :=
  _ ← validate_observation self journal observed;
  ns ← try_fold (classify_step self observed) [] (entries self);
  Ok (mkPlan (checkpoint self) (fence self) journal observed ns).

Variable sha256 : bytes -> bytes.
Context `{Canonical ReadyNodeInputDigestWire}.

Definition seed (c : CheckpointT) (acc : list (NodeId * RecoveryEntry)) (id : NodeId)
  : result ReadyNodeRecoveryError (list (NodeId * RecoveryEntry)) :=
  act ← map_err ActivationFailed (for_ready_root sha256 c id);
  Ok (bt_insert id (mkEntry act None history_new 0) acc).

Definition planner_new (c : CheckpointT) (fence : RunLease.RunFence) : result ReadyNodeRecoveryError ReadyNodeRecoveryPlanner :=
  if negb (bool_decide (RunLease.tenant_id fence = Checkpoint.tenant_id c)) then Err FenceTenantMismatch else
  if negb (bool_decide (RunLease.run_id fence = Checkpoint.run_id c)) then Err FenceRunMismatch else
  es ← try_fold (seed c) [] (ready_nodes c);
  Ok (mkPlanner c fence es).
End Planner.
Arguments RecoveryNode : clear implicits.
Arguments ReadyNodeRecoveryPlan : clear implicits.
Arguments RecoveryEntry : clear implicits.
Arguments ReadyNodeRecoveryPlanner : clear implicits.
End Recovery.
