(* ===== verification/RecoveryLaws.v ===== *)
(** Theorems on crash recovery: the planner is a function of what was observed
    of each node, its decisions agree with the verifier of attempt histories,
    and a complete plan yields the heads of its barrier. *)

From Stdlib Require Import ZArith Lia List.
From stdpp Require Import prelude.
From S2P Require Import Prelude Ordered Json Time Costs Budget Run Lease Checkpoint Barrier NodeAttempt Recovery.

Open Scope Z_scope.
Import Timestamp(Timestamp).

(** * Maps that follow a sorted list of keys *)

Section KeyedLists.
Context `{RustOrd K} {V : Type}.
Implicit Types (ids : list K) (m : list (K * V)).

(** [m] has exactly the keys [ids], in order, with values that satisfy [P]. *)
Definition follows_keys (P : K -> V -> Prop) ids m : Prop := m.*1 = ids /\ forall k v, (k, v) ∈ m -> P k v.

Lemma ksorted_keys m : ksorted (fun k => k) m.*1 -> ksorted fst m.
Proof.
  induction m as [|[k v] m IH]; intros Hs; [constructor |]. inversion Hs as [|? ? HF Hs']; subst. constructor; [| by apply IH].
  by rewrite Forall_fmap in HF.
Qed.

Lemma bt_insert_keys_present id v m : ksorted fst m -> id ∈ m.*1 -> (bt_insert id v m).*1 = m.*1.
Proof.
  induction 1 as [|[k x] m HF Hs IH]; simpl; [set_solver |]. intros Hin. rewrite Forall_forall in HF. destruct (cmp id k) eqn:E; simpl.
  - by apply cmp_eq_iff in E as ->.
  - exfalso. apply elem_of_cons in Hin as [->|([k' x'] & -> & Hk')%list_elem_of_fmap]; [by destruct (cmp_lt_irrefl k) |].
    destruct (cmp_lt_irrefl k). eapply cmp_lt_trans; [apply (HF _ Hk') | exact E].
  - f_equal. apply IH. apply elem_of_cons in Hin as [->|]; [by rewrite cmp_refl in E | done].
Qed.

Lemma bt_insert_last id v m : Forall (fun kv => cmp kv.1 id = Lt) m -> bt_insert id v m = m ++ [(id, v)].
Proof.
  induction 1 as [|[k x] m Hk HF IH]; simpl in *; [done |]. rewrite (cmp_opp k id), Hk. simpl. by rewrite IH.
Qed.

Lemma follows_keys_get P ids m id :
  ksorted (fun k => k) ids -> follows_keys P ids m ->
  match bt_get id m with Some v => id ∈ ids /\ (id, v) ∈ m /\ P id v | None => id ∉ ids end.
Proof.
  intros Hs [<- HP]. apply ksorted_keys in Hs. destruct (bt_get id m) as [v|] eqn:E.
  - apply bt_get_elem in E; [| done]. split_and!; [apply list_elem_of_fmap; by exists (id, v) | done | by apply HP].
  - intros ([k v] & -> & Hv)%list_elem_of_fmap. apply bt_get_elem in Hv; [| done]. simpl in E. congruence.
Qed.

Lemma follows_keys_insert (P Q : K -> V -> Prop) ids m id v :
  ksorted (fun k => k) ids -> follows_keys P ids m -> id ∈ ids -> Q id v ->
  (forall i x, i <> id -> P i x -> Q i x) -> follows_keys Q ids (bt_insert id v m).
Proof.
  intros Hs [<- HP] Hin Hv HPQ. apply ksorted_keys in Hs. split; [by apply bt_insert_keys_present |].
  intros k x [[= -> ->] | [Hx Hk]]%bt_insert_elem; [done | | done]. apply HPQ; [done | by apply HP].
Qed.

(** Values that [P] determines make the map unique. *)
Lemma follows_keys_unique P ids m m' :
  (forall k v v', P k v -> P k v' -> v = v') -> follows_keys P ids m -> follows_keys P ids m' -> m = m'.
Proof.
  intros Hu [<- HP]. revert m'. induction m as [|[k v] m IH]; intros [|[k' v'] m'] [Hk HP']; simpl in *; try done.
  injection Hk as -> Hk. assert (v' = v) as -> by (apply (Hu k); [apply HP' | apply HP]; by left). f_equal.
  apply IH; [intros; apply HP; by right |]. split; [done |]. intros. apply HP'. by right.
Qed.

Lemma follows_keys_exists P ids : (forall k, k ∈ ids -> exists v, P k v) -> exists m, follows_keys P ids m.
Proof.
  induction ids as [|k ids IH]; intros HP; [exists []; split; [done | set_solver] |].
  destruct (HP k ltac:(by left)) as [v Hv]. destruct IH as (m & <- & Hm); [intros; apply HP; by right |].
  exists ((k, v) :: m). split; [done |]. intros k' v' [[= -> ->]|?]%elem_of_cons; [done | by apply Hm].
Qed.

Lemma follows_keys_impl (P Q : K -> V -> Prop) ids m :
  (forall k v, k ∈ ids -> P k v -> Q k v) -> follows_keys P ids m -> follows_keys Q ids m.
Proof.
  intros HPQ [<- HP]. split; [done |]. intros k v Hkv. apply HPQ; [apply list_elem_of_fmap; by exists (k, v) | by apply HP].
Qed.
End KeyedLists.

Module Replay.
Import NodeAttempt(NodeAttempt, mkAttempt, NodeAttemptStart, NodeAttemptHistoryVerifier, mkHistory, OSucceeded, OFailed, start, completion,
  executing, start_head, st_activation, st_attempt_id, st_fence, st_journal_head, co_outcome, co_journal_head, history_new,
  verify_next, last_attempt, attempt_ids, anchor).
Import Recovery.

Section Laws.
Context {Capability Schema InterruptRequest Bindings Join Details : Type} `{RustOrd Capability, EqDecision Schema}.
#[local] Abbreviation ActivationT := (NodeActivation Capability Schema).
#[local] Abbreviation CheckpointT := (Checkpoint Capability Schema).
#[local] Abbreviation ResultT := (PendingNodeResult Capability Schema InterruptRequest Bindings Join).
#[local] Abbreviation AttemptT := (NodeAttempt Capability Schema Details).
#[local] Abbreviation EntryT := (RecoveryEntry Capability Schema Details).
#[local] Abbreviation PlannerT := (ReadyNodeRecoveryPlanner Capability Schema Details).
#[local] Abbreviation HistoryT := (NodeAttemptHistoryVerifier Capability Schema Details).
Variable sha256 : bytes -> bytes.
Context `{Canonical ReadyNodeInputDigestWire}.

(** * Observations *)

Inductive Observation := SawResult (r : ResultT) | SawAttempt (a : AttemptT).

Definition observe (p : PlannerT) (o : Observation) : result ReadyNodeRecoveryError PlannerT :=
  match o with SawResult r => observe_result p r | SawAttempt a => observe_attempt p a end.

Definition observe_all (p : PlannerT) (ops : list Observation) : result ReadyNodeRecoveryError PlannerT := try_fold observe p ops.

Definition op_activation (o : Observation) : ActivationT :=
  match o with SawResult r => activation (intent r) | SawAttempt a => st_activation (start a) end.
Definition op_node (o : Observation) : NodeId := act_node_id (op_activation o).

(** What was observed of one node, in order. *)
Definition results_of (id : NodeId) (ops : list Observation) : list ResultT :=
  omap (fun o => match o with SawResult r => if decide (op_node o = id) then Some r else None | SawAttempt _ => None end) ops.
Definition attempts_of (id : NodeId) (ops : list Observation) : list AttemptT :=
  omap (fun o => match o with SawAttempt a => if decide (op_node o = id) then Some a else None | SawResult _ => None end) ops.

(** The entry of a node is a function of what was observed of it. *)
Definition entry_ok (c : CheckpointT) (ops : list Observation) (id : NodeId) (e : EntryT) : Prop :=
  for_ready_root sha256 c id = Ok (entry_activation e) /\
  result_head <$> results_of id ops = option_list (entry_result e) /\
  try_fold verify_next history_new (attempts_of id ops) = Ok (attempts e) /\
  attempt_count e = Z.of_nat (length (attempts_of id ops)) /\ Z.of_nat (length (attempts_of id ops)) <= 64.

Definition tracks (c : CheckpointT) (f : RunLease.RunFence) (ops : list Observation) (p : PlannerT) : Prop :=
  checkpoint p = c /\ fence p = f /\ follows_keys (entry_ok c ops) (ready_nodes c) (entries p) /\
  Forall (fun o => for_ready_root sha256 c (op_node o) = Ok (op_activation o)) ops.

Lemma entry_ok_unique c ops id e e' : entry_ok c ops id e -> entry_ok c ops id e' -> e = e'.
Proof.
  intros (Ha & Hr & Hv & Hc & _) (Ha' & Hr' & Hv' & Hc' & _). destruct e as [a r v n], e' as [a' r' v' n']. simpl in *.
  rewrite Hr in Hr'. destruct r, r'; simpl in Hr'; congruence.
Qed.

Lemma tracks_unique c f ops p p' : tracks c f ops p -> tracks c f ops p' -> p = p'.
Proof.
  intros (Hc & Hf & He & _) (Hc' & Hf' & He' & _). destruct p, p'; simpl in *. subst. f_equal.
  eapply follows_keys_unique; [| exact He | exact He']. intros k v v'. apply entry_ok_unique.
Qed.

Lemma results_of_snoc id ops o :
  results_of id (ops ++ [o]) = results_of id ops ++
    match o with SawResult r => if decide (op_node o = id) then [r] else [] | SawAttempt _ => [] end.
Proof. unfold results_of. rewrite omap_app. f_equal. simpl. destruct o; [case_decide |]; done. Qed.

Lemma attempts_of_snoc id ops o :
  attempts_of id (ops ++ [o]) = attempts_of id ops ++
    match o with SawAttempt a => if decide (op_node o = id) then [a] else [] | SawResult _ => [] end.
Proof. unfold attempts_of. rewrite omap_app. f_equal. simpl. destruct o; [| case_decide]; done. Qed.

Lemma entry_ok_other c ops o id e : op_node o <> id -> entry_ok c (ops ++ [o]) id e <-> entry_ok c ops id e.
Proof.
  intros Hne. unfold entry_ok. rewrite results_of_snoc, attempts_of_snoc.
  destruct o; rewrite (decide_False (P := op_node _ = id)) by done; by rewrite !app_nil_r.
Qed.

(** Observing on the entry of the node concerned. *)
Definition observe_entry (e : EntryT) (o : Observation) : option EntryT :=
  match o with
  | SawResult r => if is_none (entry_result e) then Some (mkEntry (entry_activation e) (Some (result_head r)) (attempts e) (attempt_count e)) else None
  | SawAttempt a => if 64 <=? attempt_count e then None else
      match verify_next (attempts e) a with
      | Ok v => Some (mkEntry (entry_activation e) (entry_result e) v (attempt_count e + 1))
      | Err _ => None
      end
  end.

Lemma planner_observe_iff p o p' :
  observe p o = Ok p' <-> exists e e', bt_get (op_node o) (entries p) = Some e /\ op_activation o = entry_activation e /\
    observe_entry e o = Some e' /\ p' = set_entry p (op_node o) e'.
Proof.
  destruct o as [r|a]; simpl; unfold observe_result, observe_attempt, op_node; simpl; destruct (bt_get _ (entries p)) as [e|];
    [| naive_solver | | naive_solver].
  - destruct (bool_decide_reflect (activation (intent r) = entry_activation e)); simpl; [| naive_solver].
    destruct (is_none (entry_result e)) eqn:En; simpl; [| split; [done |]; intros (? & ? & [= <-] & _ & Hx & _); by rewrite En in Hx].
    split; [intros [= <-]; eexists _, _; by rewrite En | intros (? & ? & [= <-] & _ & Hx & ->)]. rewrite En in Hx. by injection Hx as <-.
  - destruct (bool_decide_reflect (st_activation (start a) = entry_activation e)); simpl; [| naive_solver].
    change MAX_ATTEMPTS_PER_NODE with 64. destruct (64 <=? attempt_count e) eqn:En; simpl.
    { split; [done |]. intros (? & ? & [= <-] & _ & Hx & _). by rewrite En in Hx. }
    destruct (verify_next (attempts e) a) as [v|err] eqn:Ev; simpl.
    + split; [intros [= <-]; eexists _, _; by rewrite En, Ev | intros (? & ? & [= <-] & _ & Hx & ->)]. rewrite En, Ev in Hx. by injection Hx as <-.
    + split; [done |]. intros (? & ? & [= <-] & _ & Hx & _). by rewrite En, Ev in Hx.
Qed.

(** One observation carries the entry of the prefix to that of the whole. *)
Lemma entry_ok_step c ops o e e' :
  entry_ok c ops (op_node o) e -> observe_entry e o = Some e' -> entry_ok c (ops ++ [o]) (op_node o) e'.
Proof.
  intros (Ha & Hr & Hv & Hc & Hl) Ho. unfold entry_ok. rewrite results_of_snoc, attempts_of_snoc.
  destruct o as [r|a]; simpl in Ho; rewrite decide_True by done.
  - destruct (entry_result e) eqn:Er; simpl in Ho; [done |]. injection Ho as <-. simpl. rewrite app_nil_r, fmap_app, Hr. done.
  - destruct (Z.leb_spec 64 (attempt_count e)); [done |]. destruct (verify_next (attempts e) a) as [v|] eqn:Ev; [| done].
    injection Ho as <-. simpl. rewrite app_nil_r, length_app, try_fold_app, Hv. simpl. rewrite Ev. simpl. split_and!; try done; lia.
Qed.

Lemma entry_ok_prefix c ops o e' :
  entry_ok c (ops ++ [o]) (op_node o) e' -> exists e, entry_ok c ops (op_node o) e /\ observe_entry e o = Some e'.
Proof.
  intros (Ha & Hr & Hv & Hc & Hl). rewrite results_of_snoc, attempts_of_snoc in *. unfold entry_ok.
  destruct o as [r|a]; rewrite ?decide_True in * by done; rewrite ?app_nil_r, ?length_app in *.
  - exists (mkEntry (entry_activation e') None (attempts e') (attempt_count e')). simpl. rewrite fmap_app in Hr.
    destruct (results_of _ ops) as [|x l]; destruct (entry_result e') as [y|] eqn:Ey; simpl in Hr; try done.
    2: { destruct l; simpl in Hr; done. } injection Hr as <-. split; [by split_and! |]. destruct e'; simpl in *. by subst.
  - rewrite try_fold_app in Hv. apply bind_Ok in Hv as (v & Hv & Hn). simpl in Hn. apply bind_Ok in Hn as (v' & Hn & [= ->]).
    exists (mkEntry (entry_activation e') (entry_result e') v (attempt_count e' - 1)). simpl in *. split; [split_and!; try done; lia |].
    destruct (Z.leb_spec 64 (attempt_count e' - 1)); [lia |]. rewrite Hn. destruct e'; simpl in *. f_equal. f_equal. lia.
Qed.

Lemma tracks_snoc c f ops o p :
  ksorted (fun k => k) (ready_nodes c) ->
  tracks c f (ops ++ [o]) p <-> exists p1, tracks c f ops p1 /\ observe p1 o = Ok p.
Proof.
  intros Hs. assert (Hfwd : forall p1 p', tracks c f ops p1 -> observe p1 o = Ok p' -> tracks c f (ops ++ [o]) p').
  { intros p1 p' (Hc & Hf & He & HF) (e & e' & Hg & Ha & Ho & ->)%planner_observe_iff.
    pose proof (follows_keys_get _ _ _ (op_node o) Hs He) as Hget. rewrite Hg in Hget. destruct Hget as (Hin & _ & Hok).
    split_and!; [done | done | |].
    - simpl. eapply follows_keys_insert; [done | exact He | done | by eapply entry_ok_step |].
      intros i x Hne. by rewrite entry_ok_other.
    - apply Forall_app. split; [done |]. constructor; [| constructor]. rewrite Ha. by destruct Hok. }
  split; [| intros (p1 & ? & ?); by eapply Hfwd]. intros Ht. pose proof Ht as (Hc & Hf & He & [HF Ho]%Forall_app).
  apply Forall_cons in Ho as [Ho _].
  assert (Hin : op_node o ∈ ready_nodes c).
  { unfold for_ready_root in Ho. destruct (bs_contains _ (ready_nodes c)) eqn:E; [by apply bs_contains_iff in E | done]. }
  destruct (follows_keys_exists (entry_ok c ops) (ready_nodes c)) as [m Hm].
  { intros k Hk. pose proof (follows_keys_get _ _ _ k Hs He) as Hget. destruct (bt_get k (entries p)) as [x|]; [| done].
    destruct Hget as (_ & _ & Hx). destruct (decide (op_node o = k)) as [<-|Hne].
    - apply entry_ok_prefix in Hx as (x' & Hx' & _). by exists x'.
    - exists x. by apply entry_ok_other in Hx. }
  pose proof (follows_keys_get _ _ _ (op_node o) Hs Hm) as Hget. destruct (bt_get (op_node o) m) as [e|] eqn:Eg; [| done].
  pose proof (follows_keys_get _ _ _ (op_node o) Hs He) as Hgp. destruct (bt_get (op_node o) (entries p)) as [e'|]; [| done].
  destruct Hget as (_ & _ & Hok), Hgp as (_ & _ & Hok'). apply entry_ok_prefix in Hok' as (e0 & Hok0 & Hoe).
  assert (e0 = e) as -> by by eapply entry_ok_unique.
  assert (Ht1 : tracks c f ops (mkPlanner c f m)) by by split_and!.
  exists (mkPlanner c f m). split; [done |].
  assert (Hobs : observe (mkPlanner c f m) o = Ok (set_entry (mkPlanner c f m) (op_node o) e')).
  { apply planner_observe_iff. exists e, e'. split_and!; try done. destruct Hok as (Hfr & _). rewrite Ho in Hfr. by injection Hfr. }
  rewrite Hobs. f_equal. eapply tracks_unique; [by eapply Hfwd | exact Ht].
Qed.
(** * The seeded planner *)

Lemma seed_all c ids m m' :
  ksorted (fun k => k) (m.*1 ++ ids) ->
  try_fold (seed sha256 c) m ids = Ok m' <-> exists m2, m' = m ++ m2 /\ follows_keys (entry_ok c []) ids m2.
Proof.
  revert m. induction ids as [|id ids IH]; intros m Hs; simpl.
  - split; [intros [= <-]; exists []; split; [by rewrite app_nil_r | split; [done | set_solver]] |].
    intros (m2 & -> & [Hk _]). destruct m2; [by rewrite app_nil_r | done].
  - assert (Hlt : Forall (fun kv => cmp kv.1 id = Lt) m).
    { apply Forall_forall. intros [k v] Hkv. apply list_elem_of_lookup in Hkv as [i Hi].
      apply (ksorted_lookup_lt (fun k => k) (m.*1 ++ id :: ids) i (length m.*1)); [done | | | ].
      - rewrite lookup_app_l by (rewrite length_fmap; by eapply lookup_lt_Some). by rewrite list_lookup_fmap, Hi.
      - by rewrite lookup_app_r, Nat.sub_diag.
      - rewrite length_fmap. by eapply lookup_lt_Some. }
    assert (Hs' : forall e : EntryT, ksorted (fun k => k) ((m ++ [(id, e)]).*1 ++ ids)) by (intros; by rewrite fmap_app, <- app_assoc).
    rewrite bind_Ok. unfold seed at 1. split.
    + intros (s' & Hseed & Hrest). apply bind_Ok in Hseed as (act & Hact%map_err_Ok & [= <-]). rewrite (bt_insert_last _ _ _ Hlt) in Hrest.
      apply IH in Hrest as (m2 & -> & [Hk Hm2]); [| done]. exists ((id, mkEntry act None history_new 0) :: m2).
      rewrite <- app_assoc. split; [done |]. split; [simpl; by f_equal |].
      intros k v [[= -> ->]|?]%elem_of_cons; [| by apply Hm2]. by split_and!.
    + intros (m2 & -> & [Hk Hm2]). destruct m2 as [|[k e] m2]; [done |]. injection Hk as -> Hk.
      destruct (Hm2 id e ltac:(by left)) as (Ha & Hr & Hv & Hc & _). exists (m ++ [(id, e)]). split.
      * apply bind_Ok. exists (entry_activation e). split; [by apply map_err_Ok |]. rewrite bt_insert_last by done.
        do 4 f_equal. destruct e as [a r v n]; simpl in *. injection Hv as <-. by destruct r; subst.
      * apply IH; [done |]. exists m2. rewrite <- app_assoc. split; [done |]. split; [done |]. intros. apply Hm2. by right.
Qed.

Lemma planner_new_iff c f p :
  ksorted (fun k => k) (ready_nodes c) ->
  planner_new sha256 c f = Ok p <->
  RunLease.tenant_id f = Checkpoint.tenant_id c /\ RunLease.run_id f = Checkpoint.run_id c /\ tracks c f [] p.
Proof.
  intros Hs. unfold planner_new, tracks. split.
  - intros Hp. open_guards Hp. injection Hp as <-. apply seed_all in Hx as (m2 & -> & Hm); [| done]. simpl. split_and!; try done.
  - intros (Ht & Hr & <- & <- & Hm & _). rewrite !bool_decide_eq_true_2 by done. simpl.
    rewrite (proj2 (seed_all (checkpoint p) _ [] (entries p) Hs)); [by destruct p | by exists (entries p)].
Qed.

Lemma observe_all_iff c f p0 ops p :
  ksorted (fun k => k) (ready_nodes c) -> planner_new sha256 c f = Ok p0 -> observe_all p0 ops = Ok p <-> tracks c f ops p.
Proof.
  intros Hs Hp0. apply planner_new_iff in Hp0 as (_ & _ & Hp0); [| done]. revert p.
  induction ops as [|o ops IH] using rev_ind; intros p; [unfold observe_all; simpl |].
  - split; [by intros [= <-] |]. intros Hp. f_equal. by eapply tracks_unique.
  - unfold observe_all in *. rewrite try_fold_app, tracks_snoc, bind_Ok by done. setoid_rewrite IH.
    assert (Hone : forall q q', try_fold observe q [o] = Ok q' <-> observe q o = Ok q').
    { intros q q'. simpl. rewrite bind_Ok. naive_solver. }
    by setoid_rewrite Hone.
Qed.

(** * Finished plans *)

Lemma classify_all (p : PlannerT) (t : Timestamp) (l : list (NodeId * EntryT)) (acc ns : list (RecoveryNode Capability Schema Details)) :
  try_fold (classify_step p t) acc l = Ok ns <->
  exists ns2, ns = acc ++ ns2 /\ Forall2 (fun item node => classify_entry item.1 item.2 (fence p) t = Ok node) l ns2.
Proof.
  revert acc. induction l as [|item l IH]; intros acc; simpl.
  - split; [intros [= <-]; exists []; by rewrite app_nil_r | intros (ns2 & -> & HF); inversion HF; by rewrite app_nil_r].
  - rewrite bind_Ok. unfold classify_step at 1. split.
    + intros (s' & (node & Hn & [= <-])%bind_Ok & (ns2 & -> & HF)%IH). exists (node :: ns2). rewrite <- app_assoc. by repeat constructor.
    + intros (ns2 & -> & HF). inversion HF as [|? node ? ns3 Hn HF']; subst. exists (acc ++ [node]). rewrite Hn. split; [done |].
      apply IH. exists ns3. by rewrite <- app_assoc.
Qed.

(** The observation is of the run, not before its checkpoint nor any evidence. *)
Definition observed_after (p : PlannerT) (j : JournalHead) (t : Timestamp) : Prop :=
  jh_tenant_id j = Checkpoint.tenant_id (checkpoint p) /\ jh_run_id j = Checkpoint.run_id (checkpoint p) /\
  jh_sequence (journal_head (checkpoint p)) <= jh_sequence j /\ jh_recorded_at (journal_head (checkpoint p)) <= jh_recorded_at j /\
  jh_recorded_at j <= t /\
  forall id e h, (id, e) ∈ entries p -> h ∈ evidence_heads e -> jh_sequence h <= jh_sequence j /\ jh_recorded_at h <= jh_recorded_at j.

Lemma validate_observation_iff p j t : validate_observation p j t = Ok tt <-> observed_after p j t.
Proof.
  unfold validate_observation, observed_after. cbv zeta. guard_iff.
  destruct (Z.ltb_spec (jh_sequence j) (jh_sequence (journal_head (checkpoint p)))); simpl; [refuted |]. guard_iff.
  rewrite try_fold_checks, Forall_forall. split.
  - intros Hev. split_and!; try done. intros id en h Hin Hh. specialize (Hev (id, en) Hin). unfold check_evidence in Hev. simpl in Hev.
    destruct (existsb _ _) eqn:Ex; [done |]. rewrite existsb_false_iff, Forall_forall in Ex. specialize (Ex h Hh).
    unfold before_evidence in Ex. bool_lia.
  - intros (_ & _ & _ & _ & _ & Hev) [id en] Hin. unfold check_evidence. simpl.
    assert (existsb (before_evidence j) (evidence_heads en) = false) as ->; [| done].
    apply existsb_false_iff, Forall_forall. intros h Hh. destruct (Hev id en h Hin Hh). unfold before_evidence.
    by rewrite orb_false_iff, !Z.ltb_ge.
Qed.
Lemma finish_iff (p : PlannerT) j t plan :
  finish p j t = Ok plan <->
  observed_after p j t /\ plan_checkpoint plan = checkpoint p /\ plan_fence plan = fence p /\ plan_journal_head plan = j /\ observed_at plan = t /\
  Forall2 (fun item node => classify_entry item.1 item.2 (fence p) t = Ok node) (entries p) (nodes plan).
Proof.
  unfold finish. rewrite <- validate_observation_iff. split.
  - intros Hf. open_guards Hf. injection Hf as <-. apply classify_all in Hx0 as (ns & -> & HF). destruct x. by split_and!.
  - intros (-> & Hc & Hf & Hj & Ht & HF). step_ok. rewrite (proj2 (classify_all p t (entries p) [] (nodes plan))); [| by exists (nodes plan)].
    destruct plan; simpl in *. by subst.
Qed.

(** * Decisions *)

Context `{Canonical ActivationT, Canonical NodeAttempt.NodeAttemptStartDigestWire,
          Canonical (NodeAttempt.NodeAttemptCompletionDigestWire Capability Schema Details)}.
#[local] Abbreviation restored := (Attempts.attempt_restored (Details := Details) sha256).

Lemma restored_fence (a : AttemptT) :
  restored a -> RunLease.tenant_id (st_fence (start a)) = NodeAttempt.act_tenant_id (st_activation (start a)) /\
                RunLease.run_id (st_fence (start a)) = NodeAttempt.act_run_id (st_activation (start a)).
Proof.
  intros (Hs & _). unfold NodeAttempt.start_restore in Hs. open_guards Hs. unfold NodeAttempt.start_new, NodeAttempt.validate_start_scope in Hx.
  open_guards Hx. open_guards Hx0. unfold NodeAttempt.validate_scope in Hx3. by open_guards Hx3.
Qed.

Lemma restored_advice (a : AttemptT) co f :
  restored a -> completion a = Some co -> co_outcome co = OFailed f -> retry_advice f <> ReconcileFirst.
Proof.
  intros (_ & Hc & _) Ha Ho E. specialize (Hc co Ha). unfold Attempts.completion_restored, NodeAttempt.completion_restore, NodeAttempt.materialize in Hc.
  open_guards Hc. open_guards Hx. unfold NodeAttempt.validate_completion_shape in Hx0. open_guards Hx0. rewrite Ho, E in Hx0. done.
Qed.

Lemma history_last (l : list AttemptT) (v : HistoryT) : try_fold verify_next history_new l = Ok v -> last_attempt v = last l.
Proof.
  revert v. induction l as [|a l IH] using rev_ind; intros v; [by intros [= <-] |]. rewrite try_fold_app, last_snoc.
  intros Hv. apply bind_Ok in Hv as (v1 & _ & Hv). simpl in Hv. apply bind_Ok in Hv as (v2 & Hv & [= <-]).
  by apply Attempts.node_verify_next_iff in Hv as (_ & _ & ->).
Qed.

(** A fresh start of [act] by [f], after the observation of [j] at [t]. *)
Definition candidate (act : ActivationT) (f : RunLease.RunFence) (j : JournalHead) (t : Timestamp) (v : HistoryT)
  (s : NodeAttemptStart Capability Schema) : Prop :=
  st_activation s = act /\ st_fence s = f /\ st_attempt_id s ∉ attempt_ids v /\
  jh_sequence j < jh_sequence (st_journal_head s) /\ t <= jh_recorded_at (st_journal_head s).

(** The history verifier accepts the attempt that [s] starts. *)
Definition accepts (v : HistoryT) (s : NodeAttemptStart Capability Schema) : Prop := exists v', verify_next v (executing s) = Ok v'.

(** A candidate start is accepted exactly when the last attempt may be retried. *)
Lemma accepts_iff (a : AttemptT) act f j t (v : HistoryT) s id :
  last_attempt v = Some a -> st_activation (start a) = act -> validate_current_fence id (st_fence (start a)) f = Ok tt ->
  jh_sequence (anchor a) <= jh_sequence j -> jh_recorded_at (anchor a) <= t ->
  candidate act f j t v s -> accepts v s <-> Attempts.may_retry a (RunLease.epoch f) (jh_recorded_at (st_journal_head s)).
Proof.
  intros Hl Ha Hf Hj Ht (Hs & Hsf & Hid & Hseq & Hat). unfold validate_current_fence in Hf.
  assert (Hep : RunLease.epoch (st_fence (start a)) <= RunLease.epoch f /\
    (RunLease.epoch (st_fence (start a)) = RunLease.epoch f <-> RunLease.attempt_id (st_fence (start a)) = RunLease.attempt_id f)).
  { repeat match type of Hf with context [?x <? ?y] => destruct (Z.ltb_spec x y) end; try done;
    repeat match type of Hf with context [?x =? ?y] => destruct (Z.eqb_spec x y) end; simpl in Hf; try done; split; lia. }
  unfold accepts. setoid_rewrite Attempts.node_verify_next_iff. rewrite Hl. split.
  - intros (v' & _ & Hp & _). destruct (Hp a eq_refl) as (_ & _ & _ & _ & _ & Hr). unfold Attempts.epoch_of, Attempts.start_time in Hr.
    simpl in Hr. by rewrite Hsf in Hr.
  - intros Hr. eexists. split_and!; [done | | done]. intros p [= <-].
    unfold Attempts.may_follow, Attempts.end_seq, Attempts.end_time, Attempts.start_seq, Attempts.start_time, Attempts.epoch_of, Attempts.worker_of.
    simpl. rewrite Hsf. split_and!; [congruence | lia | lia | lia | tauto | done].
Qed.

(** What a decision promises, given what was observed of its node. *)
Definition decision_ok (f : RunLease.RunFence) (ops : list Observation) (j : JournalHead) (t : Timestamp) (id : NodeId)
  (e : EntryT) (node : RecoveryNode Capability Schema Details) : Prop :=
  let latest := last (attempts_of id ops) in
  node_activation node = entry_activation e /\
  match node with
  | Completed _ r =>
      result_head <$> results_of id ops = [r] /\
      forall a, latest = Some a -> exists co, completion a = Some co /\ co_outcome co = OSucceeded r
  | Dispatchable _ _ =>
      results_of id ops = [] /\ Z.of_nat (length (attempts_of id ops)) < 64 /\
      forall s, candidate (entry_activation e) f j t (attempts e) s -> accepts (attempts e) s
  | Deferred _ at_ =>
      results_of id ops = [] /\ Z.of_nat (length (attempts_of id ops)) < 64 /\ t < at_ /\
      forall s, candidate (entry_activation e) f j t (attempts e) s -> accepts (attempts e) s <-> at_ <= jh_recorded_at (st_journal_head s)
  | InFlight _ h =>
      results_of id ops = [] /\ (exists a, latest = Some a /\ completion a = None /\ st_fence (start a) = f /\ h = start_head (start a)) /\
      forall s, candidate (entry_activation e) f j t (attempts e) s -> ~ accepts (attempts e) s
  | Failed _ fl =>
      results_of id ops = [] /\
      (exists a co, latest = Some a /\ completion a = Some co /\ co_outcome co = OFailed fl /\ retry_advice fl = Never) /\
      forall s, ~ accepts (attempts e) s
  | Exhausted _ h fl =>
      results_of id ops = [] /\ Z.of_nat (length (attempts_of id ops)) = 64 /\
      (exists a, latest = Some a /\ h = start_head (start a)) /\
      forall (p : PlannerT) a, bt_get id (entries p) = Some e -> st_activation (start a) = entry_activation e ->
        act_node_id (entry_activation e) = id -> observe_attempt p a = Err (AttemptLimitExceeded id 64)
  end.
Section Decision.
Variables (c : CheckpointT) (f : RunLease.RunFence) (ops : list Observation) (j : JournalHead) (t : Timestamp) (id : NodeId) (e : EntryT).
Hypothesis Hscope : RunLease.tenant_id f = Checkpoint.tenant_id c /\ RunLease.run_id f = Checkpoint.run_id c.
Hypothesis Hok : entry_ok c ops id e.
Hypothesis Hevidence : forall h, h ∈ evidence_heads e -> jh_sequence h <= jh_sequence j /\ jh_recorded_at h <= t.
Hypothesis Hacts : Forall (fun a => st_activation (start a) = entry_activation e) (attempts_of id ops).
Hypothesis Hrestored : Forall restored (attempts_of id ops).

Lemma latest_attempt : last_attempt (attempts e) = last (attempts_of id ops).
Proof using Hok. destruct Hok as (_ & _ & Hv & _). by apply history_last. Qed.

Lemma latest_facts a : last_attempt (attempts e) = Some a ->
  st_activation (start a) = entry_activation e /\ restored a /\
  jh_sequence (anchor a) <= jh_sequence j /\ jh_recorded_at (anchor a) <= t.
Proof using Hok Hevidence Hacts Hrestored.
  intros Hl. assert (Hin : a ∈ attempts_of id ops).
  { rewrite latest_attempt in Hl. apply last_Some in Hl as [l' ->]. apply elem_of_app. right. by left. }
  rewrite Forall_forall in Hacts, Hrestored. split_and!; [by apply Hacts | by apply Hrestored | |]; apply Hevidence;
    unfold evidence_heads, anchor; rewrite Hl; apply elem_of_app; right; simpl; destruct (completion a); by left.
Qed.

Lemma no_results : entry_result e = None -> results_of id ops = [].
Proof using Hok. intros Er. destruct Hok as (_ & Hr & _). rewrite Er in Hr. by destruct (results_of id ops). Qed.

Lemma same_fence a : last_attempt (attempts e) = Some a -> validate_current_fence id (st_fence (start a)) f = Ok tt ->
  st_fence (start a) <> f -> RunLease.epoch (st_fence (start a)) < RunLease.epoch f.
Proof using Hok Hevidence Hacts Hrestored Hscope.
  intros Hl Hf Hne. destruct (latest_facts a Hl) as (Ha & [Ht Hr]%restored_fence & _). rewrite Ha in Ht, Hr.
  destruct Hok as (Hact & _). unfold for_ready_root in Hact. destruct (negb _); [done |]. apply bind_Ok in Hact as (d & _ & [= Hact]).
  rewrite <- Hact in Ht, Hr. unfold NodeAttempt.act_tenant_id, NodeAttempt.act_run_id in Ht, Hr. simpl in Ht, Hr.
  unfold validate_current_fence in Hf.
  destruct (Z.ltb_spec (RunLease.epoch f) (RunLease.epoch (st_fence (start a)))); [done |].
  destruct (Z.eqb_spec (RunLease.epoch (st_fence (start a))) (RunLease.epoch f)) as [E|]; [| lia].
  destruct (Z.eqb_spec (RunLease.attempt_id (st_fence (start a))) (RunLease.attempt_id f)) as [E'|]; [| done].
  destruct Hne. destruct (st_fence (start a)), f; simpl in *. destruct Hscope. congruence.
Qed.

Lemma exhausted_rejects :
  64 <= attempt_count e -> Z.of_nat (length (attempts_of id ops)) = 64 /\
  forall (p : PlannerT) a, bt_get id (entries p) = Some e -> st_activation (start a) = entry_activation e ->
    act_node_id (entry_activation e) = id -> observe_attempt p a = Err (AttemptLimitExceeded id 64).
Proof using Hok.
  intros Hc. destruct Hok as (_ & _ & _ & Hn & Hle). split; [lia |]. intros p a Hg Ha Hid. unfold observe_attempt. rewrite Ha, Hid, Hg.
  rewrite bool_decide_eq_true_2 by done. change MAX_ATTEMPTS_PER_NODE with 64. simpl. by destruct (Z.leb_spec 64 (attempt_count e)); [| lia].
Qed.

Lemma failure_sound a co fl node :
  last_attempt (attempts e) = Some a -> completion a = Some co -> co_outcome co = OFailed fl -> entry_result e = None ->
  validate_current_fence id (st_fence (start a)) f = Ok tt ->
  classify_failure id (entry_activation e) a (jh_recorded_at (co_journal_head co)) fl (attempt_count e) t = Ok node ->
  decision_ok f ops j t id e node.
Proof using Hok Hevidence Hacts Hrestored.
  intros Hl Hc Ho Er Hf Hn. destruct (latest_facts a Hl) as (Ha & Hres & Hseq & Hrec).
  assert (Hret : forall s, candidate (entry_activation e) f j t (attempts e) s ->
    accepts (attempts e) s <-> exists delay, retry_advice fl = SafeAfter delay /\ jh_recorded_at (co_journal_head co) + delay * 1000 <= jh_recorded_at (st_journal_head s)).
  { intros s Hs. rewrite (accepts_iff a _ f j t _ s id) by done. unfold Attempts.may_retry, Attempts.end_time, anchor. rewrite Hc.
    split; [intros (fl' & d & Ho' & Hd & Hle); exists d; rewrite Ho in Ho'; injection Ho' as <-; done | intros (d & Hd & Hle); by exists fl, d]. }
  assert (Hcount : Z.of_nat (length (attempts_of id ops)) = attempt_count e) by by destruct Hok as (_ & _ & _ & -> & _).
  pose proof (no_results Er) as Hnr. unfold classify_failure in Hn. unfold decision_ok. rewrite <- latest_attempt, Hl.
  destruct (retry_advice fl) as [|delay|] eqn:Eadv; [| | done].
  - injection Hn as <-. simpl. split_and!; [done | done | by exists a, co |]. intros s (v' & Hv).
    apply Attempts.node_verify_next_iff in Hv as (_ & Hp & _). destruct (Hp a Hl) as (_ & _ & _ & _ & _ & Hr).
    unfold Attempts.may_retry in Hr. rewrite Hc in Hr. destruct Hr as (fl' & d & Ho' & Hd & _). rewrite Ho in Ho'. injection Ho' as <-. congruence.
  - change MAX_ATTEMPTS_PER_NODE with 64 in Hn. destruct (Z.leb_spec 64 (attempt_count e)).
    { injection Hn as <-. destruct exhausted_rejects as [Hx Hy]; [done |]. split_and!; try done. by exists a. }
    apply bind_Ok in Hn as (at_ & Hat%ok_or_Ok & Hn). unfold retry_not_before in Hat. destruct (_ || _); [done |].
    destruct (Timestamp.from_unix_micros _) as [x|] eqn:Ex; [| done]. injection Hat as ->. apply Timestamp.from_unix_micros_iff in Ex as [-> _].
    destruct (Z.leb_spec (jh_recorded_at (co_journal_head co) + delay * 1000) t); injection Hn as <-; split_and!; try done; try lia;
      intros s Hs; rewrite Hret by done.
    + exists delay. split; [done |]. destruct Hs as (_ & _ & _ & _ & Hs). lia.
    + split; [intros (d & [= <-] & Hle); done | intros Hle; by exists delay].
Qed.
Lemma classify_sound node : classify_entry id e f t = Ok node -> decision_ok f ops j t id e node.
Proof using Hok Hevidence Hacts Hrestored Hscope.
  intros Hn. pose proof Hok as (_ & Hr & _ & Hc & _). unfold classify_entry in Hn. destruct (entry_result e) as [r|] eqn:Er.
  - open_guards Hn. injection Hn as <-. split; [done |]. split; [done |]. intros a Ha. rewrite <- latest_attempt in Ha. rewrite Ha in Hx0.
    destruct (completion a) as [co|]; [| done]. exists co. split; [done |]. open_guard Hx0.
    destruct (co_outcome co); simpl in *; [by simplify_eq | done].
  - pose proof (no_results Er) as Hnr. destruct (last_attempt (attempts e)) as [a|] eqn:El.
    2: { injection Hn as <-. rewrite latest_attempt in El. apply last_None in El. split_and!; try done; [rewrite El; simpl; lia |].
         intros s (_ & _ & Hid & _). unfold accepts. setoid_rewrite Attempts.node_verify_next_iff.
         eexists. split_and!; [done | | done]. intros p Hp. by rewrite latest_attempt, El in Hp. }
    destruct (latest_facts a El) as (Ha & Hres & Hseq & Hrec). apply bind_Ok in Hn as ([] & Hf & Hn). unfold NodeAttempt.status in Hn.
    destruct (completion a) as [co|] eqn:Eco.
    + destruct (co_outcome co) as [r|fl] eqn:Eo; [done |]. simpl in Hn. rewrite Eo in Hn. by eapply (failure_sound a co fl).
    + destruct (bool_decide_reflect (st_fence (start a) = f)) as [Efe|Efe].
      * injection Hn as <-. unfold decision_ok. rewrite <- latest_attempt, El. split_and!; [done | done | by exists a |].
        intros s Hs Hacc. apply (accepts_iff a (entry_activation e) f j t (attempts e) s id) in Hacc; try done. unfold Attempts.may_retry, Attempts.epoch_of in Hacc.
        rewrite Eco, Efe in Hacc. lia.
      * change MAX_ATTEMPTS_PER_NODE with 64 in Hn. destruct (Z.leb_spec 64 (attempt_count e)); injection Hn as <-.
        { destruct exhausted_rejects as [Hx Hy]; [done |]. unfold decision_ok. rewrite <- latest_attempt, El. split_and!; try done. by exists a. }
        split_and!; try done; [lia |]. intros s Hs. apply (accepts_iff a (entry_activation e) f j t (attempts e) s id); try done.
        unfold Attempts.may_retry, Attempts.epoch_of. rewrite Eco. by apply same_fence.
Qed.
End Decision.

Lemma attempts_of_activation c ops id (e : EntryT) :
  entry_ok c ops id e -> Forall (fun o => for_ready_root sha256 c (op_node o) = Ok (op_activation o)) ops ->
  Forall (fun a => st_activation (start a) = entry_activation e) (attempts_of id ops).
Proof.
  intros (Hact & _) HF. rewrite Forall_forall in HF. apply Forall_forall. intros a Ha. apply list_elem_of_omap in Ha as ([r|a'] & Hin & Ha); [done |].
  case_decide as Hid; [| done]. injection Ha as ->. specialize (HF _ Hin). rewrite Hid, Hact in HF. injection HF as HF. done.
Qed.

(** C19: the planner is a function of the evidence of each node.  It accepts
    a stream of results and attempts exactly when every item is of the
    canonical activation of a ready node, no node has two results or more
    than 64 attempts, and the attempts of each node, in the order streamed,
    form a history the attempt verifier accepts; the planner then holds, for
    the ready nodes in order, that result, that history and that count.  So
    how the records of different nodes interleave does not matter. *)
Theorem recovery_replay_exact (c : CheckpointT) (f : RunLease.RunFence) (p0 : PlannerT) (ops ops' : list Observation)
    (Hs : ready_wf (ready_nodes c)) (Hp0 : planner_new sha256 c f = Ok p0) :
  (forall p, observe_all p0 ops = Ok p <-> tracks c f ops p) /\
  ((forall id, results_of id ops = results_of id ops') -> (forall id, attempts_of id ops = attempts_of id ops') ->
   forall p, observe_all p0 ops = Ok p -> observe_all p0 ops' = Ok p).
Proof.
  destruct Hs as [Hs _]. split; [intros; by apply observe_all_iff |].
  intros Hr Ha p (Hc & Hf & He & HF)%(observe_all_iff c f); [| done | done]. apply (observe_all_iff c f); [done | done |]. split_and!; try done.
  - eapply follows_keys_impl; [| exact He]. intros k v _. unfold entry_ok. by rewrite Hr, Ha.
  - rewrite Forall_forall in HF. apply Forall_forall. intros o Ho. destruct o as [r|a].
    + assert (Hin : r ∈ results_of (op_node (SawResult r)) ops).
      { rewrite Hr. apply list_elem_of_omap. exists (SawResult r). by rewrite decide_True. }
      apply list_elem_of_omap in Hin as ([r'|] & Hin & E); [| done]. case_decide; [| done]. injection E as ->. by apply (HF (SawResult r)).
    + assert (Hin : a ∈ attempts_of (op_node (SawAttempt a)) ops).
      { rewrite Ha. apply list_elem_of_omap. exists (SawAttempt a). by rewrite decide_True. }
      apply list_elem_of_omap in Hin as ([|a'] & Hin & E); [done |]. case_decide; [| done]. injection E as ->. by apply (HF (SawAttempt a)).
Qed.

(** C18: recovery decides as the attempt verifier allows.  A finished plan has
    one decision per ready node, in order, on its canonical activation.  A
    completed node carries its one observed result, the outcome of its last
    attempt if it has any; a fresh start by the planning fence after the
    observation is accepted by the verifier for every dispatchable node, for a
    deferred node exactly from the announced instant on, and never for a node
    that is in flight under that fence or failed for good; an exhausted node
    has had its 64 attempts and takes no more. *)
Theorem recovery_decisions_sound (c : CheckpointT) (f : RunLease.RunFence) (p0 p : PlannerT) (ops : list Observation)
    (j : JournalHead) (t : Timestamp) (plan : ReadyNodeRecoveryPlan Capability Schema Details)
    (Hs : ready_wf (ready_nodes c)) (Hp0 : planner_new sha256 c f = Ok p0) (Hp : observe_all p0 ops = Ok p)
    (Hres : forall id, Forall restored (attempts_of id ops)) (Hplan : finish p j t = Ok plan) :
  (act_node_id ∘ node_activation <$> nodes plan) = ready_nodes c /\
  Forall2 (fun id node => exists e, entry_ok c ops id e /\ decision_ok f ops j t id e node) (ready_nodes c) (nodes plan).
Proof.
  destruct Hs as [Hs _]. apply (observe_all_iff c f) in Hp as (Hc & Hf & [Hk He] & HF); [| done | done].
  apply planner_new_iff in Hp0 as (Htn & Hrn & _); [| done]. apply finish_iff in Hplan as ((_ & _ & _ & _ & Hjt & Hev) & _ & _ & _ & _ & Hns).
  assert (Hall : Forall2 (fun id node => act_node_id (node_activation node) = id /\ exists e, entry_ok c ops id e /\ decision_ok f ops j t id e node)
            (ready_nodes c) (nodes plan)).
  { rewrite <- Hk. apply Forall2_fmap_l. apply Forall2_same_length_lookup. apply Forall2_same_length_lookup in Hns as [Hlen Hns]. split; [done |].
    intros i [id e] node Hi Hnode. specialize (Hns i (id, e) node Hi Hnode). simpl in *. rewrite Hf in Hns.
    assert (Hin : (id, e) ∈ entries p) by by eapply list_elem_of_lookup_2. specialize (He id e Hin).
    assert (Hd : decision_ok f ops j t id e node).
    { eapply (classify_sound c f ops j t id e); try done; [| by eapply attempts_of_activation].
      intros h Hh. destruct (Hev id e h Hin Hh). lia. }
    split; [| by exists e]. destruct Hd as [-> _]. destruct He as (Hact & _). unfold for_ready_root in Hact.
    destruct (negb _); [done |]. apply bind_Ok in Hact as (d & _ & [= Hact]). by rewrite <- Hact. }
  split.
  - clear -Hall. induction Hall as [|id node ids ns [Hid _] _ IH]; [done |]. rewrite fmap_cons, IH. simpl. by rewrite Hid.
  - eapply Forall2_impl; [exact Hall |]. by intros id node [_ ?].
Qed.
(** * The barrier of a complete plan *)

#[local] Abbreviation HeadT := (PendingNodeResultHead Capability Schema).

Lemma heads_loop b (values col : list HeadT) ids base :
  (forall x, x ∈ ids <-> x ∈ head_key <$> col) -> (base = None \/ base = Some b) ->
  Forall (fun h => base_checkpoint (rh_activation h) = b /\ is_root (graph_namespace (rh_activation h)) = true) values ->
  NoDup (head_key <$> col ++ values) -> Z.of_nat (length (col ++ values)) <= 1024 ->
  exists ids' base', try_fold heads_step (col, ids, base) values = Ok (col ++ values, ids', base').
Proof.
  revert col ids base. induction values as [|h values IH]; intros col ids base Hids Hbase HF Hn Hl.
  { exists ids, base. by rewrite app_nil_r. }
  apply Forall_cons in HF as [[Hb Hroot] HF].
  assert (Hfresh : head_key h ∉ head_key <$> col).
  { rewrite fmap_app in Hn. apply NoDup_app in Hn as (_ & Hd & _). intros Hin. apply (Hd _ Hin). by left. }
  assert (Hstep : heads_step (col, ids, base) h = Ok (col ++ [h], bs_insert (head_key h) ids, Some b)).
  { unfold heads_step. change BARRIER_MAX_LEN with 1024.
    destruct (Z.eqb_spec (Z.of_nat (length col)) 1024); [rewrite length_app in Hl; simpl in Hl; lia |]. rewrite Hroot. cbn [negb].
    assert (bs_contains (head_key h) ids = false) as Hnew by (apply bs_contains_false; by rewrite Hids).
    destruct Hbase as [->| ->]; simpl; rewrite ?Hb, ?bool_decide_eq_true_2 by done; simpl; by rewrite Hnew. }
  cbn [try_fold]. rewrite Hstep. step_ok.
  assert (Ea : col ++ h :: values = (col ++ [h]) ++ values) by by rewrite <- app_assoc. rewrite Ea in Hn, Hl |- *.
  apply IH; try done; [| by right].
  intros x. rewrite bs_insert_elem, Hids, fmap_app, elem_of_app. simpl. rewrite list_elem_of_singleton. tauto.
Qed.

Lemma heads_try_new_root b (values : list HeadT) :
  values <> [] -> Z.of_nat (length values) <= 1024 ->
  Forall (fun h => base_checkpoint (rh_activation h) = b /\ graph_namespace (rh_activation h) = namespace_root) values ->
  ksorted (fun k => k) (act_node_id ∘ rh_activation <$> values) -> heads_try_new values = Ok values.
Proof.
  intros Hne Hl HF Hs. assert (Hks : ksorted head_key values).
  { clear Hne Hl. induction values as [|h values IH]; [constructor |]. apply Forall_cons in HF as [[_ Hh] HF].
    inversion Hs as [|? ? Hlt Hs']; subst. constructor; [| by apply IH]. rewrite Forall_fmap in Hlt. rewrite Forall_forall in *.
    intros x Hx. specialize (Hlt x Hx). destruct (HF x Hx) as [_ Hn]. unfold head_key. rewrite Hh, Hn.
    change (match cmp namespace_root namespace_root with Eq => cmp (act_node_id (rh_activation h)) (act_node_id (rh_activation x)) | o => o end = Lt).
    by rewrite cmp_refl. }
  destruct (heads_loop b values [] [] None) as (ids & base & Hloop); try done; [by left | | by apply ksorted_keys_NoDup |].
  { eapply Forall_impl; [exact HF |]. intros h [? Hn]. split; [done |]. by rewrite Hn. }
  unfold heads_try_new. rewrite Hloop. simpl. destruct values; [done |]. simpl. f_equal.
  apply (ksorted_ext head_key); [apply sort_by_key_ksorted; by apply ksorted_keys_NoDup | done |]. intros x. by rewrite sort_by_key_perm.
Qed.

Lemma classify_result id (e : EntryT) f t node : classify_entry id e f t = Ok node -> node_result node = entry_result e.
Proof.
  unfold classify_entry. destruct (entry_result e) as [r|].
  - intros Hn. open_guards Hn. by injection Hn as <-.
  - destruct (last_attempt (attempts e)) as [a|]; [| by intros [= <-]]. intros Hn. apply bind_Ok in Hn as (u & _ & Hn).
    destruct (NodeAttempt.status a).
    + repeat case_match; simplify_eq; done.
    + done.
    + apply bind_Ok in Hn as (co & _ & Hn). destruct (co_outcome co); [done |]. unfold classify_failure in Hn.
      destruct (retry_advice failure); [by injection Hn as <- | | done]. destruct (_ <=? _); [by injection Hn as <- |].
      apply bind_Ok in Hn as (u' & _ & Hn). destruct (_ <=? _); by injection Hn as <-.
Qed.

Lemma completed_iff (node : RecoveryNode Capability Schema Details) : kind node = KCompleted <-> exists r, node_result node = Some r.
Proof. destruct node; simpl; naive_solver. Qed.

(** All results present: their heads, in the order of the nodes. *)
Lemma results_complete (c : CheckpointT) ops ids (es : list (NodeId * EntryT)) (ns : list (RecoveryNode Capability Schema Details)) :
  es.*1 = ids -> (forall k v, (k, v) ∈ es -> entry_ok c ops k v) ->
  Forall (fun o => for_ready_root sha256 c (op_node o) = Ok (op_activation o)) ops ->
  Forall2 (fun item node => node_result node = entry_result item.2) es ns -> Forall (fun node => kind node = KCompleted) ns ->
  let hs := omap node_result ns in
  Forall2 (fun id h => result_head <$> results_of id ops = [h]) ids hs /\
  (act_node_id ∘ rh_activation <$> hs) = ids /\
  Forall (fun h => base_checkpoint (rh_activation h) = head c /\ graph_namespace (rh_activation h) = namespace_root) hs.
Proof.
  intros <- Hok Hops HF Hk. induction HF as [|[id e] node es ns Hn HF IH]; simpl; [split_and!; [constructor | done | constructor] |].
  apply Forall_cons in Hk as [Hk Hks]. apply completed_iff in Hk as [h Hh]. rewrite Hh. simpl in Hn.
  destruct IH as (Hpair & Hid & Hroot); [intros; apply Hok; by right | done |].
  destruct (Hok id e ltac:(by left)) as (Hact & Hr & _). rewrite <- Hn, Hh in Hr. simpl in Hr.
  assert (Hra : for_ready_root sha256 c id = Ok (rh_activation h)).
  { destruct (results_of id ops) as [|r l] eqn:Er; [done |]. injection Hr as <- Hl. assert (Hin : r ∈ results_of id ops) by (rewrite Er; by left).
    apply list_elem_of_omap in Hin as ([r'|] & Hin & E); [| done]. case_decide as Hid'; [| done]. injection E as ->.
    rewrite Forall_forall in Hops. specialize (Hops _ Hin). by rewrite Hid' in Hops. }
  unfold for_ready_root in Hra. destruct (negb _); [done |]. apply bind_Ok in Hra as (d & _ & [= Hra]). split_and!.
  - by constructor.
  - simpl. f_equal; [by rewrite <- Hra | done].
  - constructor; [by rewrite <- Hra | done].
Qed.

(** a finished plan is ready for its barrier exactly when there are ready
    nodes and each has an observed result; asking it for its barrier heads
    never fails, and a ready plan then yields the heads of those results in
    the order of the nodes. *)
Theorem recovery_barrier_exact (c : CheckpointT) (f : RunLease.RunFence) (p0 p : PlannerT) (ops : list Observation)
    (j : JournalHead) (t : Timestamp) (plan : ReadyNodeRecoveryPlan Capability Schema Details)
    (Hs : ready_wf (ready_nodes c)) (Hp0 : planner_new sha256 c f = Ok p0) (Hp : observe_all p0 ops = Ok p)
    (Hplan : finish p j t = Ok plan) :
  (is_barrier_ready plan = true <-> ready_nodes c <> [] /\ forall id, id ∈ ready_nodes c -> results_of id ops <> []) /\
  (if is_barrier_ready plan
   then exists hs, barrier_result_heads plan = Ok (Some hs) /\ Forall2 (fun id h => result_head <$> results_of id ops = [h]) (ready_nodes c) hs
   else barrier_result_heads plan = Ok None).
Proof.
  destruct Hs as [Hs Hlen]. apply (observe_all_iff c f) in Hp as (Hc & Hf & [Hk He] & HF); [| done | done].
  apply finish_iff in Hplan as (_ & _ & _ & _ & _ & Hns).
  assert (Hres : Forall2 (fun item node => node_result node = entry_result item.2) (entries p) (nodes plan)).
  { eapply Forall2_impl; [exact Hns |]. intros [id e] node Hn. by eapply classify_result. }
  assert (Hl : length (nodes plan) = length (ready_nodes c)) by by rewrite <- (Forall2_length _ _ _ Hns), <- Hk, length_fmap.
  assert (Hready : is_barrier_ready plan = true <-> ready_nodes c <> [] /\ Forall (fun node => kind node = KCompleted) (nodes plan)).
  { unfold is_barrier_ready. rewrite andb_true_iff, List.forallb_forall, negb_true_iff, Nat.eqb_neq, Hl, Forall_forall.
    assert (length (ready_nodes c) <> 0%nat <-> ready_nodes c <> []) as -> by (destruct (ready_nodes c); simpl; split; (done || lia)).
    setoid_rewrite bool_decide_eq_true. by setoid_rewrite list_elem_of_In. }
  assert (Hall : Forall (fun node => kind node = KCompleted) (nodes plan) <-> forall id, id ∈ ready_nodes c -> results_of id ops <> []).
  { rewrite <- Hk. clear -Hres He. induction Hres as [|[id e] node es ns Hn Hres IH]; simpl; [split; [set_solver | constructor] |].
    destruct (He id e ltac:(by left)) as (_ & Hr & _). rewrite Forall_cons, IH, completed_iff by (intros; apply He; by right).
    simpl in Hn. rewrite Hn. split.
    - intros [[r Hr'] Hrest] i [->|Hi]%elem_of_cons; [rewrite Hr' in Hr; by destruct (results_of id ops) | by apply Hrest].
    - intros Hi. split; [| intros; apply Hi; by right]. specialize (Hi id ltac:(by left)).
      destruct (entry_result e) as [r|]; [by exists r |]. by destruct (results_of id ops). }
  split; [by rewrite Hready, Hall |]. unfold barrier_result_heads. destruct (is_barrier_ready plan) eqn:Er; [| done]. cbn [negb].
  destruct (proj1 Hready eq_refl) as [Hne Hcomp].
  destruct (results_complete c ops (ready_nodes c) (entries p) (nodes plan) Hk He HF Hres Hcomp) as (Hpair & Hid & Hroot).
  exists (omap node_result (nodes plan)). split; [| done]. rewrite (heads_try_new_root (head c)); [done | | | done | by rewrite Hid].
  - intros E. rewrite E in Hid. by rewrite <- Hid in Hne.
  - apply Forall2_length in Hpair. rewrite <- Hpair. exact Hlen.
Qed.
End Laws.

(** ** A completed node and one whose worker was superseded *)

#[local] Instance demo_encoder {T} : Canonical T := fun _ => Some [1].
Definition demo_sha (b : bytes) : bytes := [Z.of_nat (length b)].
Definition demo_journal (seq at_ : Z) : JournalHead := mkJournalHead [97] 5 seq (100 + seq) at_ [].
Definition demo_fence (worker epoch : Z) : RunLease.RunFence := RunLease.mkFence [97] 5 worker epoch.
Definition demo_checkpoint : Checkpoint Z Z :=
  mkCheckpoint [97] 5 1 0 (mkGraphReference 1 [1] 7) (mkState 7 Null []) [bytes_of "a"; bytes_of "b"] None [] (demo_journal 1 10) [].
Definition demo_activation (id : NodeId) : NodeActivation Z Z := Eval vm_compute in
  mkActivation (head demo_checkpoint) namespace_root id [31].
Definition demo_result : PendingNodeResult Z Z unit unit unit :=
  mkResult (mkResultIntent (demo_activation (bytes_of "a")) Unchanged Continue tt None []) (demo_fence 9 1) (demo_journal 3 20) [].
Definition demo_attempt : NodeAttempt Z Z unit := Eval vm_compute in
  match NodeAttempt.start_new demo_sha (demo_activation (bytes_of "b")) 21 (demo_fence 9 1) (demo_journal 2 20) with
  | Ok s => executing s
  | Err _ => executing (NodeAttempt.mkStart (demo_activation []) [] 0 (demo_fence 0 0) (demo_journal 0 0) [])
  end.
Definition demo_ops : list (Observation (InterruptRequest := unit) (Bindings := unit) (Join := unit)) :=
  [SawAttempt demo_attempt; SawResult demo_result].
Definition demo_seeded : ReadyNodeRecoveryPlanner Z Z unit := Eval vm_compute in
  match planner_new demo_sha demo_checkpoint (demo_fence 12 2) with Ok p => p | Err _ => mkPlanner demo_checkpoint (demo_fence 0 0) [] end.
Definition demo_planner : ReadyNodeRecoveryPlanner Z Z unit := Eval vm_compute in
  match observe_all demo_seeded demo_ops with Ok p => p | Err _ => demo_seeded end.
Definition demo_plan : ReadyNodeRecoveryPlan Z Z unit := Eval vm_compute in
  match finish demo_planner (demo_journal 4 30) 31 with Ok p => p | Err _ => mkPlan demo_checkpoint (demo_fence 0 0) (demo_journal 0 0) 0 [] end.

Lemma demo_ready : ready_wf (ready_nodes demo_checkpoint).
Proof. split; [repeat constructor | vm_compute; done]. Qed.

Lemma demo_run :
  planner_new demo_sha demo_checkpoint (demo_fence 12 2) = Ok demo_seeded /\ observe_all demo_seeded demo_ops = Ok demo_planner /\
  finish demo_planner (demo_journal 4 30) 31 = Ok demo_plan /\ (kind <$> nodes demo_plan) = [KCompleted; KDispatchable].
Proof. split_and!; vm_compute; reflexivity. Qed.

Lemma demo_attempts_restored id : Forall (Attempts.attempt_restored (EqDecision0 := ord_eq_dec) demo_sha) (attempts_of id demo_ops).
Proof.
  assert (Hr : Attempts.attempt_restored (EqDecision0 := ord_eq_dec) demo_sha demo_attempt) by (split_and!; [vm_compute; reflexivity | done | vm_compute; reflexivity]).
  unfold attempts_of, demo_ops. simpl. case_decide; repeat constructor; done.
Qed.

Lemma recovery_replay_exact_witness :
  observe_all demo_seeded (rev demo_ops) = Ok demo_planner.
Proof.
  destruct demo_run as (Hn & Ho & _). refine (proj2 (recovery_replay_exact demo_sha demo_checkpoint (demo_fence 12 2) demo_seeded
    demo_ops (rev demo_ops) demo_ready Hn) _ _ demo_planner Ho); intros id; unfold results_of, attempts_of; simpl; repeat case_decide; done.
Defined.

Lemma recovery_decisions_sound_witness :
  (act_node_id ∘ node_activation <$> nodes demo_plan) = [bytes_of "a"; bytes_of "b"].
Proof.
  destruct demo_run as (Hn & Ho & Hf & _).
  exact (proj1 (recovery_decisions_sound demo_sha demo_checkpoint (demo_fence 12 2) demo_seeded demo_planner demo_ops
    (demo_journal 4 30) 31 demo_plan demo_ready Hn Ho demo_attempts_restored Hf)).
Defined.

Lemma recovery_barrier_exact_witness : is_barrier_ready demo_plan = false /\ barrier_result_heads demo_plan = Ok None.
Proof.
  destruct demo_run as (Hn & Ho & Hf & _).
  pose proof (proj2 (recovery_barrier_exact demo_sha demo_checkpoint (demo_fence 12 2) demo_seeded demo_planner demo_ops
    (demo_journal 4 30) 31 demo_plan demo_ready Hn Ho Hf)) as H.
  split; [vm_compute; reflexivity | exact H].
Defined.
End Replay.
