(* ===== verification/ChildRun.v ===== *)
(** Child runs: the logical ownership key of a child
    (crates/stateknot-core/src/child_run.rs), the declaration of a child by a
    graph (child_run_policy.rs) and the integrity-bound preparation of a child
    admission (child_run_admission.rs).

    Serialisers, the canonical encoder, SHA-256 and the offline schema
    validator are parameters. *)

From Stdlib Require Import ZArith Lia.
From stdpp Require Import prelude.
From S2P Require Import Prelude Ordered Json Scope BoundedJson Time Costs Budget BudgetLaws Checkpoint Graph Run Journal Admission Barrier GraphPlan NodeAttempt.

Open Scope Z_scope.
Import Timestamp(Timestamp).

Module ChildRun.

Definition KEY_DOMAIN : bytes := bytes_of "stateknot-child-run-key-v1" ++ [0].
Definition AGENT_DOMAIN : bytes := bytes_of "stateknot.child-agent-definition.v1" ++ [0].
Definition SPAWN_DOMAIN : bytes := bytes_of "stateknot.child-run-admission-intent.v1" ++ [0].
Definition MAX_SNAPSHOT_BYTES : Z := 16 * 1024 * 1024.

Inductive ChildRunKeyError := CanonicalSerialization | KeyDigestMismatch.

Inductive ChildRunAdmissionIntentError :=
| ChildScopeMismatch
| UnsupportedParentNamespace
| ChildGraphMismatch
| ParentMismatch
| PrincipalMismatch
| ScopeWidening
| ChildBudget (source : ResolvedBudget.BudgetNarrowingError)
| ParentCheckpointMismatch
| ParentNotReady
| ParentActivationMismatch
| ClockBeforeCheckpoint
| DeadlineExpired
| SchemaInvalid (source : GraphSchemaValidationError)
| SnapshotTooLarge
| IntegritySerialization
| NonInteroperableNumber
| SpawnDigestMismatch.

(** [ChildRunSlot::new]. *)
Definition slot_new (value : bytes) : result NodeIdError ChildRunSlot := node_id_new value.

Record KeyPreimage := mkKeyPreimage {
  kp_tenant_id : TenantId;
  kp_parent_run_id : RunId;
  kp_parent_activation_digest : Digest;
  kp_child_slot : ChildRunSlot
}.

Section Children.
Context {Capability Schema Principal Definition_ : Type} `{RustOrd Capability, EqDecision Schema, EqDecision Principal}.
Abbreviation ActivationT := (NodeActivation Capability Schema).
Abbreviation CheckpointT := (Checkpoint Capability Schema).
Abbreviation GraphT := (CompiledGraph Capability Schema).
Abbreviation DescriptorT := (Admission.AgentDescriptor Capability Schema Definition_).
Abbreviation ChildIntentT := (Admission.AgentAdmissionIntent Capability Schema Principal Definition_).
Abbreviation AdmissionT := (Admission.AgentAdmission Capability Schema Principal Definition_).
Abbreviation StateT := (CheckpointState Schema).

(** * Keys *)

Record ChildRunKey := mkKey { key_parent : ActivationT; key_slot : ChildRunSlot; key_digest : Digest }.

#[global] Instance ChildRunKey_eq_dec : EqDecision ChildRunKey.
Proof. solve_decision. Defined.

Definition key_tenant_id (self : ChildRunKey) : TenantId := NodeAttempt.act_tenant_id (key_parent self).
Definition parent_run_id (self : ChildRunKey) : RunId := NodeAttempt.act_run_id (key_parent self).

(** The named fields of the spawn digest: no candidate identities. *)
Record SpawnWire := mkSpawnWire {
  sw_key : Digest;
  sw_parent_admission_digest : Digest;
  sw_tenant_id : TenantId;
  sw_descriptor : DescriptorT;
  sw_request : Admission.AgentRequest Schema;
  sw_budget_layers : list (Admission.AgentAdmissionBudgetLayer Capability);
  sw_budget : ResolvedBudget.t;
  sw_graph : GraphReference Capability Schema;
  sw_authority : Admission.AgentAdmissionAuthority Capability Schema Principal;
  sw_initial_state : StateT;
  sw_initial_ready_nodes : ReadyNodes;
  sw_parent_close_policy : bytes
}.

Record ChildRunAdmissionIntent := mkChildIntent {
  ci_key : ChildRunKey;
  parent_admission_digest : Digest;
  child : ChildIntentT;
  child_graph : GraphT;
  initial_state : StateT;
  spawn_digest : Digest
}.

Context `{Canonical ActivationT, Canonical KeyPreimage, Canonical ReadyNodeInputDigestWire,
          Serialize DescriptorT, Serialize SpawnWire, Serialize ChildRunAdmissionIntent, Canonical Value}.
Variable sha256 : bytes -> bytes.

Definition key_new (parent : ActivationT) (slot : ChildRunSlot) : result ChildRunKeyError ChildRunKey :=
  ad ← map_err (fun _ => CanonicalSerialization) (NodeAttempt.compute_activation_digest sha256 parent);
  canonical ← ok_or (to_vec (mkKeyPreimage (NodeAttempt.act_tenant_id parent) (NodeAttempt.act_run_id parent) ad slot))
                CanonicalSerialization;
  Ok (mkKey parent slot (sha256 (KEY_DOMAIN ++ canonical))).

Definition key_restore (wire : ChildRunKey) : result ChildRunKeyError ChildRunKey :=
  key ← key_new (key_parent wire) (key_slot wire);
  if negb (bool_decide (key_digest key = key_digest wire)) then Err KeyDigestMismatch else Ok key.

(** * Declarations *)

Definition from_descriptor (desc : DescriptorT) : result ChildRunPolicyError (ChildAgentReference Capability) :=
  canonical ← map_err (fun _ : Admission.AgentAdmissionIntentError Capability Schema => AgentEncoding)
                (Admission.canonical_bytes desc);
  Ok (mkAgentReference (Admission.metadata_identity desc) (sha256 (AGENT_DOMAIN ++ canonical))).

Definition declaration_new (id : NodeId) (slot : ChildRunSlot) (agent : DescriptorT) (g : GraphT)
  : result ChildRunPolicyError (ChildRunDeclaration Capability Schema) :=
  if negb (bool_decide (Admission.input_schema agent = Graph.input_schema g))
     || negb (bool_decide (Admission.output_schema agent = Graph.output_schema g)) then Err TargetSchemaMismatch else
  ref ← from_descriptor agent;
  Ok (mkDeclaration id slot ref (reference g) (Admission.input_schema agent) (Admission.output_schema agent)).

Definition validate_declaration (self : ChildRunAdmissionIntent) (parent : GraphT) : result ChildRunPolicyError unit :=
  if negb (bool_decide (head_graph (base_checkpoint (key_parent (ci_key self))) = reference parent))
  then Err ParentGraphMismatch else
  policy ← ok_or (child_runs parent) DelegationNotDeclared;
  decl ← ok_or (declaration policy (act_node_id (key_parent (ci_key self))) (key_slot (ci_key self))) DelegationNotDeclared;
  _ ← validate_target decl (child_graph self) (child_limits policy);
  ref ← from_descriptor (Admission.descriptor (child self));
  if negb (bool_decide (decl_agent decl = ref)) then Err TargetAgentMismatch else Ok tt.

(** * Admission intents *)

Definition canonical {T} `{Serialize T} (value : T) : result ChildRunAdmissionIntentError bytes :=
  map_err (fun error : Admission.AgentAdmissionIntentError Capability Schema =>
             match error with
             | Admission.NonInteroperableNumber => NonInteroperableNumber
             | _ => IntegritySerialization
             end) (Admission.canonical_bytes value).

Definition spawn_wire (self : ChildRunAdmissionIntent) : SpawnWire :=
  mkSpawnWire (key_digest (ci_key self)) (parent_admission_digest self) (tenant_id (Admission.provenance (child self)))
    (Admission.descriptor (child self)) (Admission.request (child self)) (Admission.budget_layers (child self))
    (Admission.budget (child self)) (Admission.graph (child self)) (Admission.authority (child self))
    (initial_state self) (entry_nodes (child_graph self)) (bytes_of "cancel_and_join").

Definition compute_spawn_digest (self : ChildRunAdmissionIntent) : result ChildRunAdmissionIntentError Digest :=
  c ← canonical (spawn_wire self);
  Ok (sha256 (SPAWN_DOMAIN ++ c)).

Definition intent_canonical_bytes (self : ChildRunAdmissionIntent) : result ChildRunAdmissionIntentError bytes :=
  b ← canonical self;
  if MAX_SNAPSHOT_BYTES <? Z.of_nat (length b) then Err SnapshotTooLarge else Ok b.

Definition build (key : ChildRunKey) (parent_digest : Digest) (ch : ChildIntentT) (g : GraphT) (st : StateT)
  : result ChildRunAdmissionIntentError ChildRunAdmissionIntent :=
  if negb (bool_decide (key_tenant_id key = tenant_id (Admission.provenance ch)))
     || bool_decide (parent_run_id key = run_id (Admission.provenance ch)) then Err ChildScopeMismatch else
  if negb (is_root (graph_namespace (key_parent key))) then Err UnsupportedParentNamespace else
  if negb (bool_decide (Admission.graph ch = reference g))
     || negb (bool_decide (Admission.input_schema (Admission.descriptor ch) = Graph.input_schema g))
     || negb (bool_decide (Admission.output_schema (Admission.descriptor ch) = Graph.output_schema g))
     || negb (bool_decide (state_schema st = graph_state_schema g)) then Err ChildGraphMismatch else
  d ← compute_spawn_digest (mkChildIntent key parent_digest ch g st (sha256 []));
  let intent := mkChildIntent key parent_digest ch g st d in
  _ ← intent_canonical_bytes intent;
  Ok intent.

Definition validate_parent (self : ChildRunAdmissionIntent) (parent : AdmissionT) : result ChildRunAdmissionIntentError unit :=
  let admitted := Admission.intent parent in
  if negb (bool_decide (parent_admission_digest self = Admission.digest parent))
     || negb (bool_decide (key_tenant_id (ci_key self) = tenant_id (Admission.provenance admitted)))
     || negb (bool_decide (parent_run_id (ci_key self) = run_id (Admission.provenance admitted)))
     || negb (bool_decide (head_graph (base_checkpoint (key_parent (ci_key self))) = Admission.graph admitted))
     || (jh_recorded_at (head_journal_head (base_checkpoint (key_parent (ci_key self)))) <? Admission.admitted_at parent)
  then Err ParentMismatch else
  if negb (bool_decide (Admission.principal (Admission.authority (child self)) = Admission.principal (Admission.authority admitted)))
  then Err PrincipalMismatch else
  if negb (Scope.is_subset (Admission.granted_scopes (Admission.authority (child self)))
             (Admission.granted_scopes (Admission.authority admitted))) then Err ScopeWidening else
  map_err ChildBudget (ResolvedBudget.validate_narrowing (Admission.budget (child self)) (Admission.budget admitted)).

Definition child_intent_new (parent : AdmissionT) (key : ChildRunKey) (ch : ChildIntentT) (g : GraphT) (st : StateT)
  : result ChildRunAdmissionIntentError ChildRunAdmissionIntent :=
  intent ← build key (Admission.digest parent) ch g st;
  _ ← validate_parent intent parent;
  Ok intent.

Definition child_intent_restore (wire : ChildRunAdmissionIntent) : result ChildRunAdmissionIntentError ChildRunAdmissionIntent :=
  intent ← build (ci_key wire) (parent_admission_digest wire) (child wire) (child_graph wire) (initial_state wire);
  if negb (bool_decide (spawn_digest intent = spawn_digest wire)) then Err SpawnDigestMismatch else Ok intent.

Variable schema_validate : Schema -> Value -> result GraphSchemaValidationError unit.

Definition check_document (_ : unit) (doc : Schema * Value) : result ChildRunAdmissionIntentError unit :=
  map_err SchemaInvalid (schema_validate doc.1 doc.2).

Definition validate_for (self : ChildRunAdmissionIntent) (parent : AdmissionT) (c : CheckpointT) (observed : Timestamp)
  : result ChildRunAdmissionIntentError unit :=
  _ ← validate_parent self parent;
  if negb (bool_decide (base_checkpoint (key_parent (ci_key self)) = head c)) then Err ParentCheckpointMismatch else
  activation ← map_err (fun _ => ParentNotReady) (for_ready_root sha256 c (act_node_id (key_parent (ci_key self))));
  if negb (bool_decide (activation = key_parent (ci_key self))) then Err ParentActivationMismatch else
  if observed <? jh_recorded_at (journal_head c) then Err ClockBeforeCheckpoint else
  if (ResolvedBudget.deadline (Admission.budget (child self)) <=? observed)
     || (ResolvedBudget.deadline (Admission.budget (Admission.intent parent)) <=? observed) then Err DeadlineExpired else
  let evidence := Admission.evidence (Admission.authority (child self)) in
  try_fold check_document tt
    [ (Admission.request_input_schema (Admission.request (child self)), bounded_value (Admission.request_input (Admission.request (child self))));
      (state_schema (initial_state self), state_data (initial_state self));
      (Journal.payload_schema evidence, bounded_value (Journal.payload_data evidence)) ].
End Children.
Arguments ChildRunKey : clear implicits.
Arguments SpawnWire : clear implicits.
Arguments ChildRunAdmissionIntent : clear implicits.
End ChildRun.

(** Laws of delegation: exactly what a child admission needs from its parent,
    that retries keep their identity, and that a chain of delegations only
    narrows authority and budget and is bounded in depth. *)

Module Delegation.
Import ChildRun.

Section Laws.
Context {Capability Schema Principal Definition_ : Type} `{RustOrd Capability, EqDecision Schema, EqDecision Principal}.
Abbreviation ActivationT := (NodeActivation Capability Schema).
Abbreviation GraphT := (CompiledGraph Capability Schema).
Abbreviation KeyT := (ChildRunKey Capability Schema).
Abbreviation ChildIntentT := (Admission.AgentAdmissionIntent Capability Schema Principal Definition_).
Abbreviation AdmissionT := (Admission.AgentAdmission Capability Schema Principal Definition_).
Abbreviation IntentT := (ChildRunAdmissionIntent Capability Schema Principal Definition_).
Abbreviation StateT := (CheckpointState Schema).
Context `{Canonical ActivationT, Canonical KeyPreimage, Canonical ReadyNodeInputDigestWire,
          Serialize (Admission.AgentDescriptor Capability Schema Definition_),
          Serialize (SpawnWire Capability Schema Principal Definition_), Serialize IntentT, Canonical Value}.
Context `{Serialize Admission.AdmissionDigestWire, Serialize AdmissionT}.
Variable sha256 : bytes -> bytes.

(** ** Preparation *)

Definition scope_ok (key : KeyT) (ch : ChildIntentT) : Prop :=
  key_tenant_id key = tenant_id (Admission.provenance ch) /\ parent_run_id key <> run_id (Admission.provenance ch) /\
  is_root (graph_namespace (key_parent key)) = true.

Definition graph_ok (ch : ChildIntentT) (g : GraphT) (st : StateT) : Prop :=
  Admission.graph ch = reference g /\ Admission.input_schema (Admission.descriptor ch) = Graph.input_schema g /\
  Admission.output_schema (Admission.descriptor ch) = Graph.output_schema g /\ state_schema st = graph_state_schema g.

Lemma build_iff key pd (ch : ChildIntentT) g st i :
  build sha256 key pd ch g st = Ok i <->
  scope_ok key ch /\ graph_ok ch g st /\ i = mkChildIntent key pd ch g st (spawn_digest i) /\
  compute_spawn_digest sha256 i = Ok (spawn_digest i) /\ exists b, intent_canonical_bytes i = Ok b.
Proof.
  unfold build, scope_ok, graph_ok. split.
  - intros Hb. destruct (_ || _) eqn:E in Hb; [done |]. destruct (negb _) eqn:En in Hb; [done |].
    destruct (_ || _) eqn:Eg in Hb; [done |]. bools. apply bind_Ok in Hb as (d & Hd & Hb). cbv zeta in Hb.
    apply bind_Ok in Hb as (b & Hc & [= <-]). split_and!; try done. by exists b.
  - intros ((E1 & E2 & E3) & (G1 & G2 & G3 & G4) & Ei & Hd & b & Hb). rewrite E3.
    rewrite (bool_decide_eq_true_2 _ E1), (bool_decide_eq_false_2 _ E2), (bool_decide_eq_true_2 _ G1), (bool_decide_eq_true_2 _ G2),
      (bool_decide_eq_true_2 _ G3), (bool_decide_eq_true_2 _ G4). simpl. rewrite Ei in Hd. 
    change (compute_spawn_digest sha256 (mkChildIntent key pd ch g st (sha256 [])))
      with (compute_spawn_digest sha256 (mkChildIntent key pd ch g st (spawn_digest i))). rewrite Hd. simpl.
    rewrite <- Ei, Hb. done.
Qed.

(** What the parent's admission must grant. *)
Definition granted_by (i : IntentT) (parent : AdmissionT) : Prop :=
  let admitted := Admission.intent parent in
  parent_admission_digest i = Admission.digest parent /\
  key_tenant_id (ci_key i) = tenant_id (Admission.provenance admitted) /\
  parent_run_id (ci_key i) = run_id (Admission.provenance admitted) /\
  head_graph (base_checkpoint (key_parent (ci_key i))) = Admission.graph admitted /\
  Admission.admitted_at parent <= jh_recorded_at (head_journal_head (base_checkpoint (key_parent (ci_key i)))) /\
  Admission.principal (Admission.authority (child i)) = Admission.principal (Admission.authority admitted) /\
  Admission.granted_scopes (Admission.authority (child i)) ⊆ Admission.granted_scopes (Admission.authority admitted) /\
  ResolvedBudget.validate_narrowing (Admission.budget (child i)) (Admission.budget admitted) = Ok tt.

Lemma validate_parent_iff (i : IntentT) (parent : AdmissionT) : validate_parent i parent = Ok tt <-> granted_by i parent.
Proof.
  unfold validate_parent, granted_by. cbv zeta. split.
  - intros Hv. destruct (_ || _) eqn:E in Hv; [done |]. bools. open_guards Hv. apply map_err_Ok in Hv.
    apply negb_false_iff, Scope.is_subset_iff in Hguard. by split_and!.
  - intros (E1 & E2 & E3 & E4 & Ht & E5 & Hsub & Hn).
    rewrite (bool_decide_eq_true_2 _ E1), (bool_decide_eq_true_2 _ E2), (bool_decide_eq_true_2 _ E3), (bool_decide_eq_true_2 _ E4),
      (bool_decide_eq_true_2 _ E5), (proj2 (Z.ltb_ge _ _) Ht), (proj2 (Scope.is_subset_iff _ _) Hsub), Hn. done.
Qed.

Lemma child_intent_new_iff (parent : AdmissionT) key (ch : ChildIntentT) g st i :
  child_intent_new sha256 parent key ch g st = Ok i <->
  build sha256 key (Admission.digest parent) ch g st = Ok i /\ granted_by i parent.
Proof.
  unfold child_intent_new. rewrite bind_Ok. setoid_rewrite bind_Ok. split.
  - intros (j & Hb & [] & Hv & [= <-]). split; [done | by apply validate_parent_iff].
  - intros [Hb Hv%validate_parent_iff]. exists i. split; [done |]. by exists tt.
Qed.
(** What was prepared is decoded unchanged. *)
Lemma child_intent_restores (parent : AdmissionT) key (ch : ChildIntentT) g st i :
  child_intent_new sha256 parent key ch g st = Ok i -> child_intent_restore sha256 i = Ok i.
Proof.
  intros [Hb _]%child_intent_new_iff. assert (Hb' := Hb). apply build_iff in Hb' as (_ & _ & Ei & _).
  unfold child_intent_restore. rewrite Ei at 1 2 3 4 5. cbn [ci_key parent_admission_digest child child_graph initial_state].
  rewrite Hb. simpl. by rewrite bool_decide_eq_true_2.
Qed.

(** The spawn digest does not see the candidate run, thread and invocation
    identities: a retry that generates new ones keeps the digest. *)
Lemma spawn_digest_retry (i j : IntentT) :
  spawn_wire i = spawn_wire j -> compute_spawn_digest sha256 i = compute_spawn_digest sha256 j.
Proof. unfold compute_spawn_digest. by intros ->. Qed.

(** ** Declared targets *)

Definition depth (g : GraphT) : Z :=
  match child_runs g with Some policy => maximum_descendant_depth (child_limits policy) | None => 0 end.

Lemma declared_depth (i : IntentT) (g : GraphT) :
  validate_declaration sha256 i g = Ok tt -> depth (child_graph i) < depth g.
Proof.
  unfold validate_declaration, depth. intros Hv. open_guards Hv. apply ok_or_Ok in Hx. rewrite Hx.
  unfold validate_target in Hx1. open_guards Hx1. simpl in *. destruct (child_runs (child_graph i)); lia.
Qed.

(** ** Chains of delegation

    [delegated p g n q h]: run [q] with graph [h] descends from run [p] with
    graph [g] by [n] declared and admitted delegations. *)

(** The topology limits of a graph, as [topology_new] makes them. *)
Definition topology_ok (g : GraphT) : Prop :=
  forall policy, child_runs g = Some policy ->
    exists d c a, topology_new d c a = Ok (child_limits policy).

Inductive delegated (p : AdmissionT) (g : GraphT) : nat -> AdmissionT -> GraphT -> Prop :=
| delegated_self : delegated p g 0 p g
| delegated_child n q h key ch cg st i t r :
    delegated p g n q h ->
    child_intent_new sha256 q key ch cg st = Ok i ->
    validate_declaration sha256 i h = Ok tt ->
    topology_ok cg -> ResolvedBudget.wf (Admission.budget ch) ->
    Admission.commit sha256 ch t = Ok r ->
    delegated p g (S n) r cg.

Lemma depth_range g : topology_ok g -> 0 <= depth g <= 32.
Proof.
  unfold topology_ok, depth. destruct (child_runs g) as [policy|]; [| lia]. intros H'.
  destruct (H' policy eq_refl) as (d & c & a & Ht). unfold topology_new in Ht. destruct (_ || _) eqn:E in Ht; [done |].
  injection Ht as <-. simpl. unfold between, MAX_DEPTH in E. bools. lia.
Qed.

Lemma commit_intent (ch : ChildIntentT) t r : Admission.commit sha256 ch t = Ok r -> Admission.intent r = ch.
Proof. unfold Admission.commit. intros Hc. simp_ok. destruct (Admission.MAX_SNAPSHOT_BYTES <? _); simp_ok. by subst. Qed.

Lemma narrower_trans b1 b2 b3 : Capacity.narrower b1 b2 -> Capacity.narrower b2 b3 -> Capacity.narrower b1 b3.
Proof.
  intros [Hd Hc] [Hd' Hc']. split; [| by eapply Resolution.costs_within_trans].
  intros d Hne. specialize (Hd d Hne). specialize (Hd' d Hne). lia.
Qed.

(** C35: Delegation confines.  Whatever chain of declared child runs descends
    from a run, its length is bounded by the depth the root graph declares and
    so by 32; every descendant acts for the same tenant and principal, with a
    subset of the root's scopes and a budget within the root's, so any usage
    its budget admits is one the root's budget admits; and no child reuses its
    parent's run. *)
Theorem delegation_confined (p q : AdmissionT) (g h : GraphT) (n : nat)
    (Hg : topology_ok g) (Hb : ResolvedBudget.wf (Admission.budget (Admission.intent p))) (Hd : delegated p g n q h) :
  let root := Admission.intent p in
  let run := Admission.intent q in
  Z.of_nat n + depth h <= depth g <= 32 /\
  tenant_id (Admission.provenance run) = tenant_id (Admission.provenance root) /\
  Admission.principal (Admission.authority run) = Admission.principal (Admission.authority root) /\
  Admission.granted_scopes (Admission.authority run) ⊆ Admission.granted_scopes (Admission.authority root) /\
  Capacity.narrower (Admission.budget run) (Admission.budget root) /\
  (forall usage, Capacity.fits (Admission.budget run) usage -> Capacity.fits (Admission.budget root) usage) /\
  (forall key ch cg st i, child_intent_new sha256 q key ch cg st = Ok i ->
     run_id (Admission.provenance ch) <> run_id (Admission.provenance run)).
Proof.
  assert (Hlast : forall (q : AdmissionT) key ch cg st i, child_intent_new sha256 q key ch cg st = Ok i ->
     run_id (Admission.provenance ch) <> run_id (Admission.provenance (Admission.intent q))).
  { intros q0 key ch cg st i [Hbd Hgr]%child_intent_new_iff. apply build_iff in Hbd as ((_ & E & _) & _ & Ei & _).
    destruct Hgr as (_ & _ & Er & _). rewrite Ei in Er. simpl in Er. congruence. }
  simpl. assert (Hmain : 0 <= depth h /\ Z.of_nat n + depth h <= depth g /\
    tenant_id (Admission.provenance (Admission.intent q)) = tenant_id (Admission.provenance (Admission.intent p)) /\
    Admission.principal (Admission.authority (Admission.intent q)) = Admission.principal (Admission.authority (Admission.intent p)) /\
    Admission.granted_scopes (Admission.authority (Admission.intent q)) ⊆ Admission.granted_scopes (Admission.authority (Admission.intent p)) /\
    Capacity.narrower (Admission.budget (Admission.intent q)) (Admission.budget (Admission.intent p))).
  { induction Hd as [|n q h key ch cg st i t r _ IH Hnew Hdecl Htop Hwf Hc].
    - pose proof (depth_range g Hg). split_and!; try done; [lia |]. split; [lia | apply Resolution.costs_within_refl].
    - destruct IH as (_ & Hn & Ht & Hp & Hs & Hnar). apply commit_intent in Hc as ->.
      apply child_intent_new_iff in Hnew as [Hbd Hgr]. apply build_iff in Hbd as ((E1 & _) & _ & Ei & _).
      apply declared_depth in Hdecl. rewrite Ei in Hdecl. simpl in Hdecl.
      destruct Hgr as (_ & Et & _ & _ & _ & Ep & Es & En). rewrite Ei in *. simpl in *.
      pose proof (depth_range cg Htop). split_and!; [lia | lia | congruence | congruence | set_solver |].
      eapply narrower_trans; [| exact Hnar]. apply Capacity.validate_narrowing_iff in En; [done |].
      by destruct Hwf as (_ & _ & _ & _ & (? & _)). }
  destruct Hmain as (_ & Hn & Ht & Hp & Hs & Hnar). split_and!; try done.
  - by apply depth_range.
  - intros usage. by apply Capacity.narrower_fits.
  - apply Hlast.
Qed.
End Laws.

(** ** A parent run with one child *)

Module Example.
Definition acme : bytes := bytes_of "acme".
Definition prov (run : Z) : AgentResultProvenance Z := mkProvenance acme run 7 8 100.
Definition desc : Admission.AgentDescriptor Z Z unit := Admission.mkDescriptor 100 Admission.Active [] 1 2 BudgetLimits.empty tt.
Definition doc : BoundedJson.BoundedJson := BoundedJson.mkBoundedJson Null (BoundedJson.mkJsonStats 4 0 1).
Definition authority : Admission.AgentAdmissionAuthority Z Z Z :=
  Admission.mkAuthority 77 [] 55 [1] (Journal.mkPayload 5 Admission.EVIDENCE_KIND doc [9]).
Definition request : Admission.AgentRequest Z := Admission.mkRequest 1 doc BudgetLimits.empty.
Definition graph (id : Z) (children : option (GraphChildRunPolicy Z Z)) (d : Digest) : CompiledGraph Z Z :=
  mkGraph id 1 3 4 2 (mkReducerReference 9 [3]) [bytes_of "plan"] [] (mkLimits 10 2) children d.
Definition child_graph : CompiledGraph Z Z := graph 300 None [11].
Definition parent_graph : CompiledGraph Z Z :=
  graph 200 (Some (mkChildPolicy 1 (mkTopology 1 2 2)
    [mkDeclaration (bytes_of "plan") (bytes_of "helper") (mkAgentReference 100 AGENT_DOMAIN) (reference child_graph) 1 2])) [12].
Definition admission (run : Z) (g : CompiledGraph Z Z) (b : ResolvedBudget.t) : Admission.AgentAdmission Z Z Z unit :=
  Admission.mkAdmission (Admission.mkIntent (prov run) desc request [] b (reference g) authority [run]) 10 [run; 10].
Definition parent_run : Admission.AgentAdmission Z Z Z unit := admission 1 parent_graph Capacity.parent_budget.
Definition child_adm : Admission.AgentAdmission Z Z Z unit := admission 2 child_graph Capacity.child_budget.
Definition jhead (run seq at_ : Z) : JournalHead := mkJournalHead acme run seq seq at_ [seq].
Definition key : ChildRunKey Z Z :=
  mkKey (mkActivation (mkHead acme 1 1 0 (reference parent_graph) (jhead 1 2 15) [2]) [] (bytes_of "plan") [1])
    (bytes_of "helper") [21].

#[export] Instance enc_value : Canonical Value := fun _ => Some [].
#[export] Instance enc_activation : Canonical (NodeActivation Z Z) := fun _ => Some [].
#[export] Instance enc_descriptor : Serialize (Admission.AgentDescriptor Z Z unit) := fun _ => Some Null.
#[export] Instance enc_spawn : Serialize (SpawnWire Z Z Z unit) := fun _ => Some Null.
#[export] Instance enc_intent : Serialize (ChildRunAdmissionIntent Z Z Z unit) := fun _ => Some Null.
#[export] Instance enc_digest : Serialize Admission.AdmissionDigestWire := fun _ => Some Null.
#[export] Instance enc_admission : Serialize (Admission.AgentAdmission Z Z Z unit) := fun _ => Some Null.
Definition hash (b : bytes) : bytes := b.

Definition intent : ChildRunAdmissionIntent Z Z Z unit :=
  mkChildIntent key [1; 10] (Admission.intent child_adm) child_graph (mkState 3 Null []) SPAWN_DOMAIN.
Definition child_run : Admission.AgentAdmission Z Z Z unit :=
  Admission.mkAdmission (Admission.intent child_adm) 40 Admission.ADMISSION_DIGEST_DOMAIN.

Lemma delegated_once : delegated hash parent_run parent_graph 1 child_run child_graph.
Proof.
  eapply (delegated_child hash parent_run parent_graph 0 parent_run parent_graph key (Admission.intent child_adm) child_graph
            (mkState 3 Null []) intent 40); [constructor | by vm_compute | by vm_compute | by intros ? [=] |
    apply Capacity.child_budget_wf | by vm_compute].
Qed.
Lemma parent_topology : topology_ok parent_graph.
Proof. intros policy [= <-]. by exists 1, 2, 2. Qed.
End Example.
#[local] Existing Instances Example.enc_value Example.enc_activation Example.enc_descriptor Example.enc_spawn Example.enc_intent
  Example.enc_digest Example.enc_admission.

Lemma delegation_confined_witness :
  delegated Example.hash Example.parent_run Example.parent_graph 1 Example.child_run Example.child_graph /\
  Capacity.narrower Capacity.child_budget Capacity.parent_budget.
Proof.
  split; [exact Example.delegated_once |].
  exact (proj1 (proj2 (proj2 (proj2 (proj2 (delegation_confined Example.hash Example.parent_run Example.child_run
    Example.parent_graph Example.child_graph 1 Example.parent_topology Capacity.parent_budget_wf Example.delegated_once)))))).
Defined.
End Delegation.
