(* ===== verification/ChildBudget.v ===== *)
(** The budget account of a parent run
    (crates/stateknot-core/src/child_run_budget.rs): direct usage, settled
    charges of immediate children and the reservations still outstanding, with
    the transitions that open an account, reserve for a child, settle a child
    and observe direct usage.

    Serialisers, the canonical encoder and SHA-256 are parameters; a payload
    carried by a run (its output, failure details, artifacts) is a type
    parameter. *)

From Stdlib Require Import ZArith Lia.
From stdpp Require Import prelude.
From S2P Require Import Prelude Ordered Json Time Costs Budget Reservation Checkpoint Graph Run Journal Admission Barrier NodeAttempt ChildRun.

Open Scope Z_scope.
Import Timestamp(Timestamp).

Module ChildBudget.
Import ChildRun(ChildRunKey, key_digest, key_tenant_id, parent_run_id, key_parent, ChildRunAdmissionIntent, ci_key).

Definition DOMAIN : bytes := bytes_of "stateknot.child-run-budget-account.v1" ++ [0].
Definition TERMINAL_DOMAIN : bytes := bytes_of "stateknot.child-run-budget-terminal.v1" ++ [0].
Definition MAX_CHILDREN : Z := 256.
Definition MAX_SNAPSHOT_BYTES : Z := 8 * 1024 * 1024.

Inductive ChildRunBudgetError :=
| ParentMismatch
| UnsupportedVersion
| TooManyChildren
| DuplicateChild
| SpawnConflict
| SettlementConflict
| ChildNotFound
| NotTerminal
| TerminalMismatch
| UnpricedSettlement
| DirectObservationMismatch
| ClockBeforeEvidence
| Encoding
| DigestMismatch
| UsageFailed (source : BudgetUsage.BudgetUsageError)
| ReservationFailed (source : Reservation.CumulativeBudgetReservationError)
| DeclarationFailed (source : ChildRunPolicyError)
| NarrowingFailed (source : ResolvedBudget.BudgetNarrowingError).

Section Accounts.
Context {Capability Schema Principal Definition_ Json Artifacts Details : Type}
  `{RustOrd Capability, EqDecision Schema, EqDecision Principal}.
Abbreviation ProvenanceT := (AgentResultProvenance Capability).
Abbreviation KeyT := (ChildRunKey Capability Schema).
Abbreviation GraphT := (CompiledGraph Capability Schema).
Abbreviation AdmissionT := (Admission.AgentAdmission Capability Schema Principal Definition_).
Abbreviation ChildIntentT := (ChildRunAdmissionIntent Capability Schema Principal Definition_).
Abbreviation LifecycleT := (RunLifecycle Capability Schema Json Artifacts Details).

(** * Settlements *)

Record ChildRunBudgetSettlement := mkSettlement {
  se_child : ProvenanceT;
  se_intent_digest : Digest;
  se_admission_digest : Digest;
  se_admitted_at : Timestamp;
  se_terminal : JournalHead;
  se_status : RunStatus;
  se_outcome_digest : Digest;
  se_usage : BudgetUsage.t
}.

#[global] Instance ChildRunBudgetSettlement_eq_dec : EqDecision ChildRunBudgetSettlement.
Proof. solve_decision. Defined.

Definition settlement_validate (self : ChildRunBudgetSettlement) : result ChildRunBudgetError unit :=
  if negb (is_terminal (se_status self)) then Err NotTerminal else
  if negb (bool_decide (tenant_id (se_child self) = jh_tenant_id (se_terminal self)))
     || negb (bool_decide (run_id (se_child self) = jh_run_id (se_terminal self)))
     || (jh_recorded_at (se_terminal self) <? se_admitted_at self)
     || (jh_sequence (se_terminal self) <=? 1) then Err TerminalMismatch else
  if negb (BudgetUsage.unpriced_cost_events (se_usage self) =? 0) then Err UnpricedSettlement else
  Ok tt.

(** * Entries *)

Record ChildRunBudgetEntry := mkEntry {
  en_key : KeyT;
  en_spawn_digest : Digest;
  en_child : ProvenanceT;
  en_intent_digest : Digest;
  en_reservation : Reservation.CumulativeBudgetReservation;
  en_settlement : option ChildRunBudgetSettlement
}.

Definition entry_validate (self : ChildRunBudgetEntry) : result ChildRunBudgetError unit :=
  if negb (bool_decide (key_tenant_id (en_key self) = tenant_id (en_child self)))
     || bool_decide (parent_run_id (en_key self) = run_id (en_child self)) then Err ParentMismatch else
  match en_settlement self with
  | Some s =>
      _ ← settlement_validate s;
      if negb (bool_decide (se_child s = en_child self)) || negb (bool_decide (se_intent_digest s = en_intent_digest self))
      then Err TerminalMismatch else Ok tt
  | None => Ok tt
  end.

(** * Accounts *)

Record ChildRunBudgetAccount := mkAccount {
  version : Z;
  parent : ProvenanceT;
  parent_admission_digest : Digest;
  parent_admitted_at : Timestamp;
  account_graph : GraphReference Capability Schema;
  account_budget : ResolvedBudget.t;
  maximum_children : Z;
  direct_head : JournalHead;
  direct_usage : BudgetUsage.t;
  children : list ChildRunBudgetEntry;
  account_digest : Digest
}.

Definition set_children (self : ChildRunBudgetAccount) (entries : list ChildRunBudgetEntry) : ChildRunBudgetAccount :=
  mkAccount (version self) (parent self) (parent_admission_digest self) (parent_admitted_at self) (account_graph self)
    (account_budget self) (maximum_children self) (direct_head self) (direct_usage self) entries (account_digest self).
Definition set_direct (self : ChildRunBudgetAccount) (head : JournalHead) (usage : BudgetUsage.t) : ChildRunBudgetAccount :=
  mkAccount (version self) (parent self) (parent_admission_digest self) (parent_admitted_at self) (account_graph self)
    (account_budget self) (maximum_children self) head usage (children self) (account_digest self).
Definition set_digest (self : ChildRunBudgetAccount) (d : Digest) : ChildRunBudgetAccount :=
  mkAccount (version self) (parent self) (parent_admission_digest self) (parent_admitted_at self) (account_graph self)
    (account_budget self) (maximum_children self) (direct_head self) (direct_usage self) (children self) d.

(** [children.iter().find(|entry| &entry.key == key)]. *)
Definition entry (self : ChildRunBudgetAccount) (key : KeyT) : option ChildRunBudgetEntry :=
  List.find (fun e => bool_decide (en_key e = key)) (children self).

Definition delegated_step (total : BudgetUsage.t) (e : ChildRunBudgetEntry) : result ChildRunBudgetError BudgetUsage.t :=
  match en_settlement e with
  | Some s => map_err UsageFailed (BudgetUsage.checked_accumulate total (BudgetUsage.cumulative_only (se_usage s)))
  | None => Ok total
  end.

Definition delegated_usage (self : ChildRunBudgetAccount) : result ChildRunBudgetError BudgetUsage.t :=
  try_fold delegated_step BudgetUsage.zero (children self).

Definition accounted_usage (self : ChildRunBudgetAccount) : result ChildRunBudgetError BudgetUsage.t :=
  delegated ← delegated_usage self;
  map_err UsageFailed (BudgetUsage.checked_accumulate (direct_usage self) delegated).

Definition settlements (self : ChildRunBudgetAccount) : list ChildRunBudgetSettlement := omap en_settlement (children self).
Definition outstanding (self : ChildRunBudgetAccount) : list Reservation.CumulativeBudgetReservation :=
  en_reservation <$> List.filter (fun e => is_none (en_settlement e)) (children self).

Definition remaining (self : ChildRunBudgetAccount) (observed : Timestamp) : result ChildRunBudgetError BudgetRemaining.t :=
  if (observed <? jh_recorded_at (direct_head self))
     || existsb (fun s => observed <? jh_recorded_at (se_terminal s)) (settlements self)
  then Err ClockBeforeEvidence else
  accounted ← accounted_usage self;
  map_err ReservationFailed (Reservation.check_capacity (account_budget self) accounted (outstanding self) observed).

(** One entry in the loop of [seal]. *)
Definition check_child (self : ChildRunBudgetAccount) (st : list Digest * list RunId) (e : ChildRunBudgetEntry)
  : result ChildRunBudgetError (list Digest * list RunId) :=
  let '(keys, runs) := st in
  _ ← entry_validate e;
  if negb (bool_decide (key_tenant_id (en_key e) = tenant_id (parent self)))
     || negb (bool_decide (parent_run_id (en_key e) = run_id (parent self)))
     || negb (bool_decide (head_graph (base_checkpoint (key_parent (en_key e))) = account_graph self))
     || negb (bool_decide (tenant_id (en_child e) = tenant_id (parent self)))
     || bool_decide (run_id (en_child e) = run_id (parent self)) then Err ParentMismatch else
  if bs_contains (key_digest (en_key e)) keys || bs_contains (run_id (en_child e)) runs then Err DuplicateChild else
  match en_settlement e with
  | Some s => if se_admitted_at s <? parent_admitted_at self then Err TerminalMismatch else Ok tt
  | None => Ok tt
  end ≫= fun _ => Ok (bs_insert (key_digest (en_key e)) keys, bs_insert (run_id (en_child e)) runs).

Context `{Canonical (NodeActivation Capability Schema), Serialize (Admission.AgentDescriptor Capability Schema Definition_),
          Serialize LifecycleT, Serialize ChildRunBudgetAccount, Canonical Value}.
Variable sha256 : bytes -> bytes.

Definition canonical_bytes (self : ChildRunBudgetAccount) : result ChildRunBudgetError bytes :=
  b ← map_err (fun _ : Admission.AgentAdmissionIntentError Capability Schema => Encoding) (Admission.canonical_bytes self);
  if MAX_SNAPSHOT_BYTES <? Z.of_nat (length b) then Err Encoding else Ok b.

Definition seal (self : ChildRunBudgetAccount) : result ChildRunBudgetError ChildRunBudgetAccount :=
  if negb (version self =? 1) then Err UnsupportedVersion else
  if (maximum_children self =? 0) || (MAX_CHILDREN <? maximum_children self)
     || (maximum_children self <? Z.of_nat (length (children self))) then Err TooManyChildren else
  if negb (bool_decide (jh_tenant_id (direct_head self) = tenant_id (parent self)))
     || negb (bool_decide (jh_run_id (direct_head self) = run_id (parent self)))
     || (jh_recorded_at (direct_head self) <? parent_admitted_at self) then Err DirectObservationMismatch else
  let self := set_children self (sort_by_key (fun e => key_digest (en_key e)) (children self)) in
  _ ← try_fold (check_child self) ([], []) (children self);
  _ ← accounted_usage self;
  let self := set_digest self (sha256 []) in
  b ← canonical_bytes self;
  Ok (set_digest self (sha256 (DOMAIN ++ b))).

Definition settlement_new (admission : AdmissionT) (lifecycle : LifecycleT) (terminal : JournalHead)
  : result ChildRunBudgetError ChildRunBudgetSettlement :=
  let int := Admission.intent admission in
  if negb (bool_decide (provenance lifecycle = Admission.provenance int))
     || negb (admitted_at lifecycle =? Admission.admitted_at admission)
     || (jh_recorded_at terminal <? changed_at lifecycle) then Err TerminalMismatch else
  usage ← ok_or (terminal_usage lifecycle) NotTerminal;
  canonical ← map_err (fun _ : Admission.AgentAdmissionIntentError Capability Schema => Encoding)
                (Admission.canonical_bytes lifecycle);
  let value := mkSettlement (Admission.provenance int) (Admission.intent_digest int) (Admission.digest admission)
                 (Admission.admitted_at admission) terminal (status lifecycle) (sha256 (TERMINAL_DOMAIN ++ canonical)) usage in
  _ ← settlement_validate value;
  Ok value.

Definition validate_for (self : ChildRunBudgetAccount) (p : AdmissionT) (g : GraphT) : result ChildRunBudgetError unit :=
  let int := Admission.intent p in
  if negb (bool_decide (parent self = Admission.provenance int))
     || negb (bool_decide (parent_admission_digest self = Admission.digest p))
     || negb (parent_admitted_at self =? Admission.admitted_at p)
     || negb (bool_decide (account_graph self = Admission.graph int))
     || negb (bool_decide (account_graph self = reference g))
     || negb (bool_decide (account_budget self = Admission.budget int))
     || negb (bool_decide ((fun policy => maximum_children_per_run (child_limits policy)) <$> child_runs g = Some (maximum_children self)))
     || (jh_recorded_at (direct_head self) <? Admission.admitted_at p)
  then Err ParentMismatch else Ok tt.

Definition account_new (p : AdmissionT) (g : GraphT) (head : JournalHead) (usage : BudgetUsage.t)
  : result ChildRunBudgetError ChildRunBudgetAccount :=
  policy ← ok_or (child_runs g) ParentMismatch;
  if jh_recorded_at head <? Admission.admitted_at p then Err DirectObservationMismatch else
  let int := Admission.intent p in
  value ← seal (mkAccount 1 (Admission.provenance int) (Admission.digest p) (Admission.admitted_at p) (reference g)
                  (Admission.budget int) (maximum_children_per_run (child_limits policy)) head usage [] (sha256 []));
  _ ← validate_for value p g;
  Ok value.

Definition reserve (self : ChildRunBudgetAccount) (intent : ChildIntentT) (parent_graph : GraphT) (observed : Timestamp)
  : result ChildRunBudgetError ChildRunBudgetAccount :=
  let key := ci_key intent in
  if negb (bool_decide (ChildRun.parent_admission_digest intent = parent_admission_digest self))
     || negb (bool_decide (key_tenant_id key = tenant_id (parent self)))
     || negb (bool_decide (parent_run_id key = run_id (parent self)))
     || negb (bool_decide (head_graph (base_checkpoint (key_parent key)) = account_graph self))
     || negb (bool_decide (reference parent_graph = account_graph self)) then Err ParentMismatch else
  _ ← map_err DeclarationFailed (ChildRun.validate_declaration sha256 intent parent_graph);
  let ch := ChildRun.child intent in
  _ ← map_err NarrowingFailed (ResolvedBudget.validate_narrowing (Admission.budget ch) (account_budget self));
  match entry self key with
  | Some existing =>
      if bool_decide (en_spawn_digest existing = ChildRun.spawn_digest intent) then Ok self else Err SpawnConflict
  | None =>
      if maximum_children self <=? Z.of_nat (length (children self)) then Err TooManyChildren else
      reservation ← map_err ReservationFailed (Reservation.from_budget (Admission.budget ch));
      let next := set_children self (children self ++
            [mkEntry key (ChildRun.spawn_digest intent) (Admission.provenance ch) (Admission.intent_digest ch) reservation None]) in
      _ ← remaining next observed;
      seal next
  end.

(** [children[index].settlement = Some(settlement)]. *)
Definition set_settlement (s : ChildRunBudgetSettlement) (e : ChildRunBudgetEntry) : ChildRunBudgetEntry :=
  mkEntry (en_key e) (en_spawn_digest e) (en_child e) (en_intent_digest e) (en_reservation e) (Some s).

Definition settle (self : ChildRunBudgetAccount) (key : KeyT) (s : ChildRunBudgetSettlement)
  : result ChildRunBudgetError ChildRunBudgetAccount :=
  _ ← settlement_validate s;
  index ← ok_or (position (fun e => bool_decide (en_key e = key)) (children self)) ChildNotFound;
  e ← ok_or (children self !! index) ChildNotFound;
  if negb (bool_decide (en_child e = se_child s)) || negb (bool_decide (en_intent_digest e = se_intent_digest s))
  then Err TerminalMismatch else
  if se_admitted_at s <? parent_admitted_at self then Err TerminalMismatch else
  match en_settlement e with
  | Some existing => if bool_decide (existing = s) then Ok self else Err SettlementConflict
  | None => seal (set_children self (alter (set_settlement s) index (children self)))
  end.

Definition observe_direct (self : ChildRunBudgetAccount) (head : JournalHead) (usage : BudgetUsage.t)
  : result ChildRunBudgetError ChildRunBudgetAccount :=
  if bool_decide (head = direct_head self) && bool_decide (usage = direct_usage self) then Ok self else
  if negb (bool_decide (jh_tenant_id head = tenant_id (parent self)))
     || negb (bool_decide (jh_run_id head = run_id (parent self)))
     || (jh_sequence head <=? jh_sequence (direct_head self))
     || (jh_recorded_at head <? jh_recorded_at (direct_head self)) then Err DirectObservationMismatch else
  _ ← map_err UsageFailed (BudgetUsage.validate_monotonic_after usage (direct_usage self));
  seal (set_direct self head usage).

(** Decoding of a stored account: [bounded_children] caps the list. *)
Definition account_restore (wire : ChildRunBudgetAccount) : result ChildRunBudgetError ChildRunBudgetAccount :=
  if MAX_CHILDREN <? Z.of_nat (length (children wire)) then Err TooManyChildren else
  _ ← try_fold (fun _ e => entry_validate e) tt (children wire);
  value ← seal wire;
  if negb (bool_decide (account_digest value = account_digest wire)) then Err DigestMismatch else Ok value.
End Accounts.
Arguments ChildRunBudgetSettlement : clear implicits.
Arguments ChildRunBudgetEntry : clear implicits.
Arguments ChildRunBudgetAccount : clear implicits.
End ChildBudget.
