(* ===== verification/ChildBudgetLaws.v ===== *)
(** Laws of child budget accounts: what an account has committed, that it
    never over-commits its budget, that records are permanent and retries
    change nothing, and that every account reached is restored unchanged. *)

From Stdlib Require Import ZArith Lia.
From stdpp Require Import prelude.
From S2P Require Import Prelude Ordered Json Accounting Time Costs Budget BudgetLaws UsageLaws UsageSums Reservation.
From S2P Require Import Checkpoint Graph Run Journal Admission Barrier NodeAttempt ChildRun ChildBudget.

Open Scope Z_scope.
Import Timestamp(Timestamp).

Module Accounts.
Import ChildBudget.
Import ChildRun(ChildRunKey, key_digest, key_tenant_id, parent_run_id, key_parent, ChildRunAdmissionIntent, ci_key).

(** ** Capacity *)

Lemma cumulative_only_cumulative u : BudgetUsage.wf u -> UsageSums.cumulative (BudgetUsage.cumulative_only u).
Proof.
  intros (Hd & H1 & H2 & H3 & Hc). split; [| by intros []]. split_and!; try done.
  intros d. specialize (Hd d). unfold in_u, u64_max in *. destruct d; cbn in *; lia.
Qed.

Lemma zero_wf : BudgetUsage.wf BudgetUsage.zero.
Proof. split; [intros []; unfold in_u, u64_max; cbn; lia |]. Capacity.concrete_wf. Qed.

Lemma try_fold_map_err {E F A B S} (f : E -> F) (g : S -> B -> result E S) (h : A -> B) (l : list A) (s : S) :
  try_fold (fun s a => map_err f (g s (h a))) s l = map_err f (try_fold g s (h <$> l)).
Proof. revert s. induction l as [|a l IH]; intros s; simpl; [done |]. destruct (g s (h a)); simpl; [apply IH | done]. Qed.

Lemma project_total acc outs :
  try_fold Reservation.project_step acc outs = map_err Reservation.UsageError (UsageSums.total acc (Reservation.amount <$> outs)).
Proof. apply (try_fold_map_err Reservation.UsageError BudgetUsage.checked_accumulate Reservation.amount). Qed.

Section Capacity.
Context {Capability Schema : Type} `{RustOrd Capability, EqDecision Schema}.
Abbreviation AccountT := (ChildRunBudgetAccount Capability Schema).
Abbreviation EntryT := (ChildRunBudgetEntry Capability Schema).
Abbreviation SettlementT := (ChildRunBudgetSettlement Capability).
Implicit Types (a : AccountT) (e : EntryT) (s : SettlementT).

Definition settled_usages a : list BudgetUsage.t := (fun s => BudgetUsage.cumulative_only (se_usage s)) <$> settlements a.
Definition reserved_usages a : list BudgetUsage.t := Reservation.amount <$> outstanding a.
(** Everything charged to the account beside its direct usage. *)
Definition commitments a : list BudgetUsage.t := settled_usages a ++ reserved_usages a.

Definition entry_wf e : Prop :=
  Reservation.wf (en_reservation e) /\ forall s, en_settlement e = Some s -> BudgetUsage.wf (se_usage s).
Definition account_wf a : Prop :=
  ResolvedBudget.wf (account_budget a) /\ BudgetUsage.wf (direct_usage a) /\ Forall entry_wf (children a).

(** No evidence of the account is later than the instant. *)
Definition evidence_by a (t : Timestamp) : Prop :=
  jh_recorded_at (direct_head a) <= t /\ forall s, s ∈ settlements a -> jh_recorded_at (se_terminal s) <= t.

Lemma settled_cumulative a : account_wf a -> Forall UsageSums.cumulative (settled_usages a).
Proof.
  intros (_ & _ & HF). unfold settled_usages, settlements. induction HF as [|e l [_ He] HF IH]; simpl; [constructor |].
  destruct (en_settlement e) as [s|]; simpl; [| done]. constructor; [| done]. by apply cumulative_only_cumulative, He.
Qed.

Lemma reserved_cumulative a : account_wf a -> Forall UsageSums.cumulative (reserved_usages a).
Proof.
  intros (_ & _ & HF). unfold reserved_usages, outstanding. rewrite !Forall_fmap. apply List.Forall_forall.
  intros e [Hin _]%List.filter_In. rewrite Forall_forall in HF. apply list_elem_of_In in Hin.
  destruct (HF e Hin) as [(Hw & Hh & _) _]. by split.
Qed.

Lemma delegated_total a :
  delegated_usage a = map_err UsageFailed (UsageSums.total BudgetUsage.zero (settled_usages a)).
Proof.
  unfold delegated_usage, settled_usages, settlements, UsageSums.total. generalize BudgetUsage.zero.
  induction (children a) as [|e l IH]; intros z; simpl; [done |]. unfold delegated_step at 2.
  destruct (en_settlement e) as [s|]; simpl; [| apply IH].
  destruct (BudgetUsage.checked_accumulate z _); simpl; [apply IH | done].
Qed.

(** The accounted usage is the direct usage plus the settled charges. *)
Lemma accounted_Ok a u :
  account_wf a -> accounted_usage a = Ok u ->
  BudgetUsage.wf u /\ (forall d, BudgetUsage.used d u = BudgetUsage.used d (direct_usage a) + UsageSums.sum d (settled_usages a)) /\
  (forall k, Costs.amount k (BudgetUsage.known_costs u) =
               Costs.amount k (BudgetUsage.known_costs (direct_usage a)) + UsageSums.cost k (settled_usages a) /\
             (is_Some (Costs.get k (BudgetUsage.known_costs u)) <->
              is_Some (Costs.get k (BudgetUsage.known_costs (direct_usage a))) \/ UsageSums.charged k (settled_usages a))).
Proof.
  intros Hwf Ha. pose proof (settled_cumulative a Hwf) as Hs. destruct Hwf as (_ & Hdir & _). unfold accounted_usage in Ha.
  rewrite delegated_total in Ha. apply bind_Ok in Ha as (x & Hx0%map_err_Ok & Ha%map_err_Ok).
  destruct (UsageSums.total_Ok _ _ _ zero_wf Hs Hx0) as (Hx & Hdx & Hkx).
  destruct (UsageLaws.accumulate_Ok _ _ _ Hdir Hx Ha) as (Hu & Hd & Hk).
  destruct (Costs.accumulate_spec _ _ _ (UsageLaws.wf_costs _ Hdir) (UsageLaws.wf_costs _ Hx) Hk) as [_ Hamt].
  split_and!; [done | |].
  - intros d. rewrite Hd, Hdx. unfold BudgetUsage.combine. destruct (BudgetUsage.high_water d) eqn:E; [| destruct d; cbn; lia].
    rewrite (UsageSums.sum_high_water d _ Hs E). pose proof (UsageSums.used_nonneg d _ Hdir). destruct d; try done; cbn in *; lia.
  - intros k. destruct (Hamt k) as [-> ->], (Hkx k) as [-> ->]. unfold Costs.amount at 2. simpl.
    split; [lia |]. unfold Costs.get; simpl. unfold is_Some. naive_solver.
Qed.
Lemma charged_app k us vs : UsageSums.charged k (us ++ vs) <-> UsageSums.charged k us \/ UsageSums.charged k vs.
Proof. unfold UsageSums.charged. setoid_rewrite elem_of_app. naive_solver. Qed.

(** Charging the reservations to the accounted usage is charging everything to
    the direct usage. *)
Lemma within_accounted a u :
  account_wf a -> accounted_usage a = Ok u ->
  UsageSums.within (account_budget a) u (reserved_usages a) <->
  UsageSums.within (account_budget a) (direct_usage a) (commitments a).
Proof.
  intros Hwf Ha. destruct (accounted_Ok a u Hwf Ha) as (_ & Hd & Hk). unfold UsageSums.within, commitments.
  setoid_rewrite UsageSums.sum_app. setoid_rewrite UsageSums.cost_app. setoid_rewrite charged_app.
  pose proof (Hd Costs) as Hun. change (BudgetUsage.unpriced_cost_events u = BudgetUsage.unpriced_cost_events (direct_usage a)
    + UsageSums.sum Costs (settled_usages a)) in Hun. rewrite Hun.
  split; intros (H1 & H2 & H3 & H4); split_and!.
  - intros d Hc. specialize (H1 d Hc). rewrite Hd in H1. lia.
  - lia.
  - intros k Hch. apply H3. destruct (Hk k) as [_ ->]. tauto.
  - intros k. specialize (H4 k). destruct (Hk k) as [E _]. lia.
  - intros d Hc. specialize (H1 d Hc). rewrite Hd. lia.
  - lia.
  - intros k Hch. apply H3. destruct (Hk k) as [_ E]. tauto.
  - intros k. specialize (H4 k). destruct (Hk k) as [E _]. lia.
Qed.

Lemma budget_costs_wf b : ResolvedBudget.wf b -> Costs.wf (ResolvedBudget.costs b).
Proof. by intros (_ & _ & _ & _ & ?). Qed.

(** A counter of an account within its budget does not overflow. *)
Lemma within_u64 b acc us d :
  ResolvedBudget.wf b -> UsageSums.within b acc us -> BudgetUsage.high_water d = false ->
  BudgetUsage.used d acc + UsageSums.sum d us <= u64_max.
Proof.
  intros (Hb & _) (Hd & Hun & _) _. destruct (decide (d = Costs)) as [->|]; [cbn in *; unfold u64_max; lia |].
  destruct (decide (d = Deadline)) as [->|].
  { replace (UsageSums.sum Deadline us) with 0; [cbn; unfold u64_max; lia |]. clear. induction us; simpl; lia. }
  specialize (Hd d ltac:(done)). specialize (Hb d ltac:(done)). unfold in_u in Hb. lia.
Qed.

Lemma within_accounts a :
  account_wf a -> UsageSums.within (account_budget a) (direct_usage a) (commitments a) -> exists u, accounted_usage a = Ok u.
Proof.
  intros Hwf Hw. pose proof (settled_cumulative a Hwf) as Hs. pose proof (reserved_cumulative a Hwf) as Hr.
  destruct Hwf as (Hb & Hdir & _). pose proof (budget_costs_wf _ Hb) as Hbc.
  assert (Hd : forall d, BudgetUsage.high_water d = false ->
            BudgetUsage.used d (direct_usage a) + UsageSums.sum d (settled_usages a) <= u64_max).
  { intros d E. pose proof (within_u64 _ _ _ d Hb Hw E) as Hsum. unfold commitments in Hsum. rewrite UsageSums.sum_app in Hsum.
    pose proof (UsageSums.sum_nonneg d _ Hr). lia. }
  destruct Hw as (_ & _ & Hex & Hle). unfold commitments in *. setoid_rewrite charged_app in Hex. setoid_rewrite UsageSums.cost_app in Hle.
  assert (Hc : forall k, Costs.amount k (BudgetUsage.known_costs (direct_usage a)) + UsageSums.cost k (settled_usages a) <= u64_max).
  { intros k. specialize (Hle k). pose proof (UsageSums.cost_nonneg k _ Hr). pose proof (Costs.amount_nonneg k _ Hbc). lia. }
  destruct (UsageSums.total_complete BudgetUsage.zero (settled_usages a) (ResolvedBudget.costs (account_budget a))) as [x Hx];
    [apply zero_wf | done | done | | | |].
  - intros d E. specialize (Hd d E). pose proof (UsageSums.used_nonneg d _ Hdir). destruct d; cbn in *; lia.
  - intros k [[? Hz]|?]; [by vm_compute in Hz | apply Hex; tauto].
  - intros k. specialize (Hc k). pose proof (Costs.amount_nonneg k _ (UsageLaws.wf_costs _ Hdir)).
    change (Costs.amount k (BudgetUsage.known_costs BudgetUsage.zero)) with 0. lia.
  - destruct (UsageSums.total_Ok _ _ _ zero_wf Hs Hx) as (Wx & Dx & Kx). unfold accounted_usage.
    rewrite delegated_total, Hx. simpl.
    destruct (UsageLaws.usage_accumulate_complete (direct_usage a) x (ResolvedBudget.costs (account_budget a))) as [u Hu];
      [done | done | done | | | | by rewrite Hu; eexists].
    + intros d E. rewrite Dx. specialize (Hd d E). destruct d; cbn in *; lia.
    + intros k [?|Hch]; [apply Hex; tauto |]. destruct (Kx k) as [_ E]. apply E in Hch as [[? Hz]|?]; [by vm_compute in Hz |].
      apply Hex; tauto.
    + intros k. destruct (Kx k) as [-> _]. specialize (Hc k).
      change (Costs.amount k (BudgetUsage.known_costs BudgetUsage.zero)) with 0. lia.
Qed.

Lemma evidence_iff a t :
  (t <? jh_recorded_at (direct_head a)) || existsb (fun s => t <? jh_recorded_at (se_terminal s)) (settlements a) = false
  <-> evidence_by a t.
Proof.
  unfold evidence_by. rewrite orb_false_iff, Z.ltb_ge. split; (intros [H1 H2]; split; [done |]).
  - intros s Hs. apply Z.ltb_ge. destruct (t <? jh_recorded_at (se_terminal s)) eqn:E; [| done].
    rewrite <- H2. symmetry. apply existsb_exists. exists s. split; [by apply list_elem_of_In | done].
  - destruct (existsb _ (settlements a)) eqn:E; [| done]. apply existsb_exists in E as (s & Hs & Hlt).
    apply list_elem_of_In in Hs. specialize (H2 s Hs). apply Z.ltb_lt in Hlt. lia.
Qed.

(** ** Exactly when an account has capacity left, and how much *)

Lemma remaining_iff a t :
  account_wf a ->
  (exists r, remaining a t = Ok r) <->
  evidence_by a t /\ Z.of_nat (length (outstanding a)) <= Reservation.MAX_RESERVATIONS /\
  t < ResolvedBudget.deadline (account_budget a) /\
  UsageSums.within (account_budget a) (direct_usage a) (commitments a).
Proof.
  intros Hwf. assert (Hwf' := Hwf). destruct Hwf as (Hb & Hdir & _). pose proof (reserved_cumulative a Hwf') as Hr.
  unfold remaining. split.
  - intros (r & Hrem). destruct (_ || _) eqn:E; [done |]. apply evidence_iff in E.
    apply bind_Ok in Hrem as (u & Hu & Hrem%map_err_Ok). apply Reservation.check_capacity_Ok in Hrem as (Hl & p & Hp & Hrem).
    rewrite project_total in Hp. apply map_err_Ok in Hp. destruct (Capacity.remaining_Ok _ _ _ _ Hrem) as (Ht & Hf & _).
    split_and!; [done.. |]. apply (within_accounted a u Hwf' Hu). apply UsageSums.total_fits_iff; [done | | done | by exists p].
    by apply (accounted_Ok a u Hwf' Hu).
  - intros (He & Hl & Ht & Hw). rewrite (proj2 (evidence_iff a t) He).
    destruct (within_accounts a Hwf' Hw) as [u Hu]. rewrite Hu. simpl.
    apply (within_accounted a u Hwf' Hu) in Hw. apply UsageSums.total_fits_iff in Hw as (p & Hp & Hf); [| done | | done].
    2: by apply (accounted_Ok a u Hwf' Hu).
    destruct (Capacity.remaining_complete _ _ _ Ht Hf) as [r Hr']. exists r. apply map_err_Ok, Reservation.check_capacity_Ok.
    split; [done |]. exists p. rewrite project_total. fold (reserved_usages a). by rewrite Hp.
Qed.

Lemma remaining_left a t r :
  account_wf a -> remaining a t = Ok r ->
  (forall d, counter d ->
     BudgetUsage.used d (direct_usage a) + UsageSums.sum d (commitments a) + BudgetRemaining.left_of d r
     = ResolvedBudget.limit d (account_budget a)) /\
  (forall k, Costs.amount k (BudgetUsage.known_costs (direct_usage a)) + UsageSums.cost k (commitments a)
     + Costs.amount k (BudgetRemaining.costs r) = Costs.amount k (ResolvedBudget.costs (account_budget a))).
Proof.
  intros Hwf Hrem. assert (Hwf' := Hwf). destruct Hwf as (Hb & Hdir & _). pose proof (reserved_cumulative a Hwf') as Hr.
  unfold remaining in Hrem. destruct (_ || _); [done |].
  apply bind_Ok in Hrem as (u & Hu & Hrem%map_err_Ok). apply Reservation.check_capacity_Ok in Hrem as (Hl & p & Hp & Hrem).
  rewrite project_total in Hp. apply map_err_Ok in Hp. destruct (accounted_Ok a u Hwf' Hu) as (Wu & Du & Ku).
  destruct (UsageSums.total_Ok _ _ _ Wu Hr Hp) as (Wp & Dp & Kp).
  destruct (Capacity.remaining_Ok _ _ _ _ Hrem) as (Ht & [Hf Hcf] & Hleft & _ & Hc). unfold commitments. split.
  - intros d Hcd. rewrite Hleft, Dp, Du, UsageSums.sum_app by done. lia.
  - intros k. apply Capacity.remaining_costs_Ok in Hc as [_ Heq].
    pose proof (Capacity.amount_deduct (account_budget a) p k Hb Wp Hcf) as Hsum. unfold Capacity.deduct in Hsum.
    rewrite <- Heq in Hsum. destruct (Kp k) as [E _], (Ku k) as [E' _]. rewrite UsageSums.cost_app. lia.
Qed.
End Capacity.

(** ** Sealed accounts *)

Section Sealing.
Context {Capability Schema : Type} `{RustOrd Capability, EqDecision Schema}.
Abbreviation AccountT := (ChildRunBudgetAccount Capability Schema).
Abbreviation EntryT := (ChildRunBudgetEntry Capability Schema).
Context `{Serialize AccountT, Canonical Value}.
Variable sha256 : bytes -> bytes.
Implicit Types (a b : AccountT) (e : EntryT).

Definition kd e : Digest := key_digest (en_key e).
Definition child_run e : RunId := run_id (en_child e).

(** What [seal] requires of one entry. *)
Definition child_ok a e : Prop :=
  entry_validate e = Ok tt /\ key_tenant_id (en_key e) = tenant_id (parent a) /\ parent_run_id (en_key e) = run_id (parent a) /\
  head_graph (base_checkpoint (key_parent (en_key e))) = account_graph a /\ tenant_id (en_child e) = tenant_id (parent a) /\
  child_run e <> run_id (parent a) /\ forall s, en_settlement e = Some s -> parent_admitted_at a <= se_admitted_at s.

Lemma check_child_Ok a keys runs e st :
  check_child a (keys, runs) e = Ok st ->
  child_ok a e /\ kd e ∉ keys /\ child_run e ∉ runs /\ st = (bs_insert (kd e) keys, bs_insert (child_run e) runs).
Proof.
  unfold check_child. intros Hc. apply bind_Ok in Hc as ([] & Hv & Hc). destruct (_ || _) eqn:E in Hc; [done |]. bools.
  destruct (_ || _) eqn:E in Hc; [done |]. apply orb_false_iff in E as [Hk%bs_contains_false Hr%bs_contains_false].
  apply bind_Ok in Hc as ([] & Hs & Hc). split_and!; try done; [| by injection Hc as <-]. split_and!; try done.
  intros s E. rewrite E in Hs. by destruct (Z.ltb_spec (se_admitted_at s) (parent_admitted_at a)).
Qed.

Lemma check_children_Ok a l keys runs st :
  try_fold (check_child a) (keys, runs) l = Ok st ->
  Forall (child_ok a) l /\ NoDup (kd <$> l) /\ NoDup (child_run <$> l) /\
  (forall e, e ∈ l -> kd e ∉ keys /\ child_run e ∉ runs).
Proof.
  revert keys runs. induction l as [|e l IH]; intros keys runs Hf; simpl in Hf.
  { split_and!; [constructor.. |]. intros e He. by apply not_elem_of_nil in He. }
  apply bind_Ok in Hf as ([ks rs] & Hc & Hf). apply check_child_Ok in Hc as (Hok & Hk & Hr & [= -> ->]).
  destruct (IH _ _ Hf) as (HF & Hnk & Hnr & Hout). setoid_rewrite bs_insert_elem in Hout. split_and!.
  - by constructor.
  - apply NoDup_cons. split; [| done]. intros (e' & E & He')%list_elem_of_fmap. apply Hout in He' as [Hx _]. apply Hx. by left.
  - apply NoDup_cons. split; [| done]. intros (e' & E & He')%list_elem_of_fmap. apply Hout in He' as [_ Hx]. apply Hx. by left.
  - intros e' [-> | He']%elem_of_cons; [done |]. apply Hout in He'. naive_solver.
Qed.

(** The account [seal] returns, up to its digest. *)
Definition sorted_children a : AccountT := set_children a (sort_by_key kd (children a)).

Definition same_pins a b : Prop :=
  version b = version a /\ parent b = parent a /\ parent_admission_digest b = parent_admission_digest a /\
  parent_admitted_at b = parent_admitted_at a /\ account_graph b = account_graph a /\ account_budget b = account_budget a /\
  maximum_children b = maximum_children a.

(** [seal] reads the children up to their order, and never the digest. *)
Lemma seal_ext a b :
  same_pins a b -> direct_head b = direct_head a -> direct_usage b = direct_usage a ->
  length (children b) = length (children a) -> sort_by_key kd (children b) = sort_by_key kd (children a) ->
  seal sha256 b = seal sha256 a.
Proof.
  intros (E1 & E2 & E3 & E4 & E5 & E6 & E7) E8 E9 El Es. destruct a, b. simpl in *. subst.
  unfold seal. cbn -[sort_by_key]. fold kd. by rewrite El, Es.
Qed.

Lemma account_seal_Ok a b :
  seal sha256 a = Ok b ->
  (exists d, b = set_digest (sorted_children a) d) /\ maximum_children a <> 0 /\ maximum_children a <= MAX_CHILDREN /\
  Z.of_nat (length (children a)) <= maximum_children a /\ Forall (child_ok a) (children a) /\
  NoDup (kd <$> children a) /\ NoDup (child_run <$> children a) /\ seal sha256 b = Ok b.
Proof.
  intros Hs. assert (Hs' := Hs). unfold seal in Hs. destruct (negb (version a =? 1)) eqn:Ev; [done |].
  destruct (_ || _) eqn:Em in Hs; [done |]. destruct (_ || _) eqn:Ed in Hs; [done |].
  cbv zeta in Hs. apply bind_Ok in Hs as (st & Hc & Hs). apply bind_Ok in Hs as (u & Hu & Hs).
  apply bind_Ok in Hs as (by_ & Hb & Hs). injection Hs as <-. fold kd in *.
  destruct (check_children_Ok _ _ _ _ _ Hc) as (HF & Hk & Hr & _).
  change (Forall (child_ok a) (sort_by_key kd (children a))) in HF. simpl in Hk, Hr.
  pose proof (sort_by_key_perm kd (children a)) as Hp. rewrite Hp in HF, Hk, Hr.
  split_and!; try done; bools; try lia; [by eexists |].
  rewrite <- Hs'. apply seal_ext; simpl; try done.
  - by rewrite Hp.
  - by apply sort_by_key_unique; [rewrite Hp | rewrite Hp].
Qed.
End Sealing.

(** ** Steps of an account *)

Section Steps.
Context {Capability Schema Principal Definition_ : Type} `{RustOrd Capability, EqDecision Schema, EqDecision Principal}.
Abbreviation AccountT := (ChildRunBudgetAccount Capability Schema).
Abbreviation EntryT := (ChildRunBudgetEntry Capability Schema).
Abbreviation SettlementT := (ChildRunBudgetSettlement Capability).
Abbreviation KeyT := (ChildRunKey Capability Schema).
Abbreviation GraphT := (CompiledGraph Capability Schema).
Abbreviation ChildIntentT := (ChildRunAdmissionIntent Capability Schema Principal Definition_).
Abbreviation AdmissionT := (Admission.AgentAdmission Capability Schema Principal Definition_).
Context `{Serialize AccountT, Canonical Value, Canonical (NodeActivation Capability Schema),
          Serialize (Admission.AgentDescriptor Capability Schema Definition_)}.
Variable sha256 : bytes -> bytes.
Implicit Types (a b : AccountT) (e : EntryT) (s : SettlementT) (intent : ChildIntentT).

Abbreviation sealed a := (seal sha256 a = Ok a).

(** The operations of an account, on well-formed amounts. *)
Inductive account_step : relation AccountT :=
| step_reserve a intent (g : GraphT) (t : Timestamp) a' :
    ResolvedBudget.wf (Admission.budget (ChildRun.child intent)) -> reserve sha256 a intent g t = Ok a' -> account_step a a'
| step_settle a (key : KeyT) s a' :
    BudgetUsage.wf (se_usage s) -> settle sha256 a key s = Ok a' -> account_step a a'
| step_observe a (h : JournalHead) (u : BudgetUsage.t) a' :
    BudgetUsage.wf u -> observe_direct sha256 a h u = Ok a' -> account_step a a'.

(** The entry [reserve] adds. *)
Definition new_entry intent (r : Reservation.CumulativeBudgetReservation) : EntryT :=
  let ch := ChildRun.child intent in
  mkEntry (ci_key intent) (ChildRun.spawn_digest intent) (Admission.provenance ch) (Admission.intent_digest ch) r None.

(** The guards of [reserve] before it looks for the entry. *)
Definition reserve_guards a intent (g : GraphT) : Prop :=
  ChildRun.parent_admission_digest intent = parent_admission_digest a /\
  key_tenant_id (ci_key intent) = tenant_id (parent a) /\ parent_run_id (ci_key intent) = run_id (parent a) /\
  head_graph (base_checkpoint (key_parent (ci_key intent))) = account_graph a /\ reference g = account_graph a /\
  ChildRun.validate_declaration sha256 intent g = Ok tt /\
  ResolvedBudget.validate_narrowing (Admission.budget (ChildRun.child intent)) (account_budget a) = Ok tt.

Lemma reserve_iff a intent g t a' :
  reserve sha256 a intent g t = Ok a' <->
  reserve_guards a intent g /\
  ((a' = a /\ exists e, entry a (ci_key intent) = Some e /\ en_spawn_digest e = ChildRun.spawn_digest intent) \/
   (entry a (ci_key intent) = None /\ Z.of_nat (length (children a)) < maximum_children a /\
    exists r, Reservation.from_budget (Admission.budget (ChildRun.child intent)) = Ok r /\
      let next := set_children a (children a ++ [new_entry intent r]) in
      (exists left, remaining next t = Ok left) /\ seal sha256 next = Ok a')).
Proof.
  unfold reserve, reserve_guards. split.
  - intros Hr. destruct (_ || _) eqn:E in Hr; [done |]. bools.
    apply bind_Ok in Hr as ([] & Hd%map_err_Ok & Hr). cbv zeta in Hr. apply bind_Ok in Hr as ([] & Hn%map_err_Ok & Hr).
    split; [by split_and! |]. destruct (entry a (ci_key intent)) as [e|].
    + left. case_bool_decide; [| done]. injection Hr as <-. split; [done |]. by exists e.
    + right. destruct (Z.leb_spec (maximum_children a) (Z.of_nat (length (children a)))); [done |].
      apply bind_Ok in Hr as (r & Hf%map_err_Ok & Hr). apply bind_Ok in Hr as (left & Hleft & Hr).
      split_and!; [done | done |]. exists r. split; [done |]. split; [by exists left | done].
  - intros ((-> & -> & -> & -> & -> & Hd & Hn) & Hcase). rewrite !bool_decide_eq_true_2 by done. simpl. rewrite Hd, Hn. simpl.
    destruct Hcase as [(-> & e & -> & E) | (-> & Hlt & r & Hf & (left & Hleft) & Hs)].
    + by rewrite bool_decide_eq_true_2.
    + destruct (Z.leb_spec (maximum_children a) (Z.of_nat (length (children a)))); [lia |].
      rewrite Hf. simpl. unfold new_entry in *. by rewrite Hleft.
Qed.

Lemma settle_iff a key s a' :
  settle sha256 a key s = Ok a' <->
  settlement_validate s = Ok tt /\ parent_admitted_at a <= se_admitted_at s /\
  exists i e, position (fun e => bool_decide (en_key e = key)) (children a) = Some i /\ children a !! i = Some e /\
    en_child e = se_child s /\ en_intent_digest e = se_intent_digest s /\
    ((en_settlement e = Some s /\ a' = a) \/
     (en_settlement e = None /\ seal sha256 (set_children a (alter (set_settlement s) i (children a))) = Ok a')).
Proof.
  unfold settle. split.
  - intros Hs. apply bind_Ok in Hs as ([] & Hv & Hs). apply bind_Ok in Hs as (i & Hi%ok_or_Ok & Hs).
    apply bind_Ok in Hs as (e & He%ok_or_Ok & Hs). destruct (_ || _) eqn:E in Hs; [done |]. bools.
    destruct (Z.ltb_spec (se_admitted_at s) (parent_admitted_at a)); [done |]. split_and!; [done | done |]. exists i, e.
    split_and!; try done. destruct (en_settlement e) as [s'|]; [left | by right]. case_bool_decide; [| done].
    split; congruence.
  - intros (Hv & Ht & i & e & Hi & He & E1 & E2 & Hcase). rewrite Hv, Hi. simpl. rewrite He. simpl.
    rewrite !bool_decide_eq_true_2 by done. simpl.
    destruct (Z.ltb_spec (se_admitted_at s) (parent_admitted_at a)); [lia |].
    destruct Hcase as [[-> ->] | [-> Hs]]; [| done]. by rewrite bool_decide_eq_true_2.
Qed.

Lemma observe_iff a h u a' :
  observe_direct sha256 a h u = Ok a' <->
  (h = direct_head a /\ u = direct_usage a /\ a' = a) \/
  (~ (h = direct_head a /\ u = direct_usage a) /\ jh_tenant_id h = tenant_id (parent a) /\ jh_run_id h = run_id (parent a) /\
   jh_sequence (direct_head a) < jh_sequence h /\ jh_recorded_at (direct_head a) <= jh_recorded_at h /\
   BudgetUsage.validate_monotonic_after u (direct_usage a) = Ok tt /\ seal sha256 (set_direct a h u) = Ok a').
Proof.
  unfold observe_direct. split.
  - intros Ho. destruct (_ && _) eqn:E in Ho.
    { bools. left. injection Ho as <-. by split_and!. }
    right. apply andb_false_iff in E. destruct (_ || _) eqn:E' in Ho; [done |]. bools.
    apply bind_Ok in Ho as ([] & Hm%map_err_Ok & Ho). split_and!; try done. intros [-> ->].
    rewrite !bool_decide_eq_true_2 in E by done. naive_solver.
  - intros [(-> & -> & ->) | (Hne & E1 & E2 & Hlt & Hle & Hm & Hs)].
    { by rewrite (bool_decide_eq_true_2 (direct_head a = direct_head a)), (bool_decide_eq_true_2 (direct_usage a = direct_usage a)). }
    replace (bool_decide (h = direct_head a) && bool_decide (u = direct_usage a)) with false.
    2: { symmetry. apply andb_false_iff. rewrite !bool_decide_eq_false. destruct (decide (h = direct_head a)); naive_solver. }
    rewrite !bool_decide_eq_true_2 by done. simpl.
    destruct (Z.leb_spec (jh_sequence h) (jh_sequence (direct_head a))); [lia |].
    destruct (Z.ltb_spec (jh_recorded_at h) (jh_recorded_at (direct_head a))); [lia |]. simpl. by rewrite Hm.
Qed.
(** ** Entries are permanent *)

Lemma entry_found a e :
  sealed a -> e ∈ children a ->
  entry a (en_key e) = Some e /\
  exists i, position (fun e' => bool_decide (en_key e' = en_key e)) (children a) = Some i /\ children a !! i = Some e.
Proof.
  intros (_ & _ & _ & _ & _ & Hn & _)%account_seal_Ok He. unfold entry.
  assert (Huniq : forall e', e' ∈ children a -> en_key e' = en_key e -> e' = e).
  { intros e' He' E. apply list_elem_of_lookup in He as (i & Hi), He' as (j & Hj).
    assert (i = j) as ->; [| congruence]. eapply (NoDup_lookup (kd <$> children a)); [done | by rewrite list_lookup_fmap, Hi |].
    rewrite list_lookup_fmap, Hj. simpl. unfold kd. by rewrite E. }
  split.
  - destruct (List.find _ (children a)) as [e'|] eqn:E.
    + apply List.find_some in E as [Hin Hk%bool_decide_eq_true]. f_equal. apply Huniq; [by apply list_elem_of_In | done].
    + apply (List.find_none _ _ E) in He as Hk%bool_decide_eq_false || (apply list_elem_of_In in He as He';
        pose proof (List.find_none _ _ E e He') as Hk; apply bool_decide_eq_false in Hk); done.
  - destruct (position _ (children a)) as [i|] eqn:E.
    + exists i. split; [done |]. apply position_Some in E as (l1 & x & l2 & El & Hl & Hx%bool_decide_eq_true & _).
      rewrite El, list_lookup_middle by done. f_equal. apply Huniq; [rewrite El; set_solver | done].
    + apply position_None in E. rewrite Forall_forall in E. specialize (E e He). simpl in E. by apply bool_decide_eq_false in E.
Qed.

Definition same_entry e e' : Prop :=
  en_key e' = en_key e /\ en_spawn_digest e' = en_spawn_digest e /\ en_child e' = en_child e /\
  en_intent_digest e' = en_intent_digest e /\ en_reservation e' = en_reservation e /\
  (en_settlement e = None \/ en_settlement e' = en_settlement e).

(** A later account keeps every pin and entry of an earlier one. *)
Definition keeps a b : Prop :=
  same_pins a b /\ (forall e, e ∈ children a -> exists e', e' ∈ children b /\ same_entry e e') /\
  (jh_sequence (direct_head a) <= jh_sequence (direct_head b) /\ jh_recorded_at (direct_head a) <= jh_recorded_at (direct_head b)) /\
  UsageLaws.dominates (direct_usage b) (direct_usage a) /\ settled_usages a ⊆+ settled_usages b.

#[local] Instance keeps_preorder : PreOrder keeps.
Proof.
  split.
  - intros a. split_and!; try done. intros e He. exists e. split; [done |]. by split_and!; [.. | right].
  - intros a b c ((? & ? & ? & ? & ? & ? & ?) & He1 & [Hs1 Ht1] & [Hd1 Hk1] & Hm1) ((? & ? & ? & ? & ? & ? & ?) & He2 & [Hs2 Ht2] & [Hd2 Hk2] & Hm2).
    split_and!; [split_and!; congruence | | lia | lia | split | by etrans].
    + intros e He. destruct (He1 e He) as (e1 & Hin1 & (? & ? & ? & ? & ? & Hse)).
      destruct (He2 e1 Hin1) as (e2 & Hin2 & (? & ? & ? & ? & ? & Hse2)). exists e2. split; [done |].
      split_and!; try congruence. destruct Hse as [?|E]; [by left |]. destruct Hse2 as [E2|E2]; [left | right]; congruence.
    + intros d. specialize (Hd1 d). specialize (Hd2 d). lia.
    + intros k. specialize (Hk1 k). specialize (Hk2 k). lia.
Qed.

Lemma omap_perm {A B} (f : A -> option B) (l l' : list A) : l ≡ₚ l' -> omap f l ≡ₚ omap f l'.
Proof.
  induction 1 as [|x l l' _ IH|x y l|l l' l'' _ IH1 _ IH2]; simpl; [done | | | by etrans]; [destruct (f x); [by f_equiv | done] |].
  destruct (f x), (f y); try done. constructor.
Qed.

Lemma settled_perm a b : children a ≡ₚ children b -> settled_usages a ≡ₚ settled_usages b.
Proof. intros Hp. unfold settled_usages, settlements. by rewrite (omap_perm _ _ _ Hp). Qed.

Lemma sealed_children a b : seal sha256 a = Ok b ->
  children b ≡ₚ children a /\ same_pins a b /\ direct_head b = direct_head a /\ direct_usage b = direct_usage a /\ sealed b.
Proof.
  intros ((d & ->) & _ & _ & _ & _ & _ & _ & Hs)%account_seal_Ok. simpl. split_and!; try done. apply sort_by_key_perm.
Qed.

Lemma reserve_keeps a intent g t a' :
  account_wf a -> sealed a -> ResolvedBudget.wf (Admission.budget (ChildRun.child intent)) ->
  reserve sha256 a intent g t = Ok a' -> keeps a a' /\ sealed a' /\ account_wf a'.
Proof.
  intros (Hb & Hd & HF) Hs Hwf (_ & [[-> _] | (_ & _ & r & Hr & _ & Hn)])%reserve_iff; [done |].
  destruct (Reservation.from_budget_total _ Hwf) as (r' & Hr' & Hrw & _). assert (r' = r) as -> by congruence.
  apply sealed_children in Hn as (Hp & Hpins & Eh & Eu & Hs'). simpl in *. split_and!; [| done |].
  - split_and!; try done; [| by rewrite Eh.. | by rewrite Eu |].
    + intros e He. exists e. split; [rewrite Hp; set_solver |]. by split_and!; [.. | right].
    + rewrite (settled_perm a' (set_children a (children a ++ [new_entry intent r])) Hp). unfold settled_usages, settlements. simpl.
      rewrite omap_app. simpl. by rewrite app_nil_r.
  - destruct Hpins as (_ & _ & _ & _ & _ & Eb & _). simpl in Eb. split_and!; [by rewrite Eb | by rewrite Eu |].
    rewrite Hp. apply Forall_app. split; [done |]. constructor; [| constructor]. by split.
Qed.
(** Settling replaces one outstanding entry. *)
Lemma settled_split a s i e :
  children a !! i = Some e -> en_settlement e = None ->
  exists l1 l2, children a = l1 ++ e :: l2 /\ alter (set_settlement s) i (children a) = l1 ++ set_settlement s e :: l2.
Proof.
  intros (l1 & l2 & El & ->)%list_elem_of_split_length _. exists l1, l2. split; [done |].
  by rewrite El, alter_app_r_alt, Nat.sub_diag by done.
Qed.

Lemma settle_keeps a key s a' :
  account_wf a -> sealed a -> BudgetUsage.wf (se_usage s) -> settle sha256 a key s = Ok a' ->
  keeps a a' /\ sealed a' /\ account_wf a'.
Proof.
  intros (Hb & Hd & HF) Hs Hu (_ & _ & i & e & _ & He & E1 & E2 & [[_ ->] | [En Hn]])%settle_iff; [done |].
  destruct (settled_split a s i e He En) as (l1 & l2 & El & Ea). rewrite Ea in Hn.
  apply sealed_children in Hn as (Hp & Hpins & Eh & Eu & Hs'). simpl in *. split_and!; [| done |].
  - split_and!; try done; [| by rewrite Eh.. | by rewrite Eu |].
    + intros e' He'. rewrite El in He'. apply elem_of_app in He' as [He' | [-> | He']%elem_of_cons].
      * exists e'. split; [rewrite Hp; set_solver |]. by split_and!; [.. | right].
      * exists (set_settlement s e). split; [rewrite Hp; set_solver |]. by split_and!; [.. | left].
      * exists e'. split; [rewrite Hp; set_solver |]. by split_and!; [.. | right].
    + rewrite (settled_perm a' (set_children a (l1 ++ set_settlement s e :: l2)) Hp). unfold settled_usages, settlements. simpl.
      rewrite El, !omap_app, !fmap_app. simpl. rewrite En. apply submseteq_app; [done |]. by apply submseteq_cons.
  - destruct Hpins as (_ & _ & _ & _ & _ & Eb & _). simpl in Eb. split_and!; [by rewrite Eb | by rewrite Eu |].
    rewrite Hp. rewrite El in HF. apply Forall_app in HF as [HF1 [[Hr _] HF2]%Forall_cons].
    apply Forall_app. split; [done |]. constructor; [| done]. split; [done |]. simpl. by intros s' [= <-].
Qed.

Lemma observe_keeps a h u a' :
  account_wf a -> sealed a -> BudgetUsage.wf u -> observe_direct sha256 a h u = Ok a' ->
  keeps a a' /\ sealed a' /\ account_wf a'.
Proof.
  intros (Hb & Hd & HF) Hs Hu [(_ & _ & ->) | (_ & _ & _ & Hlt & Hle & Hm & Hn)]%observe_iff; [done |].
  apply UsageLaws.validate_monotonic_iff in Hm; [| by apply UsageLaws.wf_costs..].
  apply sealed_children in Hn as (Hp & Hpins & Eh & Eu & Hs'). simpl in *. split_and!; [| done |].
  - split_and!; try done; [| rewrite Eh; lia.. | by rewrite Eu |].
    + intros e He. exists e. split; [by rewrite Hp |]. by split_and!; [.. | right].
    + by rewrite (settled_perm a' a Hp).
  - destruct Hpins as (_ & _ & _ & _ & _ & Eb & _). simpl in Eb. split_and!; [by rewrite Eb | by rewrite Eu |]. by rewrite Hp.
Qed.

Lemma step_keeps a a' :
  account_wf a -> sealed a -> account_step a a' -> keeps a a' /\ sealed a' /\ account_wf a'.
Proof. intros Hwf Hs Hst. destruct Hst; [by eapply reserve_keeps | by eapply settle_keeps | by eapply observe_keeps]. Qed.

Lemma steps_keep a a' :
  account_wf a -> sealed a -> rtc account_step a a' -> keeps a a' /\ sealed a' /\ account_wf a'.
Proof.
  intros Hwf Hs Hst. induction Hst as [|a b c Hab _ IH]; [done |].
  destruct (step_keeps _ _ Hwf Hs Hab) as (K & Hs' & Hwf'). destruct (IH Hwf' Hs') as (K' & ? & ?). split; [by etrans | done].
Qed.

(** ** Opening an account *)

Lemma account_new_Ok (p : AdmissionT) (g : GraphT) h u a :
  ResolvedBudget.wf (Admission.budget (Admission.intent p)) -> BudgetUsage.wf u -> account_new sha256 p g h u = Ok a ->
  sealed a /\ account_wf a /\ validate_for a p g = Ok tt /\ children a = [] /\ direct_usage a = u /\ direct_head a = h.
Proof.
  intros Hb Hu Hn. unfold account_new in Hn. apply bind_Ok in Hn as (pol & Hp%ok_or_Ok & Hn).
  destruct (_ <? _) in Hn; [done |]. cbv zeta in Hn. apply bind_Ok in Hn as (v & Hs & Hn).
  apply bind_Ok in Hn as ([] & Hv & [= <-]). apply sealed_children in Hs as (Hc & Hpins & Eh & Eu & Hs). simpl in *.
  apply Permutation_nil_r in Hc. destruct Hpins as (_ & _ & _ & _ & _ & Eb & _). simpl in Eb.
  split_and!; try done. split_and!; [by rewrite Eb | by rewrite Eu | by rewrite Hc].
Qed.

(** The guard of [validate_for] reads only what an account keeps. *)
Lemma validate_for_keeps a b (p : AdmissionT) (g : GraphT) :
  keeps a b -> validate_for a p g = Ok tt -> validate_for b p g = Ok tt.
Proof.
  intros ((E1 & E2 & E3 & E4 & E5 & E6 & E7) & _ & [_ Ht] & _). unfold validate_for. rewrite E2, E3, E4, E5, E6, E7.
  destruct (_ || _) eqn:E; [done |]. intros _. apply orb_false_iff in E as [EX Ej%Z.ltb_ge]. rewrite EX. simpl.
  by destruct (Z.ltb_spec (jh_recorded_at (direct_head b)) (Admission.admitted_at p)); [lia |].
Qed.
(** ** Reached accounts *)

Definition reachable (p : AdmissionT) (g : GraphT) a : Prop :=
  exists h u a0, BudgetUsage.wf u /\ account_new sha256 p g h u = Ok a0 /\ rtc account_step a0 a.

Lemma reachable_inv (p : AdmissionT) (g : GraphT) a :
  ResolvedBudget.wf (Admission.budget (Admission.intent p)) -> reachable p g a ->
  sealed a /\ account_wf a /\ validate_for a p g = Ok tt.
Proof.
  intros Hb (h & u & a0 & Hu & Hn & Hst). destruct (account_new_Ok _ _ _ _ _ Hb Hu Hn) as (Hs & Hwf & Hv & _).
  destruct (steps_keep _ _ Hwf Hs Hst) as (K & Hs' & Hwf'). split_and!; [done | done |]. by eapply validate_for_keeps.
Qed.

Lemma sealed_accounted a : sealed a -> exists u, accounted_usage a = Ok u.
Proof.
  intros Hs. assert (Hs' := Hs). apply account_seal_Ok in Hs' as ((d & Ed) & _). unfold seal in Hs.
  destruct (negb _); [done |]. destruct (_ || _) in Hs; [done |]. destruct (_ || _) in Hs; [done |]. cbv zeta in Hs.
  apply bind_Ok in Hs as (st & _ & Hs). apply bind_Ok in Hs as (u & Hu & _). exists u.
  by rewrite Ed.
Qed.

Lemma sealed_restores a : sealed a -> account_restore sha256 a = Ok a.
Proof.
  intros Hs. destruct (account_seal_Ok _ _ _ Hs) as (_ & _ & Hmax & Hlen & HF & _). unfold account_restore.
  destruct (Z.ltb_spec MAX_CHILDREN (Z.of_nat (length (children a)))); [lia |].
  assert (try_fold (fun _ e => entry_validate e) tt (children a) = Ok tt) as ->.
  { apply try_fold_checks. eapply Forall_impl; [exact HF |]. by intros e (? & _). }
  simpl. rewrite Hs. simpl. by rewrite bool_decide_eq_true_2.
Qed.

(** C37: Every account reached from an admission by reservations, settlements
    and observations is sound and durable: it decodes to itself, still belongs
    to its admission and graph, holds at most its declared number of children
    and never more than 256, under distinct ownership keys and distinct runs of
    the parent's tenant other than the parent's own, and its accounted usage
    is representable. *)
Theorem child_account_invariant (p : AdmissionT) (g : GraphT) (a : AccountT)
    (Hb : ResolvedBudget.wf (Admission.budget (Admission.intent p))) (Hr : reachable p g a) :
  account_restore sha256 a = Ok a /\ validate_for a p g = Ok tt /\
  Z.of_nat (length (children a)) <= maximum_children a <= 256 /\
  NoDup (kd <$> children a) /\ NoDup (child_run <$> children a) /\
  (forall e, e ∈ children a -> tenant_id (en_child e) = tenant_id (parent a) /\ child_run e <> run_id (parent a) /\
     parent_run_id (en_key e) = run_id (parent a)) /\
  exists u, accounted_usage a = Ok u.
Proof.
  destruct (reachable_inv p g a Hb Hr) as (Hs & Hwf & Hv).
  destruct (account_seal_Ok _ _ _ Hs) as (_ & _ & Hmax & Hlen & HF & Hk & Hn & _).
  split_and!; try done; [by apply sealed_restores | | by apply sealed_accounted].
  intros e He. rewrite Forall_forall in HF. destruct (HF e He) as (_ & _ & ? & _ & ? & ? & _). done.
Qed.

(** ** Retries *)

Lemma reserve_retry a intent g t a' b t' :
  sealed b -> reserve sha256 a intent g t = Ok a' -> keeps a' b -> keeps a a' ->
  reserve sha256 b intent g t' = Ok b.
Proof.
  intros Hsb (Hg & Hcase)%reserve_iff K K0. apply reserve_iff. split.
  - assert (K1 : keeps a b) by (by etrans). destruct K1 as ((_ & E2 & E3 & E4 & E5 & E6 & _) & _).
    unfold reserve_guards in *. by rewrite E2, E3, E5, E6.
  - left. split; [done |].
    assert (Hent : exists e, e ∈ children a' /\ en_key e = ci_key intent /\ en_spawn_digest e = ChildRun.spawn_digest intent).
    { destruct Hcase as [(-> & e & He & Hd) | (_ & _ & r & _ & _ & Hs)].
      - unfold entry in He. apply List.find_some in He as [Hin Hk%bool_decide_eq_true]. exists e.
        split_and!; try done. by apply list_elem_of_In.
      - apply sealed_children in Hs as (Hp & _). exists (new_entry intent r). split_and!; try done.
        rewrite Hp. simpl. set_solver. }
    destruct Hent as (e & He & Hk & Hd). destruct K as (_ & Kin & _). destruct (Kin e He) as (e' & He' & Ek & Es & _).
    exists e'. rewrite <- Hk, <- Ek. split; [by apply entry_found | congruence].
Qed.

Lemma settle_retry a key s a' b :
  sealed a -> sealed b -> settle sha256 a key s = Ok a' -> keeps a' b -> settle sha256 b key s = Ok b.
Proof.
  intros Hsa Hsb (Hv & Ht & i & e & Hi & He & E1 & E2 & Hcase)%settle_iff K. apply settle_iff.
  assert (Hkey : en_key e = key).
  { apply position_Some in Hi as (l1 & x & l2 & El & Hl & Hx%bool_decide_eq_true & _).
    rewrite El, list_lookup_middle in He by done. by injection He as <-. }
  assert (Hent : exists e', e' ∈ children a' /\ en_key e' = key /\ en_child e' = se_child s /\
             en_intent_digest e' = se_intent_digest s /\ en_settlement e' = Some s /\ parent_admitted_at a' = parent_admitted_at a).
  { destruct Hcase as [[En ->] | [En Hn]].
    - exists e. split_and!; try done. by eapply list_elem_of_lookup_2.
    - destruct (settled_split a s i e He En) as (l1 & l2 & El & Ea). rewrite Ea in Hn.
      apply sealed_children in Hn as (Hp & (_ & _ & _ & E & _) & _). exists (set_settlement s e).
      split_and!; try done. rewrite Hp. simpl. set_solver. }
  destruct Hent as (e' & He' & K1 & K2 & K3 & K4 & K5).
  destruct K as ((_ & _ & _ & E4 & _) & Kin & _). destruct (Kin e' He') as (e2 & Hin & F1 & F2 & F3 & F4 & F5 & F6).
  split_and!; [done | lia |]. destruct (entry_found b e2 Hsb Hin) as (_ & j & Hj & Hl).
  exists j, e2. rewrite F1, K1 in Hj. split_and!; try congruence. left. split; [| done]. destruct F6; congruence.
Qed.

Lemma submseteq_sum d us vs : us ⊆+ vs -> Forall UsageSums.cumulative vs -> UsageSums.sum d us <= UsageSums.sum d vs.
Proof.
  intros (k & Hk)%submseteq_Permutation HF. rewrite Hk in *. apply Forall_app in HF as [_ HF].
  rewrite UsageSums.sum_app. pose proof (UsageSums.sum_nonneg d k HF). lia.
Qed.
Lemma submseteq_cost k us vs : us ⊆+ vs -> Forall UsageSums.cumulative vs -> UsageSums.cost k us <= UsageSums.cost k vs.
Proof.
  intros (l & Hk)%submseteq_Permutation HF. rewrite Hk in *. apply Forall_app in HF as [_ HF].
  rewrite UsageSums.cost_app. pose proof (UsageSums.cost_nonneg k l HF). lia.
Qed.

Lemma keeps_accounted a b u v :
  account_wf a -> account_wf b -> keeps a b -> accounted_usage a = Ok u -> accounted_usage b = Ok v -> UsageLaws.dominates v u.
Proof.
  intros Ha Hb (_ & _ & _ & [Hd Hk] & Hm) Hu Hv. pose proof (settled_cumulative b Hb) as HF.
  destruct (accounted_Ok a u Ha Hu) as (_ & Du & Ku), (accounted_Ok b v Hb Hv) as (_ & Dv & Kv). split.
  - intros d. rewrite Du, Dv. pose proof (submseteq_sum d _ _ Hm HF). specialize (Hd d). lia.
  - intros k. destruct (Ku k) as [-> _], (Kv k) as [-> _]. pose proof (submseteq_cost k _ _ Hm HF). specialize (Hk k). lia.
Qed.

(** Nothing is ever refunded or replaced.  From an account reached from an
    admission, whatever operations follow: every child entry stays, with the
    first accepted child, intent and reservation, and with its settlement once
    it has one; accounted usage only grows; and repeating an accepted
    reservation or settlement later, at any clock, returns the account
    unchanged. *)
Theorem child_records_permanent (p : AdmissionT) (g : GraphT) (a b : AccountT)
    (Hb : ResolvedBudget.wf (Admission.budget (Admission.intent p))) (Hr : reachable p g a) (Hst : rtc account_step a b) :
  keeps a b /\
  (forall u v, accounted_usage a = Ok u -> accounted_usage b = Ok v -> UsageLaws.dominates v u) /\
  (forall c intent pg t t', ResolvedBudget.wf (Admission.budget (ChildRun.child intent)) ->
     reserve sha256 a intent pg t = Ok c -> rtc account_step c b -> reserve sha256 b intent pg t' = Ok b) /\
  (forall c key s, BudgetUsage.wf (se_usage s) -> settle sha256 a key s = Ok c -> rtc account_step c b ->
     settle sha256 b key s = Ok b).
Proof.
  destruct (reachable_inv p g a Hb Hr) as (Hs & Hwf & _). destruct (steps_keep _ _ Hwf Hs Hst) as (K & Hsb & Hwfb).
  split_and!; [done | | |].
  - intros u v. by apply keeps_accounted.
  - intros c intent pg t t' Hw Hres Hcb. destruct (reserve_keeps _ _ _ _ _ Hwf Hs Hw Hres) as (K1 & Hsc & Hwfc).
    destruct (steps_keep _ _ Hwfc Hsc Hcb) as (K2 & _ & _). by apply (reserve_retry a intent pg t c b t').
  - intros c key s Hw Hset Hcb. destruct (settle_keeps _ _ _ _ Hwf Hs Hw Hset) as (K1 & Hsc & Hwfc).
    destruct (steps_keep _ _ Hwfc Hsc Hcb) as (K2 & _ & _). by apply (settle_retry a key s c b).
Qed.
(** ** Children that keep their budgets *)

Lemma lfilter_perm {A} (f : A -> bool) (l l' : list A) : l ≡ₚ l' -> List.filter f l ≡ₚ List.filter f l'.
Proof.
  induction 1 as [|x l l' _ IH|x y l|l l' l'' _ IH1 _ IH2]; simpl; [done | | | by etrans]; [destruct (f x); [by f_equiv | done] |].
  destruct (f x), (f y); try done. constructor.
Qed.

(** The charges of an account before and after a first settlement. *)
Lemma settle_commitments a key s a' :
  settle sha256 a key s = Ok a' -> entry a key ≫= en_settlement = None -> sealed a ->
  exists e rest, entry a key = Some e /\ en_settlement e = None /\
    commitments a ≡ₚ Reservation.amount (en_reservation e) :: rest /\
    commitments a' ≡ₚ BudgetUsage.cumulative_only (se_usage s) :: rest /\
    (length (outstanding a') < length (outstanding a))%nat /\ same_pins a a' /\ direct_usage a' = direct_usage a.
Proof.
  intros (Hv & Ht & i & e & Hi & He & E1 & E2 & Hcase)%settle_iff Hnone Hs.
  assert (Hkey : en_key e = key).
  { apply position_Some in Hi as (l1 & x & l2 & El & Hl & Hx%bool_decide_eq_true & _).
    rewrite El, list_lookup_middle in He by done. by injection He as <-. }
  assert (Hent : entry a key = Some e) by (rewrite <- Hkey; apply entry_found; [done | by eapply list_elem_of_lookup_2]).
  rewrite Hent in Hnone. simpl in Hnone. destruct Hcase as [[En _] | [En Hn]]; [congruence |].
  destruct (settled_split a s i e He En) as (l1 & l2 & El & Ea). rewrite Ea in Hn.
  apply sealed_children in Hn as (Hp & Hpins & Eh & Eu & _). simpl in Hp, Eu.
  exists e, (settled_usages a ++ (Reservation.amount <$> (en_reservation <$> List.filter (fun e => is_none (en_settlement e)) (l1 ++ l2)))).
  assert (Ho : outstanding a' ≡ₚ en_reservation <$> List.filter (fun e => is_none (en_settlement e)) (l1 ++ l2)).
  { unfold outstanding. rewrite (lfilter_perm _ _ _ Hp), !List.filter_app. done. }
  assert (Ho' : outstanding a ≡ₚ en_reservation e :: (en_reservation <$> List.filter (fun e => is_none (en_settlement e)) (l1 ++ l2))).
  { unfold outstanding. rewrite El, !List.filter_app. simpl. rewrite En. simpl. rewrite !fmap_app. simpl. by rewrite <- Permutation_middle. }
  split_and!; try done.
  - unfold commitments, reserved_usages. rewrite Ho'. simpl. by rewrite <- Permutation_middle.
  - unfold commitments, reserved_usages. rewrite Ho.
    rewrite (settled_perm a' (set_children a (l1 ++ set_settlement s e :: l2)) Hp). unfold settled_usages, settlements. simpl.
    rewrite El, !omap_app, !fmap_app. simpl. rewrite En. rewrite <- !app_assoc. simpl. by rewrite <- Permutation_middle.
  - apply Permutation_length in Ho, Ho'. simpl in Ho'. lia.
Qed.

(** A usage that fits a budget charges no more than the budget reserves. *)
Lemma fits_reservation (b : ResolvedBudget.t) r u :
  ResolvedBudget.wf b -> BudgetUsage.wf u -> Reservation.from_budget b = Ok r -> Capacity.fits b u ->
  let c := BudgetUsage.cumulative_only u in
  (forall d, BudgetUsage.used d c <= BudgetUsage.used d (Reservation.amount r)) /\
  (forall k, is_Some (Costs.get k (BudgetUsage.known_costs c)) -> is_Some (Costs.get k (BudgetUsage.known_costs (Reservation.amount r)))) /\
  (forall k, Costs.amount k (BudgetUsage.known_costs c) <= Costs.amount k (BudgetUsage.known_costs (Reservation.amount r))).
Proof.
  intros Hb Hu Hr Hf. destruct (Reservation.from_budget_total b Hb) as (r' & Hr' & (Hw & Hhw & Hun) & Hlim & Hc).
  assert (r' = r) as -> by congruence. apply UsageSums.fits_iff in Hf as (Hd & Hun' & Hex & Hle); [| done..]. simpl. rewrite Hc.
  split_and!; [| done | done]. intros d. pose proof (UsageSums.used_nonneg d _ Hw) as Hnn.
  destruct (BudgetUsage.high_water d) eqn:E; [destruct d; try done; cbn in *; lia |].
  destruct (decide (d = Costs)) as [->|]; [cbn in *; lia |]. destruct (decide (d = Deadline)) as [->|]; [done |].
  rewrite Hlim by done. etrans; [| by apply Hd]. by destruct d.
Qed.

Lemma commitments_cumulative a : account_wf a -> Forall UsageSums.cumulative (commitments a).
Proof. intros Hwf. apply Forall_app. split; [by apply settled_cumulative | by apply reserved_cumulative]. Qed.

(** Charges that were within the budget stay within it when one of them is
    replaced by a smaller one. *)
Lemma within_replace (b : ResolvedBudget.t) acc old new rest us vs :
  BudgetUsage.wf acc -> Forall UsageSums.cumulative us -> BudgetUsage.wf new ->
  us ≡ₚ old :: rest -> vs ≡ₚ new :: rest ->
  (forall d, BudgetUsage.used d new <= BudgetUsage.used d old) ->
  (forall k, is_Some (Costs.get k (BudgetUsage.known_costs new)) -> is_Some (Costs.get k (BudgetUsage.known_costs old))) ->
  (forall k, Costs.amount k (BudgetUsage.known_costs new) <= Costs.amount k (BudgetUsage.known_costs old)) ->
  UsageSums.within b acc us -> UsageSums.within b acc vs.
Proof.
  intros Ha HF Hn Hu Hv Hfd Hfe Hfc (Hd & Hun & Hex & Hle). rewrite Hu in HF. apply Forall_cons in HF as [_ HF]. split_and!.
  - intros d Hcd. specialize (Hd d Hcd). rewrite Hu in Hd. rewrite Hv. simpl in *. specialize (Hfd d). lia.
  - rewrite Hu in Hun. rewrite Hv. simpl in *. specialize (Hfd Costs). pose proof (UsageSums.sum_nonneg Costs rest HF).
    pose proof (UsageSums.used_nonneg Costs _ Ha). pose proof (UsageSums.used_nonneg Costs _ Hn). cbn in *. lia.
  - intros k [?|Hch]; apply Hex; [by left | right]. unfold UsageSums.charged in *. setoid_rewrite Hu. setoid_rewrite Hv in Hch.
    destruct Hch as (u & [-> | Hin]%elem_of_cons & Hk); [| by exists u; split; [right |]].
    exists old. split; [by left | by apply Hfe].
  - intros k. specialize (Hle k). rewrite Hu in Hle. rewrite Hv. simpl in *. specialize (Hfc k). lia.
Qed.

(** Settling a settled entry again changes nothing. *)
Lemma settled_again a key s a' e s0 :
  sealed a -> settle sha256 a key s = Ok a' -> entry a key = Some e -> en_settlement e = Some s0 -> a' = a.
Proof.
  intros Hs (_ & _ & i & e' & Hi & He' & _ & _ & [[_ ->] | [En' _]])%settle_iff He En; [done |].
  apply list_elem_of_lookup_2 in He' as Hin. destruct (entry_found a e' Hs Hin) as [Hf _].
  apply position_Some in Hi as (l1 & x & l2 & El & Hl & Hx%bool_decide_eq_true & _).
  rewrite El, list_lookup_middle in He' by done. injection He' as <-. rewrite Hx in Hf. congruence.
Qed.

Lemma settle_leaves a t r key s a' e (b : ResolvedBudget.t) t' :
  sealed a -> account_wf a -> remaining a t = Ok r -> settle sha256 a key s = Ok a' -> BudgetUsage.wf (se_usage s) ->
  entry a key = Some e -> ResolvedBudget.wf b -> Reservation.from_budget b = Ok (en_reservation e) ->
  Capacity.fits b (se_usage s) -> evidence_by a' t' -> t' < ResolvedBudget.deadline (account_budget a) ->
  exists r', remaining a' t' = Ok r' /\ forall d, counter d -> BudgetRemaining.left_of d r <= BudgetRemaining.left_of d r'.
Proof.
  intros Hs Hwf Hrem Hset Hu He Hwb Hres Hfit Hev' Ht'.
  destruct (proj1 (remaining_iff a t Hwf) (ex_intro _ r Hrem)) as (Hev & Hlen & Ht & Hw).
  destruct (remaining_left a t r Hwf Hrem) as [HL _]. destruct (settle_keeps _ _ _ _ Hwf Hs Hu Hset) as (_ & _ & Hwf').
  destruct (en_settlement e) as [s0|] eqn:En.
  - assert (a' = a) as -> by (by eapply settled_again).
    destruct (proj2 (remaining_iff a t' Hwf)) as [r' Hr']; [by split_and! |]. exists r'. split; [done |].
    intros d Hcd. destruct (remaining_left a t' r' Hwf Hr') as [HL' _]. specialize (HL d Hcd). specialize (HL' d Hcd). lia.
  - destruct (settle_commitments a key s a' Hset) as (e0 & rest & He0 & _ & Hc & Hc' & Hout & Hpins & Eu); [by rewrite He | done |].
    assert (e0 = e) as -> by congruence. destruct Hpins as (_ & _ & _ & _ & _ & Eb & _).
    destruct (fits_reservation b _ _ Hwb Hu Hres Hfit) as (Hfd & Hfe & Hfc).
    destruct (proj2 (remaining_iff a' t' Hwf')) as [r' Hr'].
    { rewrite Eb, Eu. split_and!; [done | lia | done |].
      eapply (within_replace _ _ _ _ rest (commitments a)); [apply Hwf | by apply commitments_cumulative |
        by apply cumulative_only_cumulative | exact Hc | exact Hc' | done..]. }
    exists r'. split; [done |]. intros d Hcd. destruct (remaining_left a' t' r' Hwf' Hr') as [HL' _].
    specialize (HL d Hcd). specialize (HL' d Hcd). rewrite Eb, Eu, Hc' in HL'. rewrite Hc in HL. simpl in *. specialize (Hfd d). lia.
Qed.

(** C36: An account never over-commits its budget, and children that keep their
    own budgets cannot make it.  When capacity remains at an instant, direct
    usage, settled charges and outstanding reservations together with the
    reported remainder are exactly the parent's ceilings in every dimension
    and currency, before the deadline; and settling a child whose usage fits
    the budget that was reserved for it leaves capacity at every later instant
    before the deadline, with at least as much left in every dimension. *)
Theorem child_budget_never_overcommits (p : AdmissionT) (g : GraphT) (a : AccountT) (t : Timestamp) (r : BudgetRemaining.t)
    (Hb : ResolvedBudget.wf (Admission.budget (Admission.intent p))) (Hr : reachable p g a) (Hrem : remaining a t = Ok r) :
  t < ResolvedBudget.deadline (account_budget a) /\ evidence_by a t /\
  (forall d, counter d ->
     BudgetUsage.used d (direct_usage a) + UsageSums.sum d (commitments a) + BudgetRemaining.left_of d r
       = ResolvedBudget.limit d (account_budget a)) /\
  (forall k, Costs.amount k (BudgetUsage.known_costs (direct_usage a)) + UsageSums.cost k (commitments a)
     + Costs.amount k (BudgetRemaining.costs r) = Costs.amount k (ResolvedBudget.costs (account_budget a))) /\
  (forall key s a' e (b : ResolvedBudget.t) t', settle sha256 a key s = Ok a' -> BudgetUsage.wf (se_usage s) ->
     entry a key = Some e -> ResolvedBudget.wf b -> Reservation.from_budget b = Ok (en_reservation e) ->
     Capacity.fits b (se_usage s) -> evidence_by a' t' -> t' < ResolvedBudget.deadline (account_budget a) ->
     exists r', remaining a' t' = Ok r' /\ forall d, counter d -> BudgetRemaining.left_of d r <= BudgetRemaining.left_of d r').
Proof.
  destruct (reachable_inv p g a Hb Hr) as (Hs & Hwf & _).
  destruct (proj1 (remaining_iff a t Hwf) (ex_intro _ r Hrem)) as (Hev & _ & Ht & _).
  destruct (remaining_left a t r Hwf Hrem) as [HL HC]. split_and!; try done.
  intros key s a' e b t' Hset Hu He Hwb Hres Hfit Hev' Ht'. by eapply settle_leaves.
Qed.
End Steps.

(** ** A parent run with one child *)

Module Example.
Import Delegation.Example.

Definition settlement : ChildRunBudgetSettlement Z :=
  mkSettlement (prov 2) [2] [2; 10] 20 (jhead 2 5 60) Succeeded [4] Capacity.sample_usage.

#[local] Instance enc_account : Serialize (ChildRunBudgetAccount Z Z) := fun _ => Some Null.

Definition ok_account (r : result ChildRunBudgetError (ChildRunBudgetAccount Z Z)) : ChildRunBudgetAccount Z Z :=
  match r with Ok a => a | Err _ => mkAccount 0 (prov 0) [] 0 (reference child_graph) Capacity.parent_budget 0 (jhead 0 0 0) BudgetUsage.zero [] [] end.
Definition opened : ChildRunBudgetAccount Z Z := ok_account (account_new hash parent_run parent_graph (jhead 1 3 20) BudgetUsage.zero).
Definition reserved : ChildRunBudgetAccount Z Z := ok_account (reserve hash opened intent parent_graph 30).
Definition settled : ChildRunBudgetAccount Z Z := ok_account (settle hash reserved key settlement).

Lemma opened_ok : account_new hash parent_run parent_graph (jhead 1 3 20) BudgetUsage.zero = Ok opened.
Proof. by vm_compute. Qed.
Lemma reserved_ok : reserve hash opened intent parent_graph 30 = Ok reserved.
Proof. by vm_compute. Qed.
Lemma settled_ok : settle hash reserved key settlement = Ok settled.
Proof. by vm_compute. Qed.

Lemma reserved_step : account_step (Principal := Z) (Definition_ := unit) hash opened reserved.
Proof. apply (step_reserve hash opened intent parent_graph 30); [apply Capacity.child_budget_wf | apply reserved_ok]. Qed.
Lemma settled_step : account_step (Principal := Z) (Definition_ := unit) hash reserved settled.
Proof. apply (step_settle hash reserved key settlement); [apply Capacity.sample_usage_wf | apply settled_ok]. Qed.

Lemma sample_fits : Capacity.fits Capacity.child_budget Capacity.sample_usage.
Proof.
  split; [intros [] [? ?]; cbn; try done; lia |]. split; [done |]. intros m ->%list_elem_of_singleton.
  exists (mkMoney (bytes_of "USD") 30). split; [by vm_compute | cbn; lia].
Qed.
Lemma settled_evidence : evidence_by settled 70.
Proof.
  split; [by vm_compute |]. assert (settlements settled = [settlement]) as -> by (by vm_compute).
  intros s ->%list_elem_of_singleton. by vm_compute.
Qed.

Lemma reserved_reachable : reachable hash parent_run parent_graph reserved.
Proof.
  exists (jhead 1 3 20), BudgetUsage.zero, opened.
  split_and!; [apply zero_wf | apply opened_ok | apply rtc_once, reserved_step].
Qed.
End Example.
#[local] Existing Instances Example.enc_account Delegation.Example.enc_value Delegation.Example.enc_activation
  Delegation.Example.enc_descriptor.

Lemma child_account_invariant_witness :
  account_restore Delegation.Example.hash Example.reserved = Ok Example.reserved /\ length (children Example.reserved) = 1%nat.
Proof.
  destruct (child_account_invariant Delegation.Example.hash Delegation.Example.parent_run Delegation.Example.parent_graph Example.reserved
              Capacity.parent_budget_wf Example.reserved_reachable) as [H _].
  split; [exact H | reflexivity].
Defined.

Lemma child_records_permanent_witness :
  rtc (account_step (Principal := Z) (Definition_ := unit) Delegation.Example.hash) Example.reserved Example.settled /\
  settle Delegation.Example.hash Example.settled Delegation.Example.key Example.settlement = Ok Example.settled /\
  Example.settled <> Example.reserved.
Proof.
  assert (Hst : rtc (account_step (Principal := Z) (Definition_ := unit) Delegation.Example.hash) Example.reserved Example.settled)
    by apply rtc_once, Example.settled_step.
  destruct (child_records_permanent Delegation.Example.hash Delegation.Example.parent_run Delegation.Example.parent_graph Example.reserved Example.settled
              Capacity.parent_budget_wf Example.reserved_reachable Hst) as (_ & _ & _ & H).
  split; [exact Hst |]. split.
  - exact (H Example.settled Delegation.Example.key Example.settlement Capacity.sample_usage_wf Example.settled_ok (rtc_refl _ _)).
  - intros E. apply (f_equal (fun a => length (settlements a))) in E. vm_compute in E. discriminate.
Defined.

Lemma child_budget_never_overcommits_witness :
  exists r r', remaining Example.reserved 30 = Ok r /\ remaining Example.settled 70 = Ok r' /\
    BudgetRemaining.left_of GraphSteps r = 30 /\ BudgetRemaining.left_of GraphSteps r <= BudgetRemaining.left_of GraphSteps r'.
Proof.
  destruct (remaining Example.reserved 30) as [r|] eqn:E; [| vm_compute in E; discriminate].
  destruct (child_budget_never_overcommits Delegation.Example.hash Delegation.Example.parent_run Delegation.Example.parent_graph Example.reserved 30 r
              Capacity.parent_budget_wf Example.reserved_reachable E) as (_ & _ & Hd & _ & H).
  destruct (H Delegation.Example.key Example.settlement Example.settled (new_entry Delegation.Example.intent
      (match Reservation.from_budget Capacity.child_budget with Ok x => x | Err _ => Reservation.mkReservation BudgetUsage.zero end))
      Capacity.child_budget 70) as (r' & Hr' & Hle).
  - exact Example.settled_ok.
  - exact Capacity.sample_usage_wf.
  - vm_compute. reflexivity.
  - exact Capacity.child_budget_wf.
  - vm_compute. reflexivity.
  - exact Example.sample_fits.
  - exact Example.settled_evidence.
  - vm_compute. reflexivity.
  - exists r, r'. split; [reflexivity | split; [exact Hr' | split; [| exact (Hle GraphSteps ltac:(split; discriminate))]]].
    pose proof (Hd GraphSteps ltac:(split; discriminate)) as Hg. vm_compute in E. injection E as <-. reflexivity.
Defined.
End Accounts.
