(* ===== verification/ChildJoin.v ===== *)
(** Child joins (crates/stateknot-core/src/child_join.rs): the sealed set of
    children one parent activation waits for, the complete terminal evidence
    bound to it and the head that publishes the binding in the parent's
    journal.

    The canonical encoder and SHA-256 are parameters; [keys[0]] on an empty
    request is the fault [Panic]. *)

From Stdlib Require Import ZArith Lia.
From stdpp Require Import prelude sorting.
From S2P Require Import Prelude Ordered Json Time Budget Checkpoint Graph Run Journal Barrier NodeAttempt ChildRun ChildBudget.

Open Scope Z_scope.
Import Timestamp(Timestamp).

Module ChildJoin.
Import ChildRun(ChildRunKey, key_parent, key_slot).
Import ChildBudget(ChildRunBudgetSettlement, se_terminal).

Definition MAX_CHILDREN : Z := 64.
Definition MAX_BYTES : Z := 4 * 1024 * 1024.

Inductive ChildRunJoinError := Bounds | Scope_ | Duplicate | Noncanonical | DigestMismatch | Clock | Encoding.

(** [windows(2).any(...)]. *)
Fixpoint any_window {A} (bad : A -> A -> bool) (l : list A) : bool :=
  match l with
  | a :: (b :: _) as rest => bad a b || any_window bad rest
  | _ => false
  end.

(** Collecting at most [MAX_CHILDREN] values. *)
Definition push_value {A} (values : list A) (value : A) : result ChildRunJoinError (list A) :=
  if Z.of_nat (length values) =? MAX_CHILDREN then Err Bounds else Ok (values ++ [value]).

Definition bounded_values {A} (values : list A) : result ChildRunJoinError (list A) := try_fold push_value [] values.

Section Joins.
Context {Capability Schema : Type} `{RustOrd Capability, EqDecision Schema}.
Abbreviation ActivationT := (NodeActivation Capability Schema).
Abbreviation KeyT := (ChildRunKey Capability Schema).
Abbreviation SettlementT := (ChildRunBudgetSettlement Capability).

Record ChildRunJoinRequest := mkJoinRequest {
  jr_version : Z;
  jr_keys : list KeyT;
  jr_activation_digest : Digest;
  jr_digest : Digest
}.

Record ChildRunJoinBinding := mkJoinBinding {
  jb_request : ChildRunJoinRequest;
  jb_terminals : list SettlementT;
  jb_digest : Digest
}.

Record ChildRunJoinHead := mkJoinHead {
  jhd_activation : ActivationT;
  jhd_request_digest : Digest;
  jhd_binding_digest : Digest;
  jhd_journal_head : JournalHead
}.

#[global] Instance ChildRunJoinHead_eq_dec : EqDecision ChildRunJoinHead.
Proof. solve_decision. Defined.

(** [self.keys[0].parent()]. *)
Definition activation (self : ChildRunJoinRequest) : option ActivationT := key_parent <$> List.hd_error (jr_keys self).

Context `{Canonical ActivationT, Canonical (Z * list KeyT * Digest), Canonical ChildRunJoinRequest,
          Canonical (Digest * list SettlementT), Canonical ChildRunJoinBinding}.
Variable sha256 : bytes -> bytes.

Definition canonical {T} `{Canonical T} (value : T) : result ChildRunJoinError bytes :=
  b ← ok_or (to_vec value) Encoding;
  if MAX_BYTES <? Z.of_nat (length b) then Err Bounds else Ok b.

Definition checksum {T} `{Canonical T} (domain : bytes) (value : T) : result ChildRunJoinError Digest :=
  b ← canonical value;
  Ok (sha256 (domain ++ [0] ++ b)).

Definition request_new (keys : list KeyT) : result ChildRunJoinError ChildRunJoinRequest :=
  values ← bounded_values keys;
  first ← ok_or (List.hd_error values) Bounds;
  if existsb (fun key => negb (bool_decide (key_parent key = key_parent first))) values then Err Scope_ else
  ad ← map_err (fun _ => Encoding) (NodeAttempt.compute_activation_digest sha256 (key_parent first));
  let values := sort_by_key key_slot values in
  if any_window (fun a b => bool_decide (key_slot a = key_slot b)) values then Err Duplicate else
  d ← checksum (bytes_of "stateknot.child-join-request.v1") (1, values, ad);
  let self := mkJoinRequest 1 values ad d in
  _ ← canonical self;
  Ok self.

(** The checks of the request's deserializer. *)
Definition request_restore (wire : ChildRunJoinRequest) : result ChildRunJoinError ChildRunJoinRequest :=
  keys ← bounded_values (jr_keys wire);
  if negb (jr_version wire =? 1) || any_window (fun a b => negb (bool_decide (cmp (key_slot a) (key_slot b) = Lt))) keys
  then Err Noncanonical else
  self ← request_new keys;
  if negb (bool_decide (jr_digest self = jr_digest wire))
     || negb (bool_decide (jr_activation_digest self = jr_activation_digest wire)) then Err DigestMismatch else
  Ok self.

(** One iteration of the loop over the terminals. *)
Definition bind_terminal (request : ChildRunJoinRequest) (st : list SettlementT * list RunId) (value : SettlementT)
  : result (fault ChildRunJoinError) (list SettlementT * list RunId) :=
  let '(values, children) := st in
  if Z.of_nat (length values) =? MAX_CHILDREN then Err (Fail Bounds) else
  act ← ok_or (activation request) Panic;
  let terminal := se_terminal value in
  if negb (bool_decide (jh_tenant_id terminal = NodeAttempt.act_tenant_id act))
     || bool_decide (jh_run_id terminal = NodeAttempt.act_run_id act) then Err (Fail Scope_) else
  if bs_contains (jh_run_id terminal) children then Err (Fail Duplicate) else
  Ok (values ++ [value], bs_insert (jh_run_id terminal) children).

Definition binding_new (request : ChildRunJoinRequest) (terminals : list SettlementT)
  : result (fault ChildRunJoinError) ChildRunJoinBinding :=
  '(values, _) ← try_fold (bind_terminal request) ([], []) terminals;
  if negb (length values =? length (jr_keys request))%nat then Err (Fail Bounds) else
  d ← map_err Fail (checksum (bytes_of "stateknot.child-join-binding.v1") (jr_digest request, values));
  let self := mkJoinBinding request values d in
  _ ← map_err Fail (canonical self);
  Ok self.

(** The checks of the binding's deserializer; the request was restored first. *)
Definition binding_restore (wire : ChildRunJoinBinding) : result (fault ChildRunJoinError) ChildRunJoinBinding :=
  request ← map_err Fail (request_restore (jb_request wire));
  terminals ← map_err Fail (bounded_values (jb_terminals wire));
  self ← binding_new request terminals;
  if negb (bool_decide (jb_digest self = jb_digest wire)) then Err (Fail DigestMismatch) else Ok self.

Definition head_restore (act : ActivationT) (rd bd : Digest) (journal : JournalHead)
  : result ChildRunJoinError ChildRunJoinHead :=
  if negb (bool_decide (jh_tenant_id journal = NodeAttempt.act_tenant_id act))
     || negb (bool_decide (jh_run_id journal = NodeAttempt.act_run_id act)) then Err Scope_ else
  let base := head_journal_head (base_checkpoint act) in
  if (jh_sequence journal <=? jh_sequence base) || (jh_recorded_at journal <? jh_recorded_at base) then Err Clock else
  Ok (mkJoinHead act rd bd journal).

Definition binding_head (self : ChildRunJoinBinding) (journal : JournalHead) : result (fault ChildRunJoinError) ChildRunJoinHead :=
  if existsb (fun value => jh_recorded_at journal <? jh_recorded_at (se_terminal value)) (jb_terminals self)
  then Err (Fail Clock) else
  act ← ok_or (activation (jb_request self)) Panic;
  map_err Fail (head_restore act (jr_digest (jb_request self)) (jb_digest self) journal).
End Joins.
Arguments ChildRunJoinRequest : clear implicits.
Arguments ChildRunJoinBinding : clear implicits.
Arguments ChildRunJoinHead : clear implicits.
End ChildJoin.

(** Theorems on child joins: sealing does not depend on the order in which the
    keys are given, a binding is complete, and what restores is what was
    sealed. *)

Module Joining.
Import ChildRun(ChildRunKey, mkKey, key_parent, key_slot).
Import ChildBudget(ChildRunBudgetSettlement, mkSettlement, se_terminal).
Import ChildJoin.

Lemma push_values {A} (acc l : list A) :
  Z.of_nat (length acc) <= MAX_CHILDREN ->
  try_fold push_value acc l = if MAX_CHILDREN <? Z.of_nat (length acc + length l) then Err Bounds else Ok (acc ++ l).
Proof.
  revert acc. induction l as [|x l IH]; intros acc Ha; simpl.
  - rewrite Nat.add_0_r, app_nil_r. by destruct (Z.ltb_spec MAX_CHILDREN (Z.of_nat (length acc))); [lia |].
  - assert (push_value acc x = if Z.of_nat (length acc) =? MAX_CHILDREN then Err Bounds else Ok (acc ++ [x])) as -> by done.
    destruct (Z.eqb_spec (Z.of_nat (length acc)) MAX_CHILDREN) as [E|E]; simpl.
    + by destruct (Z.ltb_spec MAX_CHILDREN (Z.of_nat (length acc + S (length l)))); [| lia].
    + rewrite IH; rewrite length_app; simpl; [| lia]. rewrite <- app_assoc. simpl.
      by replace (length acc + 1 + length l)%nat with (length acc + S (length l))%nat by lia.
Qed.

Lemma bounded_values_eq {A} (l : list A) :
  bounded_values l = if MAX_CHILDREN <? Z.of_nat (length l) then Err Bounds else Ok l.
Proof. unfold bounded_values. rewrite push_values by (unfold MAX_CHILDREN; simpl; lia). done. Qed.

Section Windows.
Context `{RustOrd K, !EqDecision K} {A : Type} (key : A -> K).

Lemma window_lt_iff (l : list A) :
  any_window (fun a b => negb (bool_decide (cmp (key a) (key b) = Lt))) l = false <-> ksorted key l.
Proof.
  induction l as [|a [|b l] IH]; [split; [constructor | done] | split; [repeat constructor | done] |].
  change (any_window ?p (a :: b :: l)) with (p a b || any_window p (b :: l)). rewrite orb_false_iff, IH, negb_false_iff, bool_decide_eq_true.
  split.
  - intros [Hab Hs]. constructor; [| done]. constructor; [done |]. inversion Hs as [|? ? HF]; subst.
    eapply Forall_impl; [exact HF |]. intros c Hbc. by eapply cmp_lt_trans.
  - intros Hs. inversion Hs as [|? ? HF Hs']; subst. apply Forall_cons in HF as [? _]. done.
Qed.

Lemma window_eq_iff (l : list A) :
  any_window (fun a b => bool_decide (key a = key b)) (sort_by_key key l) = false <-> NoDup (key <$> l).
Proof.
  rewrite <- (sort_by_key_perm key l) at 2.
  assert (Hs : StronglySorted (key_le key) (sort_by_key key l)) by apply (StronglySorted_merge_sort (key_le key)).
  revert Hs. generalize (sort_by_key key l) as m. clear l.
  induction m as [|a [|b m] IH]; intros Hs; [split; [constructor | done] | split; [intros _; constructor; [set_solver | constructor] | done] |].
  change (any_window ?p (a :: b :: m)) with (p a b || any_window p (b :: m)). inversion Hs as [|? ? Hs' HF]; subst.
  rewrite orb_false_iff, IH, bool_decide_eq_false by done. rewrite (fmap_cons key a), NoDup_cons. split; [| set_solver].
  intros [Hab Hn]. split; [| done]. intros (c & Hac & Hc)%list_elem_of_fmap.
  apply elem_of_cons in Hc as [->|Hc]; [done |]. inversion Hs' as [|? ? _ HF']; subst.
  rewrite List.Forall_forall in HF, HF'. assert (Hle : key_le key b c) by by apply HF', list_elem_of_In.
  assert (Hle' : key_le key a b) by (apply HF; by left). unfold key_le in *. rewrite <- Hac in Hle.
  rewrite (cmp_opp (key a) (key b)) in Hle. destruct (cmp (key a) (key b)) eqn:E; [| done | done]. by apply cmp_eq_iff in E.
Qed.
End Windows.
Section Laws.
Context {Capability Schema : Type} `{RustOrd Capability, EqDecision Schema}.
#[local] Abbreviation ActivationT := (NodeActivation Capability Schema).
#[local] Abbreviation KeyT := (ChildRunKey Capability Schema).
#[local] Abbreviation SettlementT := (ChildRunBudgetSettlement Capability).
#[local] Abbreviation RequestT := (ChildRunJoinRequest Capability Schema).
#[local] Abbreviation BindingT := (ChildRunJoinBinding Capability Schema).
Context `{Canonical ActivationT, Canonical (Z * list KeyT * Digest), Canonical RequestT,
          Canonical (Digest * list SettlementT), Canonical BindingT}.
Variable sha256 : bytes -> bytes.

(** The canonical text of a value within the wire ceiling. *)
Definition fits {T} `{Canonical T} (value : T) (b : bytes) : Prop :=
  to_vec value = Some b /\ Z.of_nat (length b) <= 4194304.

Lemma canonical_iff {T} `{Canonical T} (value : T) b : canonical value = Ok b <-> fits value b.
Proof.
  unfold canonical, fits. rewrite bind_Ok. setoid_rewrite ok_or_Ok. change MAX_BYTES with 4194304. split.
  - intros (x & Hx & Hb). destruct (Z.ltb_spec 4194304 (Z.of_nat (length x))); [done |]. by injection Hb as <-.
  - intros [Hb Hl]. exists b. by destruct (Z.ltb_spec 4194304 (Z.of_nat (length b))); [lia |].
Qed.

Lemma checksum_iff {T} `{Canonical T} domain (value : T) d :
  checksum sha256 domain value = Ok d <-> exists b, fits value b /\ d = sha256 (domain ++ [0] ++ b).
Proof. unfold checksum. rewrite bind_Ok. setoid_rewrite canonical_iff. naive_solver. Qed.

(** The keys of [keys] in slot order, sealed with their digests. *)
Definition sealed (keys : list KeyT) (act : ActivationT) (rq : RequestT) : Prop :=
  exists ad b c, NodeAttempt.compute_activation_digest sha256 act = Ok ad /\
    let sorted := sort_by_key key_slot keys in
    fits (1, sorted, ad) b /\ rq = mkJoinRequest 1 sorted ad (sha256 (bytes_of "stateknot.child-join-request.v1" ++ [0] ++ b)) /\
    fits rq c.

Lemma scope_guard (first : KeyT) keys :
  existsb (fun key => negb (bool_decide (key_parent key = key_parent first))) keys = false <->
  Forall (fun k => key_parent k = key_parent first) keys.
Proof.
  rewrite existsb_false_iff. apply Forall_iff. intros k. by rewrite negb_false_iff, bool_decide_eq_true.
Qed.

Lemma request_new_iff keys rq :
  request_new sha256 keys = Ok rq <->
  1 <= Z.of_nat (length keys) <= 64 /\ NoDup (key_slot <$> keys) /\
  exists act, Forall (fun k => key_parent k = act) keys /\ sealed keys act rq.
Proof.
  unfold request_new. rewrite bounded_values_eq. change MAX_CHILDREN with 64.
  destruct (Z.ltb_spec 64 (Z.of_nat (length keys))) as [Hl|Hl]; [split; [done | lia] |].
  destruct keys as [|k keys]; [split; [done | simpl; lia] |].
  step_ok. change (ok_or (List.hd_error (k :: keys)) Bounds) with (Ok (E := ChildRunJoinError) k). step_ok. rewrite <- window_eq_iff. unfold sealed. split.
  - intros H'. open_guard H'. apply scope_guard in Hguard. open_guards H'. injection H' as <-. apply map_err_Ok in Hx.
    apply checksum_iff in Hx0 as (b & Hb & ->). apply canonical_iff in Hx1. split_and!; [simpl; lia | done | done |].
    exists (key_parent k). split; [done |]. by exists x, b, x1.
  - intros (_ & Hw & act & HF & ad & b & c & Hact & Hb & -> & Hc). assert (act = key_parent k) as ->.
    { by apply Forall_cons in HF as [<- _]. }
    rewrite (proj2 (scope_guard _ _) HF), Hact. step_ok. cbn [map_err mbind result_bind]. rewrite Hw.
    rewrite (proj2 (checksum_iff _ _ _) (ex_intro _ b (conj Hb eq_refl))). step_ok.
    by rewrite (proj2 (canonical_iff _ _) Hc).
Qed.
(** Sealing, refusals included, does not see the order of the keys. *)
Lemma request_new_perm keys keys' : keys ≡ₚ keys' -> request_new sha256 keys = request_new sha256 keys'.
Proof.
  intros Hp. unfold request_new. rewrite !bounded_values_eq, <- (Permutation_length Hp).
  destruct (Z.ltb_spec MAX_CHILDREN (Z.of_nat (length keys))); [done |]. step_ok.
  destruct keys as [|k keys]; [by apply Permutation_nil in Hp as -> |].
  destruct keys' as [|k' keys']; [by symmetry in Hp; apply Permutation_nil in Hp |].
  change (ok_or (List.hd_error (k :: keys)) Bounds) with (Ok (E := ChildRunJoinError) k).
  change (ok_or (List.hd_error (k' :: keys')) Bounds) with (Ok (E := ChildRunJoinError) k'). step_ok.
  set (m := k :: keys) in *. set (m' := k' :: keys') in *.
  assert (Hk : k ∈ m) by by left. assert (Hk' : k' ∈ m') by by left. clearbody m m'.
  assert (Hg : Forall (fun x => key_parent x = key_parent k) m <-> Forall (fun x => key_parent x = key_parent k') m').
  { rewrite <- Hp in Hk' |- *. rewrite !Forall_forall. split; intros HF x Hx; rewrite (HF x Hx); symmetry; by apply HF. }
  destruct (existsb _ m) eqn:E, (existsb _ m') eqn:E'.
  - done.
  - apply scope_guard, Hg, scope_guard in E'. congruence.
  - apply scope_guard, Hg, scope_guard in E. congruence.
  - apply scope_guard in E. rewrite Forall_forall in E. rewrite <- (E k') by by rewrite Hp.
    assert (Hn : NoDup (key_slot <$> m) <-> NoDup (key_slot <$> m')) by by rewrite Hp.
    rewrite <- !window_eq_iff in Hn. destruct (any_window _ (sort_by_key key_slot m)) eqn:W.
    { destruct (any_window _ (sort_by_key key_slot m')); [done |]. by destruct Hn as [_ Hn%(fun f => f eq_refl)]. }
    rewrite (proj1 Hn eq_refl). apply window_eq_iff in W. by rewrite (sort_by_key_unique key_slot m m' W Hp).
Qed.

(** What the deserializer accepts is what sealing its own keys gives. *)
Lemma request_restore_iff wire rq :
  request_restore sha256 wire = Ok rq <-> rq = wire /\ request_new sha256 (jr_keys wire) = Ok wire.
Proof.
  unfold request_restore. rewrite bounded_values_eq. split.
  - intros H'. open_guards H'. destruct (Z.ltb _ _) in Hx; [done |]. injection Hx as <-. injection H' as <-.
    apply orb_false_iff in Hguard as [Hv Hw], Hguard0 as [Hd Ha]. apply window_lt_iff in Hw. bools. pose proof Hx0 as (_ & Hn & act & _ & ad & b & c & _ & _ & -> & _)%request_new_iff. simpl in *.
    assert (sort_by_key key_slot (jr_keys wire) = jr_keys wire) as E.
    { apply (ksorted_ext key_slot); [by apply sort_by_key_ksorted | done |]. intros x. by rewrite sort_by_key_perm. }
    rewrite E in *. destruct wire; simpl in *. by subst.
  - intros [-> Hn]. pose proof Hn as (Hl & Hnd & act & _ & ad & b & c & _ & _ & E & _)%request_new_iff.
    destruct (Z.ltb_spec MAX_CHILDREN (Z.of_nat (length (jr_keys wire)))) as [Hlt|_]; [change MAX_CHILDREN with 64 in Hlt; lia |].
    step_ok. assert (Hs : ksorted key_slot (jr_keys wire)) by (rewrite E; simpl; by apply sort_by_key_ksorted).
    rewrite (proj2 (window_lt_iff _ _) Hs). assert (jr_version wire = 1) as -> by by rewrite E. simpl.
    rewrite Hn. step_ok. by rewrite !bool_decide_eq_true_2.
Qed.
(** ** Bindings *)

Definition child_of (t : SettlementT) : RunId := jh_run_id (se_terminal t).

(** A terminal event of the activation's tenant and of another run. *)
Definition foreign (act : ActivationT) (t : SettlementT) : Prop :=
  jh_tenant_id (se_terminal t) = NodeAttempt.act_tenant_id act /\ child_of t <> NodeAttempt.act_run_id act.

Lemma bind_terminal_iff rq act vs cs t st :
  activation rq = Some act -> (forall x, x ∈ cs <-> x ∈ child_of <$> vs) ->
  bind_terminal rq (vs, cs) t = Ok st <->
  Z.of_nat (length vs) <> 64 /\ foreign act t /\ child_of t ∉ child_of <$> vs /\ st = (vs ++ [t], bs_insert (child_of t) cs).
Proof.
  intros Ha Hcs. unfold bind_terminal, foreign. rewrite Ha. simpl. fold (child_of t). change MAX_CHILDREN with 64. rewrite <- Hcs, <- bs_contains_false.
  destruct (Z.eqb_spec (Z.of_nat (length vs)) 64); [split; [done | naive_solver] |].
  destruct (bool_decide_reflect (jh_tenant_id (se_terminal t) = NodeAttempt.act_tenant_id act)); simpl; [| split; [done | naive_solver]].
  destruct (bool_decide_reflect (child_of t = NodeAttempt.act_run_id act)); simpl; [split; [done | naive_solver] |].
  destruct (bs_contains (child_of t) cs); simpl; naive_solver.
Qed.

Lemma bind_terminals_iff rq act ts vs cs vs' :
  activation rq = Some act -> (forall x, x ∈ cs <-> x ∈ child_of <$> vs) ->
  NoDup (child_of <$> vs) -> Z.of_nat (length vs) <= 64 ->
  (exists cs', try_fold (bind_terminal rq) (vs, cs) ts = Ok (vs', cs')) <->
  vs' = vs ++ ts /\ Z.of_nat (length (vs ++ ts)) <= 64 /\ Forall (foreign act) ts /\ NoDup (child_of <$> vs ++ ts).
Proof.
  intros Ha. revert vs cs. induction ts as [|t ts IH]; intros vs cs Hcs Hn Hl; simpl.
  { rewrite app_nil_r. split; [intros (cs' & [= <- <-]); by split_and! | intros (-> & _); by exists cs]. }
  transitivity (exists st, bind_terminal rq (vs, cs) t = Ok st /\ exists cs', try_fold (bind_terminal rq) st ts = Ok (vs', cs')).
  { setoid_rewrite bind_Ok. naive_solver. }
  setoid_rewrite (bind_terminal_iff rq act vs cs t _ Ha Hcs).
  assert (Hstep : child_of t ∉ child_of <$> vs -> Z.of_nat (length vs) <> 64 ->
    (exists cs', try_fold (bind_terminal rq) (vs ++ [t], bs_insert (child_of t) cs) ts = Ok (vs', cs')) <->
    vs' = vs ++ t :: ts /\ Z.of_nat (length (vs ++ t :: ts)) <= 64 /\ Forall (foreign act) ts /\ NoDup (child_of <$> vs ++ t :: ts)).
  { intros Hf Hlt. rewrite IH; [by rewrite <- app_assoc | | |].
    - intros x. rewrite bs_insert_elem, Hcs, fmap_app, elem_of_app. simpl. rewrite list_elem_of_singleton. tauto.
    - rewrite fmap_app. apply NoDup_app. split_and!; [done | | apply NoDup_singleton]. intros x Hx ->%list_elem_of_singleton. done.
    - rewrite length_app. simpl. lia. }
  rewrite Forall_cons. split.
  - intros (st & (Hlt & Hf & Hni & ->) & Hrest). apply Hstep in Hrest; naive_solver.
  - intros (-> & Hlen & [Hf HF] & Hnd). assert (Hlt : Z.of_nat (length vs) <> 64) by (rewrite length_app in Hlen; simpl in Hlen; lia).
    assert (Hni : child_of t ∉ child_of <$> vs).
    { rewrite fmap_app in Hnd. apply NoDup_app in Hnd as (_ & Hd & _). intros Hin. apply (Hd _ Hin). by left. }
    exists (vs ++ [t], bs_insert (child_of t) cs). split; [done |]. by apply Hstep.
Qed.

Lemma sealed_activation keys act rq :
  1 <= Z.of_nat (length keys) -> Forall (fun k => key_parent k = act) keys -> sealed keys act rq ->
  activation rq = Some act /\ length (jr_keys rq) = length keys.
Proof.
  intros Hl HF (ad & b & c & _ & _ & -> & _). unfold activation. simpl.
  assert (Hp := sort_by_key_perm key_slot keys). assert (Hlen := Permutation_length Hp). split; [| done]. rewrite <- Hp in HF.
  destruct (sort_by_key key_slot keys) as [|k ks]; [simpl in *; lia |]. by apply Forall_cons in HF as [<- _].
Qed.

Lemma request_activation keys rq :
  request_new sha256 keys = Ok rq -> exists act, activation rq = Some act /\ length (jr_keys rq) = length keys /\
    1 <= Z.of_nat (length keys) <= 64 /\ Forall (fun k => key_parent k = act) keys.
Proof. intros (Hl & _ & act & HF & Hs)%request_new_iff. exists act. by destruct (sealed_activation keys act rq) as [? ?]; [lia | .. ]. Qed.

Lemma binding_new_iff rq act ts b :
  activation rq = Some act -> Z.of_nat (length (jr_keys rq)) <= 64 ->
  binding_new sha256 rq ts = Ok b <->
  length ts = length (jr_keys rq) /\ Forall (foreign act) ts /\ NoDup (child_of <$> ts) /\
  exists c d, fits (jr_digest rq, ts) c /\ b = mkJoinBinding rq ts (sha256 (bytes_of "stateknot.child-join-binding.v1" ++ [0] ++ c)) /\ fits b d.
Proof.
  intros Ha Hl. unfold binding_new. assert (Hloop := bind_terminals_iff rq act ts [] [] ts Ha).
  simpl in Hloop. split.
  - intros H'. open_guard H'. destruct x as [vs cs].
    destruct (proj1 (bind_terminals_iff rq act ts [] [] vs Ha ltac:(set_solver) ltac:(constructor) ltac:(simpl; lia))
                (ex_intro _ cs Hx)) as (-> & Hlen & HF & Hn). simpl in *.
    destruct (Nat.eqb_spec (length ts) (length (jr_keys rq))); [| done]. simpl in H'. open_guards H'. injection H' as <-.
    apply map_err_Ok, checksum_iff in Hx0 as (c & Hc & ->). apply map_err_Ok, canonical_iff in Hx1. split_and!; try done. by exists c, x0.
  - intros (Hlen & HF & Hn & c & d & Hc & -> & Hd).
    destruct (proj2 (Hloop ltac:(set_solver) ltac:(constructor) ltac:(simpl; lia))) as [cs Hx]; [split_and!; try done; lia |].
    rewrite Hx. step_ok. cbv iota beta. rewrite Hlen, Nat.eqb_refl. cbn [negb].
    rewrite (proj2 (checksum_iff _ _ _) (ex_intro _ c (conj Hc eq_refl))). cbn [map_err]. step_ok.
    by rewrite (proj2 (canonical_iff _ _) Hd).
Qed.
Lemma binding_no_panic rq act ts : activation rq = Some act -> binding_new sha256 rq ts <> Err Panic.
Proof.
  intros Ha. assert (Hloop : forall st, try_fold (bind_terminal rq) st ts <> Err Panic).
  { induction ts as [|t ts IH]; intros [vs cs]; [done |]. cbn [try_fold]. intros [Hb|(st & _ & Hf)]%bind_Err; [| by apply (IH st)].
    unfold bind_terminal in Hb. rewrite Ha in Hb. simpl in Hb. repeat case_match; done. }
  unfold binding_new. intros [Hb|([vs cs] & _ & Hb)]%bind_Err; [by apply (Hloop ([], [])) |].
  destruct (negb _); [done |]. apply bind_Err in Hb as [Hb|(d & _ & [Hb|(u & _ & Hb)]%bind_Err)]; [| | done].
  - by destruct (checksum sha256 _ (jr_digest rq, vs)).
  - by destruct (canonical (mkJoinBinding rq vs d)).
Qed.

(** The publication event is an event of the parent run, after the
    checkpoint of the activation and not before any terminal event. *)
Definition publishes (act : ActivationT) (ts : list SettlementT) (j : JournalHead) : Prop :=
  let base := head_journal_head (base_checkpoint act) in
  Forall (fun t => jh_recorded_at (se_terminal t) <= jh_recorded_at j) ts /\
  jh_tenant_id j = NodeAttempt.act_tenant_id act /\ jh_run_id j = NodeAttempt.act_run_id act /\
  jh_sequence base < jh_sequence j /\ jh_recorded_at base <= jh_recorded_at j.

Lemma binding_head_iff (b : BindingT) act j h :
  activation (jb_request b) = Some act ->
  binding_head b j = Ok h <->
  publishes act (jb_terminals b) j /\ h = mkJoinHead act (jr_digest (jb_request b)) (jb_digest b) j.
Proof.
  intros Ha. unfold binding_head, publishes. rewrite Ha.
  assert (Hex : existsb (fun t => jh_recorded_at j <? jh_recorded_at (se_terminal t)) (jb_terminals b) = false <->
                Forall (fun t => jh_recorded_at (se_terminal t) <= jh_recorded_at j) (jb_terminals b)).
  { rewrite existsb_false_iff. apply Forall_iff. intros t. apply Z.ltb_ge. }
  rewrite <- Hex. destruct (existsb _ (jb_terminals b)); [split; [done | naive_solver] |]. simpl. unfold head_restore.
  destruct (bool_decide_reflect (jh_tenant_id j = NodeAttempt.act_tenant_id act)); simpl; [| split; [done | naive_solver]].
  destruct (bool_decide_reflect (jh_run_id j = NodeAttempt.act_run_id act)); simpl; [| split; [done | naive_solver]].
  destruct (Z.leb_spec (jh_sequence j) (jh_sequence (head_journal_head (base_checkpoint act)))); simpl; [split; [done | naive_solver lia] |].
  destruct (Z.ltb_spec (jh_recorded_at j) (jh_recorded_at (head_journal_head (base_checkpoint act)))); simpl; [split; [done | naive_solver lia] |].
  naive_solver.
Qed.

Lemma binding_restore_new keys rq ts b :
  request_new sha256 keys = Ok rq -> binding_new sha256 rq ts = Ok b -> binding_restore sha256 b = Ok b.
Proof.
  intros Hrq Hb. destruct (request_activation keys rq Hrq) as (act & Ha & Hlen & Hl & _).
  pose proof Hb as (Ht & _ & _ & c & d & _ & E & _)%(binding_new_iff rq act); [| done | lia].
  assert (Hr : request_restore sha256 rq = Ok rq).
  { apply request_restore_iff. split; [done |]. rewrite <- Hrq. apply request_new_perm.
    apply request_new_iff in Hrq as (_ & _ & act' & _ & ad & ? & ? & _ & _ & -> & _). apply sort_by_key_perm. }
  unfold binding_restore. assert (jb_request b = rq /\ jb_terminals b = ts) as [-> ->] by by rewrite E.
  rewrite Hr. cbn [map_err]. step_ok. rewrite bounded_values_eq. change MAX_CHILDREN with 64.
  destruct (Z.ltb_spec 64 (Z.of_nat (length ts))); [lia |]. cbn [map_err]. step_ok. rewrite Hb. step_ok. by rewrite bool_decide_eq_true_2.
Qed.

(** sealing a set of child keys succeeds exactly for 1 to 64 keys with
    distinct slots and one common parent activation whose texts fit the wire
    ceiling; it stores the keys in slot order and, refusals included, does not
    depend on the order they come in.  The deserializer accepts exactly the
    values that sealing produces. *)
Theorem join_request_exact (keys keys' : list KeyT) (Hp : keys ≡ₚ keys') :
  request_new sha256 keys = request_new sha256 keys' /\
  (forall rq, request_new sha256 keys = Ok rq <->
     1 <= Z.of_nat (length keys) <= 64 /\ NoDup (key_slot <$> keys) /\
     exists act, Forall (fun k => key_parent k = act) keys /\ sealed keys act rq) /\
  (forall rq, request_new sha256 keys = Ok rq -> jr_keys rq ≡ₚ keys /\ ksorted key_slot (jr_keys rq)) /\
  (forall wire rq, request_restore sha256 wire = Ok rq <-> rq = wire /\ request_new sha256 (jr_keys wire) = Ok wire).
Proof.
  split_and!; [by apply request_new_perm | apply request_new_iff | | apply request_restore_iff].
  intros rq (_ & Hn & act & _ & ad & b & c & _ & _ & -> & _)%request_new_iff. split; [apply sort_by_key_perm | by apply sort_by_key_ksorted].
Qed.

End Laws.

(** ** Two children of one activation *)

#[local] Instance demo_encoder {T} : Canonical T := fun _ => Some [1].
Definition demo_sha (b : bytes) : bytes := [Z.of_nat (length b)].
Definition demo_journal (run seq at_ : Z) : JournalHead := mkJournalHead [97] run seq (100 + seq) at_ [].
Definition demo_parent : NodeActivation Z Z :=
  mkActivation (mkHead [97] 5 1 0 (mkGraphReference 1 [1] 7) (demo_journal 5 1 10) []) namespace_root (bytes_of "fan") [].
Definition demo_keys : list (ChildRunKey Z Z) := [mkKey demo_parent (bytes_of "b") []; mkKey demo_parent (bytes_of "a") []].
Definition demo_request : ChildRunJoinRequest Z Z := Eval vm_compute in
  match request_new demo_sha demo_keys with Ok rq => rq | Err _ => mkJoinRequest 0 [] [] [] end.
Definition demo_terminal (run : Z) : ChildRunBudgetSettlement Z :=
  mkSettlement (mkProvenance [97] run 6 7 8) [] [] 11 (demo_journal run 4 20) Succeeded []
    (BudgetUsage.mk 0 0 0 0 0 0 0 0 0 0 0 0 0 0 0 0 0 0 0 [] 0).

Lemma join_request_exact_witness :
  request_new demo_sha (rev demo_keys) = Ok demo_request /\ request_restore demo_sha demo_request = Ok demo_request.
Proof.
  destruct (join_request_exact demo_sha demo_keys (rev demo_keys) (Permutation_rev _)) as (<- & _ & _ & Hr).
  split; [vm_compute; reflexivity |]. apply Hr. split; [done | vm_compute; reflexivity].
Defined.

End Joining.
