(* ===== verification/FairScheduler.v ===== *)
(** Weighted fair scheduling policy (crates/stateknot-runtime/src/fair_scheduler.rs).

    A policy compiles the tenants' weights into one cycle of slots with smooth
    weighted round robin, verifies the counts, and derives every tenant's
    largest circular gap as its starvation bound.  [Smooth] proves the
    compilation exact for all weights; [Gaps] proves the bound sound and
    tight.  The constructor that puts these together is in [FairPolicy]. *)

From Stdlib Require Import ZArith Lia List.
From stdpp Require Import prelude sorting.
From S2P Require Import Prelude Ordered.

Open Scope Z_scope.

Definition TenantId := bytes.

Record TenantFairnessWeight := mkWeight { tenant_id : TenantId; weight : Z }.

Definition MAX_WEIGHT : Z := 1024.

Inductive TenantFairnessWeightError := InvalidWeight.

Definition weight_new (tenant : TenantId) (w : Z) : result TenantFairnessWeightError TenantFairnessWeight :=
  if (w =? 0) || (MAX_WEIGHT <? w) then Err InvalidWeight else Ok (mkWeight tenant w).

Inductive WeightedFairnessPolicyError :=
| Empty | TooManyTenants | DuplicateTenant | CycleTooLarge | InvalidCompiledCycle | CanonicalEncoding | StoreBinding.

Definition MAX_TENANTS : Z := 1024.
Definition MAX_CYCLE_LENGTH : Z := 4096.

(** * Smooth weighted round robin *)

(** [Iterator::max_by]: the last of the maximal elements. *)
Definition max_by {A} (compare : A -> A -> comparison) (l : list A) : option A :=
  match l with
  | [] => None
  | x :: l' => Some (fold_left (fun best y => match compare best y with Gt => best | _ => y end) l' x)
  end.

(** [left.cmp(right).then_with(|| right_index.cmp(left_index))]. *)
Definition candidate_cmp (left right : nat * Z) : comparison :=
  match left.2 ?= right.2 with Eq => (right.1 ?= left.1)%nat | c => c end.

Definition select (current : list Z) : option nat := fst <$> max_by candidate_cmp (imap pair current).

Definition add_weights (current : list Z) (tenants : list TenantFairnessWeight) : list Z :=
  zip_with (fun score tenant => score + weight tenant) current tenants.

(** One slot: every score grows by its weight, the best is selected and pays
    the cycle length.  [None] is the [expect] on an empty policy. *)
Definition smooth_step (tenants : list TenantFairnessWeight) (total : Z) (st : list Z * list nat)
  : option (list Z * list nat) :=
  let current := add_weights st.1 tenants in
  selected ← select current;
  Some (alter (fun score => score - total) selected current, st.2 ++ [selected]).

Fixpoint smooth_loop (slots : nat) (tenants : list TenantFairnessWeight) (total : Z) (st : list Z * list nat)
  : option (list Z * list nat) :=
  match slots with
  | O => Some st
  | S slots' => st' ← smooth_step tenants total st; smooth_loop slots' tenants total st'
  end.

Definition compile_smooth_cycle (tenants : list TenantFairnessWeight) (cycle_length : Z) : option (list nat) :=
  snd <$> smooth_loop (Z.to_nat cycle_length) tenants cycle_length (replicate (length tenants) 0, []).

(** * Verification of the compiled cycle *)

Definition count_step (counts : list Z) (index : nat) : result WeightedFairnessPolicyError (list Z) :=
  count ← ok_or (counts !! index) InvalidCompiledCycle;
  count' ← ok_or (checked_add u16_max count 1) InvalidCompiledCycle;
  Ok (<[index := count']> counts).

Definition verify_cycle_counts (tenants : list TenantFairnessWeight) (cycle : list nat)
  : result WeightedFairnessPolicyError unit :=
  counts ← try_fold count_step (replicate (length tenants) 0) cycle;
  reject_if (existsb (fun p => negb (p.1 =? weight p.2)) (zip counts tenants)) InvalidCompiledCycle.

(** * Starvation bounds *)

Definition push_position (positions : list (list nat)) (entry : nat * nat)
  : result WeightedFairnessPolicyError (list (list nat)) :=
  tenant_positions ← ok_or (positions !! entry.2) InvalidCompiledCycle;
  Ok (<[entry.2 := tenant_positions ++ [entry.1]]> positions).

Definition circular_gaps (cycle_length : nat) (ps : list nat) : list nat :=
  zip_with (fun current next => (next - current)%nat) ps
    (drop 1 ps ++ match ps with [] => [] | first :: _ => [(first + cycle_length)%nat] end).

(** [Iterator::max] on integers. *)
Definition iter_max (l : list nat) : option nat :=
  match l with [] => None | x :: l' => Some (fold_left Nat.max l' x) end.

Definition tenant_bound (cycle_length : nat) (tenant_positions : list nat) : result WeightedFairnessPolicyError Z :=
  match tenant_positions with
  | [] => Err InvalidCompiledCycle
  | _ =>
      maximum ← ok_or (iter_max (circular_gaps cycle_length tenant_positions)) InvalidCompiledCycle;
      if Z.of_nat maximum <=? u16_max then Ok (Z.of_nat maximum) else Err InvalidCompiledCycle
  end.

Definition derive_starvation_bounds (tenant_count : nat) (cycle : list nat) : result WeightedFairnessPolicyError (list Z) :=
  positions ← try_fold push_position (replicate tenant_count []) (imap pair cycle);
  mapM (tenant_bound (length cycle)) positions.

(** * Exactness of the compiled cycle *)

Module Smooth.

Definition weights (ts : list TenantFairnessWeight) : list Z := weight <$> ts.
Definition sum (l : list Z) : Z := foldr Z.add 0 l.
Definition occ (i : nat) (cycle : list nat) : Z := Z.of_nat (length (filter (fun j => j = i) cycle)).

Lemma candidate_fold_ge l x :
  let m := fold_left (fun best y => match candidate_cmp best y with Gt => best | _ => y end) l x in
  (m = x \/ m ∈ l) /\ x.2 <= m.2 /\ Forall (fun y => y.2 <= m.2) l.
Proof.
  revert x. induction l as [|y l IH]; intros x; simpl; [split_and!; [by left | lia | constructor] |].
  set (b := match candidate_cmp x y with Gt => x | _ => y end).
  assert (Hb : (b = x \/ b = y) /\ x.2 <= b.2 /\ y.2 <= b.2).
  { unfold b, candidate_cmp. destruct (Z.compare_spec x.2 y.2); [destruct (y.1 ?= x.1)%nat | |];
      (split; [tauto | lia]). }
  destruct Hb as (Hbx & H1 & H2). destruct (IH b) as (Hm & H3 & H4). split_and!.
  - destruct Hm as [-> | Hm]; [destruct Hbx as [-> | ->]; [by left | right; by left] | right; by right].
  - lia.
  - constructor; [lia | done].
Qed.

(** [select] picks a position whose score is at least every other score. *)
Lemma select_Some current i :
  select current = Some i -> exists s, current !! i = Some s /\ Forall (fun x => x <= s) current.
Proof.
  unfold select, max_by. intros (p & Hp & ->)%fmap_Some.
  destruct (imap pair current) as [|x l] eqn:E; [done |]. injection Hp as <-.
  destruct (candidate_fold_ge l x) as (Hm & Hx & Hl).
  set (m := fold_left _ l x) in *.
  assert (Hin : m ∈ imap pair current) by (rewrite E; destruct Hm as [-> | ?]; [by left | by right]).
  apply elem_of_lookup_imap in Hin as (i & s & -> & Hi). exists s. split; [done |].
  apply Forall_lookup. intros j y Hj.
  assert ((j, y) ∈ imap pair current) as Hjy by (apply elem_of_lookup_imap; by exists j, y).
  rewrite E in Hjy. apply elem_of_cons in Hjy as [<- | Hjy]; [done |]. rewrite Forall_forall in Hl. by apply (Hl (j, y)).
Qed.

Lemma select_total current : current <> [] -> is_Some (select current).
Proof. destruct current; [done |]. intros _. unfold select, max_by. simpl. eauto. Qed.

Lemma occ_snoc i cycle j : occ i (cycle ++ [j]) = occ i cycle + (if decide (j = i) then 1 else 0).
Proof. unfold occ. rewrite filter_app, length_app, filter_cons. case_decide; simpl; rewrite ?filter_nil; simpl; lia. Qed.

Lemma occ_bounds i cycle : 0 <= occ i cycle <= Z.of_nat (length cycle).
Proof. unfold occ. pose proof (length_filter (fun j => j = i) cycle). lia. Qed.

Lemma sum_lower l s : Forall (fun x => x <= s) l -> s <= 0 -> sum l <= 0.
Proof. induction 1 as [|x l Hx _ IH]; simpl; [lia |]. intros Hs. specialize (IH Hs). lia. Qed.

Lemma sum_add_weights cur ts :
  length cur = length ts -> sum (add_weights cur ts) = sum cur + sum (weights ts).
Proof.
  revert ts. induction cur as [|s cur IH]; intros [|t ts] Hl; simpl in *; try done.
  fold (add_weights cur ts). rewrite IH by lia. unfold weights. lia.
Qed.

Lemma sum_alter i cur s total :
  cur !! i = Some s -> sum (alter (fun x => x - total) i cur) = sum cur - total.
Proof.
  revert i. induction cur as [|x cur IH]; intros [|i] Hi; simpl in *; try done; [lia |].
  change (list_alter _ i cur) with (alter (fun x => x - total) i cur). rewrite IH by done. lia.
Qed.

Lemma sum_zero_nonneg l : Forall (fun x => 0 <= x) l -> sum l = 0 -> Forall (fun x => x = 0) l.
Proof.
  intros Hl. assert (Hge : forall l', Forall (fun x => 0 <= x) l' -> 0 <= sum l').
  { induction 1; simpl; lia. }
  induction Hl as [|x l Hx Hl IH]; simpl; [constructor |]. intros H. specialize (Hge l Hl).
  constructor; [lia | apply IH; lia].
Qed.

Lemma add_weights_lookup cur ts i s t :
  cur !! i = Some s -> ts !! i = Some t -> add_weights cur ts !! i = Some (s + weight t).
Proof. intros H1 H2. unfold add_weights. rewrite lookup_zip_with, H1. simpl. by rewrite H2. Qed.

Section invariant.
Context (ts : list TenantFairnessWeight) (total : Z).
Hypothesis Hpos : Forall (fun t => 0 < weight t) ts.
Hypothesis Htotal : sum (weights ts) = total.
Hypothesis Hne : ts <> [].

(** Scores are determined by the choices so far, add up to zero, and stay
    above minus the cycle length. *)
Record inv (st : list Z * list nat) : Prop := {
  inv_length : length st.1 = length ts;
  inv_score : forall i t, ts !! i = Some t ->
    st.1 !! i = Some (Z.of_nat (length st.2) * weight t - total * occ i st.2);
  inv_sum : sum st.1 = 0;
  inv_low : Forall (fun s => - total < s) st.1;
  inv_index : Forall (fun i => (i < length ts)%nat) st.2
}.

Lemma total_pos : 0 < total.
Proof.
  rewrite <- Htotal. destruct ts as [|t ts']; [done |]. apply Forall_cons in Hpos as [Ht Hts]. simpl.
  assert (0 <= sum (weights ts')); [| lia]. clear -Hts. induction Hts; simpl; lia.
Qed.

Lemma inv_init : inv (replicate (length ts) 0, []).
Proof.
  constructor; simpl.
  - by rewrite length_replicate.
  - intros i t Hi. rewrite lookup_replicate_2; [f_equal; unfold occ; simpl; lia | by eapply lookup_lt_Some].
  - clear. induction (length ts) as [|n IH]; [done |]. exact IH.
  - apply Forall_replicate. pose proof total_pos. lia.
  - constructor.
Qed.

Lemma smooth_step_inv st : inv st -> exists st' i, smooth_step ts total st = Some st' /\ inv st' /\ st'.2 = st.2 ++ [i].
Proof.
  intros [Hlen Hscore Hsum Hlow Hidx]. pose proof total_pos as Hp. unfold smooth_step.
  assert (Hlen' : length (add_weights st.1 ts) = length ts) by (unfold add_weights; rewrite length_zip_with; lia).
  destruct (select_total (add_weights st.1 ts)) as [i Hi].
  { intros E. rewrite E in Hlen'. destruct ts; [done | simpl in Hlen'; lia]. }
  rewrite Hi. simpl. eexists _, i. split; [done |]. split; [| done].
  apply select_Some in Hi as (m & Hm & Hmax).
  assert (Hmpos : 0 < m).
  { destruct (Z.lt_ge_cases 0 m) as [|Hle]; [done |]. apply (sum_lower _ _ Hmax) in Hle.
    rewrite sum_add_weights in Hle by done. lia. }
  assert (Hil : (i < length ts)%nat) by (rewrite <- Hlen'; by eapply lookup_lt_Some).
  constructor; simpl.
  - by rewrite length_alter.
  - intros j t Hj. rewrite length_app, Nat2Z.inj_add, occ_snoc.
    pose proof (add_weights_lookup _ _ _ _ _ (Hscore j t Hj) Hj) as Hcur.
    destruct (decide (i = j)) as [<-|Hij].
    + rewrite list_lookup_alter_eq, Hcur. cbn [fmap option_fmap option_map length]. f_equal. lia.
    + rewrite list_lookup_alter_ne by done. rewrite Hcur. cbn [length]. f_equal. lia.
  - erewrite sum_alter by done. rewrite sum_add_weights by done. lia.
  - apply Forall_lookup. intros j x Hx. destruct (decide (i = j)) as [<-|Hij].
    + rewrite list_lookup_alter_eq, Hm in Hx. injection Hx as <-. lia.
    + rewrite list_lookup_alter_ne in Hx by done.
      apply lookup_zip_with_Some in Hx as (s & t & -> & Hs & Ht). pose proof (proj1 (Forall_lookup _ _) Hlow j s Hs).
      pose proof (proj1 (Forall_lookup _ _) Hpos j t Ht). simpl in *. lia.
  - apply Forall_app. split; [done |]. by constructor.
Qed.

Lemma smooth_loop_inv n st :
  inv st -> exists st' rest, smooth_loop n ts total st = Some st' /\ inv st' /\
    st'.2 = st.2 ++ rest /\ length rest = n.
Proof.
  revert st. induction n as [|n IH]; intros st Hst; simpl.
  { exists st, []. by rewrite app_nil_r. }
  destruct (smooth_step_inv st Hst) as (st1 & i & -> & H1 & E1). simpl.
  destruct (IH st1 H1) as (st2 & rest & -> & H2 & E2 & Hn). exists st2, (i :: rest).
  split_and!; [done | done | by rewrite E2, E1, <- app_assoc | simpl; lia].
Qed.

(** After one whole cycle every tenant has had exactly its weight. *)
Lemma inv_complete st i t :
  inv st -> Z.of_nat (length st.2) = total -> ts !! i = Some t -> occ i st.2 = weight t.
Proof.
  intros [Hlen Hscore Hsum Hlow _] Hn Hi. pose proof total_pos as Hp.
  assert (Hz : Forall (fun s => s = 0) st.1).
  { apply sum_zero_nonneg; [| done]. apply Forall_lookup. intros j s Hs.
    destruct (lookup_lt_is_Some_2 ts j) as [u Hu]; [rewrite <- Hlen; by eapply lookup_lt_Some |].
    pose proof (Hscore j u Hu) as Hj. rewrite Hs in Hj. injection Hj as ->. rewrite Forall_lookup in Hlow.
    specialize (Hlow j _ Hs). simpl in Hlow. rewrite Hn in Hlow |- *.
    assert (-1 < weight u - occ j st.2) by (apply (Z.mul_lt_mono_pos_l total); lia). nia. }
  rewrite Forall_lookup in Hz. specialize (Hz i _ (Hscore i t Hi)). simpl in Hz. rewrite Hn in Hz. nia.
Qed.
End invariant.

Lemma smooth_loop_add m n ts total st :
  smooth_loop (m + n) ts total st = (st1 ← smooth_loop m ts total st; smooth_loop n ts total st1).
Proof. revert st. induction m as [|m IH]; intros st; [done |]. simpl. destruct (smooth_step ts total st); simpl; [apply IH | done]. Qed.

Lemma occ_cons i j cycle : occ i (j :: cycle) = (if decide (j = i) then 1 else 0) + occ i cycle.
Proof. unfold occ. rewrite filter_cons. case_decide; simpl; lia. Qed.

(** The counters of [verify_cycle_counts] count occurrences. *)
Lemma count_fold cycle cs :
  Forall (fun i => (i < length cs)%nat) cycle ->
  Forall (fun c => c + Z.of_nat (length cycle) <= u16_max) cs ->
  exists cs', try_fold count_step cs cycle = Ok cs' /\ length cs' = length cs /\
    forall i c, cs !! i = Some c -> cs' !! i = Some (c + occ i cycle).
Proof.
  revert cs. induction cycle as [|j cycle IH]; intros cs Hidx Hb; simpl.
  { exists cs. split_and!; try done. intros i c Hc. rewrite Hc. f_equal. unfold occ. simpl. lia. }
  apply Forall_cons in Hidx as [Hj Hidx]. destruct (lookup_lt_is_Some_2 cs j Hj) as [c0 Hc0].
  pose proof (proj1 (Forall_lookup _ _) Hb j c0 Hc0) as Hc0b. simpl in Hc0b.
  assert (count_step cs j = Ok (<[j := c0 + 1]> cs)) as ->.
  { unfold count_step. rewrite Hc0. simpl. by rewrite (proj2 (checked_add_Some u16_max c0 1 (c0 + 1))) by lia. }
  cbn [mbind result_bind].
  destruct (IH (<[j := c0 + 1]> cs)) as (cs' & -> & Hl & Hv).
  - by rewrite length_insert.
  - apply Forall_insert; [| lia]. eapply Forall_impl; [exact Hb |]. simpl. intros. lia.
  - exists cs'. rewrite length_insert in Hl. split_and!; try done. intros i c Hc. rewrite occ_cons.
    destruct (decide (j = i)) as [->|Hji].
    + rewrite (Hv i (c0 + 1)) by (by rewrite list_lookup_insert_eq). simplify_eq. f_equal. lia.
    + rewrite (Hv i c) by (by rewrite list_lookup_insert_ne). done.
Qed.

Lemma verify_cycle_counts_Ok ts cycle :
  Forall (fun i => (i < length ts)%nat) cycle -> Z.of_nat (length cycle) <= u16_max ->
  (forall i t, ts !! i = Some t -> occ i cycle = weight t) -> verify_cycle_counts ts cycle = Ok tt.
Proof.
  intros Hidx Hl Hocc. unfold verify_cycle_counts.
  destruct (count_fold cycle (replicate (length ts) 0)) as (cs & -> & Hlen & Hv).
  - by rewrite length_replicate.
  - apply Forall_replicate. lia.
  - simpl. apply reject_if_Ok. apply not_true_iff_false. intros ([c t] & Hin & Hne)%existsb_exists.
    apply list_elem_of_In, list_elem_of_lookup in Hin as (i & Hi). apply lookup_zip_Some in Hi as [Hc Ht].
    assert (Hr : replicate (length ts) 0 !! i = Some 0) by (apply lookup_replicate_2; by eapply lookup_lt_Some).
    rewrite (Hv _ _ Hr) in Hc. injection Hc as <-. rewrite (Hocc i t Ht) in Hne. simpl in Hne. bools. lia.
Qed.

Definition weights_ok (ts : list TenantFairnessWeight) (total : Z) : Prop :=
  ts <> [] /\ Forall (fun t => 1 <= weight t <= MAX_WEIGHT) ts /\ sum (weights ts) = total /\ total <= MAX_CYCLE_LENGTH.

(** The state of the compilation after every number of slots. *)
Lemma compile_states ts total :
  weights_ok ts total ->
  exists cycle, compile_smooth_cycle ts total = Some cycle /\ Z.of_nat (length cycle) = total /\
    forall k, (k <= length cycle)%nat ->
      exists st, smooth_loop k ts total (replicate (length ts) 0, []) = Some st /\ inv ts total st /\ st.2 = take k cycle.
Proof.
  intros (Hne & Hw & Hsum & Hmax).
  assert (Hpos : Forall (fun t => 0 < weight t) ts) by (eapply Forall_impl; [exact Hw |]; simpl; lia).
  pose proof (total_pos ts total Hpos Hsum Hne) as Hp.
  pose proof (inv_init ts total Hpos Hsum Hne) as H0.
  destruct (smooth_loop_inv ts total Hpos Hsum Hne (Z.to_nat total) _ H0) as (st & rest & Hst & Hinv & E & Hn).
  simpl in E. subst rest. exists st.2. unfold compile_smooth_cycle. rewrite Hst. split_and!; [done | lia |].
  intros k Hk. destruct (smooth_loop_inv ts total Hpos Hsum Hne k _ H0) as (st1 & r1 & H1 & Hi1 & E1 & Hn1).
  exists st1. split_and!; try done. rewrite Hn in Hk. replace (Z.to_nat total) with (k + (Z.to_nat total - k))%nat in Hst by lia.
  rewrite smooth_loop_add, H1 in Hst. simpl in Hst.
  destruct (smooth_loop_inv ts total Hpos Hsum Hne (Z.to_nat total - k) st1 Hi1) as (st2 & r2 & H2 & _ & E2 & _).
  rewrite Hst in H2. injection H2 as <-. rewrite E2. simpl in E1. subst r1. by rewrite take_app_length'.
Qed.

Lemma weights_ok_pos ts total : weights_ok ts total -> Forall (fun t => 0 < weight t) ts /\ 0 < total.
Proof.
  intros (Hne & Hw & Hsum & Hmax).
  assert (Hpos : Forall (fun t => 0 < weight t) ts) by (eapply Forall_impl; [exact Hw |]; simpl; lia).
  split; [done | by eapply total_pos].
Qed.

(** The compiled cycle: its length, its range and its counts. *)
Lemma compile_cycle ts total cycle :
  weights_ok ts total -> compile_smooth_cycle ts total = Some cycle ->
  Z.of_nat (length cycle) = total /\ Forall (fun i => (i < length ts)%nat) cycle /\
  (forall i t, ts !! i = Some t -> occ i cycle = weight t) /\ verify_cycle_counts ts cycle = Ok tt.
Proof.
  intros Hok Hc. destruct (compile_states ts total Hok) as (cycle' & Hc' & Hlen & Hst).
  destruct (weights_ok_pos _ _ Hok) as [Hpos Hp]. destruct Hok as (Hne & Hw & Hsum & Hmax).
  rewrite Hc in Hc'. injection Hc' as <-.
  destruct (Hst (length cycle) ltac:(lia)) as (stf & _ & Hinvf & Ef). rewrite take_ge in Ef by lia.
  assert (Hocc : forall i t, ts !! i = Some t -> occ i cycle = weight t).
  { intros i t Hi. rewrite <- Ef. eapply (inv_complete ts total); try done. by rewrite Ef. }
  assert (Hidx : Forall (fun i => (i < length ts)%nat) cycle) by (rewrite <- Ef; by apply inv_index in Hinvf).
  split_and!; try done. apply verify_cycle_counts_Ok; [done | unfold u16_max, MAX_CYCLE_LENGTH in *; lia | done].
Qed.

Lemma occ_elem i cycle : 0 < occ i cycle -> exists q, cycle !! q = Some i.
Proof.
  unfold occ. intros H. destruct (filter (fun j => j = i) cycle) as [|j l] eqn:E; [simpl in H; lia |].
  assert (j ∈ filter (fun j => j = i) cycle) as [-> Hj]%list_elem_of_filter by (rewrite E; by left).
  by apply list_elem_of_lookup in Hj.
Qed.

Lemma sum_Permutation l l' : l ≡ₚ l' -> sum l = sum l'.
Proof. unfold sum. induction 1; simpl; lia. Qed.

(** C29: Smooth weighted round robin is exact and never ahead of its share.
    For every weight vector a policy may hold, the compiled cycle has as many
    slots as the weights add up to, selects each tenant exactly as often as its
    weight, passes [verify_cycle_counts], and after every prefix of [k] slots
    no tenant has been selected a whole slot more than its proportional share
    [k * weight / total].  Every intermediate score fits in an [i64]. *)
Theorem compile_smooth_cycle_exact (ts : list TenantFairnessWeight) (total : Z) (Hok : weights_ok ts total) :
  exists cycle, compile_smooth_cycle ts total = Some cycle /\
    Z.of_nat (length cycle) = total /\
    verify_cycle_counts ts cycle = Ok tt /\
    (forall i t, ts !! i = Some t -> occ i cycle = weight t) /\
    (forall k i t, (k <= length cycle)%nat -> ts !! i = Some t ->
       total * occ i (take k cycle) < Z.of_nat k * weight t + total) /\
    (forall k, (k <= length cycle)%nat ->
       exists st, smooth_loop k ts total (replicate (length ts) 0, []) = Some st /\
         Forall is_i64 st.1 /\ Forall is_i64 (add_weights st.1 ts)).
Proof.
  destruct (compile_states ts total Hok) as (cycle & Hc & Hlen & Hst).
  destruct (compile_cycle ts total cycle Hok Hc) as (_ & _ & Hocc & Hver).
  destruct Hok as (Hne & Hw & Hsum & Hmax). exists cycle. split_and!; try done.
  - intros k i t Hk Hi. destruct (Hst k Hk) as (st & _ & Hinv & E). destruct Hinv as [_ Hs _ Hlow _].
    pose proof (proj1 (Forall_lookup _ _) Hlow i _ (Hs i t Hi)) as Hl. simpl in Hl. rewrite E, length_take_le in Hl by done.
    lia.
  - intros k Hk. destruct (Hst k Hk) as (st & Hrun & Hinv & E). exists st. split; [done |].
    destruct Hinv as [Hl Hs _ Hlow _].
    assert (Hb : forall i s t, st.1 !! i = Some s -> ts !! i = Some t -> - MAX_CYCLE_LENGTH < s <= MAX_CYCLE_LENGTH * MAX_WEIGHT).
    { intros i s t Hi Ht. pose proof (proj1 (Forall_lookup _ _) Hlow i s Hi). simpl in *.
      rewrite (Hs i t Ht) in Hi. injection Hi as <-. pose proof (occ_bounds i st.2) as [Ho _].
      pose proof (proj1 (Forall_lookup _ _) Hw i t Ht) as Hwt. simpl in Hwt.
      rewrite E, length_take_le in * by done. unfold MAX_CYCLE_LENGTH in *. nia. }
    unfold MAX_CYCLE_LENGTH, MAX_WEIGHT in *. split; apply Forall_lookup; intros i s Hi; unfold is_i64, i64_min, i64_max.
    + destruct (lookup_lt_is_Some_2 ts i) as [t Ht]; [rewrite <- Hl; by eapply lookup_lt_Some |]. specialize (Hb i s t Hi Ht). lia.
    + apply lookup_zip_with_Some in Hi as (s0 & t & -> & Hs0 & Ht). specialize (Hb i s0 t Hs0 Ht).
      pose proof (proj1 (Forall_lookup _ _) Hw i t Ht). simpl in *. lia.
Qed.

Definition sample_weights : list TenantFairnessWeight :=
  [mkWeight (bytes_of "a") 5; mkWeight (bytes_of "b") 1; mkWeight (bytes_of "c") 1].

Lemma compile_smooth_cycle_exact_witness :
  weights_ok sample_weights 7 /\ compile_smooth_cycle sample_weights 7 = Some [0; 0; 1; 0; 2; 0; 0]%nat /\
  occ 0 [0; 0; 1; 0; 2; 0; 0]%nat = 5.
Proof.
  assert (Hok : weights_ok sample_weights 7) by (split_and!; by repeat constructor).
  destruct (compile_smooth_cycle_exact sample_weights 7 Hok) as (cycle & Hc & _ & _ & Hocc & _).
  assert (E : compile_smooth_cycle sample_weights 7 = Some [0; 0; 1; 0; 2; 0; 0]%nat) by (vm_compute; reflexivity).
  rewrite E in Hc. injection Hc as <-. split; [exact Hok |]. split; [exact E |].
  apply (Hocc 0%nat (mkWeight (bytes_of "a") 5)). reflexivity.
Defined.

End Smooth.

(** * Exactness of the starvation bounds *)

Module Gaps.

(** The slots of tenant [i] in a cycle that starts at slot [off]. *)
Fixpoint slots_of (i off : nat) (cycle : list nat) : list nat :=
  match cycle with
  | [] => []
  | j :: cycle' => if decide (j = i) then off :: slots_of i (S off) cycle' else slots_of i (S off) cycle'
  end.

Lemma slots_of_elem i off cycle p :
  p ∈ slots_of i off cycle <-> (off <= p)%nat /\ cycle !! (p - off)%nat = Some i.
Proof.
  revert off. induction cycle as [|j cycle IH]; intros off; simpl.
  { rewrite elem_of_nil. split; [done | by intros [_ ?]]. }
  assert (Hsplit : (off <= p)%nat /\ (j :: cycle) !! (p - off)%nat = Some i <->
                   p = off /\ j = i \/ (S off <= p)%nat /\ cycle !! (p - S off)%nat = Some i).
  { destruct (decide (p = off)) as [->|Hne].
    - rewrite Nat.sub_diag. simpl. split; [intros [_ [= ->]]; by left | intros [[_ ->] | [? _]]; [done | lia]].
    - split.
      + intros [Hle H]. right. replace (p - off)%nat with (S (p - S off)) in H by lia. split; [lia | done].
      + intros [[? _] | [Hle H]]; [done |]. replace (p - off)%nat with (S (p - S off)) by lia. split; [lia | done]. }
  rewrite Hsplit. case_decide; rewrite ?elem_of_cons, IH; naive_solver.
Qed.

Lemma slots_of_sorted i off cycle : StronglySorted lt (slots_of i off cycle).
Proof.
  revert off. induction cycle as [|j cycle IH]; intros off; simpl; [constructor |]. case_decide; [| done].
  constructor; [done |]. apply Forall_forall. intros p [Hp _]%slots_of_elem. lia.
Qed.

Lemma push_fold cycle off ps :
  Forall (fun i => (i < length ps)%nat) cycle ->
  exists ps', try_fold push_position ps (imap (fun k x => ((k + off)%nat, x)) cycle) = Ok ps' /\ length ps' = length ps /\
    forall i q, ps !! i = Some q -> ps' !! i = Some (q ++ slots_of i off cycle).
Proof.
  revert off ps. induction cycle as [|j cycle IH]; intros off ps Hidx; simpl.
  { exists ps. split_and!; try done. intros i q ->. by rewrite app_nil_r. }
  apply Forall_cons in Hidx as [Hj Hidx]. destruct (lookup_lt_is_Some_2 ps j Hj) as [q0 Hq0].
  assert (push_position ps (off, j) = Ok (<[j := q0 ++ [off]]> ps)) as ->.
  { unfold push_position. simpl. by rewrite Hq0. }
  cbn [mbind result_bind]. destruct (IH (S off) (<[j := q0 ++ [off]]> ps)) as (ps' & Hf & Hl & Hv).
  { by rewrite length_insert. }
  exists ps'. rewrite length_insert in Hl. split_and!; [| done |].
  { rewrite <- Hf. f_equal. apply imap_ext. intros k x _. simpl. f_equal. lia. }
  intros i q Hq. destruct (decide (j = i)) as [->|Hji].
  - rewrite (Hv i (q0 ++ [off])) by (by rewrite list_lookup_insert_eq). simplify_eq. by rewrite <- app_assoc.
  - by rewrite (Hv i q) by (by rewrite list_lookup_insert_ne).
Qed.

(** Consecutive differences, from a first element. *)
Fixpoint gaps_from (a : nat) (rest : list nat) : list nat :=
  match rest with [] => [] | b :: rest' => (b - a)%nat :: gaps_from b rest' end.

Lemma circular_gaps_from L p ps : circular_gaps L (p :: ps) = gaps_from p (ps ++ [(p + L)%nat]).
Proof.
  unfold circular_gaps. simpl. rewrite drop_0. generalize (p + L)%nat as e. revert p.
  induction ps as [|q ps IH]; intros p e; simpl; [done |]. f_equal. apply IH.
Qed.

Lemma iter_max_Some l m : iter_max l = Some m <-> m ∈ l /\ Forall (fun x => x <= m)%nat l.
Proof.
  destruct l as [|x l]; simpl.
  { split; [done | intros [?%elem_of_nil _]; done]. }
  assert (Hf : forall l x, fold_left Nat.max l x ∈ x :: l /\ Forall (fun y => y <= fold_left Nat.max l x)%nat (x :: l)).
  { clear. induction l as [|y l IH]; intros x; simpl; [split; [by left | by repeat constructor] |].
    destruct (IH (Nat.max x y)) as [Hin HF]. apply Forall_cons in HF as [H1 H2]. split; [| repeat constructor; [lia | lia | done]].
    apply elem_of_cons in Hin as [E | Hin]; [| do 2 right; done]. rewrite E.
    destruct (Nat.max_spec x y) as [[_ ->] | [_ ->]]; [right; by left | by left]. }
  destruct (Hf l x) as [Hin HF]. split; [by intros [= <-] |]. intros [Hm HF']. f_equal.
  rewrite Forall_forall in HF, HF'. specialize (HF _ Hm). specialize (HF' _ Hin). simpl in *. lia.
Qed.

(** Between two neighbours the next element is at most a gap away. *)
Lemma gap_cover a rest g r :
  Forall (fun x => x <= g)%nat (gaps_from a rest) -> (a < r)%nat -> (exists z, z ∈ rest /\ r <= z)%nat ->
  exists q, q ∈ rest /\ (r <= q < r + g)%nat.
Proof.
  revert a. induction rest as [|b rest IH]; intros a Hg Ha (z & Hz & Hrz).
  { by apply elem_of_nil in Hz. }
  simpl in Hg. apply Forall_cons in Hg as [Hb Hg]. destruct (decide (r <= b)%nat).
  - exists b. split; [by left | lia].
  - destruct (IH b Hg) as (q & Hq & Hr); [lia | | exists q; split; [by right | done]].
    apply elem_of_cons in Hz as [-> | Hz]; [lia | by exists z].
Qed.

(** A gap is a stretch without elements. *)
Lemma gap_between a rest g :
  StronglySorted lt (a :: rest) -> g ∈ gaps_from a rest ->
  exists x, x ∈ a :: rest /\ (x + g)%nat ∈ rest /\ (0 < g)%nat /\ forall z, z ∈ a :: rest -> (z <= x \/ x + g <= z)%nat.
Proof.
  revert a. induction rest as [|b rest IH]; intros a Hs Hg; simpl in Hg.
  { by apply elem_of_nil in Hg. }
  apply StronglySorted_inv in Hs as [Hs Ha]. pose proof Ha as [Hab Har]%Forall_cons.
  apply StronglySorted_inv in Hs as Hs'. destruct Hs' as [_ Hb]. rewrite Forall_forall in Hb, Ha.
  apply elem_of_cons in Hg as [-> | Hg].
  - exists a. replace (a + (b - a))%nat with b by lia. split_and!; [by left | by left | lia |].
    intros z [-> | [-> | Hz]%elem_of_cons]%elem_of_cons; [lia | lia |]. specialize (Hb z Hz). lia.
  - destruct (IH b Hs Hg) as (x & Hx & Hxg & Hpos & Hz). exists x. split_and!; [by right | by right | done |].
    intros z [-> | Hz']%elem_of_cons; [| by apply Hz]. specialize (Ha x Hx). lia.
Qed.

(** Slot [j] of the endlessly repeated cycle. *)
Definition slot_at (cycle : list nat) (j : nat) : option nat := cycle !! (j mod length cycle)%nat.

(** [b] is the exact circular starvation bound of tenant [i]: every window of
    [b] consecutive slots serves it, and some window of [b - 1] does not. *)
Definition exact_bound (cycle : list nat) (i b : nat) : Prop :=
  (1 <= b <= length cycle)%nat /\
  (forall k, exists j, (k <= j < k + b)%nat /\ slot_at cycle j = Some i) /\
  (exists k, forall j, (k <= j < k + (b - 1))%nat -> slot_at cycle j <> Some i).

Section one_tenant.
Context (cycle : list nat) (i p : nat) (ps : list nat).
Hypothesis Hslots : slots_of i 0 cycle = p :: ps.
Let L := length cycle.

Lemma slot_iff q : q ∈ p :: ps <-> cycle !! q = Some i.
Proof.
  rewrite <- Hslots, slots_of_elem, Nat.sub_0_r. split; [by intros [_ ?] | intros ?; split; [lia | done]].
Qed.

Lemma slot_lt q : q ∈ p :: ps -> (q < L)%nat.
Proof. intros H%slot_iff. by eapply lookup_lt_Some. Qed.

Lemma unrolled_sorted : StronglySorted lt (p :: ps ++ [(p + L)%nat]).
Proof.
  pose proof (slots_of_sorted i 0 cycle) as Hs. rewrite Hslots in Hs.
  change (p :: ps ++ [(p + L)%nat]) with ((p :: ps) ++ [(p + L)%nat]).
  apply StronglySorted_app_2; [| done | repeat constructor].
  intros x y Hx ->%list_elem_of_singleton. pose proof (slot_lt x Hx). lia.
Qed.

Lemma unrolled_slot q : q ∈ p :: ps ++ [(p + L)%nat] -> slot_at cycle q = Some i /\ (p <= q <= p + L)%nat.
Proof.
  assert (Hp : p ∈ p :: ps) by by left. pose proof (slot_lt p Hp) as HpL. fold L in HpL.
  pose proof unrolled_sorted as Hs. apply StronglySorted_inv in Hs as [_ Hs]. rewrite Forall_forall in Hs.
  change (p :: ps ++ [(p + L)%nat]) with ((p :: ps) ++ [(p + L)%nat]).
  intros [Hq | ->%list_elem_of_singleton]%elem_of_app; unfold slot_at; fold L.
  - pose proof (slot_lt q Hq) as HqL. fold L in HqL. rewrite Nat.mod_small by done. split; [by apply slot_iff |].
    apply elem_of_cons in Hq as [-> | Hq]; [lia |]. specialize (Hs q). rewrite elem_of_app in Hs. specialize (Hs (or_introl Hq)). lia.
  - rewrite <- (Nat.mul_1_l L) at 1. rewrite Nat.Div0.mod_add, Nat.mod_small by done. split; [by apply slot_iff | lia].
Qed.

(** Every slot number has a representative in the unrolled cycle. *)
Lemma representative k : exists r c, (p < r <= p + L)%nat /\ (k + L * (p + 1) = r + L * c)%nat.
Proof.
  assert (HL : (0 < L)%nat) by (apply Nat.le_lt_trans with p; [lia | apply slot_lt; by left]).
  set (d := (k + L * (p + 1) - (p + 1))%nat). exists (p + 1 + d mod L)%nat, (d / L)%nat.
  pose proof (Nat.mod_upper_bound d L ltac:(lia)). pose proof (Nat.div_mod_eq d L).
  assert (d = k + L * (p + 1) - (p + 1))%nat by done. clearbody d. split; nia.
Qed.

Lemma exact_bound_slots g :
  iter_max (circular_gaps L (p :: ps)) = Some g -> exact_bound cycle i g.
Proof.
  assert (HpL : (p < L)%nat) by (apply slot_lt; by left).
  rewrite circular_gaps_from, iter_max_Some. intros [Hin Hmax].
  destruct (gap_between _ _ _ unrolled_sorted Hin) as (x & Hx & Hxg & Hpos & Hnone).
  destruct (unrolled_slot x Hx) as [_ HxL]. destruct (unrolled_slot (x + g)) as [_ HgL]; [by right |].
  fold L in HxL, HgL. split_and!; [lia | fold L; lia | |].
  - intros k. destruct (representative k) as (r & c & Hr & Hk).
    destruct (gap_cover p (ps ++ [(p + L)%nat]) g r) as (q & Hq & Hqr); [done | lia | |].
    { exists (p + L)%nat. split; [apply elem_of_app; right; by left | lia]. }
    exists (k + (q - r))%nat. split; [lia |]. destruct (unrolled_slot q) as [Hs _]; [by right |].
    rewrite <- Hs. unfold slot_at. f_equal. fold L.
    rewrite <- (Nat.Div0.mod_add (k + (q - r)) (p + 1) L), <- (Nat.Div0.mod_add q c L). f_equal. lia.
  - exists (S x). intros j Hj Hs. unfold slot_at in Hs. fold L in Hs.
    assert (Hz : forall z, z ∈ p :: ps -> (z <= x \/ x + g <= z)%nat).
    { intros z Hz. apply Hnone. change (z ∈ (p :: ps) ++ [(p + L)%nat]). apply elem_of_app. by left. }
    apply slot_iff in Hs as Hin'. pose proof (slot_lt _ Hin') as HjL. fold L in HjL.
    destruct (decide (j < L)%nat) as [Hlt|Hge].
    + rewrite Nat.mod_small in Hin' by done. specialize (Hz _ Hin'). lia.
    + assert (E : (j mod L = j - L)%nat).
      { replace j with (j - L + 1 * L)%nat at 1 by lia. rewrite Nat.Div0.mod_add, Nat.mod_small; lia. }
      rewrite E in Hin'. destruct (unrolled_slot (j - L)) as [_ Hb]; [| fold L in Hb; lia].
      change (j - L ∈ (p :: ps) ++ [(p + L)%nat])%nat. apply elem_of_app. by left.
Qed.
End one_tenant.

Lemma tenant_bound_exact cycle i :
  (exists q, cycle !! q = Some i) -> Z.of_nat (length cycle) <= u16_max ->
  exists b, tenant_bound (length cycle) (slots_of i 0 cycle) = Ok (Z.of_nat b) /\ exact_bound cycle i b.
Proof.
  intros (q & Hq) Hl. destruct (slots_of i 0 cycle) as [|p ps] eqn:E.
  { exfalso. apply (not_elem_of_nil q). rewrite <- E. apply slots_of_elem. rewrite Nat.sub_0_r. split; [lia | done]. }
  destruct (iter_max (circular_gaps (length cycle) (p :: ps))) as [g|] eqn:Eg.
  - pose proof (exact_bound_slots cycle i p ps E g Eg) as Hb. exists g. split; [| done].
    unfold tenant_bound. rewrite Eg. simpl. destruct Hb as [Hb _]. by destruct (Z.leb_spec (Z.of_nat g) u16_max); [| lia].
  - exfalso. rewrite circular_gaps_from in Eg. by destruct ps.
Qed.

(** The bounds computed for a cycle in which every tenant occurs. *)
Lemma derive_starvation_bounds_exact n cycle :
  Forall (fun i => (i < n)%nat) cycle -> (forall i, (i < n)%nat -> exists q, cycle !! q = Some i) ->
  Z.of_nat (length cycle) <= u16_max ->
  exists bounds, derive_starvation_bounds n cycle = Ok bounds /\ length bounds = n /\
    forall i b, bounds !! i = Some b -> exact_bound cycle i (Z.to_nat b) /\ 0 <= b.
Proof.
  intros Hidx Hocc Hl. unfold derive_starvation_bounds.
  destruct (push_fold cycle 0 (replicate n [])) as (ps & Hps & Hlen & Hv).
  { by rewrite length_replicate. }
  rewrite length_replicate in Hlen.
  assert (imap pair cycle = imap (fun k x => ((k + 0)%nat, x)) cycle) as ->.
  { apply imap_ext. intros k x _. by rewrite Nat.add_0_r. }
  rewrite Hps. cbn [mbind result_bind].
  assert (Hat : forall i q, ps !! i = Some q -> (i < n)%nat /\ q = slots_of i 0 cycle).
  { intros i q Hq. pose proof (lookup_lt_Some _ _ _ Hq) as Hi. rewrite Hlen in Hi. split; [done |].
    rewrite (Hv i []) in Hq by (by apply lookup_replicate_2). by injection Hq. }
  destruct (mapM_total (tenant_bound (length cycle)) ps) as [bounds Hb].
  { apply Forall_lookup. intros i q Hq. destruct (Hat i q Hq) as [Hi ->].
    destruct (tenant_bound_exact cycle i (Hocc i Hi) Hl) as (b & Hb & _). eauto. }
  exists bounds. split; [done |]. apply mapM_Ok in Hb. split; [by rewrite <- (Forall2_length _ _ _ Hb) |].
  intros i b Hib. destruct (Forall2_lookup_r _ _ _ _ _ Hb Hib) as (q & Hq & Hqb). destruct (Hat i q Hq) as [Hi ->].
  destruct (tenant_bound_exact cycle i (Hocc i Hi) Hl) as (b' & Hb' & He). rewrite Hb' in Hqb. injection Hqb as <-.
  rewrite Nat2Z.id. split; [done | lia].
Qed.

End Gaps.
