(* ===== verification/FairPolicy.v ===== *)
(** The immutable fairness policy of a scheduler shard: the constructor and
    the lookups of [WeightedFairnessPolicy]
    (crates/stateknot-runtime/src/fair_scheduler.rs) with the registration it
    binds to the store (crates/stateknot-store-postgres/src/model.rs).

    The canonical JSON encoder and SHA-256 are code outside the repository:
    [to_vec] and [sha256] are arbitrary functions here. *)

From Stdlib Require Import ZArith Lia List.
From stdpp Require Import prelude sorting.
From S2P Require Import Prelude Ordered StoreErrors FairScheduler.

Open Scope Z_scope.

Definition SchedulerShardId := bytes.
Definition Digest := bytes.

(** * Registration *)

Record SchedulerFairnessPolicyRegistration := mkRegistration {
  registration_shard_id : SchedulerShardId;
  policy_digest : Digest;
  policy_bytes : bytes;
  registration_cycle_length : Z
}.

#[global] Instance registration_eq_dec : EqDecision SchedulerFairnessPolicyRegistration.
Proof. intros [s d b c] [s' d' b' c']. unfold Decision. repeat decide equality. Defined.

Definition MAX_POLICY_BYTES : Z := 262144.
(** [b"stateknot.scheduler-fairness-policy.v1\0"]. *)
Definition SCHEDULER_FAIRNESS_POLICY_DIGEST_DOMAIN : bytes := bytes_of "stateknot.scheduler-fairness-policy.v1" ++ [0].
Definition ALGORITHM : bytes := bytes_of "smooth_weighted_round_robin_v1".

Record FairnessTenantWire := mkTenantWire { wire_tenant_id : bytes; wire_weight : Z }.
Record FairnessPolicyWire := mkWire { algorithm : bytes; wire_tenants : list FairnessTenantWire }.

Record WeightedFairnessPolicy := mkPolicy {
  shard_id : SchedulerShardId;
  tenants : list TenantFairnessWeight;
  cycle : list nat;
  starvation_bounds : list Z;
  canonical_bytes : bytes;
  registration : SchedulerFairnessPolicyRegistration
}.

(** [left.tenant_id.cmp(&right.tenant_id)] is not [Greater]. *)
Definition tenant_le (left right : TenantFairnessWeight) : Prop := cmp (tenant_id left) (tenant_id right) <> Gt.

#[global] Instance tenant_le_dec left right : Decision (tenant_le left right).
Proof. unfold tenant_le. solve_decision. Defined.

(** [windows(2).any(|pair| pair[0].tenant_id == pair[1].tenant_id)]. *)
Fixpoint adjacent_duplicate (ts : list TenantFairnessWeight) : bool :=
  match ts with
  | a :: (b :: _) as rest => eqb_cmp (tenant_id a) (tenant_id b) || adjacent_duplicate rest
  | _ => false
  end.

Definition add_to_cycle (total : Z) (tenant : TenantFairnessWeight) : result WeightedFairnessPolicyError Z :=
  match checked_add u16_max total (weight tenant) with
  | Some value => if value <=? MAX_CYCLE_LENGTH then Ok value else Err CycleTooLarge
  | None => Err CycleTooLarge
  end.

(** The checks of the constructor before it compiles the cycle. *)
Definition check_tenants (ts : list TenantFairnessWeight)
  : result WeightedFairnessPolicyError (list TenantFairnessWeight * Z) :=
  if (length ts =? 0)%nat then Err Empty else
  if MAX_TENANTS <? Z.of_nat (length ts) then Err TooManyTenants else
  let ts := merge_sort tenant_le ts in
  if adjacent_duplicate ts then Err DuplicateTenant else
  cycle_length ← try_fold add_to_cycle 0 ts;
  Ok (ts, cycle_length).

Section Policy.
Variable to_vec : FairnessPolicyWire -> option bytes.
Variable sha256 : bytes -> Digest.

Definition registration_new (shard : SchedulerShardId) (policy_bytes : bytes) (cycle_length : Z)
  : result StoreError SchedulerFairnessPolicyRegistration :=
  if (length policy_bytes =? 0)%nat || (MAX_POLICY_BYTES <? Z.of_nat (length policy_bytes))
     || (cycle_length =? 0) || (MAX_CYCLE_LENGTH <? cycle_length)
  then Err InvalidSchedulerFairnessPolicy else
  Ok (mkRegistration shard (sha256 (SCHEDULER_FAIRNESS_POLICY_DIGEST_DOMAIN ++ policy_bytes)) policy_bytes cycle_length).

Definition wire_of (ts : list TenantFairnessWeight) : FairnessPolicyWire :=
  mkWire ALGORITHM ((fun t => mkTenantWire (tenant_id t) (weight t)) <$> ts).

(** [None] is the panic of [expect] inside [compile_smooth_cycle]. *)
Definition policy_new (shard : SchedulerShardId) (input : list TenantFairnessWeight)
  : option (result WeightedFairnessPolicyError WeightedFairnessPolicy) :=
  match check_tenants input with
  | Err e => Some (Err e)
  | Ok (ts, cycle_length) =>
      cycle ← compile_smooth_cycle ts cycle_length;
      Some (
        _ ← verify_cycle_counts ts cycle;
        bounds ← derive_starvation_bounds (length ts) cycle;
        canonical ← ok_or (to_vec (wire_of ts)) CanonicalEncoding;
        registration ← map_err (fun _ => StoreBinding) (registration_new shard canonical cycle_length);
        Ok (mkPolicy shard ts cycle bounds canonical registration))
  end.

(** Indexing [starvation_bounds] outside its length would panic; [None]
    there never occurs for a constructed policy. *)
Definition starvation_bound (self : WeightedFairnessPolicy) (tenant : TenantId) : option Z :=
  index ← binary_search tenant_id tenant (tenants self);
  starvation_bounds self !! index.

Definition tenant_for_slot (self : WeightedFairnessPolicy) (slot : nat) : option TenantId :=
  index ← cycle self !! slot;
  tenant_id <$> tenants self !! index.

Definition cycle_length (self : WeightedFairnessPolicy) : nat := length (cycle self).
End Policy.

(** * The canonical tenant order *)

#[global] Instance tenant_le_trans : Transitive tenant_le.
Proof.
  intros a b c. unfold tenant_le. intros H1 H2 H3. apply cmp_gt_lt in H3.
  destruct (cmp (tenant_id a) (tenant_id b)) eqn:E1; [apply cmp_eq_iff in E1 as E1; rewrite E1 in H3 | | done].
  - apply H2, cmp_gt_lt. done.
  - apply H2, cmp_gt_lt. eapply cmp_lt_trans; eauto.
Qed.

#[global] Instance tenant_le_total : Total tenant_le.
Proof.
  intros a b. unfold tenant_le. rewrite (cmp_opp (tenant_id a) (tenant_id b)).
  destruct (cmp (tenant_id a) (tenant_id b)); simpl; auto.
Qed.

Lemma adjacent_duplicate_sorted ts :
  StronglySorted tenant_le ts -> adjacent_duplicate ts = false <-> ksorted tenant_id ts.
Proof.
  induction 1 as [|a ts Hs IH HF]; [by split; [constructor |] |].
  destruct ts as [|b ts]; [split; [repeat constructor | done] |].
  change (adjacent_duplicate (a :: b :: ts)) with (eqb_cmp (tenant_id a) (tenant_id b) || adjacent_duplicate (b :: ts)).
  rewrite orb_false_iff, IH. split.
  - intros [Hne Hk]. constructor; [| done].
    assert (Hab : cmp (tenant_id a) (tenant_id b) = Lt).
    { apply Forall_cons in HF as [Hle _]. unfold tenant_le in Hle. unfold eqb_cmp in Hne. by destruct (cmp _ _). }
    constructor; [done |]. inversion Hk as [|? ? Hb _]; subst. eapply Forall_impl; [exact Hb |].
    simpl. intros c Hbc. by eapply cmp_lt_trans.
  - intros Hk. inversion Hk as [|? ? Ha Hk']; subst. split; [| done]. apply Forall_cons in Ha as [Ha _].
    unfold eqb_cmp. by rewrite Ha.
Qed.

Lemma ksorted_NoDup ts : ksorted tenant_id ts -> NoDup (tenant_id <$> ts).
Proof.
  induction 1 as [|a ts HF _ IH]; [constructor |]. rewrite fmap_cons. constructor; [| done].
  intros (b & E & Hb)%list_elem_of_fmap. rewrite Forall_forall in HF. by apply (cmp_lt_ne _ _ (HF b Hb)).
Qed.

Lemma NoDup_adjacent ts : NoDup (tenant_id <$> ts) -> adjacent_duplicate ts = false.
Proof.
  induction ts as [|a [|b ts] IH]; [done | done |]. rewrite !fmap_cons. intros [Ha Hn]%NoDup_cons.
  change (adjacent_duplicate (a :: b :: ts)) with (eqb_cmp (tenant_id a) (tenant_id b) || adjacent_duplicate (b :: ts)).
  rewrite (IH Hn), orb_false_r. apply not_true_iff_false. intros E%eqb_cmp_spec. apply Ha. rewrite E. by left.
Qed.

Abbreviation sorted ts := (merge_sort tenant_le ts).

Lemma sorted_duplicate ts : adjacent_duplicate (sorted ts) = false <-> NoDup (tenant_id <$> ts).
Proof.
  assert (Hp : tenant_id <$> sorted ts ≡ₚ tenant_id <$> ts) by (apply fmap_Permutation, merge_sort_Permutation).
  split.
  - intros H. apply adjacent_duplicate_sorted in H; [| by apply (StronglySorted_merge_sort tenant_le)].
    apply ksorted_NoDup in H. by rewrite Hp in H.
  - intros H. apply NoDup_adjacent. by rewrite Hp.
Qed.

Lemma sorted_ksorted ts : NoDup (tenant_id <$> ts) -> ksorted tenant_id (sorted ts).
Proof.
  intros H. apply adjacent_duplicate_sorted; [by apply (StronglySorted_merge_sort tenant_le) |]. by apply sorted_duplicate.
Qed.

(** With distinct tenants the canonical order forgets the input order. *)
Lemma sorted_perm ts ts' : NoDup (tenant_id <$> ts) -> ts ≡ₚ ts' -> sorted ts = sorted ts'.
Proof.
  intros Hn Hp. apply (ksorted_ext tenant_id).
  - by apply sorted_ksorted.
  - apply sorted_ksorted. by rewrite <- Hp.
  - intros x. by rewrite !merge_sort_Permutation, Hp.
Qed.

(** * What the constructor accepts *)

Module Policy.
Import FairScheduler.Smooth.

Definition valid_weights (ts : list TenantFairnessWeight) : Prop := Forall (fun t => 1 <= weight t <= MAX_WEIGHT) ts.

Definition admissible (ts : list TenantFairnessWeight) : Prop :=
  ts <> [] /\ Z.of_nat (length ts) <= MAX_TENANTS /\ NoDup (tenant_id <$> ts) /\ sum (weights ts) <= MAX_CYCLE_LENGTH.

Lemma add_fold ts acc n :
  Forall (fun t => 0 <= weight t) ts -> 0 <= acc <= MAX_CYCLE_LENGTH ->
  try_fold add_to_cycle acc ts = Ok n <-> n = acc + sum (weights ts) /\ n <= MAX_CYCLE_LENGTH.
Proof.
  intros Hw. revert acc. induction Hw as [|t ts Ht Hts IH]; intros acc Ha; simpl.
  { split; [intros [= <-]; lia | intros [-> _]; f_equal; lia]. }
  assert (Hge : 0 <= sum (weights ts)) by (clear -Hts; induction Hts; simpl; lia).
  unfold MAX_CYCLE_LENGTH in *.
  assert (add_to_cycle acc t = if acc + weight t <=? 4096 then Ok (acc + weight t) else Err CycleTooLarge) as ->.
  { unfold add_to_cycle, checked_add, u16_max, MAX_CYCLE_LENGTH. by destruct (Z.leb_spec (acc + weight t) 65535), (Z.leb_spec (acc + weight t) 4096); try lia. }
  change (foldr Z.add 0 (weight <$> ts)) with (sum (weights ts)).
  destruct (Z.leb_spec (acc + weight t) 4096); simpl.
  - rewrite IH by lia. lia.
  - split; [done |]. lia.
Qed.

Lemma add_fold_Err ts acc e : try_fold add_to_cycle acc ts = Err e -> e = CycleTooLarge.
Proof.
  revert acc. induction ts as [|t ts IH]; intros acc H; simpl in H; [done |].
  apply bind_Err in H as [H | (acc' & _ & H)]; [| by eapply IH]. unfold add_to_cycle in H.
  destruct (checked_add _ _ _); [destruct (_ <=? _) |]; congruence.
Qed.

Lemma sorted_weights ts : sum (weights (sorted ts)) = sum (weights ts).
Proof. apply sum_Permutation, fmap_Permutation, merge_sort_Permutation. Qed.

Lemma sorted_valid ts : valid_weights ts -> valid_weights (sorted ts).
Proof. unfold valid_weights. by rewrite merge_sort_Permutation. Qed.

Lemma check_tenants_Ok ts p :
  valid_weights ts -> check_tenants ts = Ok p <-> admissible ts /\ p = (sorted ts, sum (weights ts)).
Proof.
  intros Hv. unfold check_tenants, admissible.
  assert (Hf : forall n, try_fold add_to_cycle 0 (sorted ts) = Ok n <-> n = sum (weights ts) /\ n <= MAX_CYCLE_LENGTH).
  { intros n. rewrite add_fold, sorted_weights; [done | | unfold MAX_CYCLE_LENGTH; lia].
    eapply Forall_impl; [by apply sorted_valid |]. simpl. lia. }
  destruct (Nat.eqb_spec (length ts) 0) as [H0|H0].
  { destruct ts; [| done]. split; [done |]. by intros [[? _] _]. }
  destruct (Z.ltb_spec MAX_TENANTS (Z.of_nat (length ts))); [split; [done | lia] |].
  destruct (adjacent_duplicate (sorted ts)) eqn:Ed.
  { split; [done |]. intros [(_ & _ & Hn & _) _]. apply sorted_duplicate in Hn. congruence. }
  apply sorted_duplicate in Ed. rewrite bind_Ok. split.
  - intros (n & [-> Hn]%Hf & [= <-]). split_and!; try done. by intros ->.
  - intros [(_ & _ & _ & Hs) ->]. eexists. split; [by apply Hf | done].
Qed.

Lemma admissible_weights_ok ts : valid_weights ts -> admissible ts -> weights_ok (sorted ts) (sum (weights ts)).
Proof.
  intros Hv (Hne & _ & _ & Hs). split_and!; [| by apply sorted_valid | by apply sorted_weights | done].
  intros E. apply Hne. assert (Hp : sorted ts ≡ₚ ts) by apply merge_sort_Permutation. rewrite E in Hp.
  by apply Permutation_nil_l in Hp.
Qed.

Lemma check_tenants_perm ts ts' : ts ≡ₚ ts' -> check_tenants ts = check_tenants ts'.
Proof.
  intros Hp. unfold check_tenants. rewrite (Permutation_length Hp).
  destruct (length ts' =? 0)%nat; [done |]. destruct (MAX_TENANTS <? Z.of_nat (length ts')); [done |].
  destruct (adjacent_duplicate (sorted ts)) eqn:Ed.
  - destruct (adjacent_duplicate (sorted ts')) eqn:Ed'; [done |]. apply sorted_duplicate in Ed'. rewrite <- Hp in Ed'.
    apply sorted_duplicate in Ed'. congruence.
  - pose proof Ed as Hn. apply sorted_duplicate in Hn. rewrite (sorted_perm ts ts' Hn Hp) in Ed |- *. by rewrite Ed.
Qed.

(** Every step after the checks succeeds up to the two external ones. *)
Lemma compiled_bounds ts total :
  weights_ok ts total ->
  exists cycle bounds, compile_smooth_cycle ts total = Some cycle /\ verify_cycle_counts ts cycle = Ok tt /\
    derive_starvation_bounds (length ts) cycle = Ok bounds /\ length bounds = length ts /\
    Z.of_nat (length cycle) = total /\
    forall i t, ts !! i = Some t -> occ i cycle = weight t /\
      exists b, bounds !! i = Some (Z.of_nat b) /\ Gaps.exact_bound cycle i b.
Proof.
  intros Hok. destruct (compile_states ts total Hok) as (cycle & Hc & _ & _).
  destruct (compile_cycle ts total cycle Hok Hc) as (Hlen & Hidx & Hocc & Hver).
  destruct (weights_ok_pos _ _ Hok) as [Hpos Hp]. destruct Hok as (_ & _ & _ & Hmax).
  destruct (Gaps.derive_starvation_bounds_exact (length ts) cycle Hidx) as (bounds & Hb & Hbl & Hbx).
  - intros i Hi. destruct (lookup_lt_is_Some_2 ts i Hi) as [t Ht]. apply occ_elem. rewrite (Hocc i t Ht).
    rewrite Forall_lookup in Hpos. eauto.
  - unfold MAX_CYCLE_LENGTH, u16_max in *. lia.
  - exists cycle, bounds. split_and!; try done. intros i t Hi. split; [by apply Hocc |].
    destruct (lookup_lt_is_Some_2 bounds i) as [b Hib]; [rewrite Hbl; by eapply lookup_lt_Some |].
    destruct (Hbx i b Hib) as [He H0]. exists (Z.to_nat b). by rewrite Z2Nat.id.
Qed.

(** Slots and tenants of a policy whose tenants are in canonical order. *)
Lemma slot_tenant pol i t s :
  ksorted tenant_id (tenants pol) -> tenants pol !! i = Some t ->
  tenant_for_slot pol s = Some (tenant_id t) <-> cycle pol !! s = Some i.
Proof.
  intros Hk Hi. unfold tenant_for_slot. split.
  - intros (j & Hj & (u & Hu & E)%fmap_Some)%bind_Some. rewrite Hj. f_equal.
    destruct (lt_eq_lt_dec i j) as [[Hlt | ->] | Hlt]; [| done |].
    + pose proof (ksorted_lookup_lt tenant_id _ _ _ _ _ Hk Hi Hu Hlt) as Hc. by rewrite E, cmp_refl in Hc.
    + pose proof (ksorted_lookup_lt tenant_id _ _ _ _ _ Hk Hu Hi Hlt) as Hc. by rewrite E, cmp_refl in Hc.
  - intros ->. simpl. by rewrite Hi.
Qed.

Lemma length_filter_S (P : nat -> Prop) `{forall x, Decision (P x)} l :
  length (filter P (S <$> l)) = length (filter (fun x => P (S x)) l).
Proof. induction l as [|x l IH]; [done |]. rewrite fmap_cons, !filter_cons. case_decide; simpl; by rewrite IH. Qed.

Lemma occ_slots i c : occ i c = Z.of_nat (length (filter (fun s => c !! s = Some i) (seq 0 (length c)))).
Proof.
  induction c as [|j c IH]; [done |]. rewrite occ_cons, IH. cbn [length seq]. rewrite <- fmap_S_seq, filter_cons.
  destruct (decide (j = i)) as [->|Hne].
  - rewrite decide_True by done. cbn [length]. rewrite length_filter_S. simpl. lia.
  - rewrite decide_False by (simpl; congruence). rewrite length_filter_S. simpl. lia.
Qed.

Lemma filter_length_iff (P Q : nat -> Prop) `{forall x, Decision (P x), forall x, Decision (Q x)} l :
  (forall x, P x <-> Q x) -> length (filter P l) = length (filter Q l).
Proof.
  intros HPQ. induction l as [|x l IH]; [done |]. rewrite !filter_cons.
  destruct (decide (P x)), (decide (Q x)); simpl; try (by rewrite IH); exfalso; naive_solver.
Qed.

Section Theorems.
Context (to_vec : FairnessPolicyWire -> option bytes) (sha256 : bytes -> Digest).

Lemma policy_new_registration shard ts pol :
  valid_weights ts -> policy_new to_vec sha256 shard ts = Some (Ok pol) ->
  FairPolicy.shard_id pol = shard /\ registration_shard_id (registration pol) = shard /\
  registration_cycle_length (registration pol) = Z.of_nat (cycle_length pol).
Proof.
  intros Hv Hnew. unfold policy_new in Hnew. destruct (check_tenants ts) as [[ts' n]|e] eqn:E; [| done].
  apply check_tenants_Ok in E as [Ha [= -> ->]]; [| done].
  destruct (compiled_bounds _ _ (admissible_weights_ok ts Hv Ha)) as (cyc & bounds & Hc & Hver & Hb & _ & Hlen & _).
  rewrite Hc in Hnew. simpl in Hnew. rewrite Hver, Hb in Hnew. simpl in Hnew. injection Hnew as Hnew. simp_ok. subst pol.
  unfold registration_new in H0. simp_ok. by subst.
Qed.

Definition encodable (ts : list TenantFairnessWeight) : Prop :=
  exists b, to_vec (wire_of ts) = Some b /\ (0 < length b)%nat /\ Z.of_nat (length b) <= MAX_POLICY_BYTES.

Lemma policy_new_outcome shard ts :
  valid_weights ts -> admissible ts ->
  exists cycle bounds, compile_smooth_cycle (sorted ts) (sum (weights ts)) = Some cycle /\
    derive_starvation_bounds (length (sorted ts)) cycle = Ok bounds /\
    policy_new to_vec sha256 shard ts = Some (
      canonical ← ok_or (to_vec (wire_of (sorted ts))) CanonicalEncoding;
      registration ← map_err (fun _ => StoreBinding) (registration_new sha256 shard canonical (sum (weights ts)));
      Ok (mkPolicy shard (sorted ts) cycle bounds canonical registration)).
Proof.
  intros Hv Ha. pose proof (admissible_weights_ok ts Hv Ha) as Hok.
  destruct (compiled_bounds _ _ Hok) as (cycle & bounds & Hc & Hver & Hb & _).
  exists cycle, bounds. split_and!; try done. unfold policy_new.
  rewrite (proj2 (check_tenants_Ok ts _ Hv) (conj Ha eq_refl)), Hc. simpl. by rewrite Hver, Hb.
Qed.

Lemma registration_new_Ok shard b n r :
  0 < n <= MAX_CYCLE_LENGTH ->
  registration_new sha256 shard b n = Ok r <->
  (0 < length b)%nat /\ Z.of_nat (length b) <= MAX_POLICY_BYTES /\
  r = mkRegistration shard (sha256 (SCHEDULER_FAIRNESS_POLICY_DIGEST_DOMAIN ++ b)) b n.
Proof.
  intros Hn. unfold registration_new.
  destruct (Nat.eqb_spec (length b) 0), (Z.ltb_spec MAX_POLICY_BYTES (Z.of_nat (length b))),
    (Z.eqb_spec n 0), (Z.ltb_spec MAX_CYCLE_LENGTH n); simpl; try lia; (split; [| intros (? & ? & ->); try lia; done]);
    try done. intros [= <-]. split_and!; [lia | done | done].
Qed.

(** The policy constructor never panics and never fails on its own
    compiled cycle; it accepts exactly the sets of one to 1024 distinct
    tenants whose weights add up to at most 4096 and whose canonical encoding
    exists and has 1 to 262144 bytes; and its outcome, error or policy, does
    not depend on the order in which the tenants are given. *)
Theorem policy_new_total_and_order_independent (shard : SchedulerShardId) (ts ts' : list TenantFairnessWeight)
  (Hv : valid_weights ts) (Hp : ts ≡ₚ ts') :
  (exists r, policy_new to_vec sha256 shard ts = Some r /\ r <> Err InvalidCompiledCycle /\
     (is_ok r = true <-> admissible ts /\ encodable (sorted ts))) /\
  policy_new to_vec sha256 shard ts' = policy_new to_vec sha256 shard ts.
Proof.
  split; [| unfold policy_new; by rewrite (check_tenants_perm ts ts' Hp)].
  destruct (check_tenants ts) as [p|e] eqn:E.
  - pose proof (proj1 (check_tenants_Ok ts p Hv) E) as [Ha ->].
    destruct (policy_new_outcome shard ts Hv Ha) as (cycle & bounds & _ & _ & Hnew). eexists. split; [exact Hnew |].
    destruct (weights_ok_pos _ _ (admissible_weights_ok ts Hv Ha)) as [_ Hpos]. pose proof Ha as (_ & _ & _ & Hmax).
    unfold encodable. destruct (to_vec (wire_of (sorted ts))) as [b|] eqn:Eb; simpl.
    + destruct (registration_new sha256 shard b (sum (weights ts))) as [r|e'] eqn:Er; simpl; (split; [done |]).
      * apply registration_new_Ok in Er as (H1 & H2 & _); [| done]. split; [| done]. intros _. split; [done |]. by exists b.
      * split; [done |]. intros [_ (b' & [= <-] & H1 & H2)]. exfalso.
        assert (is_ok (registration_new sha256 shard b (sum (weights ts))) = true); [| by rewrite Er in *].
        by rewrite (proj2 (registration_new_Ok shard b (sum (weights ts)) _ (conj Hpos Hmax)) (conj H1 (conj H2 eq_refl))).
    + split; [done |]. split; [done |]. by intros [_ (b' & ? & _)].
  - exists (Err e). unfold policy_new. rewrite E. split_and!; [done | |].
    + intros [= ->]. unfold check_tenants in E.
      repeat match type of E with (if ?c then _ else _) = _ => destruct c; [done |] end.
      apply bind_Err in E as [E | (? & _ & ?)]; [by apply add_fold_Err in E | done].
    + split; [done |]. intros [Ha _]. pose proof (proj2 (check_tenants_Ok ts _ Hv) (conj Ha eq_refl)). congruence.
Qed.

(** The cycle and the bounds of a constructed policy, seen by tenant. *)
Lemma policy_starvation_exact (shard : SchedulerShardId) (ts : list TenantFairnessWeight)
  (pol : WeightedFairnessPolicy) (t : TenantFairnessWeight)
  (Hv : valid_weights ts) (Hnew : policy_new to_vec sha256 shard ts = Some (Ok pol)) (Ht : t ∈ ts) :
  Z.of_nat (cycle_length pol) = sum (weights ts) /\
  weight t = Z.of_nat (length (filter (fun s => tenant_for_slot pol s = Some (tenant_id t)) (seq 0 (cycle_length pol)))) /\
  exists b, starvation_bound pol (tenant_id t) = Some (Z.of_nat b) /\ (1 <= b <= cycle_length pol)%nat /\
    (forall n, exists m, (n <= m < n + b)%nat /\
       tenant_for_slot pol (m mod cycle_length pol) = Some (tenant_id t)) /\
    (exists n, forall m, (n <= m < n + (b - 1))%nat ->
       tenant_for_slot pol (m mod cycle_length pol) <> Some (tenant_id t)).
Proof.
  assert (Ha : admissible ts).
  { unfold policy_new in Hnew. destruct (check_tenants ts) as [p|e] eqn:E; [| done].
    by apply (proj1 (check_tenants_Ok ts p Hv)) in E as [? _]. }
  destruct (policy_new_outcome shard ts Hv Ha) as (cyc & bounds & Hc & Hb & Hnew'). rewrite Hnew in Hnew'.
  injection Hnew' as Hnew'. symmetry in Hnew'. simp_ok. subst pol.
  destruct (compiled_bounds _ _ (admissible_weights_ok ts Hv Ha)) as (cyc' & bounds' & Hc' & _ & Hb' & _ & Hlen & Hall).
  rewrite Hc in Hc'. injection Hc' as <-. rewrite Hb in Hb'. injection Hb' as <-.
  assert (Hk : ksorted tenant_id (sorted ts)) by (apply sorted_ksorted, Ha).
  assert (Hbs : (binary_search tenant_id (tenant_id t) (sorted ts) ≫= fun i => sorted ts !! i) = Some t).
  { rewrite binary_search_correct by done. apply find_key_elem; [done |]. by rewrite merge_sort_Permutation. }
  apply bind_Some in Hbs as (i & Hbs & Hi). destruct (Hall i t Hi) as [Hocc (b & Hib & (Hrange & Hevery & Hnone))].
  set (pol := mkPolicy shard (sorted ts) cyc bounds x x0).
  assert (Hslot : forall s, tenant_for_slot pol s = Some (tenant_id t) <-> cyc !! s = Some i).
  { intros s. by apply (slot_tenant pol i t s). }
  split_and!; [done | |].
  - rewrite <- Hocc, occ_slots. f_equal. apply filter_length_iff. intros s. symmetry. apply Hslot.
  - exists b. split_and!; [unfold starvation_bound; simpl; by rewrite Hbs | apply Hrange | apply Hrange | |].
    + intros n. destruct (Hevery n) as (m & Hm & Hs). exists m. split; [done |]. by apply Hslot.
    + destruct Hnone as [n Hn]. exists n. intros m Hm E. apply Hslot in E. by apply (Hn m Hm).
Qed.

(** Weighted fairness with exact starvation bounds.  In a constructed
    policy every configured tenant owns exactly its weight in slots of the
    cycle, and its reported bound [b] is exact for the endlessly repeated
    cycle: every [b] consecutive reservations contain one for the tenant,
    wherever they start, and some [b - 1] consecutive ones contain none. *)
Theorem starvation_bound_exact (shard : SchedulerShardId) (ts : list TenantFairnessWeight)
  (pol : WeightedFairnessPolicy) (t : TenantFairnessWeight)
  (Hv : valid_weights ts) (Hnew : policy_new to_vec sha256 shard ts = Some (Ok pol)) (Ht : t ∈ ts) :
  Z.of_nat (cycle_length pol) = sum (weights ts) /\
  weight t = Z.of_nat (length (filter (fun s => tenant_for_slot pol s = Some (tenant_id t)) (seq 0 (cycle_length pol)))) /\
  exists b, starvation_bound pol (tenant_id t) = Some (Z.of_nat b) /\ (1 <= b <= cycle_length pol)%nat /\
    (forall n, exists m, (n <= m < n + b)%nat /\
       tenant_for_slot pol (m mod cycle_length pol) = Some (tenant_id t)) /\
    (exists n, forall m, (n <= m < n + (b - 1))%nat ->
       tenant_for_slot pol (m mod cycle_length pol) <> Some (tenant_id t)).
Proof. by eapply policy_starvation_exact. Qed.
End Theorems.

(** ** A concrete policy: a length-prefixed encoder and a toy digest. *)

Definition sample_encoder (w : FairnessPolicyWire) : option bytes :=
  Some (algorithm w ++ mjoin ((fun t => wire_tenant_id t ++ [wire_weight t mod 256]) <$> wire_tenants w)).
Definition sample_digest (b : bytes) : Digest := [Smooth.sum b mod 256].
Definition sample_input : list TenantFairnessWeight :=
  [mkWeight (bytes_of "c") 1; mkWeight (bytes_of "a") 5; mkWeight (bytes_of "b") 1].
Definition sample_policy : option WeightedFairnessPolicy :=
  match policy_new sample_encoder sample_digest (bytes_of "prod") sample_input with Some (Ok p) => Some p | _ => None end.

Lemma policy_new_total_and_order_independent_witness :
  policy_new sample_encoder sample_digest (bytes_of "prod") sample_weights =
  policy_new sample_encoder sample_digest (bytes_of "prod") sample_input.
Proof.
  apply (policy_new_total_and_order_independent sample_encoder sample_digest (bytes_of "prod") sample_input sample_weights).
  - by repeat constructor.
  - apply (Permutation_app_comm [mkWeight (bytes_of "c") 1]).
Defined.

Lemma starvation_bound_exact_witness :
  exists pol, sample_policy = Some pol /\
    weight (mkWeight (bytes_of "b") 1) =
      Z.of_nat (length (filter (fun s => tenant_for_slot pol s = Some (bytes_of "b")) (seq 0 (cycle_length pol)))) /\
    starvation_bound pol (bytes_of "b") = Some 7.
Proof.
  destruct sample_policy as [pol|] eqn:E; [| vm_compute in E; discriminate E].
  exists pol. split; [reflexivity |].
  destruct (starvation_bound_exact sample_encoder sample_digest (bytes_of "prod") sample_input pol (mkWeight (bytes_of "b") 1))
    as (_ & Hw & _).
  - by repeat constructor.
  - unfold sample_policy in E. destruct (policy_new _ _ _ _) as [[p|]|] eqn:En; [| discriminate E | discriminate E].
    by injection E as ->.
  - do 2 right. left.
  - split; [exact Hw |]. vm_compute in E. injection E as <-. vm_compute. reflexivity.
Defined.

End Policy.
