(* ===== verification/FairStore.v ===== *)
(** Durable fairness reservations
    (crates/stateknot-store-postgres/src/store.rs and model.rs): registration
    of a shard's policy, reservation of the next slot of its cycle under a
    caller-chosen identity, and the decoding and validation of stored rows.

    [Db] holds the two tables.  A transaction is a function from the state it
    observes to the state it commits.  The first lookup of a reservation runs
    before the shard row is locked, so it may read an older committed state:
    [reserve_tx] takes the state [observed] by that lookup besides the locked
    [current] one.  [Fault] is what the database may do to a call: fail it
    before the commit takes effect, or lose the acknowledgement after.

    SHA-256 and the [uuid] crate's accessors are parameters. *)

From Stdlib Require Import ZArith Lia List.
From stdpp Require Import prelude gmap.
From S2P Require Import Prelude Ordered Ids StoreErrors Time FairScheduler FairPolicy.

Open Scope Z_scope.
Import Timestamp(Timestamp).

Record ShardRow := mkShardRow {
  row_shard_id : bytes;
  row_policy_digest : bytes;
  row_policy_bytes : bytes;
  row_cycle_length : Z;
  next_slot : Z;
  next_sequence : Z;
  registered_at : Z;
  updated_at : Z
}.

Record ReservationRow := mkReservationRow {
  res_shard_id : bytes;
  res_id : Z;
  res_digest : bytes;
  res_sequence : Z;
  res_slot : Z;
  res_reserved_at : Z
}.

Record SchedulerFairnessReservation := mkReservation {
  shard_id : SchedulerShardId;
  reservation_id : Z;
  reserved_digest : Digest;
  sequence : Z;
  slot : Z;
  reserved_at : Timestamp
}.

Record StoredSchedulerFairnessPolicy := mkStored {
  stored_registration : SchedulerFairnessPolicyRegistration;
  stored_registered_at : Timestamp
}.

Inductive RegistrationOutcome :=
| Registered (policy : StoredSchedulerFairnessPolicy)
| Idempotent (policy : StoredSchedulerFairnessPolicy).

Record Db := mkDb {
  shards : gmap (list Z) ShardRow;
  reservations : gmap Z ReservationRow
}.

Inductive Fault :=
| NoFault
| Aborted (transient : bool)
| AckLost (transient : bool).

Definition try_u16 (v : Z) : option Z := if (0 <=? v) && (v <=? u16_max) then Some v else None.
Definition try_u64 (v : Z) : option Z := if 0 <=? v then Some v else None.

Definition SHA256_LEN : nat := 32.
Definition decode_digest (b : bytes) (record : bytes) : result StoreError Digest :=
  if (length b =? SHA256_LEN)%nat then Ok b else Err (Corrupt record).

Definition from_database_time (v : Z) : result StoreError Timestamp :=
  map_err (fun _ => Corrupt (bytes_of "timestamp")) (Timestamp.from_unix_micros v).

Section Store.
Variable sha256 : bytes -> Digest.
Variable is_rfc4122 : Z -> bool.
Variable version : Z -> option Z.

Definition decode_scheduler_fairness_policy (row : ShardRow) : result StoreError StoredSchedulerFairnessPolicy :=
  shard ← map_err (fun _ => Corrupt (bytes_of "scheduler fairness shard identity"))
            (Name.scheduler_shard_id_new (row_shard_id row));
  cycle_length ← ok_or (try_u16 (row_cycle_length row)) (Corrupt (bytes_of "scheduler fairness cycle length"));
  registration ← map_err (fun _ => Corrupt (bytes_of "scheduler fairness policy shape"))
                   (registration_new sha256 shard (row_policy_bytes row) cycle_length);
  digest ← decode_digest (row_policy_digest row) (bytes_of "scheduler fairness policy digest");
  if negb (bool_decide (policy_digest registration = digest))
  then Err (Corrupt (bytes_of "scheduler fairness policy checksum")) else
  slot ← ok_or (try_u16 (next_slot row)) (Corrupt (bytes_of "scheduler fairness cursor"));
  if (cycle_length <=? slot) || (next_sequence row <? 0)
  then Err (Corrupt (bytes_of "scheduler fairness cursor projection")) else
  registered ← from_database_time (registered_at row);
  updated ← from_database_time (updated_at row);
  if updated <? registered then Err (Corrupt (bytes_of "scheduler fairness clock projection")) else
  Ok (mkStored registration registered).

(** The row of the reservation joined with its shard's row. *)
Definition decode_scheduler_fairness_reservation (row : ReservationRow) (shard_row : ShardRow)
  : result StoreError SchedulerFairnessReservation :=
  shard ← map_err (fun _ => Corrupt (bytes_of "scheduler fairness reservation shard"))
            (Name.scheduler_shard_id_new (res_shard_id row));
  id ← map_err (fun _ => Corrupt (bytes_of "scheduler fairness reservation identity"))
         (GeneratedId.from_uuid is_rfc4122 version (res_id row));
  digest ← decode_digest (res_digest row) (bytes_of "scheduler fairness reservation policy digest");
  shard_digest ← decode_digest (row_policy_digest shard_row) (bytes_of "scheduler fairness shard policy digest");
  sequence ← ok_or (try_u64 (res_sequence row)) (Corrupt (bytes_of "scheduler fairness reservation sequence"));
  slot ← ok_or (try_u16 (res_slot row)) (Corrupt (bytes_of "scheduler fairness reservation slot"));
  cycle_length ← ok_or (try_u16 (row_cycle_length shard_row)) (Corrupt (bytes_of "scheduler fairness reservation cycle"));
  if (cycle_length =? 0) || (MAX_CYCLE_LENGTH <? cycle_length) || (cycle_length <=? slot)
     || negb (bool_decide (digest = shard_digest))
  then Err (Corrupt (bytes_of "scheduler fairness reservation policy projection")) else
  at_ ← from_database_time (res_reserved_at row);
  Ok (mkReservation shard id digest sequence slot at_).

Definition validate_scheduler_fairness_reservation (r : SchedulerFairnessReservation)
  (shard : SchedulerShardId) (digest : Digest) (id : Z) : result StoreError unit :=
  if negb (bool_decide (shard_id r = shard)) || negb (bool_decide (reserved_digest r = digest))
     || negb (reservation_id r =? id)
  then Err SchedulerFairnessReservationConflict else Ok tt.

(** The inner join of the reservation and its shard. *)
Definition load_row (db : Db) (id : Z) : option (ReservationRow * ShardRow) :=
  row ← reservations db !! id;
  shard_row ← shards db !! res_shard_id row;
  Some (row, shard_row).

Definition load_valid_scheduler_fairness_reservation (db : Db) (shard : SchedulerShardId) (digest : Digest) (id : Z)
  : result StoreError (option SchedulerFairnessReservation) :=
  match load_row db id with
  | None => Ok None
  | Some (row, shard_row) =>
      r ← decode_scheduler_fairness_reservation row shard_row;
      _ ← validate_scheduler_fairness_reservation r shard digest id;
      Ok (Some r)
  end.

(** The unique constraints of the reservation table. *)
Definition unique_violation (db : Db) (row : ReservationRow) : bool :=
  bool_decide (is_Some (reservations db !! res_id row)) ||
  negb (bool_decide (map_Forall (fun _ other => ~ (res_shard_id other = res_shard_id row /\ res_sequence other = res_sequence row))
                                (reservations db))).

Definition insert_scheduler_fairness_reservation (db : Db) (now : Timestamp) (shard : SchedulerShardId)
  (digest : Digest) (id : Z) (shard_row : ShardRow) : result StoreError (SchedulerFairnessReservation * Db) :=
  stored ← decode_scheduler_fairness_policy shard_row;
  if negb (bool_decide (policy_digest (stored_registration stored) = digest))
  then Err SchedulerFairnessPolicyConflict else
  sequence ← ok_or (try_u64 (next_sequence shard_row)) (Corrupt (bytes_of "scheduler fairness sequence"));
  if next_sequence shard_row =? i64_max then Err SchedulerFairnessSequenceExhausted else
  slot ← ok_or (try_u16 (next_slot shard_row)) (Corrupt (bytes_of "scheduler fairness cursor"));
  let cycle_length := registration_cycle_length (stored_registration stored) in
  if cycle_length <=? slot then Err (Corrupt (bytes_of "scheduler fairness cursor")) else
  let reservation := mkReservation shard id digest sequence slot now in
  let row := mkReservationRow shard id digest (next_sequence shard_row) (next_slot shard_row) now in
  if unique_violation db row then Err SchedulerFairnessReservationConflict else
  let advanced := if slot + 1 =? cycle_length then 0 else slot + 1 in
  (** [UPDATE .. WHERE shard_id AND policy_digest AND next_slot AND next_sequence]. *)
  match shards db !! shard with
  | Some current =>
      if bool_decide (row_policy_digest current = digest) && (next_slot current =? next_slot shard_row)
         && (next_sequence current =? next_sequence shard_row)
      then Ok (reservation,
               mkDb (<[shard := mkShardRow (row_shard_id current) (row_policy_digest current) (row_policy_bytes current)
                                 (row_cycle_length current) advanced (next_sequence current + 1) (registered_at current) now]>
                       (shards db))
                    (<[id := row]> (reservations db)))
      else Err SchedulerFairnessPolicyConflict
  | None => Err SchedulerFairnessPolicyConflict
  end.

Definition reserve_tx (observed current : Db) (now : Timestamp) (shard : SchedulerShardId) (digest : Digest) (id : Z)
  : result StoreError (SchedulerFairnessReservation * Db) :=
  found ← load_valid_scheduler_fairness_reservation observed shard digest id;
  match found with
  | Some r => Ok (r, current)
  | None =>
      shard_row ← ok_or (shards current !! shard) SchedulerFairnessPolicyNotFound;
      raced ← load_valid_scheduler_fairness_reservation current shard digest id;
      match raced with
      | Some r => Ok (r, current)
      | None => insert_scheduler_fairness_reservation current now shard digest id shard_row
      end
  end.

Definition register_tx (db : Db) (now : Timestamp) (reg : SchedulerFairnessPolicyRegistration)
  : result StoreError (RegistrationOutcome * Db) :=
  let key := registration_shard_id reg in
  let inserted := bool_decide (shards db !! key = None) in
  let db' := if inserted
             then mkDb (<[key := mkShardRow key (policy_digest reg) (policy_bytes reg)
                                   (registration_cycle_length reg) 0 0 now now]> (shards db)) (reservations db)
             else db in
  row ← ok_or (shards db' !! key) SchedulerFairnessPolicyConflict;
  stored ← decode_scheduler_fairness_policy row;
  if negb (bool_decide (stored_registration stored = reg)) then Err SchedulerFairnessPolicyConflict else
  Ok (if inserted then Registered stored else Idempotent stored, db').

(** The answer of one call and the committed state, under a fault. *)
Definition with_fault {A} (fault : Fault) (db : Db) (tx : result StoreError (A * Db)) : result StoreError A * Db :=
  match tx, fault with
  | Ok (a, db'), NoFault => (Ok a, db')
  | Ok (_, _), Aborted t => (Err (Database t), db)
  | Ok (_, db'), AckLost t => (Err (Database t), db')
  | Err e, NoFault => (Err e, db)
  | Err _, (Aborted t | AckLost t) => (Err (Database t), db)
  end.

Definition reserve_scheduler_fairness_slot (fault : Fault) (observed current : Db) (now : Timestamp)
  (shard : SchedulerShardId) (digest : Digest) (id : Z) : result StoreError SchedulerFairnessReservation * Db :=
  with_fault fault current (reserve_tx observed current now shard digest id).

Definition register_scheduler_fairness_policy (fault : Fault) (db : Db) (now : Timestamp)
  (reg : SchedulerFairnessPolicyRegistration) : result StoreError RegistrationOutcome * Db :=
  with_fault fault db (register_tx db now reg).
End Store.

(** Theorems on durable fairness reservations: the invariant of the two
    tables over every interleaving of registrations and reservations under
    faults, exactly-once reservation per identity, and, with the compiled
    policy, the end-to-end starvation bound on the recorded reservations. *)

Module Reservations.

Section Laws.
Context (sha256 : bytes -> Digest) (is_rfc4122 : Z -> bool) (version : Z -> option Z).

#[local] Abbreviation decode_policy := (decode_scheduler_fairness_policy sha256).
#[local] Abbreviation load := (load_valid_scheduler_fairness_reservation is_rfc4122 version).
#[local] Abbreviation insert_res := (insert_scheduler_fairness_reservation sha256).
#[local] Abbreviation reserve := (reserve_scheduler_fairness_slot sha256 is_rfc4122 version).
#[local] Abbreviation register := (register_scheduler_fairness_policy sha256).

(** ** What the decoders establish *)

Lemma try_u16_Some v w : try_u16 v = Some w <-> w = v /\ 0 <= v <= u16_max.
Proof.
  unfold try_u16. destruct (Z.leb_spec 0 v), (Z.leb_spec v u16_max); simpl; (split; [intros [= <-] || intros [=] | intros [-> ?]]); try lia; done.
Qed.

Lemma decode_policy_Ok row st :
  decode_policy row = Ok st ->
  stored_registration st = mkRegistration (row_shard_id row) (row_policy_digest row) (row_policy_bytes row) (row_cycle_length row) /\
  0 < row_cycle_length row <= MAX_CYCLE_LENGTH /\ 0 <= next_slot row < row_cycle_length row /\ 0 <= next_sequence row.
Proof.
  unfold decode_scheduler_fairness_policy. intros H. simp_ok. subst st. simpl.
  unfold Name.scheduler_shard_id_new in H. simp_ok. subst.
  apply try_u16_Some in H0 as [-> Hc], H3 as [-> Hs]. unfold decode_digest in H2.
  destruct (_ =? _)%nat eqn:El; [| done]. simp_ok. subst. unfold registration_new in H1. simp_ok. subst. simpl in *. bools.
  split_and!; try lia. f_equal. done.
Qed.

(** The value read from a reservation row. *)
Definition of_row (row : ReservationRow) : SchedulerFairnessReservation :=
  mkReservation (res_shard_id row) (res_id row) (res_digest row) (res_sequence row) (res_slot row) (res_reserved_at row).

Lemma decode_reservation_Ok row srow r :
  decode_scheduler_fairness_reservation is_rfc4122 version row srow = Ok r -> r = of_row row.
Proof.
  unfold decode_scheduler_fairness_reservation, Name.scheduler_shard_id_new, GeneratedId.from_uuid. intros H. simp_ok. subst.
  apply GeneratedId.validate_generated_uuid_Ok in H0 as [-> _]. apply try_u16_Some in H4 as [-> _].
  unfold decode_digest in H1. destruct (_ =? _)%nat; [| done]. simp_ok. subst.
  unfold try_u64 in H3. destruct (0 <=? _); [| done]. injection H3 as <-.
  unfold from_database_time in H6. apply map_err_Ok, Timestamp.from_unix_micros_iff in H6 as [-> _]. done.
Qed.

Lemma load_Some db shard digest id r :
  load db shard digest id = Ok (Some r) ->
  exists row, reservations db !! id = Some row /\ r = of_row row /\
    res_shard_id row = shard /\ res_digest row = digest /\ res_id row = id.
Proof.
  unfold load_valid_scheduler_fairness_reservation, load_row. intros H.
  destruct (reservations db !! id) as [row|] eqn:Er; simpl in H; [| done].
  destruct (shards db !! res_shard_id row) as [srow|]; simpl in H; [| done]. simp_ok. subst.
  apply decode_reservation_Ok in H as ->. unfold validate_scheduler_fairness_reservation in H0. simp_ok. bools. simpl in *. by exists row.
Qed.

Lemma load_None db shard digest id :
  load db shard digest id = Ok None -> reservations db !! id = None \/
  exists row, reservations db !! id = Some row /\ shards db !! res_shard_id row = None.
Proof.
  unfold load_valid_scheduler_fairness_reservation, load_row. intros H.
  destruct (reservations db !! id) as [row|] eqn:Er; simpl in H; [| by left]. right. exists row. split; [done |].
  destruct (shards db !! res_shard_id row) as [srow|]; simpl in H; [| done]. simp_ok. done.
Qed.

(** The state a new reservation commits. *)
Definition advanced (row : ShardRow) (now : Timestamp) : ShardRow :=
  mkShardRow (row_shard_id row) (row_policy_digest row) (row_policy_bytes row) (row_cycle_length row)
    (if next_slot row + 1 =? row_cycle_length row then 0 else next_slot row + 1) (next_sequence row + 1) (registered_at row) now.

Definition new_row (row : ShardRow) (now : Timestamp) (shard : SchedulerShardId) (id : Z) : ReservationRow :=
  mkReservationRow shard id (row_policy_digest row) (next_sequence row) (next_slot row) now.

Definition committed (db : Db) (row : ShardRow) (now : Timestamp) (shard : SchedulerShardId) (id : Z) : Db :=
  mkDb (<[shard := advanced row now]> (shards db)) (<[id := new_row row now shard id]> (reservations db)).

Lemma insert_Ok db now shard digest id row r db' :
  shards db !! shard = Some row -> insert_res db now shard digest id row = Ok (r, db') ->
  r = of_row (new_row row now shard id) /\ db' = committed db row now shard id /\ digest = row_policy_digest row /\
  reservations db !! id = None /\ 0 <= next_sequence row /\ next_sequence row <> i64_max /\
  0 <= next_slot row < row_cycle_length row /\
  (forall id' r', reservations db !! id' = Some r' -> res_shard_id r' = shard -> res_sequence r' <> next_sequence row).
Proof.
  intros Hrow. unfold insert_scheduler_fairness_reservation. rewrite Hrow. intros H. simp_ok.
  apply decode_policy_Ok in H as (Hst & Hc & Hs & Hq). rewrite Hst in *. simpl in *. bools.
  apply try_u16_Some in H1 as [-> _]. unfold try_u64 in H0. destruct (0 <=? _); [| done]. injection H0 as <-. subst digest.
  destruct (_ && _) in H2; [| done]. simp_ok. subst.
  unfold unique_violation in *. bools. simpl in *.
  assert (Hnone : reservations db !! id = None).
  { destruct (reservations db !! id) eqn:E; [| done]. exfalso. eauto. }
  split_and!; try done; try lia. intros id' r' Hr' Hs' Hq'.
  by apply (proj1 (map_Forall_lookup _ _) ltac:(eassumption) id' r' Hr').
Qed.

(** ** Every interleaving of calls *)

(** A state the first lookup may have read: no reservation disappears. *)
Definition older (observed current : Db) : Prop := reservations observed ⊆ reservations current.

Inductive step : Db -> Db -> Prop :=
| step_register fault now reg db : step db (register fault db now reg).2
| step_reserve fault observed now shard digest id db :
    older observed db -> step db (reserve fault observed db now shard digest id).2.

Definition empty_db : Db := mkDb ∅ ∅.

(** The committed effects of a call. *)
Inductive effect (db : Db) : Db -> Prop :=
| effect_none : effect db db
| effect_register now reg :
    shards db !! registration_shard_id reg = None ->
    0 < registration_cycle_length reg ->
    effect db (mkDb (<[registration_shard_id reg := mkShardRow (registration_shard_id reg) (policy_digest reg)
                        (policy_bytes reg) (registration_cycle_length reg) 0 0 now now]> (shards db)) (reservations db))
| effect_reserve now shard id row :
    shards db !! shard = Some row -> reservations db !! id = None ->
    0 <= next_sequence row -> next_sequence row <> i64_max -> 0 <= next_slot row < row_cycle_length row ->
    (forall id' r', reservations db !! id' = Some r' -> res_shard_id r' = shard -> res_sequence r' <> next_sequence row) ->
    effect db (committed db row now shard id).

Lemma reserve_tx_Ok observed db now shard digest id r db' :
  reserve_tx sha256 is_rfc4122 version observed db now shard digest id = Ok (r, db') ->
  (db' = db /\ (load observed shard digest id = Ok (Some r) \/ load db shard digest id = Ok (Some r))) \/
  exists row, shards db !! shard = Some row /\ load db shard digest id = Ok None /\
    insert_res db now shard digest id row = Ok (r, db').
Proof.
  unfold reserve_tx. intros H. apply bind_Ok in H as ([r0|] & H0 & H); [simp_ok; simplify_eq; auto |].
  apply bind_Ok in H as (row & Hrow & H). apply ok_or_Ok in Hrow. apply bind_Ok in H as ([r1|] & H1 & H); [simp_ok; simplify_eq; auto |].
  right. by exists row.
Qed.

Lemma register_tx_Ok db now reg out db' :
  register_tx sha256 db now reg = Ok (out, db') ->
  effect db db' /\ exists row, shards db' !! registration_shard_id reg = Some row /\
    reg = mkRegistration (row_shard_id row) (row_policy_digest row) (row_policy_bytes row) (row_cycle_length row).
Proof.
  unfold register_tx. intros H. apply bind_Ok in H as (row & Hrow & H). apply ok_or_Ok in Hrow.
  apply bind_Ok in H as (st & Hst & H). apply decode_policy_Ok in Hst as (Hst & Hc & _).
  case_bool_decide as E; simpl in H; [| done]. rewrite Hst in E. simp_ok. subst out db'.
  split; [| by exists row]. case_bool_decide as En; [| constructor].
  apply effect_register; [done |]. rewrite <- E. simpl. lia.
Qed.

Lemma step_effect db db' : step db db' -> effect db db'.
Proof.
  destruct 1 as [fault now reg db|fault observed now shard digest id db Ho].
  - unfold register_scheduler_fairness_policy, with_fault.
    destruct (register_tx sha256 db now reg) as [[out db']|e] eqn:E, fault; simpl; try constructor;
      by apply register_tx_Ok in E as [? _].
  - unfold reserve_scheduler_fairness_slot, with_fault.
    assert (Htx : forall r db', reserve_tx sha256 is_rfc4122 version observed db now shard digest id = Ok (r, db') -> effect db db').
    { intros r db' [[-> _] | (row & Hrow & _ & Hi)]%reserve_tx_Ok; [constructor |].
      apply insert_Ok in Hi as (_ & -> & _ & Hn & Hq & Hm & Hs & Hu); [| done]. by constructor. }
    destruct (reserve_tx _ _ _ _ _ _ _ _ _) as [[r db']|e], fault; simpl; try constructor; by eapply Htx.
Qed.

(** The invariant of the tables: cursors follow their sequence, every
    reservation records its place in the shard's sequence, and every
    sequence number below the cursor was handed out exactly once. *)
Record inv (db : Db) : Prop := {
  inv_shard : forall s row, shards db !! s = Some row ->
    row_shard_id row = s /\ 0 < row_cycle_length row /\ 0 <= next_sequence row /\
    next_slot row = next_sequence row mod row_cycle_length row;
  inv_reservation : forall id r, reservations db !! id = Some r ->
    res_id r = id /\ exists row, shards db !! res_shard_id r = Some row /\ res_digest r = row_policy_digest row /\
      0 <= res_sequence r < next_sequence row /\ res_slot r = res_sequence r mod row_cycle_length row;
  inv_complete : forall s row n, shards db !! s = Some row -> 0 <= n < next_sequence row ->
    exists id r, reservations db !! id = Some r /\ res_shard_id r = s /\ res_sequence r = n;
  inv_unique : forall id1 id2 r1 r2, reservations db !! id1 = Some r1 -> reservations db !! id2 = Some r2 ->
    res_shard_id r1 = res_shard_id r2 -> res_sequence r1 = res_sequence r2 -> id1 = id2
}.

Lemma inv_empty : inv empty_db.
Proof. constructor; unfold empty_db; simpl; intros *; rewrite lookup_empty; done. Qed.

Lemma mod_succ n c : 0 < c -> (if n mod c + 1 =? c then 0 else n mod c + 1) = (n + 1) mod c.
Proof.
  intros Hc. pose proof (Z.mod_pos_bound n c Hc) as Hm. rewrite <- (Z.add_mod_idemp_l n 1 c) by lia.
  generalize dependent (n mod c). intros m Hm. destruct (Z.eqb_spec (m + 1) c) as [->|E].
  - by rewrite Z.mod_same by lia.
  - by rewrite Z.mod_small by lia.
Qed.

Lemma register_inv db now reg :
  inv db -> shards db !! registration_shard_id reg = None -> 0 < registration_cycle_length reg ->
  inv (mkDb (<[registration_shard_id reg := mkShardRow (registration_shard_id reg) (policy_digest reg)
                        (policy_bytes reg) (registration_cycle_length reg) 0 0 now now]> (shards db)) (reservations db)).
Proof.
  intros [H1 H2 H3 H4] Hnone Hc. constructor; simpl.
  - intros s row [[<- <-] | [Hne Hs]]%lookup_insert_Some; [| by apply H1]. simpl. split_and!; try done.
  - intros id r Hr. destruct (H2 id r Hr) as (Hid & row & Hrow & Hrest). split; [done |]. exists row.
    rewrite lookup_insert_ne by (intros E; unfold SchedulerShardId in *; rewrite E, Hrow in Hnone; done). done.
  - intros s row n [[<- <-] | [Hne Hs]]%lookup_insert_Some Hn; [simpl in Hn; lia | by eapply H3].
  - done.
Qed.

Lemma reserve_inv db now shard id row :
  inv db -> shards db !! shard = Some row -> reservations db !! id = None -> 0 <= next_sequence row ->
  0 <= next_slot row < row_cycle_length row ->
  (forall id' r', reservations db !! id' = Some r' -> res_shard_id r' = shard -> res_sequence r' <> next_sequence row) ->
  inv (committed db row now shard id).
Proof.
  intros [H1 H2 H3 H4] Hrow Hid Hq Hslot Huniq. destruct (H1 shard row Hrow) as (Hname & Hc & _ & Hcur).
  constructor; unfold committed; simpl.
  - intros s row' [[<- <-] | [Hne Hs]]%lookup_insert_Some; [| by apply H1]. simpl.
    split_and!; [done | done | lia |]. rewrite Hcur. by apply mod_succ.
  - intros id' r [[<- <-] | [Hne Hr]]%lookup_insert_Some; simpl.
    + split; [done |]. exists (advanced row now). rewrite lookup_insert_eq. simpl. split_and!; try done; lia.
    + destruct (H2 id' r Hr) as (Hid' & row' & Hrow' & Hd & Hs & Hsl). split; [done |].
      destruct (decide (res_shard_id r = shard)) as [<-|Hns].
      * rewrite Hrow in Hrow'. injection Hrow' as <-. exists (advanced row now). rewrite lookup_insert_eq. simpl.
        split_and!; try done; lia.
      * exists row'. by rewrite lookup_insert_ne.
  - intros s row' n [[<- <-] | [Hne Hs]]%lookup_insert_Some Hn; simpl in Hn.
    + destruct (decide (n = next_sequence row)) as [->|Hlt].
      * exists id, (new_row row now shard id). by rewrite lookup_insert_eq.
      * destruct (H3 shard row n Hrow ltac:(lia)) as (id' & r & Hr & Hrest). exists id', r. split; [| done].
        rewrite lookup_insert_ne; [done | congruence].
    + destruct (H3 s row' n Hs Hn) as (id' & r & Hr & Hrest). exists id', r. split; [| done].
      rewrite lookup_insert_ne; [done | congruence].
  - intros id1 id2 r1 r2 [[<- <-] | [Hn1 Hr1]]%lookup_insert_Some [[<- <-] | [Hn2 Hr2]]%lookup_insert_Some Es Eq; simpl in *.
    + done.
    + by destruct (Huniq id2 r2 Hr2).
    + by destruct (Huniq id1 r1 Hr1).
    + by eapply H4.
Qed.

Lemma effect_inv db db' : inv db -> effect db db' -> inv db'.
Proof.
  intros Hi [ | now reg Hnone Hc | now shard id row Hrow Hid Hq Hmax Hslot Huniq].
  - done.
  - by apply register_inv.
  - by apply reserve_inv.
Qed.

Lemma steps_inv db db' : inv db -> rtc step db db' -> inv db'.
Proof. intros Hi. induction 1 as [|db db1 db2 H1 _ IH]; [done |]. eapply IH, effect_inv, step_effect; eauto. Qed.

(** ** What later calls preserve *)

Definition same_policy (row row' : ShardRow) : Prop :=
  row_shard_id row' = row_shard_id row /\ row_policy_digest row' = row_policy_digest row /\
  row_policy_bytes row' = row_policy_bytes row /\ row_cycle_length row' = row_cycle_length row /\
  next_sequence row <= next_sequence row'.

Lemma effect_stable db db' :
  effect db db' -> reservations db ⊆ reservations db' /\
  forall s row, shards db !! s = Some row -> exists row', shards db' !! s = Some row' /\ same_policy row row'.
Proof.
  assert (Hrefl : forall row, same_policy row row) by (intros row; unfold same_policy; split_and!; try done; lia).
  destruct 1 as [ | now reg Hnone Hc | now shard id row Hrow Hid Hq Hmax Hslot Huniq]; simpl.
  - split; [done |]. intros s row Hs. by exists row.
  - split; [done |]. intros s row Hs. exists row. split; [| done].
    rewrite lookup_insert_ne; [done |]. intros <-. unfold SchedulerShardId in *. congruence.
  - split; [by apply insert_subseteq |]. intros s row' Hs.
    destruct (decide (shard = s)) as [<-|Hne].
    + rewrite Hrow in Hs. injection Hs as <-. exists (advanced row now). rewrite lookup_insert_eq.
      split; [done |]. unfold same_policy. simpl. split_and!; try done; lia.
    + exists row'. by rewrite lookup_insert_ne.
Qed.

Lemma steps_stable db db' :
  rtc step db db' -> reservations db ⊆ reservations db' /\
  forall s row, shards db !! s = Some row -> exists row', shards db' !! s = Some row' /\ same_policy row row'.
Proof.
  induction 1 as [db|db db1 db2 H1 _ [IH1 IH2]].
  - split; [done |]. intros s row Hs. exists row. split; [done |]. unfold same_policy. split_and!; try done; lia.
  - destruct (effect_stable _ _ (step_effect _ _ H1)) as [E1 E2]. split; [by etrans |].
    intros s row Hs. destruct (E2 s row Hs) as (row1 & Hs1 & P1). destruct (IH2 s row1 Hs1) as (row2 & Hs2 & P2).
    exists row2. split; [done |]. unfold same_policy in *. destruct_and!. split_and!; try congruence; lia.
Qed.

(** A successful answer is a row of the committed table. *)
Lemma reserve_answer fault observed db now shard digest id r db' :
  older observed db -> reserve fault observed db now shard digest id = (Ok r, db') ->
  exists row, reservations db' !! id = Some row /\ r = of_row row /\ res_shard_id row = shard /\ res_digest row = digest /\
    (reservations db !! id = None \/ db' = db).
Proof.
  intros Ho. unfold reserve_scheduler_fairness_slot, with_fault.
  destruct (reserve_tx _ _ _ _ _ _ _ _ _) as [[r0 db0]|e] eqn:E, fault; try done. intros [= -> ->].
  apply reserve_tx_Ok in E as [[-> [H|H]] | (row & Hrow & Hl & Hi)].
  - apply load_Some in H as (row & Hr & -> & Hs & Hd & _). exists row. split_and!; try done; [| by right].
    by apply (lookup_weaken _ _ _ _ Hr).
  - apply load_Some in H as (row & Hr & -> & Hs & Hd & _). exists row. split_and!; try done. by right.
  - apply insert_Ok in Hi as (-> & -> & -> & Hn & _); [| done]. exists (new_row row now shard id).
    unfold committed. simpl. rewrite lookup_insert_eq. split_and!; try done. by left.
Qed.

(** Slots are handed out exactly once.  Over every interleaving of
    registrations and reservations by any number of replicas, with calls
    that fail before commit and calls whose acknowledgement is lost: each
    shard's cursor equals its sequence modulo the cycle length, each
    reservation records a slot equal to its sequence modulo the cycle
    length, and the sequence numbers below the cursor are each recorded by
    exactly one reservation. *)
Theorem reservations_exactly_once (db : Db) (Hreach : rtc step empty_db db) :
  (forall s row, shards db !! s = Some row -> next_slot row = next_sequence row mod row_cycle_length row) /\
  (forall s row n, shards db !! s = Some row -> 0 <= n < next_sequence row ->
     exists id, (exists r, reservations db !! id = Some r /\ res_shard_id r = s /\ res_sequence r = n /\
                   res_slot r = n mod row_cycle_length row) /\
       forall id' r', reservations db !! id' = Some r' -> res_shard_id r' = s -> res_sequence r' = n -> id' = id) /\
  (forall id r, reservations db !! id = Some r ->
     exists row, shards db !! res_shard_id r = Some row /\ 0 <= res_sequence r < next_sequence row).
Proof.
  destruct (steps_inv _ _ inv_empty Hreach) as [H1 H2 H3 H4]. split_and!.
  - intros s row Hs. by destruct (H1 s row Hs) as (_ & _ & _ & ?).
  - intros s row n Hs Hn. destruct (H3 s row n Hs Hn) as (id & r & Hr & <- & <-). exists id. split.
    + exists r. split_and!; try done. destruct (H2 id r Hr) as (_ & row' & Hrow' & _ & _ & ->).
      by rewrite Hs in Hrow'; injection Hrow' as <-.
    + intros id' r' Hr' Es Eq. by eapply H4.
  - intros id r Hr. destruct (H2 id r Hr) as (_ & row & Hrow & _ & Hs & _). by exists row.
Qed.

(** Retrying with the same identity is idempotent.  After a reservation
    was answered, any later call with the same identity, at any time, after
    any other calls and under any fault, either fails or returns the same
    reservation, and never moves a cursor. *)
Theorem reservation_retry_idempotent (db1 db2 db3 db4 o1 o2 : Db) (f1 f2 : Fault) (now1 now2 : Timestamp)
  (shard shard2 : SchedulerShardId) (digest digest2 : Digest) (id : Z)
  (r1 : SchedulerFairnessReservation) (a2 : result StoreError SchedulerFairnessReservation)
  (Hreach : rtc step empty_db db1) (Ho1 : older o1 db1) (Ho2 : older o2 db3)
  (H1 : reserve f1 o1 db1 now1 shard digest id = (Ok r1, db2)) (Hlater : rtc step db2 db3)
  (H2 : reserve f2 o2 db3 now2 shard2 digest2 id = (a2, db4)) :
  db4 = db3 /\ (forall r2, a2 = Ok r2 -> r2 = r1).
Proof.
  destruct (reserve_answer _ _ _ _ _ _ _ _ _ Ho1 H1) as (row & Hr & -> & _).
  destruct (steps_stable _ _ Hlater) as [Hsub _].
  assert (Hr3 : reservations db3 !! id = Some row) by (by eapply lookup_weaken).
  split.
  - revert H2. unfold reserve_scheduler_fairness_slot, with_fault.
    assert (Htx : forall r db', reserve_tx sha256 is_rfc4122 version o2 db3 now2 shard2 digest2 id = Ok (r, db') -> db' = db3).
    { intros r db' [[-> _] | (srow & Hs & _ & Hi)]%reserve_tx_Ok; [done |].
      apply insert_Ok in Hi as (_ & _ & _ & Hn & _); [congruence | done]. }
    destruct (reserve_tx _ _ _ _ _ _ _ _ _) as [[r db']|e], f2; intros [= <- <-]; try done; by eapply Htx.
  - intros r2 ->. destruct (reserve_answer _ _ _ _ _ _ _ _ _ Ho2 H2) as (row2 & Hr2 & -> & _ & _ & [Hn | ->]); congruence.
Qed.

Lemma register_answer fault db now reg out db' :
  register fault db now reg = (Ok out, db') ->
  exists row, shards db' !! registration_shard_id reg = Some row /\
    reg = mkRegistration (row_shard_id row) (row_policy_digest row) (row_policy_bytes row) (row_cycle_length row).
Proof.
  unfold register_scheduler_fairness_policy, with_fault.
  destruct (register_tx sha256 db now reg) as [[out0 db0]|e] eqn:E, fault; try done. intros [= -> ->].
  by apply register_tx_Ok in E as [_ ?].
Qed.

End Laws.

(** ** A concrete run of one shard *)

Definition sample_sha256 (b : bytes) : Digest := replicate 31 0 ++ [Smooth.sum b mod 256].
Definition every_uuid (_ : Z) : bool := true.
Definition version_seven (_ : Z) : option Z := Some 7.
Definition sample_now : Timestamp := 1700000000000000.

Definition sample_pol : WeightedFairnessPolicy :=
  match policy_new Policy.sample_encoder sample_sha256 (bytes_of "prod") Policy.sample_input with
  | Some (Ok p) => p
  | _ => mkPolicy [] [] [] [] [] (mkRegistration [] [] [] 0)
  end.

Abbreviation sample_step := (step sample_sha256 every_uuid version_seven).
Abbreviation sample_reserve := (reserve_scheduler_fairness_slot sample_sha256 every_uuid version_seven).
Definition sample_register (fault : Fault) (db : Db) :=
  register_scheduler_fairness_policy sample_sha256 fault db sample_now (registration sample_pol).
Definition sample_call (fault : Fault) (db : Db) (id : Z) :=
  sample_reserve fault db db sample_now (bytes_of "prod") (policy_digest (registration sample_pol)) id.

(** Registered; then three reservations, the second losing its answer. *)
Definition db_registered : Db := (sample_register NoFault empty_db).2.
Definition db_one : Db := (sample_call NoFault db_registered 101).2.
Definition db_two : Db := (sample_call (AckLost true) db_one 102).2.
Definition db_three : Db := (sample_call NoFault db_two 103).2.

Lemma older_refl db : older db db.
Proof. unfold older. done. Qed.

Lemma steps_registered : rtc sample_step empty_db db_registered.
Proof. apply rtc_once, step_register. Qed.

Lemma sample_call_step fault db id : sample_step db (sample_call fault db id).2.
Proof. apply step_reserve, older_refl. Qed.

Lemma steps_after_one : rtc sample_step db_one db_three.
Proof.
  eapply rtc_l; [exact (sample_call_step (AckLost true) db_one 102) |].
  apply rtc_once. exact (sample_call_step NoFault db_two 103).
Qed.

Lemma steps_three : rtc sample_step db_registered db_three.
Proof. eapply rtc_l; [exact (sample_call_step NoFault db_registered 101) | exact steps_after_one]. Qed.

Lemma reservations_exactly_once_witness :
  rtc sample_step empty_db db_three /\
  (exists row, shards db_three !! bytes_of "prod" = Some row /\ next_sequence row = 3 /\
     next_slot row = next_sequence row mod row_cycle_length row).
Proof.
  assert (H : rtc sample_step empty_db db_three) by (etrans; [apply steps_registered | apply steps_three]).
  split; [exact H |]. destruct (reservations_exactly_once _ _ _ db_three H) as (Hcur & _).
  destruct (shards db_three !! bytes_of "prod") as [row|] eqn:E; [| vm_compute in E; discriminate E].
  exists row. split; [reflexivity |]. split; [| by apply (Hcur (bytes_of "prod"))].
  vm_compute in E. injection E as <-. reflexivity.
Defined.

Lemma reservation_retry_idempotent_witness :
  (sample_call NoFault db_three 101).2 = db_three.
Proof.
  destruct (sample_call NoFault db_registered 101) as [[r|e] db] eqn:E; [| vm_compute in E; discriminate E].
  assert (Hdb : db = db_one) by (unfold db_one; by rewrite E).
  destruct (reservation_retry_idempotent sample_sha256 every_uuid version_seven db_registered db db_three
              (sample_call NoFault db_three 101).2 db_registered db_three NoFault NoFault sample_now sample_now
              (bytes_of "prod") (bytes_of "prod") (policy_digest (registration sample_pol))
              (policy_digest (registration sample_pol)) 101 r (sample_call NoFault db_three 101).1) as [H _].
  - apply steps_registered.
  - apply older_refl.
  - apply older_refl.
  - exact E.
  - rewrite Hdb. apply steps_after_one.
  - unfold sample_call. by destruct (sample_reserve _ _ _ _ _ _ _).
  - exact H.
Defined.


End Reservations.
