(* ===== verification/Scheduler.v ===== *)
(** The scheduler loops of crates/stateknot-runtime/src: the tick of one
    tenant's worker (tenant_scheduler.rs) with its page scan and its claim
    retries, and the tick of the fair scheduler above it (fair_scheduler.rs)
    with its reservation retries.

    The database, the agent loop, the cancellation signal and the identifier
    generator are the type class [Env]: each operation may answer anything and
    move the world to any state.  A loop records what it asks of the world in
    a log of events, so the theorems bound the calls themselves.  Loops take
    fuel; the theorems show the fuel derived from the options is enough.  A
    [Duration] is its number of nanoseconds. *)

From Stdlib Require Import ZArith Lia List.
From stdpp Require Import prelude gmap.
From S2P Require Import Prelude Ordered StoreErrors Time FairScheduler FairPolicy FairStore.

Open Scope Z_scope.

(** * Retry delays *)

Definition NANOS_PER_SEC : Z := 1000000000.
Definition DURATION_MAX : Z := u64_max * NANOS_PER_SEC + 999999999.
Definition MAX_CLAIM_RETRY_DELAY : Z := NANOS_PER_SEC.
Definition MAX_RESERVATION_RETRY_DELAY : Z := NANOS_PER_SEC.

(** [1_u32.checked_shl(shift).unwrap_or(u32::MAX)]. *)
Definition shl_or_max (shift : Z) : Z := if shift <? 32 then Z.shiftl 1 shift mod (u32_max + 1) else u32_max.

(** [Duration::checked_mul]. *)
Definition duration_checked_mul (d multiplier : Z) : option Z := checked_mul DURATION_MAX d multiplier.

Definition exponential_backoff (initial attempt : Z) : Z :=
  Z.min (default MAX_RESERVATION_RETRY_DELAY (duration_checked_mul initial (shl_or_max (saturating_sub attempt 1))))
        MAX_RESERVATION_RETRY_DELAY.

Definition claim_delay (initial attempt : Z) : Z :=
  Z.min (default MAX_CLAIM_RETRY_DELAY (duration_checked_mul initial (shl_or_max (saturating_sub attempt 1))))
        MAX_CLAIM_RETRY_DELAY.

(** * Options *)

Record DurableTenantSchedulerOptions := mkTenantOptions {
  page_size : Z;
  maximum_pages_per_tick : Z;
  maximum_claim_attempts : Z;
  claim_retry_initial_delay : Z
}.

Definition HARD_MAXIMUM_PAGES_PER_TICK : Z := 64.
Definition HARD_MAXIMUM_CLAIM_ATTEMPTS : Z := 10.

Inductive DurableTenantSchedulerOptionsError := InvalidPageCount | InvalidClaimAttempts | InvalidClaimRetryDelay.

Definition tenant_options_new (size pages attempts delay : Z)
  : result DurableTenantSchedulerOptionsError DurableTenantSchedulerOptions :=
  if (pages =? 0) || (HARD_MAXIMUM_PAGES_PER_TICK <? pages) then Err InvalidPageCount else
  if (attempts =? 0) || (HARD_MAXIMUM_CLAIM_ATTEMPTS <? attempts) then Err InvalidClaimAttempts else
  if (delay =? 0) || (MAX_CLAIM_RETRY_DELAY <? delay) then Err InvalidClaimRetryDelay else
  Ok (mkTenantOptions size pages attempts delay).

Record DurableFairSchedulerOptions := mkFairOptions {
  maximum_reservation_attempts : Z;
  reservation_retry_initial_delay : Z
}.

Definition HARD_MAXIMUM_RESERVATION_ATTEMPTS : Z := 10.

Inductive DurableFairSchedulerOptionsError := InvalidReservationAttempts | InvalidReservationRetryDelay.

Definition fair_options_new (attempts delay : Z) : result DurableFairSchedulerOptionsError DurableFairSchedulerOptions :=
  if (attempts =? 0) || (HARD_MAXIMUM_RESERVATION_ATTEMPTS <? attempts) then Err InvalidReservationAttempts else
  if (delay =? 0) || (MAX_RESERVATION_RETRY_DELAY <? delay) then Err InvalidReservationRetryDelay else
  Ok (mkFairOptions attempts delay).

(** * The world *)

Record Page (Cursor : Type) := mkPage {
  records : list Z;
  has_more : bool;
  next_cursor : option Cursor
}.
Arguments mkPage {Cursor} records has_more next_cursor.
Arguments records {Cursor} p.
Arguments has_more {Cursor} p.
Arguments next_cursor {Cursor} p.

(** What the store, the agent loop, the signal and the generator answer. *)
Class Env (W Cursor Lease Fence Outcome Failure : Type) := {
  is_cancelled : W -> bool * W;
  generate : W -> Z * W;
  load_runnable_run_page : bytes -> option Cursor -> Z -> W -> result StoreError (Page Cursor) * W;
  claim_lease : bytes -> Z -> Z -> W -> result StoreError Lease * W;
  lease_fence : Lease -> Fence;
  agent_loop_run : Fence -> W -> result Failure Outcome * W;
  reserve_slot : bytes -> Digest -> Z -> W -> result StoreError SchedulerFairnessReservation * W
}.

(** What a tick asked of the world, oldest first. *)
Inductive Event (Fence : Type) :=
| EPage (size : Z)
| EClaim (run attempt_id : Z) (claimed : bool)
| ESleep (delay : Z)
| ERun (fence : Fence)
| EReserve (reservation_id : Z).
Arguments EPage {Fence} size.
Arguments EClaim {Fence} run attempt_id claimed.
Arguments ESleep {Fence} delay.
Arguments ERun {Fence} fence.
Arguments EReserve {Fence} reservation_id.

Record TenantSchedulerReport := mkReport {
  pages_scanned : Z;
  candidates_scanned : Z;
  contention_skips : Z;
  claim_retries : Z
}.
Definition report_default : TenantSchedulerReport := mkReport 0 0 0 0.

Inductive TenantSchedulerOutcome (Outcome Failure : Type) :=
| Executed (run : Z) (out : Outcome)
| ExecutionFailed (run : Z) (error : Failure)
| Idle
| ScanLimitReached
| Cancelled.
Arguments Executed {Outcome Failure} run out.
Arguments ExecutionFailed {Outcome Failure} run error.
Arguments Idle {Outcome Failure}.
Arguments ScanLimitReached {Outcome Failure}.
Arguments Cancelled {Outcome Failure}.

Inductive TenantSchedulerError :=
| Store (source : StoreError)
| RuntimeInvariant.

Section Tick.
Context `{E : Env W Cursor Lease Fence Outcome Failure}.
Variable opts : DurableTenantSchedulerOptions.
Variable tenant : bytes.

#[local] Abbreviation Log := (list (Event Fence)).

Definition add_contention (r : TenantSchedulerReport) : TenantSchedulerReport :=
  mkReport (pages_scanned r) (candidates_scanned r) (saturating_add u16_max (contention_skips r) 1) (claim_retries r).
Definition add_retry (r : TenantSchedulerReport) : TenantSchedulerReport :=
  mkReport (pages_scanned r) (candidates_scanned r) (contention_skips r) (saturating_add u16_max (claim_retries r) 1).
Definition add_candidate (r : TenantSchedulerReport) : TenantSchedulerReport :=
  mkReport (pages_scanned r) (saturating_add u16_max (candidates_scanned r) 1) (contention_skips r) (claim_retries r).
Definition add_page (r : TenantSchedulerReport) : TenantSchedulerReport :=
  mkReport (saturating_add u8_max (pages_scanned r) 1) (candidates_scanned r) (contention_skips r) (claim_retries r).

(** [None] is running out of fuel. *)
Fixpoint claim_with_retry (fuel : nat) (run attempt_id attempt : Z) (report : TenantSchedulerReport) (w : W) (log : Log)
  : option (result TenantSchedulerError (option Lease) * TenantSchedulerReport * W * Log) :=
  match fuel with
  | O => None
  | S fuel' =>
      let '(answer, w1) := claim_lease tenant run attempt_id w in
      let log1 := log ++ [EClaim run attempt_id (is_ok answer)] in
      match answer with
      | Ok lease => Some (Ok (Some lease), report, w1, log1)
      | Err error =>
          if claim_contention error then Some (Ok None, add_contention report, w1, log1) else
          if (attempt <? maximum_claim_attempts opts) && is_retryable error then
            claim_with_retry fuel' run attempt_id (saturating_add u8_max attempt 1) (add_retry report) w1
              (log1 ++ [ESleep (claim_delay (claim_retry_initial_delay opts) attempt)])
          else Some (Err (Store error), report, w1, log1)
      end
  end.

Definition Answer : Type := result TenantSchedulerError (TenantSchedulerOutcome Outcome Failure * TenantSchedulerReport).

(** The candidates of one page: [inl] when the tick ends, [inr] when the
    page is exhausted. *)
Fixpoint scan_candidates (fuel : nat) (candidates : list Z) (report : TenantSchedulerReport) (w : W) (log : Log)
  : option ((Answer + TenantSchedulerReport) * W * Log) :=
  match candidates with
  | [] => Some (inr report, w, log)
  | run :: rest =>
      let '(cancelled, w1) := is_cancelled w in
      if cancelled then Some (inl (Ok (Cancelled, report)), w1, log) else
      let report1 := add_candidate report in
      let '(attempt_id, w2) := generate w1 in
      match claim_with_retry fuel run attempt_id 1 report1 w2 log with
      | None => None
      | Some (Err e, report2, w3, log3) => Some (inl (Err e), w3, log3)
      | Some (Ok None, report2, w3, log3) => scan_candidates fuel rest report2 w3 log3
      | Some (Ok (Some lease), report2, w3, log3) =>
          let '(out, w4) := agent_loop_run (lease_fence lease) w3 in
          let outcome := match out with Ok res => Executed run res | Err error => ExecutionFailed run error end in
          Some (inl (Ok (outcome, report2)), w4, log3 ++ [ERun (lease_fence lease)])
      end
  end.

Fixpoint page_loop (fuel claim_fuel : nat) (cursor : option Cursor) (report : TenantSchedulerReport) (w : W) (log : Log)
  : option (Answer * W * Log) :=
  match fuel with
  | O => None
  | S fuel' =>
      let '(cancelled, w1) := is_cancelled w in
      if cancelled then Some (Ok (Cancelled, report), w1, log) else
      let '(answer, w2) := load_runnable_run_page tenant cursor (page_size opts) w1 in
      let log2 := log ++ [EPage (page_size opts)] in
      match answer with
      | Err e => Some (Err (Store e), w2, log2)
      | Ok page =>
          match scan_candidates claim_fuel (records page) (add_page report) w2 log2 with
          | None => None
          | Some (inl answer, w3, log3) => Some (answer, w3, log3)
          | Some (inr report3, w3, log3) =>
              if negb (has_more page) then Some (Ok (Idle, report3), w3, log3) else
              if pages_scanned report3 =? maximum_pages_per_tick opts then Some (Ok (ScanLimitReached, report3), w3, log3) else
              match next_cursor page with
              | None => Some (Err RuntimeInvariant, w3, log3)
              | Some c => page_loop fuel' claim_fuel (Some c) report3 w3 log3
              end
          end
      end
  end.

Definition tick_inner (w : W) : option (Answer * W * Log) :=
  page_loop (Z.to_nat (maximum_pages_per_tick opts)) (Z.to_nat (maximum_claim_attempts opts)) None report_default w [].

(** ** The fair scheduler above the tenant's worker *)

Inductive FairSchedulerError :=
| FairStore (source : StoreError)
| Tenant (source : TenantSchedulerError)
| PolicyProjectionMismatch.

Record FairSchedulerTick := mkFairTick {
  reservation : SchedulerFairnessReservation;
  tick_tenant_id : TenantId;
  tick_starvation_bound : Z;
  reservation_retries : Z;
  tenant_tick : TenantSchedulerOutcome Outcome Failure * TenantSchedulerReport
}.

Variable fair_opts : DurableFairSchedulerOptions.
Variable policy : WeightedFairnessPolicy.

(** The retry loop around the reservation: one identity for all attempts. *)
Fixpoint reserve_loop (fuel : nat) (id attempt : Z) (w : W) (log : Log)
  : option (result FairSchedulerError (SchedulerFairnessReservation * Z) * W * Log) :=
  match fuel with
  | O => None
  | S fuel' =>
      let '(answer, w1) := reserve_slot (FairPolicy.shard_id policy) (policy_digest (registration policy)) id w in
      let log1 := log ++ [EReserve id] in
      match answer with
      | Ok r => Some (Ok (r, attempt - 1), w1, log1)
      | Err error =>
          if (attempt <? maximum_reservation_attempts fair_opts) && is_retryable error then
            reserve_loop fuel' id (saturating_add u8_max attempt 1) w1
              (log1 ++ [ESleep (exponential_backoff (reservation_retry_initial_delay fair_opts) attempt)])
          else Some (Err (FairStore error), w1, log1)
      end
  end.
End Tick.

Section FairTick.
Context `{E : Env W Cursor Lease Fence Outcome Failure}.
Variable opts : DurableTenantSchedulerOptions.
Variable fair_opts : DurableFairSchedulerOptions.
Variable policy : WeightedFairnessPolicy.

Definition fair_tick_inner (w : W)
  : option (result FairSchedulerError (FairSchedulerTick (Outcome := Outcome) (Failure := Failure)) * W * list (Event Fence)) :=
  let '(id, w0) := generate w in
  match reserve_loop fair_opts policy (Z.to_nat (maximum_reservation_attempts fair_opts)) id 1 w0 [] with
  | None => None
  | Some (Err e, w1, log1) => Some (Err e, w1, log1)
  | Some (Ok (r, retries), w1, log1) =>
      match tenant_for_slot policy (Z.to_nat (slot r)) with
      | None => Some (Err PolicyProjectionMismatch, w1, log1)
      | Some tenant =>
          match starvation_bound policy tenant with
          | None => Some (Err PolicyProjectionMismatch, w1, log1)
          | Some bound =>
              match tick_inner opts tenant w1 with
              | None => None
              | Some (Err e, w2, log2) => Some (Err (Tenant e), w2, log1 ++ log2)
              | Some (Ok tick, w2, log2) => Some (Ok (mkFairTick r tenant bound retries tick), w2, log1 ++ log2)
              end
          end
      end
  end.
End FairTick.

(** Theorems on the scheduler loops, for every behaviour of the world: ticks
    return, the number of pages, claims and reservations is bounded by the
    options, delays follow the capped exponential, at most one run is claimed
    and executed, and the outcome says which. *)

Module Ticks.

(** ** Delays *)

Lemma shl_or_max_spec k : 0 <= k -> shl_or_max k = Z.min (2 ^ k) u32_max \/ (k < 32 /\ shl_or_max k = 2 ^ k).
Proof.
  intros Hk. unfold shl_or_max, u32_max. destruct (Z.ltb_spec k 32); [right | left].
  - split; [done |]. rewrite Z.shiftl_1_l. apply Z.mod_small. split; [apply Z.pow_nonneg; lia |].
    change (4294967295 + 1) with (2 ^ 32). apply Z.pow_lt_mono_r; lia.
  - assert (2 ^ 32 <= 2 ^ k) by (apply Z.pow_le_mono_r; lia). lia.
Qed.

(** The delay before attempt [a + 1] is the initial delay doubled [a - 1]
    times, capped at one second. *)
Lemma backoff_exact initial attempt :
  0 < initial <= NANOS_PER_SEC -> 1 <= attempt <= u8_max ->
  exponential_backoff initial attempt = Z.min (initial * 2 ^ (attempt - 1)) NANOS_PER_SEC /\
  claim_delay initial attempt = exponential_backoff initial attempt.
Proof.
  intros Hi Ha. unfold exponential_backoff, claim_delay, saturating_sub, duration_checked_mul, checked_mul, u8_max in *.
  split; [| done]. unfold MAX_RESERVATION_RETRY_DELAY. rewrite Z.max_r by lia.
  assert (Hp : 0 < 2 ^ (attempt - 1)) by (apply Z.pow_pos_nonneg; lia).
  destruct (shl_or_max_spec (attempt - 1) ltac:(lia)) as [-> | [Hlt ->]];
    unfold u32_max, DURATION_MAX, u64_max, NANOS_PER_SEC in *.
  - destruct (Z.leb_spec (initial * Z.min (2 ^ (attempt - 1)) 4294967295) (18446744073709551615 * 1000000000 + 999999999)); simpl; nia.
  - destruct (Z.leb_spec (initial * 2 ^ (attempt - 1)) (18446744073709551615 * 1000000000 + 999999999)); simpl; [done | lia].
Qed.

(** ** Reading a log *)

Section Log.
Context {Fence : Type}.
Implicit Types log : list (Event Fence).

Definition pages log : nat := length (List.filter (fun e => match e with EPage _ => true | _ => false end) log).
Definition claims log : nat := length (List.filter (fun e => match e with EClaim _ _ _ => true | _ => false end) log).
Definition reserves log : nat := length (List.filter (fun e => match e with EReserve _ => true | _ => false end) log).
Definition claimed log : list Z := omap (fun e => match e with EClaim run _ true => Some run | _ => None end) log.
Definition fences log : list Fence := omap (fun e => match e with ERun f => Some f | _ => None end) log.

(** Every sleep is a positive delay of at most a second. *)
Definition sleeps_ok log : Prop :=
  Forall (fun e => match e with ESleep d => 0 < d <= NANOS_PER_SEC | _ => True end) log.

Lemma pages_app l1 l2 : pages (l1 ++ l2) = (pages l1 + pages l2)%nat.
Proof. unfold pages. by rewrite List.filter_app, length_app. Qed.
Lemma claims_app l1 l2 : claims (l1 ++ l2) = (claims l1 + claims l2)%nat.
Proof. unfold claims. by rewrite List.filter_app, length_app. Qed.
Lemma reserves_app l1 l2 : reserves (l1 ++ l2) = (reserves l1 + reserves l2)%nat.
Proof. unfold reserves. by rewrite List.filter_app, length_app. Qed.
Lemma claimed_app l1 l2 : claimed (l1 ++ l2) = claimed l1 ++ claimed l2.
Proof. apply omap_app. Qed.
Lemma fences_app l1 l2 : fences (l1 ++ l2) = fences l1 ++ fences l2.
Proof. apply omap_app. Qed.
Lemma sleeps_ok_app l1 l2 : sleeps_ok (l1 ++ l2) <-> sleeps_ok l1 /\ sleeps_ok l2.
Proof. apply Forall_app. Qed.
End Log.

Section Laws.
Context `{E : Env W Cursor Lease Fence Outcome Failure}.
Context (opts : DurableTenantSchedulerOptions) (fair_opts : DurableFairSchedulerOptions).

(** Options as their constructors build them. *)
Definition options_ok : Prop :=
  1 <= maximum_pages_per_tick opts <= HARD_MAXIMUM_PAGES_PER_TICK /\
  1 <= maximum_claim_attempts opts <= HARD_MAXIMUM_CLAIM_ATTEMPTS /\
  0 < claim_retry_initial_delay opts <= MAX_CLAIM_RETRY_DELAY.

Definition fair_options_ok : Prop :=
  1 <= maximum_reservation_attempts fair_opts <= HARD_MAXIMUM_RESERVATION_ATTEMPTS /\
  0 < reservation_retry_initial_delay fair_opts <= MAX_RESERVATION_RETRY_DELAY.

(** What a claim loop adds to the log. *)
Record claim_spec (run attempt_id : Z) (room : Z) (res : result TenantSchedulerError (option Lease)) (new : list (Event Fence)) : Prop := {
  claim_sleeps : sleeps_ok new;
  claim_pages : pages new = 0%nat /\ reserves new = 0%nat;
  claim_fences : fences new = [];
  claim_claims : (1 <= claims new)%nat /\ Z.of_nat (claims new) <= room;
  claim_claimed : claimed new = match res with Ok (Some _) => [run] | _ => [] end;
  claim_identity : Forall (fun e => match e with EClaim r i _ => r = run /\ i = attempt_id | _ => True end) new
}.

Lemma claim_spec_single run id room res :
  1 <= room ->
  claim_spec run id room res [EClaim run id (match res with Ok (Some _) => true | _ => false end)].
Proof.
  intros Hr. constructor; [by repeat constructor | done | done | unfold claims; simpl; lia | | by repeat constructor].
  by destruct res as [[l|]|].
Qed.

Lemma claim_loop_spec tenant fuel run id attempt report w log :
  options_ok -> 1 <= attempt <= maximum_claim_attempts opts ->
  maximum_claim_attempts opts - attempt < Z.of_nat fuel ->
  exists res report' w' new,
    claim_with_retry opts tenant fuel run id attempt report w log = Some (res, report', w', log ++ new) /\
    claim_spec run id (maximum_claim_attempts opts - attempt + 1) res new /\
    pages_scanned report' = pages_scanned report.
Proof.
  intros Hok. revert attempt report w log. induction fuel as [|fuel IH]; intros attempt report w log Ha Hf; [lia |].
  simpl. destruct (claim_lease tenant run id w) as [[lease|error] w1]; simpl.
  { exists (Ok (Some lease)), report, w1, [EClaim run id true]. split; [done |]. split; [| done].
    apply (claim_spec_single run id _ (Ok (Some lease))). lia. }
  destruct (claim_contention error).
  { exists (Ok None), (add_contention report), w1, [EClaim run id false]. split; [done |]. split; [| done].
    apply (claim_spec_single run id _ (Ok None)). lia. }
  destruct (Z.ltb_spec attempt (maximum_claim_attempts opts)) as [Hlt|Hge]; [destruct (is_retryable error) |]; simpl.
  2, 3: exists (Err (Store error)), report, w1, [EClaim run id false]; split; [done |]; split; [| done];
    apply (claim_spec_single run id _ (Err (Store error))); lia.
  destruct Hok as (Hp & Hc & Hd). unfold HARD_MAXIMUM_CLAIM_ATTEMPTS, MAX_CLAIM_RETRY_DELAY in *.
  assert (saturating_add u8_max attempt 1 = attempt + 1) as -> by (unfold saturating_add, u8_max; lia).
  destruct (IH (attempt + 1) (add_retry report) w1
              ((log ++ [EClaim run id false]) ++ [ESleep (claim_delay (claim_retry_initial_delay opts) attempt)]))
    as (res & report' & w' & new & Hrun & Hspec & Hrep); [lia | lia |].
  exists res, report', w', (EClaim run id false :: ESleep (claim_delay (claim_retry_initial_delay opts) attempt) :: new).
  split; [rewrite Hrun; by rewrite <- !app_assoc |]. split; [| done].
  destruct Hspec as [H1 H2 H3 [H4 H4'] H5 H6]. constructor; try done.
  - constructor; [done |]. constructor; [| done].
    destruct (backoff_exact (claim_retry_initial_delay opts) attempt) as [Hb ->]; [done | unfold u8_max; lia |]. rewrite Hb.
    assert (0 < 2 ^ (attempt - 1)) by (apply Z.pow_pos_nonneg; lia). unfold NANOS_PER_SEC in *. nia.
  - unfold claims in *. simpl. lia.
  - by constructor; [| constructor].
Qed.

(** What a whole tick may do, by its outcome. *)
Definition tick_spec (ans : Answer (Outcome := Outcome) (Failure := Failure)) (new : list (Event Fence)) : Prop :=
  match ans with
  | Ok (Executed run _, _) | Ok (ExecutionFailed run _, _) => claimed new = [run] /\ length (fences new) = 1%nat
  | Ok (Idle, _) | Ok (ScanLimitReached, _) | Ok (Cancelled, _) | Err _ => claimed new = [] /\ fences new = []
  end.

Record scan_spec (n : nat) (report : TenantSchedulerReport)
    (out : Answer (Outcome := Outcome) (Failure := Failure) + TenantSchedulerReport) (new : list (Event Fence)) : Prop := {
  scan_sleeps : sleeps_ok new;
  scan_pages : pages new = 0%nat /\ reserves new = 0%nat;
  scan_claims : Z.of_nat (claims new) <= maximum_claim_attempts opts * Z.of_nat n;
  scan_outcome : match out with
                 | inl ans => tick_spec ans new
                 | inr report' => claimed new = [] /\ fences new = [] /\ pages_scanned report' = pages_scanned report
                 end
}.

Lemma scan_spec_prefix n report report' out l1 l2 :
  sleeps_ok l1 -> pages l1 = 0%nat /\ reserves l1 = 0%nat -> Z.of_nat (claims l1) <= maximum_claim_attempts opts ->
  claimed l1 = [] -> fences l1 = [] -> pages_scanned report' = pages_scanned report ->
  scan_spec n report' out l2 -> scan_spec (S n) report out (l1 ++ l2).
Proof.
  intros H1 H2 H3 H4 H5 H6 [S1 S2 S3 S4]. constructor.
  - by apply sleeps_ok_app.
  - rewrite pages_app, reserves_app. lia.
  - rewrite claims_app. lia.
  - destruct out as [[[[] ?]|]|]; simpl in *; rewrite ?claimed_app, ?fences_app, ?H4, ?H5; simpl; naive_solver congruence.
Qed.

Lemma scan_candidates_spec tenant fuel candidates report w log :
  options_ok -> maximum_claim_attempts opts <= Z.of_nat fuel ->
  exists out w' new, scan_candidates opts tenant fuel candidates report w log = Some (out, w', log ++ new) /\
    scan_spec (length candidates) report out new.
Proof.
  intros Hok Hf. revert report w log. induction candidates as [|run rest IH]; intros report w log; simpl.
  { exists (inr report), w, []. rewrite app_nil_r. split; [done |]. constructor; try done; [constructor | unfold claims; simpl; lia]. }
  destruct (is_cancelled w) as [[] w1].
  { exists (inl (Ok (Cancelled, report))), w1, []. rewrite app_nil_r. split; [done |].
    destruct Hok as (_ & ? & _). constructor; try done; [constructor | unfold claims; simpl; nia]. }
  destruct (generate w1) as [id w2].
  destruct (claim_loop_spec tenant fuel run id 1 (add_candidate report) w2 log Hok) as (res & rep' & w3 & new & -> & Hspec & Hrep);
    [destruct Hok as (_ & ? & _); lia | lia |].
  destruct Hspec as [H1 H2 H3 [_ H4] H5 _]. destruct Hok as (_ & Hc & _). destruct res as [[lease|]|e].
  - destruct (agent_loop_run (lease_fence lease) w3) as [out w4]. rewrite <- app_assoc. eexists _, _, _. split; [done |].
    constructor.
    + apply sleeps_ok_app. split; [done |]. by repeat constructor.
    + rewrite pages_app, reserves_app. destruct H2 as [-> ->]. done.
    + rewrite claims_app. unfold claims at 2. simpl. nia.
    + by destruct out; simpl; rewrite claimed_app, fences_app, H3, H5.
  - destruct (IH rep' w3 (log ++ new)) as (out & w4 & new' & -> & Hscan). rewrite <- app_assoc. eexists _, _, _. split; [done |].
    eapply scan_spec_prefix; try done. lia.
  - eexists _, _, _. split; [done |]. constructor; try done. nia.
Qed.

Lemma tick_spec_prefix ans l1 l2 :
  claimed l1 = [] -> fences l1 = [] -> tick_spec ans l2 -> tick_spec ans (l1 ++ l2).
Proof.
  intros H1 H2. unfold tick_spec. rewrite claimed_app, fences_app, H1, H2. by destruct ans as [[[]]|].
Qed.

Lemma page_loop_spec tenant fuel claim_fuel cursor report w log :
  options_ok -> maximum_claim_attempts opts <= Z.of_nat claim_fuel ->
  0 <= pages_scanned report < maximum_pages_per_tick opts ->
  maximum_pages_per_tick opts - pages_scanned report <= Z.of_nat fuel ->
  exists ans w' new, page_loop opts tenant fuel claim_fuel cursor report w log = Some (ans, w', log ++ new) /\
    sleeps_ok new /\ Z.of_nat (pages new) <= maximum_pages_per_tick opts - pages_scanned report /\
    reserves new = 0%nat /\ tick_spec ans new.
Proof.
  intros Hok Hcf. revert cursor report w log. induction fuel as [|fuel IH]; intros cursor report w log Hp Hf; [lia |].
  simpl. destruct (is_cancelled w) as [[] w1].
  { eexists _, _, []. rewrite app_nil_r. split; [done |]. split_and!; [constructor | unfold pages; simpl; lia | done | by split]. }
  destruct (load_runnable_run_page tenant cursor (page_size opts) w1) as [[page|e] w2].
  2: { eexists _, _, [_]. split; [done |]. split_and!; [by repeat constructor | unfold pages; simpl; lia | done | by split]. }
  destruct (scan_candidates_spec tenant claim_fuel (records page) (add_page report) w2 (log ++ [EPage (page_size opts)]) Hok Hcf)
    as (out & w3 & new & -> & [S1 [S2 S2'] S3 S4]).
  assert (Hone : sleeps_ok (Fence := Fence) [EPage (page_size opts)]) by by repeat constructor.
  assert (Hadd : pages_scanned (add_page report) = pages_scanned report + 1).
  { destruct Hok as (? & _). unfold add_page, saturating_add, u8_max, HARD_MAXIMUM_PAGES_PER_TICK in *. simpl. lia. }
  destruct out as [ans|report3].
  { rewrite <- app_assoc. eexists _, _, _. split; [done |]. split_and!; [by apply sleeps_ok_app | | by rewrite reserves_app, S2' | by apply tick_spec_prefix].
    rewrite pages_app, S2. unfold pages. simpl. lia. }
  destruct S4 as (C1 & C2 & C3).
  assert (Hstop : forall ans, tick_spec ans [] ->
    exists ans' w' new0, Some (ans, w3, (log ++ [EPage (page_size opts)]) ++ new) = Some (ans', w', log ++ new0) /\
      sleeps_ok new0 /\ Z.of_nat (pages new0) <= maximum_pages_per_tick opts - pages_scanned report /\
      reserves new0 = 0%nat /\ tick_spec ans' new0).
  { intros ans Ha. exists ans, w3, ([EPage (page_size opts)] ++ new). rewrite <- app_assoc. split; [done |].
    split_and!; [by apply sleeps_ok_app | rewrite pages_app, S2; unfold pages; simpl; lia | by rewrite reserves_app, S2' |].
    rewrite <- (app_nil_r (_ ++ new)). by apply tick_spec_prefix; [rewrite claimed_app, C1 | rewrite fences_app, C2 |]. }
  destruct (has_more page); simpl; [| by apply Hstop].
  destruct (Z.eqb_spec (pages_scanned report3) (maximum_pages_per_tick opts)) as [Heq|Hne]; [by apply Hstop |].
  destruct (next_cursor page) as [c|]; [| by apply Hstop].
  destruct (IH (Some c) report3 w3 ((log ++ [EPage (page_size opts)]) ++ new)) as (ans & w4 & new' & -> & I1 & I2 & I3 & I4); [lia | lia |].
  exists ans, w4, (([EPage (page_size opts)] ++ new) ++ new'). rewrite <- !app_assoc. split; [done |]. split_and!.
  - apply sleeps_ok_app. split; [done |]. by apply sleeps_ok_app.
  - rewrite !pages_app, S2. unfold pages at 1. simpl. lia.
  - by rewrite !reserves_app, S2', I3.
  - rewrite app_assoc. by apply tick_spec_prefix; [rewrite claimed_app, C1 | rewrite fences_app, C2 |].
Qed.

Lemma tick_inner_spec (tenant : bytes) (w : W) (Hok : options_ok) :
  exists ans w' log, tick_inner opts tenant w = Some (ans, w', log) /\
    sleeps_ok log /\ Z.of_nat (pages log) <= maximum_pages_per_tick opts /\ reserves log = 0%nat /\ tick_spec ans log.
Proof.
  destruct (page_loop_spec tenant (Z.to_nat (maximum_pages_per_tick opts)) (Z.to_nat (maximum_claim_attempts opts))
              None report_default w [] Hok) as (ans & w' & new & Hrun & H1 & H2 & H3 & H4).
  - destruct Hok as (_ & ? & _). lia.
  - destruct Hok as (? & _). simpl. lia.
  - simpl. destruct Hok as (? & _). lia.
  - exists ans, w', new. unfold tick_inner. rewrite Hrun. simpl in *. split_and!; try done. lia.
Qed.

(** C38: A tenant tick always returns, whatever the store, the agent loop and
    the cancellation signal do.  It loads at most the configured pages, every
    retry delay is positive and at most a second, and it executes a run
    exactly when it reports one: then that run is the only one it claimed,
    and the agent loop ran once; otherwise nothing was claimed and the agent
    loop never ran. *)
Theorem tenant_tick_bounded (tenant : bytes) (w : W) (Hok : options_ok) :
  exists ans w' log, tick_inner opts tenant w = Some (ans, w', log) /\
    sleeps_ok log /\ Z.of_nat (pages log) <= maximum_pages_per_tick opts /\ tick_spec ans log.
Proof.
  destruct (tick_inner_spec tenant w Hok) as (ans & w' & log & H1 & H2 & H3 & _ & H4). by exists ans, w', log.
Qed.

(** What the reservation loop adds to the log. *)
Lemma reserve_loop_spec policy fuel id attempt w log :
  fair_options_ok -> 1 <= attempt <= maximum_reservation_attempts fair_opts ->
  maximum_reservation_attempts fair_opts - attempt < Z.of_nat fuel ->
  exists ans w' new, reserve_loop fair_opts policy fuel id attempt w log = Some (ans, w', log ++ new) /\
    sleeps_ok new /\ Forall (fun e => match e with EReserve i => i = id | ESleep _ => True | _ => False end) new /\
    (1 <= reserves new)%nat /\ Z.of_nat (reserves new) <= maximum_reservation_attempts fair_opts - attempt + 1 /\
    (forall r k, ans = Ok (r, k) -> k = attempt - 1 + Z.of_nat (reserves new) - 1) /\
    (forall e, ans = Err e -> exists source, e = FairStore source /\
       (is_retryable source = true -> Z.of_nat (reserves new) = maximum_reservation_attempts fair_opts - attempt + 1)).
Proof.
  intros Hok. revert attempt w log. induction fuel as [|fuel IH]; intros attempt w log Ha Hf; [lia |].
  simpl. destruct (reserve_slot _ _ id w) as [[r|error] w1].
  { exists (Ok (r, attempt - 1)), w1, [EReserve id]. split; [done |]. unfold reserves. simpl.
    split_and!; [by repeat constructor | by repeat constructor | lia | lia | | done]. intros r' k [= <- <-]. lia. }
  destruct (Z.ltb_spec attempt (maximum_reservation_attempts fair_opts)) as [Hlt|Hge]; [destruct (is_retryable error) eqn:Er |]; simpl.
  2, 3: exists (Err (FairStore error)), w1, [EReserve id]; split; [done |]; unfold reserves; simpl;
    split_and!; [by repeat constructor | by repeat constructor | lia | lia | done |];
    intros e [= <-]; exists error; split; [done |]; intros; (congruence || lia).
  destruct Hok as (Hm & Hd). unfold HARD_MAXIMUM_RESERVATION_ATTEMPTS, MAX_RESERVATION_RETRY_DELAY in *.
  assert (saturating_add u8_max attempt 1 = attempt + 1) as -> by (unfold saturating_add, u8_max; lia).
  set (d := exponential_backoff (reservation_retry_initial_delay fair_opts) attempt).
  destruct (IH (attempt + 1) w1 ((log ++ [EReserve id]) ++ [ESleep d])) as (ans & w' & new & -> & I1 & I2 & I3 & I4 & I5 & I6); [lia | lia |].
  exists ans, w', ([EReserve id; ESleep d] ++ new). rewrite <- !app_assoc. split; [done |].
  rewrite reserves_app. change (reserves [EReserve id; ESleep d]) with 1%nat.
  assert (Hdelay : 0 < d <= NANOS_PER_SEC).
  { unfold d. destruct (backoff_exact (reservation_retry_initial_delay fair_opts) attempt) as [-> _]; [done | unfold u8_max; lia |].
    assert (0 < 2 ^ (attempt - 1)) by (apply Z.pow_pos_nonneg; lia). unfold NANOS_PER_SEC in *. nia. }
  split_and!; [apply sleeps_ok_app; split; [| done] | by repeat constructor | lia | lia | | ].
  - constructor; [done |]. constructor; [done | constructor].
  - intros r k Hans. specialize (I5 r k Hans). lia.
  - intros e He. destruct (I6 e He) as (source & Hs & Hr). exists source. split; [done |]. intros Hret. specialize (Hr Hret). lia.
Qed.

Lemma no_reserves (log : list (Event Fence)) (P : Z -> Prop) :
  reserves log = 0%nat -> Forall (fun e => match e with EReserve i => P i | _ => True end) log.
Proof. induction log as [|[] log IH]; unfold reserves in *; simpl; intros H; constructor; try done; auto. Qed.

(** What a fair tick that generated [id] may have done, by its answer. *)
Definition fair_spec (policy : WeightedFairnessPolicy) (id : Z)
  (ans : result FairSchedulerError (FairSchedulerTick (Outcome := Outcome) (Failure := Failure))) (log : list (Event Fence)) : Prop :=
  sleeps_ok log /\ Z.of_nat (reserves log) <= maximum_reservation_attempts fair_opts /\
  Forall (fun e => match e with EReserve i => i = id | _ => True end) log /\
  match ans with
  | Ok t => tenant_for_slot policy (Z.to_nat (slot (reservation t))) = Some (tick_tenant_id t) /\
            starvation_bound policy (tick_tenant_id t) = Some (tick_starvation_bound t) /\
            reservation_retries t = Z.of_nat (reserves log) - 1 /\ tick_spec (Ok (tenant_tick t)) log
  | Err (FairStore source) =>
      is_retryable source = true -> Z.of_nat (reserves log) = maximum_reservation_attempts fair_opts
  | Err _ => True
  end.

(** A fair tick always returns.  It asks for its reservation at most the
    configured number of times, always under the one identity it generated,
    gives up on the first error that is not transient or when attempts run
    out, and on success reports the tenant and the bound the policy assigns
    to the reserved slot and the number of retries it made. *)
Theorem fair_tick_bounded (policy : WeightedFairnessPolicy) (w : W) (Hok : options_ok) (Hfair : fair_options_ok) :
  exists ans w' log, fair_tick_inner opts fair_opts policy w = Some (ans, w', log) /\
    fair_spec policy (generate w).1 ans log.
Proof.
  unfold fair_tick_inner. destruct (generate w) as [id w0].
  destruct (reserve_loop_spec policy (Z.to_nat (maximum_reservation_attempts fair_opts)) id 1 w0 [] Hfair)
    as (ans & w1 & new & -> & R1 & R2 & R3 & R4 & R5 & R6); [destruct Hfair; lia | destruct Hfair; lia |].
  simpl. assert (Hid : Forall (fun e : Event Fence => match e with EReserve i => i = id | _ => True end) new).
  { eapply Forall_impl; [exact R2 |]. by intros []. }
  assert (Hmis : fair_spec policy id (Err PolicyProjectionMismatch) new) by (split_and!; try done; lia).
  destruct ans as [[r k]|e].
  2: { destruct (R6 _ eq_refl) as (src & -> & Hr). eexists _, _, _. split; [done |]. split_and!; try done; [lia |].
       intros H%Hr. lia. }
  destruct (tenant_for_slot policy (Z.to_nat (slot r))) as [tenant|] eqn:Et; [| by eexists _, _, _].
  destruct (starvation_bound policy tenant) as [bound|] eqn:Eb; [| by eexists _, _, _].
  destruct (tick_inner_spec tenant w1 Hok) as (ans & w2 & log & -> & T1 & T2 & T3 & T4).
  assert (Hclean : claimed new = [] /\ fences new = []).
  { clear -R2. induction R2 as [|e l He _ [IH1 IH2]]; [done |]. by destruct e. }
  destruct Hclean as [Hcl Hfe].
  assert (Hlog : sleeps_ok (new ++ log) /\ Z.of_nat (reserves (new ++ log)) <= maximum_reservation_attempts fair_opts /\
    Forall (fun e => match e with EReserve i => i = id | _ => True end) (new ++ log)).
  { rewrite reserves_app, T3. split_and!; [by apply sleeps_ok_app | lia |]. apply Forall_app. split; [done |]. by apply no_reserves. }
  destruct Hlog as (L1 & L2 & L3). specialize (R5 r k eq_refl).
  destruct ans as [tick|e]; eexists _, _, _; (split; [done |]).
  - split_and!; [done | done | done | done | done | | by apply tick_spec_prefix].
    cbn [reservation_retries]. rewrite reserves_app, T3. lia.
  - by split_and!.
Qed.
End Laws.


(** ** The fair tick on the modelled store *)

(** A world whose reservations go to the store of [FairStore] under a script
    of faults; the queue of every tenant holds the run [42] and its first
    claim fails with a transient error. *)
Record World := mkWorld { world_db : Db; faults : list Fault; fresh : Z; claims_left : nat }.

Section StoreWorld.
Context (sha256 : bytes -> Digest) (is_rfc4122 : Z -> bool) (version : Z -> option Z) (now : Timestamp.Timestamp).

Definition world_reserve (shard : bytes) (digest : Digest) (id : Z) (w : World)
  : result StoreError SchedulerFairnessReservation * World :=
  let fault := default NoFault (head (faults w)) in
  let '(ans, db) := reserve_scheduler_fairness_slot sha256 is_rfc4122 version fault (world_db w) (world_db w) now shard digest id in
  (ans, mkWorld db (tail (faults w)) (fresh w) (claims_left w)).

#[global] Instance store_env : Env World unit Z Z unit unit := {
  is_cancelled w := (false, w);
  generate w := (fresh w, mkWorld (world_db w) (faults w) (fresh w + 1) (claims_left w));
  load_runnable_run_page _ _ _ w := (Ok (mkPage [42] false None), w);
  claim_lease _ _ attempt_id w :=
    match claims_left w with
    | O => (Ok attempt_id, w)
    | S n => (Err (Database true), mkWorld (world_db w) (faults w) (fresh w) n)
    end;
  lease_fence lease := lease;
  agent_loop_run _ w := (Ok tt, w);
  reserve_slot := world_reserve
}.

Context (fair_opts : DurableFairSchedulerOptions) (policy : WeightedFairnessPolicy).
#[local] Abbreviation shard := (FairPolicy.shard_id policy).

(** The reservation [id] is not there yet, or it is the one made from [db]. *)
Definition once (db : Db) (id : Z) (db' : Db) : Prop :=
  db' = db \/ exists row, shards db !! shard = Some row /\ db' = Reservations.committed db row now shard id.

Lemma world_reserve_once db id w :
  reservations db !! id = None -> once db id (world_db w) ->
  let '(ans, w') := world_reserve shard (policy_digest (registration policy)) id w in
  once db id (world_db w') /\
  (forall r, ans = Ok r -> exists row, shards db !! shard = Some row /\ sequence r = next_sequence row /\
     world_db w' = Reservations.committed db row now shard id).
Proof.
  intros Hn Hw. unfold world_reserve.
  destruct (reserve_scheduler_fairness_slot _ _ _ _ _ _ _ _ _ _) as [ans db'] eqn:E. simpl.
  set (digest := policy_digest (registration policy)) in *.
  assert (Hstep : once db id db').
  { pose proof E as E'. unfold reserve_scheduler_fairness_slot, with_fault in E'.
    assert (Htx : forall r d, reserve_tx sha256 is_rfc4122 version (world_db w) (world_db w) now shard digest id = Ok (r, d) -> once db id d).
    { intros r d [[-> _] | (row & Hrow & _ & Hi)]%Reservations.reserve_tx_Ok; [done |].
      apply Reservations.insert_Ok in Hi as (_ & -> & _ & Hnone & _); [| done].
      destruct Hw as [Ew | (row0 & Hrow0 & Ew)]; [rewrite Ew in *; right; by exists row |].
      rewrite Ew in Hnone. simpl in Hnone. by rewrite lookup_insert_eq in Hnone. }
    destruct (reserve_tx _ _ _ _ _ _ _ _ _) as [[r d]|e]; [specialize (Htx r d eq_refl) |];
      destruct (default NoFault (head (faults w))); injection E' as <- <-; done. }
  split; [done |]. intros r ->.
  destruct (Reservations.reserve_answer _ _ _ _ _ _ _ _ _ _ _ _ (Reservations.older_refl _) E) as (row & Hr & -> & _).
  destruct Hstep as [-> | (srow & Hs & ->)]; [congruence |]. exists srow. split; [done |]. split; [| done].
  simpl in Hr. rewrite lookup_insert_eq in Hr. by injection Hr as <-.
Qed.

Lemma reserve_loop_once db fuel id attempt w log ans w' log' :
  reservations db !! id = None -> once db id (world_db w) ->
  reserve_loop fair_opts policy fuel id attempt w log = Some (ans, w', log') ->
  once db id (world_db w') /\
  (forall r k, ans = Ok (r, k) -> exists row, shards db !! shard = Some row /\ sequence r = next_sequence row /\
     world_db w' = Reservations.committed db row now shard id).
Proof.
  intros Hn. revert attempt w log. induction fuel as [|fuel IH]; intros attempt w log Hw Hrun; [done |].
  simpl in Hrun. pose proof (world_reserve_once db id w Hn Hw) as Hone.
  destruct (world_reserve shard (policy_digest (registration policy)) id w) as [a w1]. destruct Hone as [Hw1 Hans].
  destruct a as [r|error].
  - injection Hrun as <- <- <-. split; [done |]. intros r' k [= <- <-]. by apply Hans.
  - destruct ((attempt <? maximum_reservation_attempts fair_opts) && is_retryable error).
    + by apply IH in Hrun.
    + injection Hrun as <- <- <-. by split.
Qed.

(** Lost acknowledgements cost no slot.  On the modelled store, for any
    script of transient and permanent faults before and after commit, the
    reservation loop of a fair tick leaves the tables as they were or moves
    the shard's cursor by exactly one reservation under its identity, and a
    successful answer is that reservation with the next sequence number. *)
Theorem fair_tick_reserves_once (w w' : World) (id : Z) (log : list (Event Z))
  (ans : result FairSchedulerError (SchedulerFairnessReservation * Z))
  (Hfresh : reservations (world_db w) !! id = None)
  (Hrun : reserve_loop fair_opts policy (Z.to_nat (maximum_reservation_attempts fair_opts)) id 1 w [] = Some (ans, w', log)) :
  once (world_db w) id (world_db w') /\
  (forall r k, ans = Ok (r, k) -> exists row, shards (world_db w) !! shard = Some row /\ sequence r = next_sequence row /\
     world_db w' = Reservations.committed (world_db w) row now shard id).
Proof. eapply reserve_loop_once; [done | by left | done]. Qed.
End StoreWorld.

(** ** A concrete tick: the first reservation loses its acknowledgement, the
    first claim fails, and both are retried. *)

Definition sample_opts : DurableTenantSchedulerOptions := mkTenantOptions 100 4 3 25000000.
Definition sample_fair_opts : DurableFairSchedulerOptions := mkFairOptions 3 25000000.
Definition sample_world : World := mkWorld Reservations.db_three [AckLost true; Aborted true] 200 1.
#[local] Abbreviation sample_env :=
  (store_env Reservations.sample_sha256 Reservations.every_uuid Reservations.version_seven Reservations.sample_now).

Lemma tenant_tick_bounded_witness :
  options_ok sample_opts /\
  exists ans w' log, tick_inner (E := sample_env) sample_opts (bytes_of "a") sample_world = Some (ans, w', log) /\ sleeps_ok log.
Proof.
  assert (Hok : options_ok sample_opts) by (split_and!; done). split; [exact Hok |].
  destruct (tenant_tick_bounded (E := sample_env) sample_opts (bytes_of "a") sample_world Hok) as (ans & w' & log & H1 & H2 & _).
  exists ans, w', log. split; [exact H1 | exact H2].
Defined.

Lemma fair_tick_bounded_witness :
  exists ans w' log, fair_tick_inner (E := sample_env) sample_opts sample_fair_opts Reservations.sample_pol sample_world = Some (ans, w', log) /\
    (reserves log <= 3)%nat /\ reserves log = 3%nat.
Proof.
  destruct (fair_tick_bounded (E := sample_env) sample_opts sample_fair_opts Reservations.sample_pol sample_world)
    as (ans & w' & log & H1 & (_ & H2 & _)); [split_and!; done | split_and!; done |].
  exists ans, w', log. split; [exact H1 |]. split; [simpl in H2; lia |].
  vm_compute in H1. injection H1 as _ _ <-. reflexivity.
Defined.

Lemma fair_tick_reserves_once_witness :
  exists ans w' log,
    reserve_loop (E := sample_env) sample_fair_opts Reservations.sample_pol 3 200 1 sample_world [] = Some (ans, w', log) /\
    once Reservations.sample_now Reservations.sample_pol Reservations.db_three 200 (world_db w').
Proof.
  destruct (reserve_loop (E := sample_env) sample_fair_opts Reservations.sample_pol 3 200 1 sample_world []) as [[[ans w'] log]|] eqn:Erun;
    [| vm_compute in Erun; discriminate Erun].
  exists ans, w', log. split; [reflexivity |].
  apply (fair_tick_reserves_once Reservations.sample_sha256 Reservations.every_uuid Reservations.version_seven Reservations.sample_now
           sample_fair_opts Reservations.sample_pol sample_world w' 200 log ans); [vm_compute; reflexivity | exact Erun].
Defined.

End Ticks.
