(* ===== verification/Sse.v ===== *)
(** The incremental event-stream decoder
    (crates/stateknot-integrations/src/sse.rs).

    [push] appends a chunk to the pending bytes and consumes every complete
    line; [finish] flushes an unterminated last line.  The reference is
    [split_lines], a structural splitter of the whole input: [push] is proved
    equal to folding [consume_line] over the reference lines, which gives
    totality, the resource bounds and the independence of the decoded events
    from how the stream is cut into chunks, up to one exception that the last
    theorem exhibits. *)

From Stdlib Require Import ZArith Lia List.
From stdpp Require Import prelude.
From S2P Require Import Prelude.

Open Scope Z_scope.

Record SseEvent := mkEvent { event_name : option bytes; event_data : bytes }.

(** The three ceilings of [ProviderHttpOptions] the decoder reads. *)
Record Limits := mkLimits {
  maximum_sse_total_bytes : Z;
  maximum_sse_line_bytes : Z;
  maximum_sse_event_bytes : Z
}.

Record SseDecoder := mkDecoder {
  limits : Limits;
  pending : bytes;
  data : bytes;
  event : option bytes;
  total_bytes : Z
}.

Inductive SseDecodeError := TotalTooLarge | LineTooLarge | EventTooLarge | InvalidUtf8 | NullByte.

Abbreviation blen b := (Z.of_nat (length b)).

Definition new (l : Limits) : SseDecoder := mkDecoder l [] [] None 0.

Definition CR : Z := 13.
Definition LF : Z := 10.
Definition is_terminator (b : Z) : bool := (b =? CR) || (b =? LF).

Definition next_line (input : bytes) : option (nat * nat) :=
  index ← position is_terminator input;
  if bool_decide (input !! index = Some CR) && bool_decide (input !! S index = Some LF)
  then Some (index, 2%nat) else Some (index, 1%nat).

(** [str::split_once(':')]. *)
Definition split_once_colon (line : bytes) : option (bytes * bytes) :=
  index ← position (fun b => b =? 58) line;
  Some (take index line, drop (S index) line).

Definition strip_space (value : bytes) : bytes :=
  match value with 32 :: rest => rest | _ => value end.

(** [split_once(':').map_or((line, empty), ..)] as the field and its value. *)
Definition field_value (line : bytes) : bytes * bytes :=
  match split_once_colon line with
  | Some (field, value) => (field, strip_space value)
  | None => (line, [])
  end.

Definition validate_field (value : bytes) : result SseDecodeError unit :=
  reject_if (existsb (fun b => b =? 0) value) NullByte.

Definition set_event (d : SseDecoder) (e : option bytes) : SseDecoder := mkDecoder (limits d) (pending d) (data d) e (total_bytes d).
Definition set_data (d : SseDecoder) (v : bytes) : SseDecoder := mkDecoder (limits d) (pending d) v (event d) (total_bytes d).
Definition set_pending (d : SseDecoder) (p : bytes) : SseDecoder := mkDecoder (limits d) p (data d) (event d) (total_bytes d).

Definition is_empty (b : bytes) : bool := match b with [] => true | _ => false end.

Definition dispatch (d : SseDecoder) (events : list SseEvent) : result SseDecodeError (SseDecoder * list SseEvent) :=
  if is_empty (data d) then Ok (set_event d None, events) else
  if maximum_sse_event_bytes (limits d) <? blen (data d) then Err EventTooLarge else
  Ok (set_data (set_event d None) [], events ++ [mkEvent (event d) (data d)]).

Definition consume_line (d : SseDecoder) (events : list SseEvent) (line : bytes)
  : result SseDecodeError (SseDecoder * list SseEvent) :=
  if negb (utf8_valid line) then Err InvalidUtf8 else
  if is_empty line then dispatch d events else
  if bool_decide (head line = Some 58) then Ok (d, events) else
  let '(field, value) := field_value line in
  if bool_decide (field = bytes_of "event") then
    _ ← validate_field value;
    Ok (set_event d (Some value), events)
  else if bool_decide (field = bytes_of "data") then
    _ ← validate_field value;
    let extra := blen value + (if is_empty (data d) then 0 else 1) in
    if maximum_sse_event_bytes (limits d) <? saturating_add u64_max (blen (data d)) extra then Err EventTooLarge else
    let data' := if is_empty (data d) then data d else data d ++ [LF] in
    Ok (set_data d (data' ++ value), events)
  else Ok (d, events).

(** The loop of [push]; [None] is running out of fuel. *)
Fixpoint push_loop (fuel : nat) (d : SseDecoder) (events : list SseEvent)
  : option (result SseDecodeError (SseDecoder * list SseEvent)) :=
  match fuel with
  | O => None
  | S fuel' =>
      match next_line (pending d) with
      | None => Some (if maximum_sse_line_bytes (limits d) <? blen (pending d) then Err LineTooLarge else Ok (d, events))
      | Some (line_end, terminator_len) =>
          if maximum_sse_line_bytes (limits d) <? Z.of_nat line_end then Some (Err LineTooLarge) else
          let line := take line_end (pending d) in
          match consume_line (set_pending d (drop (line_end + terminator_len) (pending d))) events line with
          | Err e => Some (Err e)
          | Ok (d', events') => push_loop fuel' d' events'
          end
      end
  end.

Definition push (d : SseDecoder) (chunk : bytes) : option (result SseDecodeError (SseDecoder * list SseEvent)) :=
  match checked_add u64_max (total_bytes d) (blen chunk) with
  | None => Some (Err TotalTooLarge)
  | Some total =>
      if maximum_sse_total_bytes (limits d) <? total then Some (Err TotalTooLarge) else
      let d' := mkDecoder (limits d) (pending d ++ chunk) (data d) (event d) total in
      push_loop (S (length (pending d'))) d' []
  end.

Definition finish (d : SseDecoder) : result SseDecodeError (list SseEvent) :=
  '(d', events) ← (if is_empty (pending d) then Ok (d, [])
                   else if maximum_sse_line_bytes (limits d) <? blen (pending d) then Err LineTooLarge
                   else consume_line (set_pending d []) [] (pending d));
  if is_empty (data d') then Ok events else
  '(_, events') ← dispatch d' events;
  Ok events'.

(** A whole stream given as chunks: the events of every [push], then those of
    [finish]. *)
Fixpoint decode_from (d : SseDecoder) (chunks : list bytes) : option (result SseDecodeError (list SseEvent)) :=
  match chunks with
  | [] => Some (finish d)
  | c :: rest =>
      match push d c with
      | None => None
      | Some (Err e) => Some (Err e)
      | Some (Ok (d', events)) =>
          match decode_from d' rest with
          | Some (Ok later) => Some (Ok (events ++ later))
          | other => other
          end
      end
  end.

(** Theorems on the event-stream decoder: [push] equals folding
    [consume_line] over the reference lines, its resource bounds, the
    independence of the events from chunk boundaries, and the exception. *)

Module Decoder.

(** ** Reference lines *)

Definition cons_line (line : bytes) (p : list bytes * bytes) : list bytes * bytes := (line :: p.1, p.2).

(** The complete lines of the input after [cur] and the unterminated rest. *)
Fixpoint split_lines (cur input : bytes) : list bytes * bytes :=
  match input with
  | [] => ([], cur)
  | b :: rest =>
      if b =? CR then
        cons_line cur (match rest with
                       | c :: rest' => if c =? LF then split_lines [] rest' else split_lines [] rest
                       | [] => ([], [])
                       end)
      else if b =? LF then cons_line cur (split_lines [] rest)
      else split_lines (cur ++ [b]) rest
  end.

Definition line_step (st : SseDecoder * list SseEvent) (line : bytes) : result SseDecodeError (SseDecoder * list SseEvent) :=
  if maximum_sse_line_bytes (limits st.1) <? blen line then Err LineTooLarge else consume_line st.1 st.2 line.

(** What [push] computes, on the reference lines. *)
Definition push_lines (d : SseDecoder) (events : list SseEvent) (input : bytes)
  : result SseDecodeError (SseDecoder * list SseEvent) :=
  let '(lines, rest) := split_lines [] input in
  st ← try_fold line_step (d, events) lines;
  if maximum_sse_line_bytes (limits d) <? blen rest then Err LineTooLarge else Ok (set_pending st.1 rest, st.2).

Lemma is_terminator_cases b : is_terminator b = false -> (b =? CR) = false /\ (b =? LF) = false.
Proof. unfold is_terminator. apply orb_false_iff. Qed.

Lemma split_lines_none cur p : position is_terminator p = None -> split_lines cur p = ([], cur ++ p).
Proof.
  rewrite position_None. intros H. revert cur. induction H as [|b p Hb _ IH]; intros cur; simpl; [by rewrite app_nil_r |].
  destruct (is_terminator_cases b Hb) as [-> ->]. by rewrite IH, <- app_assoc.
Qed.

(** Lines before the first terminator, and what the terminator consumes. *)
Lemma split_lines_at cur l1 b l2 :
  Forall (fun c => is_terminator c = false) l1 -> is_terminator b = true ->
  split_lines cur (l1 ++ b :: l2) =
  cons_line (cur ++ l1) (split_lines [] (if bool_decide (b = CR) && bool_decide (head l2 = Some LF) then tail l2 else l2)).
Proof.
  intros HF Hb. revert cur. induction HF as [|c l1 Hc HF IH]; intros cur; simpl.
  - rewrite app_nil_r. unfold is_terminator in Hb. destruct (Z.eqb_spec b CR) as [->|Hne].
    + rewrite bool_decide_eq_true_2 by done. destruct l2 as [|c l2]; simpl; [done |].
      destruct (Z.eqb_spec c LF) as [->|Hne]; [by rewrite bool_decide_eq_true_2 |]. rewrite bool_decide_eq_false_2 by congruence.
      simpl. by rewrite (proj2 (Z.eqb_neq c LF) Hne).
    + rewrite (bool_decide_eq_false_2 (b = CR)) by done. simpl in Hb. by rewrite Hb.
  - destruct (is_terminator_cases c Hc) as [-> ->]. by rewrite IH, <- app_assoc.
Qed.

Lemma next_line_Some p i t :
  next_line p = Some (i, t) ->
  exists l1 b l2, p = l1 ++ b :: l2 /\ length l1 = i /\ is_terminator b = true /\
    Forall (fun c => is_terminator c = false) l1 /\
    drop (i + t) p = (if bool_decide (b = CR) && bool_decide (head l2 = Some LF) then tail l2 else l2).
Proof.
  unfold next_line. intros (j & Hj & H)%bind_Some. apply position_Some in Hj as (l1 & b & l2 & -> & <- & Hb & HF).
  assert (Hl2 : (l1 ++ b :: l2) !! S (length l1) = head l2).
  { rewrite lookup_app_r by lia. replace (S (length l1) - length l1)%nat with 1%nat by lia. by destruct l2. }
  rewrite list_lookup_middle, Hl2 in H by done.
  exists l1, b, l2. rewrite (bool_decide_ext (b = CR) (Some b = Some CR)) by naive_solver.
  destruct (bool_decide (Some b = Some CR) && bool_decide (head l2 = Some LF)); injection H as <- <-;
    (split_and!; [done | done | done | done |]); rewrite <- drop_drop, drop_app_length; simpl; by rewrite ?drop_0; destruct l2.
Qed.

Lemma split_lines_next p i t :
  next_line p = Some (i, t) -> split_lines [] p = cons_line (take i p) (split_lines [] (drop (i + t) p)).
Proof.
  intros (l1 & b & l2 & -> & <- & Hb & HF & ->)%next_line_Some. by rewrite split_lines_at, take_app_length.
Qed.

Lemma next_line_None p : next_line p = None -> position is_terminator p = None.
Proof. unfold next_line. destruct (position is_terminator p); simpl; [| done]. by destruct (bool_decide _ && bool_decide _). Qed.

Lemma next_line_shrinks p i t : next_line p = Some (i, t) -> (length (drop (i + t) p) < length p)%nat.
Proof.
  intros (l1 & b & l2 & -> & <- & _ & _ & ->)%next_line_Some. rewrite length_app. simpl.
  destruct (_ && _); [destruct l2 |]; simpl; lia.
Qed.

(** Consuming a line reads and writes neither the pending bytes nor the byte
    count, and only appends to the events. *)
Definition set_frame (d : SseDecoder) (p : bytes) (t : Z) : SseDecoder := mkDecoder (limits d) p (data d) (event d) t.

Lemma consume_line_frame d p t pre ev line :
  consume_line (set_frame d p t) (pre ++ ev) line =
  (st ← consume_line d ev line; Ok (set_frame st.1 p t, pre ++ st.2)).
Proof.
  unfold consume_line, dispatch. simpl. destruct (negb _); [done |]. destruct (is_empty line).
  { destruct (is_empty (data d)); [done |]. destruct (_ <? _); [done |]. simpl. by rewrite app_assoc. }
  destruct (bool_decide (head line = Some 58)); [done |]. destruct (field_value line) as [f v].
  destruct (bool_decide _); [by destruct (validate_field v) |]. destruct (bool_decide _); [| done].
  destruct (validate_field v); [| done]. simpl. by destruct (_ <? _).
Qed.

Lemma line_step_frame d p t pre ev line :
  line_step (set_frame d p t, pre ++ ev) line = (st ← line_step (d, ev) line; Ok (set_frame st.1 p t, pre ++ st.2)).
Proof. unfold line_step. simpl. destruct (_ <? _); [done |]. apply consume_line_frame. Qed.

Lemma lines_frame d p t pre ev lines :
  try_fold line_step (set_frame d p t, pre ++ ev) lines =
  (st ← try_fold line_step (d, ev) lines; Ok (set_frame st.1 p t, pre ++ st.2)).
Proof.
  revert d ev. induction lines as [|l lines IH]; intros d ev; simpl; [done |]. rewrite line_step_frame.
  destruct (line_step (d, ev) l) as [[d1 ev1]|e]; simpl; [apply IH | done].
Qed.

Lemma set_pending_frame d p : set_pending d p = set_frame d p (total_bytes d).
Proof. done. Qed.

Lemma set_frame_id d : set_frame d (pending d) (total_bytes d) = d.
Proof. by destruct d. Qed.

Lemma consume_line_total d ev line st : consume_line d ev line = Ok st -> total_bytes st.1 = total_bytes d.
Proof.
  intros H. pose proof (consume_line_frame d (pending d) (total_bytes d) [] ev line) as E.
  rewrite set_frame_id, H in E. cbn [app] in E. rewrite H in E. simpl in E. injection E as E. rewrite E. done.
Qed.

Lemma consume_line_pending d p ev line :
  consume_line (set_pending d p) ev line = (st ← consume_line d ev line; Ok (set_pending st.1 p, st.2)).
Proof.
  rewrite set_pending_frame, (consume_line_frame d p _ [] ev line). destruct (consume_line d ev line) as [st|] eqn:E; simpl; [| done].
  by rewrite set_pending_frame, (consume_line_total _ _ _ _ E).
Qed.

Lemma consume_line_limits d ev line st : consume_line d ev line = Ok st -> limits st.1 = limits d.
Proof.
  unfold consume_line, dispatch. destruct (negb _); [done |]. destruct (is_empty line).
  { destruct (is_empty (data d)); [by intros [= <-] |]. destruct (_ <? _); [done |]. by intros [= <-]. }
  destruct (bool_decide (head line = Some 58)); [by intros [= <-] |]. destruct (field_value line) as [f v].
  destruct (bool_decide _); [destruct (validate_field v); simpl; [by intros [= <-] | done] |]. destruct (bool_decide _); [| by intros [= <-]].
  destruct (validate_field v); [| done]. simpl. destruct (_ <? _); [done |]. by intros [= <-].
Qed.

Lemma lines_total lines st st' : try_fold line_step st lines = Ok st' -> total_bytes st'.1 = total_bytes st.1.
Proof.
  revert st. induction lines as [|l lines IH]; intros st H; simpl in H; [by injection H as <- |].
  apply bind_Ok in H as (st1 & H1 & H2). apply IH in H2 as ->. unfold line_step in H1. destruct (_ <? _); [done |].
  by apply consume_line_total in H1.
Qed.

(** The loop of [push] returns, and returns what the reference computes. *)
Lemma push_loop_lines fuel d ev :
  (length (pending d) < fuel)%nat -> push_loop fuel d ev = Some (push_lines d ev (pending d)).
Proof.
  revert d ev. induction fuel as [|fuel IH]; intros d ev Hf; [lia |]. simpl. unfold push_lines.
  destruct (next_line (pending d)) as [[i t]|] eqn:En.
  - rewrite (split_lines_next _ _ _ En). pose proof (next_line_shrinks _ _ _ En) as Hs.
    assert (Hi : (i <= length (pending d))%nat).
    { apply next_line_Some in En as (l1 & b & l2 & -> & <- & _). rewrite length_app. lia. }
    destruct (split_lines [] (drop (i + t) (pending d))) as [ls r] eqn:El. unfold cons_line. simpl.
    unfold line_step at 2. simpl. rewrite length_take_le by done. destruct (_ <? Z.of_nat i); [done |].
    rewrite consume_line_pending. destruct (consume_line d ev (take i (pending d))) as [[d1 ev1]|e] eqn:Ec; simpl; [| done].
    apply consume_line_limits in Ec. simpl in Ec. rewrite IH by (simpl; lia). f_equal. unfold push_lines. simpl.
    rewrite El, Ec, set_pending_frame, (lines_frame d1 _ _ [] ev1 ls).
    destruct (try_fold line_step (d1, ev1) ls) as [[d2 ev2]|] eqn:Ef; simpl; [| done]. destruct (_ <? _); [done |].
    apply lines_total in Ef. simpl in Ef. by rewrite !set_pending_frame, Ef.
  - rewrite split_lines_none by (by apply next_line_None). simpl. destruct (_ <? _); [done |]. by destruct d.
Qed.

Definition clean (p : bytes) : Prop := Forall (fun b => is_terminator b = false) p.

Lemma split_lines_clean cur p : clean cur -> clean (split_lines cur p).2.
Proof.
  remember (length p) as n eqn:Hn. revert cur p Hn. induction n as [n IH] using lt_wf_ind. intros cur [|b rest] -> Hc; simpl; [done |].
  assert (Hgo : forall cur' p', clean cur' -> (length p' < length (b :: rest))%nat -> clean (split_lines cur' p').2).
  { intros cur' p' Hc' Hl. by apply (IH (length p')). }
  destruct (b =? CR) eqn:E1; simpl.
  { destruct rest as [|c rest']; [constructor |]. destruct (c =? LF); apply Hgo; simpl; try lia; constructor. }
  destruct (b =? LF) eqn:E2; simpl; apply Hgo; simpl; try lia; [constructor |].
  apply Forall_app. split; [done |]. repeat constructor. unfold is_terminator. by rewrite E1, E2.
Qed.

Lemma split_lines_resume cur r y : clean r -> split_lines cur (r ++ y) = split_lines (cur ++ r) y.
Proof.
  intros H. revert cur. induction H as [|b r Hb _ IH]; intros cur; simpl; [by rewrite app_nil_r |].
  destruct (is_terminator_cases b Hb) as [-> ->]. by rewrite IH, <- app_assoc.
Qed.

Lemma split_lines_cons cur b rest :
  split_lines cur (b :: rest) =
  if b =? CR then cons_line cur (split_lines [] (match rest with c :: rest' => if c =? LF then rest' else rest | [] => [] end))
  else if b =? LF then cons_line cur (split_lines [] rest) else split_lines (cur ++ [b]) rest.
Proof. simpl. destruct (b =? CR); [| done]. destruct rest as [|c rest']; [done |]. by destruct (c =? LF). Qed.

Definition app_lines (p q : list bytes * bytes) : list bytes * bytes := (p.1 ++ q.1, q.2).

(** Splitting a stream in two, anywhere but inside a CR LF pair. *)
Lemma split_lines_app cur x y :
  ~ (last x = Some CR /\ head y = Some LF) ->
  split_lines cur (x ++ y) = app_lines (split_lines cur x) (split_lines (split_lines cur x).2 y).
Proof.
  remember (length x) as n eqn:Hn. revert cur x Hn. induction n as [n IH] using lt_wf_ind. intros cur [|b rest] -> Hcut.
  { simpl. unfold app_lines. simpl. by destruct (split_lines cur y). }
  assert (Hgo : forall cur' p', (length p' < length (b :: rest))%nat -> (p' = [] \/ last p' = last (b :: rest)) ->
                split_lines cur' (p' ++ y) = app_lines (split_lines cur' p') (split_lines (split_lines cur' p').2 y)).
  { intros cur' p' Hl Hlast. apply (IH (length p')); [done | done |]. intros [H1 H2]. apply Hcut.
    destruct Hlast as [-> | <-]; [done | done]. }
  change ((b :: rest) ++ y) with (b :: (rest ++ y)). rewrite !split_lines_cons. destruct (Z.eqb_spec b CR) as [->|Hb].
  - destruct rest as [|c rest'].
    + destruct y as [|c y]; [done |]. cbn [app]. destruct (Z.eqb_spec c LF) as [->|Hc]; [by destruct Hcut |]. done.
    + cbn [app]. destruct (c =? LF); [| change (c :: rest' ++ y) with ((c :: rest') ++ y)];
        (rewrite Hgo; [by unfold cons_line, app_lines | simpl; lia |]); [| by right]. destruct rest'; auto.
  - destruct (b =? LF); (rewrite Hgo; [by unfold cons_line, app_lines | simpl; lia |]); destruct rest; auto.
Qed.

(** ** Resource bounds *)

Definition limits_ok (l : Limits) : Prop :=
  0 <= maximum_sse_total_bytes l < u64_max /\ 0 <= maximum_sse_line_bytes l < u64_max /\ 0 <= maximum_sse_event_bytes l < u64_max.

Record wf (d : SseDecoder) : Prop := {
  wf_limits : limits_ok (limits d);
  wf_clean : clean (pending d);
  wf_pending : blen (pending d) <= maximum_sse_line_bytes (limits d);
  wf_data : blen (data d) <= maximum_sse_event_bytes (limits d);
  wf_total : 0 <= total_bytes d <= maximum_sse_total_bytes (limits d)
}.

Definition event_bounded (l : Limits) (e : SseEvent) : Prop := 0 < blen (event_data e) <= maximum_sse_event_bytes l.

(** What lines may change: the data buffer within its ceiling, the event
    name, and the events, which only grow. *)
Record line_effect (st st' : SseDecoder * list SseEvent) : Prop := {
  line_limits : limits st'.1 = limits st.1;
  line_frame : pending st'.1 = pending st.1 /\ total_bytes st'.1 = total_bytes st.1;
  line_data : blen (data st'.1) <= maximum_sse_event_bytes (limits st.1);
  line_events : exists more, st'.2 = st.2 ++ more /\ Forall (event_bounded (limits st.1)) more
}.

Lemma is_empty_length b : is_empty b = false -> 0 < blen b.
Proof. destruct b; [done |]. simpl. lia. Qed.

Lemma consume_line_effect d ev line st :
  limits_ok (limits d) -> blen (data d) <= maximum_sse_event_bytes (limits d) ->
  consume_line d ev line = Ok st -> line_effect (d, ev) st.
Proof.
  intros Hl Hd. unfold consume_line, dispatch. destruct (negb _); [done |].
  assert (Hsame : forall e, line_effect (d, ev) (set_event d e, ev)).
  { intros e. constructor; try done. exists []. by rewrite app_nil_r. }
  destruct (is_empty line).
  { destruct (is_empty (data d)) eqn:Ed; [by intros [= <-] |]. destruct (Z.ltb_spec (maximum_sse_event_bytes (limits d)) (blen (data d))); [done |].
    intros [= <-]. constructor; simpl; try done; [destruct Hl as (_ & _ & ?); lia |]. eexists. split; [done |].
    repeat constructor; simpl; [by apply is_empty_length | done]. }
  destruct (bool_decide (head line = Some 58)).
  { intros [= <-]. constructor; try done. exists []. by rewrite app_nil_r. }
  destruct (field_value line) as [f v].
  destruct (bool_decide _); [destruct (validate_field v); simpl; [by intros [= <-] | done] |]. destruct (bool_decide _).
  2: { intros [= <-]. constructor; try done. exists []. by rewrite app_nil_r. }
  destruct (validate_field v); [| done]. simpl. destruct (Z.ltb_spec (maximum_sse_event_bytes (limits d))
    (saturating_add u64_max (blen (data d)) (blen v + (if is_empty (data d) then 0 else 1)))) as [|Hle]; [done |]. intros [= <-].
  constructor; simpl; try done; [| exists []; by rewrite app_nil_r].
  unfold saturating_add, limits_ok in *. destruct (is_empty (data d)); rewrite ?length_app; simpl; lia.
Qed.

Lemma lines_effect lines st st' :
  limits_ok (limits st.1) -> blen (data st.1) <= maximum_sse_event_bytes (limits st.1) ->
  try_fold line_step st lines = Ok st' -> line_effect st st'.
Proof.
  revert st. induction lines as [|l lines IH]; intros [d ev] Hl Hd H; simpl in H.
  { injection H as <-. constructor; try done. exists []. by rewrite app_nil_r. }
  apply bind_Ok in H as (st1 & H1 & H2). unfold line_step in H1. destruct (_ <? _); [done |].
  apply consume_line_effect in H1 as [E1 [E2 E2'] E3 (m1 & E4 & E5)]; try done. simpl in *.
  apply IH in H2 as [F1 [F2 F2'] F3 (m2 & F4 & F5)]; [| by rewrite E1 | by rewrite E1]. rewrite E1 in *.
  constructor; simpl; try congruence; [split; congruence |]. exists (m1 ++ m2). rewrite F4, E4, <- app_assoc. split; [done |]. by apply Forall_app.
Qed.

Lemma push_eq d c :
  push d c =
  Some (total ← ok_or (checked_add u64_max (total_bytes d) (blen c)) TotalTooLarge;
        if maximum_sse_total_bytes (limits d) <? total then Err TotalTooLarge else
        push_lines (mkDecoder (limits d) (pending d ++ c) (data d) (event d) total) [] (pending d ++ c)).
Proof.
  unfold push. destruct (checked_add _ _ _) as [total|]; cbn [ok_or mbind result_bind]; [| done]. destruct (_ <? _); [done |].
  apply push_loop_lines. simpl. lia.
Qed.

(** [SseDecoder::push] always returns and respects its ceilings.  From a
    state within the limits it terminates on every chunk; when it accepts, the
    bytes it keeps are one incomplete line of at most the line ceiling, the
    event under assembly is at most the event ceiling, the byte count is exact
    and within the total ceiling, and every event it returns is non-empty and
    within the event ceiling. *)
Theorem push_bounded (d : SseDecoder) (chunk : bytes) (Hw : wf d) :
  exists r, push d chunk = Some r /\
    forall d' events, r = Ok (d', events) ->
      wf d' /\ limits d' = limits d /\ total_bytes d' = total_bytes d + blen chunk /\ Forall (event_bounded (limits d)) events.
Proof.
  destruct Hw as [Hl Hc Hp Hd Ht]. rewrite push_eq. eexists. split; [done |]. intros d' events H.
  apply bind_Ok in H as (total & Htot & H). apply ok_or_Ok, checked_add_Some in Htot as [-> _].
  destruct (Z.ltb_spec (maximum_sse_total_bytes (limits d)) (total_bytes d + blen chunk)) as [|Hle]; [done |].
  unfold push_lines in H. destruct (split_lines [] (pending d ++ chunk)) as [ls rest] eqn:Es.
  apply bind_Ok in H as (st & Hf & H). apply lines_effect in Hf as [E1 [E2 E2'] E3 (more & E4 & E5)]; [| done | done]. simpl in *.
  destruct (Z.ltb_spec (maximum_sse_line_bytes (limits d)) (blen rest)) as [|Hrest]; [done |]. injection H as <- <-.
  assert (Hclean : clean rest).
  { change rest with (ls, rest).2. rewrite <- Es. apply split_lines_clean. constructor. }
  simpl. rewrite E1, E2', E4. split_and!; try done. constructor; simpl; rewrite ?E1, ?E2'; try done. lia.
Qed.

(** ** Chunk boundaries *)

Lemma push_Ok d c d' es :
  push d c = Some (Ok (d', es)) <->
  total_bytes d + blen c <= Z.min u64_max (maximum_sse_total_bytes (limits d)) /\
  exists st, try_fold line_step (d, []) (split_lines [] (pending d ++ c)).1 = Ok st /\
    blen (split_lines [] (pending d ++ c)).2 <= maximum_sse_line_bytes (limits d) /\
    d' = set_frame st.1 (split_lines [] (pending d ++ c)).2 (total_bytes d + blen c) /\ es = st.2.
Proof.
  rewrite push_eq. set (D := mkDecoder (limits d) (pending d ++ c) (data d) (event d) (total_bytes d + blen c)).
  pose proof (lines_frame d (pending d ++ c) (total_bytes d + blen c) [] [] (split_lines [] (pending d ++ c)).1) as Hframe.
  change (set_frame d (pending d ++ c) (total_bytes d + blen c)) with D in Hframe. cbn [app] in Hframe.
  assert (Hlines : push_lines D [] (pending d ++ c) =
    (st ← try_fold line_step (d, []) (split_lines [] (pending d ++ c)).1;
     if maximum_sse_line_bytes (limits d) <? blen (split_lines [] (pending d ++ c)).2 then Err LineTooLarge
     else Ok (set_frame st.1 (split_lines [] (pending d ++ c)).2 (total_bytes d + blen c), st.2))).
  { unfold push_lines. destruct (split_lines [] (pending d ++ c)) as [ls r]. simpl in *. rewrite Hframe.
    by destruct (try_fold line_step (d, []) ls) as [[d1 e1]|]. }
  unfold checked_add. destruct (Z.leb_spec (total_bytes d + blen c) u64_max) as [H1|H1]; simpl; [| split; [done | lia]].
  destruct (Z.ltb_spec (maximum_sse_total_bytes (limits d)) (total_bytes d + blen c)) as [H2|H2]; [split; [done | lia] |].
  fold D. rewrite Hlines. split.
  - intros [= H]. apply bind_Ok in H as (st & Hst & H). destruct (Z.ltb_spec (maximum_sse_line_bytes (limits d)) (blen (split_lines [] (pending d ++ c)).2)); [done |].
    injection H as <- <-. split; [lia |]. by exists st.
  - intros (_ & st & -> & Hr & -> & ->). simpl. by destruct (Z.ltb_spec (maximum_sse_line_bytes (limits d)) (blen (split_lines [] (pending d ++ c)).2)); [lia |].
Qed.

Lemma split_lines_grows cur y :
  match split_lines cur y with ([], r) => blen cur <= blen r | (l :: _, _) => blen cur <= blen l end.
Proof.
  revert cur. induction y as [|b y IH]; intros cur; [simpl; lia |]. rewrite split_lines_cons.
  destruct (b =? CR); [simpl; lia |]. destruct (b =? LF); [simpl; lia |].
  specialize (IH (cur ++ [b])). destruct (split_lines (cur ++ [b]) y) as [[|l ls] r]; rewrite length_app in IH; simpl in IH; lia.
Qed.

Lemma last_CR_clean p c1 : clean p -> last (p ++ c1) = Some CR -> last c1 = Some CR.
Proof.
  intros Hp. rewrite last_app. destruct (last c1) as [b|] eqn:E; [done |]. intros H.
  apply last_Some_elem_of in H. unfold clean in Hp. rewrite Forall_forall in Hp. specialize (Hp CR H). done.
Qed.

(** Lines of a stream cut in two, from a decoder that holds one clean line. *)
Lemma split_pending d c1 c2 :
  clean (pending d) -> ~ (last c1 = Some CR /\ head c2 = Some LF) ->
  split_lines [] (pending d ++ c1 ++ c2) =
  app_lines (split_lines [] (pending d ++ c1)) (split_lines [] ((split_lines [] (pending d ++ c1)).2 ++ c2)).
Proof.
  intros Hp Hcut. rewrite app_assoc, split_lines_app.
  - rewrite (split_lines_resume [] _ c2); [done | apply split_lines_clean; constructor].
  - intros [H1 H2]. apply Hcut. split; [by eapply last_CR_clean | done].
Qed.

Lemma lines_limits lines st st' : try_fold line_step st lines = Ok st' -> limits st'.1 = limits st.1.
Proof.
  revert st. induction lines as [|l lines IH]; intros st H; simpl in H; [by injection H as <- |].
  apply bind_Ok in H as (st1 & H1 & H2). apply IH in H2 as ->. unfold line_step in H1. destruct (_ <? _); [done |].
  by apply consume_line_limits in H1.
Qed.

(** C39: The decoded events do not depend on where the stream is cut into
    chunks, as long as no cut falls inside a CR LF pair: pushing a
    concatenation succeeds exactly when pushing the parts does, with the same
    events in the same order and the same final state. *)
Theorem push_chunks (d d' : SseDecoder) (c1 c2 : bytes) (es : list SseEvent)
  (Hw : wf d) (Hcut : ~ (last c1 = Some CR /\ head c2 = Some LF)) :
  push d (c1 ++ c2) = Some (Ok (d', es)) <->
  exists d1 es1 es2, push d c1 = Some (Ok (d1, es1)) /\ push d1 c2 = Some (Ok (d', es2)) /\ es = es1 ++ es2.
Proof.
  destruct Hw as [Hl Hclean Hp Hd Ht]. rewrite push_Ok, split_pending by done.
  set (x := split_lines [] (pending d ++ c1)). set (y := split_lines [] (x.2 ++ c2)).
  assert (Hxc : clean x.2) by (apply split_lines_clean; constructor).
  rewrite length_app, Nat2Z.inj_add. cbn [app_lines fst snd]. rewrite try_fold_app. split.
  - intros (Htot & st & Hf & Hr & -> & ->). apply bind_Ok in Hf as (st1 & H1 & H2).
    pose proof (lines_limits _ _ _ H1) as El. simpl in El.
    assert (Hx2 : blen x.2 <= maximum_sse_line_bytes (limits d)).
    { pose proof (split_lines_grows x.2 c2) as Hg. rewrite <- (app_nil_l x.2), <- split_lines_resume in Hg by done. fold y in Hg.
      destruct y as [[|l ls] r]; simpl in *; [lia |]. apply bind_Ok in H2 as (st2 & H2 & _). unfold line_step in H2.
      destruct (Z.ltb_spec (maximum_sse_line_bytes (limits st1.1)) (blen l)); [done |]. rewrite El in *. lia. }
    pose proof (lines_frame st1.1 x.2 (total_bytes d + blen c1) [] [] y.1) as Hframe.
    pose proof (lines_frame st1.1 (pending st1.1) (total_bytes st1.1) st1.2 [] y.1) as Hev.
    rewrite set_frame_id, app_nil_r in Hev. replace (st1.1, st1.2) with st1 in Hev by (by destruct st1). rewrite H2 in Hev.
    destruct (try_fold line_step (st1.1, []) y.1) as [st2|] eqn:E2; [| done]. simpl in Hev, Hframe. injection Hev as Hev.
    exists (set_frame st1.1 x.2 (total_bytes d + blen c1)), st1.2, st2.2. split_and!.
    + apply push_Ok. fold x. split; [lia |]. by exists st1.
    + apply push_Ok. simpl. fold y. rewrite El. split; [lia |]. eexists. split; [exact Hframe |]. split_and!; try done.
      rewrite Hev. simpl. unfold set_frame. simpl. f_equal. lia.
    + by rewrite Hev.
  - intros (d1 & es1 & es2 & (Ht1 & st1 & H1 & Hr1 & -> & ->)%push_Ok & H2 & ->). fold x in H1, Hr1, H2.
    apply push_Ok in H2 as (Ht2 & st2 & H2 & Hr2 & -> & ->). simpl in *. fold y in H2, Hr2.
    pose proof (lines_limits _ _ _ H1) as El. simpl in El. rewrite El in *.
    pose proof (lines_frame st1.1 x.2 (total_bytes d + blen c1) [] [] y.1) as Hframe. cbn [app] in Hframe. rewrite Hframe in H2.
    pose proof (lines_frame st1.1 (pending st1.1) (total_bytes st1.1) st1.2 [] y.1) as Hev.
    rewrite set_frame_id, app_nil_r in Hev. replace (st1.1, st1.2) with st1 in Hev by (by destruct st1).
    destruct (try_fold line_step (st1.1, []) y.1) as [st3|] eqn:E3; [| done]. simpl in H2, Hev. injection H2 as <-.
    split; [lia |]. eexists. rewrite H1. simpl. rewrite Hev. split; [done |]. split_and!; try done. simpl. unfold set_frame. simpl. f_equal. lia.
Qed.

(** ** Concrete streams *)

Definition sample_limits : Limits := mkLimits 67108864 524288 2097152.
Definition crlf : bytes := [CR; LF].
Definition text (s : bytes) : SseEvent := mkEvent None s.


(** Empty [data] lines before the first non-empty one leave no trace: in
    whatever spelling they come, they do not change a decoder that has no data
    yet.  So a stream whose event starts with an empty [data] line decodes to
    the event without that line, and an event of empty [data] lines only is
    not dispatched. *)
Theorem empty_first_data_line_dropped (d : SseDecoder) (events : list SseEvent)
  (Hd : data d = []) (Hm : 0 <= maximum_sse_event_bytes (limits d)) :
  Forall (fun line => consume_line d events line = Ok (d, events)) [bytes_of "data"; bytes_of "data:"; bytes_of "data: "] /\
  decode_from (new sample_limits) [bytes_of "data:" ++ [LF] ++ bytes_of "data: x" ++ [LF; LF]] = Some (Ok [text (bytes_of "x")]) /\
  decode_from (new sample_limits) [bytes_of "data:" ++ [LF; LF]] = Some (Ok []).
Proof.
  split; [| split; vm_compute; reflexivity].
  destruct d as [lim pend dat ev tot]. simpl in *. subst dat.
  repeat apply Forall_cons_2; [.. | apply Forall_nil_2];
    unfold consume_line; simpl; (rewrite (proj2 (Z.ltb_ge _ _)); [done | done]).
Qed.

Lemma empty_first_data_line_dropped_witness :
  consume_line (new sample_limits) [] (bytes_of "data:") = Ok (new sample_limits, []).
Proof.
  destruct (empty_first_data_line_dropped (new sample_limits) [] eq_refl) as [H _]; [simpl; lia |].
  exact (proj1 (Forall_cons_1 _ _ _ (proj2 (Forall_cons_1 _ _ _ H)))).
Defined.

Lemma new_wf : wf (new sample_limits).
Proof. constructor; simpl; try done. constructor. Qed.

Lemma push_bounded_witness :
  exists d events, push (new sample_limits) (bytes_of "data: a" ++ crlf ++ crlf ++ bytes_of "da") = Some (Ok (d, events)) /\
    Forall (event_bounded sample_limits) events /\ blen (pending d) <= 524288.
Proof.
  destruct (push_bounded (new sample_limits) (bytes_of "data: a" ++ crlf ++ crlf ++ bytes_of "da") new_wf) as (r & Hr & H).
  destruct r as [[d events]|e]; [| vm_compute in Hr; discriminate Hr]. exists d, events.
  destruct (H d events eq_refl) as (Hw & El & _ & He). split; [exact Hr | split; [exact He |]].
  pose proof (wf_pending d Hw) as Hp. rewrite El in Hp. exact Hp.
Defined.

Lemma push_chunks_witness :
  exists d es, push (new sample_limits) (bytes_of "data: a" ++ crlf ++ crlf) = Some (Ok (d, es)) /\
    exists d1 es1 es2, push (new sample_limits) (bytes_of "dat") = Some (Ok (d1, es1)) /\
      push d1 (bytes_of "a: a" ++ crlf ++ crlf) = Some (Ok (d, es2)) /\ es = es1 ++ es2.
Proof.
  destruct (push (new sample_limits) (bytes_of "data: a" ++ crlf ++ crlf)) as [[[d es]|]|] eqn:E;
    [| vm_compute in E; discriminate E | vm_compute in E; discriminate E].
  exists d, es. split; [reflexivity |].
  apply (push_chunks (new sample_limits) d (bytes_of "dat") (bytes_of "a: a" ++ crlf ++ crlf) es new_wf).
  - intros [H _]. vm_compute in H. discriminate H.
  - exact E.
Defined.

End Decoder.
