(* ===== verification/ToolRuntimeLaws.v ===== *)
(** Laws of the tool boundary: contexts have a finite deadline inside the run's
    and the descriptor's, progress is delivered in order without gaps, the
    adapter always answers with evidence that validates for its invocation, and
    the invocation ledger can record that evidence. *)

From Stdlib Require Import ZArith Lia List.
From stdpp Require Import prelude.
From S2P Require Import Prelude Ordered Json Ids Decimal Digests Scope BoundedJson BoundedJsonLaws Accounting Time Budget Content Extension Capability Failures Run Checkpoint Journal Barrier Tool ToolInvocation ToolInvocationLaws ToolRuntime.

Open Scope Z_scope.
Import Timestamp(Timestamp).

Module ToolBoundary.
Import Text Content Capability Tools ToolRuntime.

(** * Deadlines *)

Lemma finite_deadline_spec {E} (reached : Timestamp -> Timestamp -> E) out run observed instant time :
  Timestamp.valid run -> Timestamp.valid observed -> 0 < time ->
  match finite_deadline reached out run observed instant time with
  | Ok (deadline, at_) =>
      deadline = Z.min run (observed + time * 1000) /\ observed < deadline /\ at_ = instant + (deadline - observed) * 1000
  | Err Panic => False
  | Err (Fail e) =>
      (run <= observed /\ e = reached run observed) \/
      (observed < run /\ instant_checked_add instant (Z.min (run - observed) (time * 1000) * 1000) = None /\
       e = out (Z.min (run - observed) (time * 1000) * 1000))
  end.
Proof.
  intros Hr Ho Ht. unfold finite_deadline.
  destruct (Z.leb_spec (run - observed) 0) as [|Hpos]; [left; split; [lia | done] |].
  set (remaining := Z.min (run - observed) (time * 1000)).
  assert (Hrem : 0 < remaining <= run - observed) by lia.
  assert (Hd : Timestamp.valid (observed + remaining)) by (unfold Timestamp.valid in *; lia).
  assert (Hb : (i64_min <=? observed + remaining) && (observed + remaining <=? i64_max) = true).
  { clear - Hd. unfold Timestamp.valid, Timestamp.MIN, Timestamp.MAX, i64_min, i64_max in *. lia. }
  assert (Hu : (0 <=? remaining) && (remaining <=? u64_max) = true).
  { clear - Hrem Hr Ho. unfold Timestamp.valid, Timestamp.MIN, Timestamp.MAX, u64_max in *. lia. }
  rewrite Hb, Hu. simpl. rewrite (proj2 (Timestamp.from_unix_micros_iff _ _) (conj eq_refl Hd)). simpl.
  destruct (instant_checked_add instant (remaining * 1000)) as [at_|] eqn:Ea; simpl; [| right; split_and!; [lia | done | done]].
  unfold instant_checked_add in Ea. revert Ea. case_match; [intros [= <-]; subst remaining; lia | done].
Qed.

Lemma finite_deadline_Ok {E} (reached : Timestamp -> Timestamp -> E) out run observed instant time deadline at_ :
  Timestamp.valid run -> Timestamp.valid observed -> 0 < time ->
  finite_deadline reached out run observed instant time = Ok (deadline, at_) ->
  deadline = Z.min run (observed + time * 1000) /\ observed < deadline /\ at_ = instant + (deadline - observed) * 1000.
Proof. intros Hr Ho Ht H. pose proof (finite_deadline_spec reached out run observed instant time Hr Ho Ht) as S. by rewrite H in S. Qed.

Lemma finite_deadline_safe {E} (reached : Timestamp -> Timestamp -> E) out run observed instant time :
  Timestamp.valid run -> Timestamp.valid observed -> 0 < time -> finite_deadline reached out run observed instant time <> Err Panic.
Proof. intros Hr Ho Ht H. pose proof (finite_deadline_spec reached out run observed instant time Hr Ho Ht) as S. by rewrite H in S. Qed.

Lemma key_is_valid_for d invocation_id : key_is_valid (idempotency (semantics d)) (idempotency_key_for d invocation_id) invocation_id = true.
Proof. unfold idempotency_key_for, requires_idempotency_key. destruct (idempotency (semantics d)); simpl; [done | done | apply Z.eqb_refl | done]. Qed.

Lemma remaining_time_Some deadline at_ r : remaining_time deadline at_ = Some r <-> at_ < deadline /\ r = deadline - at_.
Proof.
  unfold remaining_time, checked_duration_since. destruct (Z.leb_spec at_ deadline); [| split; [done | lia]].
  destruct (Z.eqb_spec (deadline - at_) 0); split; try done; try lia; [intros [= <-]; lia | intros [_ ->]; done].
Qed.

Lemma stop_reason_None cancelled deadline at_ : stop_reason cancelled deadline at_ = None <-> cancelled = false /\ at_ < deadline.
Proof.
  unfold stop_reason. destruct cancelled; [split; [done | by intros [? _]] |].
  destruct (remaining_time deadline at_) as [r|] eqn:E.
  - apply remaining_time_Some in E as [? _]. split; [done | done].
  - split; [done |]. intros [_ H]. assert (remaining_time deadline at_ = Some (deadline - at_)) as E' by (by apply remaining_time_Some). by rewrite E in E'.
Qed.

(** C9: A context never panics on valid timestamps; when it is built, its
    deadline is the earlier of the run's deadline and the effective timeout
    (itself within the descriptor's), strictly after the observation, with the
    monotonic deadline exactly as far away; it carries an idempotency key
    exactly when the descriptor requires one, its result ceilings are within
    the descriptor and the remaining budget, it validates for its descriptor,
    and an attempt is told to stop exactly when it is cancelled or the
    monotonic deadline is reached. *)
Theorem tool_context_bounded (tenant : bytes) (run thread invocation attempt : Z) (d : ToolDescriptor) (budget : BudgetRemaining.t)
    (time : DurationMillis.DurationMillis) (observed : Timestamp) (instant : Instant)
    (Hrun : Timestamp.valid (BudgetRemaining.deadline budget)) (Hobs : Timestamp.valid observed) (Htime : DurationMillis.valid time) :
  let built := context_new tenant run thread invocation attempt d budget time observed instant in
  built <> Err Panic /\
  forall c, built = Ok c ->
    observed < ctx_deadline c <= BudgetRemaining.deadline budget /\
    ctx_deadline c = Z.min (BudgetRemaining.deadline budget) (observed + time * 1000) /\
    time <= timeout (limits d) /\
    ctx_deadline_instant c - instant = (ctx_deadline c - observed) * 1000 /\
    (ctx_idempotency_key c = Some invocation <-> idempotency (semantics d) = RequiredKey) /\
    ctx_max_inline_result_bytes c <= Z.min (max_inline_result_bytes (limits d)) (BudgetRemaining.output_bytes budget) /\
    ctx_max_total_artifact_bytes c <= Z.min (max_total_artifact_bytes (limits d)) (BudgetRemaining.artifact_bytes budget) /\
    context_validate_for c d = Ok tt /\
    (forall cancelled at_, stop_reason cancelled (ctx_deadline_instant c) at_ = None <->
       cancelled = false /\ at_ - instant < (ctx_deadline c - observed) * 1000).
Proof.
  simpl. unfold context_new. destruct (Z.eqb_spec time 0) as [|Hz]; [done |]. assert (Hpos : 0 < time) by (unfold DurationMillis.valid in Htime; lia).
  destruct (Z.ltb_spec (timeout (limits d)) time) as [|Hle]; [done |]. split.
  { intros [H|([? ?] & _ & ?)]%bind_panic; [by apply finite_deadline_safe in H | done]. }
  intros c ([deadline at_] & Hd & [= <-])%bind_Ok. apply finite_deadline_Ok in Hd as (-> & Hafter & ->); [| done..].
  cbn [ctx_deadline ctx_deadline_instant ctx_idempotency_key ctx_max_inline_result_bytes ctx_max_total_artifact_bytes].
  split_and!; try lia.
  - unfold idempotency_key_for, requires_idempotency_key. by destruct (idempotency (semantics d)).
  - unfold context_validate_for; simpl. rewrite !bool_decide_true by done. simpl.
    rewrite (proj2 (Z.ltb_ge _ _) Hle), key_is_valid_for. done.
  - intros cancelled at_. rewrite stop_reason_None. intuition lia.
Qed.

Lemma tool_reconciliation_bounded tenant run thread invocation attempt d time observed instant run_deadline :
  Timestamp.valid run_deadline -> Timestamp.valid observed -> DurationMillis.valid time ->
  let built := reconciliation_new tenant run thread invocation attempt d time observed instant run_deadline in
  built <> Err Panic /\
  forall c, built = Ok c ->
    status_query (semantics d) = true /\ rc_deadline c = Z.min run_deadline (observed + time * 1000) /\ observed < rc_deadline c /\
    reconciliation_validate_for c d = Ok tt.
Proof.
  intros Hrun Hobs Htime. simpl. unfold reconciliation_new. destruct (status_query (semantics d)) eqn:Eq; [simpl | done].
  destruct (Z.eqb_spec time 0) as [|Hz]; [done |]. assert (Hpos : 0 < time) by (unfold DurationMillis.valid in Htime; lia).
  destruct (Z.ltb_spec (timeout (limits d)) time) as [|Hle]; [done |]. split.
  { intros [H|([? ?] & _ & ?)]%bind_panic; [by apply finite_deadline_safe in H | done]. }
  intros c ([deadline at_] & Hd & [= <-])%bind_Ok. apply finite_deadline_Ok in Hd as (-> & Hafter & ->); [| done..].
  split_and!; [done | done | done |]. unfold reconciliation_validate_for; simpl. rewrite Eq, !bool_decide_true by done. simpl.
  by rewrite (proj2 (Z.ltb_ge _ _) Hle), key_is_valid_for.
Qed.

(** Narrowing and the durable origin keep a context valid for its descriptor. *)
Lemma context_narrow_valid c d lim event :
  context_validate_for c d = Ok tt ->
  context_validate_for (narrow_artifact_limits c lim) d = Ok tt /\ context_validate_for (with_durable_origin_event c event) d = Ok tt.
Proof. by intros H. Qed.

(** * Progress *)

(** The log of a reporter: sequence numbers from zero without gaps, completed
    units strictly increasing and within the total, which never changes. *)
Definition ordered_log (p : ToolProvenance) (maximum : Z) (log : list ToolProgressEvent) : Prop :=
  (forall i e, log !! i = Some e -> event_sequence e = Z.of_nat i /\ event_provenance e = p /\ event_sequence e < maximum /\
     (forall t, total (event_update e) = Some t -> completed (event_update e) <= t)) /\
  (forall i e e', log !! i = Some e -> log !! S i = Some e' ->
     completed (event_update e) < completed (event_update e') /\
     (forall t, total (event_update e) = Some t -> total (event_update e') = Some t)).

(** The state agrees with its log. *)
Record progress_inv (r : ToolProgressReporter) (s : ProgressRun) : Prop := {
  inv_log : ordered_log (reporter_provenance r) (maximum_events r) (delivered s);
  inv_next : next_sequence (progress s) = Z.of_nat (length (delivered s));
  inv_last : last_completed (progress s) = (fun e => completed (event_update e)) <$> last (delivered s);
  inv_total : progress_total (progress s) = (last (delivered s) ≫= fun e => total (event_update e));
  inv_flight : in_flight (progress s) = negb (is_none (pending s));
  inv_pending : forall e, pending s = Some e -> poisoned (progress s) = false /\ next_sequence (progress s) < maximum_events r /\
    ordered_log (reporter_provenance r) (maximum_events r) (delivered s ++ [e])
}.

Lemma ordered_snoc p maximum log e :
  ordered_log p maximum log -> event_sequence e = Z.of_nat (length log) -> event_provenance e = p -> event_sequence e < maximum ->
  (forall t, total (event_update e) = Some t -> completed (event_update e) <= t) ->
  (forall prev, last log = Some prev -> completed (event_update prev) < completed (event_update e) /\
     (forall t, total (event_update prev) = Some t -> total (event_update e) = Some t)) ->
  ordered_log p maximum (log ++ [e]).
Proof.
  intros [H1 H2] Hs Hp Hm Ht Hprev. split.
  - intros i x Hi. destruct (decide (i < length log)%nat) as [|Hge].
    + rewrite lookup_app_l in Hi by done. by apply H1.
    + apply lookup_snoc_Some in Hi as [[? _]|[-> ->]]; [lia | done].
  - intros i x y Hx Hy. destruct (decide (S i < length log)%nat) as [|Hge].
    + rewrite lookup_app_l in Hx by lia. rewrite lookup_app_l in Hy by done. by apply (H2 i).
    + apply lookup_snoc_Some in Hy as [[? _]|[Hl ->]]; [lia |]. apply Hprev. rewrite last_lookup, <- Hl. simpl.
      by rewrite lookup_app_l in Hx by lia.
Qed.

Lemma emit_reserve_Ok r st update event st' :
  emit_reserve r st update = Ok (event, st') ->
  poisoned st = false /\ in_flight st = false /\ next_sequence st < maximum_events r /\
  event = mkEvent (reporter_provenance r) (next_sequence st) (mkUpdate (completed update) (option_or (total update) (progress_total st))) /\
  st' = mkProgress (next_sequence st) (last_completed st) (progress_total st) true (poisoned st) /\
  (forall c, last_completed st = Some c -> c < completed update) /\
  (forall t, progress_total st = Some t -> option_or (total update) (progress_total st) = Some t) /\
  (forall t, option_or (total update) (progress_total st) = Some t -> completed update <= t).
Proof.
  unfold emit_reserve. intros H. open_guards H. injection H as <- <-. split_and!; try done.
  - intros c Hc. rewrite Hc in *. simpl in *. open_guards Hx. lia.
  - intros t Ht. rewrite Ht in *. destruct (total update) as [t'|]; simpl in *; [| done]. destruct (Z.eqb_spec t t'); [by subst | done].
  - intros t Ht. rewrite Ht in *. simpl in *. open_guards Hx1. lia.
Qed.

Lemma ordered_snoc_inv p maximum log e :
  ordered_log p maximum (log ++ [e]) ->
  event_sequence e < maximum /\ (forall t, total (event_update e) = Some t -> completed (event_update e) <= t) /\
  (forall prev, last log = Some prev -> completed (event_update prev) < completed (event_update e) /\
     (forall t, total (event_update prev) = Some t -> total (event_update e) = Some t)).
Proof.
  intros [H1 H2]. assert (He : (log ++ [e]) !! length log = Some e) by (by apply list_lookup_middle).
  destruct (H1 _ _ He) as (_ & _ & ? & ?). split_and!; [done | done |].
  intros prev Hp. rewrite last_lookup in Hp. apply (H2 (pred (length log)));
    [rewrite lookup_app_l; [done | by eapply lookup_lt_Some] |].
  apply lookup_lt_Some in Hp as Hl. by replace (S (pred (length log))) with (length log) by lia.
Qed.

(** The event [emit] reserves for an update after a log. *)
Definition next_event (r : ToolProgressReporter) (log : list ToolProgressEvent) (u : ToolProgressUpdate) : ToolProgressEvent :=
  mkEvent (reporter_provenance r) (Z.of_nat (length log))
    (mkUpdate (completed u) (option_or (total u) (last log ≫= fun e => total (event_update e)))).

Lemma emit_reserve_exact r s u :
  progress_inv r s ->
  (is_ok (emit_reserve r (progress s) u) = true <->
   poisoned (progress s) = false /\ pending s = None /\ ordered_log (reporter_provenance r) (maximum_events r) (delivered s ++ [next_event r (delivered s) u])) /\
  (forall e st, emit_reserve r (progress s) u = Ok (e, st) -> e = next_event r (delivered s) u).
Proof.
  intros [Hlog Hnext Hlast Htotal Hflight _]. split.
  - split.
    + intros Hok. destruct (emit_reserve r (progress s) u) as [[e st]|] eqn:E; [| done].
      apply emit_reserve_Ok in E as (Hp & Hf & Hm & _ & _ & Hc & Ht & Hb). split_and!; [done | |].
      * rewrite Hf in Hflight. by destruct (pending s).
      * apply ordered_snoc; simpl; try done; [lia | by rewrite <- Htotal |].
        intros prev Hl. rewrite <- Htotal. rewrite Hl in Hlast, Htotal. simpl in Hlast, Htotal. split; [by apply Hc |].
        intros t Hpt. apply Ht. by rewrite Htotal.
    + intros (Hp & Hpend & Hl). apply ordered_snoc_inv in Hl as (Hs & Hb & Hprev). simpl in Hs, Hb, Hprev. rewrite <- Htotal in Hb, Hprev.
      unfold emit_reserve. rewrite Hp, Hflight, Hpend. simpl. rewrite (proj2 (Z.leb_gt _ _)) by lia.
      assert (check_increasing (last_completed (progress s)) (completed u) = Ok tt) as ->.
      { rewrite Hlast. destruct (last (delivered s)) as [e|]; [| done]. simpl. destruct (Hprev e eq_refl) as [? _].
        by rewrite (proj2 (Z.leb_gt _ _)) by lia. }
      simpl. assert (check_total (progress_total (progress s)) (total u) = Ok tt) as ->.
      { rewrite Htotal in *. destruct (last (delivered s)) as [e|]; [| done]. simpl in *. destruct (total (event_update e)) as [t|] eqn:Et; [| done].
        destruct (Hprev e eq_refl) as [_ Hk]. specialize (Hk t Et). destruct (total u) as [t'|]; [| done]. injection Hk as ->. simpl. by rewrite Z.eqb_refl. }
      simpl. assert (check_completed (completed u) (option_or (total u) (progress_total (progress s))) = Ok tt) as ->; [| done].
      destruct (option_or _ _) as [t|]; [| done]. simpl. by rewrite (proj2 (Z.ltb_ge _ _)) by (apply Hb; done).
  - intros e st E. apply emit_reserve_Ok in E as (_ & _ & _ & -> & _). unfold next_event. by rewrite Hnext, Htotal.
Qed.

Lemma progress_step_inv r s step : maximum_events r <= u64_max -> progress_inv r s -> progress_inv r (progress_step r s step).
Proof.
  intros Hmax Hinv. destruct step as [u| | |]; simpl.
  - destruct (emit_reserve r (progress s) u) as [[e st]|] eqn:E; [| done].
    destruct (emit_reserve_exact r s u Hinv) as [Hiff He]. rewrite E in Hiff. destruct (proj1 Hiff eq_refl) as (Hp & Hn & Ho).
    rewrite <- (He _ _ E) in Ho. apply emit_reserve_Ok in E as (_ & _ & Hm & _ & -> & _). destruct Hinv. constructor; simpl; try done.
    intros ? [= <-]. by rewrite Hp.
  - destruct (pending s) as [e|] eqn:Ep; [| done]. destruct Hinv as [Hlog Hnext Hlast Htotal Hflight Hpend].
    destruct (Hpend e Ep) as (Hp & Hm & Ho). unfold reservation_commit.
    rewrite (proj2 (checked_add_Some u64_max _ _ (next_sequence (progress s) + 1))) by lia.
    constructor; simpl; rewrite ?last_snoc, ?length_app; simpl; try done; lia.
  - destruct (pending s) as [e|] eqn:Ep; [| done]. destruct Hinv. by constructor.
  - destruct (pending s) as [e|] eqn:Ep; [| done]. destruct Hinv. by constructor.
Qed.

Lemma progress_steps_inv r steps s : maximum_events r <= u64_max -> progress_inv r s -> progress_inv r (fold_left (progress_step r) steps s).
Proof. revert s. induction steps as [|x steps IH]; intros s Hm Hs; [done |]. apply IH; [done |]. by apply progress_step_inv. Qed.

Lemma progress_run_inv r steps : maximum_events r <= u64_max -> progress_inv r (progress_run r steps).
Proof. intros Hm. apply progress_steps_inv; [done |]. constructor; try done. Qed.

Lemma poisoned_final r s steps : poisoned (progress s) = true -> pending s = None -> fold_left (progress_step r) steps s = s.
Proof.
  intros Hp Hn. induction steps as [|x steps IH]; [done |]. simpl.
  assert (progress_step r s x = s) as ->; [| done]. destruct x; simpl; rewrite ?Hn; [| done..]. unfold emit_reserve. by rewrite Hp.
Qed.

Lemma delivered_grows r s x : delivered s `prefix_of` delivered (progress_step r s x).
Proof.
  destruct x as [u| | |]; simpl; repeat case_match; simpl; try done; try (by apply prefix_app_r). 
Qed.

Lemma delivered_prefix r s steps : delivered s `prefix_of` delivered (fold_left (progress_step r) steps s).
Proof. revert s. induction steps as [|x steps IH]; intros s; [done |]. simpl. etrans; [apply delivered_grows | apply IH]. Qed.

(** However calls of [emit], answers of the sink and dropped futures
    interleave, the events a reporter delivers are numbered from zero without
    gaps, stay below the ceiling, carry the reporter's provenance, strictly
    increase and stay within one unchanging total; the log only grows; an
    update is reserved exactly when no emission is in flight, nothing poisoned
    the reporter and the log stays such; an accepted event is delivered; and
    after a rejected or dropped emission nothing is delivered any more. *)
Theorem progress_delivered_in_order (r : ToolProgressReporter) (steps : list ProgressStep) (Hmax : maximum_events r <= u64_max) :
  let s := progress_run r steps in
  ordered_log (reporter_provenance r) (maximum_events r) (delivered s) /\
  (forall more, delivered s `prefix_of` delivered (progress_run r (steps ++ more))) /\
  (forall u, is_ok (emit_reserve r (progress s) u) = true <->
     poisoned (progress s) = false /\ pending s = None /\
     ordered_log (reporter_provenance r) (maximum_events r) (delivered s ++ [next_event r (delivered s) u])) /\
  (forall e, pending s = Some e -> delivered (progress_run r (steps ++ [SinkAccepted])) = delivered s ++ [e]) /\
  (forall e more, pending s = Some e ->
     delivered (progress_run r (steps ++ SinkRejected :: more)) = delivered s /\
     delivered (progress_run r (steps ++ FutureDropped :: more)) = delivered s).
Proof.
  simpl. pose proof (progress_run_inv r steps Hmax) as Hinv. split_and!.
  - apply Hinv.
  - intros more. unfold progress_run. rewrite fold_left_app. apply delivered_prefix.
  - intros u. by apply emit_reserve_exact.
  - intros e He. destruct (inv_pending _ _ Hinv e He) as (_ & Hm & _). unfold progress_run in *. rewrite fold_left_app. simpl. rewrite He.
    unfold reservation_commit. by rewrite (proj2 (checked_add_Some u64_max _ _ (next_sequence (progress (fold_left (progress_step r) steps (mkRun_ progress_initial None []))) + 1))) by lia.
  - intros e more He. unfold progress_run in *. rewrite !fold_left_app. simpl. rewrite He. by rewrite !(poisoned_final r (mkRun_ (reservation_fail _) None _)).
Qed.

(** * The adapter *)

Lemma validate_provenance_Ok p c d u :
  validate_provenance p c d = Ok u <->
  context_validate_for c d = Ok tt /\ prov_invocation_id p = ctx_invocation_id c /\ prov_attempt_id p = ctx_attempt_id c /\ prov_tool p = tool_identity d.
Proof.
  unfold validate_provenance. destruct (context_validate_for c d) as [[]|]; simpl; [| split; [done | by intros [? _]]]. destruct u.
  destruct (Z.eqb_spec (prov_invocation_id p) (ctx_invocation_id c)); simpl; [| split; [done | tauto]].
  destruct (Z.eqb_spec (prov_attempt_id p) (ctx_attempt_id c)); simpl; [| split; [done | tauto]].
  case_bool_decide; simpl; naive_solver.
Qed.

Section Errors.
Context {Details : Type}.
Implicit Type e : ToolError Details.

Lemma error_validate_Ok e c d u :
  error_validate_for e c d = Ok u <->
  validate_provenance (error_provenance e) c d = Ok tt /\ effect_matches_risk (risk (semantics d)) (external_effect e) = true /\
  ~ (risk (semantics d) = NonIdempotentWrite /\ external_effect e = Applied /\ is_safe_after (retry_advice (failure e)) = true).
Proof.
  unfold error_validate_for. destruct (validate_provenance _ _ _) as [[]|]; simpl; [| split; [done | by intros [? _]]]. destruct u.
  destruct (effect_matches_risk _ _); simpl; [| split; [done | by intros (_ & ? & _)]].
  case_bool_decide; simpl; [| naive_solver]. case_bool_decide; simpl; [| naive_solver]. destruct (is_safe_after _); simpl; [| naive_solver].
  split; [done | intros (_ & _ & Hn); by destruct Hn].
Qed.

(** The error an adapter function returns for static texts. *)
Definition built_error (id : Z) (c : ToolContext) (d : ToolDescriptor) cat advice code message p effect : ToolError Details :=
  mkToolError (mkFailure id cat code (bytes_of "stateknot.tool_adapter") message advice None None) p effect (provenance_for_invocation c d) None.

Definition static_texts (code message : bytes) : bool :=
  is_ok (Failures.validate_failure_identifier code) && is_ok (Failures.validate_failure_message message).

Lemma adapter_error_total id c d cat advice code message p effect :
  static_texts code message = true -> validate_failure_recovery cat advice = Ok tt ->
  (effect = Unknown <-> cat = AmbiguousExternalOutcome) -> phase_effect_valid p effect = true ->
  adapter_error id c d cat advice code message p effect = Ok (built_error id c d cat advice code message p effect).
Proof.
  unfold static_texts, adapter_error, static_failure. intros [Hc Hm]%andb_true_iff Hr Hu Hp.
  destruct (Failures.validate_failure_identifier code) as [[]|]; [| done]. destruct (Failures.validate_failure_message message) as [[]|]; [| done].
  assert (Failures.validate_failure_identifier (bytes_of "stateknot.tool_adapter") = Ok tt) as -> by (by vm_compute).
  unfold failure_new. rewrite Hr. simpl.
  by rewrite (proj2 (tool_error_new_Ok _ p effect (provenance_for_invocation c d) (built_error id c d cat advice code message p effect))).
Qed.

Lemma built_error_binds id c d cat code message p effect advice :
  context_validate_for c d = Ok tt -> effect_matches_risk (risk (semantics d)) effect = true -> is_safe_after advice = false ->
  error_validate_for (built_error id c d cat advice code message p effect) c d = Ok tt.
Proof.
  intros Hc He Hs. apply error_validate_Ok. split_and!; [by apply validate_provenance_Ok | done |]. simpl. rewrite Hs. by intros (_ & _ & ?).
Qed.

(** A public answer: evidence that validates for the invocation. *)
Definition answers (c : ToolContext) (d : ToolDescriptor) (e : ToolError Details) : Prop :=
  error_validate_for e c d = Ok tt /\ tool_error_wf e.

Lemma preparation_answers id c d code message :
  context_validate_for c d = Ok tt -> static_texts code message = true ->
  exists e, preparation_adapter_error id c d code message = Ok e /\ answers c d e /\ Tools.phase e = Preparation /\ retry_advice (failure e) = Never.
Proof.
  intros Hc Hs. unfold preparation_adapter_error. eexists. split; [apply adapter_error_total; [done | done | by destruct (risk _) | by destruct (risk _)] |].
  split_and!; [split | done | done]; [apply built_error_binds; [done | by destruct (risk (semantics d)) | done] |].
  split_and!; simpl; try done; by destruct (risk (semantics d)).
Qed.

Lemma result_answers id c d code message :
  context_validate_for c d = Ok tt -> static_texts code message = true ->
  exists e, result_adapter_error id c d code message = Ok e /\ answers c d e.
Proof.
  intros Hc Hs. unfold result_adapter_error. eexists. split; [apply adapter_error_total; [done | done | by destruct (risk _) | by destruct (risk _)] |].
  split; [apply built_error_binds; [done | by destruct (risk (semantics d)) | done] |].
  split_and!; simpl; try done; by destruct (risk (semantics d)).
Qed.

Lemma invalid_answers id c d :
  context_validate_for c d = Ok tt ->
  exists e, invalid_tool_error id c d = Ok e /\ answers c d e /\
    (risk (semantics d) <> ReadOnly -> external_effect e = Unknown /\ retry_advice (failure e) = ReconcileFirst).
Proof.
  intros Hc. unfold invalid_tool_error. destruct (risk (semantics d)) eqn:Er; simpl; (eexists; split;
    [apply adapter_error_total; [by vm_compute | done | done | done] |]);
    (split; [| done]); (split; [apply built_error_binds; [done | by rewrite Er | done] |]); by split_and!.
Qed.

Lemma output_limits_total {E} d : 0 < max_inline_result_bytes (limits d) -> exists lim, tool_output_json_limits (E := E) d = Ok lim.
Proof.
  intros Hpos. unfold tool_output_json_limits, json_limits_try_new, validate_configured_limit.
  set (m := Z.min _ _). assert (Hm : 0 < m <= max_bytes LIMITS_MAXIMUM) by (subst m; unfold LIMITS_MAXIMUM, MEBIBYTE, KIBIBYTE; simpl; lia).
  rewrite (proj2 (Z.eqb_neq m 0)), (proj2 (Z.ltb_ge _ m)) by lia. by eexists.
Qed.

End Errors.

Lemma guard_Ok {Details E A} (r : result E A) (e : result (fault Empty_set) (ToolError Details)) a : guard r e = Ok a <-> r = Ok a.
Proof. destruct r; simpl; [split; congruence |]. unfold raise. by destruct e. Qed.

Lemma guard_Err {Details E A} (r : result E A) (e : ToolError Details) f :
  guard r (Ok e) = Err f -> f = Fail e.
Proof. destruct r; simpl; [done |]. by intros [= <-]. Qed.

Section Adapter.
Context {Details Input Output SchemaError SerdeError : Type}.
Variable fresh_id : Z.
Variable validate_instance : SchemaReference -> ToolSchemaRole -> BoundedJson -> result SchemaError unit.
Variable from_value : Value -> result SerdeError Input.
Variable to_value : Output -> result SerdeError Value.
Variable run_tool : ToolContext -> Input -> result (ToolError Details) (Output * ToolArtifacts).
Variable float_text : Z -> bytes.
Variable d : ToolDescriptor.
Variable c : ToolContext.
Hypothesis Hctx : context_validate_for c d = Ok tt.

Abbreviation prepare_ := (adapter_prepare (Details := Details) fresh_id validate_instance from_value d c).
Abbreviation finish_ := (adapter_finish (Details := Details) fresh_id validate_instance to_value float_text d c).
Abbreviation call_ := (adapter_call fresh_id validate_instance from_value to_value run_tool float_text d c).

Definition answered (out : result (fault (ToolError Details)) ToolResult) : Prop :=
  match out with
  | Ok r => result_validate_for r c d = Ok tt
  | Err Panic => False
  | Err (Fail e) => answers c d e
  end.

(** Runs a preparation guard: it lets its value through or answers. *)
Lemma prepare_guard {E A} (r : result E A) code message (f : fault (ToolError Details)) :
  static_texts code message = true -> guard r (preparation_adapter_error fresh_id c d code message) = Err f ->
  exists e : ToolError Details, f = Fail e /\ answers c d e /\ Tools.phase e = Preparation /\ retry_advice (failure e) = Never.
Proof.
  intros Hs H. destruct (preparation_answers (Details := Details) fresh_id c d code message Hctx Hs) as (e & He & Ha).
  rewrite He in H. exists e. by apply guard_Err in H.
Qed.

Lemma result_guard {E A} (r : result E A) code message (f : fault (ToolError Details)) :
  static_texts code message = true -> guard r (result_adapter_error fresh_id c d code message) = Err f ->
  exists e : ToolError Details, f = Fail e /\ answers c d e.
Proof.
  intros Hs H. destruct (result_answers (Details := Details) fresh_id c d code message Hctx Hs) as (e & He & Ha).
  rewrite He in H. exists e. by apply guard_Err in H.
Qed.

Lemma prepare_Err input (f : fault (ToolError Details)) :
  prepare_ input = Err f -> exists e : ToolError Details, f = Fail e /\ answers c d e /\ Tools.phase e = Preparation /\ retry_advice (failure e) = Never.
Proof.
  unfold adapter_prepare. intros [H|([] & _ & [H|([] & _ & H)]%bind_Err)]%bind_Err; (eapply prepare_guard; [| exact H]); by vm_compute.
Qed.

Lemma prepare_schema input typed : prepare_ input = Ok typed -> validate_instance (input_schema d) RoleInput (input_value input) = Ok tt.
Proof. unfold adapter_prepare. intros ([] & _ & ([] & H%guard_Ok & _)%bind_Ok)%bind_Ok. done. Qed.

Hypothesis Hinline : 0 < max_inline_result_bytes (limits d).

Lemma finish_Err output artifacts f : finish_ output artifacts = Err f -> exists e : ToolError Details, f = Fail e /\ answers c d e.
Proof.
  unfold adapter_finish. destruct (output_limits_total (E := ToolError Details) d Hinline) as [lim ->].
  intros [H|(v & _ & H)]%bind_Err; [eapply result_guard; [| exact H]; by vm_compute |]. simpl in H.
  apply bind_Err in H as [H|(b & _ & H)]; [eapply result_guard; [| exact H]; by vm_compute |].
  apply bind_Err in H as [H|([] & _ & H)]; [eapply result_guard; [| exact H]; by vm_compute |].
  apply bind_Err in H as [H|([] & _ & H)]; [eapply result_guard; [| exact H]; by vm_compute | done].
Qed.

Lemma finish_Ok output artifacts r :
  finish_ output artifacts = Ok r -> result_validate_for r c d = Ok tt /\ validate_instance (output_schema d) RoleOutput (result_output r) = Ok tt.
Proof.
  unfold adapter_finish. intros (v & _ & (lim & _ & (b & _ & ([] & Hv%guard_Ok & ([] & Hr%guard_Ok & [= <-])%bind_Ok)%bind_Ok)%bind_Ok)%bind_Ok)%bind_Ok.
  done.
Qed.

Hypothesis Htool : forall c' typed e, run_tool c' typed = Err e -> tool_error_wf e.

Lemma adapter_answered input : answered (call_ input).
Proof.
  unfold adapter_call. destruct (prepare_ input) as [typed|f] eqn:Ep; simpl.
  - destruct (run_tool c typed) as [[output artifacts]|e] eqn:Et.
    + destruct (finish_ output artifacts) as [r|f] eqn:Ef; simpl; [by apply finish_Ok in Ef as [? _] |].
      by apply finish_Err in Ef as (e & -> & ?).
    + destruct (error_validate_for e c d) as [[]|] eqn:Ev; simpl; [split; [done | by eapply Htool] |].
      destruct (invalid_answers (Details := Details) fresh_id c d Hctx) as (e' & -> & ? & _). done.
  - by apply prepare_Err in Ep as (e & -> & ? & _).
Qed.

End Adapter.

(** C8: For an invocation whose context was admitted, the adapter never
    panics: it answers with a result that validates for that context and
    descriptor and satisfies both pinned schemas, or with public error evidence
    that does. A rejected input is a final preparation error made without
    running the tool; valid evidence of the tool passes through unchanged;
    evidence that does not belong to the invocation becomes, for a writing tool,
    an unknown outcome to reconcile. *)
Theorem adapter_answers_for_invocation {Details Input Output SchemaError SerdeError : Type} (fresh_id : Z)
    (validate_instance : SchemaReference -> ToolSchemaRole -> BoundedJson -> result SchemaError unit)
    (from_value : Value -> result SerdeError Input) (to_value : Output -> result SerdeError Value)
    (run_tool : ToolContext -> Input -> result (ToolError Details) (Output * ToolArtifacts)) (float_text : Z -> bytes)
    (d : ToolDescriptor) (c : ToolContext) (input : ToolInput)
    (Hctx : context_validate_for c d = Ok tt) (Hinline : 0 < max_inline_result_bytes (limits d))
    (Htool : forall c' typed e, run_tool c' typed = Err e -> tool_error_wf e) :
  let prepared := adapter_prepare (Details := Details) fresh_id validate_instance from_value d c input in
  let out := adapter_call fresh_id validate_instance from_value to_value run_tool float_text d c input in
  answered d c out /\
  (forall r, out = Ok r ->
     validate_instance (input_schema d) RoleInput (input_value input) = Ok tt /\
     validate_instance (output_schema d) RoleOutput (result_output r) = Ok tt) /\
  (forall f, prepared = Err f ->
     exists e, out = Err (Fail e) /\ Tools.phase e = Preparation /\ retry_advice (failure e) = Never) /\
  (forall typed e, prepared = Ok typed -> run_tool c typed = Err e ->
     (error_validate_for e c d = Ok tt /\ out = Err (Fail e)) \/
     (error_validate_for e c d <> Ok tt /\
      (risk (semantics d) <> ReadOnly ->
       exists e', out = Err (Fail e') /\ external_effect e' = Unknown /\ retry_advice (failure e') = ReconcileFirst))).
Proof.
  simpl. split_and!.
  - by apply adapter_answered.
  - unfold adapter_call. intros r (typed & Hp & H)%bind_Ok. split; [by eapply prepare_schema |].
    destruct (run_tool c typed) as [[output artifacts]|e].
    + by apply finish_Ok in H as [_ ?].
    + destruct (error_validate_for e c d); [done |]. by destruct (invalid_tool_error (Details := Details) fresh_id c d).
  - intros f Hp. destruct (prepare_Err _ _ _ _ _ Hctx _ _ Hp) as (e & -> & _ & ? & ?). exists e. unfold adapter_call. by rewrite Hp.
  - intros typed e Hp Ht. unfold adapter_call. rewrite Hp. simpl. rewrite Ht.
    destruct (error_validate_for e c d) as [[]|] eqn:Ev; [by left | right]. split; [done |]. intros Hr.
    destruct (invalid_answers (Details := Details) fresh_id c d Hctx) as (e' & -> & _ & Hu). exists e'. split; [done | by apply Hu].
Qed.

(** * From the adapter to the ledger *)

Module Ledger.
Import ToolInvocations.

Lemma artifacts_bound x c d index index' l :
  ctx_tenant_id c = intent_tenant_id x -> ctx_run_id c = intent_run_id x -> d = descriptor x ->
  validate_artifacts index l c d = Ok tt -> check_artifacts x index' l = Ok tt.
Proof.
  intros Ht Hr ->. revert index index'. induction l as [|a l IH]; intros index index' H; [done |]. simpl in *.
  apply bind_Ok in H as ([] & Ha & H). unfold validate_artifact_binding in Ha. rewrite Ht, Hr in Ha. unfold artifact_binding.
  open_guards Ha. bools. rewrite !bool_decide_true by done. simpl. by eapply IH.
Qed.

(** What the ledger adds to the adapter's checks: the effective limits. *)
Definition within_effective (x : ToolInvocationIntent) (r : ToolResult) : Prop :=
  compact_size (result_output r) <= max_inline_result_bytes (effective_limits x) /\
  count_from_usize (Z.of_nat (length (artifact_values (result_artifacts r)))) <= max_artifacts (effective_limits x) /\
  total_bytes (result_artifacts r) <= max_total_artifact_bytes (effective_limits x).

Lemma result_binds x c d r :
  ctx_tenant_id c = intent_tenant_id x -> ctx_run_id c = intent_run_id x -> d = descriptor x -> ctx_invocation_id c = invocation_id x ->
  result_validate_for r c d = Ok tt -> (validate_result_binding x (ctx_attempt_id c) r = Ok tt <-> within_effective x r).
Proof.
  intros Ht Hr Hd Hi H. unfold result_validate_for in H. apply bind_Ok in H as ([] & (_ & Hpi & Hpa & Hpt)%map_err_Ok%validate_provenance_Ok & H).
  open_guards H. unfold validate_result_binding. rewrite Hpi, Hpa, Hpt, Hi, Hd, !bool_decide_true by (done || by rewrite <- Hd). simpl.
  unfold within_effective. guard_iff. apply artifacts_bound with (x := x) (index' := 0%nat) in H; [| done..]. rewrite H. naive_solver.
Qed.

Lemma error_binds {Details} x c d (e : ToolError Details) :
  d = descriptor x -> ctx_invocation_id c = invocation_id x -> error_validate_for e c d = Ok tt ->
  validate_error_binding x (ctx_attempt_id c) e = Ok tt.
Proof.
  intros Hd Hi (( _ & Hpi & Hpa & Hpt)%validate_provenance_Ok & Hm & Hs)%error_validate_Ok. unfold validate_error_binding.
  rewrite Hpi, Hpa, Hpt, Hi, <- Hd, !bool_decide_true by done. simpl. rewrite Hm. simpl.
  case_bool_decide; simpl; [| done]. case_bool_decide; simpl; [| done]. destruct (is_safe_after _) eqn:E; [| done]. by destruct Hs.
Qed.

(** Whatever an adapter answers for an executing invocation, the durable
    ledger can take the step: error evidence always records, as a known failure
    or an unknown outcome; a result commits exactly when it is within the
    invocation's effective limits. *)
Theorem adapter_answer_recordable {Details Input Output SchemaError SerdeError : Type} (fresh_id : Z)
    (validate_instance : SchemaReference -> ToolSchemaRole -> BoundedJson -> result SchemaError unit)
    (from_value : Value -> result SerdeError Input) (to_value : Output -> result SerdeError Value)
    (run_tool : ToolContext -> Input -> result (ToolError Details) (Output * ToolArtifacts)) (float_text : Z -> bytes)
    (x : ToolInvocation Details) (c : ToolContext) (at_ : Timestamp)
    (Hctx : context_validate_for c (descriptor (intent x)) = Ok tt) (Hinline : 0 < max_inline_result_bytes (limits (descriptor (intent x))))
    (Htool : forall c' typed e, run_tool c' typed = Err e -> tool_error_wf e)
    (Hscope : ctx_tenant_id c = intent_tenant_id (intent x) /\ ctx_run_id c = intent_run_id (intent x) /\
              ctx_invocation_id c = invocation_id (intent x))
    (Hstate : state x = Executing (ctx_attempt_id c)) :
  match adapter_call fresh_id validate_instance from_value to_value run_tool float_text (descriptor (intent x)) c (input (intent x)) with
  | Ok r => apply_transition x (RecordResult r) at_ = Ok (Committed r) <-> within_effective (intent x) r
  | Err Panic => False
  | Err (Fail e) => apply_transition x (RecordError e) at_ = Ok (state_from_error e)
  end.
Proof.
  destruct Hscope as (Ht & Hr & Hi).
  pose proof (adapter_answered fresh_id validate_instance from_value to_value run_tool float_text _ c Hctx Hinline Htool (input (intent x))) as H.
  destruct (adapter_call _ _ _ _ _ _ _ _ _) as [r|[|e]]; simpl in H; [| done |]; unfold apply_transition; rewrite Hstate.
  - rewrite <- (result_binds (intent x) c _ r Ht Hr eq_refl Hi H). destruct (validate_result_binding _ _ _) as [[]|]; simpl; naive_solver.
  - by rewrite (error_binds (intent x) c _ e eq_refl Hi (proj1 H)).
Qed.

End Ledger.

(** * Concrete calls *)

Module Calls.
Import ToolInvocations ToolCalls.Demo.

Definition budget : BudgetRemaining.t := BudgetRemaining.mk 10000000 1 1 1 1 0 0 0 0 1 1 0 0 1 1 4096 4096 0 0 0 [].
Definition blank_context : ToolContext :=
  mkContext [] 0 0 0 0 tool Unsupported_ None budget 0 0 0 0 None None 0 0 0.
Definition built : result (fault ToolContextError) ToolContext := context_new tenant 7 9 42 1 payments budget 500 9800000 1000.
Definition context : ToolContext := match built with Ok c => c | Err _ => blank_context end.

Lemma tool_context_bounded_witness : built <> Err Panic /\ ctx_deadline context = 10000000 /\ context_validate_for context payments = Ok tt.
Proof.
  assert (H1 : Timestamp.valid (BudgetRemaining.deadline budget)) by (split; vm_compute; discriminate).
  assert (H2 : Timestamp.valid 9800000) by (split; vm_compute; discriminate).
  assert (H3 : DurationMillis.valid 500) by (split; vm_compute; discriminate).
  destruct (tool_context_bounded tenant 7 9 42 1 payments budget 500 9800000 1000 H1 H2 H3) as [Hp H].
  assert (Hb : context_new tenant 7 9 42 1 payments budget 500 9800000 1000 = Ok context) by (vm_compute; reflexivity).
  destruct (H context Hb) as (_ & Hd & _ & _ & _ & _ & _ & Hv & _). split; [exact Hp |]. split; [| exact Hv].
  rewrite Hd. vm_compute. reflexivity.
Defined.

Definition reporter : ToolProgressReporter := mkReporter (mkToolProvenance 42 1 tool) 2.
Definition some_steps : list ProgressStep :=
  [Emit (mkUpdate 1 (Some 3)); Emit (mkUpdate 2 None); SinkAccepted; Emit (mkUpdate 1 None); Emit (mkUpdate 3 None)].

Lemma progress_delivered_in_order_witness :
  delivered (progress_run reporter (some_steps ++ [SinkAccepted])) =
    [mkEvent (mkToolProvenance 42 1 tool) 0 (mkUpdate 1 (Some 3)); mkEvent (mkToolProvenance 42 1 tool) 1 (mkUpdate 3 (Some 3))].
Proof.
  assert (Hm : maximum_events reporter <= u64_max) by (vm_compute; discriminate).
  destruct (progress_delivered_in_order reporter some_steps Hm) as (_ & _ & _ & H & _).
  rewrite (H (mkEvent (mkToolProvenance 42 1 tool) 1 (mkUpdate 3 (Some 3)))) by (vm_compute; reflexivity).
  vm_compute. reflexivity.
Defined.

(** A tool that fails with the evidence of another attempt, one that fails with
    its own, and one that answers. *)
Definition accept_all (_ : SchemaReference) (_ : ToolSchemaRole) (_ : BoundedJson) : result unit unit := Ok tt.
Definition other_attempt : ToolError unit :=
  mkToolError (failure not_applied) Execution NotApplied (mkToolProvenance 42 2 tool) None.
Definition decode (v : Value) : result unit Value := Ok v.
Definition fails_with (e : ToolError unit) (_ : ToolContext) (_ : Value) : result (ToolError unit) (Value * ToolArtifacts) := Err e.

Lemma other_attempt_wf (c : ToolContext) (v : Value) (e : ToolError unit) : fails_with other_attempt c v = Err e -> tool_error_wf e.
Proof. intros [= <-]. split; [reflexivity |]. split; [split; discriminate |]. split; [reflexivity |]. intros H. destruct H. reflexivity. Defined.

Lemma not_applied_wf (c : ToolContext) (v : Value) (e : ToolError unit) : fails_with not_applied c v = Err e -> tool_error_wf e.
Proof. intros [= <-]. split; [reflexivity |]. split; [split; discriminate |]. split; [reflexivity |]. intros H. destruct H. reflexivity. Defined.

Lemma adapter_answers_for_invocation_witness :
  exists e, adapter_call 5 accept_all decode decode (fails_with other_attempt) (fun _ => []) payments context (input int) = Err (Fail e) /\
            external_effect e = Unknown /\ retry_advice (failure e) = ReconcileFirst.
Proof.
  assert (Hctx : context_validate_for context payments = Ok tt) by (vm_compute; reflexivity).
  assert (Hi : 0 < max_inline_result_bytes (limits payments)) by (vm_compute; reflexivity).
  destruct (adapter_answers_for_invocation 5 accept_all decode decode (fails_with other_attempt) (fun _ => []) payments context (input int) Hctx Hi
              other_attempt_wf) as (_ & _ & _ & H).
  destruct (H (Obj []) other_attempt ltac:(vm_compute; reflexivity) eq_refl) as [[Hv _]|[_ Hu]]; [vm_compute in Hv; discriminate Hv |].
  apply Hu. discriminate.
Defined.

Lemma adapter_answer_recordable_witness :
  apply_transition r1 (RecordError not_applied) 0 = Ok (Failed not_applied).
Proof.
  assert (Hctx : context_validate_for context (descriptor (intent r1)) = Ok tt) by (vm_compute; reflexivity).
  assert (Hi : 0 < max_inline_result_bytes (limits (descriptor (intent r1)))) by (vm_compute; reflexivity).
  pose proof (Ledger.adapter_answer_recordable 5 accept_all decode decode (fails_with not_applied) (fun _ => []) r1 context 0 Hctx Hi not_applied_wf
    ltac:(vm_compute; split; [reflexivity | split; reflexivity]) ltac:(vm_compute; reflexivity)) as H.
  assert (E : adapter_call 5 accept_all decode decode (fails_with not_applied) (fun _ => []) (descriptor (intent r1)) context (input (intent r1))
     = Err (Fail not_applied)) by (vm_compute; reflexivity).
  rewrite E in H. exact H.
Defined.

End Calls.

End ToolBoundary.
