(* ===== verification/ModelRuntime.v ===== *)
(** The model boundary (crates/stateknot-core/src/model_runtime.rs): the context
    of one physical model attempt with its monotonic deadline, and the errors a
    model returns with their validation against the attempt, the descriptor and
    the request.

    An [Instant] is the monotonic clock in nanoseconds ([ToolRuntime.v]); the
    value of the cancellation signal is given where it is read.  An [expect]
    that fails is the fault [Panic]. *)

From Stdlib Require Import ZArith Lia List.
From stdpp Require Import prelude.
From S2P Require Import Prelude Accounting Time Budget Content Checkpoint Capability Run Model ModelResponse ModelTranscript ModelRequest ToolRuntime.

Open Scope Z_scope.
Import Timestamp(Timestamp).

Module ModelRuntime.
Import Content Capability Models Responses Requests.
Import ToolRuntime(Instant, instant_checked_add, remaining_time).

(** * Contexts *)

Inductive ModelStopReason := Cancelled | DeadlineExceeded.

Record ModelContext := mkModelContext {
  mc_tenant_id : TenantId;
  mc_run_id : RunId;
  mc_thread_id : Z;
  mc_attempt_id : Z;
  mc_budget : BudgetRemaining.t;
  mc_observed_at : Timestamp;
  mc_deadline_instant : Instant
}.

Inductive ModelContextError :=
| DeadlineReached (deadline observed_at : Timestamp)
| MonotonicDeadlineOutOfRange (remaining : Z).

Definition context_new (tenant : TenantId) (run : RunId) (thread attempt : Z) (budget : BudgetRemaining.t) (observed_at : Timestamp)
    (observed_instant : Instant) : result (fault ModelContextError) ModelContext :=
  let deadline := BudgetRemaining.deadline budget in
  let remaining_micros := deadline - observed_at in
  if remaining_micros <=? 0 then Err (Fail (DeadlineReached deadline observed_at)) else
  if u64_max <? remaining_micros then Err Panic else
  let remaining := remaining_micros * 1000 in
  deadline_instant ← ok_or (instant_checked_add observed_instant remaining) (Fail (MonotonicDeadlineOutOfRange remaining));
  Ok (mkModelContext tenant run thread attempt budget observed_at deadline_instant).

Definition context_deadline (self : ModelContext) : Timestamp := BudgetRemaining.deadline (mc_budget self).

Definition remaining_time_at (self : ModelContext) (observed : Instant) : option Z := remaining_time (mc_deadline_instant self) observed.

Definition stop_reason_at (self : ModelContext) (cancelled : bool) (observed : Instant) : option ModelStopReason :=
  if cancelled then Some Cancelled else
  if mc_deadline_instant self <=? observed then Some DeadlineExceeded else None.

(** * Errors *)

Inductive ModelErrorPhase := Preparation | Dispatch | Response | Stream.
#[global] Instance ModelErrorPhase_eq_dec : EqDecision ModelErrorPhase.
Proof. solve_decision. Defined.

Record ModelErrorProvenance := mkErrorProvenance {
  ep_attempt_id : Z;
  ep_model : CapabilityIdentity;
  ep_provider_model_id : option ProviderId;
  ep_provider_request_id : option ProviderId;
  ep_provider_response_id : option ProviderId
}.
#[global] Instance ModelErrorProvenance_eq_dec : EqDecision ModelErrorProvenance.
Proof. solve_decision. Defined.

Record ModelError {Details : Type} := mkModelError {
  me_failure : Failure Details;
  me_phase : ModelErrorPhase;
  me_provenance : ModelErrorProvenance;
  me_usage : option ModelUsage
}.
Arguments ModelError : clear implicits.
Arguments mkModelError {Details} _ _ _ _.

Inductive ModelErrorValidationError :=
| AttemptMismatch (expected actual : Z)
| ErrorModelIdentityMismatch (expected actual : CapabilityIdentity)
| PhaseResponseModeMismatch (phase : ModelErrorPhase) (mode : ModelResponseMode)
| ErrorInputUsageExceedsRequest (maximum actual : Count.Count)
| ErrorOutputUsageExceedsRequest (maximum actual : Count.Count).

Definition phase_matches_mode (phase : ModelErrorPhase) (mode : ModelResponseMode) : bool :=
  match phase with
  | Preparation | Dispatch => true
  | Response => bool_decide (mode = Complete)
  | Stream => bool_decide (mode = Streaming)
  end.

Definition validate_for_attempt {Details} (self : ModelError Details) (attempt : Z) (d : ModelDescriptor) (request : ModelRequest)
  : result ModelErrorValidationError unit :=
  let provenance := me_provenance self in
  if negb (ep_attempt_id provenance =? attempt) then Err (AttemptMismatch attempt (ep_attempt_id provenance)) else
  let expected := model_identity d in
  if negb (bool_decide (ep_model provenance = expected)) then Err (ErrorModelIdentityMismatch expected (ep_model provenance)) else
  if negb (phase_matches_mode (me_phase self) (response_mode request)) then Err (PhaseResponseModeMismatch (me_phase self) (response_mode request)) else
  match me_usage self with
  | None => Ok tt
  | Some usage =>
      let maximum := lim_input_tokens (limits request) in
      if maximum <? usage_input_tokens usage then Err (ErrorInputUsageExceedsRequest maximum (usage_input_tokens usage)) else
      let maximum := lim_output_tokens (limits request) in
      if maximum <? usage_output_tokens usage then Err (ErrorOutputUsageExceedsRequest maximum (usage_output_tokens usage)) else Ok tt
  end.

Definition validate_for {Details} (self : ModelError Details) (context : ModelContext) (d : ModelDescriptor) (request : ModelRequest)
  : result ModelErrorValidationError unit := validate_for_attempt self (mc_attempt_id context) d request.

End ModelRuntime.
