(* ===== verification/ModelInvocation.v ===== *)
(** Durable model invocations (crates/stateknot-core/src/model_invocation.rs):
    preparation intents, the revisioned and journal-anchored state machine of
    one logical model invocation, its restoration, and the streaming verifier of
    a complete history.

    An invocation id and an attempt id are the integers of their UUIDs.  The
    canonical encoder at each wire type and SHA-256 are parameters. *)

From Stdlib Require Import ZArith Lia List.
From stdpp Require Import prelude.
From S2P Require Import Prelude Ordered Json Decimal Content BoundedJson Accounting Time Checkpoint Capability Run Journal Barrier Tool Model ModelResponse ModelTranscript ModelRequest ModelRuntime.

Open Scope Z_scope.
Import Timestamp(Timestamp).

Module ModelInvocations.
Import Text Content Capability Models Responses Requests ModelRuntime.

Definition INTENT_DIGEST_DOMAIN : bytes := bytes_of "stateknot-model-invocation-intent-v1" ++ [0].
Definition TRANSITION_DIGEST_DOMAIN : bytes := bytes_of "stateknot-model-invocation-transition-v1" ++ [0].
Definition RECORD_DIGEST_DOMAIN : bytes := bytes_of "stateknot-model-invocation-record-v1" ++ [0].

(** * Revisions *)

Module Revision.

Definition t := Z.
Definition INITIAL : t := 0.
Definition MAX : t := i64_max.

Inductive ModelInvocationRevisionError := InvalidFormat | NonCanonical | AboveMaximum.

Definition new (value : Z) : result ModelInvocationRevisionError t :=
  if MAX <? value then Err AboveMaximum else Ok value.

Definition checked_next (self : t) : option t := if self =? MAX then None else Some (self + 1).

Definition from_decimal_error (error : Decimal.UnsignedDecimalError) : ModelInvocationRevisionError :=
  match error with
  | Decimal.Empty | Decimal.InvalidCharacter _ => InvalidFormat
  | Decimal.LeadingZero => NonCanonical
  | Decimal.TooLong _ _ | Decimal.Overflow => AboveMaximum
  end.

Definition from_str (value : bytes) : result ModelInvocationRevisionError t :=
  v ← map_err from_decimal_error (Decimal.parse_bounded_u64 value MAX);
  new v.

End Revision.

(** * Intents *)

Inductive ModelInvocationIntegrityError := CanonicalSerialization.

Inductive ModelInvocationIntentError :=
| RetiredModel
| IntentCapabilityMismatch (mismatch : ModelCapabilityMismatch)
| IntentIntegrity (source : ModelInvocationIntegrityError)
| IntentDigestMismatch.

Abbreviation Activation := (NodeActivation CapabilityIdentity SchemaReference).

Record ModelInvocationIntentDigestWire := mkIntentWire {
  wire_activation : Activation;
  wire_invocation_id : Z;
  wire_descriptor : ModelDescriptor;
  wire_request : ModelRequest
}.

Record ModelInvocationIntent := mkIntent {
  activation : Activation;
  invocation_id : Z;
  descriptor : ModelDescriptor;
  request : ModelRequest;
  intent_digest : Digest
}.

#[global] Instance ModelTokenLimits_eq_dec : EqDecision ModelTokenLimits.
Proof. solve_decision. Defined.
#[global] Instance ModelToolCapabilities_eq_dec : EqDecision ModelToolCapabilities.
Proof. solve_decision. Defined.
#[global] Instance ModelStructuredOutputCapabilities_eq_dec : EqDecision ModelStructuredOutputCapabilities.
Proof. solve_decision. Defined.
#[global] Instance ModelCapabilities_eq_dec : EqDecision ModelCapabilities.
Proof. solve_decision. Defined.
#[global] Instance ModelDescriptor_eq_dec : EqDecision ModelDescriptor.
Proof. solve_decision. Defined.
#[global] Instance ModelInvocationIntent_eq_dec : EqDecision ModelInvocationIntent.
Proof. solve_decision. Defined.

Definition intent_tenant_id (self : ModelInvocationIntent) : TenantId := head_tenant_id (base_checkpoint (activation self)).
Definition intent_run_id (self : ModelInvocationIntent) : RunId := head_run_id (base_checkpoint (activation self)).

Definition validate_intent_shape (d : ModelDescriptor) (q : ModelRequest) : result ModelInvocationIntentError unit :=
  if is_retired (lifecycle_state (lifecycle (model_metadata d))) then Err RetiredModel else
  map_err IntentCapabilityMismatch (satisfies (capabilities d) (requirements q)).

(** * States and transitions *)

Inductive ModelInvocationStatus := Prepared_ | Executing_ | Committed_ | Failed_.
#[global] Instance ModelInvocationStatus_eq_dec : EqDecision ModelInvocationStatus.
Proof. solve_decision. Defined.

Inductive ModelInvocationTransitionKind := KStartAttempt | KRecordResponse | KRecordError.

Section States.
Context {Details : Type}.

Inductive ModelInvocationState :=
| Prepared
| Executing (attempt_id : Z)
| Committed (response : ModelResponse)
| Failed (error : ModelError Details).

Definition state_status (self : ModelInvocationState) : ModelInvocationStatus :=
  match self with Prepared => Prepared_ | Executing _ => Executing_ | Committed _ => Committed_ | Failed _ => Failed_ end.

Definition state_attempt_id (self : ModelInvocationState) : option Z :=
  match self with
  | Prepared => None
  | Executing attempt => Some attempt
  | Committed response => Some (mp_attempt_id (response_provenance response))
  | Failed error => Some (ep_attempt_id (me_provenance error))
  end.

Inductive ModelInvocationTransition :=
| StartAttempt (attempt_id : Z)
| RecordResponse (response : ModelResponse)
| RecordError (error : ModelError Details).

Definition transition_kind (self : ModelInvocationTransition) : ModelInvocationTransitionKind :=
  match self with StartAttempt _ => KStartAttempt | RecordResponse _ => KRecordResponse | RecordError _ => KRecordError end.
End States.
Arguments ModelInvocationState : clear implicits.
Arguments ModelInvocationTransition : clear implicits.

(** * Errors *)

Inductive InvocationScopeError := ScopeTenant | ScopeRun.

Inductive ModelInvocationHeadError :=
| HeadJournalTenantMismatch
| HeadJournalRunMismatch
| PreparedHasAttempt
| AttemptMissing
| InitialStatusMismatch
| PreparedRevisionMismatch.

(** The source of [ResponseBinding] is the fault of [response_validate_for],
    which never is a panic. *)
Inductive ModelInvocationError :=
| Integrity (source : ModelInvocationIntegrityError)
| JournalTenantMismatch
| JournalRunMismatch
| JournalDidNotAdvance (previous actual : Z)
| ClockRegression (previous actual : Timestamp)
| RevisionOverflow
| InvalidInitialShape
| InvalidSuccessorShape
| PreviousTenantMismatch
| PreviousRunMismatch
| PreviousInvocationMismatch
| PreviousRevisionMismatch (previous actual : Revision.t)
| TransitionDigestMismatch
| InvalidTransition (status : ModelInvocationStatus) (transition : ModelInvocationTransitionKind)
| TransitionStateMismatch
| ReusedAttemptId
| RetryNotAuthorized
| RetryDelayOutOfRange
| RetryDelayNotElapsed (not_before actual : Timestamp)
| ResponseAttemptMismatch
| ResponseBinding (source : fault ModelResponseError)
| ErrorBinding (source : ModelErrorValidationError)
| PreparationFailureHasUsage
| DigestMismatch.

(** * Validation helpers *)

Definition validate_journal_scope (tenant : TenantId) (run : RunId) (head : JournalHead) : result InvocationScopeError unit :=
  if negb (bool_decide (jh_tenant_id head = tenant)) then Err ScopeTenant else
  if negb (bool_decide (jh_run_id head = run)) then Err ScopeRun else Ok tt.

Definition head_from_scope (error : InvocationScopeError) : ModelInvocationHeadError :=
  match error with ScopeTenant => HeadJournalTenantMismatch | ScopeRun => HeadJournalRunMismatch end.

Definition map_scope_error (error : InvocationScopeError) : ModelInvocationError :=
  match error with ScopeTenant => JournalTenantMismatch | ScopeRun => JournalRunMismatch end.

Definition validate_status_attempt (status : ModelInvocationStatus) (attempt : option Z) : result ModelInvocationHeadError unit :=
  match status, attempt with
  | Prepared_, None => Ok tt
  | Prepared_, Some _ => Err PreparedHasAttempt
  | _, Some _ => Ok tt
  | _, None => Err AttemptMissing
  end.

Definition validate_revision_status (revision : Revision.t) (status : ModelInvocationStatus) : result ModelInvocationHeadError unit :=
  match revision =? Revision.INITIAL, status with
  | true, Prepared_ => Ok tt
  | true, _ => Err InitialStatusMismatch
  | false, Prepared_ => Err PreparedRevisionMismatch
  | false, _ => Ok tt
  end.

Definition validate_journal_advances (previous actual : JournalHead) : result ModelInvocationError unit :=
  if jh_sequence actual <=? jh_sequence previous then Err (JournalDidNotAdvance (jh_sequence previous) (jh_sequence actual)) else
  if jh_recorded_at actual <? jh_recorded_at previous then Err (ClockRegression (jh_recorded_at previous) (jh_recorded_at actual)) else
  Ok tt.

Definition validate_preparation_journal (intent : ModelInvocationIntent) (journal : JournalHead) : result ModelInvocationError unit :=
  _ ← map_err map_scope_error (validate_journal_scope (intent_tenant_id intent) (intent_run_id intent) journal);
  validate_journal_advances (head_journal_head (base_checkpoint (activation intent))) journal.

Definition validate_response_binding (intent : ModelInvocationIntent) (expected_attempt : Z) (response : ModelResponse)
  : result ModelInvocationError unit :=
  if negb (mp_attempt_id (response_provenance response) =? expected_attempt) then Err ResponseAttemptMismatch else
  map_err ResponseBinding (response_validate_for response (descriptor intent) (request intent)).

Definition validate_error_binding {Details} (intent : ModelInvocationIntent) (expected_attempt : Z) (error : ModelError Details)
  : result ModelInvocationError unit :=
  _ ← map_err ErrorBinding (validate_for_attempt error expected_attempt (descriptor intent) (request intent));
  if bool_decide (me_phase error = Preparation) && negb (is_none (me_usage error)) then Err PreparationFailureHasUsage else Ok tt.

Definition validate_state_binding {Details} (intent : ModelInvocationIntent) (state : ModelInvocationState Details)
  : result ModelInvocationError unit :=
  match state with
  | Prepared | Executing _ => Ok tt
  | Committed response => validate_response_binding intent (mp_attempt_id (response_provenance response)) response
  | Failed error => validate_error_binding intent (ep_attempt_id (me_provenance error)) error
  end.

(** [recorded] is the journal time of the failed revision. *)
Definition validate_retry {Details} (recorded : Timestamp) (error : ModelError Details) (recorded_at : Timestamp)
  : result ModelInvocationError unit :=
  match Tools.safe_after_delay (retry_advice (me_failure error)) with
  | None => Err RetryNotAuthorized
  | Some delay =>
      let not_before_micros := recorded + delay * 1000 in
      if Timestamp.MAX <? not_before_micros then Err RetryDelayOutOfRange else
      if negb ((i64_min <=? not_before_micros) && (not_before_micros <=? i64_max)) then Err RetryDelayOutOfRange else
      not_before ← map_err (fun _ => RetryDelayOutOfRange) (Timestamp.from_unix_micros not_before_micros);
      if recorded_at <? not_before then Err (RetryDelayNotElapsed not_before recorded_at) else Ok tt
  end.

(** * Heads *)

Record ModelInvocationHead := mkHead {
  ih_tenant_id : TenantId;
  ih_run_id : RunId;
  ih_invocation_id : Z;
  ih_revision : Revision.t;
  ih_status : ModelInvocationStatus;
  ih_attempt_id : option Z;
  ih_journal_head : JournalHead;
  ih_digest : Digest
}.

#[global] Instance ModelInvocationHead_eq_dec : EqDecision ModelInvocationHead.
Proof. solve_decision. Defined.

Definition head_new (wire : ModelInvocationHead) : result ModelInvocationHeadError ModelInvocationHead :=
  _ ← map_err head_from_scope (validate_journal_scope (ih_tenant_id wire) (ih_run_id wire) (ih_journal_head wire));
  _ ← validate_status_attempt (ih_status wire) (ih_attempt_id wire);
  _ ← validate_revision_status (ih_revision wire) (ih_status wire);
  Ok wire.

(** * Records *)

Section Records.
Context {Details : Type}.
Abbreviation State := (ModelInvocationState Details).
Abbreviation Transition := (ModelInvocationTransition Details).

Record ModelInvocationRecordDigestWire := mkRecordWire {
  wire_intent_digest : Digest;
  wire_revision : Revision.t;
  wire_state : State;
  wire_previous : option ModelInvocationHead;
  wire_journal_head : JournalHead;
  wire_transition_digest : option Digest
}.

Record ModelInvocation := mkInvocation {
  intent : ModelInvocationIntent;
  revision : Revision.t;
  state : State;
  previous : option ModelInvocationHead;
  journal_head : JournalHead;
  transition : option Transition;
  transition_digest : option Digest;
  digest : Digest
}.

Definition status (self : ModelInvocation) : ModelInvocationStatus := state_status (state self).
Definition attempt_id (self : ModelInvocation) : option Z := state_attempt_id (state self).

Definition head (self : ModelInvocation) : ModelInvocationHead :=
  mkHead (intent_tenant_id (intent self)) (intent_run_id (intent self)) (invocation_id (intent self)) (revision self)
    (status self) (attempt_id self) (journal_head self) (digest self).

Definition validate_successor_journal (self : ModelInvocation) (journal : JournalHead) : result ModelInvocationError unit :=
  _ ← map_err map_scope_error (validate_journal_scope (intent_tenant_id (intent self)) (intent_run_id (intent self)) journal);
  validate_journal_advances (journal_head self) journal.

Definition apply_transition (self : ModelInvocation) (tr : Transition) (recorded_at : Timestamp) : result ModelInvocationError State :=
  match state self, tr with
  | Prepared, StartAttempt attempt => Ok (Executing attempt)
  | Failed error, StartAttempt attempt =>
      if ep_attempt_id (me_provenance error) =? attempt then Err ReusedAttemptId else
      _ ← validate_retry (jh_recorded_at (journal_head self)) error recorded_at;
      Ok (Executing attempt)
  | Executing attempt, RecordResponse response =>
      _ ← validate_response_binding (intent self) attempt response; Ok (Committed response)
  | Executing attempt, RecordError error =>
      _ ← validate_error_binding (intent self) attempt error; Ok (Failed error)
  | _, _ => Err (InvalidTransition (status self) (transition_kind tr))
  end.

Context `{Canonical ModelInvocationIntentDigestWire, Canonical Transition, Canonical ModelInvocationRecordDigestWire,
          Canonical ModelResponse, Canonical (ModelError Details), Canonical ModelInvocation}.
Variable sha256 : bytes -> bytes.

Definition domain_separated_digest {T} `{Canonical T} (domain : bytes) (value : T) : result ModelInvocationIntegrityError Digest :=
  canonical ← ok_or (to_vec value) CanonicalSerialization;
  Ok (sha256 (domain ++ canonical)).

Definition compute_intent_digest (wire : ModelInvocationIntentDigestWire) := domain_separated_digest INTENT_DIGEST_DOMAIN wire.
Definition compute_transition_digest (tr : Transition) : result ModelInvocationError Digest :=
  map_err Integrity (domain_separated_digest TRANSITION_DIGEST_DOMAIN tr).
Definition compute_record_digest (wire : ModelInvocationRecordDigestWire) : result ModelInvocationError Digest :=
  map_err Integrity (domain_separated_digest RECORD_DIGEST_DOMAIN wire).

Definition canonical_equal {T} `{Canonical T} (left right : T) : result ModelInvocationIntegrityError bool :=
  l ← ok_or (to_vec left) CanonicalSerialization;
  r ← ok_or (to_vec right) CanonicalSerialization;
  Ok (bool_decide (l = r)).

Definition intent_new (act : Activation) (id : Z) (d : ModelDescriptor) (q : ModelRequest)
  : result ModelInvocationIntentError ModelInvocationIntent :=
  _ ← validate_intent_shape d q;
  dig ← map_err IntentIntegrity (compute_intent_digest (mkIntentWire act id d q));
  Ok (mkIntent act id d q dig).

Definition intent_restore (wire : ModelInvocationIntent) : result ModelInvocationIntentError ModelInvocationIntent :=
  restored ← intent_new (activation wire) (invocation_id wire) (descriptor wire) (request wire);
  if negb (bool_decide (intent_digest restored = intent_digest wire)) then Err IntentDigestMismatch else Ok restored.

Definition prepare (int : ModelInvocationIntent) (journal : JournalHead) : result ModelInvocationError ModelInvocation :=
  _ ← validate_preparation_journal int journal;
  dig ← compute_record_digest (mkRecordWire (intent_digest int) Revision.INITIAL Prepared None journal None);
  Ok (mkInvocation int Revision.INITIAL Prepared None journal None None dig).

Definition advance (self : ModelInvocation) (tr : Transition) (journal : JournalHead) : result ModelInvocationError ModelInvocation :=
  _ ← validate_successor_journal self journal;
  rev ← ok_or (Revision.checked_next (revision self)) RevisionOverflow;
  st ← apply_transition self tr (jh_recorded_at journal);
  tdig ← compute_transition_digest tr;
  let prev := head self in
  dig ← compute_record_digest (mkRecordWire (intent_digest (intent self)) rev st (Some prev) journal (Some tdig));
  Ok (mkInvocation (intent self) rev st (Some prev) journal (Some tr) (Some tdig) dig).

(** The [match] of [validate_transition_shape] on previous status, transition
    and state; [Ok valid] is the value bound to [valid]. *)
Definition transition_shape (prev : ModelInvocationHead) (tr : Transition) (st : State) : result ModelInvocationError bool :=
  match ih_status prev, tr, st with
  | (Prepared_ | Failed_), StartAttempt attempt, Executing state_attempt =>
      if bool_decide (ih_attempt_id prev = Some attempt) then Err ReusedAttemptId else Ok (attempt =? state_attempt)
  | Executing_, RecordResponse response, Committed state_response => map_err Integrity (canonical_equal response state_response)
  | Executing_, RecordError error, Failed state_error => map_err Integrity (canonical_equal error state_error)
  | _, _, _ => Err (InvalidTransition (ih_status prev) (transition_kind tr))
  end.

Definition validate_transition_shape (int : ModelInvocationIntent) (prev : ModelInvocationHead) (tr : Transition) (st : State)
  : result ModelInvocationError unit :=
  valid ← transition_shape prev tr st;
  if negb valid then Err TransitionStateMismatch else
  match tr with
  | StartAttempt _ => Ok tt
  | RecordResponse response =>
      expected ← ok_or (ih_attempt_id prev) TransitionStateMismatch; validate_response_binding int expected response
  | RecordError error =>
      expected ← ok_or (ih_attempt_id prev) TransitionStateMismatch; validate_error_binding int expected error
  end.

Definition validate_record_shape (int : ModelInvocationIntent) (rev : Revision.t) (st : State) (prev : option ModelInvocationHead)
    (journal : JournalHead) (tr : option Transition) (tdig : option Digest) : result ModelInvocationError unit :=
  _ ← map_err map_scope_error (validate_journal_scope (intent_tenant_id int) (intent_run_id int) journal);
  _ ← validate_state_binding int st;
  if rev =? Revision.INITIAL then
    if negb (match st with Prepared => true | _ => false end) || negb (is_none prev) || negb (is_none tr) || negb (is_none tdig)
    then Err InvalidInitialShape else validate_preparation_journal int journal
  else
    match prev, tr, tdig with
    | Some prev, Some tr, Some tdig =>
        if negb (bool_decide (ih_tenant_id prev = intent_tenant_id int)) then Err PreviousTenantMismatch else
        if negb (bool_decide (ih_run_id prev = intent_run_id int)) then Err PreviousRunMismatch else
        if negb (bool_decide (ih_invocation_id prev = invocation_id int)) then Err PreviousInvocationMismatch else
        if negb (bool_decide (Revision.checked_next (ih_revision prev) = Some rev))
        then Err (PreviousRevisionMismatch (ih_revision prev) rev) else
        _ ← validate_journal_advances (ih_journal_head prev) journal;
        expected ← compute_transition_digest tr;
        if negb (bool_decide (expected = tdig)) then Err TransitionDigestMismatch else
        validate_transition_shape int prev tr st
    | _, _, _ => Err InvalidSuccessorShape
    end.

Definition restore (wire : ModelInvocation) : result ModelInvocationError ModelInvocation :=
  _ ← validate_record_shape (intent wire) (revision wire) (state wire) (previous wire) (journal_head wire) (transition wire)
        (transition_digest wire);
  expected ← compute_record_digest
    (mkRecordWire (intent_digest (intent wire)) (revision wire) (state wire) (previous wire) (journal_head wire) (transition_digest wire));
  if negb (bool_decide (digest wire = expected)) then Err DigestMismatch else Ok wire.

(** * The history verifier *)

Inductive ModelInvocationHistoryError :=
| FirstRecordNotInitial (actual : Revision.t)
| IntentMismatch
| PreviousHeadMismatch
| TransitionMissing
| TransitionFault (source : ModelInvocationError)
| RecordMismatch
| HistoryIntegrity (source : ModelInvocationIntegrityError).

Definition Verifier := option ModelInvocation.
Definition verifier_new : Verifier := None.
Definition verifier_after (record : ModelInvocation) : Verifier := Some record.
Definition verifier_head (self : Verifier) : option ModelInvocationHead := head <$> self.

(** The verifier after an accepted record; a rejection leaves it unchanged. *)
Definition verify_next (self : Verifier) (record : ModelInvocation) : result ModelInvocationHistoryError Verifier :=
  match self with
  | None =>
      if negb (revision record =? Revision.INITIAL) then Err (FirstRecordNotInitial (revision record)) else Ok (Some record)
  | Some prev =>
      if negb (bool_decide (intent record = intent prev)) then Err IntentMismatch else
      if negb (bool_decide (previous record = Some (head prev))) then Err PreviousHeadMismatch else
      tr ← ok_or (transition record) TransitionMissing;
      expected ← map_err TransitionFault (advance prev tr (journal_head record));
      same ← map_err HistoryIntegrity (canonical_equal expected record);
      if negb same then Err RecordMismatch else Ok (Some record)
  end.

Definition verify_all (records : list ModelInvocation) : result ModelInvocationHistoryError Verifier :=
  try_fold verify_next verifier_new records.

End Records.
Arguments ModelInvocation : clear implicits.
Arguments ModelInvocationRecordDigestWire : clear implicits.
End ModelInvocations.
