(* ===== verification/ModelInvocationLaws.v ===== *)
(** Laws of durable model invocations ([ModelInvocation.v]): the records refine an
    abstract ledger of physical attempts and what each one spent, in which a
    failed attempt is followed by another only after the advised delay and a
    response is final; every record restores to itself; the streaming verifier
    accepts exactly the histories the state machine makes; and the answer of a
    finished event stream ([ModelEvent.v]) is one the running attempt can
    record. *)

From Stdlib Require Import ZArith Lia List.
From stdpp Require Import prelude.
From S2P Require Import Prelude Ordered Json Decimal Content BoundedJson Accounting Time Budget Checkpoint Capability Run Journal Barrier Tool Model ModelResponse ModelTranscript ModelRequest ModelEvent ToolRuntime ToolRuntimeLaws ModelRuntime ModelInvocation.

Open Scope Z_scope.
Import Timestamp(Timestamp).

Module ModelCalls.
Import Content Capability Models Responses Requests ModelRuntime ModelInvocations.

(** * The abstract ledger *)

(** Where the current physical attempt stands; a failure carries what it spent
    and the earliest time a retry is authorised, if any. *)
Inductive Phase :=
| PIdle
| PRunning (attempt : Z)
| PCommitted (attempt : Z) (spent : ModelUsage)
| PFailed (attempt : Z) (spent : option ModelUsage) (retry_at : option Timestamp).

(** [settled]: the earlier attempts with what each spent. *)
Record Ledger := mkLedger { settled : list (Z * option ModelUsage); phase : Phase }.

Definition affordable (lim : ModelRequestLimits) (u : ModelUsage) : Prop :=
  usage_input_tokens u <= lim_input_tokens lim /\ usage_output_tokens u <= lim_output_tokens lim.

(** One step of the contract at time [t]. *)
Inductive ledger_step (lim : ModelRequestLimits) (t : Timestamp) : Ledger -> Ledger -> Prop :=
| step_start done attempt : ledger_step lim t (mkLedger done PIdle) (mkLedger done (PRunning attempt))
| step_success done attempt u :
    affordable lim u -> ledger_step lim t (mkLedger done (PRunning attempt)) (mkLedger done (PCommitted attempt u))
| step_failure done attempt spent retry_at :
    (forall u, spent = Some u -> affordable lim u) ->
    ledger_step lim t (mkLedger done (PRunning attempt)) (mkLedger done (PFailed attempt spent retry_at))
| step_retry done attempt spent not_before attempt' :
    not_before <= t -> attempt' <> attempt ->
    ledger_step lim t (mkLedger done (PFailed attempt spent (Some not_before))) (mkLedger (done ++ [(attempt, spent)]) (PRunning attempt')).

Definition spent_tokens (of_usage : ModelUsage -> Z) (o : option ModelUsage) : Z := match o with Some u => of_usage u | None => 0 end.
Definition phase_spent (p : Phase) : list (option ModelUsage) :=
  match p with PCommitted _ u => [Some u] | PFailed _ spent _ => [spent] | _ => [] end.

(** All attempts of the ledger, and what they spent. *)
Definition spendings (l : Ledger) : list (option ModelUsage) := (settled l).*2 ++ phase_spent (phase l).
Definition total (of_usage : ModelUsage -> Z) (l : Ledger) : Z := foldr (fun o n => spent_tokens of_usage o + n) 0 (spendings l).

Lemma ledger_step_affordable lim t l l' :
  ledger_step lim t l l' -> (forall u, Some u ∈ spendings l -> affordable lim u) -> forall u, Some u ∈ spendings l' -> affordable lim u.
Proof.
  unfold spendings. destruct 1; simpl; intros HA v Hv; try (apply HA; set_solver).
  - rewrite elem_of_app, list_elem_of_singleton in Hv. destruct Hv as [Hv|[= ->]]; [apply HA; set_solver | done].
  - rewrite elem_of_app, list_elem_of_singleton in Hv. destruct Hv as [Hv|E]; [apply HA; set_solver | eauto].
Qed.

Lemma total_bounded (of_usage : ModelUsage -> Z) m l :
  0 <= m -> (forall u, Some u ∈ spendings l -> of_usage u <= m) -> total of_usage l <= m * Z.of_nat (length (spendings l)).
Proof.
  intros Hm. unfold total. induction (spendings l) as [|o k IH]; intros Hb; simpl; [lia |].
  assert (spent_tokens of_usage o <= m) by (destruct o; simpl; [apply Hb; left | lia]).
  assert (foldr (fun o n => spent_tokens of_usage o + n) 0 k <= m * Z.of_nat (length k)) by (apply IH; intros u Hu; apply Hb; by right). lia.
Qed.

Lemma model_scope_Ok tenant run j u :
  validate_journal_scope tenant run j = Ok u <-> jh_tenant_id j = tenant /\ jh_run_id j = run.
Proof.
  unfold validate_journal_scope. destruct u. case_bool_decide; simpl; [| split; [done | tauto]].
  case_bool_decide; simpl; split; tauto || done.
Qed.

Lemma model_advances_Ok p j u :
  validate_journal_advances p j = Ok u <-> jh_sequence p < jh_sequence j /\ jh_recorded_at p <= jh_recorded_at j.
Proof.
  unfold validate_journal_advances. destruct u. destruct (Z.leb_spec (jh_sequence j) (jh_sequence p)); [split; [done | lia] |].
  destruct (Z.ltb_spec (jh_recorded_at j) (jh_recorded_at p)); [split; [done | lia] |]. split; [lia | done].
Qed.

Section Records.
Context {Details : Type}.
Abbreviation Invocation := (ModelInvocation Details).
Abbreviation Transition := (ModelInvocationTransition Details).
Context `{!Canonical ModelInvocationIntentDigestWire, !Canonical Transition, !Canonical (ModelInvocationRecordDigestWire Details),
          !Canonical ModelResponse, !Canonical (ModelError Details), !Canonical Invocation}.
Variable sha256 : bytes -> bytes.

(** * Histories, newest record first *)

Inductive history : list Invocation -> Prop :=
| history_prepared int j x : prepare sha256 int j = Ok x -> history [x]
| history_advanced x l tr j x' : history (x :: l) -> advance sha256 x tr j = Ok x' -> history (x' :: x :: l).

Definition retry_time (at_ : Timestamp) (e : ModelError Details) : option Timestamp :=
  (fun delay => at_ + delay * 1000) <$> Tools.safe_after_delay (retry_advice (me_failure e)).

Definition record_ledger (before : Ledger) (x : Invocation) : Ledger :=
  match state x with
  | Prepared => mkLedger [] PIdle
  | Executing a =>
      mkLedger (match phase before with PFailed b spent _ => settled before ++ [(b, spent)] | _ => settled before end) (PRunning a)
  | Committed response => mkLedger (settled before) (PCommitted (mp_attempt_id (response_provenance response)) (Responses.usage response))
  | Failed e =>
      mkLedger (settled before) (PFailed (ep_attempt_id (me_provenance e)) (me_usage e) (retry_time (jh_recorded_at (journal_head x)) e))
  end.

Fixpoint ledger_of (l : list Invocation) : Ledger :=
  match l with [] => mkLedger [] PIdle | x :: l' => record_ledger (ledger_of l') x end.

(** ** What validated evidence says *)

(** Errors of one attempt of the intent. *)
Record error_bound (int : ModelInvocationIntent) (attempt : Z) (e : ModelError Details) : Prop := {
  eb_attempt : ep_attempt_id (me_provenance e) = attempt;
  eb_model : ep_model (me_provenance e) = model_identity (descriptor int);
  eb_phase : match me_phase e with Response => response_mode (request int) = Complete | Stream => response_mode (request int) = Streaming | _ => True end;
  eb_usage : forall u, me_usage e = Some u -> affordable (limits (request int)) u /\ me_phase e <> Preparation
}.

Lemma model_error_binding_Ok int attempt (e : ModelError Details) u : validate_error_binding int attempt e = Ok u <-> error_bound int attempt e.
Proof.
  unfold validate_error_binding, validate_for_attempt. destruct u.
  destruct (Z.eqb_spec (ep_attempt_id (me_provenance e)) attempt) as [Ha|Ha]; simpl; [| by split; [| intros []]].
  destruct (bool_decide_reflect (ep_model (me_provenance e) = model_identity (descriptor int))) as [Hm|Hm]; simpl; [| by split; [| intros []]].
  assert (Hp : phase_matches_mode (me_phase e) (response_mode (request int)) = true <->
               match me_phase e with Response => response_mode (request int) = Complete | Stream => response_mode (request int) = Streaming | _ => True end).
  { unfold phase_matches_mode. destruct (me_phase e); try done; apply bool_decide_eq_true. }
  destruct (phase_matches_mode _ _); simpl.
  2: { split; [done |]. intros [_ _ H3 _]. by apply Hp in H3. }
  destruct (me_usage e) as [v|] eqn:Eu; simpl.
  - destruct (Z.ltb_spec (lim_input_tokens (limits (request int))) (usage_input_tokens v)); simpl.
    { split; [done |]. intros [_ _ _ H4]. destruct (H4 v Eu) as [[? ?] _]. lia. }
    destruct (Z.ltb_spec (lim_output_tokens (limits (request int))) (usage_output_tokens v)); simpl.
    { split; [done |]. intros [_ _ _ H4]. destruct (H4 v Eu) as [[? ?] _]. lia. }
    case_bool_decide as Hph; simpl.
    { split; [done |]. intros [_ _ _ H4]. by destruct (H4 v Eu) as [_ ?]. }
    split; [| done]. intros _. constructor; [done | done | by apply Hp |]. intros w Hw. assert (w = v) as -> by congruence. done.
  - rewrite andb_false_r. split; [| done]. intros _. constructor; [done | done | by apply Hp | congruence].
Qed.

Lemma response_binding_Ok int attempt r u :
  validate_response_binding int attempt r = Ok u <->
  mp_attempt_id (response_provenance r) = attempt /\ response_validate_for r (descriptor int) (request int) = Ok tt.
Proof.
  unfold validate_response_binding. destruct u. destruct (Z.eqb_spec (mp_attempt_id (response_provenance r)) attempt); simpl; [| by split; [| intros [? _]]].
  destruct (response_validate_for r _ _) as [[]|]; simpl; [done |]. by split; [| intros [_ ?]].
Qed.

Lemma validate_for_affordable r d q : response_validate_for r d q = Ok tt -> affordable (limits q) (Responses.usage r).
Proof.
  unfold response_validate_for, affordable. case_match; [done |].
  destruct (Z.ltb_spec (lim_input_tokens (limits q)) (usage_input_tokens (Responses.usage r))); [done |].
  destruct (Z.ltb_spec (lim_output_tokens (limits q)) (usage_output_tokens (Responses.usage r))); [done |]. done.
Qed.

Lemma model_retry_Ok at_ (e : ModelError Details) t u :
  validate_retry at_ e t = Ok u -> exists not_before, retry_time at_ e = Some not_before /\ not_before <= t.
Proof.
  unfold validate_retry, retry_time. destruct (Tools.safe_after_delay _) as [delay|]; [| done].
  destruct (Timestamp.MAX <? _); [done |]. destruct (_ && _); simpl; [| done]. unfold Timestamp.from_unix_micros.
  destruct (_ || _); simpl; [done |]. destruct (Z.ltb_spec t (at_ + delay * 1000)); [done |]. intros _. by exists (at_ + delay * 1000).
Qed.

(** ** Operations *)

Lemma model_advance_Ok x tr j x' :
  advance sha256 x tr j = Ok x' <->
  exists st tdig dig,
    (jh_tenant_id j = intent_tenant_id (intent x) /\ jh_run_id j = intent_run_id (intent x)) /\
    (jh_sequence (journal_head x) < jh_sequence j /\ jh_recorded_at (journal_head x) <= jh_recorded_at j) /\
    revision x <> Revision.MAX /\ apply_transition x tr (jh_recorded_at j) = Ok st /\
    compute_transition_digest sha256 tr = Ok tdig /\
    compute_record_digest sha256 (mkRecordWire (intent_digest (intent x)) (revision x + 1) st (Some (head x)) j (Some tdig)) = Ok dig /\
    x' = mkInvocation (intent x) (revision x + 1) st (Some (head x)) j (Some tr) (Some tdig) dig.
Proof.
  unfold advance, validate_successor_journal. split.
  - intros Ha. open_guards Ha. open_guards Hx. injection Ha as <-. apply map_err_Ok, model_scope_Ok in Hx4. apply model_advances_Ok in Hx.
    unfold Revision.checked_next in Hx0. destruct (Z.eqb_spec (revision x) Revision.MAX); [done |]. injection Hx0 as <-. eauto 12.
  - intros (st & tdig & dig & Hs & Hj & Hr & -> & Ht & Hd & ->).
    rewrite (proj2 (map_err_Ok _ _ tt) (proj2 (model_scope_Ok _ _ _ tt) Hs)). simpl. rewrite (proj2 (model_advances_Ok _ _ tt) Hj). simpl.
    unfold Revision.checked_next. destruct (Z.eqb_spec (revision x) Revision.MAX); [done |]. simpl. rewrite Ht. simpl. by rewrite Hd.
Qed.

Lemma model_prepare_Ok int j x :
  prepare sha256 int j = Ok x <->
  exists dig,
    (jh_tenant_id j = intent_tenant_id int /\ jh_run_id j = intent_run_id int) /\
    (let base := head_journal_head (base_checkpoint (activation int)) in
     jh_sequence base < jh_sequence j /\ jh_recorded_at base <= jh_recorded_at j) /\
    compute_record_digest sha256 (mkRecordWire (intent_digest int) 0 Prepared None j None) = Ok dig /\
    x = mkInvocation int 0 Prepared None j None None dig.
Proof.
  unfold prepare, validate_preparation_journal. split.
  - intros Hp. open_guards Hp. open_guards Hx. injection Hp as <-. apply map_err_Ok, model_scope_Ok in Hx1. apply model_advances_Ok in Hx. eauto 10.
  - intros (dig & Hs & Hj & Hd & ->). rewrite (proj2 (map_err_Ok _ _ tt) (proj2 (model_scope_Ok _ _ _ tt) Hs)). simpl.
    rewrite (proj2 (model_advances_Ok _ _ tt) Hj). simpl. unfold Revision.INITIAL. by rewrite Hd.
Qed.

Lemma model_advance_intent x tr j x' : advance sha256 x tr j = Ok x' -> intent x' = intent x.
Proof. by intros (st & tdig & dig & _ & _ & _ & _ & _ & _ & ->)%model_advance_Ok. Qed.

(** A transition of the record is a step of the contract on the ledger. *)
Lemma model_apply_step x l tr j x' :
  advance sha256 x tr j = Ok x' ->
  ledger_step (limits (request (intent x))) (jh_recorded_at j) (ledger_of (x :: l)) (ledger_of (x' :: x :: l)).
Proof.
  intros (st & tdig & dig & _ & _ & _ & Hst & _ & _ & ->)%model_advance_Ok.
  change (ledger_of (?y :: x :: l)) with (record_ledger (ledger_of (x :: l)) y).
  change (ledger_of (x :: l)) with (record_ledger (ledger_of l) x). generalize (ledger_of l). intros before.
  unfold apply_transition in Hst. unfold record_ledger. destruct (state x) as [|a|r|e] eqn:Es, tr as [b|r'|e']; try done; simpl.
  - injection Hst as <-. simpl. constructor.
  - open_guards Hst. injection Hst as <-. simpl. apply response_binding_Ok in Hx as [-> Hv]. constructor. by eapply validate_for_affordable.
  - open_guards Hst. injection Hst as <-. simpl. apply model_error_binding_Ok in Hx as [-> _ _ Hu]. constructor. intros u E. by apply Hu.
  - destruct (Z.eqb_spec (ep_attempt_id (me_provenance e)) b); [done |]. open_guards Hst. injection Hst as <-. simpl.
    apply model_retry_Ok in Hx as (nb & -> & Hle). by constructor.
Qed.

Lemma model_history_spent x l :
  history (x :: l) -> forall u, Some u ∈ spendings (ledger_of (x :: l)) -> affordable (limits (request (intent x))) u.
Proof.
  intros Hh. remember (x :: l) as k eqn:Ek. revert x l Ek. induction Hh as [int j y Hp|y l' tr j y' Hh IH Ha]; intros x l [= <- <-].
  - apply model_prepare_Ok in Hp as (dig & _ & _ & _ & ->). intros u Hu. by apply not_elem_of_nil in Hu.
  - rewrite (model_advance_intent _ _ _ _ Ha). eapply ledger_step_affordable; [by eapply model_apply_step | by eapply IH].
Qed.

End Records.
(** * Restoration *)

Section Restore.
Context {Details : Type}.
Abbreviation Invocation := (ModelInvocation Details).
Abbreviation Transition := (ModelInvocationTransition Details).
Context `{!Canonical Transition, !Canonical (ModelInvocationRecordDigestWire Details), !Canonical ModelResponse,
          !Canonical (ModelError Details), !Canonical Invocation}.
Variable sha256 : bytes -> bytes.
Hypothesis responses_encode : forall r : ModelResponse, is_Some (to_vec r).
Hypothesis errors_encode : forall e : ModelError Details, is_Some (to_vec e).

Lemma encodes_equal {T} `{!Canonical T} (x : T) : is_Some (to_vec x) -> canonical_equal x x = Ok true.
Proof. intros [b Hb]. unfold canonical_equal. rewrite Hb. simpl. by rewrite bool_decide_true. Qed.

Lemma model_apply_shape (x : Invocation) tr t st :
  apply_transition x tr t = Ok st ->
  validate_state_binding (intent x) st = Ok tt /\ validate_transition_shape (intent x) (head x) tr st = Ok tt.
Proof.
  unfold apply_transition, validate_transition_shape, transition_shape, head, status, attempt_id. simpl.
  destruct (state x) as [|a|r|e], tr as [b|r'|e']; try done; simpl.
  - intros [= <-]. simpl. by rewrite Z.eqb_refl.
  - intros ([] & Hb & [= <-])%bind_Ok. rewrite (encodes_equal r' (responses_encode r')). simpl. rewrite Hb. split; [| done].
    pose proof Hb as [Ha _]%response_binding_Ok. simpl. by rewrite Ha.
  - intros ([] & Hb & [= <-])%bind_Ok. rewrite (encodes_equal e' (errors_encode e')). simpl. rewrite Hb. split; [| done].
    pose proof Hb as [Ha _ _ _]%model_error_binding_Ok. simpl. by rewrite Ha.
  - destruct (Z.eqb_spec (ep_attempt_id (me_provenance e)) b) as [|Hn]; [done |]. intros (? & _ & [= <-])%bind_Ok. split; [done |].
    rewrite bool_decide_false by (by intros [=]). simpl. by rewrite Z.eqb_refl.
Qed.

Lemma model_prepared_restores int j (x : Invocation) : prepare sha256 int j = Ok x -> restore sha256 x = Ok x.
Proof.
  intros (dig & Hs & Hj & Hd & ->)%model_prepare_Ok. unfold restore, validate_record_shape, validate_preparation_journal. simpl.
  rewrite (proj2 (map_err_Ok _ _ tt) (proj2 (model_scope_Ok _ _ _ tt) Hs)). simpl. rewrite (proj2 (model_advances_Ok _ _ tt) Hj). simpl.
  rewrite Hd. simpl. by rewrite bool_decide_true.
Qed.

Lemma model_advanced_restores (x : Invocation) tr j x' : 0 <= revision x -> advance sha256 x tr j = Ok x' -> restore sha256 x' = Ok x'.
Proof.
  intros Hrev (st & tdig & dig & Hs & Hj & Hr & Hst & Ht & Hd & ->)%model_advance_Ok. apply model_apply_shape in Hst as [Hb Hsh].
  unfold restore, validate_record_shape. cbn [intent revision state previous journal_head transition transition_digest digest].
  rewrite (proj2 (map_err_Ok _ _ tt) (proj2 (model_scope_Ok _ _ _ tt) Hs)). cbn [mbind result_bind]. rewrite Hb.
  destruct (Z.eqb_spec (revision x + 1) Revision.INITIAL) as [E|_]; [unfold Revision.INITIAL in E; lia |].
  cbn. rewrite !bool_decide_true by done. cbn. unfold Revision.checked_next. destruct (Z.eqb_spec (revision x) Revision.MAX); [done |].
  rewrite bool_decide_true by done. cbn. rewrite (proj2 (model_advances_Ok _ _ tt) Hj). cbn. rewrite Ht. cbn.
  rewrite bool_decide_true by done. cbn. rewrite Hsh. cbn. rewrite Hd. cbn. by rewrite bool_decide_true.
Qed.

Lemma model_apply_not_prepared (x : Invocation) tr t : apply_transition x tr t <> Ok Prepared.
Proof.
  unfold apply_transition. destruct (state x) as [|a|r|e], tr as [b|r'|e']; try done; try (destruct (_ =? _); [done |]);
    by intros (? & _ & H)%bind_Ok.
Qed.

Lemma model_history_revision (x : Invocation) l : history sha256 (x :: l) ->
  revision x = Z.of_nat (length l) /\ (revision x = 0 <-> state x = Prepared).
Proof.
  intros Hh. remember (x :: l) as k eqn:Ek. revert x l Ek. induction Hh as [int j y Hp|y l' tr j y' Hh IH Ha]; intros x l [= <- <-].
  - by apply model_prepare_Ok in Hp as (dig & _ & _ & _ & ->).
  - apply model_advance_Ok in Ha as (st & tdig & dig & _ & _ & _ & Hst & _ & _ & ->). destruct (IH _ _ eq_refl) as [E _]. simpl.
    split; [lia |]. split; [lia |]. intros ->. by apply model_apply_not_prepared in Hst.
Qed.

Lemma model_history_head (x : Invocation) l : history sha256 (x :: l) -> head_new (head x) = Ok (head x).
Proof.
  intros Hh. destruct (model_history_revision x l Hh) as [_ Hr].
  assert (Hs : jh_tenant_id (journal_head x) = intent_tenant_id (intent x) /\ jh_run_id (journal_head x) = intent_run_id (intent x)).
  { inversion Hh as [int j y Hp|y l' tr j y' _ Ha]; subst.
    - by apply model_prepare_Ok in Hp as (dig & Hs & _ & _ & ->).
    - by apply model_advance_Ok in Ha as (st & tdig & dig & Hs & _ & _ & _ & _ & _ & ->). }
  unfold head_new, head. simpl. rewrite (proj2 (map_err_Ok _ _ tt) (proj2 (model_scope_Ok _ _ _ tt) Hs)). simpl.
  unfold status, attempt_id, validate_revision_status, Revision.INITIAL.
  destruct (state x), (Z.eqb_spec (revision x) 0); simpl; try done; exfalso; naive_solver.
Qed.

Lemma model_history_restores (x : Invocation) l : history sha256 (x :: l) -> restore sha256 x = Ok x.
Proof.
  intros Hh. inversion Hh as [int j y Hp|y l' tr j y' Hy Ha]; subst; [by eapply model_prepared_restores |].
  eapply model_advanced_restores; [| done]. destruct (model_history_revision _ _ Hy) as [-> _]. lia.
Qed.

(** ** The verifier *)

Hypothesis records_injective : encoder_injective (to_vec (T := Invocation)).

Lemma model_verify_next_Some (p x : Invocation) v :
  is_Some (to_vec x) ->
  verify_next sha256 (Some p) x = Ok v <-> exists tr, transition x = Some tr /\ advance sha256 p tr (journal_head x) = Ok x /\ v = Some x.
Proof.
  intros [b Hb]. unfold verify_next, canonical_equal. rewrite Hb. split.
  - intros Hv. destruct (bool_decide _) eqn:Ei; simpl in Hv; [| done]. destruct (bool_decide (previous x = _)); simpl in Hv; [| done].
    destruct (transition x) as [tr|]; simpl in Hv; [| done]. destruct (advance sha256 p tr (journal_head x)) as [y|] eqn:Ea; simpl in Hv; [| done].
    destruct (to_vec y) as [c|] eqn:Ec; simpl in Hv; [| done]. case_bool_decide as He; simpl in Hv; [| done]. injection Hv as <-.
    assert (y = x) as -> by (apply (records_injective y x b); congruence). eauto.
  - intros (tr & Ht & Ha & ->). assert (Hi : intent x = intent p) by (by eapply model_advance_intent).
    assert (Hp : previous x = Some (head p)) by (by apply model_advance_Ok in Ha as (? & ? & ? & _ & _ & _ & _ & _ & _ & ->)).
    rewrite !bool_decide_true by done. simpl. rewrite Ht. simpl. rewrite Ha. simpl. rewrite Hb. simpl. by rewrite bool_decide_true.
Qed.

(** A restored revision zero is the preparation of its intent. *)
Lemma model_restored_initial (x : Invocation) :
  restore sha256 x = Ok x -> revision x = Revision.INITIAL -> prepare sha256 (intent x) (journal_head x) = Ok x.
Proof.
  destruct x as [int rev st prev j tr tdig dig]. simpl. intros Hr ->. unfold restore, validate_record_shape in Hr. simpl in Hr.
  open_guards Hr. open_guards Hx. simpl in *. destruct st; simpl in *; try done. destruct prev, tr, tdig; simpl in *; try done.
  unfold prepare. rewrite Hx. simpl. rewrite Hx0. simpl. do 2 f_equal. congruence.
Qed.

Lemma model_history_step (x : Invocation) l x' :
  history sha256 (x' :: x :: l) -> exists tr, transition x' = Some tr /\ advance sha256 x tr (journal_head x') = Ok x'.
Proof.
  intros Hh. inversion Hh as [|? ? tr j ? _ Ha]; subst. exists tr.
  pose proof Ha as (? & ? & ? & _ & _ & _ & _ & _ & _ & ->)%model_advance_Ok. simpl. by split.
Qed.

Lemma model_history_suffix (k l : list Invocation) : l <> [] -> history sha256 (k ++ l) -> history sha256 l.
Proof. intros Hl. induction k as [|z k IHk]; [done |]. intros Hh. apply IHk. simpl in Hh. inversion Hh; subst; [by destruct k | congruence]. Qed.

(** Starting after [x], the verifier accepts exactly the continuations of a history. *)
Lemma model_verify_from (records : list Invocation) x l v :
  Forall (fun y => is_Some (to_vec y)) records -> history sha256 (x :: l) ->
  try_fold (verify_next sha256) (Some x) records = Ok v <-> history sha256 (rev records ++ x :: l) /\ v = List.head (rev records ++ [x]).
Proof.
  intros HF. revert x l. induction HF as [|y records Hy0 _ IH]; intros x l Hh; simpl.
  { split; [intros [= <-]; done | by intros [_ ->]]. }
  rewrite bind_Ok. setoid_rewrite model_verify_next_Some; [| done]. rewrite <- !app_assoc. simpl. split.
  - intros (v' & (tr & _ & Ha & ->) & Hf). apply (IH y (x :: l)) in Hf as [Hh' ->]; [| by econstructor].
    split; [done |]. by destruct (rev records).
  - intros [Hh' ->]. assert (Hy : history sha256 (y :: x :: l)).
    { by apply model_history_suffix in Hh'. }
    exists (Some y). split; [destruct (model_history_step _ _ _ Hy) as (tr & ? & ?); eauto |].
    apply (IH y (x :: l)); [done |]. split; [done |]. by destruct (rev records).
Qed.

(** The verifier over all records. *)
Lemma model_verify_all (records : list Invocation) (x : Invocation) :
  Forall (fun y => restore sha256 y = Ok y /\ is_Some (to_vec y)) records ->
  verify_all sha256 records = Ok (Some x) <-> exists l, rev records = x :: l /\ history sha256 (x :: l).
Proof.
  intros HF. unfold verify_all, verifier_new. destruct records as [|y records]; simpl; [split; [done | by intros (l & ? & _)] |].
  inversion HF as [|? ? [Hy _] HF']; subst. apply (Forall_impl _ (fun y => is_Some (to_vec y))) in HF'; [| by intros ? [_ ?]].
  unfold verify_next at 1. destruct (Z.eqb_spec (revision y) Revision.INITIAL) as [E|E]; simpl.
  - assert (Hh : history sha256 [y]) by (econstructor; by apply model_restored_initial). change (fun s' => ?f s') with f.
    rewrite (model_verify_from records y [] (Some x) HF' Hh). split.
    + intros [Hh' Hx]. destruct (rev records ++ [y]) as [|z k] eqn:Ek; [by destruct (rev records) |]. injection Hx as ->. eauto.
    + intros (l & -> & Hh'). done.
  - split; [done |]. intros (l & El & Hh). exfalso. apply E.
    rewrite <- El in Hh. apply model_history_suffix in Hh; [| done]. by apply model_history_revision in Hh as [? _].
Qed.

End Restore.

(** * The model boundary *)

(** A context never panics on valid timestamps, and its monotonic deadline is
    exactly as far from the observation as the run's deadline; an attempt is
    told to stop exactly when it is cancelled or that deadline is reached. *)
Theorem model_context_deadline tenant run thread attempt budget observed instant
    (Hrun : Timestamp.valid (BudgetRemaining.deadline budget)) (Hobs : Timestamp.valid observed) :
  let built := context_new tenant run thread attempt budget observed instant in
  built <> Err Panic /\
  forall c, built = Ok c ->
    observed < context_deadline c /\ context_deadline c = BudgetRemaining.deadline budget /\
    mc_deadline_instant c - instant = (context_deadline c - observed) * 1000 /\
    (forall cancelled at_, stop_reason_at c cancelled at_ = None <-> cancelled = false /\ is_Some (remaining_time_at c at_)).
Proof.
  intros built. unfold built, context_new, Timestamp.valid in *. destruct (Z.leb_spec (BudgetRemaining.deadline budget - observed) 0); [by split |].
  destruct (Z.ltb_spec u64_max (BudgetRemaining.deadline budget - observed)) as [Hu|_].
  { exfalso. unfold u64_max, Timestamp.MIN, Timestamp.MAX in *. lia. }
  unfold ToolRuntime.instant_checked_add. case_match; simpl; [| by split]. split; [done |]. intros c [= <-]. unfold context_deadline. simpl. split_and!; try lia.
  intros cancelled at_. unfold stop_reason_at, remaining_time_at, ToolRuntime.remaining_time, ToolRuntime.checked_duration_since. simpl.
  destruct cancelled; [by split; [| intros []] |]. set (dl := instant + _).
  destruct (Z.leb_spec dl at_), (Z.leb_spec at_ dl); simpl; try lia.
  - assert (dl - at_ =? 0 = true) as -> by lia. split; [done | by intros [_ [? ?]]].
  - split; [done | by intros [_ [? ?]]].
  - destruct (Z.eqb_spec (dl - at_) 0); [lia |]. split; [eauto | done].
Qed.

(** * Theorems *)

(** C13: Durable model invocations refine the ledger of physical attempts.  A
    prepared invocation has the empty ledger, and every accepted advance of a
    record is, at the time of its journal entry, one step of the contract: a
    first start, a response or a failure of the running attempt that spent at
    most what the request allows, or a retry of a failure with a new attempt,
    not before the advised delay has passed.  A committed response is final, a
    failure without retry advice too, and all attempts together spend at most
    the request's token limits for each of them. *)
Theorem model_invocation_refines_ledger {Details : Type} `{!Canonical (ModelInvocationTransition Details),
    !Canonical (ModelInvocationRecordDigestWire Details)} (sha256 : bytes -> bytes) :
  (forall int j x, prepare (Details := Details) sha256 int j = Ok x -> ledger_of [x] = mkLedger [] PIdle) /\
  (forall (x : ModelInvocation Details) l tr j x', advance sha256 x tr j = Ok x' ->
     ledger_step (limits (request (intent x))) (jh_recorded_at j) (ledger_of (x :: l)) (ledger_of (x' :: x :: l)) /\
     intent x' = intent x /\ revision x' = revision x + 1) /\
  (forall (x : ModelInvocation Details) tr j,
     match state x with Committed _ => True | Failed e => Tools.safe_after_delay (retry_advice (me_failure e)) = None | _ => False end ->
     is_ok (advance sha256 x tr j) = false) /\
  (forall (x : ModelInvocation Details) l, history sha256 (x :: l) ->
     let lim := limits (request (intent x)) in
     0 <= lim_input_tokens lim -> 0 <= lim_output_tokens lim ->
     let attempts := Z.of_nat (length (spendings (ledger_of (x :: l)))) in
     total usage_input_tokens (ledger_of (x :: l)) <= lim_input_tokens lim * attempts /\
     total usage_output_tokens (ledger_of (x :: l)) <= lim_output_tokens lim * attempts).
Proof.
  split_and!.
  - by intros int j x (dig & _ & _ & _ & ->)%model_prepare_Ok.
  - intros x l tr j x' Ha. split_and!; [by eapply model_apply_step | by eapply model_advance_intent |].
    by apply model_advance_Ok in Ha as (st & tdig & dig & _ & _ & _ & _ & _ & _ & ->).
  - intros x tr j Hs. destruct (advance sha256 x tr j) eqn:Ea; [| done]. apply model_advance_Ok in Ea as (st & _ & _ & _ & _ & _ & Hst & _).
    unfold apply_transition, validate_retry in Hst. destruct (state x) as [| |r|e], tr; try done.
    rewrite Hs in Hst. by case_match.
  - intros x l Hh lim Hi Ho attempts. pose proof (model_history_spent sha256 x l Hh) as Hs. split; apply total_bounded; try done; by intros u [? ?]%Hs.
Qed.

(** Records survive storage: every record a history reaches restores to itself
    from its stored fields, with its compact head a valid head, and a
    constructed intent restores to itself. *)
Theorem model_records_restore {Details : Type} `{!Canonical (ModelInvocationTransition Details),
    !Canonical (ModelInvocationRecordDigestWire Details), !Canonical ModelResponse, !Canonical (ModelError Details),
    !Canonical ModelInvocationIntentDigestWire}
    (sha256 : bytes -> bytes) (x : ModelInvocation Details) (l : list (ModelInvocation Details))
    (responses_encode : forall r : ModelResponse, is_Some (to_vec r)) (errors_encode : forall e : ModelError Details, is_Some (to_vec e)) :
  history sha256 (x :: l) ->
  restore sha256 x = Ok x /\ head_new (head x) = Ok (head x) /\ revision x = Z.of_nat (length l) /\
  (forall act id d q int, intent_new sha256 act id d q = Ok int -> intent_restore sha256 int = Ok int).
Proof.
  intros Hh. split_and!; [by eapply model_history_restores | by eapply model_history_head | by apply model_history_revision in Hh as [? _] |].
  intros act id d q int Hi. pose proof Hi as Hi'. unfold intent_new in Hi'. open_guards Hi'. injection Hi' as <-.
  unfold intent_restore. simpl. rewrite Hi. simpl. by rewrite bool_decide_true.
Qed.

(** The streaming verifier of model histories is exact: fed restored records
    in ascending order, it accepts them and ends on the last one exactly when
    they are the records of one history of the state machine, each obtained
    from its predecessor by an accepted transition, retry delay included. *)
Theorem model_history_verifier_exact {Details : Type} `{!Canonical (ModelInvocationTransition Details),
    !Canonical (ModelInvocationRecordDigestWire Details), !Canonical ModelResponse, !Canonical (ModelError Details), !Canonical (ModelInvocation Details)}
    (sha256 : bytes -> bytes) (records : list (ModelInvocation Details)) (x : ModelInvocation Details)
    (records_injective : encoder_injective (to_vec (T := ModelInvocation Details))) :
  Forall (fun y => restore sha256 y = Ok y /\ is_Some (to_vec y)) records ->
  verify_all sha256 records = Ok (Some x) <-> exists l, rev records = x :: l /\ history sha256 (x :: l).
Proof. intros HF. by apply model_verify_all. Qed.

(** The response a stream built names its start and validates for its request. *)
Lemma assembled_valid float_text parser d q prov ks r :
  StreamLaws.assembled float_text parser d q (Events.EvStarted prov :: ks) r -> response_provenance r = prov /\ response_validate_for r d q = Ok tt.
Proof.
  intros (prov' & mid & reason & u & ext & items & [= <- ->] & _ & _ & HR). unfold response_new in HR.
  apply bind_Ok in HR as (st & _ & HR). apply bind_Ok in HR as (r' & Hr & HR). apply bind_Ok in HR as ([] & Hv & [= ->]). split; [| done].
  apply map_err_Ok in Hr. unfold response_from_parts in Hr. repeat case_match; try done; by injection Hr as <-.
Qed.

Lemma stream_response_binds float_text parser (int : ModelInvocationIntent) a es r :
  Forall StreamLaws.event_wf es -> StreamLaws.assembled float_text parser (descriptor int) (request int) (Events.ev_kind <$> es) r -> StreamLaws.numbered a es ->
  validate_response_binding int a r = Ok tt.
Proof.
  intros Hes Ha Hm. pose proof Ha as (prov & mid & reason & u & ext & items & Hk & _). destruct es as [|e es]; [done |]. simpl in Hk, Ha. injection Hk as Hk _.
  rewrite Hk in Ha. apply assembled_valid in Ha as [Hp Hv]. apply Forall_cons in Hes as [[He _] _]. destruct (Hm 0%nat e eq_refl) as [_ Hae].
  unfold Events.event_new in He. rewrite Hk in He. case_match; [done |]. simpl in He.
  destruct (Z.eqb_spec (mp_attempt_id prov) (Events.ev_attempt_id e)) as [Hpa|]; simpl in He; [| done].
  apply response_binding_Ok. rewrite Hp. split; [congruence | done].
Qed.

(** A streamed answer can always be recorded.  An intent for a streaming
    request starts an accumulator for any attempt, and when the events of that
    attempt finish, their response is one the running invocation accepts and
    commits, at any time. *)
Theorem streamed_answer_recordable {Details : Type} `{!Canonical ModelInvocationIntentDigestWire} (sha256 : bytes -> bytes) float_text parser
    (x : ModelInvocation Details) (a : Z) act id d q
    (Hint : intent_new sha256 act id d q = Ok (intent x)) (Hmode : response_mode q = Streaming) (Hrun : state x = Executing a) :
  exists s0, Events.accumulator_new a d q = Ok s0 /\
    forall es r t, Forall StreamLaws.event_wf es -> Events.finish (Events.push_all float_text parser s0 es) = Ok r ->
      apply_transition x (RecordResponse r) t = Ok (Committed r).
Proof.
  unfold intent_new, validate_intent_shape in Hint. destruct (is_retired _); [done |]. destruct (satisfies (capabilities d) (requirements q)) eqn:Es; [| done].
  simpl in Hint. open_guards Hint. injection Hint as Hint. unfold Events.accumulator_new. rewrite bool_decide_true by done. rewrite Es. simpl.
  eexists. split; [done |]. intros es r t Hes Hf. unfold apply_transition. rewrite Hrun.
  assert (Hn : Events.accumulator_new a d q = Ok (Events.mkAccumulator d q a 0 false false None [] 0 0 [] 0 None None)).
  { unfold Events.accumulator_new. rewrite bool_decide_true by done. by rewrite Es. }
  destruct (StreamLaws.stream_finished _ _ _ _ _ _ _ _ Hn Hes Hf) as [Ha Hm].
  assert (Hb : validate_response_binding (intent x) a r = Ok tt) by (eapply stream_response_binds; [exact Hes | rewrite <- Hint; exact Ha | exact Hm]).
  by rewrite Hb.
Qed.

(** * A concrete invocation *)

Module Demo.
Import StreamLaws.Demo.

Definition tenant : TenantId := bytes_of "acme".
Definition journal (n : Z) : JournalHead := mkJournalHead tenant 7 n (100 + n) (1000000 * n) [n].
Definition base : CheckpointHead CapabilityIdentity SchemaReference :=
  Checkpoint.mkHead tenant 7 1 0 (mkGraphReference (model_identity descriptor2) [2] RequestLaws.Demo.schema) (journal 1) [3].

#[local] Instance encode_any (T : Type) : Canonical T | 100 := fun _ => Some [].
Definition hash (b : bytes) : bytes := [Z.of_nat (length b)].

Definition act : Activation := mkActivation base [] (bytes_of "n") [4].
Definition int : ModelInvocationIntent :=
  match intent_new hash act 42 descriptor2 request2 with Ok i => i | Err _ => mkIntent act 42 descriptor2 request2 [] end.
Definition unavailable : ModelError unit :=
  mkModelError (mkFailure 1 DependencyUnavailable [] [] [] (SafeAfter 5) None None) Stream
    (mkErrorProvenance 6 (model_identity descriptor2) None None None) (Some (mkUsage 10 None 3 None)).

Definition blank : ModelInvocation unit := mkInvocation int 0 Prepared None (journal 2) None None [].
Definition unwrap (r : result ModelInvocationError (ModelInvocation unit)) : ModelInvocation unit :=
  match r with Ok x => x | Err _ => blank end.
Definition streamed : ModelResponse := match answer with Some r => r | None => mkResponse prov1 (mkItems [] 0 0 0 [] []) FCompleted (mkUsage 0 None 0 None) Extension.Extension.extensions_default None end.

Definition r0 := unwrap (prepare hash int (journal 2)).
Definition r1 := unwrap (advance hash r0 (StartAttempt 6) (journal 3)).
Definition r2 := unwrap (advance hash r1 (RecordError unavailable) (journal 4)).
Definition r3 := unwrap (advance hash r2 (StartAttempt 7) (journal 5)).
Definition r4 := unwrap (advance hash r3 (RecordResponse streamed) (journal 6)).

Lemma model_demo_running : history hash [r3; r2; r1; r0].
Proof.
  apply (history_advanced hash r2 [r1; r0] (StartAttempt 7) (journal 5)); [| vm_compute; reflexivity].
  apply (history_advanced hash r1 [r0] (RecordError unavailable) (journal 4)); [| vm_compute; reflexivity].
  apply (history_advanced hash r0 [] (StartAttempt 6) (journal 3)); [| vm_compute; reflexivity].
  apply (history_prepared hash int (journal 2)). vm_compute. reflexivity.
Defined.

Lemma model_demo_history : history hash [r4; r3; r2; r1; r0].
Proof.
  apply (history_advanced hash r3 [r2; r1; r0] (RecordResponse streamed) (journal 6)); [exact model_demo_running | vm_compute; reflexivity].
Defined.

Lemma model_invocation_refines_ledger_witness :
  settled (ledger_of [r4; r3; r2; r1; r0]) = [(6, Some (mkUsage 10 None 3 None))] /\
  is_ok (advance hash r4 (StartAttempt 8) (journal 7)) = false /\ total usage_input_tokens (ledger_of [r4; r3; r2; r1; r0]) <= 200.
Proof.
  destruct (model_invocation_refines_ledger (Details := unit) hash) as (_ & _ & H3 & H4). split_and!.
  - vm_compute. reflexivity.
  - apply H3. vm_compute. exact I.
  - refine (proj1 (H4 r4 [r3; r2; r1; r0] model_demo_history _ _)); vm_compute; discriminate.
Defined.

Lemma streamed_answer_recordable_witness : apply_transition r3 (RecordResponse streamed) 6000000 = Ok (Committed streamed).
Proof.
  assert (Hint : intent_new hash act 42 descriptor2 request2 = Ok (intent r3)) by (vm_compute; reflexivity).
  destruct (streamed_answer_recordable hash nothing refuse r3 7 act 42 descriptor2 request2 Hint
              ltac:(vm_compute; reflexivity) ltac:(vm_compute; reflexivity)) as (s0 & Hs & H).
  apply (H stream); [exact stream_wf |]. assert (s0 = fresh) as -> by (vm_compute in Hs; injection Hs as <-; vm_compute; reflexivity).
  vm_compute. reflexivity.
Defined.

#[local] Instance Failure_eq_dec : EqDecision (Failure unit).
Proof. solve_decision. Defined.
#[local] Instance ModelError_eq_dec : EqDecision (ModelError unit).
Proof. solve_decision. Defined.
#[local] Instance State_eq_dec : EqDecision (ModelInvocationState unit).
Proof. solve_decision. Defined.
#[local] Instance Transition_eq_dec : EqDecision (ModelInvocationTransition unit).
Proof. solve_decision. Defined.
#[local] Instance Invocation_eq_dec : EqDecision (ModelInvocation unit).
Proof. solve_decision. Defined.

#[local] Instance encode_records : Canonical (ModelInvocation unit) | 0 := pick r0 r1.

Lemma model_history_verifier_exact_witness :
  verify_all hash [r0; r1] = Ok (Some r1) /\ exists l, [r1; r0] = r1 :: l /\ history hash (r1 :: l).
Proof.
  assert (HF : Forall (fun y => restore hash y = Ok y /\ is_Some (to_vec y)) [r0; r1]).
  { repeat constructor; try (vm_compute; reflexivity); vm_compute; eauto. }
  destruct (model_history_verifier_exact hash [r0; r1] r1 (pick_injective r0 r1) HF) as [H1 _].
  assert (E : verify_all hash [r0; r1] = Ok (Some r1)) by (vm_compute; reflexivity).
  split; [exact E | exact (H1 E)].
Defined.

End Demo.
End ModelCalls.
