(* ===== verification/NodeResult.v ===== *)
(** Pending node results (crates/stateknot-core/src/node_result.rs): digested state
    updates and terminal outputs, the waits a node registers, the bindings to the
    model and tool invocations it consumed, and the result record from its intent
    to the committed, restored value.

    The records shared with the barrier are those of [Barrier.v], here with the
    request of an interrupt, the bindings and the join made concrete.  A payload
    is the value of its bounded JSON.  The canonical encoder and SHA-256 are
    parameters. *)

From Stdlib Require Import ZArith Lia List.
From stdpp Require Import prelude.
From S2P Require Import Prelude Ordered Json Scope BoundedJson Content Time Capability Checkpoint Graph Run Lease Journal Wait Barrier Model Tool ModelRequest ToolInvocation ToolInvocationLaws NodeAttempt ChildRun ChildBudget ChildJoin ModelRuntime ModelInvocation ModelInvocationLaws.

Open Scope Z_scope.
Import Timestamp(Timestamp).

Module NodeResults.
Import Content Capability.

Definition UPDATE_DIGEST_DOMAIN : bytes := bytes_of "stateknot-node-state-update-v1" ++ [0].
Definition TERMINAL_DIGEST_DOMAIN : bytes := bytes_of "stateknot-node-terminal-output-v1" ++ [0].
Definition INTENT_DIGEST_DOMAIN : bytes := bytes_of "stateknot-pending-node-result-intent-v1" ++ [0].
Definition RECORD_DIGEST_DOMAIN : bytes := bytes_of "stateknot-pending-node-result-v1" ++ [0].
Definition BINDINGS_MAX_LEN : Z := 256.

Abbreviation Activation := (NodeActivation CapabilityIdentity SchemaReference).
Abbreviation JoinHead := (ChildJoin.ChildRunJoinHead CapabilityIdentity SchemaReference).

Definition act_tenant_id (a : Activation) : TenantId := head_tenant_id (base_checkpoint a).
Definition act_run_id (a : Activation) : RunId := head_run_id (base_checkpoint a).
Definition act_base_journal (a : Activation) : JournalHead := head_journal_head (base_checkpoint a).

(** * Errors *)

Inductive PendingNodeResultIntegrityError :=
| PayloadCanonicalization (source : CanonicalJsonError)
| ResultSerialization.

(** [NodeStateUpdateError] and [NodeTerminalOutputError]. *)
Inductive NodePayloadError :=
| PayloadIntegrity (source : PendingNodeResultIntegrityError)
| PayloadDigestMismatch.

Inductive NodeInvocationBindingKind := BModel | BTool.
Definition binding_rank (k : NodeInvocationBindingKind) : Z := match k with BModel => 0 | BTool => 1 end.
#[global] Instance NodeInvocationBindingKind_ord : RustOrd NodeInvocationBindingKind.
Proof. apply (ord_via binding_rank). by intros [] []. Defined.

Inductive NodeInvocationBindingError :=
| ModelNotConsumable (actual : ModelInvocations.ModelInvocationStatus)
| ToolNotConsumable (actual : ToolInvocations.ToolInvocationStatus)
| BindingTenantMismatch
| BindingRunMismatch
| BindingJournalNotAfterBase
| BindingClockRegression_.

Inductive NodeInvocationBindingsError :=
| BindingsTooMany (maximum actual : Z)
| BindingsDuplicate (kind : NodeInvocationBindingKind) (id : Z)
| ActivationMismatch.

Inductive PendingNodeResultIntentError :=
| ChildJoinScope
| IntentBindings (source : NodeInvocationBindingsError)
| IntentIntegrity (source : PendingNodeResultIntegrityError)
| IntentDigestMismatch.

Inductive PendingNodeResultError :=
| FenceTenantMismatch
| FenceRunMismatch
| JournalTenantMismatch
| JournalRunMismatch
| JournalNotAfterBase
| ClockRegression
| JournalNotAfterBinding
| BindingClockRegression
| ResultIntegrity (source : PendingNodeResultIntegrityError)
| ResultDigestMismatch.

(** * Invocation bindings *)

Inductive NodeInvocationBinding :=
| BindModel (act : Activation) (head : ModelInvocations.ModelInvocationHead)
| BindTool (act : Activation) (head : ToolInvocations.ToolInvocationHead).

#[global] Instance NodeInvocationBinding_eq_dec : EqDecision NodeInvocationBinding.
Proof. solve_decision. Defined.

Definition binding_kind (self : NodeInvocationBinding) : NodeInvocationBindingKind :=
  match self with BindModel _ _ => BModel | BindTool _ _ => BTool end.
Definition binding_activation (self : NodeInvocationBinding) : Activation :=
  match self with BindModel act _ | BindTool act _ => act end.
Definition binding_invocation_id (self : NodeInvocationBinding) : Z :=
  match self with BindModel _ head => ModelInvocations.ih_invocation_id head | BindTool _ head => ToolInvocations.ih_invocation_id head end.
Definition binding_journal_head (self : NodeInvocationBinding) : JournalHead :=
  match self with BindModel _ head => ModelInvocations.ih_journal_head head | BindTool _ head => ToolInvocations.ih_journal_head head end.
Definition binding_key (self : NodeInvocationBinding) : NodeInvocationBindingKind * Z := (binding_kind self, binding_invocation_id self).

Definition validate_binding_scope (act : Activation) (tenant : TenantId) (run : RunId) (journal : JournalHead)
  : result NodeInvocationBindingError unit :=
  if negb (bool_decide (tenant = act_tenant_id act)) || negb (bool_decide (jh_tenant_id journal = act_tenant_id act))
  then Err BindingTenantMismatch else
  if negb (bool_decide (run = act_run_id act)) || negb (bool_decide (jh_run_id journal = act_run_id act)) then Err BindingRunMismatch else
  let base := act_base_journal act in
  if jh_sequence journal <=? jh_sequence base then Err BindingJournalNotAfterBase else
  if jh_recorded_at journal <? jh_recorded_at base then Err BindingClockRegression_ else Ok tt.

Definition restore_model (act : Activation) (head : ModelInvocations.ModelInvocationHead) : result NodeInvocationBindingError NodeInvocationBinding :=
  match ModelInvocations.ih_status head with
  | ModelInvocations.Committed_ | ModelInvocations.Failed_ =>
      _ ← validate_binding_scope act (ModelInvocations.ih_tenant_id head) (ModelInvocations.ih_run_id head) (ModelInvocations.ih_journal_head head);
      Ok (BindModel act head)
  | status => Err (ModelNotConsumable status)
  end.

Definition restore_tool (act : Activation) (head : ToolInvocations.ToolInvocationHead) : result NodeInvocationBindingError NodeInvocationBinding :=
  match ToolInvocations.ih_status head with
  | ToolInvocations.Committed_ | ToolInvocations.Failed_ =>
      _ ← validate_binding_scope act (ToolInvocations.ih_tenant_id head) (ToolInvocations.ih_run_id head) (ToolInvocations.ih_journal_head head);
      Ok (BindTool act head)
  | status => Err (ToolNotConsumable status)
  end.

Definition from_model {Details} (invocation : ModelInvocations.ModelInvocation Details) : result NodeInvocationBindingError NodeInvocationBinding :=
  restore_model (ModelInvocations.activation (ModelInvocations.intent invocation)) (ModelInvocations.head invocation).
Definition from_tool {Details} (invocation : ToolInvocations.ToolInvocation Details) : result NodeInvocationBindingError NodeInvocationBinding :=
  restore_tool (ToolInvocations.activation (ToolInvocations.intent invocation)) (ToolInvocations.head invocation).

(** [Deserialize for NodeInvocationBinding]. *)
Definition binding_restore (wire : NodeInvocationBinding) : result NodeInvocationBindingError NodeInvocationBinding :=
  match wire with BindModel act head => restore_model act head | BindTool act head => restore_tool act head end.

(** [NodeInvocationBindings(Box<[..]>)]. *)
Definition NodeInvocationBindings := list NodeInvocationBinding.
Definition bindings_empty : NodeInvocationBindings := [].

Definition collect_step (st : list NodeInvocationBinding * list (NodeInvocationBindingKind * Z)) (value : NodeInvocationBinding)
  : result NodeInvocationBindingsError (list NodeInvocationBinding * list (NodeInvocationBindingKind * Z)) :=
  let '(collected, identities) := st in
  if Z.of_nat (length collected) =? BINDINGS_MAX_LEN then Err (BindingsTooMany BINDINGS_MAX_LEN (BINDINGS_MAX_LEN + 1)) else
  if bs_contains (binding_key value) identities then Err (BindingsDuplicate (binding_kind value) (binding_invocation_id value)) else
  Ok (collected ++ [value], bs_insert (binding_key value) identities).

Definition collect_bindings (values : list NodeInvocationBinding) : result NodeInvocationBindingsError NodeInvocationBindings :=
  '(collected, _) ← try_fold collect_step ([], []) values;
  Ok (sort_by_key binding_key collected).

Definition validate_bindings_activation (act : Activation) (values : list NodeInvocationBinding) : result NodeInvocationBindingsError unit :=
  if existsb (fun binding => negb (bool_decide (binding_activation binding = act))) values then Err ActivationMismatch else Ok tt.

Definition bindings_try_new (act : Activation) (values : list NodeInvocationBinding) : result NodeInvocationBindingsError NodeInvocationBindings :=
  values ← collect_bindings values;
  _ ← validate_bindings_activation act values;
  Ok values.

(** [NodeInvocationBindingsVisitor::visit_seq] over bindings that were read. *)
Definition bindings_visit (values : list NodeInvocationBinding) : result NodeInvocationBindingsError NodeInvocationBindings :=
  if BINDINGS_MAX_LEN <? Z.of_nat (length values) then Err (BindingsTooMany BINDINGS_MAX_LEN (BINDINGS_MAX_LEN + 1)) else
  values ← collect_bindings values;
  _ ← match values with first :: _ => validate_bindings_activation (binding_activation first) values | [] => Ok tt end;
  Ok values.

(** * Waits *)

(** The fields of [NodeWait::Interrupt] beside identity, kind and expiry. *)
Record InterruptSpec := mkInterruptSpec {
  request_payload : Journal.JournalPayload SchemaReference;
  action_digest : Digest;
  required_principal : option PrincipalIdentity;
  required_scopes : Scope.ScopeSet
}.

Abbreviation WaitT := (NodeWait InterruptSpec).
Abbreviation RegistrationT := (DurableWaits.WaitRegistrationIntent SchemaReference PrincipalIdentity).

Section Digests.
Context `{Canonical (DurableWaits.InterruptIntentDigestWire PrincipalIdentity), Canonical DurableWaits.TimerIntentDigestWire}.
Variable sha256 : bytes -> bytes.

Definition registration_intent (self : WaitT) (tenant : TenantId) (run : RunId) (event : Z) : result DurableWaits.DurableWaitError RegistrationT :=
  match self with
  | WaitInterrupt id kind spec expires =>
      intent ← DurableWaits.request_intent_new sha256 tenant run id event kind (request_payload spec) (action_digest spec)
                 (required_principal spec) (required_scopes spec) expires;
      Ok (DurableWaits.InterruptIntent intent)
  | WaitTimer id kind due =>
      intent ← DurableWaits.timer_intent_new sha256 tenant run id event kind due;
      Ok (DurableWaits.TimerIntent intent)
  end.

Fixpoint registration_intents (self : list WaitT) (tenant : TenantId) (run : RunId) (event : Z)
  : result DurableWaits.DurableWaitError (list RegistrationT) :=
  match self with
  | [] => Ok []
  | wait :: rest =>
      intent ← registration_intent wait tenant run event;
      intents ← registration_intents rest tenant run event;
      Ok (intent :: intents)
  end.
End Digests.

(** * Payload digests *)

Record SchemaPayloadDigestWire := mkPayloadWire { pw_schema : SchemaReference; pw_data_digest : Digest }.

Abbreviation ControlT := (NodeControl SchemaReference InterruptSpec).
Abbreviation ChangeT := (NodeStateChange SchemaReference).
Abbreviation IntentT := (PendingNodeResultIntent CapabilityIdentity SchemaReference InterruptSpec NodeInvocationBindings JoinHead).
Abbreviation ResultT := (PendingNodeResult CapabilityIdentity SchemaReference InterruptSpec NodeInvocationBindings JoinHead).
Abbreviation HeadT := (PendingNodeResultHead CapabilityIdentity SchemaReference).

Record PendingNodeResultIntentDigestWire := mkIntentDigestWire {
  iw_activation : Activation;
  iw_state_change : ChangeT;
  iw_control : ControlT;
  iw_bindings : NodeInvocationBindings;
  iw_child_join : option JoinHead
}.

Record PendingNodeResultDigestWire := mkResultDigestWire {
  rw_intent_digest : Digest;
  rw_fence : RunLease.RunFence;
  rw_journal_head : JournalHead
}.

Section Results.
Context `{Canonical Value, Canonical SchemaPayloadDigestWire, Canonical PendingNodeResultIntentDigestWire, Canonical PendingNodeResultDigestWire}.
Variable sha256 : bytes -> bytes.

Definition domain_separated_digest {T} `{Canonical T} (domain : bytes) (value : T) : result PendingNodeResultIntegrityError Digest :=
  canonical ← ok_or (to_vec value) ResultSerialization;
  Ok (sha256 (domain ++ canonical)).

Definition compute_payload_digest (domain : bytes) (schema : SchemaReference) (data : Value) : result PendingNodeResultIntegrityError Digest :=
  canonical ← map_err PayloadCanonicalization (canonical_new sha256 data);
  domain_separated_digest domain (mkPayloadWire schema (canonical_digest canonical)).

Definition compute_intent_digest (wire : PendingNodeResultIntentDigestWire) := domain_separated_digest INTENT_DIGEST_DOMAIN wire.
Definition compute_record_digest (wire : PendingNodeResultDigestWire) := domain_separated_digest RECORD_DIGEST_DOMAIN wire.

Definition update_new (schema : SchemaReference) (data : Value) : result NodePayloadError (NodeStateUpdate SchemaReference) :=
  d ← map_err PayloadIntegrity (compute_payload_digest UPDATE_DIGEST_DOMAIN schema data);
  Ok (mkUpdate schema data d).

Definition update_restore (wire : NodeStateUpdate SchemaReference) : result NodePayloadError (NodeStateUpdate SchemaReference) :=
  restored ← update_new (update_schema_ref wire) (update_data wire);
  if negb (bool_decide (update_digest restored = update_digest wire)) then Err PayloadDigestMismatch else Ok restored.

Definition output_new (schema : SchemaReference) (data : Value) : result NodePayloadError (NodeTerminalOutput SchemaReference) :=
  d ← map_err PayloadIntegrity (compute_payload_digest TERMINAL_DIGEST_DOMAIN schema data);
  Ok (mkOutput schema data d).

Definition output_restore (wire : NodeTerminalOutput SchemaReference) : result NodePayloadError (NodeTerminalOutput SchemaReference) :=
  restored ← output_new (output_schema_ref wire) (output_data wire);
  if negb (bool_decide (output_digest restored = output_digest wire)) then Err PayloadDigestMismatch else Ok restored.

Definition control_kind (self : ControlT) : NodeControlKind :=
  match self with Continue => KContinue | Route _ => KRoute | WaitFor _ => KWait | Terminal _ => KTerminal end.

(** * Intents *)

Definition intent_new (act : Activation) (change : ChangeT) (ctl : ControlT) (bs : NodeInvocationBindings)
  : result PendingNodeResultIntentError IntentT :=
  _ ← map_err IntentBindings (validate_bindings_activation act bs);
  d ← map_err IntentIntegrity (compute_intent_digest (mkIntentDigestWire act change ctl bs None));
  Ok (mkResultIntent act change ctl bs None d).

Definition intent_restore (act : Activation) (change : ChangeT) (ctl : ControlT) (bs : NodeInvocationBindings) (d : Digest)
  : result PendingNodeResultIntentError IntentT :=
  restored ← intent_new act change ctl bs;
  if negb (bool_decide (result_intent_digest restored = d)) then Err IntentDigestMismatch else Ok restored.

Definition with_child_join (self : IntentT) (head : JoinHead) : result PendingNodeResultIntentError IntentT :=
  if negb (bool_decide (ChildJoin.jhd_activation head = activation self)) then Err ChildJoinScope else
  d ← map_err IntentIntegrity
        (compute_intent_digest (mkIntentDigestWire (activation self) (state_change self) (control self) (bindings self) (Some head)));
  Ok (mkResultIntent (activation self) (state_change self) (control self) (bindings self) (Some head) d).

(** [Deserialize for PendingNodeResultIntent]. *)
Definition intent_decode (wire : IntentT) : result PendingNodeResultIntentError IntentT :=
  self ← intent_new (activation wire) (state_change wire) (control wire) (bindings wire);
  self ← match child_join wire with Some head => with_child_join self head | None => Ok self end;
  if negb (bool_decide (result_intent_digest self = result_intent_digest wire)) then Err IntentDigestMismatch else Ok self.

(** * Records *)

Definition validate_basic_result_scope (act : Activation) (fence : RunLease.RunFence) (journal : JournalHead) : result PendingNodeResultError unit :=
  if negb (bool_decide (RunLease.tenant_id fence = act_tenant_id act)) then Err FenceTenantMismatch else
  if negb (bool_decide (RunLease.run_id fence = act_run_id act)) then Err FenceRunMismatch else
  if negb (bool_decide (jh_tenant_id journal = act_tenant_id act)) then Err JournalTenantMismatch else
  if negb (bool_decide (jh_run_id journal = act_run_id act)) then Err JournalRunMismatch else
  let base := act_base_journal act in
  if jh_sequence journal <=? jh_sequence base then Err JournalNotAfterBase else
  if jh_recorded_at journal <? jh_recorded_at base then Err ClockRegression else Ok tt.

(** The check of one consumed journal entry. *)
Definition check_consumed (journal : JournalHead) (_ : unit) (consumed : JournalHead) : result PendingNodeResultError unit :=
  if jh_sequence journal <=? jh_sequence consumed then Err JournalNotAfterBinding else
  if jh_recorded_at journal <? jh_recorded_at consumed then Err BindingClockRegression else Ok tt.

Definition validate_result_shape (int : IntentT) (fence : RunLease.RunFence) (journal : JournalHead) : result PendingNodeResultError unit :=
  _ ← validate_basic_result_scope (activation int) fence journal;
  _ ← match child_join int with Some join => check_consumed journal tt (ChildJoin.jhd_journal_head join) | None => Ok tt end;
  try_fold (check_consumed journal) tt (binding_journal_head <$> bindings int).

Definition commit (int : IntentT) (fence : RunLease.RunFence) (journal : JournalHead) : result PendingNodeResultError ResultT :=
  _ ← validate_result_shape int fence journal;
  d ← map_err ResultIntegrity (compute_record_digest (mkResultDigestWire (result_intent_digest int) fence journal));
  Ok (mkResult int fence journal d).

Definition restore (int : IntentT) (fence : RunLease.RunFence) (journal : JournalHead) (d : Digest) : result PendingNodeResultError ResultT :=
  restored ← commit int fence journal;
  if negb (bool_decide (result_digest restored = d)) then Err ResultDigestMismatch else Ok restored.

Definition head_new (wire : HeadT) : result PendingNodeResultError HeadT :=
  _ ← validate_basic_result_scope (rh_activation wire) (rh_fence wire) (rh_journal_head wire);
  Ok wire.
End Results.
End NodeResults.

(** Laws of pending node results ([NodeResult.v]): the bindings of a result are its
    distinct settled invocations in canonical order, whatever order they are
    given in; a result commits exactly after everything it consumed, and restores
    to itself; and the records of the model and tool ledgers can be consumed
    exactly when their outcome is known. *)

Module Pending.
Import Content Capability NodeResults.

(** * Bindings *)

Lemma collect_loop vs : forall c ids c' ids',
  Z.of_nat (length c) <= BINDINGS_MAX_LEN -> (forall k, k ∈ ids <-> k ∈ binding_key <$> c) ->
  try_fold collect_step (c, ids) vs = Ok (c', ids') <->
  Z.of_nat (length (c ++ vs)) <= BINDINGS_MAX_LEN /\ NoDup (binding_key <$> vs) /\
  (forall v, v ∈ vs -> binding_key v ∉ binding_key <$> c) /\ c' = c ++ vs /\ ids' = bs_extend ids (binding_key <$> vs).
Proof.
  induction vs as [|v vs IH]; intros c ids c' ids' Hc Hids; simpl.
  { rewrite app_nil_r. split; [intros [= <- <-]; split_and!; try done; [constructor | intros ? ?%not_elem_of_nil; done] | by intros (_ & _ & _ & -> & ->)]. }
  rewrite NoDup_cons. destruct (Z.eqb_spec (Z.of_nat (length c)) BINDINGS_MAX_LEN) as [E|E]; simpl.
  { split; [done |]. rewrite length_app. simpl. lia. }
  destruct (bs_contains (binding_key v) ids) eqn:Eb; simpl.
  { apply bs_contains_iff in Eb. rewrite Hids in Eb. split; [done |]. intros (_ & _ & Hd & _). by destruct (Hd v ltac:(left)). }
  apply bs_contains_false in Eb. rewrite Hids in Eb. change (bs_extend ?i (?k :: ?l)) with (bs_extend (bs_insert k i) l).
  rewrite (IH (c ++ [v]) (bs_insert (binding_key v) ids)).
  - rewrite <- app_assoc. simpl. split.
    + intros (H1 & H2 & H3 & -> & ->). split_and!; try done.
      * intros (w & Hw & Hin)%list_elem_of_fmap. apply (H3 w Hin). rewrite fmap_app, elem_of_app, <- Hw. right. by left.
      * intros w [->|Hin]%elem_of_cons; [done |]. specialize (H3 w Hin). rewrite fmap_app, elem_of_app in H3. tauto.
    + intros (H1 & [H2 H2'] & H3 & -> & ->). split_and!; try done. intros w Hin. rewrite fmap_app, elem_of_app. simpl. rewrite list_elem_of_singleton.
      intros [Hk|Hk]; [by apply (H3 w); [right |] |]. apply H2. rewrite <- Hk. by apply list_elem_of_fmap_2.
  - rewrite length_app. simpl. lia.
  - intros k. rewrite bs_insert_elem, Hids, fmap_app, elem_of_app. simpl. rewrite list_elem_of_singleton. tauto.
Qed.

Lemma collect_Ok vs bs :
  collect_bindings vs = Ok bs <-> Z.of_nat (length vs) <= BINDINGS_MAX_LEN /\ NoDup (binding_key <$> vs) /\ bs = sort_by_key binding_key vs.
Proof.
  unfold collect_bindings. assert (Hl := fun c' ids' => collect_loop vs [] [] c' ids' ltac:(done) ltac:(done)).
  destruct (try_fold collect_step ([], []) vs) as [[c ids]|e] eqn:E; simpl.
  - destruct (proj1 (Hl c ids) eq_refl) as (H1 & H2 & _ & -> & _). simpl in *. split; [by intros [= <-] | by intros (_ & _ & ->)].
  - split; [done |]. intros (H1 & H2 & _). exfalso.
    assert (He : Err e = Ok (vs, bs_extend [] (binding_key <$> vs))); [| done]. apply Hl. split_and!; try done. intros v _. apply not_elem_of_nil.
Qed.

Lemma bindings_activation_Ok act vs u : validate_bindings_activation act vs = Ok u <-> Forall (fun b => binding_activation b = act) vs.
Proof.
  unfold validate_bindings_activation. destruct u. induction vs as [|v vs IH]; simpl; [by split; [constructor |] |]. rewrite Forall_cons.
  destruct (bool_decide_reflect (binding_activation v = act)); simpl; [rewrite IH; tauto | split; [done | by intros [? _]]].
Qed.

(** The bindings of an activation, and nothing else about them. *)
Lemma bindings_Ok act vs bs :
  bindings_try_new act vs = Ok bs <->
  Z.of_nat (length vs) <= BINDINGS_MAX_LEN /\ NoDup (binding_key <$> vs) /\ Forall (fun b => binding_activation b = act) vs /\
  bs = sort_by_key binding_key vs.
Proof.
  unfold bindings_try_new. rewrite bind_Ok. setoid_rewrite collect_Ok. setoid_rewrite bind_Ok. setoid_rewrite bindings_activation_Ok.
  split.
  - intros (? & (H1 & H2 & ->) & [] & H3 & [= <-]). split_and!; try done. by rewrite (sort_by_key_perm binding_key vs) in H3.
  - intros (H1 & H2 & H3 & ->). exists (sort_by_key binding_key vs). split; [done |]. exists tt. split; [| done].
    by rewrite (sort_by_key_perm binding_key vs).
Qed.

(** What was collected is collected again as it is. *)
Lemma bindings_again act vs bs : bindings_try_new act vs = Ok bs -> bindings_try_new act bs = Ok bs /\ bindings_visit bs = Ok bs.
Proof.
  intros (H1 & H2 & H3 & ->)%bindings_Ok. pose proof (sort_by_key_perm binding_key vs) as Hp.
  assert (Hs : sort_by_key binding_key (sort_by_key binding_key vs) = sort_by_key binding_key vs) by (apply sort_by_key_unique; [by rewrite (fmap_Permutation binding_key _ _ Hp) | done]).
  assert (Hb : bindings_try_new act (sort_by_key binding_key vs) = Ok (sort_by_key binding_key vs)).
  { apply bindings_Ok. rewrite Hs, (Permutation_length Hp). split_and!; [done | by rewrite (fmap_Permutation binding_key _ _ Hp) | by rewrite Hp | done]. }
  split; [done |]. assert (Hl : Z.of_nat (length (sort_by_key binding_key vs)) <= BINDINGS_MAX_LEN) by (by rewrite (Permutation_length Hp)).
  revert Hb Hl. generalize (sort_by_key binding_key vs). clear. intros bs Hb Hl. unfold bindings_visit.
  destruct (Z.ltb_spec BINDINGS_MAX_LEN (Z.of_nat (length bs))); [lia |].
  unfold bindings_try_new in Hb. apply bind_Ok in Hb as (bs' & Hc & Hb). apply bind_Ok in Hb as ([] & Hv & [= ->]). rewrite Hc. simpl.
  destruct bs as [|b bs]; [reflexivity |]. assert (Ha : binding_activation b = act) by (by apply bindings_activation_Ok, Forall_cons in Hv as [? _]).
  by rewrite Ha, Hv.
Qed.

(** * Records *)

(** Journal entry [b] comes after [a]. *)
Definition follows (a b : JournalHead) : Prop := jh_sequence a < jh_sequence b /\ jh_recorded_at a <= jh_recorded_at b.

Lemma consumed_Ok j c u : check_consumed j tt c = Ok u <-> follows c j.
Proof.
  unfold check_consumed, follows. destruct u. destruct (Z.leb_spec (jh_sequence j) (jh_sequence c)); [split; [done | lia] |].
  destruct (Z.ltb_spec (jh_recorded_at j) (jh_recorded_at c)); [split; [done | lia] | split; [lia | done]].
Qed.

Lemma consumed_all_Ok j l u : try_fold (check_consumed j) tt l = Ok u <-> Forall (fun c => follows c j) l.
Proof.
  destruct u. induction l as [|c l IH]; simpl; [by split; [constructor |] |]. rewrite Forall_cons, bind_Ok. split.
  - intros ([] & Hc%consumed_Ok & Hl%IH). done.
  - intros [Hc%(consumed_Ok j c tt) Hl%IH]. by exists tt.
Qed.

(** Where and when the result of an intent may be written. *)
Record committable (int : IntentT) (fence : RunLease.RunFence) (j : JournalHead) : Prop := {
  cm_fence : RunLease.tenant_id fence = act_tenant_id (activation int) /\ RunLease.run_id fence = act_run_id (activation int);
  cm_journal : jh_tenant_id j = act_tenant_id (activation int) /\ jh_run_id j = act_run_id (activation int);
  cm_base : follows (act_base_journal (activation int)) j;
  cm_join : forall h, child_join int = Some h -> follows (ChildJoin.jhd_journal_head h) j;
  cm_bindings : forall b, b ∈ bindings int -> follows (binding_journal_head b) j
}.

Lemma basic_scope_Ok act fence j u :
  validate_basic_result_scope act fence j = Ok u <->
  (RunLease.tenant_id fence = act_tenant_id act /\ RunLease.run_id fence = act_run_id act) /\
  (jh_tenant_id j = act_tenant_id act /\ jh_run_id j = act_run_id act) /\ follows (act_base_journal act) j.
Proof.
  unfold validate_basic_result_scope, follows. destruct u.
  do 4 (case_bool_decide; simpl; [| by split; [| intros ([? ?] & [? ?] & _)]]).
  destruct (Z.leb_spec (jh_sequence j) (jh_sequence (act_base_journal act))); [split; [done | lia] |].
  destruct (Z.ltb_spec (jh_recorded_at j) (jh_recorded_at (act_base_journal act))); [split; [done | lia] | done].
Qed.

Lemma result_shape_Ok int fence j u : validate_result_shape int fence j = Ok u <-> committable int fence j.
Proof.
  unfold validate_result_shape. destruct u. split.
  - intros ([] & (H1 & H2 & H3)%basic_scope_Ok & ([] & H4 & H5)%bind_Ok)%bind_Ok.
    apply consumed_all_Ok in H5. rewrite Forall_fmap, Forall_forall in H5. constructor; try done. intros h Hh. rewrite Hh in H4. by apply consumed_Ok in H4.
  - intros [H1 H2 H3 H4 H5]. rewrite (proj2 (basic_scope_Ok _ _ _ tt)) by done. simpl.
    assert (Hf : try_fold (check_consumed j) tt (binding_journal_head <$> bindings int) = Ok tt) by (apply consumed_all_Ok; by rewrite Forall_fmap, Forall_forall).
    destruct (child_join int) as [h|]; simpl; [| done]. by rewrite (proj2 (consumed_Ok j _ tt) (H4 h eq_refl)).
Qed.

Section Digested.
Context `{!Canonical Value, !Canonical SchemaPayloadDigestWire, !Canonical PendingNodeResultIntentDigestWire, !Canonical PendingNodeResultDigestWire}.
Variable sha256 : bytes -> bytes.

Lemma result_commit_Ok int fence j r :
  commit sha256 int fence j = Ok r <->
  committable int fence j /\
  exists d, compute_record_digest sha256 (mkResultDigestWire (result_intent_digest int) fence j) = Ok d /\ r = mkResult int fence j d.
Proof.
  unfold commit. split.
  - intros ([] & Hc%result_shape_Ok & (d & Hd%map_err_Ok & [= <-])%bind_Ok)%bind_Ok. split; [done |]. by exists d.
  - intros (Hc & d & Hd & ->). rewrite (proj2 (result_shape_Ok int fence j tt) Hc). simpl. by rewrite Hd.
Qed.

Lemma intent_new_Ok act change ctl bs int :
  intent_new sha256 act change ctl bs = Ok int <->
  Forall (fun b => binding_activation b = act) bs /\
  exists d, compute_intent_digest sha256 (mkIntentDigestWire act change ctl bs None) = Ok d /\ int = mkResultIntent act change ctl bs None d.
Proof.
  unfold intent_new. split.
  - intros ([] & Hc%map_err_Ok%bindings_activation_Ok & (d & Hd%map_err_Ok & [= <-])%bind_Ok)%bind_Ok. split; [done |]. by exists d.
  - intros (Hc & d & Hd & ->). rewrite (proj2 (bindings_activation_Ok act bs tt) Hc). simpl. by rewrite Hd.
Qed.

Lemma intent_decodes act change ctl bs int :
  intent_new sha256 act change ctl bs = Ok int ->
  intent_decode sha256 int = Ok int /\ intent_restore sha256 act change ctl bs (result_intent_digest int) = Ok int /\
  (forall h int', with_child_join sha256 int h = Ok int' -> intent_decode sha256 int' = Ok int').
Proof.
  intros Hn. pose proof Hn as (Ha & d & Hd & ->)%intent_new_Ok. unfold intent_decode, intent_restore. simpl. rewrite Hn. simpl.
  rewrite bool_decide_true by done. split_and!; [done | done |]. intros h int' Hj. pose proof Hj as Hj'. unfold with_child_join in Hj'. simpl in Hj'.
  destruct (bool_decide _); simpl in Hj'; [| done]. apply bind_Ok in Hj' as (d' & _ & [= <-]). simpl. rewrite Hn. simpl. rewrite Hj. simpl.
  by rewrite bool_decide_true.
Qed.

(** Digested payloads restore to themselves. *)
Lemma update_restores schema data u : update_new sha256 schema data = Ok u -> update_restore sha256 u = Ok u.
Proof.
  intros Hu. pose proof Hu as Hu'. unfold update_new in Hu'. apply bind_Ok in Hu' as (d & _ & [= <-]). unfold update_restore. simpl.
  rewrite Hu. simpl. by rewrite bool_decide_true.
Qed.

Lemma output_restores schema data o : output_new sha256 schema data = Ok o -> output_restore sha256 o = Ok o.
Proof.
  intros Hu. pose proof Hu as Hu'. unfold output_new in Hu'. apply bind_Ok in Hu' as (d & _ & [= <-]). unfold output_restore. simpl.
  rewrite Hu. simpl. by rewrite bool_decide_true.
Qed.
End Digested.

(** * Consuming the ledgers *)

Lemma binding_scope_Ok act tenant run j u :
  validate_binding_scope act tenant run j = Ok u <->
  (tenant = act_tenant_id act /\ jh_tenant_id j = act_tenant_id act) /\ (run = act_run_id act /\ jh_run_id j = act_run_id act) /\
  follows (act_base_journal act) j.
Proof.
  unfold validate_binding_scope, follows. destruct u.
  do 2 (case_bool_decide; simpl; [| by split; [| intros ([? ?] & [? ?] & _)]];
        case_bool_decide; simpl; [| by split; [| intros ([? ?] & [? ?] & _)]]).
  destruct (Z.leb_spec (jh_sequence j) (jh_sequence (act_base_journal act))); [split; [done | lia] |].
  destruct (Z.ltb_spec (jh_recorded_at j) (jh_recorded_at (act_base_journal act))); [split; [done | lia] | done].
Qed.

Lemma follows_trans a b c : follows a b -> follows b c -> follows a c.
Proof. unfold follows. lia. Qed.


Section Ledgers.
Context {Details : Type}.
Context `{!Canonical (ToolInvocations.ToolInvocationTransition Details), !Canonical (ToolInvocations.ToolInvocationRecordDigestWire Details),
          !Canonical (ModelInvocations.ModelInvocationTransition Details), !Canonical (ModelInvocations.ModelInvocationRecordDigestWire Details)}.
Variable sha256 : bytes -> bytes.

(** Every record of a history lies after the checkpoint its node started from. *)
Lemma tool_history_after_base (x : ToolInvocations.ToolInvocation Details) l :
  ToolCalls.history sha256 (x :: l) ->
  let act := ToolInvocations.activation (ToolInvocations.intent x) in
  let j := ToolInvocations.journal_head x in
  jh_tenant_id j = act_tenant_id act /\ jh_run_id j = act_run_id act /\ follows (act_base_journal act) j.
Proof.
  intros Hh. remember (x :: l) as k eqn:Ek. revert x l Ek. induction Hh as [int j y Hp|y l' tr j y' Hh IH Ha]; intros x l [= <- <-].
  - apply ToolCalls.prepare_Ok in Hp as (dig & [? ?] & Hj & _ & ->). done.
  - apply ToolCalls.advance_Ok in Ha as (st & tdig & dig & [? ?] & Hj & _ & _ & _ & _ & ->). simpl.
    destruct (IH _ _ eq_refl) as (_ & _ & Hb). split_and!; [done | done |]. by eapply follows_trans.
Qed.

Lemma model_history_after_base (x : ModelInvocations.ModelInvocation Details) l :
  ModelCalls.history sha256 (x :: l) ->
  let act := ModelInvocations.activation (ModelInvocations.intent x) in
  let j := ModelInvocations.journal_head x in
  jh_tenant_id j = act_tenant_id act /\ jh_run_id j = act_run_id act /\ follows (act_base_journal act) j.
Proof.
  intros Hh. remember (x :: l) as k eqn:Ek. revert x l Ek. induction Hh as [int j y Hp|y l' tr j y' Hh IH Ha]; intros x l [= <- <-].
  - apply ModelCalls.model_prepare_Ok in Hp as (dig & [? ?] & Hj & _ & ->). done.
  - apply ModelCalls.model_advance_Ok in Ha as (st & tdig & dig & [? ?] & Hj & _ & _ & _ & _ & ->). simpl.
    destruct (IH _ _ eq_refl) as (_ & _ & Hb). split_and!; [done | done |]. by eapply follows_trans.
Qed.

(** Outcomes the ledgers know. *)
Definition tool_settled (p : ToolCalls.Phase) : Prop :=
  match p with ToolCalls.PCommitted _ | ToolCalls.PFailed _ _ _ => True | _ => False end.
Definition model_settled (p : ModelCalls.Phase) : Prop :=
  match p with ModelCalls.PCommitted _ _ | ModelCalls.PFailed _ _ _ => True | _ => False end.

Lemma tool_binding_Ok (x : ToolInvocations.ToolInvocation Details) l b :
  ToolCalls.history sha256 (x :: l) ->
  from_tool x = Ok b <->
  tool_settled (ToolCalls.phase (ToolCalls.ledger_of (x :: l))) /\
  b = BindTool (ToolInvocations.activation (ToolInvocations.intent x)) (ToolInvocations.head x).
Proof.
  intros Hh. destruct (tool_history_after_base x l Hh) as (H1 & H2 & H3).
  assert (Hv : validate_binding_scope (ToolInvocations.activation (ToolInvocations.intent x))
                 (ToolInvocations.intent_tenant_id (ToolInvocations.intent x)) (ToolInvocations.intent_run_id (ToolInvocations.intent x))
                 (ToolInvocations.journal_head x) = Ok tt) by (by apply binding_scope_Ok).
  unfold from_tool, restore_tool. change (ToolCalls.ledger_of (x :: l)) with (ToolCalls.record_ledger (ToolCalls.ledger_of l) x).
  unfold ToolCalls.record_ledger, ToolInvocations.head, ToolInvocations.status, ToolInvocations.state_status. simpl.
  destruct (ToolInvocations.state x); simpl; try rewrite Hv; naive_solver.
Qed.

Lemma model_binding_Ok (x : ModelInvocations.ModelInvocation Details) l b :
  ModelCalls.history sha256 (x :: l) ->
  from_model x = Ok b <->
  model_settled (ModelCalls.phase (ModelCalls.ledger_of (x :: l))) /\
  b = BindModel (ModelInvocations.activation (ModelInvocations.intent x)) (ModelInvocations.head x).
Proof.
  intros Hh. destruct (model_history_after_base x l Hh) as (H1 & H2 & H3).
  assert (Hv : validate_binding_scope (ModelInvocations.activation (ModelInvocations.intent x))
                 (ModelInvocations.intent_tenant_id (ModelInvocations.intent x)) (ModelInvocations.intent_run_id (ModelInvocations.intent x))
                 (ModelInvocations.journal_head x) = Ok tt) by (by apply binding_scope_Ok).
  unfold from_model, restore_model. change (ModelCalls.ledger_of (x :: l)) with (ModelCalls.record_ledger (ModelCalls.ledger_of l) x).
  unfold ModelCalls.record_ledger, ModelInvocations.head, ModelInvocations.status, ModelInvocations.state_status. simpl.
  destruct (ModelInvocations.state x); simpl; try rewrite Hv; naive_solver.
Qed.
End Ledgers.

(** * Theorems *)

(** C12: A node consumes only outcomes that are known.  The record of a tool or a
    model invocation, as its history made it, can be bound to the result of its
    node exactly when its ledger has settled: never while it is prepared or
    running, and for a tool never on an ambiguous outcome.  Such a binding
    restores to itself, and a result that carries it commits only after it. *)
Theorem results_consume_settled_outcomes {Details : Type}
    `{!Canonical (ToolInvocations.ToolInvocationTransition Details), !Canonical (ToolInvocations.ToolInvocationRecordDigestWire Details),
      !Canonical (ModelInvocations.ModelInvocationTransition Details), !Canonical (ModelInvocations.ModelInvocationRecordDigestWire Details),
      !Canonical PendingNodeResultDigestWire} (sha256 : bytes -> bytes) :
  (forall (x : ToolInvocations.ToolInvocation Details) l, ToolCalls.history sha256 (x :: l) ->
     forall b, from_tool x = Ok b <-> tool_settled (ToolCalls.phase (ToolCalls.ledger_of (x :: l))) /\
       b = BindTool (ToolInvocations.activation (ToolInvocations.intent x)) (ToolInvocations.head x)) /\
  (forall (x : ModelInvocations.ModelInvocation Details) l, ModelCalls.history sha256 (x :: l) ->
     forall b, from_model x = Ok b <-> model_settled (ModelCalls.phase (ModelCalls.ledger_of (x :: l))) /\
       b = BindModel (ModelInvocations.activation (ModelInvocations.intent x)) (ModelInvocations.head x)) /\
  (forall (x : ToolInvocations.ToolInvocation Details) (y : ModelInvocations.ModelInvocation Details) b,
     from_tool x = Ok b \/ from_model y = Ok b -> binding_restore b = Ok b) /\
  (forall int fence j r b, commit sha256 int fence j = Ok r -> b ∈ bindings int -> follows (binding_journal_head b) (result_journal_head r)).
Proof.
  split_and!.
  - intros x l Hh b. by apply (tool_binding_Ok sha256).
  - intros x l Hh b. by apply (model_binding_Ok sha256).
  - intros x y b [Hb|Hb].
    + pose proof Hb as Hb'. unfold from_tool, restore_tool in Hb'. repeat case_match; try done; apply bind_Ok in Hb' as ([] & _ & [= <-]); exact Hb.
    + pose proof Hb as Hb'. unfold from_model, restore_model in Hb'. repeat case_match; try done; apply bind_Ok in Hb' as ([] & _ & [= <-]); exact Hb.
  - intros int fence j r b ([_ _ _ _ Hb] & d & _ & ->)%result_commit_Ok Hin. simpl. by apply Hb.
Qed.

(** A pending result is exactly what its node did.  Its bindings are the
    invocations it was given, at most 256 and distinct, in canonical order
    however they were collected; it commits exactly when fence and journal are
    those of its run and the journal entry comes after the base checkpoint, the
    join and every binding; and the intent, the bindings, the record and its
    head all restore to themselves. *)
Theorem pending_result_exact
    `{!Canonical Value, !Canonical SchemaPayloadDigestWire, !Canonical PendingNodeResultIntentDigestWire, !Canonical PendingNodeResultDigestWire}
    (sha256 : bytes -> bytes) act vs bs change ctl int
    (Hbs : bindings_try_new act vs = Ok bs) (Hint : intent_new sha256 act change ctl bs = Ok int) :
  (Z.of_nat (length bs) <= BINDINGS_MAX_LEN /\ ksorted binding_key bs /\ bs ≡ₚ vs /\ Forall (fun b => binding_activation b = act) bs) /\
  (forall vs', vs' ≡ₚ vs -> bindings_try_new act vs' = Ok bs) /\ bindings_visit bs = Ok bs /\ intent_decode sha256 int = Ok int /\
  (forall int' fence j r, commit sha256 int' fence j = Ok r <->
     committable int' fence j /\
     exists d, compute_record_digest sha256 (mkResultDigestWire (result_intent_digest int') fence j) = Ok d /\ r = mkResult int' fence j d) /\
  (forall int' fence j r, commit sha256 int' fence j = Ok r ->
     restore sha256 int' fence j (result_digest r) = Ok r /\ head_new (result_head r) = Ok (result_head r)).
Proof.
  pose proof Hbs as (H1 & H2 & H3 & Hs)%bindings_Ok. pose proof (sort_by_key_perm binding_key vs) as Hp. rewrite <- Hs in Hp. split_and!.
  - by rewrite (Permutation_length Hp).
  - rewrite Hs. by apply sort_by_key_ksorted.
  - done.
  - by rewrite Hp.
  - intros vs' Hv. apply bindings_Ok. split_and!; [by rewrite (Permutation_length Hv) | by rewrite (fmap_Permutation binding_key _ _ Hv) | by rewrite Hv |].
    rewrite Hs. symmetry. apply sort_by_key_unique; [by rewrite (fmap_Permutation binding_key _ _ Hv) | done].
  - by apply bindings_again in Hbs as [_ ?].
  - by apply intent_decodes in Hint as [? _].
  - intros int' fence j r. apply result_commit_Ok.
  - intros int' fence j r Hr. pose proof Hr as ([? ? ? ? ?] & d & Hd & ->)%result_commit_Ok. unfold restore. rewrite Hr. simpl.
    rewrite bool_decide_true by done. split; [done |]. unfold head_new, result_head. simpl. by rewrite (proj2 (basic_scope_Ok _ _ _ tt)).
Qed.

(** * A node that called a model and failed to call a tool *)

Module Demo.
Import ModelCalls.Demo.
#[local] Existing Instance ModelCalls.Demo.encode_any.

Definition committed : NodeInvocationBinding := BindModel act (ModelInvocations.head r4).

Lemma results_consume_settled_outcomes_witness :
  from_model r4 = Ok committed /\ ~ (exists b, from_model r3 = Ok b).
Proof.
  destruct (results_consume_settled_outcomes (Details := unit) hash) as (_ & Hm & _). split.
  - apply (Hm r4 [r3; r2; r1; r0] model_demo_history). split; [exact I | vm_compute; reflexivity].
  - intros [b Hb]. apply (Hm r3 [r2; r1; r0] model_demo_running) in Hb as [Hs _]. exact Hs.
Defined.

(** A second model call of the same activation. *)
Definition other : NodeInvocationBinding :=
  BindModel act (ModelInvocations.mkHead tenant 7 41 1 ModelInvocations.Failed_ (Some 9) (journal 4) [9]).
Definition bound : NodeInvocationBindings := [other; committed].
Definition sealed : IntentT :=
  match intent_new hash act Unchanged Continue bound with Ok i => i | Err _ => mkResultIntent act Unchanged Continue bound None [] end.
Definition fence : RunLease.RunFence := RunLease.mkFence tenant 7 1 1.

Lemma pending_result_exact_witness :
  bindings_try_new act [other; committed] = Ok bound /\ is_ok (commit hash sealed fence (journal 7)) = true /\
  ~ committable sealed fence (journal 6).
Proof.
  assert (Hb : bindings_try_new act [committed; other] = Ok bound) by (vm_compute; reflexivity).
  assert (Hi : intent_new hash act Unchanged Continue bound = Ok sealed) by (vm_compute; reflexivity).
  destruct (pending_result_exact hash act _ _ _ _ _ Hb Hi) as (_ & Hperm & _ & _ & Hc & _). split_and!.
  - apply Hperm. apply Permutation_swap.
  - vm_compute. reflexivity.
  - intros Hk. destruct Hk as [_ _ _ _ Hk]. specialize (Hk committed ltac:(vm_compute; right; left)). destruct Hk as [Hk _].
    vm_compute in Hk. discriminate Hk.
Defined.
End Demo.
End Pending.
