(* ===== verification/Authorization.v ===== *)
(** Authorization evidence (crates/stateknot-core/src/tool_authorization.rs and
    skill_authorization.rs): receipts for one tool operation, subjects and
    approvals of a Skill activation, the acting window an approval opens and its
    revocation, each sealed by a domain-separated digest and restored by
    recomputing it.

    Identifiers are the integers of their UUIDs.  The canonical encoder at each
    preimage type and SHA-256 are parameters; the [expect] of
    [subject_digest] is the fault [Panic].  A length fits [u64], since [usize]
    has 64 bits. *)

From Stdlib Require Import ZArith Lia List.
From stdpp Require Import prelude.
From S2P Require Import Prelude Json Time Content Capability Checkpoint Tool.

Open Scope Z_scope.
Import Timestamp(Timestamp).

Module Authorizations.
Import Text Content Capability Tools.

(** * Domain-separated digests *)

Definition RECEIPT_DIGEST_DOMAIN : bytes := bytes_of "stateknot.tool-authorization-receipt.v1" ++ [0].
Definition WINDOW_RECEIPT_DIGEST_DOMAIN : bytes := bytes_of "stateknot.tool-authorization-receipt.v2" ++ [0].
Definition DESCRIPTOR_DIGEST_DOMAIN : bytes := bytes_of "stateknot.tool-authorization-descriptor.v1" ++ [0].
Definition INPUT_DIGEST_DOMAIN : bytes := bytes_of "stateknot.tool-authorization-input.v1" ++ [0].
Definition APPROVAL_DIGEST_DOMAIN : bytes := bytes_of "stateknot.skill-activation-approval.v1" ++ [0].
Definition WINDOW_DIGEST_DOMAIN : bytes := bytes_of "stateknot.skill-acting-window.v1" ++ [0].
Definition REVOCATION_DIGEST_DOMAIN : bytes := bytes_of "stateknot.skill-acting-window-revocation.v1" ++ [0].
Definition SUBJECT_DIGEST_DOMAIN : bytes := bytes_of "stateknot.skill-authorization-subject.v1" ++ [0].

(** [u64::to_be_bytes]. *)
Definition to_be_bytes (v : Z) : bytes := (fun k => Z.land (Z.shiftr v (8 * k)) 255) <$> [7; 6; 5; 4; 3; 2; 1; 0].

Definition preimage {T} `{Canonical T} (domain : bytes) (value : T) : option bytes :=
  (fun canonical => domain ++ to_be_bytes (Z.of_nat (length canonical)) ++ canonical) <$> to_vec value.

(** [digest_canonical] of both files; [e] is their [Encoding]. *)
Definition digest_canonical {T E} `{Canonical T} (sha256 : bytes -> bytes) (e : E) (domain : bytes) (value : T) : result E Digest :=
  b ← ok_or (preimage domain value) e; Ok (sha256 b).

(** * Receipts *)

Inductive ToolAuthorizationOperation := Execute | Reconcile.
#[global] Instance ToolAuthorizationOperation_eq_dec : EqDecision ToolAuthorizationOperation.
Proof. solve_decision. Defined.

Record ToolAuthorizationProvenance := mkAuthProvenance {
  ap_tenant_id : TenantId;
  ap_run_id : RunId;
  ap_thread_id : Z;
  ap_invocation_id : Z;
  ap_attempt_id : Z;
  ap_origin_event_id : Z
}.
#[global] Instance ToolAuthorizationProvenance_eq_dec : EqDecision ToolAuthorizationProvenance.
Proof. solve_decision. Defined.

(** [LegacyPreimage]. *)
Record ReceiptPreimage := mkReceiptPreimage {
  receipt_id : Z;
  provenance : ToolAuthorizationProvenance;
  operation : ToolAuthorizationOperation;
  tool : CapabilityIdentity;
  descriptor_digest : Digest;
  input_digest : Digest;
  subject_digest_of : Digest;
  policy : CapabilityIdentity;
  policy_digest : Digest;
  decision_digest : Digest;
  authorized_at : Timestamp;
  has_recovery_handle : bool
}.
#[global] Instance ReceiptPreimage_eq_dec : EqDecision ReceiptPreimage.
Proof. solve_decision. Defined.

Record WindowPreimage := mkWindowPreimage { legacy : ReceiptPreimage; wp_window_id : Z }.

(** The fields of a receipt beside its window and digest are [body]. *)
Record ToolAuthorizationReceipt := mkReceipt {
  body : ReceiptPreimage;
  authorization_window_id : option Z;
  receipt_digest : Digest
}.
#[global] Instance ToolAuthorizationReceipt_eq_dec : EqDecision ToolAuthorizationReceipt.
Proof. solve_decision. Defined.

Inductive ToolAuthorizationReceiptError := ReceiptEncoding | ReceiptDigestMismatch.

Section Receipts.
Context `{Canonical ToolDescriptor, Canonical ToolInput, Canonical ReceiptPreimage, Canonical WindowPreimage}.
Variable sha256 : bytes -> bytes.

Definition digest_descriptor (d : ToolDescriptor) : result ToolAuthorizationReceiptError Digest :=
  digest_canonical sha256 ReceiptEncoding DESCRIPTOR_DIGEST_DOMAIN d.
Definition digest_input (i : ToolInput) : result ToolAuthorizationReceiptError Digest :=
  digest_canonical sha256 ReceiptEncoding INPUT_DIGEST_DOMAIN i.

Definition receipt_compute_digest (self : ReceiptPreimage) (window : option Z) : result ToolAuthorizationReceiptError Digest :=
  match window with
  | None => digest_canonical sha256 ReceiptEncoding RECEIPT_DIGEST_DOMAIN self
  | Some id => digest_canonical sha256 ReceiptEncoding WINDOW_RECEIPT_DIGEST_DOMAIN (mkWindowPreimage self id)
  end.

Definition receipt_new (b : ReceiptPreimage) : result ToolAuthorizationReceiptError ToolAuthorizationReceipt :=
  d ← receipt_compute_digest b None; Ok (mkReceipt b None d).

Definition with_authorization_window (self : ToolAuthorizationReceipt) (id : Z) : result ToolAuthorizationReceiptError ToolAuthorizationReceipt :=
  d ← receipt_compute_digest (body self) (Some id); Ok (mkReceipt (body self) (Some id) d).

(** [Deserialize for ToolAuthorizationReceipt]. *)
Definition receipt_restore (wire : ToolAuthorizationReceipt) : result ToolAuthorizationReceiptError ToolAuthorizationReceipt :=
  receipt ← receipt_new (body wire);
  receipt ← match authorization_window_id wire with Some id => with_authorization_window receipt id | None => Ok receipt end;
  if negb (bool_decide (receipt_digest receipt = receipt_digest wire)) then Err ReceiptDigestMismatch else Ok receipt.
End Receipts.

(** * Skill subjects *)

Record SkillActivationScope := mkScope { sc_tenant_id : TenantId; sc_run_id : RunId; sc_thread_id : Z }.
#[global] Instance SkillActivationScope_eq_dec : EqDecision SkillActivationScope.
Proof. solve_decision. Defined.

Record SkillAuthorizationSubject := mkSubject { protocol : text; origin : text; uri : text; manifest_digest : Digest }.
#[global] Instance SkillAuthorizationSubject_eq_dec : EqDecision SkillAuthorizationSubject.
Proof. solve_decision. Defined.

Inductive SkillAuthorizationSubjectError := LabelEmpty | LabelTooLong | LabelNonCanonical | InvalidProtocol.

Definition MAX_PROTOCOL_BYTES : Z := 32.
Definition MAX_ORIGIN_BYTES : Z := 128.
Definition MAX_URI_BYTES : Z := 4096.

Definition protocol_byte (b : Z) : bool := between 97 122 b || between 48 57 b || (b =? 46) || (b =? 45).

(** [value.trim() != value] exactly when whitespace starts or ends it. *)
Definition validate_label (value : text) (maximum : Z) (is_protocol : bool) : result SkillAuthorizationSubjectError unit :=
  if (length value =? 0)%nat then Err LabelEmpty else
  if maximum <? len value then Err LabelTooLong else
  if starts_with_whitespace value || ends_with_whitespace value || existsb is_control value then Err LabelNonCanonical else
  if is_protocol && negb (forallb protocol_byte value) then Err InvalidProtocol else Ok tt.

Definition subject_new (p o u : text) (manifest : Digest) : result SkillAuthorizationSubjectError SkillAuthorizationSubject :=
  _ ← validate_label p MAX_PROTOCOL_BYTES true;
  _ ← validate_label o MAX_ORIGIN_BYTES false;
  _ ← validate_label u MAX_URI_BYTES false;
  Ok (mkSubject p o u manifest).

Definition subject_restore (wire : SkillAuthorizationSubject) : result SkillAuthorizationSubjectError SkillAuthorizationSubject :=
  subject_new (protocol wire) (origin wire) (uri wire) (manifest_digest wire).

(** * Approvals, windows, revocations *)

Inductive SkillActivationSource := Direct | Nested (parent_window_id : Z).
#[global] Instance SkillActivationSource_eq_dec : EqDecision SkillActivationSource.
Proof. solve_decision. Defined.

Inductive SkillActingWindowError := InvalidDuration | InvalidClock | Encoding | DigestMismatch.

(** [SkillActingWindowDuration(DurationMillis)]. *)
Definition SkillActingWindowDuration := DurationMillis.DurationMillis.
Definition MIN_MILLIS : Z := 1000.
Definition MAX_MILLIS : Z := 86400000.

Definition window_duration_new (value : DurationMillis.DurationMillis) : result SkillActingWindowError SkillActingWindowDuration :=
  if (value <? MIN_MILLIS) || (MAX_MILLIS <? value) then Err InvalidDuration else Ok value.

Record ApprovalPreimage := mkApprovalPreimage {
  approval_id : Z;
  scope : SkillActivationScope;
  subject : SkillAuthorizationSubject;
  source : SkillActivationSource;
  approval_policy : CapabilityIdentity;
  approval_policy_digest : Digest;
  approval_decision_digest : Digest;
  requested_duration : SkillActingWindowDuration
}.
#[global] Instance ApprovalPreimage_eq_dec : EqDecision ApprovalPreimage.
Proof. solve_decision. Defined.

Record SkillActivationApproval := mkApproval { approved : ApprovalPreimage; approval_digest : Digest }.
#[global] Instance SkillActivationApproval_eq_dec : EqDecision SkillActivationApproval.
Proof. solve_decision. Defined.

Record SkillActingWindowOpenRequest := mkOpenRequest { open_window_id : Z; open_approval : SkillActivationApproval }.

Record ActingPreimage := mkActingPreimage {
  window_id : Z;
  approval : SkillActivationApproval;
  opened_at : Timestamp;
  expires_at : Timestamp
}.
#[global] Instance ActingPreimage_eq_dec : EqDecision ActingPreimage.
Proof. solve_decision. Defined.

Record SkillActingWindow := mkWindow { acting : ActingPreimage; window_digest : Digest }.
#[global] Instance SkillActingWindow_eq_dec : EqDecision SkillActingWindow.
Proof. solve_decision. Defined.

Inductive SkillActingWindowRevocationReason := User | Policy | Compromised | Superseded | Administrative.
#[global] Instance SkillActingWindowRevocationReason_eq_dec : EqDecision SkillActingWindowRevocationReason.
Proof. solve_decision. Defined.

(** The tuple [(tenant_id, window_id, reason, revoked_at)]. *)
Record RevocationPreimage := mkRevocationPreimage {
  rv_tenant_id : TenantId;
  rv_window_id : Z;
  rv_reason : SkillActingWindowRevocationReason;
  rv_revoked_at : Timestamp
}.
#[global] Instance RevocationPreimage_eq_dec : EqDecision RevocationPreimage.
Proof. solve_decision. Defined.

Record SkillActingWindowRevocation := mkRevocation { revoked : RevocationPreimage; revocation_digest : Digest }.
#[global] Instance SkillActingWindowRevocation_eq_dec : EqDecision SkillActingWindowRevocation.
Proof. solve_decision. Defined.

Section Skills.
Context `{Canonical SkillAuthorizationSubject, Canonical ApprovalPreimage, Canonical ActingPreimage, Canonical RevocationPreimage}.
Variable sha256 : bytes -> bytes.

Definition subject_digest {E} (self : SkillAuthorizationSubject) : result (fault E) Digest :=
  digest_canonical sha256 Panic SUBJECT_DIGEST_DOMAIN self.

Definition approval_new (p : ApprovalPreimage) : result SkillActingWindowError SkillActivationApproval :=
  d ← digest_canonical sha256 Encoding APPROVAL_DIGEST_DOMAIN p; Ok (mkApproval p d).

(** [Deserialize for SkillActivationApproval], its parts restored first.  The
    text of a refused part is of no consequence here: any refusal is one. *)
Definition approval_restore (wire : SkillActivationApproval) : result SkillActingWindowError SkillActivationApproval :=
  let p := approved wire in
  _ ← map_err (fun _ => Encoding) (subject_restore (subject p));
  _ ← window_duration_new (requested_duration p);
  value ← approval_new p;
  if negb (bool_decide (approval_digest value = approval_digest wire)) then Err DigestMismatch else Ok value.

Definition i64_in_range (v : Z) : bool := (i64_min <=? v) && (v <=? i64_max).

Definition window_new (p : ActingPreimage) : result SkillActingWindowError SkillActingWindow :=
  let requested_micros := requested_duration (approved (approval p)) * 1000 in
  if negb (i64_in_range requested_micros) then Err InvalidClock else
  let expected := opened_at p + requested_micros in
  if negb (i64_in_range expected) then Err InvalidClock else
  if negb (expires_at p =? expected) then Err InvalidClock else
  d ← digest_canonical sha256 Encoding WINDOW_DIGEST_DOMAIN p; Ok (mkWindow p d).

Definition window_restore (wire : SkillActingWindow) : result SkillActingWindowError SkillActingWindow :=
  _ ← approval_restore (approval (acting wire));
  value ← window_new (acting wire);
  if negb (bool_decide (window_digest value = window_digest wire)) then Err DigestMismatch else Ok value.

Definition revocation_new (p : RevocationPreimage) : result SkillActingWindowError SkillActingWindowRevocation :=
  d ← digest_canonical sha256 Encoding REVOCATION_DIGEST_DOMAIN p; Ok (mkRevocation p d).

Definition revocation_restore (wire : SkillActingWindowRevocation) : result SkillActingWindowError SkillActingWindowRevocation :=
  value ← revocation_new (revoked wire);
  if negb (bool_decide (revocation_digest value = revocation_digest wire)) then Err DigestMismatch else Ok value.
End Skills.
End Authorizations.
