(* ===== verification/AuthorizationStore.v ===== *)
(** Durable authorization (crates/stateknot-store-postgres/src/
    skill_activation_windows.rs and tool_authorization_receipts.rs): opening,
    loading, revalidating and revoking Skill acting windows, and recording a tool
    authorization receipt at the exact boundary of its invocation.

    [Db] holds the tables the transactions read and write; of a run it keeps the
    thread, of a tool invocation the joined boundary row.  Transactions on one
    window are serial: each takes the advisory lock of the window before it
    reads, at READ COMMITTED.  Only the first lookup of a receipt runs before any
    lock; [observed] is the state it reads.  [now] and [later] are successive
    readings of [clock_timestamp()], in microseconds.  The constraints of the
    migrations that a write can break are checked where it is made; identifier
    columns admit valid identifiers only, so reading one does not fail.

    [from_slice] is serde_json at a wire type; the checks of the deserializers
    are those of [Authorization.v]. *)

From Stdlib Require Import ZArith Lia List.
From stdpp Require Import prelude gmap sorting.
From S2P Require Import Prelude Json Time Content Capability Checkpoint Tool ToolInvocation StoreErrors Authorization.

Open Scope Z_scope.
Import Timestamp(Timestamp).

(** [serde_json::from_slice] up to the fields of [T]. *)
Class FromSlice (T : Type) := from_slice : bytes -> option T.

Module AuthorizationStore.
Import Content Capability Tools Authorizations.

(** * Tables *)

Record WindowRow := mkWindowRow {
  wr_tenant_id : bytes;
  wr_window_id : Z;
  wr_approval_id : Z;
  wr_run_id : Z;
  wr_thread_id : Z;
  wr_subject_digest : bytes;
  wr_opened_at : Z;
  wr_expires_at : Z;
  wr_window_digest : bytes;
  wr_window_bytes : bytes;
  wr_window_bytes_digest : bytes
}.

Record ReceiptRow := mkReceiptRow {
  rr_tenant_id : bytes;
  rr_receipt_id : Z;
  rr_run_id : Z;
  rr_thread_id : Z;
  rr_invocation_id : Z;
  rr_attempt_id : Z;
  rr_origin_event_id : Z;
  rr_operation : bytes;
  rr_descriptor_digest : bytes;
  rr_input_digest : bytes;
  rr_subject_digest : bytes;
  rr_policy_digest : bytes;
  rr_decision_digest : bytes;
  rr_window_id : option Z;
  rr_receipt_digest : bytes;
  rr_has_recovery_handle : bool;
  rr_authorized_at : Z;
  rr_recorded_at : Z;
  rr_receipt_bytes : bytes;
  rr_receipt_bytes_digest : bytes
}.

Record BoundaryRow := mkBoundaryRow {
  br_intent_bytes : bytes;
  br_current_status : bytes;
  br_current_attempt_id : option Z;
  br_thread_id : Z;
  br_journal_event_id : Z
}.

Abbreviation Key := (list Z * Z)%type.

(** Of an approval and of a revocation only the bytes are read back. *)
Record Db := mkDb {
  approvals : gmap Key bytes;
  windows : gmap Key WindowRow;
  revocations : gmap Key bytes;
  receipts : gmap Key ReceiptRow;
  boundaries : gmap (list Z * Z * Z) BoundaryRow;
  threads : gmap Key Z
}.

Definition db_empty : Db := mkDb ∅ ∅ ∅ ∅ ∅ ∅.

Definition MAX_APPROVAL_BYTES : Z := 65536.
Definition MAX_WINDOW_BYTES : Z := 131072.
Definition MAX_REVOCATION_BYTES : Z := 65536.
Definition MAX_RECEIPT_BYTES : Z := 65536.
Definition MAX_TOOL_INVOCATION_INTENT_BYTES : Z := 4194304.
Definition DIGEST_LEN : nat := 32.

Definition decode_digest (b : bytes) (record : bytes) : result StoreError Digest :=
  if (length b =? DIGEST_LEN)%nat then Ok b else Err (Corrupt record).
Definition from_database_time (v : Z) : result StoreError Timestamp :=
  map_err (fun _ => Corrupt (bytes_of "timestamp")) (Timestamp.from_unix_micros v).

Definition oversized (b : bytes) (maximum : Z) : bool := (length b =? 0)%nat || (maximum <? Z.of_nat (length b)).

Definition encode {T} `{Canonical T} (value : T) (maximum : Z) (component : bytes) : result StoreError bytes :=
  b ← ok_or (to_vec value) (EncodingFault component);
  if oversized b maximum then Err (EncodingFault component) else Ok b.

(** [decode::<T>], whose deserializer is [restore]. *)
Definition decode {T E} `{FromSlice T} (restore : T -> result E T) (b : bytes) (maximum : Z) (component : bytes) : result StoreError T :=
  if oversized b maximum then Err (Corrupt component) else
  wire ← ok_or (from_slice b) (Corrupt component);
  map_err (fun _ => Corrupt component) (restore wire).

(** The window rows and receipts of a store are keyed by tenant and identifier. *)
Definition window_scope (w : SkillActingWindow) : SkillActivationScope := scope (approved (approval (acting w))).
Definition window_subject (w : SkillActingWindow) : SkillAuthorizationSubject := subject (approved (approval (acting w))).

Definition operation_text (op : ToolAuthorizationOperation) : bytes :=
  match op with Execute => bytes_of "execute" | Reconcile => bytes_of "reconcile" end.

Record StoredToolAuthorizationReceipt := mkStoredReceipt { stored_receipt : ToolAuthorizationReceipt; recorded_at : Timestamp }.
#[global] Instance StoredToolAuthorizationReceipt_eq_dec : EqDecision StoredToolAuthorizationReceipt.
Proof. solve_decision. Defined.

Section Store.
Context `{Canonical SkillAuthorizationSubject, Canonical ApprovalPreimage, Canonical ActingPreimage, Canonical RevocationPreimage}.
Context `{Canonical SkillActivationApproval, Canonical SkillActingWindow, Canonical SkillActingWindowRevocation}.
Context `{FromSlice SkillActivationApproval, FromSlice SkillActingWindow, FromSlice SkillActingWindowRevocation}.
Variable sha256 : bytes -> bytes.

Definition WINDOW_ : bytes := bytes_of "Skill acting window".
Definition APPROVAL_ : bytes := bytes_of "Skill approval".
Definition REVOCATION_ : bytes := bytes_of "Skill revocation".
Definition projection : StoreError := Corrupt (bytes_of "Skill acting window projection").

Definition decode_window (row : WindowRow) : result (fault StoreError) SkillActingWindow :=
  window ← map_err Fail (decode (window_restore sha256) (wr_window_bytes row) MAX_WINDOW_BYTES WINDOW_);
  let sc := window_scope window in
  if negb (bool_decide (wr_tenant_id row = sc_tenant_id sc)) || negb (wr_window_id row =? window_id (acting window))
     || negb (wr_approval_id row =? approval_id (approved (approval (acting window))))
     || negb (wr_run_id row =? sc_run_id sc) || negb (wr_thread_id row =? sc_thread_id sc) then Err (Fail projection) else
  row_subject ← map_err Fail (decode_digest (wr_subject_digest row) (bytes_of "Skill subject"));
  expected_subject ← subject_digest sha256 (window_subject window);
  if negb (bool_decide (row_subject = expected_subject)) then Err (Fail projection) else
  opened ← map_err Fail (from_database_time (wr_opened_at row));
  if negb (opened =? opened_at (acting window)) then Err (Fail projection) else
  expires ← map_err Fail (from_database_time (wr_expires_at row));
  if negb (expires =? expires_at (acting window)) then Err (Fail projection) else
  row_digest ← map_err Fail (decode_digest (wr_window_digest row) (bytes_of "Skill window"));
  if negb (bool_decide (row_digest = window_digest window)) then Err (Fail projection) else
  bytes_digest ← map_err Fail (decode_digest (wr_window_bytes_digest row) (bytes_of "Skill window bytes"));
  if negb (bool_decide (sha256 (wr_window_bytes row) = bytes_digest)) then Err (Fail projection) else
  Ok window.

(** Expired at [now], or revoked. *)
Definition locked_window_inactive (db : Db) (key : Key) (expires now : Z) : bool :=
  (expires <=? now) || bool_decide (is_Some (revocations db !! key)).

Definition load_locked_active (db : Db) (tenant : TenantId) (id now : Z) : result (fault StoreError) SkillActingWindow :=
  row ← ok_or (windows db !! (tenant, id)) (Fail SkillActingWindowNotFound);
  window ← decode_window row;
  if locked_window_inactive db (tenant, id) (wr_expires_at row) now then Err (Fail SkillActingWindowInactive) else
  Ok window.

(** The parent of a nested activation is active and of the same scope. *)
Definition validate_parent (db : Db) (approval : SkillActivationApproval) (now : Z) : result (fault StoreError) unit :=
  match source (approved approval) with
  | Direct => Ok tt
  | Nested parent_id =>
      parent ← load_locked_active db (sc_tenant_id (scope (approved approval))) parent_id now;
      if negb (bool_decide (window_scope parent = scope (approved approval))) then Err (Fail InvalidSkillActivation) else Ok tt
  end.

(** Insertion of the approval, or comparison with the one recorded. *)
Definition record_approval (db : Db) (a : SkillActivationApproval) (approval_bytes : bytes) : result (fault StoreError) Db :=
  let sc := scope (approved a) in
  let key := (sc_tenant_id sc, approval_id (approved a)) in
  match approvals db !! key with
  | None =>
      if negb (bool_decide (threads db !! (sc_tenant_id sc, sc_run_id sc) = Some (sc_thread_id sc))) then Err (Fail (Database false)) else
      Ok (mkDb (<[key := approval_bytes]> (approvals db)) (windows db) (revocations db) (receipts db) (boundaries db) (threads db))
  | Some existing =>
      if negb (bool_decide (existing = approval_bytes)) then Err (Fail SkillActivationConflict) else
      stored ← map_err Fail (decode (approval_restore sha256) existing MAX_APPROVAL_BYTES APPROVAL_);
      if negb (bool_decide (stored = a)) then Err (Fail SkillActivationConflict) else Ok db
  end.

(** [skill_acting_windows_approval_unique]. *)
Definition approval_used (db : Db) (tenant : TenantId) (id : Z) : bool :=
  existsb (fun kv : Key * WindowRow => bool_decide (kv.1.1 = tenant) && (wr_approval_id kv.2 =? id)) (map_to_list (windows db)).

Definition insert_window (db : Db) (key : Key) (row : WindowRow) : Db :=
  mkDb (approvals db) (<[key := row]> (windows db)) (revocations db) (receipts db) (boundaries db) (threads db).

Definition open_skill_acting_window (db : Db) (request : SkillActingWindowOpenRequest) (now later : Z)
  : result (fault StoreError) (SkillActingWindow * Db) :=
  let a := open_approval request in
  let sc := scope (approved a) in
  let key := (sc_tenant_id sc, open_window_id request) in
  match windows db !! key with
  | Some row =>
      stored ← decode_window row;
      if negb (bool_decide (approval (acting stored) = a)) then Err (Fail SkillActivationConflict) else
      if locked_window_inactive db key (wr_expires_at row) now then Err (Fail SkillActingWindowInactive) else
      Ok (stored, db)
  | None =>
      _ ← validate_parent db a now;
      opened ← map_err Fail (from_database_time later);
      let duration_micros := requested_duration (approved a) * 1000 in
      if negb (i64_in_range duration_micros) then Err (Fail InvalidSkillActivation) else
      if negb (i64_in_range (opened + duration_micros)) then Err (Fail InvalidSkillActivation) else
      expires ← map_err (fun _ => Fail InvalidSkillActivation) (Timestamp.from_unix_micros (opened + duration_micros));
      window ← map_err (fun _ => Fail InvalidSkillActivation) (window_new sha256 (mkActingPreimage (open_window_id request) a opened expires));
      approval_bytes ← map_err Fail (encode a MAX_APPROVAL_BYTES APPROVAL_);
      window_bytes ← map_err Fail (encode window MAX_WINDOW_BYTES WINDOW_);
      d ← subject_digest sha256 (subject (approved a));
      db ← record_approval db a approval_bytes;
      if approval_used db (sc_tenant_id sc) (approval_id (approved a)) then Err (Fail SkillActivationConflict) else
      let row := mkWindowRow (sc_tenant_id sc) (open_window_id request) (approval_id (approved a)) (sc_run_id sc) (sc_thread_id sc) d
                   opened expires (window_digest window) window_bytes (sha256 window_bytes) in
      Ok (window, insert_window db key row)
  end.

Definition load_active_skill_acting_window (db : Db) (tenant : TenantId) (id now : Z) : result (fault StoreError) SkillActingWindow :=
  load_locked_active db tenant id now.

Definition assert_skill_acting_window_active (db : Db) (expected : SkillActingWindow) (now : Z) : result (fault StoreError) unit :=
  actual ← load_active_skill_acting_window db (sc_tenant_id (window_scope expected)) (window_id (acting expected)) now;
  if negb (bool_decide (actual = expected)) then Err (Fail SkillActivationConflict) else Ok tt.

Definition revoke_skill_acting_window (db : Db) (expected : SkillActingWindow) (reason : SkillActingWindowRevocationReason) (now : Z)
  : result (fault StoreError) (SkillActingWindowRevocation * Db) :=
  let tenant := sc_tenant_id (window_scope expected) in
  let key := (tenant, window_id (acting expected)) in
  row ← ok_or (windows db !! key) (Fail SkillActingWindowNotFound);
  stored ← decode_window row;
  if negb (bool_decide (stored = expected)) then Err (Fail SkillActivationConflict) else
  match revocations db !! key with
  | Some b =>
      existing ← map_err Fail (decode (revocation_restore sha256) b MAX_REVOCATION_BYTES REVOCATION_);
      if negb (bool_decide (rv_reason (revoked existing) = reason)) then Err (Fail SkillActivationConflict) else Ok (existing, db)
  | None =>
      at_ ← map_err Fail (from_database_time now);
      revocation ← map_err (fun _ => Fail InvalidSkillActivation)
                     (revocation_new sha256 (mkRevocationPreimage tenant (window_id (acting expected)) reason at_));
      b ← map_err Fail (encode revocation MAX_REVOCATION_BYTES REVOCATION_);
      Ok (revocation, mkDb (approvals db) (windows db) (<[key := b]> (revocations db)) (receipts db) (boundaries db) (threads db))
  end.

(** * Receipts *)

Context `{Canonical ToolDescriptor, Canonical ToolInput, Canonical ReceiptPreimage, Canonical WindowPreimage, Canonical ToolAuthorizationReceipt,
          Canonical ToolInvocations.ToolInvocationIntentDigestWire, Canonical ToolInvocations.ToolInvocationIntent}.
Context `{FromSlice ToolAuthorizationReceipt, FromSlice ToolInvocations.ToolInvocationIntent}.

Definition validate_receipt_window (db : Db) (receipt : ToolAuthorizationReceipt) (now : Z) : result (fault StoreError) unit :=
  match authorization_window_id receipt with
  | None => Ok tt
  | Some id =>
      let p := provenance (body receipt) in
      window ← load_locked_active db (ap_tenant_id p) id now;
      let sc := window_scope window in
      if negb (sc_run_id sc =? ap_run_id p) || negb (sc_thread_id sc =? ap_thread_id p) then Err (Fail InvalidToolAuthorizationReceipt) else
      d ← subject_digest sha256 (window_subject window);
      if negb (bool_decide (d = subject_digest_of (body receipt))) then Err (Fail InvalidToolAuthorizationReceipt) else Ok tt
  end.

Definition expected_status (op : ToolAuthorizationOperation) : bytes :=
  match op with Execute => bytes_of "executing" | Reconcile => bytes_of "unknown" end.

Definition validate_boundary (receipt : ToolAuthorizationReceipt) (boundary : BoundaryRow) : result StoreError unit :=
  if oversized (br_intent_bytes boundary) MAX_TOOL_INVOCATION_INTENT_BYTES
  then Err (Corrupt (bytes_of "Tool authorization invocation intent size")) else
  wire ← ok_or (from_slice (br_intent_bytes boundary)) (Corrupt (bytes_of "Tool authorization invocation intent"));
  intent ← map_err (fun _ => Corrupt (bytes_of "Tool authorization invocation intent")) (ToolInvocations.intent_restore sha256 wire);
  canonical ← ok_or (to_vec intent) (Corrupt (bytes_of "Tool authorization invocation canonicalization"));
  if negb (bool_decide (canonical = br_intent_bytes boundary)) then Err (Corrupt (bytes_of "Tool authorization invocation canonical bytes")) else
  let p := provenance (body receipt) in
  let d := ToolInvocations.descriptor intent in
  if negb (bool_decide (ToolInvocations.intent_tenant_id intent = ap_tenant_id p))
     || negb (ToolInvocations.intent_run_id intent =? ap_run_id p)
     || negb (ToolInvocations.invocation_id intent =? ap_invocation_id p)
     || negb (br_thread_id boundary =? ap_thread_id p)
     || negb (bool_decide (br_current_attempt_id boundary = Some (ap_attempt_id p)))
     || negb (br_journal_event_id boundary =? ap_origin_event_id p)
     || negb (bool_decide (br_current_status boundary = expected_status (operation (body receipt))))
     || negb (bool_decide (tool_identity d = tool (body receipt))) then Err InvalidToolAuthorizationReceipt else
  descriptor_d ← map_err (fun _ => InvalidToolAuthorizationReceipt) (digest_descriptor sha256 d);
  if negb (bool_decide (descriptor_d = descriptor_digest (body receipt))) then Err InvalidToolAuthorizationReceipt else
  input_d ← map_err (fun _ => InvalidToolAuthorizationReceipt) (digest_input sha256 (ToolInvocations.input intent));
  if negb (bool_decide (input_d = input_digest (body receipt))) then Err InvalidToolAuthorizationReceipt else Ok tt.

Definition encode_receipt (receipt : ToolAuthorizationReceipt) : result StoreError bytes :=
  b ← ok_or (to_vec receipt) (EncodingFault (bytes_of "Tool authorization receipt"));
  if oversized b MAX_RECEIPT_BYTES then Err InvalidToolAuthorizationReceipt else Ok b.

Definition receipt_projection : StoreError := Corrupt (bytes_of "Tool authorization receipt projection").
Definition check_column (row expected : bytes) (component : bytes) : result StoreError unit :=
  d ← decode_digest row component;
  if negb (bool_decide (d = expected)) then Err receipt_projection else Ok tt.


Definition decode_receipt (row : ReceiptRow) : result StoreError StoredToolAuthorizationReceipt :=
  if oversized (rr_receipt_bytes row) MAX_RECEIPT_BYTES then Err (Corrupt (bytes_of "Tool authorization receipt size")) else
  wire ← ok_or (from_slice (rr_receipt_bytes row)) (Corrupt (bytes_of "Tool authorization receipt value"));
  receipt ← map_err (fun _ => Corrupt (bytes_of "Tool authorization receipt value")) (receipt_restore sha256 wire);
  canonical ← ok_or (to_vec receipt) (Corrupt (bytes_of "Tool authorization receipt canonicalization"));
  if negb (bool_decide (canonical = rr_receipt_bytes row)) then Err (Corrupt (bytes_of "Tool authorization receipt canonical bytes")) else
  let b := body receipt in
  let p := provenance b in
  at_ ← from_database_time (rr_recorded_at row);
  if negb (bool_decide (rr_tenant_id row = ap_tenant_id p)) || negb (rr_receipt_id row =? receipt_id b) || negb (rr_run_id row =? ap_run_id p)
     || negb (rr_thread_id row =? ap_thread_id p) || negb (rr_invocation_id row =? ap_invocation_id p)
     || negb (rr_attempt_id row =? ap_attempt_id p) || negb (rr_origin_event_id row =? ap_origin_event_id p)
     || negb (bool_decide (rr_operation row = operation_text (operation b))) then Err receipt_projection else
  _ ← check_column (rr_descriptor_digest row) (descriptor_digest b) (bytes_of "Tool authorization descriptor digest");
  _ ← check_column (rr_input_digest row) (input_digest b) (bytes_of "Tool authorization input digest");
  _ ← check_column (rr_subject_digest row) (subject_digest_of b) (bytes_of "Tool authorization subject digest");
  _ ← check_column (rr_policy_digest row) (policy_digest b) (bytes_of "Tool authorization policy digest");
  _ ← check_column (rr_decision_digest row) (decision_digest b) (bytes_of "Tool authorization decision digest");
  if negb (bool_decide (rr_window_id row = authorization_window_id receipt)) then Err receipt_projection else
  _ ← check_column (rr_receipt_digest row) (receipt_digest receipt) (bytes_of "Tool authorization receipt digest");
  _ ← check_column (rr_receipt_bytes_digest row) (sha256 (rr_receipt_bytes row)) (bytes_of "Tool authorization receipt bytes digest");
  if negb (Bool.eqb (rr_has_recovery_handle row) (has_recovery_handle b)) then Err receipt_projection else
  authorized ← from_database_time (rr_authorized_at row);
  if negb (authorized =? authorized_at b) || (at_ <? authorized_at b) then Err receipt_projection else
  Ok (mkStoredReceipt receipt at_).

Inductive ToolAuthorizationReceiptOutcome := Recorded | Idempotent.

Definition receipt_key (receipt : ToolAuthorizationReceipt) : Key := (ap_tenant_id (provenance (body receipt)), receipt_id (body receipt)).

(** The row of a new receipt; the digest of its bytes is a generated column. *)
Definition receipt_row (receipt : ToolAuthorizationReceipt) (b : bytes) (at_ : Z) : ReceiptRow :=
  let p := provenance (body receipt) in
  mkReceiptRow (ap_tenant_id p) (receipt_id (body receipt)) (ap_run_id p) (ap_thread_id p) (ap_invocation_id p) (ap_attempt_id p)
    (ap_origin_event_id p) (operation_text (operation (body receipt))) (descriptor_digest (body receipt)) (input_digest (body receipt))
    (subject_digest_of (body receipt)) (policy_digest (body receipt)) (decision_digest (body receipt)) (authorization_window_id receipt)
    (receipt_digest receipt) (has_recovery_handle (body receipt)) (authorized_at (body receipt)) at_ b (sha256 b).

(** The stored row must be the receipt itself. *)
Definition confirm_receipt (row : ReceiptRow) (receipt : ToolAuthorizationReceipt) (b : bytes) : result StoreError unit :=
  stored ← decode_receipt row;
  if negb (bool_decide (stored_receipt stored = receipt)) then Err ToolAuthorizationReceiptConflict else
  c ← encode_receipt (stored_receipt stored);
  if negb (bool_decide (c = b)) then Err ToolAuthorizationReceiptConflict else Ok tt.

(** [ON CONFLICT DO NOTHING], with the clock constraint on the new row. *)
Definition insert_receipt (db : Db) (receipt : ToolAuthorizationReceipt) (b : bytes) (at_ : Z) : result StoreError (bool * Db) :=
  match receipts db !! receipt_key receipt with
  | Some _ => Ok (false, db)
  | None =>
      if at_ <? authorized_at (body receipt) then Err InvalidToolAuthorizationReceipt else
      Ok (true, mkDb (approvals db) (windows db) (revocations db) (<[receipt_key receipt := receipt_row receipt b at_]> (receipts db))
                  (boundaries db) (threads db))
  end.

Definition record_tool_authorization_receipt (observed db : Db) (receipt : ToolAuthorizationReceipt) (now later : Z)
  : result (fault StoreError) (ToolAuthorizationReceiptOutcome * Db) :=
  b ← map_err Fail (encode_receipt receipt);
  match receipts observed !! receipt_key receipt with
  | Some row => _ ← map_err Fail (confirm_receipt row receipt b); Ok (Idempotent, db)
  | None =>
      _ ← validate_receipt_window db receipt now;
      let p := provenance (body receipt) in
      boundary ← ok_or (boundaries db !! (ap_tenant_id p, ap_run_id p, ap_invocation_id p)) (Fail ToolAuthorizationReceiptNotFound);
      _ ← map_err Fail (validate_boundary receipt boundary);
      '(inserted, db) ← map_err Fail (insert_receipt db receipt b later);
      row ← ok_or (receipts db !! receipt_key receipt) (Fail ToolAuthorizationReceiptConflict);
      _ ← map_err Fail (confirm_receipt row receipt b);
      Ok (if inserted : bool then Recorded else Idempotent, db)
  end.
(** ** Reading receipts *)

Definition load_tool_authorization_receipt (db : Db) (tenant : TenantId) (id : Z) : result StoreError StoredToolAuthorizationReceipt :=
  row ← ok_or (receipts db !! (tenant, id)) ToolAuthorizationReceiptNotFound;
  stored ← decode_receipt row;
  let b := body (stored_receipt stored) in
  if negb (bool_decide (ap_tenant_id (provenance b) = tenant)) || negb (receipt_id b =? id)
  then Err (Corrupt (bytes_of "Tool authorization receipt scope")) else Ok stored.

(** [SELECT_RECEIPT_PAGE]: the receipts of one invocation past a position, in order
    of [(recorded_at, receipt_id)], the identifier by its bytes. *)
Definition position (row : ReceiptRow) : Z * Z := (rr_recorded_at row, rr_receipt_id row).
Definition position_ltb (a b : Z * Z) : bool := (a.1 <? b.1) || ((a.1 =? b.1) && (a.2 <? b.2)).
Definition row_le (a b : ReceiptRow) : Prop := position_ltb (position b) (position a) = false.
#[global] Instance row_le_dec : RelDecision row_le.
Proof. intros a b. unfold row_le. apply _. Defined.

Definition of_invocation (tenant : TenantId) (run inv : Z) (row : ReceiptRow) : bool :=
  bool_decide (rr_tenant_id row = tenant) && (rr_run_id row =? run) && (rr_invocation_id row =? inv).

Definition select_receipts (db : Db) (tenant : TenantId) (run inv : Z) (after : Z * Z) : list ReceiptRow :=
  merge_sort row_le (filter (fun row => of_invocation tenant run inv row && position_ltb after (position row) = true) ((map_to_list (receipts db)).*2)).

Record ToolAuthorizationReceiptPage := mkReceiptPage { records : list StoredToolAuthorizationReceipt; has_more : bool }.
Definition next_cursor (p : ToolAuthorizationReceiptPage) : option StoredToolAuthorizationReceipt := last (records p).

Definition PAGE_MAX : Z := 100.
Definition page_size_new (value : Z) : result StoreError Z :=
  if (value =? 0) || (PAGE_MAX <? value) then Err InvalidToolAuthorizationReceiptPageSize else Ok value.

(** The cursor is still the receipt stored under its identifier. *)
Definition check_cursor (db : Db) (tenant : TenantId) (run inv : Z) (after : option StoredToolAuthorizationReceipt) : result StoreError unit :=
  match after with
  | None => Ok tt
  | Some cursor =>
      let p := provenance (body (stored_receipt cursor)) in
      if negb (bool_decide (ap_tenant_id p = tenant)) || negb (ap_run_id p =? run) || negb (ap_invocation_id p =? inv)
      then Err InvalidToolAuthorizationReceiptCursor else
      row ← ok_or (receipts db !! (tenant, receipt_id (body (stored_receipt cursor)))) InvalidToolAuthorizationReceiptCursor;
      stored ← decode_receipt row;
      if negb (bool_decide (stored = cursor)) then Err InvalidToolAuthorizationReceiptCursor else Ok tt
  end.

Definition cursor_position (after : option StoredToolAuthorizationReceipt) : Z * Z :=
  match after with None => (Timestamp.MIN, 0) | Some cursor => (recorded_at cursor, receipt_id (body (stored_receipt cursor))) end.

Definition load_tool_authorization_receipt_page (db : Db) (tenant : TenantId) (run inv : Z) (after : option StoredToolAuthorizationReceipt) (page_size : Z)
  : result StoreError ToolAuthorizationReceiptPage :=
  _ ← check_cursor db tenant run inv after;
  let rows := take (Z.to_nat (page_size + 1)) (select_receipts db tenant run inv (cursor_position after)) in
  records ← mapM decode_receipt rows;
  let more := page_size <? Z.of_nat (length records) in
  Ok (mkReceiptPage (if more then removelast records else records) more).
End Store.

(** * Failures as the executors see them *)

Inductive ToolAuthorizationReceiptSinkFailure := SinkUnavailable | SinkRejected.
Definition receipt_sink_failure (e : StoreError) : ToolAuthorizationReceiptSinkFailure :=
  match e with
  | Database _ | Migration | UnsupportedServerVersion | SchemaNotMigrated | IncompatibleSchema | IncompleteSchema => SinkUnavailable
  | _ => SinkRejected
  end.

Inductive SkillActivationStoreFailure := StoreUnavailable | StoreNotFound | StoreInactive | StoreRejected.
Definition store_error (e : StoreError) : SkillActivationStoreFailure :=
  match e with
  | SkillActingWindowNotFound => StoreNotFound
  | SkillActingWindowInactive => StoreInactive
  | Database _ | Migration | UnsupportedServerVersion | SchemaNotMigrated | IncompatibleSchema | IncompleteSchema => StoreUnavailable
  | _ => StoreRejected
  end.
End AuthorizationStore.
