(* ===== verification/AuthorizationLaws.v ===== *)
(** Laws of durable authorization ([Authorization.v] and [AuthorizationStore.v]):
    evidence restores to itself and its digest names it; a window admits exactly
    while it is neither expired nor revoked; a receipt is recorded only at the
    boundary of its invocation and under a live window of the same scope and
    subject, stays idempotent, and nothing passes a window once it is revoked. *)

From Stdlib Require Import ZArith Lia List.
From stdpp Require Import prelude gmap.
From S2P Require Import Prelude Json Time Content Capability Checkpoint Tool ToolInvocation ToolInvocationLaws StoreErrors Authorization AuthorizationStore.

Open Scope Z_scope.
Import Timestamp(Timestamp).

Module AuthorizationLaws.
Import Content Capability Tools Authorizations AuthorizationStore.

(** * Evidence restores to itself *)

Section Evidence.
Context `{!Canonical SkillAuthorizationSubject, !Canonical ApprovalPreimage, !Canonical ActingPreimage, !Canonical RevocationPreimage}.
Context `{!Canonical ReceiptPreimage, !Canonical WindowPreimage}.
Variable sha256 : bytes -> bytes.

Lemma receipt_new_restores b r : receipt_new sha256 b = Ok r -> receipt_restore sha256 r = Ok r /\ body r = b.
Proof.
  intros Hr. pose proof Hr as (d & Hd & [= <-])%bind_Ok. unfold receipt_restore. simpl. rewrite Hr. simpl. by rewrite bool_decide_true.
Qed.

Lemma receipt_window_restores b r id r' :
  receipt_new sha256 b = Ok r -> with_authorization_window sha256 r id = Ok r' -> receipt_restore sha256 r' = Ok r' /\ body r' = b.
Proof.
  intros Hr Hw. pose proof Hr as (d & Hd & [= <-])%bind_Ok. pose proof Hw as (d' & Hd' & [= <-])%bind_Ok. unfold receipt_restore. simpl in *.
  rewrite Hr. simpl. rewrite Hw. simpl. by rewrite bool_decide_true.
Qed.

Lemma revocation_restores p v : revocation_new sha256 p = Ok v -> revocation_restore sha256 v = Ok v /\ revoked v = p.
Proof.
  intros Hv. pose proof Hv as (d & Hd & [= <-])%bind_Ok. unfold revocation_restore. simpl. rewrite Hv. simpl. by rewrite bool_decide_true.
Qed.

Lemma window_new_Ok p w :
  window_new sha256 p = Ok w <->
  expires_at p = opened_at p + requested_duration (approved (approval p)) * 1000 /\
  i64_in_range (requested_duration (approved (approval p)) * 1000) = true /\ i64_in_range (expires_at p) = true /\
  exists d, digest_canonical sha256 Encoding WINDOW_DIGEST_DOMAIN p = Ok d /\ w = mkWindow p d.
Proof.
  unfold window_new. destruct (i64_in_range (_ * 1000)); simpl; [| split; [done | by intros (_ & ? & _)]].
  destruct (i64_in_range (opened_at p + _)) eqn:E2; simpl; [| split; [done | intros (-> & _ & ? & _); congruence]].
  destruct (Z.eqb_spec (expires_at p) (opened_at p + requested_duration (approved (approval p)) * 1000)) as [E3|E3]; simpl; [| split; [done | tauto]].
  rewrite bind_Ok. split.
  - intros (d & Hd & [= <-]). rewrite E3. eauto 6.
  - intros (_ & _ & _ & d & Hd & ->). eauto.
Qed.

Lemma window_restores p w : approval_restore sha256 (approval p) = Ok (approval p) -> window_new sha256 p = Ok w -> window_restore sha256 w = Ok w.
Proof.
  intros Ha Hw. pose proof Hw as (_ & _ & _ & d & _ & ->)%window_new_Ok. unfold window_restore. simpl. rewrite Ha. simpl. rewrite Hw. simpl.
  by rewrite bool_decide_true.
Qed.

(** What a restored approval guarantees. *)
Lemma approval_duration a : approval_restore sha256 a = Ok a -> MIN_MILLIS <= requested_duration (approved a) <= MAX_MILLIS.
Proof.
  unfold approval_restore. intros (? & _ & (v & Hv & _)%bind_Ok)%bind_Ok. unfold window_duration_new in Hv.
  destruct (Z.ltb_spec (requested_duration (approved a)) MIN_MILLIS); [done |]. simpl in Hv.
  destruct (Z.ltb_spec MAX_MILLIS (requested_duration (approved a))); [done |]. lia.
Qed.
End Evidence.

(** * Domain separation *)

Definition DOMAINS : list bytes :=
  [RECEIPT_DIGEST_DOMAIN; WINDOW_RECEIPT_DIGEST_DOMAIN; DESCRIPTOR_DIGEST_DOMAIN; INPUT_DIGEST_DOMAIN; APPROVAL_DIGEST_DOMAIN;
   WINDOW_DIGEST_DOMAIN; REVOCATION_DIGEST_DOMAIN; SUBJECT_DIGEST_DOMAIN].

Lemma domains_prefix_free d1 d2 : d1 ∈ DOMAINS -> d2 ∈ DOMAINS -> prefix d1 d2 -> d1 = d2.
Proof.
  assert (HB : forallb (fun x => forallb (fun y => bool_decide (prefix x y -> x = y)) DOMAINS) DOMAINS = true) by (vm_compute; reflexivity).
  rewrite forallb_forall in HB. intros H1 H2. apply list_elem_of_In in H1, H2. specialize (HB d1 H1). rewrite forallb_forall in HB.
  specialize (HB d2 H2). by apply bool_decide_eq_true in HB.
Qed.

(** Preimages of different domains differ, and within one domain they name the value. *)
Lemma preimage_inj {T U} `{Canonical T, Canonical U} d1 d2 (x : T) (y : U) b :
  d1 ∈ DOMAINS -> d2 ∈ DOMAINS -> preimage d1 x = Some b -> preimage d2 y = Some b -> d1 = d2 /\ to_vec x = to_vec y.
Proof.
  unfold preimage. intros H1 H2. destruct (to_vec x) as [cx|]; [| done]. destruct (to_vec y) as [cy|]; [| done]. intros [= <-] [= He].
  assert (E : d1 = d2).
  { destruct (Nat.le_ge_cases (length d1) (length d2)) as [Hl|Hl].
    - apply domains_prefix_free; [done | done |]. exists (drop (length d1) d2). pose proof (f_equal (take (length d1)) He) as Ht.
      rewrite (take_app_length d1), take_app_le in Ht by done. rewrite <- Ht at 1. by rewrite take_drop.
    - symmetry. apply domains_prefix_free; [done | done |]. exists (drop (length d2) d1). pose proof (f_equal (take (length d2)) He) as Ht.
      rewrite (take_app_length d2), take_app_le in Ht by done. rewrite Ht at 1. by rewrite take_drop. }
  subst. apply app_inv_head in He. split; [done | congruence].
Qed.

(** * The store *)

Section Store.
Context `{!Canonical SkillAuthorizationSubject, !Canonical ApprovalPreimage, !Canonical ActingPreimage, !Canonical RevocationPreimage}.
Context `{!Canonical SkillActivationApproval, !Canonical SkillActingWindow, !Canonical SkillActingWindowRevocation}.
Context `{!FromSlice SkillActivationApproval, !FromSlice SkillActingWindow, !FromSlice SkillActingWindowRevocation}.
Context `{!Canonical ToolDescriptor, !Canonical ToolInput, !Canonical ReceiptPreimage, !Canonical WindowPreimage, !Canonical ToolAuthorizationReceipt}.
Context `{!Canonical ToolInvocations.ToolInvocationIntentDigestWire, !Canonical ToolInvocations.ToolInvocationIntent}.
Context `{!FromSlice ToolAuthorizationReceipt, !FromSlice ToolInvocations.ToolInvocationIntent}.
Variable sha256 : bytes -> bytes.

(** Evidence is only ever added. *)
Record grows (db db' : Db) : Prop := {
  gr_approvals : approvals db ⊆ approvals db';
  gr_windows : windows db ⊆ windows db';
  gr_revocations : revocations db ⊆ revocations db';
  gr_receipts : receipts db ⊆ receipts db'
}.

#[local] Instance grows_refl : Reflexive grows.
Proof. intros db. by constructor. Qed.
#[local] Instance grows_trans : Transitive grows.
Proof. intros a b c [] []. constructor; by etrans. Qed.

(** The row of a window opened now. *)
Definition window_row (w : SkillActingWindow) (d b : bytes) : WindowRow :=
  let sc := window_scope w in
  mkWindowRow (sc_tenant_id sc) (window_id (acting w)) (approval_id (approved (approval (acting w)))) (sc_run_id sc) (sc_thread_id sc) d
    (opened_at (acting w)) (expires_at (acting w)) (window_digest w) b (sha256 b).

Definition window_key (w : SkillActingWindow) : Key := (sc_tenant_id (window_scope w), window_id (acting w)).

Lemma record_approval_Ok db a b db' :
  record_approval sha256 db a b = Ok db' ->
  windows db' = windows db /\ revocations db' = revocations db /\ receipts db' = receipts db /\ approvals db ⊆ approvals db'.
Proof.
  unfold record_approval. destruct (approvals db !! _) as [e|] eqn:E.
  - case_match; [done |]. intros (st & _ & Hs)%bind_Ok. destruct (negb (bool_decide (st = a))); [done |]. by injection Hs as <-.
  - case_match; [done |]. intros [= <-]. simpl. split_and!; try done. by apply insert_subseteq.
Qed.

(** A freshly opened window. *)
Record opens (db : Db) (req : SkillActingWindowOpenRequest) (now later : Z) (w : SkillActingWindow) (db' : Db) : Prop := {
  op_id : window_id (acting w) = open_window_id req /\ approval (acting w) = open_approval req;
  op_fresh : windows db !! window_key w = None;
  op_parent : validate_parent sha256 db (open_approval req) now = Ok tt;
  op_clock : opened_at (acting w) = later /\ Timestamp.valid (opened_at (acting w)) /\ Timestamp.valid (expires_at (acting w));
  op_new : window_new sha256 (acting w) = Ok w;
  op_approval : approval_used db (sc_tenant_id (window_scope w)) (approval_id (approved (approval (acting w)))) = false;
  op_row : exists d b, to_vec w = Some b /\ oversized b MAX_WINDOW_BYTES = false /\
             subject_digest (E := StoreError) sha256 (window_subject w) = Ok d /\
             windows db' = <[window_key w := window_row w d b]> (windows db);
  op_rest : revocations db' = revocations db /\ receipts db' = receipts db /\ approvals db ⊆ approvals db'
}.

Lemma from_micros_valid v t : Timestamp.from_unix_micros v = Ok t -> t = v /\ Timestamp.valid t.
Proof.
  unfold Timestamp.from_unix_micros, Timestamp.valid. destruct (Z.ltb_spec v Timestamp.MIN); [done |].
  destruct (Z.ltb_spec Timestamp.MAX v); [done |]. intros [= <-]. done.
Qed.

Lemma open_Ok db req now later w db' :
  open_skill_acting_window sha256 db req now later = Ok (w, db') ->
  (exists row, windows db !! (sc_tenant_id (scope (approved (open_approval req))), open_window_id req) = Some row /\
     decode_window sha256 row = Ok w /\ approval (acting w) = open_approval req /\
     locked_window_inactive db (sc_tenant_id (scope (approved (open_approval req))), open_window_id req) (wr_expires_at row) now = false /\ db' = db) \/
  opens db req now later w db'.
Proof.
  unfold open_skill_acting_window. set (key := (_, open_window_id req)). destruct (windows db !! key) as [row|] eqn:E.
  - intros (st & Hst & Ho)%bind_Ok. left. exists row. destruct (bool_decide_reflect (approval (acting st) = open_approval req)); simpl in Ho; [| done].
    destruct (locked_window_inactive _ _ _ _) eqn:El; [done |]. by injection Ho as <- <-.
  - intros ([] & Hp & Ho)%bind_Ok. right. apply bind_Ok in Ho as (opened & Hop & Ho). apply map_err_Ok, map_err_Ok, from_micros_valid in Hop as [-> Hv].
    destruct (i64_in_range (_ * 1000)); simpl in Ho; [| done]. destruct (i64_in_range (later + _)); simpl in Ho; [| done].
    apply bind_Ok in Ho as (ex & Hex & Ho). apply map_err_Ok, from_micros_valid in Hex as [_ Hexv].
    apply bind_Ok in Ho as (w1 & Hw & Ho). apply map_err_Ok in Hw. pose proof Hw as (_ & _ & _ & wd & _ & Hw1)%window_new_Ok.
    apply bind_Ok in Ho as (ab & _ & Ho). apply bind_Ok in Ho as (wb & Hwb & Ho). apply map_err_Ok in Hwb.
    apply bind_Ok in Ho as (d & Hd & Ho). apply bind_Ok in Ho as (db1 & Hr & Ho). apply record_approval_Ok in Hr as (R1 & R2 & R3 & R4).
    destruct (approval_used db1 _ _) eqn:Eu; [done |]. injection Ho as <- <-. unfold encode in Hwb. apply bind_Ok in Hwb as (b & Hb & Hwb).
    apply ok_or_Ok in Hb. destruct (oversized b MAX_WINDOW_BYTES) eqn:Eo; [done |]. injection Hwb as ->. rewrite Hw1 in *. constructor; simpl; try done.
    + unfold approval_used in *. by rewrite <- R1.
    + exists d, wb. rewrite R1. done.
Qed.

(** ** What each transaction established *)

Lemma revoke_Ok db w reason now v db' :
  revoke_skill_acting_window sha256 db w reason now = Ok (v, db') ->
  (exists row, windows db !! window_key w = Some row /\ decode_window sha256 row = Ok w) /\ grows db db' /\
  windows db' = windows db /\ is_Some (revocations db' !! window_key w).
Proof.
  unfold revoke_skill_acting_window. intros (row & Hrow & Hv)%bind_Ok. apply ok_or_Ok in Hrow. apply bind_Ok in Hv as (st & Hst & Hv).
  case_bool_decide as Es; simpl in Hv; [| done]. subst st. split; [eauto |].
  destruct (revocations db !! _) as [b|] eqn:E.
  - apply bind_Ok in Hv as (ex & _ & Hv). destruct (negb _); [done |]. injection Hv as <- <-. split_and!; [done | done |]. by exists b.
  - apply bind_Ok in Hv as (at_ & _ & Hv). apply bind_Ok in Hv as (rv & _ & Hv). apply bind_Ok in Hv as (b & _ & Hv). injection Hv as <- <-.
    split_and!; [| done |].
    + constructor; simpl; try done. by apply insert_subseteq.
    + simpl. exists b. apply lookup_insert_eq.
Qed.

(** A window that admits: its row decodes to it, its time has not come and it is not revoked. *)
Record live (db : Db) (key : Key) (now : Z) (w : SkillActingWindow) : Prop := {
  lv_row : exists row, windows db !! key = Some row /\ decode_window sha256 row = Ok w /\ now < wr_expires_at row;
  lv_unrevoked : revocations db !! key = None
}.

Lemma load_Ok db tenant id now w : load_locked_active sha256 db tenant id now = Ok w <-> live db (tenant, id) now w.
Proof.
  unfold load_locked_active. split.
  - intros (row & Hrow & Hw)%bind_Ok. apply ok_or_Ok in Hrow. apply bind_Ok in Hw as (w' & Hw' & Hl).
    destruct (locked_window_inactive _ _ _ _) eqn:El; [done |]. injection Hl as ->. unfold locked_window_inactive in El.
    apply orb_false_iff in El as [El Er]. apply Z.leb_gt in El. apply bool_decide_eq_false in Er. split; [eauto |].
    by apply eq_None_not_Some.
  - intros [(row & Hrow & Hw & Hl) Hr]. rewrite (Hrow : windows db !! (tenant, id) = Some row). simpl. rewrite Hw. simpl.
    enough (locked_window_inactive db (tenant, id) (wr_expires_at row) now = false) as -> by done. unfold locked_window_inactive.
    apply orb_false_iff. split; [by apply Z.leb_gt |]. apply bool_decide_eq_false. intros [x Hx]. by rewrite Hr in Hx.
Qed.

(** The decoded window says what its row says. *)
Lemma decode_window_Ok row w :
  decode_window sha256 row = Ok w ->
  window_restore sha256 w = Ok w /\ wr_tenant_id row = sc_tenant_id (window_scope w) /\ wr_window_id row = window_id (acting w) /\
  wr_approval_id row = approval_id (approved (approval (acting w))) /\ wr_expires_at row = expires_at (acting w).
Proof.
  unfold decode_window. intros (w' & Hw' & Hd)%bind_Ok. apply map_err_Ok in Hw'. unfold decode in Hw'.
  destruct (oversized _ _); [done |]. apply bind_Ok in Hw' as (wire & _ & Hw'). apply map_err_Ok in Hw'.
  case_bool_decide as E1; simpl in Hd; [| done]. destruct (Z.eqb_spec (wr_window_id row) (window_id (acting w'))) as [E2|]; simpl in Hd; [| done].
  destruct (Z.eqb_spec (wr_approval_id row) (approval_id (approved (approval (acting w'))))) as [E3|]; simpl in Hd; [| done].
  destruct (negb (wr_run_id row =? _) || _); [done |].
  apply bind_Ok in Hd as (d1 & _ & Hd). apply bind_Ok in Hd as (d2 & _ & Hd). destruct (negb (bool_decide (d1 = d2))); [done |].
  apply bind_Ok in Hd as (o & Ho & Hd). destruct (negb (o =? _)); [done |].
  apply bind_Ok in Hd as (e & He & Hd). apply map_err_Ok, map_err_Ok, from_micros_valid in He as [-> _].
  destruct (Z.eqb_spec (wr_expires_at row) (expires_at (acting w'))) as [E4|]; simpl in Hd; [| done].
  apply bind_Ok in Hd as (d3 & _ & Hd). destruct (negb (bool_decide (d3 = _))); [done |].
  apply bind_Ok in Hd as (d4 & _ & Hd). destruct (negb (bool_decide (_ = d4))); [done |]. injection Hd as <-.
  split; [| done]. pose proof Hw' as (a & Ha & Hn)%bind_Ok. apply bind_Ok in Hn as (v & Hn & Hv).
  pose proof Hn as (_ & _ & _ & d & _ & ->)%window_new_Ok. simpl in Hv. case_bool_decide as Ew; simpl in Hv; [| done].
  injection Hv as <-. destruct wire as [p dw]. simpl in *. by subst d.
Qed.

(** The invocation as it stands when the operation is authorized: its stored intent
    is the canonical one the receipt digests, the attempt is current at the journal
    event the receipt names, and its status is the one the operation needs. *)
Record at_boundary (r : ToolAuthorizationReceipt) (row : BoundaryRow) (intent : ToolInvocations.ToolInvocationIntent) : Prop := {
  ab_intent : to_vec intent = Some (br_intent_bytes row) /\ exists wire, ToolInvocations.intent_restore sha256 wire = Ok intent;
  ab_scope : ToolInvocations.intent_tenant_id intent = ap_tenant_id (provenance (body r)) /\
             ToolInvocations.intent_run_id intent = ap_run_id (provenance (body r)) /\
             ToolInvocations.invocation_id intent = ap_invocation_id (provenance (body r)) /\
             br_thread_id row = ap_thread_id (provenance (body r));
  ab_attempt : br_current_attempt_id row = Some (ap_attempt_id (provenance (body r))) /\
               br_journal_event_id row = ap_origin_event_id (provenance (body r));
  ab_status : br_current_status row = expected_status (operation (body r));
  ab_tool : tool_identity (ToolInvocations.descriptor intent) = tool (body r) /\
            digest_descriptor sha256 (ToolInvocations.descriptor intent) = Ok (descriptor_digest (body r)) /\
            digest_input sha256 (ToolInvocations.input intent) = Ok (input_digest (body r))
}.

Lemma validate_boundary_Ok r row : validate_boundary sha256 r row = Ok tt -> exists intent, at_boundary r row intent.
Proof.
  unfold validate_boundary. intros Hv. destruct (oversized _ _); [done |]. apply bind_Ok in Hv as (wire & _ & Hv).
  apply bind_Ok in Hv as (intent & Hi & Hv). apply map_err_Ok in Hi. apply bind_Ok in Hv as (c & Hc & Hv). apply ok_or_Ok in Hc.
  case_bool_decide as E1; simpl in Hv; [| done]. destruct (_ || negb (bool_decide (tool_identity _ = _))) eqn:E2; [done |]. repeat setoid_rewrite orb_false_iff in E2.
  repeat setoid_rewrite negb_false_iff in E2. repeat setoid_rewrite Z.eqb_eq in E2. repeat setoid_rewrite bool_decide_eq_true in E2.
  destruct E2 as [[[[[[[? ?] ?] ?] ?] ?] ?] ?]. apply bind_Ok in Hv as (dd & Hd & Hv). apply map_err_Ok in Hd.
  case_bool_decide as E3; simpl in Hv; [| done]. apply bind_Ok in Hv as (di & Hdi & Hv). apply map_err_Ok in Hdi.
  case_bool_decide as E4; simpl in Hv; [| done]. exists intent. constructor; try done.
  - rewrite <- E1. eauto.
  - by rewrite <- E3, <- E4.
Qed.

(** The window a receipt names admits its run, thread and subject. *)
Record under_window (db : Db) (r : ToolAuthorizationReceipt) (now id : Z) (w : SkillActingWindow) : Prop := {
  uw_live : live db (ap_tenant_id (provenance (body r)), id) now w;
  uw_scope : window_scope w = mkScope (ap_tenant_id (provenance (body r))) (ap_run_id (provenance (body r))) (ap_thread_id (provenance (body r)));
  uw_subject : subject_digest (E := StoreError) sha256 (window_subject w) = Ok (subject_digest_of (body r))
}.

(** Rows are stored under the tenant and identifier they carry. *)
Definition keyed (db : Db) : Prop := forall key row, windows db !! key = Some row -> (wr_tenant_id row, wr_window_id row) = key.

Lemma live_key db key now w : keyed db -> live db key now w -> window_key w = key.
Proof.
  intros Hk [(row & Hrow & Hw & _) _]. apply Hk in Hrow as <-. apply decode_window_Ok in Hw as (_ & -> & -> & _). done.
Qed.

Lemma validate_receipt_window_Ok db r now :
  keyed db -> validate_receipt_window sha256 db r now = Ok tt -> forall id, authorization_window_id r = Some id -> exists w, under_window db r now id w.
Proof.
  unfold validate_receipt_window. intros Hk Hv id Hid. rewrite Hid in Hv. apply bind_Ok in Hv as (w & Hw & Hv). apply load_Ok in Hw.
  destruct (negb _ || _) eqn:E; [done |]. apply orb_false_iff in E as [E1%negb_false_iff%Z.eqb_eq E2%negb_false_iff%Z.eqb_eq].
  apply bind_Ok in Hv as (d & Hd & Hv). case_bool_decide as E3; simpl in Hv; [| done]. exists w. constructor; [done | | by rewrite Hd, E3].
  apply live_key in Hw as [= Ht _]; [| done]. destruct (window_scope w). simpl in *. by subst.
Qed.

(** A receipt admitted to the store. *)
Record admits (db : Db) (r : ToolAuthorizationReceipt) (now later : Z) (db' : Db) : Prop := {
  ad_window : keyed db -> forall id, authorization_window_id r = Some id -> exists w, under_window db r now id w;
  ad_boundary : exists row intent, at_boundary r row intent /\
    boundaries db !! (ap_tenant_id (provenance (body r)), ap_run_id (provenance (body r)), ap_invocation_id (provenance (body r))) = Some row;
  ad_fresh : receipts db !! receipt_key r = None;
  ad_clock : authorized_at (body r) <= later;
  ad_row : exists b, encode_receipt r = Ok b /\ confirm_receipt sha256 (receipt_row sha256 r b later) r b = Ok tt /\
             receipts db' = <[receipt_key r := receipt_row sha256 r b later]> (receipts db);
  ad_rest : approvals db' = approvals db /\ windows db' = windows db /\ revocations db' = revocations db
}.

Lemma record_Ok observed db r now later out db' :
  record_tool_authorization_receipt sha256 observed db r now later = Ok (out, db') ->
  out = Idempotent /\ db' = db \/ out = Recorded /\ admits db r now later db'.
Proof.
  unfold record_tool_authorization_receipt. intros (b & Hb & Hr)%bind_Ok. apply map_err_Ok in Hb.
  destruct (receipts observed !! _) as [row|]. { apply bind_Ok in Hr as (_ & _ & [= <- <-]). by left. }
  apply bind_Ok in Hr as ([] & Hw & Hr). apply bind_Ok in Hr as (bd & Hbd & Hr). apply ok_or_Ok in Hbd.
  apply bind_Ok in Hr as ([] & Hvb & Hr). apply map_err_Ok, validate_boundary_Ok in Hvb as [intent Hi].
  apply bind_Ok in Hr as ([ins db1] & Hins & Hr). apply map_err_Ok in Hins. unfold insert_receipt in Hins.
  destruct (receipts db !! receipt_key r) as [x|] eqn:E.
  - injection Hins as <- <-. apply bind_Ok in Hr as (row & _ & Hr). apply bind_Ok in Hr as (_ & _ & [= <- <-]). by left.
  - destruct (Z.ltb_spec later (authorized_at (body r))); [done |]. injection Hins as <- <-. simpl in Hr. rewrite lookup_insert_eq in Hr. simpl in Hr.
    apply bind_Ok in Hr as ([] & Hc & [= <- <-]). apply map_err_Ok in Hc. right. split; [done |].
    constructor; simpl; eauto using validate_receipt_window_Ok.
Qed.

(** ** Histories *)

(** Committed transactions, and changes of the invocations and runs beside them.
    An approval is constructed or decoded, so it is sealed and its duration within
    bounds; the first lookup of a receipt reads an earlier state. *)
Inductive step : Db -> Db -> Prop :=
| step_open db request now later w db' :
    approval_restore sha256 (open_approval request) = Ok (open_approval request) ->
    open_skill_acting_window sha256 db request now later = Ok (w, db') -> step db db'
| step_revoke db w reason now v db' : revoke_skill_acting_window sha256 db w reason now = Ok (v, db') -> step db db'
| step_record observed db r now later out db' :
    grows observed db -> record_tool_authorization_receipt sha256 observed db r now later = Ok (out, db') -> step db db'
| step_other db bs ts : step db (mkDb (approvals db) (windows db) (revocations db) (receipts db) bs ts).

Definition reachable : Db -> Prop := rtc step db_empty.

Lemma open_grows db req now later w db' : open_skill_acting_window sha256 db req now later = Ok (w, db') -> grows db db'.
Proof.
  intros [(row & _ & _ & _ & _ & ->)|[_ Hf _ _ _ _ (d & b & _ & _ & _ & Hw) (Hr & Hc & Ha)]]%open_Ok; [done |].
  constructor; [done | | by rewrite Hr | by rewrite Hc]. rewrite Hw. by apply insert_subseteq.
Qed.

Lemma record_grows observed db r now later out db' :
  record_tool_authorization_receipt sha256 observed db r now later = Ok (out, db') -> grows db db'.
Proof.
  intros [[_ ->]|[_ [_ _ Hf _ (b & _ & _ & Hr) (Ha & Hw & Hv)]]]%record_Ok; [done |].
  constructor; [by rewrite Ha | by rewrite Hw | by rewrite Hv |]. rewrite Hr. by apply insert_subseteq.
Qed.

Lemma step_grows db db' : step db db' -> grows db db'.
Proof.
  intros [? ? ? ? ? ? _ Ho|? ? ? ? ? ? Hv|? ? ? ? ? ? ? _ Hr|? ? ?].
  - by eapply open_grows.
  - by apply revoke_Ok in Hv as (_ & ? & _).
  - by eapply record_grows.
  - by constructor.
Qed.

Lemma steps_grow db db' : rtc step db db' -> grows db db'.
Proof. induction 1 as [|? ? ? Hs%step_grows]; [done | by etrans]. Qed.

Lemma step_keyed db db' : keyed db -> step db db' -> keyed db'.
Proof.
  intros Hk Hs. revert Hk. destruct Hs as [? ? ? ? ? ? _ Ho|? ? ? ? ? ? Hv|? ? ? ? ? ? ? _ Hr|? ? ?]; intros Hk.
  - apply open_Ok in Ho as [(row & _ & _ & _ & _ & ->)|[_ _ _ _ _ _ (d & b & _ & _ & _ & Hw) _]]; [done |].
    intros key row. rewrite Hw. rewrite lookup_insert_Some. intros [[<- <-]|[_ Hrow]]; [done | by apply Hk].
  - apply revoke_Ok in Hv as (_ & _ & Hw & _). intros key row. rewrite Hw. apply Hk.
  - apply record_Ok in Hr as [[_ ->]|[_ [_ _ _ _ _ (_ & Hw & _)]]]; [done |]. intros key row. rewrite Hw. apply Hk.
  - done.
Qed.

Lemma steps_keyed db db' : keyed db -> rtc step db db' -> keyed db'.
Proof. intros Hk. induction 1 as [|? ? ? Hs]; eauto using step_keyed. Qed.

Lemma reachable_keyed db : reachable db -> keyed db.
Proof. apply steps_keyed. intros key row. simpl. by rewrite lookup_empty. Qed.

(** A revoked window admits nothing. *)
Lemma revoked_not_live db key now w : is_Some (revocations db !! key) -> ~ live db key now w.
Proof. intros [b Hb] [_ Hl]. congruence. Qed.

Lemma revoked_opens db key req now later w db' :
  keyed db -> is_Some (windows db !! key) -> is_Some (revocations db !! key) ->
  open_skill_acting_window sha256 db req now later = Ok (w, db') ->
  window_key w <> key /\ (db' = db \/ forall id, source (approved (open_approval req)) = Nested id ->
    (sc_tenant_id (scope (approved (open_approval req))), id) <> key).
Proof.
  intros Hk [row0 Hw0] Hv [(row & Hrow & Hw & _ & Hl & ->)|[_ Hf Hp _ _ _ _ _]]%open_Ok.
  - split; [| by left]. pose proof (Hk _ _ Hrow) as Hkey. apply decode_window_Ok in Hw as (_ & E1 & E2 & _). intros <-.
    assert (Hkw : window_key w = (sc_tenant_id (scope (approved (open_approval req))), open_window_id req)).
    { unfold window_key. rewrite <- E1, <- E2. exact Hkey. }
    rewrite Hkw in Hv. unfold locked_window_inactive in Hl. apply orb_false_iff in Hl as [_ Hl]. by apply bool_decide_eq_false in Hl.
  - split; [intros <-; congruence |]. right. intros id Hs Hkey. unfold validate_parent in Hp. rewrite Hs in Hp.
    apply bind_Ok in Hp as (parent & Hload & _). apply load_Ok in Hload. eapply revoked_not_live; [| done]. by rewrite Hkey.
Qed.

(** C10: Once a window is revoked, in every later state it is neither loaded nor
    revalidated, it is not returned to a retried opening, no window opens under it
    and no new receipt names it. *)
Theorem revocation_final db w reason now v db1 db2 :
  reachable db -> revoke_skill_acting_window sha256 db w reason now = Ok (v, db1) -> rtc step db1 db2 ->
  (forall t w', load_active_skill_acting_window sha256 db2 (sc_tenant_id (window_scope w)) (window_id (acting w)) t <> Ok w') /\
  (forall t, assert_skill_acting_window_active sha256 db2 w t <> Ok tt) /\
  (forall req t t' w' db3, open_skill_acting_window sha256 db2 req t t' = Ok (w', db3) ->
     window_key w' <> window_key w /\
     (db3 = db2 \/ forall id, source (approved (open_approval req)) = Nested id ->
        (sc_tenant_id (scope (approved (open_approval req))), id) <> window_key w)) /\
  (forall observed r t t' db3 id, record_tool_authorization_receipt sha256 observed db2 r t t' = Ok (Recorded, db3) ->
     authorization_window_id r = Some id -> (ap_tenant_id (provenance (body r)), id) <> window_key w).
Proof.
  intros Hr Hv Hs. pose proof (reachable_keyed _ Hr) as Hk. pose proof (step_revoke _ _ _ _ _ _ Hv) as Hs1.
  pose proof (steps_keyed _ _ (step_keyed _ _ Hk Hs1) Hs) as Hk2. apply revoke_Ok in Hv as ((row & Hrow & _) & _ & Hw1 & [b Hb]).
  pose proof (steps_grow _ _ Hs) as [_ Gw Gr _]. assert (Hw2 : is_Some (windows db2 !! window_key w)).
  { exists row. eapply lookup_weaken; [| exact Gw]. by rewrite Hw1. }
  assert (Hr2 : is_Some (revocations db2 !! window_key w)) by (exists b; by eapply lookup_weaken).
  assert (Hn : forall t w', load_active_skill_acting_window sha256 db2 (sc_tenant_id (window_scope w)) (window_id (acting w)) t <> Ok w').
  { intros t w' Hl%load_Ok. by eapply revoked_not_live. }
  split_and!; [done | | |].
  - intros t (w' & Hl & _)%bind_Ok. by eapply Hn.
  - intros req t t' w' db3. by apply revoked_opens.
  - intros observed r t t' db3 id [[? _]|[_ Ha]]%record_Ok Hid Hkey; [done |]. destruct (ad_window _ _ _ _ _ Ha Hk2 id Hid) as (w' & Hu).
    eapply revoked_not_live; [| exact (uw_live _ _ _ _ _ Hu)]. by rewrite Hkey.
Qed.

(** A receipt is recorded only under the live window it names and at the exact
    boundary of its invocation; from then on recording it again confirms it,
    whatever became of the window and the invocation, and no other receipt takes
    its identifier. *)
Theorem receipt_recorded_once observed db r now later db1 :
  reachable db -> record_tool_authorization_receipt sha256 observed db r now later = Ok (Recorded, db1) ->
  ((forall id, authorization_window_id r = Some id -> exists w, under_window db r now id w) /\
   (exists row intent, at_boundary r row intent /\
      boundaries db !! (ap_tenant_id (provenance (body r)), ap_run_id (provenance (body r)), ap_invocation_id (provenance (body r))) = Some row) /\
   authorized_at (body r) <= later) /\
  forall db2 observed' t t', rtc step db1 db2 -> grows db1 observed' ->
    record_tool_authorization_receipt sha256 observed' db2 r t t' = Ok (Idempotent, db2) /\
    forall r' out, receipt_key r' = receipt_key r -> record_tool_authorization_receipt sha256 observed' db2 r' t t' = Ok out -> r' = r.
Proof.
  intros Hr [[? _]|[_ Ha]]%record_Ok; [done |]. pose proof (reachable_keyed _ Hr) as Hk. split.
  { split_and!; [exact (ad_window _ _ _ _ _ Ha Hk) | exact (ad_boundary _ _ _ _ _ Ha) | exact (ad_clock _ _ _ _ _ Ha)]. }
  intros db2 observed' t t' _ [_ _ _ Gr]. destruct (ad_row _ _ _ _ _ Ha) as (b & Hb & Hc & Hrow).
  assert (Ho : receipts observed' !! receipt_key r = Some (receipt_row sha256 r b later)).
  { eapply lookup_weaken; [| exact Gr]. rewrite Hrow. apply lookup_insert_eq. }
  unfold record_tool_authorization_receipt. split.
  - rewrite Hb. simpl. rewrite Ho. rewrite Hc. done.
  - intros r' out Hkey (b' & _ & Hrec)%bind_Ok. rewrite Hkey, Ho in Hrec. apply bind_Ok in Hrec as ([] & Hc' & _). apply map_err_Ok in Hc'.
    apply bind_Ok in Hc as (s1 & Hs1 & Hc). apply bind_Ok in Hc' as (s2 & Hs2 & Hc'). assert (s2 = s1) as -> by congruence.
    case_bool_decide as E1; simpl in Hc; [| done]. case_bool_decide as E2; simpl in Hc'; [| done]. congruence.
Qed.

(** ** Windows *)

Section Windows.
Hypothesis digest_length : forall b, length (sha256 b) = DIGEST_LEN.
Hypothesis window_serde : forall (w : SkillActingWindow) b, to_vec w = Some b -> from_slice b = Some w.

Lemma decode_digest_Ok b (c : bytes) : length b = DIGEST_LEN -> decode_digest b c = Ok b.
Proof. intros Hl. unfold decode_digest. by rewrite Hl. Qed.

Lemma from_database_time_Ok t : Timestamp.valid t -> from_database_time t = Ok t.
Proof.
  unfold Timestamp.valid, from_database_time, Timestamp.from_unix_micros. intros [H1 H2].
  destruct (Z.ltb_spec t Timestamp.MIN); [lia |]. destruct (Z.ltb_spec Timestamp.MAX t); [lia |]. done.
Qed.

Lemma digest_canonical_length {T E} `{Canonical T} (e : E) dom (x : T) d : digest_canonical sha256 e dom x = Ok d -> length d = DIGEST_LEN.
Proof. intros (b & _ & [= <-])%bind_Ok. apply digest_length. Qed.

Lemma window_row_decodes w d b :
  window_restore sha256 w = Ok w -> length (window_digest w) = DIGEST_LEN -> Timestamp.valid (opened_at (acting w)) -> Timestamp.valid (expires_at (acting w)) ->
  to_vec w = Some b -> oversized b MAX_WINDOW_BYTES = false -> subject_digest (E := StoreError) sha256 (window_subject w) = Ok d ->
  decode_window sha256 (window_row w d b) = Ok w.
Proof.
  intros Hw Hl Ho He Hb Hs Hd. unfold decode_window, decode. simpl. rewrite Hs. rewrite (window_serde _ _ Hb). simpl. rewrite Hw. simpl.
  rewrite bool_decide_true by done. rewrite !Z.eqb_refl. simpl. rewrite (decode_digest_Ok d) by exact (digest_canonical_length _ _ _ _ Hd). simpl.
  rewrite Hd. simpl. rewrite bool_decide_true by done. simpl. rewrite (from_database_time_Ok _ Ho). simpl. rewrite Z.eqb_refl. simpl.
  rewrite (from_database_time_Ok _ He). simpl. rewrite Z.eqb_refl. simpl. rewrite (decode_digest_Ok (window_digest w)) by done. simpl.
  rewrite bool_decide_true by done. simpl. rewrite (decode_digest_Ok (sha256 b)) by done. simpl. by rewrite bool_decide_true.
Qed.

(** A stored window: it decodes, lasts what was approved, and nests under a window of its scope. *)
Record stored (db : Db) (key : Key) (row : WindowRow) (w : SkillActingWindow) : Prop := {
  st_decodes : decode_window sha256 row = Ok w;
  st_key : window_key w = key;
  st_length : expires_at (acting w) = opened_at (acting w) + requested_duration (approved (approval (acting w))) * 1000 /\
              MIN_MILLIS <= requested_duration (approved (approval (acting w))) <= MAX_MILLIS;
  st_parent : forall id, source (approved (approval (acting w))) = Nested id ->
    exists prow parent, windows db !! (key.1, id) = Some prow /\ decode_window sha256 prow = Ok parent /\ window_scope parent = window_scope w
}.

Lemma stored_mono db db' key row w : windows db ⊆ windows db' -> stored db key row w -> stored db' key row w.
Proof.
  intros Hg [? ? ? Hp]. constructor; [done | done | done |]. intros id Hid. destruct (Hp id Hid) as (prow & p & Hr & ? & ?).
  exists prow, p. split; [by eapply lookup_weaken | done].
Qed.

Lemma opens_stored db req now later w db' :
  approval_restore sha256 (open_approval req) = Ok (open_approval req) -> opens db req now later w db' ->
  exists row, windows db' !! window_key w = Some row /\ stored db' (window_key w) row w.
Proof.
  intros Hap [[_ Ha] Hf Hp (_ & Hov & Hev) Hn _ (d & b & Hb & Hs & Hd & Hw) _]. exists (window_row w d b). rewrite Hw. split; [apply lookup_insert_eq |].
  rewrite <- Ha in Hap, Hp. pose proof Hn as (He & _ & _ & wd & Hwd & Hweq)%window_new_Ok. constructor.
  - apply window_row_decodes; [by eapply window_restores | | done..]. rewrite Hweq. simpl. exact (digest_canonical_length _ _ _ _ Hwd).
  - done.
  - split; [done |]. by eapply approval_duration.
  - intros id Hid. unfold validate_parent in Hp. rewrite Hid in Hp. apply bind_Ok in Hp as (parent & Hl & Hp).
    apply load_Ok in Hl as [(prow & Hrow & Hdec & _) _]. case_bool_decide as Esc; simpl in Hp; [| done]. exists prow, parent.
    split; [| done]. rewrite Hw. eapply lookup_weaken; [exact Hrow |]. by apply insert_subseteq.
Qed.

(** Every row is a stored window, and an approval opens one window. *)
Record windows_ok (db : Db) : Prop := {
  wk_stored : forall key row, windows db !! key = Some row -> exists w, stored db key row w;
  wk_once : forall k1 k2 r1 r2, windows db !! k1 = Some r1 -> windows db !! k2 = Some r2 -> k1.1 = k2.1 -> wr_approval_id r1 = wr_approval_id r2 -> k1 = k2
}.

Lemma approval_unused db tenant id key row :
  approval_used db tenant id = false -> windows db !! key = Some row -> key.1 = tenant -> wr_approval_id row <> id.
Proof.
  unfold approval_used. intros Hu Hrow Ht Hid. apply not_true_iff_false in Hu. apply Hu. apply existsb_exists. exists (key, row).
  split; [apply list_elem_of_In, elem_of_map_to_list, Hrow |]. simpl. by rewrite bool_decide_true, Hid, Z.eqb_refl.
Qed.

Lemma windows_ok_same db db' : windows db' = windows db -> windows_ok db -> windows_ok db'.
Proof.
  intros E [Hs Ho]. constructor; rewrite E; [| done]. intros key row Hrow. destruct (Hs key row Hrow) as [w Hw]. exists w.
  eapply stored_mono; [| done]. by rewrite E.
Qed.

Lemma opens_ok db req now later w db' :
  approval_restore sha256 (open_approval req) = Ok (open_approval req) -> opens db req now later w db' -> windows_ok db -> windows_ok db'.
Proof.
  intros Hap Hop [Hs Ho]. pose proof (opens_stored _ _ _ _ _ _ Hap Hop) as (row & Hrow & Hst).
  destruct Hop as [_ Hf _ _ _ Hu (d & b & _ & _ & _ & Hw) _].
  assert (Hold : forall key r, key <> window_key w -> windows db' !! key = Some r -> windows db !! key = Some r).
  { intros key r Hk. rewrite Hw, lookup_insert_ne by done. done. }
  assert (Hnew : wr_approval_id row = approval_id (approved (approval (acting w)))).
  { rewrite Hw, lookup_insert_eq in Hrow. by injection Hrow as <-. }
  constructor.
  - intros key r Hr. destruct (decide (key = window_key w)) as [->|Hk]. { exists w. by rewrite Hrow in Hr; injection Hr as <-. }
    destruct (Hs key r (Hold _ _ Hk Hr)) as [w' Hw']. exists w'. eapply stored_mono; [| done]. rewrite Hw. by apply insert_subseteq.
  - intros k1 k2 r1 r2 H1 H2 Ht Hid. destruct (decide (k1 = window_key w)) as [->|N1], (decide (k2 = window_key w)) as [->|N2]; [done | exfalso..|].
    + rewrite Hrow in H1. injection H1 as <-. eapply approval_unused; [exact Hu | exact (Hold _ _ N2 H2) | done | congruence].
    + rewrite Hrow in H2. injection H2 as <-. eapply approval_unused; [exact Hu | exact (Hold _ _ N1 H1) | done | congruence].
    + eauto.
Qed.

Lemma step_windows_ok db db' : step db db' -> windows_ok db -> windows_ok db'.
Proof.
  intros [? ? ? ? ? ? Ha Ho|? ? ? ? ? ? Hv|? ? ? ? ? ? ? _ Hr|? ? ?].
  - apply open_Ok in Ho as [(row & _ & _ & _ & _ & ->)|Ho]; [done |]. by eapply opens_ok.
  - apply windows_ok_same. by apply revoke_Ok in Hv as (_ & _ & ? & _).
  - apply windows_ok_same. by apply record_Ok in Hr as [[_ ->]|[_ [_ _ _ _ _ (_ & ? & _)]]].
  - by apply windows_ok_same.
Qed.

(** In every state the transactions reach, each window row decodes to a window
    that lasts exactly the approved one second to twenty-four hours and, if nested,
    shares the scope of its parent; an approval opens one window; and a window
    loads at an instant exactly when that is before its expiry and no revocation of
    it exists. *)
Theorem acting_windows_exact db :
  reachable db ->
  (forall key row, windows db !! key = Some row -> exists w, stored db key row w /\
     forall now w', load_active_skill_acting_window sha256 db key.1 key.2 now = Ok w' <->
       w' = w /\ now < expires_at (acting w) /\ revocations db !! key = None) /\
  (forall k1 k2 r1 r2, windows db !! k1 = Some r1 -> windows db !! k2 = Some r2 -> k1.1 = k2.1 -> wr_approval_id r1 = wr_approval_id r2 -> k1 = k2).
Proof.
  intros Hr. assert (Hok : windows_ok db).
  { unfold reachable in Hr. remember db_empty as db0 eqn:E0. assert (H0 : windows_ok db0).
    { subst. constructor; simpl; [intros key row | intros k1 k2 r1 r2]; by rewrite lookup_empty. }
    clear E0. induction Hr; eauto using step_windows_ok. }
  split; [| exact (wk_once _ Hok)]. intros [tenant id] row Hrow. destruct (wk_stored _ Hok _ _ Hrow) as [w Hw]. exists w. split; [done |].
  pose proof (decode_window_Ok _ _ (st_decodes _ _ _ _ Hw)) as (_ & _ & _ & _ & He). intros now w'. simpl. etrans; [apply load_Ok |]. split.
  - intros [(r & Hr' & Hd & Hl) Hv]. assert (Some r = Some row) as [= ->] by (rewrite <- Hrow; symmetry; exact Hr'). rewrite (st_decodes _ _ _ _ Hw) in Hd. injection Hd as <-. by rewrite <- He.
  - intros (-> & Hl & Hv). constructor; [| done]. exists row. rewrite He. split_and!; [done | exact (st_decodes _ _ _ _ Hw) | done].
Qed.
End Windows.
End Store.

(** * A window opened, used and revoked *)

Module Demo.
Abbreviation tenant := ToolInvocationLaws.ToolCalls.Demo.tenant.

Definition hash (b : bytes) : bytes := take 32 (b ++ replicate 32 0).
#[local] Instance encode_any (T : Type) : Canonical T | 100 := fun _ => Some [].

Definition unwrap {E A} (a : A) (r : result E A) : A := match r with Ok x => x | Err _ => a end.

Definition intent : ToolInvocations.ToolInvocationIntent :=
  let i := ToolInvocationLaws.ToolCalls.Demo.int in
  unwrap i (ToolInvocations.intent_new hash (ToolInvocations.activation i) (ToolInvocations.invocation_id i) (ToolInvocations.descriptor i)
              (ToolInvocations.input i) (ToolInvocations.effective_limits i)).

Definition subject_ : SkillAuthorizationSubject := mkSubject (bytes_of "a2a") (bytes_of "o") (bytes_of "u") [1].
Definition preimage_ : ApprovalPreimage :=
  mkApprovalPreimage 31 (mkScope tenant 7 9) subject_ Direct ToolInvocationLaws.ToolCalls.Demo.tool [2] [3] 60000.
Definition approval_ : SkillActivationApproval := unwrap (mkApproval preimage_ []) (approval_new hash preimage_).
Definition request : SkillActingWindowOpenRequest := mkOpenRequest 21 approval_.
Definition acting_ : ActingPreimage := mkActingPreimage 21 approval_ 1000 60001000.
Definition w0 : SkillActingWindow := unwrap (mkWindow acting_ []) (window_new hash acting_).

Definition receipt_body : ReceiptPreimage :=
  mkReceiptPreimage 61 (mkAuthProvenance tenant 7 9 42 1 103) Execute ToolInvocationLaws.ToolCalls.Demo.tool
    (unwrap [] (digest_descriptor hash (ToolInvocations.descriptor intent))) (unwrap [] (digest_input hash (ToolInvocations.input intent)))
    (unwrap [] (subject_digest (E := StoreError) hash subject_)) ToolInvocationLaws.ToolCalls.Demo.tool (hash []) (hash []) 2000 false.
Definition r0 : ToolAuthorizationReceipt :=
  unwrap (mkReceipt receipt_body None []) (with_authorization_window hash (mkReceipt receipt_body None []) 21).

#[local] Instance encode_window : Canonical SkillActingWindow | 0 := fun w => if decide (w = w0) then Some [7] else None.
#[local] Instance decode_window_ : FromSlice SkillActingWindow := fun b => if decide (b = [7]) then Some w0 else None.
#[local] Instance encode_approval : Canonical SkillActivationApproval | 0 := fun _ => Some [6].
#[local] Instance decode_approval : FromSlice SkillActivationApproval := fun _ => Some approval_.
#[local] Instance encode_revocation : Canonical SkillActingWindowRevocation | 0 := fun _ => Some [5].
#[local] Instance decode_revocation : FromSlice SkillActingWindowRevocation := fun _ => None.
#[local] Instance encode_receipt_ : Canonical ToolAuthorizationReceipt | 0 := fun _ => Some [8].
#[local] Instance decode_receipt_ : FromSlice ToolAuthorizationReceipt := fun _ => Some r0.
#[local] Instance encode_intent : Canonical ToolInvocations.ToolInvocationIntent | 0 := fun _ => Some [9].
#[local] Instance decode_intent : FromSlice ToolInvocations.ToolInvocationIntent := fun _ => Some intent.

Definition boundary : BoundaryRow := mkBoundaryRow [9] (bytes_of "executing") (Some 1) 9 103.
Definition db0 : Db := mkDb ∅ ∅ ∅ ∅ {[ (tenant, 7, 42) := boundary ]} {[ (tenant, 7) := 9 ]}.
Definition db1 : Db := (unwrap (w0, db0) (open_skill_acting_window hash db0 request 900 1000)).2.
Definition db2 : Db := (unwrap (Idempotent, db1) (record_tool_authorization_receipt hash db1 db1 r0 3000 3001)).2.
Definition db3 : Db :=
  (unwrap (mkRevocation (mkRevocationPreimage tenant 21 User 0) [], db1) (revoke_skill_acting_window hash db1 w0 Compromised 2500)).2.

Lemma demo_opened : exists w, open_skill_acting_window hash db0 request 900 1000 = Ok (w, db1).
Proof. eexists. vm_compute. reflexivity. Qed.

Lemma demo_reachable : reachable hash db1.
Proof.
  destruct demo_opened as [w Hw]. eapply rtc_l; [exact (step_other hash db_empty (boundaries db0) (threads db0)) |]. apply rtc_once.
  eapply step_open; [| exact Hw]. vm_compute. reflexivity.
Qed.

Lemma demo_recorded : record_tool_authorization_receipt hash db1 db1 r0 3000 3001 = Ok (Recorded, db2).
Proof. vm_compute. reflexivity. Qed.

Lemma demo_revoked : exists v, revoke_skill_acting_window hash db1 w0 Compromised 2500 = Ok (v, db3).
Proof. eexists. vm_compute. reflexivity. Qed.

Lemma revocation_final_witness :
  record_tool_authorization_receipt hash db1 db1 r0 3000 3001 = Ok (Recorded, db2) /\
  (forall db, record_tool_authorization_receipt hash db3 db3 r0 3000 3001 <> Ok (Recorded, db)).
Proof.
  split; [exact demo_recorded |]. destruct demo_revoked as [v Hv].
  destruct (revocation_final hash db1 w0 Compromised 2500 v db3 db3 demo_reachable Hv (rtc_refl _ _)) as (_ & _ & _ & H).
  intros db Hr. by apply (H db3 r0 3000 3001 db 21 Hr).
Defined.

Lemma receipt_recorded_once_witness :
  (exists w, under_window hash db1 r0 3000 21 w) /\ record_tool_authorization_receipt hash db2 db2 r0 9 9 = Ok (Idempotent, db2).
Proof.
  destruct (receipt_recorded_once hash db1 db1 r0 3000 3001 db2 demo_reachable demo_recorded) as [(Hw & _) H].
  split; [by apply Hw |]. refine (proj1 (H db2 db2 9 9 (rtc_refl _ _) _)). by constructor.
Defined.

Lemma acting_windows_exact_witness :
  forall now w, load_active_skill_acting_window hash db1 tenant 21 now = Ok w <-> w = w0 /\ now < 60001000 /\ revocations db1 !! (tenant, 21) = None.
Proof.
  assert (Hs : forall (w : SkillActingWindow) b, to_vec w = Some b -> from_slice b = Some w).
  { intros w b Hb. unfold to_vec, encode_window in Hb. destruct (decide (w = w0)) as [->|]; [| done]. by injection Hb as <-. }
  assert (Hl : forall b, length (hash b) = DIGEST_LEN).
  { intros b. unfold hash. rewrite length_take, length_app, length_replicate. unfold DIGEST_LEN. lia. }
  destruct (acting_windows_exact hash Hl Hs db1 demo_reachable) as [H _].
  assert (Hrow : exists row, windows db1 !! (tenant, 21) = Some row /\ decode_window hash row = Ok w0).
  { exists (window_row hash w0 (unwrap [] (subject_digest (E := StoreError) hash subject_)) [7]). split; vm_compute; reflexivity. }
  destruct Hrow as (row & Hrow & Hd). destruct (H _ _ Hrow) as (w' & Hst & Hex). assert (w' = w0) as -> by (pose proof (st_decodes _ _ _ _ _ Hst); congruence).
  exact Hex.
Defined.
End Demo.
End AuthorizationLaws.
