(* ===== verification/ReceiptPages.v ===== *)
(** Paging of authorization receipts ([AuthorizationStore.v]): reading the pages
    of one invocation from the first cursor to the last page returns each of its
    receipts once, in order of recording. *)

From Stdlib Require Import ZArith Lia List.
From stdpp Require Import prelude gmap sorting.
From S2P Require Import Prelude Json Time Content Capability Checkpoint Tool ToolInvocation StoreErrors Authorization AuthorizationStore AuthorizationLaws.

Open Scope Z_scope.
Import Timestamp(Timestamp).

Module ReceiptPages.
Import Content Capability Tools Authorizations AuthorizationStore AuthorizationLaws.

(** * Positions *)

Lemma position_ltb_spec a b : position_ltb a b = true <-> a.1 < b.1 \/ a.1 = b.1 /\ a.2 < b.2.
Proof. unfold position_ltb. rewrite orb_true_iff, andb_true_iff, !Z.ltb_lt, Z.eqb_eq. done. Qed.

Lemma position_ltb_false a b : position_ltb a b = false <-> b.1 < a.1 \/ b.1 = a.1 /\ b.2 <= a.2.
Proof. rewrite <- not_true_iff_false, position_ltb_spec. lia. Qed.

#[local] Instance row_le_total : Total row_le.
Proof. intros a b. unfold row_le. rewrite !position_ltb_false. lia. Qed.
#[local] Instance row_le_trans : Transitive row_le.
Proof. intros a b c. unfold row_le. rewrite !position_ltb_false. lia. Qed.

Definition row_lt (a b : ReceiptRow) : Prop := position_ltb (position a) (position b) = true.

(** A sorted list of rows with distinct positions ascends strictly. *)
Lemma strictly_sorted l :
  StronglySorted row_le l -> NoDup l -> (forall a b, a ∈ l -> b ∈ l -> position a = position b -> a = b) -> StronglySorted row_lt l.
Proof.
  induction 1 as [|x l Hs IH Hx]; intros Hnd Hinj; constructor.
  - apply NoDup_cons in Hnd as [_ Hnd]. apply IH; [done |]. intros a b Ha Hb. apply Hinj; by right.
  - apply NoDup_cons in Hnd as [Hnin _]. rewrite Forall_forall in Hx |- *. intros y Hy. specialize (Hx y Hy). unfold row_le, row_lt in *.
    rewrite position_ltb_false in Hx. rewrite position_ltb_spec.
    assert (position x <> position y). { intros E. apply Hnin. rewrite (Hinj x y); [done | by left | by right | done]. }
    destruct (position x) as [p1 p2] eqn:E1, (position y) as [q1 q2] eqn:E2; simpl in *.
    destruct (decide (p1 = q1)) as [->|]; [| lia]. destruct (decide (p2 = q2)) as [->|]; [done | lia].
Qed.

Lemma filter_none {A} (P : A -> Prop) `{forall x, Decision (P x)} l : Forall (fun x => ~ P x) l -> filter P l = [].
Proof. induction 1; [done |]. by rewrite filter_cons_False. Qed.

Lemma filter_every {A} (P : A -> Prop) `{forall x, Decision (P x)} l : Forall P l -> filter P l = l.
Proof. induction 1 as [|x l Hx _ IH]; [done |]. by rewrite filter_cons_True, IH. Qed.

(** What lies past an element of a strictly ascending list. *)
Lemma filter_past pre x post :
  StronglySorted row_lt (pre ++ x :: post) -> filter (fun r => position_ltb (position x) (position r) = true) (pre ++ x :: post) = post.
Proof.
  rewrite StronglySorted_app. intros (H & _ & Hs). apply StronglySorted_cons in Hs as [Hx _].
  rewrite filter_app. rewrite (filter_none _ pre).
  2:{ apply Forall_forall. intros r Hr. specialize (H r x Hr ltac:(by left)). unfold row_lt in H. rewrite position_ltb_spec in H. rewrite position_ltb_spec. lia. }
  rewrite filter_cons_False by (rewrite position_ltb_spec; lia). by apply filter_every.
Qed.

(** * Rows of a reachable state *)

Section Pages.
Context `{!Canonical SkillAuthorizationSubject, !Canonical ApprovalPreimage, !Canonical ActingPreimage, !Canonical RevocationPreimage}.
Context `{!Canonical SkillActivationApproval, !Canonical SkillActingWindow, !Canonical SkillActingWindowRevocation}.
Context `{!FromSlice SkillActivationApproval, !FromSlice SkillActingWindow, !FromSlice SkillActingWindowRevocation}.
Context `{!Canonical ToolDescriptor, !Canonical ToolInput, !Canonical ReceiptPreimage, !Canonical WindowPreimage, !Canonical ToolAuthorizationReceipt}.
Context `{!Canonical ToolInvocations.ToolInvocationIntentDigestWire, !Canonical ToolInvocations.ToolInvocationIntent}.
Context `{!FromSlice ToolAuthorizationReceipt, !FromSlice ToolInvocations.ToolInvocationIntent}.
Variable sha256 : bytes -> bytes.

(** A receipt row is stored under its identity and decodes. *)
Record row_ok (key : Key) (row : ReceiptRow) : Prop := {
  ro_key : (rr_tenant_id row, rr_receipt_id row) = key;
  ro_decodes : exists s, decode_receipt sha256 row = Ok s
}.

Definition rows_ok (db : Db) : Prop := forall key row, receipts db !! key = Some row -> row_ok key row.

Lemma step_rows_ok db db' : step sha256 db db' -> rows_ok db -> rows_ok db'.
Proof.
  intros [? ? ? ? ? ? Ha Ho|? ? ? ? ? ? Hv|? ? ? ? ? ? ? _ Hr|? ? ?] Hk.
  - apply open_Ok in Ho as [(row & _ & _ & _ & _ & ->)|[_ _ _ _ _ _ _ (_ & Hr & _)]]; [done |]. unfold rows_ok. by rewrite Hr.
  - unfold revoke_skill_acting_window in Hv. apply bind_Ok in Hv as (? & _ & Hv). apply bind_Ok in Hv as (? & _ & Hv).
    destruct (negb _); [done |]. destruct (revocations _ !! _).
    + apply bind_Ok in Hv as (? & _ & Hv). destruct (negb _); [done |]. by injection Hv as <- <-.
    + apply bind_Ok in Hv as (? & _ & Hv). apply bind_Ok in Hv as (? & _ & Hv). apply bind_Ok in Hv as (? & _ & [= <- <-]). done.
  - apply record_Ok in Hr as [[_ ->]|[_ [_ _ _ _ (b & _ & Hc & Hrow) _]]]; [done |]. intros key row. rewrite Hrow, lookup_insert_Some.
    intros [[<- <-]|[_ Hold]]; [| by apply Hk]. constructor; [done |]. apply bind_Ok in Hc as (s & Hs & _). eauto.
  - done.
Qed.

Lemma reachable_rows_ok db : reachable sha256 db -> rows_ok db.
Proof.
  unfold reachable. intros Hr. remember db_empty as db0 eqn:E0. assert (H0 : rows_ok db0). { subst. intros key row. simpl. by rewrite lookup_empty. }
  clear E0. induction Hr; eauto using step_rows_ok.
Qed.

(** The columns of a row are those of its receipt. *)
Lemma decode_receipt_Ok row s :
  decode_receipt sha256 row = Ok s ->
  (rr_tenant_id row = ap_tenant_id (provenance (body (stored_receipt s))) /\ rr_run_id row = ap_run_id (provenance (body (stored_receipt s))) /\
   rr_invocation_id row = ap_invocation_id (provenance (body (stored_receipt s)))) /\
  position row = (recorded_at s, receipt_id (body (stored_receipt s))) /\ Timestamp.valid (recorded_at s).
Proof.
  unfold decode_receipt. intros Hd. destruct (oversized _ _); [done |]. apply bind_Ok in Hd as (wire & _ & Hd). apply bind_Ok in Hd as (r & _ & Hd).
  apply bind_Ok in Hd as (c & _ & Hd). destruct (negb _); [done |]. apply bind_Ok in Hd as (at_ & Ha & Hd). apply map_err_Ok, from_micros_valid in Ha as [-> Hv].
  destruct (_ || negb (bool_decide (rr_operation row = _))) eqn:E; [done |]. repeat setoid_rewrite orb_false_iff in E.
  repeat setoid_rewrite negb_false_iff in E. repeat setoid_rewrite Z.eqb_eq in E. repeat setoid_rewrite bool_decide_eq_true in E.
  destruct E as [[[[[[[E1 E2] E3] _] E4] _] _] _]. do 5 apply bind_Ok in Hd as (_ & _ & Hd). destruct (negb _); [done |].
  do 2 apply bind_Ok in Hd as (_ & _ & Hd). destruct (negb _); [done |]. apply bind_Ok in Hd as (au & _ & Hd). destruct (_ || _); [done |].
  injection Hd as <-. simpl. split_and!; try done. unfold position. by rewrite E2.
Qed.
(** Commit order of receipts. *)
Definition recorded_before (a b : StoredToolAuthorizationReceipt) : Prop :=
  position_ltb (recorded_at a, receipt_id (body (stored_receipt a))) (recorded_at b, receipt_id (body (stored_receipt b))) = true.

Lemma decoded_sorted l R :
  Forall2 (fun row s => decode_receipt sha256 row = Ok s) l R -> StronglySorted row_lt l -> StronglySorted recorded_before R.
Proof.
  induction 1 as [|x s l R Hx HF IH]; intros Hs; [constructor |]. apply StronglySorted_cons in Hs as [Hlt Hs]. constructor; [by apply IH |].
  pose proof (decode_receipt_Ok x s Hx) as (_ & Ex & _). rewrite Forall_forall in Hlt. apply Forall_forall. intros s' Hs'.
  apply list_elem_of_lookup in Hs' as [i Hi]. destruct (Forall2_lookup_r _ _ _ _ _ HF Hi) as (y & Hy & Hd).
  pose proof (decode_receipt_Ok y s' Hd) as (_ & Ey & _). unfold recorded_before. rewrite <- Ex, <- Ey. apply Hlt. by apply list_elem_of_lookup_2 in Hy.
Qed.

(** * The audit *)

(** The reader's loop: pages from [after] to the last one. *)
Fixpoint read_all (fuel : nat) (db : Db) (tenant : TenantId) (run inv size : Z) (after : option StoredToolAuthorizationReceipt)
  : option (list StoredToolAuthorizationReceipt) :=
  match fuel with
  | O => None
  | S fuel =>
      match load_tool_authorization_receipt_page sha256 db tenant run inv after size with
      | Err _ => None
      | Ok p => if has_more p then app (records p) <$> read_all fuel db tenant run inv size (next_cursor p) else Some (records p)
      end
  end.

Definition START : Z * Z := cursor_position None.

Section Invocation.
Variables (db : Db) (tenant : TenantId) (run inv : Z).
Hypothesis Hok : rows_ok db.
Abbreviation rows := ((map_to_list (receipts db)).*2).
Abbreviation select := (select_receipts db tenant run inv).

Lemma elem_rows row : row ∈ rows <-> exists key, receipts db !! key = Some row.
Proof.
  rewrite list_elem_of_fmap. split.
  - intros ([key r] & -> & H%elem_of_map_to_list). by exists key.
  - intros [key H]. exists (key, row). split; [done |]. by apply elem_of_map_to_list.
Qed.

Lemma rows_NoDup : NoDup rows.
Proof.
  apply NoDup_fmap_2_strong; [| apply NoDup_map_to_list]. intros [k1 r1] [k2 r2] H1%elem_of_map_to_list H2%elem_of_map_to_list [= ->].
  apply Hok in H1 as [<- _], H2 as [<- _]. done.
Qed.

Lemma select_Permutation after : select after ≡ₚ filter (fun row => of_invocation tenant run inv row && position_ltb after (position row) = true) rows.
Proof. apply merge_sort_Permutation. Qed.

Lemma select_elem after row :
  row ∈ select after <-> (of_invocation tenant run inv row = true /\ position_ltb after (position row) = true) /\ exists key, receipts db !! key = Some row.
Proof. rewrite select_Permutation, list_elem_of_filter, elem_rows, andb_true_iff. done. Qed.

Lemma select_sorted after : StronglySorted row_lt (select after).
Proof.
  apply strictly_sorted.
  - apply StronglySorted_merge_sort; apply _.
  - rewrite select_Permutation. apply NoDup_filter, rows_NoDup.
  - intros a b [[Ha _] [ka Hka]]%select_elem [[Hb _] [kb Hkb]]%select_elem [= _ E]. unfold of_invocation in *.
    apply andb_true_iff in Ha as [[Ha%bool_decide_eq_true _]%andb_true_iff _], Hb as [[Hb%bool_decide_eq_true _]%andb_true_iff _].
    pose proof (ro_key _ _ (Hok _ _ Hka)) as Ea. pose proof (ro_key _ _ (Hok _ _ Hkb)) as Eb. rewrite Ha in Ea. rewrite Hb in Eb. congruence.
Qed.

Lemma select_past pre x post : select START = pre ++ x :: post -> select (position x) = post.
Proof.
  intros E. pose proof (select_sorted START) as Hs. pose proof (filter_past pre x post ltac:(by rewrite <- E)) as Hp. rewrite <- E in Hp.
  assert (Hx : x ∈ select START) by (rewrite E; apply elem_of_app; right; by left). apply select_elem in Hx as [[_ Hx%position_ltb_spec] _].
  apply (StronglySorted_unique_strong row_lt).
  - intros a b _ _. unfold row_lt. rewrite !position_ltb_spec. lia.
  - apply select_sorted.
  - rewrite E in Hs. apply StronglySorted_app_1_r, StronglySorted_cons in Hs as [_ Hs]. done.
  - rewrite <- Hp at 1. rewrite select_Permutation. rewrite (select_Permutation START). rewrite list_filter_filter.
    apply reflexive_eq, list_filter_iff. intros r. rewrite !andb_true_iff, !position_ltb_spec. intuition lia.
Qed.
Abbreviation decodes := (fun row s => decode_receipt sha256 row = Ok s).

(** The cursor of a position already read is accepted and continues behind it. *)
Lemma cursor_at pre post R1 :
  select START = pre ++ post -> Forall2 decodes pre R1 ->
  check_cursor sha256 db tenant run inv (last R1) = Ok tt /\ select (cursor_position (last R1)) = post.
Proof.
  intros E HF. destruct pre as [|x pre _] using rev_ind. { apply Forall2_nil_inv_l in HF as ->. done. }
  apply Forall2_app_inv_l in HF as (R & R' & _ & HF & ->). apply Forall2_cons_inv_l in HF as (s & R'' & Hs & HF & ->). apply Forall2_nil_inv_l in HF as ->.
  rewrite last_snoc. simpl. rewrite <- app_assoc in E. simpl in E. assert (Hx : x ∈ select START) by (rewrite E; apply elem_of_app; right; by left).
  apply select_elem in Hx as [[Ho _] [key Hkey]]. unfold of_invocation in Ho.
  apply andb_true_iff in Ho as [[Ht%bool_decide_eq_true Hr%Z.eqb_eq]%andb_true_iff Hi%Z.eqb_eq].
  pose proof (decode_receipt_Ok x s Hs) as ((D1 & D2 & D3) & Dp & _). split.
  - rewrite bool_decide_true by congruence. rewrite <- D2, <- D3, Hr, Hi, !Z.eqb_refl. simpl.
    assert (Hk : receipts db !! (tenant, receipt_id (body (stored_receipt s))) = Some x).
    { pose proof (ro_key _ _ (Hok _ _ Hkey)) as Ek. injection Dp as _ Ei. rewrite Ht, Ei in Ek. rewrite <- Ek in Hkey. exact Hkey. }
    rewrite Hk. simpl. rewrite Hs. simpl. by rewrite bool_decide_true.
  - rewrite <- Dp. by apply (select_past pre).
Qed.

Lemma page_at pre post R1 R2 size :
  1 <= size -> select START = pre ++ post -> Forall2 decodes pre R1 -> Forall2 decodes post R2 ->
  load_tool_authorization_receipt_page sha256 db tenant run inv (last R1) size =
  Ok (mkReceiptPage (take (Z.to_nat size) R2) (size <? Z.of_nat (length R2))).
Proof.
  intros Hn E H1 H2. destruct (cursor_at pre post R1 E H1) as [Hc Hs]. unfold load_tool_authorization_receipt_page. rewrite Hc. simpl. rewrite Hs.
  assert (Hm : mapM (decode_receipt sha256) (take (Z.to_nat (size + 1)) post) = Ok (take (Z.to_nat (size + 1)) R2)) by (by apply mapM_Ok, Forall2_take).
  rewrite Hm. simpl. replace (Z.to_nat (size + 1)) with (S (Z.to_nat size)) by lia. rewrite length_take.
  destruct (Z.ltb_spec size (Z.of_nat (length R2))).
  - rewrite (proj2 (Z.ltb_lt _ _)) by lia. by rewrite removelast_firstn by lia.
  - rewrite (proj2 (Z.ltb_ge _ _)) by lia. by rewrite !take_ge by lia.
Qed.

Lemma read_all_from size fuel : 1 <= size -> forall pre post R1 R2,
  select START = pre ++ post -> Forall2 decodes pre R1 -> Forall2 decodes post R2 -> (length R2 < fuel)%nat ->
  read_all fuel db tenant run inv size (last R1) = Some R2.
Proof.
  intros Hn. induction fuel as [|fuel IH]; intros pre post R1 R2 E H1 H2 Hf; [lia |]. simpl. rewrite (page_at pre post R1 R2 size Hn E H1 H2). simpl.
  destruct (Z.ltb_spec size (Z.of_nat (length R2))) as [Hl|Hl]; [| f_equal; apply take_ge; lia]. unfold next_cursor. simpl.
  set (k := Z.to_nat size). assert (Hlast : last (take k R2) = last (R1 ++ take k R2)).
  { rewrite last_app. destruct (last (take k R2)) eqn:El; [done |]. apply last_None in El. apply (f_equal length) in El. rewrite length_take in El. simpl in El. lia. }
  rewrite Hlast. rewrite (IH (pre ++ take k post) (drop k post) (R1 ++ take k R2) (drop k R2)).
  - simpl. by rewrite take_drop.
  - by rewrite <- app_assoc, take_drop.
  - apply Forall2_app; [done | by apply Forall2_take].
  - by apply Forall2_drop.
  - rewrite length_drop. lia.
Qed.
End Invocation.

(** C11: Reading pages until none is left returns every receipt of the invocation
    exactly once, in strictly ascending order of recording time and identifier;
    no cursor the pages hand out is refused. *)
Theorem receipt_pages_complete db tenant run inv value size :
  reachable sha256 db -> (forall key row, receipts db !! key = Some row -> 0 < key.2) -> 0 <= value -> page_size_new value = Ok size ->
  exists all, read_all (S (length all)) db tenant run inv size None = Some all /\
    StronglySorted recorded_before all /\
    forall s, s ∈ all <-> exists key row, receipts db !! key = Some row /\ of_invocation tenant run inv row = true /\ decode_receipt sha256 row = Ok s.
Proof.
  intros Hr Hpos Hv Hsz. pose proof (reachable_rows_ok db Hr) as Hok. assert (Hn : 1 <= size).
  { unfold page_size_new in Hsz. destruct (Z.eqb_spec value 0); [done |]. simpl in Hsz. destruct (PAGE_MAX <? value); [done |]. injection Hsz as <-. lia. }
  destruct (mapM_total (decode_receipt sha256) (select_receipts db tenant run inv START)) as [all Hall%mapM_Ok].
  { apply Forall_forall. intros row [_ [key Hkey]]%select_elem. exact (ro_decodes _ _ (Hok _ _ Hkey)). }
  exists all. split_and!.
  - apply (read_all_from db tenant run inv Hok size (S (length all)) Hn [] (select_receipts db tenant run inv START) [] all); [reflexivity | constructor | done | lia].
  - eapply decoded_sorted; [exact Hall | by apply select_sorted].
  - intros s. split.
    + intros [i Hi]%list_elem_of_lookup. destruct (Forall2_lookup_r _ _ _ _ _ Hall Hi) as (row & Hrow%list_elem_of_lookup_2 & Hd).
      apply select_elem in Hrow as [[Ho _] [key Hkey]]. eauto.
    + intros (key & row & Hkey & Ho & Hd). assert (Hin : row ∈ select_receipts db tenant run inv START).
      { apply select_elem. split; [| eauto]. split; [done |]. pose proof (decode_receipt_Ok row s Hd) as (_ & Hp & [Hmin _]). rewrite position_ltb_spec, Hp. simpl.
        pose proof (Hpos _ _ Hkey) as H0. pose proof (ro_key _ _ (Hok _ _ Hkey)) as Ek. rewrite <- Ek in H0. simpl in H0. injection Hp as _ Hid. lia. }
      apply list_elem_of_lookup in Hin as [i Hi]. destruct (Forall2_lookup_l _ _ _ _ _ Hall Hi) as (s' & Hs' & Hd'). assert (s' = s) as -> by congruence.
      by apply list_elem_of_lookup_2 in Hs'.
Qed.
End Pages.

Module Demo.
Import AuthorizationLaws.Demo.
#[local] Existing Instance encode_any | 100.
#[local] Existing Instances encode_window decode_window_ encode_approval decode_approval encode_revocation decode_revocation
  encode_receipt_ decode_receipt_ encode_intent decode_intent.

Lemma demo_pages_reachable : reachable hash db2.
Proof. eapply rtc_r; [exact demo_reachable |]. eapply step_record; [| exact demo_recorded]. by constructor. Qed.

Lemma receipt_pages_complete_witness :
  exists all, read_all hash (S (length all)) db2 tenant 7 42 1 None = Some all /\ StronglySorted recorded_before all.
Proof.
  destruct (receipt_pages_complete hash db2 tenant 7 42 1 1 demo_pages_reachable) as (all & H1 & H2 & _); [| lia | reflexivity | eauto].
  assert (H : map_Forall (fun (key : Key) (_ : ReceiptRow) => 0 < key.2) (receipts db2)) by (apply (bool_decide_unpack _); vm_compute; exact I).
  exact H.
Defined.
End Demo.
End ReceiptPages.
