(* ===== verification/Agent.v ===== *)
(** Agent definitions (crates/stateknot-core/src/agent.rs): ordered bounded
    instructions, tools by model-visible name, the execution configuration, and
    the descriptor that ties them to a model able to serve them.  The visitors of
    the deserializers make the same steps as the constructors.

    [AgentTools] holds its [BTreeMap] as an association list sorted by name. *)

From Stdlib Require Import ZArith Lia List.
From stdpp Require Import prelude.
From S2P Require Import Prelude Ordered Json BoundedJson Content Accounting Time Capability Budget Message Model Tool ToolInvocationLaws.

Open Scope Z_scope.
Import Timestamp(Timestamp).

Module Agents.
Import Text Content Capability Artifact Tools Messages.

(** * Instructions *)

Record AgentInstructions := mkInstructions { instruction_values : list Instruction; content_bytes : Count.Count }.

Definition INSTRUCTIONS_MAX_LEN : Z := 32.
Definition MAX_CONTENT_BYTES : Z := 8 * MEBIBYTE.

Inductive AgentInstructionsError :=
| InstructionsEmpty
| InstructionsTooMany (max observed : Z)
| InstructionDuplicate (identity : InstructionIdentity)
| UnsupportedArtifact (index : nat) (modality : ArtifactModality)
| ContentBytesOverflow
| ContentTooLarge (maximum actual : Z).

Definition content_length (index : nat) (c : InstructionContent) : result AgentInstructionsError Count.Count :=
  match c with
  | ICText t => Ok (len (content_text t))
  | ICArtifact a =>
      let m := modality (representation a) in
      if negb (bool_decide (m = MText)) then Err (UnsupportedArtifact index m) else Ok (byte_length (representation a))
  end.

Definition push_instruction (st : AgentInstructions) (value : Instruction) : result AgentInstructionsError AgentInstructions :=
  let values := instruction_values st in
  if Z.of_nat (length values) =? INSTRUCTIONS_MAX_LEN then Err (InstructionsTooMany INSTRUCTIONS_MAX_LEN (INSTRUCTIONS_MAX_LEN + 1)) else
  if existsb (fun existing => bool_decide (instruction_identity existing = instruction_identity value)) values
  then Err (InstructionDuplicate (instruction_identity value)) else
  additional ← content_length (length values) (instruction_content value);
  actual ← ok_or (Count.checked_add (content_bytes st) additional) ContentBytesOverflow;
  if MAX_CONTENT_BYTES <? actual then Err (ContentTooLarge MAX_CONTENT_BYTES actual) else
  Ok (mkInstructions (values ++ [value]) actual).

(** [AgentInstructions::try_new], and the visitor of its deserializer. *)
Definition instructions_try_new (values : list Instruction) : result AgentInstructionsError AgentInstructions :=
  st ← try_fold push_instruction (mkInstructions [] 0) values;
  if (length (instruction_values st) =? 0)%nat then Err InstructionsEmpty else Ok st.

(** * Tools *)

Definition AgentTools := list (CapabilityName * ToolDescriptor).
Definition TOOLS_MAX_LEN : Z := 128.

Inductive AgentToolsError :=
| ToolDuplicateName (name : CapabilityName)
| ToolsTooMany (max observed : Z)
| ToolRetired (name : CapabilityName).

Definition tool_name (d : ToolDescriptor) : CapabilityName := name (capability (tool_identity d)).
Definition is_retired (m : CapabilityMetadata) : bool := match lifecycle_state (lifecycle m) with Retired_ => true | _ => false end.

Definition insert_tool (values : AgentTools) (value : ToolDescriptor) : result AgentToolsError AgentTools :=
  let n := tool_name value in
  if negb (is_none (bt_get n values)) then Err (ToolDuplicateName n) else
  if Z.of_nat (length values) =? TOOLS_MAX_LEN then Err (ToolsTooMany TOOLS_MAX_LEN (TOOLS_MAX_LEN + 1)) else
  if is_retired (metadata value) then Err (ToolRetired n) else
  Ok (bt_insert n value values).

Definition tools_try_new (values : list ToolDescriptor) : result AgentToolsError AgentTools := try_fold insert_tool [] values.
Definition contains_name (self : AgentTools) (n : bytes) : bool := existsb (fun candidate => bool_decide (candidate = n)) (self.*1).

(** * Execution *)

Inductive AgentStructuredOutputStrategy := ModelNative | ToolCall.
Inductive AgentToolConcurrency := Sequential | ParallelReadOnly (max_concurrency : Count.Count).

Definition maximum (self : AgentToolConcurrency) : Count.Count :=
  match self with Sequential => 1 | ParallelReadOnly max_concurrency => max_concurrency end.

Record AgentExecutionConfig := mkExecution {
  strategy : AgentStructuredOutputStrategy;
  max_model_turns : Count.Count;
  max_output_repair_turns : Count.Count;
  max_tool_calls_per_turn : Count.Count;
  tool_concurrency : AgentToolConcurrency
}.

Definition HARD_MAX_MODEL_TURNS : Z := 1024.
Definition HARD_MAX_OUTPUT_REPAIR_TURNS : Z := 64.
Definition HARD_MAX_TOOL_CALLS_PER_TURN : Z := 1024.

Inductive AgentExecutionConfigError :=
| ZeroModelTurns
| ModelTurnsAboveHardMaximum (maximum actual : Z)
| OutputRepairsAboveHardMaximum (maximum actual : Z)
| OutputRepairsConsumeAllTurns (repairs turns : Z)
| ToolCallsAboveHardMaximum (maximum actual : Z)
| ParallelConcurrencyBelowTwo (actual : Z)
| ConcurrencyExceedsToolCalls (concurrency tool_calls : Z).

Definition execution_new (wire : AgentExecutionConfig) : result AgentExecutionConfigError AgentExecutionConfig :=
  if max_model_turns wire =? 0 then Err ZeroModelTurns else
  if HARD_MAX_MODEL_TURNS <? max_model_turns wire then Err (ModelTurnsAboveHardMaximum HARD_MAX_MODEL_TURNS (max_model_turns wire)) else
  if HARD_MAX_OUTPUT_REPAIR_TURNS <? max_output_repair_turns wire
  then Err (OutputRepairsAboveHardMaximum HARD_MAX_OUTPUT_REPAIR_TURNS (max_output_repair_turns wire)) else
  if max_model_turns wire <=? max_output_repair_turns wire
  then Err (OutputRepairsConsumeAllTurns (max_output_repair_turns wire) (max_model_turns wire)) else
  if HARD_MAX_TOOL_CALLS_PER_TURN <? max_tool_calls_per_turn wire
  then Err (ToolCallsAboveHardMaximum HARD_MAX_TOOL_CALLS_PER_TURN (max_tool_calls_per_turn wire)) else
  match tool_concurrency wire with
  | Sequential => Ok wire
  | ParallelReadOnly c =>
      if c <? 2 then Err (ParallelConcurrencyBelowTwo c) else
      if max_tool_calls_per_turn wire <? c then Err (ConcurrencyExceedsToolCalls c (max_tool_calls_per_turn wire)) else Ok wire
  end.

(** * Descriptors *)

Record AgentDescriptor := mkAgent {
  agent_metadata : CapabilityMetadata;
  agent_input_schema : SchemaReference;
  agent_output_schema : SchemaReference;
  agent_model : Models.ModelDescriptor;
  agent_instructions : AgentInstructions;
  agent_tools : AgentTools;
  agent_execution : AgentExecutionConfig;
  agent_budget_limits : BudgetLimits.t
}.

Definition FINAL_OUTPUT_TOOL_NAME : bytes := bytes_of "stateknot_final_output".
Definition MAX_TOOL_DEFINITIONS : Z := 128.

Inductive AgentDescriptorError :=
| WrongCapabilityKind (actual : CapabilityKind)
| RetiredModel (identity : CapabilityIdentity)
| ToolCallsWithoutTools (actual : Z)
| ToolsWithoutToolCalls
| ReservedOutputToolName
| ModelToolCallingUnsupported
| ModelToolDefinitionsInsufficient (required available : Z)
| ModelRequestToolDefinitionsAboveHardMaximum (maximum actual : Z)
| ModelToolCallsInsufficient (required available : Z)
| ModelNativeStructuredOutputUnsupported (available : Models.ModelStructuredOutputLevel)
| AbsoluteDeadlineIsNotReusable (deadline : Timestamp).

Definition synthetic_output (x : AgentExecutionConfig) : bool := match strategy x with ToolCall => true | ModelNative => false end.
Definition required_definitions (d : AgentDescriptor) : Z :=
  Z.of_nat (length (agent_tools d)) + (if synthetic_output (agent_execution d) then 1 else 0).
Definition required_calls (d : AgentDescriptor) : Z :=
  let ordinary_calls := max_tool_calls_per_turn (agent_execution d) in
  if synthetic_output (agent_execution d) then Z.max ordinary_calls 1 else ordinary_calls.

(** The checks on the model's tools. *)
Definition check_model_tools (d : AgentDescriptor) : result AgentDescriptorError unit :=
  if required_definitions d =? 0 then Ok tt else
  let caps := Models.tools (Models.capabilities (agent_model d)) in
  if negb (Models.supports_tool_calling caps) then Err ModelToolCallingUnsupported else
  if Models.max_definitions caps <? required_definitions d
  then Err (ModelToolDefinitionsInsufficient (required_definitions d) (Models.max_definitions caps)) else
  if Models.max_calls_per_response caps <? required_calls d
  then Err (ModelToolCallsInsufficient (required_calls d) (Models.max_calls_per_response caps)) else Ok tt.

Definition descriptor_new (d : AgentDescriptor) : result AgentDescriptorError AgentDescriptor :=
  if negb (bool_decide (kind (agent_metadata d) = KAgent)) then Err (WrongCapabilityKind (kind (agent_metadata d))) else
  if is_retired (Models.model_metadata (agent_model d)) then Err (RetiredModel (Models.model_identity (agent_model d))) else
  let ordinary_calls := max_tool_calls_per_turn (agent_execution d) in
  let no_tools := (length (agent_tools d) =? 0)%nat in
  if no_tools && negb (ordinary_calls =? 0) then Err (ToolCallsWithoutTools ordinary_calls) else
  if negb no_tools && (ordinary_calls =? 0) then Err ToolsWithoutToolCalls else
  if synthetic_output (agent_execution d) && contains_name (agent_tools d) FINAL_OUTPUT_TOOL_NAME then Err ReservedOutputToolName else
  if MAX_TOOL_DEFINITIONS <? required_definitions d
  then Err (ModelRequestToolDefinitionsAboveHardMaximum MAX_TOOL_DEFINITIONS (required_definitions d)) else
  _ ← check_model_tools d;
  let available := Models.level (Models.structured_output (Models.capabilities (agent_model d))) in
  if negb (synthetic_output (agent_execution d)) && (match cmp available Models.SJsonSchema with Lt => true | _ => false end)
  then Err (ModelNativeStructuredOutputUnsupported available) else
  match BudgetLimits.deadline (agent_budget_limits d) with
  | Some deadline => Err (AbsoluteDeadlineIsNotReusable deadline)
  | None => Ok d
  end.
End Agents.

(** Laws of agent definitions ([Agent.v]): instructions and tools are accepted
    exactly within their bounds, and a model named by an accepted descriptor can
    serve every turn the agent asks of it. *)

Module AgentLaws.
Import Text Content Capability Artifact Tools Messages Agents.

(** * Instructions *)

Definition instruction_size (i : Instruction) : Z :=
  match instruction_content i with ICText t => len (content_text t) | ICArtifact a => byte_length (representation a) end.
Definition textual (i : Instruction) : Prop :=
  match instruction_content i with ICText _ => True | ICArtifact a => modality (representation a) = MText end.
Definition total (l : list Instruction) : Z := foldr (fun i s => instruction_size i + s) 0 l.

Lemma total_snoc l i : total (l ++ [i]) = total l + instruction_size i.
Proof. unfold total. induction l; simpl in *; lia. Qed.

Lemma instruction_total_app l1 l2 : total (l1 ++ l2) = total l1 + total l2.
Proof. unfold total. induction l1; simpl in *; lia. Qed.

Lemma instruction_total_nonneg l : Forall (fun i => 0 <= instruction_size i) l -> 0 <= total l.
Proof. induction 1 as [|i l Hi _ IH]; unfold total in *; simpl in *; lia. Qed.

Lemma content_length_Ok n i v : content_length n (instruction_content i) = Ok v <-> textual i /\ v = instruction_size i.
Proof.
  unfold content_length, textual, instruction_size. destruct (instruction_content i) as [t|a]; [split; [by intros [= <-] | by intros [_ ->]] |].
  case_bool_decide; simpl; split; [by intros [= <-] | by intros [_ ->] | done | by intros []].
Qed.

Lemma push_instruction_Ok st i st' :
  0 <= content_bytes st -> 0 <= instruction_size i ->
  push_instruction st i = Ok st' <->
  Z.of_nat (length (instruction_values st)) <> INSTRUCTIONS_MAX_LEN /\ instruction_identity i ∉ instruction_identity <$> instruction_values st /\
  textual i /\ content_bytes st + instruction_size i <= MAX_CONTENT_BYTES /\
  st' = mkInstructions (instruction_values st ++ [i]) (content_bytes st + instruction_size i).
Proof.
  intros H0 H1. unfold push_instruction. destruct (Z.eqb_spec (Z.of_nat (length (instruction_values st))) INSTRUCTIONS_MAX_LEN); [naive_solver |].
  destruct (existsb _ _) eqn:Ee.
  { apply existsb_exists in Ee as (x & Hx & He%bool_decide_eq_true). split; [done |]. intros (_ & Hn & _). destruct Hn.
    rewrite list_elem_of_fmap. exists x. split; [done |]. by apply list_elem_of_In. }
  assert (Hid : instruction_identity i ∉ instruction_identity <$> instruction_values st).
  { rewrite list_elem_of_fmap. intros (x & E & Hx%list_elem_of_In). apply not_true_iff_false in Ee. apply Ee, existsb_exists. exists x. by rewrite bool_decide_true. }
  rewrite bind_Ok. split.
  - intros (a & [Ht ->]%content_length_Ok & (s & Hs%ok_or_Ok & H)%bind_Ok). unfold Count.checked_add, Prelude.checked_add in Hs.
    destruct (content_bytes st + instruction_size i <=? u64_max); [| done]. injection Hs as <-. destruct (Z.ltb_spec MAX_CONTENT_BYTES (content_bytes st + instruction_size i)); [done |]. by injection H as <-.
  - intros (_ & _ & Ht & Hm & ->). exists (instruction_size i). split; [by apply content_length_Ok |]. apply bind_Ok. exists (content_bytes st + instruction_size i).
    split; [apply ok_or_Ok; unfold Count.checked_add, Prelude.checked_add |]. 2: by rewrite (proj2 (Z.ltb_ge _ _)) by lia.
    unfold MAX_CONTENT_BYTES, MEBIBYTE, KIBIBYTE in Hm. rewrite (proj2 (Z.leb_le _ _)); [done |]. unfold u64_max. lia.
Qed.
(** What the loop accepts from a state of [n] instructions. *)
Lemma push_instructions_Ok l : forall st st',
  0 <= content_bytes st -> Z.of_nat (length (instruction_values st)) <= INSTRUCTIONS_MAX_LEN ->
  NoDup (instruction_identity <$> instruction_values st) -> Forall (fun i => 0 <= instruction_size i) l ->
  try_fold push_instruction st l = Ok st' <->
  NoDup (instruction_identity <$> (instruction_values st ++ l)) /\ Z.of_nat (length (instruction_values st ++ l)) <= INSTRUCTIONS_MAX_LEN /\
  Forall textual l /\ (l = [] \/ content_bytes st + total l <= MAX_CONTENT_BYTES) /\
  st' = mkInstructions (instruction_values st ++ l) (content_bytes st + total l).
Proof.
  induction l as [|i l IH]; intros st st' H0 Hl Hnd Hs; simpl.
  - rewrite app_nil_r. unfold total. simpl. rewrite Z.add_0_r. destruct st. simpl. split; [intros [= <-]; eauto 8 | by intros (_ & _ & _ & _ & ->)].
  - apply Forall_cons in Hs as [Hi Hs]. rewrite bind_Ok. pose proof (instruction_total_nonneg l Hs) as Htot.
    assert (Hcons : forall l', l' ++ i :: l = (l' ++ [i]) ++ l) by (intros; by rewrite <- app_assoc).
    split.
    + intros (st1 & (Hn & Hid & Ht & Hb & ->)%push_instruction_Ok & Hf); [| done..]. apply IH in Hf as (A & B & C & D & ->); simpl; [| | | |].
      * simpl in *. rewrite Hcons, Forall_cons. split_and!; try done; [right | f_equal]; unfold total in *; simpl; destruct D as [->|D]; simpl in *; lia.
      * simpl. lia.
      * simpl. rewrite length_app. simpl. lia.
      * simpl. rewrite fmap_app. apply NoDup_app. split_and!; [done | set_solver | apply NoDup_singleton].
      * done.
    + intros (A & B & [Ht C]%Forall_cons & D & ->). destruct D as [D|D]; [done |]. rewrite Hcons in A, B.
      assert (Htc : total (i :: l) = instruction_size i + total l) by done.
      exists (mkInstructions (instruction_values st ++ [i]) (content_bytes st + instruction_size i)). split.
      * apply push_instruction_Ok; [done | done |]. rewrite !length_app in B. simpl in B. split_and!; [lia | | done | lia | done].
        rewrite fmap_app in A. apply NoDup_app in A as [A _]. rewrite fmap_app in A. apply NoDup_app in A as (_ & A & _). intros Hin. apply (A _ Hin). simpl. by left.
      * apply IH; simpl; [lia | | | done |].
        { rewrite !length_app in *. simpl in *. lia. }
        { rewrite fmap_app in A. by apply NoDup_app in A as [A _]. }
        split_and!; [done | done | done | right; lia | f_equal; [by rewrite Hcons | lia]].
Qed.

Lemma instructions_exact l v :
  Forall (fun i => 0 <= instruction_size i) l ->
  instructions_try_new l = Ok v <->
  v = mkInstructions l (total l) /\ (1 <= Z.of_nat (length l) <= INSTRUCTIONS_MAX_LEN) /\ NoDup (instruction_identity <$> l) /\ Forall textual l /\
  total l <= MAX_CONTENT_BYTES.
Proof.
  intros Hs. unfold instructions_try_new. rewrite bind_Ok. split.
  - intros (st & Hf & H). apply push_instructions_Ok in Hf as (A & B & C & D & ->); [| done | unfold INSTRUCTIONS_MAX_LEN; simpl; lia | constructor | done].
    simpl in *. destruct (Nat.eqb_spec (length l) 0); [done |]. injection H as <-. split_and!; try done; [lia |]. destruct D as [->|D]; [done | lia].
  - intros (-> & Hl & A & C & D). exists (mkInstructions l (total l)). split.
    + apply push_instructions_Ok; [done | unfold INSTRUCTIONS_MAX_LEN; simpl; lia | constructor | done |]. simpl. split_and!; try done; [lia | by right].
    + simpl. by rewrite (proj2 (Nat.eqb_neq _ _)) by lia.
Qed.
(** * Tools *)

Definition live_tool (d : ToolDescriptor) : Prop := is_retired (metadata d) = false.

Lemma insert_tool_Ok m d m' :
  insert_tool m d = Ok m' <-> bt_get (tool_name d) m = None /\ Z.of_nat (length m) <> TOOLS_MAX_LEN /\ live_tool d /\ m' = bt_insert (tool_name d) d m.
Proof.
  unfold insert_tool, live_tool. destruct (bt_get (tool_name d) m); simpl; [naive_solver |].
  destruct (Z.eqb_spec (Z.of_nat (length m)) TOOLS_MAX_LEN); [naive_solver |]. destruct (is_retired (metadata d)); [naive_solver |]. split; [by intros [= <-] | by intros (_ & _ & _ & ->)].
Qed.

Lemma insert_tools_Ok l : forall m m',
  keyed tool_name m -> Z.of_nat (length m) <= TOOLS_MAX_LEN ->
  try_fold insert_tool m l = Ok m' <->
  (NoDup (tool_name <$> l) /\ (forall d, d ∈ l -> tool_name d ∉ tool_name <$> into_values m)) /\ Z.of_nat (length m + length l) <= TOOLS_MAX_LEN /\
  Forall live_tool l /\ m' = fold_left (fun m d => bt_insert (tool_name d) d m) l m.
Proof.
  induction l as [|d l IH]; intros m m' Hk Hl; simpl.
  - rewrite Nat.add_0_r. split; [intros [= <-]; split_and!; [constructor | set_solver | done | constructor | done] | by intros (_ & _ & _ & ->)].
  - rewrite bind_Ok. setoid_rewrite insert_tool_Ok. setoid_rewrite (keyed_get_None tool_name m (tool_name d) Hk). split.
    + intros (m1 & (Hn & Hne & Hlv & ->) & Hf). pose proof (proj2 (keyed_get_None tool_name m (tool_name d) Hk) Hn) as Hg.
      pose proof (bt_insert_length_fresh (tool_name d) d m (proj1 Hk) Hg) as HL. apply IH in Hf as ((A & B) & C & D & ->); [| by apply keyed_insert | lia].
      split_and!; [| | lia | by constructor | done].
      * apply NoDup_cons. split; [| done]. intros (e & E & He)%list_elem_of_fmap. apply (B e He). rewrite <- E. apply list_elem_of_fmap_2.
        apply keyed_insert_elem; [done | done | by left].
      * intros e [->|He]%elem_of_cons; [done |]. intros (f & E & Hf)%list_elem_of_fmap. apply (B e He). rewrite E. apply list_elem_of_fmap_2.
        apply keyed_insert_elem; [done | done | by right].
    + intros ((A & B) & C & [Hlv D]%Forall_cons & ->). apply NoDup_cons in A as [A1 A2]. pose proof (B d ltac:(by left)) as Hn.
      pose proof (proj2 (keyed_get_None tool_name m (tool_name d) Hk) Hn) as Hg. pose proof (bt_insert_length_fresh (tool_name d) d m (proj1 Hk) Hg) as HL.
      exists (bt_insert (tool_name d) d m). split; [split_and!; [done | lia | done | done] |]. apply IH; [by apply keyed_insert | lia |].
      split_and!; [done | | lia | done | done]. intros e He (f & E & Hf)%list_elem_of_fmap. apply keyed_insert_elem in Hf as [->|Hf]; [| | done | done].
      * apply A1. rewrite <- E. by apply list_elem_of_fmap_2.
      * apply (B e); [by right |]. rewrite E. by apply list_elem_of_fmap_2.
Qed.

Lemma fold_tools_values l : forall m, keyed tool_name m -> NoDup (tool_name <$> l) -> (forall d, d ∈ l -> tool_name d ∉ tool_name <$> into_values m) ->
  keyed tool_name (fold_left (fun m d => bt_insert (tool_name d) d m) l m) /\
  forall d, d ∈ into_values (fold_left (fun m d => bt_insert (tool_name d) d m) l m) <-> d ∈ l \/ d ∈ into_values m.
Proof.
  induction l as [|e l IH]; intros m Hk Hn Hd; simpl; [split; [done | set_solver] |]. apply NoDup_cons in Hn as [Hne Hn].
  pose proof (proj2 (keyed_get_None tool_name m (tool_name e) Hk) (Hd e ltac:(by left))) as Hg.
  destruct (IH (bt_insert (tool_name e) e m)) as [K1 K2]; [by apply keyed_insert | done | |].
  - intros d Hin (f & E & Hf)%list_elem_of_fmap. apply keyed_insert_elem in Hf as [->|Hf]; [| | done | done].
    + apply Hne. rewrite <- E. by apply list_elem_of_fmap_2.
    + apply (Hd d); [by right |]. rewrite E. by apply list_elem_of_fmap_2.
  - split; [done |]. intros d. rewrite K2, keyed_insert_elem by done. set_solver.
Qed.

(** The tools of an agent are the given ones in order of their names. *)
Lemma tools_exact l m :
  tools_try_new l = Ok m -> NoDup (tool_name <$> l) /\ Z.of_nat (length l) <= TOOLS_MAX_LEN /\ Forall live_tool l /\
  keyed tool_name m /\ into_values m = sort_by_key tool_name l /\ length m = length l.
Proof.
  intros ((A & B) & C & D & ->)%insert_tools_Ok; [| apply keyed_nil | done]. destruct (fold_tools_values l [] (keyed_nil _) A B) as [K1 K2].
  assert (E : into_values (fold_left (fun m d => bt_insert (tool_name d) d m) l []) = sort_by_key tool_name l).
  { apply keyed_values_sort; [done | done |]. intros d. rewrite K2. set_solver. }
  split_and!; [done | done | done | done | done |]. rewrite <- (keyed_length (fold_left _ l [])), E. apply Permutation_length, sort_by_key_perm.
Qed.
(** * Descriptors *)

(** Capabilities as their constructors build them. *)
Definition capabilities_built (c : Models.ModelCapabilities) : Prop :=
  (exists p d n ch st, Models.tool_capabilities_new p d n ch st = Ok (Models.tools c)) /\
  exists i o s t so r lim, Models.capabilities_new i o s t so r lim = Ok c.

(** What one turn of an agent asks of its model: the agent's tools, with the tool
    that returns its output where the strategy has one, calls up to the declared
    number, the structured output of the strategy, and text. *)
Record turn_of (d : AgentDescriptor) (q : Models.ModelRequirements) : Prop := {
  tn_definitions : Models.min_definitions (Models.req_tools q) <= required_definitions d;
  tn_calls : Models.min_calls_per_response (Models.req_tools q) <= required_calls d;
  tn_choices : Models.required_choices (Models.req_tools q) ⊆ [Models.CAuto] /\ Models.requires_strict_arguments (Models.req_tools q) = false;
  tn_active : required_definitions d = 0 -> Models.min_definitions (Models.req_tools q) = 0;
  tn_structured : Models.req_structured_output q = if synthetic_output (agent_execution d) then Models.SUnsupported else Models.SJsonSchema;
  tn_input : Models.req_input_modalities q ⊆ if required_definitions d =? 0 then [] else [Models.MText];
  tn_output : Models.req_output_modalities q ⊆ [Models.MText];
  tn_plain : Models.req_streaming q = false /\ Models.req_reasoning_summaries q = false /\
             Models.min_context_tokens q = None /\ Models.min_input_tokens q = None /\ Models.min_output_tokens q = None
}.

Lemma satisfies_no_issue c q : (forall i, ~ Negotiation.unmet_issue c q i) -> Models.satisfies c q = Ok tt.
Proof.
  intros H. unfold Models.satisfies. destruct (Models.unmet_requirements c q) as [|i l] eqn:E; [done |]. destruct (H i).
  apply Negotiation.unmet_elem. rewrite E. by left.
Qed.

Lemma tools_text c : capabilities_built c -> Models.supports_tool_calling (Models.tools c) = true ->
  Models.MText ∈ Models.input_modalities c /\ Models.MText ∈ Models.output_modalities c /\ Models.CAuto ∈ Models.tool_choices (Models.tools c).
Proof.
  intros [(p & d & n & ch & st & Ht) (i & o & s & t & so & r & lim & Hc)] Hs. unfold Models.capabilities_new in Hc.
  destruct (_ =? _)%nat; [done |]. destruct (_ =? _)%nat; [done |]. destruct (_ && negb (bs_contains Models.MText i)) eqn:E1; [done |].
  destruct (Models.supports_tool_calling t && negb (bs_contains Models.MText o)) eqn:E2; [done |]. do 2 (case_match; [done |]). injection Hc as <-. simpl in *.
  rewrite Hs in E1, E2. simpl in E1, E2. apply negb_false_iff, bs_contains_iff in E1, E2. split_and!; [done | done |].
  unfold Models.tool_capabilities_new in Ht. destruct p.
  - destruct (_ =? _); [done |]. destruct (_ =? _); [done |]. destruct (bs_contains Models.CAuto ch) eqn:E3; simpl in Ht; [| done]. injection Ht as <-. by apply bs_contains_iff.
  - destruct (_ || _); [done |]. by injection Ht as <-.
Qed.

Lemma structured_text c : capabilities_built c -> Models.level (Models.structured_output c) <> Models.SUnsupported -> Models.MText ∈ Models.output_modalities c.
Proof.
  intros [_ (i & o & s & t & so & r & lim & Hc)] Hs. unfold Models.capabilities_new in Hc.
  destruct (_ =? _)%nat; [done |]. destruct (_ =? _)%nat; [done |]. do 2 (case_match; [done |]).
  destruct (negb (eqb_cmp (Models.level so) Models.SUnsupported) && negb (bs_contains Models.MText o)) eqn:E; [done |]. case_match; [done |].
  injection Hc as <-. simpl in *. apply andb_false_iff in E as [E|E]; apply negb_false_iff in E; [by apply eqb_cmp_spec in E | by apply bs_contains_iff].
Qed.

Lemma check_model_tools_Ok d : check_model_tools d = Ok tt -> required_definitions d <> 0 ->
  Models.supports_tool_calling (Models.tools (Models.capabilities (agent_model d))) = true /\
  required_definitions d <= Models.max_definitions (Models.tools (Models.capabilities (agent_model d))) /\
  required_calls d <= Models.max_calls_per_response (Models.tools (Models.capabilities (agent_model d))).
Proof.
  unfold check_model_tools. intros H Hn. rewrite (proj2 (Z.eqb_neq _ _) Hn) in H. destruct (Models.supports_tool_calling _); [| done]. simpl in H.
  destruct (Z.ltb_spec (Models.max_definitions (Models.tools (Models.capabilities (agent_model d)))) (required_definitions d)); [done |].
  destruct (Z.ltb_spec (Models.max_calls_per_response (Models.tools (Models.capabilities (agent_model d)))) (required_calls d)); [done |]. done.
Qed.

(** What an accepted descriptor established. *)
Record accepted (d : AgentDescriptor) : Prop := {
  ac_model : is_retired (Models.model_metadata (agent_model d)) = false;
  ac_reserved : synthetic_output (agent_execution d) = true -> contains_name (agent_tools d) FINAL_OUTPUT_TOOL_NAME = false;
  ac_request : required_definitions d <= MAX_TOOL_DEFINITIONS;
  ac_tools : check_model_tools d = Ok tt;
  ac_structured : synthetic_output (agent_execution d) = false -> Models.level (Models.structured_output (Models.capabilities (agent_model d))) = Models.SJsonSchema;
  ac_deadline : BudgetLimits.deadline (agent_budget_limits d) = None
}.

Lemma descriptor_new_Ok d d' : descriptor_new d = Ok d' -> d' = d /\ accepted d.
Proof.
  unfold descriptor_new. intros H. destruct (negb _); [done |]. destruct (is_retired _) eqn:E1; [done |]. destruct (_ && negb (_ =? 0)); [done |].
  destruct (_ && (_ =? 0)); [done |]. destruct (_ && contains_name _ _) eqn:E2; [done |].
  destruct (Z.ltb_spec MAX_TOOL_DEFINITIONS (required_definitions d)); [done |]. apply bind_Ok in H as ([] & Ht & H).
  destruct (negb _ && _) eqn:E3; [done |]. destruct (BudgetLimits.deadline _) eqn:E4; [done |]. injection H as <-. split; [done |]. constructor; try done.
  - intros Hs. by rewrite Hs in E2.
  - intros Hs. rewrite Hs in E3. simpl in E3. by destruct (Models.level _).
Qed.

(** Whatever a turn of an accepted agent asks, its model satisfies; its tools fit
    one request beside the reserved output tool, and no absolute deadline is
    carried from one run to the next. *)
Theorem agent_turns_serviceable d d' q :
  descriptor_new d = Ok d' -> capabilities_built (Models.capabilities (agent_model d)) -> turn_of d q ->
  Models.satisfies (Models.capabilities (agent_model d')) q = Ok tt /\
  required_definitions d' <= MAX_TOOL_DEFINITIONS /\ (synthetic_output (agent_execution d') = true -> FINAL_OUTPUT_TOOL_NAME ∉ (agent_tools d').*1) /\
  BudgetLimits.deadline (agent_budget_limits d') = None.
Proof.
  intros [-> Ha]%descriptor_new_Ok Hb Hq. split_and!.
  - apply satisfies_no_issue. pose proof (check_model_tools_Ok d (ac_tools d Ha)) as Hct. destruct Hq as [Hd Hc [Hch Hst] Hac Hso Hin Hout (Hs & Hr & Hx1 & Hx2 & Hx3)].
    assert (Hact : Models.min_definitions (Models.req_tools q) <> 0 -> required_definitions d <> 0) by naive_solver.
    intros [m|m| | |r a|r a|ch| |r a| |r a|r a|r a]; simpl.
    + intros [Hm Hn]. apply Hin in Hm. destruct (Z.eqb_spec (required_definitions d) 0) as [|Hz]; [set_solver |]. apply list_elem_of_singleton in Hm as ->.
      destruct (Hct Hz) as (Hsup & _). by destruct (tools_text _ Hb Hsup).
    + intros [Hm Hn]. apply Hout, list_elem_of_singleton in Hm as ->. destruct (synthetic_output (agent_execution d)) eqn:Es.
      * destruct (Hct ltac:(unfold required_definitions; rewrite Es; lia)) as (Hsup & _). by destruct (tools_text _ Hb Hsup) as (_ & ? & _).
      * apply Hn, structured_text; [done |]. by rewrite (ac_structured d Ha Es).
    + intros [? _]. congruence.
    + intros [Hn Hp]. destruct (Hct (Hact Hn)) as (Hsup & _). unfold Models.supports_tool_calling in Hsup. by rewrite Hp in Hsup.
    + intros (Hn & -> & -> & Hlt). destruct (Hct (Hact Hn)) as (_ & ? & _). lia.
    + intros (Hn & -> & -> & Hlt). destruct (Hct (Hact Hn)) as (_ & _ & ?). lia.
    + intros (Hn & Hin' & Hni). apply Hch, list_elem_of_singleton in Hin' as ->. destruct (Hct (Hact Hn)) as (Hsup & _). by destruct (tools_text _ Hb Hsup) as (_ & _ & ?).
    + intros (_ & ? & _). congruence.
    + intros (-> & -> & Hlt). rewrite Hso in Hlt. destruct (synthetic_output _) eqn:Es; [by destruct (Models.level _) |]. by rewrite (ac_structured d Ha Es) in Hlt.
    + intros [? _]. congruence.
    + intros [? _]. congruence.
    + intros [? _]. congruence.
    + intros [? _]. congruence.
  - exact (ac_request d Ha).
  - intros Hs Hin. pose proof (ac_reserved d Ha Hs) as Hn. unfold contains_name in Hn. apply not_true_iff_false in Hn. apply Hn, existsb_exists.
    eexists. split; [by apply list_elem_of_In | by apply bool_decide_eq_true].
  - exact (ac_deadline d Ha).
Qed.
Module Demo.
Import ToolInvocationLaws.ToolCalls.Demo(tool, schema, payments).

Definition model_caps : Models.ModelCapabilities :=
  Models.mkModelCapabilities [Models.MText] [Models.MText] false (Models.mkToolCapabilities (Some schema) 8 4 [Models.CAuto] false)
    (Models.mkStructured Models.SUnsupported None) false Models.token_limits_unknown.
Definition meta (k : CapabilityKind) : CapabilityMetadata := mkMetadata tool k None [112] Active [] Extension.Extension.extensions_default.
Definition agent : AgentDescriptor :=
  mkAgent (meta KAgent) schema schema (Models.mkModelDescriptor (meta KModel) model_caps) (mkInstructions [] 0) [(tool_name payments, payments)]
    (mkExecution ToolCall 8 1 2 (ParallelReadOnly 2)) BudgetLimits.empty.
Definition turn : Models.ModelRequirements :=
  Models.mkRequirements [Models.MText] [Models.MText] false (Models.mkToolRequirements 2 2 [Models.CAuto] false) Models.SUnsupported false None None None.

Lemma agent_turns_serviceable_witness : required_definitions agent = 2 /\ Models.satisfies model_caps turn = Ok tt.
Proof.
  split; [reflexivity |]. refine (proj1 (agent_turns_serviceable agent agent turn _ _ _)).
  - vm_compute. reflexivity.
  - split.
    + exists (Some schema), 8, 4, [Models.CAuto], false. vm_compute. reflexivity.
    + exists [Models.MText], [Models.MText], false, (Models.tools model_caps), (Models.structured_output model_caps), false, Models.token_limits_unknown.
      vm_compute. reflexivity.
  - constructor; vm_compute; try done; by split.
Defined.
End Demo.
End AgentLaws.
