(* ===== verification/ProviderRegistry.v ===== *)
(** The frozen provider registries
    (crates/stateknot-runtime/src/provider_registry.rs): startup builders that
    register each exact model or tool once, and the lookups that compare the
    whole descriptor.

    A provider is whatever type the caller has, seen through its descriptor; the
    keys of the ordered map are only looked up, so the map is an association list
    in registration order. *)

From Stdlib Require Import ZArith Lia List.
From stdpp Require Import prelude.
From S2P Require Import Prelude Capability Model Tool ModelInvocation.

Open Scope Z_scope.

Module Providers.
Import Capability Models Tools.

(** * Bindings *)

Section Bindings.
Context {D P : Type}.

Record Binding := mkBinding { bound_descriptor : D; bound_provider : P }.
Definition Registry := list (CapabilityIdentity * Binding).

Definition get (bindings : Registry) (id : CapabilityIdentity) : option Binding :=
  snd <$> List.find (fun kv => bool_decide (kv.1 = id)) bindings.
Definition insert_binding (bindings : Registry) (id : CapabilityIdentity) (b : Binding) : Registry := bindings ++ [(id, b)].

Context `{!EqDecision D}.
(** [provider.descriptor()]. *)
Variable provider_descriptor : P -> D.

Definition check_binding (b : Binding) (d : D) : bool :=
  bool_decide (bound_descriptor b = d) && bool_decide (provider_descriptor (bound_provider b) = d).
End Bindings.
Arguments Binding : clear implicits.
Arguments Registry : clear implicits.

(** * Models *)

Inductive ModelProviderRegistryError :=
| ModelTooManyBindings
| ModelDuplicateIdentity (identity : CapabilityIdentity)
| ModelMissingBinding (identity : CapabilityIdentity)
| ModelDescriptorMismatch (identity : CapabilityIdentity).

Definition MODEL_MAX_BINDINGS : Z := 4096.

Section ModelRegistry.
Context {P : Type}.
Variable model_provider_descriptor : P -> ModelDescriptor.

Definition model_register (bindings : Registry ModelDescriptor P) (provider : P)
  : result ModelProviderRegistryError (Registry ModelDescriptor P) :=
  if Z.of_nat (length bindings) =? MODEL_MAX_BINDINGS then Err ModelTooManyBindings else
  let d := model_provider_descriptor provider in
  let id := model_identity d in
  if negb (is_none (get bindings id)) then Err (ModelDuplicateIdentity id) else
  Ok (insert_binding bindings id (mkBinding d provider)).

Definition model_resolve (bindings : Registry ModelDescriptor P) (d : ModelDescriptor) : result ModelProviderRegistryError P :=
  let id := model_identity d in
  b ← ok_or (get bindings id) (ModelMissingBinding id);
  if negb (check_binding model_provider_descriptor b d) then Err (ModelDescriptorMismatch id) else Ok (bound_provider b).

Lemma model_resolve_descriptor bindings d p : model_resolve bindings d = Ok p -> model_provider_descriptor p = d.
Proof.
  unfold model_resolve, check_binding. destruct (get bindings _) as [b|]; simpl; [| done]. case_bool_decide; simpl; [| done]. case_bool_decide; simpl; [| done].
  intros [= <-]. done.
Qed.
End ModelRegistry.

(** * Tools *)

Inductive ToolProviderRegistryError :=
| ToolTooManyBindings
| ToolDuplicateIdentity (identity : CapabilityIdentity)
| ToolMissingBinding (identity : CapabilityIdentity)
| ToolDescriptorMismatch (identity : CapabilityIdentity)
| ReconciliationCapabilityMismatch (identity : CapabilityIdentity).

Definition TOOL_MAX_BINDINGS : Z := 16384.

Section ToolRegistry.
Context {P : Type}.
Variable tool_provider_descriptor : P -> ToolDescriptor.
Variable supports_reconciliation : P -> bool.

Definition tool_register (bindings : Registry ToolDescriptor P) (provider : P)
  : result ToolProviderRegistryError (Registry ToolDescriptor P) :=
  if Z.of_nat (length bindings) =? TOOL_MAX_BINDINGS then Err ToolTooManyBindings else
  let d := tool_provider_descriptor provider in
  let id := tool_identity d in
  if supports_reconciliation provider && negb (status_query (semantics d)) then Err (ReconciliationCapabilityMismatch id) else
  if negb (is_none (get bindings id)) then Err (ToolDuplicateIdentity id) else
  Ok (insert_binding bindings id (mkBinding d provider)).

Definition tool_resolve (bindings : Registry ToolDescriptor P) (d : ToolDescriptor) : result ToolProviderRegistryError P :=
  let id := tool_identity d in
  b ← ok_or (get bindings id) (ToolMissingBinding id);
  if negb (check_binding tool_provider_descriptor b d) then Err (ToolDescriptorMismatch id) else Ok (bound_provider b).

(** ** Laws *)

Lemma get_app {D} (l1 l2 : Registry D P) id : get (l1 ++ l2) id = match get l1 id with Some b => Some b | None => get l2 id end.
Proof. unfold get. induction l1 as [|[k b] l1 IH]; simpl; [done |]. by case_bool_decide. Qed.

Lemma tool_resolve_descriptor bindings d p : tool_resolve bindings d = Ok p -> tool_provider_descriptor p = d.
Proof.
  unfold tool_resolve, check_binding. destruct (get bindings _) as [b|]; simpl; [| done]. case_bool_decide; simpl; [| done]. case_bool_decide; simpl; [| done].
  intros [= <-]. done.
Qed.

#[local] Abbreviation ident := (fun p => tool_identity (tool_provider_descriptor p)).
#[local] Abbreviation entry := (fun p => (ident p, mkBinding (tool_provider_descriptor p) p)).

Lemma get_entries (ps : list P) id :
  get (entry <$> ps) id = (fun p => mkBinding (tool_provider_descriptor p) p) <$> List.find (fun p => bool_decide (ident p = id)) ps.
Proof. unfold get. induction ps as [|p ps IH]; simpl; [done |]. by case_bool_decide. Qed.

Lemma get_entries_None (ps : list P) id : get (entry <$> ps) id = None <-> id ∉ ident <$> ps.
Proof.
  rewrite get_entries, fmap_None. split.
  - intros Hf (p & -> & Hp)%list_elem_of_fmap. pose proof (find_none _ _ Hf p ltac:(by apply list_elem_of_In)) as H. simpl in H. by rewrite bool_decide_true in H.
  - intros Hn. destruct (List.find _ ps) as [p|] eqn:E; [| done]. apply find_some in E as [Hp He%bool_decide_eq_true]. destruct Hn. rewrite <- He.
    apply list_elem_of_fmap. exists p. split; [done | by apply list_elem_of_In].
Qed.

Lemma registered_entries (ps : list P) bindings :
  try_fold tool_register [] ps = Ok bindings ->
  bindings = entry <$> ps /\ NoDup (ident <$> ps) /\ Z.of_nat (length ps) <= TOOL_MAX_BINDINGS /\
  (forall p, p ∈ ps -> supports_reconciliation p = true -> status_query (semantics (tool_provider_descriptor p)) = true).
Proof.
  revert bindings. induction ps as [|p ps IH] using rev_ind; intros bindings.
  { intros [= <-]. split_and!; [done | constructor | done | by intros ? ?%elem_of_nil]. }
  rewrite try_fold_app. destruct (try_fold tool_register [] ps) as [b|]; [| done]. destruct (IH b eq_refl) as (-> & Hn & Hl & Hs). cbn -[fmap]. unfold tool_register.
  rewrite length_fmap. destruct (Z.eqb_spec (Z.of_nat (length ps)) TOOL_MAX_BINDINGS); [done |].
  destruct (supports_reconciliation p && _) eqn:Er; [done |]. destruct (get _ _) eqn:Eg; [done |]. cbn -[fmap]. intros [= <-].
  apply get_entries_None in Eg. unfold insert_binding. rewrite !fmap_app. split_and!; [done | | rewrite length_app; simpl; lia |].
  - apply NoDup_app. split_and!; [done | by intros x Hx ->%list_elem_of_singleton | apply NoDup_singleton].
  - intros x Hx Hrec. apply elem_of_app in Hx as [Hx|Hx]; [by apply Hs |]. apply list_elem_of_singleton in Hx as ->. rewrite Hrec in Er. simpl in Er. by apply negb_false_iff in Er.
Qed.

(** A registry is what its registrations put there: a tool resolves exactly if it
    was registered with this very descriptor. *)
Theorem tool_registry_exact (ps : list P) bindings :
  try_fold tool_register [] ps = Ok bindings ->
  bindings = (fun p => (tool_identity (tool_provider_descriptor p), mkBinding (tool_provider_descriptor p) p)) <$> ps /\
  NoDup ((tool_identity ∘ tool_provider_descriptor) <$> ps) /\ Z.of_nat (length ps) <= TOOL_MAX_BINDINGS /\
  (forall d p, tool_resolve bindings d = Ok p <-> p ∈ ps /\ tool_provider_descriptor p = d) /\
  (forall p, p ∈ ps -> supports_reconciliation p = true -> status_query (semantics (tool_provider_descriptor p)) = true).
Proof.
  intros Hf. destruct (registered_entries _ _ Hf) as (-> & Hn & Hl & Hs). split_and!; try done. intros d p. unfold tool_resolve. rewrite get_entries. split.
  - destruct (List.find _ ps) as [q|] eqn:E; simpl; [| done]. unfold check_binding. simpl. case_bool_decide as Hd; simpl; [| done].
    intros [= <-]. apply find_some in E as [Hq _]. split; [by apply list_elem_of_In | done].
  - intros [Hp Hd]. destruct (List.find _ ps) as [q|] eqn:E; simpl.
    + apply find_some in E as [Hq%list_elem_of_In He%bool_decide_eq_true]. assert (q = p) as ->.
      { apply list_elem_of_lookup in Hp as [i Hi]. apply list_elem_of_lookup in Hq as [j Hj].
        assert (i = j) as <-; [| congruence]. apply (NoDup_lookup (ident <$> ps) i j (ident p)); [done | by rewrite list_lookup_fmap, Hi | rewrite list_lookup_fmap, Hj; simpl; congruence]. }
      unfold check_binding. simpl. by rewrite !bool_decide_true.
    + pose proof (find_none _ _ E p ltac:(by apply list_elem_of_In)) as H. simpl in H. by rewrite Hd, bool_decide_true in H.
Qed.
End ToolRegistry.
End Providers.
