(* ===== verification/Executor.v ===== *)
(** What the durable invocation executor shares between models and tools
    (crates/stateknot-runtime/src/invocation_executor.rs): options, event
    identities, the budget left to a run with children, journal appends, the
    evidence of the runtime itself, and the bounded retry of a ledger step.

    The executor is a computation on the world (store, clock, budget provider,
    providers, sinks) and a log of what it did.  A [select!] between cancellation,
    the deadline and a future is a [Race] that the world decides.  [Panicked] is an
    [expect] that failed, [OutOfRetries] an exhausted loop. *)

From Stdlib Require Import ZArith Lia List.
From stdpp Require Import prelude.
From S2P Require Import Prelude Json Ids StoreErrors Content Failures Accounting Time Capability Budget Checkpoint Run Lease Journal Tool ToolRuntime ModelEvent ChildBudget Scheduler.

Open Scope Z_scope.
Import Timestamp(Timestamp).
Import RunLease(RunFence).

Module Executor.
Import Content Capability.
Import Journal(JournalAppend, JournalPayload, JournalEvent, worker, append_new, ExpectExact, IntentDigestWire).

(** * Options *)

Definition MAX_MUTATION_RETRY_DELAY : Z := NANOS_PER_SEC.
Definition HARD_MAXIMUM_MUTATION_ATTEMPTS : Z := 10.

Record DurableInvocationExecutorOptions := mkOptions { maximum_mutation_attempts : Z; mutation_retry_initial_delay : Z }.

Inductive DurableInvocationExecutorOptionsError := InvalidMutationAttempts | InvalidMutationRetryDelay.

Definition options_new (attempts delay : Z) : result DurableInvocationExecutorOptionsError DurableInvocationExecutorOptions :=
  if (attempts =? 0) || (HARD_MAXIMUM_MUTATION_ATTEMPTS <? attempts) then Err InvalidMutationAttempts else
  if (delay =? 0) || (MAX_MUTATION_RETRY_DELAY <? delay) then Err InvalidMutationRetryDelay else
  Ok (mkOptions attempts delay).

Definition exponential_backoff (initial attempt : Z) : Z :=
  Z.min (default MAX_MUTATION_RETRY_DELAY (duration_checked_mul initial (shl_or_max (saturating_sub attempt 1)))) MAX_MUTATION_RETRY_DELAY.

(** * Identities, clocks and budgets *)

Record InvocationAttemptEventIds := mkEventIds { start_event : Z; terminal_event : Z }.

Definition event_ids_new (start terminal : Z) : option InvocationAttemptEventIds :=
  if start =? terminal then None else Some (mkEventIds start terminal).

Inductive InvocationClockError := BeforeUnixEpoch | TimestampOutOfRange.

Record InvocationClockObservation := mkObservation { observed_at : Timestamp; observed_instant : ToolRuntime.Instant }.

(** [SystemInvocationClock::observe] from the nanoseconds of the system time since
    the epoch, negative before it. *)
Definition system_observe (instant : ToolRuntime.Instant) (since_epoch : Z) : result InvocationClockError InvocationClockObservation :=
  if since_epoch <? 0 then Err BeforeUnixEpoch else
  let micros := since_epoch / 1000 in
  if i64_max <? micros then Err TimestampOutOfRange else
  at_ ← map_err (fun _ => TimestampOutOfRange) (Timestamp.from_unix_micros micros);
  Ok (mkObservation at_ instant).

Inductive InvocationBoundaryKind := BoundaryModel | BoundaryTool.

Record InvocationBudgetContext := mkBudgetContext {
  bc_provenance : AgentResultProvenance CapabilityIdentity;
  bc_boundary : InvocationBoundaryKind;
  bc_invocation_id : Z;
  bc_attempt_id : Z;
  bc_intent_digest : Digest;
  bc_observed_at : Timestamp
}.

(** The private source of a budget error: a provider's own, or the store's. *)
Inductive InvocationBudgetProviderError := ProviderSource | StoreSource (source : StoreError).

Abbreviation AccountT := (ChildBudget.ChildRunBudgetAccount CapabilityIdentity SchemaReference).

Definition deduct_child_budget (remaining : BudgetRemaining.t) (account : option AccountT) : result StoreError BudgetRemaining.t :=
  match account with
  | None => Ok remaining
  | Some account =>
      if existsb (fun entry => is_none (ChildBudget.en_settlement entry)) (ChildBudget.children account) then Err UnsettledChildRuns else
      usage ← map_err (fun _ => IncompleteChildAccounting) (ChildBudget.delegated_usage account);
      map_err (fun _ => IncompleteChildAccounting) (BudgetRemaining.deduct_cumulative remaining usage)
  end.

Inductive InvocationAttemptHandoffError := ScopeMismatch | InvocationNotStartable | MissingStreamSink | UnexpectedStreamSink.

Inductive InvocationTerminalCommitFailure :=
| CommitStore (source : StoreError)
| InvalidEventPayload
| InvalidJournalAppend
| RunJournalUnavailable
| InvalidInvocationState.

(** What the executor reads of a stored run. *)
Record RunView := mkRunView { rv_provenance : AgentResultProvenance CapabilityIdentity; rv_journal_head : option JournalHead }.

(** [ModelInvocationCommitOutcome] and [ToolInvocationCommitOutcome]. *)
Inductive CommitOutcome (I : Type) := Committed (event : JournalEvent SchemaReference) (invocation : I) | Idempotent (event : JournalEvent SchemaReference) (invocation : I).
Arguments Committed {I} event invocation.
Arguments Idempotent {I} event invocation.
Definition outcome_invocation {I} (o : CommitOutcome I) : I := match o with Committed _ i | Idempotent _ i => i end.

(** Which arm of a [select!] was taken. *)
Inductive Race (A : Type) := RaceCancelled | RaceDeadline | RaceDone (value : A).
Arguments RaceCancelled {A}.
Arguments RaceDeadline {A}.
Arguments RaceDone {A} value.

(** * Computations *)

Inductive Stop (E : Type) := Failed (error : E) | Panicked | OutOfRetries.
Arguments Failed {E} error.
Arguments Panicked {E}.
Arguments OutOfRetries {E}.

(** What an executor did, latest first. *)
Inductive Event :=
| EStarted (attempt : Z)
| ECalled (attempt : Z)
| EEmitted (event : Events.ModelEvent)
| ERecorded
| ESlept (delay : Z).

Record St (W : Type) := mkSt { world : W; log : list Event }.
Arguments mkSt {W} world log.
Arguments world {W} s.
Arguments log {W} s.

Record M (W E A : Type) := mkM { run : St W -> result (Stop E) A * St W }.
Arguments mkM {W E A} run.
Arguments run {W E A} m s.

#[global] Instance M_ret {W E} : MRet (M W E) := fun _ a => mkM (fun s => (Ok a, s)).
#[global] Instance M_bind {W E} : MBind (M W E) :=
  fun _ _ f m => mkM (fun s => match run m s with (Ok a, s') => run (f a) s' | (Err e, s') => (Err e, s') end).

Section Computations.
Context {W : Type}.
Definition stop {E A} (e : Stop E) : M W E A := mkM (fun s => (Err e, s)).
Definition fail {E A} (e : E) : M W E A := stop (Failed e).
Definition lift {E A} (r : result E A) : M W E A := match r with Ok a => mret a | Err e => fail e end.
Definition lift_fault {E A} (r : result (fault E) A) : M W E A :=
  match r with Ok a => mret a | Err (Fail e) => fail e | Err Panic => stop Panicked end.
Definition ask {E A} (op : W -> A * W) : M W E A := mkM (fun s => let '(a, w) := op (world s) in (Ok a, mkSt w (log s))).
Definition tell {E} (e : Event) : M W E unit := mkM (fun s => (Ok tt, mkSt (world s) (e :: log s))).
Definition map_error {E F A} (f : E -> F) (m : M W E A) : M W F A :=
  mkM (fun s => match run m s with
                | (Ok a, s') => (Ok a, s')
                | (Err (Failed e), s') => (Err (Failed (f e)), s')
                | (Err Panicked, s') => (Err Panicked, s')
                | (Err OutOfRetries, s') => (Err OutOfRetries, s')
                end).

(** ** The retried ledger step *)

Variable opts : DurableInvocationExecutorOptions.

Fixpoint advance_loop {A} (op : W -> result StoreError A * W) (fuel : nat) (attempt : Z) : M W StoreError A :=
  match fuel with
  | O => stop OutOfRetries
  | S fuel =>
      r ← ask op;
      match r with
      | Ok outcome => mret outcome
      | Err error =>
          if (attempt <? maximum_mutation_attempts opts) && is_retryable error then
            _ ← tell (ESlept (exponential_backoff (mutation_retry_initial_delay opts) attempt));
            advance_loop op fuel (saturating_add u8_max attempt 1)
          else fail error
      end
  end.

Definition advance_with_retry {A} (op : W -> result StoreError A * W) : M W StoreError A :=
  advance_loop op (Z.to_nat (maximum_mutation_attempts opts)) 1.
End Computations.

(** * Appends and the runtime's own failures *)

Section Evidence.
Context `{!Canonical IntentDigestWire}.
Variable sha256 : bytes -> bytes.

Definition worker_append (fence : RunFence) (head : JournalHead) (event : Z) (payload : JournalPayload SchemaReference)
  : option (JournalAppend SchemaReference) :=
  match worker sha256 (RunLease.tenant_id fence) (RunLease.run_id fence) event fence payload with
  | Ok intent => match append_new (ExpectExact head) intent with Ok append => Some append | Err _ => None end
  | Err _ => None
  end.

Context {W Details : Type}.
Variable generate : W -> Z * W.

(** [runtime_failure]. *)
Definition runtime_failure {E} (cat : FailureCategory) (code message : bytes) (advice : RetryAdvice) : M W E (Failure Details) :=
  id ← ask generate;
  lift_fault (ToolRuntime.static_failure id cat advice code (bytes_of "stateknot.runtime") message).

(** [expect] inside a computation. *)
Definition expect {E F A} (r : result F A) : M W E A := match r with Ok a => mret a | Err _ => stop Panicked end.
End Evidence.

(** * The world *)

Class Env (W Details ToolInv ToolHead ToolStep ModelInv ModelHead ModelStep ModelEv : Type) := {
  generate : W -> Z * W;
  (** The cancellation signal and [Instant::now()]. *)
  look : W -> (bool * ToolRuntime.Instant) * W;
  observe : W -> result InvocationClockError InvocationClockObservation * W;
  budget_remaining : InvocationBudgetContext -> W -> result unit BudgetRemaining.t * W;
  load_run : TenantId -> RunId -> W -> result StoreError RunView * W;
  load_child_budget_account : TenantId -> RunId -> W -> result StoreError (option AccountT) * W;
  load_admission_deadline : TenantId -> RunId -> W -> result StoreError Timestamp * W;
  load_tool_invocation : TenantId -> RunId -> Z -> W -> result StoreError ToolInv * W;
  advance_tool : JournalAppend SchemaReference -> ToolHead -> ToolStep -> option Digest -> W -> result StoreError (CommitOutcome ToolInv) * W;
  load_model_invocation : TenantId -> RunId -> Z -> W -> result StoreError ModelInv * W;
  advance_model : JournalAppend SchemaReference -> ModelHead -> ModelStep -> option Digest -> W -> result StoreError (CommitOutcome ModelInv) * W;
  emit : ModelEv -> W -> Race (result unit unit) * W
}.

(** The payload of an audit event, from its kind, operation, binding kind,
    invocation, attempt and intent digest; it needs the schema registry. *)
Definition EventPayload := bytes -> bytes -> bytes -> Z -> Z -> Digest -> option (JournalPayload SchemaReference).
End Executor.

(** Rules for the computations of the invocation executor ([Executor.v]): what a
    computation adds to the log, apart from delays, and how it ends. *)

Module ExecutorRules.
Import Executor.

Definition is_act (e : Event) : bool := match e with ESlept _ => false | _ => true end.
Definition acts (l : list Event) : list Event := List.filter is_act l.
Definition short (e : Event) : Prop := match e with ESlept d => d <= MAX_MUTATION_RETRY_DELAY | _ => True end.

Lemma acts_app l1 l2 : acts (l1 ++ l2) = acts l1 ++ acts l2.
Proof. apply List.filter_app. Qed.

Section Rules.
Context {W : Type}.

(** [m] adds acts and short delays to the log as [Q] says. *)
Definition ensures {E A} (m : M W E A) (Q : result (Stop E) A -> list Event -> Prop) : Prop :=
  forall s, exists δ, log (run m s).2 = δ ++ log s /\ Forall short δ /\ Q (run m s).1 (acts δ).

Lemma ens_ret {E A} (a : A) (Q : result (Stop E) A -> list Event -> Prop) : Q (Ok a) [] -> ensures (mret a) Q.
Proof. intros H s. by exists []. Qed.
Lemma ens_stop {E A} st (Q : result (Stop E) A -> list Event -> Prop) : Q (Err st) [] -> ensures (stop st) Q.
Proof. intros H s. by exists []. Qed.
Lemma ens_ask {E A} (op : W -> A * W) (Q : result (Stop E) A -> list Event -> Prop) : (forall w, Q (Ok (op w).1) []) -> ensures (ask op) Q.
Proof. intros H s. exists []. unfold ask. simpl. specialize (H (world s)). by destruct (op (world s)). Qed.
Lemma ens_tell {E} ev (Q : result (Stop E) unit -> list Event -> Prop) : is_act ev = true -> Q (Ok tt) [ev] -> ensures (tell ev) Q.
Proof. intros Ha H s. exists [ev]. simpl. rewrite Ha. split_and!; [done | by destruct ev; repeat constructor | done]. Qed.

Lemma ens_weaken {E A} (m : M W E A) (Q Q' : result (Stop E) A -> list Event -> Prop) : ensures m Q -> (forall r δ, Q r δ -> Q' r δ) -> ensures m Q'.
Proof. intros H Hi s. destruct (H s) as (δ & ? & ? & ?). exists δ. auto. Qed.

Lemma ens_bind {E A B} (m : M W E A) (f : A -> M W E B) Q1 (Q : result (Stop E) B -> list Event -> Prop) :
  ensures m Q1 -> (forall a δ, Q1 (Ok a) δ -> ensures (f a) (fun r δ' => Q r (δ' ++ δ))) -> (forall st δ, Q1 (Err st) δ -> Q (Err st) δ) ->
  ensures (m ≫= f) Q.
Proof.
  intros Hm Hf He s. destruct (Hm s) as (δ & Hl & Hs & HQ). unfold mbind, M_bind. simpl. destruct (run m s) as [[a|st] s']; simpl in *.
  - destruct (Hf a _ HQ s') as (δ' & Hl' & Hs' & HQ'). exists (δ' ++ δ). rewrite Hl', Hl, acts_app, app_assoc. split_and!; [done | by apply Forall_app | done].
  - exists δ. auto.
Qed.

Lemma ens_map_error {E F A} (f : E -> F) (m : M W E A) (Q1 : result (Stop E) A -> list Event -> Prop) (Q : result (Stop F) A -> list Event -> Prop) :
  ensures m Q1 -> (forall a δ, Q1 (Ok a) δ -> Q (Ok a) δ) -> (forall e δ, Q1 (Err (Failed e)) δ -> Q (Err (Failed (f e))) δ) ->
  (forall δ, Q1 (Err Panicked) δ -> Q (Err Panicked) δ) -> (forall δ, Q1 (Err OutOfRetries) δ -> Q (Err OutOfRetries) δ) -> ensures (map_error f m) Q.
Proof.
  intros Hm H1 H2 H3 H4 s. destruct (Hm s) as (δ & Hl & Hs & HQ). unfold map_error. simpl. destruct (run m s) as [[a|[e| |]] s']; simpl in *; exists δ; auto.
Qed.

(** ** Computations that act on nothing and do not panic *)

Definition silent {E A} (PE : E -> Prop) (P : A -> Prop) (r : result (Stop E) A) (δ : list Event) : Prop :=
  δ = [] /\ match r with Ok a => P a | Err (Failed e) => PE e | Err _ => False end.
Definition quiet {E A} (PE : E -> Prop) (P : A -> Prop) (m : M W E A) : Prop := ensures m (silent PE P).

Lemma silent_bind {E A B} PE P P' (m : M W E A) (f : A -> M W E B) : quiet PE P m -> (forall a, P a -> quiet PE P' (f a)) -> quiet PE P' (m ≫= f).
Proof.
  intros Hm Hf. eapply ens_bind; [apply Hm | |].
  - intros a δ [-> HP]. eapply ens_weaken; [by apply Hf |]. intros r δ'. by rewrite app_nil_r.
  - intros st δ [-> H]. by destruct st.
Qed.
Lemma silent_ret {E A} (PE : E -> Prop) (P : A -> Prop) a : P a -> quiet PE P (mret a).
Proof. intros H. by apply ens_ret. Qed.
Lemma silent_fail {E A} (PE : E -> Prop) (P : A -> Prop) e : PE e -> quiet PE P (fail e).
Proof. intros H. by apply ens_stop. Qed.
Lemma silent_lift {E A} (PE : E -> Prop) (P : A -> Prop) r :
  (forall a, r = Ok a -> P a) -> (forall e, r = Err e -> PE e) -> quiet PE P (lift r).
Proof. intros H1 H2. destruct r; [by apply silent_ret, H1 | by apply silent_fail, H2]. Qed.
Lemma silent_lift_fault {E A} (PE : E -> Prop) (P : A -> Prop) (r : result (fault E) A) :
  r <> Err Panic -> (forall a, r = Ok a -> P a) -> (forall e, r = Err (Fail e) -> PE e) -> quiet PE P (lift_fault r).
Proof. intros H0 H1 H2. destruct r as [a|[|e]]; [by apply silent_ret, H1 | done | by apply silent_fail, H2]. Qed.
Lemma silent_ask {E A} (PE : E -> Prop) (P : A -> Prop) (op : W -> A * W) : (forall w, P (op w).1) -> quiet PE P (ask op).
Proof. intros H. by apply ens_ask. Qed.
Lemma silent_map_error {E F A} (PE : E -> Prop) (PF : F -> Prop) (P : A -> Prop) f m :
  quiet PE P m -> (forall e, PE e -> PF (f e)) -> quiet PF P (map_error f m).
Proof.
  intros Hm Hf. eapply ens_map_error; [apply Hm | ..].
  - done.
  - intros e δ [-> H]. split; [done | by apply Hf].
  - by intros δ [_ ?].
  - by intros δ [_ ?].
Qed.

(** Continue after a quiet computation. *)
Lemma ens_quiet {E A B} PE P (m : M W E A) (f : A -> M W E B) Q :
  quiet PE P m -> (forall a, P a -> ensures (f a) Q) -> (forall e, PE e -> Q (Err (Failed e)) []) -> ensures (m ≫= f) Q.
Proof.
  intros Hm Hf He. eapply ens_bind; [apply Hm | |].
  - intros a δ [-> HP]. eapply ens_weaken; [by apply Hf |]. intros r δ'. by rewrite app_nil_r.
  - intros st δ [-> H]. destruct st; [by apply He | done | done].
Qed.

Lemma map_err_Err_inv {E F A} (f : E -> F) (r : result E A) e : map_err f r = Err e -> exists e0, r = Err e0 /\ e = f e0.
Proof. destruct r; simpl; [done |]. intros [= <-]. eauto. Qed.

(** A question to the world whose error is reported as [f] says. *)
Lemma silent_query {E F A} (PE : F -> Prop) (P : A -> Prop) (f : E -> F) (op : W -> result E A * W) :
  (forall e, PE (f e)) -> (forall w a, (op w).1 = Ok a -> P a) -> quiet PE P (r ← ask op; lift (map_err f r)).
Proof.
  intros He HP. apply (silent_bind _ (fun r => forall a, r = Ok a -> P a)); [apply silent_ask; intros w a Hw; by eapply HP |].
  intros [a|e] Hr; simpl; [by apply silent_ret, Hr | by apply silent_fail].
Qed.

(** ** Ledger steps *)

Lemma options_bounds attempts delay opts :
  0 <= attempts -> options_new attempts delay = Ok opts -> 1 <= maximum_mutation_attempts opts <= HARD_MAXIMUM_MUTATION_ATTEMPTS.
Proof.
  intros Ha Ho. unfold options_new in Ho. destruct (Z.eqb_spec attempts 0); [done |]. destruct (Z.ltb_spec HARD_MAXIMUM_MUTATION_ATTEMPTS attempts); [done |]. simpl in Ho.
  destruct (_ || _); [done |]. injection Ho as <-. simpl. lia.
Qed.

Variable opts : DurableInvocationExecutorOptions.
Hypothesis Hopts : 1 <= maximum_mutation_attempts opts <= HARD_MAXIMUM_MUTATION_ATTEMPTS.

Lemma backoff_short initial attempt : exponential_backoff initial attempt <= MAX_MUTATION_RETRY_DELAY.
Proof. unfold exponential_backoff. lia. Qed.

Lemma advance_loop_quiet {A} (P : A -> Prop) (op : W -> result StoreError A * W) :
  (forall w a, (op w).1 = Ok a -> P a) -> forall fuel attempt, 1 <= attempt <= maximum_mutation_attempts opts ->
  Z.of_nat fuel = maximum_mutation_attempts opts - attempt + 1 -> quiet (fun _ => True) P (advance_loop opts op fuel attempt).
Proof.
  intros HP. induction fuel as [|fuel IH]; intros attempt Ha Hf; [lia |]. cbn [advance_loop].
  apply (silent_bind _ (fun r => forall a, r = Ok a -> P a)); [apply silent_ask; intros w a Hw; by eapply HP |].
  intros [a|e] Hr; [by apply silent_ret, Hr |]. destruct (Z.ltb_spec attempt (maximum_mutation_attempts opts)); simpl; [| by apply silent_fail].
  destruct (is_retryable e); [| by apply silent_fail].
  apply (silent_bind _ (fun _ => True)).
  - intros s. eexists [_]. simpl. split_and!; [done | | by split]. repeat constructor. apply backoff_short.
  - intros _ _. assert (saturating_add u8_max attempt 1 = attempt + 1) as -> by (unfold saturating_add, u8_max, HARD_MAXIMUM_MUTATION_ATTEMPTS in *; lia). apply IH; lia.
Qed.

Lemma advance_quiet {A} (P : A -> Prop) (op : W -> result StoreError A * W) :
  (forall w a, (op w).1 = Ok a -> P a) -> quiet (fun _ => True) P (advance_with_retry opts op).
Proof. intros HP. apply advance_loop_quiet; [done | lia | lia]. Qed.

(** ** The runtime's own failures *)

Context {Details : Type}.
Lemma runtime_failure_quiet {E} (PE : E -> Prop) generate cat code message advice (P : Failure Details -> Prop) :
  is_ok (Failures.validate_failure_identifier code) = true -> is_ok (Failures.validate_failure_message message) = true -> validate_failure_recovery cat advice = Ok tt ->
  (forall id, P (mkFailure id cat code (bytes_of "stateknot.runtime") message advice None None)) ->
  quiet PE P (runtime_failure generate cat code message advice).
Proof.
  intros Hc Hm Hr HP. unfold runtime_failure. apply (silent_bind _ (fun _ => True)); [by apply silent_ask |]. intros id _.
  unfold ToolRuntime.static_failure. destruct (Failures.validate_failure_identifier code) as [[]|]; [| done]. destruct (Failures.validate_failure_message message) as [[]|]; [| done].
  assert (Failures.validate_failure_identifier (bytes_of "stateknot.runtime") = Ok tt) as -> by (by vm_compute). unfold failure_new. rewrite Hr. cbn -[bytes_of].
  by apply silent_ret.
Qed.
End Rules.
End ExecutorRules.
