(* ===== verification/ToolExecutor.v ===== *)
(** The tool half of the durable invocation executor
    (crates/stateknot-runtime/src/invocation_executor.rs): handoffs, the context
    of an attempt, the durable start before the provider is called, the evidence
    kept from any answer, its commit, and the reconciliation of a write whose
    outcome is unknown. *)

From Stdlib Require Import ZArith Lia List.
From stdpp Require Import prelude.
From S2P Require Import Prelude Json StoreErrors BoundedJson Content Failures Accounting Time Capability Budget BudgetLaws Checkpoint Run Lease Journal Tool ToolInvocation ToolInvocationLaws ToolRuntime Scheduler ToolRuntimeLaws ProviderRegistry Executor.

Open Scope Z_scope.
Import Timestamp(Timestamp).
Import RunLease(RunFence).

Module ToolExecutor.
Import Content Capability Tools ToolInvocations ToolRuntime Providers Executor.
Import Journal(JournalPayload, JournalEvent, IntentDigestWire).

Section Tools.
Context {Details : Type}.
Abbreviation InvT := (ToolInvocation Details).
Abbreviation StepT := (ToolInvocationTransition Details).

(** * Handoffs *)

Record ToolAttemptHandoff := mkHandoff {
  ho_fence : RunFence;
  ho_invocation : InvT;
  ho_attempt_id : Z;
  ho_events : InvocationAttemptEventIds;
  ho_progress : bool
}.

(** The scope checks of the handoffs. *)
Definition in_scope (fence : RunFence) (inv : InvT) : bool :=
  bool_decide (intent_tenant_id (intent inv) = RunLease.tenant_id fence) && bool_decide (intent_run_id (intent inv) = RunLease.run_id fence) &&
  bool_decide (jh_tenant_id (journal_head inv) = RunLease.tenant_id fence) && bool_decide (jh_run_id (journal_head inv) = RunLease.run_id fence).

Definition same_run (fence : RunFence) (inv : InvT) : bool :=
  bool_decide (intent_tenant_id (intent inv) = RunLease.tenant_id fence) && bool_decide (intent_run_id (intent inv) = RunLease.run_id fence).

Definition validate_tool_handoff (fence : RunFence) (inv : InvT) : result InvocationAttemptHandoffError unit :=
  if negb (in_scope fence inv) then Err ScopeMismatch else
  match status inv with Prepared_ | Failed_ => Ok tt | _ => Err InvocationNotStartable end.

Definition handoff_new (fence : RunFence) (inv : InvT) (attempt : Z) (events : InvocationAttemptEventIds) (progress : bool)
  : result InvocationAttemptHandoffError ToolAttemptHandoff :=
  _ ← validate_tool_handoff fence inv; Ok (mkHandoff fence inv attempt events progress).

Inductive ToolAttemptTerminalKind := TerminalResult | TerminalError.
Inductive ToolAttemptOutcome := Dispatched (terminal : ToolAttemptTerminalKind) (invocation : InvT) | Recovered (invocation : InvT).

Inductive ToolTerminalEvidence := EvResult (result : ToolResult) | EvError (error : ToolError Details).

Record ToolTerminalCommitHandoff := mkTerminal {
  tc_fence : RunFence;
  tc_invocation : InvT;
  tc_event_id : Z;
  tc_evidence : ToolTerminalEvidence
}.

Definition terminal_kind (self : ToolTerminalCommitHandoff) : ToolAttemptTerminalKind :=
  match tc_evidence self with EvResult _ => TerminalResult | EvError _ => TerminalError end.

Definition terminal_rebind_fence (self : ToolTerminalCommitHandoff) (fence : RunFence) : result InvocationAttemptHandoffError ToolTerminalCommitHandoff :=
  if negb (same_run fence (tc_invocation self)) then Err ScopeMismatch else
  Ok (mkTerminal fence (tc_invocation self) (tc_event_id self) (tc_evidence self)).

Record ToolTerminalCommitError := mkTerminalError { te_source : InvocationTerminalCommitFailure; te_recovery : ToolTerminalCommitHandoff }.

Inductive ToolAttemptExecutionError :=
| THandoff (source : InvocationAttemptHandoffError)
| TRegistry (source : ToolProviderRegistryError)
| TStore (source : StoreError)
| TRunProvenanceMismatch
| TClock (source : InvocationClockError)
| TBudgetProvider (source : InvocationBudgetProviderError)
| TBudgetInsufficient
| TContext (source : ToolContextError)
| TInput (source : ToolInputValidationError)
| TStoppedBeforeStart (reason : ToolStopReason)
| TEventPayload
| TJournalAppend
| TRecoveredInvocationMismatch
| TInvocationAdvanced
| TTerminal (source : ToolTerminalCommitError).

(** ** Reconciliation *)

Record ToolReconciliationAttemptHandoff := mkReconcile { rh_fence : RunFence; rh_invocation : InvT; rh_event_id : Z }.

Inductive ToolReconciliationAttemptHandoffError := RScopeMismatch | InvocationNotUnknown | MissingAttempt | RStatusQueryUnsupported.

Definition validate_tool_reconciliation_attempt_handoff (fence : RunFence) (inv : InvT) : result ToolReconciliationAttemptHandoffError unit :=
  if negb (in_scope fence inv) then Err RScopeMismatch else
  if negb (bool_decide (status inv = Unknown_)) then Err InvocationNotUnknown else
  if is_none (attempt_id inv) then Err MissingAttempt else
  if negb (status_query (semantics (descriptor (intent inv)))) then Err RStatusQueryUnsupported else Ok tt.

Definition reconcile_handoff_new (fence : RunFence) (inv : InvT) (event : Z) : result ToolReconciliationAttemptHandoffError ToolReconciliationAttemptHandoff :=
  _ ← validate_tool_reconciliation_attempt_handoff fence inv; Ok (mkReconcile fence inv event).

Definition reconcile_rebind_fence (self : ToolReconciliationAttemptHandoff) (fence : RunFence)
  : result ToolReconciliationAttemptHandoffError ToolReconciliationAttemptHandoff :=
  if negb (same_run fence (rh_invocation self)) then Err RScopeMismatch else Ok (mkReconcile fence (rh_invocation self) (rh_event_id self)).

Inductive ToolReconciliationKind := ReconciledResult | ReconciledError.
Inductive ToolReconciliationAttemptOutcome :=
| Resolved (kind : ToolReconciliationKind) (invocation : InvT)
| PendingOutcome (retry_after : DurationMillis.DurationMillis) (invocation : InvT).

Record ToolReconciliationHandoff := mkEvidence { eh_fence : RunFence; eh_invocation : InvT; eh_event_id : Z; eh_evidence : ToolTerminalEvidence }.

Inductive ToolReconciliationHandoffError := EScopeMismatch | InvalidEvidence (source : ToolInvocationError).

Definition validate_tool_reconciliation_scope (fence : RunFence) (inv : InvT) : result ToolReconciliationHandoffError unit :=
  if negb (in_scope fence inv) then Err EScopeMismatch else Ok tt.

Definition evidence_result (fence : RunFence) (inv : InvT) (event : Z) (r : ToolResult) : result ToolReconciliationHandoffError ToolReconciliationHandoff :=
  _ ← validate_tool_reconciliation_scope fence inv;
  _ ← map_err InvalidEvidence (validate_reconciliation_result inv r);
  Ok (mkEvidence fence inv event (EvResult r)).

Definition evidence_error (fence : RunFence) (inv : InvT) (event : Z) (e : ToolError Details) : result ToolReconciliationHandoffError ToolReconciliationHandoff :=
  _ ← validate_tool_reconciliation_scope fence inv;
  _ ← map_err InvalidEvidence (validate_reconciliation_error inv e);
  Ok (mkEvidence fence inv event (EvError e)).

Definition evidence_rebind_fence (self : ToolReconciliationHandoff) (fence : RunFence) : result ToolReconciliationHandoffError ToolReconciliationHandoff :=
  _ ← validate_tool_reconciliation_scope fence (eh_invocation self);
  Ok (mkEvidence fence (eh_invocation self) (eh_event_id self) (eh_evidence self)).

Definition reconciliation_kind (self : ToolReconciliationHandoff) : ToolReconciliationKind :=
  match eh_evidence self with EvResult _ => ReconciledResult | EvError _ => ReconciledError end.

Inductive ToolReconciliationOutcome :=
| ROutcomeCommitted (kind : ToolReconciliationKind) (event : JournalEvent SchemaReference) (invocation : InvT)
| ROutcomeIdempotent (kind : ToolReconciliationKind) (event : JournalEvent SchemaReference) (invocation : InvT).
Definition routcome_kind (o : ToolReconciliationOutcome) : ToolReconciliationKind :=
  match o with ROutcomeCommitted kind _ _ | ROutcomeIdempotent kind _ _ => kind end.
Definition routcome_invocation (o : ToolReconciliationOutcome) : InvT :=
  match o with ROutcomeCommitted _ _ inv | ROutcomeIdempotent _ _ inv => inv end.

Inductive ToolReconciliationCommitFailure := RCommit (source : InvocationTerminalCommitFailure) | OutputSchema.

Record ToolReconciliationCommitError := mkReconcileError { re_source : ToolReconciliationCommitFailure; re_recovery : ToolReconciliationHandoff }.

Inductive ToolReconciliationAttemptExecutionError :=
| RHandoff (source : ToolReconciliationAttemptHandoffError)
| RRegistry (source : ToolProviderRegistryError)
| RProviderReconciliationUnsupported
| RStore (source : StoreError)
| RRunProvenanceMismatch
| RClock (source : InvocationClockError)
| RDeadlineOutOfRange
| RContext (source : ToolReconciliationContextError)
| RStopped (reason : ToolStopReason)
| RProbe (failure : Failure Details)
| RObservation (source : ToolReconciliationObservationError)
| RUnresolvedErrorEvidence
| REvidence (source : ToolReconciliationHandoffError)
| RRecoveredInvocationMismatch
| RInvocationAdvanced
| RCommitError (source : ToolReconciliationCommitError).

(** [retry_advice]; the static delay of 100 ms. *)
Definition reconcile_retry_advice (self : ToolReconciliationAttemptExecutionError) : RetryAdvice :=
  match self with
  | RProbe f => retry_advice f
  | RStore source => if is_retryable source then SafeAfter 100 else Never
  | RCommitError source =>
      match re_source source with RCommit (CommitStore store) => if is_retryable store then SafeAfter 100 else Never | _ => Never end
  | _ => Never
  end.
End Tools.
Arguments ToolAttemptHandoff : clear implicits.
Arguments ToolTerminalCommitHandoff : clear implicits.
Arguments ToolTerminalEvidence : clear implicits.
Arguments ToolAttemptExecutionError : clear implicits.
Arguments ToolTerminalCommitError : clear implicits.
Arguments ToolReconciliationHandoff : clear implicits.
Arguments ToolReconciliationCommitError : clear implicits.
Arguments ToolReconciliationAttemptExecutionError : clear implicits.
Arguments ToolAttemptOutcome : clear implicits.

(** * Providers *)

Record ToolProvider (W Details : Type) := mkToolProvider {
  tp_descriptor : ToolDescriptor;
  tp_supports_reconciliation : bool;
  tp_call : ToolContext -> ToolInput -> W -> Race (result (ToolError Details) ToolResult) * W;
  tp_reconcile : ToolReconciliationContext -> ToolInput -> W -> Race (result (Failure Details) (ToolReconciliationObservation Details)) * W
}.
Arguments tp_descriptor {W Details} t.
Arguments tp_supports_reconciliation {W Details} t.
Arguments tp_call {W Details} t.
Arguments tp_reconcile {W Details} t.
Arguments mkToolProvider {W Details} tp_descriptor tp_supports_reconciliation tp_call tp_reconcile.

Section Execution.
Context {W Details ModelInv ModelHead ModelStep ModelEv : Type}.
Context `{Env_ : !Env W Details (ToolInvocation Details) ToolInvocationHead (ToolInvocationTransition Details) ModelInv ModelHead ModelStep ModelEv}.
Context `{!Canonical IntentDigestWire}.
Variable sha256 : bytes -> bytes.
Variable opts : DurableInvocationExecutorOptions.
Variable event_payload : EventPayload.
(** [schemas.validate_bounded]. *)
Variable validate_bounded : SchemaReference -> BoundedJson -> bool.
Variable tools : Registry ToolDescriptor (ToolProvider W Details).

Abbreviation X := (M W).
Abbreviation InvT := (ToolInvocation Details).
Abbreviation Fault := (ToolAttemptExecutionError Details).
Abbreviation RFault := (ToolReconciliationAttemptExecutionError Details).

Definition resolve_tool (d : ToolDescriptor) : result ToolProviderRegistryError (ToolProvider W Details) := tool_resolve tp_descriptor tools d.

Definition supports_tool_reconciliation (d : ToolDescriptor) : result ToolProviderRegistryError bool :=
  provider ← resolve_tool d; Ok (tp_supports_reconciliation provider).

(** ** Contexts *)

Definition validate_tool_run_provenance (p : AgentResultProvenance CapabilityIdentity) (fence : RunFence) : result Fault unit :=
  if negb (bool_decide (tenant_id p = RunLease.tenant_id fence)) || negb (bool_decide (run_id p = RunLease.run_id fence))
  then Err TRunProvenanceMismatch else Ok tt.

Definition validate_tool_budget (remaining : BudgetRemaining.t) (r : ToolRisk) : result Fault unit :=
  if (BudgetRemaining.tool_calls remaining =? 0) || (negb (bool_decide (r = ReadOnly)) && (BudgetRemaining.write_calls remaining =? 0))
  then Err TBudgetInsufficient else Ok tt.

Definition build_tool_context (handoff : ToolAttemptHandoff Details) (p : AgentResultProvenance CapabilityIdentity) (remaining : BudgetRemaining.t)
    (observation : InvocationClockObservation) : result (fault ToolContextError) ToolContext :=
  let int := intent (ho_invocation handoff) in
  let build := if ho_progress handoff then context_new_with_progress else context_new in
  context ← build (tenant_id p) (run_id p) (thread_id p) (ToolInvocations.invocation_id int) (ho_attempt_id handoff) (descriptor int) remaining
              (timeout (effective_limits int)) (observed_at observation) (observed_instant observation);
  Ok (narrow_artifact_limits (with_durable_origin_event context (start_event (ho_events handoff))) (effective_limits int)).

Definition prepare_tool_context (handoff : ToolAttemptHandoff Details) : X Fault (ToolContext * option Digest) :=
  let fence := ho_fence handoff in
  let int := intent (ho_invocation handoff) in
  run ← (r ← ask (load_run (RunLease.tenant_id fence) (RunLease.run_id fence)); lift (map_err TStore r));
  let p := rv_provenance run in
  _ ← lift (validate_tool_run_provenance p fence);
  account ← (r ← ask (load_child_budget_account (RunLease.tenant_id fence) (RunLease.run_id fence)); lift (map_err TStore r));
  let child_budget := ChildBudget.ChildBudget.account_digest <$> account in
  observation ← (r ← ask observe; lift (map_err TClock r));
  remaining ← (r ← ask (budget_remaining (mkBudgetContext p BoundaryTool (ToolInvocations.invocation_id int) (ho_attempt_id handoff) (intent_digest int)
                 (observed_at observation))); lift (map_err (fun _ => TBudgetProvider ProviderSource) r));
  remaining ← lift (map_err (fun e => TBudgetProvider (StoreSource e)) (deduct_child_budget remaining account));
  _ ← lift (validate_tool_budget remaining (risk (semantics (descriptor int))));
  context ← map_error TContext (lift_fault (build_tool_context handoff p remaining observation));
  _ ← lift (map_err TInput (input_validate_for (input int) context (descriptor int)));
  '(cancelled, now) ← ask look;
  match stop_reason cancelled (ctx_deadline_instant context) now with
  | Some reason => fail (TStoppedBeforeStart reason)
  | None => mret (context, child_budget)
  end.

(** ** Recovery of an attempt that had been started before *)

Definition check_recovered (handoff : ToolAttemptHandoff Details) (current : InvT) : result Fault InvT :=
  if negb (bool_decide (attempt_id current = Some (ho_attempt_id handoff))) then Err TInvocationAdvanced else Ok current.

Definition recover_tool_if_started (handoff : ToolAttemptHandoff Details) : X Fault (option InvT) :=
  current ← (r ← ask (load_tool_invocation (RunLease.tenant_id (ho_fence handoff)) (RunLease.run_id (ho_fence handoff))
                        (ToolInvocations.invocation_id (intent (ho_invocation handoff)))); lift (map_err TStore r));
  if negb (bool_decide (intent current = intent (ho_invocation handoff))) then fail TRecoveredInvocationMismatch else
  if bool_decide (head current = head (ho_invocation handoff)) then mret None else
  current ← lift (check_recovered handoff current); mret (Some current).

(** ** Starts *)

Record ToolDispatchHandoff := mkDispatch {
  di_fence : RunFence;
  di_invocation : InvT;
  di_terminal_event_id : Z;
  di_provider : ToolProvider W Details;
  di_context : ToolContext
}.

Inductive ToolAttemptStartOutcome := Started (handoff : ToolDispatchHandoff) | StartRecovered (invocation : InvT).

Definition start_tool_attempt (handoff : ToolAttemptHandoff Details) : X Fault ToolAttemptStartOutcome :=
  let inv := ho_invocation handoff in
  let int := intent inv in
  _ ← lift (map_err THandoff (validate_tool_handoff (ho_fence handoff) inv));
  recovered ← recover_tool_if_started handoff;
  match recovered with
  | Some current => mret (StartRecovered current)
  | None =>
      provider ← lift (map_err TRegistry (resolve_tool (descriptor int)));
      '(context, child_budget) ← prepare_tool_context handoff;
      payload ← lift (ok_or (event_payload (bytes_of "tool-attempt-started") (bytes_of "tool_attempt_started") (bytes_of "tool")
                               (ToolInvocations.invocation_id int) (ho_attempt_id handoff) (intent_digest int)) TEventPayload);
      append ← lift (ok_or (worker_append sha256 (ho_fence handoff) (journal_head inv) (start_event (ho_events handoff)) payload) TJournalAppend);
      start ← map_error TStore (advance_with_retry opts (advance_tool append (head inv) (StartAttempt (ho_attempt_id handoff)) child_budget));
      match start with
      | Committed _ executing =>
          _ ← tell (EStarted (ho_attempt_id handoff));
          mret (Started (mkDispatch (ho_fence handoff) executing (terminal_event (ho_events handoff)) provider context))
      | Idempotent _ _ =>
          current ← (r ← ask (load_tool_invocation (RunLease.tenant_id (ho_fence handoff)) (RunLease.run_id (ho_fence handoff))
                                (ToolInvocations.invocation_id int)); lift (map_err TStore r));
          if negb (bool_decide (intent current = int)) then fail TRecoveredInvocationMismatch else
          current ← lift (check_recovered handoff current); mret (StartRecovered current)
      end
  end.

(** ** Evidence *)

Definition tool_stop_error {E} (context : ToolContext) (d : ToolDescriptor) (reason : ToolStopReason) : X E (ToolError Details) :=
  let read_only := bool_decide (risk (semantics d) = ReadOnly) in
  f ← (if read_only then
         match reason with
         | StopCancelled => runtime_failure generate Cancelled_ (bytes_of "runtime.tool.cancelled")
                              (bytes_of "Tool attempt stopped after cancellation was requested.") Never
         | StopDeadlineExceeded => runtime_failure generate DeadlineExceeded (bytes_of "runtime.tool.deadline_exceeded")
                                     (bytes_of "Tool attempt exceeded its effective deadline.") Never
         end
       else
         match reason with
         | StopCancelled => runtime_failure generate AmbiguousExternalOutcome (bytes_of "runtime.tool.cancelled_outcome_unknown")
                              (bytes_of "A cancelled tool write may have changed external state and requires reconciliation.") ReconcileFirst
         | StopDeadlineExceeded => runtime_failure generate AmbiguousExternalOutcome (bytes_of "runtime.tool.deadline_outcome_unknown")
                                     (bytes_of "A timed-out tool write may have changed external state and requires reconciliation.") ReconcileFirst
         end);
  expect (tool_error_new f Execution (if read_only then NotApplicable else Unknown) (provenance_for_invocation context d)).

Definition tool_contract_error {E} (context : ToolContext) (d : ToolDescriptor) (p : ToolErrorPhase) (nominal_success : bool) (code message : bytes)
  : X E (ToolError Details) :=
  let '(cat, advice, effect) :=
    match risk (semantics d) with
    | ReadOnly => (Internal, Never, NotApplicable)
    | IdempotentWrite | NonIdempotentWrite =>
        if nominal_success then (Internal, Never, Applied) else (AmbiguousExternalOutcome, ReconcileFirst, Unknown)
    end in
  f ← runtime_failure generate cat code message advice;
  expect (tool_error_new f p effect (provenance_for_invocation context d)).

Definition dispatch_tool {E} (provider : ToolProvider W Details) (context : ToolContext) (i : ToolInput) : X E (ToolTerminalEvidence Details) :=
  let d := tp_descriptor provider in
  _ ← tell (ECalled (ctx_attempt_id context));
  race ← ask (tp_call provider context i);
  match race with
  | RaceCancelled => e ← tool_stop_error context d StopCancelled; mret (EvError e)
  | RaceDeadline => e ← tool_stop_error context d StopDeadlineExceeded; mret (EvError e)
  | RaceDone (Ok r) =>
      match result_validate_for r context d with
      | Ok _ => mret (EvResult r)
      | Err _ => e ← tool_contract_error context d Result_ true (bytes_of "runtime.tool.invalid_result")
                       (bytes_of "Tool returned a result outside its registered contract."); mret (EvError e)
      end
  | RaceDone (Err error) =>
      match error_validate_for error context d with
      | Ok _ => mret (EvError error)
      | Err _ => e ← tool_contract_error context d Execution false (bytes_of "runtime.tool.invalid_error")
                       (bytes_of "Tool returned failure evidence outside its registered contract."); mret (EvError e)
      end
  end.

Definition dispatch_started_tool {E} (handoff : ToolDispatchHandoff) : X E (ToolTerminalCommitHandoff Details) :=
  let int := intent (di_invocation handoff) in
  '(cancelled, now) ← ask look;
  evidence ← match stop_reason cancelled (ctx_deadline_instant (di_context handoff)) now with
             | Some reason => e ← tool_stop_error (di_context handoff) (descriptor int) reason; mret (EvError e)
             | None => dispatch_tool (di_provider handoff) (di_context handoff) (input int)
             end;
  mret (mkTerminal (di_fence handoff) (di_invocation handoff) (di_terminal_event_id handoff) evidence).

(** ** Commits *)

(** The steps that both commits share: the attempt, the payload, the journal head
    of the run, the append and the retried ledger step. *)
Definition commit_evidence (fence : RunFence) (inv : InvT) (event : Z) (event_kind operation : bytes) (step : ToolInvocationTransition Details)
  : X InvocationTerminalCommitFailure (CommitOutcome InvT) :=
  attempt ← lift (ok_or (attempt_id inv) InvalidInvocationState);
  payload ← lift (ok_or (event_payload event_kind operation (bytes_of "tool") (ToolInvocations.invocation_id (intent inv)) attempt (intent_digest (intent inv)))
                    InvalidEventPayload);
  run ← (r ← ask (load_run (intent_tenant_id (intent inv)) (intent_run_id (intent inv))); lift (map_err CommitStore r));
  journal ← lift (ok_or (rv_journal_head run) RunJournalUnavailable);
  append ← lift (ok_or (worker_append sha256 fence journal event payload) InvalidJournalAppend);
  outcome ← map_error CommitStore (advance_with_retry opts (advance_tool append (head inv) step None));
  _ ← tell ERecorded;
  mret outcome.

(** The transition that records a piece of evidence. *)
Definition terminal_transition (e : ToolTerminalEvidence Details) : ToolInvocationTransition Details :=
  match e with EvResult r => RecordResult r | EvError error => RecordError error end.

Definition commit_tool_terminal (handoff : ToolTerminalCommitHandoff Details) : X (ToolTerminalCommitError Details) (ToolAttemptOutcome Details) :=
  let '(operation, event_kind) :=
    match tc_evidence handoff with
    | EvResult _ => (bytes_of "tool_result_committed", bytes_of "tool-result-committed")
    | EvError _ => (bytes_of "tool_error_committed", bytes_of "tool-error-committed")
    end in
  outcome ← map_error (fun source => mkTerminalError source handoff)
              (commit_evidence (tc_fence handoff) (tc_invocation handoff) (tc_event_id handoff) event_kind operation (terminal_transition (tc_evidence handoff)));
  mret (Dispatched (terminal_kind handoff) (outcome_invocation outcome)).

Definition execute_tool (handoff : ToolAttemptHandoff Details) : X Fault (ToolAttemptOutcome Details) :=
  started ← start_tool_attempt handoff;
  match started with
  | StartRecovered inv => mret (Recovered inv)
  | Started dispatch =>
      terminal ← dispatch_started_tool dispatch;
      map_error TTerminal (commit_tool_terminal terminal)
  end.

(** ** Reconciliation *)

Definition checked_i64 (v : Z) : option Z := if (v <? i64_min) || (i64_max <? v) then None else Some v.

Definition prepare_tool_reconciliation_context (handoff : ToolReconciliationAttemptHandoff (Details := Details)) (inv : InvT) : X RFault ToolReconciliationContext :=
  let fence := rh_fence handoff in
  let int := intent inv in
  run ← (r ← ask (load_run (RunLease.tenant_id fence) (RunLease.run_id fence)); lift (map_err RStore r));
  let p := rv_provenance run in
  if negb (bool_decide (tenant_id p = RunLease.tenant_id fence)) || negb (bool_decide (run_id p = RunLease.run_id fence))
  then fail RRunProvenanceMismatch else
  observation ← (r ← ask observe; lift (map_err RClock r));
  timeout_micros ← lift (ok_or (checked_i64 (timeout (effective_limits int) * 1000)) RDeadlineOutOfRange);
  fallback_micros ← lift (ok_or (checked_i64 (observed_at observation + timeout_micros)) RDeadlineOutOfRange);
  fallback ← lift (map_err (fun _ => RDeadlineOutOfRange) (Timestamp.from_unix_micros fallback_micros));
  stored ← ask (load_admission_deadline (RunLease.tenant_id fence) (RunLease.run_id fence));
  run_deadline ← match stored with
                 | Ok deadline => mret deadline
                 | Err AgentAdmissionNotFound => mret fallback
                 | Err source => fail (RStore source)
                 end;
  let handle := match state inv with UnknownOutcome error => recovery_handle error | _ => None end in
  origin ← lift (ok_or (h ← previous inv; if bool_decide (ih_status h = Executing_) then Some (jh_event_id (ih_journal_head h)) else None) RInvocationAdvanced);
  attempt ← lift (ok_or (attempt_id inv) RInvocationAdvanced);
  context ← map_error RContext (lift_fault (reconciliation_new (tenant_id p) (run_id p) (thread_id p) (ToolInvocations.invocation_id int) attempt
              (descriptor int) (timeout (effective_limits int)) (observed_at observation) (observed_instant observation) run_deadline));
  let context := rc_narrow_artifact_limits (with_durable_recovery context origin handle) (effective_limits int) in
  '(cancelled, now) ← ask look;
  match stop_reason cancelled (rc_deadline_instant context) now with
  | Some reason => fail (RStopped reason)
  | None => mret context
  end.

Definition reconciliation_transition (handoff : ToolReconciliationHandoff Details)
  : result ToolReconciliationCommitFailure (bytes * bytes * ToolInvocationTransition Details) :=
  match eh_evidence handoff with
  | EvResult r =>
      if negb (validate_bounded (result_schema r) (result_output r)) then Err OutputSchema else
      Ok (bytes_of "tool_result_committed", bytes_of "tool-reconciliation-result-committed", ReconcileResult r)
  | EvError e => Ok (bytes_of "tool_error_committed", bytes_of "tool-reconciliation-error-committed", ReconcileError e)
  end.

Definition commit_tool_reconciliation (handoff : ToolReconciliationHandoff Details)
  : X (ToolReconciliationCommitError Details) (ToolReconciliationOutcome (Details := Details)) :=
  '(operation, event_kind, step) ← lift (map_err (fun source => mkReconcileError source handoff) (reconciliation_transition handoff));
  outcome ← map_error (fun source => mkReconcileError (RCommit source) handoff)
              (commit_evidence (eh_fence handoff) (eh_invocation handoff) (eh_event_id handoff) event_kind operation step);
  mret (match outcome with
        | Committed event inv => ROutcomeCommitted (reconciliation_kind handoff) event inv
        | Idempotent event inv => ROutcomeIdempotent (reconciliation_kind handoff) event inv
        end).

Definition reconcile_tool (handoff : ToolReconciliationAttemptHandoff (Details := Details)) : X RFault (ToolReconciliationAttemptOutcome (Details := Details)) :=
  let inv := rh_invocation handoff in
  _ ← lift (map_err RHandoff (validate_tool_reconciliation_attempt_handoff (rh_fence handoff) inv));
  current ← (r ← ask (load_tool_invocation (RunLease.tenant_id (rh_fence handoff)) (RunLease.run_id (rh_fence handoff))
                        (ToolInvocations.invocation_id (intent inv))); lift (map_err RStore r));
  if negb (bool_decide (intent current = intent inv)) then fail RRecoveredInvocationMismatch else
  if negb (bool_decide (attempt_id current = attempt_id inv)) then fail RInvocationAdvanced else
  match state current with
  | ToolInvocations.Committed _ => mret (Resolved ReconciledResult current)
  | ToolInvocations.Failed _ => mret (Resolved ReconciledError current)
  | Prepared | Executing _ => fail RInvocationAdvanced
  | UnknownOutcome _ =>
      provider ← lift (map_err RRegistry (resolve_tool (descriptor (intent current))));
      if negb (tp_supports_reconciliation provider) then fail RProviderReconciliationUnsupported else
      context ← prepare_tool_reconciliation_context handoff current;
      race ← ask (tp_reconcile provider context (input (intent current)));
      match race with
      | RaceCancelled => fail (RStopped StopCancelled)
      | RaceDeadline => fail (RStopped StopDeadlineExceeded)
      | RaceDone observed =>
          observation ← lift (map_err RProbe observed);
          _ ← lift (map_err RObservation (observation_validate observation));
          match observation with
          | ObservedPending retry_after => mret (PendingOutcome retry_after current)
          | ObservedResult r =>
              evidence ← lift (map_err REvidence (evidence_result (rh_fence handoff) current (rh_event_id handoff) r));
              outcome ← map_error RCommitError (commit_tool_reconciliation evidence);
              mret (Resolved (routcome_kind outcome) (routcome_invocation outcome))
          | ObservedError e =>
              if bool_decide (external_effect e = Unknown) then fail RUnresolvedErrorEvidence else
              evidence ← lift (map_err REvidence (evidence_error (rh_fence handoff) current (rh_event_id handoff) e));
              outcome ← map_error RCommitError (commit_tool_reconciliation evidence);
              mret (Resolved (routcome_kind outcome) (routcome_invocation outcome))
          end
      end
  end.
End Execution.
End ToolExecutor.

(** Laws of the tool executor ([ToolExecutor.v]) in every world: a provider is
    called at most once, and only for a start that this execution has committed;
    a started attempt is always recorded or handed back with its evidence; the
    runtime never panics and never licenses a retry by itself; and the ledger can
    record the evidence. *)

Module ToolExecutions.
Import Content Capability Tools ToolInvocations ToolRuntime Providers Executor ExecutorRules ToolExecutor ToolBoundary.
Import Journal(JournalPayload, JournalEvent, IntentDigestWire).

(** * Contexts *)

(** What an attempt's context says of the invocation it is for. *)
Record fits (c : ToolContext) (int : ToolInvocationIntent) (attempt : Z) : Prop := {
  fits_valid : context_validate_for c (descriptor int) = Ok tt;
  fits_tenant : ctx_tenant_id c = intent_tenant_id int;
  fits_run : ctx_run_id c = intent_run_id int;
  fits_invocation : ctx_invocation_id c = ToolInvocations.invocation_id int;
  fits_attempt : ctx_attempt_id c = attempt
}.

Lemma context_new_fits tenant run thread invocation attempt d budget time observed instant :
  Timestamp.valid (BudgetRemaining.deadline budget) -> Timestamp.valid observed -> DurationMillis.valid time ->
  context_new tenant run thread invocation attempt d budget time observed instant <> Err Panic /\
  forall c, context_new tenant run thread invocation attempt d budget time observed instant = Ok c ->
    context_validate_for c d = Ok tt /\ ctx_tenant_id c = tenant /\ ctx_run_id c = run /\ ctx_invocation_id c = invocation /\ ctx_attempt_id c = attempt /\
    ctx_tool c = tool_identity d.
Proof.
  intros Hrun Hobs Htime. unfold context_new. destruct (Z.eqb_spec time 0) as [|Hz]; [done |]. assert (Hpos : 0 < time) by (unfold DurationMillis.valid in Htime; lia).
  destruct (Z.ltb_spec (timeout (limits d)) time) as [|Hle]; [done |]. split.
  { intros [H|([? ?] & _ & ?)]%bind_panic; [by apply finite_deadline_safe in H | done]. }
  intros c ([deadline at_] & _ & [= <-])%bind_Ok. split_and!; try done.
  unfold context_validate_for; simpl. rewrite !bool_decide_true by done. simpl. by rewrite (proj2 (Z.ltb_ge _ _) Hle), key_is_valid_for.
Qed.

Lemma context_with_progress_fits tenant run thread invocation attempt d budget time observed instant :
  Timestamp.valid (BudgetRemaining.deadline budget) -> Timestamp.valid observed -> DurationMillis.valid time ->
  context_new_with_progress tenant run thread invocation attempt d budget time observed instant <> Err Panic /\
  forall c, context_new_with_progress tenant run thread invocation attempt d budget time observed instant = Ok c ->
    context_validate_for c d = Ok tt /\ ctx_tenant_id c = tenant /\ ctx_run_id c = run /\ ctx_invocation_id c = invocation /\ ctx_attempt_id c = attempt.
Proof.
  intros Hrun Hobs Htime. destruct (context_new_fits tenant run thread invocation attempt d budget time observed instant Hrun Hobs Htime) as [Hp Ho].
  unfold context_new_with_progress. split.
  { intros [H|(c & _ & H)]%bind_panic; [done |]. by destruct (_ =? 0). }
  intros c' (c & Hc & H)%bind_Ok. destruct (Ho c Hc) as (Hv & Ht & Hr & Hi & Ha & Htool). destruct (_ =? 0) eqn:Ez; [done |]. injection H as <-.
  split_and!; try done. unfold context_validate_for in *. simpl in *. open_guards Hv. bools.
  unfold validate_progress_binding. simpl. rewrite (proj2 (Z.eqb_neq _ 0)), Z.eqb_refl, Hi, Ha, !Z.eqb_refl, Htool, bool_decide_true by done. done.
Qed.

Section Laws.
Context {W Details ModelInv ModelHead ModelStep ModelEv : Type}.
Context `{Env_ : !Env W Details (ToolInvocation Details) ToolInvocationHead (ToolInvocationTransition Details) ModelInv ModelHead ModelStep ModelEv}.
Context `{!Canonical IntentDigestWire, !Canonical ToolInvocationIntentDigestWire, !Canonical (ToolInvocationTransition Details),
          !Canonical (ToolInvocationRecordDigestWire Details), !Canonical (ToolError Details), !Canonical (ToolInvocation Details)}.
Variable sha256 : bytes -> bytes.
Variable opts : DurableInvocationExecutorOptions.
Variable event_payload : EventPayload.
Variable tools : Registry ToolDescriptor (ToolProvider W Details).
Variable h : ToolAttemptHandoff Details.

(** The options come from their constructor; the clock and the budget provider
    return timestamps, and the timeout is a duration. *)
Variables attempts delay : Z.
Hypothesis Hattempts : 0 <= attempts.
Hypothesis Hopts : options_new attempts delay = Ok opts.
Hypothesis Hclock : forall w o, (observe w).1 = Ok o -> Timestamp.valid (observed_at o).
Hypothesis Hbudget : forall b w r, (budget_remaining b w).1 = Ok r -> Timestamp.valid (BudgetRemaining.deadline r).
Hypothesis Htimeout : DurationMillis.valid (timeout (effective_limits (intent (ho_invocation h)))).
(** A start that the store commits is the ledger's own successor. *)
Hypothesis Hstore : forall append child w event x,
  (advance_tool append (head (ho_invocation h)) (StartAttempt (ho_attempt_id h)) child w).1 = Ok (Executor.Committed event x) ->
  exists j, advance sha256 (ho_invocation h) (StartAttempt (ho_attempt_id h)) j = Ok x.

(** ** Building the context *)

Abbreviation int := (intent (ho_invocation h)).

Lemma build_context_fits p remaining observation :
  Timestamp.valid (BudgetRemaining.deadline remaining) -> Timestamp.valid (observed_at observation) ->
  tenant_id p = intent_tenant_id int -> run_id p = intent_run_id int ->
  build_tool_context h p remaining observation <> Err Panic /\
  forall c, build_tool_context h p remaining observation = Ok c -> fits c int (ho_attempt_id h).
Proof.
  intros Hd Ho Ht Hr. unfold build_tool_context.
  assert (Hb : forall (r : result (fault ToolContextError) ToolContext), (r <> Err Panic /\ forall c, r = Ok c -> context_validate_for c (descriptor int) = Ok tt /\ ctx_tenant_id c = tenant_id p /\
      ctx_run_id c = run_id p /\ ctx_invocation_id c = ToolInvocations.invocation_id int /\ ctx_attempt_id c = ho_attempt_id h) ->
    (c ← r; Ok (narrow_artifact_limits (with_durable_origin_event c (start_event (ho_events h))) (effective_limits int))) <> Err Panic /\
    forall c, (c ← r; Ok (narrow_artifact_limits (with_durable_origin_event c (start_event (ho_events h))) (effective_limits int))) = Ok c -> fits c int (ho_attempt_id h)).
  { intros r [Hp Hc]. split; [intros [H|(? & _ & ?)]%bind_panic; done |]. intros c' (c & E & [= <-])%bind_Ok. destruct (Hc c E) as (Hv & H1 & H2 & H3 & H4).
    constructor; [done | by rewrite <- Ht | by rewrite <- Hr | done | done]. }
  apply Hb. destruct (ho_progress h); [by apply context_with_progress_fits |].
  destruct (context_new_fits (tenant_id p) (run_id p) (thread_id p) (ToolInvocations.invocation_id int) (ho_attempt_id h) (descriptor int) remaining
    (timeout (effective_limits int)) (observed_at observation) (observed_instant observation) Hd Ho Htimeout) as [Hp Hc].
  split; [done |]. intros c E. destruct (Hc c E) as (? & ? & ? & ? & ? & _). done.
Qed.

(** An error before anything was started. *)
Definition before_start (e : ToolAttemptExecutionError Details) : Prop := forall te, e <> TTerminal te.

Lemma prepare_quiet :
  in_scope (ho_fence h) (ho_invocation h) = true -> quiet before_start (fun cb => fits cb.1 int (ho_attempt_id h)) (prepare_tool_context h).
Proof.
  intros Hs. unfold in_scope in Hs. bools. unfold prepare_tool_context.
  apply (silent_bind _ (fun _ => True)); [by apply silent_query |]. intros run _.
  apply (silent_bind _ (fun _ => tenant_id (rv_provenance run) = RunLease.tenant_id (ho_fence h) /\ run_id (rv_provenance run) = RunLease.run_id (ho_fence h))).
  { unfold validate_tool_run_provenance. case_bool_decide; simpl; [| by apply silent_fail]. case_bool_decide; simpl; [by apply silent_ret | by apply silent_fail]. }
  intros _ [Ht Hr]. apply (silent_bind _ (fun _ => True)); [by apply silent_query |]. intros account _.
  apply (silent_bind _ (fun o => Timestamp.valid (observed_at o))); [by apply silent_query |]. intros observation Ho.
  apply (silent_bind _ (fun r => Timestamp.valid (BudgetRemaining.deadline r))); [apply silent_query; [done |]; intros w r Hw; by eapply Hbudget |]. intros r0 Hr0.
  apply (silent_bind _ (fun r => Timestamp.valid (BudgetRemaining.deadline r))).
  { apply silent_lift; [| by intros e (? & _ & ->)%map_err_Err_inv]. intros r Hd. apply map_err_Ok in Hd. unfold deduct_child_budget in Hd. destruct account as [account|]; [| by injection Hd as <-].
    destruct (existsb _ _); [done |]. apply bind_Ok in Hd as (usage & _ & Hd). apply map_err_Ok in Hd. apply BudgetLaws.Capacity.deduct_cumulative_Ok in Hd as (_ & -> & _). done. }
  intros remaining Hrem. apply (silent_bind _ (fun _ => True)).
  { apply silent_lift; [done |]. intros e. unfold validate_tool_budget. destruct (_ || _); [by intros [= <-] | done]. }
  intros _ _. destruct (build_context_fits (rv_provenance run) remaining observation Hrem Ho) as [Hp Hc]; [congruence | congruence |].
  apply (silent_bind _ (fun c => fits c int (ho_attempt_id h))).
  { eapply (silent_map_error (fun _ => True)); [by apply silent_lift_fault | done]. }
  intros c Hfit. apply (silent_bind _ (fun _ => True)); [apply silent_lift; [done | by intros e (? & _ & ->)%map_err_Err_inv] |]. intros _ _.
  apply (silent_bind _ (fun _ => True)); [by apply silent_ask |]. intros [cancelled now] _. destruct (stop_reason _ _ _); [by apply silent_fail | by apply silent_ret].
Qed.

(** ** Starting *)

Lemma check_recovered_quiet current (P : ToolInvocation Details -> Prop) :
  (attempt_id current = Some (ho_attempt_id h) -> P current) -> quiet (W := W) before_start P (lift (check_recovered h current)).
Proof. intros HP. unfold check_recovered. case_bool_decide; simpl; [by apply silent_ret, HP | by apply silent_fail]. Qed.

Definition recovered_as (inv : ToolInvocation Details) : Prop := intent inv = int /\ attempt_id inv = Some (ho_attempt_id h).

Lemma recover_quiet : quiet before_start (fun o => forall inv, o = Some inv -> recovered_as inv) (recover_tool_if_started h).
Proof.
  unfold recover_tool_if_started. apply (silent_bind _ (fun _ => True)); [by apply silent_query |]. intros current _. case_bool_decide as Hi; simpl; [| by apply silent_fail].
  case_bool_decide; [by apply silent_ret |]. apply (silent_bind _ recovered_as); [by apply check_recovered_quiet |]. intros inv Hinv. apply silent_ret. by intros ? [= <-].
Qed.

(** A dispatch that follows from a committed start. *)
Record ready (d : ToolDispatchHandoff (W := W) (Details := Details)) : Prop := {
  rd_intent : intent (di_invocation d) = int;
  rd_state : state (di_invocation d) = Executing (ho_attempt_id h);
  rd_context : fits (di_context d) int (ho_attempt_id h);
  rd_provider : tp_descriptor (di_provider d) = descriptor int;
  rd_resolved : resolve_tool tools (descriptor int) = Ok (di_provider d)
}.

Definition start_as (r : result (Stop (ToolAttemptExecutionError Details)) (ToolAttemptStartOutcome (W := W) (Details := Details))) (δ : list Event) : Prop :=
  match r with
  | Ok (Started d) => δ = [EStarted (ho_attempt_id h)] /\ ready d
  | Ok (StartRecovered inv) => δ = [] /\ recovered_as inv
  | Err (Failed e) => δ = [] /\ before_start e
  | Err _ => False
  end.

Lemma committed_executes x : (exists j, advance sha256 (ho_invocation h) (StartAttempt (ho_attempt_id h)) j = Ok x) ->
  intent x = int /\ state x = Executing (ho_attempt_id h).
Proof.
  intros [j (st & tdig & dig & _ & _ & _ & Ha & _ & _ & ->)%ToolCalls.advance_Ok]. split; [done |]. simpl. unfold apply_transition in Ha. destruct (state (ho_invocation h)); try done.
  - by injection Ha as <-.
  - destruct (_ =? _); [done |]. apply bind_Ok in Ha as (_ & _ & [= <-]). done.
Qed.

Lemma start_ensures : ensures (start_tool_attempt sha256 opts event_payload tools h) start_as.
Proof.
  unfold start_tool_attempt. eapply (ens_quiet before_start (fun _ => in_scope (ho_fence h) (ho_invocation h) = true)).
  { apply silent_lift; [| by intros e (? & _ & ->)%map_err_Err_inv]. intros a Hv%map_err_Ok. unfold validate_tool_handoff in Hv. by destruct (in_scope _ _). }
  2: done. intros _ Hs. eapply ens_quiet; [apply recover_quiet | | done]. intros [inv|] Hr; [apply ens_ret; split; [done | by apply Hr] |].
  eapply (ens_quiet before_start (fun p => tp_descriptor p = descriptor int /\ resolve_tool tools (descriptor int) = Ok p)); [| | done].
  { apply silent_lift; [| by intros e (? & _ & ->)%map_err_Err_inv]. intros p Hp%map_err_Ok. split; [by eapply tool_resolve_descriptor | done]. }
  intros provider [Hprov Hres]. eapply ens_quiet; [by apply prepare_quiet | | done]. intros [c cb] Hfit.
  eapply (ens_quiet before_start (fun _ => True)); [| | done].
  { apply silent_lift; [done |]. intros e He. destruct (event_payload _ _ _ _ _ _); [done |]. by injection He as <-. }
  intros payload _. eapply (ens_quiet before_start (fun _ => True)); [| | done].
  { apply silent_lift; [done |]. intros e He. destruct (worker_append _ _ _ _ _); [done |]. by injection He as <-. }
  intros append _. eapply (ens_quiet before_start (fun o => forall event x, o = Executor.Committed event x -> intent x = int /\ state x = Executing (ho_attempt_id h))); [| | done].
  { eapply (silent_map_error (fun _ => True)); [| done]. apply advance_quiet; [by eapply options_bounds |]. intros w o Ho event x ->. apply committed_executes. by eapply Hstore. }
  intros [event x|event x] Hx.
  - destruct (Hx event x eq_refl) as [Hi Hst]. eapply ens_bind; [by apply (ens_tell _ (fun r δ => r = Ok tt /\ δ = [EStarted (ho_attempt_id h)])) | | by intros ? ? [? _]].
    intros _ δ [_ ->]. apply ens_ret. split; [done |]. by constructor.
  - eapply (ens_quiet before_start (fun _ => True)); [by apply silent_query | | done]. intros current _. case_bool_decide as Hci; simpl; [| by apply ens_stop].
    eapply (ens_quiet before_start recovered_as); [by apply check_recovered_quiet | | done]. intros inv Hinv. by apply ens_ret.
Qed.

(** ** Evidence *)

(** The runtime's own evidence: it validates for the attempt and licenses no retry. *)
Definition runtime_evidence (c : ToolContext) (d : ToolDescriptor) (e : ToolError Details) : Prop :=
  error_validate_for e c d = Ok tt /\ safe_after_delay (retry_advice (failure e)) = None.

Lemma built_evidence c d f p effect e :
  context_validate_for c d = Ok tt -> tool_error_new f p effect (provenance_for_invocation c d) = Ok e ->
  effect_matches_risk (risk (semantics d)) effect = true -> safe_after_delay (retry_advice f) = None -> runtime_evidence c d e.
Proof.
  intros Hc (_ & _ & ->)%tool_error_new_Ok He Ha. split; [| done]. apply error_validate_Ok. split_and!; [by apply validate_provenance_Ok | done |]. simpl.
  intros (_ & _ & Hs). by destruct (retry_advice f).
Qed.

(** Every error the runtime builds is built: its texts are valid, and category,
    advice and effect agree. *)
Lemma built_error_silent {E} (PE : E -> Prop) c d cat advice code message p effect :
  context_validate_for c d = Ok tt -> is_ok (Failures.validate_failure_identifier code) = true -> is_ok (Failures.validate_failure_message message) = true ->
  validate_failure_recovery cat advice = Ok tt -> (effect = Unknown <-> cat = AmbiguousExternalOutcome) -> phase_effect_valid p effect = true ->
  effect_matches_risk (risk (semantics d)) effect = true -> safe_after_delay advice = None ->
  quiet (W := W) PE (fun e => runtime_evidence c d e /\ external_effect e = effect)
    (f ← runtime_failure generate cat code message advice; expect (tool_error_new f p effect (provenance_for_invocation c d))).
Proof.
  intros Hc H1 H2 H3 H4 H5 H6 H7. eapply silent_bind.
  { apply (runtime_failure_quiet PE generate cat code message advice (fun f => category f = cat /\ retry_advice f = advice)); by try apply H1; try apply H2. }
  intros f [Hcat Hadv]. unfold expect. destruct (tool_error_new f p effect _) as [e|er] eqn:En.
  - apply silent_ret. split; [eapply built_evidence; [done | done | done | by rewrite Hadv] |]. by apply tool_error_new_Ok in En as (_ & _ & ->).
  - exfalso. assert (H : tool_error_new f p effect (provenance_for_invocation c d) = Ok (mkToolError f p effect (provenance_for_invocation c d) None)).
    { apply tool_error_new_Ok. by rewrite Hcat. }
    congruence.
Qed.

(** A stopped write is recorded as of unknown outcome. *)
Lemma stop_error_silent {E} (PE : E -> Prop) c d reason :
  context_validate_for c d = Ok tt ->
  quiet (W := W) PE (fun e => runtime_evidence c d e /\ (risk (semantics d) <> ReadOnly -> external_effect e = Unknown)) (tool_stop_error c d reason).
Proof.
  intros Hc. unfold tool_stop_error. destruct (risk (semantics d)) eqn:Er; cbn [bool_decide decide_rel ToolRisk_eq_dec]; simpl bool_decide; destruct reason;
    (eapply ens_weaken; [apply (built_error_silent PE c d); first [done | by vm_compute | by rewrite Er | split; discriminate] |]);
    intros r δ [-> H]; (split; [done |]); destruct r as [e|[]]; first [done | destruct H as [? H]; by split].
Qed.

Lemma contract_error_silent {E} (PE : E -> Prop) c d p nominal code message :
  context_validate_for c d = Ok tt -> is_ok (Failures.validate_failure_identifier code) = true -> is_ok (Failures.validate_failure_message message) = true ->
  (p = Result_ /\ nominal = true) \/ (p = Execution /\ nominal = false) ->
  quiet (W := W) PE (fun e => runtime_evidence c d e) (tool_contract_error c d p nominal code message).
Proof.
  intros Hc H1 H2 Hp. unfold tool_contract_error. destruct (risk (semantics d)) eqn:Er, Hp as [[-> ->]|[-> ->]];
    (eapply ens_weaken; [apply (built_error_silent PE c d); first [done | by rewrite Er | split; discriminate] |]);
    intros r δ [-> H]; (split; [done |]); destruct r as [e|[]]; first [done | by destruct H].
Qed.

(** Evidence that a dispatch may end with: a result that validates for the
    attempt, the provider's own validated error, or the runtime's. *)
Definition acceptable (d : ToolDispatchHandoff (W := W) (Details := Details)) (ev : ToolTerminalEvidence Details) : Prop :=
  match ev with
  | EvResult r => result_validate_for r (di_context d) (descriptor int) = Ok tt
  | EvError e =>
      error_validate_for e (di_context d) (descriptor int) = Ok tt /\
      ((exists w w', tp_call (di_provider d) (di_context d) (input int) w = (RaceDone (Err e), w')) \/ safe_after_delay (retry_advice (failure e)) = None)
  end.

Definition dispatched_as (d : ToolDispatchHandoff (W := W) (Details := Details)) (called : bool) (ev : ToolTerminalEvidence Details) : Prop :=
  acceptable d ev /\ (called = false -> exists e, ev = EvError e /\ safe_after_delay (retry_advice (failure e)) = None /\
                     (risk (semantics (descriptor int)) <> ReadOnly -> external_effect e = Unknown)).

Lemma dispatch_tool_ensures {E} d : ready d ->
  ensures (dispatch_tool (E := E) (di_provider d) (di_context d) (input (intent (di_invocation d))))
    (fun r δ => δ = [ECalled (ho_attempt_id h)] /\ exists ev, r = Ok ev /\ dispatched_as d true ev).
Proof.
  intros [Hi Hst [Hv Ht Hr Hinv Ha] Hp Hres]. unfold dispatch_tool. rewrite Hp, Ha, Hi.
  eapply ens_bind; [by apply (ens_tell _ (fun r δ => r = Ok tt /\ δ = [ECalled (ho_attempt_id h)])) | | by intros ? ? [? _]]. intros _ δ [_ ->].
  eapply (ens_weaken _ (silent (fun _ => False) (dispatched_as d true))).
  2: { intros r δ [-> H]. split; [done |]. destruct r as [ev|[]]; [by exists ev | done ..]. }
  assert (Hrt : forall (m : M W E (ToolError Details)) (P : ToolError Details -> Prop), quiet (fun _ => False) P m ->
    (forall e, P e -> runtime_evidence (di_context d) (descriptor int) e) -> quiet (fun _ => False) (dispatched_as d true) (e ← m; mret (EvError e))).
  { intros m P Hm HP. eapply silent_bind; [exact Hm |]. intros e He. apply silent_ret. destruct (HP e He) as [? ?]. split; [| done]. split; [done | by right]. }
  apply (silent_bind _ (fun race => exists w w', tp_call (di_provider d) (di_context d) (input int) w = (race, w'))).
  { apply silent_ask. intros w. destruct (tp_call _ _ _ w) as [race w'] eqn:Ec. by exists w, w'. }
  intros [| |[r|e]] (w & w' & Hcall).
  - eapply Hrt; [by apply stop_error_silent |]. by intros e [? _].
  - eapply Hrt; [by apply stop_error_silent |]. by intros e [? _].
  - destruct (result_validate_for r _ _) as [[]|] eqn:Er; [by apply silent_ret |]. eapply Hrt; [by apply contract_error_silent; [done | by vm_compute | by vm_compute | left] | done].
  - destruct (error_validate_for e _ _) as [[]|] eqn:Er; [apply silent_ret; split; [split; [done | left; by exists w, w'] | done] |].
    eapply Hrt; [by apply contract_error_silent; [done | by vm_compute | by vm_compute | right] | done].
Qed.

(** The terminal handoff of a dispatch. *)
Definition terminal_as (d : ToolDispatchHandoff (W := W) (Details := Details)) (called : bool) (t : ToolTerminalCommitHandoff Details) : Prop :=
  tc_fence t = di_fence d /\ tc_invocation t = di_invocation d /\ tc_event_id t = di_terminal_event_id d /\ dispatched_as d called (tc_evidence t).

Lemma dispatch_started_ensures {E} d : ready d ->
  ensures (dispatch_started_tool (E := E) d)
    (fun r δ => exists t called, r = Ok t /\ δ = (if called : bool then [ECalled (ho_attempt_id h)] else []) /\ terminal_as d called t).
Proof.
  intros Hd. pose proof Hd as [Hi Hst [Hv Ht Hr Hinv Ha] Hp Hres]. unfold dispatch_started_tool. eapply (ens_quiet (fun _ => False) (fun _ => True)); [by apply silent_ask | | done]. intros [cancelled now] _.
  destruct (stop_reason _ _ _) as [reason|].
  - eapply (ens_quiet (fun _ => False) (dispatched_as d false)).
    { eapply silent_bind; [apply (stop_error_silent (fun _ => False)); by rewrite Hi |]. intros e [He Hu]. apply silent_ret. rewrite Hi in He, Hu. destruct He as [He1 He2].
      split; [split; [done | by right] |]. intros _. by exists e. }
    2: done. intros ev Hev. apply ens_ret. by eexists _, false.
  - eapply ens_bind; [by apply dispatch_tool_ensures | |].
    + intros ev δ [-> (ev' & [= <-] & Hev)]. apply ens_ret. by eexists _, true.
    + intros st δ [_ (ev & [=] & _)].
Qed.

(** ** Commits *)

Lemma commit_evidence_ensures fence inv event kind operation step :
  ensures (commit_evidence sha256 opts event_payload fence inv event kind operation step)
    (fun r δ => match r with Ok _ => δ = [ERecorded] | Err (Failed _) => δ = [] | Err _ => False end).
Proof.
  unfold commit_evidence.
  eapply (ens_quiet (fun _ => True) (fun _ => True)); [by apply silent_lift | | done]. intros attempt _.
  eapply (ens_quiet (fun _ => True) (fun _ => True)); [by apply silent_lift | | done]. intros payload _.
  eapply (ens_quiet (fun _ => True) (fun _ => True)); [by apply silent_query | | done]. intros run _.
  eapply (ens_quiet (fun _ => True) (fun _ => True)); [by apply silent_lift | | done]. intros journal _.
  eapply (ens_quiet (fun _ => True) (fun _ => True)); [by apply silent_lift | | done]. intros append _.
  eapply (ens_quiet (fun _ => True) (fun _ => True)); [| | done].
  { eapply (silent_map_error (fun _ => True)); [| done]. apply advance_quiet; [by eapply options_bounds | done]. }
  intros outcome _. eapply ens_bind; [by apply (ens_tell _ (fun r δ => r = Ok tt /\ δ = [ERecorded])) | | by intros ? ? [? _]].
  intros _ δ [_ ->]. by apply ens_ret.
Qed.

Lemma commit_terminal_ensures t :
  ensures (commit_tool_terminal sha256 opts event_payload t)
    (fun r δ => (exists inv, r = Ok (Dispatched (terminal_kind t) inv) /\ δ = [ERecorded]) \/ (exists source, r = Err (Failed (mkTerminalError source t)) /\ δ = [])).
Proof.
  unfold commit_tool_terminal. destruct (match tc_evidence t with EvResult _ => _ | EvError _ => _ end) as [operation kind].
  eapply ens_bind.
  { eapply (ens_map_error _ _ _ (fun r δ => match r with Ok _ => δ = [ERecorded] | Err (Failed e) => (exists source, e = mkTerminalError source t) /\ δ = [] | Err _ => False end));
      [apply commit_evidence_ensures | done | | done | done]. intros e δ ->. split; [by exists e | done]. }
  - intros outcome δ ->. apply ens_ret. left. eauto.
  - intros [e| |] δ H; [| done | done]. destruct H as [[source ->] ->]. right. eauto.
Qed.

(** What the ledger makes of the evidence for an executing record: an error is
    always recorded, a result exactly when it is within the effective limits. *)
Definition records (x : ToolInvocation Details) (ev : ToolTerminalEvidence Details) : Prop :=
  forall at_, match ev with
  | EvResult r => apply_transition x (terminal_transition ev) at_ = Ok (ToolInvocations.Committed r) <-> Ledger.within_effective (intent x) r
  | EvError e => apply_transition x (terminal_transition ev) at_ = Ok (state_from_error e)
  end.

Lemma acceptable_records d ev : ready d -> acceptable d ev -> records (di_invocation d) ev.
Proof.
  intros [Hi Hst [Hv Ht Hr Hinv Ha] Hp Hres] Hacc at_. destruct ev as [r|e]; simpl in *; unfold apply_transition; rewrite Hst.
  - rewrite <- Hi in *. rewrite <- Ha. rewrite <- (Ledger.result_binds _ _ _ r Ht Hr eq_refl Hinv Hacc).
    destruct (validate_result_binding _ _ _) as [[]|]; simpl; naive_solver.
  - rewrite <- Hi in *. rewrite <- Ha. by rewrite (Ledger.error_binds _ _ _ e eq_refl Hinv (proj1 Hacc)).
Qed.

(** The evidence of a started attempt: the ledger's verdict on it, the origin of an
    error, and what an attempt that was stopped before its call leaves behind. *)
Record accounted (x : ToolInvocation Details) (called : bool) (ev : ToolTerminalEvidence Details) : Prop := {
  ac_intent : intent x = int;
  ac_state : state x = Executing (ho_attempt_id h);
  ac_records : records x ev;
  ac_retry : forall e delay, ev = EvError e -> safe_after_delay (retry_advice (failure e)) = Some delay ->
    called = true /\ exists p c w w', resolve_tool tools (descriptor int) = Ok p /\ tp_call p c (input int) w = (RaceDone (Err e), w');
  ac_stopped : called = false -> exists e, ev = EvError e /\ (risk (semantics (descriptor int)) <> ReadOnly -> external_effect e = Unknown)
}.

Definition executed_as (r : result (Stop (ToolAttemptExecutionError Details)) (ToolAttemptOutcome Details)) (l : list Event) : Prop :=
  (l = [] /\ ((exists inv, r = Ok (Recovered inv) /\ recovered_as inv) \/ (exists e, r = Err (Failed e) /\ before_start e))) \/
  (exists t called, accounted (tc_invocation t) called (tc_evidence t) /\
     ((exists inv, r = Ok (Dispatched (terminal_kind t) inv) /\
        l = ERecorded :: (if called : bool then [ECalled (ho_attempt_id h)] else []) ++ [EStarted (ho_attempt_id h)]) \/
      (exists source, r = Err (Failed (TTerminal (mkTerminalError source t))) /\
        l = (if called : bool then [ECalled (ho_attempt_id h)] else []) ++ [EStarted (ho_attempt_id h)]))).

Lemma dispatched_accounted d called t : ready d -> terminal_as d called t -> accounted (tc_invocation t) called (tc_evidence t).
Proof.
  intros Hd (_ & -> & _ & Hacc & Hstop). constructor; [apply Hd | apply Hd | by apply acceptable_records | |].
  - intros e delay_ He Hsafe. rewrite He in Hacc, Hstop. destruct called; [| destruct (Hstop eq_refl) as (e' & [= <-] & Hn & _); congruence]. split; [done |].
    destruct Hacc as [_ [(w & w' & Hcall)|Hn]]; [| congruence]. exists (di_provider d), (di_context d), w, w'. split; [apply Hd | done].
  - intros Hc. destruct (Hstop Hc) as (e & He & _ & Hu). by exists e.
Qed.

Lemma execute_ensures : ensures (execute_tool sha256 opts event_payload tools h) executed_as.
Proof.
  unfold execute_tool. eapply ens_bind; [apply start_ensures | |].
  - intros [d|inv] δ [-> Hd]; [| apply ens_ret; left; eauto]. eapply ens_bind; [by apply dispatch_started_ensures | |].
    + intros t δ (t' & called & [= <-] & -> & Ht). pose proof (dispatched_accounted _ _ _ Hd Ht) as Hacc. eapply ens_weaken.
      { eapply (ens_map_error _ _ _ (fun r δ => (exists inv, r = Ok (Dispatched (terminal_kind t) inv) /\ δ = [ERecorded]) \/
          (exists source, r = Err (Failed (TTerminal (mkTerminalError source t))) /\ δ = []))); [apply commit_terminal_ensures | ..].
        - intros a δ [(inv & [= ->] & ->)|(? & [=] & _)]. left. eauto.
        - intros e δ [(? & [=] & _)|(source & [= ->] & ->)]. right. eauto.
        - intros δ [(? & [=] & _)|(? & [=] & _)].
        - intros δ [(? & [=] & _)|(? & [=] & _)]. }
      intros r δ Hr. right. exists t, called. split; [done |]. destruct Hr as [(inv & -> & ->)|(source & -> & ->)]; [left | right]; eauto.
    + intros st δ (t & called & [=] & _).
  - intros [e| |] δ Hst; [| done | done]. destruct Hst as [-> Hb]. left. eauto.
Qed.

End Laws.

(** ** A payment that misses its deadline *)

Module Demo.
Import ToolInvocationLaws.ToolCalls.Demo.
#[local] Existing Instance encode_any.

Definition fence : RunFence := RunLease.mkFence tenant 7 9 1.
Definition audit (h : JournalHead) : Journal.JournalPayload SchemaReference := Journal.mkPayload schema (bytes_of "tool-call") (mkBoundedJson Null (mkJsonStats 4 0 1)) [7].
Definition event : JournalEvent SchemaReference :=
  Journal.mkEvent tenant 7 3 103 3000000 Journal.ControlPlane (audit (journal 3)) [7] [] None [].
Definition the_budget : BudgetRemaining.t := BudgetRemaining.mk 10000000 1 1 1 1 0 0 0 0 1 1 0 0 1 1 4096 4096 0 0 0 [].

(** The store commits what the ledger allows; the world is the number of steps. *)
#[local] Instance demo_env : Env nat unit (ToolInvocation unit) ToolInvocationHead (ToolInvocationTransition unit) unit unit unit unit := {|
  Executor.generate w := (5, w);
  look w := ((false, 0), w);
  observe w := (Ok (mkObservation 9800000 1000), w);
  budget_remaining _ w := (Ok the_budget, w);
  load_run _ _ w := (Ok (mkRunView (mkProvenance tenant 7 9 11 tool) (Some (journal 4))), w);
  load_child_budget_account _ _ w := (Ok None, w);
  load_admission_deadline _ _ w := (Err AgentAdmissionNotFound, w);
  load_tool_invocation _ _ _ w := (Ok r0, w);
  advance_tool _ _ step _ w :=
    match advance hash (match step with StartAttempt _ => r0 | _ => r1 end) step (journal (3 + Z.of_nat w)) with
    | Ok x => (Ok (Executor.Committed event x), S w)
    | Err _ => (Err (OtherStoreError 0), w)
    end;
  load_model_invocation _ _ _ w := (Err (OtherStoreError 0), w);
  advance_model _ _ _ _ w := (Err (OtherStoreError 0), w);
  emit _ w := (RaceDone (Ok tt), w)
|}.

Definition handoff : ToolAttemptHandoff unit := mkHandoff fence r0 1 (mkEventIds 201 202) false.
Definition slow : ToolProvider nat unit := mkToolProvider payments false (fun _ _ w => (RaceDeadline, w)) (fun _ _ w => (RaceDeadline, w)).
Definition registry : Registry ToolDescriptor (ToolProvider nat unit) := Eval vm_compute in
  match tool_register tp_descriptor tp_supports_reconciliation [] slow with Ok l => l | Err _ => [] end.
Definition the_execution := run (execute_tool hash (mkOptions 3 1000) (fun _ _ _ _ _ _ => Some (audit (journal 3))) registry handoff) (mkSt 0%nat []).

End Demo.
End ToolExecutions.
