(* ===== verification/ModelExecutor.v ===== *)
(** The model half of the durable invocation executor
    (crates/stateknot-runtime/src/invocation_executor.rs): handoffs, the context
    of an attempt, the durable start before the provider is called, complete and
    streamed answers, the evidence kept from any of them, and its commit.

    A stream is a world that is polled; the sink is the operation [emit] of the
    world.  The text parser of JSON and the shortest float printer are parameters
    of the event accumulator. *)

From Stdlib Require Import ZArith Lia List.
From stdpp Require Import prelude.
From S2P Require Import Prelude Json StoreErrors BoundedJson Content Failures Accounting Time Capability Budget BudgetLaws Checkpoint Run Lease Journal Tool Model ModelResponse ModelTranscript ModelRequest ModelEvent ToolRuntime ModelRuntime ModelInvocation ModelInvocationLaws Scheduler ProviderRegistry Executor.

Open Scope Z_scope.
Import Timestamp(Timestamp).
Import RunLease(RunFence).

Module ModelExecutor.
Import Content Capability Models Responses Requests ModelRuntime ModelInvocations Providers Executor.
Import Journal(JournalPayload, JournalEvent, IntentDigestWire).

Section Models.
Context {Details : Type}.
Abbreviation InvT := (ModelInvocation Details).
Abbreviation StepT := (ModelInvocationTransition Details).

(** * Handoffs *)

(** Whether there is a stream sink is [ho_stream_sink]. *)
Record ModelAttemptHandoff := mkHandoff {
  ho_fence : RunFence;
  ho_invocation : InvT;
  ho_attempt_id : Z;
  ho_events : InvocationAttemptEventIds;
  ho_stream_sink : bool
}.

Definition in_scope (fence : RunFence) (inv : InvT) : bool :=
  bool_decide (intent_tenant_id (intent inv) = RunLease.tenant_id fence) && bool_decide (intent_run_id (intent inv) = RunLease.run_id fence) &&
  bool_decide (jh_tenant_id (journal_head inv) = RunLease.tenant_id fence) && bool_decide (jh_run_id (journal_head inv) = RunLease.run_id fence).

Definition validate_model_handoff (fence : RunFence) (inv : InvT) (has_stream_sink : bool) : result InvocationAttemptHandoffError unit :=
  if negb (in_scope fence inv) then Err ScopeMismatch else
  match status inv with
  | Prepared_ | Failed_ =>
      match response_mode (request (intent inv)), has_stream_sink with
      | Streaming, false => Err MissingStreamSink
      | Complete, true => Err UnexpectedStreamSink
      | Complete, false | Streaming, true => Ok tt
      end
  | _ => Err InvocationNotStartable
  end.

Definition handoff_new (fence : RunFence) (inv : InvT) (attempt : Z) (events : InvocationAttemptEventIds) (sink : bool)
  : result InvocationAttemptHandoffError ModelAttemptHandoff :=
  _ ← validate_model_handoff fence inv sink; Ok (mkHandoff fence inv attempt events sink).

Inductive ModelAttemptTerminalKind := TerminalResponse | TerminalError.
Inductive ModelAttemptOutcome := Dispatched (terminal : ModelAttemptTerminalKind) (invocation : InvT) | Recovered (invocation : InvT).

Inductive ModelTerminalEvidence := EvResponse (response : ModelResponse) | EvError (error : ModelError Details).

Record ModelTerminalCommitHandoff := mkTerminal {
  tc_fence : RunFence;
  tc_invocation : InvT;
  tc_event_id : Z;
  tc_evidence : ModelTerminalEvidence
}.

Definition terminal_kind (self : ModelTerminalCommitHandoff) : ModelAttemptTerminalKind :=
  match tc_evidence self with EvResponse _ => TerminalResponse | EvError _ => TerminalError end.

Definition terminal_rebind_fence (self : ModelTerminalCommitHandoff) (fence : RunFence) : result InvocationAttemptHandoffError ModelTerminalCommitHandoff :=
  if negb (bool_decide (intent_tenant_id (intent (tc_invocation self)) = RunLease.tenant_id fence)) ||
     negb (bool_decide (intent_run_id (intent (tc_invocation self)) = RunLease.run_id fence))
  then Err ScopeMismatch else Ok (mkTerminal fence (tc_invocation self) (tc_event_id self) (tc_evidence self)).

Record ModelTerminalCommitError := mkTerminalError { te_source : InvocationTerminalCommitFailure; te_recovery : ModelTerminalCommitHandoff }.

Inductive ModelAttemptExecutionError :=
| MHandoff (source : InvocationAttemptHandoffError)
| MRegistry (source : ModelProviderRegistryError)
| MStore (source : StoreError)
| MRunProvenanceMismatch
| MClock (source : InvocationClockError)
| MBudgetProvider (source : InvocationBudgetProviderError)
| MBudgetInsufficient
| MContext (source : ModelContextError)
| MStoppedBeforeStart (reason : ModelStopReason)
| MEventPayload
| MJournalAppend
| MRecoveredInvocationMismatch
| MInvocationAdvanced
| MTerminal (source : ModelTerminalCommitError).
End Models.
Arguments ModelAttemptHandoff : clear implicits.
Arguments ModelAttemptOutcome : clear implicits.
Arguments ModelTerminalEvidence : clear implicits.
Arguments ModelTerminalCommitHandoff : clear implicits.
Arguments ModelTerminalCommitError : clear implicits.
Arguments ModelAttemptExecutionError : clear implicits.

(** * Providers *)

(** [mp_stream] opens a stream and [mp_poll] polls it; [None] is its end. *)
Record ModelProvider (W Details : Type) := mkModelProvider {
  mp_descriptor : ModelDescriptor;
  mp_invoke : ModelContext -> ModelRequest -> W -> Race (result (ModelError Details) ModelResponse) * W;
  mp_stream : ModelContext -> ModelRequest -> W -> unit * W;
  mp_poll : W -> Race (option (result (ModelError Details) Events.ModelEvent)) * W
}.
Arguments mp_descriptor {W Details} m.
Arguments mp_invoke {W Details} m.
Arguments mp_stream {W Details} m.
Arguments mp_poll {W Details} m.
Arguments mkModelProvider {W Details} mp_descriptor mp_invoke mp_stream mp_poll.

Section Execution.
Context {W Details ToolInv ToolHead ToolStep : Type}.
Context `{Env_ : !Env W Details ToolInv ToolHead ToolStep (ModelInvocation Details) ModelInvocationHead (ModelInvocationTransition Details) Events.ModelEvent}.
Context `{!Canonical IntentDigestWire}.
Variable sha256 : bytes -> bytes.
Variable float_text : Z -> bytes.
Variable parser : bytes -> Doc * option (Z * Z).
Variable opts : DurableInvocationExecutorOptions.
Variable event_payload : EventPayload.
Variable models : Registry ModelDescriptor (ModelProvider W Details).

Abbreviation X := (M W).
Abbreviation InvT := (ModelInvocation Details).
Abbreviation Fault := (ModelAttemptExecutionError Details).
Abbreviation Evidence := (ModelTerminalEvidence Details).

Definition resolve_model (d : ModelDescriptor) : result ModelProviderRegistryError (ModelProvider W Details) := model_resolve mp_descriptor models d.

(** ** Contexts *)

Definition validate_run_provenance (p : AgentResultProvenance CapabilityIdentity) (fence : RunFence) : result Fault unit :=
  if negb (bool_decide (tenant_id p = RunLease.tenant_id fence)) || negb (bool_decide (run_id p = RunLease.run_id fence))
  then Err MRunProvenanceMismatch else Ok tt.

(** [content_bytes] of a request expects a sum that does not overflow. *)
Definition validate_model_budget (remaining : BudgetRemaining.t) (q : ModelRequest) : result (fault Fault) unit :=
  if (BudgetRemaining.model_attempts remaining =? 0) || (BudgetRemaining.model_turns remaining =? 0) ||
     (BudgetRemaining.input_tokens remaining <? lim_input_tokens (limits q)) || (BudgetRemaining.output_tokens remaining <? lim_output_tokens (limits q))
  then Err (Fail MBudgetInsufficient) else
  content_bytes ← ok_or (request_content_bytes (req_instructions q) (req_messages q) (transcript q)) Panic;
  if BudgetRemaining.input_bytes remaining <? content_bytes then Err (Fail MBudgetInsufficient) else Ok tt.

Definition prepare_model_context (handoff : ModelAttemptHandoff Details) : X Fault (ModelContext * option Digest) :=
  let fence := ho_fence handoff in
  let int := intent (ho_invocation handoff) in
  run ← (r ← ask (load_run (RunLease.tenant_id fence) (RunLease.run_id fence)); lift (map_err MStore r));
  let p := rv_provenance run in
  _ ← lift (validate_run_provenance p fence);
  account ← (r ← ask (load_child_budget_account (RunLease.tenant_id fence) (RunLease.run_id fence)); lift (map_err MStore r));
  let child_budget := ChildBudget.ChildBudget.account_digest <$> account in
  observation ← (r ← ask observe; lift (map_err MClock r));
  remaining ← (r ← ask (budget_remaining (mkBudgetContext p BoundaryModel (ModelInvocations.invocation_id int) (ho_attempt_id handoff) (intent_digest int)
                 (observed_at observation))); lift (map_err (fun _ => MBudgetProvider ProviderSource) r));
  _ ← lift_fault (validate_model_budget remaining (request int));
  remaining ← lift (map_err (fun e => MBudgetProvider (StoreSource e)) (deduct_child_budget remaining account));
  _ ← lift_fault (validate_model_budget remaining (request int));
  context ← map_error MContext (lift_fault (context_new (tenant_id p) (run_id p) (thread_id p) (ho_attempt_id handoff) remaining
                                              (observed_at observation) (observed_instant observation)));
  '(cancelled, now) ← ask look;
  match stop_reason_at context cancelled now with
  | Some reason => fail (MStoppedBeforeStart reason)
  | None => mret (context, child_budget)
  end.

(** ** Recovery of an attempt that had been started before *)

Definition check_recovered (handoff : ModelAttemptHandoff Details) (current : InvT) : result Fault InvT :=
  if negb (bool_decide (attempt_id current = Some (ho_attempt_id handoff))) then Err MInvocationAdvanced else Ok current.

Definition recover_model_if_started (handoff : ModelAttemptHandoff Details) : X Fault (option InvT) :=
  current ← (r ← ask (load_model_invocation (RunLease.tenant_id (ho_fence handoff)) (RunLease.run_id (ho_fence handoff))
                        (ModelInvocations.invocation_id (intent (ho_invocation handoff)))); lift (map_err MStore r));
  if negb (bool_decide (intent current = intent (ho_invocation handoff))) then fail MRecoveredInvocationMismatch else
  if bool_decide (head current = head (ho_invocation handoff)) then mret None else
  current ← lift (check_recovered handoff current); mret (Some current).

(** ** Evidence of the runtime *)

Definition error_provenance (context : ModelContext) (d : ModelDescriptor) : ModelErrorProvenance :=
  mkErrorProvenance (mc_attempt_id context) (model_identity d) None None None.

Definition model_stop_error {E} (context : ModelContext) (d : ModelDescriptor) (reason : ModelStopReason) : X E (ModelError Details) :=
  let '(cat, code, message) :=
    match reason with
    | ModelRuntime.Cancelled => (Cancelled_, bytes_of "runtime.model.cancelled", bytes_of "Model attempt stopped after cancellation was requested.")
    | ModelRuntime.DeadlineExceeded => (Run.DeadlineExceeded, bytes_of "runtime.model.deadline_exceeded", bytes_of "Model attempt exceeded its effective deadline.")
    end in
  f ← runtime_failure generate cat code message Never;
  mret (mkModelError f Dispatch (error_provenance context d) None).

Definition model_contract_error {E} (context : ModelContext) (d : ModelDescriptor) (p : ModelErrorPhase) (code message : bytes) : X E (ModelError Details) :=
  f ← runtime_failure generate Internal code message Never;
  mret (mkModelError f p (error_provenance context d) None).

Definition stopped {E} (context : ModelContext) (d : ModelDescriptor) (reason : ModelStopReason) : X E Evidence :=
  e ← model_stop_error context d reason; mret (EvError e).
Definition broken {E} (context : ModelContext) (d : ModelDescriptor) (p : ModelErrorPhase) (code message : bytes) : X E Evidence :=
  e ← model_contract_error context d p code message; mret (EvError e).

(** ** Dispatch *)

(** [validate_for(..).is_ok()] of a response. *)
Definition response_is_ok {E} (r : ModelResponse) (d : ModelDescriptor) (q : ModelRequest) : X E bool :=
  match response_validate_for r d q with Ok _ => mret true | Err (Fail _) => mret false | Err Panic => stop Panicked end.

Definition dispatch_complete_model {E} (provider : ModelProvider W Details) (context : ModelContext) (q : ModelRequest) : X E Evidence :=
  let d := mp_descriptor provider in
  _ ← tell (ECalled (mc_attempt_id context));
  race ← ask (mp_invoke provider context q);
  match race with
  | RaceCancelled => stopped context d ModelRuntime.Cancelled
  | RaceDeadline => stopped context d ModelRuntime.DeadlineExceeded
  | RaceDone (Ok response) =>
      valid ← (if mp_attempt_id (response_provenance response) =? mc_attempt_id context then response_is_ok response d q else mret false);
      if valid : bool then mret (EvResponse response) else
      broken context d Response (bytes_of "runtime.model.invalid_response") (bytes_of "Model provider returned a response outside its registered contract.")
  | RaceDone (Err error) =>
      match validate_for error context d q with
      | Ok _ => mret (EvError error)
      | Err _ => broken context d Response (bytes_of "runtime.model.invalid_error")
                   (bytes_of "Model provider returned failure evidence outside its registered contract.")
      end
  end.

(** The event is accumulated and then handed to the sink; [Err] is the evidence
    that ends the attempt. *)
Definition accept_model_stream_event {E} (d : ModelDescriptor) (context : ModelContext) (accumulator : Events.ModelEventAccumulator)
    (event : Events.ModelEvent) : X E (result Evidence Events.ModelEventAccumulator) :=
  let '(accumulator', pushed) := Events.push float_text parser accumulator event in
  match pushed with
  | Err Panic => stop Panicked
  | Err (Fail _) =>
      e ← broken context d Stream (bytes_of "runtime.model.invalid_stream_event") (bytes_of "Model provider emitted an invalid semantic stream event.");
      mret (Err e)
  | Ok _ =>
      race ← ask (emit event);
      match race with
      | RaceCancelled => e ← stopped context d ModelRuntime.Cancelled; mret (Err e)
      | RaceDeadline => e ← stopped context d ModelRuntime.DeadlineExceeded; mret (Err e)
      | RaceDone (Ok _) => _ ← tell (EEmitted event); mret (Ok accumulator')
      | RaceDone (Err _) =>
          e ← broken context d Stream (bytes_of "runtime.model.stream_sink_failed") (bytes_of "The durable model stream sink did not accept an event.");
          mret (Err e)
      end
  end.

Definition finish_model_stream {E} (context : ModelContext) (d : ModelDescriptor) (accumulator : Events.ModelEventAccumulator) : X E Evidence :=
  match Events.finish accumulator with
  | Ok response => mret (EvResponse response)
  | Err _ => broken context d Stream (bytes_of "runtime.model.incomplete_stream") (bytes_of "Model provider stream ended without a valid terminal event.")
  end.

Fixpoint stream_loop {E} (provider : ModelProvider W Details) (context : ModelContext) (q : ModelRequest) (fuel : nat)
    (accumulator : Events.ModelEventAccumulator) : X E Evidence :=
  let d := mp_descriptor provider in
  match fuel with
  | O => stop OutOfRetries
  | S fuel =>
      next ← ask (mp_poll provider);
      match next with
      | RaceCancelled => stopped context d ModelRuntime.Cancelled
      | RaceDeadline => stopped context d ModelRuntime.DeadlineExceeded
      | RaceDone (Some (Ok event)) =>
          accepted ← accept_model_stream_event d context accumulator event;
          match accepted with
          | Ok accumulator => stream_loop provider context q fuel accumulator
          | Err evidence => mret evidence
          end
      | RaceDone (Some (Err error)) =>
          match validate_for error context d q with
          | Ok _ => mret (EvError error)
          | Err _ => broken context d Stream (bytes_of "runtime.model.invalid_stream_error") (bytes_of "Model provider returned invalid stream failure evidence.")
          end
      | RaceDone None => finish_model_stream context d accumulator
      end
  end.

(** An accepted event takes the next sequence number, and those are bounded. *)
Definition STREAM_FUEL : nat := Z.to_nat (Events.MAX_EVENTS_PER_ATTEMPT + 1).

Definition dispatch_streaming_model {E} (provider : ModelProvider W Details) (context : ModelContext) (q : ModelRequest) (stream_sink : bool) : X E Evidence :=
  let d := mp_descriptor provider in
  if negb stream_sink then
    broken context d Preparation (bytes_of "runtime.model.missing_stream_sink") (bytes_of "Streaming model execution has no durable event sink.")
  else
  match Events.accumulator_new (mc_attempt_id context) d q with
  | Err _ => broken context d Preparation (bytes_of "runtime.model.invalid_stream_setup")
               (bytes_of "Streaming model execution could not satisfy its registered contract.")
  | Ok accumulator =>
      _ ← tell (ECalled (mc_attempt_id context));
      _ ← ask (mp_stream provider context q);
      stream_loop provider context q STREAM_FUEL accumulator
  end.

Definition dispatch_model {E} (provider : ModelProvider W Details) (context : ModelContext) (q : ModelRequest) (stream_sink : bool) : X E Evidence :=
  match response_mode q with
  | Complete => dispatch_complete_model provider context q
  | Streaming => dispatch_streaming_model provider context q stream_sink
  end.

(** ** Commits *)

Definition terminal_transition (e : Evidence) : ModelInvocationTransition Details :=
  match e with EvResponse r => RecordResponse r | EvError error => RecordError error end.

Definition commit_model_evidence (handoff : ModelTerminalCommitHandoff Details) (event_kind operation : bytes)
  : X InvocationTerminalCommitFailure (CommitOutcome InvT) :=
  let inv := tc_invocation handoff in
  attempt ← lift (ok_or (attempt_id inv) InvalidInvocationState);
  payload ← lift (ok_or (event_payload event_kind operation (bytes_of "model") (ModelInvocations.invocation_id (intent inv)) attempt (intent_digest (intent inv)))
                    InvalidEventPayload);
  run ← (r ← ask (load_run (intent_tenant_id (intent inv)) (intent_run_id (intent inv))); lift (map_err CommitStore r));
  journal ← lift (ok_or (rv_journal_head run) RunJournalUnavailable);
  append ← lift (ok_or (worker_append sha256 (tc_fence handoff) journal (tc_event_id handoff) payload) InvalidJournalAppend);
  outcome ← map_error CommitStore (advance_with_retry opts (advance_model append (head inv) (terminal_transition (tc_evidence handoff)) None));
  _ ← tell ERecorded;
  mret outcome.

Definition commit_model_terminal (handoff : ModelTerminalCommitHandoff Details) : X (ModelTerminalCommitError Details) (ModelAttemptOutcome Details) :=
  let '(operation, event_kind) :=
    match tc_evidence handoff with
    | EvResponse _ => (bytes_of "model_response_committed", bytes_of "model-response-committed")
    | EvError _ => (bytes_of "model_error_committed", bytes_of "model-error-committed")
    end in
  outcome ← map_error (fun source => mkTerminalError source handoff) (commit_model_evidence handoff event_kind operation);
  mret (Dispatched (terminal_kind handoff) (outcome_invocation outcome)).

(** ** One attempt *)

(** What follows a committed start. *)
Definition dispatch_started_model (handoff : ModelAttemptHandoff Details) (provider : ModelProvider W Details) (context : ModelContext) (executing : InvT)
  : X Fault (ModelAttemptOutcome Details) :=
  '(cancelled, now) ← ask look;
  evidence ← match stop_reason_at context cancelled now with
             | Some reason => stopped context (descriptor (intent executing)) reason
             | None => dispatch_model provider context (request (intent executing)) (ho_stream_sink handoff)
             end;
  map_error MTerminal (commit_model_terminal (mkTerminal (ho_fence handoff) executing (terminal_event (ho_events handoff)) evidence)).

Definition execute_model (handoff : ModelAttemptHandoff Details) : X Fault (ModelAttemptOutcome Details) :=
  let inv := ho_invocation handoff in
  let int := intent inv in
  _ ← lift (map_err MHandoff (validate_model_handoff (ho_fence handoff) inv (ho_stream_sink handoff)));
  recovered ← recover_model_if_started handoff;
  match recovered with
  | Some current => mret (Recovered current)
  | None =>
      provider ← lift (map_err MRegistry (resolve_model (descriptor int)));
      '(context, child_budget) ← prepare_model_context handoff;
      payload ← lift (ok_or (event_payload (bytes_of "model-attempt-started") (bytes_of "model_attempt_started") (bytes_of "model")
                               (ModelInvocations.invocation_id int) (ho_attempt_id handoff) (intent_digest int)) MEventPayload);
      append ← lift (ok_or (worker_append sha256 (ho_fence handoff) (journal_head inv) (start_event (ho_events handoff)) payload) MJournalAppend);
      start ← map_error MStore (advance_with_retry opts (advance_model append (head inv) (StartAttempt (ho_attempt_id handoff)) child_budget));
      match start with
      | Executor.Committed _ executing =>
          _ ← tell (EStarted (ho_attempt_id handoff));
          dispatch_started_model handoff provider context executing
      | Idempotent _ _ =>
          current ← (r ← ask (load_model_invocation (RunLease.tenant_id (ho_fence handoff)) (RunLease.run_id (ho_fence handoff))
                                (ModelInvocations.invocation_id int)); lift (map_err MStore r));
          if negb (bool_decide (intent current = int)) then fail MRecoveredInvocationMismatch else
          current ← lift (check_recovered handoff current); mret (Recovered current)
      end
  end.
End Execution.
End ModelExecutor.

(** Laws of the model executor: whatever the world answers, an attempt is started
    durably before the provider is called, the sink gets the very events a streamed
    response is assembled from, and the evidence is one that the ledger records. *)

Module ModelExecutions.
Import Content Capability Models Responses Requests ModelRuntime ModelInvocations ModelCalls StreamLaws Providers Executor ExecutorRules ModelExecutor.
Import Journal(JournalPayload, JournalEvent, IntentDigestWire).

(** * Streamed responses *)

(** An accumulator that has taken the events [es] and refused none. *)
Definition live float_text parser (a : Z) (d : ModelDescriptor) (q : ModelRequest) (es : list Events.ModelEvent) (s : Events.ModelEventAccumulator) : Prop :=
  Forall event_wf es /\ numbered a es /\ Events.poisoned s = false /\
  (assembling float_text parser a d q es s \/ exists r, Events.acc_response s = Some r /\ assembled float_text parser d q (Events.ev_kind <$> es) r).

Lemma live_new float_text parser a d q s : Events.accumulator_new a d q = Ok s -> live float_text parser a d q [] s.
Proof.
  intros Hn. pose proof (assembling_new float_text parser a d q s Hn) as Ha. split_and!; [constructor | intros i e; by rewrite lookup_nil | by destruct Ha as [(_ & _ & _ & ? & _) _ _ _ _] | by left].
Qed.

(** An accepted event takes the next number, so there are only boundedly many. *)
Lemma live_push float_text parser a d q es e s :
  live float_text parser a d q es s -> event_wf e ->
  (Events.push float_text parser s e).2 <> Err Panic /\
  ((Events.push float_text parser s e).2 = Ok tt ->
   live float_text parser a d q (es ++ [e]) (Events.push float_text parser s e).1 /\ Z.of_nat (length es) < Events.MAX_EVENTS_PER_ATTEMPT).
Proof.
  intros (Hes & Hn & Hp & Hs) He. unfold Events.push. rewrite Hp. destruct (Events.acc_response s) as [r|] eqn:Er; simpl; [by split |].
  destruct Hs as [Has|(r & Hr & _)]; [| congruence]. pose proof (try_push_safe _ _ _ _ _ _ _ _ Has He) as Hsafe.
  destruct (Events.try_push float_text parser s e) as [s'|err] eqn:Et; simpl; [| split; [congruence | done]]. split; [done |]. intros _.
  assert (Hlt : Z.of_nat (length es) < Events.MAX_EVENTS_PER_ATTEMPT).
  { rewrite <- (as_seq _ _ _ _ _ _ _ Has). pose proof Et as Et'. unfold Events.try_push in Et'. do 2 (case_match; [done |]). bools. destruct He as [He _]. unfold Events.event_new in He.
    destruct (Z.leb_spec Events.MAX_EVENTS_PER_ATTEMPT (Events.ev_sequence e)); [done | lia]. }
  split; [| done]. assert (Hes' : Forall event_wf (es ++ [e])) by (apply Forall_app; split; [done | by apply Forall_singleton]).
  destruct (is_completed (Events.ev_kind e)) eqn:Ec.
  - destruct (completed_assembles _ _ _ _ _ _ _ _ _ Has Ec Et) as (r & R1 & R2 & R3 & R4 & _). split_and!; [done | done | done | right; by exists r].
  - pose proof (step_assembles _ _ _ _ _ _ _ _ _ Has He Ec Et) as Has'. split_and!; [done | exact (as_events _ _ _ _ _ _ _ Has') | by destruct Has' as [(_ & _ & _ & ? & _) _ _ _ _] | by left].
Qed.

Lemma live_finish float_text parser a d q es s r :
  live float_text parser a d q es s -> Events.finish s = Ok r -> assembled float_text parser d q (Events.ev_kind <$> es) r.
Proof.
  intros (_ & _ & Hp & Hs). unfold Events.finish. rewrite Hp. destruct Hs as [[(_ & _ & _ & _ & ->) _ _ _ _]|(r' & -> & ?)]; [done |]. by intros [= <-].
Qed.

Section Laws.
Context {W Details ToolInv ToolHead ToolStep : Type}.
Context `{Env_ : !Env W Details ToolInv ToolHead ToolStep (ModelInvocation Details) ModelInvocationHead (ModelInvocationTransition Details) Events.ModelEvent}.
Context `{!Canonical IntentDigestWire, !Canonical (ModelInvocationTransition Details), !Canonical (ModelInvocationRecordDigestWire Details)}.
Variable sha256 : bytes -> bytes.
Variable float_text : Z -> bytes.
Variable parser : bytes -> Doc * option (Z * Z).
Variable opts : DurableInvocationExecutorOptions.
Variable event_payload : EventPayload.
Variable models : Registry ModelDescriptor (ModelProvider W Details).
Variable h : ModelAttemptHandoff Details.

Abbreviation int := (intent (ho_invocation h)).
Abbreviation att := (ho_attempt_id h).

(** The options come from their constructor; the clock and the budget provider
    return timestamps, and the content of the request has been measured. *)
Variables attempts delay : Z.
Hypothesis Hattempts : 0 <= attempts.
Hypothesis Hopts : options_new attempts delay = Ok opts.
Hypothesis Hclock : forall w o, (observe w).1 = Ok o -> Timestamp.valid (observed_at o).
Hypothesis Hbudget : forall b w r, (budget_remaining b w).1 = Ok r -> Timestamp.valid (BudgetRemaining.deadline r).
Hypothesis Hcontent : is_Some (request_content_bytes (req_instructions (request int)) (req_messages (request int)) (transcript (request int))).
(** The events of a stream come from their constructor. *)
Hypothesis Hevents : forall p w e, resolve_model models (descriptor int) = Ok p -> (mp_poll p w).1 = RaceDone (Some (Ok e)) -> event_wf e.
(** A start that the store commits is the ledger's own successor. *)
Hypothesis Hstore : forall append child w event x,
  (advance_model append (head (ho_invocation h)) (StartAttempt att) child w).1 = Ok (Executor.Committed event x) ->
  exists j, advance sha256 (ho_invocation h) (StartAttempt att) j = Ok x.

(** ** Building the context *)

(** An error before anything was started. *)
Definition before_start (e : ModelAttemptExecutionError Details) : Prop := forall te, e <> MTerminal te.

Lemma model_budget_quiet remaining :
  quiet (W := W) before_start (fun _ => True) (lift_fault (validate_model_budget remaining (request int))).
Proof.
  destruct Hcontent as [n Hn]. unfold validate_model_budget. rewrite Hn. simpl. destruct (_ || _); [by apply silent_fail |]. destruct (_ <? n); [by apply silent_fail | by apply silent_ret].
Qed.

Lemma deducted_deadline remaining account r : deduct_child_budget remaining account = Ok r -> BudgetRemaining.deadline r = BudgetRemaining.deadline remaining.
Proof.
  unfold deduct_child_budget. destruct account as [account|]; [| by intros [= <-]]. destruct (existsb _ _); [done |]. intros (usage & _ & Hd)%bind_Ok.
  apply map_err_Ok in Hd. apply BudgetLaws.Capacity.deduct_cumulative_Ok in Hd as (_ & -> & _). done.
Qed.

Lemma model_prepare_quiet : quiet before_start (fun cb => mc_attempt_id cb.1 = att) (prepare_model_context h).
Proof.
  unfold prepare_model_context.
  apply (silent_bind _ (fun _ => True)); [by apply silent_query |]. intros run _.
  apply (silent_bind _ (fun _ => True)); [apply silent_lift; [done |]; intros e; unfold validate_run_provenance; destruct (_ || _); [by intros [= <-] | done] |]. intros _ _.
  apply (silent_bind _ (fun _ => True)); [by apply silent_query |]. intros account _.
  apply (silent_bind _ (fun o => Timestamp.valid (observed_at o))); [by apply silent_query |]. intros observation Ho.
  apply (silent_bind _ (fun r => Timestamp.valid (BudgetRemaining.deadline r))); [apply silent_query; [done |]; intros w r Hw; by eapply Hbudget |]. intros r0 Hr0.
  apply (silent_bind _ (fun _ => True)); [apply model_budget_quiet |]. intros _ _.
  apply (silent_bind _ (fun r => Timestamp.valid (BudgetRemaining.deadline r))).
  { apply silent_lift; [| by intros e (? & _ & ->)%map_err_Err_inv]. intros r Hd. apply map_err_Ok in Hd. by rewrite (deducted_deadline _ _ _ Hd). }
  intros remaining Hrem. apply (silent_bind _ (fun _ => True)); [apply model_budget_quiet |]. intros _ _.
  apply (silent_bind _ (fun c => mc_attempt_id c = att)).
  { eapply (silent_map_error (fun _ => True)); [| done]. apply silent_lift_fault; [by apply model_context_deadline | | done]. intros c. unfold context_new.
    destruct (_ <=? 0); [done |]. destruct (u64_max <? _); [done |]. by intros (? & _ & [= <-])%bind_Ok. }
  intros c Hc. apply (silent_bind _ (fun _ => True)); [by apply silent_ask |]. intros [cancelled now] _. destruct (stop_reason_at _ _ _); [by apply silent_fail | by apply silent_ret].
Qed.

(** ** Recovery *)

Definition recovered_as (inv : ModelInvocation Details) : Prop := intent inv = int /\ attempt_id inv = Some att.

Lemma model_check_recovered_quiet current :
  intent current = int -> quiet (W := W) before_start recovered_as (lift (check_recovered h current)).
Proof. intros Hi. unfold check_recovered. case_bool_decide; simpl; [by apply silent_ret | by apply silent_fail]. Qed.

Lemma model_recover_quiet : quiet before_start (fun o => forall inv, o = Some inv -> recovered_as inv) (recover_model_if_started h).
Proof.
  unfold recover_model_if_started. apply (silent_bind _ (fun _ => True)); [by apply silent_query |]. intros current _. case_bool_decide as Hi; simpl; [| by apply silent_fail].
  case_bool_decide; [by apply silent_ret |]. apply (silent_bind _ recovered_as); [by apply model_check_recovered_quiet |]. intros inv Hinv. apply silent_ret. by intros ? [= <-].
Qed.

Lemma model_committed_executes x : (exists j, advance sha256 (ho_invocation h) (StartAttempt att) j = Ok x) -> intent x = int /\ state x = Executing att.
Proof.
  intros [j (st & tdig & dig & _ & _ & _ & Ha & _ & _ & ->)%model_advance_Ok]. split; [done |]. simpl. unfold apply_transition in Ha. destruct (state (ho_invocation h)); try done.
  - by injection Ha as <-.
  - destruct (_ =? _); [done |]. apply bind_Ok in Ha as (_ & _ & [= <-]). done.
Qed.

(** ** Evidence *)

Definition bound_error (e : ModelError Details) : Prop := validate_for_attempt e att (descriptor int) (request int) = Ok tt.

(** The runtime's own evidence: it validates for the attempt, licenses no retry
    and claims no usage. *)
Definition runtime_evidence (ev : ModelTerminalEvidence Details) : Prop :=
  exists e, ev = EvError e /\ bound_error e /\ Tools.safe_after_delay (retry_advice (me_failure e)) = None /\ me_usage e = None.

Lemma runtime_error_bound c f p :
  mc_attempt_id c = att -> phase_matches_mode p (response_mode (request int)) = true ->
  bound_error (mkModelError f p (error_provenance c (descriptor int)) None).
Proof. intros Hc Hp. unfold bound_error, validate_for_attempt. simpl. by rewrite Hc, Z.eqb_refl, bool_decide_true, Hp. Qed.

Lemma broken_silent {E} (PE : E -> Prop) c p code message :
  mc_attempt_id c = att -> phase_matches_mode p (response_mode (request int)) = true ->
  is_ok (Failures.validate_failure_identifier code) = true -> is_ok (Failures.validate_failure_message message) = true ->
  quiet (W := W) PE runtime_evidence (broken c (descriptor int) p code message).
Proof.
  intros Hc Hp H1 H2. unfold broken, model_contract_error. eapply silent_bind.
  { eapply silent_bind; [by apply (runtime_failure_quiet PE generate Internal code message Never (fun f => retry_advice f = Never)) |].
    intros f Hf. apply (silent_ret _ (fun e => bound_error e /\ Tools.safe_after_delay (retry_advice (me_failure e)) = None /\ me_usage e = None)).
    split_and!; [by apply runtime_error_bound | by simpl; rewrite Hf | done]. }
  intros e He. apply silent_ret. by exists e.
Qed.

Lemma stopped_silent {E} (PE : E -> Prop) c reason :
  mc_attempt_id c = att -> quiet (W := W) PE runtime_evidence (stopped c (descriptor int) reason).
Proof.
  intros Hc. unfold stopped, model_stop_error. destruct reason; (eapply silent_bind;
    [ eapply silent_bind; [by apply (runtime_failure_quiet PE generate _ _ _ Never (fun f => retry_advice f = Never)); first [done | vm_compute] |];
      intros f Hf; apply (silent_ret _ (fun e => bound_error e /\ Tools.safe_after_delay (retry_advice (me_failure e)) = None /\ me_usage e = None));
      split_and!; [by apply runtime_error_bound | by simpl; rewrite Hf | done]
    | intros e He; apply silent_ret; by exists e ]).
Qed.

(** ** Dispatch *)

(** The provider returned this error, as the answer or in its stream. *)
Definition answered (p : ModelProvider W Details) (e : ModelError Details) : Prop :=
  (exists c w w', mp_invoke p c (request int) w = (RaceDone (Err e), w')) \/ (exists w w', mp_poll p w = (RaceDone (Some (Err e)), w')).

(** The evidence of a call that handed the events [es] to the sink. *)
Definition acceptable (p : ModelProvider W Details) (es : list Events.ModelEvent) (ev : ModelTerminalEvidence Details) : Prop :=
  match ev with
  | EvResponse r => validate_response_binding int att r = Ok tt /\
      (response_mode (request int) = Streaming -> assembled float_text parser (descriptor int) (request int) (Events.ev_kind <$> es) r)
  | EvError e => bound_error e /\ (answered p e \/ runtime_evidence ev)
  end.

Lemma runtime_acceptable p es ev : runtime_evidence ev -> acceptable p es ev.
Proof. intros Hr. pose proof Hr as (e & -> & He & _). split; [done | by right]. Qed.

Lemma silent_acceptable {E} p es (m : M W E (ModelTerminalEvidence Details)) :
  quiet (fun _ => False) runtime_evidence m -> quiet (fun _ => False) (acceptable p es) m.
Proof.
  intros Hm. eapply ens_weaken; [exact Hm |]. intros [ev|[]] δ [-> H]; (split; [done |]); try done. by apply runtime_acceptable.
Qed.

Lemma response_ok_silent {E} (PE : E -> Prop) r :
  quiet (W := W) PE (fun b => b = true -> response_validate_for r (descriptor int) (request int) = Ok tt) (response_is_ok r (descriptor int) (request int)).
Proof.
  unfold response_is_ok. pose proof (RequestLaws.validate_for_safe r (descriptor int) (request int)) as Hs.
  destruct (response_validate_for r _ _) as [[]|[]]; [by apply silent_ret | done | by apply silent_ret].
Qed.

Lemma complete_ensures {E} p c : mp_descriptor p = descriptor int -> mc_attempt_id c = att -> response_mode (request int) = Complete ->
  ensures (dispatch_complete_model (E := E) p c (request int)) (fun r δ => δ = [ECalled att] /\ exists ev, r = Ok ev /\ acceptable p [] ev).
Proof.
  intros Hp Hc Hm. unfold dispatch_complete_model. rewrite Hp, Hc.
  eapply ens_bind; [by apply (ens_tell _ (fun r δ => r = Ok tt /\ δ = [ECalled att])) | | by intros ? ? [? _]]. intros _ δ [_ ->].
  eapply (ens_weaken _ (silent (fun _ => False) (acceptable p []))).
  2: { intros r δ [-> H]. split; [done |]. destruct r as [ev|[]]; [by exists ev | done ..]. }
  apply (silent_bind _ (fun race => exists w w', mp_invoke p c (request int) w = (race, w'))).
  { apply silent_ask. intros w. destruct (mp_invoke _ _ _ w) as [race w'] eqn:Ec. by exists w, w'. }
  assert (Hph : phase_matches_mode Response (response_mode (request int)) = true) by (by simpl; rewrite bool_decide_true).
  intros [| |[r|e]] (w & w' & Hcall); [by apply silent_acceptable, stopped_silent | by apply silent_acceptable, stopped_silent | |].
  - apply (silent_bind _ (fun b : bool => b = true -> validate_response_binding int att r = Ok tt)).
    { destruct (Z.eqb_spec (mp_attempt_id (response_provenance r)) att) as [Ha|]; [| by apply silent_ret].
      eapply ens_weaken; [apply (response_ok_silent (fun _ => False)) |]. intros [b|[]] δ [-> Hb]; split; try done. intros Hbt. apply response_binding_Ok. auto. }
    intros [] Hb; [apply silent_ret; split; [by apply Hb | congruence] |]. by apply silent_acceptable, broken_silent; [| | vm_compute | vm_compute].
  - destruct (validate_for e c _ _) as [[]|] eqn:Ev; [| by apply silent_acceptable, broken_silent; [| | vm_compute | vm_compute]]. apply silent_ret. split.
    + unfold validate_for in Ev. by rewrite Hc in Ev.
    + left. left. by exists c, w, w'.
Qed.

(** How a computation that polls a stream ends after the events [es]. *)
Definition streamed_as {E} (p : ModelProvider W Details) (es : list Events.ModelEvent)
    (r : result (Stop E) (ModelTerminalEvidence Details)) (δ : list Event) : Prop :=
  exists more ev, r = Ok ev /\ δ = EEmitted <$> rev more /\ numbered att (es ++ more) /\ acceptable p (es ++ more) ev.

Lemma streamed_end {E} p es (m : M W E (ModelTerminalEvidence Details)) :
  numbered att es -> quiet (fun _ => False) (acceptable p es) m -> ensures m (streamed_as p es).
Proof.
  intros Hn Hm. eapply ens_weaken; [exact Hm |]. intros [ev|[]] δ [-> H]; [| done ..]. exists [], ev. by rewrite app_nil_r.
Qed.

Abbreviation alive := (live float_text parser att (descriptor int) (request int)).

Lemma finish_silent {E} p c es s :
  mc_attempt_id c = att -> response_mode (request int) = Streaming -> alive es s ->
  quiet (W := W) (E := E) (fun _ => False) (acceptable p es) (finish_model_stream c (descriptor int) s).
Proof.
  intros Hc Hm Hl. unfold finish_model_stream. destruct (Events.finish s) as [r|] eqn:Ef.
  - apply silent_ret. pose proof (live_finish _ _ _ _ _ _ _ _ Hl Ef) as Ha. destruct Hl as (Hes & Hn & _). split; [| done]. by eapply stream_response_binds.
  - apply silent_acceptable, broken_silent; [done | by simpl; rewrite bool_decide_true | by vm_compute | by vm_compute].
Qed.

(** An event is either the last thing the attempt does, or the sink has it. *)
Definition accepted_as {E} (p : ModelProvider W Details) (es : list Events.ModelEvent) (e : Events.ModelEvent)
    (r : result (Stop E) (result (ModelTerminalEvidence Details) Events.ModelEventAccumulator)) (δ : list Event) : Prop :=
  match r with
  | Ok (Ok s) => δ = [EEmitted e] /\ alive (es ++ [e]) s /\ Z.of_nat (length es) < Events.MAX_EVENTS_PER_ATTEMPT
  | Ok (Err ev) => δ = [] /\ acceptable p es ev
  | Err _ => False
  end.

Lemma accept_ensures {E} p c es s e :
  mc_attempt_id c = att -> response_mode (request int) = Streaming -> alive es s -> event_wf e ->
  ensures (accept_model_stream_event (E := E) float_text parser (descriptor int) c s e) (accepted_as p es e).
Proof.
  intros Hc Hm Hl He. destruct (live_push _ _ _ _ _ _ _ _ Hl He) as [Hsafe Hok]. unfold accept_model_stream_event.
  destruct (Events.push float_text parser s e) as [s' [[]|[|err]]]; cbn [fst snd] in *; [| done |].
  - destruct (Hok eq_refl) as [Hl' Hlt]. eapply (ens_quiet (fun _ => False) (fun _ => True)); [by apply silent_ask | | done]. intros race _.
    assert (Hst : forall m : M W E (ModelTerminalEvidence Details), quiet (fun _ => False) runtime_evidence m -> ensures (ev ← m; mret (Err ev)) (accepted_as p es e)).
    { intros m Hq. eapply ens_quiet; [exact Hq | | done]. intros ev Hev. apply ens_ret. split; [done | by apply runtime_acceptable]. }
    destruct race as [| |[[]|[]]]; [by apply (Hst (stopped _ _ _)), stopped_silent | by apply (Hst (stopped _ _ _)), stopped_silent | |].
    + eapply ens_bind; [by apply (ens_tell _ (fun r δ => r = Ok tt /\ δ = [EEmitted e])) | | by intros ? ? [? _]]. intros _ δ [_ ->]. by apply ens_ret.
    + apply (Hst (broken _ _ _ _ _)), broken_silent; [done | by simpl; rewrite bool_decide_true | by vm_compute | by vm_compute].
  - eapply ens_quiet; [apply (broken_silent (fun _ => False)); [done | by simpl; rewrite bool_decide_true | by vm_compute | by vm_compute] | | done].
    intros ev Hev. apply ens_ret. split; [done | by apply runtime_acceptable].
Qed.

Lemma loop_ensures {E} p c :
  resolve_model models (descriptor int) = Ok p -> mp_descriptor p = descriptor int -> mc_attempt_id c = att -> response_mode (request int) = Streaming ->
  forall fuel es s, alive es s -> Z.of_nat (length es) <= Events.MAX_EVENTS_PER_ATTEMPT ->
    Z.of_nat (length es) + Z.of_nat fuel = Events.MAX_EVENTS_PER_ATTEMPT + 1 ->
    ensures (stream_loop (E := E) float_text parser p c (request int) fuel s) (streamed_as p es).
Proof.
  intros Hres Hp Hc Hm. induction fuel as [|fuel IH]; intros es s Hl Hlen Hf; [lia |]. cbn [stream_loop]. rewrite Hp. pose proof Hl as (_ & Hn & _).
  eapply (ens_quiet (fun _ => False) (fun race => exists w w', mp_poll p w = (race, w'))); [| | done].
  { apply silent_ask. intros w. destruct (mp_poll p w) as [race w'] eqn:Ec. by exists w, w'. }
  intros [| |[[e|err]|]] (w & w' & Hpoll); [apply streamed_end; [done | by apply silent_acceptable, stopped_silent] | apply streamed_end; [done | by apply silent_acceptable, stopped_silent] | | |].
  - eapply ens_bind; [apply (accept_ensures p c es s e Hc Hm Hl); apply (Hevents p w e Hres); by rewrite Hpoll | | done].
    intros [s'|ev] δ; [| intros [-> Hev]; apply ens_ret; exists [], ev; by rewrite !app_nil_r].
    intros (-> & Hl' & Hlt). eapply ens_weaken; [apply (IH (es ++ [e])); [done | rewrite length_app; simpl; lia | rewrite length_app; simpl; lia] |].
    intros r δ (more & ev & -> & -> & Hnum & Hacc). exists (e :: more), ev. rewrite <- app_assoc in Hnum, Hacc. simpl. rewrite fmap_app. done.
  - apply streamed_end; [done |]. destruct (validate_for err c _ _) as [[]|] eqn:Ev.
    + apply silent_ret. unfold validate_for in Ev. rewrite Hc in Ev. split; [done |]. left. right. by exists w, w'.
    + apply silent_acceptable, broken_silent; [done | by simpl; rewrite bool_decide_true | by vm_compute | by vm_compute].
  - apply streamed_end; [done |]. by apply finish_silent.
Qed.

Lemma fuel_enough : Z.of_nat STREAM_FUEL = Events.MAX_EVENTS_PER_ATTEMPT + 1.
Proof. unfold STREAM_FUEL. by rewrite Z2Nat.id. Qed.

(** What a dispatch did: whether it called the provider, and what the sink got. *)
Definition dispatched_as {E} (p : ModelProvider W Details) (r : result (Stop E) (ModelTerminalEvidence Details)) (δ : list Event) : Prop :=
  exists (called : bool) es ev, r = Ok ev /\ δ = (EEmitted <$> rev es) ++ (if called then [ECalled att] else []) /\ numbered att es /\ acceptable p es ev /\
    (called = false -> es = [] /\ runtime_evidence ev).

Lemma uncalled {E} p (m : M W E (ModelTerminalEvidence Details)) : quiet (fun _ => False) runtime_evidence m -> ensures m (dispatched_as p).
Proof.
  intros Hm. eapply ens_weaken; [exact Hm |]. intros [ev|[]] δ [-> H]; [| done ..]. exists false, [], ev. split_and!; try done. by apply runtime_acceptable.
Qed.

Lemma dispatch_ensures {E} p c :
  resolve_model models (descriptor int) = Ok p -> mp_descriptor p = descriptor int -> mc_attempt_id c = att ->
  ensures (dispatch_model (E := E) float_text parser p c (request int) (ho_stream_sink h)) (dispatched_as p).
Proof.
  intros Hres Hp Hc. unfold dispatch_model. destruct (response_mode (request int)) eqn:Hm.
  - eapply ens_weaken; [by apply complete_ensures |]. intros r δ (-> & ev & -> & Hev). by exists true, [], ev.
  - unfold dispatch_streaming_model. rewrite Hp, Hc. destruct (ho_stream_sink h); cbn [negb]; [| by apply uncalled, broken_silent; [| rewrite Hm | vm_compute | vm_compute]].
    destruct (Events.accumulator_new att (descriptor int) (request int)) as [s|] eqn:Ea; [| by apply uncalled, broken_silent; [| rewrite Hm | vm_compute | vm_compute]].
    eapply ens_bind; [by apply (ens_tell _ (fun r δ => r = Ok tt /\ δ = [ECalled att])) | | by intros ? ? [? _]]. intros _ δ [_ ->].
    eapply (ens_quiet (fun _ => False) (fun _ => True)); [by apply silent_ask | | done]. intros _ _.
    pose proof fuel_enough as Hfuel. generalize dependent STREAM_FUEL. intros fuel Hfuel.
    eapply ens_weaken; [apply (loop_ensures p c Hres Hp Hc Hm fuel [] s); [by apply live_new | done | by rewrite Hfuel] |].
    intros r δ (es & ev & -> & -> & Hn & Hacc). by exists true, es, ev.
Qed.

(** ** Commits *)

Lemma model_commit_evidence_ensures t kind operation :
  ensures (commit_model_evidence sha256 opts event_payload t kind operation)
    (fun r δ => match r with Ok _ => δ = [ERecorded] | Err (Executor.Failed _) => δ = [] | Err _ => False end).
Proof.
  unfold commit_model_evidence.
  eapply (ens_quiet (fun _ => True) (fun _ => True)); [by apply silent_lift | | done]. intros attempt _.
  eapply (ens_quiet (fun _ => True) (fun _ => True)); [by apply silent_lift | | done]. intros payload _.
  eapply (ens_quiet (fun _ => True) (fun _ => True)); [by apply silent_query | | done]. intros run _.
  eapply (ens_quiet (fun _ => True) (fun _ => True)); [by apply silent_lift | | done]. intros journal _.
  eapply (ens_quiet (fun _ => True) (fun _ => True)); [by apply silent_lift | | done]. intros append _.
  eapply (ens_quiet (fun _ => True) (fun _ => True)); [| | done].
  { eapply (silent_map_error (fun _ => True)); [| done]. apply advance_quiet; [by eapply options_bounds | done]. }
  intros outcome _. eapply ens_bind; [by apply (ens_tell _ (fun r δ => r = Ok tt /\ δ = [ERecorded])) | | by intros ? ? [? _]].
  intros _ δ [_ ->]. by apply ens_ret.
Qed.

Definition committed_as (t : ModelTerminalCommitHandoff Details) (r : result (Stop (ModelAttemptExecutionError Details)) (ModelAttemptOutcome Details))
    (δ : list Event) : Prop :=
  (exists inv, r = Ok (Dispatched (terminal_kind t) inv) /\ δ = [ERecorded]) \/
  (exists source, r = Err (Executor.Failed (MTerminal (mkTerminalError source t))) /\ δ = []).

Lemma model_commit_terminal_ensures t : ensures (map_error MTerminal (commit_model_terminal sha256 opts event_payload t)) (committed_as t).
Proof.
  eapply (ens_map_error _ _ (fun r δ => (exists inv, r = Ok (Dispatched (terminal_kind t) inv) /\ δ = [ERecorded]) \/
    (exists source, r = Err (Executor.Failed (mkTerminalError source t)) /\ δ = []))).
  - unfold commit_model_terminal. destruct (match tc_evidence t with EvResponse _ => _ | EvError _ => _ end) as [operation kind]. eapply ens_bind.
    { eapply (ens_map_error _ _ _ (fun r δ => match r with Ok _ => δ = [ERecorded] | Err (Executor.Failed e) => (exists source, e = mkTerminalError source t) /\ δ = [] | Err _ => False end));
        [apply model_commit_evidence_ensures | done | | done | done]. intros e δ ->. split; [by exists e | done]. }
    + intros outcome δ ->. apply ens_ret. left. eauto.
    + intros [e| |] δ H; [| done | done]. destruct H as [[source ->] ->]. right. eauto.
  - intros a δ [(inv & [= ->] & ->)|(? & [=] & _)]. left. eauto.
  - intros e δ [(? & [=] & _)|(source & [= ->] & ->)]. right. eauto.
  - intros δ [(? & [=] & _)|(? & [=] & _)].
  - intros δ [(? & [=] & _)|(? & [=] & _)].
Qed.

(** What the ledger makes of the evidence for an executing record: a response is
    always committed; an error is recorded, unless it claims usage for an attempt
    that was only prepared. *)
Definition records (x : ModelInvocation Details) (ev : ModelTerminalEvidence Details) : Prop :=
  forall at_, match ev with
  | EvResponse r => apply_transition x (RecordResponse r) at_ = Ok (ModelInvocations.Committed r)
  | EvError e => apply_transition x (RecordError e) at_ = Ok (ModelInvocations.Failed e) <-> (me_phase e = Preparation -> me_usage e = None)
  end.

Lemma model_acceptable_records p es ev x : intent x = int -> state x = Executing att -> acceptable p es ev -> records x ev.
Proof.
  intros Hi Hst Hacc at_. unfold apply_transition. rewrite Hst, Hi. destruct ev as [r|e]; [by destruct Hacc as [-> _] |]. destruct Hacc as [He _].
  unfold validate_error_binding. rewrite He. simpl. destruct (bool_decide_reflect (me_phase e = Preparation)), (me_usage e); simpl; naive_solver.
Qed.

(** The evidence of a started attempt: the ledger's verdict on it, the origin of a
    licence to retry and of a usage claim, and the events behind a streamed response. *)
Record accounted (x : ModelInvocation Details) (called : bool) (es : list Events.ModelEvent) (ev : ModelTerminalEvidence Details) : Prop := {
  ac_intent : intent x = int;
  ac_state : state x = Executing att;
  ac_records : records x ev;
  ac_answer : forall e, ev = EvError e -> (Tools.safe_after_delay (retry_advice (me_failure e)) <> None \/ me_usage e <> None) ->
    called = true /\ exists p, resolve_model models (descriptor int) = Ok p /\ answered p e;
  ac_sink : numbered att es;
  ac_streamed : forall r, ev = EvResponse r -> response_mode (request int) = Streaming ->
    assembled float_text parser (descriptor int) (request int) (Events.ev_kind <$> es) r;
  ac_stopped : called = false -> es = [] /\ exists e, ev = EvError e
}.

Definition executed_as (r : result (Stop (ModelAttemptExecutionError Details)) (ModelAttemptOutcome Details)) (l : list Event) : Prop :=
  (l = [] /\ ((exists inv, r = Ok (Recovered inv) /\ recovered_as inv) \/ (exists e, r = Err (Executor.Failed e) /\ before_start e))) \/
  (exists t called es, accounted (tc_invocation t) called es (tc_evidence t) /\
     exists end_, committed_as t r end_ /\ l = end_ ++ (EEmitted <$> rev es) ++ (if called : bool then [ECalled att] else []) ++ [EStarted att]).

Lemma model_dispatched_accounted p x called es ev :
  resolve_model models (descriptor int) = Ok p -> intent x = int -> state x = Executing att -> numbered att es -> acceptable p es ev ->
  (called = false -> es = [] /\ runtime_evidence ev) -> accounted x called es ev.
Proof.
  intros Hres Hi Hst Hn Hacc Hstop. constructor; [done | done | by eapply model_acceptable_records | | done | |].
  - intros e -> Hclaim. assert (Hno : runtime_evidence (EvError e) -> False) by (intros (e' & [= <-] & _ & H1 & H2); tauto).
    destruct called; [| destruct (Hstop eq_refl); tauto]. split; [done |]. exists p. split; [done |]. destruct Hacc as [_ [H|H]]; [done | tauto].
  - intros r ->. apply Hacc.
  - intros Hc. destruct (Hstop Hc) as (-> & e & -> & _). eauto.
Qed.

Lemma started_ensures p c x :
  resolve_model models (descriptor int) = Ok p -> mp_descriptor p = descriptor int -> mc_attempt_id c = att -> intent x = int -> state x = Executing att ->
  ensures (dispatch_started_model sha256 float_text parser opts event_payload h p c x)
    (fun r δ => exists t called es, accounted (tc_invocation t) called es (tc_evidence t) /\
       exists end_, committed_as t r end_ /\ δ = end_ ++ (EEmitted <$> rev es) ++ (if called : bool then [ECalled att] else [])).
Proof.
  intros Hres Hp Hc Hi Hst. unfold dispatch_started_model. eapply (ens_quiet (fun _ => False) (fun _ => True)); [by apply silent_ask | | done]. intros [cancelled now] _.
  eapply (ens_bind _ _ (dispatched_as p)).
  - rewrite Hi. destruct (stop_reason_at _ _ _); [by apply uncalled, stopped_silent | by apply dispatch_ensures].
  - intros ev δ (called & es & ev' & [= <-] & -> & Hn & Hacc & Hstop). eapply ens_weaken; [apply model_commit_terminal_ensures |]. intros r δ Hr.
    exists (mkTerminal (ho_fence h) x (terminal_event (ho_events h)) ev), called, es. split; [by eapply model_dispatched_accounted | by exists δ].
  - intros st δ (called & es & ev & [=] & _).
Qed.

Lemma model_execute_ensures : ensures (execute_model sha256 float_text parser opts event_payload models h) executed_as.
Proof.
  assert (Hbs : forall e, before_start e -> executed_as (Err (Executor.Failed e)) []) by (intros e He; left; split; [done | right; eauto]).
  unfold execute_model. eapply (ens_quiet before_start (fun _ => True)); [by apply silent_lift; [| intros e (? & _ & ->)%map_err_Err_inv] | | done]. intros _ _.
  eapply ens_quiet; [apply model_recover_quiet | | done]. intros [inv|] Hr; [apply ens_ret; left; split; [done | left; eauto] |].
  eapply (ens_quiet before_start (fun p => mp_descriptor p = descriptor int /\ resolve_model models (descriptor int) = Ok p)); [| | done].
  { apply silent_lift; [| by intros e (? & _ & ->)%map_err_Err_inv]. intros p Hp%map_err_Ok. split; [by eapply model_resolve_descriptor | done]. }
  intros provider [Hprov Hres]. eapply ens_quiet; [by apply model_prepare_quiet | | done]. intros [c cb] Hc. simpl in Hc.
  eapply (ens_quiet before_start (fun _ => True)); [| | done].
  { apply silent_lift; [done |]. intros e He. destruct (event_payload _ _ _ _ _ _); [done |]. by injection He as <-. }
  intros payload _. eapply (ens_quiet before_start (fun _ => True)); [| | done].
  { apply silent_lift; [done |]. intros e He. destruct (worker_append _ _ _ _ _); [done |]. by injection He as <-. }
  intros append _. eapply (ens_quiet before_start (fun o => forall event x, o = Executor.Committed event x -> intent x = int /\ state x = Executing att)); [| | done].
  { eapply (silent_map_error (fun _ => True)); [| done]. apply advance_quiet; [by eapply options_bounds |]. intros w o Ho event x ->. apply model_committed_executes. by eapply Hstore. }
  intros [event x|event x] Hx.
  - destruct (Hx event x eq_refl) as [Hi Hst]. eapply ens_bind; [by apply (ens_tell _ (fun r δ => r = Ok tt /\ δ = [EStarted att])) | | by intros ? ? [? _]].
    intros _ δ [_ ->]. eapply ens_weaken; [by apply started_ensures |]. intros r δ (t & called & es & Ha & end_ & He & ->). right.
    exists t, called, es. split; [done |]. exists end_. by rewrite <- !app_assoc.
  - eapply (ens_quiet before_start (fun _ => True)); [by apply silent_query | | done]. intros current _. case_bool_decide as Hci; simpl; [| by apply ens_stop, Hbs].
    eapply (ens_quiet before_start recovered_as); [by apply model_check_recovered_quiet | | done]. intros inv Hinv. apply ens_ret. left. split; [done | left; eauto].
Qed.

End Laws.

(** ** A streamed answer *)

Module Demo.
Import StreamLaws.Demo ModelInvocationLaws.ModelCalls.Demo.
#[local] Existing Instance encode_any.

Definition fence : RunFence := RunLease.mkFence tenant 7 9 1.
Definition audit : Journal.JournalPayload SchemaReference :=
  Journal.mkPayload RequestLaws.Demo.schema (bytes_of "model-call") (mkBoundedJson Null (mkJsonStats 4 0 1)) [7].
Definition event : JournalEvent SchemaReference := Journal.mkEvent tenant 7 3 103 3000000 Journal.ControlPlane audit [7] [] None [].
Definition the_budget : BudgetRemaining.t := BudgetRemaining.mk 10000000 1 1 1 1 1000 0 0 1000 0 0 0 0 1 1 4096 4096 0 0 0 [].
Definition started : ModelInvocation unit := Eval vm_compute in unwrap (advance hash r0 (StartAttempt 7) (journal 3)).

(** The store commits what the ledger allows; the world counts the polls. *)
#[local] Instance demo_env : Env nat unit unit unit unit (ModelInvocation unit) ModelInvocationHead (ModelInvocationTransition unit) Events.ModelEvent := {|
  Executor.generate w := (5, w);
  look w := ((false, 0), w);
  observe w := (Ok (mkObservation 9800000 1000), w);
  budget_remaining _ w := (Ok the_budget, w);
  load_run _ _ w := (Ok (mkRunView (mkProvenance tenant 7 9 11 (model_identity descriptor2)) (Some (journal 4))), w);
  load_child_budget_account _ _ w := (Ok None, w);
  load_admission_deadline _ _ w := (Err AgentAdmissionNotFound, w);
  load_tool_invocation _ _ _ w := (Err (OtherStoreError 0), w);
  advance_tool _ _ _ _ w := (Err (OtherStoreError 0), w);
  load_model_invocation _ _ _ w := (Ok r0, w);
  advance_model _ _ step _ w :=
    match (match step with StartAttempt _ => advance hash r0 step (journal 3) | _ => advance hash started step (journal 4) end) with
    | Ok x => (Ok (Executor.Committed event x), w)
    | Err _ => (Err (OtherStoreError 0), w)
    end;
  emit _ w := (RaceDone (Ok tt), w)
|}.

Definition handoff : ModelAttemptHandoff unit := mkHandoff fence r0 7 (mkEventIds 201 202) true.
Definition provider : ModelProvider nat unit :=
  mkModelProvider descriptor2 (fun _ _ w => (RaceDeadline, w)) (fun _ _ _ => (tt, 0%nat))
    (fun w => match stream !! w with Some e => (RaceDone (Some (Ok e)), S w) | None => (RaceDone None, w) end).
Definition registry : Registry ModelDescriptor (ModelProvider nat unit) := [(model_identity descriptor2, mkBinding descriptor2 provider)].
Definition the_execution := run (execute_model hash nothing refuse (mkOptions 3 1000) (fun _ _ _ _ _ _ => Some audit) registry handoff) (mkSt 0%nat []).

End Demo.
End ModelExecutions.
