(* ===== verification/Driver.v ===== *)
(** The durable graph driver (crates/stateknot-runtime/src/driver.rs): its
    options and work report, the lease refreshes, the recovery of a plan, the
    barrier commit, the choice of a batch of nodes, the durable start of each
    attempt before anything is launched, the collection of concurrent results,
    their commits in start order, and the bounded retry around every mutation.

    The database, the node tasks, the clocks and the identifier generator are the
    class [Env]: each operation may answer anything and move the world anywhere.
    The driver is a computation on the world, the report and a log of what it did;
    [Stop] ends it with an error, or because a loop used up its fuel.  A batch runs
    concurrently with its lease renewals and with the polling of the run: the
    world says in which order their wake-ups arrive ([Signal]).

    Payloads of audit events need the schema registry of the deployment: building
    one is the parameter [event_payload].  [ExecutableGraph] bundles what the
    registry resolves; its [exec_plan_barrier] is [GraphPlan.plan_barrier] at the
    graph's callbacks.  A [Duration] is its number of nanoseconds, an [Instant] an
    integer of nanoseconds. *)

From Stdlib Require Import ZArith Lia List.
From stdpp Require Import prelude.
From S2P Require Import Prelude Ordered Json Time Run Lease Checkpoint Barrier NodeAttempt Graph GraphPlan Journal Recovery StoreErrors Failures Scheduler.

Open Scope Z_scope.
Import Timestamp(Timestamp).
Import RunLease(RunFence, RunLease).
Import Superstep(Superstep).

Module Drivers.
Import NodeAttempt(NodeAttemptStartHead, sh_activation, sh_attempt_id, NodeAttempt, NodeAttemptStart, start, start_head).
Import Journal(JournalAppend, JournalPayload, JournalEvent, worker, append_new, ExpectExact, IntentDigestWire).

(** * Options *)

Definition MAX_NODE_TIMEOUT : Z := 7 * 24 * 60 * 60 * NANOS_PER_SEC.
Definition MAX_MUTATION_RETRY_DELAY : Z := NANOS_PER_SEC.
Definition HARD_MAXIMUM_DURABLE_EVENTS : Z := 65536.
Definition HARD_MAXIMUM_MUTATION_ATTEMPTS : Z := 10.
Definition HARD_MINIMUM_CANCELLATION_POLL_INTERVAL : Z := 10 * 1000000.
Definition HARD_MAXIMUM_CANCELLATION_POLL_INTERVAL : Z := 60 * NANOS_PER_SEC.
Definition HARD_MAXIMUM_CANCELLATION_GRACE_PERIOD : Z := 5 * 60 * NANOS_PER_SEC.
Definition HARD_MAXIMUM_PARALLEL_NODES : Z := 64.

Record DurableGraphDriverOptions := mkOptions {
  maximum_barrier_result_bytes : Z;
  maximum_durable_events : Z;
  lease_renewal_interval : Z;
  node_execution_timeout : Z;
  cancellation_poll_interval : Z;
  cancellation_grace_period : Z;
  maximum_parallel_nodes : Z;
  maximum_mutation_attempts : Z;
  mutation_retry_initial_delay : Z
}.

Inductive DurableGraphDriverOptionsError :=
| InvalidWorkQuantum | InvalidLeaseRenewalInterval | InvalidNodeExecutionTimeout | InvalidCancellationPollInterval
| InvalidCancellationGracePeriod | InvalidParallelNodeLimit | InvalidMutationAttempts | InvalidMutationRetryDelay.

(** [subsec_nanos() % 1_000] and [as_micros()]. *)
Definition unaligned (d : Z) : bool := negb (d mod 1000 =? 0).
Definition as_micros (d : Z) : Z := d / 1000.

Definition options_new (replay_bytes events renewal timeout attempts delay : Z) : result DurableGraphDriverOptionsError DurableGraphDriverOptions :=
  if negb (between 2 HARD_MAXIMUM_DURABLE_EVENTS events) then Err InvalidWorkQuantum else
  if (renewal =? 0) || unaligned renewal || (i64_max <? as_micros renewal) then Err InvalidLeaseRenewalInterval else
  if (timeout =? 0) || (MAX_NODE_TIMEOUT <? timeout) then Err InvalidNodeExecutionTimeout else
  if negb (between 1 HARD_MAXIMUM_MUTATION_ATTEMPTS attempts) then Err InvalidMutationAttempts else
  if (delay =? 0) || (MAX_MUTATION_RETRY_DELAY <? delay) then Err InvalidMutationRetryDelay else
  Ok (mkOptions replay_bytes events renewal timeout (250 * 1000000) (5 * NANOS_PER_SEC) 1 attempts delay).

Definition with_cancellation_timing (self : DurableGraphDriverOptions) (poll grace : Z) : result DurableGraphDriverOptionsError DurableGraphDriverOptions :=
  if (poll <? HARD_MINIMUM_CANCELLATION_POLL_INTERVAL) || unaligned poll || (HARD_MAXIMUM_CANCELLATION_POLL_INTERVAL <? poll)
  then Err InvalidCancellationPollInterval else
  if (grace =? 0) || unaligned grace || (HARD_MAXIMUM_CANCELLATION_GRACE_PERIOD <? grace) then Err InvalidCancellationGracePeriod else
  Ok (mkOptions (maximum_barrier_result_bytes self) (maximum_durable_events self) (lease_renewal_interval self) (node_execution_timeout self)
        poll grace (maximum_parallel_nodes self) (maximum_mutation_attempts self) (mutation_retry_initial_delay self)).

Definition with_parallel_node_limit (self : DurableGraphDriverOptions) (limit : Z) : result DurableGraphDriverOptionsError DurableGraphDriverOptions :=
  if (limit =? 0) || (HARD_MAXIMUM_PARALLEL_NODES <? limit) then Err InvalidParallelNodeLimit else
  Ok (mkOptions (maximum_barrier_result_bytes self) (maximum_durable_events self) (lease_renewal_interval self) (node_execution_timeout self)
        (cancellation_poll_interval self) (cancellation_grace_period self) limit (maximum_mutation_attempts self) (mutation_retry_initial_delay self)).

(** The cadence check of [DurableGraphDriver::new]. *)
Definition cadence_safe (opts : DurableGraphDriverOptions) (lease_duration maximum_lease_horizon : Z) : bool :=
  match duration_checked_mul (lease_renewal_interval opts) 3 with
  | None => false
  | Some budget => negb ((lease_duration <? budget) || (maximum_lease_horizon <? lease_renewal_interval opts))
  end.

(** * Errors and reports *)

Inductive GraphNodeContextError := ContextTenantMismatch | ContextRunMismatch | ContextCheckpointMismatch.

Inductive GraphDriverError :=
| ChildJoinPreparationIncomplete
| Store (source : StoreError)
| MissingJournalHead
| ExecutableGraphUnavailable
| ExecutableNodeUnavailable (node : NodeId)
| NodeContext (source : GraphNodeContextError)
| InvalidNodeResult
| GraphPlanning (source : GraphBarrierPlanError)
| BarrierResultEncoding
| BarrierResultResourceLimit
| StaleBarrierSnapshot
| EventPayloadInvalid
| JournalAppendInvalid
| LeaseTimestampOverflow
| RuntimeFailureInvalid
| RuntimeInvariant (operation : bytes).

Record GraphDriveReport := mkReport {
  durable_events : Z;
  node_attempts_started : Z;
  node_attempts_completed : Z;
  node_batches_started : Z;
  maximum_nodes_in_batch : Z;
  barriers_committed : Z;
  lease_renewals : Z;
  mutation_retries : Z
}.
Definition report_new : GraphDriveReport := mkReport 0 0 0 0 0 0 0 0.

Definition inc (v : Z) : Z := saturating_add u32_max v 1.
Definition add_events (n : Z) (r : GraphDriveReport) : GraphDriveReport :=
  mkReport (saturating_add u32_max (durable_events r) n) (node_attempts_started r) (node_attempts_completed r) (node_batches_started r)
    (maximum_nodes_in_batch r) (barriers_committed r) (lease_renewals r) (mutation_retries r).
Definition add_started (r : GraphDriveReport) : GraphDriveReport :=
  mkReport (durable_events r) (inc (node_attempts_started r)) (node_attempts_completed r) (node_batches_started r) (maximum_nodes_in_batch r)
    (barriers_committed r) (lease_renewals r) (mutation_retries r).
Definition add_completed (r : GraphDriveReport) : GraphDriveReport :=
  mkReport (durable_events r) (node_attempts_started r) (inc (node_attempts_completed r)) (node_batches_started r) (maximum_nodes_in_batch r)
    (barriers_committed r) (lease_renewals r) (mutation_retries r).
Definition add_batch (size : nat) (r : GraphDriveReport) : GraphDriveReport :=
  mkReport (durable_events r) (node_attempts_started r) (node_attempts_completed r) (inc (node_batches_started r))
    (Z.max (maximum_nodes_in_batch r) (Z.min u16_max (Z.of_nat size))) (barriers_committed r) (lease_renewals r) (mutation_retries r).
Definition add_barrier (r : GraphDriveReport) : GraphDriveReport :=
  mkReport (durable_events r) (node_attempts_started r) (node_attempts_completed r) (node_batches_started r) (maximum_nodes_in_batch r)
    (inc (barriers_committed r)) (lease_renewals r) (mutation_retries r).
Definition add_renewal (r : GraphDriveReport) : GraphDriveReport :=
  mkReport (durable_events r) (node_attempts_started r) (node_attempts_completed r) (node_batches_started r) (maximum_nodes_in_batch r)
    (barriers_committed r) (inc (lease_renewals r)) (mutation_retries r).
Definition add_retry (r : GraphDriveReport) : GraphDriveReport :=
  mkReport (durable_events r) (node_attempts_started r) (node_attempts_completed r) (node_batches_started r) (maximum_nodes_in_batch r)
    (barriers_committed r) (lease_renewals r) (inc (mutation_retries r)).

(** * Computations *)

Inductive Loop := DriveLoop | PageLoop | BatchLoop | RetryLoop.
Inductive Stop := Failed (error : GraphDriverError) | OutOfFuel (loop : Loop).

(** What a drive did, latest first. *)
Inductive Event :=
| EStart (attempt : Z) (committed : bool)
| ELaunch (attempt : Z)
| ECommit (attempt : Z)
| EJoin (attempt : Z)
| EBarrier
| EDue
| ERelease
| ESleep (delay : Z).

Record St (W : Type) := mkSt { world : W; report : GraphDriveReport; log : list Event }.
Arguments mkSt {W} world report log.
Arguments world {W} s.
Arguments report {W} s.
Arguments log {W} s.

Record M (W A : Type) := mkM { run : St W -> result Stop A * St W }.
Arguments mkM {W A} run.
Arguments run {W A} m s.

#[global] Instance M_ret {W} : MRet (M W) := fun _ a => mkM (fun s => (Ok a, s)).
#[global] Instance M_bind {W} : MBind (M W) :=
  fun _ _ f m => mkM (fun s => match run m s with (Ok a, s') => run (f a) s' | (Err e, s') => (Err e, s') end).

Section Computations.
Context {W : Type}.
Definition stop {A} (e : Stop) : M W A := mkM (fun s => (Err e, s)).
Definition fail {A} (e : GraphDriverError) : M W A := stop (Failed e).
Definition lift {A} (r : result GraphDriverError A) : M W A := match r with Ok a => mret a | Err e => fail e end.
Definition ask {A} (op : W -> A * W) : M W A := mkM (fun s => let '(a, w) := op (world s) in (Ok a, mkSt w (report s) (log s))).
Definition ask_store {A} (op : W -> result StoreError A * W) : M W A := r ← ask op; lift (map_err Store r).
Definition tell (e : Event) : M W unit := mkM (fun s => (Ok tt, mkSt (world s) (report s) (e :: log s))).
Definition update (f : GraphDriveReport -> GraphDriveReport) : M W unit := mkM (fun s => (Ok tt, mkSt (world s) (f (report s)) (log s))).
Definition get_report : M W GraphDriveReport := mkM (fun s => (Ok (report s), s)).
Definition invariant {A} (operation : bytes) : M W A := fail (RuntimeInvariant operation).
End Computations.
(** * The world *)

Record StoredRun := mkStoredRun {
  is_quarantined : bool;
  stored_lease : option RunLease;
  stored_journal_head : option JournalHead;
  status : RunStatus;
  revision : Z;
  cancellation_failure_id : option Z;
  stored_checkpoint : option (CheckpointId * Superstep * Digest)
}.

Inductive LeaseRenewalOutcome := Renewed (lease : RunLease) | RenewalIdempotent (lease : RunLease).
Inductive LeaseReleaseOutcome := Released | ReleaseIdempotent.
Inductive DelayedRetryScheduleOutcome := Scheduled (not_before : Timestamp) | ScheduleIdempotent (not_before : Timestamp) | Due (not_before : Timestamp).
Inductive GraphNodeScheduling := Exclusive | JournalIsolated.
#[global] Instance GraphNodeScheduling_eq_dec : EqDecision GraphNodeScheduling.
Proof. solve_decision. Defined.

Record GraphNodeExecutor := mkExecutor { scheduling : GraphNodeScheduling; supports_child_join : bool }.

Section Types.
Context (Capability Schema InterruptRequest Bindings Join Details JoinRequest Usage Cursor : Type).

Inductive GraphNodeExecution :=
| Completed (state_change : NodeStateChange Schema) (control : NodeControl Schema InterruptRequest) (bindings : Bindings) (usage : Usage)
| ChildJoin (request : JoinRequest).

Record GraphNodeExecutionError := mkExecutionError { failure : Failure Details; failure_usage : Usage }.

Record FinishedNodeExecution := mkFinished { node_outcome : result GraphNodeExecutionError GraphNodeExecution; child_join_head : option Join }.

(** [event.head()] and [attempt.start().head()] of a committed start. *)
Inductive NodeAttemptCommitOutcome :=
| Committed (event : JournalHead) (attempt : NodeAttemptStartHead Capability Schema)
| Idempotent.

Record ExecutableGraph := mkExecutable {
  exec_reference : GraphReference Capability Schema;
  exec_limits : GraphExecutionLimits;
  exec_executor : NodeId -> option GraphNodeExecutor;
  exec_plan_barrier : Checkpoint Capability Schema -> list (PendingNodeResult Capability Schema InterruptRequest Bindings Join) -> CheckpointId ->
                      result GraphBarrierPlanError (GraphBarrierPlan Capability Schema InterruptRequest)
}.

Record ResultPage := mkResultPage {
  snapshot_journal_head : JournalHead;
  page_records : list (PendingNodeResult Capability Schema InterruptRequest Bindings Join);
  page_has_more : bool;
  page_next_cursor : option Cursor
}.

(** How the task of a node ended; [executing] says whether node code had begun. *)
Inductive TaskEnd :=
| Returned (r : result GraphDriverError FinishedNodeExecution)
| Panicked (executing : bool) (failure_id : Z)
| TimedOut (executing : bool) (failure_id : Z).

(** The wake-ups of a running batch.  [Joined None] is a task set without tasks,
    [JoinFailed] a cancelled task. *)
Inductive Signal :=
| Joined (task : option (nat * TaskEnd))
| JoinFailed
| RenewalDue
| LeaseDeadline
| Shutdown
| PollDue.

(** The audit events of the driver. *)
Inductive AuditEvent :=
| AttemptStarted (graph : GraphReference Capability Schema) (checkpoint : Checkpoint Capability Schema) (node : NodeId) (attempt : Z)
| AttemptSucceeded (graph : GraphReference Capability Schema) (start : NodeAttemptStartHead Capability Schema) (result_digest : Digest)
| AttemptFailed (graph : GraphReference Capability Schema) (start : NodeAttemptStartHead Capability Schema) (failure_id : Z)
| BarrierContinued (graph : GraphReference Capability Schema) (checkpoint : Checkpoint Capability Schema) (successor : CheckpointId) (superstep : Superstep)
| JoinRegistered (request : JoinRequest).
End Types.

Arguments Completed {_ _ _ _ _} state_change control bindings usage.
Arguments ChildJoin {_ _ _ _ _} request.
Arguments mkExecutionError {_ _} failure failure_usage.
Arguments failure {_ _} g.
Arguments failure_usage {_ _} g.
Arguments mkFinished {_ _ _ _ _ _ _} node_outcome child_join_head.
Arguments node_outcome {_ _ _ _ _ _ _} f.
Arguments child_join_head {_ _ _ _ _ _ _} f.
Arguments Committed {_ _} event attempt.
Arguments Idempotent {_ _}.
Arguments exec_reference {_ _ _ _ _} e.
Arguments exec_limits {_ _ _ _ _} e.
Arguments exec_executor {_ _ _ _ _} e.
Arguments exec_plan_barrier {_ _ _ _ _} e.
Arguments mkExecutable {_ _ _ _ _} exec_reference exec_limits exec_executor exec_plan_barrier.
Arguments mkResultPage {_ _ _ _ _ _} snapshot_journal_head page_records page_has_more page_next_cursor.
Arguments snapshot_journal_head {_ _ _ _ _ _} r.
Arguments page_records {_ _ _ _ _ _} r.
Arguments page_has_more {_ _ _ _ _ _} r.
Arguments page_next_cursor {_ _ _ _ _ _} r.
Arguments Returned {_ _ _ _ _ _ _} r.
Arguments Panicked {_ _ _ _ _ _ _} executing failure_id.
Arguments TimedOut {_ _ _ _ _ _ _} executing failure_id.
Arguments Joined {_ _ _ _ _ _ _} task.
Arguments JoinFailed {_ _ _ _ _ _ _}.
Arguments RenewalDue {_ _ _ _ _ _ _}.
Arguments LeaseDeadline {_ _ _ _ _ _ _}.
Arguments Shutdown {_ _ _ _ _ _ _}.
Arguments PollDue {_ _ _ _ _ _ _}.
Arguments AttemptStarted {_ _ _} graph checkpoint node attempt.
Arguments AttemptSucceeded {_ _ _} graph start result_digest.
Arguments AttemptFailed {_ _ _} graph start failure_id.
Arguments BarrierContinued {_ _ _} graph checkpoint successor superstep.
Arguments JoinRegistered {_ _ _} request.

Class Env (W Capability Schema InterruptRequest Bindings Join Details JoinRequest Usage Cursor : Type) := {
  is_cancelled : W -> bool * W;
  generate : W -> Z * W;
  instant_now : W -> Z * W;
  lease_duration : Z;
  zero_usage : Usage;
  observe_live_lease : RunFence -> W -> result StoreError (RunLease * Timestamp) * W;
  renew_lease : RunFence -> Timestamp -> W -> result StoreError LeaseRenewalOutcome * W;
  release_lease : RunFence -> W -> result StoreError LeaseReleaseOutcome * W;
  load_run : RunFence -> W -> result StoreError StoredRun * W;
  begin_claimed_run_recovery : RunFence -> Z -> JournalHead -> Digest -> W -> result StoreError (StoredRun * Timestamp) * W;
  load_pinned_graph : W -> result StoreError (GraphReference Capability Schema) * W;
  validate_noninitial_replay : W -> result StoreError unit * W;
  plan_ready_nodes : W -> result StoreError (Recovery.ReadyNodeRecoveryPlan Capability Schema Details) * W;
  revalidate : W -> result StoreError StoredRun * W;
  load_result_page : CheckpointHead Capability Schema -> option Cursor -> W ->
    result StoreError (ResultPage Capability Schema InterruptRequest Bindings Join Cursor) * W;
  append_worker_barrier : JournalAppend Schema -> CheckpointBarrier Capability Schema -> W -> result StoreError unit * W;
  start_recovered_node_attempt : JournalAppend Schema -> Recovery.ReadyNodeRecoveryPlan Capability Schema Details -> NodeId -> Z -> W ->
    result StoreError (NodeAttemptCommitOutcome Capability Schema) * W;
  succeed_node_attempt : JournalAppend Schema -> NodeAttemptStartHead Capability Schema ->
    PendingNodeResultIntent Capability Schema InterruptRequest Bindings Join -> Usage -> W -> result StoreError unit * W;
  fail_node_attempt : JournalAppend Schema -> NodeAttemptStartHead Capability Schema -> Failure Details -> Usage -> W -> result StoreError unit * W;
  register_child_join : JoinRequest -> NodeAttemptStartHead Capability Schema -> JournalAppend Schema -> W -> result StoreError unit * W;
  schedule_delayed_retry_wakeup : Recovery.ReadyNodeRecoveryPlan Capability Schema Details -> W -> result StoreError DelayedRetryScheduleOutcome * W;
  next_signal : W -> Signal Schema InterruptRequest Bindings Join Details JoinRequest Usage * W
}.
Section Drive.
Context {W Capability Schema InterruptRequest Bindings Join Details JoinRequest Usage Cursor : Type}.
Context `{E : !Env W Capability Schema InterruptRequest Bindings Join Details JoinRequest Usage Cursor}.
Context `{!EqDecision Capability, !EqDecision Schema, !EqDecision (NodeActivation Capability Schema), !EqDecision (CheckpointHead Capability Schema)}.
Context `{!Canonical IntentDigestWire}.
Variable sha256 : bytes -> bytes.
Variable opts : DurableGraphDriverOptions.
Variable event_payload : AuditEvent Capability Schema JoinRequest -> result GraphDriverError (JournalPayload Schema).
Variable resolve : GraphReference Capability Schema -> option (ExecutableGraph Capability Schema InterruptRequest Bindings Join).
(** The length of the compact JSON of a result. *)
Variable compact_length : PendingNodeResult Capability Schema InterruptRequest Bindings Join -> option Z.
(** [PendingNodeResultIntent::new] and [with_child_join] ([NodeResult.v]), and the activation a join request names. *)
Variable result_intent : NodeActivation Capability Schema -> NodeStateChange Schema -> NodeControl Schema InterruptRequest -> Bindings ->
  option (PendingNodeResultIntent Capability Schema InterruptRequest Bindings Join).
Variable with_child_join : PendingNodeResultIntent Capability Schema InterruptRequest Bindings Join -> Join ->
  option (PendingNodeResultIntent Capability Schema InterruptRequest Bindings Join).
Variable request_activation : JoinRequest -> NodeActivation Capability Schema.
Variable fence : RunFence.

Abbreviation D := (M W).
Abbreviation PlanT := (Recovery.ReadyNodeRecoveryPlan Capability Schema Details).
Abbreviation StartT := (NodeAttemptStartHead Capability Schema).
Abbreviation GraphT := (ExecutableGraph Capability Schema InterruptRequest Bindings Join).
Abbreviation ResultT := (PendingNodeResult Capability Schema InterruptRequest Bindings Join).
Abbreviation FinishedT := (FinishedNodeExecution Schema InterruptRequest Bindings Join Details JoinRequest Usage).
Abbreviation BarrierPlanT := (GraphBarrierPlan Capability Schema InterruptRequest).

(** ** Retries *)

Definition can_retry_mutation (error : StoreError) (attempt : Z) : bool := (attempt <? maximum_mutation_attempts opts) && is_retryable error.

Definition mutation_delay (attempt : Z) : Z :=
  Z.min (default MAX_MUTATION_RETRY_DELAY (duration_checked_mul (mutation_retry_initial_delay opts) (shl_or_max (saturating_sub attempt 1))))
        MAX_MUTATION_RETRY_DELAY.

(** The loop around one mutation: the same call, again after a delay while
    [retryable] allows it. *)
Fixpoint retry_loop {A} (retryable : StoreError -> Z -> bool) (call : D (result GraphDriverError A)) (fuel : nat) (attempt : Z) : D A :=
  match fuel with
  | O => stop (OutOfFuel RetryLoop)
  | S fuel =>
      r ← call;
      match r with
      | Ok a => mret a
      | Err (Store e) =>
          if retryable e attempt then
            _ ← update add_retry;
            _ ← tell (ESleep (mutation_delay attempt));
            retry_loop retryable call fuel (saturating_add u8_max attempt 1)
          else fail (Store e)
      | Err e => fail e
      end
  end.

Definition retried {A} (retryable : StoreError -> Z -> bool) (call : D (result GraphDriverError A)) : D A :=
  retry_loop retryable call (Z.to_nat (maximum_mutation_attempts opts)) 1.
Definition mutation {A} (op : W -> result StoreError A * W) : D A :=
  retried can_retry_mutation (r ← ask op; mret (map_err Store r)).

Definition release_with_retry : D LeaseReleaseOutcome := r ← mutation (release_lease fence); _ ← tell ERelease; mret r.
Definition schedule_deferred_with_retry (plan : PlanT) : D DelayedRetryScheduleOutcome := mutation (schedule_delayed_retry_wakeup plan).

(** ** Leases *)

Definition exact_live_lease (run : StoredRun) : result GraphDriverError RunLease :=
  if is_quarantined run then Err (Store RunQuarantined) else
  lease ← ok_or (stored_lease run) (Store NoActiveLease);
  if negb (bool_decide (RunLease.fence lease = fence)) then Err (Store StaleFence) else Ok lease.

(** Eight and sixteen byte big-endian integers. *)
Definition be_bytes (n : nat) (v : Z) : bytes := (fun k => Z.land (Z.shiftr v (8 * Z.of_nat k)) 255) <$> rev (seq 0 n).
Definition RECOVERY_EVIDENCE_DOMAIN : bytes := bytes_of "stateknot/runtime/graph-driver/recovery/v1" ++ [0].

Definition recovery_evidence_digest (run : StoredRun) : result GraphDriverError Digest :=
  head ← ok_or (stored_journal_head run) MissingJournalHead;
  checkpoint ← ok_or (stored_checkpoint run) (Store ReadyNodeRecoveryCheckpointMissing);
  Ok (sha256 (RECOVERY_EVIDENCE_DOMAIN ++ jh_digest head ++ checkpoint.2 ++ be_bytes 16 (RunLease.attempt_id fence) ++ be_bytes 8 (RunLease.epoch fence))).

Definition begin_recovery : D (StoredRun * Timestamp) :=
  run ← ask_store (load_run fence);
  _ ← lift (exact_live_lease run);
  head ← lift (ok_or (stored_journal_head run) MissingJournalHead);
  evidence_digest ← lift (recovery_evidence_digest run);
  quarantine_id ← ask generate;
  ask_store (begin_claimed_run_recovery fence quarantine_id head evidence_digest).

Definition extend_timestamp (t : Timestamp) (duration : Z) : result GraphDriverError Timestamp :=
  if i64_max <? as_micros duration then Err LeaseTimestampOverflow else
  let value := t + as_micros duration in
  if (value <? i64_min) || (i64_max <? value) then Err LeaseTimestampOverflow else
  map_err (fun _ => LeaseTimestampOverflow) (Timestamp.from_unix_micros value).

Definition refresh_near_expiry_lease : D unit :=
  '(lease, observed) ← ask_store (observe_live_lease fence);
  let remaining_micros := RunLease.expires_at lease - observed in
  if (remaining_micros <? 0) then fail (Store LeaseExpired) else
  if lease_duration / 2 <? remaining_micros * 1000 then mret tt else
  desired ← lift (extend_timestamp observed lease_duration);
  _ ← mutation (renew_lease fence desired);
  update add_renewal.

Record GuardedRunLease := mkGuarded { guarded_lease : RunLease; deadline : Z }.

Definition guarded_run_lease (lease : RunLease) (observed : Timestamp) (observation_started : Z) : D GuardedRunLease :=
  let remaining_micros := RunLease.expires_at lease - observed in
  if remaining_micros <=? 0 then fail (Store LeaseExpired) else
  let dl := observation_started + remaining_micros * 1000 in
  now ← ask instant_now;
  if dl <=? now then fail (Store LeaseExpired) else mret (mkGuarded lease dl).

Definition renew_with_retry (desired : Timestamp) : D GuardedRunLease :=
  renewal_started ← ask instant_now;
  outcome ← mutation (renew_lease fence desired);
  match outcome with
  | Renewed lease => guarded_run_lease lease (RunLease.renewed_at lease) renewal_started
  | RenewalIdempotent _ =>
      observation_started ← ask instant_now;
      '(lease, observed) ← ask_store (observe_live_lease fence);
      guarded_run_lease lease observed observation_started
  end.

Definition prepare_execution_lease : D GuardedRunLease :=
  observation_started ← ask instant_now;
  '(run, observed) ← begin_recovery;
  lease ← lift (exact_live_lease run);
  desired ← lift (extend_timestamp observed lease_duration);
  if desired <=? RunLease.expires_at lease then guarded_run_lease lease observed observation_started else
  renewed ← renew_with_retry desired;
  _ ← update add_renewal;
  mret renewed.

(** ** Events and contexts *)

Definition worker_append (head : JournalHead) (event : Z) (payload : JournalPayload Schema) : result GraphDriverError (JournalAppend Schema) :=
  intent ← map_err (fun _ => JournalAppendInvalid) (worker sha256 (RunLease.tenant_id fence) (RunLease.run_id fence) event fence payload);
  map_err (fun _ => JournalAppendInvalid) (append_new (ExpectExact head) intent).

Definition node_context (start : StartT) (c : Checkpoint Capability Schema) : result GraphDriverError unit :=
  let base := base_checkpoint (sh_activation start) in
  if negb (bool_decide (head_tenant_id base = Checkpoint.tenant_id c)) then Err (NodeContext ContextTenantMismatch) else
  if negb (bool_decide (head_run_id base = Checkpoint.run_id c)) then Err (NodeContext ContextRunMismatch) else
  if negb (bool_decide (base = head c)) then Err (NodeContext ContextCheckpointMismatch) else Ok tt.
(** ** Barriers *)

(** The bytes of the results of one page added to those before. *)
Fixpoint measure (total : Z) (rs : list ResultT) : result GraphDriverError Z :=
  match rs with
  | [] => Ok total
  | r :: rs =>
      n ← ok_or (compact_length r) BarrierResultEncoding;
      total ← ok_or (checked_add u64_max total n) BarrierResultResourceLimit;
      if maximum_barrier_result_bytes opts <? total then Err BarrierResultResourceLimit else measure total rs
  end.

Fixpoint load_pages (fuel : nat) (plan : PlanT) (cursor : option Cursor) (results : list ResultT) (total : Z) : D (list ResultT) :=
  match fuel with
  | O => stop (OutOfFuel PageLoop)
  | S fuel =>
      page ← ask_store (load_result_page (head (Recovery.plan_checkpoint plan)) cursor);
      if negb (bool_decide (snapshot_journal_head page = Recovery.plan_journal_head plan)) then fail StaleBarrierSnapshot else
      next ← (if page_has_more page then
                match page_next_cursor page with
                | Some c => mret (Some c)
                | None => invariant (bytes_of "advance graph barrier result cursor")
                end
              else mret None);
      total ← lift (measure total (page_records page));
      let results := results ++ page_records page in
      match next with None => mret results | Some c => load_pages fuel plan (Some c) results total end
  end.

Definition load_barrier_results (fuel : nat) (plan : PlanT) : D (list ResultT) :=
  results ← load_pages fuel plan None [] 0;
  if negb (length results =? length (Recovery.nodes plan))%nat then invariant (bytes_of "materialize complete graph barrier result set") else
  mret results.

Definition commit_continue_barrier (plan : PlanT) (b : BarrierPlanT) : D unit :=
  match disposition b with
  | DContinue =>
      payload ← lift (event_payload (BarrierContinued (graph (Recovery.plan_checkpoint plan)) (Recovery.plan_checkpoint plan)
                                       (write_checkpoint_id (successor (barrier b))) (write_superstep (successor (barrier b)))));
      event ← ask generate;
      append ← lift (worker_append (Recovery.plan_journal_head plan) event payload);
      _ ← mutation (append_worker_barrier append (barrier b));
      _ ← update (add_events 1);
      _ ← update add_barrier;
      _ ← tell EBarrier;
      mret tt
  | _ => invariant (bytes_of "commit non-continue graph barrier")
  end.

(** ** A batch *)

Definition resolve_node_executor (g : GraphT) (node : NodeId) : result GraphDriverError GraphNodeExecutor :=
  ok_or (exec_executor g node) (ExecutableNodeUnavailable node).

Definition dispatchable (plan : PlanT) : list NodeId :=
  omap (fun node => if bool_decide (Recovery.kind node = Recovery.KDispatchable) then Some (act_node_id (Recovery.node_activation node)) else None)
       (Recovery.nodes plan).

(** The loop that extends a batch until an executor is not journal-isolated. *)
Fixpoint extend_batch (g : GraphT) (candidates : list NodeId) : result GraphDriverError (list (NodeId * GraphNodeExecutor)) :=
  match candidates with
  | [] => Ok []
  | node :: rest =>
      executor ← resolve_node_executor g node;
      if negb (bool_decide (scheduling executor = JournalIsolated)) then Ok [] else
      more ← extend_batch g rest; Ok ((node, executor) :: more)
  end.

Definition batch_limit (g : GraphT) (events : Z) : Z :=
  Z.min (Z.min (maximum_parallel_nodes opts) (maximum_parallelism (exec_limits g))) (saturating_sub (maximum_durable_events opts) events / 2).

Definition select_batch (g : GraphT) (plan : PlanT) (events : Z) : result GraphDriverError (list (NodeId * GraphNodeExecutor)) :=
  match dispatchable plan with
  | [] => Err (RuntimeInvariant (bytes_of "select dispatchable graph node"))
  | first :: others =>
      executor ← resolve_node_executor g first;
      let limit := batch_limit g events in
      if bool_decide (scheduling executor = JournalIsolated) && (1 <? limit) then
        more ← extend_batch g (take (Z.to_nat (saturating_sub limit 1)) others); Ok ((first, executor) :: more)
      else Ok [(first, executor)]
  end.

Record StartedNode := mkStarted { executor : GraphNodeExecutor; started_head : StartT }.

(** Durable starts in the order selected; an idempotent answer ends them. *)
Fixpoint start_nodes (g : GraphT) (plan : PlanT) (selected : list (NodeId * GraphNodeExecutor)) (head : JournalHead) : D (list StartedNode) :=
  match selected with
  | [] => mret []
  | (node, ex) :: rest =>
      attempt ← ask generate;
      event ← ask generate;
      payload ← lift (event_payload (AttemptStarted (exec_reference g) (Recovery.plan_checkpoint plan) node attempt));
      append ← lift (worker_append head event payload);
      outcome ← mutation (start_recovered_node_attempt append plan node attempt);
      match outcome with
      | Committed event_head start =>
          _ ← update (add_events 1);
          _ ← update add_started;
          _ ← tell (EStart (sh_attempt_id start) true);
          more ← start_nodes g plan rest event_head;
          mret (mkStarted ex start :: more)
      | Idempotent =>
          _ ← update (add_events 1);
          _ ← tell (EStart attempt false);
          mret []
      end
  end.

(** [runtime_failure], whose origin, codes and messages are constants. *)
Definition runtime_failure (id : Z) (cat : FailureCategory) (code message : bytes) : result GraphDriverError (Failure Details) :=
  _ ← map_err (fun _ => RuntimeFailureInvalid) (Failures.validate_failure_identifier code);
  _ ← map_err (fun _ => RuntimeFailureInvalid) (Failures.validate_failure_identifier (bytes_of "stateknot.runtime.graph-driver"));
  _ ← map_err (fun _ => RuntimeFailureInvalid) (Failures.validate_failure_message message);
  map_err (fun _ => RuntimeFailureInvalid) (failure_new id cat code (bytes_of "stateknot.runtime.graph-driver") message Never).

(** [GraphNodeExecutionError::new]. *)
Definition execution_error_new (f : Failure Details) (usage : Usage) : result GraphDriverError (GraphNodeExecutionError Details Usage) :=
  match caused_by_event_id f, retry_advice f with
  | Some _, _ | _, ReconcileFirst => Err RuntimeFailureInvalid
  | None, _ => Ok (mkExecutionError f usage)
  end.

Definition node_timeout_failure (id : Z) : result GraphDriverError (GraphNodeExecutionError Details Usage) :=
  f ← runtime_failure id DeadlineExceeded (bytes_of "runtime.node_timeout") (bytes_of "graph node execution exceeded its configured deadline");
  execution_error_new f zero_usage.
Definition node_panic_failure (id : Z) : result GraphDriverError (GraphNodeExecutionError Details Usage) :=
  f ← runtime_failure id Internal (bytes_of "runtime.node_task_panicked") (bytes_of "graph node execution task panicked");
  execution_error_new f zero_usage.

(** The outcome of a task: what node code returned, or evidence of a panic or a
    timeout once it had begun. *)
Definition task_outcome (t : TaskEnd Schema InterruptRequest Bindings Join Details JoinRequest Usage) : result GraphDriverError FinishedT :=
  match t with
  | Returned r => r
  | Panicked false _ | TimedOut false _ => Err ChildJoinPreparationIncomplete
  | Panicked true id => e ← node_panic_failure id; Ok (mkFinished (Err e) None)
  | TimedOut true id => e ← node_timeout_failure id; Ok (mkFinished (Err e) None)
  end.

Inductive StartedNodesExecution := Finished (results : list FinishedT) | ExecutionCancelled | RunCancellationObserved.

(** One poll of [observe_run_cancellation]: whether cancellation was requested. *)
Definition poll_cancellation : D bool :=
  run ← ask_store (load_run fence);
  _ ← lift (exact_live_lease run);
  match status run with
  | CancellationRequested => mret true
  | Pending | Active => mret false
  | _ => fail (Store RunNotRunnable)
  end.

Definition renew_execution_lease (lease : GuardedRunLease) : D GuardedRunLease :=
  desired ← lift (extend_timestamp (RunLease.expires_at (guarded_lease lease)) (lease_renewal_interval opts));
  renewed ← renew_with_retry desired;
  _ ← update add_renewal;
  mret renewed.

Fixpoint collect (fuel : nat) (lease : GuardedRunLease) (results : list (option FinishedT)) (completed : nat) : D StartedNodesExecution :=
  match fuel with
  | O => stop (OutOfFuel BatchLoop)
  | S fuel =>
      signal ← ask next_signal;
      match signal with
      | Joined None => invariant (bytes_of "join a complete graph node batch")
      | JoinFailed => invariant (bytes_of "join an unexpectedly cancelled graph node task")
      | Joined (Some (index, t)) =>
          r ← lift (task_outcome t);
          match results !! index with
          | None => invariant (bytes_of "place a graph node batch result")
          | Some (Some _) => invariant (bytes_of "deduplicate a graph node batch result")
          | Some None =>
              let results := <[index := Some r]> results in
              let completed := S completed in
              if (completed =? length results)%nat then
                match mapM (fun o : option FinishedT => o) results with
                | Some ordered => mret (Finished ordered)
                | None => invariant (bytes_of "materialize ordered graph node batch results")
                end
              else collect fuel lease results completed
          end
      | RenewalDue => lease ← renew_execution_lease lease; collect fuel lease results completed
      | LeaseDeadline => fail (Store LeaseExpired)
      | Shutdown => mret ExecutionCancelled
      | PollDue => requested ← poll_cancellation; if requested : bool then mret RunCancellationObserved else collect fuel lease results completed
      end
  end.

(** The loop that spawns the tasks. *)
Fixpoint spawn_nodes (started : list StartedNode) (c : Checkpoint Capability Schema) : D unit :=
  match started with
  | [] => mret tt
  | s :: rest =>
      _ ← lift (node_context (started_head s) c);
      _ ← tell (ELaunch (sh_attempt_id (started_head s)));
      spawn_nodes rest c
  end.

Definition execute_started_nodes (fuel : nat) (started : list StartedNode) (c : Checkpoint Capability Schema) (lease : GuardedRunLease) : D StartedNodesExecution :=
  cancelled ← ask is_cancelled;
  if cancelled : bool then mret ExecutionCancelled else
  if (length started =? 0)%nat then invariant (bytes_of "execute an empty graph node batch") else
  _ ← spawn_nodes started c;
  collect fuel lease (replicate (length started) None) 0.
(** ** Commits *)

Inductive NodeExecutionCommit := CommitDone | CommitCancellationObserved | CommitChildJoin (request : JoinRequest).

Definition run_cancellation_requested : D bool :=
  run ← ask_store (load_run fence);
  _ ← lift (exact_live_lease run);
  mret (bool_decide (status run = CancellationRequested)).

(** A completion refused because the run is no longer runnable is forgiven when its
    cancellation was requested. *)
Definition unless_cancelled (commit : D unit) : D bool :=
  mkM (fun s =>
    match Drivers.run commit s with
    | (Ok _, s') => (Ok true, s')
    | (Err (Failed (Store RunNotRunnable)), s') =>
        Drivers.run (requested ← run_cancellation_requested;
                     if requested : bool then mret false else fail (Store RunNotRunnable)) s'
    | (Err e, s') => (Err e, s')
    end).

Definition register_child_join_with_retry (start : StartT) (request : JoinRequest) : D unit :=
  id ← ask generate;
  payload ← lift (event_payload (JoinRegistered request));
  retried (fun e attempt => (attempt <? maximum_mutation_attempts opts) && (is_retryable e || match e with StaleJournalHead => true | _ => false end))
    (r ← ask (load_run fence);
     match map_err Store r with
     | Err e => mret (Err e)
     | Ok run =>
         match ok_or (stored_journal_head run) MissingJournalHead with
         | Err e => mret (Err e)
         | Ok head =>
             match worker_append head id payload with
             | Err e => mret (Err e)
             | Ok append => r ← ask (register_child_join request start append); mret (map_err Store r)
             end
         end
     end).

Definition settle (g : GraphT) (started : StartedNode) (head : JournalHead) (execution : FinishedT) : D bool :=
  let start := started_head started in
  match node_outcome execution with
  | Ok (Completed change control bindings usage) =>
      intent ← lift (ok_or (result_intent (sh_activation start) change control bindings) InvalidNodeResult);
      intent ← lift (match child_join_head execution with
                     | Some join => ok_or (with_child_join intent join) InvalidNodeResult
                     | None => Ok intent
                     end);
      payload ← lift (event_payload (AttemptSucceeded (exec_reference g) start (result_intent_digest intent)));
      event ← ask generate;
      append ← lift (worker_append head event payload);
      unless_cancelled (mutation (succeed_node_attempt append start intent usage))
  | Ok (ChildJoin _) => mret true
  | Err error =>
      event ← ask generate;
      payload ← lift (event_payload (AttemptFailed (exec_reference g) start (failure_id (failure error))));
      append ← lift (worker_append head event payload);
      let f := failure error in
      let f := mkFailure (failure_id f) (category f) (code f) (origin f) (message f) (retry_advice f) (details f) (Some event) in
      unless_cancelled (mutation (fail_node_attempt append start f (failure_usage error)))
  end.

Definition commit_node_execution (g : GraphT) (started : StartedNode) (execution : FinishedT) : D NodeExecutionCommit :=
  let start := started_head started in
  run ← ask_store (load_run fence);
  _ ← lift (exact_live_lease run);
  if bool_decide (status run = CancellationRequested) then mret CommitCancellationObserved else
  head ← lift (ok_or (stored_journal_head run) MissingJournalHead);
  match node_outcome execution with
  | Ok (ChildJoin request) =>
      if negb (supports_child_join (executor started)) || negb (bool_decide (scheduling (executor started) = Exclusive))
         || negb (is_none (child_join_head execution)) || negb (bool_decide (request_activation request = sh_activation start))
      then fail (Store ChildJoinRejected) else
      _ ← register_child_join_with_retry start request;
      _ ← update (add_events 1);
      _ ← tell (EJoin (sh_attempt_id start));
      mret (CommitChildJoin request)
  | _ =>
      settled ← settle g started head execution;
      if negb settled then mret CommitCancellationObserved else
      _ ← update (add_events 1);
      _ ← update add_completed;
      _ ← tell (ECommit (sh_attempt_id start));
      mret CommitDone
  end.

(** The results in start order; [Some request] hands the run to a join. *)
Fixpoint commit_results (g : GraphT) (pairs : list (StartedNode * FinishedT)) : D (option JoinRequest) :=
  match pairs with
  | [] => mret None
  | (started, execution) :: rest =>
      c ← commit_node_execution g started execution;
      match c with
      | CommitCancellationObserved => mret None
      | CommitDone => commit_results g rest
      | CommitChildJoin request => mret (Some request)
      end
  end.

(** ** The drive *)

Record GraphDriveBlockers := mkBlockers { in_flight : Z; failed : Z; exhausted : Z; superstep_limit_reached : bool }.

Definition count_kind (k : Recovery.RecoveryNodeKind) (plan : PlanT) : Z :=
  Z.min u16_max (Z.of_nat (length (List.filter (fun node => bool_decide (Recovery.kind node = k)) (Recovery.nodes plan)))).

Definition blockers_from_plan (g : GraphT) (plan : PlanT) : GraphDriveBlockers :=
  mkBlockers (count_kind Recovery.KInFlight plan) (count_kind Recovery.KFailed plan) (count_kind Recovery.KExhausted plan)
    (maximum_supersteps (exec_limits g) <=? superstep (Recovery.plan_checkpoint plan)).

Definition no_blockers (self : GraphDriveBlockers) : bool :=
  (in_flight self =? 0) && (failed self =? 0) && (exhausted self =? 0) && negb (superstep_limit_reached self).

Inductive GraphDriveOutcome :=
| OCancelled (release : LeaseReleaseOutcome)
| OYielded (release : LeaseReleaseOutcome)
| OCancellationRequested (checkpoint : CheckpointHead Capability Schema) (journal : JournalHead) (event : Z) (expected_revision : Z) (lease : RunLease) (failure : Z)
| OBlocked (plan : PlanT) (lease : RunLease) (event : Z) (expected_revision : Z) (blockers : GraphDriveBlockers)
| OLifecycleBarrierReady (plan : BarrierPlanT) (journal : JournalHead) (event : Z) (expected_revision : Z) (lease : RunLease)
| ODeferred (not_before : Timestamp) (schedule : DelayedRetryScheduleOutcome)
| OChildJoin (request : JoinRequest).

Definition hand_over_cancellation (plan : PlanT) (live : StoredRun) : D GraphDriveOutcome :=
  lease ← lift (exact_live_lease live);
  request ← lift (ok_or (cancellation_failure_id live) (RuntimeInvariant (bytes_of "recover durable cancellation intent")));
  let c := head (Recovery.plan_checkpoint plan) in
  pointer ← lift (ok_or (stored_checkpoint live) (RuntimeInvariant (bytes_of "bind cancellation to the current checkpoint")));
  if negb (bool_decide (pointer.1.1 = head_checkpoint_id c)) || negb (bool_decide (pointer.1.2 = head_superstep c))
     || negb (bool_decide (pointer.2 = head_digest c)) || negb (bool_decide (stored_journal_head live = Some (Recovery.plan_journal_head plan)))
  then fail StaleBarrierSnapshot else
  event ← ask generate;
  mret (OCancellationRequested c (Recovery.plan_journal_head plan) event (revision live) lease request).

Definition release_as (outcome : LeaseReleaseOutcome -> GraphDriveOutcome) : D (option GraphDriveOutcome) :=
  release ← release_with_retry; mret (Some (outcome release)).

Definition barrier_step (fuel : nat) (g : GraphT) (plan : PlanT) (live : StoredRun) : D (option GraphDriveOutcome) :=
  r ← get_report;
  if durable_events r =? maximum_durable_events opts then release_as OYielded else
  results ← load_barrier_results fuel plan;
  id ← ask generate;
  b ← lift (map_err GraphPlanning (exec_plan_barrier g (Recovery.plan_checkpoint plan) results id));
  lease ← lift (exact_live_lease live);
  match disposition b with
  | DContinue => _ ← commit_continue_barrier plan b; mret None
  | DWait _ | DTerminal _ =>
      event ← ask generate;
      mret (Some (OLifecycleBarrierReady b (Recovery.plan_journal_head plan) event (revision live) lease))
  end.

Definition batch_step (fuel : nat) (g : GraphT) (plan : PlanT) : D (option GraphDriveOutcome) :=
  r ← get_report;
  if maximum_durable_events opts <? saturating_add u32_max (durable_events r) 2 then release_as OYielded else
  selected ← lift (select_batch g plan (durable_events r));
  started ← start_nodes g plan selected (Recovery.plan_journal_head plan);
  if (length started =? 0)%nat then mret None else
  lease ← prepare_execution_lease;
  _ ← update (add_batch (length started));
  execution ← execute_started_nodes fuel started (Recovery.plan_checkpoint plan) lease;
  match execution with
  | ExecutionCancelled => release_as OCancelled
  | RunCancellationObserved => mret None
  | Finished results => join ← commit_results g (zip started results); mret (OChildJoin <$> join)
  end.

Definition all_deferred (plan : PlanT) : bool :=
  forallb (fun node => bool_decide (Recovery.kind node = Recovery.KCompleted) || bool_decide (Recovery.kind node = Recovery.KDeferred)) (Recovery.nodes plan).

(** One round of the loop; [None] goes round again. *)
Definition drive_step (fuel : nat) (g : GraphT) : D (option GraphDriveOutcome) :=
  cancelled ← ask is_cancelled;
  if cancelled : bool then release_as OCancelled else
  r ← get_report;
  if maximum_durable_events opts <=? durable_events r then release_as OYielded else
  _ ← begin_recovery;
  plan ← ask_store plan_ready_nodes;
  live ← ask_store revalidate;
  if bool_decide (status live = CancellationRequested) then (o ← hand_over_cancellation plan live; mret (Some o)) else
  let blockers := blockers_from_plan g plan in
  if negb (no_blockers blockers) then
    lease ← lift (exact_live_lease live);
    event ← ask generate;
    mret (Some (OBlocked plan lease event (revision live) blockers))
  else
  if Recovery.is_barrier_ready plan then barrier_step fuel g plan live else
  match Recovery.earliest_deferred_at plan with
  | Some not_before =>
      if all_deferred plan then
        outcome ← schedule_deferred_with_retry plan;
        match outcome with
        | Due _ => _ ← tell EDue; mret None
        | _ => mret (Some (ODeferred not_before outcome))
        end
      else batch_step fuel g plan
  | None => batch_step fuel g plan
  end.

Fixpoint drive_loop (fuel inner : nat) (g : GraphT) : D GraphDriveOutcome :=
  match fuel with
  | O => stop (OutOfFuel DriveLoop)
  | S fuel => o ← drive_step inner g; match o with Some outcome => mret outcome | None => drive_loop fuel inner g end
  end.

Definition drive_inner (fuel inner : nat) : D GraphDriveOutcome :=
  _ ← refresh_near_expiry_lease;
  _ ← begin_recovery;
  reference ← ask_store load_pinned_graph;
  g ← lift (ok_or (resolve reference) ExecutableGraphUnavailable);
  _ ← ask_store validate_noninitial_replay;
  drive_loop fuel inner g.

Definition drive (fuel inner : nat) (w : W) : result Stop GraphDriveOutcome * St W := Drivers.run (drive_inner fuel inner) (mkSt w report_new []).
End Drive.
End Drivers.
