(* ===== verification/DriverLaws.v ===== *)
(** Laws of the graph driver ([Driver.v]), in every world: the work quantum is
    never exceeded, nothing is launched without a start that this drive committed,
    nothing is completed that was not launched, retries and delays are bounded,
    the lease is released exactly on the outcomes that say so, and only answers
    that a delayed retry is already due can make the loop outlast its quantum. *)

From Stdlib Require Import ZArith Lia List.
From stdpp Require Import prelude.
From S2P Require Import Prelude Ordered Json Time Run Lease Checkpoint Barrier NodeAttempt Graph GraphPlan Journal Recovery StoreErrors Scheduler BoundedJson Driver RecoveryLaws.

Open Scope Z_scope.

Module DriverLaws.
Import Drivers.

(** * What a log says *)

Definition cost (e : Event) : Z := match e with EStart _ _ | ECommit _ | EJoin _ | EBarrier => 1 | _ => 0 end.
Definition spent (l : list Event) : Z := foldr (fun e n => cost e + n) 0 l.
Definition dues (l : list Event) : Z := foldr (fun e n => (match e with EDue => 1 | _ => 0 end) + n) 0 l.

Definition starts : list Event -> list Z := omap (fun e => match e with EStart a true => Some a | _ => None end).
Definition launches : list Event -> list Z := omap (fun e => match e with ELaunch a => Some a | _ => None end).
Definition settles : list Event -> list Z := omap (fun e => match e with ECommit a | EJoin a => Some a | _ => None end).
Definition released (l : list Event) : bool := existsb (fun e => match e with ERelease => true | _ => false end) l.

(** Only delays, none longer than a second. *)
Definition delay (e : Event) : Prop := match e with ESleep d => d <= MAX_MUTATION_RETRY_DELAY | _ => False end.
Definition delay_ok (e : Event) : Prop := match e with ESleep d => d <= MAX_MUTATION_RETRY_DELAY | _ => True end.

Lemma spent_app l1 l2 : spent (l1 ++ l2) = spent l1 + spent l2.
Proof. unfold spent. induction l1; simpl in *; lia. Qed.
Lemma spent_nonneg l : 0 <= spent l.
Proof. unfold spent. induction l as [|[] l IH]; simpl in *; lia. Qed.
Lemma dues_app l1 l2 : dues (l1 ++ l2) = dues l1 + dues l2.
Proof. unfold dues. induction l1; simpl in *; lia. Qed.
Lemma dues_nonneg l : 0 <= dues l.
Proof. unfold dues. induction l as [|[] l IH]; simpl in *; lia. Qed.

Lemma delays_silent l : Forall delay l -> spent l = 0 /\ dues l = 0 /\ starts l = [] /\ launches l = [] /\ settles l = [] /\ released l = false /\ Forall delay_ok l.
Proof. induction 1 as [|[] l H _ (? & ? & ? & ? & ? & ? & ?)]; simpl in *; try done. unfold spent, dues in *. simpl. split_and!; auto; lia. Qed.

(** * Rules *)

Section Rules.
Context {W : Type}.
Implicit Types s : St W.

(** A computation from [e] durable events extends the log by some [δ], counts what
    it spent, and ends as [Q] says. *)
Definition does {A} (e : Z) (m : M W A) (Q : result Stop A -> list Event -> Prop) : Prop :=
  forall s, durable_events (report s) = e -> 0 <= e <= u32_max ->
  exists δ, log (run m s).2 = δ ++ log s /\ durable_events (report (run m s).2) = Z.min u32_max (e + spent δ) /\ Q (run m s).1 δ.

Lemma does_ret {A} e (a : A) (Q : result Stop A -> list Event -> Prop) : Q (Ok a) [] -> does e (mret a) Q.
Proof. intros HQ s He Hr. exists []. simpl. split_and!; [done | unfold spent; simpl; lia | done]. Qed.

Lemma does_stop {A} e st (Q : result Stop A -> list Event -> Prop) : Q (Err st) [] -> does e (stop st) Q.
Proof. intros HQ s He Hr. exists []. simpl. split_and!; [done | unfold spent; simpl; lia | done]. Qed.

Lemma does_bind {A B} e (m : M W A) (f : A -> M W B) Q1 (Q : result Stop B -> list Event -> Prop) :
  does e m Q1 -> (forall a δ, Q1 (Ok a) δ -> does (Z.min u32_max (e + spent δ)) (f a) (fun r δ' => Q r (δ' ++ δ))) ->
  (forall st δ, Q1 (Err st) δ -> Q (Err st) δ) -> does e (m ≫= f) Q.
Proof.
  intros Hm Hf He s Hs Hr. destruct (Hm s Hs Hr) as (δ & Hl & Hd & HQ). unfold mbind, M_bind. simpl. destruct (run m s) as [[a|st] s'] eqn:E; simpl in *.
  - pose proof (spent_nonneg δ). destruct (Hf a δ HQ s' Hd ltac:(lia)) as (δ' & Hl' & Hd' & HQ'). exists (δ' ++ δ). rewrite Hl', Hl, app_assoc. split_and!; [done | | done].
    rewrite Hd', spent_app. pose proof (spent_nonneg δ'). lia.
  - exists δ. auto.
Qed.

Lemma does_weaken {A} e (m : M W A) (Q Q' : result Stop A -> list Event -> Prop) : does e m Q -> (forall r δ, Q r δ -> Q' r δ) -> does e m Q'.
Proof. intros H Hi s Hs Hr. destruct (H s Hs Hr) as (δ & ? & ? & ?). exists δ. auto. Qed.

Lemma does_tell e ev (Q : result Stop unit -> list Event -> Prop) : cost ev = 0 -> Q (Ok tt) [ev] -> does e (tell ev) Q.
Proof. intros Hc HQ s He Hr. exists [ev]. simpl. split_and!; [done | unfold spent; simpl; lia | done]. Qed.

(** Reports that count no durable event. *)
Definition uncounted (f : GraphDriveReport -> GraphDriveReport) : Prop := forall r, durable_events (f r) = durable_events r.

(** A durable event is counted and logged together. *)
Lemma does_count {A} e f ev (k : M W A) (Q : result Stop A -> list Event -> Prop) :
  cost ev = 1 -> uncounted f -> does (Z.min u32_max (e + 1)) k (fun r δ => Q r (δ ++ [ev])) ->
  does e (_ ← update (add_events 1); _ ← update f; _ ← tell ev; k) Q.
Proof.
  intros Hc Hf Hk s He Hr. simpl. set (s1 := mkSt _ _ _). destruct (Hk s1) as (δ & Hl & Hd & HQ); [simpl; rewrite Hf; simpl; unfold saturating_add; lia | lia |].
  exists (δ ++ [ev]). rewrite Hl, <- app_assoc. simpl. split_and!; [done | | done]. pose proof (spent_nonneg δ). rewrite Hd, spent_app. unfold spent at 3. simpl. lia.
Qed.
Lemma does_count1 {A} e ev (k : M W A) (Q : result Stop A -> list Event -> Prop) :
  cost ev = 1 -> does (Z.min u32_max (e + 1)) k (fun r δ => Q r (δ ++ [ev])) -> does e (_ ← update (add_events 1); _ ← tell ev; k) Q.
Proof.
  intros Hc Hk s He Hr. simpl. set (s1 := mkSt _ _ _). destruct (Hk s1) as (δ & Hl & Hd & HQ); [simpl; unfold saturating_add; lia | lia |].
  exists (δ ++ [ev]). rewrite Hl, <- app_assoc. simpl. split_and!; [done | | done]. pose proof (spent_nonneg δ). rewrite Hd, spent_app. unfold spent at 3. simpl. lia.
Qed.

(** Other events are only logged. *)
Lemma does_say {A} e ev (k : M W A) (Q : result Stop A -> list Event -> Prop) :
  cost ev = 0 -> does e k (fun r δ => Q r (δ ++ [ev])) -> does e (_ ← tell ev; k) Q.
Proof.
  intros Hc Hk s He Hr. simpl. set (s1 := mkSt _ _ _). destruct (Hk s1) as (δ & Hl & Hd & HQ); [done | done |].
  exists (δ ++ [ev]). rewrite Hl, <- app_assoc. simpl. split_and!; [done | | done]. rewrite Hd, spent_app. unfold spent at 3. simpl. f_equal. lia.
Qed.

(** * Computations that only wait *)

Definition inner_stop (st : Stop) : Prop := st <> OutOfFuel RetryLoop /\ st <> OutOfFuel DriveLoop.
Definition waited {A} (r : result Stop A) (δ : list Event) : Prop := Forall delay δ /\ forall st, r = Err st -> inner_stop st.
Definition quiet {A} (m : M W A) : Prop := forall e, does e m waited.

Lemma quiet_ret {A} (a : A) : quiet (mret a : M W A).
Proof. intros e. apply does_ret. by split. Qed.
Lemma quiet_fail {A} er : quiet (fail er : M W A).
Proof. intros e. apply does_stop. split; [done |]. intros st [= <-]. by split. Qed.
Lemma quiet_page {A} : quiet (stop (OutOfFuel PageLoop) : M W A).
Proof. intros e. apply does_stop. split; [done |]. intros st [= <-]. by split. Qed.
Lemma quiet_batch {A} : quiet (stop (OutOfFuel BatchLoop) : M W A).
Proof. intros e. apply does_stop. split; [done |]. intros st [= <-]. by split. Qed.
Lemma quiet_lift {A} (r : result GraphDriverError A) : quiet (lift r : M W A).
Proof. destruct r; [apply quiet_ret | apply quiet_fail]. Qed.
Lemma quiet_invariant {A} op : quiet (invariant op : M W A).
Proof. apply quiet_fail. Qed.
Lemma quiet_ask {A} (op : W -> A * W) : quiet (ask op).
Proof.
  intros e s He Hr. exists []. unfold ask. simpl. destruct (op (world s)) as [a w]. simpl. split_and!; [done | unfold spent; simpl; lia |]. by split.
Qed.
Lemma quiet_update f : uncounted f -> quiet (update f : M W unit).
Proof. intros Hf e s He Hr. exists []. simpl. rewrite Hf. split_and!; [done | unfold spent; simpl; lia |]. by split. Qed.
Lemma quiet_sleep d : d <= MAX_MUTATION_RETRY_DELAY -> quiet (tell (ESleep d) : M W unit).
Proof. intros Hd e. apply does_tell; [done |]. split; [| done]. by repeat constructor. Qed.

Lemma quiet_bind {A B} (m : M W A) (f : A -> M W B) : quiet m -> (forall a, quiet (f a)) -> quiet (m ≫= f).
Proof.
  intros Hm Hf e. eapply does_bind; [apply Hm | |].
  - intros a δ [Hd _]. eapply does_weaken; [apply Hf |]. intros r δ' [Hd' Hr]. split; [by apply Forall_app | done].
  - intros st δ [Hd Hst]. split; [done |]. intros st' [= <-]. by apply Hst.
Qed.

Lemma quiet_ask_store {A} (op : W -> result StoreError A * W) : quiet (ask_store op).
Proof. apply quiet_bind; [apply quiet_ask |]. intros r. apply quiet_lift. Qed.

(** After a quiet computation, nothing was spent. *)
Lemma does_quiet_bind {A B} e (m : M W A) (f : A -> M W B) (Q : result Stop B -> list Event -> Prop) :
  quiet m -> (forall a δ, Forall delay δ -> does e (f a) (fun r δ' => Q r (δ' ++ δ))) ->
  (forall st δ, Forall delay δ -> inner_stop st -> Q (Err st) δ) -> does e (m ≫= f) Q.
Proof.
  intros Hm Hf Hs s He Hr. refine (does_bind e m f waited Q (Hm e) _ _ s He Hr).
  - intros a δ [Hd _]. pose proof (proj1 (delays_silent _ Hd)) as ->. rewrite Z.min_r by lia. rewrite Z.add_0_r. by apply Hf.
  - intros st δ [Hd Hst]. apply Hs; [done |]. by apply Hst.
Qed.

(** Postconditions that delays do not disturb. *)
Record absorbs {A} (Q : result Stop A -> list Event -> Prop) : Prop := {
  ab_stop : forall st δ, Forall delay δ -> inner_stop st -> Q (Err st) δ;
  ab_prefix : forall r δ' δ, Forall delay δ -> Q r δ' -> Q r (δ' ++ δ)
}.

Lemma does_step {A B} e (m : M W A) (f : A -> M W B) (Q : result Stop B -> list Event -> Prop) :
  absorbs Q -> quiet m -> (forall a, does e (f a) Q) -> does e (m ≫= f) Q.
Proof.
  intros [Hs Hp] Hm Hf. apply does_quiet_bind; [done | | done]. intros a δ Hd. eapply does_weaken; [apply Hf |]. intros r δ' HQ. by apply Hp.
Qed.
End Rules.
Create HintDb quiet.

#[local] Ltac quiet_step :=
  first [ solve [auto with quiet nocore] | apply quiet_ret | apply quiet_fail | apply quiet_lift | apply quiet_invariant | apply quiet_ask_store | apply quiet_ask
        | apply quiet_page | apply quiet_batch | (apply quiet_update; done) | done
        | (apply quiet_bind; [| intros ?])
        | match goal with |- quiet (match ?x with _ => _ end) => destruct x | |- quiet (if ?b then _ else _) => destruct b end ].
#[local] Ltac quiet_all := repeat quiet_step.

(** * The driver *)

Record valid_options (opts : DurableGraphDriverOptions) : Prop := {
  vo_events : 2 <= maximum_durable_events opts <= HARD_MAXIMUM_DURABLE_EVENTS;
  vo_attempts : 1 <= maximum_mutation_attempts opts <= HARD_MAXIMUM_MUTATION_ATTEMPTS
}.

Lemma options_new_valid b ev ren to at_ d opts : options_new b ev ren to at_ d = Ok opts -> valid_options opts.
Proof.
  unfold options_new, between. intros H. destruct (Z.leb_spec 2 ev); simpl in H; [| done]. destruct (Z.leb_spec ev HARD_MAXIMUM_DURABLE_EVENTS); simpl in H; [| done].
  destruct (_ || _); [done |]. destruct (_ || _); [done |]. destruct (Z.leb_spec 1 at_); simpl in H; [| done].
  destruct (Z.leb_spec at_ HARD_MAXIMUM_MUTATION_ATTEMPTS); simpl in H; [| done]. destruct (_ || _); [done |]. injection H as <-. by constructor.
Qed.

(** What the constructors accept. *)
Inductive configured : DurableGraphDriverOptions -> Prop :=
| configured_new b ev ren to at_ d opts : options_new b ev ren to at_ d = Ok opts -> configured opts
| configured_timing opts poll grace opts' : configured opts -> with_cancellation_timing opts poll grace = Ok opts' -> configured opts'
| configured_parallel opts limit opts' : configured opts -> with_parallel_node_limit opts limit = Ok opts' -> configured opts'.

Lemma configured_valid opts : configured opts -> valid_options opts.
Proof.
  induction 1 as [b ev ren to at_ d opts H|opts poll grace opts' _ [] H|opts limit opts' _ [] H]; [by eapply options_new_valid | |].
  - unfold with_cancellation_timing in H. destruct (_ || _); [done |]. destruct (_ || _); [done |]. by injection H as <-.
  - unfold with_parallel_node_limit in H. destruct (_ || _); [done |]. by injection H as <-.
Qed.

Section Laws.
Context {W Capability Schema InterruptRequest Bindings Join Details JoinRequest Usage Cursor : Type}.
Context `{E : !Env W Capability Schema InterruptRequest Bindings Join Details JoinRequest Usage Cursor}.
Context `{!EqDecision Capability, !EqDecision Schema, !EqDecision (NodeActivation Capability Schema), !EqDecision (CheckpointHead Capability Schema)}.
Context `{!Canonical Journal.IntentDigestWire}.
Variable sha256 : bytes -> bytes.
Variable opts : DurableGraphDriverOptions.
Variable event_payload : AuditEvent Capability Schema JoinRequest -> result GraphDriverError (Journal.JournalPayload Schema).
Variable resolve : GraphReference Capability Schema -> option (ExecutableGraph Capability Schema InterruptRequest Bindings Join).
Variable compact_length : PendingNodeResult Capability Schema InterruptRequest Bindings Join -> option Z.
Variable result_intent : NodeActivation Capability Schema -> NodeStateChange Schema -> NodeControl Schema InterruptRequest -> Bindings ->
  option (PendingNodeResultIntent Capability Schema InterruptRequest Bindings Join).
Variable with_child_join : PendingNodeResultIntent Capability Schema InterruptRequest Bindings Join -> Join ->
  option (PendingNodeResultIntent Capability Schema InterruptRequest Bindings Join).
Variable request_activation : JoinRequest -> NodeActivation Capability Schema.
Variable fence : RunLease.RunFence.
Hypothesis Hconfigured : configured opts.

Lemma options_valid : valid_options opts.
Proof. by apply configured_valid. Qed.

Lemma mutation_delay_bound attempt : mutation_delay opts attempt <= MAX_MUTATION_RETRY_DELAY.
Proof. unfold mutation_delay. lia. Qed.

(** ** Retries end *)

Lemma quiet_retry_loop {A} retryable (call : M W (result GraphDriverError A)) :
  (forall e a, retryable e a = true -> a < maximum_mutation_attempts opts) -> quiet call -> forall fuel attempt,
  1 <= attempt <= maximum_mutation_attempts opts -> Z.of_nat fuel = maximum_mutation_attempts opts - attempt + 1 ->
  quiet (retry_loop opts retryable call fuel attempt).
Proof.
  intros Hr Hc. pose proof (vo_attempts _ options_valid) as Ha. induction fuel as [|fuel IH]; intros attempt Hat Hf; [lia |]. simpl. apply quiet_bind; [done |].
  intros [a|er]; [quiet_all |]. destruct er; try apply quiet_fail. destruct (retryable source attempt) eqn:Er; [| quiet_all].
  apply Hr in Er. apply quiet_bind; [by apply quiet_update |]. intros _. apply quiet_bind; [apply quiet_sleep, mutation_delay_bound |]. intros _.
  assert (saturating_add u8_max attempt 1 = attempt + 1) as ->. { unfold saturating_add, u8_max, HARD_MAXIMUM_MUTATION_ATTEMPTS in *. lia. }
  apply IH; lia.
Qed.

Lemma quiet_retried {A} retryable (call : M W (result GraphDriverError A)) :
  (forall e a, retryable e a = true -> a < maximum_mutation_attempts opts) -> quiet call -> quiet (retried opts retryable call).
Proof. intros Hr Hc. pose proof (vo_attempts _ options_valid). apply quiet_retry_loop; [done | done | lia | lia]. Qed.

Lemma quiet_mutation {A} (op : W -> result StoreError A * W) : quiet (mutation opts op).
Proof.
  apply quiet_retried; [| quiet_all]. intros e a. unfold can_retry_mutation. intros [H%Z.ltb_lt _]%andb_true_iff. done.
Qed.
#[local] Hint Resolve quiet_mutation : quiet.

Lemma quiet_begin_recovery : quiet (begin_recovery sha256 fence).
Proof. unfold begin_recovery. quiet_all. Qed.
#[local] Hint Resolve quiet_begin_recovery : quiet.

Lemma quiet_guarded lease observed started : quiet (guarded_run_lease (W := W) lease observed started).
Proof. unfold guarded_run_lease. quiet_all. Qed.
#[local] Hint Resolve quiet_guarded : quiet.

Lemma quiet_renew desired : quiet (renew_with_retry opts fence desired).
Proof.
  unfold renew_with_retry. quiet_all.
Qed.
#[local] Hint Resolve quiet_renew : quiet.

Lemma quiet_prepare : quiet (prepare_execution_lease sha256 opts fence).
Proof.
  unfold prepare_execution_lease. quiet_all.
Qed.
#[local] Hint Resolve quiet_prepare : quiet.

Lemma quiet_refresh : quiet (refresh_near_expiry_lease opts fence).
Proof. unfold refresh_near_expiry_lease. quiet_all. Qed.
#[local] Hint Resolve quiet_refresh : quiet.

Lemma quiet_load_pages fuel plan : forall cursor results total, quiet (load_pages opts compact_length fuel plan cursor results total).
Proof. induction fuel as [|fuel IH]; intros cursor results total; simpl; quiet_all. Qed.

Lemma quiet_barrier_results fuel plan : quiet (load_barrier_results opts compact_length fuel plan).
Proof. unfold load_barrier_results. apply quiet_bind; [apply quiet_load_pages |]. intros rs. quiet_all. Qed.
#[local] Hint Resolve quiet_barrier_results : quiet.

Lemma quiet_renew_execution lease : quiet (renew_execution_lease opts fence lease).
Proof. unfold renew_execution_lease. quiet_all. Qed.
#[local] Hint Resolve quiet_renew_execution : quiet.

Lemma quiet_poll : quiet (poll_cancellation fence).
Proof. unfold poll_cancellation. quiet_all. Qed.
#[local] Hint Resolve quiet_poll : quiet.

Lemma quiet_collect fuel : forall lease results completed, quiet (collect opts fence fuel lease results completed).
Proof.
  induction fuel as [|fuel IH]; intros lease results completed; [apply quiet_batch |]. cbn [collect]. apply quiet_bind; [apply quiet_ask |]. intros [[[i t]|]| | | | |]; quiet_all.
Qed.

Lemma quiet_unless_cancelled commit : quiet commit -> quiet (unless_cancelled fence commit).
Proof.
  intros Hc e s He Hr. destruct (Hc e s He Hr) as (δ & Hl & Hd & Hw & Hst). unfold unless_cancelled. simpl. destruct (run commit s) as [[u|st] s'] eqn:Ec; simpl in *.
  - exists δ. split_and!; [done | done |]. by split.
  - assert (Hsame : exists δ0, log s' = δ0 ++ log s /\ durable_events (report s') = Z.min u32_max (e + spent δ0) /\ waited (Err st : result Stop bool) δ0).
    { exists δ. split_and!; [done | done |]. split; [done |]. intros st' [= <-]. by apply Hst. }
    destruct st as [[]|]; try exact Hsame. destruct source; try exact Hsame. simpl.
    assert (Hq : quiet (requested ← run_cancellation_requested fence; if requested : bool then mret false else fail (Store RunNotRunnable))).
    { unfold run_cancellation_requested. quiet_all. }
    pose proof (delays_silent _ Hw) as (Hz & _). destruct (Hq e s' ltac:(lia) Hr) as (δ' & Hl' & Hd' & Hw' & Hst').
    exists (δ' ++ δ). split_and!; [by rewrite <- app_assoc, <- Hl | | split; [by apply Forall_app | done]]. rewrite spent_app, Hz, Z.add_0_r. done.
Qed.

Lemma quiet_settle g started h execution : quiet (settle sha256 opts event_payload result_intent with_child_join fence g started h execution).
Proof.
  unfold settle. destruct (node_outcome execution) as [[c ctl bs u|r]|er]; quiet_all; apply quiet_unless_cancelled, quiet_mutation.
Qed.
#[local] Hint Resolve quiet_settle : quiet.

Lemma quiet_register start request : quiet (register_child_join_with_retry sha256 opts event_payload fence start request).
Proof.
  unfold register_child_join_with_retry. apply quiet_bind; [quiet_all |]. intros id. apply quiet_bind; [quiet_all |]. intros p. apply quiet_retried; [| quiet_all].
  intros e a [H%Z.ltb_lt _]%andb_true_iff. done.
Qed.
#[local] Hint Resolve quiet_register : quiet.
(** ** Starts, launches and settlements *)

Abbreviation ids l := ((fun s => NodeAttempt.sh_attempt_id (started_head s)) <$> l).

(** Events of one phase: which lists it leaves empty, and its cost. *)
Record phase (δ : list Event) : Prop := {
  ph_dues : dues δ = 0;
  ph_released : released δ = false;
  ph_delays : Forall delay_ok δ
}.

Lemma phase_app δ1 δ2 : phase δ1 -> phase δ2 -> phase (δ1 ++ δ2).
Proof.
  intros [] []. constructor; [rewrite dues_app; lia | | by apply Forall_app]. unfold released in *. rewrite existsb_app. by apply orb_false_iff.
Qed.

Lemma delays_phase δ : Forall delay δ -> phase δ.
Proof. intros H. apply delays_silent in H as (? & ? & ? & ? & ? & ? & ?). by constructor. Qed.

Lemma events_app δ1 δ2 :
  starts (δ1 ++ δ2) = starts δ1 ++ starts δ2 /\ launches (δ1 ++ δ2) = launches δ1 ++ launches δ2 /\ settles (δ1 ++ δ2) = settles δ1 ++ settles δ2.
Proof. unfold starts, launches, settles. by rewrite !omap_app. Qed.

Record started_as (n : nat) (r : result Stop (list (StartedNode (Capability := Capability) (Schema := Schema)))) (δ : list Event) : Prop := {
  sa_phase : phase δ;
  sa_silent : launches δ = [] /\ settles δ = [];
  sa_cost : spent δ <= Z.of_nat n;
  sa_ok : forall l, r = Ok l -> starts δ = rev (ids l) /\ Z.of_nat (length l) <= spent δ /\ (n <> 0%nat -> 1 <= spent δ);
  sa_stop : forall st, r = Err st -> inner_stop st
}.

Lemma start_nodes_does g plan selected : forall e h, does e (start_nodes sha256 opts event_payload fence g plan selected h) (started_as (length selected)).
Proof.
  assert (Hab : forall n, absorbs (started_as n)).
  { intros n. constructor.
    - intros st δ Hd Hst. pose proof (delays_silent _ Hd) as (? & ? & ? & ? & ? & ? & ?). constructor; [by apply delays_phase | done | lia | done |]. by intros ? [= <-].
    - intros r δ' δ Hd [P S C O T]. pose proof (delays_silent _ Hd) as (H1 & H2 & H3 & H4 & H5 & _). destruct (events_app δ' δ) as (A1 & A2 & A3).
      constructor; [apply phase_app; [done | by apply delays_phase] | by rewrite A2, A3, H4, H5, !app_nil_r | rewrite spent_app; lia | | done].
      intros l Hl. rewrite A1, H3, app_nil_r, spent_app, H1, Z.add_0_r. by apply O. }
  induction selected as [|[node ex] rest IH]; intros e h; cbn [start_nodes].
  - apply does_ret. constructor; [constructor; first [done | constructor] | done | done | | done]. intros l [= <-]. simpl. done.
  - repeat (apply does_step; [apply Hab | solve [quiet_all] | intros ?]).
    match goal with |- does _ (match ?o with _ => _ end) _ => destruct o as [event_head start|] end.
    + apply does_count; [done | done |]. eapply does_bind; [apply IH | |].
      * intros l δ [P [S1 S2] C O T]. apply does_ret. destruct (O l eq_refl) as (O1 & O2 & O3). destruct (events_app δ [EStart (NodeAttempt.sh_attempt_id start) true]) as (A1 & A2 & A3). simpl.
        constructor; [apply phase_app; [done | constructor; first [done | repeat constructor]] | rewrite A2, A3, S1, S2; done | rewrite spent_app; unfold spent at 2; simpl; lia | | done].
        intros l' [= <-]. rewrite A1, O1, spent_app. unfold spent at 2 4. simpl. split_and!; [done | lia | pose proof (spent_nonneg δ); lia].
      * intros st δ [P [S1 S2] C O T]. destruct (events_app δ [EStart (NodeAttempt.sh_attempt_id start) true]) as (A1 & A2 & A3). simpl.
        constructor; [apply phase_app; [done | constructor; first [done | repeat constructor]] | rewrite A2, A3, S1, S2; done | rewrite spent_app; unfold spent at 2; simpl; lia | done | done].
    + apply does_count1; [done |]. apply does_ret. simpl.
      constructor; [constructor; first [done | repeat constructor] | done | unfold spent; simpl; lia | | done]. intros l [= <-]. unfold spent. simpl. split_and!; [done | lia | lia].
Qed.
(** Launches: a prefix of the started nodes, all of them if a result is awaited. *)
Record launched_as (l : list Z) {A} (all : A -> Prop) (r : result Stop A) (δ : list Event) : Prop := {
  la_phase : phase δ;
  la_silent : starts δ = [] /\ settles δ = [] /\ spent δ = 0;
  la_launches : launches δ `sublist_of` rev l;
  la_all : forall a, r = Ok a -> all a -> launches δ = rev l;
  la_stop : forall st, r = Err st -> inner_stop st
}.

Lemma launched_absorbs l {A} (all : A -> Prop) : absorbs (launched_as l all).
Proof.
  constructor.
  - intros st δ Hd Hst. pose proof (delays_silent _ Hd) as (? & ? & ? & Hl & ? & ? & ?). constructor; [by apply delays_phase | done | rewrite Hl; apply sublist_nil_l | done |].
    by intros ? [= <-].
  - intros r δ' δ Hd [P (S1 & S2 & S3) C O T]. pose proof (delays_silent _ Hd) as (H1 & H2 & H3 & H4 & H5 & _). destruct (events_app δ' δ) as (A1 & A2 & A3).
    constructor; [apply phase_app; [done | by apply delays_phase] | | by rewrite A2, H4, app_nil_r | by rewrite A2, H4, app_nil_r | done].
    rewrite A1, A3, H3, H5, S1, S2, spent_app. split_and!; [done | done | lia].
Qed.

Lemma spawn_nodes_does started c : forall e, does e (spawn_nodes (W := W) started c) (launched_as (ids started) (fun _ => True)).
Proof.
  induction started as [|x rest IH]; intros e; cbn [spawn_nodes].
  - apply does_ret. constructor; [constructor; first [done | constructor] | done | apply sublist_nil_l | done | done].
  - apply does_step; [apply launched_absorbs | solve [quiet_all] |]. intros _.
    apply does_say; [done |]. eapply does_weaken; [apply IH |].
    intros r δ' [P (S1 & S2 & S3) C O T]. destruct (events_app δ' [ELaunch (NodeAttempt.sh_attempt_id (started_head x))]) as (A1 & A2 & A3). simpl.
    constructor; [apply phase_app; [done | constructor; first [done | repeat constructor]] | | | | done].
    + rewrite A1, A3, S1, S2, spent_app. unfold spent at 2. simpl. split_and!; [done | done | lia].
    + rewrite A2. by apply sublist_app.
    + intros a Ha Hall. rewrite A2, (O a Ha Hall). done.
Qed.

Lemma execute_does fuel started c lease e :
  does e (execute_started_nodes opts fence fuel started c lease) (launched_as (ids started) (fun x => match x with Finished _ => True | _ => False end)).
Proof.
  unfold execute_started_nodes. apply does_step; [apply launched_absorbs | solve [quiet_all] |]. intros [].
  { apply does_ret. constructor; [constructor; first [done | constructor] | done | apply sublist_nil_l | by intros ? [= <-] | done]. }
  destruct (_ =? _)%nat.
  { apply does_stop. constructor; [constructor; first [done | constructor] | done | apply sublist_nil_l | done |]. by intros ? [= <-]. }
  eapply does_bind; [apply spawn_nodes_does | |].
  - intros [] δ L. eapply does_weaken; [apply quiet_collect |]. intros r δ' [Hd Hst]. destruct L as [P (S1 & S2 & S3) C O T].
    pose proof (delays_silent _ Hd) as (H1 & H2 & H3 & H4 & H5 & _). destruct (events_app δ' δ) as (A1 & A2 & A3).
    constructor; [apply phase_app; [by apply delays_phase | done] | rewrite A1, A3, H3, H5, S1, S2, spent_app; split_and!; [done | done | lia] | by rewrite A2, H4 | | done].
    intros a _ _. rewrite A2, H4, (O tt eq_refl I). done.
  - intros st δ [P S C O T]. constructor; [done | done | done | done |]. intros st' [= <-]. by apply T.
Qed.

(** Settlements: of a prefix of the given nodes. *)
Record settled_as (l : list Z) {A} (r : result Stop A) (δ : list Event) : Prop := {
  se_phase : phase δ;
  se_silent : starts δ = [] /\ launches δ = [];
  se_settles : settles δ `sublist_of` rev l;
  se_cost : 0 <= spent δ <= Z.of_nat (length l);
  se_stop : forall st, r = Err st -> inner_stop st
}.

Lemma settled_absorbs l {A} : absorbs (settled_as l (A := A)).
Proof.
  constructor.
  - intros st δ Hd Hst. pose proof (delays_silent _ Hd) as (? & ? & ? & ? & Hl & ? & ?). constructor; [by apply delays_phase | done | rewrite Hl; apply sublist_nil_l | lia |].
    by intros ? [= <-].
  - intros r δ' δ Hd [P (S1 & S2) C O T]. pose proof (delays_silent _ Hd) as (H1 & H2 & H3 & H4 & H5 & _). destruct (events_app δ' δ) as (A1 & A2 & A3).
    constructor; [apply phase_app; [done | by apply delays_phase] | by rewrite A1, A2, H3, H4, S1, S2 | by rewrite A3, H5, app_nil_r | rewrite spent_app; lia | done].
Qed.

Lemma settled_nil l {A} (a : A) : settled_as l (Ok a) [].
Proof. constructor; [constructor; first [done | constructor] | done | apply sublist_nil_l | unfold spent; simpl; lia | done]. Qed.

Lemma settled_one a {A} (x : A) ev : ev = ECommit a \/ ev = EJoin a -> settled_as [a] (Ok x) [ev].
Proof.
  intros Hev. destruct Hev as [-> | ->]; (constructor; [constructor; first [done | repeat constructor] | done | done | unfold spent; simpl; lia | done]).
Qed.

Lemma commit_node_does g started execution e :
  does e (commit_node_execution sha256 opts event_payload result_intent with_child_join request_activation fence g started execution)
    (settled_as [NodeAttempt.sh_attempt_id (started_head started)]).
Proof.
  assert (Hst : forall er : GraphDriverError, settled_as [NodeAttempt.sh_attempt_id (started_head started)] (Err (Failed er) : result Stop (NodeExecutionCommit (JoinRequest := JoinRequest))) []).
  { intros er. by apply (ab_stop _ (settled_absorbs _)). }
  unfold commit_node_execution. do 2 (apply does_step; [apply settled_absorbs | solve [quiet_all] | intros ?]). destruct (bool_decide _); [apply does_ret, settled_nil |].
  apply does_step; [apply settled_absorbs | solve [quiet_all] | intros h].
  assert (Hset : does e (settled ← settle sha256 opts event_payload result_intent with_child_join fence g started h execution;
      if negb settled then mret CommitCancellationObserved else
      _ ← update (add_events 1); _ ← update add_completed; _ ← tell (ECommit (NodeAttempt.sh_attempt_id (started_head started))); mret CommitDone)
      (settled_as (A := NodeExecutionCommit (JoinRequest := JoinRequest)) [NodeAttempt.sh_attempt_id (started_head started)])).
  { apply does_step; [apply settled_absorbs | solve [quiet_all] | intros []]; cbn [negb]; [| apply does_ret, settled_nil].
    apply does_count; [done | done |]. apply does_ret. apply settled_one. by left. }
  destruct (node_outcome execution) as [[c ctl bs u|request]|er]; [exact Hset | | exact Hset].
  destruct (_ || _); [apply does_stop, Hst |]. apply does_step; [apply settled_absorbs | solve [quiet_all] | intros _].
  apply does_count1; [done |]. apply does_ret. apply settled_one. by right.
Qed.

Lemma settled_then l1 l2 {A B} (r : result Stop A) (r' : result Stop B) δ1 δ2 :
  settled_as l1 r δ1 -> settled_as l2 r' δ2 -> settled_as (l1 ++ l2) r' (δ2 ++ δ1).
Proof.
  intros [P (S1 & S2) C O T] [P' (S1' & S2') C' O' T']. destruct (events_app δ2 δ1) as (A1 & A2 & A3).
  constructor; [by apply phase_app | by rewrite A1, A2, S1, S2, S1', S2' | rewrite A3, rev_app_distr; by apply sublist_app | rewrite spent_app, length_app; lia | done].
Qed.

Lemma settled_more l1 l2 {A} (r : result Stop A) δ : settled_as l1 r δ -> settled_as (l1 ++ l2) r δ.
Proof.
  intros [P S C O T]. constructor; [done | done | | rewrite length_app; lia | done].
  rewrite rev_app_distr. trans (rev l1); [done |]. apply sublist_inserts_l. done.
Qed.

Lemma settled_retype l {A B} (r : result Stop A) (r' : result Stop B) δ : settled_as l r δ -> (forall st, r' = Err st -> r = Err st) -> settled_as l r' δ.
Proof. intros [P S C O T] H. constructor; auto. Qed.

Lemma commit_results_does g pairs : forall e,
  does e (commit_results sha256 opts event_payload result_intent with_child_join request_activation fence g pairs) (settled_as (ids pairs.*1)).
Proof.
  induction pairs as [|[started ex] rest IH]; intros e; cbn [commit_results]; [apply does_ret, settled_nil |].
  eapply does_bind; [apply commit_node_does | |].
  - intros c δ S. destruct c as [| |request]; [eapply does_weaken; [apply IH |]; intros r δ' S'; exact (settled_then [_] _ _ _ _ _ S S') | |];
      (apply does_ret; apply (settled_more [_]); eapply settled_retype; [exact S | done]).
  - intros st δ S. apply (settled_more [_]). eapply settled_retype; [exact S | by intros ? [= ->]].
Qed.

(** ** A batch fits the quantum *)

Lemma extend_batch_length (g : ExecutableGraph Capability Schema InterruptRequest Bindings Join) candidates more : extend_batch g candidates = Ok more -> (length more <= length candidates)%nat.
Proof.
  revert more. induction candidates as [|node rest IH]; simpl; intros more H; [by injection H as <- |].
  destruct (resolve_node_executor g node) as [x|]; [| done]. simpl in H. destruct (negb _); [injection H as <-; simpl; lia |].
  destruct (extend_batch g rest) as [l|] eqn:El; [| done]. injection H as <-. specialize (IH _ eq_refl). simpl. lia.
Qed.

Lemma select_batch_length (g : ExecutableGraph Capability Schema InterruptRequest Bindings Join) (plan : Recovery.ReadyNodeRecoveryPlan Capability Schema Details) events l :
  0 <= events -> events + 2 <= maximum_durable_events opts -> select_batch opts g plan events = Ok l ->
  l <> [] /\ events + 2 * Z.of_nat (length l) <= maximum_durable_events opts.
Proof.
  intros H0 H2. unfold select_batch. destruct (dispatchable plan) as [|first others]; [done |]. destruct (resolve_node_executor g first) as [x|]; [| done]. simpl.
  destruct (bool_decide (scheduling x = JournalIsolated)); simpl; [| intros [= <-]; simpl; split; [done | lia]].
  destruct (Z.ltb_spec 1 (batch_limit opts g events)) as [Hlim|]; [| intros [= <-]; simpl; split; [done | lia]].
  destruct (extend_batch g _) as [more|] eqn:Em; [| done]. intros [= <-]. split; [done |]. apply extend_batch_length in Em. rewrite length_take in Em.
  assert (Hb : 2 * batch_limit opts g events <= maximum_durable_events opts - events).
  { unfold batch_limit, saturating_sub. pose proof (Z.mul_div_le (Z.max 0 (maximum_durable_events opts - events)) 2 ltac:(lia)). lia. }
  unfold saturating_sub in Em. simpl. lia.
Qed.

(** ** Rounds *)

(** At every moment, the attempts of one kind of event are among those of another. *)
Definition always_within (f g : list Event -> list Z) (δ : list Event) : Prop := forall l, l `suffix_of` δ -> f l `sublist_of` g l.

Lemma suffix_of_app (l δ1 δ2 : list Event) : l `suffix_of` δ1 ++ δ2 -> l `suffix_of` δ2 \/ exists k, l = k ++ δ2 /\ k `suffix_of` δ1.
Proof. intros [h Hh]. apply app_eq_inv in Hh as [(k & -> & ->)|(k & -> & ->)]; [right; exists k; split; [done | by exists h] | left; by exists k]. Qed.

Lemma omap_suffix (p : Event -> option Z) l δ : l `suffix_of` δ -> omap p l `sublist_of` omap p δ.
Proof. intros [h ->]. rewrite omap_app. by apply sublist_inserts_l. Qed.

Section Within.
Variables p q : Event -> option Z.
Abbreviation f := (omap p : list Event -> list Z).
Abbreviation g := (omap q : list Event -> list Z).

Lemma within_none δ : f δ = [] -> always_within f g δ.
Proof. intros H l Hl. apply (omap_suffix p) in Hl. rewrite H in Hl. apply sublist_nil_r in Hl. rewrite Hl. apply sublist_nil_l. Qed.

Lemma within_app δ1 δ2 : always_within f g δ1 -> always_within f g δ2 -> always_within f g (δ1 ++ δ2).
Proof.
  intros H1 H2 l Hl. apply suffix_of_app in Hl as [Hl|(k & -> & Hk)]; [by apply H2 |]. rewrite !omap_app. apply sublist_app; [by apply H1 | by apply H2].
Qed.

Lemma within_later δ1 δ2 : f δ2 = [] -> f δ1 `sublist_of` g δ2 -> always_within f g (δ1 ++ δ2).
Proof.
  intros H2 H12 l Hl. apply suffix_of_app in Hl as [Hl|(k & -> & Hk)]; [by apply (within_none δ2) |]. rewrite !omap_app, H2, app_nil_r.
  trans (f δ1); [by apply omap_suffix |]. trans (g δ2); [done |]. by apply sublist_inserts_l.
Qed.
End Within.

(** Every launch follows the commit of its start, every settlement its launch. *)
Definition orderly (δ : list Event) : Prop := always_within launches starts δ /\ always_within settles launches δ.

Lemma orderly_app δ1 δ2 : orderly δ1 -> orderly δ2 -> orderly (δ1 ++ δ2).
Proof. intros [] []. split; by apply within_app. Qed.

Lemma orderly_none δ : launches δ = [] -> settles δ = [] -> orderly δ.
Proof. intros. split; by apply within_none. Qed.

Abbreviation OutcomeT := (GraphDriveOutcome (Capability := Capability) (Schema := Schema) (InterruptRequest := InterruptRequest)
  (Details := Details) (JoinRequest := JoinRequest)).

(** The outcomes that gave up the lease. *)
Definition gives_up (o : OutcomeT) : bool := match o with OCancelled _ | OYielded _ => true | _ => false end.

Record round_as (budget : Z) (r : result Stop (option OutcomeT)) (δ : list Event) : Prop := {
  ro_orderly : orderly δ;
  ro_delays : Forall delay_ok δ;
  ro_cost : spent δ <= budget;
  ro_progress : r = Ok None -> 1 <= spent δ + dues δ;
  ro_released : released δ = match r with Ok (Some o) => gives_up o | _ => false end;
  ro_stop : forall st, r = Err st -> inner_stop st
}.

Lemma round_absorbs budget : 0 <= budget -> absorbs (round_as budget).
Proof.
  intros Hb. constructor.
  - intros st δ Hd Hst. pose proof (delays_silent _ Hd) as (? & ? & ? & ? & ? & ? & ?). constructor; [by apply orderly_none | done | lia | done | done |]. by intros ? [= <-].
  - intros r δ' δ Hd [P S C O T U]. pose proof (delays_silent _ Hd) as (H1 & H2 & H3 & H4 & H5 & H6 & H7).
    constructor; [apply orderly_app; [done | by apply orderly_none] | by apply Forall_app | rewrite spent_app; lia | rewrite spent_app, dues_app; intros; specialize (O H); lia | | done].
    unfold released in *. by rewrite existsb_app, H6, orb_false_r.
Qed.

Lemma round_ret budget o : 0 <= budget -> gives_up o = false -> round_as budget (Ok (Some o)) [].
Proof. intros Hb Ho. constructor; [by apply orderly_none | constructor | unfold spent; simpl; lia | done | by rewrite Ho | done]. Qed.

(** A round that spends nothing and ends the drive. *)
Record idle_as (r : result Stop (option OutcomeT)) (δ : list Event) : Prop := {
  id_silent : spent δ = 0 /\ dues δ = 0 /\ starts δ = [] /\ launches δ = [] /\ settles δ = [];
  id_delays : Forall delay_ok δ;
  id_ends : r <> Ok None;
  id_released : released δ = match r with Ok (Some o) => gives_up o | _ => false end;
  id_stop : forall st, r = Err st -> inner_stop st
}.

Lemma idle_round budget r δ : 0 <= budget -> idle_as r δ -> round_as budget r δ.
Proof. intros Hb [(H1 & H2 & H3 & H4 & H5) A B C D]. constructor; [by apply orderly_none | done | lia | done | done | done]. Qed.

Lemma release_does outcome e : (forall r, gives_up (outcome r) = true) -> does e (release_as opts fence outcome) idle_as.
Proof.
  intros Ho s He Hr. unfold release_as, release_with_retry. simpl. pose proof (quiet_mutation (release_lease fence) e s He Hr) as (δ & Hl & Hd & Hw & Hst).
  pose proof (delays_silent _ Hw) as (H1 & H2 & H3 & H4 & H5 & H6 & H7). destruct (run (mutation opts (release_lease fence)) s) as [[x|st] s']; simpl in *.
  - exists (ERelease :: δ). rewrite Hl. split_and!; [done | exact Hd |]. by constructor; [| constructor | | rewrite Ho |].
  - exists δ. split_and!; [done | done |]. constructor; try done. intros ? [= <-]. by apply Hst.
Qed.

Lemma release_round outcome budget e : 0 <= budget -> (forall r, gives_up (outcome r) = true) -> does e (release_as opts fence outcome) (round_as budget).
Proof. intros Hb Ho. eapply does_weaken; [by apply release_does |]. intros r δ. by apply idle_round. Qed.

Lemma does_report {A} e (k : GraphDriveReport -> M W A) (Q : result Stop A -> list Event -> Prop) :
  (forall r, durable_events r = e -> does e (k r) Q) -> does e (r ← get_report; k r) Q.
Proof. intros Hk s He Hr. simpl. by apply (Hk (report s)). Qed.

Definition goes_round {A} (r : result Stop A) : result Stop (option OutcomeT) := match r with Ok _ => Ok None | Err st => Err st end.

Lemma commit_barrier_does (plan : Recovery.ReadyNodeRecoveryPlan Capability Schema Details) (b : GraphBarrierPlan Capability Schema InterruptRequest) budget e :
  1 <= budget -> does e (commit_continue_barrier sha256 opts event_payload fence plan b) (fun r => round_as budget (goes_round r)).
Proof.
  intros Hb. destruct (round_absorbs budget ltac:(lia)) as [Hs Hp].
  assert (Hab : absorbs (fun r : result Stop unit => round_as budget (goes_round r))) by (constructor; [intros st; apply Hs | intros r; apply Hp]).
  unfold commit_continue_barrier. destruct (disposition b); [| apply does_stop, Hs; [done | by split] ..].
  repeat (apply does_step; [exact Hab | solve [quiet_all] | intros ?]). apply does_count; [done | done |]. apply does_ret. simpl.
  constructor; [by apply orderly_none | by repeat constructor | unfold spent; simpl; lia | unfold spent, dues; simpl; lia | done | done].
Qed.

Lemma barrier_step_does fuel g plan live e :
  e < maximum_durable_events opts ->
  does e (barrier_step sha256 opts event_payload compact_length fence fuel g plan live) (round_as (maximum_durable_events opts - e)).
Proof.
  intros He. pose proof (round_absorbs (maximum_durable_events opts - e) ltac:(lia)) as Hab. unfold barrier_step. apply does_report. intros r Hr. rewrite Hr.
  destruct (Z.eqb_spec e (maximum_durable_events opts)); [lia |]. do 4 (apply does_step; [exact Hab | solve [quiet_all] | intros ?]).
  destruct (disposition _).
  - eapply does_bind; [apply (commit_barrier_does _ _ (maximum_durable_events opts - e)); lia | |]; [| done]. intros [] δ H. apply does_ret. exact H.
  - apply does_step; [exact Hab | solve [quiet_all] | intros ?]. apply does_ret, round_ret; [lia | done].
  - apply does_step; [exact Hab | solve [quiet_all] | intros ?]. apply does_ret, round_ret; [lia | done].
Qed.

(** *** The batch *)

(** What follows the starts of [l]: launches among them, settlements of launched ones. *)
Record ran_as (l : list Z) (r : result Stop (option OutcomeT)) (δ : list Event) : Prop := {
  ra_starts : starts δ = [];
  ra_launches : launches δ `sublist_of` rev l;
  ra_settles : always_within settles launches δ;
  ra_delays : Forall delay_ok δ;
  ra_cost : 0 <= spent δ <= Z.of_nat (length l);
  ra_dues : dues δ = 0;
  ra_released : released δ = match r with Ok (Some o) => gives_up o | _ => false end;
  ra_stop : forall st, r = Err st -> inner_stop st
}.

Lemma ran_absorbs l : absorbs (ran_as l).
Proof.
  constructor.
  - intros st δ Hd Hst. pose proof (delays_silent _ Hd) as (? & ? & ? & Hl & ? & ? & ?).
    constructor; [done | rewrite Hl; apply sublist_nil_l | by apply within_none | done | lia | done | done |]. by intros ? [= <-].
  - intros r δ' δ Hd [A B C D F G H I]. pose proof (delays_silent _ Hd) as (H1 & H2 & H3 & H4 & H5 & H6 & H7). destruct (events_app δ' δ) as (A1 & A2 & A3).
    constructor; [by rewrite A1, A, H3 | by rewrite A2, H4, app_nil_r | apply within_app; [done | by apply within_none] | by apply Forall_app | rewrite spent_app; lia | rewrite dues_app; lia | | done].
    unfold released in *. by rewrite existsb_app, H6, orb_false_r.
Qed.

Lemma started_then_ran n l δs r δ : started_as n (Ok l) δs -> ran_as (ids l) r δ -> n <> 0%nat -> round_as (2 * Z.of_nat n) r (δ ++ δs).
Proof.
  intros [[Pd Pr Pe] [S1 S2] C O T] [A B C' D F G H I] Hn. destruct (O l eq_refl) as (O1 & O2 & O3). specialize (O3 Hn). rewrite length_fmap in F.
  constructor; [split | by apply Forall_app | rewrite spent_app; lia | intros _; rewrite spent_app, dues_app; lia | | done].
  - apply within_later; [exact S1 |]. fold starts launches. by rewrite O1.
  - apply within_app; [done | by apply within_none].
  - unfold released in *. by rewrite existsb_app, Pr, orb_false_r.
Qed.

Lemma zip_prefix {A B} (l : list A) (k : list B) : exists m, l = (zip l k).*1 ++ m.
Proof. revert k. induction l as [|x l IH]; intros [|y k]; simpl; [by exists [] | by exists [] | by exists (x :: l) |]. destruct (IH k) as [m Hm]. exists m. by f_equal. Qed.

Lemma executed_ran l {A} (all : A -> Prop) (r : result Stop A) δ r' :
  launched_as l all r δ -> (match r' with Ok (Some o) => gives_up o = false | _ => True end) -> (forall st, r' = Err st -> r = Err st) -> ran_as l r' δ.
Proof.
  intros [[Pd Pr Pe] (S1 & S2 & S3) C O T] Ho Hst. constructor; [done | done | by apply within_none | done | lia | done | | auto].
  rewrite Pr. destruct r' as [[o|]|]; [by rewrite Ho | done | done].
Qed.

Lemma idle_ran l {A} (all : A -> Prop) (r : result Stop A) δ r' δ' : launched_as l all r δ -> idle_as r' δ' -> ran_as l r' (δ' ++ δ).
Proof.
  intros [[Pd Pr Pe] (S1 & S2 & S3) C O T] [(H1 & H2 & H3 & H4 & H5) X Y Z0 F]. destruct (events_app δ' δ) as (B1 & B2 & B3).
  constructor; [by rewrite B1, H3 | by rewrite B2, H4 | apply within_none; fold settles; by rewrite B3, H5 | by apply Forall_app | rewrite spent_app; lia | rewrite dues_app; lia | | done].
  unfold released in *. by rewrite existsb_app, Pr, orb_false_r.
Qed.

Lemma settled_ran l m {A} (all : A -> Prop) r δ (join : result Stop (option JoinRequest)) δ' :
  launched_as (l ++ m) all r δ -> launches δ = rev (l ++ m) -> settled_as l join δ' ->
  ran_as (l ++ m) (match join with Ok j => Ok (OChildJoin <$> j) | Err st => Err st end) (δ' ++ δ).
Proof.
  intros [[Pd Pr Pe] (S1 & S2 & S3) C O T] HL [[Pd' Pr' Pe'] (A1 & A2) B D F]. destruct (events_app δ' δ) as (E1 & E2 & E3).
  constructor; [by rewrite E1, A1 | by rewrite E2, A2 | | by apply Forall_app | rewrite spent_app, length_app; lia | rewrite dues_app; lia | |].
  - apply within_later; [exact S2 |]. fold settles launches. rewrite HL, rev_app_distr. by apply sublist_inserts_l.
  - unfold released in *. rewrite existsb_app, Pr, Pr'. by destruct join as [[]|].
  - intros st Hst. destruct join; [done |]. apply F. congruence.
Qed.

Lemma run_started_does fuel g (plan : Recovery.ReadyNodeRecoveryPlan Capability Schema Details) started lease e :
  does e (execution ← execute_started_nodes opts fence fuel started (Recovery.plan_checkpoint plan) lease;
          match execution with
          | ExecutionCancelled => release_as opts fence OCancelled
          | RunCancellationObserved => mret None
          | Finished results =>
              join ← commit_results sha256 opts event_payload result_intent with_child_join request_activation fence g (zip started results);
              mret (OChildJoin <$> join)
          end) (ran_as (ids started)).
Proof.
  eapply does_bind; [apply execute_does | |].
  - intros [results| |] δ L.
    + destruct (zip_prefix started results) as [m Hm]. assert (Hl : launches δ = rev (ids started)) by (by apply (la_all _ _ _ _ L (Finished results))).
      assert (Hids : ids started = ids (zip started results).*1 ++ ids m) by (by rewrite <- fmap_app, <- Hm). rewrite Hids in L, Hl.
      eapply does_bind; [apply commit_results_does | |].
      * intros j δ' S. apply does_ret. rewrite Hids. exact (settled_ran _ _ _ _ _ _ _ L Hl S).
      * intros st δ' S. rewrite Hids. exact (settled_ran _ _ _ _ _ _ _ L Hl S).
    + eapply does_weaken; [by apply release_does |]. intros r δ' I. by eapply idle_ran.
    + apply does_ret. by eapply executed_ran.
  - intros st δ L. by eapply executed_ran; [| | intros ? [= ->]].
Qed.

Lemma batch_step_does fuel g (plan : Recovery.ReadyNodeRecoveryPlan Capability Schema Details) e :
  0 <= e < maximum_durable_events opts ->
  does e (batch_step sha256 opts event_payload result_intent with_child_join request_activation fence fuel g plan) (round_as (maximum_durable_events opts - e)).
Proof.
  intros He. pose proof (vo_events _ options_valid) as Hm. unfold HARD_MAXIMUM_DURABLE_EVENTS in Hm. pose proof (round_absorbs (maximum_durable_events opts - e) ltac:(lia)) as Hab.
  unfold batch_step. apply does_report. intros r Hr. rewrite Hr.
  destruct (Z.ltb_spec (maximum_durable_events opts) (saturating_add u32_max e 2)) as [|Hroom]; [apply release_round; [lia | done] |].
  destruct (select_batch opts g plan e) as [selected|er] eqn:Es; [| apply does_stop, Hab; [done | by split]].
  apply select_batch_length in Es as [Hne Hlen]; [| lia | unfold saturating_add, u32_max in Hroom; lia].
  assert (Hn : length selected <> 0%nat) by (by destruct selected).
  assert (Hle : forall r δ, round_as (2 * Z.of_nat (length selected)) r δ -> round_as (maximum_durable_events opts - e) r δ).
  { intros r' δ [A B C D F G]. constructor; try done. lia. }
  intros s Hs Hu. refine (does_bind e _ _ (started_as (length selected)) _ (start_nodes_does _ _ _ _ _) _ _ s Hs Hu).
  - intros started δ S. destruct (Nat.eqb_spec (length started) 0) as [H0|H0].
    + apply does_ret, Hle. apply (started_then_ran _ started); [done | | done]. constructor; try done; [apply sublist_nil_l | by apply within_none | unfold spent; simpl; lia].
    + eapply does_weaken; [| intros r' δ' R; apply Hle; by eapply started_then_ran].
      do 2 (apply does_step; [apply ran_absorbs | solve [quiet_all] | intros ?]). apply run_started_does.
  - intros st δ [P [S1 S2] C O T]. apply Hle. destruct P. constructor; [by apply orderly_none | done | lia | done | done |]. by intros ? [= <-]; apply T.
Qed.

(** *** One round, and all of them *)

Lemma quiet_hand_over (plan : Recovery.ReadyNodeRecoveryPlan Capability Schema Details) live :
  quiet (hand_over_cancellation (InterruptRequest := InterruptRequest) (JoinRequest := JoinRequest) fence plan live).
Proof. unfold hand_over_cancellation. quiet_all. Qed.

Lemma hand_over_not_given_up (plan : Recovery.ReadyNodeRecoveryPlan Capability Schema Details) live o s s' :
  run (hand_over_cancellation (InterruptRequest := InterruptRequest) (JoinRequest := JoinRequest) fence plan live) s = (Ok o, s') -> gives_up o = false.
Proof.
  unfold hand_over_cancellation. cbn -[head bool_decide negb]. destruct (exact_live_lease fence live); simpl; [| done]. destruct (cancellation_failure_id live); simpl; [| done].
  destruct (stored_checkpoint live) as [[[]]|]; simpl; [| done]. destruct (_ || _); simpl; [done |]. destruct (generate (world s)). by intros [= <- _].
Qed.

Lemma hand_over_does (plan : Recovery.ReadyNodeRecoveryPlan Capability Schema Details) live budget e :
  0 <= budget -> does e (o ← hand_over_cancellation fence plan live; mret (Some o)) (round_as budget).
Proof.
  intros Hb s He Hr. pose proof (quiet_hand_over plan live e s He Hr) as (δ & Hl & Hd & Hw & Hst). destruct (round_absorbs budget Hb) as [As Ap].
  remember (hand_over_cancellation fence plan live) as m eqn:Em. simpl. destruct (run m s) as [[o|st] s'] eqn:Eh; exists δ; (split_and!; [done | done |]).
  - apply (Ap _ [] δ Hw), round_ret; [done |]. subst m. by eapply hand_over_not_given_up.
  - apply As; [done |]. by apply Hst.
Qed.

Lemma drive_step_does fuel g e :
  0 <= e <= maximum_durable_events opts ->
  does e (drive_step sha256 opts event_payload compact_length result_intent with_child_join request_activation fence fuel g)
    (round_as (maximum_durable_events opts - e)).
Proof.
  intros He. pose proof (round_absorbs (maximum_durable_events opts - e) ltac:(lia)) as Hab. unfold drive_step.
  apply does_step; [exact Hab | solve [quiet_all] |]. intros []; [apply release_round; [lia | done] |]. apply does_report. intros r Hr. rewrite Hr.
  destruct (Z.leb_spec (maximum_durable_events opts) e); [apply release_round; [lia | done] |].
  do 3 (apply does_step; [exact Hab | solve [quiet_all] | intros ?]). destruct (bool_decide _); [apply hand_over_does; lia |].
  destruct (negb _).
  { do 2 (apply does_step; [exact Hab | solve [quiet_all] | intros ?]). apply does_ret, round_ret; [lia | done]. }
  destruct (Recovery.is_barrier_ready _); [apply barrier_step_does; lia |].
  destruct (Recovery.earliest_deferred_at _) as [t|]; [| apply batch_step_does; lia]. destruct (all_deferred _); [| apply batch_step_does; lia].
  apply does_step; [exact Hab | unfold schedule_deferred_with_retry; solve [quiet_all] |]. intros [n|n|n]; [apply does_ret, round_ret; [lia | done] .. |].
  apply does_say; [done |]. apply does_ret. simpl.
  constructor; [by apply orderly_none | by repeat constructor | unfold spent; simpl; lia | unfold spent, dues; simpl; lia | done | done].
Qed.

Record drive_as (budget : Z) (fuel : nat) (r : result Stop OutcomeT) (δ : list Event) : Prop := {
  dr_orderly : orderly δ;
  dr_delays : Forall delay_ok δ;
  dr_cost : spent δ <= budget;
  dr_released : released δ = match r with Ok o => gives_up o | Err _ => false end;
  dr_retries : r <> Err (OutOfFuel RetryLoop);
  dr_rounds : r = Err (OutOfFuel DriveLoop) -> Z.of_nat fuel <= spent δ + dues δ
}.

Lemma drive_absorbs budget fuel : 0 <= budget -> absorbs (drive_as budget fuel).
Proof.
  intros Hb. constructor.
  - intros st δ Hd [Hst Hst']. pose proof (delays_silent _ Hd) as (? & ? & ? & ? & ? & ? & ?). constructor; [by apply orderly_none | done | lia | done | congruence | congruence].
  - intros r δ' δ Hd [A B C D F G]. pose proof (delays_silent _ Hd) as (H1 & H2 & H3 & H4 & H5 & H6 & H7).
    constructor; [apply orderly_app; [done | by apply orderly_none] | by apply Forall_app | rewrite spent_app; lia | | done | intros Hr; specialize (G Hr); rewrite spent_app, dues_app; lia].
    unfold released in *. by rewrite existsb_app, H6, orb_false_r.
Qed.

Lemma drive_loop_does inner g fuel : forall e, 0 <= e <= maximum_durable_events opts ->
  does e (drive_loop sha256 opts event_payload compact_length result_intent with_child_join request_activation fence fuel inner g)
    (drive_as (maximum_durable_events opts - e) fuel).
Proof.
  pose proof (vo_events _ options_valid) as Hm. unfold HARD_MAXIMUM_DURABLE_EVENTS in Hm.
  induction fuel as [|fuel IH]; intros e He; cbn [drive_loop].
  { apply does_stop. constructor; [by apply orderly_none | constructor | unfold spent; simpl; lia | done | done | done]. }
  eapply does_bind; [by apply drive_step_does | |].
  - intros [o|] δ [A B C D F G].
    + apply does_ret. by constructor.
    + specialize (D eq_refl). pose proof (spent_nonneg δ). rewrite Z.min_r by (unfold u32_max; lia). eapply does_weaken; [apply IH; lia |].
      intros r δ' [A' B' C' D' F' G']. constructor; [by apply orderly_app | by apply Forall_app | rewrite spent_app; lia | | done | intros Hr; specialize (G' Hr); rewrite spent_app, dues_app; lia].
      unfold released in *. by rewrite existsb_app, F, orb_false_r.
  - intros st δ [A B C D F G]. destruct (G st eq_refl) as [G1 G2]. constructor; [done | done | done | done | congruence | congruence].
Qed.

Lemma drive_inner_does fuel inner :
  does 0 (drive_inner sha256 opts event_payload resolve compact_length result_intent with_child_join request_activation fence fuel inner)
    (drive_as (maximum_durable_events opts) fuel).
Proof.
  pose proof (vo_events _ options_valid) as Hm. pose proof (drive_absorbs (maximum_durable_events opts) fuel ltac:(lia)) as Hab. unfold drive_inner.
  repeat (apply does_step; [exact Hab | solve [quiet_all] | intros ?]). rewrite <- (Z.sub_0_r (maximum_durable_events opts)). apply drive_loop_does. lia.
Qed.

End Laws.

(** ** One node, then a shutdown *)

Module Demo.
Import RecoveryLaws.Replay.
#[local] Existing Instance demo_encoder.

(** The world: whether the node has completed. *)
Definition lease : RunLease.RunLease := RunLease.mkLease (demo_fence 12 2) 10 10 1000000.
Definition stored : StoredRun := mkStoredRun false (Some lease) (Some (demo_journal 4 30)) Active 3 None (Some (1, 0, [])).
Definition start_of (attempt : Z) : NodeAttempt.NodeAttemptStartHead Z Z :=
  NodeAttempt.mkStartHead (demo_activation (bytes_of "b")) attempt (demo_fence 12 2) (demo_journal 5 31) [].

#[local] Instance demo_env : Env bool Z Z unit unit unit unit unit unit unit := {|
  is_cancelled w := (w, w);
  generate w := (77, w);
  instant_now w := (0, w);
  lease_duration := 30 * NANOS_PER_SEC;
  zero_usage := tt;
  observe_live_lease _ w := (Ok (lease, 31), w);
  renew_lease _ _ w := (Ok (Renewed (RunLease.mkLease (demo_fence 12 2) 10 31 40000000)), w);
  release_lease _ w := (Ok Released, w);
  load_run _ w := (Ok stored, w);
  begin_claimed_run_recovery _ _ _ _ w := (Ok (stored, 31), w);
  load_pinned_graph w := (Ok (mkGraphReference 1 [1] 7), w);
  validate_noninitial_replay w := (Ok tt, w);
  plan_ready_nodes w := (Ok demo_plan, w);
  revalidate w := (Ok stored, w);
  load_result_page _ _ w := (Ok (mkResultPage (demo_journal 4 30) [] false None), w);
  append_worker_barrier _ _ w := (Ok tt, w);
  start_recovered_node_attempt _ _ _ attempt w := (Ok (Committed (demo_journal 5 31) (start_of attempt)), w);
  succeed_node_attempt _ _ _ _ _ := (Ok tt, true);
  fail_node_attempt _ _ _ _ _ := (Ok tt, true);
  register_child_join _ _ _ w := (Ok tt, w);
  schedule_delayed_retry_wakeup _ w := (Ok (Due 0), w);
  next_signal w := (Joined (Some (0%nat, Returned (Ok (mkFinished (Ok (Completed Unchanged Continue tt tt)) None)))), w)
|}.

Definition opts : DurableGraphDriverOptions := Eval vm_compute in
  match options_new 4096 8 (10 * NANOS_PER_SEC) (60 * NANOS_PER_SEC) 3 1000000 with Ok o => o | Err _ => mkOptions 0 0 0 0 0 0 0 0 0 end.
Definition payload : Journal.JournalPayload Z := Journal.mkPayload 7 (bytes_of "node") (mkBoundedJson Null (mkJsonStats 4 0 1)) [7].
Definition executable : ExecutableGraph Z Z unit unit unit :=
  mkExecutable (mkGraphReference 1 [1] 7) (mkLimits 10 4) (fun _ => Some (mkExecutor Exclusive false)) (fun _ _ _ => Err GraphReferenceMismatch).
Definition the_drive := drive (E := demo_env) demo_sha opts (fun _ => Ok payload) (fun _ => Some executable) (fun _ => Some 1)
  (fun a c k b => Some (mkResultIntent a c k b None [])) (fun i _ => Some i) (fun _ => demo_activation (bytes_of "b")) (demo_fence 12 2) 9 9 false.

Lemma the_log : log the_drive.2 = [ERelease; ECommit 77; ELaunch 77; EStart 77 true] /\ the_drive.1 = Ok (OCancelled Released).
Proof. split; vm_compute; reflexivity. Qed.

End Demo.
End DriverLaws.
